(* ===== verification/_CoqProject ===== *)
-Q . S2P
Prelude.v
TensorShape.v
Transpose.v
DataTypes.v
DataTypesProps.v
BfcArena.v
BfcLayout.v
BfcRegions.v
BfcBins.v
BfcArenaInv.v
BfcArenaAlloc.v
BfcArenaSpec.v
BfcArenaClient.v
BfcArenaProps.v
MemPattern.v
AllocPlanner.v
AllocPlannerInv.v
AllocPlannerReuse.v
AllocPlannerFree.v
AllocPlannerSteps.v
AllocPlannerProps.v
SafePlan.v
Graph.v
GraphInv.v
GraphTopo.v
GraphDfs.v
GraphResolve.v
GraphProps.v
TransposeProps.v
Broadcast.v
BroadcastInv.v
BroadcastProps.v
ExecutionFrame.v
AllocSize.v
ExecutionInv.v
ExecutionSteps.v
ExecutionInit.v
ExecutionProps.v
Devices.v
DevicesProps.v
ParallelExecutor.v
ParallelInv.v
ParallelProps.v
TensorProto.v
TensorProtoProps.v
SessionInit.v
WeightsInv.v
WeightsProps.v
SessionInitProps.v
Session.v
SessionProps.v
SessionLife.v
KernelRegistry.v
KernelRegistryProps.v
DataMove.v
DataMoveRows.v
ConcatSplit.v
GatherProps.v
SliceProps.v
ReshapeProps.v
Im2col.v
Im2colProps.v
Im2colNdProps.v
Im2colRoundtrip.v
Im2colNhwc.v
Conv.v
ConvShapes.v
ConvGeometry.v
ConvProps.v
ConvCorrect.v
ConvTransposeProps.v
MatMul.v
MatMulProps.v
MatMulCorrect.v
GemmProps.v
