(* ===== verification/Prelude.v ===== *)
(** * ONNX Runtime

    ONNX Runtime loads a graph of operators from a model file, plans the memory
    of its values, and runs it with the kernels of one or more execution
    providers. This library models the path from the loaded model to the
    results of a run, with the allocator below it and some kernels on top, as
    executable Rocq definitions, and proves what each part promises to the next.
    Paths below are relative to [src/onnxruntime/core].

    ** The parts and their files

    - Memory. [BfcArena] is [BFCArena] of [framework/bfc_arena.{h,cc}]: chunks,
      bins and regions in a record, one function for each method; the device
      below is a class. [BfcLayout], [BfcRegions], [BfcBins], [BfcArenaInv],
      [BfcArenaAlloc], [BfcArenaSpec] and [BfcArenaClient] build the invariant
      up, [BfcArenaProps] holds the theorems: held blocks are disjoint and large
      enough, the arena refines an abstract heap, chunks tile the regions,
      [Alloc] returns. [AllocSize] is the size of arrays of [allocator.h].
    - Patterns. [MemPattern] is the planner of [mem_pattern_planner.h] and the
      patterns it makes ([mem_pattern.h], [ml_value_patterns_planner.h]): values
      that live at the same time do not overlap.
    - Planning. [AllocPlanner] is [allocation_planner.cc] with the names of
      [mlvalue_name_idx_map.h]; [AllocPlannerInv], [AllocPlannerReuse],
      [AllocPlannerFree] and [AllocPlannerSteps] carry the invariant of its
      loops, [AllocPlannerProps] says when buffers are shared and freed, and
      [SafePlan] is the contract with the executor.
    - Graphs. [Graph] is the structure of [graph/graph.cc]: nodes, edges, names,
      the structural part of [Resolve], and the two traversals. [GraphInv],
      [GraphTopo], [GraphDfs], [GraphResolve] and [GraphProps] show that edges
      stay consistent and that orders are topological.
    - Types. [DataTypes] is [framework/data_types.{h,cc}]: the type objects, the
      test whether a type message fits one of them, and the type for a message;
      [DataTypesProps] shows that a message has one type at most, opaque types
      apart, and which one [TypeFromProto] gives.
    - Kernels. [TensorShape], [Transpose] with [TransposeProps], and [Broadcast]
      with [BroadcastInv] and [BroadcastProps] are
      [framework/tensor_shape.cc], [providers/cpu/tensor/transpose.cc] and
      [providers/cpu/math/element_wise_ops.{h,cc}]: what is computed at each
      index. [DataMove] holds the kernels of [providers/cpu/tensor] that move
      elements or change shapes (Concat, Split, Gather, Slice with its iterator,
      Reshape, Squeeze, Unsqueeze); [DataMoveRows] has the lemmas on copies,
      [ConcatSplit], [GatherProps], [SliceProps] and [ReshapeProps] say where
      each element goes, that bad arguments are refused, and which kernels undo
      each other.
    - Convolutions. [Im2col] is the unfolding of images of [util/math_cpu.cc] and
      [util/math.h]. [Im2colProps] shows that the fast paths do what the general
      loops do, [Im2colNdProps] treats any number of axes, [Im2colNhwc] the other
      storage order, and [Im2colRoundtrip] says what is computed on every path and
      when folding undoes unfolding. [Conv] is [conv_base.h], [conv_impl.h],
      [conv.cc], [conv_integer.cc] and [conv_transpose.cc] of
      [providers/cpu/nn]. [ConvShapes] shows that sizes computed in [float] are
      right below [2 ^ 23], [ConvGeometry] what the checks of the shapes give,
      and [ConvProps], [ConvCorrect] and [ConvTransposeProps] give every element
      of the output of ConvInteger, Conv (for filters that the kernel does not
      leave to [mlas]) and ConvTranspose.
    - Matrix products. [MatMul] is [matmul_helper.h], [matmul.cc],
      [gemm_helper.h] and [gemm.h] of [providers/cpu/math]. [MatMulProps] has the
      offsets of broadcast stacks of matrices and the shapes, [MatMulCorrect]
      says what MatMul computes, what it refuses and where it departs from
      [numpy.matmul], and [GemmProps] does the same for Gemm and its bias.
    - Registries. [KernelRegistry] is [framework/kernel_def_builder.{h,cc}],
      [kernel_registry.cc] and [kernel_registry_manager.cc];
      [KernelRegistryProps] says which kernel a node gets, that it does not
      depend on the order of registration, for the types of [DataTypes], and
      that the planner and the initializer get the same one.
    - Runs. [ExecutionFrame] is [execution_frame.cc], [op_kernel.cc] and
      [sequential_executor.cc]; [ExecutionInv], [ExecutionSteps],
      [ExecutionInit] and [ExecutionProps] show that a planned run touches live
      memory only and gives back what nobody holds. [Devices] and
      [DevicesProps] are the providers and the copies around a run
      ([execution_providers.h], [utils.cc]). [ParallelExecutor], [ParallelInv]
      and [ParallelProps] are [parallel_executor.{h,cc}] with the thread pool of
      [common/task_thread_pool.h] under every interleaving of its threads.
    - Weights. [TensorProto] and [TensorProtoProps] are [tensorutils.cc] and
      [tensorprotoutils.cc]: reading the elements of a message.
    - Sessions. [SessionInit] is [session_state_initializer.cc]: numbering,
      plan, weights, kernels, mapping of inputs; [WeightsInv] and [WeightsProps]
      show that every weight has memory of its own, [SessionInitProps] that the
      result is what a run relies on. [Session] is
      [session/inference_session.cc] and [session/IOBinding.cc];
      [SessionProps] goes from a model to the results of a run, [SessionLife]
      shows what holds under any calls of the user.

    This file holds what all share: outcomes, statuses, machine integers, the
    hint database [ort], tactics and lemmas on lists and folds.

    ** How code is modelled

    An operation that can fail an [ORT_ENFORCE] or access memory that is not
    there returns a [res]: [Throw EnforceFailed] is any [std::exception],
    [Throw UndefinedBehaviour] a null or out-of-range access. A [Status] is
    [None] when it is OK. Integers are [Z], with [u64], [i64] and [i32] where
    the code can wrap. Objects that are mutated are passed and returned. Memory
    outside the arena is a [Heap] of numbered buffers with the set of those
    given back; a value that a second owner holds is marked as shared. What the
    sources do not contain, or what belongs to another part, is an argument: the
    device of the arena, the kernels, the copies of providers other than the
    CPU, the products of matrices, the text that ONNX gives a type, the model
    loader and the transformers, with
    the hypotheses that the theorems need stated in records such as
    [DeviceLaws], [GraphOk], [RunOk], [CpuOnly], [InitOk], [KernelsOk],
    [ConvArgs] and [TransposeArgs]. They also exclude the inputs for which the
    code is wrong; lemmas show what it does there, such as
    [large_region_undefined], [transpose_short_perm], [division_by_zero],
    [transpose_dilations_ignored], [zero_point_vector],
    [gemm_scalar_bias_refused], [opaque_domains_ignored] and
    [empty_pool_hangs]. The executor and the session are parametric in the types
    of values, through the classes [TensorTypes], [ValueTypes] and
    [ElementTypes]; their examples use [MLDataType]. Each theorem with hypotheses
    has a witness on a concrete input.

    The state machines are step relations: [arena_step] and [heap_step] for the
    clients of the arena, the operations on graphs, the steps of the threads of
    the parallel executor and of its pool, and [session_step] for the calls on a session.

    ** How the theorems fit together

    [session_initialized] uses [build_session_ok], which uses the plan of
    [CreatePlan_safe], the weights of [weights_values] and the mapping of
    [save_mapping_ok]; its result, [Ready], is the premise of [session_run],
    which uses [execute_graph_ok] for the copies, which uses [Execute_ok] for
    the executor, which relies on the plan through [SafePlan] only. [session_run]
    leaves [Ready] again, so the account of memory holds for any number of runs.

    ** Fuel

    Loops that are not structural take fuel and yield [OutOfFuel] when it ends.
    The topological sort and the reverse depth-first search are given a bound
    computed from the graph and are proved never to run out. [Alloc] of more
    than 2560 bytes returns within 401 rounds; for smaller requests the loop of
    [Extend] need not end, which is a theorem of its own. The broadcasting loop
    is given the number of elements of the output. The parallel executor has no
    fuel: its steps decrease a measure. The loops of the unfolding and of the
    convolutions are folds over the range of their counters; the loop of
    [Im2colNd], which ends when its counters overflow, is given the number of the
    positions of the window and is proved to end by then.

    ** Not modelled

    - Arithmetic of floating-point numbers, but for the sizes of convolutions,
      whose [float] operations are written out on rational numbers: elements are
      bit patterns or of any type with the operations of a class. The products of
      matrices, of Eigen, mlas and gemmlowp, are arguments of the convolutions,
      of MatMul and of Gemm, with the rule for an element as hypothesis.
    - Threads other than those of the parallel executor; the locks of the arena
      and of the session are held for a whole operation.
    - Sessions of subgraphs and the control-flow kernels; fences other than as
      calls; the profiler, logging and error texts.
    - What an exception leaves in memory, and what a failed [Initialize] leaves
      in the state of the session: a second call after it is no step of
      [session_step]. What a failed transformation leaves of the graph is an
      argument.
    - The pool of Eigen, which a build option puts in place of the thread pool,
      and runs that share a pool.
    - Model files as a whole ([graph/model.cc]), type and shape inference,
      functions, the fusing transformers, the partitioner and the transformers
      that insert casts and copies: they make the graph that the session
      initializer is given.
    - The kernels not named above, [mlas], the providers for other devices, the
      C API and the bindings for other languages: they are loops over library
      calls or conversions of arguments. *)
From stdpp Require Export base gmap list strings sorting.
From Stdlib Require Export ZArith Lia.
Global Open Scope Z_scope.

(** What an operation of the C++ code can do besides returning a value:
    fail an [ORT_ENFORCE] (or execute [ORT_THROW]), or perform an access that
    the language leaves undefined (null or out-of-range dereference). *)
Inductive exn :=
  | EnforceFailed
  | UndefinedBehaviour.

(** Outcome of an operation.  [OutOfFuel] is the outcome of a loop cut off by
    its fuel before it ended. *)
Inductive res (A : Type) :=
  | Ok (a : A)
  | Throw (e : exn)
  | OutOfFuel.
Arguments Ok {A} a.
Arguments Throw {A} e.
Arguments OutOfFuel {A}.

Global Instance res_ret : MRet res := fun A a => Ok a.
Global Instance res_bind : MBind res := fun A B f m =>
  match m with
  | Ok a => f a
  | Throw e => Throw e
  | OutOfFuel => OutOfFuel
  end.

(** [ORT_ENFORCE(b)]. *)
Definition enforce (b : bool) : res unit := if b then Ok tt else Throw EnforceFailed.

Definition of_option {A} (e : exn) (o : option A) : res A :=
  match o with Some a => Ok a | None => Throw e end.

(** Machine integers: [u64] is the value of a [size_t]/[uint64_t] expression,
    [i64] and [i32] the conversion to [int64_t] and [int]. *)
Definition u64 (z : Z) : Z := z mod 2 ^ 64.
Definition i64 (z : Z) : Z := (z + 2 ^ 63) mod 2 ^ 64 - 2 ^ 63.
Definition i32 (z : Z) : Z := (z + 2 ^ 31) mod 2 ^ 32 - 2 ^ 31.

(** Status codes of [common::Status]; a status is [None] when it is OK. *)
Inductive StatusCode :=
  | FAIL | INVALID_ARGUMENT | NO_SUCHFILE | NO_MODEL | ENGINE_ERROR | RUNTIME_EXCEPTION
  | INVALID_PROTOBUF | MODEL_LOADED | NOT_IMPLEMENTED | INVALID_GRAPH
  | SHAPE_INFERENCE_NOT_REGISTERED | REQUIREMENT_NOT_REGISTERED.
Definition Status : Type := option StatusCode.
Definition StatusOK : Status := None.
Definition IsOK (s : Status) : bool := match s with None => true | Some _ => false end.

(** [set_solver] on the hypotheses about membership and (dis)equality of
    handles only. *)
Ltac mem_solver :=
  repeat match goal with
  | H : ?T |- _ =>
      lazymatch type of T with Prop => idtac | _ => fail end;
      lazymatch T with
      | context [_ ∈ _] => fail
      | @eq nat _ _ => fail
      | ~ (@eq nat _ _) => fail
      | _ => clear H
      end
  end; set_solver.

(** ** Machine integers *)

Lemma u64_small z : 0 ≤ z < 2 ^ 64 → u64 z = z.
Proof. intros. unfold u64. by apply Z.mod_small. Qed.
Lemma i32_small z : 0 ≤ z < 2 ^ 31 → i32 z = z.
Proof. intros. unfold i32. rewrite Z.mod_small; lia. Qed.
Lemma u64_range z : 0 ≤ u64 z < 2 ^ 64.
Proof. unfold u64. apply Z.mod_pos_bound. lia. Qed.

Lemma u64_mod256 z : u64 z mod 256 = z mod 256.
Proof. unfold u64. apply Z.mod_mod_divide. by exists (2 ^ 56). Qed.

Lemma i64_small z : - 2 ^ 63 ≤ z < 2 ^ 63 → i64 z = z.
Proof. intros. unfold i64. rewrite Z.mod_small; lia. Qed.

(** Decides side conditions on the range of machine integers. *)
Create HintDb ort.
Create Rewrite HintDb ort.
#[export] Hint Resolve u64_range : ort.
#[export] Hint Extern 4 (_ ≤ _ < _) => lia : ort.
#[export] Hint Extern 4 (_ ≤ _ ≤ _) => lia : ort.
#[export] Hint Rewrite u64_small i64_small i32_small using lia : ort.

(** ** Sorted lists *)

Lemma StronglySorted_lookup {A} (R : relation A) l i j x y :
  StronglySorted R l → l !! i = Some x → l !! j = Some y → (i < j)%nat → R x y.
Proof.
  intros Hs. revert i j. induction Hs as [|a l Hs IH Ha]; intros [|i] [|j] Hi Hj Hij;
    simplify_eq/=; try lia.
  - by eapply Forall_lookup_1.
  - eapply IH; eauto. lia.
Qed.

Lemma StronglySorted_lookup_2 {A} (R : relation A) l :
  (∀ i j x y, l !! i = Some x → l !! j = Some y → (i < j)%nat → R x y) → StronglySorted R l.
Proof.
  induction l as [|a l IH]; intros H; constructor.
  - apply IH. intros i j x y Hi Hj Hij. eapply (H (S i) (S j)); eauto; lia.
  - apply Forall_lookup_2. intros j y Hj. eapply (H 0%nat (S j)); eauto; lia.
Qed.

Lemma StronglySorted_filter {A} (R : relation A) (Q : A → Prop) `{!∀ x, Decision (Q x)} l :
  StronglySorted R l → StronglySorted R (filter Q l).
Proof.
  induction 1 as [|x l Hs IH Hf]; [constructor|]. rewrite filter_cons.
  case_decide; [|done]. constructor; [done|].
  apply Forall_forall. intros y [_ Hy]%list_elem_of_filter. by eapply Forall_forall in Hf.
Qed.

Lemma StronglySorted_impl {A} (R R' : relation A) l :
  (∀ x y, x ∈ l → y ∈ l → R x y → R' x y) → StronglySorted R l → StronglySorted R' l.
Proof.
  intros HR Hs. induction Hs as [|x l Hs IH Hf]; constructor.
  - apply IH. intros; apply HR; [by right|by right|done].
  - apply Forall_forall. intros y Hy. apply HR; [by left|by right|]. by eapply Forall_forall in Hf.
Qed.

(** ** Lists *)

Lemma list_filter_all {A} (P : A → Prop) `{!∀ x, Decision (P x)} (l : list A) :
  (∀ x, x ∈ l → P x) → filter P l = l.
Proof.
  induction l as [|x l IH]; intros HP; [done|].
  rewrite filter_cons_True by (apply HP; by left). f_equal. apply IH. intros. apply HP. by right.
Qed.

Lemma sublist_map {A B} (f : A → B) (l l' : list A) : l' `sublist_of` l → f <$> l' `sublist_of` f <$> l.
Proof. induction 1; csimpl; by constructor. Qed.
Lemma sublist_Forall {A} (P : A → Prop) (l l' : list A) : l' `sublist_of` l → Forall P l → Forall P l'.
Proof. rewrite !Forall_forall. intros Hs HP x Hx. apply HP. by eapply elem_of_sublist. Qed.
Lemma sublist_sorted {A} (R : A → A → Prop) (l l' : list A) :
  l' `sublist_of` l → StronglySorted R l → StronglySorted R l'.
Proof.
  induction 1 as [|x l' l Hs IH|x l' l Hs IH]; [done|..]; intros [Hl Hx]%StronglySorted_inv; [|auto].
  constructor; [auto|]. by eapply sublist_Forall.
Qed.

Lemma sublist_omap {A B} (f : A → option B) (l l' : list A) :
  l `sublist_of` l' → omap f l `sublist_of` omap f l'.
Proof.
  induction 1 as [|x l l' _ IH|x l l' _ IH]; simpl; [done|..]; destruct (f x); try done;
    [by apply sublist_skip|by apply sublist_cons].
Qed.

(** A loop over a list whose body can fail. *)
Fixpoint foldM {S A} (f : S → A → res S) (s : S) (l : list A) : res S :=
  match l with
  | [] => Ok s
  | x :: l' => s ← f s x; foldM f s l'
  end.

Lemma foldM_app {S A} (f : S → A → res S) s l1 l2 :
  foldM f s (l1 ++ l2) = (s ← foldM f s l1; foldM f s l2).
Proof.
  revert s. induction l1 as [|x l1 IH]; intros s; simpl; [done|]. destruct (f s x); simpl; auto.
Qed.

(** An invariant of the body is an invariant of the loop. *)
Lemma foldM_inv {S A} (I : S → list A → Prop) (f : S → A → res S) s l :
  I s l →
  (∀ s x l', I s (x :: l') → ∃ s', f s x = Ok s' ∧ I s' l') →
  ∃ s', foldM f s l = Ok s' ∧ I s' [].
Proof.
  intros HI Hf. revert s HI. induction l as [|x l IH]; intros s HI; simpl; [eauto|].
  destruct (Hf s x l HI) as (s' & -> & HI'). simpl. auto.
Qed.

Lemma foldM_total {S A} (I : S → Prop) (f : S → A → res S) s l :
  I s → (∀ s x, x ∈ l → I s → ∃ s', f s x = Ok s' ∧ I s') → ∃ s', foldM f s l = Ok s' ∧ I s'.
Proof.
  intros HI Hf. revert s HI. induction l as [|x l IH]; intros s HI; simpl; [eauto|].
  destruct (Hf s x ltac:(by left) HI) as (s' & -> & HI'). simpl. apply IH; [|done].
  intros; apply Hf; [by right|done].
Qed.

Lemma foldM_ext {S A} (f g : S → A → res S) s l : (∀ s x, f s x = g s x) → foldM f s l = foldM g s l.
Proof.
  intros H. revert s. induction l as [|x l IH]; intros s; simpl; [done|]. rewrite H. destruct (g s x); simpl; auto.
Qed.

(** A loop on a counter that keeps an invariant indexed by it. *)
Lemma foldM_seq {S} (I : nat → S → Prop) (f : S → nat → res S) s a m :
  (∀ i s, (a ≤ i < a + m)%nat → I i s → ∃ s', f s i = Ok s' ∧ I (Datatypes.S i) s') → I a s →
  ∃ s', foldM f s (seq a m) = Ok s' ∧ I (a + m)%nat s'.
Proof.
  revert a s. induction m as [|m IH]; intros a s Hf HI; simpl.
  - exists s. by rewrite Nat.add_0_r.
  - destruct (Hf a s) as (s1 & -> & H1); [lia|done|]. simpl. destruct (IH (Datatypes.S a) s1) as (s' & ? & ?); [|done|].
    { intros. apply Hf; [lia|done]. }
    exists s'. by rewrite Nat.add_succ_r.
Qed.

Lemma bind_Ok {A B} (m : res A) (f : A → res B) b :
  (x ← m; f x) = Ok b ↔ ∃ a, m = Ok a ∧ f a = Ok b.
Proof. destruct m; simpl; naive_solver. Qed.

Lemma imap_pair_snd {A} (l : list A) : (imap pair l).*2 = l.
Proof.
  apply list_eq. intros i. rewrite list_lookup_fmap, list_lookup_imap. by destruct (l !! i).
Qed.
