(* ===== verification/TensorShape.v ===== *)
(** [TensorShape] of [tensor_shape.cc]: the dimensions of a tensor, its sizes
    and slices, and the row-major position of an element. *)
From stdpp Require Import pretty.
From S2P Require Import Prelude.

(** A shape; a negative dimension is an unknown one. *)
Definition TensorShape : Type := list Z.

Definition NumDimensions (s : TensorShape) : nat := length s.

(** The loop of [SizeHelper] over a range of dimensions, in [int64_t]. *)
Fixpoint size_loop (size : Z) (dims : list Z) : Z :=
  match dims with
  | [] => size
  | d :: dims' => if d <? 0 then -1 else size_loop (i64 (size * d)) dims'
  end.
Definition SizeHelper (s : TensorShape) (start end_ : nat) : Z := size_loop 1 (take (end_ - start) (drop start s)).
Definition Size (s : TensorShape) : Z := SizeHelper s 0 (length s).
Definition SizeToDimension (s : TensorShape) (dimension : nat) : res Z :=
  _ ← enforce (dimension <=? length s)%nat; Ok (SizeHelper s 0 dimension).
Definition SizeFromDimension (s : TensorShape) (dimension : nat) : res Z :=
  _ ← enforce (dimension <=? length s)%nat; Ok (SizeHelper s dimension (length s)).
Definition Slice (s : TensorShape) (dimstart dimend : nat) : res TensorShape :=
  _ ← enforce ((dimstart <=? dimend)%nat && (dimend <=? length s)%nat);
  Ok (take (dimend - dimstart) (drop dimstart s)).
Definition IsScalar (s : TensorShape) : bool :=
  (length s =? 0)%nat || ((length s =? 1)%nat && (s !!! 0%nat =? 1)).
Fixpoint dims_string (first : bool) (dims : list Z) : string :=
  match dims with
  | [] => "}"
  | d :: dims' => ((if first then "" else ",") ++ pretty d ++ dims_string false dims')%string
  end.
Definition ToString (s : TensorShape) : string := ("{" ++ dims_string true s)%string.

(** ** Sizes *)

Definition prodZ (l : list Z) : Z := foldr Z.mul 1 l.

Lemma prodZ_app l1 l2 : prodZ (l1 ++ l2) = prodZ l1 * prodZ l2.
Proof. induction l1 as [|x l1 IH]; simpl; [lia|]. rewrite IH. lia. Qed.
Lemma prodZ_nonneg l : Forall (fun d => 0 ≤ d) l → 0 ≤ prodZ l.
Proof. induction 1; simpl; nia. Qed.
Lemma prodZ_pos l : Forall (fun d => 1 ≤ d) l → 1 ≤ prodZ l.
Proof. induction 1; simpl; nia. Qed.
Lemma prodZ_perm l1 l2 : l1 ≡ₚ l2 → prodZ l1 = prodZ l2.
Proof. induction 1; simpl; nia. Qed.
Lemma prodZ_zero l : Forall (fun d => 0 ≤ d) l → prodZ l ≠ 0 → Forall (fun d => 1 ≤ d) l.
Proof. induction 1 as [|d l Hd Hl IH]; simpl; [constructor|]. intros Hp. constructor; [destruct (decide (d = 0)) as [->|]; lia|].
  apply IH. intros E. rewrite E in Hp. lia.
Qed.
(** Part of a product of positive factors. *)
Lemma prodZ_drop_le k l : Forall (fun d => 1 ≤ d) l → 1 ≤ prodZ (drop k l) ≤ prodZ l.
Proof.
  intros H. rewrite <- (take_drop k l) in H. apply Forall_app in H as [H1 H2]. apply prodZ_pos in H1, H2.
  rewrite <- (take_drop k l) at 3. rewrite prodZ_app. nia.
Qed.
Lemma prodZ_take_le k l : Forall (fun d => 1 ≤ d) l → 1 ≤ prodZ (take k l) ≤ prodZ l.
Proof.
  intros H. rewrite <- (take_drop k l) in H. apply Forall_app in H as [H1 H2]. apply prodZ_pos in H1, H2.
  rewrite <- (take_drop k l) at 3. rewrite prodZ_app. nia.
Qed.

Lemma size_loop_ok size dims :
  1 ≤ size → Forall (fun d => 1 ≤ d) dims → size * prodZ dims < 2 ^ 63 → size_loop size dims = size * prodZ dims.
Proof.
  intros Hs Hd. revert size Hs. induction Hd as [|d dims Hd Hds IH]; intros size Hs Hlt; simpl in *; [lia|].
  destruct (Z.ltb_spec d 0); [lia|]. pose proof (prodZ_pos _ Hds).
  rewrite i64_small by nia. rewrite IH; [lia|nia|lia].
Qed.
Lemma size_loop_zero dims : Forall (fun d => 0 ≤ d) dims → size_loop 0 dims = 0.
Proof.
  induction 1 as [|d dims Hd Hds IH]; simpl; [done|]. destruct (Z.ltb_spec d 0); [lia|]. by rewrite i64_small by lia.
Qed.
Lemma size_loop_negative size dims : Exists (fun d => d < 0) dims → size_loop size dims = -1.
Proof.
  intros H. revert size. induction H as [d dims Hd|d dims H IH]; intros size; simpl.
  - destruct (Z.ltb_spec d 0); [done|lia].
  - destruct (Z.ltb_spec d 0); [done|]. apply IH.
Qed.

Lemma SizeFromDimension_ok dims k :
  Forall (fun d => 1 ≤ d) dims → prodZ dims < 2 ^ 63 → (k ≤ length dims)%nat →
  SizeFromDimension dims k = Ok (prodZ (drop k dims)).
Proof.
  intros Hd Hlt Hk. unfold SizeFromDimension. destruct (Nat.leb_spec k (length dims)); [|lia]. cbn [enforce mbind res_bind].
  unfold SizeHelper. rewrite take_ge by (rewrite length_drop; lia).
  pose proof (prodZ_drop_le k dims Hd). rewrite size_loop_ok; [do 2 f_equal; lia|lia|by apply Forall_drop|lia].
Qed.
Lemma SizeToDimension_ok dims k :
  Forall (fun d => 1 ≤ d) dims → prodZ dims < 2 ^ 63 → (k ≤ length dims)%nat →
  SizeToDimension dims k = Ok (prodZ (take k dims)).
Proof.
  intros Hd Hlt Hk. unfold SizeToDimension. destruct (Nat.leb_spec k (length dims)); [|lia]. cbn [enforce mbind res_bind].
  unfold SizeHelper. rewrite drop_0, Nat.sub_0_r.
  pose proof (prodZ_take_le k dims Hd). rewrite size_loop_ok; [do 2 f_equal; lia|lia|by apply Forall_take|lia].
Qed.

(** The dimensions before and after a position have as many elements as the
    tensor; an unknown dimension makes the size -1 and never an arithmetic
    overflow; the position must exist. *)
Theorem tensor_shape_sizes s k :
  ((k ≤ length s)%nat → Forall (fun d => 1 ≤ d) s → prodZ s < 2 ^ 63 →
     ∃ a b, SizeToDimension s k = Ok a ∧ SizeFromDimension s k = Ok b ∧ a * b = Size s ∧ Size s = prodZ s) ∧
  (Exists (fun d => d < 0) s → Size s = -1) ∧
  ((length s < k)%nat → SizeToDimension s k = Throw EnforceFailed ∧ SizeFromDimension s k = Throw EnforceFailed).
Proof.
  assert (Hsize : Size s = size_loop 1 s).
  { unfold Size, SizeHelper. by rewrite drop_0, Nat.sub_0_r, firstn_all. }
  split_and!.
  - intros Hk Hd Hlt. exists (prodZ (take k s)), (prodZ (drop k s)).
    rewrite SizeToDimension_ok, SizeFromDimension_ok by done. split_and!; [done..| |].
    + rewrite Hsize, size_loop_ok by (done || lia). rewrite <- prodZ_app, take_drop. lia.
    + rewrite Hsize, size_loop_ok by (done || lia). lia.
  - intros H. by rewrite Hsize, size_loop_negative.
  - intros Hk. unfold SizeToDimension, SizeFromDimension. destruct (Nat.leb_spec k (length s)); [lia|]. done.
Qed.

(** ** Row-major positions *)

(** The number with the digits [idx] in the mixed radix of the first [k]
    dimensions, most significant first. *)
Fixpoint val (k : nat) (dims idx : list Z) : Z :=
  match k with
  | O => 0
  | S k' => val k' dims idx * dims !!! k' + idx !!! k'
  end.
(** The position of the element at an index. *)
Definition flat (dims idx : list Z) : Z := val (length dims) dims idx.
Definition valid_index (dims idx : list Z) : Prop :=
  length idx = length dims ∧ ∀ i, (i < length dims)%nat → 0 ≤ idx !!! i < dims !!! i.

Definition sum_to (n : nat) (f : nat → Z) : Z := foldr Z.add 0 (f <$> seq 0 n).

Lemma sum_to_S n f : sum_to (S n) f = sum_to n f + f n.
Proof.
  unfold sum_to. rewrite seq_S, fmap_app, foldr_app. simpl.
  assert (H : ∀ l z, foldr Z.add z l = foldr Z.add 0 l + z) by (induction l as [|x l IH]; intros z; simpl; [done|]; rewrite IH; lia).
  rewrite H. lia.
Qed.
Lemma sum_to_ext n f f' : (∀ i, (i < n)%nat → f i = f' i) → sum_to n f = sum_to n f'.
Proof.
  induction n as [|n IH]; intros H; [done|]. rewrite !sum_to_S, IH by (intros; apply H; lia). by rewrite H by lia.
Qed.

Lemma drop_total (l : list Z) k : (k < length l)%nat → drop k l = l !!! k :: drop (S k) l.
Proof. intros Hk. apply drop_S. by apply list_lookup_lookup_total_lt. Qed.
Lemma take_total (l : list Z) k : (k < length l)%nat → take (S k) l = take k l ++ [l !!! k].
Proof. intros Hk. apply take_S_r. by apply list_lookup_lookup_total_lt. Qed.

(** A position is the sum of the digits weighted with the strides. *)
Lemma val_sum dims idx k :
  (k ≤ length dims)%nat → val k dims idx * prodZ (drop k dims) = sum_to k (fun j => idx !!! j * prodZ (drop (S j) dims)).
Proof.
  induction k as [|k IH]; intros Hk; [done|]. rewrite sum_to_S, <- IH by lia.
  rewrite (drop_total dims k) by lia. simpl. lia.
Qed.
Lemma flat_sum dims idx : flat dims idx = sum_to (length dims) (fun j => idx !!! j * prodZ (drop (S j) dims)).
Proof. rewrite <- val_sum by done. rewrite drop_all. simpl. unfold flat. lia. Qed.

Lemma val_bound k dims idx :
  (k ≤ length dims)%nat → (∀ i, (i < k)%nat → 0 ≤ idx !!! i < dims !!! i) → 0 ≤ val k dims idx < prodZ (take k dims).
Proof.
  induction k as [|k IH]; intros Hk H; [rewrite take_0; simpl; lia|]. rewrite take_total by lia. rewrite prodZ_app. simpl.
  specialize (IH ltac:(lia) ltac:(intros; apply H; lia)). specialize (H k ltac:(lia)). nia.
Qed.
(** The digits are determined by the number. *)
Lemma val_inj k dims a b :
  (∀ i, (i < k)%nat → 0 ≤ a !!! i < dims !!! i) → (∀ i, (i < k)%nat → 0 ≤ b !!! i < dims !!! i) →
  val k dims a = val k dims b → ∀ i, (i < k)%nat → a !!! i = b !!! i.
Proof.
  induction k as [|k IH]; intros Ha Hb E i Hi; [lia|]. simpl in E.
  pose proof (Ha k ltac:(lia)) as Hak. pose proof (Hb k ltac:(lia)) as Hbk.
  assert (Hv : val k dims a = val k dims b).
  { apply (f_equal (fun z => z / dims !!! k)) in E. rewrite !Z.div_add_l, !Z.div_small in E by lia. lia. }
  assert (Hk : a !!! k = b !!! k) by (rewrite Hv in E; lia). destruct (decide (i = k)) as [->|]; [done|]. apply IH; [..|lia]; auto with lia.
Qed.
