(* ===== verification/Transpose.v ===== *)
(** The Transpose kernel of [transpose.cc] and [transpose.h], over the bytes of
    the two tensors: the element of the output at an index is the element of
    the input at the permuted index. *)
From S2P Require Import Prelude TensorShape.

(** The types [DispatchOnTensorTypeWithReturn] knows, and strings. *)
Inductive ElementType :=
  | Float | Double | Int8 | Int16 | Int32 | Int64 | Uint8 | Uint16 | Uint32 | Uint64 | Bool | MLFloat16 | BFloat16
  | StringType.
#[export] Instance ElementType_eq_dec : EqDecision ElementType.
Proof. solve_decision. Defined.
Definition sizeof (t : ElementType) : option Z :=
  match t with
  | Double | Int64 | Uint64 => Some 8
  | Float | Int32 | Uint32 => Some 4
  | Int16 | Uint16 | MLFloat16 | BFloat16 => Some 2
  | Int8 | Uint8 | Bool => Some 1
  | StringType => None
  end.
Definition sizeof_float : Z := 4.

(** ** Iteration space *)

Definition ComputeOffset (index stride : list Z) (num_axes : nat) : Z :=
  foldl (fun offset j => u64 (offset + index !!! j * stride !!! j)) 0 (seq 0 num_axes).

Fixpoint IncrementIndex (index upper_bound : list Z) (num_axes : nat) : list Z :=
  match num_axes with
  | O => index
  | S k => let index := alter (Z.add 1) k index in
           if index !!! k <? upper_bound !!! k then index
           else IncrementIndex (<[k := 0]> index) upper_bound k
  end.

(** The partition of the permutation into a prefix and the largest suffix of
    axes that stay in place. *)
Record Partition := mkPartition {
  is_suffix : bool;
  num_axes_in_prefix : nat;
  suffix_blocksize : Z;
  prefix_blocksize : Z;
}.
Definition partition_axis (permutations : list nat) (input_dims : list Z) (p : Partition) (i : nat) : Partition :=
  let input_axis := permutations !!! i in
  if is_suffix p && (input_axis =? i)%nat
  then mkPartition true (num_axes_in_prefix p) (u64 (suffix_blocksize p * input_dims !!! input_axis)) (prefix_blocksize p)
  else mkPartition false (S (num_axes_in_prefix p)) (suffix_blocksize p)
         (u64 (prefix_blocksize p * input_dims !!! input_axis)).
Definition partition (permutations : list nat) (input_dims : list Z) : Partition :=
  foldl (partition_axis permutations input_dims) (mkPartition true 0 1 1) (reverse (seq 0 (length input_dims))).

Definition stride_of (permutations : list nat) (input_dims : list Z) (i : nat) : res Z :=
  let inpdim := permutations !!! i in
  if (S inpdim <? length input_dims)%nat
  then s ← SizeFromDimension input_dims (S inpdim); Ok (u64 s)
  else Ok 1.
Definition strides (permutations : list nat) (input_dims : list Z) : res (list Z) :=
  foldM (fun acc i => s ← stride_of permutations input_dims i; Ok (acc ++ [s])) [] (seq 0 (length input_dims)).

Section copy.
Context {B : Type}.
Implicit Types (source target : list B).

(** [memcpy]: both ranges have to lie in their buffers. *)
Definition memcpy target (target_pos : Z) source (source_pos n : Z) : res (list B) :=
  if (0 <=? target_pos) && (0 <=? source_pos) && (0 <=? n) && (target_pos + n <=? Z.of_nat (length target)) &&
     (source_pos + n <=? Z.of_nat (length source))
  then Ok (take (Z.to_nat target_pos) target ++ take (Z.to_nat n) (drop (Z.to_nat source_pos) source) ++
           drop (Z.to_nat (target_pos + n)) target)
  else Throw UndefinedBehaviour.

(** Blocks of [num_elts_in_block] elements of [size] bytes; the number of bytes
    copied per block is computed with the size of a [float]. *)
Definition DoTransposeImpl (size : Z) (num_axes : nat) (target_dims : list Z) (num_blocks num_elts_in_block : Z)
    (stride : list Z) source target : res (list B) :=
  '(_, target) ← foldM (fun '(target_index, target) i =>
      let source_offset := ComputeOffset target_index stride num_axes in
      target ← memcpy target (Z.of_nat i * num_elts_in_block * size) source (source_offset * size)
                 (u64 (num_elts_in_block * sizeof_float));
      Ok (IncrementIndex target_index target_dims num_axes, target))
    (replicate num_axes 0, target) (seq 0 (Z.to_nat num_blocks));
  Ok target.

Definition DoTransposeEltWise (size : Z) (num_axes : nat) (target_dims : list Z) (num_blocks : Z)
    (stride : list Z) source target : res (list B) :=
  '(_, target) ← foldM (fun '(target_index, target) i =>
      let source_offset := ComputeOffset target_index stride num_axes in
      target ← memcpy target (Z.of_nat i * size) source (source_offset * size) size;
      Ok (IncrementIndex target_index target_dims num_axes, target))
    (replicate num_axes 0, target) (seq 0 (Z.to_nat num_blocks));
  Ok target.

Definition DoTransposeSingleBlock (size num_elts_in_block : Z) source target : res (list B) :=
  memcpy target 0 source 0 (u64 (num_elts_in_block * size)).

Definition DoTypedTranspose (size : Z) (permutations : list nat) (input_dims output_dims : list Z) source target :
    res (list B) :=
  stride ← strides permutations input_dims;
  let p := partition permutations input_dims in
  if 1 =? prefix_blocksize p then DoTransposeSingleBlock size (suffix_blocksize p) source target
  else if 1 =? suffix_blocksize p
  then DoTransposeEltWise size (num_axes_in_prefix p) output_dims (prefix_blocksize p) stride source target
  else DoTransposeImpl size (num_axes_in_prefix p) output_dims (prefix_blocksize p) (suffix_blocksize p) stride
         source target.

(** [TransposeBase::DoTranspose]: types outside the dispatch leave the output
    as it is. *)
Definition DoTranspose (permutations : list nat) (input_type output_type : ElementType)
    (input_dims output_dims : list Z) source target : res (Status * list B) :=
  if bool_decide (input_type = output_type) then
    match sizeof input_type with
    | Some size => target ← DoTypedTranspose size permutations input_dims output_dims source target;
                   Ok (StatusOK, target)
    | None => Ok (StatusOK, target)
    end
  else Ok (Some FAIL, target).

(** ** The kernel *)

Record TransposeBase := mkTransposeBase { perm_specified_ : bool; perm_ : list Z }.

Definition check_axis (rank : nat) (seen : list bool) (i : Z) : res (list bool) :=
  if (i <? 0) || (Z.of_nat rank <=? i) then Throw EnforceFailed
  else if (seen !!! Z.to_nat i : bool) then Throw EnforceFailed
  else Ok (<[Z.to_nat i := true]> seen).
Definition new_TransposeBase (perm : option (list Z)) : res TransposeBase :=
  match perm with
  | Some l => _ ← foldM (check_axis (length l)) (replicate (length l) false) l; Ok (mkTransposeBase true l)
  | None => Ok (mkTransposeBase false [])
  end.

Definition ComputeOutputShape (t : TransposeBase) (input_dims : list Z) : res (list Z * list nat) :=
  let rank := length input_dims in
  let p_perm := if perm_specified_ t then Z.to_nat <$> perm_ t else (fun i => rank - i - 1)%nat <$> seq 0 rank in
  output_dims ← foldM (fun acc i =>
      inpdim ← of_option UndefinedBehaviour (p_perm !! i);
      d ← of_option UndefinedBehaviour (input_dims !! inpdim);
      Ok (acc ++ [d])) [] (seq 0 rank);
  Ok (output_dims, p_perm).

(** [Transpose<float>::Compute]; [target] is the memory of the output. *)
Definition Compute_Transpose (t : TransposeBase) (input_dims : list Z) source target : res (list Z * list B) :=
  '(output_dims, perm) ← ComputeOutputShape t input_dims;
  target ← DoTypedTranspose sizeof_float perm input_dims output_dims source target;
  Ok (output_dims, target).
End copy.
