(* ===== verification/DataTypes.v ===== *)
(** The types of values, [data_types.cc] and [data_types.h]: the objects that
    [MLDataType] points to, the type messages they carry, the test whether a type
    message is compatible with a type, and the type for a message. *)
From S2P Require Import Prelude TensorShape Transpose.

(** ** Type messages *)

(** [TypeProto] of ONNX: every field may be unset; element types are the numbers
    of [TensorProto_DataType]. *)
Inductive TypeProto :=
  | ValueNotSet
  | TensorMessage (elem_type : option Z) (shape : option (list Z))
  | SparseTensorMessage (elem_type : option Z) (shape : option (list Z))
  | MapMessage (key_type : option Z) (value_type : option TypeProto)
  | SequenceMessage (elem_type : option TypeProto)
  | OpaqueMessage (domain name : option string).

Definition ToTensorDataType (e : ElementType) : Z :=
  match e with
  | Float => 1 | Uint8 => 2 | Int8 => 3 | Uint16 => 4 | Int16 => 5 | Int32 => 6 | Int64 => 7 | StringType => 8
  | Bool => 9 | MLFloat16 => 10 | Double => 11 | Uint32 => 12 | Uint64 => 13 | BFloat16 => 16
  end.

(** Field access: a number that is not set is 0, a message that is not set is
    empty. *)
Definition number_field (f : option Z) : Z := default 0 f.
Definition message_field (f : option TypeProto) : TypeProto := default ValueNotSet f.
Definition non_empty (f : option string) : bool := bool_decide (is_Some f) && negb (bool_decide (default ""%string f = ""%string)).

(** ** Compatibility of messages *)

Definition elem_compatible (tensor_proto type_proto : option Z) : bool :=
  bool_decide (is_Some type_proto) && (number_field type_proto =? number_field tensor_proto).
(** The domain is compared with itself. *)
Definition opaque_compatible (lhs_domain lhs_name rhs_domain rhs_name : option string) : bool :=
  let has_lhs := non_empty lhs_domain in
  let has_rhs := non_empty rhs_domain in
  if negb (Bool.eqb has_lhs has_rhs) || (has_lhs && has_rhs && negb (bool_decide (lhs_domain = lhs_domain))) then false
  else
    let has_lhs := non_empty lhs_name in
    let has_rhs := non_empty rhs_name in
    negb (negb (Bool.eqb has_lhs has_rhs) || (has_lhs && has_rhs && negb (bool_decide (lhs_name = rhs_name)))).
(** The overloads of [data_types_internal::IsCompatible], with the [switch] that
    those for maps and sequences make on their elements. *)
Fixpoint IsCompatible (lhs rhs : TypeProto) : res bool :=
  match lhs, rhs with
  | TensorMessage e _, TensorMessage e' _ => Ok (elem_compatible e e')
  | SparseTensorMessage e _, SparseTensorMessage e' _ => Ok (elem_compatible e e')
  | MapMessage key value, MapMessage key' value' =>
      if negb (elem_compatible key key') then Ok false
      else match value with
           | Some v => IsCompatible v (message_field value')
           | None => match message_field value' with ValueNotSet => Throw EnforceFailed | _ => Ok false end
           end
  | SequenceMessage elem, SequenceMessage elem' =>
      match elem' with
      | None => Ok false
      | Some e' => match elem with
                   | Some e => IsCompatible e e'
                   | None => match e' with ValueNotSet => Throw EnforceFailed | _ => Ok false end
                   end
      end
  | OpaqueMessage domain name, OpaqueMessage domain' name' => Ok (opaque_compatible domain name domain' name')
  | ValueNotSet, ValueNotSet => Throw EnforceFailed
  | _, _ => Ok false
  end.

(** ** Types *)

(** The classes that derive from [DataTypeImpl]. There is one object of each,
    and [MLDataType] is its address. *)
Inductive MLDataType :=
  | NonOnnxType (elem : ElementType)
  | TensorTypeBase
  | TensorType (elem : ElementType)
  | MapType (key : ElementType) (value : MLDataType)
  | SequenceType (elem : MLDataType)
  | OpaqueType (domain name : string).
#[export] Instance MLDataType_eq_dec : EqDecision MLDataType.
Proof. solve_decision. Defined.

(** The message that the constructor of a type fills in; a map or a sequence of a
    type without one is refused there. *)
Fixpoint GetTypeProto (this : MLDataType) : option TypeProto :=
  match this with
  | NonOnnxType _ => None
  | TensorTypeBase => Some ValueNotSet
  | TensorType elem => Some (TensorMessage (Some (ToTensorDataType elem)) None)
  | MapType key value => p ← GetTypeProto value; Some (MapMessage (Some (ToTensorDataType key)) (Some p))
  | SequenceType elem => p ← GetTypeProto elem; Some (SequenceMessage (Some p))
  | OpaqueType domain name => Some (OpaqueMessage (Some domain) (Some name))
  end.
Definition IsTensorType (this : MLDataType) : bool :=
  match this with TensorTypeBase | TensorType _ => true | _ => false end.
(** [TensorType::GetElementType]; that of the base class throws. *)
Definition TensorType_GetElementType (this : MLDataType) : res MLDataType :=
  match this with TensorType elem => Ok (NonOnnxType elem) | _ => Throw EnforceFailed end.

(** [IsCompatible] of the classes; [same_object] says whether the message is the
    one of the type itself. *)
Definition tensor_compatible (thisProto type_proto : TypeProto) : res bool :=
  match type_proto with
  | TensorMessage _ _ =>
      _ ← enforce (match thisProto with TensorMessage elem _ => bool_decide (is_Some elem) | _ => false end);
      IsCompatible thisProto type_proto
  | _ => Ok false
  end.
Definition IsMapCompatible (thisProto type_proto : TypeProto) : res bool :=
  match type_proto with
  | MapMessage _ _ =>
      _ ← enforce (match thisProto with MapMessage key value => bool_decide (is_Some key) && bool_decide (is_Some value) | _ => false end);
      IsCompatible thisProto type_proto
  | _ => Ok false
  end.
Definition IsSequenceCompatible (thisProto type_proto : TypeProto) : res bool :=
  match type_proto with
  | SequenceMessage _ =>
      _ ← enforce (match thisProto with SequenceMessage elem => bool_decide (is_Some elem) | _ => false end);
      IsCompatible thisProto type_proto
  | _ => Ok false
  end.
Definition IsOpaqueCompatible (thisProto type_proto : TypeProto) : res bool :=
  match type_proto with
  | OpaqueMessage _ _ =>
      _ ← enforce (match thisProto with OpaqueMessage domain name => bool_decide (is_Some domain) && bool_decide (is_Some name) | _ => false end);
      IsCompatible thisProto type_proto
  | _ => Ok false
  end.
Definition DataType_IsCompatible (this : MLDataType) (same_object : bool) (type_proto : TypeProto) : res bool :=
  match this with
  | NonOnnxType _ => Ok false
  | _ =>
      if same_object then Ok true
      else
        thisProto ← of_option UndefinedBehaviour (GetTypeProto this);
        match this with
        | MapType _ _ => IsMapCompatible thisProto type_proto
        | SequenceType _ => IsSequenceCompatible thisProto type_proto
        | OpaqueType _ _ => IsOpaqueCompatible thisProto type_proto
        | _ => tensor_compatible thisProto type_proto
        end
  end.

(** The types that the examples use, and the sizes of types: a string is an
    object of 32 bytes. *)
Definition float_type : MLDataType := NonOnnxType Float.
Definition tensor_float : MLDataType := TensorType Float.
Definition element_size (d : MLDataType) : option Z := match d with TensorType elem => sizeof elem | _ => None end.
Definition value_size (d : MLDataType) : Z := match d with NonOnnxType elem => default 32 (sizeof elem) | _ => 0 end.
Definition element_type (d : MLDataType) : MLDataType := match TensorType_GetElementType d with Ok e => e | _ => d end.
Definition string_type (d : MLDataType) : bool := bool_decide (d = NonOnnxType StringType).

(** ** The type for a message *)

Definition IsTensorTypeScalar (shape : option (list Z)) : bool :=
  let sz := length (default [] shape) in (sz =? 0)%nat || (sz =? 1)%nat.
(** The types that [RegisterAllProtos] puts into the registry. *)
Definition tensor_types : list ElementType :=
  [Int32; Float; Bool; StringType; Int8; Uint8; Uint16; Int16; Int64; Double; Uint32; Uint64; MLFloat16; BFloat16].
Definition RegisterAllProtos : list MLDataType :=
  (TensorType <$> tensor_types) ++
  [MapType StringType (TensorType StringType); MapType StringType (TensorType Int64); MapType StringType (TensorType Float); MapType StringType (TensorType Double);
   MapType Int64 (TensorType StringType); MapType Int64 (TensorType Int64); MapType Int64 (TensorType Float); MapType Int64 (TensorType Double);
   SequenceType (TensorType StringType); SequenceType (TensorType Float); SequenceType (TensorType Int64); SequenceType (TensorType Double);
   SequenceType (MapType StringType (TensorType Float)); SequenceType (MapType Int64 (TensorType Float))].

Section registry.
(** [DataTypeUtils::ToType] of ONNX gives the address of the interned text of a
    type. *)
Context {Text : Type} `{!EqDecision Text} (ToType : TypeProto → Text).
(** The entries of [mapping_]. *)
Context (mapping_ : list MLDataType).

Definition GetMLDataType (proto : TypeProto) : option MLDataType :=
  snd <$> list_find (fun d => ToType <$> GetTypeProto d = Some (ToType proto)) mapping_.
Definition registered_type (proto : TypeProto) : res MLDataType := of_option EnforceFailed (GetMLDataType proto).

(** The key of a map whose type is compiled in. *)
Definition map_key (key_type : Z) : option ElementType :=
  if key_type =? ToTensorDataType StringType then Some StringType
  else if key_type =? ToTensorDataType Int64 then Some Int64 else None.
Definition scalar_value (elem_type : Z) : option ElementType :=
  if elem_type =? ToTensorDataType StringType then Some StringType
  else if elem_type =? ToTensorDataType Int64 then Some Int64
  else if elem_type =? ToTensorDataType Float then Some Float
  else if elem_type =? ToTensorDataType Double then Some Double else None.
Definition TypeFromProto (proto : TypeProto) : res MLDataType :=
  match proto with
  | TensorMessage elem_type _ =>
      _ ← enforce (bool_decide (is_Some elem_type));
      of_option EnforceFailed (TensorType <$> (snd <$> list_find (fun e => ToTensorDataType e = number_field elem_type) tensor_types))
  | MapMessage key_type value_type =>
      match message_field value_type with
      | TensorMessage elem_type shape =>
          if IsTensorTypeScalar shape then
            match scalar_value (number_field elem_type), map_key (number_field key_type) with
            | Some value, Some key => Ok (MapType key (TensorType value))
            | _, _ => registered_type proto
            end
          else registered_type proto
      | _ => registered_type proto
      end
  | SequenceMessage elem =>
      match message_field elem with
      | MapMessage key_type value_type =>
          match message_field value_type with
          | TensorMessage elem_type shape =>
              if IsTensorTypeScalar shape && (number_field elem_type =? ToTensorDataType Float)
              then match map_key (number_field key_type) with
                   | Some key => Ok (SequenceType (MapType key (TensorType Float)))
                   | None => registered_type proto
                   end
              else registered_type proto
          | _ => registered_type proto
          end
      | TensorMessage elem_type _ =>
          match scalar_value (number_field elem_type) with
          | Some value => Ok (SequenceType (TensorType value))
          | None => registered_type proto
          end
      | _ => registered_type proto
      end
  | _ => registered_type proto
  end.
End registry.
