(* ===== verification/DataTypesProps.v ===== *)
(** Theorems about the types of values: a type message is compatible with one
    type at most unless opaque types are involved, [TypeFromProto] gives that
    type, and opaque types are told apart by their names only. *)
From S2P Require Import Prelude TensorShape Transpose DataTypes.

(** The types that are made of tensors, maps and sequences. *)
Fixpoint onnx_type (d : MLDataType) : bool :=
  match d with
  | TensorType _ => true
  | MapType _ value => onnx_type value
  | SequenceType elem => onnx_type elem
  | _ => false
  end.
(** A test that does not throw; [IsCompatible_returns] shows that the one of the
    code does not for these types. *)
Definition compatible (d : MLDataType) (t : TypeProto) : bool :=
  match DataType_IsCompatible d false t with Ok b => b | _ => false end.

Lemma ToTensorDataType_inj e e' : ToTensorDataType e = ToTensorDataType e' → e = e'.
Proof. by destruct e, e'. Qed.
Lemma ToTensorDataType_pos e : 0 < ToTensorDataType e.
Proof. by destruct e. Qed.
Lemma elem_compatible_true e f : elem_compatible (Some (ToTensorDataType e)) f = true ↔ f = Some (ToTensorDataType e).
Proof.
  unfold elem_compatible. rewrite andb_true_iff, bool_decide_eq_true, Z.eqb_eq. destruct f as [n|]; cbn.
  - naive_solver.
  - split; [by intros [[] _]|done].
Qed.

Lemma proto_total d : onnx_type d = true → ∃ p, GetTypeProto d = Some p.
Proof.
  induction d as [| |e|k v IH|v IH|]; try done; cbn; intros Hd; [by eexists|..]; destruct (IH Hd) as [p ->]; by eexists.
Qed.
Lemma IsCompatible_total d p : onnx_type d = true → GetTypeProto d = Some p → ∀ t, ∃ b, IsCompatible p t = Ok b.
Proof.
  revert p. induction d as [| |e|k v IH|v IH|]; intros p Hd Hp t; try done; cbn in Hd, Hp.
  - injection Hp as <-. destruct t; by eexists.
  - destruct (GetTypeProto v) as [q|] eqn:Eq; [|done]. injection Hp as <-. destruct t as [| | |key value| |]; try by eexists. cbn.
    destruct (elem_compatible _ key); cbn [negb]; [by apply IH|by eexists].
  - destruct (GetTypeProto v) as [q|] eqn:Eq; [|done]. injection Hp as <-. destruct t as [| | | |[e'|]|]; try by eexists. cbn. by apply IH.
Qed.

Lemma DataType_IsCompatible_ok d p t :
  onnx_type d = true → GetTypeProto d = Some p → DataType_IsCompatible d false t = IsCompatible p t.
Proof.
  intros Hd Hp. destruct d as [| |e|k v|v|]; try done; unfold DataType_IsCompatible; cbn [negb]; rewrite Hp; cbn [of_option mbind res_bind]; cbn in Hd, Hp.
  - injection Hp as <-. by destruct t.
  - destruct (GetTypeProto v); [|done]. injection Hp as <-. by destruct t.
  - destruct (GetTypeProto v); [|done]. injection Hp as <-. by destruct t.
Qed.
(** No test of such a type throws. *)
Lemma IsCompatible_returns d t : onnx_type d = true → DataType_IsCompatible d false t = Ok (compatible d t).
Proof.
  intros Hd. destruct (proto_total d Hd) as [p Hp]. unfold compatible. rewrite (DataType_IsCompatible_ok d p t Hd Hp).
  by destruct (IsCompatible_total d p Hd Hp t) as [b ->].
Qed.

(** The message of a type is the only one up to shapes that is compatible with it. *)
Inductive same_type : TypeProto → TypeProto → Prop :=
  | same_tensor e s s' : same_type (TensorMessage (Some e) s) (TensorMessage (Some e) s')
  | same_map k v v' : same_type v v' → same_type (MapMessage (Some k) (Some v)) (MapMessage (Some k) (Some v'))
  | same_sequence v v' : same_type v v' → same_type (SequenceMessage (Some v)) (SequenceMessage (Some v')).
Lemma IsCompatible_same d p t :
  onnx_type d = true → GetTypeProto d = Some p → IsCompatible p t = Ok true ↔ same_type p t.
Proof.
  revert p t. induction d as [| |e|k v IH|v IH|]; intros p t Hd Hp; try done; cbn in Hd, Hp.
  - injection Hp as <-. split.
    + destruct t as [|e' s| | | |]; try done. cbn. intros [= ->%elem_compatible_true]. constructor.
    + inversion 1; subst. cbn [IsCompatible]. f_equal. by apply elem_compatible_true.
  - destruct (GetTypeProto v) as [q|] eqn:Eq; [|done]. injection Hp as <-. split.
    + destruct t as [| | |key value| |]; try done. cbn. destruct (elem_compatible _ key) eqn:Ek; [|done]. apply elem_compatible_true in Ek as ->. cbn.
      destruct value as [w|]; cbn; [intros Hw; constructor; by apply IH|]. intros Hw. apply IH in Hw; [|done|done]. inversion Hw.
    + inversion 1 as [|? ? w Hw|]; subst. cbn [IsCompatible]. rewrite (proj2 (elem_compatible_true k _)) by done. cbn. by apply IH.
  - destruct (GetTypeProto v) as [q|] eqn:Eq; [|done]. injection Hp as <-. split.
    + destruct t as [| | | |[e'|]|]; try done. cbn. intros Hw. constructor. by apply IH.
    + inversion 1; subst. cbn. by apply IH.
Qed.
Lemma same_type_unique d d' p p' t :
  onnx_type d = true → onnx_type d' = true → GetTypeProto d = Some p → GetTypeProto d' = Some p' → same_type p t → same_type p' t → d = d'.
Proof.
  revert d' p p' t. induction d as [| |e|k v IH|v IH|]; intros d' p p' t Hd Hd' Hp Hp' H H'; try done; cbn in Hd, Hp.
  - injection Hp as <-. inversion H; subst. destruct d' as [| |e'|k' v'|v'|]; try done; cbn in Hp'; [injection Hp' as <-; inversion H'; subst; f_equal; symmetry; by apply ToTensorDataType_inj|..];
      (destruct (GetTypeProto v'); [|done]; injection Hp' as <-; inversion H').
  - destruct (GetTypeProto v) as [q|] eqn:Eq; [|done]. injection Hp as <-. inversion H as [|? ? w Hw|]; subst. destruct d' as [| |e'|k' v'|v'|]; try done; cbn in Hd', Hp'; [injection Hp' as <-; inversion H'| |];
      destruct (GetTypeProto v') as [q'|] eqn:Eq'; try done; injection Hp' as <-; inversion H'; subst. f_equal; [symmetry; by apply ToTensorDataType_inj|by eapply IH].
  - destruct (GetTypeProto v) as [q|] eqn:Eq; [|done]. injection Hp as <-. inversion H as [| |? w Hw]; subst. destruct d' as [| |e'|k' v'|v'|]; try done; cbn in Hd', Hp'; [injection Hp' as <-; inversion H'| |];
      destruct (GetTypeProto v') as [q'|] eqn:Eq'; try done; injection Hp' as <-; inversion H'; subst. f_equal. by eapply IH.
Qed.
Lemma compatible_same d p t : onnx_type d = true → GetTypeProto d = Some p → compatible d t = true ↔ same_type p t.
Proof.
  intros Hd Hp. rewrite <- (IsCompatible_same d p t Hd Hp), <- (DataType_IsCompatible_ok d p t Hd Hp), (IsCompatible_returns d t Hd). split; [by intros ->|by intros [=]].
Qed.
Lemma compatible_unique d d' t :
  onnx_type d = true → onnx_type d' = true → compatible d t = true → compatible d' t = true → d = d'.
Proof.
  intros Hd Hd'. destruct (proto_total d Hd) as [p Hp], (proto_total d' Hd') as [p' Hp'].
  rewrite (compatible_same d p t), (compatible_same d' p' t) by done. by apply same_type_unique.
Qed.

(** ** [TypeFromProto] *)

(** ONNX has a text of its own for a tensor whose shape has no dimensions. *)
Fixpoint no_scalars (t : TypeProto) : bool :=
  match t with
  | TensorMessage _ shape | SparseTensorMessage _ shape => negb (bool_decide (shape = Some []))
  | MapMessage _ (Some t) | SequenceMessage (Some t) => no_scalars t
  | _ => true
  end.

Section registry.
Context {Text : Type} `{!EqDecision Text} (ToType : TypeProto → Text) (mapping_ : list MLDataType).
(** The registry holds types of ONNX, those of [RegisterAllProtos] among them, and
    the text of a type stands for everything but shapes, scalars apart. *)
Hypothesis Hmapping : Forall (fun d => onnx_type d = true) mapping_.
Hypothesis Hall : RegisterAllProtos ⊆ mapping_.
Hypothesis HToType : ∀ d p t, onnx_type d = true → GetTypeProto d = Some p → no_scalars t = true → ToType p = ToType t ↔ same_type p t.

Lemma registered_type_same t d : no_scalars t = true → registered_type ToType mapping_ t = Ok d → d ∈ mapping_ ∧ compatible d t = true.
Proof.
  intros Hns. unfold registered_type, GetMLDataType. destruct (list_find _ mapping_) as [[i d']|] eqn:E; cbn; [|done]. intros [= ->].
  apply list_find_Some in E as (Hi & Ht & _). split; [by eapply list_elem_of_lookup_2|]. rewrite Forall_lookup in Hmapping. pose proof (Hmapping _ _ Hi) as Hd.
  destruct (proto_total d Hd) as [p Hp]. rewrite Hp in Ht. injection Ht as Ht. apply (compatible_same d p t Hd Hp). by eapply HToType.
Qed.
Lemma registered_type_found t d : no_scalars t = true → d ∈ mapping_ → compatible d t = true → ∃ d', registered_type ToType mapping_ t = Ok d'.
Proof.
  intros Hns Hin Hc. unfold registered_type, GetMLDataType. rewrite Forall_forall in Hmapping. pose proof (Hmapping _ Hin) as Hd.
  destruct (proto_total d Hd) as [p Hp]. apply (compatible_same d p t Hd Hp) in Hc. apply list_elem_of_lookup in Hin as [i Hi].
  destruct (list_find _ mapping_) as [[j d']|] eqn:E; [by exists d'|]. apply list_find_None in E. rewrite Forall_lookup in E.
  exfalso. apply (E i d Hi). rewrite Hp. cbn. f_equal. by eapply HToType.
Qed.
Lemma map_key_Some n e : map_key (number_field n) = Some e → n = Some (ToTensorDataType e).
Proof.
  unfold map_key. destruct (Z.eqb_spec (number_field n) (ToTensorDataType StringType)) as [E|_]; [intros [= <-]; destruct n; cbn in *; congruence|].
  destruct (Z.eqb_spec (number_field n) (ToTensorDataType Int64)) as [E|_]; [intros [= <-]; destruct n; cbn in *; congruence|done].
Qed.
Lemma scalar_value_Some n e : scalar_value (number_field n) = Some e → n = Some (ToTensorDataType e).
Proof.
  unfold scalar_value. destruct n as [n|]; [|done]. cbn [number_field default from_option id].
  repeat match goal with |- context [n =? ?x] => destruct (Z.eqb_spec n x) as [->|_]; [by intros [= <-]|] end. done.
Qed.

Lemma map_key_cases n e : map_key n = Some e → e = StringType ∨ e = Int64.
Proof. unfold map_key. repeat case_match; naive_solver. Qed.
Lemma scalar_value_cases n e : scalar_value n = Some e → e = StringType ∨ e = Int64 ∨ e = Float ∨ e = Double.
Proof. unfold scalar_value. repeat case_match; naive_solver. Qed.
Lemma built_in_tensor e : TensorType e ∈ RegisterAllProtos.
Proof. apply elem_of_app. left. apply list_elem_of_fmap_2. apply (bool_decide_unpack _). by destruct e; vm_compute. Qed.
Lemma built_in_map n m k v : map_key n = Some k → scalar_value m = Some v → MapType k (TensorType v) ∈ RegisterAllProtos.
Proof.
  intros Hk%map_key_cases Hv%scalar_value_cases. apply (bool_decide_unpack _).
  destruct Hk as [->| ->], Hv as [->|[->|[->| ->]]]; by vm_compute.
Qed.
Lemma built_in_sequence m v : scalar_value m = Some v → SequenceType (TensorType v) ∈ RegisterAllProtos.
Proof. intros Hv%scalar_value_cases. apply (bool_decide_unpack _). destruct Hv as [->|[->|[->| ->]]]; by vm_compute. Qed.
Lemma built_in_maps n k : map_key n = Some k → SequenceType (MapType k (TensorType Float)) ∈ RegisterAllProtos.
Proof. intros Hk%map_key_cases. apply (bool_decide_unpack _). destruct Hk as [->| ->]; by vm_compute. Qed.

Lemma TypeFromProto_compatible t d : no_scalars t = true → TypeFromProto ToType mapping_ t = Ok d → d ∈ mapping_ ∧ compatible d t = true.
Proof.
  intros Hns. pose proof (registered_type_same t d Hns) as Hreg.
  destruct t as [|elem_type shape| |key_type [[| elem_type shape| | | |]|]|[[|elem_type shape| |key_type [[|elem_type' shape| | | |]|]| |]|]|]; cbn [TypeFromProto message_field default from_option id]; try exact Hreg.
  - destruct elem_type as [n|]; [|done]. cbn [number_field default from_option id]. rewrite bool_decide_true by done. cbn [enforce mbind res_bind]. destruct (list_find _ tensor_types) as [[i e]|] eqn:E; cbn; [|done]. intros [= <-].
    apply list_find_Some in E as (_ & E & _). cbn in E. subst n. split; [apply Hall, built_in_tensor|]. apply (compatible_same (TensorType e) (TensorMessage (Some (ToTensorDataType e)) None)); [done|done|constructor].
  - destruct (IsTensorTypeScalar shape); [|exact Hreg]. destruct (scalar_value (number_field elem_type)) as [v|] eqn:Ev; [|exact Hreg]. destruct (map_key (number_field key_type)) as [k|] eqn:Ek; [|exact Hreg].
    intros [= <-]. split; [by eapply Hall, built_in_map|]. apply scalar_value_Some in Ev as ->. apply map_key_Some in Ek as ->. eapply compatible_same; [done|done|]. repeat constructor.
  - destruct (scalar_value (number_field elem_type)) as [v|] eqn:Ev; [|exact Hreg]. intros [= <-]. split; [by eapply Hall, built_in_sequence|]. apply scalar_value_Some in Ev as ->. eapply compatible_same; [done|done|]. repeat constructor.
  - destruct (IsTensorTypeScalar shape); [|exact Hreg]. cbn [andb]. destruct (Z.eqb_spec (number_field elem_type') (ToTensorDataType Float)) as [Ev|_]; [|exact Hreg].
    destruct (map_key (number_field key_type)) as [k|] eqn:Ek; [|exact Hreg]. intros [= <-]. split; [by eapply Hall, built_in_maps|]. apply map_key_Some in Ek as ->.
    assert (elem_type' = Some (ToTensorDataType Float)) as -> by (destruct elem_type'; cbn in *; [by f_equal|done]).
    eapply compatible_same; [done|done|]. repeat constructor.
Qed.
Lemma TypeFromProto_found t d : no_scalars t = true → d ∈ mapping_ → compatible d t = true → ∃ d', TypeFromProto ToType mapping_ t = Ok d'.
Proof.
  intros Hns Hin Hc. pose proof (registered_type_found t d Hns Hin Hc) as Hreg.
  destruct t as [|elem_type shape| |key_type [[| elem_type shape| | | |]|]|[[|elem_type shape| |key_type [[|elem_type' shape| | | |]|]| |]|]|];
    cbn [TypeFromProto message_field default from_option id]; try exact Hreg.
  - rewrite Forall_forall in Hmapping. pose proof (Hmapping _ Hin) as Hd. destruct (proto_total d Hd) as [p Hp]. apply (compatible_same d p _ Hd Hp) in Hc.
    inversion Hc as [e s s' E1 E2| |]; subst. destruct d as [| |e'|k' v'|v'|]; try done; cbn in Hp; [|destruct (GetTypeProto v'); done..]. injection Hp as <- <-.
    rewrite bool_decide_true by done. cbn [enforce mbind res_bind number_field default from_option id].
    destruct (list_find _ tensor_types) as [[i e]|] eqn:E; [by eexists|]. apply list_find_None in E. rewrite Forall_forall in E.
    destruct (E e'); [|done]. apply (bool_decide_unpack _). by destruct e'; vm_compute.
  - destruct (IsTensorTypeScalar shape); [|exact Hreg]. destruct (scalar_value _); [|exact Hreg]. destruct (map_key _); [by eexists|exact Hreg].
  - destruct (scalar_value _); [by eexists|exact Hreg].
  - destruct (_ && _); [|exact Hreg]. destruct (map_key _); [by eexists|exact Hreg].
Qed.

(** C38. [TypeFromProto] gives a type for a message exactly if a registered type is
    compatible with it, and then this type: for tensors, maps and sequences a
    message has one compatible type at most, whatever shapes it mentions, and the
    cases that are compiled in agree with the search of the registry. The registry
    holds such types only, among them those of [RegisterAllProtos]; the message
    has no tensor with an empty list of dimensions; and the text that ONNX makes
    of the type of such a message leaves out shapes and nothing else. *)
Theorem type_from_proto t d :
  no_scalars t = true →
  TypeFromProto ToType mapping_ t = Ok d ↔ d ∈ mapping_ ∧ DataType_IsCompatible d false t = Ok true.
Proof.
  intros Hns. split.
  - intros Ht. destruct (TypeFromProto_compatible t d Hns Ht) as [Hin Hc]. split; [done|]. rewrite Forall_forall in Hmapping.
    by rewrite (IsCompatible_returns d t (Hmapping _ Hin)), Hc.
  - intros [Hin Hc]. pose proof Hmapping as Hm. rewrite Forall_forall in Hm. rewrite (IsCompatible_returns d t (Hm _ Hin)) in Hc. injection Hc as Hc.
    destruct (TypeFromProto_found t d Hns Hin Hc) as [d' Hd']. destruct (TypeFromProto_compatible t d' Hns Hd') as [Hin' Hc'].
    by rewrite <- (compatible_unique d' d t (Hm _ Hin') (Hm _ Hin) Hc' Hc).
Qed.
End registry.

(** ** Opaque types *)

(** Two opaque types with the same name are compatible with the messages of each
    other, whatever their domains are: [IsCompatible] compares the domain of the
    one with itself (data_types.cc:250). *)
Theorem opaque_domains_ignored domain domain' name :
  domain ≠ ""%string → domain' ≠ ""%string →
  ∃ t, GetTypeProto (OpaqueType domain' name) = Some t ∧ DataType_IsCompatible (OpaqueType domain name) false t = Ok true.
Proof.
  intros Hd Hd'. eexists. split; [done|]. assert (Hne : ∀ s, s ≠ ""%string → non_empty (Some s) = true).
  { intros s Hs. unfold non_empty. cbn. by rewrite bool_decide_false. }
  cbn. unfold opaque_compatible. rewrite !Hne by done. cbn. rewrite (bool_decide_true (Some domain = Some domain)), (bool_decide_true (Some name = Some name)) by done. by destruct (bool_decide _).
Qed.

(** ** Examples *)

Module TypeText.
(** A text for each type of a message. *)
Fixpoint text (t : TypeProto) : list Z :=
  match t with
  | ValueNotSet => [0]
  | TensorMessage e _ => [1; default (-1) e]
  | SparseTensorMessage e _ => [2; default (-1) e]
  | MapMessage k v => 3 :: default (-1) k :: match v with Some v => text v | None => [-1] end
  | SequenceMessage v => 4 :: match v with Some v => text v | None => [-1] end
  | OpaqueMessage _ _ => [5]
  end.
(** It tells types apart as the text of ONNX does. *)
Lemma text_same d p t : onnx_type d = true → GetTypeProto d = Some p → no_scalars t = true → text p = text t ↔ same_type p t.
Proof.
  intros Hd Hp _. revert p t Hd Hp. induction d as [| |e|k v IH|v IH|]; intros p t Hd Hp; try done; cbn in Hd, Hp.
  - injection Hp as <-. pose proof (ToTensorDataType_pos e). split; [|by inversion 1]. destruct t as [|[e'|] s| | | |]; try done; cbn; [intros [= ->]; constructor|intros [=]; lia].
  - destruct (GetTypeProto v) as [q|] eqn:Eq; [|done]. injection Hp as <-. pose proof (ToTensorDataType_pos k). split.
    + destruct t as [| | |[k'|] [w|]| |]; try done; cbn; [intros [= -> Hw]; constructor; by apply IH|intros [= _ Hw]; by destruct q|intros [=]; lia..].
    + inversion 1; subst. cbn. do 2 f_equal. by apply IH.
  - destruct (GetTypeProto v) as [q|] eqn:Eq; [|done]. injection Hp as <-. split.
    + destruct t as [| | | |[w|]|]; try done; cbn; [intros [= Hw]; constructor; by apply IH|intros [= Hw]; by destruct q].
    + inversion 1; subst. cbn. f_equal. by apply IH.
Qed.
End TypeText.

(** A sequence of maps from strings to numbers, with a shape. *)
Lemma type_from_proto_witness :
  let t := SequenceMessage (Some (MapMessage (Some 8) (Some (TensorMessage (Some 1) (Some [3; 4]))))) in
  TypeFromProto TypeText.text RegisterAllProtos t = Ok (SequenceType (MapType StringType (TensorType Float))) ∧
  DataType_IsCompatible (SequenceType (MapType StringType (TensorType Float))) false t = Ok true.
Proof.
  intros t. assert (E : TypeFromProto TypeText.text RegisterAllProtos t = Ok (SequenceType (MapType StringType (TensorType Float)))) by (vm_compute; reflexivity).
  split; [exact E|]. refine (proj2 (proj1 (type_from_proto TypeText.text RegisterAllProtos _ _ TypeText.text_same t _ eq_refl) E)); [|done].
  apply (bool_decide_unpack _). vm_compute. reflexivity.
Defined.
