(* ===== verification/BfcArena.v ===== *)
(** The best-fit-with-coalescing arena of
    [onnxruntime/core/framework/bfc_arena.{h,cc}]: chunks, bins, allocation
    regions and the region manager, and every operation of [BFCArena].
    Definitions only; [BfcArenaInv] holds the invariant and its proofs.

    A [ChunkHandle] is an index into [chunks_]; [kInvalidChunkHandle] is [None].
    A pointer is its address, [nullptr] is 0.  [size_t] arithmetic wraps
    ([u64]), [int64_t] statistics are stored through [i64]. *)
From S2P Require Import Prelude.

(** [IDeviceAllocator]: the memory the arena carves its regions from.  Its
    implementations (malloc, cudaMalloc) are not part of the model; an instance
    is a state with the two operations. *)
Class DeviceAllocator (D : Type) := {
  dev_Alloc : D → Z → Z * D;
  dev_Free : D → Z → D;
}.

Definition nullptr : Z := 0.
Definition kInvalidBinNum : Z := -1.
Definition kNumBins : Z := 21.
Definition kMinAllocationBits : Z := 8.
Definition kMinAllocationSize : Z := Z.shiftl 1 kMinAllocationBits.

(** [struct AllocatorStats]. *)
Record AllocatorStats := mkStats {
  num_allocs : Z;
  bytes_in_use : Z;
  total_allocated_bytes : Z;
  max_bytes_in_use : Z;
  max_alloc_size : Z;
  bytes_limit : Z;
}.

Definition clear_stats : AllocatorStats := mkStats 0 0 0 0 0 0.

(** [struct Chunk]. *)
Record Chunk := mkChunk {
  c_size : Z;
  c_requested_size : Z;
  c_allocation_id : Z;
  c_ptr : Z;
  c_prev : option nat;
  c_next : option nat;
  c_bin_num : Z;
}.

Definition default_chunk : Chunk := mkChunk 0 0 (-1) nullptr None None kInvalidBinNum.

Definition in_use (c : Chunk) : bool := negb (c_allocation_id c =? -1).

Definition set_size (v : Z) (c : Chunk) : Chunk :=
  mkChunk v (c_requested_size c) (c_allocation_id c) (c_ptr c) (c_prev c) (c_next c) (c_bin_num c).
Definition set_requested_size (v : Z) (c : Chunk) : Chunk :=
  mkChunk (c_size c) v (c_allocation_id c) (c_ptr c) (c_prev c) (c_next c) (c_bin_num c).
Definition set_allocation_id (v : Z) (c : Chunk) : Chunk :=
  mkChunk (c_size c) (c_requested_size c) v (c_ptr c) (c_prev c) (c_next c) (c_bin_num c).
Definition set_ptr (v : Z) (c : Chunk) : Chunk :=
  mkChunk (c_size c) (c_requested_size c) (c_allocation_id c) v (c_prev c) (c_next c) (c_bin_num c).
Definition set_prev (v : option nat) (c : Chunk) : Chunk :=
  mkChunk (c_size c) (c_requested_size c) (c_allocation_id c) (c_ptr c) v (c_next c) (c_bin_num c).
Definition set_next (v : option nat) (c : Chunk) : Chunk :=
  mkChunk (c_size c) (c_requested_size c) (c_allocation_id c) (c_ptr c) (c_prev c) v (c_bin_num c).
Definition set_bin_num (v : Z) (c : Chunk) : Chunk :=
  mkChunk (c_size c) (c_requested_size c) (c_allocation_id c) (c_ptr c) (c_prev c) (c_next c) v.

(** [struct Bin]; the [std::set] of free chunks is the list of its elements in
    the comparator's order. *)
Record Bin := mkBin { bin_size : Z; free_chunks : list nat }.

(** [class AllocationRegion]. *)
Record AllocationRegion := mkRegion {
  r_ptr : Z;
  r_memory_size : Z;
  r_end_ptr : Z;
  r_handles : list (option nat);
}.

Definition new_AllocationRegion (p memory_size : Z) : res AllocationRegion :=
  _ ← enforce (memory_size mod kMinAllocationSize =? 0);
  let n_handles := u64 (memory_size + kMinAllocationSize - 1) / kMinAllocationSize in
  Ok (mkRegion p memory_size (u64 (p + memory_size))
        (replicate (Z.to_nat n_handles) None)).

Definition IndexFor (r : AllocationRegion) (p : Z) : res Z :=
  _ ← enforce (r_ptr r <=? p);
  _ ← enforce (p <? u64 (r_ptr r + r_memory_size r));
  Ok (i32 (Z.shiftr (p - r_ptr r) kMinAllocationBits)).

(** Reading or writing [handles_] outside the array is undefined. *)
Definition region_get_handle (r : AllocationRegion) (p : Z) : res (option nat) :=
  i ← IndexFor r p;
  if i <? 0 then Throw UndefinedBehaviour
  else of_option UndefinedBehaviour (r_handles r !! Z.to_nat i).

Definition region_set_handle (r : AllocationRegion) (p : Z) (h : option nat) :
    res AllocationRegion :=
  i ← IndexFor r p;
  if (i <? 0) || (Z.of_nat (length (r_handles r)) <=? i)
  then Throw UndefinedBehaviour
  else Ok (mkRegion (r_ptr r) (r_memory_size r) (r_end_ptr r)
             (<[Z.to_nat i := h]> (r_handles r))).

(** [RegionManager]: [std::upper_bound] over the regions with [Comparator] is
    the position of the first region for which [ptr < end_ptr]. *)
Definition Comparator (p : Z) (r : AllocationRegion) : bool := p <? r_end_ptr r.

Fixpoint upper_bound (rs : list AllocationRegion) (p : Z) : nat :=
  match rs with
  | [] => 0%nat
  | r :: rs' => if Comparator p r then 0%nat else S (upper_bound rs' p)
  end.

Definition AddAllocationRegion (rs : list AllocationRegion) (p memory_size : Z) :
    res (list AllocationRegion) :=
  let entry := upper_bound rs p in
  r ← new_AllocationRegion p memory_size;
  Ok (take entry rs ++ r :: drop entry rs).

(** [RegionFor] returns null when no region ends after [p]; every caller
    dereferences the result. *)
Definition RegionFor (rs : list AllocationRegion) (p : Z) : res AllocationRegion :=
  of_option UndefinedBehaviour (rs !! upper_bound rs p).

Definition get_handle (rs : list AllocationRegion) (p : Z) : res (option nat) :=
  r ← RegionFor rs p;
  region_get_handle r p.

Definition set_handle (rs : list AllocationRegion) (p : Z) (h : option nat) :
    res (list AllocationRegion) :=
  r ← RegionFor rs p;
  r' ← region_set_handle r p h;
  Ok (<[upper_bound rs p := r']> rs).

Definition erase (rs : list AllocationRegion) (p : Z) : res (list AllocationRegion) :=
  set_handle rs p None.

(** [class BFCArena]. *)
Record Arena (D : Type) := mkArena {
  memory_limit_ : Z;
  bins_ : list Bin;
  curr_region_allocation_bytes_ : Z;
  started_backpedal_ : bool;
  device_allocator_ : D;
  regions_ : list AllocationRegion;
  chunks_ : list Chunk;
  free_chunks_list_ : option nat;
  next_allocation_id_ : Z;
  stats_ : AllocatorStats;
  reserved_chunks_ : gmap Z Z;
}.
Arguments mkArena {D}.
Arguments memory_limit_ {D}.
Arguments bins_ {D}.
Arguments curr_region_allocation_bytes_ {D}.
Arguments started_backpedal_ {D}.
Arguments device_allocator_ {D}.
Arguments regions_ {D}.
Arguments chunks_ {D}.
Arguments free_chunks_list_ {D}.
Arguments next_allocation_id_ {D}.
Arguments stats_ {D}.
Arguments reserved_chunks_ {D}.

Section arena.
Context {D : Type} `{!DeviceAllocator D}.
Implicit Types (st : Arena D) (h : nat).

Definition with_bins st v : Arena D :=
  mkArena (memory_limit_ st) v (curr_region_allocation_bytes_ st) (started_backpedal_ st)
    (device_allocator_ st) (regions_ st) (chunks_ st) (free_chunks_list_ st)
    (next_allocation_id_ st) (stats_ st) (reserved_chunks_ st).
Definition with_curr st v : Arena D :=
  mkArena (memory_limit_ st) (bins_ st) v (started_backpedal_ st)
    (device_allocator_ st) (regions_ st) (chunks_ st) (free_chunks_list_ st)
    (next_allocation_id_ st) (stats_ st) (reserved_chunks_ st).
Definition with_device st (b : bool) (d : D) : Arena D :=
  mkArena (memory_limit_ st) (bins_ st) (curr_region_allocation_bytes_ st) b
    d (regions_ st) (chunks_ st) (free_chunks_list_ st)
    (next_allocation_id_ st) (stats_ st) (reserved_chunks_ st).
Definition with_regions st v : Arena D :=
  mkArena (memory_limit_ st) (bins_ st) (curr_region_allocation_bytes_ st) (started_backpedal_ st)
    (device_allocator_ st) v (chunks_ st) (free_chunks_list_ st)
    (next_allocation_id_ st) (stats_ st) (reserved_chunks_ st).
Definition with_chunks st v : Arena D :=
  mkArena (memory_limit_ st) (bins_ st) (curr_region_allocation_bytes_ st) (started_backpedal_ st)
    (device_allocator_ st) (regions_ st) v (free_chunks_list_ st)
    (next_allocation_id_ st) (stats_ st) (reserved_chunks_ st).
Definition with_free_list st v : Arena D :=
  mkArena (memory_limit_ st) (bins_ st) (curr_region_allocation_bytes_ st) (started_backpedal_ st)
    (device_allocator_ st) (regions_ st) (chunks_ st) v
    (next_allocation_id_ st) (stats_ st) (reserved_chunks_ st).
Definition with_next_id st v : Arena D :=
  mkArena (memory_limit_ st) (bins_ st) (curr_region_allocation_bytes_ st) (started_backpedal_ st)
    (device_allocator_ st) (regions_ st) (chunks_ st) (free_chunks_list_ st)
    v (stats_ st) (reserved_chunks_ st).
Definition with_stats st v : Arena D :=
  mkArena (memory_limit_ st) (bins_ st) (curr_region_allocation_bytes_ st) (started_backpedal_ st)
    (device_allocator_ st) (regions_ st) (chunks_ st) (free_chunks_list_ st)
    (next_allocation_id_ st) v (reserved_chunks_ st).
Definition with_reserved st v : Arena D :=
  mkArena (memory_limit_ st) (bins_ st) (curr_region_allocation_bytes_ st) (started_backpedal_ st)
    (device_allocator_ st) (regions_ st) (chunks_ st) (free_chunks_list_ st)
    (next_allocation_id_ st) (stats_ st) v.

(** Writing one chunk in place. *)
Definition upd st h (f : Chunk → Chunk) : Arena D :=
  with_chunks st (alter f h (chunks_ st)).

Definition RoundedBytes (bytes : Z) : res Z :=
  let rounded_bytes :=
    u64 (kMinAllocationSize *
         (u64 (u64 (bytes + kMinAllocationSize) - 1) / kMinAllocationSize)) in
  _ ← enforce (0 =? rounded_bytes mod kMinAllocationSize);
  Ok rounded_bytes.

(** The loop of [Log2FloorNonZeroSlow]; 64 rounds empty a [uint64_t]. *)
Fixpoint log2_slow_loop (fuel : nat) (r n : Z) : Z :=
  match fuel with
  | O => r
  | S fuel => if 0 <? n then log2_slow_loop fuel (r + 1) (Z.shiftr n 1) else r
  end.
Definition Log2FloorNonZeroSlow (n : Z) : Z := log2_slow_loop 64 0 n - 1.

(** [__builtin_clzll]: the number of leading zero bits of a non-zero word. *)
Definition clzll (n : Z) : Z := 63 - Z.log2 n.
Definition Log2FloorNonZero (n : Z) : Z := Z.lxor 63 (clzll n).

Definition BinNumToSize (index : Z) : Z := u64 (Z.shiftl 256 index).
Definition BinNumForSize (bytes : Z) : Z :=
  let v := Z.shiftr (Z.max bytes 256) kMinAllocationBits in
  Z.min (kNumBins - 1) (Log2FloorNonZero v).

Definition BinFromIndex st (index : Z) : res Bin :=
  if index <? 0 then Throw UndefinedBehaviour
  else of_option UndefinedBehaviour (bins_ st !! Z.to_nat index).

Definition ChunkFromHandle st (h : nat) : res Chunk :=
  of_option EnforceFailed (chunks_ st !! h).

(** [Bin::ChunkComparator]: by size, then by address. *)
Definition ChunkComparator st (ha hb : nat) : bool :=
  match chunks_ st !! ha, chunks_ st !! hb with
  | Some a, Some b =>
      if negb (c_size a =? c_size b) then c_size a <? c_size b else c_ptr a <? c_ptr b
  | _, _ => false
  end.

(** [std::set::insert] and [std::set::erase(key)] with that comparator:
    elements are equivalent when neither is less than the other. *)
Fixpoint set_insert st (h : nat) (s : list nat) : list nat :=
  match s with
  | [] => [h]
  | x :: s' =>
      if ChunkComparator st h x then h :: x :: s'
      else if ChunkComparator st x h then x :: set_insert st h s'
      else x :: s'
  end.
Definition equivalent st (a b : nat) : bool :=
  negb (ChunkComparator st a b) && negb (ChunkComparator st b a).
Definition set_erase st (h : nat) (s : list nat) : list nat :=
  filter (fun x => equivalent st h x = false) s.

Definition AllocateChunk st : res (nat * Arena D) :=
  match free_chunks_list_ st with
  | Some h =>
      c ← ChunkFromHandle st h;
      Ok (h, with_free_list st (c_next c))
  | None =>
      let h := length (chunks_ st) in
      Ok (h, with_chunks st (chunks_ st ++ [default_chunk]))
  end.

Definition DeallocateChunk st h : res (Arena D) :=
  _ ← ChunkFromHandle st h;
  let st := upd st h (set_next (free_chunks_list_ st)) in
  Ok (with_free_list st (Some h)).

Definition InsertFreeChunkIntoBin st h : res (Arena D) :=
  c ← ChunkFromHandle st h;
  _ ← enforce (negb (in_use c) && (c_bin_num c =? kInvalidBinNum));
  let bin_num := BinNumForSize (c_size c) in
  new_bin ← BinFromIndex st bin_num;
  let st := upd st h (set_bin_num bin_num) in
  Ok (with_bins st (<[Z.to_nat bin_num :=
        mkBin (bin_size new_bin) (set_insert st h (free_chunks new_bin))]> (bins_ st))).

(** [citer] points at [h] inside the bin of index [bin_num]. *)
Definition RemoveFreeChunkIterFromBin st (bin_num : Z) h : res (Arena D) :=
  c ← ChunkFromHandle st h;
  _ ← enforce (negb (in_use c) && negb (c_bin_num c =? kInvalidBinNum));
  b ← BinFromIndex st bin_num;
  let st := with_bins st (<[Z.to_nat bin_num :=
              mkBin (bin_size b) (filter (fun x => x ≠ h) (free_chunks b))]> (bins_ st)) in
  Ok (upd st h (set_bin_num kInvalidBinNum)).

Definition RemoveFreeChunkFromBin st h : res (Arena D) :=
  c ← ChunkFromHandle st h;
  _ ← enforce (negb (in_use c) && negb (c_bin_num c =? kInvalidBinNum));
  b ← BinFromIndex st (c_bin_num c);
  let s := set_erase st h (free_chunks b) in
  _ ← enforce (bool_decide (length s < length (free_chunks b))%nat);
  let st := with_bins st (<[Z.to_nat (c_bin_num c) := mkBin (bin_size b) s]> (bins_ st)) in
  Ok (upd st h (set_bin_num kInvalidBinNum)).

Definition DeleteChunk st h : res (Arena D) :=
  c ← ChunkFromHandle st h;
  rs ← erase (regions_ st) (c_ptr c);
  DeallocateChunk (with_regions st rs) h.

Definition SplitChunk st h (num_bytes : Z) : res (Arena D) :=
  '(h_new_chunk, st) ← AllocateChunk st;
  c ← ChunkFromHandle st h;
  _ ← enforce (negb (in_use c) && (c_bin_num c =? kInvalidBinNum));
  _ ← ChunkFromHandle st h_new_chunk;
  let new_ptr := u64 (c_ptr c + num_bytes) in
  let st := upd st h_new_chunk (set_ptr new_ptr) in
  rs ← set_handle (regions_ st) new_ptr (Some h_new_chunk);
  let st := with_regions st rs in
  let st := upd st h_new_chunk (set_size (u64 (c_size c - num_bytes))) in
  let st := upd st h (set_size num_bytes) in
  let st := upd st h_new_chunk (set_allocation_id (-1)) in
  let h_neighbor := c_next c in
  let st := upd st h_new_chunk (set_prev (Some h)) in
  let st := upd st h_new_chunk (set_next h_neighbor) in
  let st := upd st h (set_next (Some h_new_chunk)) in
  st ← match h_neighbor with
       | Some hn =>
           _ ← ChunkFromHandle st hn;
           Ok (upd st hn (set_prev (Some h_new_chunk)))
       | None => Ok st
       end;
  InsertFreeChunkIntoBin st h_new_chunk.

Definition Merge st (h1 h2 : nat) : res (Arena D) :=
  c1 ← ChunkFromHandle st h1;
  c2 ← ChunkFromHandle st h2;
  _ ← enforce (negb (in_use c1) && negb (in_use c2));
  let h3 := c_next c2 in
  let st := upd st h1 (set_next h3) in
  _ ← enforce (bool_decide (c_prev c2 = Some h1));
  st ← match h3 with
       | Some h3 =>
           _ ← ChunkFromHandle st h3;
           Ok (upd st h3 (set_prev (Some h1)))
       | None => Ok st
       end;
  let st := upd st h1 (set_size (u64 (c_size c1 + c_size c2))) in
  DeleteChunk st h2.

(** If the neighbour [n] of [h] is free, take it out of its bin and merge. *)
Definition coalesce_next st h : res (Arena D) :=
  c ← ChunkFromHandle st h;
  match c_next c with
  | None => Ok st
  | Some n =>
      cnext ← ChunkFromHandle st n;
      if in_use cnext then Ok st
      else st ← RemoveFreeChunkFromBin st n;
           c ← ChunkFromHandle st h;
           match c_next c with
           | Some n => Merge st h n
           | None => Throw EnforceFailed
           end
  end.
Definition coalesce_prev st h : res (nat * Arena D) :=
  c ← ChunkFromHandle st h;
  match c_prev c with
  | None => Ok (h, st)
  | Some p =>
      cprev ← ChunkFromHandle st p;
      if in_use cprev then Ok (h, st)
      else st ← RemoveFreeChunkFromBin st p;
           c ← ChunkFromHandle st h;
           match c_prev c with
           | Some p' => st ← Merge st p' h; Ok (p, st)
           | None => Throw EnforceFailed
           end
  end.

Definition add_bytes_in_use (s : AllocatorStats) (v : Z) : AllocatorStats :=
  mkStats (num_allocs s) (i64 (bytes_in_use s + v)) (total_allocated_bytes s)
    (max_bytes_in_use s) (max_alloc_size s) (bytes_limit s).

Definition FreeAndMaybeCoalesce st h : res (Arena D) :=
  c ← ChunkFromHandle st h;
  _ ← enforce (in_use c && (c_bin_num c =? kInvalidBinNum));
  let st := upd st h (set_allocation_id (-1)) in
  let st := with_stats st (add_bytes_in_use (stats_ st) (- c_size c)) in
  st ← coalesce_next st h;
  '(chunk_to_reassign, st) ← coalesce_prev st h;
  InsertFreeChunkIntoBin st chunk_to_reassign.

Definition DeallocateRawInternal st (p : Z) : res (Arena D) :=
  h ← get_handle (regions_ st) p;
  h ← of_option EnforceFailed h;
  FreeAndMaybeCoalesce st h.

Definition Free st (p : Z) : res (Arena D) :=
  if p =? nullptr then Ok st
  else match reserved_chunks_ st !! p with
  | Some sz =>
      let st := with_device st (started_backpedal_ st) (dev_Free (device_allocator_ st) p) in
      let s := stats_ st in
      let st := with_stats st
        (mkStats (num_allocs s) (i64 (bytes_in_use s - sz))
           (i64 (total_allocated_bytes s - sz)) (max_bytes_in_use s)
           (max_alloc_size s) (bytes_limit s)) in
      Ok (with_reserved st (delete p (reserved_chunks_ st)))
  | None => DeallocateRawInternal st p
  end.

(** The inner loop of [FindChunkPtr]: the first chunk of a bin, in the set's
    order, that is large enough. *)
Fixpoint find_in_bin st (hs : list nat) (rounded_bytes : Z) : res (option nat) :=
  match hs with
  | [] => Ok None
  | h :: hs' =>
      chunk ← ChunkFromHandle st h;
      _ ← enforce (negb (in_use chunk));
      if rounded_bytes <=? c_size chunk then Ok (Some h)
      else find_in_bin st hs' rounded_bytes
  end.

(** The outer loop, from [bin_num] up to [kNumBins]; [n] bins are left. *)
Fixpoint find_in_bins st (n : nat) (bin_num rounded_bytes : Z) : res (option (Z * nat)) :=
  match n with
  | O => Ok None
  | S n =>
      b ← BinFromIndex st bin_num;
      o ← find_in_bin st (free_chunks b) rounded_bytes;
      match o with
      | Some h => Ok (Some (bin_num, h))
      | None => find_in_bins st n (bin_num + 1) rounded_bytes
      end
  end.

Definition kMaxInternalFragmentation : Z := Z.shiftl 128 20.

Definition FindChunkPtr st (bin_num rounded_bytes num_bytes : Z) : res (Z * Arena D) :=
  o ← find_in_bins st (Z.to_nat (kNumBins - bin_num)) bin_num rounded_bytes;
  match o with
  | None => Ok (nullptr, st)
  | Some (b, h) =>
      chunk ← ChunkFromHandle st h;
      st ← RemoveFreeChunkIterFromBin st b h;
      st ← (if (u64 (rounded_bytes * 2) <=? c_size chunk) ||
               (kMaxInternalFragmentation <=? u64 (c_size chunk - rounded_bytes))
            then SplitChunk st h rounded_bytes else Ok st);
      chunk ← ChunkFromHandle st h;
      let st := upd st h (set_requested_size num_bytes) in
      let st := upd st h (set_allocation_id (next_allocation_id_ st)) in
      let st := with_next_id st (next_allocation_id_ st + 1) in
      let s := stats_ st in
      let in_use_bytes := i64 (bytes_in_use s + c_size chunk) in
      let st := with_stats st
        (mkStats (num_allocs s + 1) in_use_bytes (total_allocated_bytes s)
           (Z.max (max_bytes_in_use s) in_use_bytes)
           (i64 (Z.max (u64 (max_alloc_size s)) (c_size chunk))) (bytes_limit s)) in
      Ok (c_ptr chunk, st)
  end.

(** [bytes * kBackpedalFactor] in single precision: the conversion of [bytes]
    and the product are rounded to 24 significant bits, ties to even, and
    [static_cast<size_t>] truncates.  [0.9f] is [15099494 / 2^24]. *)
Definition round_even_shift (n e : Z) : Z :=
  let q := n / 2 ^ e in
  let r := 2 * (n mod 2 ^ e) in
  if (2 ^ e <? r) || ((r =? 2 ^ e) && Z.odd q) then q + 1 else q.
Definition round24 (n : Z) : Z :=
  let e := Z.max 0 (Z.log2 n - 23) in
  round_even_shift n e * 2 ^ e.
Definition backpedal_bytes (bytes : Z) : Z := round24 (round24 bytes * 15099494) / 2 ^ 24.

(** [while (rounded_bytes > curr_region_allocation_bytes_)]. *)
Fixpoint grow_curr (fuel : nat) (rounded_bytes curr : Z) (increased : bool) : res (Z * bool) :=
  if curr <? rounded_bytes then
    match fuel with
    | O => OutOfFuel
    | S fuel => grow_curr fuel rounded_bytes (u64 (curr * 2)) true
    end
  else Ok (curr, increased).

(** [while (mem_addr == nullptr)]: back off by ten percent until the device
    grants the request or it gets smaller than [rounded_bytes]. *)
Fixpoint backpedal_loop (fuel : nat) (d : D) (bytes rounded_bytes : Z) : res (Z * Z * D) :=
  match fuel with
  | O => OutOfFuel
  | S fuel =>
      bytes ← RoundedBytes (backpedal_bytes bytes);
      if bytes <? rounded_bytes then Ok (nullptr, bytes, d)
      else let '(mem_addr, d) := dev_Alloc d bytes in
           if mem_addr =? nullptr then backpedal_loop fuel d bytes rounded_bytes
           else Ok (mem_addr, bytes, d)
  end.

(** The part of [Extend] that asks the device for memory; only the first
    request that fails is retried with smaller sizes. *)
Definition request_region (fuel : nat) st (rounded_bytes curr bytes : Z) : res (Z * Z * Arena D) :=
  let st := with_curr st curr in
  let '(mem_addr, d) := dev_Alloc (device_allocator_ st) bytes in
  if (mem_addr =? nullptr) && negb (started_backpedal_ st) then
    '(mem_addr, bytes, d) ← backpedal_loop fuel d bytes rounded_bytes;
    Ok (mem_addr, bytes, with_device st true d)
  else Ok (mem_addr, bytes, with_device st (started_backpedal_ st) d).

(** The end of [Extend]: record the region and cover it with one free chunk. *)
Definition add_region_chunk st (mem_addr bytes : Z) : res (Arena D) :=
  rs ← AddAllocationRegion (regions_ st) mem_addr bytes;
  let st := with_regions st rs in
  '(h, st) ← AllocateChunk st;
  _ ← ChunkFromHandle st h;
  let st := upd st h (set_ptr mem_addr) in
  let st := upd st h (set_size bytes) in
  let st := upd st h (set_allocation_id (-1)) in
  let st := upd st h (set_prev None) in
  let st := upd st h (set_next None) in
  rs ← set_handle (regions_ st) mem_addr (Some h);
  let st := with_regions st rs in
  InsertFreeChunkIntoBin st h.

Definition Extend (fuel : nat) st (rounded_bytes : Z) : res (bool * Arena D) :=
  let available_bytes := u64 (memory_limit_ st - total_allocated_bytes (stats_ st)) in
  let available_bytes := u64 (available_bytes / kMinAllocationSize * kMinAllocationSize) in
  if available_bytes <? rounded_bytes then Ok (false, st)
  else
    '(curr, increased_allocation) ←
        grow_curr fuel rounded_bytes (curr_region_allocation_bytes_ st) false;
    '(mem_addr, bytes, st) ←
      request_region fuel st rounded_bytes curr (Z.min curr available_bytes);
    if mem_addr =? nullptr then Ok (false, st)
    else
      let st := if increased_allocation : bool then st
                else with_curr st (u64 (curr_region_allocation_bytes_ st * 2)) in
      let s := stats_ st in
      let st := with_stats st
        (mkStats (num_allocs s) (bytes_in_use s) (i64 (total_allocated_bytes s + bytes))
           (max_bytes_in_use s) (max_alloc_size s) (bytes_limit s)) in
      st ← add_region_chunk st mem_addr bytes;
      Ok (true, st).

(** [Alloc] is [AllocateRawInternal(size, false)]; the memory log that the
    second argument enables only prints. *)
Definition AllocateRawInternal (fuel : nat) st (num_bytes : Z) : res (Z * Arena D) :=
  if num_bytes =? 0 then Ok (nullptr, st)
  else
    rounded_bytes ← RoundedBytes num_bytes;
    let bin_num := BinNumForSize rounded_bytes in
    '(p, st) ← FindChunkPtr st bin_num rounded_bytes num_bytes;
    if negb (p =? nullptr) then Ok (p, st)
    else
      '(extended, st) ← Extend fuel st rounded_bytes;
      if extended : bool then FindChunkPtr st bin_num rounded_bytes num_bytes
      else Ok (nullptr, st).

Definition Alloc (fuel : nat) st (size : Z) : res (Z * Arena D) :=
  AllocateRawInternal fuel st size.

Definition Reserve st (size : Z) : res (Z * Arena D) :=
  if size =? 0 then Ok (nullptr, st)
  else
    let '(p, d) := dev_Alloc (device_allocator_ st) size in
    let st := with_device st (started_backpedal_ st) d in
    _ ← enforce (bool_decide (reserved_chunks_ st !! p = None));
    let st := with_reserved st (<[p := size]> (reserved_chunks_ st)) in
    let s := stats_ st in
    let in_use_bytes := i64 (bytes_in_use s + size) in
    Ok (p, with_stats st
      (mkStats (num_allocs s + 1) in_use_bytes (i64 (total_allocated_bytes s + size))
         (i64 (Z.max (u64 (max_bytes_in_use s)) (u64 in_use_bytes)))
         (i64 (Z.max (u64 (max_alloc_size s)) size)) (bytes_limit s))).

Definition RequestedSize st (p : Z) : res Z :=
  h ← get_handle (regions_ st) p;
  h ← of_option EnforceFailed h;
  c ← ChunkFromHandle st h;
  Ok (c_requested_size c).

Definition AllocatedSize st (p : Z) : res Z :=
  h ← get_handle (regions_ st) p;
  h ← of_option EnforceFailed h;
  c ← ChunkFromHandle st h;
  Ok (c_size c).

Definition Used st : Z := u64 (bytes_in_use (stats_ st)).
Definition Max st : Z := memory_limit_ st.
Definition GetStats st : AllocatorStats := stats_ st.

(** The constructor: bin [b] holds the chunks of at least [256 << b] bytes, and
    the four [ORT_ENFORCE]s of each round of its loop. *)
Definition check_bin (b : Z) : res Bin :=
  let bin_size := BinNumToSize b in
  _ ← enforce (BinNumForSize bin_size =? b);
  _ ← enforce (BinNumForSize (u64 (bin_size + 255)) =? b);
  _ ← enforce (BinNumForSize (u64 (bin_size * 2 - 1)) =? b);
  _ ← enforce (if b + 1 <? kNumBins
               then negb (BinNumForSize (u64 (bin_size * 2)) =? b) else true);
  Ok (mkBin bin_size []).

Fixpoint make_bins (n : nat) (b : Z) : res (list Bin) :=
  match n with
  | O => Ok []
  | S n => x ← check_bin b; l ← make_bins n (b + 1); Ok (x :: l)
  end.

Definition new_BFCArena (d : D) (total_memory : Z) : res (Arena D) :=
  curr ← RoundedBytes (Z.min total_memory 1048576);
  bins ← make_bins (Z.to_nat kNumBins) 0;
  Ok (mkArena total_memory bins curr false d [] [] None 1
        (mkStats 0 0 0 0 0 (i64 total_memory)) ∅).

(** The destructor hands every region and every reserved block back. *)
Definition destroy_BFCArena st : D :=
  let d := foldl (fun d r => dev_Free d (r_ptr r)) (device_allocator_ st) (regions_ st) in
  foldl (fun d kv => dev_Free d (fst kv)) d (map_to_list (reserved_chunks_ st)).

(** [struct BinDebugInfo] and [get_bin_debug_info]. *)
Record BinDebugInfo := mkBinDebugInfo {
  total_bytes_in_use : Z;
  total_bytes_in_bin : Z;
  total_requested_bytes_in_use : Z;
  total_chunks_in_use : Z;
  total_chunks_in_bin : Z;
}.

Definition count_chunk (c : Chunk) (i : BinDebugInfo) : BinDebugInfo :=
  let i := mkBinDebugInfo (total_bytes_in_use i) (u64 (total_bytes_in_bin i + c_size c))
             (total_requested_bytes_in_use i) (total_chunks_in_use i)
             (total_chunks_in_bin i + 1) in
  if in_use c then
    mkBinDebugInfo (u64 (total_bytes_in_use i + c_size c)) (total_bytes_in_bin i)
      (u64 (total_requested_bytes_in_use i + c_requested_size c))
      (total_chunks_in_use i + 1) (total_chunks_in_bin i)
  else i.

(** The walk along the [next] pointers of one region. *)
Fixpoint walk_chunks (fuel : nat) st (oh : option nat) (infos : list BinDebugInfo) :
    res (list BinDebugInfo) :=
  match oh with
  | None => Ok infos
  | Some h =>
      match fuel with
      | O => OutOfFuel
      | S fuel =>
          c ← ChunkFromHandle st h;
          let bin_num := BinNumForSize (c_size c) in
          let infos := alter (count_chunk c) (Z.to_nat bin_num) infos in
          _ ← (if in_use c then Ok tt
               else b ← BinFromIndex st bin_num;
                    _ ← enforce (bool_decide (length (filter (fun x => equivalent st h x = true)
                                                        (free_chunks b)) = 1%nat));
                    enforce (c_bin_num c =? bin_num));
          walk_chunks fuel st (c_next c) infos
      end
  end.

Fixpoint walk_regions (fuel : nat) st (rs : list AllocationRegion) (infos : list BinDebugInfo) :
    res (list BinDebugInfo) :=
  match rs with
  | [] => Ok infos
  | r :: rs' =>
      h ← get_handle (regions_ st) (r_ptr r);
      infos ← walk_chunks fuel st h infos;
      walk_regions fuel st rs' infos
  end.

Definition get_bin_debug_info (fuel : nat) st : res (list BinDebugInfo) :=
  walk_regions fuel st (regions_ st)
    (replicate (Z.to_nat kNumBins) (mkBinDebugInfo 0 0 0 0 0)).

End arena.
