(* ===== verification/BfcLayout.v ===== *)
(** How the chunks of the arena tile its regions, independently of the arena's
    own data structures.  A [Seg] is what a chunk says about memory: its bytes
    and its two neighbours.  [lv] gives the live segments by handle, [S] the
    regions as (base, length) pairs and [hm] the handle recorded for an
    address.  [Layout] is the invariant of that picture, stated pointwise, and
    the lemmas say that the three ways the arena changes it (split, merge, new
    region) keep it. *)
From S2P Require Import Prelude BfcArena.

Record Seg := mkSeg { s_ptr : Z; s_size : Z; s_prev : option nat; s_next : option nat }.

Definition seg_of (c : Chunk) : Seg := mkSeg (c_ptr c) (c_size c) (c_prev c) (c_next c).

(** [(b, k)] contains the bytes of [c], at a multiple of 256 from its base. *)
Definition inside (b k : Z) (c : Seg) : Prop :=
  b ≤ s_ptr c ∧ s_ptr c + s_size c ≤ b + k ∧ (s_ptr c - b) mod 256 = 0.

(** Addresses a chunk can start at. *)
Definition chunk_addr (S : list (Z * Z)) (p : Z) : Prop :=
  ∃ b k, (b, k) ∈ S ∧ b ≤ p < b + k ∧ (p - b) mod 256 = 0.

Definition spans_disjoint (S : list (Z * Z)) : Prop :=
  ∀ b k b' k' a, (b, k) ∈ S → (b', k') ∈ S →
    b ≤ a < b + k → b' ≤ a < b' + k' → b = b' ∧ k = k'.

Record Layout (lv : nat → option Seg) (S : list (Z * Z)) (hm : Z → option nat) : Prop := {
  lay_size : ∀ h c, lv h = Some c → 0 < s_size c ∧ s_size c mod 256 = 0;
  lay_in : ∀ h c, lv h = Some c → ∃ b k, (b, k) ∈ S ∧ inside b k c;
  lay_next : ∀ h c n, lv h = Some c → s_next c = Some n →
    ∃ c' b k, lv n = Some c' ∧ s_prev c' = Some h ∧ s_ptr c' = s_ptr c + s_size c ∧
      (b, k) ∈ S ∧ inside b k c ∧ inside b k c';
  lay_last : ∀ h c, lv h = Some c → s_next c = None →
    ∃ b k, (b, k) ∈ S ∧ inside b k c ∧ s_ptr c + s_size c = b + k;
  lay_prev : ∀ h c n, lv h = Some c → s_prev c = Some n →
    ∃ c', lv n = Some c' ∧ s_next c' = Some h;
  lay_first : ∀ h c, lv h = Some c → s_prev c = None → ∃ k, (s_ptr c, k) ∈ S;
  lay_disj : ∀ h c h' c', lv h = Some c → lv h' = Some c' → h ≠ h' →
    s_ptr c + s_size c ≤ s_ptr c' ∨ s_ptr c' + s_size c' ≤ s_ptr c;
  lay_cover : ∀ b k a, (b, k) ∈ S → b ≤ a < b + k →
    ∃ h c, lv h = Some c ∧ s_ptr c ≤ a < s_ptr c + s_size c;
  lay_hm : ∀ h c, lv h = Some c → hm (s_ptr c) = Some h;
  lay_hm_live : ∀ p h, chunk_addr S p → hm p = Some h →
    ∃ c, lv h = Some c ∧ s_ptr c = p;
}.

(** The segments after splitting [c] at [h], [n] bytes from its start, into
    [h] and [hn]. *)
Definition split_lv (lv : nat → option Seg) (h hn : nat) (c : Seg) (n : Z) (k : nat) : option Seg :=
  if decide (k = h) then Some (mkSeg (s_ptr c) n (s_prev c) (Some hn))
  else if decide (k = hn) then
    Some (mkSeg (s_ptr c + n) (s_size c - n) (Some h) (s_next c))
  else if decide (Some k = s_next c) then
    (fun d => mkSeg (s_ptr d) (s_size d) (Some hn) (s_next d)) <$> lv k
  else lv k.

(** The segments after merging [c2] at [h2] into [c1] at [h1]. *)
Definition merge_lv (lv : nat → option Seg) (h1 h2 : nat) (c1 c2 : Seg) (k : nat) : option Seg :=
  if decide (k = h1) then
    Some (mkSeg (s_ptr c1) (s_size c1 + s_size c2) (s_prev c1) (s_next c2))
  else if decide (k = h2) then None
  else if decide (Some k = s_next c2) then
    (fun d => mkSeg (s_ptr d) (s_size d) (Some h1) (s_next d)) <$> lv k
  else lv k.

Definition fun_upd {B} (f : Z → B) (p : Z) (v : B) (q : Z) : B :=
  if decide (q = p) then v else f q.

Ltac dec_all :=
  repeat (case_decide; simplify_eq/=).

Section layout.
Implicit Types (lv : nat → option Seg) (hm : Z → option nat).

Lemma layout_ext lv lv' S hm hm' :
  Layout lv S hm → (∀ k, lv' k = lv k) → (∀ p, chunk_addr S p → hm' p = hm p) →
  Layout lv' S hm'.
Proof.
  intros [L1 L2 L3 L4 L5 L6 L7 L8 L9 L10] Hlv Hhm.
  assert (Hca : ∀ h c, lv h = Some c → chunk_addr S (s_ptr c)).
  { intros h c Hc. destruct (L2 _ _ Hc) as (b & k & ? & ? & ? & ?).
    destruct (L1 _ _ Hc). exists b, k. split_and!; [done|lia|lia|done]. }
  split.
  - intros h c. rewrite Hlv. apply L1.
  - intros h c. rewrite Hlv. apply L2.
  - intros h c n. rewrite Hlv. intros Hc Hn. rewrite Hlv. by apply L3.
  - intros h c. rewrite Hlv. apply L4.
  - intros h c n. rewrite !Hlv. apply L5.
  - intros h c. rewrite Hlv. apply L6.
  - intros h c h' c'. rewrite !Hlv. apply L7.
  - intros b k a Hb Ha. destruct (L8 b k a) as (h & c & ?); [done..|]. exists h, c. by rewrite Hlv.
  - intros h c. rewrite Hlv. intros Hc. rewrite Hhm; eauto.
  - intros p h Hp. rewrite Hhm, Hlv by done. by apply L10.
Qed.

Lemma layout_chunk_addr lv S hm h c :
  Layout lv S hm → lv h = Some c → chunk_addr S (s_ptr c).
Proof.
  intros HL H. destruct (lay_in _ _ _ HL _ _ H) as (b & k & Hb & Hi1 & Hi2 & Hi3).
  destruct (lay_size _ _ _ HL _ _ H). exists b, k. split_and!; [done|lia|lia|done].
Qed.

Lemma layout_ptr_inj lv S hm h c h' c' :
  Layout lv S hm → lv h = Some c → lv h' = Some c' → s_ptr c = s_ptr c' → h = h'.
Proof.
  intros HL H1 H2 Heq. pose proof (lay_hm _ _ _ HL _ _ H1) as E1.
  pose proof (lay_hm _ _ _ HL _ _ H2) as E2. congruence.
Qed.

(** A live segment's neighbour is another segment. *)
Lemma layout_next_ne lv S hm h c n :
  Layout lv S hm → lv h = Some c → s_next c = Some n → n ≠ h.
Proof.
  intros HL H Hn ->. destruct (lay_next _ _ _ HL _ _ _ H Hn) as (c' & ? & ? & H' & ? & ? & ?).
  destruct (lay_size _ _ _ HL _ _ H). simplify_eq. lia.
Qed.

(** The bytes of a segment are inside one region only. *)
Lemma inside_unique lv S hm h c b k b' k' :
  Layout lv S hm → spans_disjoint S → lv h = Some c →
  (b, k) ∈ S → inside b k c → (b', k') ∈ S → inside b' k' c → b = b' ∧ k = k'.
Proof.
  intros HL HS H Hb Hi Hb' Hi'. destruct (lay_size _ _ _ HL _ _ H).
  unfold inside in *. apply (HS b k b' k' (s_ptr c)); auto; lia.
Qed.

Lemma mod256_add a b : a mod 256 = 0 → b mod 256 = 0 → (a + b) mod 256 = 0.
Proof. intros. rewrite Z.add_mod, H, H0; done || lia. Qed.
Lemma mod256_sub a b : a mod 256 = 0 → b mod 256 = 0 → (a - b) mod 256 = 0.
Proof. intros. rewrite Zminus_mod, H, H0; done. Qed.

Lemma inside_left b k p s s' q m :
  0 < s ≤ s' → inside b k (mkSeg p s' q m) → ∀ q' m', inside b k (mkSeg p s q' m').
Proof. unfold inside; simpl. intros ? (?&?&?) ??. split_and!; try done; lia. Qed.
Lemma inside_right b k p s q m n :
  0 < n < s → n mod 256 = 0 → inside b k (mkSeg p s q m) →
  ∀ q' m', inside b k (mkSeg (p + n) (s - n) q' m').
Proof.
  unfold inside; simpl. intros ?? (?&?&?) ??. split_and!; try lia.
  replace (p + n - b) with ((p - b) + n) by lia. by apply mod256_add.
Qed.
Lemma inside_eq b k c d :
  s_ptr c = s_ptr d → s_size c = s_size d → inside b k c → inside b k d.
Proof. unfold inside. intros -> ->. done. Qed.

(** What a segment of a split layout is. *)
Lemma split_lv_inv lv h hn c n k d :
  split_lv lv h hn c n k = Some d →
  (k = h ∧ d = mkSeg (s_ptr c) n (s_prev c) (Some hn)) ∨
  (k ≠ h ∧ k = hn ∧ d = mkSeg (s_ptr c + n) (s_size c - n) (Some h) (s_next c)) ∨
  (k ≠ h ∧ k ≠ hn ∧ ∃ e, lv k = Some e ∧ s_ptr d = s_ptr e ∧ s_size d = s_size e ∧
     s_next d = s_next e ∧
     ((s_next c = Some k ∧ s_prev d = Some hn) ∨ (s_next c ≠ Some k ∧ s_prev d = s_prev e))).
Proof.
  unfold split_lv. intros Hd. repeat case_decide; simplify_eq/=; auto.
  - destruct (lv k) as [e|] eqn:E; simplify_eq/=. right; right. split_and!; auto.
    exists e. split_and!; auto.
  - right; right. split_and!; auto. exists d. split_and!; auto.
Qed.

Lemma split_lv_other lv h hn c n k e :
  k ≠ h → k ≠ hn → lv k = Some e →
  ∃ d, split_lv lv h hn c n k = Some d ∧ s_ptr d = s_ptr e ∧ s_size d = s_size e ∧
    s_next d = s_next e ∧
    ((s_next c = Some k ∧ s_prev d = Some hn) ∨ (s_next c ≠ Some k ∧ s_prev d = s_prev e)).
Proof.
  intros ?? He. unfold split_lv. rewrite !decide_False by done.
  case_decide; rewrite ?He; simpl; eexists; split_and!; eauto.
Qed.

Section split.
Context lv S hm h hn c n
  (HL : Layout lv S hm) (HS : spans_disjoint S) (Hc : lv h = Some c) (Hhn : lv hn = None)
  (Hn : 0 < n < s_size c) (Hmod : n mod 256 = 0).

Lemma split_ne : hn ≠ h.
Proof. congruence. Qed.

Lemma split_at_h : split_lv lv h hn c n h = Some (mkSeg (s_ptr c) n (s_prev c) (Some hn)).
Proof. unfold split_lv. by rewrite decide_True. Qed.
Lemma split_at_hn :
  split_lv lv h hn c n hn = Some (mkSeg (s_ptr c + n) (s_size c - n) (Some h) (s_next c)).
Proof. unfold split_lv. pose proof split_ne. by rewrite decide_False, decide_True. Qed.

(** A live segment other than [h] keeps its place. *)
Lemma split_at_other k e : k ≠ h → lv k = Some e →
  ∃ d, split_lv lv h hn c n k = Some d ∧ s_ptr d = s_ptr e ∧ s_size d = s_size e ∧
    s_next d = s_next e ∧
    ((s_next c = Some k ∧ s_prev d = Some hn) ∨ (s_next c ≠ Some k ∧ s_prev d = s_prev e)).
Proof. intros Hk He. apply split_lv_other; congruence. Qed.

Lemma split_next k d m :
  split_lv lv h hn c n k = Some d → s_next d = Some m →
  ∃ d' b l, split_lv lv h hn c n m = Some d' ∧ s_prev d' = Some k ∧
    s_ptr d' = s_ptr d + s_size d ∧ (b, l) ∈ S ∧ inside b l d ∧ inside b l d'.
Proof.
  intros Hk Hm. pose proof split_ne as Hne.
  apply split_lv_inv in Hk as [[-> ->]|[(Hkh & -> & ->)|(Hkh & Hkn & e & He & Hp & Hs & Hx & Hv)]];
    simpl in *.
  - injection Hm as <-. destruct (lay_in _ _ _ HL _ _ Hc) as (b & l & Hb & Hi).
    eexists _, b, l. rewrite split_at_hn. split_and!; [done..| |].
    + destruct c; simpl in *. eapply inside_left; [|done]. lia.
    + destruct c; simpl in *. by eapply inside_right.
  - destruct (lay_next _ _ _ HL _ _ _ Hc Hm) as (e & b & l & He & Hpv & Hpt & Hb & Hi & Hie).
    pose proof (layout_next_ne _ _ _ _ _ _ HL Hc Hm) as Hmh.
    destruct (split_at_other m e Hmh He) as (d & Hd & E1 & E2 & E3 & [[_ E4]|[? _]]); [|done].
    exists d, b, l. split_and!; try done; [simpl; lia| |].
    + destruct c; simpl in *. by eapply inside_right.
    + by eapply inside_eq.
  - rewrite Hx in Hm.
    destruct (lay_next _ _ _ HL _ _ _ He Hm) as (f & b & l & Hf & Hpv & Hpt & Hb & Hi & Hif).
    destruct (decide (m = h)) as [->|Hmh].
    + assert (f = c) as -> by congruence. eexists _, b, l. rewrite split_at_h. split_and!; try done; [simpl; lia| |].
      * by eapply (inside_eq _ _ e).
      * destruct c; simpl in *. eapply inside_left; [|done]. lia.
    + destruct (split_at_other m f Hmh Hf) as (d' & Hd' & E1 & E2 & E3 & [[E4 E5]|[_ E4]]).
      * destruct (lay_next _ _ _ HL _ _ _ Hc E4) as (f' & ? & ? & ? & ? & _). congruence.
      * exists d', b, l. split_and!; try done; [congruence|lia| |]; by eapply inside_eq.
Qed.

Lemma split_prev k d m :
  split_lv lv h hn c n k = Some d → s_prev d = Some m →
  ∃ d', split_lv lv h hn c n m = Some d' ∧ s_next d' = Some k.
Proof.
  intros Hk Hm. pose proof split_ne as Hne.
  apply split_lv_inv in Hk as [[-> ->]|[(Hkh & -> & ->)|(Hkh & Hkn & e & He & Hp & Hs & Hx & Hv)]];
    simpl in *.
  - destruct (lay_prev _ _ _ HL _ _ _ Hc Hm) as (e & He & Hnx).
    pose proof (layout_next_ne _ _ _ _ _ _ HL He Hnx) as Hmh.
    destruct (split_at_other m e) as (d & Hd & E1 & E2 & E3 & _); [done..|].
    exists d. split; congruence.
  - injection Hm as <-. eexists. by rewrite split_at_h.
  - destruct Hv as [[Hv1 Hv2]|[Hv1 Hv2]].
    + assert (m = hn) as -> by congruence. eexists. by rewrite split_at_hn.
    + rewrite Hv2 in Hm. destruct (lay_prev _ _ _ HL _ _ _ He Hm) as (f & Hf & Hnx).
      assert (m ≠ h) by (intros ->; congruence).
      destruct (split_at_other m f) as (d' & Hd & E1 & E2 & E3 & _); [done..|].
      exists d'. split; congruence.
Qed.

Lemma split_disj k d k' d' :
  split_lv lv h hn c n k = Some d → split_lv lv h hn c n k' = Some d' → k ≠ k' →
  s_ptr d + s_size d ≤ s_ptr d' ∨ s_ptr d' + s_size d' ≤ s_ptr d.
Proof.
  intros Hk Hk' Hne.
  apply split_lv_inv in Hk as [[-> ->]|[(? & -> & ->)|(? & ? & e & He & -> & -> & _)]];
  apply split_lv_inv in Hk' as [[-> ->]|[(? & -> & ->)|(? & ? & e' & He' & -> & -> & _)]];
    simpl; try done; try lia.
  - destruct (lay_disj _ _ _ HL _ _ _ _ Hc He'); [done|lia..].
  - destruct (lay_disj _ _ _ HL _ _ _ _ Hc He'); [done|lia..].
  - destruct (lay_disj _ _ _ HL _ _ _ _ Hc He); [done|lia..].
  - destruct (lay_disj _ _ _ HL _ _ _ _ Hc He); [done|lia..].
  - eapply (lay_disj _ _ _ HL); done.
Qed.

Lemma split_cover b k a : (b, k) ∈ S → b ≤ a < b + k →
  ∃ m d, split_lv lv h hn c n m = Some d ∧ s_ptr d ≤ a < s_ptr d + s_size d.
Proof.
  intros Hb Ha. destruct (lay_cover _ _ _ HL _ _ _ Hb Ha) as (m & e & He & Hr).
  destruct (decide (m = h)) as [->|Hm].
  - assert (e = c) as -> by congruence. destruct (decide (a < s_ptr c + n)).
    + exists h. eexists. rewrite split_at_h. split; [done|]. simpl. lia.
    + exists hn. eexists. rewrite split_at_hn. split; [done|]. simpl. lia.
  - destruct (split_at_other m e) as (d & Hd & E1 & E2 & _); [done..|].
    exists m, d. split; [done|lia].
Qed.

Lemma layout_split : Layout (split_lv lv h hn c n) S (fun_upd hm (s_ptr c + n) (Some hn)).
Proof.
  pose proof split_ne as Hne. destruct (lay_size _ _ _ HL _ _ Hc) as [Hsz Hszm].
  split; [..|exact split_disj|exact split_cover| |].
  - intros k d Hk.
    apply split_lv_inv in Hk as [[-> ->]|[(? & -> & ->)|(? & ? & e & He & _ & -> & _)]]; simpl.
    + split; [lia|done].
    + split; [lia|by apply mod256_sub].
    + by apply (lay_size _ _ _ HL k).
  - intros k d Hk. destruct (lay_in _ _ _ HL _ _ Hc) as (b & l & Hb & Hi).
    apply split_lv_inv in Hk as [[-> ->]|[(? & -> & ->)|(? & ? & e & He & Hp & Hs & _)]]; simpl.
    + exists b, l. split; [done|]. destruct c; simpl in *. eapply inside_left; [|done]. lia.
    + exists b, l. split; [done|]. destruct c; simpl in *. by eapply inside_right.
    + destruct (lay_in _ _ _ HL _ _ He) as (b' & l' & ? & ?). exists b', l'.
      split; [done|]. by eapply inside_eq.
  - exact split_next.
  - intros k d Hk Hnx.
    apply split_lv_inv in Hk as [[-> ->]|[(? & -> & ->)|(? & ? & e & He & Hp & Hs & Hx & _)]];
      simpl in *; [done| |].
    + destruct (lay_last _ _ _ HL _ _ Hc Hnx) as (b & l & ? & Hi & ?). exists b, l.
      split_and!; [done| |lia]. destruct c; simpl in *. by eapply inside_right.
    + rewrite Hx in Hnx. destruct (lay_last _ _ _ HL _ _ He Hnx) as (b & l & ? & ? & ?).
      exists b, l. split_and!; [done| |lia]. by eapply inside_eq.
  - exact split_prev.
  - intros k d Hk Hpv.
    apply split_lv_inv in Hk as [[-> ->]|[(? & -> & ->)|(? & ? & e & He & Hp & Hs & Hx & Hv)]];
      simpl in *; [|done|].
    + by apply (lay_first _ _ _ HL h).
    + destruct Hv as [[_ Hv]|[_ Hv]]; [congruence|]. rewrite Hp.
      apply (lay_first _ _ _ HL k); congruence.
  - intros k d Hk. unfold fun_upd.
    apply split_lv_inv in Hk as [[-> ->]|[(? & -> & ->)|(? & ? & e & He & -> & Hs & _)]]; simpl.
    + rewrite decide_False by lia. by apply (lay_hm _ _ _ HL).
    + by rewrite decide_True.
    + destruct (lay_size _ _ _ HL _ _ He).
      destruct (lay_disj _ _ _ HL _ _ _ _ Hc He); [done| |];
        rewrite decide_False by lia; by apply (lay_hm _ _ _ HL).
  - intros p k Hp. unfold fun_upd. case_decide as Hd; intros Hk.
    + assert (k = hn) as -> by congruence. eexists. by rewrite split_at_hn.
    + destruct (lay_hm_live _ _ _ HL _ _ Hp Hk) as (e & He & <-).
      destruct (decide (k = h)) as [->|Hkh].
      * assert (e = c) as -> by congruence. eexists. by rewrite split_at_h.
      * destruct (split_at_other k e) as (d & Hd' & E1 & _); [done..|]. eauto.
Qed.
End split.

(** What a segment of a merged layout is. *)
Lemma merge_lv_inv lv h1 h2 c1 c2 k d :
  merge_lv lv h1 h2 c1 c2 k = Some d →
  (k = h1 ∧ d = mkSeg (s_ptr c1) (s_size c1 + s_size c2) (s_prev c1) (s_next c2)) ∨
  (k ≠ h1 ∧ k ≠ h2 ∧ ∃ e, lv k = Some e ∧ s_ptr d = s_ptr e ∧ s_size d = s_size e ∧
     s_next d = s_next e ∧
     ((s_next c2 = Some k ∧ s_prev d = Some h1) ∨ (s_next c2 ≠ Some k ∧ s_prev d = s_prev e))).
Proof.
  unfold merge_lv. intros Hd. repeat case_decide; simplify_eq/=; auto.
  - destruct (lv k) as [e|] eqn:E; simplify_eq/=. right. split_and!; auto.
    exists e. split_and!; auto.
  - right. split_and!; auto. exists d. split_and!; auto.
Qed.

Section merge.
Context lv S hm h1 h2 c1 c2
  (HL : Layout lv S hm) (HS : spans_disjoint S)
  (H1 : lv h1 = Some c1) (H2 : lv h2 = Some c2) (Hnx : s_next c1 = Some h2).

Lemma merge_facts : h2 ≠ h1 ∧ s_ptr c2 = s_ptr c1 + s_size c1 ∧ s_prev c2 = Some h1 ∧
  ∃ b k, (b, k) ∈ S ∧ inside b k c1 ∧ inside b k c2.
Proof.
  destruct (lay_next _ _ _ HL _ _ _ H1 Hnx) as (c' & b & k & ? & ? & ? & ? & ? & ?).
  assert (c' = c2) as -> by congruence.
  split_and!; [by eapply layout_next_ne|done..|]. exists b, k. done.
Qed.

Lemma merge_at_h1 : merge_lv lv h1 h2 c1 c2 h1 =
  Some (mkSeg (s_ptr c1) (s_size c1 + s_size c2) (s_prev c1) (s_next c2)).
Proof. unfold merge_lv. by rewrite decide_True. Qed.

Lemma merge_at_other k e : k ≠ h1 → k ≠ h2 → lv k = Some e →
  ∃ d, merge_lv lv h1 h2 c1 c2 k = Some d ∧ s_ptr d = s_ptr e ∧ s_size d = s_size e ∧
    s_next d = s_next e ∧
    ((s_next c2 = Some k ∧ s_prev d = Some h1) ∨ (s_next c2 ≠ Some k ∧ s_prev d = s_prev e)).
Proof.
  intros ?? He. unfold merge_lv. rewrite !decide_False by done.
  case_decide; rewrite ?He; simpl; eexists; split_and!; eauto.
Qed.

Lemma inside_merge b k : inside b k c1 → inside b k c2 →
  ∀ q m, inside b k (mkSeg (s_ptr c1) (s_size c1 + s_size c2) q m).
Proof.
  destruct merge_facts as (_ & Hp & _ & _). unfold inside; simpl.
  intros (?&?&?) (?&?&?) ??. split_and!; try done; lia.
Qed.

(** Only [h1] leads to [h2]. *)
Lemma merge_not_next k e : k ≠ h1 → lv k = Some e → s_next e ≠ Some h2.
Proof.
  intros Hk He Hx. destruct (lay_next _ _ _ HL _ _ _ He Hx) as (c' & b & l & ? & ? & _).
  destruct merge_facts as (_ & _ & Hpv & _). congruence.
Qed.

Lemma merge_next k d m :
  merge_lv lv h1 h2 c1 c2 k = Some d → s_next d = Some m →
  ∃ d' b l, merge_lv lv h1 h2 c1 c2 m = Some d' ∧ s_prev d' = Some k ∧
    s_ptr d' = s_ptr d + s_size d ∧ (b, l) ∈ S ∧ inside b l d ∧ inside b l d'.
Proof.
  intros Hk Hm. destruct merge_facts as (Hne & Hp2 & Hpv2 & b & l & Hb & Hi1 & Hi2).
  apply merge_lv_inv in Hk as [[-> ->]|(Hk1 & Hk2 & e & He & Hp & Hs & Hx & Hv)]; simpl in *.
  - destruct (lay_next _ _ _ HL _ _ _ H2 Hm) as (e & b' & l' & He & Hpv & Hpt & Hb' & Hi & Hie).
    destruct (inside_unique _ _ _ _ _ b l b' l' HL HS H2) as [<- <-]; [done..|].
    assert (m ≠ h2) by by eapply layout_next_ne.
    assert (m ≠ h1).
    { intros ->. assert (e = c1) as -> by congruence.
      destruct (lay_size _ _ _ HL _ _ H1), (lay_size _ _ _ HL _ _ H2). lia. }
    destruct (merge_at_other m e) as (d & Hd & E1 & E2 & E3 & [[_ E4]|[? _]]); [done..| |done].
    exists d, b, l. split_and!; try done; [simpl; lia| |].
    + by apply inside_merge.
    + by eapply inside_eq.
  - rewrite Hx in Hm.
    destruct (lay_next _ _ _ HL _ _ _ He Hm) as (f & b' & l' & Hf & Hpv & Hpt & Hb' & Hi & Hif).
    destruct (decide (m = h1)) as [->|Hm1].
    + assert (f = c1) as -> by congruence.
      destruct (inside_unique _ _ _ _ _ b l b' l' HL HS H1) as [<- <-]; [done..|].
      eexists _, b, l. rewrite merge_at_h1. split_and!; try done; [simpl; lia| |].
      * by eapply (inside_eq _ _ e).
      * by apply inside_merge.
    + assert (m ≠ h2) by (intros ->; by eapply (merge_not_next k e)).
      destruct (merge_at_other m f) as (d' & Hd' & E1 & E2 & E3 & [[E4 E5]|[_ E4]]); [done..| |].
      * destruct (lay_next _ _ _ HL _ _ _ H2 E4) as (f' & ? & ? & ? & ? & _). congruence.
      * exists d', b', l'. split_and!; try done; [congruence|lia| |]; by eapply inside_eq.
Qed.

Lemma merge_prev k d m :
  merge_lv lv h1 h2 c1 c2 k = Some d → s_prev d = Some m →
  ∃ d', merge_lv lv h1 h2 c1 c2 m = Some d' ∧ s_next d' = Some k.
Proof.
  intros Hk Hm. destruct merge_facts as (Hne & Hp2 & Hpv2 & _).
  apply merge_lv_inv in Hk as [[-> ->]|(Hk1 & Hk2 & e & He & Hp & Hs & Hx & Hv)]; simpl in *.
  - destruct (lay_prev _ _ _ HL _ _ _ H1 Hm) as (e & He & Hx).
    pose proof (layout_next_ne _ _ _ _ _ _ HL He Hx).
    assert (m ≠ h2).
    { intros ->. assert (e = c2) as -> by congruence.
      destruct (lay_next _ _ _ HL _ _ _ H2 Hx) as (c' & ? & ? & ? & ? & ? & _).
      destruct (lay_size _ _ _ HL _ _ H1), (lay_size _ _ _ HL _ _ H2).
      assert (c' = c1) as -> by congruence. lia. }
    destruct (merge_at_other m e) as (d & Hd & E1 & E2 & E3 & _); [done..|].
    exists d. split; congruence.
  - destruct Hv as [[Hv1 Hv2]|[Hv1 Hv2]].
    + assert (m = h1) as -> by congruence. eexists. by rewrite merge_at_h1.
    + rewrite Hv2 in Hm. destruct (lay_prev _ _ _ HL _ _ _ He Hm) as (f & Hf & Hfx).
      assert (m ≠ h1) by (intros ->; congruence).
      assert (m ≠ h2) by (intros ->; congruence).
      destruct (merge_at_other m f) as (d' & Hd & E1 & E2 & E3 & _); [done..|].
      exists d'. split; congruence.
Qed.

Lemma merge_disj k d k' d' :
  merge_lv lv h1 h2 c1 c2 k = Some d → merge_lv lv h1 h2 c1 c2 k' = Some d' → k ≠ k' →
  s_ptr d + s_size d ≤ s_ptr d' ∨ s_ptr d' + s_size d' ≤ s_ptr d.
Proof.
  intros Hk Hk' Hne. destruct merge_facts as (_ & Hp2 & _ & _).
  assert (Hlem : ∀ m e, m ≠ h1 → m ≠ h2 → lv m = Some e →
    s_ptr c1 + (s_size c1 + s_size c2) ≤ s_ptr e ∨ s_ptr e + s_size e ≤ s_ptr c1).
  { intros m e Hm1 Hm2 He. destruct (lay_size _ _ _ HL _ _ He).
    destruct (lay_size _ _ _ HL _ _ H1), (lay_size _ _ _ HL _ _ H2).
    destruct (lay_disj _ _ _ HL _ _ _ _ H1 He), (lay_disj _ _ _ HL _ _ _ _ H2 He); congruence || lia. }
  apply merge_lv_inv in Hk as [[-> ->]|(? & ? & e & He & -> & -> & _)];
  apply merge_lv_inv in Hk' as [[-> ->]|(? & ? & e' & He' & -> & -> & _)]; simpl.
  - done.
  - by eapply Hlem.
  - destruct (Hlem k e); [done..| |]; lia.
  - by eapply (lay_disj _ _ _ HL).
Qed.

Lemma merge_cover b k a : (b, k) ∈ S → b ≤ a < b + k →
  ∃ m d, merge_lv lv h1 h2 c1 c2 m = Some d ∧ s_ptr d ≤ a < s_ptr d + s_size d.
Proof.
  intros Hb Ha. destruct merge_facts as (_ & Hp2 & _ & _).
  destruct (lay_size _ _ _ HL _ _ H1), (lay_size _ _ _ HL _ _ H2).
  destruct (lay_cover _ _ _ HL _ _ _ Hb Ha) as (m & e & He & Hr).
  destruct (decide (m = h1)) as [->|Hm1]; [|destruct (decide (m = h2)) as [->|Hm2]].
  - assert (e = c1) as -> by congruence. exists h1. eexists. rewrite merge_at_h1.
    split; [done|]. simpl. lia.
  - assert (e = c2) as -> by congruence. exists h1. eexists. rewrite merge_at_h1.
    split; [done|]. simpl. lia.
  - destruct (merge_at_other m e) as (d & Hd & E1 & E2 & _); [done..|].
    exists m, d. split; [done|lia].
Qed.

Lemma layout_merge : Layout (merge_lv lv h1 h2 c1 c2) S (fun_upd hm (s_ptr c2) None).
Proof.
  destruct merge_facts as (Hne & Hp2 & Hpv2 & b & l & Hb & Hi1 & Hi2).
  destruct (lay_size _ _ _ HL _ _ H1) as [Hs1 Hm1], (lay_size _ _ _ HL _ _ H2) as [Hs2 Hm2].
  split; [..|exact merge_disj|exact merge_cover| |].
  - intros k d Hk. apply merge_lv_inv in Hk as [[-> ->]|(? & ? & e & He & _ & -> & _)]; simpl.
    + split; [lia|by apply mod256_add].
    + by apply (lay_size _ _ _ HL k).
  - intros k d Hk. apply merge_lv_inv in Hk as [[-> ->]|(? & ? & e & He & Hp & Hs & _)]; simpl.
    + exists b, l. split; [done|]. by apply inside_merge.
    + destruct (lay_in _ _ _ HL _ _ He) as (b' & l' & ? & ?). exists b', l'.
      split; [done|]. by eapply inside_eq.
  - exact merge_next.
  - intros k d Hk Hn.
    apply merge_lv_inv in Hk as [[-> ->]|(? & ? & e & He & Hp & Hs & Hx & _)]; simpl in *.
    + destruct (lay_last _ _ _ HL _ _ H2 Hn) as (b' & l' & ? & Hi' & ?).
      destruct (inside_unique _ _ _ _ _ b l b' l' HL HS H2) as [<- <-]; [done..|].
      exists b, l. split_and!; [done| |lia]. by apply inside_merge.
    + rewrite Hx in Hn. destruct (lay_last _ _ _ HL _ _ He Hn) as (b' & l' & ? & ? & ?).
      exists b', l'. split_and!; [done| |lia]. by eapply inside_eq.
  - exact merge_prev.
  - intros k d Hk Hpv.
    apply merge_lv_inv in Hk as [[-> ->]|(? & ? & e & He & Hp & Hs & Hx & Hv)]; simpl in *.
    + by apply (lay_first _ _ _ HL h1).
    + destruct Hv as [[_ Hv]|[_ Hv]]; [congruence|]. rewrite Hp.
      apply (lay_first _ _ _ HL k); congruence.
  - intros k d Hk. unfold fun_upd.
    apply merge_lv_inv in Hk as [[-> ->]|(? & ? & e & He & -> & Hs & _)]; simpl.
    + rewrite decide_False by lia. by apply (lay_hm _ _ _ HL).
    + destruct (lay_size _ _ _ HL _ _ He).
      destruct (lay_disj _ _ _ HL _ _ _ _ H2 He); [done| |];
        rewrite decide_False by lia; by apply (lay_hm _ _ _ HL).
  - intros p k Hp. unfold fun_upd. case_decide as Hd; intros Hk; [done|].
    destruct (lay_hm_live _ _ _ HL _ _ Hp Hk) as (e & He & <-).
    destruct (decide (k = h1)) as [->|Hk1].
    + assert (e = c1) as -> by congruence. eexists. by rewrite merge_at_h1.
    + assert (k ≠ h2) by congruence.
      destruct (merge_at_other k e) as (d & Hd' & E1 & _); [done..|]. eauto.
Qed.
End merge.

(** A new region, covered by one segment. *)
Definition region_lv (lv : nat → option Seg) (h : nat) (b n : Z) (k : nat) : option Seg :=
  if decide (k = h) then Some (mkSeg b n None None) else lv k.

Lemma layout_region lv S hm S' hm' h b n :
  Layout lv S hm → lv h = None → 0 < n → n mod 256 = 0 →
  (∀ x, x ∈ S' ↔ x = (b, n) ∨ x ∈ S) → spans_disjoint S' → (∀ k, (b, k) ∉ S) →
  (∀ b' k', (b', k') ∈ S → 0 < k') →
  hm' b = Some h → (∀ q, chunk_addr S q → hm' q = hm q) →
  (∀ q, b < q < b + n → (q - b) mod 256 = 0 → hm' q = None) →
  Layout (region_lv lv h b n) S' hm'.
Proof.
  intros HL Hh Hn Hnm HS' Hdisj Hfresh Hpos Hb Hold Hnew.
  assert (Hin : (b, n) ∈ S') by (apply HS'; auto).
  assert (Hsub : ∀ x, x ∈ S → x ∈ S') by (intros x Hx; apply HS'; auto).
  assert (Hi : inside b n (mkSeg b n None None)).
  { unfold inside; simpl. rewrite Z.sub_diag. split_and!; lia || done. }
  assert (Hat : ∀ k d, region_lv lv h b n k = Some d →
    (k = h ∧ d = mkSeg b n None None) ∨ (k ≠ h ∧ lv k = Some d)).
  { intros k d. unfold region_lv. case_decide; intros; simplify_eq; auto. }
  assert (Hother : ∀ k d, lv k = Some d → region_lv lv h b n k = Some d).
  { intros k d Hk. unfold region_lv. rewrite decide_False; congruence. }
  assert (Hh' : region_lv lv h b n h = Some (mkSeg b n None None)).
  { unfold region_lv. by rewrite decide_True. }
  destruct HL as [L1 L2 L3 L4 L5 L6 L7 L8 L9 L10].
  assert (Hapart : ∀ k d, lv k = Some d →
    b + n ≤ s_ptr d ∨ s_ptr d + s_size d ≤ b).
  { intros k d Hd. destruct (L2 _ _ Hd) as (b' & l' & Hb' & Hi1 & Hi2 & Hi3).
    destruct (L1 _ _ Hd).
    destruct (decide (b + n ≤ s_ptr d ∨ s_ptr d + s_size d ≤ b)) as [|Hov]; [done|exfalso].
    destruct (Hdisj b n b' l' (Z.max b (s_ptr d))); [auto..| | |]; [lia|lia|].
    simplify_eq. by apply (Hfresh l'). }
  split.
  - intros k d [[-> ->]|[_ Hk]]%Hat; eauto.
  - intros k d [[-> ->]|[_ Hk]]%Hat; [exists b, n; done|].
    destruct (L2 _ _ Hk) as (b' & l' & ? & ?). eauto.
  - intros k d m [[-> ->]|[_ Hk]]%Hat Hm; [done|].
    destruct (L3 _ _ _ Hk Hm) as (c' & b' & l' & ? & ? & ? & ? & ? & ?).
    exists c', b', l'. split_and!; auto.
  - intros k d [[-> ->]|[_ Hk]]%Hat Hm; [exists b, n; split_and!; simpl; done || lia|].
    destruct (L4 _ _ Hk Hm) as (b' & l' & ? & ? & ?). exists b', l'. auto.
  - intros k d m [[-> ->]|[_ Hk]]%Hat Hm; [done|].
    destruct (L5 _ _ _ Hk Hm) as (c' & ? & ?). eauto.
  - intros k d [[-> ->]|[_ Hk]]%Hat Hm; [exists n; done|].
    destruct (L6 _ _ Hk Hm). eauto.
  - intros k d k' d' [[-> ->]|[Hne Hk]]%Hat [[-> ->]|[Hne' Hk']]%Hat Hkk; simpl.
    + done.
    + destruct (Hapart _ _ Hk'); lia.
    + destruct (Hapart _ _ Hk); lia.
    + by eapply L7.
  - intros b' k' a [[= -> ->]|Hb']%HS' Ha.
    + exists h. eexists. split; [done|]. done.
    + destruct (L8 _ _ _ Hb' Ha) as (m & d & ? & ?). exists m, d. auto.
  - intros k d [[-> ->]|[_ Hk]]%Hat; [done|]. rewrite Hold; [eauto|].
    destruct (L2 _ _ Hk) as (b' & l' & ? & ? & ? & ?). destruct (L1 _ _ Hk).
    exists b', l'. split_and!; [done|lia|lia|done].
  - intros p k (b' & l' & [[= -> ->]|Hb']%HS' & Hp & Hpm) Hk.
    + destruct (decide (p = b)) as [->|Hpb].
      * assert (k = h) as -> by congruence. eauto.
      * rewrite Hnew in Hk; [done|lia|done].
    + assert (chunk_addr S p) by (exists b', l'; auto). rewrite Hold in Hk by done.
      destruct (L10 p k) as (d & Hd & ?); [done..|]. eauto.
Qed.

End layout.
