(* ===== verification/BfcRegions.v ===== *)
(** The region manager of the arena ([AllocationRegion], [RegionManager] of
    [bfc_arena.h]) as a map from addresses to chunk handles: lookup, update and
    the insertion of a region. *)
From S2P Require Import Prelude BfcArena BfcLayout.

Definition spans (rs : list AllocationRegion) : list (Z * Z) :=
  (fun r => (r_ptr r, r_memory_size r)) <$> rs.

(** The handle array has 32-bit indices of 256-byte slots, hence the bound of
    2^39 bytes on a region. *)
Definition region_wf (r : AllocationRegion) : Prop :=
  0 < r_ptr r ∧ 0 < r_memory_size r < 2 ^ 39 ∧ r_memory_size r mod 256 = 0 ∧
  r_ptr r + r_memory_size r < 2 ^ 64 ∧ r_end_ptr r = r_ptr r + r_memory_size r ∧
  Z.of_nat (length (r_handles r)) = r_memory_size r / 256.

Definition before (r r' : AllocationRegion) : Prop := r_ptr r + r_memory_size r ≤ r_ptr r'.

Definition regions_wf (rs : list AllocationRegion) : Prop :=
  Forall region_wf rs ∧ StronglySorted before rs.

(** The handle recorded for an address. *)
Definition handle_of (rs : list AllocationRegion) (p : Z) : option nat :=
  match get_handle rs p with Ok h => h | _ => None end.

Lemma elem_of_spans rs b k :
  (b, k) ∈ spans rs ↔ ∃ i r, rs !! i = Some r ∧ r_ptr r = b ∧ r_memory_size r = k.
Proof.
  unfold spans. rewrite list_elem_of_fmap. split.
  - intros (r & ? & (i & Hi)%list_elem_of_lookup). simplify_eq. eauto.
  - intros (i & r & Hi & <- & <-). exists r. split; [done|]. by eapply list_elem_of_lookup_2.
Qed.

Lemma regions_wf_lookup rs i r : regions_wf rs → rs !! i = Some r → region_wf r.
Proof. intros [Hf _] Hi. by eapply Forall_lookup_1. Qed.

Lemma regions_lookup_unique rs i j r r' a :
  regions_wf rs → rs !! i = Some r → rs !! j = Some r' →
  r_ptr r ≤ a < r_ptr r + r_memory_size r → r_ptr r' ≤ a < r_ptr r' + r_memory_size r' → i = j.
Proof.
  intros [_ Hs] Hi Hj Ha Ha'. destruct (decide (i < j)%nat); [|destruct (decide (j < i)%nat)]; [| |lia].
  - pose proof (StronglySorted_lookup _ _ _ _ _ _ Hs Hi Hj l). unfold before in *. lia.
  - pose proof (StronglySorted_lookup _ _ _ _ _ _ Hs Hj Hi l). unfold before in *. lia.
Qed.

Lemma regions_spans_disjoint rs : regions_wf rs → spans_disjoint (spans rs).
Proof.
  intros Hwf b k b' k' a (i & r & Hi & <- & <-)%elem_of_spans (j & r' & Hj & <- & <-)%elem_of_spans Ha Ha'.
  assert (i = j) as -> by (by eapply regions_lookup_unique). by simplify_eq.
Qed.

Lemma upper_bound_in rs i r p :
  regions_wf rs → rs !! i = Some r → r_ptr r ≤ p < r_ptr r + r_memory_size r →
  upper_bound rs p = i.
Proof.
  intros Hwf. revert i. induction rs as [|r0 rs IH]; intros [|i] Hi Hp; simplify_eq/=.
  - destruct (regions_wf_lookup (r :: rs) 0 r Hwf) as (_ & _ & _ & _ & He & _); [done|].
    unfold Comparator. rewrite He, (proj2 (Z.ltb_lt _ _)) by lia. done.
  - destruct Hwf as [Hf Hs]. inversion Hf as [|? ? Hr Hf']; subst. inversion Hs as [|? ? Hs' Ha]; subst.
    destruct Hr as (_ & _ & _ & _ & He & _).
    pose proof (Forall_lookup_1 _ _ _ _ Ha Hi) as Hb. unfold before in Hb.
    unfold Comparator. rewrite He, (proj2 (Z.ltb_ge _ _)) by lia. f_equal. by apply IH.
Qed.

Lemma IndexFor_in r p :
  region_wf r → r_ptr r ≤ p < r_ptr r + r_memory_size r →
  IndexFor r p = Ok ((p - r_ptr r) / 256) ∧
  0 ≤ (p - r_ptr r) / 256 < Z.of_nat (length (r_handles r)).
Proof.
  intros (H1 & H2 & H3 & H4 & H5 & H6) Hp. unfold IndexFor.
  rewrite u64_small, (proj2 (Z.leb_le _ _)), (proj2 (Z.ltb_lt _ _)) by lia. simpl.
  rewrite Z.shiftr_div_pow2 by done. change (2 ^ kMinAllocationBits) with 256.
  assert (0 ≤ (p - r_ptr r) / 256 < r_memory_size r / 256).
  { split; [apply Z.div_pos; lia|]. apply Z.div_lt_upper_bound; [lia|].
    rewrite (Z.div_mod (r_memory_size r) 256), H3 in Hp by lia. lia. }
  assert (r_memory_size r / 256 ≤ 2 ^ 31).
  { apply Z.div_le_upper_bound; lia. }
  rewrite i32_small by lia. split; [done|lia].
Qed.

(** In a region of 512 GiB or more the index of an address past the first
    512 GiB does not fit the [int] that [IndexFor] returns: it is negative, and
    the access to [handles_] is undefined (bfc_arena.h:276). *)
Lemma large_region_undefined r p h :
  0 < r_ptr r → r_ptr r + r_memory_size r < 2 ^ 64 →
  r_ptr r + 2 ^ 39 ≤ p < r_ptr r + r_memory_size r → p < r_ptr r + 2 ^ 40 →
  region_get_handle r p = Throw UndefinedBehaviour ∧ region_set_handle r p h = Throw UndefinedBehaviour.
Proof.
  intros H1 H2 Hp Hp'. unfold region_get_handle, region_set_handle, IndexFor.
  rewrite u64_small, (proj2 (Z.leb_le _ _)), (proj2 (Z.ltb_lt _ _)) by lia. cbn [enforce mbind res_bind].
  rewrite Z.shiftr_div_pow2 by done. change (2 ^ kMinAllocationBits) with 256.
  assert (2 ^ 31 ≤ (p - r_ptr r) / 256 < 2 ^ 32).
  { split; [apply Z.div_le_lower_bound|apply Z.div_lt_upper_bound]; lia. }
  assert (i32 ((p - r_ptr r) / 256) < 0) as Hneg.
  { unfold i32. rewrite <- (Z.mod_add _ (-1)) by done. rewrite Z.mod_small; lia. }
  by rewrite (proj2 (Z.ltb_lt _ _) Hneg).
Qed.

Lemma get_handle_in rs i r p :
  regions_wf rs → rs !! i = Some r → r_ptr r ≤ p < r_ptr r + r_memory_size r →
  ∃ o, r_handles r !! Z.to_nat ((p - r_ptr r) / 256) = Some o ∧ get_handle rs p = Ok o.
Proof.
  intros Hwf Hi Hp. destruct (IndexFor_in r p) as [HI Hlt]; [by eapply regions_wf_lookup|done|].
  destruct (lookup_lt_is_Some_2 (r_handles r) (Z.to_nat ((p - r_ptr r) / 256))) as [o Ho]; [lia|].
  exists o. split; [done|]. unfold get_handle, RegionFor.
  rewrite (upper_bound_in rs i r p), Hi by done. simpl. unfold region_get_handle.
  rewrite HI. simpl. rewrite (proj2 (Z.ltb_ge _ _)), Ho by lia. done.
Qed.

Lemma get_handle_ok rs p b k :
  regions_wf rs → (b, k) ∈ spans rs → b ≤ p < b + k → get_handle rs p = Ok (handle_of rs p).
Proof.
  intros Hwf (i & r & Hi & <- & <-)%elem_of_spans Hp.
  destruct (get_handle_in rs i r p) as (o & _ & Ho); [done..|].
  unfold handle_of. by rewrite Ho.
Qed.

(** Outside every region [get_handle] fails. *)
Lemma get_handle_outside rs p :
  regions_wf rs → (∀ b k, (b, k) ∈ spans rs → ¬ b ≤ p < b + k) → ∃ e, get_handle rs p = Throw e.
Proof.
  intros Hwf Hout. unfold get_handle, RegionFor.
  destruct (rs !! upper_bound rs p) as [r|] eqn:E; simpl; [|eauto].
  destruct (regions_wf_lookup rs _ r Hwf E) as (H1 & H2 & H3 & H4 & H5 & H6).
  unfold region_get_handle, IndexFor. rewrite u64_small by lia.
  destruct (Z.leb_spec (r_ptr r) p); simpl; [|eauto].
  destruct (Z.ltb_spec p (r_ptr r + r_memory_size r)); simpl; [|eauto].
  destruct (Hout (r_ptr r) (r_memory_size r)); [|lia]. apply elem_of_spans. eauto.
Qed.

(** All addresses of a 256-byte slot have the same handle. *)
Lemma handle_of_slot rs p b k :
  regions_wf rs → (b, k) ∈ spans rs → b ≤ p < b + k →
  chunk_addr (spans rs) (b + (p - b) / 256 * 256) ∧
  handle_of rs p = handle_of rs (b + (p - b) / 256 * 256).
Proof.
  intros Hwf Hs Hp. pose proof Hs as (i & r & Hi & <- & <-)%elem_of_spans.
  set (q := r_ptr r + (p - r_ptr r) / 256 * 256).
  assert (Hq : r_ptr r ≤ q < r_ptr r + r_memory_size r).
  { unfold q. pose proof (Z.mul_div_le (p - r_ptr r) 256). 
    pose proof (Z.div_pos (p - r_ptr r) 256). lia. }
  assert (Hqd : (q - r_ptr r) / 256 = (p - r_ptr r) / 256).
  { unfold q. replace (r_ptr r + _ - r_ptr r) with ((p - r_ptr r) / 256 * 256) by lia.
    by rewrite Z.div_mul. }
  split.
  - eexists _, _. split_and!; [done|lia|lia|].
    unfold q. replace (r_ptr r + _ - r_ptr r) with ((p - r_ptr r) / 256 * 256) by lia.
    by rewrite Z.mod_mul.
  - destruct (get_handle_in rs i r p) as (o & Ho & Hg); [done..|].
    destruct (get_handle_in rs i r q) as (o' & Ho' & Hg'); [done..|].
    unfold handle_of. rewrite Hg, Hg'. rewrite Hqd in Ho'. by simplify_eq.
Qed.

Lemma mod256_div_inj a b : a mod 256 = 0 → b mod 256 = 0 → a / 256 = b / 256 → a = b.
Proof.
  intros Ha Hb E. rewrite (Z.div_mod a 256), (Z.div_mod b 256) by lia. lia.
Qed.

Lemma set_handle_in rs p h :
  regions_wf rs → chunk_addr (spans rs) p →
  ∃ rs', set_handle rs p h = Ok rs' ∧ regions_wf rs' ∧ spans rs' = spans rs ∧
    ∀ q, chunk_addr (spans rs) q → handle_of rs' q = fun_upd (handle_of rs) p h q.
Proof.
  intros Hwf (b & k & (i & r & Hi & <- & <-)%elem_of_spans & Hp & Hpm).
  pose proof (regions_wf_lookup rs i r Hwf Hi) as Hr.
  destruct (IndexFor_in r p Hr Hp) as [HI Hlt].
  set (x := Z.to_nat ((p - r_ptr r) / 256)) in *.
  set (r' := mkRegion (r_ptr r) (r_memory_size r) (r_end_ptr r) (<[x:=h]> (r_handles r))).
  exists (<[i:=r']> rs).
  assert (Hil : (i < length rs)%nat) by (by eapply lookup_lt_Some).
  assert (Hr' : region_wf r').
  { destruct Hr as (?&?&?&?&?&?). unfold region_wf, r'; simpl. rewrite length_insert. done. }
  assert (Hat : ∀ j s, <[i:=r']> rs !! j = Some s →
    ∃ s0, rs !! j = Some s0 ∧ r_ptr s = r_ptr s0 ∧ r_memory_size s = r_memory_size s0).
  { intros j s Hj. destruct (decide (i = j)) as [->|Hij].
    - rewrite list_lookup_insert_eq in Hj by done. simplify_eq. exists r. done.
    - rewrite list_lookup_insert_ne in Hj by done. eauto. }
  assert (Hwf' : regions_wf (<[i:=r']> rs)).
  { split.
    - apply Forall_insert; [apply Hwf|done].
    - apply StronglySorted_lookup_2. intros j j' s s' Hj Hj' Hlt'.
      destruct (Hat _ _ Hj) as (s0 & Hs0 & E1 & E2), (Hat _ _ Hj') as (s1 & Hs1 & E3 & E4).
      unfold before. rewrite E1, E2, E3.
      apply (StronglySorted_lookup _ _ _ _ _ _ (proj2 Hwf) Hs0 Hs1 Hlt'). }
  split_and!.
  - unfold set_handle, RegionFor. rewrite (upper_bound_in rs i r p), Hi by done. simpl.
    unfold region_set_handle. rewrite HI. simpl.
    rewrite (proj2 (Z.ltb_ge _ _)), (proj2 (Z.leb_gt _ _)) by lia. done.
  - done.
  - unfold spans. rewrite list_fmap_insert. apply list_insert_id.
    rewrite list_lookup_fmap, Hi. done.
  - intros q (b & k & (j & s & Hj & <- & <-)%elem_of_spans & Hq & Hqm).
    destruct (get_handle_in rs j s q) as (o & Ho & Hg); [done..|].
    unfold fun_upd, handle_of. rewrite Hg.
    destruct (decide (j = i)) as [->|Hij].
    + simplify_eq. destruct (get_handle_in (<[i:=r']> rs) i r' q) as (o' & Ho' & Hg');
        [done|by apply list_lookup_insert_eq|done|]. rewrite Hg'. simpl in Ho'.
      case_decide as Hqp.
      * subst q. rewrite list_lookup_insert_eq in Ho' by lia. by simplify_eq.
      * rewrite list_lookup_insert_ne in Ho'; [by simplify_eq|].
        intros Hx. apply Hqp.
        assert (p - r_ptr r = q - r_ptr r); [|lia].
        apply mod256_div_inj; [done..|]. destruct Hr as (_&_&_&_&_&_).
        pose proof (Z.div_pos (q - r_ptr r) 256). lia.
    + destruct (get_handle_in (<[i:=r']> rs) j s q) as (o' & Ho' & Hg');
        [done|by rewrite list_lookup_insert_ne|done|]. rewrite Hg'.
      rewrite decide_False; [by simplify_eq|]. intros ->. apply Hij.
      by eapply (regions_lookup_unique rs j i s r p).
Qed.

(** Inserting a region that overlaps no other. *)
Section add_region.
Context (rs : list AllocationRegion) (p n : Z).

Definition region_fits : Prop :=
  0 < p ∧ 0 < n < 2 ^ 39 ∧ n mod 256 = 0 ∧ p + n < 2 ^ 64 ∧
  ∀ b k, (b, k) ∈ spans rs → p + n ≤ b ∨ b + k ≤ p.

Lemma new_region_wf :
  region_fits → ∃ r, new_AllocationRegion p n = Ok r ∧ region_wf r ∧
    r_ptr r = p ∧ r_memory_size r = n ∧ r_handles r = replicate (Z.to_nat (n / 256)) None.
Proof.
  intros (H1 & H2 & H3 & H4 & _). unfold new_AllocationRegion.
  change kMinAllocationSize with 256. rewrite H3. simpl.
  assert (Hn : u64 (n + 256 - 1) / 256 = n / 256).
  { rewrite u64_small by lia. rewrite (Z.div_mod n 256), H3 at 1 by lia.
    replace (256 * (n / 256) + 0 + 256 - 1) with (255 + n / 256 * 256) by lia.
    rewrite Z.div_add by lia. done. }
  rewrite Hn. eexists. split; [done|]. simpl. split_and!; [|done..].
  unfold region_wf; simpl. rewrite length_replicate, u64_small by lia.
  pose proof (Z.div_pos n 256). split_and!; try done; lia.
Qed.

Lemma insert_region_wf r :
  regions_wf rs → region_fits → region_wf r → r_ptr r = p → r_memory_size r = n →
  regions_wf (take (upper_bound rs p) rs ++ r :: drop (upper_bound rs p) rs).
Proof.
  intros Hwf (H1 & H2 & _ & _ & Hd) Hr Hrp Hrn.
  induction rs as [|r0 rs' IH]; simpl.
  - split; [by apply Forall_singleton|]. constructor; constructor.
  - destruct Hwf as [Hf Hs]. inversion Hf as [|? ? Hr0 Hf']; subst.
    inversion Hs as [|? ? Hs' Hb]; subst.
    assert (Hd0 := Hd (r_ptr r0) (r_memory_size r0)).
    specialize (IH (conj Hf' Hs')). unfold Comparator.
    pose proof Hr0 as (_ & ? & _ & _ & He & _). rewrite He.
    destruct (Z.ltb_spec (r_ptr r) (r_ptr r0 + r_memory_size r0)) as [Hlt|Hge]; simpl.
    + assert (before r r0).
      { unfold before. destruct Hd0; [apply elem_of_spans; exists 0%nat, r0; done|lia..]. }
      split; [by rewrite !Forall_cons|]. constructor; [done|]. constructor; [done|].
      eapply Forall_impl; [exact Hb|]. unfold before in *. intros; lia.
    + destruct IH as [IHf IHs].
      { intros b k Hbk. apply Hd. unfold spans. rewrite fmap_cons. by right. }
      split; [by constructor|]. constructor; [done|].
      rewrite Forall_app, Forall_cons. unfold before at 2. split_and!; [|lia|].
      * by apply Forall_take.
      * by apply Forall_drop.
Qed.

Lemma elem_of_insert_at {A} (l : list A) i x y : y ∈ take i l ++ x :: drop i l ↔ y = x ∨ y ∈ l.
Proof.
  rewrite <- (take_drop i l) at 3. rewrite !elem_of_app, elem_of_cons. tauto.
Qed.

Lemma AddAllocationRegion_ok :
  regions_wf rs → region_fits →
  ∃ rs', AddAllocationRegion rs p n = Ok rs' ∧ regions_wf rs' ∧
    (∀ x, x ∈ spans rs' ↔ x = (p, n) ∨ x ∈ spans rs) ∧
    (∀ q, chunk_addr (spans rs) q → handle_of rs' q = handle_of rs q) ∧
    (∀ q, p ≤ q < p + n → handle_of rs' q = None).
Proof.
  intros Hwf Hfit. destruct (new_region_wf Hfit) as (r & Hnew & Hr & Hp & Hn & Hh).
  pose proof (insert_region_wf r Hwf Hfit Hr Hp Hn) as Hwf'.
  unfold AddAllocationRegion. rewrite Hnew. simpl. eexists. split; [done|].
  set (rs' := take _ rs ++ r :: drop _ rs) in *.
  assert (Hin : ∀ y, y ∈ rs' ↔ y = r ∨ y ∈ rs) by (intros; apply elem_of_insert_at).
  split_and!; [done|..].
  - intros [b k]. unfold spans. rewrite !list_elem_of_fmap. split.
    + intros (s & -> & [->|Hs']%Hin); [left; congruence|]. right. eauto.
    + intros [->|(s & -> & Hs')].
      * exists r. split; [congruence|]. apply Hin. auto.
      * exists s. split; [done|]. apply Hin. auto.
  - intros q (b & k & (i & s & Hi & <- & <-)%elem_of_spans & Hq & _).
    destruct (list_elem_of_lookup_1 rs' s) as [i' Hi'].
    { apply Hin. right. by eapply list_elem_of_lookup_2. }
    destruct (get_handle_in rs i s q) as (o & Ho & Hg); [done..|].
    destruct (get_handle_in rs' i' s q) as (o' & Ho' & Hg'); [done..|].
    unfold handle_of. rewrite Hg, Hg'. by simplify_eq.
  - intros q Hq. destruct (list_elem_of_lookup_1 rs' r) as [i' Hi']; [apply Hin; auto|].
    destruct (get_handle_in rs' i' r q) as (o' & Ho' & Hg'); [done|done|lia|].
    unfold handle_of. rewrite Hg'. rewrite Hh in Ho'.
    by apply lookup_replicate_1 in Ho' as [-> _].
Qed.
End add_region.
