(* ===== verification/BfcBins.v ===== *)
(** The bins of the arena: [BinNumForSize], the [std::set] operations of a bin
    and the invariant [BinsOk] that ties bins to the live chunks.  [lv] gives
    the live chunks by handle and [P] lists the free chunks that are being moved
    between bins and are in none. *)
From S2P Require Import Prelude BfcArena BfcLayout BfcRegions.

(** The order of a bin: by size, then by address. *)
Definition key_lt (a b : Chunk) : Prop :=
  c_size a < c_size b ∨ (c_size a = c_size b ∧ c_ptr a < c_ptr b).

Definition bin_order (lv : nat → option Chunk) (x y : nat) : Prop :=
  ∃ a b, lv x = Some a ∧ lv y = Some b ∧ key_lt a b.

Record BinsOk (bins : list Bin) (lv : nat → option Chunk) (P : list nat) : Prop := {
  bins_length : length bins = 21%nat;
  bins_member : ∀ i b h, bins !! i = Some b → h ∈ free_chunks b →
    ∃ c, lv h = Some c ∧ in_use c = false ∧ h ∉ P ∧ i = Z.to_nat (BinNumForSize (c_size c));
  bins_complete : ∀ h c, lv h = Some c → in_use c = false → h ∉ P →
    ∃ b, bins !! Z.to_nat (BinNumForSize (c_size c)) = Some b ∧ h ∈ free_chunks b;
  bins_num_free : ∀ h c, lv h = Some c → in_use c = false → h ∉ P →
    c_bin_num c = BinNumForSize (c_size c);
  bins_num_none : ∀ h c, lv h = Some c → (in_use c = true ∨ h ∈ P) → c_bin_num c = kInvalidBinNum;
  bins_sorted : ∀ i b, bins !! i = Some b → StronglySorted (bin_order lv) (free_chunks b);
}.

(** Fields of a chunk that the bins depend on. *)
Definition bin_attrs (c : Chunk) : Z * Z * bool * Z :=
  (c_size c, c_ptr c, in_use c, c_bin_num c).

(** ** [BinNumForSize] *)

Lemma log2_slow_loop_spec fuel r n :
  0 ≤ n < 2 ^ Z.of_nat fuel →
  log2_slow_loop fuel r n = r + (if n =? 0 then 0 else Z.log2 n + 1).
Proof.
  revert r n. induction fuel as [|fuel IH]; intros r n Hn.
  - assert (n = 0) as -> by (simpl in Hn; lia). simpl. lia.
  - simpl. destruct (Z.ltb_spec 0 n) as [Hpos|Hz].
    + rewrite IH.
      2:{ rewrite Z.shiftr_div_pow2 by lia. change (2 ^ 1) with 2.
          rewrite Nat2Z.inj_succ, Z.pow_succ_r in Hn by lia.
          split; [apply Z.div_pos; lia|]. apply Z.div_lt_upper_bound; lia. }
      destruct (Z.eqb_spec n 0); [lia|].
      rewrite Z.log2_shiftr by lia.
      destruct (Z.eqb_spec (Z.shiftr n 1) 0) as [E|E].
      * rewrite Z.shiftr_div_pow2 in E by lia. change (2 ^ 1) with 2 in E.
        apply Z.div_small_iff in E; [|lia]. assert (n = 1) as -> by lia. simpl. lia.
      * assert (1 ≤ Z.log2 n); [|lia]. apply Z.log2_le_pow2; [lia|].
        rewrite Z.shiftr_div_pow2 in E by lia. change (2 ^ 1) with 2 in *.
        destruct (decide (n < 2)); [|lia]. rewrite Z.div_small in E; lia.
    + assert (n = 0) as -> by lia. simpl. lia.
Qed.

Lemma lxor_63 k : 0 ≤ k ≤ 63 → Z.lxor 63 (63 - k) = k.
Proof.
  intros Hk. assert (Hall : forallb (fun i => Z.lxor 63 (63 - Z.of_nat i) =? Z.of_nat i)
                             (seq 0 64) = true) by (vm_compute; reflexivity).
  rewrite forallb_forall in Hall. specialize (Hall (Z.to_nat k)).
  rewrite Z2Nat.id in Hall by lia. apply Z.eqb_eq, Hall, in_seq. lia.
Qed.

Lemma Log2FloorNonZero_log2 n : 0 < n < 2 ^ 64 → Log2FloorNonZero n = Z.log2 n.
Proof.
  intros Hn. unfold Log2FloorNonZero, clzll. apply lxor_63.
  pose proof (Z.log2_nonneg n). assert (Z.log2 n < 64); [|lia]. apply Z.log2_lt_pow2; lia.
Qed.

Lemma BinNumForSize_eq s :
  0 ≤ s < 2 ^ 64 → BinNumForSize s = Z.min 20 (Z.log2 (Z.max s 256) - 8).
Proof.
  intros Hs. unfold BinNumForSize. change (kNumBins - 1) with 20.
  rewrite Log2FloorNonZero_log2.
  - rewrite Z.log2_shiftr by lia. change kMinAllocationBits with 8.
    assert (8 ≤ Z.log2 (Z.max s 256)) by (apply Z.log2_le_pow2; lia). lia.
  - rewrite Z.shiftr_div_pow2 by done. change (2 ^ kMinAllocationBits) with 256.
    split; [apply Z.div_str_pos; lia|]. apply Z.div_lt_upper_bound; lia.
Qed.

Lemma BinNumForSize_range s : 0 ≤ s < 2 ^ 64 → 0 ≤ BinNumForSize s ≤ 20.
Proof.
  intros Hs. rewrite BinNumForSize_eq by done.
  assert (8 ≤ Z.log2 (Z.max s 256)) by (apply Z.log2_le_pow2; lia). lia.
Qed.

Lemma BinNumForSize_mono s t : 0 ≤ s ≤ t → t < 2 ^ 64 → BinNumForSize s ≤ BinNumForSize t.
Proof.
  intros Hs Ht. rewrite !BinNumForSize_eq by lia.
  pose proof (Z.log2_le_mono (Z.max s 256) (Z.max t 256)). lia.
Qed.

(** ** Sets ordered by the comparator *)

Section set_ops.
Context {D : Type} (st : Arena D) (lv : nat → option Chunk)
  (Hlv : ∀ h c, lv h = Some c → chunks_ st !! h = Some c)
  (Hinj : ∀ h h' c c', lv h = Some c → lv h' = Some c' → c_ptr c = c_ptr c' → h = h').

Lemma comparator_key x y a b :
  lv x = Some a → lv y = Some b → ChunkComparator st x y = true ↔ key_lt a b.
Proof.
  intros Hx Hy. unfold ChunkComparator. rewrite (Hlv _ _ Hx), (Hlv _ _ Hy). unfold key_lt.
  destruct (Z.eqb_spec (c_size a) (c_size b)); simpl; rewrite Z.ltb_lt; lia.
Qed.

Lemma bin_order_trans x y z : bin_order lv x y → bin_order lv y z → bin_order lv x z.
Proof.
  intros (a & b & Ha & Hb & Hab) (b' & c & Hb' & Hc & Hbc). simplify_eq.
  exists a, c. split_and!; [done..|]. unfold key_lt in *. lia.
Qed.

Lemma equivalent_iff x y a b :
  lv x = Some a → lv y = Some b → equivalent st x y = true ↔ x = y.
Proof.
  intros Hx Hy. unfold equivalent. rewrite andb_true_iff, !negb_true_iff.
  rewrite <- !not_true_iff_false, (comparator_key x y a b), (comparator_key y x b a) by done.
  unfold key_lt. split.
  - intros [H1 H2]. apply (Hinj x y a b); [done..|]. lia.
  - intros ->. simplify_eq. lia.
Qed.

Lemma set_erase_filter h c s :
  lv h = Some c → (∀ x, x ∈ s → is_Some (lv x)) → set_erase st h s = filter (fun x => x ≠ h) s.
Proof.
  intros Hh. unfold set_erase. induction s as [|x s IH]; intros Hs; [done|].
  rewrite !filter_cons, IH by (intros; apply Hs; by right).
  destruct (Hs x) as [d Hd]; [by left|].
  pose proof (equivalent_iff h x c d Hh Hd) as E.
  destruct (equivalent st h x).
  - assert (h = x) as -> by (by apply E). rewrite decide_False, decide_False; [done|naive_solver|done].
  - rewrite decide_True, decide_True; [done|intros ->|done]. naive_solver.
Qed.

Lemma set_insert_elem h c s y :
  lv h = Some c → (∀ x, x ∈ s → is_Some (lv x)) → h ∉ s →
  y ∈ set_insert st h s ↔ y = h ∨ y ∈ s.
Proof.
  intros Hh. induction s as [|x s IH]; intros Hs Hn; simpl.
  - set_solver.
  - destruct (ChunkComparator st h x) eqn:E1; [set_solver|].
    destruct (ChunkComparator st x h) eqn:E2.
    + rewrite !elem_of_cons, IH; set_solver.
    + exfalso. destruct (Hs x) as [d Hd]; [by left|].
      apply Hn. assert (h = x) as ->; [|by left].
      apply (equivalent_iff h x c d); [done..|]. unfold equivalent. by rewrite E1, E2.
Qed.

Lemma set_insert_sorted h c s :
  lv h = Some c → (∀ x, x ∈ s → is_Some (lv x)) → h ∉ s →
  StronglySorted (bin_order lv) s → StronglySorted (bin_order lv) (set_insert st h s).
Proof.
  intros Hh. induction s as [|x s IH]; intros Hs Hn Hsort; simpl.
  - repeat constructor.
  - inversion Hsort as [|? ? Hsort' Hall]; subst.
    destruct (Hs x) as [d Hd]; [by left|].
    destruct (ChunkComparator st h x) eqn:E1; [|destruct (ChunkComparator st x h) eqn:E2].
    + assert (bin_order lv h x) as Hhx.
      { exists c, d. split_and!; [done..|]. by apply (comparator_key h x). }
      constructor; [done|]. constructor; [done|].
      eapply Forall_impl; [exact Hall|]. intros y Hy. by eapply bin_order_trans.
    + constructor; [apply IH; set_solver|].
      apply Forall_forall. intros y Hy.
      apply (set_insert_elem h c) in Hy as [->|Hy]; [| |done|set_solver..].
      * exists d, c. split_and!; [done..|]. by apply (comparator_key x h).
      * by eapply Forall_forall in Hall.
    + done.
Qed.

End set_ops.

(** ** Changes of the invariant *)

(** Chunks in [X] are in no bin before and after; the others look the same to
    the bins. *)
Lemma bins_frame bins lv lv' P P' (X : list nat) :
  BinsOk bins lv P →
  (∀ k, k ∉ X → bin_attrs <$> lv' k = bin_attrs <$> lv k) →
  (∀ k, k ∉ X → (k ∈ P' ↔ k ∈ P)) →
  (∀ k c, k ∈ X → lv k = Some c → in_use c = true ∨ k ∈ P) →
  (∀ k c, k ∈ X → lv' k = Some c →
     c_bin_num c = kInvalidBinNum ∧ (in_use c = true ∨ k ∈ P')) →
  BinsOk bins lv' P'.
Proof.
  intros [B1 B2 B3 B4 B5 B6] Hattr HP Hold Hnew.
  assert (Hto : ∀ k c', k ∉ X → lv' k = Some c' → ∃ c, lv k = Some c ∧
    c_size c = c_size c' ∧ c_ptr c = c_ptr c' ∧ in_use c = in_use c' ∧ c_bin_num c = c_bin_num c').
  { intros k c' Hk Hc'. specialize (Hattr k Hk). rewrite Hc' in Hattr.
    destruct (lv k) as [c|]; [|done]. exists c. injection Hattr as ????. auto. }
  assert (Hof : ∀ k c, k ∉ X → lv k = Some c → ∃ c', lv' k = Some c' ∧
    c_size c = c_size c' ∧ c_ptr c = c_ptr c' ∧ in_use c = in_use c' ∧ c_bin_num c = c_bin_num c').
  { intros k c Hk Hc. specialize (Hattr k Hk). rewrite Hc in Hattr.
    destruct (lv' k) as [c'|]; [|done]. exists c'. injection Hattr as ????. auto. }
  assert (HX : ∀ i b h, bins !! i = Some b → h ∈ free_chunks b → h ∉ X).
  { intros i b h Hb Hh HhX. destruct (B2 _ _ _ Hb Hh) as (c & Hc & Hu & HhP & _).
    destruct (Hold _ _ HhX Hc); congruence. }
  split; [done|..].
  - intros i b h Hb Hh. pose proof (HX _ _ _ Hb Hh) as HhX.
    destruct (B2 _ _ _ Hb Hh) as (c & Hc & Hu & HhP & Hi).
    destruct (Hof _ _ HhX Hc) as (c' & Hc' & E1 & E2 & E3 & E4). exists c'.
    rewrite HP, <- E1, <- E3 by done. done.
  - intros h c' Hc' Hu HhP. destruct (decide (h ∈ X)) as [HhX|HhX].
    + destruct (Hnew _ _ HhX Hc') as [_ [?|?]]; congruence.
    + rewrite HP in HhP by done. destruct (Hto _ _ HhX Hc') as (c & Hc & E1 & E2 & E3 & E4).
      rewrite <- E1. apply B3; congruence.
  - intros h c' Hc' Hu HhP. destruct (decide (h ∈ X)) as [HhX|HhX].
    + destruct (Hnew _ _ HhX Hc') as [_ [?|?]]; congruence.
    + rewrite HP in HhP by done. destruct (Hto _ _ HhX Hc') as (c & Hc & E1 & E2 & E3 & E4).
      rewrite <- E1, <- E4. apply (B4 h); congruence.
  - intros h c' Hc' Hu. destruct (decide (h ∈ X)) as [HhX|HhX].
    + by destruct (Hnew _ _ HhX Hc').
    + rewrite HP in Hu by done. destruct (Hto _ _ HhX Hc') as (c & Hc & E1 & E2 & E3 & E4).
      rewrite <- E4. apply (B5 h); [done|]. by rewrite E3.
  - intros i b Hb. eapply StronglySorted_impl; [|by eapply B6].
    intros x y Hx Hy (a & d & Ha & Hd & Hlt).
    destruct (Hof _ _ (HX _ _ _ Hb Hx) Ha) as (a' & Ha' & E1 & E2 & _).
    destruct (Hof _ _ (HX _ _ _ Hb Hy) Hd) as (d' & Hd' & E3 & E4 & _).
    exists a', d'. split_and!; [done..|]. unfold key_lt in *. rewrite <- E1, <- E2, <- E3, <- E4. done.
Qed.

(** A pending chunk enters its bin. *)
Lemma bins_insert bins lv lv' P P' h c b s :
  BinsOk bins lv P → lv h = Some c → in_use c = false → h ∈ P → 0 ≤ c_size c < 2 ^ 64 →
  bins !! Z.to_nat (BinNumForSize (c_size c)) = Some b →
  (∀ k, lv' k = if decide (k = h) then Some (set_bin_num (BinNumForSize (c_size c)) c) else lv k) →
  (∀ k, k ∈ P' ↔ k ∈ P ∧ k ≠ h) →
  (∀ y, y ∈ s ↔ y = h ∨ y ∈ free_chunks b) →
  StronglySorted (bin_order lv') s →
  BinsOk (<[Z.to_nat (BinNumForSize (c_size c)) := mkBin (bin_size b) s]> bins) lv' P'.
Proof.
  intros [B1 B2 B3 B4 B5 B6] Hc Hu HhP Hsz Hb Hlv' HP' Hs Hsort.
  set (i0 := Z.to_nat (BinNumForSize (c_size c))) in *.
  assert (Hi0 : (i0 < length bins)%nat) by (by eapply lookup_lt_Some).
  assert (Hother : ∀ k d, k ≠ h → lv k = Some d → lv' k = Some d).
  { intros k d Hk Hd. rewrite Hlv'. by rewrite decide_False. }
  assert (Hh : lv' h = Some (set_bin_num (BinNumForSize (c_size c)) c)).
  { rewrite Hlv'. by rewrite decide_True. }
  split.
  - by rewrite length_insert.
  - intros i b' k Hi Hk. destruct (decide (i0 = i)) as [<-|Hne].
    + rewrite list_lookup_insert_eq in Hi by done. simplify_eq/=.
      apply Hs in Hk as [->|Hk].
      * eexists. split; [exact Hh|]. simpl. split_and!; [done| |done]. rewrite HP'. naive_solver.
      * destruct (B2 _ _ _ Hb Hk) as (d & Hd & Hdu & HdP & Hdi).
        exists d. split_and!; [|done| |done]; [apply Hother; [naive_solver|done]|].
        rewrite HP'. naive_solver.
    + rewrite list_lookup_insert_ne in Hi by done.
      destruct (B2 _ _ _ Hi Hk) as (d & Hd & Hdu & HdP & Hdi).
      exists d. split_and!; [|done| |done]; [apply Hother; [naive_solver|done]|].
      rewrite HP'. naive_solver.
  - intros k d Hd Hdu HdP. rewrite Hlv' in Hd. case_decide as Hkh.
    + simplify_eq/=. rewrite list_lookup_insert_eq by done. eexists. split; [done|].
      apply Hs. auto.
    + rewrite HP' in HdP. destruct (B3 k d) as (b' & Hb' & Hk); [done..|naive_solver|].
      destruct (decide (i0 = Z.to_nat (BinNumForSize (c_size d)))) as [E|E].
      * rewrite <- E, list_lookup_insert_eq by done. rewrite <- E in Hb'. simplify_eq.
        eexists. split; [done|]. apply Hs. auto.
      * rewrite list_lookup_insert_ne by done. eauto.
  - intros k d Hd Hdu HdP. rewrite Hlv' in Hd. case_decide as Hkh; [by simplify_eq/=|].
    apply (B4 k); [done..|]. rewrite HP' in HdP. naive_solver.
  - intros k d Hd Hdu. rewrite Hlv' in Hd. rewrite HP' in Hdu. case_decide as Hkh.
    + simplify_eq/=. destruct Hdu as [Hdu|[_ ?]]; [|done]. unfold in_use in *. simpl in Hdu. congruence.
    + apply (B5 k); [done|]. naive_solver.
  - intros i b' Hi. destruct (decide (i0 = i)) as [<-|Hne].
    + rewrite list_lookup_insert_eq in Hi by done. by simplify_eq/=.
    + rewrite list_lookup_insert_ne in Hi by done.
      eapply StronglySorted_impl; [|by eapply B6].
      intros x y Hx Hy (a & d & Ha & Hd & Hlt).
      destruct (B2 _ _ _ Hi Hx) as (? & ? & ? & ? & _), (B2 _ _ _ Hi Hy) as (? & ? & ? & ? & _).
      exists a, d. split_and!; [apply Hother; [naive_solver|done]..|done].
Qed.

(** A free chunk leaves its bin. *)
Lemma bins_remove bins lv lv' P h c b :
  BinsOk bins lv P → lv h = Some c → in_use c = false → h ∉ P →
  bins !! Z.to_nat (BinNumForSize (c_size c)) = Some b →
  (∀ k, lv' k = if decide (k = h) then Some (set_bin_num kInvalidBinNum c) else lv k) →
  BinsOk (<[Z.to_nat (BinNumForSize (c_size c)) :=
            mkBin (bin_size b) (filter (fun x => x ≠ h) (free_chunks b))]> bins) lv' (h :: P).
Proof.
  intros [B1 B2 B3 B4 B5 B6] Hc Hu HhP Hb Hlv'.
  set (i0 := Z.to_nat (BinNumForSize (c_size c))) in *.
  assert (Hi0 : (i0 < length bins)%nat) by (by eapply lookup_lt_Some).
  assert (Hother : ∀ k d, k ≠ h → lv k = Some d → lv' k = Some d).
  { intros k d Hk Hd. rewrite Hlv'. by rewrite decide_False. }
  assert (Hnoth : ∀ i b' k, i ≠ i0 → bins !! i = Some b' → k ∈ free_chunks b' → k ≠ h).
  { intros i b' k Hne Hi Hk ->. destruct (B2 _ _ _ Hi Hk) as (d & Hd & _ & _ & E). by simplify_eq. }
  split.
  - by rewrite length_insert.
  - intros i b' k Hi Hk. destruct (decide (i0 = i)) as [<-|Hne].
    + rewrite list_lookup_insert_eq in Hi by done. simplify_eq/=.
      apply list_elem_of_filter in Hk as [Hkh Hk].
      destruct (B2 _ _ _ Hb Hk) as (d & Hd & Hdu & HdP & Hdi).
      exists d. split_and!; [by apply Hother|done| |done]. rewrite elem_of_cons. naive_solver.
    + rewrite list_lookup_insert_ne in Hi by done.
      destruct (B2 _ _ _ Hi Hk) as (d & Hd & Hdu & HdP & Hdi).
      assert (k ≠ h) by (eapply (Hnoth i b'); done).
      exists d. split_and!; [by apply Hother|done| |done]. rewrite elem_of_cons. naive_solver.
  - intros k d Hd Hdu HdP. rewrite elem_of_cons in HdP. rewrite Hlv', decide_False in Hd by naive_solver.
    destruct (B3 k d) as (b' & Hb' & Hk); [done..|naive_solver|].
    destruct (decide (i0 = Z.to_nat (BinNumForSize (c_size d)))) as [E|E].
    + rewrite <- E, list_lookup_insert_eq by done. rewrite <- E in Hb'. simplify_eq.
      eexists. split; [done|]. simpl. apply list_elem_of_filter. naive_solver.
    + rewrite list_lookup_insert_ne by done. eauto.
  - intros k d Hd Hdu HdP. rewrite elem_of_cons in HdP. rewrite Hlv', decide_False in Hd by naive_solver.
    apply (B4 k); naive_solver.
  - intros k d Hd Hdu. rewrite Hlv' in Hd. rewrite elem_of_cons in Hdu. case_decide as Hkh; [by simplify_eq/=|].
    apply (B5 k); [done|]. naive_solver.
  - intros i b' Hi. destruct (decide (i0 = i)) as [<-|Hne].
    + rewrite list_lookup_insert_eq in Hi by done. simplify_eq/=.
      apply (StronglySorted_impl (bin_order lv)); [|apply StronglySorted_filter; by eapply B6].
      intros x y [Hx _]%list_elem_of_filter [Hy _]%list_elem_of_filter (a & d & Ha & Hd & Hlt).
      exists a, d. split_and!; [by apply Hother..|done].
    + rewrite list_lookup_insert_ne in Hi by done.
      eapply StronglySorted_impl; [|by eapply B6].
      intros x y Hx Hy (a & d & Ha & Hd & Hlt).
      exists a, d. split_and!; [apply Hother; [eapply (Hnoth i b'); done|done]..|done].
Qed.
