(* ===== verification/BfcArenaInv.v ===== *)
(** The invariant of [BFCArena] and its preservation by the internal
    operations on chunks: [AllocateChunk], [InsertFreeChunkIntoBin],
    [RemoveFreeChunkFromBin], [SplitChunk], [Merge], [FreeAndMaybeCoalesce]. *)
From S2P Require Import Prelude BfcArena BfcLayout BfcRegions BfcBins.

(** Slots of [chunks_] that are not on the list [F] of recycled slots. *)
Definition live (chunks : list Chunk) (F : list nat) (h : nat) : option Chunk :=
  if decide (h ∈ F) then None else chunks !! h.

Definition segs (chunks : list Chunk) (F : list nat) (h : nat) : option Seg :=
  seg_of <$> live chunks F h.

(** [F] is the linked list of recycled slots that starts at [o]. *)
Fixpoint chain (chunks : list Chunk) (o : option nat) (F : list nat) : Prop :=
  match F with
  | [] => o = None
  | h :: F' => o = Some h ∧ ∃ c, chunks !! h = Some c ∧ c_bin_num c = kInvalidBinNum ∧
                 in_use c = false ∧ chain chunks (c_next c) F'
  end.

(** Neighbours are not both free, unless one of them is in transit. *)
Definition Coalesced (lv : nat → option Chunk) (P : list nat) : Prop :=
  ∀ h c n c', lv h = Some c → c_next c = Some n → lv n = Some c' →
    in_use c = true ∨ in_use c' = true ∨ h ∈ P ∨ n ∈ P.

Definition IdsOk (lv : nat → option Chunk) (next_id : Z) : Prop :=
  0 < next_id ∧
  (∀ h c, lv h = Some c → in_use c = true → 0 < c_allocation_id c < next_id) ∧
  (∀ h c h' c', lv h = Some c → lv h' = Some c' → in_use c = true → in_use c' = true →
     c_allocation_id c = c_allocation_id c' → h = h').

Record Inv {D} (st : Arena D) (F P : list nat) : Prop := {
  inv_regions : regions_wf (regions_ st);
  inv_layout : Layout (segs (chunks_ st) F) (spans (regions_ st)) (handle_of (regions_ st));
  inv_nodup : NoDup F;
  inv_chain : chain (chunks_ st) (free_chunks_list_ st) F;
  inv_bins : BinsOk (bins_ st) (live (chunks_ st) F) P;
  inv_coalesced : Coalesced (live (chunks_ st) F) P;
  inv_ids : IdsOk (live (chunks_ st) F) (next_allocation_id_ st);
}.

(** What a client sees of a slot: the block it was given. *)
Definition block_of (c : Chunk) : option (Z * Z * Z * Z) :=
  if in_use c then Some (c_ptr c, c_size c, c_requested_size c, c_allocation_id c) else None.
Definition same_blocks (chunks chunks' : list Chunk) : Prop :=
  ∀ k, chunks' !! k ≫= block_of = chunks !! k ≫= block_of.

(** State that the operations on chunks leave alone. *)
Definition same_env {D} (st st' : Arena D) : Prop :=
  memory_limit_ st' = memory_limit_ st ∧
  curr_region_allocation_bytes_ st' = curr_region_allocation_bytes_ st ∧
  started_backpedal_ st' = started_backpedal_ st ∧
  device_allocator_ st' = device_allocator_ st ∧
  next_allocation_id_ st' = next_allocation_id_ st ∧
  stats_ st' = stats_ st ∧ reserved_chunks_ st' = reserved_chunks_ st ∧
  spans (regions_ st') = spans (regions_ st).

Lemma same_env_refl {D} (st : Arena D) : same_env st st.
Proof. done. Qed.
Lemma same_env_trans {D} (st1 st2 st3 : Arena D) :
  same_env st1 st2 → same_env st2 st3 → same_env st1 st3.
Proof. unfold same_env. intros. destruct_and!. split_and!; congruence. Qed.
Lemma same_blocks_trans c1 c2 c3 : same_blocks c1 c2 → same_blocks c2 c3 → same_blocks c1 c3.
Proof. unfold same_blocks. intros H1 H2 k. by rewrite H2, H1. Qed.

(** ** Lookups *)

Lemma lookup_alter_dec {A} (f : A → A) i (l : list A) k :
  alter f i l !! k = if decide (k = i) then f <$> l !! k else l !! k.
Proof.
  case_decide as E; [subst; apply list_lookup_alter_eq|by apply list_lookup_alter_ne].
Qed.

Lemma live_lookup chunks F h c : live chunks F h = Some c → chunks !! h = Some c.
Proof. unfold live. by case_decide. Qed.
Lemma live_not_free chunks F h c : live chunks F h = Some c → h ∉ F.
Proof. unfold live. by case_decide. Qed.
Lemma live_intro chunks F h c : h ∉ F → chunks !! h = Some c → live chunks F h = Some c.
Proof. intros. unfold live. by rewrite decide_False. Qed.

Lemma live_alter chunks F f i k :
  live (alter f i chunks) F k =
    if decide (k = i) then f <$> live chunks F k else live chunks F k.
Proof. unfold live. rewrite lookup_alter_dec. repeat case_decide; done. Qed.

Lemma segs_Some chunks F h s :
  segs chunks F h = Some s ↔ ∃ c, live chunks F h = Some c ∧ s = seg_of c.
Proof. unfold segs. rewrite fmap_Some. done. Qed.
Lemma segs_live chunks F h c : live chunks F h = Some c → segs chunks F h = Some (seg_of c).
Proof. intros H. unfold segs. by rewrite H. Qed.

Lemma chain_ext chunks chunks' o F :
  (∀ k, k ∈ F → chunks' !! k = chunks !! k) → chain chunks o F → chain chunks' o F.
Proof.
  revert o. induction F as [|h F IH]; intros o Hk; [done|]. simpl.
  intros (-> & c & Hc & Hb & Hu & Hch). split; [done|]. exists c.
  rewrite Hk by (by left). split_and!; [done..|]. apply IH; [|done]. intros; apply Hk. by right.
Qed.

Lemma chain_lookup chunks o F h :
  chain chunks o F → h ∈ F →
  ∃ c, chunks !! h = Some c ∧ c_bin_num c = kInvalidBinNum ∧ in_use c = false.
Proof.
  revert o. induction F as [|x F IH]; intros o Hch Hh; [by apply not_elem_of_nil in Hh|].
  destruct Hch as (-> & c & ? & ? & ? & Hch). apply elem_of_cons in Hh as [->|Hh]; eauto.
Qed.

Lemma coalesced_frame lv lv' P :
  Coalesced lv P →
  (∀ j e, lv' j = Some e → ∃ e0, lv j = Some e0 ∧ in_use e0 = in_use e ∧ c_next e0 = c_next e) →
  Coalesced lv' P.
Proof.
  intros Hco Hx k d n d' (e & He & <- & E)%Hx Hn (e' & He' & <- & E')%Hx.
  eapply Hco; [done| |done]. congruence.
Qed.

Lemma ids_frame lv lv' n :
  IdsOk lv n →
  (∀ j e, lv' j = Some e → in_use e = true →
     ∃ e0, lv j = Some e0 ∧ in_use e0 = true ∧ c_allocation_id e0 = c_allocation_id e) →
  IdsOk lv' n.
Proof.
  intros (H1 & H2 & H3) Hx. split_and!; [done| |].
  - intros h c Hc Hu. destruct (Hx _ _ Hc Hu) as (e & ? & ? & <-). eauto.
  - intros h c h' c' Hc Hc' Hu Hu' E.
    destruct (Hx _ _ Hc Hu) as (e & ? & ? & ?), (Hx _ _ Hc' Hu') as (e' & ? & ? & ?).
    eapply (H3 h e h' e'); congruence.
Qed.

Section inv.
Context {D : Type} `{!DeviceAllocator D}.
Implicit Types (st : Arena D) (F P : list nat).

Lemma ChunkFromHandle_ok st F h c :
  live (chunks_ st) F h = Some c → ChunkFromHandle st h = Ok c.
Proof. intros Hc%live_lookup. unfold ChunkFromHandle. by rewrite Hc. Qed.

(** Bounds of a live chunk, from the layout and the regions. *)
Lemma live_bounds st F P h c :
  Inv st F P → live (chunks_ st) F h = Some c →
  0 < c_ptr c ∧ 0 < c_size c < 2 ^ 39 ∧ c_size c mod 256 = 0 ∧ c_ptr c + c_size c < 2 ^ 64.
Proof.
  intros HI Hc. pose proof (segs_live _ _ _ _ Hc) as Hs.
  destruct (lay_size _ _ _ (inv_layout _ _ _ HI) _ _ Hs) as [H1 H2].
  destruct (lay_in _ _ _ (inv_layout _ _ _ HI) _ _ Hs) as (b & k & Hb & H3 & H4 & _).
  apply elem_of_spans in Hb as (i & r & Hr & <- & <-).
  destruct (regions_wf_lookup _ _ _ (inv_regions _ _ _ HI) Hr) as (?&?&?&?&_).
  simpl in *. split_and!; lia || done.
Qed.

Lemma live_ptr_inj st F P h h' c c' :
  Inv st F P → live (chunks_ st) F h = Some c → live (chunks_ st) F h' = Some c' →
  c_ptr c = c_ptr c' → h = h'.
Proof.
  intros HI Hc Hc' E.
  by eapply (layout_ptr_inj _ _ _ _ (seg_of c) _ (seg_of c') (inv_layout _ _ _ HI));
    [apply segs_live..|].
Qed.

Lemma in_use_live st F P h c :
  Inv st F P → chunks_ st !! h = Some c → in_use c = true → live (chunks_ st) F h = Some c.
Proof.
  intros HI Hc Hu. apply live_intro; [|done]. intros Hh.
  destruct (chain_lookup _ _ _ _ (inv_chain _ _ _ HI) Hh) as (c' & ? & ? & ?). congruence.
Qed.

Lemma BinFromIndex_ok st F P s :
  Inv st F P → 0 ≤ s < 2 ^ 64 →
  ∃ b, bins_ st !! Z.to_nat (BinNumForSize s) = Some b ∧
       BinFromIndex st (BinNumForSize s) = Ok b.
Proof.
  intros HI Hs. pose proof (BinNumForSize_range s Hs).
  destruct (lookup_lt_is_Some_2 (bins_ st) (Z.to_nat (BinNumForSize s))) as [b Hb].
  { rewrite (bins_length _ _ _ (inv_bins _ _ _ HI)). lia. }
  exists b. split; [done|]. unfold BinFromIndex. rewrite (proj2 (Z.ltb_ge _ _)), Hb by lia. done.
Qed.

(** ** Slots *)

Lemma AllocateChunk_ok st F P :
  Inv st F P →
  ∃ h st' F' c0, AllocateChunk st = Ok (h, st') ∧
    chunks_ st' !! h = Some c0 ∧ c_bin_num c0 = kInvalidBinNum ∧ in_use c0 = false ∧
    h ∉ F' ∧ NoDup F' ∧ chain (chunks_ st') (free_chunks_list_ st') F' ∧
    live (chunks_ st) F h = None ∧
    (∀ k, k ≠ h → live (chunks_ st') F' k = live (chunks_ st) F k) ∧
    bins_ st' = bins_ st ∧ regions_ st' = regions_ st ∧
    same_env st st' ∧ same_blocks (chunks_ st) (chunks_ st').
Proof.
  intros HI. pose proof (inv_chain _ _ _ HI) as Hch. pose proof (inv_nodup _ _ _ HI) as Hnd.
  unfold AllocateChunk. destruct F as [|h F]; simpl in Hch.
  - rewrite Hch. exists (length (chunks_ st)). eexists. exists [], default_chunk.
    split; [done|]. simpl. split_and!; try done.
    + by rewrite lookup_app_r, Nat.sub_diag by lia.
    + apply not_elem_of_nil.
    + unfold live. case_decide; [done|]. by apply lookup_ge_None.
    + intros k Hk. unfold live. rewrite !decide_False by apply not_elem_of_nil.
      destruct (decide (k < length (chunks_ st))%nat).
      * by rewrite lookup_app_l.
      * rewrite !(proj2 (lookup_ge_None _ _)); [done|lia|rewrite length_app; simpl; lia].
    + intros k. destruct (decide (k < length (chunks_ st))%nat).
      * by rewrite lookup_app_l.
      * rewrite (proj2 (lookup_ge_None (chunks_ st) k)) by lia.
        rewrite lookup_app_r by lia.
        destruct (k - length (chunks_ st))%nat as [|[|]]; done.
  - destruct Hch as (-> & c & Hc & Hb & Hu & Hch).
    exists h. eexists. exists F, c. unfold ChunkFromHandle. rewrite Hc. simpl.
    split; [done|]. simpl. apply NoDup_cons in Hnd as [Hh Hnd].
    split_and!; try done.
    + unfold live. rewrite decide_True; [done|by left].
    + intros k Hk. unfold live. repeat case_decide; mem_solver.
Qed.

(** ** Bins *)

Lemma segs_alter_same chunks F f i :
  (∀ c, seg_of (f c) = seg_of c) → ∀ k, segs (alter f i chunks) F k = segs chunks F k.
Proof.
  intros Hf k. unfold segs. rewrite live_alter. case_decide; [|done].
  destruct (live chunks F k); simpl; [by rewrite Hf|done].
Qed.

Lemma same_blocks_alter chunks f i :
  (∀ c, chunks !! i = Some c → block_of (f c) = block_of c) → same_blocks chunks (alter f i chunks).
Proof.
  intros Hf k. rewrite lookup_alter_dec. case_decide; [|done]. subst.
  destruct (chunks !! i) eqn:E; simpl; [by apply Hf|done].
Qed.

Lemma InsertFreeChunkIntoBin_ok st F P P' h c :
  Inv st F P → live (chunks_ st) F h = Some c → in_use c = false → h ∈ P →
  (∀ k, k ∈ P' ↔ k ∈ P ∧ k ≠ h) →
  Coalesced (live (chunks_ st) F) P' →
  ∃ st', InsertFreeChunkIntoBin st h = Ok st' ∧ Inv st' F P' ∧ same_env st st' ∧
    chunks_ st' = alter (set_bin_num (BinNumForSize (c_size c))) h (chunks_ st).
Proof.
  intros HI Hc Hu Hh HP' Hco. destruct (live_bounds _ _ _ _ _ HI Hc) as (Hp & Hs & Hm & Hps).
  pose proof (inv_bins _ _ _ HI) as HB.
  pose proof (bins_num_none _ _ _ HB _ _ Hc (or_intror Hh)) as Hbn.
  destruct (BinFromIndex_ok st F P (c_size c) HI) as (b & Hb & HbI); [lia|].
  unfold InsertFreeChunkIntoBin, ChunkFromHandle. rewrite (live_lookup _ _ _ _ Hc). simpl.
  rewrite Hu, Hbn. simpl. rewrite HbI. simpl. eexists. split; [done|].
  set (f := set_bin_num (BinNumForSize (c_size c))).
  assert (Hlv : ∀ k, live (alter f h (chunks_ st)) F k =
    if decide (k = h) then Some (f c) else live (chunks_ st) F k).
  { intros k. rewrite live_alter. case_decide as E; [|done]. subst. by rewrite Hc. }
  assert (Hmem : ∀ x, x ∈ free_chunks b → is_Some (live (alter f h (chunks_ st)) F x)).
  { intros x Hx. destruct (bins_member _ _ _ HB _ _ _ Hb Hx) as (d & Hd & _).
    rewrite Hlv. case_decide; [eauto|]. rewrite Hd. eauto. }
  assert (Hnot : h ∉ free_chunks b).
  { intros Hx. by destruct (bins_member _ _ _ HB _ _ _ Hb Hx) as (d & Hd & _ & ? & _). }
  assert (Hinj : ∀ k k' d d', live (alter f h (chunks_ st)) F k = Some d →
    live (alter f h (chunks_ st)) F k' = Some d' → c_ptr d = c_ptr d' → k = k').
  { intros k k' d d'. rewrite !Hlv. repeat case_decide; intros; simplify_eq/=; try done;
      by eapply live_ptr_inj. }
  assert (Hh' : live (alter f h (chunks_ st)) F h = Some (f c)) by (rewrite Hlv; by rewrite decide_True).
  split; [|split; [done|done]].
  split; simpl.
  - apply HI.
  - eapply layout_ext; [apply HI| |done]. by apply segs_alter_same.
  - apply HI.
  - eapply chain_ext; [|apply HI]. intros k Hk. rewrite lookup_alter_dec, decide_False; [done|].
    intros ->. by apply (live_not_free _ _ _ _ Hc).
  - eapply (bins_insert _ (live (chunks_ st) F) _ P P' h c b); try done; [lia|..].
    + intros y. eapply (set_insert_elem (upd st h f)); [|exact Hinj|exact Hh'|done|done].
      apply live_lookup.
    + eapply (set_insert_sorted (upd st h f)); [|exact Hinj|exact Hh'|done|done|].
      * apply live_lookup.
      * eapply StronglySorted_impl; [|by eapply (bins_sorted _ _ _ HB)].
        intros x y Hx Hy (a & d & Ha & Hd & Hlt). exists a, d.
        rewrite !Hlv, !decide_False by congruence. done.
  - eapply coalesced_frame; [exact Hco|]. intros j e. rewrite Hlv.
    case_decide; intros; simplify_eq; eexists; split_and!; done.
  - eapply ids_frame; [apply HI|]. intros j e. rewrite Hlv.
    case_decide; intros; simplify_eq; eexists; split_and!; done.
Qed.

(** Taking the free chunk [h] out of its bin. *)
Definition unbinned st (c : Chunk) (b : Bin) h : Arena D :=
  upd (with_bins st (<[Z.to_nat (BinNumForSize (c_size c)) :=
         mkBin (bin_size b) (filter (fun x => x ≠ h) (free_chunks b))]> (bins_ st)))
      h (set_bin_num kInvalidBinNum).

Lemma unbinned_inv st F P h c b :
  Inv st F P → live (chunks_ st) F h = Some c → in_use c = false → h ∉ P →
  bins_ st !! Z.to_nat (BinNumForSize (c_size c)) = Some b →
  Inv (unbinned st c b h) F (h :: P).
Proof.
  intros HI Hc Hu Hh Hb. pose proof (inv_bins _ _ _ HI) as HB.
  set (f := set_bin_num kInvalidBinNum).
  assert (Hlv : ∀ k, live (alter f h (chunks_ st)) F k =
    if decide (k = h) then Some (f c) else live (chunks_ st) F k).
  { intros k. rewrite live_alter. case_decide as E; [|done]. subst. by rewrite Hc. }
  split; simpl.
  - apply HI.
  - eapply layout_ext; [apply HI| |done]. by apply segs_alter_same.
  - apply HI.
  - eapply chain_ext; [|apply HI]. intros k Hk. rewrite lookup_alter_dec, decide_False; [done|].
    intros ->. by apply (live_not_free _ _ _ _ Hc).
  - by eapply bins_remove.
  - apply (coalesced_frame (live (chunks_ st) F)).
    + intros k d n d' ? ? ?. rewrite !elem_of_cons.
      destruct (inv_coalesced _ _ _ HI k d n d') as [?|[?|[?|?]]]; tauto.
    + intros j e. rewrite Hlv. case_decide; intros; simplify_eq; eexists; split_and!; done.
  - eapply ids_frame; [apply HI|]. intros j e. rewrite Hlv.
    case_decide; intros; simplify_eq; eexists; split_and!; done.
Qed.

Lemma free_chunk_bin st F P h c :
  Inv st F P → live (chunks_ st) F h = Some c → in_use c = false → h ∉ P →
  ∃ b, bins_ st !! Z.to_nat (BinNumForSize (c_size c)) = Some b ∧ h ∈ free_chunks b ∧
    c_bin_num c = BinNumForSize (c_size c) ∧ 0 ≤ c_bin_num c ∧
    BinFromIndex st (BinNumForSize (c_size c)) = Ok b.
Proof.
  intros HI Hc Hu Hh. destruct (live_bounds _ _ _ _ _ HI Hc) as (_ & Hs & _ & _).
  pose proof (inv_bins _ _ _ HI) as HB.
  destruct (bins_complete _ _ _ HB _ _ Hc Hu Hh) as (b & Hb & Hhb).
  destruct (BinFromIndex_ok st F P (c_size c) HI) as (b' & Hb' & HbI); [lia|]. simplify_eq.
  pose proof (bins_num_free _ _ _ HB _ _ Hc Hu Hh) as Hn.
  pose proof (BinNumForSize_range (c_size c)). exists b. split_and!; [done..|lia|done].
Qed.

Lemma RemoveFreeChunkIterFromBin_ok st F P h c :
  Inv st F P → live (chunks_ st) F h = Some c → in_use c = false → h ∉ P →
  ∃ b, bins_ st !! Z.to_nat (BinNumForSize (c_size c)) = Some b ∧
    RemoveFreeChunkIterFromBin st (BinNumForSize (c_size c)) h = Ok (unbinned st c b h) ∧
    Inv (unbinned st c b h) F (h :: P).
Proof.
  intros HI Hc Hu Hh.
  destruct (free_chunk_bin _ _ _ _ _ HI Hc Hu Hh) as (b & Hb & Hhb & Hn & Hge & HbI).
  exists b. split_and!; [done| |by eapply unbinned_inv].
  unfold RemoveFreeChunkIterFromBin, ChunkFromHandle. rewrite (live_lookup _ _ _ _ Hc). simpl.
  unfold kInvalidBinNum. rewrite Hu, (proj2 (Z.eqb_neq _ _)) by lia. simpl. rewrite HbI. done.
Qed.

Lemma RemoveFreeChunkFromBin_ok st F P h c :
  Inv st F P → live (chunks_ st) F h = Some c → in_use c = false → h ∉ P →
  ∃ b, RemoveFreeChunkFromBin st h = Ok (unbinned st c b h) ∧
    Inv (unbinned st c b h) F (h :: P).
Proof.
  intros HI Hc Hu Hh.
  destruct (free_chunk_bin _ _ _ _ _ HI Hc Hu Hh) as (b & Hb & Hhb & Hn & Hge & HbI).
  exists b. split; [|by eapply unbinned_inv].
  unfold RemoveFreeChunkFromBin, ChunkFromHandle. rewrite (live_lookup _ _ _ _ Hc). simpl.
  unfold kInvalidBinNum. rewrite Hu, (proj2 (Z.eqb_neq _ _)) by lia. simpl. rewrite Hn, HbI. simpl.
  rewrite (set_erase_filter st (live (chunks_ st) F) (live_lookup _ _)) with (c := c); [| |done|].
  - rewrite bool_decide_eq_true_2; [done|].
    eapply length_filter_lt; [exact Hhb|]. naive_solver.
  - intros. by eapply live_ptr_inj.
  - intros x Hx. destruct (bins_member _ _ _ (inv_bins _ _ _ HI) _ _ _ Hb Hx) as (d & ? & _). eauto.
Qed.

(** ** Merging *)

(** The chunk [h1] after absorbing its successor [c2]. *)
Definition merged (c1 c2 : Chunk) : Chunk :=
  set_size (u64 (c_size c1 + c_size c2)) (set_next (c_next c2) c1).

(** The live chunks after [Merge st h1 h2]. *)
Definition merged_live (lv : nat → option Chunk) (h1 h2 : nat) (c1 c2 : Chunk) (k : nat) : option Chunk :=
  if decide (k = h1) then Some (merged c1 c2)
  else if decide (k = h2) then None
  else if decide (Some k = c_next c2) then set_prev (Some h1) <$> lv k
  else lv k.

(** Facts about two neighbours. *)
Lemma neighbours st F P h1 h2 c1 c2 :
  Inv st F P → live (chunks_ st) F h1 = Some c1 → live (chunks_ st) F h2 = Some c2 →
  c_next c1 = Some h2 →
  h2 ≠ h1 ∧ c_ptr c2 = c_ptr c1 + c_size c1 ∧ c_prev c2 = Some h1 ∧
  u64 (c_size c1 + c_size c2) = c_size c1 + c_size c2 ∧
  ∀ h3, c_next c2 = Some h3 → h3 ≠ h1 ∧ h3 ≠ h2 ∧ is_Some (live (chunks_ st) F h3).
Proof.
  intros HI H1 H2 Hn. pose proof (inv_layout _ _ _ HI) as HL.
  pose proof (segs_live _ _ _ _ H1) as S1. pose proof (segs_live _ _ _ _ H2) as S2.
  destruct (merge_facts _ _ _ h1 h2 (seg_of c1) (seg_of c2) HL S1 S2 Hn) as (Hne & Hp & Hpv & _).
  destruct (live_bounds _ _ _ _ _ HI H1) as (?&?&?&?), (live_bounds _ _ _ _ _ HI H2) as (?&?&?&?).
  simpl in *. split_and!; [done..|by apply u64_small; lia|].
  intros h3 Hx3. pose proof (layout_next_ne _ _ _ _ (seg_of c2) h3 HL S2 Hx3).
  destruct (lay_next _ _ _ HL h2 (seg_of c2) h3 S2 Hx3) as (c3 & ? & ? & Hc3 & ? & Hp3 & _).
  apply segs_Some in Hc3 as (d & Hd & ->). simpl in *. split_and!; [|done|by eexists].
  intros ->. simplify_eq. lia.
Qed.

Lemma Merge_compute st F P h1 h2 c1 c2 :
  Inv st F P → live (chunks_ st) F h1 = Some c1 → live (chunks_ st) F h2 = Some c2 →
  in_use c1 = false → in_use c2 = false → c_next c1 = Some h2 →
  ∃ st' rs', Merge st h1 h2 = Ok st' ∧
    erase (regions_ st) (c_ptr c2) = Ok rs' ∧ regions_ st' = rs' ∧
    bins_ st' = bins_ st ∧ free_chunks_list_ st' = Some h2 ∧
    (∀ k, chunks_ st' !! k =
      if decide (k = h1) then Some (merged c1 c2)
      else if decide (k = h2) then Some (set_next (free_chunks_list_ st) c2)
      else if decide (Some k = c_next c2) then set_prev (Some h1) <$> chunks_ st !! k
      else chunks_ st !! k) ∧
    memory_limit_ st' = memory_limit_ st ∧
    curr_region_allocation_bytes_ st' = curr_region_allocation_bytes_ st ∧
    started_backpedal_ st' = started_backpedal_ st ∧
    device_allocator_ st' = device_allocator_ st ∧
    next_allocation_id_ st' = next_allocation_id_ st ∧
    stats_ st' = stats_ st ∧ reserved_chunks_ st' = reserved_chunks_ st.
Proof.
  intros HI H1 H2 Hu1 Hu2 Hn.
  destruct (neighbours _ _ _ _ _ _ _ HI H1 H2 Hn) as (Hne & Hp & Hpv & Hsz & H3).
  assert (Haddr : chunk_addr (spans (regions_ st)) (c_ptr c2)).
  { apply (layout_chunk_addr _ _ _ h2 (seg_of c2) (inv_layout _ _ _ HI)). by apply segs_live. }
  destruct (set_handle_in (regions_ st) (c_ptr c2) None) as (rs' & Hrs & _); [apply HI|done|].
  apply live_lookup in H1 as L1, H2 as L2.
  assert (∀ h3, c_next c2 = Some h3 → is_Some (chunks_ st !! h3)) as L3.
  { intros h3 E. destruct (H3 _ E) as (_ & _ & [c3 Hc3]). apply live_lookup in Hc3. eauto. }
  unfold Merge, DeleteChunk, DeallocateChunk, ChunkFromHandle, erase. rewrite L1, L2. simpl.
  rewrite Hu1, Hu2, Hpv, bool_decide_eq_true_2 by done. simpl.
  destruct (c_next c2) as [h3|] eqn:E3; simpl.
  - destruct (H3 h3 eq_refl) as (Hn31 & Hn32 & _). destruct (L3 h3 eq_refl) as [c3 Hc3].
    repeat (first [rewrite lookup_alter_dec | rewrite decide_False by done
                  | rewrite Hc3 | rewrite L2 | rewrite Hrs]; simpl).
    eexists _, rs'. split; [done|]. simpl. split_and!; try done.
    intros k. rewrite !lookup_alter_dec. unfold merged. rewrite E3.
    repeat case_decide; simplify_eq; rewrite ?L1, ?L2; simpl; done.
  - repeat (first [rewrite lookup_alter_dec | rewrite decide_False by done
                  | rewrite L2 | rewrite Hrs]; simpl).
    eexists _, rs'. split; [done|]. simpl. split_and!; try done.
    intros k. rewrite !lookup_alter_dec. unfold merged. rewrite E3.
    repeat case_decide; simplify_eq; rewrite ?L1, ?L2; simpl; done.
Qed.

Lemma Merge_ok st F P P' h1 h2 c1 c2 :
  Inv st F P → live (chunks_ st) F h1 = Some c1 → live (chunks_ st) F h2 = Some c2 →
  in_use c1 = false → in_use c2 = false → c_next c1 = Some h2 → h1 ∈ P → h2 ∈ P →
  (∀ k, k ∈ P' ↔ k ∈ P ∧ k ≠ h2) →
  ∃ st', Merge st h1 h2 = Ok st' ∧ Inv st' (h2 :: F) P' ∧ same_env st st' ∧
    same_blocks (chunks_ st) (chunks_ st') ∧
    ∀ k, live (chunks_ st') (h2 :: F) k = merged_live (live (chunks_ st) F) h1 h2 c1 c2 k.
Proof.
  intros HI H1 H2 Hu1 Hu2 Hn HP1 HP2 HP'.
  destruct (neighbours _ _ _ _ _ _ _ HI H1 H2 Hn) as (Hne & Hp & Hpv & Hsz & H3).
  destruct (Merge_compute _ _ _ _ _ _ _ HI H1 H2 Hu1 Hu2 Hn)
    as (st' & rs' & HM & Hrs & Hreg & Hbins & Hfl & Hch & E1 & E2 & E3 & E4 & E5 & E6 & E7).
  pose proof (inv_layout _ _ _ HI) as HL.
  assert (Haddr : chunk_addr (spans (regions_ st)) (c_ptr c2)).
  { apply (layout_chunk_addr _ _ _ h2 (seg_of c2) HL). by apply segs_live. }
  destruct (set_handle_in (regions_ st) (c_ptr c2) None) as (rs'' & Hrs'' & Hwf & Hsp & Hhm); [apply HI|done|].
  unfold erase in Hrs. rewrite Hrs'' in Hrs. injection Hrs as ->. subst rs'.
  pose proof (live_not_free _ _ _ _ H1) as N1. pose proof (live_not_free _ _ _ _ H2) as N2.
  assert (Hlv : ∀ k, live (chunks_ st') (h2 :: F) k = merged_live (live (chunks_ st) F) h1 h2 c1 c2 k).
  { intros k. unfold live at 1, merged_live. rewrite Hch.
    destruct (decide (k ∈ h2 :: F)) as [[->|Hk]%elem_of_cons|Hk].
    - by rewrite decide_False, decide_True.
    - rewrite !decide_False by (intros ->; done). unfold live. rewrite (decide_True (P := k ∈ F)) by done.
      by case_decide.
    - rewrite not_elem_of_cons in Hk. destruct Hk as [Hk1 Hk2].
      unfold live. rewrite !(decide_False (P := k ∈ F)), !(decide_False (P := k = h2)) by done. done. }
  exists st'. split; [done|]. split; [|split_and!; [by split_and!| |done]].
  - split.
    + done.
    + rewrite Hsp. eapply layout_ext.
      * apply (layout_merge _ _ _ h1 h2 (seg_of c1) (seg_of c2) HL); [|by apply segs_live..|done].
        by apply regions_spans_disjoint, HI.
      * intros k. unfold segs. rewrite Hlv. unfold merged_live, merge_lv. simpl.
        repeat case_decide; simpl; try done.
        -- unfold seg_of, merged; simpl. by rewrite Hsz.
        -- unfold segs. by destruct (live (chunks_ st) F k).
      * done.
    + apply NoDup_cons. split; [done|apply HI].
    + simpl. split; [done|]. exists (set_next (free_chunks_list_ st) c2).
      rewrite Hch, decide_False, decide_True by done. split_and!; [done| |done|].
      * change (c_bin_num c2 = kInvalidBinNum).
        apply (bins_num_none _ _ _ (inv_bins _ _ _ HI) h2); [done|by right].
      * eapply chain_ext; [|apply HI]. intros k Hk. rewrite Hch.
        rewrite !decide_False; [done| |by intros ->..]. intros E. symmetry in E.
        destruct (H3 _ E) as (_ & _ & [c3 Hc3]). by apply live_not_free in Hc3.
    + rewrite Hbins. apply (bins_frame _ (live (chunks_ st) F) _ P P' [h1; h2]); [apply HI|..].
      * intros k [Hk1 [Hk2 _]%not_elem_of_cons]%not_elem_of_cons. rewrite Hlv. unfold merged_live.
        rewrite (decide_False (P := k = h1)), (decide_False (P := k = h2)) by done. case_decide; [|done].
        by destruct (live (chunks_ st) F k).
      * intros k Hk. rewrite HP'. mem_solver.
      * intros k c Hk _. right. mem_solver.
      * intros k c Hk. rewrite Hlv. unfold merged_live.
        case_decide; [|case_decide; [done|mem_solver]]. intros; simplify_eq.
        split; [|right; by apply HP'].
        change (c_bin_num c1 = kInvalidBinNum).
        apply (bins_num_none _ _ _ (inv_bins _ _ _ HI) h1); [done|by right].
    + intros k d n d' Hk Hnx Hd'. rewrite Hlv in Hk, Hd'. unfold merged_live in *.
      destruct (decide (k = h1)) as [->|Hk1]; [right; right; left; by apply HP'|].
      destruct (decide (n = h1)) as [->|Hn1]; [right; right; right; by apply HP'|].
      destruct (decide (k = h2)); [done|]. destruct (decide (n = h2)); [done|].
      assert (∃ e, live (chunks_ st) F k = Some e ∧ in_use e = in_use d ∧ c_next e = c_next d) as (e & He & <- & En).
      { destruct (decide (Some k = c_next c2)) as [_|_]; [|eauto].
        destruct (live (chunks_ st) F k) as [e|]; simplify_eq/=. eauto. }
      assert (∃ e, live (chunks_ st) F n = Some e ∧ in_use e = in_use d') as (e' & He' & <-).
      { destruct (decide (Some n = c_next c2)) as [_|_]; [|eauto].
        destruct (live (chunks_ st) F n) as [e'|]; simplify_eq/=. eauto. }
      rewrite !HP'. destruct (inv_coalesced _ _ _ HI k e n e') as [?|[?|[?|?]]]; [done|congruence|done|auto..].
    + rewrite E5. eapply ids_frame; [apply HI|]. intros k d. rewrite Hlv. unfold merged_live.
      repeat case_decide; intros Hd Hu; simplify_eq.
      * by exists c1.
      * destruct (live (chunks_ st) F k) as [e|]; simplify_eq/=. eauto.
      * eauto.
  - intros k. rewrite Hch. repeat case_decide; simplify_eq; try done.
    + rewrite (live_lookup _ _ _ _ H1). unfold block_of. simpl. unfold in_use in *. simpl. by rewrite Hu1.
    + rewrite (live_lookup _ _ _ _ H2). unfold block_of. simpl. unfold in_use in *. simpl. by rewrite Hu2.
    + by destruct (chunks_ st !! k).
Qed.

(** ** Freeing *)

(** A chunk without a bin whose neighbours are both in use can enter one. *)
Lemma coalesced_final st F r c :
  Inv st F [r] → live (chunks_ st) F r = Some c →
  (∀ n d, c_next c = Some n → live (chunks_ st) F n = Some d → in_use d = true) →
  (∀ p d, c_prev c = Some p → live (chunks_ st) F p = Some d → in_use d = true) →
  Coalesced (live (chunks_ st) F) [].
Proof.
  intros HI Hc Hnx Hpv k d n d' Hk Hn Hd'.
  destruct (inv_coalesced _ _ _ HI k d n d') as [?|[?|[->%list_elem_of_singleton|Hr]]]; auto.
  - simplify_eq. eauto.
  - apply list_elem_of_singleton in Hr as ->. simplify_eq.
    destruct (lay_next _ _ _ (inv_layout _ _ _ HI) k (seg_of d) r) as (e & ? & ? & He & Hp & _);
      [by apply segs_live|done|].
    apply segs_Some in He as (e' & ? & ->). simplify_eq/=. eauto.
Qed.

Lemma unbinned_live st F h c b k :
  live (chunks_ st) F h = Some c →
  live (chunks_ (unbinned st c b h)) F k =
    if decide (k = h) then Some (set_bin_num kInvalidBinNum c) else live (chunks_ st) F k.
Proof. intros Hc. simpl. rewrite live_alter. case_decide; [|done]. subst. by rewrite Hc. Qed.

Lemma unbinned_blocks st c b h : same_blocks (chunks_ st) (chunks_ (unbinned st c b h)).
Proof. apply same_blocks_alter. done. Qed.

Lemma coalesce_next_ok st F h c :
  Inv st F [h] → live (chunks_ st) F h = Some c → in_use c = false →
  ∃ st' F' c', coalesce_next st h = Ok st' ∧ Inv st' F' [h] ∧ same_env st st' ∧
    same_blocks (chunks_ st) (chunks_ st') ∧
    live (chunks_ st') F' h = Some c' ∧ in_use c' = false ∧
    c_ptr c' = c_ptr c ∧ c_size c ≤ c_size c' ∧
    (∀ n d, c_next c' = Some n → live (chunks_ st') F' n = Some d → in_use d = true).
Proof.
  intros HI Hc Hu. unfold coalesce_next, ChunkFromHandle.
  rewrite (live_lookup _ _ _ _ Hc). simpl.
  destruct (c_next c) as [n|] eqn:En.
  2:{ exists st, F, c. split_and!; try done. intros; congruence. }
  destruct (lay_next _ _ _ (inv_layout _ _ _ HI) h (seg_of c) n) as (s2 & ? & ? & Hs2 & _);
    [by apply segs_live|done|].
  apply segs_Some in Hs2 as (c2 & Hc2 & ->). rewrite (live_lookup _ _ _ _ Hc2). simpl.
  destruct (neighbours _ _ _ _ _ _ _ HI Hc Hc2 En) as (Hne & Hp2 & Hpv2 & Hsz & H3).
  destruct (in_use c2) eqn:Hu2.
  { exists st, F, c. split_and!; try done. intros; by simplify_eq. }
  destruct (RemoveFreeChunkFromBin_ok st F [h] n c2) as (b & HR & HI1); [done..|mem_solver|].
  rewrite HR. simpl. rewrite lookup_alter_dec, decide_False, (live_lookup _ _ _ _ Hc) by done. simpl.
  rewrite En.
  pose proof (unbinned_live st F n c2 b) as Hlv.
  destruct (Merge_ok (unbinned st c2 b n) F [n; h] [h] h n c (set_bin_num kInvalidBinNum c2))
    as (st' & HM & HI' & Henv & Hbl & Hml); try done.
  { rewrite Hlv, decide_False by done. done. }
  { rewrite Hlv, decide_True by done. done. }
  { mem_solver. }
  { mem_solver. }
  { mem_solver. }
  exists st', (n :: F), (merged c (set_bin_num kInvalidBinNum c2)).
  destruct (live_bounds _ _ _ _ _ HI Hc2) as (_ & ? & _).
  split_and!; try done.
  - eapply same_blocks_trans; [apply unbinned_blocks|done].
  - rewrite Hml. unfold merged_live. by rewrite decide_True.
  - simpl. lia.
  - simpl. intros m d Hm Hd. rewrite Hml in Hd. destruct (H3 m Hm) as (Hm1 & Hm2 & [c3 Hc3]).
    unfold merged_live in Hd. rewrite !decide_False in Hd by done. simpl in Hd.
    rewrite decide_True, Hlv, decide_False, Hc3 in Hd by done. simplify_eq/=.
    destruct (inv_coalesced _ _ _ HI n c2 m c3) as [?|[?|[?|?]]]; [done..|congruence|done|mem_solver|mem_solver].
Qed.

Lemma coalesce_prev_ok st F h c :
  Inv st F [h] → live (chunks_ st) F h = Some c → in_use c = false →
  (∀ n d, c_next c = Some n → live (chunks_ st) F n = Some d → in_use d = true) →
  ∃ r st' F' c', coalesce_prev st h = Ok (r, st') ∧ Inv st' F' [r] ∧ same_env st st' ∧
    same_blocks (chunks_ st) (chunks_ st') ∧
    live (chunks_ st') F' r = Some c' ∧ in_use c' = false ∧
    c_ptr c' ≤ c_ptr c ∧ c_ptr c + c_size c ≤ c_ptr c' + c_size c' ∧
    Coalesced (live (chunks_ st') F') [].
Proof.
  intros HI Hc Hu Hnx. unfold coalesce_prev, ChunkFromHandle.
  rewrite (live_lookup _ _ _ _ Hc). simpl.
  destruct (c_prev c) as [p|] eqn:Ep.
  2:{ exists h, st, F, c. split_and!; try done.
      eapply coalesced_final; [done..|]. intros; congruence. }
  destruct (lay_prev _ _ _ (inv_layout _ _ _ HI) h (seg_of c) p) as (s1 & Hs1 & En);
    [by apply segs_live|done|].
  apply segs_Some in Hs1 as (c1 & Hc1 & ->). rewrite (live_lookup _ _ _ _ Hc1). simpl in *.
  destruct (neighbours _ _ _ _ _ _ _ HI Hc1 Hc En) as (Hne & Hp2 & Hpv2 & Hsz & H3).
  destruct (in_use c1) eqn:Hu1.
  { exists h, st, F, c. split_and!; try done.
    eapply coalesced_final; [done..|]. intros; by simplify_eq. }
  destruct (RemoveFreeChunkFromBin_ok st F [h] p c1) as (b & HR & HI1); [done..|mem_solver|].
  rewrite HR. simpl. rewrite lookup_alter_dec, decide_False, (live_lookup _ _ _ _ Hc) by done. simpl.
  rewrite Ep.
  pose proof (unbinned_live st F p c1 b) as Hlv.
  destruct (Merge_ok (unbinned st c1 b p) F [p; h] [p] p h (set_bin_num kInvalidBinNum c1) c)
    as (st' & HM & HI' & Henv & Hbl & Hml); try done.
  { rewrite Hlv, decide_True by done. done. }
  { rewrite Hlv, decide_False by done. done. }
  { mem_solver. }
  { mem_solver. }
  { mem_solver. }
  rewrite HM. simpl.
  exists p, st', (h :: F), (merged (set_bin_num kInvalidBinNum c1) c).
  destruct (live_bounds _ _ _ _ _ HI Hc1) as (_ & ? & _).
  assert (Hp' : live (chunks_ st') (h :: F) p = Some (merged (set_bin_num kInvalidBinNum c1) c)).
  { rewrite Hml. unfold merged_live. by rewrite decide_True. }
  split_and!; try done.
  - eapply same_blocks_trans; [apply unbinned_blocks|done].
  - simpl. lia.
  - simpl. lia.
  - eapply coalesced_final; [done..| |].
    + simpl. intros m d Hm Hd. rewrite Hml in Hd. destruct (H3 m Hm) as (Hm1 & Hm2 & [c3 Hc3]).
      unfold merged_live in Hd. rewrite !decide_False, decide_True in Hd by done.
      rewrite Hlv, decide_False, Hc3 in Hd by done. simplify_eq/=. change (in_use c3 = true). by eapply Hnx.
    + simpl. intros m d Hm Hd. rewrite Hml in Hd.
      destruct (lay_prev _ _ _ (inv_layout _ _ _ HI) p (seg_of c1) m) as (s0 & Hs0 & E0);
        [by apply segs_live|done|].
      apply segs_Some in Hs0 as (c0 & Hc0 & ->). simpl in E0.
      destruct (neighbours _ _ _ _ _ _ _ HI Hc0 Hc1 E0) as (Hpm & _).
      assert (m ≠ h) by (intros ->; simplify_eq; destruct (H3 p E0); done).
      assert (in_use c0 = true) as Hu0.
      { destruct (inv_coalesced _ _ _ HI m c0 p c1) as [?|[?|[?|?]]]; [done..|congruence|mem_solver|mem_solver]. }
      unfold merged_live in Hd.
      rewrite (decide_False (P := m = p)), (decide_False (P := m = h)) in Hd by done.
      rewrite Hlv, (decide_False (P := m = p)), Hc0 in Hd by done. case_decide; simplify_eq/=; done.
Qed.

(** Marking an allocated chunk as free. *)
Lemma mark_free_inv st F h c (s : AllocatorStats) :
  Inv st F [] → live (chunks_ st) F h = Some c → in_use c = true →
  Inv (with_stats (upd st h (set_allocation_id (-1))) s) F [h].
Proof.
  intros HI Hc Hu. set (f := set_allocation_id (-1)).
  assert (Hlv : ∀ k, live (alter f h (chunks_ st)) F k =
    if decide (k = h) then Some (f c) else live (chunks_ st) F k).
  { intros k. rewrite live_alter. case_decide as E; [|done]. subst. by rewrite Hc. }
  split; simpl.
  - apply HI.
  - eapply layout_ext; [apply HI| |done]. by apply segs_alter_same.
  - apply HI.
  - eapply chain_ext; [|apply HI]. intros k Hk. rewrite lookup_alter_dec, decide_False; [done|].
    intros ->. by apply (live_not_free _ _ _ _ Hc).
  - apply (bins_frame _ (live (chunks_ st) F) _ [] [h] [h]); [apply HI|..].
    + intros k Hk. rewrite Hlv, decide_False by (by intros ->; apply Hk; left). done.
    + mem_solver.
    + intros k d ->%list_elem_of_singleton Hd. simplify_eq. by left.
    + intros k d ->%list_elem_of_singleton. rewrite Hlv, decide_True by done. intros; simplify_eq.
      split; [|right; mem_solver].
      change (c_bin_num c = kInvalidBinNum).
      apply (bins_num_none _ _ _ (inv_bins _ _ _ HI) h); [done|by left].
  - intros k d n d'. rewrite !Hlv, !list_elem_of_singleton.
    repeat case_decide; intros; simplify_eq; auto.
    destruct (inv_coalesced _ _ _ HI k d n d') as [?|[?|[?|?]]]; [done..|auto|auto|mem_solver|mem_solver].
  - eapply ids_frame; [apply HI|]. intros k d. rewrite Hlv. case_decide; intros; simplify_eq; eauto.
Qed.

Lemma FreeAndMaybeCoalesce_ok st F h c :
  Inv st F [] → live (chunks_ st) F h = Some c → in_use c = true →
  ∃ st' F', FreeAndMaybeCoalesce st h = Ok st' ∧ Inv st' F' [] ∧
    same_env (with_stats st (add_bytes_in_use (stats_ st) (- c_size c))) st' ∧
    same_blocks (alter (set_allocation_id (-1)) h (chunks_ st)) (chunks_ st').
Proof.
  intros HI Hc Hu.
  pose proof (bins_num_none _ _ _ (inv_bins _ _ _ HI) _ _ Hc (or_introl Hu)) as Hbn.
  unfold FreeAndMaybeCoalesce. rewrite (ChunkFromHandle_ok st F h c Hc).
  cbn [mbind res_bind]. rewrite Hu, Hbn. cbn [enforce andb Z.eqb kInvalidBinNum Pos.eqb mbind res_bind].
  set (st1 := with_stats _ _).
  assert (HI1 : Inv st1 F [h]) by (by eapply mark_free_inv).
  assert (Hc1 : live (chunks_ st1) F h = Some (set_allocation_id (-1) c)).
  { simpl. rewrite live_alter, decide_True by done. by rewrite Hc. }
  destruct (coalesce_next_ok st1 F h _ HI1 Hc1) as
    (st2 & F2 & c2 & HN & HI2 & Henv2 & Hb2 & Hc2 & Hu2 & Hp2 & Hs2 & Hnx2); [done|].
  rewrite HN. cbn [mbind res_bind].
  destruct (coalesce_prev_ok st2 F2 h c2 HI2 Hc2 Hu2 Hnx2) as
    (r & st3 & F3 & c3 & HP & HI3 & Henv3 & Hb3 & Hc3 & Hu3 & _ & _ & Hco).
  rewrite HP. cbn [mbind res_bind].
  destruct (InsertFreeChunkIntoBin_ok st3 F3 [r] [] r c3 HI3 Hc3 Hu3) as
    (st4 & HB & HI4 & Henv4 & Hch4); [mem_solver|mem_solver|done|].
  rewrite HB. exists st4, F3. split_and!; [done|done| |].
  - eapply same_env_trans; [|exact Henv4]. eapply same_env_trans; [|exact Henv3].
    eapply same_env_trans; [|exact Henv2]. done.
  - rewrite Hch4. eapply same_blocks_trans; [|by apply same_blocks_alter].
    eapply same_blocks_trans; [|exact Hb3]. exact Hb2.
Qed.
End inv.
