(* ===== verification/BfcArenaAlloc.v ===== *)
(** The allocating side of [BFCArena] keeps the invariant: [SplitChunk],
    [FindChunkPtr], [Extend], and the best-fit search. *)
From S2P Require Import Prelude BfcArena BfcLayout BfcRegions BfcBins BfcArenaInv.

Section alloc.
Context {D : Type} `{!DeviceAllocator D}.
Implicit Types (st : Arena D) (F P : list nat).

(** ** Splitting *)

(** The chunk [h] and its remainder after [SplitChunk st h n]. *)
Definition split_front (c : Chunk) (hn : nat) (n : Z) : Chunk := set_next (Some hn) (set_size n c).
Definition split_back (c c0 : Chunk) (h : nat) (n : Z) : Chunk :=
  mkChunk (c_size c - n) (c_requested_size c0) (-1) (c_ptr c + n) (Some h) (c_next c) kInvalidBinNum.

Definition split_live (lv : nat → option Chunk) (h hn : nat) (c c0 : Chunk) (n : Z) (k : nat) :
    option Chunk :=
  if decide (k = h) then Some (split_front c hn n)
  else if decide (k = hn) then Some (split_back c c0 h n)
  else if decide (Some k = c_next c) then set_prev (Some hn) <$> lv k
  else lv k.

(** The state of [SplitChunk] just before the remainder enters its bin. *)
Lemma SplitChunk_compute st F P h c n :
  Inv st F P → live (chunks_ st) F h = Some c → in_use c = false → h ∈ P →
  0 < n < c_size c → n mod 256 = 0 →
  ∃ hn c0 F' st', SplitChunk st h n = InsertFreeChunkIntoBin st' hn ∧
    live (chunks_ st) F hn = None ∧ hn ∉ F' ∧ NoDup F' ∧
    chain (chunks_ st') (free_chunks_list_ st') F' ∧
    (∀ k, live (chunks_ st') F' k = split_live (live (chunks_ st) F) h hn c c0 n k) ∧
    set_handle (regions_ st) (c_ptr c + n) (Some hn) = Ok (regions_ st') ∧
    bins_ st' = bins_ st ∧ same_env st st' ∧ same_blocks (chunks_ st) (chunks_ st').
Proof.
  intros HI Hc Hu Hh Hn Hm.
  pose proof (inv_layout _ _ _ HI) as HL. pose proof (segs_live _ _ _ _ Hc) as Hs.
  destruct (live_bounds _ _ _ _ _ HI Hc) as (B1 & B2 & B3 & B4).
  pose proof (bins_num_none _ _ _ (inv_bins _ _ _ HI) _ _ Hc (or_intror Hh)) as Hbn.
  destruct (AllocateChunk_ok st F P HI) as
    (hn & st1 & F' & c0 & HA & Hc0 & Hb0 & Hu0 & HhnF & Hnd & Hchain & Hdead & Hlv & Hbins & Hregs & Henv & Hbl).
  assert (Hne : hn ≠ h) by congruence.
  assert (Hc1 : chunks_ st1 !! h = Some c).
  { apply (live_lookup _ F'). rewrite Hlv by done. done. }
  assert (Haddr : chunk_addr (spans (regions_ st)) (c_ptr c + n)).
  { destruct (lay_in _ _ _ HL _ _ Hs) as (b & k & Hb & Hi1 & Hi2 & Hi3). simpl in *.
    exists b, k. split_and!; [done|lia|lia|].
    replace (c_ptr c + n - b) with ((c_ptr c - b) + n) by lia. by apply mod256_add. }
  destruct (set_handle_in (regions_ st) (c_ptr c + n) (Some hn)) as (rs' & Hrs & _ & Hsp & _); [apply HI|done|].
  assert (Hnb : ∀ x, c_next c = Some x → x ≠ h ∧ x ≠ hn ∧ ∃ d, live (chunks_ st) F x = Some d ∧ chunks_ st1 !! x = Some d).
  { intros x Hx. pose proof (layout_next_ne _ _ _ _ (seg_of c) x HL Hs Hx).
    destruct (lay_next _ _ _ HL h (seg_of c) x Hs Hx) as (s2 & ? & ? & Hs2 & _).
    apply segs_Some in Hs2 as (d & Hd & ->). assert (x ≠ hn) by congruence.
    split_and!; [done..|]. exists d. split; [done|]. apply (live_lookup _ F'). by rewrite Hlv. }
  unfold SplitChunk. rewrite HA. cbn [mbind res_bind]. unfold ChunkFromHandle.
  rewrite Hc1. cbn [of_option mbind res_bind]. rewrite Hu, Hbn.
  cbn [enforce andb negb Z.eqb kInvalidBinNum Pos.eqb mbind res_bind].
  rewrite Hc0. cbn [of_option mbind res_bind upd with_chunks regions_].
  rewrite u64_small, Hregs, Hrs by lia. cbn [mbind res_bind].
  rewrite (u64_small (c_size c - n)) by lia.
  exists hn, c0, F'.
  destruct (c_next c) as [x|] eqn:Ex.
  - destruct (Hnb x eq_refl) as (Hxh & Hxn & d & Hd & Hd1). simpl.
    repeat (rewrite lookup_alter_dec, decide_False by done). rewrite Hd1. simpl.
    eexists. split; [done|]. simpl. split_and!; try done.
    + eapply chain_ext; [|done]. intros k Hk.
      assert (k ≠ h ∧ k ≠ hn ∧ k ≠ x) as (?&?&?).
      { split_and!; [| |]; intros ->; [|done|].
        - apply (live_not_free (chunks_ st1) F' h c); [|done]. rewrite Hlv; done.
        - apply (live_not_free (chunks_ st1) F' x d); [|done]. rewrite Hlv; done. }
      repeat (rewrite lookup_alter_dec, decide_False by done). done.
    + intros k. rewrite !live_alter. unfold split_live. rewrite Ex.
      destruct (decide (k = h)) as [->|Hkh].
      { rewrite !(decide_False (P := h = hn)), !(decide_False (P := h = x)), Hlv, Hc by done. done. }
      destruct (decide (k = hn)) as [->|Hkn].
      { rewrite (decide_False (P := hn = x)), (live_intro _ _ _ _ HhnF Hc0) by done. simpl.
        unfold split_back, set_next, set_prev, set_allocation_id, set_size, set_ptr; simpl. by rewrite Hb0, Ex. }
      rewrite Hlv by done. destruct (decide (k = x)) as [->|Hkx].
      { by rewrite decide_True. }
      by rewrite decide_False by congruence.
    + destruct Henv as (?&?&?&?&?&?&?&?). split_and!; done.
    + intros k. rewrite !lookup_alter_dec. specialize (Hbl k).
      destruct (decide (k = x)) as [->|Hkx].
      { rewrite !decide_False by done. rewrite <- Hbl. by destruct (chunks_ st1 !! x). }
      destruct (decide (k = h)) as [->|Hkh].
      { rewrite !decide_False by done. rewrite <- Hbl, Hc1. simpl. unfold block_of, in_use in *. simpl. by rewrite Hu. }
      destruct (decide (k = hn)) as [->|Hkn]; [|done].
      rewrite <- Hbl, Hc0. simpl. unfold block_of, in_use in *. simpl. by rewrite Hu0.
  - eexists. split; [done|]. simpl. split_and!; try done.
    + eapply chain_ext; [|done]. intros k Hk.
      assert (k ≠ h ∧ k ≠ hn) as (?&?).
      { split_and!; intros ->; [|done].
        apply (live_not_free (chunks_ st1) F' h c); [|done]. rewrite Hlv; done. }
      repeat (rewrite lookup_alter_dec, decide_False by done). done.
    + intros k. rewrite !live_alter. unfold split_live. rewrite Ex.
      destruct (decide (k = h)) as [->|Hkh].
      { rewrite !(decide_False (P := h = hn)), Hlv, Hc by done. done. }
      destruct (decide (k = hn)) as [->|Hkn].
      { rewrite (live_intro _ _ _ _ HhnF Hc0) by done. simpl.
        unfold split_back, set_next, set_prev, set_allocation_id, set_size, set_ptr; simpl. by rewrite Hb0, Ex. }
      by rewrite Hlv, decide_False by done.
    + destruct Henv as (?&?&?&?&?&?&?&?). split_and!; done.
    + intros k. rewrite !lookup_alter_dec. specialize (Hbl k).
      destruct (decide (k = h)) as [->|Hkh].
      { rewrite !decide_False by done. rewrite <- Hbl, Hc1. simpl. unfold block_of, in_use in *. simpl. by rewrite Hu. }
      destruct (decide (k = hn)) as [->|Hkn]; [|done].
      rewrite <- Hbl, Hc0. simpl. unfold block_of, in_use in *. simpl. by rewrite Hu0.
Qed.

Lemma split_inv st st' F F' h hn c c0 n :
  Inv st F [h] → live (chunks_ st) F h = Some c → in_use c = false →
  0 < n < c_size c → n mod 256 = 0 →
  live (chunks_ st) F hn = None → hn ∉ F' → NoDup F' →
  chain (chunks_ st') (free_chunks_list_ st') F' →
  (∀ k, live (chunks_ st') F' k = split_live (live (chunks_ st) F) h hn c c0 n k) →
  set_handle (regions_ st) (c_ptr c + n) (Some hn) = Ok (regions_ st') →
  bins_ st' = bins_ st → same_env st st' →
  Inv st' F' [hn; h].
Proof.
  intros HI Hc Hu Hn Hm Hdead HhnF Hnd Hchain Hlv Hrs Hbins Henv.
  pose proof (inv_layout _ _ _ HI) as HL. pose proof (segs_live _ _ _ _ Hc) as Hs.
  assert (Hne : hn ≠ h) by congruence.
  assert (Haddr : chunk_addr (spans (regions_ st)) (c_ptr c + n)).
  { destruct (lay_in _ _ _ HL _ _ Hs) as (b & k & Hb & Hi1 & Hi2 & Hi3). simpl in *.
    exists b, k. split_and!; [done|lia|lia|].
    replace (c_ptr c + n - b) with ((c_ptr c - b) + n) by lia. by apply mod256_add. }
  destruct (set_handle_in (regions_ st) (c_ptr c + n) (Some hn)) as (rs' & Hrs' & Hwf & Hsp & Hhm); [apply HI|done|].
  rewrite Hrs in Hrs'. simplify_eq.
  split; [done| |done|done| | |].
  - rewrite Hsp. eapply layout_ext.
    + apply (layout_split _ _ _ h hn (seg_of c) n HL); [done| |done|done].
      unfold segs. by rewrite Hdead.
    + intros k. unfold segs. rewrite Hlv. unfold split_live, split_lv. simpl.
      repeat case_decide; simpl; try done. unfold segs. by destruct (live (chunks_ st) F k).
    + done.
  - rewrite Hbins. apply (bins_frame _ (live (chunks_ st) F) _ [h] [hn; h] [hn; h]); [apply HI|..].
    + intros k [Hk1 [Hk2 _]%not_elem_of_cons]%not_elem_of_cons. rewrite Hlv. unfold split_live.
      rewrite (decide_False (P := k = h)), (decide_False (P := k = hn)) by done.
      case_decide; [|done]. by destruct (live (chunks_ st) F k).
    + mem_solver.
    + intros k d Hk Hd. right. assert (k = hn ∨ k = h) as [->| ->] by mem_solver; [congruence|mem_solver].
    + intros k d Hk. rewrite Hlv. unfold split_live. intros Hd. split; [|by right].
      assert (k = hn ∨ k = h) as [->| ->] by mem_solver.
      * rewrite decide_False, decide_True in Hd by done. by simplify_eq.
      * rewrite decide_True in Hd by done. simplify_eq. change (c_bin_num c = kInvalidBinNum).
        apply (bins_num_none _ _ _ (inv_bins _ _ _ HI) h); [done|]. right. mem_solver.
  - intros k d m d' Hk Hnx Hd'. rewrite Hlv in Hk, Hd'. unfold split_live in *.
    destruct (decide (k = h)) as [->|Hkh]; [mem_solver|].
    destruct (decide (m = h)) as [->|Hmh]; [mem_solver|].
    destruct (decide (k = hn)) as [->|Hkn]; [mem_solver|].
    destruct (decide (m = hn)) as [->|Hmn]; [mem_solver|].
    assert (∃ e, live (chunks_ st) F k = Some e ∧ in_use e = in_use d ∧ c_next e = c_next d) as (e & He & <- & En).
    { destruct (decide (Some k = c_next c)) as [_|_]; [|eauto]. destruct (live (chunks_ st) F k) as [e|]; simplify_eq/=. eauto. }
    assert (∃ e, live (chunks_ st) F m = Some e ∧ in_use e = in_use d') as (e' & He' & <-).
    { destruct (decide (Some m = c_next c)) as [_|_]; [|eauto]. destruct (live (chunks_ st) F m) as [e'|]; simplify_eq/=. eauto. }
    destruct (inv_coalesced _ _ _ HI k e m e') as [?|[?|[?|?]]]; try done; [congruence|auto|auto|mem_solver|mem_solver].
  - destruct Henv as (_&_&_&_&->&_). eapply ids_frame; [apply HI|].
    intros k d. rewrite Hlv. unfold split_live. repeat case_decide; intros Hd Hud; simplify_eq.
    + unfold in_use in *. simpl in *. by rewrite Hu in Hud.
    + destruct (live (chunks_ st) F k) as [e|]; simplify_eq/=. eauto.
    + eauto.
Qed.

Lemma SplitChunk_ok st F h c n :
  Inv st F [h] → live (chunks_ st) F h = Some c → in_use c = false →
  0 < n < c_size c → n mod 256 = 0 →
  (∀ m d, c_next c = Some m → live (chunks_ st) F m = Some d → in_use d = true) →
  ∃ st' F' hn, SplitChunk st h n = Ok st' ∧ Inv st' F' [h] ∧ same_env st st' ∧
    same_blocks (chunks_ st) (chunks_ st') ∧
    live (chunks_ st') F' h = Some (split_front c hn n).
Proof.
  intros HI Hc Hu Hn Hm Hnx.
  destruct (SplitChunk_compute st F [h] h c n) as
    (hn & c0 & F' & st1 & HS & Hdead & HhnF & Hnd & Hchain & Hlv & Hrs & Hbins & Henv & Hbl);
    [done..|mem_solver|done|done|].
  assert (HI1 : Inv st1 F' [hn; h]) by (by eapply split_inv).
  assert (Hne : hn ≠ h) by congruence.
  assert (Hhn : live (chunks_ st1) F' hn = Some (split_back c c0 h n)).
  { rewrite Hlv. unfold split_live. by rewrite decide_False, decide_True. }
  destruct (InsertFreeChunkIntoBin_ok st1 F' [hn; h] [h] hn _ HI1 Hhn) as (st2 & HB & HI2 & Henv2 & Hch2).
  - done.
  - mem_solver.
  - mem_solver.
  - intros k d m d' Hk Hkn Hd'.
    rewrite !list_elem_of_singleton. destruct (decide (k = h)) as [->|Hkh]; [auto|].
    destruct (decide (m = h)) as [->|Hmh]; [auto|].
    destruct (decide (k = hn)) as [->|Hk'].
    + rewrite Hhn in Hk. simplify_eq/=. right; left.
      rewrite Hlv in Hd'. unfold split_live in Hd'. rewrite (decide_False (P := m = h)) in Hd' by done.
      case_decide as E.
      { simplify_eq. by destruct (layout_next_ne _ _ _ hn (seg_of (split_back c c0 h n)) hn
          (inv_layout _ _ _ HI1)); [apply segs_live|..]. }
      rewrite decide_True in Hd' by done.
      destruct (live (chunks_ st) F m) as [e|] eqn:Ee; simplify_eq/=. by eapply (Hnx m e).
    + destruct (decide (m = hn)) as [->|Hm'].
      * destruct (lay_next _ _ _ (inv_layout _ _ _ HI1) k (seg_of d) hn) as (s & ? & ? & Hs & Hp & _);
          [by apply segs_live|done|].
        apply segs_Some in Hs as (e & He & ->). simplify_eq/=.
      * destruct (inv_coalesced _ _ _ HI1 k d m d') as [?|[?|[?|?]]]; [done..|auto|auto|mem_solver|mem_solver].
  - exists st2, F', hn. rewrite HS. split_and!; [done..| | |].
    + by eapply same_env_trans.
    + rewrite Hch2. eapply same_blocks_trans; [exact Hbl|]. by apply same_blocks_alter.
    + rewrite Hch2, live_alter, decide_False, Hlv by done. unfold split_live. by rewrite decide_True.
Qed.

(** ** The best-fit search *)

Lemma find_in_bin_ok st F hs r :
  (∀ h, h ∈ hs → ∃ c, live (chunks_ st) F h = Some c ∧ in_use c = false) →
  StronglySorted (bin_order (live (chunks_ st) F)) hs →
  ∃ o, find_in_bin st hs r = Ok o ∧
    match o with
    | None => ∀ h c, h ∈ hs → live (chunks_ st) F h = Some c → c_size c < r
    | Some h => h ∈ hs ∧ ∃ c, live (chunks_ st) F h = Some c ∧ r ≤ c_size c ∧
        ∀ h' c', h' ∈ hs → live (chunks_ st) F h' = Some c' → r ≤ c_size c' → c_size c ≤ c_size c'
    end.
Proof.
  intros Hall Hs. induction Hs as [|x hs Hs IH Hf]; simpl.
  - exists None. split; [done|]. intros h c Hh. by apply not_elem_of_nil in Hh.
  - destruct (Hall x) as (c & Hc & Hu); [by left|]. unfold ChunkFromHandle.
    rewrite (live_lookup _ _ _ _ Hc). simpl. rewrite Hu. simpl.
    destruct (Z.leb_spec r (c_size c)) as [Hle|Hgt].
    + exists (Some x). split; [done|]. split; [by left|]. exists c. split_and!; [done..|].
      intros h' c' [->|Hh']%elem_of_cons Hc' Hr; [by simplify_eq|].
      eapply Forall_forall in Hf as (a & b & Ha & Hb & Hk); [|exact Hh'].
      simplify_eq. unfold key_lt in Hk. lia.
    + destruct IH as (o & Ho & Hspec); [intros; apply Hall; by right|].
      exists o. split; [done|]. destruct o as [h|].
      * destruct Hspec as (Hh & d & Hd & Hrd & Hmin). split; [by right|]. exists d.
        split_and!; [done..|]. intros h' c' [->|Hh']%elem_of_cons Hc' Hr; [simplify_eq; lia|eauto].
      * intros h d [->|Hh]%elem_of_cons Hd; [by simplify_eq|eauto].
Qed.

Lemma find_in_bins_ok st F n bin_num r :
  Inv st F [] → 0 ≤ bin_num → Z.of_nat n = 21 - bin_num →
  ∃ o, find_in_bins st n bin_num r = Ok o ∧
    match o with
    | None => ∀ h c, live (chunks_ st) F h = Some c → in_use c = false →
        bin_num ≤ BinNumForSize (c_size c) → c_size c < r
    | Some (b, h) => ∃ c, live (chunks_ st) F h = Some c ∧ in_use c = false ∧
        b = BinNumForSize (c_size c) ∧ r ≤ c_size c ∧
        ∀ h' c', live (chunks_ st) F h' = Some c' → in_use c' = false →
          bin_num ≤ BinNumForSize (c_size c') → r ≤ c_size c' → c_size c ≤ c_size c'
    end.
Proof.
  intros HI. pose proof (inv_bins _ _ _ HI) as HB.
  assert (Hrange : ∀ h c, live (chunks_ st) F h = Some c → 0 ≤ BinNumForSize (c_size c) ≤ 20).
  { intros h c Hc. destruct (live_bounds _ _ _ _ _ HI Hc) as (_ & ? & _ & ?).
    apply BinNumForSize_range. lia. }
  revert bin_num. induction n as [|n IH]; intros bn Hb Hn; simpl.
  { exists None. split; [done|]. intros h c Hc _ Hle. specialize (Hrange h c Hc). lia. }
  destruct (lookup_lt_is_Some_2 (bins_ st) (Z.to_nat bn)) as [b Hbn].
  { rewrite (bins_length _ _ _ HB). lia. }
  unfold BinFromIndex. rewrite (proj2 (Z.ltb_ge _ _)), Hbn by lia. simpl.
  assert (Hhere : ∀ h, h ∈ free_chunks b → ∃ c, live (chunks_ st) F h = Some c ∧
    in_use c = false ∧ BinNumForSize (c_size c) = bn).
  { intros h Hh. destruct (bins_member _ _ _ HB _ _ _ Hbn Hh) as (c & Hc & Hu & _ & E).
    specialize (Hrange h c Hc). exists c. split_and!; [done..|]. lia. }
  assert (Hthere : ∀ h c, live (chunks_ st) F h = Some c → in_use c = false →
    bn = BinNumForSize (c_size c) → h ∈ free_chunks b).
  { intros h c Hc Hu E. destruct (bins_complete _ _ _ HB h c Hc Hu) as (b' & Hb' & ?);
      [apply not_elem_of_nil|]. rewrite <- E in Hb'. by simplify_eq. }
  destruct (find_in_bin_ok st F (free_chunks b) r) as (o & Ho & Hspec).
  { intros h Hh. destruct (Hhere h Hh) as (c & ? & ? & _). eauto. }
  { by eapply (bins_sorted _ _ _ HB). }
  rewrite Ho. simpl. destruct o as [h|].
  - destruct Hspec as (Hh & c & Hc & Hr & Hmin). destruct (Hhere h Hh) as (c' & Hc' & Hu & E).
    simplify_eq. exists (Some (BinNumForSize (c_size c), h)). split; [done|].
    exists c. split_and!; [done..|]. intros h' c' Hc1 Hu1 Hbn1 Hr1.
    destruct (decide (BinNumForSize (c_size c) = BinNumForSize (c_size c'))) as [Ee|Ene].
    + by apply (Hmin h' c'); [eapply Hthere|..].
    + destruct (decide (c_size c ≤ c_size c')); [done|exfalso].
      destruct (live_bounds _ _ _ _ _ HI Hc) as (_ & ? & _ & ?).
      destruct (live_bounds _ _ _ _ _ HI Hc1) as (_ & ? & _ & ?).
      pose proof (BinNumForSize_mono (c_size c') (c_size c)). lia.
  - destruct (IH (bn + 1)) as (o & Ho' & Hspec'); [lia..|]. exists o. split; [done|].
    destruct o as [[b' h]|].
    + destruct Hspec' as (c & Hc & Hu & E & Hr & Hmin). exists c. split_and!; [done..|].
      intros h' c' Hc1 Hu1 Hbn1 Hr1.
      destruct (decide (bn = BinNumForSize (c_size c'))) as [Ee|Ene].
      * specialize (Hspec h' c' (Hthere _ _ Hc1 Hu1 Ee) Hc1). lia.
      * eapply (Hmin h'); try done. lia.
    + intros h c Hc Hu Hle. destruct (decide (bn = BinNumForSize (c_size c))) as [Ee|Ene].
      * by apply (Hspec h c); [eapply Hthere|].
      * eapply Hspec'; try done. lia.
Qed.

(** ** Handing out a chunk *)

Lemma mark_used_inv st F h c (n : Z) (s : AllocatorStats) :
  Inv st F [h] → live (chunks_ st) F h = Some c → in_use c = false →
  Inv (with_stats (with_next_id (upd (upd st h (set_requested_size n)) h
         (set_allocation_id (next_allocation_id_ st))) (next_allocation_id_ st + 1)) s) F [].
Proof.
  intros HI Hc Hu. destruct (inv_ids _ _ _ HI) as (Hi1 & Hi2 & Hi3).
  set (id := next_allocation_id_ st) in *.
  set (c' := set_allocation_id id (set_requested_size n c)).
  assert (Hlv : ∀ k, live (alter (set_allocation_id id) h (alter (set_requested_size n) h (chunks_ st))) F k =
    if decide (k = h) then Some c' else live (chunks_ st) F k).
  { intros k. rewrite !live_alter. case_decide as E; [|done]. subst. by rewrite Hc. }
  assert (Hu' : in_use c' = true).
  { unfold in_use, c'. simpl. rewrite (proj2 (Z.eqb_neq _ _)) by lia. done. }
  split; simpl.
  - apply HI.
  - eapply layout_ext; [apply HI| |done]. intros k. unfold segs. rewrite Hlv.
    case_decide; [subst; by rewrite Hc|done].
  - apply HI.
  - eapply chain_ext; [|apply HI]. intros k Hk. rewrite !lookup_alter_dec, !decide_False; [done|..];
      intros ->; by apply (live_not_free _ _ _ _ Hc).
  - apply (bins_frame _ (live (chunks_ st) F) _ [h] [] [h]); [apply HI|..].
    + intros k Hk. rewrite Hlv, decide_False by (by intros ->; apply Hk; left). done.
    + mem_solver.
    + intros k d Hk Hd. by right.
    + intros k d ->%list_elem_of_singleton. rewrite Hlv, decide_True by done. intros; simplify_eq.
      split; [|by left]. change (c_bin_num c = kInvalidBinNum).
      apply (bins_num_none _ _ _ (inv_bins _ _ _ HI) h); [done|]. right. mem_solver.
  - intros k d m d'. rewrite !Hlv. repeat case_decide; intros; simplify_eq; auto.
    destruct (inv_coalesced _ _ _ HI k d m d') as [?|[?|[?|?]]]; [done..|auto|auto|mem_solver|mem_solver].
  - split_and!; [lia|..].
    + intros k d. rewrite Hlv. case_decide; intros; simplify_eq; [simpl; lia|].
      destruct (Hi2 k d); [done..|lia].
    + intros k d k' d'. rewrite !Hlv. repeat case_decide; intros; simplify_eq/=; try done.
      * destruct (Hi2 k' d'); [done..|lia].
      * destruct (Hi2 k d); [done..|lia].
      * by eapply Hi3.
Qed.

Definition granted_stats (s : AllocatorStats) (sz : Z) : AllocatorStats :=
  mkStats (num_allocs s + 1) (i64 (bytes_in_use s + sz)) (total_allocated_bytes s)
    (Z.max (max_bytes_in_use s) (i64 (bytes_in_use s + sz)))
    (i64 (Z.max (u64 (max_alloc_size s)) sz)) (bytes_limit s).

(** Slot [h] of [st'] is a new block at [p] of [sz] bytes; nothing else that a
    client sees has changed. *)
Definition granted st st' (h : nat) (p sz num : Z) : Prop :=
  memory_limit_ st' = memory_limit_ st ∧
  curr_region_allocation_bytes_ st' = curr_region_allocation_bytes_ st ∧
  started_backpedal_ st' = started_backpedal_ st ∧
  device_allocator_ st' = device_allocator_ st ∧
  next_allocation_id_ st' = next_allocation_id_ st + 1 ∧
  stats_ st' = granted_stats (stats_ st) sz ∧ reserved_chunks_ st' = reserved_chunks_ st ∧
  spans (regions_ st') = spans (regions_ st) ∧
  chunks_ st !! h ≫= block_of = None ∧
  ∀ k, chunks_ st' !! k ≫= block_of =
    if decide (k = h) then Some (p, sz, num, next_allocation_id_ st)
    else chunks_ st !! k ≫= block_of.

(** The optional split keeps the invariant and leaves a chunk of at least [r]
    bytes at [h]. *)
Lemma maybe_split_ok st F h c r (b : bool) :
  Inv st F [h] → live (chunks_ st) F h = Some c → in_use c = false →
  0 < r ≤ c_size c → r mod 256 = 0 → (b = true → r < c_size c) →
  (∀ m d, c_next c = Some m → live (chunks_ st) F m = Some d → in_use d = true) →
  ∃ st' F' c', (if b then SplitChunk st h r else Ok st) = Ok st' ∧ Inv st' F' [h] ∧
    same_env st st' ∧ same_blocks (chunks_ st) (chunks_ st') ∧
    live (chunks_ st') F' h = Some c' ∧ in_use c' = false ∧
    c_ptr c' = c_ptr c ∧ r ≤ c_size c' ≤ c_size c.
Proof.
  intros HI Hc Hu Hr Hm Hb Hnx. destruct b.
  - destruct (SplitChunk_ok st F h c r) as (st' & F' & hn & HS & HI' & He & Hbl & Hh); try done.
    { split; [lia|auto]. }
    exists st', F', (split_front c hn r). rewrite HS. split_and!; try done; simpl; lia.
  - exists st, F, c. split_and!; try done; lia.
Qed.

Lemma FindChunkPtr_ok st F r num :
  Inv st F [] → 0 < r < 2 ^ 64 → r mod 256 = 0 →
  (FindChunkPtr st (BinNumForSize r) r num = Ok (nullptr, st) ∧
   ∀ h c, live (chunks_ st) F h = Some c → in_use c = false → c_size c < r) ∨
  (∃ h c st' F' sz, FindChunkPtr st (BinNumForSize r) r num = Ok (c_ptr c, st') ∧
     live (chunks_ st) F h = Some c ∧ in_use c = false ∧ r ≤ sz ≤ c_size c ∧
     (∀ h' c', live (chunks_ st) F h' = Some c' → in_use c' = false → r ≤ c_size c' →
        c_size c ≤ c_size c') ∧
     Inv st' F' [] ∧ granted st st' h (c_ptr c) sz num).
Proof.
  intros HI Hr Hm. pose proof (BinNumForSize_range r). unfold FindChunkPtr.
  destruct (find_in_bins_ok st F (Z.to_nat (kNumBins - BinNumForSize r)) (BinNumForSize r) r HI)
    as (o & Ho & Hspec); [lia|unfold kNumBins; lia|].
  rewrite Ho. cbn [mbind res_bind]. destruct o as [[b h]|].
  2:{ left. split; [done|]. intros h c Hc Hu.
      destruct (decide (r ≤ c_size c)); [|lia]. apply (Hspec h c Hc Hu).
      destruct (live_bounds _ _ _ _ _ HI Hc) as (_ & ? & _ & ?). apply BinNumForSize_mono; lia. }
  right. destruct Hspec as (c & Hc & Hu & -> & Hrc & Hmin).
  destruct (live_bounds _ _ _ _ _ HI Hc) as (B1 & B2 & B3 & B4).
  unfold ChunkFromHandle. rewrite (live_lookup _ _ _ _ Hc). cbn [of_option mbind res_bind].
  destruct (RemoveFreeChunkIterFromBin_ok st F [] h c) as (b & Hb & HR & HI1);
    [done..|apply not_elem_of_nil|].
  rewrite HR. cbn [mbind res_bind]. set (st1 := unbinned st c b h) in *.
  pose proof (unbinned_live st F h c b) as Hlv1. fold st1 in Hlv1.
  assert (Hc1 : live (chunks_ st1) F h = Some (set_bin_num kInvalidBinNum c)).
  { rewrite Hlv1, decide_True; done. }
  set (cond := (u64 (r * 2) <=? c_size c) || (kMaxInternalFragmentation <=? u64 (c_size c - r))).
  destruct (maybe_split_ok st1 F h _ r cond HI1 Hc1) as
    (st2 & F2 & c2 & HS & HI2 & Henv & Hbl & Hc2 & Hu2 & Hp2 & Hs2).
  { done. }
  { simpl; lia. }
  { done. }
  { unfold cond. rewrite orb_true_iff, !Z.leb_le, !u64_small by lia.
    change kMaxInternalFragmentation with 134217728. simpl. lia. }
  { simpl. intros m d Hx Hd. pose proof (layout_next_ne _ _ _ h (seg_of c) m (inv_layout _ _ _ HI)
      (segs_live _ _ _ _ Hc) Hx) as Hmh. rewrite Hlv1, decide_False in Hd by done.
    destruct (inv_coalesced _ _ _ HI h c m d) as [?|[?|[?|?]]]; [done..|congruence|done|mem_solver|mem_solver]. }
  rewrite HS. cbn [mbind res_bind]. rewrite (live_lookup _ _ _ _ Hc2).
  cbn [of_option mbind res_bind]. rewrite Hp2.
  exists h, c. eexists. exists F2, (c_size c2). split; [done|].
  split_and!; try done; [lia|simpl in Hs2; lia| | |].
  - intros h' c' Hc' Hu' Hr'. apply (Hmin h' c'); try done.
    destruct (live_bounds _ _ _ _ _ HI Hc') as (_ & ? & _ & ?). apply BinNumForSize_mono; lia.
  - exact (mark_used_inv st2 F2 h c2 num _ HI2 Hc2 Hu2).
  - destruct Henv as (E1 & E2 & E3 & E4 & E5 & E6 & E7 & E8). simpl in *.
    unfold granted; simpl. split_and!; try done; [congruence|by rewrite E6| |].
    + rewrite (live_lookup _ _ _ _ Hc). simpl. unfold block_of. by rewrite Hu.
    + intros k. rewrite !lookup_alter_dec. case_decide as Ek.
      * subst. rewrite (live_lookup _ _ _ _ Hc2). simpl. unfold block_of, in_use; simpl.
        destruct (inv_ids _ _ _ HI) as (Hi1 & _). rewrite E5.
        rewrite (proj2 (Z.eqb_neq _ _)) by lia. simpl. by rewrite Hp2.
      * rewrite Hbl, lookup_alter_dec, decide_False by done. done.
Qed.
End alloc.
