(* ===== verification/BfcArenaSpec.v ===== *)
(** What [BFCArena] promises: the contract of the device it sits on
    ([DeviceLaws]), the invariant of the whole arena ([ArenaOk]), and the
    behaviour of [Extend], [Alloc], [Free] and [Reserve] in terms of the blocks
    a client holds. *)
From S2P Require Import Prelude BfcArena BfcLayout BfcRegions BfcBins BfcArenaInv BfcArenaAlloc.

(** A device hands out blocks that are below the top of the address space
    and disjoint from the blocks it has handed out and not taken back; a failed
    request changes nothing.  Its blocks are smaller than 512 GiB, which is the
    scope of the theorems and no promise of a device: in a larger region the
    arena itself accesses memory it does not own, see
    [large_region_undefined]. *)
Class DeviceLaws (D : Type) `{!DeviceAllocator D} := {
  dev_blocks : D → list (Z * Z);
  dev_Alloc_spec : ∀ d n p d', 0 < n → dev_Alloc d n = (p, d') →
    (p = nullptr ∧ dev_blocks d' = dev_blocks d) ∨
    (0 < p ∧ p + n < 2 ^ 64 ∧ n < 2 ^ 39 ∧
     (∀ b k, (b, k) ∈ dev_blocks d → p + n ≤ b ∨ b + k ≤ p) ∧
     dev_blocks d' = (p, n) :: dev_blocks d);
  dev_Free_spec : ∀ d p b k,
    (b, k) ∈ dev_blocks (dev_Free d p) ↔ (b, k) ∈ dev_blocks d ∧ b ≠ p;
}.

Definition in_use_bytes (chunks : list Chunk) : Z :=
  foldr (fun c acc => (if in_use c then c_size c else 0) + acc) 0 chunks.
Definition span_bytes (S : list (Z * Z)) : Z := foldr (fun s acc => snd s + acc) 0 S.
Definition reserved_bytes (m : gmap Z Z) : Z := map_fold (fun _ s acc => s + acc) 0 m.

Record ArenaOk {D} `{DeviceLaws D} (st : Arena D) : Prop := {
  ok_heap : ∃ F, Inv st F [];
  ok_limit : 0 ≤ memory_limit_ st < 2 ^ 64;
  ok_curr : 0 ≤ curr_region_allocation_bytes_ st < 2 ^ 64 ∧
            curr_region_allocation_bytes_ st mod 256 = 0;
  ok_spans : ∀ b k, (b, k) ∈ spans (regions_ st) → (b, k) ∈ dev_blocks (device_allocator_ st);
  ok_reserved : ∀ p s, reserved_chunks_ st !! p = Some s → p ≠ nullptr → 0 < s ∧
    (p, s) ∈ dev_blocks (device_allocator_ st) ∧
    ∀ b k, (b, k) ∈ spans (regions_ st) → p + s ≤ b ∨ b + k ≤ p;
  ok_reserved_disj : ∀ p s p' s', reserved_chunks_ st !! p = Some s →
    reserved_chunks_ st !! p' = Some s' → p ≠ nullptr → p' ≠ nullptr → p ≠ p' →
    p + s ≤ p' ∨ p' + s' ≤ p;
  ok_bytes_in_use : bytes_in_use (stats_ st) =
    i64 (in_use_bytes (chunks_ st) + reserved_bytes (reserved_chunks_ st));
  ok_total : total_allocated_bytes (stats_ st) =
    i64 (span_bytes (spans (regions_ st)) + reserved_bytes (reserved_chunks_ st));
}.

(** A block of [n] usable bytes at [p] that a client holds. *)
Definition allocated {D} (st : Arena D) (p n : Z) : Prop :=
  ∃ h c, chunks_ st !! h = Some c ∧ in_use c = true ∧ c_ptr c = p ∧ c_size c = n.

(** ** Arithmetic *)

Lemma i64_add_l a b : i64 (i64 a + b) = i64 (a + b).
Proof.
  unfold i64. f_equal.
  replace ((a + 2 ^ 63) mod 2 ^ 64 - 2 ^ 63 + b + 2 ^ 63) with ((a + 2 ^ 63) mod 2 ^ 64 + b) by lia.
  rewrite Zplus_mod_idemp_l. f_equal. lia.
Qed.

Lemma RoundedBytes_value n :
  0 ≤ n → ∃ r, RoundedBytes n = Ok r ∧ 0 ≤ r < 2 ^ 64 ∧ r mod 256 = 0 ∧
    r = u64 (256 * (u64 (n + 255) / 256)).
Proof.
  intros Hn. unfold RoundedBytes. change kMinAllocationSize with 256.
  assert (E : u64 (u64 (n + 256) - 1) = u64 (n + 255)).
  { unfold u64. rewrite Zminus_mod_idemp_l. f_equal. lia. }
  rewrite E. set (r := u64 (256 * _)).
  assert (Hr : r mod 256 = 0).
  { unfold r. rewrite u64_mod256, Z.mul_comm. by apply Z.mod_mul. }
  rewrite Hr. simpl. exists r. split_and!; try done; apply u64_range.
Qed.

(** Away from the top of the address space it rounds up to a multiple of 256. *)
Lemma RoundedBytes_near n :
  0 ≤ n ≤ 2 ^ 64 - 256 →
  ∃ r, RoundedBytes n = Ok r ∧ n ≤ r < n + 256 ∧ r mod 256 = 0 ∧ 0 ≤ r < 2 ^ 64.
Proof.
  intros Hn. destruct (RoundedBytes_value n) as (r & HR & Hr & Hm & ->); [lia|].
  eexists. split; [done|].
  assert (Hd : 0 ≤ (n + 255) / 256 ≤ (2 ^ 64 - 1) / 256).
  { split; [apply Z.div_pos; lia|]. apply Z.div_le_mono; lia. }
  rewrite (u64_small (n + 255)) in * by lia.
  change ((2 ^ 64 - 1) / 256) with (2 ^ 56 - 1) in Hd.
  rewrite (u64_small (256 * _)) in * by lia.
  pose proof (Z.div_mod (n + 255) 256). pose proof (Z.mod_pos_bound (n + 255) 256).
  split_and!; try done; lia.
Qed.

Lemma RoundedBytes_up n :
  0 < n ≤ 2 ^ 64 - 256 →
  ∃ r, RoundedBytes n = Ok r ∧ n ≤ r < n + 256 ∧ r mod 256 = 0 ∧ 0 < r < 2 ^ 64.
Proof.
  intros Hn. destruct (RoundedBytes_near n) as (r & ? & ? & ? & ?); [lia|].
  exists r. split_and!; done || lia.
Qed.

(** Rounding to 24 bits moves a number by at most one part in 2^24. *)
Lemma round_even_shift_bounds n e :
  0 ≤ n → 0 ≤ e → 0 ≤ round_even_shift n e ∧ 2 * (round_even_shift n e * 2 ^ e) ≤ 2 * n + 2 ^ e.
Proof.
  intros Hn He. unfold round_even_shift. pose proof (Z.pow_pos_nonneg 2 e).
  pose proof (Z.div_mod n (2 ^ e)). pose proof (Z.mod_pos_bound n (2 ^ e)).
  pose proof (Z.div_pos n (2 ^ e)).
  destruct (Z.ltb_spec (2 ^ e) (2 * (n mod 2 ^ e))); simpl; [nia|].
  destruct (Z.eqb_spec (2 * (n mod 2 ^ e)) (2 ^ e)); simpl; [|nia].
  destruct (Z.odd (n / 2 ^ e)); nia.
Qed.

Lemma round24_bounds n : 0 ≤ n → 0 ≤ round24 n ∧ 2 ^ 24 * round24 n ≤ (2 ^ 24 + 1) * n.
Proof.
  intros Hn. unfold round24. set (e := Z.max 0 (Z.log2 n - 23)).
  assert (He : 0 ≤ e) by lia. pose proof (Z.pow_pos_nonneg 2 e).
  destruct (round_even_shift_bounds n e Hn He) as [H1 H2].
  split; [nia|]. destruct (decide (e = 0)) as [E|E].
  - rewrite E in *. unfold round_even_shift. change (2 ^ 0) with 1. rewrite Z.mod_1_r, Z.div_1_r.
    simpl. lia.
  - assert (2 ^ 23 * 2 ^ e ≤ n); [|lia].
    rewrite <- Z.pow_add_r by lia. replace (23 + e) with (Z.log2 n) by lia.
    apply Z.log2_spec. destruct (decide (n = 0)) as [->|]; [|lia]. simpl in e. lia.
Qed.

Lemma round_even_shift_lower n e :
  0 ≤ n → 0 ≤ e → 2 * n - 2 ^ e ≤ 2 * (round_even_shift n e * 2 ^ e).
Proof.
  intros Hn He. unfold round_even_shift. pose proof (Z.pow_pos_nonneg 2 e).
  pose proof (Z.div_mod n (2 ^ e)). pose proof (Z.mod_pos_bound n (2 ^ e)).
  destruct (Z.ltb_spec (2 ^ e) (2 * (n mod 2 ^ e))); simpl; [nia|].
  destruct (_ && _); nia.
Qed.

Lemma round24_lower n : 0 ≤ n → (2 ^ 24 - 1) * n ≤ 2 ^ 24 * round24 n.
Proof.
  intros Hn. unfold round24. set (e := Z.max 0 (Z.log2 n - 23)).
  assert (He : 0 ≤ e) by lia. pose proof (round_even_shift_lower n e Hn He) as H2.
  destruct (decide (e = 0)) as [E|E].
  - rewrite E in *. unfold round_even_shift. change (2 ^ 0) with 1. rewrite Z.mod_1_r, Z.div_1_r.
    simpl. lia.
  - assert (2 ^ 23 * 2 ^ e ≤ n); [|lia].
    rewrite <- Z.pow_add_r by lia. replace (23 + e) with (Z.log2 n) by lia.
    apply Z.log2_spec. destruct (decide (n = 0)) as [->|]; [|lia]. simpl in e. lia.
Qed.

Lemma backpedal_bytes_lower b : 2304 ≤ b → 2048 < backpedal_bytes b.
Proof.
  intros Hb. unfold backpedal_bytes. pose proof (round24_lower b ltac:(lia)) as H1.
  set (x := round24 b) in *. pose proof (round24_lower (x * 15099494) ltac:(lia)) as H2.
  set (y := round24 (x * 15099494)) in *. apply (Z.lt_le_trans _ 2049); [lia|].
  apply Z.div_le_lower_bound; lia.
Qed.

Lemma backpedal_bytes_nonneg b : 0 ≤ b → 0 ≤ backpedal_bytes b.
Proof.
  intros Hb. unfold backpedal_bytes. apply Z.div_pos; [|lia].
  apply round24_bounds. pose proof (round24_bounds b Hb). lia.
Qed.

Lemma backpedal_bytes_upper b : 0 ≤ b → 1000 * backpedal_bytes b ≤ 901 * b.
Proof.
  intros Hb. unfold backpedal_bytes. destruct (round24_bounds b Hb) as [H1 H2].
  set (x := round24 b) in *. destruct (round24_bounds (x * 15099494)) as [H3 H4]; [lia|].
  set (y := round24 (x * 15099494)) in *. pose proof (Z.mul_div_le y (2 ^ 24)). lia.
Qed.

(** ** Sums *)

Lemma in_use_bytes_blocks chunks chunks' :
  (∀ k, (fun x => snd (fst (fst x))) <$> (chunks' !! k ≫= block_of) =
        (fun x => snd (fst (fst x))) <$> (chunks !! k ≫= block_of)) →
  in_use_bytes chunks' = in_use_bytes chunks.
Proof.
  assert (Hz : ∀ l, (∀ k : nat, (fun x => snd (fst (fst x))) <$> (l !! k ≫= block_of) = None) → in_use_bytes l = 0).
  { induction l as [|c l IH]; intros Hk; [done|]. simpl. rewrite IH by (intros k; apply (Hk (S k))).
    specialize (Hk 0%nat). simpl in Hk. unfold block_of in Hk. by destruct (in_use c). }
  revert chunks'. induction chunks as [|c l IH]; intros chunks' Hk.
  - rewrite Hz; [done|]. intros k. by rewrite Hk.
  - destruct chunks' as [|c' l'].
    + symmetry. apply Hz. intros k. by rewrite <- Hk.
    + simpl. rewrite (IH l') by (intros k; apply (Hk (S k))). specialize (Hk 0%nat). simpl in Hk.
      unfold block_of in Hk. destruct (in_use c), (in_use c'); simplify_eq/=; lia.
Qed.

Lemma in_use_bytes_same chunks chunks' :
  same_blocks chunks chunks' → in_use_bytes chunks' = in_use_bytes chunks.
Proof. intros Hs. apply in_use_bytes_blocks. intros k. by rewrite Hs. Qed.

Lemma in_use_bytes_alter chunks h c f :
  chunks !! h = Some c →
  in_use_bytes (alter f h chunks) =
    in_use_bytes chunks - (if in_use c then c_size c else 0) +
    (if in_use (f c) then c_size (f c) else 0).
Proof.
  revert h. induction chunks as [|d l IH]; intros [|h] Hh; simplify_eq/=.
  - lia.
  - rewrite (IH h) by done. lia.
Qed.

(** Slot [h] becomes a block of [sz] bytes. *)
Lemma in_use_bytes_grant chunks chunks' h p sz num id :
  chunks !! h ≫= block_of = None →
  (∀ k, chunks' !! k ≫= block_of =
     if decide (k = h) then Some (p, sz, num, id) else chunks !! k ≫= block_of) →
  in_use_bytes chunks' = in_use_bytes chunks + sz.
Proof.
  intros Hn Hk. pose proof (Hk h) as Hh. rewrite decide_True in Hh by done.
  destruct (chunks' !! h) as [c|] eqn:Ec; [|done]. simpl in Hh. unfold block_of in Hh.
  destruct (in_use c) eqn:Hu; simplify_eq.
  assert (E : in_use_bytes (alter (set_allocation_id (-1)) h chunks') = in_use_bytes chunks).
  { apply in_use_bytes_same. intros k. rewrite lookup_alter_dec. case_decide as Hd.
    - subst. rewrite Ec. simpl. by rewrite Hn.
    - rewrite Hk. by rewrite decide_False. }
  rewrite (in_use_bytes_alter _ _ c) in E by done. rewrite Hu in E. simpl in E. lia.
Qed.

Lemma reserved_bytes_insert m p s :
  m !! p = None → reserved_bytes (<[p:=s]> m) = s + reserved_bytes m.
Proof. intros Hp. unfold reserved_bytes. apply map_fold_insert_L; [|done]. intros; lia. Qed.
Lemma reserved_bytes_delete m p s :
  m !! p = Some s → reserved_bytes m = s + reserved_bytes (delete p m).
Proof.
  intros Hp. rewrite <- (reserved_bytes_insert (delete p m) p) by apply lookup_delete_eq.
  by rewrite insert_delete_id.
Qed.

Lemma span_bytes_app S S' : span_bytes (S ++ S') = span_bytes S + span_bytes S'.
Proof. induction S as [|[b k] S IH]; simpl; [done|]. rewrite IH. lia. Qed.

Lemma AddAllocationRegion_bytes rs p n rs' :
  region_fits rs p n → AddAllocationRegion rs p n = Ok rs' →
  span_bytes (spans rs') = span_bytes (spans rs) + n.
Proof.
  intros Hfit. destruct (new_region_wf rs p n Hfit) as (r & Hr & _ & _ & Hn & _).
  unfold AddAllocationRegion. rewrite Hr. simpl. intros E; simplify_eq.
  rewrite <- (take_drop (upper_bound rs p) rs) at 5.
  unfold spans. rewrite !fmap_app, fmap_cons, !span_bytes_app. cbn [span_bytes foldr snd].
  fold (span_bytes ((λ r0, (r_ptr r0, r_memory_size r0)) <$> drop (upper_bound rs p) rs)). lia.
Qed.

Section spec.
Context {D : Type} `{DeviceLaws D}.
Implicit Types (st : Arena D) (F P : list nat).

(** ** [Extend] *)

Lemma grow_curr_ok fuel r curr inc :
  0 ≤ curr < 2 ^ 64 → curr mod 256 = 0 →
  match grow_curr fuel r curr inc with
  | Ok (curr', _) => r ≤ curr' ∧ 0 ≤ curr' < 2 ^ 64 ∧ curr' mod 256 = 0
  | Throw _ => False
  | OutOfFuel => True
  end.
Proof.
  revert curr inc. induction fuel as [|fuel IH]; intros curr inc Hc Hm; simpl;
    destruct (Z.ltb_spec curr r); try done.
  apply IH; [apply u64_range|]. rewrite u64_mod256, <- Z.mul_mod_idemp_l, Hm; done.
Qed.

Lemma backpedal_loop_ok fuel d bytes r :
  0 < r → 0 ≤ bytes →
  match backpedal_loop fuel d bytes r with
  | Ok (p, bytes', d') =>
      (p = nullptr ∧ dev_blocks d' = dev_blocks d) ∨
      (0 < p ∧ r ≤ bytes' ∧ bytes' mod 256 = 0 ∧ p + bytes' < 2 ^ 64 ∧ bytes' < 2 ^ 39 ∧
       (∀ b k, (b, k) ∈ dev_blocks d → p + bytes' ≤ b ∨ b + k ≤ p) ∧
       dev_blocks d' = (p, bytes') :: dev_blocks d)
  | Throw _ => False
  | OutOfFuel => True
  end.
Proof.
  intros Hr. revert d bytes. induction fuel as [|fuel IH]; intros d bytes Hb; [done|].
  cbn [backpedal_loop].
  destruct (RoundedBytes_value (backpedal_bytes bytes)) as (b' & -> & Hb' & Hm & _).
  { by apply backpedal_bytes_nonneg. }
  cbn [mbind res_bind].
  destruct (Z.ltb_spec b' r); [by left|].
  destruct (dev_Alloc d b') as [p d'] eqn:Ea.
  destruct (dev_Alloc_spec d b' p d') as [[-> Hd']|(Hp & Hpb & Hb39 & Hdis & Hd')]; [lia|done|..].
  - simpl. specialize (IH d' b'). rewrite Hd' in IH. apply IH. lia.
  - rewrite (proj2 (Z.eqb_neq _ _)) by (unfold nullptr; lia). right. split_and!; done || lia.
Qed.

(** A region the device has just granted, covered by one free chunk. *)
Lemma add_region_chunk_ok st F p n :
  Inv st F [] → region_fits (regions_ st) p n →
  ∃ st' F' h c, add_region_chunk st p n = Ok st' ∧ Inv st' F' [] ∧
    live (chunks_ st') F' h = Some c ∧ in_use c = false ∧ c_ptr c = p ∧ c_size c = n ∧
    same_blocks (chunks_ st) (chunks_ st') ∧
    (∀ x, x ∈ spans (regions_ st') ↔ x = (p, n) ∨ x ∈ spans (regions_ st)) ∧
    span_bytes (spans (regions_ st')) = span_bytes (spans (regions_ st)) + n ∧
    memory_limit_ st' = memory_limit_ st ∧
    curr_region_allocation_bytes_ st' = curr_region_allocation_bytes_ st ∧
    started_backpedal_ st' = started_backpedal_ st ∧
    device_allocator_ st' = device_allocator_ st ∧
    next_allocation_id_ st' = next_allocation_id_ st ∧
    stats_ st' = stats_ st ∧ reserved_chunks_ st' = reserved_chunks_ st.
Proof.
  intros HI Hfit. pose proof Hfit as (Hp & Hn & Hm & Hpn & Hdis).
  destruct (AddAllocationRegion_ok (regions_ st) p n) as (rs1 & HR & Hwf1 & Hsp1 & Hold & Hnew); [apply HI|done|].
  pose proof (AddAllocationRegion_bytes _ _ _ _ Hfit HR) as Hsum.
  destruct (AllocateChunk_ok st F [] HI) as
    (h & st1 & F' & c0 & HA & Hc0 & Hb0 & Hu0 & HhF & Hnd & Hchain & Hdead & Hlv & Hbins & Hregs & Henv & Hbl).
  assert (HA' : AllocateChunk (with_regions st rs1) = Ok (h, with_regions st1 rs1)).
  { revert HA. unfold AllocateChunk, ChunkFromHandle. simpl.
    destruct (free_chunks_list_ st) as [x|]; simpl; [destruct (chunks_ st !! x); simpl|]; intros; by simplify_eq. }
  assert (Haddr : chunk_addr (spans rs1) p).
  { exists p, n. rewrite Hsp1, Z.sub_diag. split_and!; auto; lia. }
  destruct (set_handle_in rs1 p (Some h) Hwf1 Haddr) as (rs2 & HS & Hwf2 & Hsp2 & Hhm2).
  unfold add_region_chunk. rewrite HR. cbn [mbind res_bind]. rewrite HA'. cbn [mbind res_bind].
  unfold ChunkFromHandle. cbn [chunks_ with_regions]. rewrite Hc0. cbn [of_option mbind res_bind].
  cbn [upd with_chunks with_regions regions_ chunks_]. rewrite HS. cbn [mbind res_bind].
  match goal with |- context [InsertFreeChunkIntoBin ?s h] => set (st2 := s) end.
  set (c2 := mkChunk n (c_requested_size c0) (-1) p None None kInvalidBinNum).
  assert (Hlv2 : ∀ k, live (chunks_ st2) F' k = if decide (k = h) then Some c2 else live (chunks_ st) F k).
  { intros k. simpl. rewrite !live_alter. case_decide as E; [|by apply Hlv].
    subst. rewrite (live_intro _ _ _ _ HhF Hc0). simpl. unfold c2. rewrite <- Hb0. done. }
  assert (Hbl2 : same_blocks (chunks_ st) (chunks_ st2)).
  { intros k. simpl. rewrite !lookup_alter_dec. case_decide as E; [|by apply Hbl].
    subst. rewrite <- (Hbl h), Hc0. simpl. unfold block_of. by rewrite Hu0. }
  destruct Henv as (E1 & E2 & E3 & E4 & E5 & E6 & E7 & E8).
  assert (HI2 : Inv st2 F' [h]).
  { split; simpl; [done| |done| | | |].
    - rewrite Hsp2. eapply layout_ext.
      + apply (layout_region (segs (chunks_ st) F) (spans (regions_ st)) (handle_of (regions_ st))
          (spans rs1) (handle_of rs2) h p n); [apply HI| |lia|done|done|..].
        * unfold segs. by rewrite Hdead.
        * by apply regions_spans_disjoint.
        * intros k Hk. destruct (Hdis p k Hk); [lia|].
          apply elem_of_spans in Hk as (i & r & Hi & <- & <-).
          destruct (regions_wf_lookup _ _ _ (inv_regions _ _ _ HI) Hi) as (_ & ? & _). lia.
        * intros b' k' (i & r & Hi & <- & <-)%elem_of_spans.
          destruct (regions_wf_lookup _ _ _ (inv_regions _ _ _ HI) Hi) as (_ & ? & _). lia.
        * rewrite Hhm2 by done. unfold fun_upd. by rewrite decide_True.
        * intros q Hq. destruct Hq as (b & k & Hb & Hq & Hqm).
          rewrite Hhm2; [|exists b, k; rewrite Hsp1; auto].
          unfold fun_upd. rewrite decide_False; [apply Hold; by exists b, k|].
          intros ->. destruct (Hdis b k Hb); lia.
        * intros q Hq Hqm. rewrite Hhm2; [|exists p, n; rewrite Hsp1; split_and!; auto; lia].
          unfold fun_upd. rewrite decide_False by lia. apply Hnew. lia.
      + intros k. unfold segs, region_lv. rewrite Hlv2. by case_decide.
      + done.
    - eapply chain_ext; [|done]. intros k Hk.
      assert (k ≠ h) by (by intros ->). by rewrite !lookup_alter_dec, !decide_False.
    - rewrite Hbins. apply (bins_frame _ (live (chunks_ st) F) _ [] [h] [h]); [apply HI|..].
      + intros k Hk. rewrite Hlv2, decide_False by (by intros ->; apply Hk; left). done.
      + mem_solver.
      + intros k d ->%list_elem_of_singleton Hd. congruence.
      + intros k d ->%list_elem_of_singleton. rewrite Hlv2, decide_True by done. intros; simplify_eq.
        split; [done|right; by left].
    - intros k d m d'. rewrite !Hlv2, !list_elem_of_singleton. repeat case_decide; intros; simplify_eq; auto.
      destruct (inv_coalesced _ _ _ HI k d m d') as [?|[?|[?|?]]]; [done..|auto|auto|mem_solver|mem_solver].
    - rewrite E5. eapply ids_frame; [apply HI|]. intros k d. rewrite Hlv2.
      case_decide; intros; simplify_eq; eauto. }
  destruct (InsertFreeChunkIntoBin_ok st2 F' [h] [] h c2 HI2) as (st3 & HB & HI3 & Henv3 & Hch3).
  { rewrite Hlv2. by rewrite decide_True. }
  { done. }
  { by left. }
  { mem_solver. }
  { eapply coalesced_final; [done|rewrite Hlv2; by rewrite decide_True|done|done]. }
  destruct Henv3 as (G1 & G2 & G3 & G4 & G5 & G6 & G7 & G8). simpl in *.
  exists st3, F', h, (set_bin_num (BinNumForSize n) c2).
  split_and!; try done; try congruence.
  - rewrite Hch3, live_alter, decide_True, Hlv2, decide_True by done. done.
  - rewrite Hch3. eapply same_blocks_trans; [exact Hbl2|]. by apply same_blocks_alter.
  - intros x. rewrite G8, Hsp2. apply Hsp1.
Qed.

(** Requests to the device leave the heap alone. *)
Lemma inv_device st F P curr b d :
  Inv st F P → Inv (with_device (with_curr st curr) b d) F P.
Proof. by intros []. Qed.
Lemma inv_stats st F P s : Inv st F P → Inv (with_stats st s) F P.
Proof. by intros []. Qed.
Lemma inv_curr st F P c : Inv st F P → Inv (with_curr st c) F P.
Proof. by intros []. Qed.

Lemma arena_ok_device st curr b d :
  ArenaOk st → 0 ≤ curr < 2 ^ 64 → curr mod 256 = 0 →
  dev_blocks d = dev_blocks (device_allocator_ st) → ArenaOk (with_device (with_curr st curr) b d).
Proof.
  intros Hok Hc Hm Hd. destruct Hok as [[F HI] H1 H2 H3 H4 H5 H6 H7].
  split; simpl; rewrite ?Hd; try done. exists F. by apply inv_device.
Qed.

Lemma request_region_ok fuel st r curr bytes :
  0 < r ≤ bytes → bytes mod 256 = 0 →
  match request_region fuel st r curr bytes with
  | Ok (p, bytes', st') => ∃ b d, st' = with_device (with_curr st curr) b d ∧
      ((p = nullptr ∧ dev_blocks d = dev_blocks (device_allocator_ st)) ∨
       (0 < p ∧ r ≤ bytes' ∧ bytes' mod 256 = 0 ∧ p + bytes' < 2 ^ 64 ∧ bytes' < 2 ^ 39 ∧
        (∀ b k, (b, k) ∈ dev_blocks (device_allocator_ st) → p + bytes' ≤ b ∨ b + k ≤ p) ∧
        dev_blocks d = (p, bytes') :: dev_blocks (device_allocator_ st)))
  | Throw _ => False
  | OutOfFuel => True
  end.
Proof.
  intros Hr Hm. unfold request_region. simpl. destruct (dev_Alloc _ bytes) as [p d] eqn:Ea.
  destruct (dev_Alloc_spec (device_allocator_ st) bytes p d) as [[-> Hd]|(Hp & Hpb & Hb39 & Hdis & Hd)]; [lia|done|..].
  - simpl. destruct (started_backpedal_ st); simpl; [by eauto 10|].
    pose proof (backpedal_loop_ok fuel d bytes r) as HB. rewrite Hd in HB.
    destruct (backpedal_loop fuel d bytes r) as [[[p b'] d']|e|]; simpl; [|apply HB; lia|done].
    exists true, d'. split; [done|]. apply HB; lia.
  - rewrite (proj2 (Z.eqb_neq _ _)) by (unfold nullptr; lia). simpl.
    exists (started_backpedal_ st), d. split; [done|]. right. split_and!; done || lia.
Qed.

Definition extended st st' (r : Z) (grown : bool) : Prop :=
  same_blocks (chunks_ st) (chunks_ st') ∧ reserved_chunks_ st' = reserved_chunks_ st ∧
  next_allocation_id_ st' = next_allocation_id_ st ∧
  bytes_in_use (stats_ st') = bytes_in_use (stats_ st) ∧
  num_allocs (stats_ st') = num_allocs (stats_ st) ∧
  (∀ x, x ∈ spans (regions_ st) → x ∈ spans (regions_ st')) ∧
  if grown then ∃ F h c, Inv st' F [] ∧ live (chunks_ st') F h = Some c ∧
                  in_use c = false ∧ r ≤ c_size c
  else chunks_ st' = chunks_ st ∧ regions_ st' = regions_ st ∧
       dev_blocks (device_allocator_ st') = dev_blocks (device_allocator_ st).

Lemma Extend_ok fuel st r :
  ArenaOk st → 0 < r < 2 ^ 64 → r mod 256 = 0 →
  match Extend fuel st r with
  | Ok (b, st') => ArenaOk st' ∧ extended st st' r b
  | Throw _ => False
  | OutOfFuel => True
  end.
Proof.
  intros Hok Hr Hm. unfold Extend. cbv zeta. change kMinAllocationSize with 256.
  set (av := u64 (_ / 256 * 256)).
  destruct (Z.ltb_spec av r); [split; [done|]; unfold extended; split_and!; done|].
  assert (Hav : av mod 256 = 0) by (unfold av; rewrite u64_mod256; by apply Z.mod_mul).
  destruct (ok_curr _ Hok) as [Hc Hcm].
  pose proof (grow_curr_ok fuel r _ false Hc Hcm) as HG.
  destruct (grow_curr _ _ _ _) as [[curr inc]|e|]; [|done..]. destruct HG as (HG & HG1 & HG2). cbn [mbind res_bind].
  assert (0 < r ≤ Z.min curr av) as Hmin by lia.
  pose proof (request_region_ok fuel st r curr (Z.min curr av) Hmin) as HB.
  destruct (request_region _ _ _ _ _) as [[[p bytes] st1]|e|]; cbn [mbind res_bind];
    [|apply HB; destruct (Z.min_spec curr av) as [[_ ->]|[_ ->]]; done|done].
  destruct HB as (b & d & -> & [[-> Hd]|(Hp & Hrb & Hbm & Hpb & Hb39 & Hdis & Hd)]).
  { destruct (Z.min_spec curr av) as [[_ ->]|[_ ->]]; done. }
  { simpl. split; [by apply arena_ok_device|]. unfold extended; simpl. split_and!; done. }
  rewrite (proj2 (Z.eqb_neq _ _)) by (unfold nullptr; lia). cbv zeta.
  match goal with |- context [add_region_chunk ?s p bytes] => set (st2 := s) end.
  assert (∃ c2, st2 = with_stats (with_device (with_curr st c2) b d)
    (mkStats (num_allocs (stats_ st)) (bytes_in_use (stats_ st))
       (i64 (total_allocated_bytes (stats_ st) + bytes)) (max_bytes_in_use (stats_ st))
       (max_alloc_size (stats_ st)) (bytes_limit (stats_ st))) ∧ 0 ≤ c2 < 2 ^ 64 ∧ c2 mod 256 = 0)
    as (c2 & E2 & Hc2 & Hc2m).
  { unfold st2. destruct inc; [by exists curr|]. exists (u64 (curr * 2)). split_and!; [done|apply u64_range..|].
    rewrite u64_mod256, <- Z.mul_mod_idemp_l, HG2; done. }
  destruct (ok_heap _ Hok) as [F HI].
  destruct (add_region_chunk_ok st2 F p bytes) as
    (st3 & F' & h & c & HA & HI3 & Hl & Hu & Hcp & Hcs & Hbl & Hsp & Hsb & E3 & E4 & E5 & E6 & E7 & E8 & E9).
  { rewrite E2. by apply inv_stats, inv_device. }
  { rewrite E2; simpl. split_and!; try done; [lia|]. intros b' k' Hb'. apply Hdis. by apply (ok_spans _ Hok). }
  clearbody st2. subst st2. simpl in *. rewrite HA. cbn [mbind res_bind]. split.
  - split; rewrite ?E3, ?E4, ?E6, ?E8, ?E9; simpl.
    + by exists F'.
    + apply Hok.
    + done.
    + intros b' k'. rewrite Hsp, Hd, elem_of_cons. intros [E|Hb']; [by left|right]. by apply (ok_spans _ Hok).
    + intros q s Hq Hq0. destruct (ok_reserved _ Hok q s Hq Hq0) as (Hs & Hq1 & Hq2).
      split_and!; [done|rewrite Hd; by right|]. intros b' k. rewrite Hsp. intros [E|Hk]; [|by eapply Hq2].
      injection E as <- <-. destruct (Hdis _ _ Hq1); lia.
    + apply Hok.
    + rewrite (ok_bytes_in_use _ Hok). by rewrite (in_use_bytes_same _ _ Hbl).
    + rewrite (ok_total _ Hok), i64_add_l, Hsb. f_equal. lia.
  - unfold extended. rewrite E7, E8, E9. split_and!; try done.
    + intros x Hx. apply Hsp. by right.
    + exists F', h, c. split_and!; try done. lia.
Qed.

(** ** [Alloc] *)

Lemma granted_ok st st' F' h p sz num :
  ArenaOk st → Inv st' F' [] → granted st st' h p sz num → ArenaOk st'.
Proof.
  intros Hok HI' (E1 & E2 & E3 & E4 & E5 & E6 & E7 & E8 & Hn & Hbl).
  split; rewrite ?E1, ?E2, ?E4, ?E7, ?E8; try apply Hok.
  - eauto.
  - rewrite (in_use_bytes_grant _ _ _ _ _ _ _ Hn Hbl), E6. simpl.
    rewrite (ok_bytes_in_use _ Hok), i64_add_l. f_equal. lia.
  - rewrite E6. simpl. apply Hok.
Qed.

(** Slot [h] holds the new block, of at least the requested size. *)
Definition alloc_grants st st' (n p : Z) : Prop :=
  ∃ h sz, n ≤ sz ∧ 0 < p ∧ chunks_ st !! h ≫= block_of = None ∧
    reserved_chunks_ st' = reserved_chunks_ st ∧
    bytes_in_use (stats_ st') = i64 (bytes_in_use (stats_ st) + sz) ∧
    ∀ k, chunks_ st' !! k ≫= block_of =
      if decide (k = h) then Some (p, sz, n, next_allocation_id_ st)
      else chunks_ st !! k ≫= block_of.

Definition alloc_fails st st' : Prop :=
  same_blocks (chunks_ st) (chunks_ st') ∧ reserved_chunks_ st' = reserved_chunks_ st ∧
  bytes_in_use (stats_ st') = bytes_in_use (stats_ st) ∧
  dev_blocks (device_allocator_ st') = dev_blocks (device_allocator_ st).

Lemma granted_grants st st' F P h c n r sz :
  Inv st F P → live (chunks_ st) F h = Some c → n ≤ r → r ≤ sz →
  granted st st' h (c_ptr c) sz n → alloc_grants st st' n (c_ptr c).
Proof.
  intros HI Hc Hn Hr (_ & _ & _ & _ & _ & E6 & E7 & _ & Hb & Hbl).
  destruct (live_bounds _ _ _ _ _ HI Hc) as (Hp & _). exists h, sz.
  split_and!; try done; [lia|]. by rewrite E6.
Qed.

Lemma Alloc_ok fuel st n :
  ArenaOk st → 0 < n ≤ 2 ^ 64 - 256 →
  match Alloc fuel st n with
  | Ok (p, st') => ArenaOk st' ∧
      ((p = nullptr ∧ alloc_fails st st') ∨ alloc_grants st st' n p)
  | Throw _ => False
  | OutOfFuel => True
  end.
Proof.
  intros Hok Hn. unfold Alloc, AllocateRawInternal.
  rewrite (proj2 (Z.eqb_neq _ _)) by lia.
  destruct (RoundedBytes_up n Hn) as (r & -> & Hr & Hm & Hr64). cbn [mbind res_bind].
  destruct (ok_heap _ Hok) as [F HI].
  destruct (FindChunkPtr_ok st F r n HI Hr64 Hm) as
    [[-> Hno]|(h & c & st' & F' & sz & -> & Hc & Hu & Hsz & _ & HI' & Hg)]; cbn [mbind res_bind].
  2:{ destruct (live_bounds _ _ _ _ _ HI Hc) as (Hp & _).
      rewrite (proj2 (Z.eqb_neq _ _)) by (unfold nullptr; lia). simpl.
      split; [by eapply granted_ok|]. right.
      exact (granted_grants _ _ _ _ _ _ n r _ HI Hc ltac:(lia) (proj1 Hsz) Hg). }
  simpl. pose proof (Extend_ok fuel st r Hok Hr64 Hm) as HE.
  destruct (Extend fuel st r) as [[b st1]|e|]; simpl; [|done..].
  destruct HE as (Hok1 & Hbl & Hres & Hid & Hbu & Hna & _ & Hb). destruct b.
  2:{ split; [done|]. left. destruct Hb as (_ & _ & Hd). split; [done|]. split_and!; done. }
  destruct Hb as (F1 & h1 & c1 & HI1 & Hc1 & Hu1 & Hr1).
  destruct (FindChunkPtr_ok st1 F1 r n HI1 Hr64 Hm) as
    [[_ Hno1]|(h & c & st' & F' & sz & -> & Hc & Hu & Hsz & _ & HI' & Hg)].
  { specialize (Hno1 _ _ Hc1 Hu1). lia. }
  split; [by eapply granted_ok|]. right.
  destruct (granted_grants _ _ _ _ _ _ n r _ HI1 Hc ltac:(lia) (proj1 Hsz) Hg) as (h' & sz' & G1 & G2 & G3 & G4 & G5 & G6).
  exists h', sz'. rewrite <- Hres, <- Hbu, <- Hid, <- Hbl. split_and!; try done.
  intros k. rewrite G6. case_decide; [done|]. apply Hbl.
Qed.

(** ** Termination of the loops of [Extend] *)

Lemma grow_curr_total fuel r curr inc :
  0 < curr → r ≤ 2 ^ 63 → r ≤ curr * 2 ^ Z.of_nat fuel → ∃ x, grow_curr fuel r curr inc = Ok x.
Proof.
  revert curr inc. induction fuel as [|fuel IH]; intros curr inc Hc Hr Hf; simpl grow_curr;
    destruct (Z.ltb_spec curr r); eauto; [lia|].
  rewrite u64_small by lia. apply IH; [lia|done|].
  rewrite Nat2Z.inj_succ, Z.pow_succ_r in Hf by lia. lia.
Qed.

(** The excess over 2576 bytes shrinks by the factor 0.901 in every round. *)
Lemma backpedal_loop_total k fuel d bytes r :
  2816 ≤ r → 0 ≤ bytes < 2 ^ 64 → (k < fuel)%nat →
  (bytes - 2576) * 901 ^ Z.of_nat k < 240 * 1000 ^ Z.of_nat k →
  ∃ x, backpedal_loop fuel d bytes r = Ok x.
Proof.
  intros Hr. revert fuel d bytes. induction k as [|k IH]; intros [|fuel] d bytes Hb Hk Hex; try lia;
    cbn [backpedal_loop]; pose proof (backpedal_bytes_nonneg bytes ltac:(lia));
    pose proof (backpedal_bytes_upper bytes ltac:(lia));
    destruct (RoundedBytes_near (backpedal_bytes bytes)) as (b' & -> & Hb' & _ & Hb64); try lia;
    cbn [mbind res_bind]; destruct (Z.ltb_spec b' r); eauto; [simpl in Hex; lia|].
  destruct (dev_Alloc d b') as [p d']. destruct (p =? nullptr); [|eauto].
  apply IH; [done|lia|].
  rewrite Nat2Z.inj_succ, !Z.pow_succ_r in Hex by lia.
  assert (0 < 901 ^ Z.of_nat k) by (apply Z.pow_pos_nonneg; lia). nia.
Qed.

Lemma backpedal_loop_400 fuel d bytes r :
  2816 ≤ r → 0 ≤ bytes < 2 ^ 64 → (400 < fuel)%nat → ∃ x, backpedal_loop fuel d bytes r = Ok x.
Proof.
  intros Hr Hb Hf. apply (backpedal_loop_total 400); try done.
  apply (Z.le_lt_trans _ ((2 ^ 64 - 2576) * 901 ^ Z.of_nat 400)).
  - apply Z.mul_le_mono_nonneg_r; [|lia]. vm_compute. discriminate.
  - vm_compute. reflexivity.
Qed.

(** Loops terminate for the request [r]: the region size has not wrapped to
    zero, and the device is asked again only for requests of more than 2560
    bytes. *)
Definition extends_in_time st (r : Z) : Prop :=
  0 < curr_region_allocation_bytes_ st ∧ r ≤ 2 ^ 63 ∧
  (2816 ≤ r ∨ started_backpedal_ st = true).

Lemma Extend_total fuel st r :
  ArenaOk st → 0 < r < 2 ^ 64 → r mod 256 = 0 → extends_in_time st r → (400 < fuel)%nat →
  ∃ x, Extend fuel st r = Ok x.
Proof.
  intros Hok Hr Hm (Hc & Hr63 & Hor) Hf. pose proof (Extend_ok fuel st r Hok Hr Hm) as HE.
  destruct (Extend fuel st r) as [x|e|] eqn:EE; [eauto|done|exfalso]. clear HE.
  revert EE. unfold Extend. cbv zeta. destruct (_ <? r) eqn:Elt; [done|].
  destruct (grow_curr_total fuel r (curr_region_allocation_bytes_ st) false) as [[curr inc] HG]; try done.
  { apply (Z.le_trans _ (curr_region_allocation_bytes_ st * 2 ^ 63)); [lia|].
    apply Z.mul_le_mono_nonneg_l; [lia|]. apply Z.pow_le_mono_r; lia. }
  pose proof (grow_curr_ok fuel r _ false (proj1 (ok_curr _ Hok)) (proj2 (ok_curr _ Hok))) as Hgo.
  rewrite HG in *. cbn [mbind res_bind]. destruct Hgo as (Hgr & Hg64 & Hgm).
  change kMinAllocationSize with 256 in *. apply Z.ltb_ge in Elt. set (av := u64 (_ / 256 * 256)) in *.
  assert (Hav : av mod 256 = 0) by (unfold av; rewrite u64_mod256; by apply Z.mod_mul).
  assert (Hmin : Z.min curr av mod 256 = 0) by (destruct (Z.min_spec curr av) as [[_ ->]|[_ ->]]; done).
  assert (Hav64 : 0 ≤ av < 2 ^ 64) by apply u64_range.
  pose proof (request_region_ok fuel st r curr (Z.min curr av) ltac:(lia) Hmin) as HQ.
  destruct (request_region fuel st r curr (Z.min curr av)) as [[[p b] st1]|e|] eqn:EQ; [|done|].
  - cbn [mbind res_bind]. destruct (p =? nullptr); [done|].
    match goal with |- context [add_region_chunk ?s p b] => set (st2 := s) end.
    unfold add_region_chunk, AddAllocationRegion, new_AllocationRegion, AllocateChunk, set_handle,
      InsertFreeChunkIntoBin, region_set_handle, RegionFor, IndexFor, BinFromIndex, ChunkFromHandle, enforce, of_option.
    repeat (first [done | case_match | progress cbn [mbind res_bind]]).
  - revert EQ. unfold request_region. simpl. destruct (dev_Alloc _ _) as [p d].
    destruct Hor as [Hr2|Hst]; [|rewrite Hst, andb_false_r; done].
    destruct (_ && _); [|done]. destruct (backpedal_loop_400 fuel d (Z.min curr av) r) as [[[p' b'] d'] ->]; try done. lia.
Qed.
End spec.
