(* ===== verification/BfcArenaClient.v ===== *)
(** The arena as its clients see it: the abstract heap of blocks that have
    been handed out ([Heap], [heap_step]), the operations a client can perform
    on the arena ([arena_step]), and the lemmas that relate the two. *)
From S2P Require Import Prelude BfcArena BfcLayout BfcRegions BfcBins BfcArenaInv BfcArenaAlloc BfcArenaSpec.

(** ** The abstract heap *)

(** [blocks] maps the address of a block to its usable and its requested size,
    [reserved] the address of a reserved block to its size. *)
Record Heap := mkHeap {
  blocks : gmap Z (Z * Z);
  reserved : gmap Z Z;
}.

Definition apart (p s q k : Z) : Prop := p + s ≤ q ∨ q + k ≤ p.

Definition fresh_block (H : Heap) (p s : Z) : Prop :=
  (∀ q k r, blocks H !! q = Some (k, r) → apart p s q k) ∧
  (∀ q k, reserved H !! q = Some k → apart p s q k).

Inductive op :=
  | OpAlloc (n p : Z)
  | OpFree (p : Z)
  | OpReserve (n p : Z).

(** What the operations may do: a request can fail, a pointer into the first
    256 bytes of a block frees it. *)
Inductive heap_step (H : Heap) : op → Heap → Prop :=
  | heap_alloc_null n : heap_step H (OpAlloc n nullptr) H
  | heap_alloc n p sz : 0 < n ≤ sz → 0 < p → fresh_block H p sz →
      heap_step H (OpAlloc n p) (mkHeap (<[p := (sz, n)]> (blocks H)) (reserved H))
  | heap_free_null : heap_step H (OpFree nullptr) H
  | heap_free p q sz n : blocks H !! q = Some (sz, n) → q ≤ p < q + 256 → reserved H !! p = None →
      heap_step H (OpFree p) (mkHeap (delete q (blocks H)) (reserved H))
  | heap_free_reserved p sz : reserved H !! p = Some sz →
      heap_step H (OpFree p) (mkHeap (blocks H) (delete p (reserved H)))
  | heap_reserve_null n : heap_step H (OpReserve n nullptr) H
  | heap_reserve n p : 0 < n → 0 < p → fresh_block H p n →
      heap_step H (OpReserve n p) (mkHeap (blocks H) (<[p := n]> (reserved H))).

(** ** The abstraction of an arena *)

Definition block_entry (b : Z * Z * Z * Z) : Z * (Z * Z) :=
  let '(p, s, r, _) := b in (p, (s, r)).
Definition held_list (chunks : list Chunk) : list (Z * (Z * Z)) :=
  omap (fun c => block_entry <$> block_of c) chunks.
Definition held (chunks : list Chunk) : gmap Z (Z * Z) := list_to_map (held_list chunks).
Definition view {D} (st : Arena D) : Heap :=
  mkHeap (held (chunks_ st)) (delete nullptr (reserved_chunks_ st)).

(** ** The arena's operations *)

Inductive arena_step {D} `{DeviceAllocator D} (st : Arena D) : op → Arena D → Prop :=
  | step_Alloc fuel n p st' : 0 ≤ n ≤ 2 ^ 64 - 256 → Alloc fuel st n = Ok (p, st') →
      arena_step st (OpAlloc n p) st'
  | step_Free p st' : Free st p = Ok st' → arena_step st (OpFree p) st'
  | step_Reserve n p st' : 0 ≤ n < 2 ^ 64 → Reserve st n = Ok (p, st') →
      arena_step st (OpReserve n p) st'.

Inductive reachable {D} `{DeviceAllocator D} (d : D) (limit : Z) : Arena D → Prop :=
  | reach_new st : new_BFCArena d limit = Ok st → reachable d limit st
  | reach_step st o st' : reachable d limit st → arena_step st o st' → reachable d limit st'.

Lemma elem_of_held_list chunks p s r :
  (p, (s, r)) ∈ held_list chunks ↔ ∃ h id, chunks !! h ≫= block_of = Some (p, s, r, id).
Proof.
  unfold held_list. rewrite list_elem_of_omap. split.
  - intros (c & (h & Hh)%list_elem_of_lookup & Hc).
    apply fmap_Some in Hc as ([[[p' s'] r'] id] & Hb & E). simplify_eq/=.
    exists h, id. by rewrite Hh.
  - intros (h & id & (c & Hc & Hb)%bind_Some). exists c. split; [by eapply list_elem_of_lookup_2|].
    by rewrite Hb.
Qed.

Section client.
Context {D : Type} `{DeviceLaws D}.
Implicit Types (st : Arena D) (F P : list nat).

Lemma block_of_Some c b :
  block_of c = Some b ↔ in_use c = true ∧ b = (c_ptr c, c_size c, c_requested_size c, c_allocation_id c).
Proof. unfold block_of. destruct (in_use c); split; naive_solver. Qed.

Lemma block_live st F P h b :
  Inv st F P → chunks_ st !! h ≫= block_of = Some b →
  ∃ c, live (chunks_ st) F h = Some c ∧ in_use c = true ∧
    b = (c_ptr c, c_size c, c_requested_size c, c_allocation_id c).
Proof.
  intros HI (c & Hc & [Hu ->]%block_of_Some)%bind_Some. exists c.
  split_and!; [by eapply in_use_live|done..].
Qed.

Lemma held_lookup st F P p s r :
  Inv st F P →
  held (chunks_ st) !! p = Some (s, r) ↔ ∃ h id, chunks_ st !! h ≫= block_of = Some (p, s, r, id).
Proof.
  intros HI. rewrite <- elem_of_held_list. unfold held. split.
  { apply elem_of_list_to_map_2. }
  intros Hp. apply elem_of_list_to_map_1'; [|done]. intros [s' r'] Hp'.
  apply elem_of_held_list in Hp as (h & id & Hh). apply elem_of_held_list in Hp' as (h' & id' & Hh').
  destruct (block_live _ _ _ _ _ HI Hh) as (c & Hc & _ & E), (block_live _ _ _ _ _ HI Hh') as (c' & Hc' & _ & E').
  assert (h = h') as <-. { eapply (live_ptr_inj st F P); try done. congruence. }
  congruence.
Qed.

Lemma held_None st F P p :
  Inv st F P →
  held (chunks_ st) !! p = None ↔ ∀ h s r id, chunks_ st !! h ≫= block_of ≠ Some (p, s, r, id).
Proof.
  intros HI. split.
  - intros Hn h s r id Hh. assert (held (chunks_ st) !! p = Some (s, r)) by (eapply held_lookup; eauto). congruence.
  - intros Hn. destruct (held (chunks_ st) !! p) as [[s r]|] eqn:E; [|done].
    eapply held_lookup in E as (h & id & Hh); [|done]. by destruct (Hn h s r id).
Qed.

Lemma held_same st st' F F' P P' :
  Inv st F P → Inv st' F' P' → same_blocks (chunks_ st) (chunks_ st') →
  held (chunks_ st') = held (chunks_ st).
Proof.
  intros HI HI' Hb. apply map_eq. intros p. apply option_eq. intros [s r].
  rewrite (held_lookup _ _ _ _ _ _ HI), (held_lookup _ _ _ _ _ _ HI').
  setoid_rewrite (Hb : ∀ k, _ = _). done.
Qed.

Lemma held_grant st st' F F' P P' h p sz n id :
  Inv st F P → Inv st' F' P' → chunks_ st !! h ≫= block_of = None →
  (∀ k, chunks_ st' !! k ≫= block_of =
     if decide (k = h) then Some (p, sz, n, id) else chunks_ st !! k ≫= block_of) →
  held (chunks_ st') = <[p := (sz, n)]> (held (chunks_ st)).
Proof.
  intros HI HI' Hn Hb. apply map_eq. intros q. apply option_eq. intros [s r].
  rewrite lookup_insert_Some, (held_lookup _ _ _ _ _ _ HI), (held_lookup _ _ _ _ _ _ HI').
  assert (Hh : chunks_ st' !! h ≫= block_of = Some (p, sz, n, id)) by (rewrite Hb; by rewrite decide_True).
  split.
  - intros (k & i & Hk). pose proof Hk as Hk'. rewrite Hb in Hk'. case_decide as E; [subst; left; naive_solver|].
    right. split; [|eauto]. intros <-.
    destruct (block_live _ _ _ _ _ HI' Hk) as (c & Hc & _ & Ec), (block_live _ _ _ _ _ HI' Hh) as (c' & Hc' & _ & Ec').
    apply E, (live_ptr_inj st' F' P' _ _ c c'); congruence.
  - intros [[-> E]|(Hne & k & i & Hk)]; [injection E as <- <-; eauto|].
    exists k, i. rewrite Hb, decide_False; [done|]. congruence.
Qed.

Lemma held_free st st' F F' P P' h c :
  Inv st F P → Inv st' F' P' → live (chunks_ st) F h = Some c → in_use c = true →
  same_blocks (alter (set_allocation_id (-1)) h (chunks_ st)) (chunks_ st') →
  held (chunks_ st') = delete (c_ptr c) (held (chunks_ st)).
Proof.
  intros HI HI' Hc Hu Hb. apply map_eq. intros q. apply option_eq. intros [s r].
  rewrite lookup_delete_Some, (held_lookup _ _ _ _ _ _ HI), (held_lookup _ _ _ _ _ _ HI').
  assert (Hb' : ∀ k, chunks_ st' !! k ≫= block_of = if decide (k = h) then None else chunks_ st !! k ≫= block_of).
  { intros k. rewrite Hb, lookup_alter_dec. case_decide as E; [|done]. subst.
    rewrite (live_lookup _ _ _ _ Hc). done. }
  setoid_rewrite Hb'. split.
  - intros (k & i & Hk). case_decide as E; [done|]. split; [|eauto]. intros <-.
    destruct (block_live _ _ _ _ _ HI Hk) as (c' & Hc' & _ & Ec').
    apply E, (live_ptr_inj st F P _ _ c' c); congruence.
  - intros (Hne & k & i & Hk). exists k, i. case_decide as E; [|done]. subst.
    rewrite (live_lookup _ _ _ _ Hc) in Hk. simpl in Hk. unfold block_of in Hk. rewrite Hu in Hk. congruence.
Qed.

(** A held block is a chunk of a region, hence apart from the other blocks. *)
Lemma held_region st F P p s r :
  Inv st F P → held (chunks_ st) !! p = Some (s, r) →
  0 < p ∧ 0 < s ∧ ∃ b k, (b, k) ∈ spans (regions_ st) ∧ b ≤ p ∧ p + s ≤ b + k.
Proof.
  intros HI Hp. apply (held_lookup _ _ _ _ _ _ HI) in Hp as (h & id & Hh).
  destruct (block_live _ _ _ _ _ HI Hh) as (c & Hc & _ & E). injection E as -> -> _ _.
  destruct (live_bounds _ _ _ _ _ HI Hc) as (B1 & B2 & _).
  destruct (lay_in _ _ _ (inv_layout _ _ _ HI) _ _ (segs_live _ _ _ _ Hc)) as (b & k & Hb & H1 & H2 & _).
  split_and!; [lia..|]. exists b, k. done.
Qed.

Lemma held_apart st F P p s r q k r' :
  Inv st F P → held (chunks_ st) !! p = Some (s, r) → held (chunks_ st) !! q = Some (k, r') →
  p ≠ q → apart p s q k.
Proof.
  intros HI Hp Hq Hne.
  apply (held_lookup _ _ _ _ _ _ HI) in Hp as (h & id & Hh).
  apply (held_lookup _ _ _ _ _ _ HI) in Hq as (h' & id' & Hh').
  destruct (block_live _ _ _ _ _ HI Hh) as (c & Hc & _ & E), (block_live _ _ _ _ _ HI Hh') as (c' & Hc' & _ & E').
  injection E as -> -> _ _. injection E' as -> -> _ _.
  apply (lay_disj _ _ _ (inv_layout _ _ _ HI) _ (seg_of c) _ (seg_of c')
    (segs_live _ _ _ _ Hc) (segs_live _ _ _ _ Hc')). congruence.
Qed.

Lemma held_reserved_apart st p s r q k :
  ArenaOk st → held (chunks_ st) !! p = Some (s, r) → reserved_chunks_ st !! q = Some k →
  q ≠ nullptr → apart p s q k.
Proof.
  intros Hok Hp Hq Hq0. destruct (ok_heap _ Hok) as [F HI].
  destruct (held_region _ _ _ _ _ _ HI Hp) as (_ & _ & b & n & Hb & H1 & H2).
  destruct (ok_reserved _ Hok _ _ Hq Hq0) as (_ & _ & Hd). unfold apart.
  destruct (Hd b n Hb); lia.
Qed.

Lemma reserved_lookup st p s :
  reserved (view st) !! p = Some s ↔ p ≠ nullptr ∧ reserved_chunks_ st !! p = Some s.
Proof. simpl. rewrite lookup_delete_Some. naive_solver. Qed.

(** ** [Free] *)

Lemma get_handle_cases st F P p :
  Inv st F P →
  (∃ e, get_handle (regions_ st) p = Throw e) ∨ get_handle (regions_ st) p = Ok None ∨
  ∃ h c, get_handle (regions_ st) p = Ok (Some h) ∧ live (chunks_ st) F h = Some c ∧
    c_ptr c ≤ p < c_ptr c + 256.
Proof.
  intros HI. pose proof (inv_regions _ _ _ HI) as Hwf.
  destruct (decide (Exists (fun x => fst x ≤ p < fst x + snd x) (spans (regions_ st)))) as [He|Hne].
  2:{ left. apply get_handle_outside; [done|]. intros b k Hb Hp. apply Hne.
      apply Exists_exists. exists (b, k). done. }
  right. apply Exists_exists in He as ([b k] & Hb & Hp). simpl in Hp.
  rewrite (get_handle_ok _ p b k) by done.
  destruct (handle_of_slot _ p b k Hwf Hb Hp) as [Ha ->].
  destruct (handle_of _ _) as [h|] eqn:Eh; [right|by left].
  destruct (lay_hm_live _ _ _ (inv_layout _ _ _ HI) _ h Ha Eh) as (s & Hs & Es).
  apply segs_Some in Hs as (c & Hc & ->). exists h, c. split_and!; [done..| |]; simpl in Es; rewrite Es;
    pose proof (Z.div_mod (p - b) 256); pose proof (Z.mod_pos_bound (p - b) 256); lia.
Qed.

Lemma get_handle_chunk st F P h c :
  Inv st F P → live (chunks_ st) F h = Some c →
  get_handle (regions_ st) (c_ptr c) = Ok (Some h).
Proof.
  intros HI Hc. pose proof (segs_live _ _ _ _ Hc) as Hs.
  destruct (lay_in _ _ _ (inv_layout _ _ _ HI) _ _ Hs) as (b & k & Hb & H1 & H2 & _).
  destruct (lay_size _ _ _ (inv_layout _ _ _ HI) _ _ Hs) as [H3 _]. simpl in *.
  rewrite (get_handle_ok _ _ b k); [|apply HI|done|lia].
  by rewrite (lay_hm _ _ _ (inv_layout _ _ _ HI) _ _ Hs : handle_of _ (c_ptr c) = _).
Qed.

(** Freeing the chunk [h], in use. *)
Lemma free_chunk_ok st F h c :
  ArenaOk st → Inv st F [] → live (chunks_ st) F h = Some c → in_use c = true →
  ∃ st', FreeAndMaybeCoalesce st h = Ok st' ∧ ArenaOk st' ∧
    view st' = mkHeap (delete (c_ptr c) (blocks (view st))) (reserved (view st)) ∧
    bytes_in_use (stats_ st') = i64 (bytes_in_use (stats_ st) - c_size c) ∧
    device_allocator_ st' = device_allocator_ st.
Proof.
  intros Hok HI Hc Hu.
  destruct (FreeAndMaybeCoalesce_ok st F h c HI Hc Hu) as
    (st' & F' & HF & HI' & (E1 & E2 & E3 & E4 & E5 & E6 & E7 & E8) & Hb). simpl in *.
  exists st'. split_and!; [done| | | |done].
  - split; rewrite ?E1, ?E2, ?E4, ?E7, ?E8; try apply Hok.
    + eauto.
    + rewrite (in_use_bytes_same _ _ Hb), (in_use_bytes_alter _ _ c), Hu by (by eapply live_lookup).
      rewrite E6. simpl. rewrite (ok_bytes_in_use _ Hok), i64_add_l. f_equal. lia.
    + rewrite E6. apply Hok.
  - unfold view. rewrite E7. simpl. f_equal. by eapply held_free.
  - rewrite E6. done.
Qed.

Lemma Free_held_ok st p s r :
  ArenaOk st → held (chunks_ st) !! p = Some (s, r) → 
  ∃ st', Free st p = Ok st' ∧ ArenaOk st' ∧
    view st' = mkHeap (delete p (blocks (view st))) (reserved (view st)) ∧
    bytes_in_use (stats_ st') = i64 (bytes_in_use (stats_ st) - s).
Proof.
  intros Hok Hp. destruct (ok_heap _ Hok) as [F HI].
  destruct (held_region _ _ _ _ _ _ HI Hp) as (Hp0 & Hs0 & _). unfold Free.
  rewrite (proj2 (Z.eqb_neq _ _)) by (unfold nullptr; lia).
  destruct (reserved_chunks_ st !! p) as [k|] eqn:Er.
  { destruct (ok_reserved _ Hok p k Er) as (Hk & _); [unfold nullptr; lia|].
    destruct (held_reserved_apart st p s r p k); try done; unfold nullptr; lia. }
  apply (held_lookup _ _ _ _ _ _ HI) in Hp as (h & id & Hh).
  destruct (block_live _ _ _ _ _ HI Hh) as (c & Hc & Hu & E). injection E as -> -> _ _.
  unfold DeallocateRawInternal. rewrite (get_handle_chunk _ _ _ _ _ HI Hc). simpl.
  destruct (free_chunk_ok st F h c Hok HI Hc Hu) as (st' & HF & Hok' & Hv & Hbu & _). eauto 10.
Qed.

Lemma Free_reserved_ok st p s :
  ArenaOk st → reserved_chunks_ st !! p = Some s → p ≠ nullptr →
  ∃ st', Free st p = Ok st' ∧ ArenaOk st' ∧
    view st' = mkHeap (blocks (view st)) (delete p (reserved (view st))) ∧
    bytes_in_use (stats_ st') = i64 (bytes_in_use (stats_ st) - s).
Proof.
  intros Hok Hp Hp0. unfold Free. rewrite (proj2 (Z.eqb_neq _ _)), Hp by done.
  eexists. split; [done|]. destruct (ok_reserved _ Hok _ _ Hp Hp0) as (Hs & Hpd & Hps).
  split_and!; [|unfold view; simpl; by rewrite delete_delete|done].
  destruct (ok_heap _ Hok) as [F HI]. split; simpl; try apply Hok.
  - exists F. by destruct HI.
  - intros b k Hb. apply dev_Free_spec. split; [by apply (ok_spans _ Hok)|]. intros ->.
    apply elem_of_spans in Hb as Hb'. destruct Hb' as (i & r & Hi & Hr1 & Hr2).
    destruct (regions_wf_lookup _ _ _ (inv_regions _ _ _ HI) Hi) as (_ & ? & _).
    destruct (Hps p k Hb); lia.
  - intros q k [Hqp Hq]%lookup_delete_Some Hq0.
    destruct (ok_reserved _ Hok _ _ Hq Hq0) as (? & ? & ?). split_and!; try done.
    apply dev_Free_spec. split; [done|congruence].
  - intros q k q' k' [_ Hq]%lookup_delete_Some [_ Hq']%lookup_delete_Some. by apply (ok_reserved_disj _ Hok).
  - rewrite (ok_bytes_in_use _ Hok), (reserved_bytes_delete _ _ _ Hp), <- Z.add_opp_r, i64_add_l. f_equal. lia.
  - rewrite (ok_total _ Hok), (reserved_bytes_delete _ _ _ Hp), <- Z.add_opp_r, i64_add_l. f_equal. lia.
Qed.

(** ** [Reserve] *)

Lemma dev_fresh st p s :
  ArenaOk st → (∀ b k, (b, k) ∈ dev_blocks (device_allocator_ st) → p + s ≤ b ∨ b + k ≤ p) →
  (∀ b k, (b, k) ∈ spans (regions_ st) → apart p s b k) ∧
  (∀ q k, reserved_chunks_ st !! q = Some k → q ≠ nullptr → apart p s q k) ∧
  fresh_block (view st) p s.
Proof.
  intros Hok Hd. destruct (ok_heap _ Hok) as [F HI].
  assert (Hsp : ∀ b k, (b, k) ∈ spans (regions_ st) → apart p s b k).
  { intros b k Hb. by apply Hd, (ok_spans _ Hok). }
  assert (Hre : ∀ q k, reserved_chunks_ st !! q = Some k → q ≠ nullptr → apart p s q k).
  { intros q k Hq Hq0. by apply Hd, (ok_reserved _ Hok). }
  split_and!; [done..|]. split.
  - intros q k r Hq. destruct (held_region _ _ _ _ _ _ HI Hq) as (_ & _ & b & n & Hb & ? & ?).
    specialize (Hsp b n Hb). unfold apart in *. lia.
  - intros q k [? ?]%reserved_lookup. by apply Hre.
Qed.

Definition reserved_stats (s : AllocatorStats) (size : Z) : AllocatorStats :=
  mkStats (num_allocs s + 1) (i64 (bytes_in_use s + size)) (i64 (total_allocated_bytes s + size))
    (i64 (Z.max (u64 (max_bytes_in_use s)) (u64 (i64 (bytes_in_use s + size)))))
    (i64 (Z.max (u64 (max_alloc_size s)) size)) (bytes_limit s).

Lemma Reserve_ok st n :
  ArenaOk st → 0 < n < 2 ^ 64 →
  match Reserve st n with
  | Ok (p, st') => ArenaOk st' ∧ stats_ st' = reserved_stats (stats_ st) n ∧
      ((p = nullptr ∧ view st' = view st) ∨
       (0 < p ∧ fresh_block (view st) p n ∧
        view st' = mkHeap (blocks (view st)) (<[p := n]> (reserved (view st)))))
  | Throw _ => is_Some (reserved_chunks_ st !! nullptr) ∧
      fst (dev_Alloc (device_allocator_ st) n) = nullptr
  | OutOfFuel => False
  end.
Proof.
  intros Hok Hn. unfold Reserve. rewrite (proj2 (Z.eqb_neq _ _)) by lia.
  destruct (dev_Alloc _ n) as [p d] eqn:Ea. simpl.
  destruct (ok_heap _ Hok) as [F HI].
  assert (HI' : ∀ m s, Inv (with_stats (with_reserved (with_device st (started_backpedal_ st) d) m) s) F [])
    by (intros; by destruct HI).
  destruct (dev_Alloc_spec (device_allocator_ st) n p d) as [[-> Hd]|(Hp & Hpn & H39 & Hdis & Hd)]; [lia|done|..].
  - case_bool_decide as Er; simpl; [|split; [by apply not_eq_None_Some|done]].
    split_and!; [|done|left; split; [done|]; unfold view; simpl; by rewrite delete_insert_eq].
    split; simpl; rewrite ?Hd; try apply Hok; [eauto|..].
    + intros q s Hq Hq0. rewrite lookup_insert_ne in Hq by done. by apply (ok_reserved _ Hok).
    + intros q s q' s' Hq Hq' Hq0 Hq0'. rewrite lookup_insert_ne in Hq, Hq' by done.
      by apply (ok_reserved_disj _ Hok).
    + rewrite (reserved_bytes_insert _ _ _ Er), (ok_bytes_in_use _ Hok), i64_add_l. f_equal. lia.
    + rewrite (reserved_bytes_insert _ _ _ Er), (ok_total _ Hok), i64_add_l. f_equal. lia.
  - destruct (dev_fresh st p n Hok Hdis) as (Hsp & Hre & Hfr).
    assert (Er : reserved_chunks_ st !! p = None).
    { apply eq_None_not_Some. intros [s Hs].
      assert (p ≠ nullptr) as Hp0 by (unfold nullptr; lia).
      destruct (ok_reserved _ Hok p s Hs Hp0) as (? & _). destruct (Hre p s Hs Hp0); lia. }
    rewrite bool_decide_true by done. simpl. split_and!; [|done|].
    + split; simpl; rewrite ?Hd; try apply Hok; [eauto|..].
      * intros b k Hb. right. by apply (ok_spans _ Hok).
      * intros q s [[<- <-]|[Hne Hq]]%lookup_insert_Some Hq0; [split_and!; [lia|by left|done]|].
        destruct (ok_reserved _ Hok q s Hq Hq0) as (? & ? & ?). split_and!; [done|by right|done].
      * intros q s q' s' [[<- <-]|[Hne Hq]]%lookup_insert_Some [[<- <-]|[Hne' Hq']]%lookup_insert_Some Hq0 Hq0' Hqq.
        -- done.
        -- by apply Hre.
        -- destruct (Hre q s Hq Hq0); auto.
        -- by eapply (ok_reserved_disj _ Hok).
      * rewrite (reserved_bytes_insert _ _ _ Er), (ok_bytes_in_use _ Hok), i64_add_l. f_equal. lia.
      * rewrite (reserved_bytes_insert _ _ _ Er), (ok_total _ Hok), i64_add_l. f_equal. lia.
    + right. split_and!; [done|done|]. unfold view; simpl. f_equal.
      rewrite delete_insert_ne; [done|unfold nullptr; lia].
Qed.

(** ** The constructor *)

Lemma make_bins_ok :
  make_bins (Z.to_nat kNumBins) 0 = Ok ((fun b => mkBin (BinNumToSize b) []) <$> seqZ 0 kNumBins).
Proof. vm_compute. reflexivity. Qed.

Lemma empty_bins_ok lv P :
  (∀ h, lv h = None) → BinsOk ((fun b => mkBin (BinNumToSize b) []) <$> seqZ 0 kNumBins) lv P.
Proof.
  intros Hlv. split; try done; try (intros; congruence).
  - intros i b h (x & -> & Hx)%list_lookup_fmap_Some Hh. by apply not_elem_of_nil in Hh.
  - intros i b (x & -> & Hx)%list_lookup_fmap_Some. constructor.
Qed.

Lemma new_BFCArena_ok d limit :
  0 ≤ limit < 2 ^ 64 → ∃ st, new_BFCArena d limit = Ok st ∧ ArenaOk st ∧
    view st = mkHeap ∅ ∅ ∧ memory_limit_ st = limit ∧ device_allocator_ st = d.
Proof.
  intros Hl. unfold new_BFCArena.
  destruct (RoundedBytes_value (Z.min limit 1048576)) as (r & -> & Hr & Hm & _); [lia|].
  cbn [mbind res_bind]. rewrite make_bins_ok. cbn [mbind res_bind]. eexists. split; [done|].
  split_and!; try done.
  split; simpl; try done; try (intros; set_solver).
  exists []. split; simpl; try done.
  - split; [constructor|constructor].
  - split; intros; simplify_eq; set_solver.
  - constructor.
  - apply empty_bins_ok. done.
Qed.

(** ** Steps *)

Lemma alloc_grants_view st st' n p :
  ArenaOk st → ArenaOk st' → alloc_grants st st' n p →
  ∃ sz, n ≤ sz ∧ 0 < p ∧ fresh_block (view st) p sz ∧
    view st' = mkHeap (<[p := (sz, n)]> (blocks (view st))) (reserved (view st)).
Proof.
  intros Hok Hok' (h & sz & Hn & Hp & Hh & Hres & _ & Hb).
  destruct (ok_heap _ Hok) as [F HI], (ok_heap _ Hok') as [F' HI'].
  pose proof (held_grant _ _ _ _ _ _ _ _ _ _ _ HI HI' Hh Hb) as Hg.
  exists sz. split_and!; [done..| |unfold view; by rewrite Hg, Hres].
  assert (Hnew : held (chunks_ st') !! p = Some (sz, n)) by (rewrite Hg; apply lookup_insert_eq).
  split.
  - intros q k r Hq. destruct (decide (p = q)) as [<-|Hne].
    + exfalso. simpl in Hq. apply (held_lookup _ _ _ _ _ _ HI) in Hq as (k' & id & Hk).
      assert (k' ≠ h) by congruence.
      assert (Hk' : chunks_ st' !! k' ≫= block_of = Some (p, k, r, id)) by (rewrite Hb; by rewrite decide_False).
      assert (Hhh : chunks_ st' !! h ≫= block_of = Some (p, sz, n, next_allocation_id_ st))
        by (rewrite Hb; by rewrite decide_True).
      destruct (block_live _ _ _ _ _ HI' Hk') as (c & Hc & _ & E), (block_live _ _ _ _ _ HI' Hhh) as (c' & Hc' & _ & E').
      assert (k' = h); [|done]. apply (live_ptr_inj st' F' [] _ _ c c'); congruence.
    + eapply (held_apart st' F'); [done..| |done].
      by rewrite Hg, lookup_insert_ne.
  - intros q k [Hq0 Hq]%reserved_lookup.
    eapply (held_reserved_apart st'); [done..| |done]. by rewrite Hres.
Qed.

Lemma arena_step_sim st o st' :
  ArenaOk st → arena_step st o st' → ArenaOk st' ∧ heap_step (view st) o (view st').
Proof.
  intros Hok Hs. destruct Hs as [fuel n p st' Hn HA|p st' HF|n p st' Hn HR].
  - destruct (decide (n = 0)) as [->|].
    { injection HA as <- <-. split; [done|constructor]. }
    pose proof (Alloc_ok fuel st n Hok ltac:(lia)) as H1. rewrite HA in H1. destruct H1 as [Hok' [[-> Hf]|Hg]].
    + split; [done|]. destruct Hf as (Hb & Hr & _).
      destruct (ok_heap _ Hok) as [F HI], (ok_heap _ Hok') as [F' HI'].
      unfold view. rewrite Hr, (held_same _ _ _ _ _ _ HI HI' Hb). constructor.
    + split; [done|]. destruct (alloc_grants_view _ _ _ _ Hok Hok' Hg) as (sz & ? & ? & ? & ->).
      constructor; try done. lia.
  - destruct (decide (p = nullptr)) as [->|Hp0].
    { injection HF as <-. split; [done|constructor]. }
    destruct (reserved_chunks_ st !! p) as [s|] eqn:Er.
    { destruct (Free_reserved_ok st p s Hok Er Hp0) as (st1 & HF1 & Hok1 & Hv & _).
      rewrite HF in HF1. injection HF1 as <-. split; [done|]. rewrite Hv.
      apply (heap_free_reserved _ _ s). by apply reserved_lookup. }
    unfold Free in HF. rewrite (proj2 (Z.eqb_neq _ _)), Er in HF by done. unfold DeallocateRawInternal in HF.
    destruct (ok_heap _ Hok) as [F HI].
    destruct (get_handle_cases st F [] p HI) as [[e E]|[E|(h & c & E & Hc & Hp)]]; rewrite E in HF; [done..|].
    simpl in HF. destruct (in_use c) eqn:Hu.
    + destruct (free_chunk_ok st F h c Hok HI Hc Hu) as (st1 & HF1 & Hok1 & Hv & _).
      rewrite HF in HF1. injection HF1 as <-. split; [done|]. rewrite Hv.
      apply (heap_free _ _ (c_ptr c) (c_size c) (c_requested_size c)); [|done|].
      * simpl. apply (held_lookup _ _ _ _ _ _ HI). exists h, (c_allocation_id c).
        rewrite (live_lookup _ _ _ _ Hc). simpl. unfold block_of. by rewrite Hu.
      * simpl. rewrite lookup_delete_ne by done. done.
    + unfold FreeAndMaybeCoalesce in HF. rewrite (ChunkFromHandle_ok _ _ _ _ Hc) in HF. simpl in HF.
      by rewrite Hu in HF.
  - destruct (decide (n = 0)) as [->|].
    { injection HR as <- <-. split; [done|constructor]. }
    pose proof (Reserve_ok st n Hok ltac:(lia)) as H1. rewrite HR in H1. destruct H1 as (Hok' & _ & Hc).
    split; [done|]. destruct Hc as [[-> ->]|(Hp & Hf & ->)]; constructor; done || lia.
Qed.

Lemma reachable_ok d limit st :
  0 ≤ limit < 2 ^ 64 → reachable d limit st → ArenaOk st.
Proof.
  intros Hl Hr. induction Hr as [st HN|st o st' _ IH Hs].
  - destruct (new_BFCArena_ok d limit Hl) as (st' & HN' & Hok & _). congruence.
  - by destruct (arena_step_sim _ _ _ IH Hs).
Qed.
End client.
