(* ===== verification/BfcArenaProps.v ===== *)
(** The theorems about [BFCArena]: safety of the blocks it hands out, exactness
    of [Free], coalescing, best fit, accounting, termination of [Extend], and
    the boundary cases in which the code does not do what it means to.  The two
    devices at the start are the concrete instances the examples run on. *)
From S2P Require Import Prelude BfcArena BfcLayout BfcRegions BfcBins BfcArenaInv BfcArenaAlloc BfcArenaSpec BfcArenaClient.

(** ** Two devices *)

(** Hands out increasing addresses below a capacity. *)
Record BumpDevice := mkBump { bump_next : Z; bump_capacity : Z; bump_live : list (Z * Z) }.
#[export] Instance bump_device : DeviceAllocator BumpDevice := {
  dev_Alloc d n :=
    if (0 <? n) && (n <? 2 ^ 39) && (0 <? bump_next d) && (bump_next d + n <=? bump_capacity d) &&
       (bump_capacity d <? 2 ^ 64) &&
       forallb (fun x => fst x + snd x <=? bump_next d) (bump_live d)
    then (bump_next d, mkBump (bump_next d + n) (bump_capacity d) ((bump_next d, n) :: bump_live d))
    else (nullptr, d);
  dev_Free d p := mkBump (bump_next d) (bump_capacity d) (filter (fun x => fst x ≠ p) (bump_live d));
}.
#[export] Program Instance bump_laws : DeviceLaws BumpDevice := { dev_blocks := bump_live }.
Next Obligation.
  intros d n p d' Hn. simpl. destruct (_ && _) eqn:E; intros ?; simplify_eq; [right|by left].
  rewrite !andb_true_iff, !Z.ltb_lt, !Z.leb_le, forallb_forall in E. destruct_and!.
  split_and!; try done; try lia. intros b k Hb. right.
  match goal with H : ∀ x, In x _ → _ |- _ => specialize (H (b, k)) end.
  rewrite Z.leb_le in *. simpl in *. apply H0. by apply list_elem_of_In.
Qed.
Next Obligation. intros d p b k. simpl. rewrite list_elem_of_filter. simpl. tauto. Qed.

(** Refuses every request. *)
Record DeadDevice := mkDead {}.
#[export] Instance dead_device : DeviceAllocator DeadDevice := {
  dev_Alloc d _ := (nullptr, d);
  dev_Free d _ := d;
}.

Definition demo_device : BumpDevice := mkBump 4096 (2 ^ 40) [].
Definition demo_arena : res (Arena BumpDevice) := new_BFCArena demo_device (2 ^ 30).

(** ** Heaps *)

(** Blocks and reserved blocks of a heap are pairwise apart and as large as
    requested. *)
Record heap_ok (H : Heap) : Prop := {
  heap_sizes : ∀ p s n, blocks H !! p = Some (s, n) → 0 < n ≤ s;
  heap_blocks_apart : ∀ p s n q k m, blocks H !! p = Some (s, n) → blocks H !! q = Some (k, m) →
    p ≠ q → apart p s q k;
  heap_mixed_apart : ∀ p s n q k, blocks H !! p = Some (s, n) → reserved H !! q = Some k →
    apart p s q k;
  heap_reserved_apart : ∀ p s q k, reserved H !! p = Some s → reserved H !! q = Some k →
    p ≠ q → apart p s q k;
}.

Lemma apart_sym p s q k : apart p s q k → apart q k p s.
Proof. unfold apart. lia. Qed.

Lemma heap_step_ok H o H' : heap_ok H → heap_step H o H' → heap_ok H'.
Proof.
  intros [H1 H2 H3 H4] Hs.
  destruct Hs as [n|n p sz Hn Hp [F1 F2]| |p q sz n Hq Hpq|p sz Hp|n|n p Hn Hp [F1 F2]]; [by split| |by split|..|by split|].
  - split; simpl; intros *; rewrite ?lookup_insert_Some; intros; destruct_or?; destruct_and?; simplify_eq; eauto using apart_sym.
  - split; simpl; intros *; rewrite ?lookup_delete_Some; intros; destruct_and?; eauto.
  - split; simpl; intros *; rewrite ?lookup_delete_Some; intros; destruct_and?; eauto.
  - split; simpl; intros *; rewrite ?lookup_insert_Some; intros; destruct_or?; destruct_and?; simplify_eq; eauto using apart_sym.
Qed.

Lemma multiple_bound r n m :
  r mod 256 = 0 → m mod 256 = 0 → n ≤ m → r < n + 256 → r ≤ m.
Proof.
  intros Hr Hm Hn Hlt. pose proof (Z.div_mod r 256). pose proof (Z.div_mod m 256). lia.
Qed.
Lemma rounded_le_2_63 r n : r mod 256 = 0 → r < n + 256 → n ≤ 2 ^ 63 → r ≤ 2 ^ 63.
Proof. intros. by apply (multiple_bound r n). Qed.
Lemma rounded_above_2560 r n : r mod 256 = 0 → n ≤ r → 2560 < n → 2816 ≤ r.
Proof. intros Hr. pose proof (Z.div_mod r 256). lia. Qed.

Section props.
Context {D : Type} `{DeviceLaws D}.
Implicit Types (st : Arena D).

Lemma reachable_heap_ok d limit st :
  0 ≤ limit < 2 ^ 64 → reachable d limit st → heap_ok (view st).
Proof.
  intros Hl Hr. induction Hr as [st HN|st o st' Hr IH Hs].
  - destruct (new_BFCArena_ok d limit Hl) as (st' & HN' & _ & Hv & _).
    replace st with st' by congruence. rewrite Hv.
    split; simpl; intros *; rewrite ?lookup_empty; done.
  - eapply heap_step_ok; [exact IH|]. eapply arena_step_sim; [by eapply reachable_ok|done].
Qed.

(** C1. On a device that hands out blocks below 512 GiB, every [Alloc] of at most
    2^64 - 256 bytes, every [Reserve] and every [Free] that a reachable arena
    answers is a step of the abstract heap: the block is fresh and large enough,
    or nothing changes; [Free] takes exactly one block away.  Larger requests
    ([Alloc_SIZE_MAX_overlaps]) and larger regions ([large_region_undefined])
    are outside, since the code does not keep them apart. *)
Theorem arena_refines_heap d limit st o st' :
  0 ≤ limit < 2 ^ 64 → reachable d limit st → arena_step st o st' →
  heap_step (view st) o (view st').
Proof. intros Hl Hr Hs. eapply arena_step_sim; [by eapply reachable_ok|done]. Qed.

(** C21. In every arena that is reached by [Alloc] of at most 2^64 - 256 bytes,
    [Reserve] and [Free] on a device that hands out blocks below 512 GiB, the
    blocks that clients hold, reserved ones included, are pairwise disjoint and
    at least as large as requested, and each lies inside a block that the
    device has granted. *)
Theorem arena_blocks_safe d limit st :
  0 ≤ limit < 2 ^ 64 → reachable d limit st →
  heap_ok (view st) ∧
  (∀ p s n, blocks (view st) !! p = Some (s, n) →
     ∃ b k, (b, k) ∈ dev_blocks (device_allocator_ st) ∧ b ≤ p ∧ p + s ≤ b + k).
Proof.
  intros Hl Hr. split; [by eapply reachable_heap_ok|]. pose proof (reachable_ok _ _ _ Hl Hr) as Hok.
  destruct (ok_heap _ Hok) as [F HI]. intros p s n Hp.
  destruct (held_region _ _ _ _ _ _ HI Hp) as (_ & _ & b & k & Hb & H1 & H2).
  exists b, k. split; [|done]. by apply (ok_spans _ Hok).
Qed.

(** The chunk structure of a reachable arena: an address of a region lies in
    exactly one chunk, a chunk ends where its successor starts and the two are
    not both free, and a free chunk is in the bin for its size. *)
Theorem arena_tiling d limit st :
  0 ≤ limit < 2 ^ 64 → reachable d limit st →
  ∃ F, let lv := live (chunks_ st) F in
  (∀ b k a, (b, k) ∈ spans (regions_ st) → b ≤ a < b + k →
     ∃ h c, lv h = Some c ∧ c_ptr c ≤ a < c_ptr c + c_size c ∧
       ∀ h' c', lv h' = Some c' → c_ptr c' ≤ a < c_ptr c' + c_size c' → h' = h) ∧
  (∀ h c n c', lv h = Some c → c_next c = Some n → lv n = Some c' →
     c_ptr c' = c_ptr c + c_size c ∧ (in_use c = true ∨ in_use c' = true)) ∧
  (∀ h c, lv h = Some c → in_use c = false →
     ∃ b, bins_ st !! Z.to_nat (BinNumForSize (c_size c)) = Some b ∧ h ∈ free_chunks b).
Proof.
  intros Hl Hr. destruct (ok_heap _ (reachable_ok _ _ _ Hl Hr)) as [F HI].
  pose proof (inv_layout _ _ _ HI) as HL. exists F. cbv zeta. split_and!.
  - intros b k a Hb Ha. destruct (lay_cover _ _ _ HL b k a Hb Ha) as (h & s & Hs & Hin).
    pose proof Hs as (c & Hc & ->)%segs_Some. exists h, c. split_and!; [done|simpl in *; lia..|].
    intros h' c' Hc' Hin'. destruct (decide (h' = h)) as [|Hne]; [done|].
    destruct (lay_disj _ _ _ HL _ _ _ _ (segs_live _ _ _ _ Hc') (segs_live _ _ _ _ Hc) Hne); simpl in *; lia.
  - intros h c n c' Hc Hn Hc'. split.
    + destruct (lay_next _ _ _ HL _ _ n (segs_live _ _ _ _ Hc) Hn) as (s & _ & _ & Hs & _ & E & _).
      rewrite (segs_live _ _ _ _ Hc') in Hs. injection Hs as <-. exact E.
    + destruct (inv_coalesced _ _ _ HI h c n c') as [?|[?|[?|?]]]; auto; by apply not_elem_of_nil in H0.
  - intros h c Hc Hu. apply (bins_complete _ _ _ (inv_bins _ _ _ HI)); [done..|apply not_elem_of_nil].
Qed.

(** [Alloc] returns, with a fresh block of at least the requested size or with
    the null pointer. *)
Theorem Alloc_returns fuel st n :
  ArenaOk st → 0 < n ≤ 2 ^ 63 → 0 < curr_region_allocation_bytes_ st →
  (2560 < n ∨ started_backpedal_ st = true) → (400 < fuel)%nat →
  ∃ p st', Alloc fuel st n = Ok (p, st') ∧ ArenaOk st' ∧
    ((p = nullptr ∧ view st' = view st) ∨
     ∃ sz, n ≤ sz ∧ 0 < p ∧ fresh_block (view st) p sz ∧
       view st' = mkHeap (<[p := (sz, n)]> (blocks (view st))) (reserved (view st))).
Proof.
  intros Hok Hn Hc Hor Hf. pose proof (Alloc_ok fuel st n Hok ltac:(lia)) as HA.
  destruct (Alloc fuel st n) as [[p st']|e|] eqn:EA; [|done|].
  - exists p, st'. destruct HA as [Hok' HA]. split_and!; [done..|]. destruct HA as [[-> Hfl]|Hg].
    + left. split; [done|]. destruct Hfl as (Hb & Hr & _).
      destruct (ok_heap _ Hok) as [F HI], (ok_heap _ Hok') as [F' HI'].
      unfold view. by rewrite Hr, (held_same _ _ _ _ _ _ HI HI' Hb).
    + right. by apply alloc_grants_view.
  - exfalso. revert EA. unfold Alloc, AllocateRawInternal. rewrite (proj2 (Z.eqb_neq _ _)) by lia.
    destruct (RoundedBytes_up n ltac:(lia)) as (r & -> & Hr & Hm & Hr64). cbn [mbind res_bind].
    destruct (ok_heap _ Hok) as [F HI].
    destruct (FindChunkPtr_ok st F r n HI Hr64 Hm) as [[-> _]|(h & c & st' & F' & sz & -> & Hh & _)]; cbn [mbind res_bind].
    2:{ destruct (live_bounds _ _ _ _ _ HI Hh) as (Hp & _).
        rewrite (proj2 (Z.eqb_neq _ _)) by (unfold nullptr; lia). done. }
    simpl.
    destruct (Extend_total fuel st r Hok Hr64 Hm) as [[b st1] HE]; [|done|].
    { split_and!; [done|apply (rounded_le_2_63 r n); done || lia|]. destruct Hor as [Hor|]; [left|by right].
      apply (rounded_above_2560 r n); done || lia. }
    pose proof (Extend_ok fuel st r Hok Hr64 Hm) as HEo. rewrite HE in *. simpl.
    destruct b; [|done]. destruct HEo as (Hok1 & _ & _ & _ & _ & _ & _ & F1 & h1 & c1 & HI1 & _).
    destruct (FindChunkPtr_ok st1 F1 r n HI1 Hr64 Hm) as [[-> _]|(h & c & st' & F' & sz & -> & _)]; done.
Qed.

(** [Free] of a block that is held succeeds, takes exactly this block off the
    heap and its size off the accounts. *)
Theorem Free_exact st p s n :
  ArenaOk st → blocks (view st) !! p = Some (s, n) →
  ∃ st', Free st p = Ok st' ∧ ArenaOk st' ∧
    view st' = mkHeap (delete p (blocks (view st))) (reserved (view st)) ∧
    bytes_in_use (stats_ st') = i64 (bytes_in_use (stats_ st) - s).
Proof. intros Hok Hp. by eapply Free_held_ok. Qed.

Lemma held_size_256 st F P q k n :
  Inv st F P → held (chunks_ st) !! q = Some (k, n) → 256 ≤ k.
Proof.
  intros HI (h & id & Hh)%(held_lookup _ _ _ _ _ _ HI).
  destruct (block_live _ _ _ _ _ HI Hh) as (c & Hc & _ & E). injection E as -> -> _ _.
  destruct (live_bounds _ _ _ _ _ HI Hc) as (_ & Hs & Hm & _). pose proof (Z.div_mod (c_size c) 256). lia.
Qed.

Lemma Free_not_held st p :
  ArenaOk st → p ≠ nullptr → reserved (view st) !! p = None →
  (∀ q s n, blocks (view st) !! q = Some (s, n) → ¬ q ≤ p < q + 256) →
  ∃ e, Free st p = Throw e.
Proof.
  intros Hok Hp0 Hr Hb. destruct (ok_heap _ Hok) as [F HI]. unfold Free.
  rewrite (proj2 (Z.eqb_neq _ _)) by done. simpl in Hr. rewrite lookup_delete_ne in Hr by done. rewrite Hr.
  unfold DeallocateRawInternal.
  destruct (get_handle_cases st F [] p HI) as [[e ->]|[->|(h & c & -> & Hc & Hp)]]; simpl; eauto.
  unfold FreeAndMaybeCoalesce. rewrite (ChunkFromHandle_ok _ _ _ _ Hc). simpl.
  destruct (in_use c) eqn:Hu; simpl; [|eauto].
  destruct (Hb (c_ptr c) (c_size c) (c_requested_size c)); [|done]. simpl.
  apply (held_lookup _ _ _ _ _ _ HI). exists h, (c_allocation_id c).
  rewrite (live_lookup _ _ _ _ Hc). simpl. unfold block_of. by rewrite Hu.
Qed.

(** A pointer that is no reserved block and not within the first 256 bytes of a
    held block is rejected. *)
Theorem Free_invalid_throws st p :
  ArenaOk st → p ≠ nullptr → reserved (view st) !! p = None →
  (∀ q s n, blocks (view st) !! q = Some (s, n) → ¬ q ≤ p < q + 256) →
  ∃ e, Free st p = Throw e.
Proof. apply Free_not_held. Qed.

(** The second [Free] of a pointer is rejected. *)
Theorem double_free_throws st p s n :
  ArenaOk st → blocks (view st) !! p = Some (s, n) →
  ∃ st' e, Free st p = Ok st' ∧ Free st' p = Throw e.
Proof.
  intros Hok Hp. destruct (Free_held_ok st p s n Hok Hp) as (st' & HF & Hok' & Hv & _).
  destruct (ok_heap _ Hok) as [F HI]. destruct (held_region _ _ _ _ _ _ HI Hp) as (Hp0 & Hs & _).
  destruct (Free_not_held st' p Hok') as [e He]; [unfold nullptr; lia|..]; [| |eauto].
  - rewrite Hv. simpl. apply eq_None_not_Some. intros [k [Hk0 Hk]%lookup_delete_Some].
    destruct (ok_reserved _ Hok p k Hk ltac:(done)) as (Hk1 & _).
    destruct (held_reserved_apart st p s n p k Hok Hp Hk ltac:(done)); lia.
  - rewrite Hv. simpl. intros q k m [Hne Hq]%lookup_delete_Some Hqp.
    pose proof (held_size_256 _ _ _ _ _ _ HI Hq).
    destruct (held_apart _ _ _ _ _ _ _ _ _ HI Hp Hq Hne); lia.
Qed.

(** Freeing what was just allocated restores the heap and the bytes in use. *)
Theorem Alloc_Free_roundtrip fuel st n p st1 :
  ArenaOk st → 0 < n ≤ 2 ^ 64 - 256 → Alloc fuel st n = Ok (p, st1) → p ≠ nullptr →
  ∃ st2, Free st1 p = Ok st2 ∧ ArenaOk st2 ∧ view st2 = view st ∧
    bytes_in_use (stats_ st2) = bytes_in_use (stats_ st).
Proof.
  intros Hok Hn HA Hp. pose proof (Alloc_ok fuel st n Hok Hn) as H1. rewrite HA in H1.
  destruct H1 as [Hok1 [[-> _]|Hg]]; [done|].
  destruct (alloc_grants_view _ _ _ _ Hok Hok1 Hg) as (sz & Hsz & Hp0 & [Hf1 Hf2] & Hv).
  destruct (ok_heap _ Hok) as [F HI], (ok_heap _ Hok1) as [F1 HI1].
  destruct Hg as (h & sz' & _ & _ & Hh & _ & Hbu & Hb).
  pose proof (held_grant _ _ _ _ _ _ _ _ _ _ _ HI HI1 Hh Hb) as Hheld.
  assert (Hheld1 : held (chunks_ st1) !! p = Some (sz', n)) by (rewrite Hheld; apply lookup_insert_eq).
  destruct (Free_held_ok st1 p sz' n Hok1 Hheld1) as (st2 & HF & Hok2 & Hv2 & Hb2).
  exists st2. split_and!; [done..| |].
  - rewrite Hv2, Hv. simpl. unfold view. f_equal. rewrite delete_insert_id; [done|].
    apply eq_None_not_Some. intros [[k m] Hk]. pose proof (held_size_256 _ _ _ _ _ _ HI Hk).
    destruct (Hf1 p k m Hk); lia.
  - rewrite Hb2, Hbu, <- Z.add_opp_r, i64_add_l, Z.add_opp_r, Z.add_simpl_r.
    rewrite (ok_bytes_in_use _ Hok). unfold i64. pose proof (Z.mod_pos_bound (in_use_bytes (chunks_ st) + reserved_bytes (reserved_chunks_ st) + 2 ^ 63) (2 ^ 64)).
    rewrite Z.sub_add, Z.mod_mod by lia. done.
Qed.

Lemma inside_cover st F P c b k b' k' :
  Inv st F P → (b, k) ∈ spans (regions_ st) → (b', k') ∈ spans (regions_ st) →
  inside b' k' (seg_of c) → c_ptr c ≤ b < c_ptr c + c_size c → 0 < k → b' = b ∧ k' = k.
Proof.
  intros HI Hb Hb' (H1 & H2 & _) Hin Hk.
  destruct (regions_spans_disjoint _ (inv_regions _ _ _ HI) b k b' k' b) as [-> ->]; simpl in *; done || lia.
Qed.

(** A region all of whose chunks are free is one chunk. *)
Lemma free_region_single st F b k :
  Inv st F [] → (∀ h c, live (chunks_ st) F h = Some c → in_use c = false) →
  (b, k) ∈ spans (regions_ st) →
  ∃ h c, live (chunks_ st) F h = Some c ∧ c_ptr c = b ∧ c_size c = k.
Proof.
  intros HI Hfree Hb. pose proof (inv_layout _ _ _ HI) as HL.
  pose proof Hb as (i & r & Hi & Hrb & Hrk)%elem_of_spans.
  destruct (regions_wf_lookup _ _ _ (inv_regions _ _ _ HI) Hi) as (_ & Hk & _).
  destruct (lay_cover _ _ _ HL b k b Hb) as (h & s & Hs & Hin); [lia|].
  pose proof Hs as (c & Hc & ->)%segs_Some. exists h, c. split; [done|].
  destruct (lay_in _ _ _ HL _ _ Hs) as (b1 & k1 & Hb1 & Hi1).
  destruct (inside_cover st F [] c b k b1 k1) as [-> ->]; try done; [lia|].
  assert (Hptr : c_ptr c = b) by (destruct Hi1; simpl in *; lia). split; [done|].
  destruct (c_next c) as [n|] eqn:En.
  - exfalso. destruct (lay_next _ _ _ HL _ _ n Hs En) as (s' & _ & _ & Hs' & _).
    apply segs_Some in Hs' as (c' & Hc' & ->).
    destruct (inv_coalesced _ _ _ HI h c n c') as [E|[E|[E|E]]]; try done;
      [by rewrite (Hfree h) in E|by rewrite (Hfree n) in E|by apply not_elem_of_nil in E..].
  - destruct (lay_last _ _ _ HL _ _ Hs En) as (b2 & k2 & Hb2 & Hi2 & E).
    destruct (inside_cover st F [] c b k b2 k2) as [-> ->]; try done; simpl in *; lia.
Qed.

(** When no block is held, every region is one free chunk. *)
Theorem all_freed_one_chunk d limit st b k :
  0 ≤ limit < 2 ^ 64 → reachable d limit st → blocks (view st) = ∅ →
  (b, k) ∈ spans (regions_ st) →
  ∃ h c, chunks_ st !! h = Some c ∧ in_use c = false ∧ c_ptr c = b ∧ c_size c = k.
Proof.
  intros Hl Hr He Hb. destruct (ok_heap _ (reachable_ok _ _ _ Hl Hr)) as [F HI].
  assert (Hfree : ∀ h c, live (chunks_ st) F h = Some c → in_use c = false).
  { intros h c Hc. destruct (in_use c) eqn:Hu; [|done]. exfalso.
    assert (held (chunks_ st) !! c_ptr c = Some (c_size c, c_requested_size c)) as Hh.
    { apply (held_lookup _ _ _ _ _ _ HI). exists h, (c_allocation_id c).
      rewrite (live_lookup _ _ _ _ Hc). simpl. unfold block_of. by rewrite Hu. }
    change (blocks (view st) !! c_ptr c = Some (c_size c, c_requested_size c)) in Hh. by rewrite He in Hh. }
  destruct (free_region_single st F b k HI Hfree Hb) as (h & c & Hc & Hp & Hs).
  exists h, c. split_and!; [by eapply live_lookup|by eapply Hfree|done..].
Qed.

(** A request that fits into a free chunk is served from a smallest such chunk,
    at its start, without asking the device. *)
Theorem Alloc_best_fit fuel st n r h0 c0 F :
  ArenaOk st → Inv st F [] → 0 < n ≤ 2 ^ 64 - 256 → RoundedBytes n = Ok r →
  live (chunks_ st) F h0 = Some c0 → in_use c0 = false → r ≤ c_size c0 →
  ∃ h c st', Alloc fuel st n = Ok (c_ptr c, st') ∧
    live (chunks_ st) F h = Some c ∧ in_use c = false ∧ r ≤ c_size c ∧
    (∀ h' c', live (chunks_ st) F h' = Some c' → in_use c' = false → r ≤ c_size c' →
       c_size c ≤ c_size c') ∧
    device_allocator_ st' = device_allocator_ st ∧ spans (regions_ st') = spans (regions_ st).
Proof.
  intros Hok HI Hn HR Hc0 Hu0 Hr0. unfold Alloc, AllocateRawInternal.
  rewrite (proj2 (Z.eqb_neq _ _)) by lia.
  destruct (RoundedBytes_up n Hn) as (r' & HR' & Hr & Hm & Hr64). rewrite HR in *.
  injection HR' as <-. cbn [mbind res_bind].
  destruct (FindChunkPtr_ok st F r n HI Hr64 Hm) as
    [[_ Hno]|(h & c & st' & F' & sz & HF & Hc & Hu & Hsz & Hmin & HI' & Hg)].
  { specialize (Hno _ _ Hc0 Hu0). lia. }
  rewrite HF. cbn [mbind res_bind]. destruct (live_bounds _ _ _ _ _ HI Hc) as (Hp & _).
  rewrite (proj2 (Z.eqb_neq _ _)) by (unfold nullptr; lia). simpl.
  destruct Hg as (_ & _ & _ & Hd & _ & _ & _ & Hs & _).
  exists h, c, st'. split_and!; done || lia.
Qed.

(** The statistics of a reachable arena are the sums over its chunks, regions
    and reserved blocks, modulo the width of [int64_t]. *)
Theorem arena_stats_exact d limit st :
  0 ≤ limit < 2 ^ 64 → reachable d limit st →
  bytes_in_use (stats_ st) = i64 (in_use_bytes (chunks_ st) + reserved_bytes (reserved_chunks_ st)) ∧
  total_allocated_bytes (stats_ st) =
    i64 (span_bytes (spans (regions_ st)) + reserved_bytes (reserved_chunks_ st)).
Proof. intros Hl Hr. destruct (reachable_ok _ _ _ Hl Hr). done. Qed.

(** ** The consistency check of [get_bin_debug_info] *)

Lemma filter_eq_one (l : list nat) (P : nat → Prop) `{∀ x, Decision (P x)} h :
  NoDup l → h ∈ l → (∀ x, x ∈ l → P x ↔ x = h) → length (filter P l) = 1%nat.
Proof.
  induction l as [|x l IH]; intros Hnd Hh HP; [by apply not_elem_of_nil in Hh|].
  apply NoDup_cons in Hnd as [Hx Hnd]. rewrite filter_cons. case_decide as Hd.
  - apply HP in Hd; [|by left]. subst x.
    assert (filter P l = []) as ->; [|done]. apply elem_of_nil_inv.
    intros y [Hy' Hy]%list_elem_of_filter. apply HP in Hy' as ->; [done|by right].
  - apply IH; [done| |intros; apply HP; by right].
    apply elem_of_cons in Hh as [->|]; [|done]. destruct Hd. apply HP; [by left|done].
Qed.

Lemma bin_sorted_NoDup lv s : StronglySorted (bin_order lv) s → NoDup s.
Proof.
  induction 1 as [|x s _ IH Hall]; constructor; [|done]. intros Hx.
  rewrite Forall_forall in Hall. destruct (Hall x Hx) as (a & b & ? & ? & Hk). simplify_eq.
  unfold key_lt in Hk. lia.
Qed.

Lemma bin_count_one st F h c b :
  Inv st F [] → live (chunks_ st) F h = Some c → in_use c = false →
  bins_ st !! Z.to_nat (BinNumForSize (c_size c)) = Some b →
  length (filter (fun x => equivalent st h x = true) (free_chunks b)) = 1%nat.
Proof.
  intros HI Hc Hu Hb. pose proof (inv_bins _ _ _ HI) as HB.
  destruct (bins_complete _ _ _ HB _ _ Hc Hu) as (b' & Hb' & Hh); [apply not_elem_of_nil|]. simplify_eq.
  apply (filter_eq_one _ _ h); [by eapply bin_sorted_NoDup, (bins_sorted _ _ _ HB)|done|].
  intros x Hx. destruct (bins_member _ _ _ HB _ _ _ Hb Hx) as (d & Hd & _).
  rewrite (equivalent_iff st (live (chunks_ st) F)) with (a := c) (b := d); [|..|done|done].
  - split; congruence.
  - intros ? ?. apply live_lookup.
  - intros k k' e e'. by apply (live_ptr_inj st F []).
Qed.

Lemma walk_chunks_ok st F fuel h c b k infos :
  Inv st F [] → live (chunks_ st) F h = Some c → (b, k) ∈ spans (regions_ st) → inside b k (seg_of c) →
  b + k - c_ptr c ≤ 256 * Z.of_nat fuel →
  ∃ infos', walk_chunks fuel st (Some h) infos = Ok infos'.
Proof.
  intros HI. pose proof (inv_layout _ _ _ HI) as HL. revert h c infos.
  induction fuel as [|fuel IH]; intros h c infos Hc Hb Hin Hf;
    destruct (live_bounds _ _ _ _ _ HI Hc) as (_ & Hs & Hm & _); pose proof Hin as (Hi1 & Hi2 & _); simpl in Hi1, Hi2; [lia|].
  cbn [walk_chunks]. rewrite (ChunkFromHandle_ok _ _ _ _ Hc). cbn [mbind res_bind].
  assert (Hchk : (if in_use c then Ok tt
     else x ← BinFromIndex st (BinNumForSize (c_size c));
          _ ← enforce (bool_decide (length (filter (fun y => equivalent st h y = true) (free_chunks x)) = 1%nat));
          enforce (c_bin_num c =? BinNumForSize (c_size c))) = Ok tt).
  { destruct (in_use c) eqn:Hu; [done|].
    destruct (free_chunk_bin st F [] h c HI Hc Hu) as (x & Hx & _ & Hn & _ & ->); [apply not_elem_of_nil|].
    cbn [mbind res_bind]. rewrite bool_decide_true by (by eapply bin_count_one). simpl.
    by rewrite Hn, Z.eqb_refl. }
  rewrite Hchk. cbn [mbind res_bind]. destruct (c_next c) as [n|] eqn:En; [|destruct fuel; eauto].
  destruct (lay_next _ _ _ HL _ _ n (segs_live _ _ _ _ Hc) En) as (s' & b' & k' & Hs' & _ & E & Hb' & Hin1 & Hin2).
  apply segs_Some in Hs' as (c' & Hc' & ->). simpl in E.
  destruct (inside_unique _ _ _ _ _ b k b' k' HL (regions_spans_disjoint _ (inv_regions _ _ _ HI))
    (segs_live _ _ _ _ Hc) Hb Hin Hb' Hin1) as [<- <-].
  eapply (IH n c'); try done. pose proof (Z.div_mod (c_size c) 256). lia.
Qed.

Lemma walk_regions_ok st F fuel rs infos :
  Inv st F [] → (∀ r, r ∈ rs → r ∈ regions_ st) →
  (∀ r, r ∈ regions_ st → r_memory_size r ≤ 256 * Z.of_nat fuel) →
  ∃ infos', walk_regions fuel st rs infos = Ok infos'.
Proof.
  intros HI Hsub Hf. revert infos. induction rs as [|r rs IH]; intros infos; simpl; [eauto|].
  assert (Hr : r ∈ regions_ st) by (apply Hsub; by left).
  pose proof Hr as (i & Hi)%list_elem_of_lookup.
  assert (Hb : (r_ptr r, r_memory_size r) ∈ spans (regions_ st)) by (apply elem_of_spans; eauto).
  destruct (regions_wf_lookup _ _ _ (inv_regions _ _ _ HI) Hi) as (_ & Hk & _).
  destruct (lay_cover _ _ _ (inv_layout _ _ _ HI) _ _ (r_ptr r) Hb) as (h & s & Hs & Hin); [lia|].
  pose proof Hs as (c & Hc & ->)%segs_Some. simpl in Hin.
  destruct (lay_in _ _ _ (inv_layout _ _ _ HI) _ _ Hs) as (b1 & k1 & Hb1 & Hi1).
  destruct (inside_cover st F [] c (r_ptr r) (r_memory_size r) b1 k1) as [-> ->]; try done; [lia|].
  assert (Hptr : c_ptr c = r_ptr r) by (destruct Hi1; simpl in *; lia).
  pose proof (get_handle_chunk _ _ _ _ _ HI Hc) as Hg. rewrite Hptr in Hg. rewrite Hg. cbn [mbind res_bind].
  destruct (walk_chunks_ok st F fuel h c (r_ptr r) (r_memory_size r) infos HI Hc Hb Hi1) as [infos' ->].
  { specialize (Hf r Hr). lia. }
  cbn [mbind res_bind]. apply IH. intros; apply Hsub; by right.
Qed.

(** The walk of [get_bin_debug_info] over a reachable arena ends, and its
    [ORT_ENFORCE]s hold: a free chunk is in exactly one bin, the one its size
    and its [bin_num] name. *)
Theorem get_bin_debug_info_consistent d limit st fuel :
  0 ≤ limit < 2 ^ 64 → reachable d limit st →
  (∀ r, r ∈ regions_ st → r_memory_size r ≤ 256 * Z.of_nat fuel) →
  ∃ infos, get_bin_debug_info fuel st = Ok infos.
Proof.
  intros Hl Hr Hf. destruct (ok_heap _ (reachable_ok _ _ _ Hl Hr)) as [F HI].
  by apply (walk_regions_ok st F).
Qed.

(** ** The destructor *)

Lemma foldl_dev_Free {A} (f : A → Z) (l : list A) (d : D) b k :
  (b, k) ∈ dev_blocks (foldl (fun d x => dev_Free d (f x)) d l) ↔
  (b, k) ∈ dev_blocks d ∧ b ∉ f <$> l.
Proof.
  revert d. induction l as [|x l IH]; intros d; simpl.
  - split; [intros; split; [done|apply not_elem_of_nil]|tauto].
  - rewrite IH, dev_Free_spec, not_elem_of_cons. tauto.
Qed.

(** The destructor gives every region and every reserved block back to the
    device, and nothing else. *)
Theorem destroy_returns_all st b k :
  (b, k) ∈ dev_blocks (destroy_BFCArena st) ↔
  (b, k) ∈ dev_blocks (device_allocator_ st) ∧
  (∀ k', (b, k') ∉ spans (regions_ st)) ∧ reserved_chunks_ st !! b = None.
Proof.
  unfold destroy_BFCArena. rewrite !foldl_dev_Free.
  assert (b ∉ r_ptr <$> regions_ st ↔ ∀ k', (b, k') ∉ spans (regions_ st)) as <-.
  { rewrite list_elem_of_fmap. split.
    - intros Hn k' (i & r & Hi & Hb & _)%elem_of_spans. apply Hn. exists r.
      split; [done|]. by eapply list_elem_of_lookup_2.
    - intros Hn (r & -> & (i & Hi)%list_elem_of_lookup). apply (Hn (r_memory_size r)), elem_of_spans. eauto. }
  assert (b ∉ (map_to_list (reserved_chunks_ st)).*1 ↔ reserved_chunks_ st !! b = None) as <-; [|tauto].
  rewrite eq_None_not_Some, list_elem_of_fmap. split; intros Hn.
  - intros [s Hs]. apply Hn. exists (b, s). split; [done|]. by apply elem_of_map_to_list.
  - intros ([q s] & -> & Hs%elem_of_map_to_list). apply Hn. eauto.
Qed.
End props.

(** ** Boundary cases *)

Lemma dead_backpedal fuel bytes r :
  r ≤ 2304 → 2304 ≤ bytes < 2 ^ 64 → backpedal_loop fuel mkDead bytes r = OutOfFuel.
Proof.
  intros Hr. revert bytes. induction fuel as [|fuel IH]; intros bytes Hb; [done|].
  cbn [backpedal_loop]. pose proof (backpedal_bytes_lower bytes ltac:(lia)).
  pose proof (backpedal_bytes_upper bytes ltac:(lia)).
  destruct (RoundedBytes_near (backpedal_bytes bytes)) as (b' & -> & Hb' & Hm & Hb64); [lia|].
  cbn [mbind res_bind]. assert (2304 ≤ b') by (pose proof (Z.div_mod b' 256); lia).
  rewrite (proj2 (Z.ltb_ge _ _)) by lia. simpl. apply IH. lia.
Qed.

(** With a device that refuses every request, the first [Extend] for at most
    2304 bytes never ends: no number of rounds of its retry loop is enough. *)
Theorem Extend_backpedal_diverges fuel st r :
  r ≤ 2304 → started_backpedal_ st = false →
  2304 ≤ curr_region_allocation_bytes_ st < 2 ^ 64 →
  2304 ≤ u64 (memory_limit_ st - total_allocated_bytes (stats_ st)) →
  Extend (D := DeadDevice) fuel st r = OutOfFuel.
Proof.
  intros Hr Hs Hc Hav. unfold Extend. cbv zeta. change kMinAllocationSize with 256.
  set (a := u64 (memory_limit_ st - _)) in *. assert (Ha : 0 ≤ a < 2 ^ 64) by apply u64_range.
  pose proof (Z.div_mod a 256). pose proof (Z.mod_pos_bound a 256).
  assert (2304 ≤ a / 256 * 256).
  { pose proof (Z.div_le_mono 2304 a 256). change (2304 / 256) with 9 in *. lia. }
  rewrite u64_small by lia. rewrite (proj2 (Z.ltb_ge _ _)) by lia.
  assert (grow_curr fuel r (curr_region_allocation_bytes_ st) false =
    Ok (curr_region_allocation_bytes_ st, false)) as ->.
  { destruct fuel; simpl; by rewrite (proj2 (Z.ltb_ge _ _)) by lia. }
  cbn [mbind res_bind]. unfold request_region. cbn [dev_Alloc dead_device with_curr started_backpedal_].
  rewrite Hs. simpl. destruct (device_allocator_ st). rewrite dead_backpedal by lia. done.
Qed.

Lemma grow_curr_diverges fuel r curr inc :
  2 ^ 63 < r → (curr = 0 ∨ ∃ k, 0 ≤ k ≤ 63 ∧ curr = 2 ^ k) → grow_curr fuel r curr inc = OutOfFuel.
Proof.
  intros Hr. revert curr inc. induction fuel as [|fuel IH]; intros curr inc Hc; simpl;
    (rewrite (proj2 (Z.ltb_lt _ _));
      [|destruct Hc as [->|(k & Hk & ->)]; [lia|]; pose proof (Z.pow_le_mono_r 2 k 63); lia]); [done|].
  apply IH. destruct Hc as [->|(k & Hk & ->)]; [by left|].
  destruct (decide (k = 63)) as [->|]; [by left|]. right. exists (k + 1). split; [lia|].
  rewrite Z.pow_add_r by lia. apply u64_small. change (2 ^ 1) with 2.
  pose proof (Z.pow_le_mono_r 2 k 62). pose proof (Z.pow_pos_nonneg 2 k). lia.
Qed.

(** With the default memory limit, a request of more than 2^63 bytes never
    returns: the region size doubles until it wraps to zero. *)
Theorem Alloc_huge_diverges {D} `{DeviceAllocator D} (d : D) fuel n :
  2 ^ 63 < n ≤ 2 ^ 64 - 256 →
  ∃ st, new_BFCArena d (2 ^ 64 - 1) = Ok st ∧ Alloc fuel st n = OutOfFuel.
Proof.
  intros Hn. unfold new_BFCArena. rewrite make_bins_ok.
  assert (RoundedBytes (Z.min (2 ^ 64 - 1) 1048576) = Ok 1048576) as -> by (vm_compute; reflexivity).
  cbn [mbind res_bind]. eexists. split; [done|]. unfold Alloc, AllocateRawInternal.
  rewrite (proj2 (Z.eqb_neq _ _)) by lia.
  destruct (RoundedBytes_up n ltac:(lia)) as (r & -> & Hr & Hm & Hr64). cbn [mbind res_bind].
  match goal with |- context [FindChunkPtr ?s] => set (st := s) end.
  assert (BinNumForSize r = 20) as ->.
  { rewrite BinNumForSize_eq by lia. assert (63 ≤ Z.log2 (Z.max r 256)); [|lia]. apply Z.log2_le_pow2; lia. }
  assert (FindChunkPtr st 20 r n = Ok (nullptr, st)) as -> by (unfold FindChunkPtr; reflexivity).
  cbn [mbind res_bind negb Z.eqb nullptr]. unfold Extend. cbn [memory_limit_ stats_ st total_allocated_bytes].
  change (u64 (u64 (2 ^ 64 - 1 - 0) / kMinAllocationSize * kMinAllocationSize)) with (2 ^ 64 - 256).
  rewrite (proj2 (Z.ltb_ge _ _)); [|pose proof (Z.div_mod r 256); lia].
  cbn [curr_region_allocation_bytes_]. rewrite grow_curr_diverges; [done|lia|]. right. by exists 20.
Qed.

(** The rounding of a request wraps within 255 bytes of [SIZE_MAX]: such a
    request is granted a chunk of no bytes, and the next request is granted the
    same address while the first block is still held. *)
Theorem Alloc_SIZE_MAX_overlaps :
  RoundedBytes (2 ^ 64 - 1) = Ok 0 ∧
  (st ← demo_arena;
   '(p1, st) ← Alloc 1 st 1000;
   '(p2, st) ← Alloc 1 st (2 ^ 64 - 1);
   '(p3, st) ← Alloc 1 st 1000;
   Ok (p1, p2, p3, Z.of_nat (length (filter (fun c => in_use c = true ∧ c_ptr c = p2) (chunks_ st)))))
  = Ok (4096, 5120, 5120, 2).
Proof. split; vm_compute; reflexivity. Qed.

(** The bit-counting implementation of the floor of the logarithm agrees with
    the loop, and both with the mathematical function. *)
Theorem Log2FloorNonZero_equiv n :
  0 < n < 2 ^ 64 →
  Log2FloorNonZero n = Log2FloorNonZeroSlow n ∧ Log2FloorNonZero n = Z.log2 n.
Proof.
  intros Hn. rewrite Log2FloorNonZero_log2 by done. split; [|done].
  unfold Log2FloorNonZeroSlow. rewrite log2_slow_loop_spec by (simpl; lia).
  destruct (Z.eqb_spec n 0); lia.
Qed.

(** ** Examples *)

Definition no_arena : Arena BumpDevice :=
  mkArena 0 [] 0 false demo_device [] [] None 1 (mkStats 0 0 0 0 0 0) ∅.
Definition state_of (m : res (Z * Arena BumpDevice)) : Arena BumpDevice :=
  match m with Ok (_, st) => st | _ => no_arena end.
Definition demo0 : Arena BumpDevice := match demo_arena with Ok st => st | _ => no_arena end.
Definition demo1 : Arena BumpDevice := state_of (Alloc 500 demo0 1000).
Definition demo2 : Arena BumpDevice := state_of (Alloc 500 demo1 3000).
Definition demo3 : Arena BumpDevice := state_of (Reserve demo2 512).

Lemma demo0_reachable : reachable demo_device (2 ^ 30) demo0.
Proof. apply reach_new. vm_compute. reflexivity. Qed.
Lemma demo1_step : arena_step demo0 (OpAlloc 1000 4096) demo1.
Proof. apply (step_Alloc _ 500); [lia|]. vm_compute. reflexivity. Qed.
Lemma demo1_reachable : reachable demo_device (2 ^ 30) demo1.
Proof. eapply reach_step; [apply demo0_reachable|apply demo1_step]. Qed.
Lemma demo2_step : arena_step demo1 (OpAlloc 3000 5120) demo2.
Proof. apply (step_Alloc _ 500); [lia|]. vm_compute. reflexivity. Qed.
Lemma demo2_reachable : reachable demo_device (2 ^ 30) demo2.
Proof. eapply reach_step; [apply demo1_reachable|apply demo2_step]. Qed.
Lemma demo3_step : arena_step demo2 (OpReserve 512 1052672) demo3.
Proof. apply (step_Reserve); [lia|]. vm_compute. reflexivity. Qed.
Lemma demo3_reachable : reachable demo_device (2 ^ 30) demo3.
Proof. eapply reach_step; [apply demo2_reachable|apply demo3_step]. Qed.
Lemma demo_limit : 0 ≤ 2 ^ 30 < 2 ^ 64.
Proof. lia. Qed.
Lemma demo3_ok : ArenaOk demo3.
Proof. exact (reachable_ok _ _ _ demo_limit demo3_reachable). Qed.

Lemma arena_refines_heap_witness : heap_step (view demo1) (OpAlloc 3000 5120) (view demo2).
Proof. exact (arena_refines_heap _ _ _ _ _ demo_limit demo1_reachable demo2_step). Defined.

Lemma arena_blocks_safe_witness : heap_ok (view demo3) ∧ reserved (view demo3) !! 1052672 = Some 512.
Proof.
  split; [exact (proj1 (arena_blocks_safe _ _ _ demo_limit demo3_reachable))|vm_compute; reflexivity].
Defined.

Lemma arena_tiling_witness :
  ∃ F h c, live (chunks_ demo3) F h = Some c ∧ c_ptr c ≤ 5000 < c_ptr c + c_size c.
Proof.
  destruct (arena_tiling _ _ _ demo_limit demo3_reachable) as (F & Ht & _).
  destruct (Ht 4096 1048576 5000) as (h & c & Hc & Hin & _).
  - vm_compute. left.
  - lia.
  - exists F, h, c. done.
Defined.

Lemma Alloc_returns_witness : ∃ p st', Alloc 500 demo3 10000 = Ok (p, st').
Proof.
  destruct (Alloc_returns 500 demo3 10000 demo3_ok) as (p & st' & HA & _).
  - lia.
  - vm_compute. reflexivity.
  - left. lia.
  - lia.
  - eauto.
Defined.

Lemma Free_exact_witness : ∃ st', Free demo3 5120 = Ok st' ∧ blocks (view st') !! 5120 = None.
Proof.
  destruct (Free_exact demo3 5120 3072 3000 demo3_ok) as (st' & HF & _ & Hv & _).
  - vm_compute. reflexivity.
  - exists st'. split; [done|]. rewrite Hv. apply lookup_delete_eq.
Defined.

Lemma demo3_blocks q s n :
  blocks (view demo3) !! q = Some (s, n) → q = 4096 ∨ q = 5120.
Proof.
  assert (blocks (view demo3) = {[ 4096 := (1024, 1000); 5120 := (3072, 3000) ]}) as ->
    by (vm_compute; reflexivity).
  rewrite lookup_insert_Some, lookup_singleton_Some. naive_solver.
Qed.

Lemma Free_invalid_throws_witness : ∃ e, Free demo3 4500 = Throw e.
Proof.
  apply (Free_invalid_throws demo3 4500 demo3_ok).
  - done.
  - vm_compute. reflexivity.
  - intros q s n [->| ->]%demo3_blocks; lia.
Defined.

Lemma double_free_throws_witness : ∃ st' e, Free demo3 4096 = Ok st' ∧ Free st' 4096 = Throw e.
Proof. apply (double_free_throws demo3 4096 1024 1000 demo3_ok). vm_compute. reflexivity. Defined.

Lemma Alloc_Free_roundtrip_witness : ∃ st2, Free demo2 5120 = Ok st2 ∧ view st2 = view demo1.
Proof.
  destruct (Alloc_Free_roundtrip 500 demo1 3000 5120 demo2
    (reachable_ok _ _ _ demo_limit demo1_reachable)) as (st2 & HF & _ & Hv & _).
  - lia.
  - vm_compute. reflexivity.
  - done.
  - eauto.
Defined.

Definition freed (st : Arena BumpDevice) (p : Z) : Arena BumpDevice :=
  match Free st p with Ok st' => st' | _ => no_arena end.
Definition demo4 : Arena BumpDevice := freed (freed demo2 4096) 5120.
Lemma demo4_reachable : reachable demo_device (2 ^ 30) demo4.
Proof.
  apply (reach_step _ _ (freed demo2 4096) (OpFree 5120)); [|apply step_Free; vm_compute; reflexivity].
  apply (reach_step _ _ demo2 (OpFree 4096)); [apply demo2_reachable|]. apply step_Free. vm_compute. reflexivity.
Qed.

Lemma all_freed_one_chunk_witness :
  ∃ h c, chunks_ demo4 !! h = Some c ∧ in_use c = false ∧ c_ptr c = 4096 ∧ c_size c = 1048576.
Proof.
  apply (all_freed_one_chunk _ _ demo4 4096 1048576 demo_limit demo4_reachable).
  - vm_compute. reflexivity.
  - vm_compute. left.
Defined.

Lemma Alloc_best_fit_witness : ∃ h c st', Alloc 0 demo4 700 = Ok (c_ptr c, st') ∧ chunks_ demo4 !! h = Some c.
Proof.
  pose proof (reachable_ok _ _ _ demo_limit demo4_reachable) as Hok.
  destruct (ok_heap _ Hok) as [F HI].
  destruct (free_region_single demo4 F 4096 1048576 HI) as (h0 & c0 & Hc0 & _ & Hs0).
  - intros h c Hc%live_lookup.
    destruct h as [|[|[|h]]]; vm_compute in Hc; simplify_eq; reflexivity.
  - vm_compute. left.
  - destruct (Alloc_best_fit 0 demo4 700 768 h0 c0 F Hok HI) as (h & c & st' & HA & Hc & _).
    + lia.
    + vm_compute. reflexivity.
    + exact Hc0.
    + apply live_lookup in Hc0.
      destruct h0 as [|[|[|h]]]; vm_compute in Hc0; simplify_eq; reflexivity.
    + lia.
    + exists h, c, st'. split; [exact HA|]. exact (live_lookup _ _ _ _ Hc).
Defined.

Lemma arena_stats_exact_witness :
  bytes_in_use (stats_ demo3) = 4608 ∧ total_allocated_bytes (stats_ demo3) = 1049088.
Proof.
  destruct (arena_stats_exact _ _ _ demo_limit demo3_reachable) as [-> ->].
  split; vm_compute; reflexivity.
Defined.

Lemma get_bin_debug_info_consistent_witness : ∃ infos, get_bin_debug_info 4096 demo3 = Ok infos.
Proof.
  apply (get_bin_debug_info_consistent _ _ _ 4096 demo_limit demo3_reachable).
  intros r Hr. assert (Hall : forallb (fun r => r_memory_size r <=? 1048576) (regions_ demo3) = true)
    by (vm_compute; reflexivity).
  rewrite forallb_forall in Hall. specialize (Hall r (proj1 (list_elem_of_In _ _) Hr)).
  apply Z.leb_le in Hall. lia.
Defined.

Definition dead_arena : Arena DeadDevice :=
  match new_BFCArena mkDead (2 ^ 30) with
  | Ok st => st
  | _ => mkArena 0 [] 0 false mkDead [] [] None 1 (mkStats 0 0 0 0 0 0) ∅
  end.
Lemma Extend_backpedal_diverges_witness : Extend 900 dead_arena 1024 = OutOfFuel.
Proof.
  apply (Extend_backpedal_diverges 900 dead_arena 1024).
  - lia.
  - vm_compute. reflexivity.
  - vm_compute. split; [discriminate|reflexivity].
  - vm_compute. discriminate.
Defined.

Lemma Alloc_huge_diverges_witness :
  ∃ st, new_BFCArena mkDead (2 ^ 64 - 1) = Ok st ∧ Alloc 5 st (2 ^ 63 + 1) = OutOfFuel.
Proof. apply (Alloc_huge_diverges mkDead 5 (2 ^ 63 + 1)). lia. Defined.

Lemma Log2FloorNonZero_equiv_witness :
  Log2FloorNonZero 4097 = Log2FloorNonZeroSlow 4097 ∧ Log2FloorNonZero 4097 = Z.log2 4097.
Proof. apply (Log2FloorNonZero_equiv 4097). lia. Defined.
