(* ===== verification/MemPattern.v ===== *)
(** The memory-pattern planners: [MemPatternPlanner] of
    [mem_pattern_planner.h] packs the buffers of one run into a single block,
    [MemoryPattern] and [MemoryPatternGroup] of [mem_pattern.h] hold the result,
    and [MLValuePatternPlanner] of [ml_value_patterns_planner.h] keeps one
    planner per memory location.  The theorems: buffers that are live at the
    same time get disjoint ranges inside the peak size, the gap that is chosen
    is a tightest one, and a location's pattern depends on its own requests
    only. *)
From S2P Require Import Prelude.

(** ** Data *)

Record MemoryBlock := mkBlock { offset_ : Z; size_ : Z }.

(** [MLValueAllocationBlock]: the value and the block it was given. *)
Record MLValueAllocationBlock := mkAlloc { index_ : Z; block_ : MemoryBlock }.

(** [blocks_] lists positions of [allocs_], sorted by offset. *)
Record MemPatternPlanner := mkPlanner {
  allocs_ : list MLValueAllocationBlock;
  blocks_ : list nat;
  buffer_size : Z;
}.

Definition new_MemPatternPlanner : MemPatternPlanner := mkPlanner [] [] 0.

Record MemoryPattern := mkPattern { patterns_ : gmap Z MemoryBlock; peak_size_ : Z }.
Definition PeakSize (p : MemoryPattern) : Z := peak_size_ p.
Definition GetBlock (p : MemoryPattern) (ml_value_idx : Z) : option MemoryBlock :=
  patterns_ p !! ml_value_idx.

(** ** [MemPatternPlanner] *)

(** The state of the search loop: [current], [waste_bytes], [best_offset] and
    the position [best_fit_it] points at. *)
Record Fit := mkFit { current : Z; waste_bytes : Z; best_offset : Z; best_fit_it : nat }.

Definition fit_step (size : Z) (pos : nat) (b : MemoryBlock) (f : Fit) : Fit :=
  let f :=
    if current f <=? offset_ b then
      let gap := offset_ b - current f in
      if (size <=? gap) && (gap - size <? waste_bytes f)
      then mkFit (current f) (gap - size) (current f) pos else f
    else f in
  mkFit (u64 (offset_ b + size_ b)) (waste_bytes f) (best_offset f) (best_fit_it f).

Fixpoint fit_loop (allocs : list MLValueAllocationBlock) (size : Z) (bs : list nat) (pos : nat)
    (f : Fit) : res Fit :=
  match bs with
  | [] => Ok f
  | i :: bs' =>
      a ← of_option UndefinedBehaviour (allocs !! i);
      fit_loop allocs size bs' (S pos) (fit_step size pos (block_ a) f)
  end.

Definition TraceAllocation (p : MemPatternPlanner) (ml_value_idx size : Z) : res MemPatternPlanner :=
  if size =? 0 then
    Ok (mkPlanner (allocs_ p ++ [mkAlloc ml_value_idx (mkBlock 0 0)]) (blocks_ p) (buffer_size p))
  else
    best_offset0 ←
      match last (blocks_ p) with
      | None => Ok 0
      | Some i => a ← of_option UndefinedBehaviour (allocs_ p !! i);
                  Ok (u64 (offset_ (block_ a) + size_ (block_ a)))
      end;
    f ← fit_loop (allocs_ p) size (blocks_ p) 0
          (mkFit 0 (2 ^ 64 - 1) best_offset0 (length (blocks_ p)));
    let allocs := allocs_ p ++ [mkAlloc ml_value_idx (mkBlock (best_offset f) size)] in
    Ok (mkPlanner allocs
          (take (best_fit_it f) (blocks_ p) ++
             (length allocs - 1)%nat :: drop (best_fit_it f) (blocks_ p))
          (Z.max (buffer_size p) (u64 (best_offset f + size)))).

(** Erases the first block of the value, if there is one. *)
Fixpoint erase_first (allocs : list MLValueAllocationBlock) (ml_value_index : Z) (bs : list nat) :
    res (list nat) :=
  match bs with
  | [] => Ok []
  | i :: bs' =>
      a ← of_option UndefinedBehaviour (allocs !! i);
      if index_ a =? ml_value_index then Ok bs'
      else bs' ← erase_first allocs ml_value_index bs'; Ok (i :: bs')
  end.

Definition TraceFree (p : MemPatternPlanner) (ml_value_index : Z) : res MemPatternPlanner :=
  bs ← erase_first (allocs_ p) ml_value_index (blocks_ p);
  Ok (mkPlanner (allocs_ p) bs (buffer_size p)).

Definition GenerateMemPattern (p : MemPatternPlanner) : MemoryPattern :=
  mkPattern (foldl (fun m a => <[index_ a := block_ a]> m) ∅ (allocs_ p)) (buffer_size p).

(** A run of the planner. *)
Inductive trace_op :=
  | TAlloc (idx size : Z)
  | TFree (idx : Z).

Definition trace_step (p : MemPatternPlanner) (o : trace_op) : res MemPatternPlanner :=
  match o with
  | TAlloc idx size => TraceAllocation p idx size
  | TFree idx => TraceFree p idx
  end.

Fixpoint trace_run (p : MemPatternPlanner) (l : list trace_op) : res MemPatternPlanner :=
  match l with
  | [] => Ok p
  | o :: l' => p ← trace_step p o; trace_run p l'
  end.

(** Sum of the sizes requested. *)
Fixpoint trace_bytes (l : list trace_op) : Z :=
  match l with
  | [] => 0
  | TAlloc _ size :: l' => size + trace_bytes l'
  | TFree _ :: l' => trace_bytes l'
  end.

(** The values that are allocated, in order, and those that hold a block after
    the run. *)
Definition alloc_ids (l : list trace_op) : list Z :=
  omap (fun o => match o with TAlloc idx _ => Some idx | TFree _ => None end) l.
Definition live_after (l : list trace_op) : list Z :=
  foldl (fun s o =>
    match o with
    | TAlloc idx size => if size =? 0 then s else idx :: s
    | TFree idx => filter (fun x => x ≠ idx) s
    end) [] l.

(** ** Memory locations *)

(** [OrtAllocatorInfo] of [allocator.h] with its [operator==] and [operator<];
    the enumerations are their numeric values. *)
Record OrtAllocatorInfo := mkInfo { i_name : string; i_id : Z; i_mem_type : Z; i_type : Z }.
#[export] Instance OrtAllocatorInfo_eq_dec : EqDecision OrtAllocatorInfo.
Proof. solve_decision. Defined.

Definition strcmp_lt (a b : string) : bool :=
  match String.compare a b with Lt => true | _ => false end.
Definition strcmp_eq (a b : string) : bool :=
  match String.compare a b with Eq => true | _ => false end.

Definition info_eq (x y : OrtAllocatorInfo) : bool :=
  (i_mem_type x =? i_mem_type y) && (i_type x =? i_type y) && (i_id x =? i_id y) &&
  strcmp_eq (i_name x) (i_name y).

Definition info_lt (x y : OrtAllocatorInfo) : bool :=
  if negb (i_type x =? i_type y) then i_type x <? i_type y
  else if negb (i_mem_type x =? i_mem_type y) then i_mem_type x <? i_mem_type y
  else if negb (i_id x =? i_id y) then i_id x <? i_id y
  else strcmp_lt (i_name x) (i_name y).

(** [MemoryPatternGroup]: parallel vectors. *)
Record MemoryPatternGroup := mkGroup {
  locations : list OrtAllocatorInfo;
  patterns : list MemoryPattern;
}.

Fixpoint get_patterns (ls : list OrtAllocatorInfo) (ps : list MemoryPattern)
    (location : OrtAllocatorInfo) : option MemoryPattern :=
  match ls, ps with
  | l :: ls', p :: ps' => if info_eq l location then Some p else get_patterns ls' ps' location
  | _, _ => None
  end.
Definition GetPatterns (g : MemoryPatternGroup) (location : OrtAllocatorInfo) : option MemoryPattern :=
  get_patterns (locations g) (patterns g) location.

(** ** [MLValuePatternPlanner] *)

(** [planner_map_] in the order of its keys, and the location of each value in
    the execution plan. *)
Record MLValuePatternPlanner := mkMLPlanner {
  planner_map_ : list (OrtAllocatorInfo * MemPatternPlanner);
  plan_location : list OrtAllocatorInfo;
}.

(** [std::set::insert]. *)
Fixpoint info_insert (x : OrtAllocatorInfo) (l : list OrtAllocatorInfo) : list OrtAllocatorInfo :=
  match l with
  | [] => [x]
  | y :: l' =>
      if info_lt x y then x :: l
      else if info_lt y x then y :: info_insert x l' else l
  end.

Definition info_equiv (x y : OrtAllocatorInfo) : bool := negb (info_lt x y) && negb (info_lt y x).

Definition new_MLValuePatternPlanner (plan : list OrtAllocatorInfo) : MLValuePatternPlanner :=
  let locs := foldl (fun s l => if existsb (info_equiv l) s then s else info_insert l s) [] plan in
  mkMLPlanner ((fun l => (l, new_MemPatternPlanner)) <$> locs) plan.

(** [planner_map_.find(location)] and the operation on what it finds. *)
Fixpoint at_location (m : list (OrtAllocatorInfo * MemPatternPlanner)) (location : OrtAllocatorInfo)
    (f : MemPatternPlanner → res MemPatternPlanner) :
    res (Status * list (OrtAllocatorInfo * MemPatternPlanner)) :=
  match m with
  | [] => Ok (Some INVALID_ARGUMENT, [])
  | (l, p) :: m' =>
      if info_equiv location l then p ← f p; Ok (StatusOK, (l, p) :: m')
      else '(s, m') ← at_location m' location f; Ok (s, (l, p) :: m')
  end.

Definition location_of (g : MLValuePatternPlanner) (idx : Z) : res OrtAllocatorInfo :=
  if idx <? 0 then Throw UndefinedBehaviour
  else of_option UndefinedBehaviour (plan_location g !! Z.to_nat idx).

Definition ml_TraceAllocation (g : MLValuePatternPlanner) (ml_value_idx size : Z) :
    res (Status * MLValuePatternPlanner) :=
  location ← location_of g ml_value_idx;
  '(s, m) ← at_location (planner_map_ g) location (fun p => TraceAllocation p ml_value_idx size);
  Ok (s, mkMLPlanner m (plan_location g)).

Definition ml_TraceFree (g : MLValuePatternPlanner) (ml_value_index : Z) :
    res (Status * MLValuePatternPlanner) :=
  location ← location_of g ml_value_index;
  '(s, m) ← at_location (planner_map_ g) location (fun p => TraceFree p ml_value_index);
  Ok (s, mkMLPlanner m (plan_location g)).

(** [GeneratePatterns] into a group; a null pointer is an invalid argument. *)
Definition GeneratePatterns (g : MLValuePatternPlanner) (out : option MemoryPatternGroup) :
    Status * option MemoryPatternGroup :=
  match out with
  | None => (Some INVALID_ARGUMENT, None)
  | Some o => (StatusOK, Some (mkGroup (locations o ++ (planner_map_ g).*1)
                                 (patterns o ++ (GenerateMemPattern <$> (planner_map_ g).*2))))
  end.

Definition ml_step (g : MLValuePatternPlanner) (o : trace_op) : res (Status * MLValuePatternPlanner) :=
  match o with
  | TAlloc idx size => ml_TraceAllocation g idx size
  | TFree idx => ml_TraceFree g idx
  end.

(** A run that stops at the first status that is not OK. *)
Fixpoint ml_run (g : MLValuePatternPlanner) (l : list trace_op) : res (Status * MLValuePatternPlanner) :=
  match l with
  | [] => Ok (StatusOK, g)
  | o :: l' => '(s, g) ← ml_step g o; if IsOK s then ml_run g l' else Ok (s, g)
  end.

Definition op_id (o : trace_op) : Z := match o with TAlloc idx _ => idx | TFree idx => idx end.
(** The requests of a run for values at the location [l]. *)
Definition ops_at (plan : list OrtAllocatorInfo) (l : OrtAllocatorInfo) (ops : list trace_op) : list trace_op :=
  filter (fun o => plan !! Z.to_nat (op_id o) = Some l) ops.

(** ** The order of the live blocks *)

(** End of a sequence of blocks that starts at [s]. *)
Definition end_of (s : Z) (l : list MemoryBlock) : Z :=
  foldl (fun _ b => offset_ b + size_ b) s l.

(** The blocks are not empty, in order and apart, from [s] on and below [top]. *)
Fixpoint packed (s top : Z) (l : list MemoryBlock) : Prop :=
  match l with
  | [] => s ≤ top
  | b :: l' => s ≤ offset_ b ∧ 0 < size_ b ∧ packed (offset_ b + size_ b) top l'
  end.

Definition live_blocks (p : MemPatternPlanner) : list (option MLValueAllocationBlock) :=
  (fun i => allocs_ p !! i) <$> blocks_ p.

Record PlannerOk (p : MemPatternPlanner) (bs : list MLValueAllocationBlock) : Prop := {
  pl_live : live_blocks p = Some <$> bs;
  pl_packed : packed 0 (buffer_size p) (block_ <$> bs);
  pl_buffer : 0 ≤ buffer_size p < 2 ^ 64;
  pl_allocs : ∀ a, a ∈ allocs_ p →
    0 ≤ offset_ (block_ a) ∧ 0 ≤ size_ (block_ a) ∧
    offset_ (block_ a) + size_ (block_ a) ≤ buffer_size p;
}.

Lemma packed_app s top l1 l2 :
  packed s top (l1 ++ l2) ↔ packed s (end_of s l1) l1 ∧ packed (end_of s l1) top l2.
Proof.
  revert s. induction l1 as [|b l1 IH]; intros s; simpl.
  - split; [intros; split; [lia|done]|tauto].
  - rewrite IH. unfold end_of. simpl. tauto.
Qed.

Lemma packed_end s top l : packed s top l → s ≤ end_of s l ≤ top.
Proof.
  revert s. induction l as [|b l IH]; intros s; simpl; [lia|].
  intros (? & ? & Hp%IH). unfold end_of in *. simpl. lia.
Qed.

Lemma packed_weaken s top top' l : packed s top l → top ≤ top' → packed s top' l.
Proof.
  revert s. induction l as [|b l IH]; intros s; simpl; [lia|]. intros (? & ? & ?) ?. auto.
Qed.

Lemma packed_elem s top l b :
  packed s top l → b ∈ l → s ≤ offset_ b ∧ 0 < size_ b ∧ offset_ b + size_ b ≤ top.
Proof.
  revert s. induction l as [|c l IH]; intros s; simpl; [by intros _ ?%not_elem_of_nil|].
  intros (H1 & H2 & H3) [->|Hb]%elem_of_cons.
  - pose proof (packed_end _ _ _ H3). lia.
  - destruct (IH _ H3 Hb) as (? & ? & ?). lia.
Qed.

Lemma packed_insert s top l1 l2 b :
  packed s top (l1 ++ l2) → 0 < size_ b → end_of s l1 = offset_ b →
  (match l2 with [] => True | c :: _ => offset_ b + size_ b ≤ offset_ c end) →
  packed s (Z.max top (offset_ b + size_ b)) (l1 ++ b :: l2).
Proof.
  rewrite !packed_app. intros [H1 H2] Hs He Hc. split; [done|]. simpl. split_and!; [lia|done|].
  destruct l2 as [|c l2]; simpl in *; [lia|]. destruct H2 as (? & ? & ?).
  split_and!; [done..|]. eapply packed_weaken; [done|lia].
Qed.

Lemma packed_delete s top l1 b l2 : packed s top (l1 ++ b :: l2) → packed s top (l1 ++ l2).
Proof.
  rewrite !packed_app. intros [H1 H2]. split; [done|]. simpl in H2.
  destruct H2 as (H2 & H3 & H4). destruct l2 as [|c l2]; simpl in *; [lia|].
  destruct H4 as (? & ? & ?). split_and!; [lia|done..].
Qed.

Lemma packed_disjoint s top l i j b c :
  packed s top l → l !! i = Some b → l !! j = Some c → (i < j)%nat → offset_ b + size_ b ≤ offset_ c.
Proof.
  revert s i j. induction l as [|d l IH]; intros s i j Hp Hi Hj Hij; [done|].
  destruct j as [|j]; [lia|]. simpl in Hp, Hj. destruct Hp as (H1 & H2 & H3).
  destruct i as [|i]; simplify_eq/=.
  - apply list_elem_of_lookup_2 in Hj. by destruct (packed_elem _ _ _ _ H3 Hj).
  - eapply (IH _ i j); eauto. lia.
Qed.

(** ** The search for a gap *)

(** Block [k] of [l] leaves a gap of at least [size] bytes before it, with
    [waste] bytes to spare. *)
Definition gap_before (size : Z) (l : list MemoryBlock) (k : nat) (off waste : Z) : Prop :=
  ∃ b, l !! k = Some b ∧ off = end_of 0 (take k l) ∧ 0 ≤ waste ∧ off + size + waste = offset_ b.

(** What the loop has found among the blocks [l]. *)
Definition best_of (size : Z) (l : list MemoryBlock) (off0 : Z) (k0 : nat) (f : Fit) : Prop :=
  (gap_before size l (best_fit_it f) (best_offset f) (waste_bytes f) ∧
   ∀ j off w, gap_before size l j off w → waste_bytes f ≤ w) ∨
  (best_fit_it f = k0 ∧ best_offset f = off0 ∧ waste_bytes f = 2 ^ 64 - 1 ∧
   ∀ j off w, ¬ gap_before size l j off w).

Lemma gap_before_snoc size l b k off w :
  gap_before size (l ++ [b]) k off w ↔
  gap_before size l k off w ∨
  (k = length l ∧ off = end_of 0 l ∧ 0 ≤ w ∧ off + size + w = offset_ b).
Proof.
  unfold gap_before. split.
  - intros (c & Hc & -> & Hw & E). apply lookup_app_Some in Hc as [Hc|[Hk Hc]].
    + left. exists c. pose proof (lookup_lt_Some _ _ _ Hc).
      rewrite take_app_le in * by lia. done.
    + right. apply list_lookup_singleton_Some in Hc as [Hk' <-].
      assert (k = length l) as -> by lia. rewrite take_app_length in *. done.
  - intros [(c & Hc & -> & Hw & E)|(-> & -> & Hw & E)].
    + exists c. pose proof (lookup_lt_Some _ _ _ Hc). rewrite lookup_app_l, take_app_le by lia. done.
    + exists b. split_and!; [by apply list_lookup_middle|by rewrite take_app_length|done..].
Qed.

Lemma end_of_snoc s l b : end_of s (l ++ [b]) = offset_ b + size_ b.
Proof. unfold end_of. by rewrite foldl_app. Qed.

Lemma fit_step_ok size l b off0 k0 f :
  0 < size → 0 ≤ end_of 0 l ≤ offset_ b → offset_ b + size_ b < 2 ^ 64 → 0 ≤ size_ b →
  current f = end_of 0 l → best_of size l off0 k0 f →
  current (fit_step size (length l) b f) = end_of 0 (l ++ [b]) ∧
  best_of size (l ++ [b]) off0 k0 (fit_step size (length l) b f).
Proof.
  intros Hsz Hl Hb Hs Hc Hbest. unfold fit_step. simpl. split.
  { rewrite end_of_snoc, u64_small by lia. done. }
  rewrite Hc, (proj2 (Z.leb_le _ _)) by lia. set (gap := offset_ b - end_of 0 l).
  destruct (Z.leb_spec size gap) as [Hg|Hg]; simpl.
  2:{ destruct Hbest as [[H1 H2]|(H1 & H2 & H3 & H4)]; [left|right]; simpl.
      - split; [apply gap_before_snoc; by left|].
        intros j off w [Hj|(-> & -> & Hw & E)]%gap_before_snoc; [by eapply H2|lia].
      - split_and!; [done..|]. intros j off w [Hj|(-> & -> & Hw & E)]%gap_before_snoc; [by eapply H4|lia]. }
  destruct (Z.ltb_spec (gap - size) (waste_bytes f)) as [Hw|Hw]; simpl.
  - left. simpl. split; [apply gap_before_snoc; right; split_and!; [done|done|lia|lia]|].
    intros j off w [Hj|(-> & -> & Hw' & E)]%gap_before_snoc; [|lia].
    destruct Hbest as [[H1 H2]|(H1 & H2 & H3 & H4)]; [specialize (H2 _ _ _ Hj); lia|by destruct (H4 _ _ _ Hj)].
  - destruct Hbest as [[H1 H2]|(H1 & H2 & H3 & H4)]; [left; simpl|lia].
    split; [apply gap_before_snoc; by left|].
    intros j off w [Hj|(-> & -> & Hw' & E)]%gap_before_snoc; [by eapply H2|lia].
Qed.

Lemma fit_loop_ok allocs size top bs pre rest off0 k0 f :
  0 < size → top < 2 ^ 64 →
  (fun i => allocs !! i) <$> bs = Some <$> rest →
  packed 0 top (pre ++ (block_ <$> rest)) →
  current f = end_of 0 pre → best_of size pre off0 k0 f →
  ∃ f', fit_loop allocs size bs (length pre) f = Ok f' ∧
    best_of size (pre ++ (block_ <$> rest)) off0 k0 f'.
Proof.
  intros Hsz Ht. revert pre bs f. induction rest as [|a rest IH]; intros pre bs f Hbs Hp Hc Hb.
  - apply fmap_nil_inv in Hbs as ->. exists f. by rewrite app_nil_r.
  - destruct bs as [|i bs]; [done|]. injection Hbs as Hi Hbs. simpl. rewrite Hi. simpl.
    pose proof Hp as [Hp1 Hp2]%packed_app. simpl in Hp2. destruct Hp2 as (Hp2 & Hp3 & Hp4).
    pose proof (packed_end _ _ _ Hp1). pose proof (packed_end _ _ _ Hp4).
    destruct (fit_step_ok size pre (block_ a) off0 k0 f) as [Hc' Hb']; [done|lia|lia|lia|done|done|].
    destruct (IH (pre ++ [block_ a]) bs (fit_step size (length pre) (block_ a) f)) as (f' & HF & HB);
      [done|by rewrite <- app_assoc|done|done|].
    rewrite length_app, Nat.add_comm in HF. simpl in HF. exists f'. split; [done|].
    by rewrite <- app_assoc in HB.
Qed.

(** ** The operations *)

Lemma live_blocks_last p bs :
  live_blocks p = Some <$> bs →
  match last (blocks_ p) with
  | None => bs = []
  | Some i => ∃ a, allocs_ p !! i = Some a ∧ last bs = Some a
  end.
Proof.
  unfold live_blocks. intros H. apply (f_equal last) in H. rewrite !fmap_last in H.
  destruct (last (blocks_ p)) as [i|] eqn:E; simpl in H.
  - destruct (last bs) as [a|] eqn:Ea; simpl in H; [|done]. exists a. split; [congruence|done].
  - destruct (last bs) eqn:Ea; [done|]. by apply last_None.
Qed.

Lemma end_of_last s l b : last l = Some b → end_of s l = offset_ b + size_ b.
Proof. intros (l' & ->)%last_Some. apply end_of_snoc. Qed.

(** The tightest gap, or the end of the last block. *)
Definition best_place (bs : list MLValueAllocationBlock) (size off : Z) (k : nat) : Prop :=
  let l := block_ <$> bs in
  (∃ w, gap_before size l k off w ∧ ∀ j off' w', gap_before size l j off' w' → w ≤ w') ∨
  (k = length bs ∧ off = end_of 0 l ∧ ∀ j off' w', ¬ gap_before size l j off' w').

Lemma TraceAllocation_place p bs idx size :
  PlannerOk p bs → 0 < size → buffer_size p + size < 2 ^ 64 →
  ∃ off k, best_place bs size off k ∧
    TraceAllocation p idx size = Ok (mkPlanner (allocs_ p ++ [mkAlloc idx (mkBlock off size)])
      (take k (blocks_ p) ++ length (allocs_ p) :: drop k (blocks_ p))
      (Z.max (buffer_size p) (off + size))).
Proof.
  intros [Hl Hp Hb Ha] Hs Hov. unfold TraceAllocation. rewrite (proj2 (Z.eqb_neq _ _)) by lia.
  pose proof (packed_end _ _ _ Hp) as Hend.
  assert (match last (blocks_ p) with
          | None => Ok 0
          | Some i => a ← of_option UndefinedBehaviour (allocs_ p !! i);
                      Ok (u64 (offset_ (block_ a) + size_ (block_ a)))
          end = Ok (end_of 0 (block_ <$> bs))) as ->.
  { pose proof (live_blocks_last p bs Hl) as HL. destruct (last (blocks_ p)) as [i|]; [|by subst].
    destruct HL as (a & -> & Hlast). simpl.
    assert (E : end_of 0 (block_ <$> bs) = offset_ (block_ a) + size_ (block_ a)).
    { apply end_of_last. by rewrite fmap_last, Hlast. }
    rewrite u64_small by lia. by rewrite E. }
  cbn [mbind res_bind].
  destruct (fit_loop_ok (allocs_ p) size (buffer_size p) (blocks_ p) [] bs
    (end_of 0 (block_ <$> bs)) (length (blocks_ p))
    (mkFit 0 (2 ^ 64 - 1) (end_of 0 (block_ <$> bs)) (length (blocks_ p)))) as (f & HF & Hf);
    [lia|lia|done|done|done| |].
  { right. split_and!; try done. intros j off w (b & Hj & _). done. }
  cbn [length] in HF. rewrite HF.
  cbn [mbind res_bind]. exists (best_offset f), (best_fit_it f).
  assert (Hlen : length (blocks_ p) = length bs).
  { apply (f_equal length) in Hl. unfold live_blocks in Hl. by rewrite !length_fmap in Hl. }
  simpl in Hf. split.
  - destruct Hf as [[H1 H2]|(H1 & H2 & H3 & H4)]; [left; eauto|right].
    split_and!; [congruence|done|done].
  - rewrite length_app. simpl. rewrite Nat.add_sub. do 3 f_equal.
    apply u64_small. destruct Hf as [[(b & Hb1 & Hb2 & Hb3 & Hb4) H2]|(H1 & -> & H3 & H4)]; [|lia].
    apply list_elem_of_lookup_2 in Hb1. destruct (packed_elem _ _ _ _ Hp Hb1) as (? & ? & ?).
    assert (0 ≤ best_offset f); [|lia]. rewrite Hb2.
    rewrite <- (take_drop (best_fit_it f) (block_ <$> bs)) in Hp.
    apply packed_app in Hp as [Hp _]. apply packed_end in Hp. lia.
Qed.

Lemma best_place_packed p bs size off k :
  PlannerOk p bs → 0 < size → best_place bs size off k →
  0 ≤ off ≤ buffer_size p ∧
  packed 0 (Z.max (buffer_size p) (off + size))
    ((block_ <$> take k bs) ++ mkBlock off size :: (block_ <$> drop k bs)).
Proof.
  intros [Hl Hp Hb Ha] Hs Hbest. rewrite <- (take_drop k bs), fmap_app in Hp.
  assert (Hoff : off = end_of 0 (block_ <$> take k bs) ∧
    match block_ <$> drop k bs with [] => True | c :: _ => off + size ≤ offset_ c end).
  { destruct Hbest as [(w & (b & Hk & Hoff & Hw & E) & _)|(-> & Hoff & _)].
    - rewrite fmap_take. split; [done|]. rewrite fmap_drop, (drop_S _ _ _ Hk). lia.
    - rewrite drop_all, take_ge by lia. done. }
  destruct Hoff as [-> Hc]. split.
  - pose proof Hp as [Hp1 Hp2]%packed_app. apply packed_end in Hp1, Hp2. lia.
  - by apply (packed_insert _ _ _ _ (mkBlock _ size)).
Qed.

Lemma lookup_allocs_snoc allocs a (bs : list MLValueAllocationBlock) (is_ : list nat) :
  (fun i => allocs !! i) <$> is_ = Some <$> bs →
  (fun i => (allocs ++ [a]) !! i) <$> is_ = Some <$> bs.
Proof.
  intros Hl. rewrite <- Hl. apply list_fmap_ext. intros j i Hi.
  apply (f_equal (lookup j)) in Hl. rewrite !list_lookup_fmap, Hi in Hl.
  destruct (bs !! j); simplify_eq/=. rewrite lookup_app_l; [done|]. by eapply lookup_lt_Some.
Qed.

Lemma TraceAllocation_ok p bs idx size :
  PlannerOk p bs → 0 < size → buffer_size p + size < 2 ^ 64 →
  ∃ off k p', best_place bs size off k ∧ TraceAllocation p idx size = Ok p' ∧
    allocs_ p' = allocs_ p ++ [mkAlloc idx (mkBlock off size)] ∧
    PlannerOk p' (take k bs ++ mkAlloc idx (mkBlock off size) :: drop k bs) ∧
    buffer_size p ≤ buffer_size p' ≤ buffer_size p + size.
Proof.
  intros Hok Hs Hov. destruct (TraceAllocation_place p bs idx size) as (off & k & Hbest & HT); [done..|].
  destruct (best_place_packed p bs size off k Hok Hs Hbest) as [Hoff Hpk].
  destruct Hok as [Hl Hp Hb Ha].
  eexists off, k, _. split_and!; [done|done|done| |simpl; lia..].
  split; simpl.
  - unfold live_blocks in *. simpl. rewrite !fmap_app, !fmap_cons.
    rewrite list_lookup_middle by done.
    rewrite !fmap_take, !fmap_drop, (lookup_allocs_snoc _ _ _ _ Hl). done.
  - by rewrite fmap_app.
  - lia.
  - intros a [Hin| ->%list_elem_of_singleton]%elem_of_app; simpl; [|lia].
    destruct (Ha a Hin) as (? & ? & ?). lia.
Qed.

Lemma TraceAllocation_zero p bs idx :
  PlannerOk p bs →
  ∃ p', TraceAllocation p idx 0 = Ok p' ∧ PlannerOk p' bs ∧ buffer_size p' = buffer_size p ∧
    allocs_ p' = allocs_ p ++ [mkAlloc idx (mkBlock 0 0)].
Proof.
  intros [Hl Hp Hb Ha]. eexists. split; [done|]. split_and!; [|done|done].
  split; simpl; [by apply lookup_allocs_snoc|done|done|].
  intros a [Hin| ->%list_elem_of_singleton]%elem_of_app; [by apply Ha|]. simpl. lia.
Qed.

Lemma erase_first_ok allocs idx (bs : list MLValueAllocationBlock) is_ :
  (fun i => allocs !! i) <$> is_ = Some <$> bs →
  (erase_first allocs idx is_ = Ok is_ ∧ idx ∉ index_ <$> bs) ∨
  ∃ l1 a l2 is', bs = l1 ++ a :: l2 ∧ index_ a = idx ∧ idx ∉ index_ <$> l1 ∧
    erase_first allocs idx is_ = Ok is' ∧ (fun i => allocs !! i) <$> is' = Some <$> (l1 ++ l2).
Proof.
  revert bs. induction is_ as [|i is_ IH]; intros [|b bs] Hl; try done.
  { left. split; [done|]. apply not_elem_of_nil. }
  injection Hl as Hi Hl. simpl. rewrite Hi. simpl. destruct (Z.eqb_spec (index_ b) idx) as [E|E].
  { right. exists [], b, bs, is_. split_and!; try done. apply not_elem_of_nil. }
  destruct (IH bs Hl) as [[-> Hn]|(l1 & a & l2 & is' & -> & Ha & Hn & -> & Hl')]; simpl.
  - left. split; [done|]. by apply not_elem_of_cons.
  - right. exists (b :: l1), a, l2, (i :: is'). split_and!; try done.
    + by apply not_elem_of_cons.
    + rewrite fmap_cons, Hi, Hl'. done.
Qed.

Lemma TraceFree_ok p bs idx :
  PlannerOk p bs → NoDup (index_ <$> bs) →
  ∃ p', TraceFree p idx = Ok p' ∧ PlannerOk p' (filter (fun a => index_ a ≠ idx) bs) ∧
    allocs_ p' = allocs_ p ∧ buffer_size p' = buffer_size p.
Proof.
  intros [Hl Hp Hb Ha] Hnd. unfold TraceFree.
  assert (Hfil : ∀ l : list MLValueAllocationBlock, idx ∉ index_ <$> l → filter (fun a => index_ a ≠ idx) l = l).
  { intros l Hn. apply list_filter_all. intros a Hin E. apply Hn, list_elem_of_fmap. eauto. }
  destruct (erase_first_ok (allocs_ p) idx bs (blocks_ p) Hl) as
    [[-> Hn]|(l1 & a & l2 & is' & -> & E & Hn & -> & Hl')]; simpl; eexists; (split; [done|]); split_and!; try done.
  - rewrite Hfil by done. split; done.
  - rewrite fmap_app, fmap_cons, NoDup_app, NoDup_cons in Hnd. destruct Hnd as (_ & _ & Hn2 & _).
    rewrite E in Hn2. rewrite filter_app, filter_cons, decide_False by (by intros ?).
    rewrite !Hfil by done. split; simpl; try done.
    rewrite fmap_app in *. rewrite fmap_cons in Hp. by eapply packed_delete.
Qed.

(** ** Runs *)

Lemma trace_run_app p l1 l2 : trace_run p (l1 ++ l2) = (p' ← trace_run p l1; trace_run p' l2).
Proof.
  revert p. induction l1 as [|o l1 IH]; intros p; simpl; [done|].
  destruct (trace_step p o); simpl; auto.
Qed.

Lemma trace_bytes_app l1 l2 : trace_bytes (l1 ++ l2) = trace_bytes l1 + trace_bytes l2.
Proof. induction l1 as [|[] l1 IH]; simpl; lia. Qed.

Definition sizes_ok (l : list trace_op) : Prop := ∀ idx size, TAlloc idx size ∈ l → 0 ≤ size.

(** What is known of the planner after the run [l]. *)
Record RunOk (l : list trace_op) (p : MemPatternPlanner) (bs : list MLValueAllocationBlock) : Prop := {
  run_planner : PlannerOk p bs;
  run_live : ∀ i, i ∈ index_ <$> bs ↔ i ∈ live_after l;
  run_nodup : NoDup (index_ <$> bs);
  run_ids : index_ <$> allocs_ p = alloc_ids l;
  run_sub : ∀ a, a ∈ bs → a ∈ allocs_ p;
  run_sizes : ∀ a, a ∈ allocs_ p → TAlloc (index_ a) (size_ (block_ a)) ∈ l;
  run_bytes : buffer_size p ≤ trace_bytes l;
}.

Lemma live_after_snoc l o :
  live_after (l ++ [o]) =
    match o with
    | TAlloc idx size => if size =? 0 then live_after l else idx :: live_after l
    | TFree idx => filter (fun x => x ≠ idx) (live_after l)
    end.
Proof. unfold live_after. rewrite foldl_app. done. Qed.

Lemma alloc_ids_app l1 l2 : alloc_ids (l1 ++ l2) = alloc_ids l1 ++ alloc_ids l2.
Proof. apply omap_app. Qed.

Lemma live_allocated l i : i ∈ live_after l → i ∈ alloc_ids l.
Proof.
  induction l as [|o l IH] using rev_ind; [done|]. rewrite live_after_snoc, alloc_ids_app, elem_of_app.
  destruct o as [idx size|idx]; simpl.
  - destruct (size =? 0); [auto|]. intros [->|?]%elem_of_cons; [right; by left|auto].
  - intros [_ ?]%list_elem_of_filter. auto.
Qed.

Lemma run_free_ok l p bs idx :
  RunOk l p bs → ∃ p' bs', TraceFree p idx = Ok p' ∧ RunOk (l ++ [TFree idx]) p' bs'.
Proof.
  intros [H1 H2 H3 H4 H5 H6 H7].
  destruct (TraceFree_ok p bs idx H1 H3) as (p' & HF & Hok & Ea & Eb).
  exists p', (filter (fun a => index_ a ≠ idx) bs). split; [done|]. split; try done.
  - intros i. rewrite live_after_snoc, list_elem_of_filter, <- H2, !list_elem_of_fmap. split.
    + intros (a & -> & [? ?]%list_elem_of_filter). eauto.
    + intros (? & a & -> & ?). exists a. by rewrite list_elem_of_filter.
  - eapply sublist_NoDup; [exact H3|]. apply fmap_sublist, sublist_filter.
  - by rewrite Ea, H4, alloc_ids_app, app_nil_r.
  - intros a [_ ?]%list_elem_of_filter. rewrite Ea. auto.
  - intros a. rewrite Ea, elem_of_app. auto.
  - rewrite Eb, trace_bytes_app. simpl. lia.
Qed.

Lemma run_alloc_ok l p bs idx size :
  RunOk l p bs → 0 ≤ size → idx ∉ alloc_ids l → trace_bytes l + size < 2 ^ 64 →
  ∃ p' bs', TraceAllocation p idx size = Ok p' ∧ RunOk (l ++ [TAlloc idx size]) p' bs'.
Proof.
  intros [H1 H2 H3 H4 H5 H6 H7] Hs Hid Hov.
  assert (Hnew : idx ∉ index_ <$> bs) by (rewrite H2; by intros ?%live_allocated).
  assert (Hsz : ∀ off a, a ∈ allocs_ p ++ [mkAlloc idx (mkBlock off size)] →
    TAlloc (index_ a) (size_ (block_ a)) ∈ l ++ [TAlloc idx size]).
  { intros off a. rewrite !elem_of_app, !list_elem_of_singleton. intros [?%H6| ->]; auto. }
  destruct (decide (size = 0)) as [->|].
  - destruct (TraceAllocation_zero p bs idx H1) as (p' & HT & Hok & Eb & Ea). exists p', bs.
    split; [done|]. split; try done.
    + intros i. by rewrite live_after_snoc.
    + by rewrite Ea, fmap_app, H4, alloc_ids_app.
    + intros a ?. rewrite Ea. apply elem_of_app. auto.
    + rewrite Ea. apply Hsz.
    + rewrite Eb, trace_bytes_app. simpl. lia.
  - destruct (TraceAllocation_ok p bs idx size H1) as (off & k & p' & _ & HT & Ea & Hok & Hbuf); [lia|lia|].
    exists p'. eexists. split; [done|].
    assert (Hperm : take k bs ++ mkAlloc idx (mkBlock off size) :: drop k bs ≡ₚ
      mkAlloc idx (mkBlock off size) :: bs).
    { rewrite <- Permutation_middle, take_drop. done. }
    split; try done.
    + intros i. rewrite live_after_snoc, (proj2 (Z.eqb_neq _ _)), Hperm by lia.
      rewrite fmap_cons, !elem_of_cons, H2. done.
    + rewrite Hperm, fmap_cons. by constructor.
    + by rewrite Ea, fmap_app, H4, alloc_ids_app.
    + intros a. rewrite Hperm, Ea, elem_of_cons, elem_of_app, list_elem_of_singleton.
      intros [->|?%H5]; auto.
    + rewrite Ea. apply Hsz.
    + rewrite trace_bytes_app. simpl. lia.
Qed.

Lemma trace_run_ok l :
  sizes_ok l → NoDup (alloc_ids l) → trace_bytes l < 2 ^ 64 →
  ∃ p bs, trace_run new_MemPatternPlanner l = Ok p ∧ RunOk l p bs.
Proof.
  induction l as [|o l IH] using rev_ind; intros Hs Hnd Hb.
  { exists new_MemPatternPlanner, []. split; [done|]. repeat split; simpl; try done; try constructor;
      intros; set_solver. }
  rewrite alloc_ids_app, NoDup_app in Hnd. destruct Hnd as (Hnd & Hdis & _).
  rewrite trace_bytes_app in Hb. rewrite trace_run_app.
  assert (Hs' : sizes_ok l) by (intros i z ?; eapply Hs, elem_of_app; eauto).
  assert (Hso : ∀ i z, o = TAlloc i z → 0 ≤ z).
  { intros i z ->. eapply Hs, elem_of_app. right. by left. }
  destruct IH as (p & bs & -> & Hok); [done|done| |].
  { destruct o as [i z|]; simpl in Hb; [specialize (Hso i z eq_refl)|]; lia. }
  simpl. destruct o as [idx size|idx]; simpl.
  - destruct (run_alloc_ok l p bs idx size) as (p' & bs' & -> & ?); eauto.
    + intros Hin. eapply Hdis; [done|]. by left.
    + simpl in Hb. lia.
  - destruct (run_free_ok l p bs idx Hok) as (p' & bs' & -> & ?). eauto.
Qed.

Lemma erase_first_allocs p idx p' : TraceFree p idx = Ok p' → allocs_ p' = allocs_ p.
Proof. unfold TraceFree. destruct (erase_first _ _ _); simpl; intros; by simplify_eq. Qed.

Lemma trace_step_prefix p o p' : trace_step p o = Ok p' → allocs_ p `prefix_of` allocs_ p'.
Proof.
  destruct o as [idx size|idx]; simpl; [|by intros ->%erase_first_allocs].
  unfold TraceAllocation. destruct (size =? 0); [intros; simplify_eq; by apply prefix_app_r|].
  match goal with |- mbind _ ?x = _ → _ => destruct x; [|done..] end.
  cbn [mbind res_bind]. destruct (fit_loop _ _ _ _ _); [|done..]. cbn [mbind res_bind].
  intros; simplify_eq. by apply prefix_app_r.
Qed.

Lemma trace_run_prefix p l p' : trace_run p l = Ok p' → allocs_ p `prefix_of` allocs_ p'.
Proof.
  revert p. induction l as [|o l IH]; intros p; simpl; [by intros [= ->]|].
  destruct (trace_step p o) as [q| |] eqn:E; simpl; intros H; simplify_eq.
  etrans; [by eapply trace_step_prefix|by apply IH].
Qed.

Lemma GetBlock_generate p a :
  NoDup (index_ <$> allocs_ p) → a ∈ allocs_ p →
  GetBlock (GenerateMemPattern p) (index_ a) = Some (block_ a).
Proof.
  unfold GetBlock, GenerateMemPattern. simpl. generalize (allocs_ p) as l.
  induction l as [|b l IH] using rev_ind; [by intros _ ?%not_elem_of_nil|].
  rewrite fmap_app, NoDup_app, foldl_app, elem_of_app, list_elem_of_singleton. simpl.
  intros (Hnd & Hdis & _) [Ha| ->]; [|by rewrite lookup_insert_eq].
  rewrite lookup_insert_ne; [by apply IH|]. intros E. eapply (Hdis (index_ a)).
  - apply list_elem_of_fmap. eauto.
  - rewrite E. by left.
Qed.

(** ** The order on locations *)

Lemma strcmp_lt_compare a b : strcmp_lt a b = true ↔ String.compare a b = Lt.
Proof. unfold strcmp_lt. by destruct (String.compare a b). Qed.
Lemma string_compare_refl a : String.compare a a = Eq.
Proof. pose proof (String.compare_antisym a a). by destruct (String.compare a a). Qed.
Lemma strcmp_lt_asym a b : strcmp_lt a b = true → strcmp_lt b a = false.
Proof.
  unfold strcmp_lt. rewrite (String.compare_antisym b a). by destruct (String.compare a b).
Qed.
Lemma strcmp_total a b : strcmp_lt a b = false → strcmp_lt b a = false → a = b.
Proof.
  unfold strcmp_lt. rewrite (String.compare_antisym b a).
  destruct (String.compare a b) eqn:E; try done. by apply String.compare_eq_iff in E as ->.
Qed.

Lemma info_lt_asym x y : info_lt x y = true → info_lt y x = false.
Proof.
  unfold info_lt. repeat match goal with |- context [?a =? ?b] => destruct (Z.eqb_spec a b) end; simpl;
    try lia; rewrite ?Z.ltb_lt, ?Z.ltb_ge; try lia. apply strcmp_lt_asym.
Qed.
Lemma info_lt_irrefl x : info_lt x x = false.
Proof. destruct (info_lt x x) eqn:E; [|done]. rewrite <- E. by apply info_lt_asym. Qed.
Lemma info_equiv_iff x y : info_equiv x y = true ↔ x = y.
Proof.
  unfold info_equiv. rewrite andb_true_iff, !negb_true_iff. split.
  - intros [H1 H2]. revert H1 H2. unfold info_lt. destruct x as [n i m t], y as [n' i' m' t']; simpl.
    destruct (Z.eqb_spec t t'), (Z.eqb_spec t' t); simpl; rewrite ?Z.ltb_ge; try lia.
    destruct (Z.eqb_spec m m'), (Z.eqb_spec m' m); simpl; rewrite ?Z.ltb_ge; try lia.
    destruct (Z.eqb_spec i i'), (Z.eqb_spec i' i); simpl; rewrite ?Z.ltb_ge; try lia.
    intros ? ?. subst. f_equal. by apply strcmp_total.
  - intros ->. by rewrite info_lt_irrefl.
Qed.
Lemma info_eq_iff x y : info_eq x y = true ↔ x = y.
Proof.
  unfold info_eq, strcmp_eq. rewrite !andb_true_iff, !Z.eqb_eq.
  destruct x as [n i m t], y as [n' i' m' t']; simpl. split.
  - intros [[[-> ->] ->] H]. f_equal. destruct (String.compare n n') eqn:E; try done.
    by apply String.compare_eq_iff.
  - intros [= -> -> -> ->]. by rewrite string_compare_refl.
Qed.

(** ** Locations are planned independently *)

Lemma elem_of_info_insert x y l : y ∈ info_insert x l ↔ y = x ∨ y ∈ l.
Proof.
  induction l as [|z l IH]; simpl; [set_solver|].
  destruct (info_lt x z) eqn:E1; [set_solver|]. destruct (info_lt z x) eqn:E2; [set_solver|].
  assert (x = z) as -> by (apply info_equiv_iff; unfold info_equiv; by rewrite E1, E2). set_solver.
Qed.
Lemma NoDup_info_insert x l : x ∉ l → NoDup l → NoDup (info_insert x l).
Proof.
  induction l as [|z l IH]; simpl; intros Hx Hnd; [by repeat constructor|].
  destruct (info_lt x z); [by constructor|]. destruct (info_lt z x); [|done].
  apply NoDup_cons in Hnd as [? ?]. apply not_elem_of_cons in Hx as [? ?].
  constructor; [|auto]. rewrite elem_of_info_insert. naive_solver.
Qed.

Lemma existsb_equiv l s : existsb (info_equiv l) s = true ↔ l ∈ s.
Proof.
  rewrite existsb_exists, list_elem_of_In. split; [|intros; exists l; by rewrite info_equiv_iff].
  intros (x & Hx & ->%info_equiv_iff). done.
Qed.

(** The map has exactly the locations of the plan as keys. *)
Lemma new_planner_keys plan :
  ∃ locs, planner_map_ (new_MLValuePatternPlanner plan) = (fun l => (l, new_MemPatternPlanner)) <$> locs ∧
    NoDup locs ∧ ∀ l, l ∈ locs ↔ l ∈ plan.
Proof.
  eexists. split; [done|].
  induction plan as [|l plan IH] using rev_ind; [split; [constructor|done]|].
  rewrite foldl_app. simpl. destruct IH as [Hnd Hin]. set (s := foldl _ _ _) in *.
  destruct (existsb (info_equiv l) s) eqn:E.
  - apply existsb_equiv in E. split; [done|]. set_solver.
  - assert (l ∉ s) by (rewrite <- existsb_equiv; by rewrite E).
    split; [by apply NoDup_info_insert|]. intros x. rewrite elem_of_info_insert, Hin. set_solver.
Qed.

Lemma at_location_ok locs (g : OrtAllocatorInfo → MemPatternPlanner) l f p :
  NoDup locs → l ∈ locs → f (g l) = Ok p →
  at_location ((fun x => (x, g x)) <$> locs) l f =
    Ok (StatusOK, (fun x => (x, if decide (x = l) then p else g x)) <$> locs).
Proof.
  intros Hnd Hl Hf. induction locs as [|x locs IH]; [by apply not_elem_of_nil in Hl|].
  apply NoDup_cons in Hnd as [Hx Hnd]. rewrite !fmap_cons. cbn [at_location].
  destruct (info_equiv l x) eqn:E.
  - apply info_equiv_iff in E as <-. rewrite Hf. cbn [mbind res_bind]. rewrite decide_True by done.
    do 3 f_equal. apply list_fmap_ext. intros i y Hy.
    rewrite decide_False; [done|]. intros ->. apply Hx. by eapply list_elem_of_lookup_2.
  - assert (x ≠ l) by (intros ->; by rewrite (proj2 (info_equiv_iff l l)) in E).
    apply elem_of_cons in Hl as [->|Hl]; [done|]. rewrite IH by done. cbn [mbind res_bind].
    by rewrite decide_False.
Qed.

Definition ids_in (plan : list OrtAllocatorInfo) (ops : list trace_op) : Prop :=
  ∀ o, o ∈ ops → 0 ≤ op_id o < Z.of_nat (length plan).

Lemma ml_step_ok plan locs (g : OrtAllocatorInfo → MemPatternPlanner) o l p :
  NoDup locs → l ∈ locs → 0 ≤ op_id o → plan !! Z.to_nat (op_id o) = Some l → trace_step (g l) o = Ok p →
  ml_step (mkMLPlanner ((fun x => (x, g x)) <$> locs) plan) o =
    Ok (StatusOK, mkMLPlanner ((fun x => (x, if decide (x = l) then p else g x)) <$> locs) plan).
Proof.
  intros Hnd Hl Ho Hp Hs. destruct o as [idx size|idx]; simpl in *;
    unfold ml_TraceAllocation, ml_TraceFree, location_of; simpl;
    rewrite (proj2 (Z.ltb_ge _ _)), Hp by lia; simpl;
    rewrite (at_location_ok _ _ _ _ p) by done; done.
Qed.

Lemma ops_at_snoc plan l ops o :
  ops_at plan l (ops ++ [o]) =
    ops_at plan l ops ++ (if decide (plan !! Z.to_nat (op_id o) = Some l) then [o] else []).
Proof. unfold ops_at. rewrite filter_app, filter_cons, filter_nil. done. Qed.

Lemma ml_run_snoc g ops o :
  ml_run g (ops ++ [o]) =
    ('(s, g') ← ml_run g ops; if IsOK s then ml_step g' o else Ok (s, g')).
Proof.
  revert g. induction ops as [|o' ops IH]; intros g; simpl.
  - destruct (ml_step g o) as [[s g']|e|]; simpl; try done. destruct s; done.
  - destruct (ml_step g o') as [[s g']|e|]; simpl; try done. destruct s; simpl; [done|apply IH].
Qed.

Lemma ml_run_ok plan locs ops :
  NoDup locs → (∀ l, l ∈ locs ↔ l ∈ plan) → ids_in plan ops →
  (∀ ops', ops' `prefix_of` ops → ∀ l, ∃ p, trace_run new_MemPatternPlanner (ops_at plan l ops') = Ok p) →
  ∃ g, ml_run (mkMLPlanner ((fun l => (l, new_MemPatternPlanner)) <$> locs) plan) ops =
      Ok (StatusOK, mkMLPlanner ((fun x => (x, g x)) <$> locs) plan) ∧
    ∀ l, trace_run new_MemPatternPlanner (ops_at plan l ops) = Ok (g l).
Proof.
  intros Hnd Hin. induction ops as [|o ops IH] using rev_ind; intros Hids Hall.
  { exists (fun _ => new_MemPatternPlanner). done. }
  destruct IH as (g & Hg & Hrun).
  { intros o' ?. apply Hids, elem_of_app. auto. }
  { intros ops' Hpre. apply Hall. by apply prefix_app_r. }
  assert (Ho : 0 ≤ op_id o < Z.of_nat (length plan)) by (apply Hids, elem_of_app; right; by left).
  destruct (lookup_lt_is_Some_2 plan (Z.to_nat (op_id o))) as [l Hl]; [lia|].
  destruct (Hall (ops ++ [o]) ltac:(done) l) as [p Hp].
  rewrite ops_at_snoc, decide_True, trace_run_app, Hrun in Hp by done. simpl in Hp.
  assert (Hp' : trace_step (g l) o = Ok p) by (by destruct (trace_step (g l) o)).
  exists (fun x => if decide (x = l) then p else g x). split.
  - rewrite ml_run_snoc, Hg. cbn [mbind res_bind IsOK StatusOK].
    apply ml_step_ok; [done| |lia|done|done]. apply Hin. by eapply list_elem_of_lookup_2.
  - intros x. rewrite ops_at_snoc, trace_run_app, Hrun. simpl. case_decide as E.
    + assert (x = l) as -> by congruence. rewrite decide_True by done. simpl. by rewrite Hp'.
    + rewrite decide_False by congruence. done.
Qed.

Lemma get_patterns_fmap (f : OrtAllocatorInfo → MemoryPattern) locs l :
  l ∈ locs → get_patterns locs (f <$> locs) l = Some (f l).
Proof.
  induction locs as [|x locs IH]; [by intros ?%not_elem_of_nil|]. intros Hl. simpl.
  destruct (info_eq x l) eqn:E; [by apply info_eq_iff in E as ->|].
  apply elem_of_cons in Hl as [->|Hl]; [|auto]. by rewrite (proj2 (info_eq_iff x x)) in E.
Qed.

Lemma trace_bytes_sublist l l' :
  sizes_ok l → l' `sublist_of` l → 0 ≤ trace_bytes l' ≤ trace_bytes l.
Proof.
  intros Hs. induction 1 as [|o l' l _ IH|o l' l _ IH]; simpl; [lia|..].
  all: assert (Hs' : sizes_ok l) by (intros i z ?; eapply Hs; by right).
  all: specialize (IH Hs'); destruct o as [i z|]; [|lia].
  all: assert (0 ≤ z) by (eapply Hs; by left); lia.
Qed.

Lemma trace_run_sublist l l' :
  sizes_ok l → NoDup (alloc_ids l) → trace_bytes l < 2 ^ 64 → l' `sublist_of` l →
  ∃ p bs, trace_run new_MemPatternPlanner l' = Ok p ∧ RunOk l' p bs.
Proof.
  intros Hs Hnd Hb Hsub. apply trace_run_ok.
  - intros i z Hi. eapply Hs. by eapply elem_of_sublist.
  - eapply sublist_NoDup; [exact Hnd|]. by apply sublist_omap.
  - pose proof (trace_bytes_sublist l l' Hs Hsub). lia.
Qed.

(** A run from the start, location by location. *)
Lemma ml_run_new plan ops :
  ids_in plan ops → sizes_ok ops → NoDup (alloc_ids ops) → trace_bytes ops < 2 ^ 64 →
  ∃ locs (g : OrtAllocatorInfo → MemPatternPlanner), (∀ l, l ∈ locs ↔ l ∈ plan) ∧ NoDup locs ∧
    ml_run (new_MLValuePatternPlanner plan) ops = Ok (StatusOK, mkMLPlanner ((fun x => (x, g x)) <$> locs) plan) ∧
    ∀ l, trace_run new_MemPatternPlanner (ops_at plan l ops) = Ok (g l).
Proof.
  intros Hids Hs Hnd Hb. destruct (new_planner_keys plan) as (locs & Hm & Hndl & Hin).
  destruct (ml_run_ok plan locs ops Hndl Hin Hids) as (g & Hg & Hrun).
  { intros ops' Hpre x. destruct (trace_run_sublist ops (ops_at plan x ops')) as (p & _ & ? & _); eauto.
    etrans; [apply sublist_filter|]. destruct Hpre as [k ->]. by apply sublist_inserts_r. }
  exists locs, g. split_and!; [done|done| |done]. rewrite <- Hg. unfold new_MLValuePatternPlanner in *. simpl in Hm. by rewrite Hm.
Qed.

(** ** Theorems *)

(** C20. Two values that hold blocks at the same time of a run get disjoint ranges
    of the requested sizes inside the peak size, and the peak is at most the
    sum of the requests. *)
Theorem live_values_disjoint l1 l2 i j :
  sizes_ok (l1 ++ l2) → NoDup (alloc_ids (l1 ++ l2)) → trace_bytes (l1 ++ l2) < 2 ^ 64 →
  i ∈ live_after l1 → j ∈ live_after l1 → i ≠ j →
  ∃ p bi bj, trace_run new_MemPatternPlanner (l1 ++ l2) = Ok p ∧
    let pat := GenerateMemPattern p in
    GetBlock pat i = Some bi ∧ GetBlock pat j = Some bj ∧
    (offset_ bi + size_ bi ≤ offset_ bj ∨ offset_ bj + size_ bj ≤ offset_ bi) ∧
    TAlloc i (size_ bi) ∈ l1 ∧ TAlloc j (size_ bj) ∈ l1 ∧
    0 ≤ offset_ bi ∧ offset_ bi + size_ bi ≤ PeakSize pat ∧
    0 ≤ offset_ bj ∧ offset_ bj + size_ bj ≤ PeakSize pat ∧
    PeakSize pat ≤ trace_bytes (l1 ++ l2).
Proof.
  intros Hs Hnd Hb Hi Hj Hij.
  destruct (trace_run_sublist (l1 ++ l2) l1) as (p1 & bs1 & HR1 & [K1 K2 K3 K4 K5 K6 K7]); try done.
  { by apply sublist_inserts_r. }
  destruct (trace_run_ok (l1 ++ l2)) as (p & bs & HR & [J1 J2 J3 J4 J5 J6 J7]); try done.
  assert (Hpre : allocs_ p1 `prefix_of` allocs_ p).
  { rewrite trace_run_app, HR1 in HR. simpl in HR. by eapply trace_run_prefix. }
  apply K2, list_elem_of_fmap in Hi as (a & -> & Ha). apply K2, list_elem_of_fmap in Hj as (b & -> & Hb').
  assert (Hin : ∀ x, x ∈ bs1 → x ∈ allocs_ p).
  { intros x Hx%K5. destruct Hpre as [k ->]. apply elem_of_app. auto. }
  assert (Hblk : ∀ x, x ∈ bs1 → GetBlock (GenerateMemPattern p) (index_ x) = Some (block_ x)).
  { intros x Hx%Hin. apply GetBlock_generate; [|done]. by rewrite J4. }
  exists p, (block_ a), (block_ b). split; [done|]. cbv zeta.
  destruct (pl_allocs _ _ J1 a (Hin a Ha)) as (A1 & A2 & A3).
  destruct (pl_allocs _ _ J1 b (Hin b Hb')) as (B1 & B2 & B3).
  split_and!; auto.
  apply list_elem_of_lookup in Ha as (x & Hx), Hb' as (y & Hy).
  pose proof (pl_packed _ _ K1) as Hpk.
  assert (Hx' : (block_ <$> bs1) !! x = Some (block_ a)) by (by rewrite list_lookup_fmap, Hx).
  assert (Hy' : (block_ <$> bs1) !! y = Some (block_ b)) by (by rewrite list_lookup_fmap, Hy).
  destruct (lt_eq_lt_dec x y) as [[Hlt| ->]|Hlt]; [left|simplify_eq|right]; by eapply packed_disjoint.
Qed.

(** A request is placed in a gap between live blocks that leaves the least
    waste, or behind the last block if no gap is large enough. *)
Theorem TraceAllocation_best_fit l idx size :
  sizes_ok l → NoDup (alloc_ids l) → 0 < size → trace_bytes l + size < 2 ^ 64 →
  ∃ p bs off k p', trace_run new_MemPatternPlanner l = Ok p ∧
    live_blocks p = Some <$> bs ∧ best_place bs size off k ∧
    TraceAllocation p idx size = Ok p' ∧
    allocs_ p' = allocs_ p ++ [mkAlloc idx (mkBlock off size)] ∧
    live_blocks p' = Some <$> (take k bs ++ mkAlloc idx (mkBlock off size) :: drop k bs).
Proof.
  intros Hs Hnd Hsz Hb. destruct (trace_run_ok l) as (p & bs & HR & HK); [done|done|lia|].
  pose proof (run_bytes _ _ _ HK). pose proof (run_planner _ _ _ HK) as Hok.
  destruct (TraceAllocation_ok p bs idx size) as (off & k & p' & Hbest & HT & Ea & Hok' & _); [done|done|lia|].
  exists p, bs, off, k, p'. split_and!; try done; [apply Hok|apply Hok'].
Qed.

(** A run through the planner of all locations is, for each location of the
    plan, a run of its own planner on its own requests. *)
Theorem patterns_by_location plan ops l :
  ids_in plan ops → sizes_ok ops → NoDup (alloc_ids ops) → trace_bytes ops < 2 ^ 64 → l ∈ plan →
  ∃ g grp p, ml_run (new_MLValuePatternPlanner plan) ops = Ok (StatusOK, g) ∧
    GeneratePatterns g (Some (mkGroup [] [])) = (StatusOK, Some grp) ∧
    trace_run new_MemPatternPlanner (ops_at plan l ops) = Ok p ∧
    GetPatterns grp l = Some (GenerateMemPattern p).
Proof.
  intros Hids Hs Hnd Hb Hl. destruct (ml_run_new plan ops Hids Hs Hnd Hb) as (locs & g & Hin & _ & Hg & Hrun).
  exists (mkMLPlanner ((fun x => (x, g x)) <$> locs) plan). eexists. exists (g l). split_and!; [done|done|done|].
  unfold GetPatterns; simpl. rewrite <- !list_fmap_compose. unfold compose. simpl. rewrite list_fmap_id.
  apply (get_patterns_fmap (fun x => GenerateMemPattern (g x))). by apply Hin.
Qed.

(** ** Examples *)

Definition demo_trace : list trace_op :=
  [TAlloc 0 100; TAlloc 1 50; TFree 0; TAlloc 2 40; TAlloc 3 60; TFree 1; TAlloc 4 70].
Lemma demo_trace_sizes : sizes_ok demo_trace.
Proof. intros i z Hi. repeat (apply elem_of_cons in Hi as [[= ->]|Hi]); try lia; by apply not_elem_of_nil in Hi. Qed.

Lemma live_values_disjoint_witness :
  ∃ p bi bj, trace_run new_MemPatternPlanner demo_trace = Ok p ∧
    GetBlock (GenerateMemPattern p) 2 = Some bi ∧ GetBlock (GenerateMemPattern p) 1 = Some bj ∧
    (offset_ bi + size_ bi ≤ offset_ bj ∨ offset_ bj + size_ bj ≤ offset_ bi).
Proof.
  destruct (live_values_disjoint (take 4 demo_trace) (drop 4 demo_trace) 2 1) as
    (p & bi & bj & H1 & H2 & H3 & H4 & _).
  - exact demo_trace_sizes.
  - apply (bool_decide_unpack _). vm_compute. reflexivity.
  - vm_compute. reflexivity.
  - apply (bool_decide_unpack _). vm_compute. reflexivity.
  - apply (bool_decide_unpack _). vm_compute. reflexivity.
  - lia.
  - exists p, bi, bj. auto.
Defined.

Lemma TraceAllocation_best_fit_witness :
  ∃ p p', trace_run new_MemPatternPlanner (take 3 demo_trace) = Ok p ∧ TraceAllocation p 2 40 = Ok p'.
Proof.
  destruct (TraceAllocation_best_fit (take 3 demo_trace) 2 40) as (p & bs & off & k & p' & H1 & _ & _ & H2 & _).
  - intros i z Hi. apply (demo_trace_sizes i z).
    eapply elem_of_sublist; [exact Hi|]. apply sublist_take.
  - apply (bool_decide_unpack _). vm_compute. reflexivity.
  - lia.
  - vm_compute. reflexivity.
  - eauto.
Defined.

Definition demo_cpu : OrtAllocatorInfo := mkInfo "Cpu" 0 0 1.
Definition demo_gpu : OrtAllocatorInfo := mkInfo "Cuda" 0 0 1.
Definition demo_plan : list OrtAllocatorInfo := [demo_gpu; demo_cpu; demo_cpu; demo_gpu; demo_cpu].
Lemma patterns_by_location_witness :
  ∃ g p, ml_run (new_MLValuePatternPlanner demo_plan) demo_trace = Ok (StatusOK, g) ∧
    trace_run new_MemPatternPlanner [TAlloc 0 100; TFree 0; TAlloc 3 60] = Ok p.
Proof.
  destruct (patterns_by_location demo_plan demo_trace demo_gpu) as (g & grp & p & H1 & _ & H2 & _).
  - intros o Ho. repeat (apply elem_of_cons in Ho as [->|Ho]; [simpl; lia|]). by apply not_elem_of_nil in Ho.
  - exact demo_trace_sizes.
  - apply (bool_decide_unpack _). vm_compute. reflexivity.
  - vm_compute. reflexivity.
  - left.
  - exists g, p. split; [exact H1|]. rewrite <- H2. vm_compute. reflexivity.
Defined.
