(* ===== verification/AllocPlanner.v ===== *)
(** The static allocation planner: [MLValueNameIdxMap] of
    [mlvalue_name_idx_map.h], [SequentialExecutionPlan] of
    [sequential_execution_plan.h] and [PlannerImpl] of
    [allocation_planner.cc], which counts the uses of every value, decides
    which values share a buffer and when a buffer is freed. *)
From S2P Require Import Prelude MemPattern.

(** ** Names and indices *)

Record MLValueNameIdxMap := mkNameIdx { name_map_ : gmap string nat; mlvalue_max_idx_ : nat }.

Definition new_MLValueNameIdxMap : MLValueNameIdxMap := mkNameIdx ∅ 0.
Definition Add (m : MLValueNameIdxMap) (name : string) : nat * MLValueNameIdxMap :=
  match name_map_ m !! name with
  | Some idx => (idx, m)
  | None => (mlvalue_max_idx_ m,
             mkNameIdx (<[name := mlvalue_max_idx_ m]> (name_map_ m)) (S (mlvalue_max_idx_ m)))
  end.
Definition GetIdx (m : MLValueNameIdxMap) (name : string) : Status * Z :=
  match name_map_ m !! name with
  | Some idx => (StatusOK, Z.of_nat idx)
  | None => (Some FAIL, -1)
  end.
Definition MaxIdx (m : MLValueNameIdxMap) : nat := mlvalue_max_idx_ m.
Definition map_Size (m : MLValueNameIdxMap) : nat := size (name_map_ m).

(** ** Graphs, kernels and plans *)

(** The types of values belong to the ONNX library: whether a type is a tensor
    type, and the size of an element of the tensor. *)
Class TensorTypes (T : Type) := {
  has_tensor_type : T → bool;
  tensor_element_size : T → option Z;
}.

(** A dimension of [TensorShapeProto]. *)
Inductive Dim :=
  | DimValue (v : Z)
  | DimParam (s : string)
  | DimNone.

Record NodeArg (T : Type) := mkNodeArg {
  na_name : string;
  na_exists : bool;
  na_type : T;
  na_shape : option (list Dim);
}.
Arguments mkNodeArg {T}.
Arguments na_name {T}.
Arguments na_exists {T}.
Arguments na_type {T}.
Arguments na_shape {T}.

Record KernelDef := mkKernelDef {
  kd_alias : list (Z * Z);
  kd_may_inplace : list (Z * Z);
  kd_input_memory_type : nat → Z;
  kd_output_memory_type : nat → Z;
  kd_exec_queue_id : Z;
}.

(** An execution provider through the allocators it offers per memory type. *)
Definition Provider : Type := Z → OrtAllocatorInfo.
Definition OrtMemTypeCPUInput : Z := -2.
Definition OrtMemTypeCPUOutput : Z := -1.
Definition OrtMemTypeDefault : Z := 0.
Definition MemTypeOnCpuExplicitly (t : Z) : bool := (t =? OrtMemTypeCPUInput) || (t =? OrtMemTypeCPUOutput).

(** A node with the kernel definition the registry finds for it and the
    provider it is assigned to. *)
Record Node (T : Type) := mkNode {
  n_index : Z;
  n_inputs : list (NodeArg T);
  n_implicit_inputs : list (NodeArg T);
  n_outputs : list (NodeArg T);
  n_kernel : option KernelDef;
  n_provider : option Provider;
}.
Arguments mkNode {T}.
Arguments n_index {T}.
Arguments n_inputs {T}.
Arguments n_implicit_inputs {T}.
Arguments n_outputs {T}.
Arguments n_kernel {T}.
Arguments n_provider {T}.

(** [g_topo] are the nodes in topological order, [g_nodes] all nodes in the
    order of the node container. *)
Record GraphView (T : Type) := mkGraphView {
  g_inputs : list (NodeArg T);
  g_outer : list (NodeArg T);
  g_initializers : list (NodeArg T);
  g_topo : list (Node T);
  g_nodes : list (Node T);
  g_outputs : list (NodeArg T);
  g_cpu : Provider;
  g_parallel : bool;
}.
Arguments mkGraphView {T}.
Arguments g_inputs {T}.
Arguments g_outer {T}.
Arguments g_initializers {T}.
Arguments g_topo {T}.
Arguments g_nodes {T}.
Arguments g_outputs {T}.
Arguments g_cpu {T}.
Arguments g_parallel {T}.

Inductive AllocKind := kAllocate | kReuse | kPreExisting | kAllocateStatically | kAllocateOutput.
#[export] Instance AllocKind_eq_dec : EqDecision AllocKind.
Proof. solve_decision. Defined.

Record AllocPlanPerValue (T : Type) := mkAllocPlan {
  alloc_kind : AllocKind;
  value_type : option T;
  location : OrtAllocatorInfo;
  reused_buffer : nat;
  create_fence_if_async : bool;
}.
Arguments mkAllocPlan {T}.
Arguments alloc_kind {T}.
Arguments value_type {T}.
Arguments location {T}.
Arguments reused_buffer {T}.
Arguments create_fence_if_async {T}.

Definition CPU : string := "Cpu".
Definition default_alloc_plan {T} : AllocPlanPerValue T :=
  mkAllocPlan kAllocate None (mkInfo CPU 0 0 1) 0 false.
Definition set_kind {T} (k : AllocKind) (p : AllocPlanPerValue T) : AllocPlanPerValue T :=
  mkAllocPlan k (value_type p) (location p) (reused_buffer p) (create_fence_if_async p).
Definition set_value_type {T} (t : T) (p : AllocPlanPerValue T) : AllocPlanPerValue T :=
  mkAllocPlan (alloc_kind p) (Some t) (location p) (reused_buffer p) (create_fence_if_async p).
Definition set_location {T} (l : OrtAllocatorInfo) (p : AllocPlanPerValue T) : AllocPlanPerValue T :=
  mkAllocPlan (alloc_kind p) (value_type p) l (reused_buffer p) (create_fence_if_async p).
Definition set_reused {T} (b : nat) (p : AllocPlanPerValue T) : AllocPlanPerValue T :=
  mkAllocPlan kReuse (value_type p) (location p) b (create_fence_if_async p).
Definition set_fence {T} (p : AllocPlanPerValue T) : AllocPlanPerValue T :=
  mkAllocPlan (alloc_kind p) (value_type p) (location p) (reused_buffer p) true.

Record NodeExecutionPlan := mkStep { node_index : Z; free_from_index : Z; free_to_index : Z }.
Definition new_step (n : Z) : NodeExecutionPlan := mkStep n 1 0.

Record SequentialExecutionPlan (T : Type) := mkExecPlan {
  allocation_plan : list (AllocPlanPerValue T);
  execution_plan : list NodeExecutionPlan;
  to_be_freed : list nat;
}.
Arguments mkExecPlan {T}.
Arguments allocation_plan {T}.
Arguments execution_plan {T}.
Arguments to_be_freed {T}.

(** ** [PlannerImpl] *)

Record MLValueInfo (T : Type) := mkValueInfo {
  p_def_site : option (NodeArg T);
  usecount : Z;
  reused_buffer_index : nat;
}.
Arguments mkValueInfo {T}.
Arguments p_def_site {T}.
Arguments usecount {T}.
Arguments reused_buffer_index {T}.

(** [freelist_] pairs a buffer with the step after which it is free, most
    recent first. *)
Record PState (T : Type) := mkPState {
  ml_value_info_ : list (MLValueInfo T);
  plan_values : list (AllocPlanPerValue T);
  freelist_ : list (nat * nat);
}.
Arguments mkPState {T}.
Arguments ml_value_info_ {T}.
Arguments plan_values {T}.
Arguments freelist_ {T}.

Section planner.
Context {T : Type} `{!TensorTypes T}.
Context (names : MLValueNameIdxMap) (g : GraphView T).
Implicit Types (st : PState T).

Definition with_info st l := mkPState l (plan_values st) (freelist_ st).
Definition with_plan st l := mkPState (ml_value_info_ st) l (freelist_ st).
Definition with_freelist st l := mkPState (ml_value_info_ st) (plan_values st) l.

Definition Index (name : string) : res nat := of_option EnforceFailed (name_map_ names !! name).

Definition ValueInfo st (n : nat) : res (MLValueInfo T) :=
  of_option EnforceFailed (ml_value_info_ st !! n).
Definition UseCount st (n : nat) : res Z := i ← ValueInfo st n; Ok (usecount i).
Definition Buffer st (n : nat) : res nat := i ← ValueInfo st n; Ok (reused_buffer_index i).
Definition AllocPlan st (n : nat) : res (AllocPlanPerValue T) :=
  of_option EnforceFailed (plan_values st !! n).

Definition add_use st (n : nat) (k : Z) : res (PState T) :=
  _ ← ValueInfo st n;
  Ok (with_info st (alter (fun i => mkValueInfo (p_def_site i) (usecount i + k) (reused_buffer_index i)) n
                      (ml_value_info_ st))).
Definition update_plan st (n : nat) (f : AllocPlanPerValue T → AllocPlanPerValue T) : res (PState T) :=
  _ ← AllocPlan st n;
  Ok (with_plan st (alter f n (plan_values st))).

Definition ProcessDef st (id : nat) (p_def_site : NodeArg T) : res (PState T) :=
  _ ← ValueInfo st id;
  Ok (with_info st (<[id := mkValueInfo (Some p_def_site) 0 id]> (ml_value_info_ st))).

Definition Reuse st (reused reused_for : nat) : res (PState T) :=
  _ ← enforce (negb (reused =? reused_for)%nat);
  original ← Buffer st reused;
  _ ← ValueInfo st reused_for;
  let st := with_info st (alter (fun i => mkValueInfo (p_def_site i) (usecount i) original) reused_for
                            (ml_value_info_ st)) in
  uc ← UseCount st reused_for;
  st ← add_use st original uc;
  update_plan st reused_for (set_reused original).

(** ** Sizes *)

Definition same_dim (d1 d2 : Dim) : bool :=
  match d1, d2 with
  | DimValue v1, DimValue v2 => v1 =? v2
  | DimParam s1, DimParam s2 => bool_decide (s1 = s2)
  | _, _ => false
  end.
Fixpoint SameShape (shape1 shape2 : list Dim) : bool :=
  match shape1, shape2 with
  | [], [] => true
  | d1 :: s1, d2 :: s2 => same_dim d1 d2 && SameShape s1 s2
  | _, _ => false
  end.
Definition GetElementSize (t : T) : res Z := of_option EnforceFailed (tensor_element_size t).
Definition SameSize (shape1 : list Dim) (t1 : T) (shape2 : list Dim) (t2 : T) : res bool :=
  s1 ← GetElementSize t1;
  s2 ← GetElementSize t2;
  Ok ((s1 =? s2) && SameShape shape1 shape2).
Definition SameSizeArg (arg1 arg2 : NodeArg T) : res bool :=
  if negb (na_exists arg1) || negb (na_exists arg2) then Ok false
  else match na_shape arg1, na_shape arg2 with
       | Some s1, Some s2 => SameSize s1 (na_type arg1) s2 (na_type arg2)
       | _, _ => Ok false
       end.

(** ** Candidates for reuse *)

Definition input_at (node : Node T) (i : Z) : option (NodeArg T) :=
  if 0 <=? i then n_inputs node !! Z.to_nat i else None.

(** An input that the kernel requires the output to alias. *)
Fixpoint find_alias (node : Node T) (output_arg_num : Z) (l : list (Z * Z)) : res (option nat) :=
  match l with
  | [] => Ok None
  | (i, o) :: l' =>
      if o =? output_arg_num then
        match input_at node i with
        | Some arg => if na_exists arg then x ← Index (na_name arg); Ok (Some x)
                      else find_alias node output_arg_num l'
        | None => find_alias node output_arg_num l'
        end
      else find_alias node output_arg_num l'
  end.

(** An input that the kernel may overwrite and that has no other use left. *)
Fixpoint find_inplace st (node : Node T) (output_arg : NodeArg T) (output_arg_num : Z)
    (l : list (Z * Z)) : res (option nat) :=
  match l with
  | [] => Ok None
  | (i, o) :: l' =>
      let next := find_inplace st node output_arg output_arg_num l' in
      if o =? output_arg_num then
        match input_at node i with
        | Some arg =>
            if na_exists arg then
              x ← Index (na_name arg);
              original ← Buffer st x;
              uc ← UseCount st original;
              if 1 =? uc then
                same ← SameSizeArg arg output_arg;
                if same : bool then Ok (Some x) else next
              else next
            else next
        | None => next
        end
      else next
  end.

Definition FindReusableInput st (node : Node T) (output_arg_num : Z) : res (option nat) :=
  output_arg ← of_option UndefinedBehaviour (n_outputs node !! Z.to_nat output_arg_num);
  kd ← of_option EnforceFailed (n_kernel node);
  a ← find_alias node output_arg_num (kd_alias kd);
  match a with
  | Some x => Ok (Some x)
  | None => find_inplace st node output_arg output_arg_num (kd_may_inplace kd)
  end.

(** The loop over the free list: the buffer found and the rest of the list. *)
Fixpoint find_free st (required_shape : list Dim) (required_type : T)
    (required_location : OrtAllocatorInfo) (l : list (nat * nat)) :
    res (option (nat * list (nat * nat))) :=
  match l with
  | [] => Ok None
  | (reusable, pt) :: l' =>
      info ← ValueInfo st reusable;
      arg ← of_option UndefinedBehaviour (p_def_site info);
      x ← Index (na_name arg);
      available ← AllocPlan st x;
      let next := o ← find_free st required_shape required_type required_location l';
                  Ok (option_map (fun '(b, rest) => (b, (reusable, pt) :: rest)) o) in
      if negb (info_eq (location available) required_location) then next
      else match na_shape arg with
           | None => next
           | Some s =>
               same ← SameSize s (na_type arg) required_shape required_type;
               if same : bool then Ok (Some (reusable, l')) else next
           end
  end.

Definition FindReusableTensor st (output_arg : NodeArg T) : res (option (nat * PState T)) :=
  match na_shape output_arg with
  | None => Ok None
  | Some shape =>
      x ← Index (na_name output_arg);
      p ← AllocPlan st x;
      o ← find_free st shape (na_type output_arg) (location p) (freelist_ st);
      Ok (option_map (fun '(b, rest) => (b, with_freelist st rest)) o)
  end.

(** ** Use counts *)

Definition define_use st (arg : NodeArg T) : res (PState T) :=
  index ← Index (na_name arg);
  st ← ProcessDef st index arg;
  add_use st index 1.

Definition count_input st (arg : NodeArg T) : res (PState T) :=
  if na_exists arg then index ← Index (na_name arg); add_use st index 1 else Ok st.

Definition count_output (kd : KernelDef) (provider : Provider) st (io : nat * NodeArg T) :
    res (PState T) :=
  let '(i, arg) := io in
  if na_exists arg then
    index ← Index (na_name arg);
    st ← ProcessDef st index arg;
    st ← add_use st index 1;
    if bool_decide (i_name (provider OrtMemTypeDefault) = CPU) then Ok st
    else
      let memory_type := kd_output_memory_type kd i in
      if memory_type =? OrtMemTypeDefault
      then update_plan st index (set_location (provider OrtMemTypeDefault))
      else update_plan st index (set_location (provider memory_type))
  else Ok st.

Definition mark_fence st (arg : NodeArg T) : res (PState T) :=
  if na_exists arg then index ← Index (na_name arg); update_plan st index set_fence else Ok st.

Definition indexed {A} (l : list A) : list (nat * A) := imap pair l.

(** One round of the loop over the execution plan; the first component is the
    status the function returns with. *)
Definition count_node (sst : Status * PState T) (node : Node T) : res (Status * PState T) :=
  let '(s, st) := sst in
  if negb (IsOK s) then Ok (s, st)
  else
    st ← foldM count_input st (n_inputs node);
    st ← foldM count_input st (n_implicit_inputs node);
    match n_kernel node with
    | None => Ok (Some FAIL, st)
    | Some kd =>
        provider ← of_option EnforceFailed (n_provider node);
        st ← foldM (count_output kd provider) st (indexed (n_outputs node));
        st ← (if kd_exec_queue_id kd =? 0 then Ok st
              else foldM mark_fence st (n_inputs node ++ n_implicit_inputs node ++ n_outputs node));
        Ok (StatusOK, st)
    end.

Definition count_graph_output st (arg : NodeArg T) : res (PState T) :=
  index ← Index (na_name arg); add_use st index 1.

Definition ComputeUseCounts st : res (Status * PState T) :=
  st ← foldM define_use st (g_inputs g);
  st ← foldM define_use st (g_outer g);
  st ← foldM define_use st (g_initializers g);
  '(s, st) ← foldM count_node (StatusOK, st) (g_topo g);
  if IsOK s then st ← foldM count_graph_output st (g_outputs g); Ok (StatusOK, st)
  else Ok (s, st).

(** ** Reuse *)

Definition setup_preexisting st (arg : NodeArg T) : res (PState T) :=
  index ← Index (na_name arg);
  update_plan st index (fun p => set_value_type (na_type arg) (set_kind kPreExisting p)).

Definition plan_weight (node : Node T) st (io : nat * NodeArg T) : res (PState T) :=
  let '(i, arg) := io in
  if negb (na_exists arg) then Ok st
  else if negb (existsb (fun w => bool_decide (na_name w = na_name arg)) (g_initializers g)) then Ok st
  else
    wt_index ← Index (na_name arg);
    _ ← AllocPlan st wt_index;
    provider ← of_option EnforceFailed (n_provider node);
    kd ← of_option UndefinedBehaviour (n_kernel node);
    let loc := if MemTypeOnCpuExplicitly (kd_input_memory_type kd i)
               then g_cpu g OrtMemTypeDefault else provider OrtMemTypeDefault in
    update_plan st wt_index (fun p => set_location loc (set_kind kAllocateStatically p)).

Definition GeneratePlanForWeights st : res (PState T) :=
  foldM (fun st node => foldM (plan_weight node) st (indexed (n_inputs node))) st (g_nodes g).

Definition IsNonTensor (arg : NodeArg T) : bool := negb (has_tensor_type (na_type arg)).

(** [std::find] over the graph outputs compares node-arg pointers; a graph has
    one node arg per name. *)
Definition is_graph_output (arg : NodeArg T) : bool :=
  existsb (fun o => bool_decide (na_name o = na_name arg)) (g_outputs g).

(** The buffer for one output, and the counter [output_arg_num], which is not
    advanced past an output that does not exist. *)
Definition plan_output (node : Node T) (sn : PState T * Z) (arg : NodeArg T) : res (PState T * Z) :=
  let '(st, output_arg_num) := sn in
  if negb (na_exists arg) then Ok (st, output_arg_num)
  else
    current ← Index (na_name arg);
    st ← update_plan st current (set_value_type (na_type arg));
    st ←
      (if is_graph_output arg then update_plan st current (set_kind kAllocateOutput)
       else if IsNonTensor arg then update_plan st current (set_kind kAllocate)
       else
         r ← FindReusableInput st node output_arg_num;
         match r with
         | Some reused => Reuse st reused current
         | None =>
             t ← (if g_parallel g then Ok None else FindReusableTensor st arg);
             match t with
             | Some (reused, st) => Reuse st reused current
             | None => update_plan st current (set_kind kAllocate)
             end
         end);
    Ok (st, output_arg_num + 1).

(** One use less; the buffer is free after step [pc] when it was the last. *)
Definition release (pc : nat) st (arg : NodeArg T) : res (PState T) :=
  if na_exists arg then
    x ← Index (na_name arg);
    original ← Buffer st x;
    st ← add_use st original (-1);
    uc ← UseCount st original;
    if uc =? 0 then Ok (with_freelist st ((original, pc) :: freelist_ st)) else Ok st
  else Ok st.

Definition plan_node st (pn : nat * Node T) : res (PState T) :=
  let '(pc, node) := pn in
  '(st, _) ← foldM (plan_output node) (st, 0) (n_outputs node);
  st ← foldM (release pc) st (n_inputs node);
  st ← foldM (release pc) st (n_implicit_inputs node);
  foldM (release pc) st (n_outputs node).

Definition ComputeReusePlan st : res (PState T) :=
  st ← foldM setup_preexisting st (g_inputs g);
  st ← foldM setup_preexisting st (g_outer g);
  st ← GeneratePlanForWeights st;
  foldM plan_node st (indexed (g_topo g)).

(** ** The deallocation plan *)

(** The variables of the loop: the plan, [has_prev_dealloc_point],
    [prev_dealloc_point] and [current]. *)
Record DState := mkDState {
  d_plan : list NodeExecutionPlan;
  d_has_prev : bool;
  d_prev : nat;
  d_current : Z;
}.

Definition set_free_to (v : Z) (s : NodeExecutionPlan) := mkStep (node_index s) (free_from_index s) v.
Definition set_free_from (v : Z) (s : NodeExecutionPlan) := mkStep (node_index s) v (free_to_index s).
Definition alter_step (f : NodeExecutionPlan → NodeExecutionPlan) (n : nat) (l : list NodeExecutionPlan) :
    res (list NodeExecutionPlan) :=
  _ ← of_option UndefinedBehaviour (l !! n); Ok (alter f n l).

Definition dealloc_step (d : DState) (e : nat * nat) : res DState :=
  let pt := e.2 in
  if negb (pt =? d_prev d)%nat then
    p ← (if d_has_prev d then alter_step (set_free_to (d_current d - 1)) (d_prev d) (d_plan d)
         else Ok (d_plan d));
    p ← alter_step (set_free_from (d_current d)) pt p;
    Ok (mkDState p true pt (d_current d + 1))
  else Ok (mkDState (d_plan d) (d_has_prev d) (d_prev d) (d_current d + 1)).

Definition GenerateDeallocationPlan (steps : list NodeExecutionPlan) (freelist : list (nat * nat)) :
    res (list NodeExecutionPlan * list nat) :=
  let l := reverse freelist in
  d ← foldM dealloc_step (mkDState steps false 0 0) l;
  p ← (if d_has_prev d then alter_step (set_free_to (d_current d - 1)) (d_prev d) (d_plan d)
       else Ok (d_plan d));
  Ok (p, l.*1).

(** ** [CreatePlan] *)

Definition Initialize (num_ml_values : nat) : PState T :=
  mkPState (replicate num_ml_values (mkValueInfo None 0 0%nat))
    (replicate num_ml_values default_alloc_plan) [].

Definition CreatePlan : res (Status * SequentialExecutionPlan T) :=
  let st := Initialize (MaxIdx names + 1) in
  let steps := (fun n => new_step (n_index n)) <$> g_topo g in
  '(s, st) ← ComputeUseCounts st;
  if negb (IsOK s) then Ok (s, mkExecPlan (plan_values st) steps [])
  else
    st ← ComputeReusePlan st;
    '(steps, freed) ← GenerateDeallocationPlan steps (freelist_ st);
    Ok (StatusOK, mkExecPlan (plan_values st) steps freed).
End planner.
