(* ===== verification/AllocPlannerInv.v ===== *)
(** The bookkeeping of [PlannerImpl]: well-formed graphs ([GraphOk]), the use
    counts that [ComputeUseCounts] establishes ([Counted]), and the invariant of
    [ComputeReusePlan] ([Planned]): the count of a buffer is the number of uses
    that are still to come of all the values that share it. *)
From S2P Require Import Prelude MemPattern AllocPlanner.

(** ** Sums and occurrences *)

Definition sumZ (f : nat → Z) (l : list nat) : Z := foldr (fun x acc => f x + acc) 0 l.

Lemma sumZ_app f l1 l2 : sumZ f (l1 ++ l2) = sumZ f l1 + sumZ f l2.
Proof. induction l1 as [|x l1 IH]; simpl; [done|]. rewrite IH. lia. Qed.
Lemma sumZ_ext f f' l : (∀ x, x ∈ l → f x = f' x) → sumZ f l = sumZ f' l.
Proof.
  induction l as [|x l IH]; intros Hf; simpl; [done|]. rewrite Hf by (by left).
  rewrite IH; [done|]. intros; apply Hf; by right.
Qed.
Lemma sumZ_nonneg f l : (∀ x, x ∈ l → 0 ≤ f x) → 0 ≤ sumZ f l.
Proof.
  induction l as [|x l IH]; intros Hf; simpl; [done|]. pose proof (Hf x ltac:(by left)).
  assert (0 ≤ sumZ f l); [|lia]. apply IH. intros; apply Hf; by right.
Qed.
Lemma sumZ_elem f l x : (∀ y, y ∈ l → 0 ≤ f y) → x ∈ l → f x ≤ sumZ f l.
Proof.
  intros Hf Hx. apply list_elem_of_split in Hx as (l1 & l2 & ->). rewrite sumZ_app. simpl.
  assert (0 ≤ sumZ f l1) by (apply sumZ_nonneg; intros; apply Hf; set_solver).
  assert (0 ≤ sumZ f l2) by (apply sumZ_nonneg; intros; apply Hf; set_solver). lia.
Qed.
Lemma sumZ_elem2 f l x y :
  (∀ y, y ∈ l → 0 ≤ f y) → x ∈ l → y ∈ l → x ≠ y → f x + f y ≤ sumZ f l.
Proof.
  intros Hf Hx Hy Hne. apply list_elem_of_split in Hx as (l1 & l2 & ->). rewrite sumZ_app. simpl.
  assert (H1 : ∀ z, z ∈ l1 → 0 ≤ f z) by (intros; apply Hf; set_solver).
  assert (H2 : ∀ z, z ∈ l2 → 0 ≤ f z) by (intros; apply Hf; set_solver).
  pose proof (sumZ_nonneg _ _ H1). pose proof (sumZ_nonneg _ _ H2).
  assert (y ∈ l1 ∨ y ∈ l2) as [Hy'|Hy'] by set_solver.
  - pose proof (sumZ_elem _ _ _ H1 Hy'). lia.
  - pose proof (sumZ_elem _ _ _ H2 Hy'). lia.
Qed.
Lemma sumZ_update f f' l x :
  NoDup l → x ∈ l → (∀ y, y ∈ l → y ≠ x → f' y = f y) → sumZ f' l = sumZ f l - f x + f' x.
Proof.
  intros Hnd Hx Hf. apply list_elem_of_split in Hx as (l1 & l2 & ->).
  apply NoDup_app in Hnd as (_ & Hd & [Hx _]%NoDup_cons). rewrite !sumZ_app. simpl.
  rewrite (sumZ_ext f' f l1), (sumZ_ext f' f l2); [lia| |].
  - intros y Hy. apply Hf; [set_solver|]. by intros ->.
  - intros y Hy. apply Hf; [set_solver|]. intros ->. by apply (Hd x Hy); left.
Qed.

Fixpoint cnt (v : nat) (l : list nat) : Z :=
  match l with [] => 0 | x :: l' => (if decide (x = v) then 1 else 0) + cnt v l' end.
Lemma cnt_app v l1 l2 : cnt v (l1 ++ l2) = cnt v l1 + cnt v l2.
Proof. induction l1 as [|x l1 IH]; simpl; [done|]. rewrite IH. lia. Qed.
Lemma cnt_nonneg v l : 0 ≤ cnt v l.
Proof. induction l as [|x l IH]; simpl; [done|]. case_decide; lia. Qed.
Lemma cnt_elem v l : v ∈ l → 1 ≤ cnt v l.
Proof.
  intros (l1 & l2 & ->)%list_elem_of_split. rewrite cnt_app. simpl. rewrite decide_True by done.
  pose proof (cnt_nonneg v l1). pose proof (cnt_nonneg v l2). lia.
Qed.
Lemma cnt_zero v l : cnt v l = 0 → v ∉ l.
Proof. intros H Hin%cnt_elem. lia. Qed.
Lemma cnt_not_elem v l : v ∉ l → cnt v l = 0.
Proof.
  induction l as [|x l IH]; simpl; [done|]. intros [? ?]%not_elem_of_cons.
  rewrite decide_False by done. rewrite IH by done. done.
Qed.

(** ** Well-formed inputs *)

Record NamesOk (m : MLValueNameIdxMap) : Prop := {
  names_lt : ∀ n i, name_map_ m !! n = Some i → (i < MaxIdx m)%nat;
  names_inj : ∀ n n' i, name_map_ m !! n = Some i → name_map_ m !! n' = Some i → n = n';
}.

Section inv.
Context {T : Type} `{!TensorTypes T}.
Context (names : MLValueNameIdxMap) (g : GraphView T).
Implicit Types (st : PState T) (arg : NodeArg T) (node : Node T).

(** Indices of the args that exist, and of all args. *)
Definition ids (l : list (NodeArg T)) : list nat :=
  omap (fun a => if na_exists a then name_map_ names !! na_name a else None) l.
Definition all_ids (l : list (NodeArg T)) : list nat := omap (fun a => name_map_ names !! na_name a) l.

Definition defs0 : list nat := all_ids (g_inputs g) ++ all_ids (g_outer g) ++ all_ids (g_initializers g).
Definition outs node : list nat := ids (n_outputs node).
Definition uses node : list nat := ids (n_inputs node) ++ ids (n_implicit_inputs node).
(** The uses the planner releases after a node. *)
Definition releases node : list nat := uses node ++ outs node.
Definition all_releases (l : list (Node T)) : list nat := l ≫= releases.
Definition all_outs (l : list (Node T)) : list nat := l ≫= outs.

(** Uses that never end: by the caller of the graph. *)
Definition perm (v : nat) : Z := cnt v (all_ids (g_outputs g)) + (if decide (v ∈ defs0) then 1 else 0).

Definition known arg : Prop := is_Some (name_map_ names !! na_name arg).
Definition graph_args : list (NodeArg T) :=
  g_inputs g ++ g_outer g ++ g_initializers g ++ g_outputs g ++
  ((g_topo g ++ g_nodes g) ≫= fun n => n_inputs n ++ n_implicit_inputs n ++ n_outputs n).

Record GraphOk : Prop := {
  ok_names : NamesOk names;
  ok_known : ∀ arg, arg ∈ graph_args → na_exists arg = true → known arg;
  ok_exist : ∀ arg, arg ∈ g_inputs g ++ g_outer g ++ g_initializers g ++ g_outputs g → na_exists arg = true;
  ok_shaped : ∀ arg s, arg ∈ graph_args → na_shape arg = Some s → is_Some (tensor_element_size (na_type arg));
  ok_kernel : ∀ node, node ∈ g_topo g ++ g_nodes g → is_Some (n_kernel node) ∧ is_Some (n_provider node);
  ok_single : NoDup (all_outs (g_topo g));
  ok_fresh : ∀ v, v ∈ all_outs (g_topo g) → v ∉ defs0;
  ok_order : ∀ k node v, g_topo g !! k = Some node → v ∈ uses node →
    v ∈ defs0 ∨ v ∈ all_outs (take k (g_topo g));
  ok_outputs : ∀ v, v ∈ all_ids (g_outputs g) → v ∈ defs0 ∨ v ∈ all_outs (g_topo g);
}.

Definition defined : list nat := defs0 ++ all_outs (g_topo g).
Definition num_values : nat := (MaxIdx names + 1)%nat.

(** ** Reading the state *)

Definition buf st (v : nat) : nat :=
  match ml_value_info_ st !! v with Some i => reused_buffer_index i | None => 0%nat end.
Definition uc st (v : nat) : Z :=
  match ml_value_info_ st !! v with Some i => usecount i | None => 0 end.
Definition site st (v : nat) : option (NodeArg T) :=
  match ml_value_info_ st !! v with Some i => p_def_site i | None => None end.
Definition plan_buf (l : list (AllocPlanPerValue T)) (v : nat) : nat :=
  match l !! v with
  | Some p => if decide (alloc_kind p = kReuse) then reused_buffer p else v
  | None => v
  end.

Record Sized st : Prop := {
  sized_info : length (ml_value_info_ st) = num_values;
  sized_plan : length (plan_values st) = num_values;
}.

Lemma info_lookup st v :
  Sized st → (v < num_values)%nat → ml_value_info_ st !! v = Some (mkValueInfo (site st v) (uc st v) (buf st v)).
Proof.
  intros [Hi _] Hv. unfold site, uc, buf.
  destruct (lookup_lt_is_Some_2 (ml_value_info_ st) v) as [[d u b] ->]; [lia|]. done.
Qed.
Lemma plan_lookup st v :
  Sized st → (v < num_values)%nat → ∃ p, plan_values st !! v = Some p.
Proof. intros [_ Hp] Hv. apply lookup_lt_is_Some_2. lia. Qed.

(** Lookups after an update of the state. *)
Definition info_changed st st' (v : nat) (d : option (NodeArg T)) (u : Z) (b : nat) : Prop :=
  Sized st' ∧ plan_values st' = plan_values st ∧ freelist_ st' = freelist_ st ∧
  (∀ w, site st' w = if decide (w = v) then d else site st w) ∧
  (∀ w, uc st' w = if decide (w = v) then u else uc st w) ∧
  (∀ w, buf st' w = if decide (w = v) then b else buf st w).

Lemma set_info_changed st v d u b (l : list (MLValueInfo T)) :
  Sized st → (v < num_values)%nat → length l = num_values →
  (∀ w, l !! w = if decide (w = v) then Some (mkValueInfo d u b) else ml_value_info_ st !! w) →
  info_changed st (with_info st l) v d u b.
Proof.
  intros Hs Hv Hl Hw. unfold info_changed, site, uc, buf. simpl.
  split_and!; [split; [done|apply Hs]|done|done|..]; intros w; rewrite Hw; by case_decide.
Qed.

Lemma lookup_alter_decide {A} (f : A → A) (l : list A) i k :
  alter f i l !! k = if decide (k = i) then f <$> l !! k else l !! k.
Proof. case_decide; [subst; apply list_lookup_alter_eq|by apply list_lookup_alter_ne]. Qed.
Lemma lookup_insert_decide {A} (x : A) (l : list A) i k :
  (i < length l)%nat → <[i := x]> l !! k = if decide (k = i) then Some x else l !! k.
Proof. intros. case_decide; [subst; by apply list_lookup_insert_eq|by apply list_lookup_insert_ne]. Qed.

Lemma add_use_ok st v k :
  Sized st → (v < num_values)%nat →
  ∃ st', add_use st v k = Ok st' ∧ info_changed st st' v (site st v) (uc st v + k) (buf st v).
Proof.
  intros Hs Hv. unfold add_use, ValueInfo. rewrite (info_lookup st v) by done. simpl.
  eexists. split; [done|]. apply set_info_changed; [done|done|by rewrite length_alter; apply Hs|].
  intros w. rewrite lookup_alter_decide. case_decide; [|done]. subst. by rewrite info_lookup.
Qed.
Lemma ProcessDef_ok st v arg :
  Sized st → (v < num_values)%nat →
  ∃ st', ProcessDef st v arg = Ok st' ∧ info_changed st st' v (Some arg) 0 v.
Proof.
  intros Hs Hv. unfold ProcessDef, ValueInfo. rewrite (info_lookup st v) by done. simpl.
  eexists. split; [done|]. apply set_info_changed; [done|done|by rewrite length_insert; apply Hs|].
  intros w. apply lookup_insert_decide. by rewrite (sized_info _ Hs).
Qed.

Lemma update_plan_ok st v f :
  Sized st → (v < num_values)%nat →
  ∃ p, plan_values st !! v = Some p ∧
    update_plan st v f = Ok (with_plan st (alter f v (plan_values st))) ∧
    Sized (with_plan st (alter f v (plan_values st))).
Proof.
  intros Hs Hv. destruct (plan_lookup st v Hs Hv) as [p Hp]. exists p. unfold update_plan, AllocPlan.
  rewrite Hp. simpl. split_and!; [done|done|]. split; [apply Hs|].
  cbn [plan_values with_plan]. rewrite length_alter. apply Hs.
Qed.

Lemma Index_ok arg v : name_map_ names !! na_name arg = Some v → Index names (na_name arg) = Ok v.
Proof. intros H. unfold Index. by rewrite H. Qed.
Lemma index_lt arg v : GraphOk → name_map_ names !! na_name arg = Some v → (v < num_values)%nat.
Proof. intros Hg Hv. pose proof (names_lt _ (ok_names Hg) _ _ Hv). unfold num_values. lia. Qed.

Lemma elem_of_ids l v :
  v ∈ ids l ↔ ∃ arg, arg ∈ l ∧ na_exists arg = true ∧ name_map_ names !! na_name arg = Some v.
Proof.
  unfold ids. rewrite list_elem_of_omap. split.
  - intros (a & Ha & Hv). destruct (na_exists a) eqn:E; [eauto|done].
  - intros (a & Ha & He & Hv). exists a. by rewrite He.
Qed.
Lemma elem_of_all_ids l v : v ∈ all_ids l ↔ ∃ arg, arg ∈ l ∧ name_map_ names !! na_name arg = Some v.
Proof. unfold all_ids. by rewrite list_elem_of_omap. Qed.

(** ** [ComputeUseCounts] *)

(** The values [D] are defined and the uses [L] counted. *)
Record Counted st (D L : list nat) : Prop := {
  cd_sized : Sized st;
  cd_lt : ∀ v, v ∈ D → (v < num_values)%nat;
  cd_sub : ∀ v, v ∈ L → v ∈ D;
  cd_buf : ∀ v, v ∈ D → buf st v = v;
  cd_uc : ∀ v, v ∈ D → uc st v = cnt v L + (if decide (v ∈ defs0) then 1 else 0);
  cd_site : ∀ v, v ∈ D → ∃ arg, site st v = Some arg ∧ arg ∈ graph_args ∧
    name_map_ names !! na_name arg = Some v;
  cd_free : freelist_ st = [];
  cd_kind : ∀ v p, plan_values st !! v = Some p → alloc_kind p = kAllocate;
}.

Lemma counted_ext st D D' L : Counted st D L → (∀ v, v ∈ D' ↔ v ∈ D) → Counted st D' L.
Proof. intros [] HD. split; intros; try (apply HD); eauto; naive_solver. Qed.

Lemma counted_use st D L v :
  Counted st D L → v ∈ D → ∃ st', add_use st v 1 = Ok st' ∧ Counted st' D (L ++ [v]).
Proof.
  intros [H1 H2 H3 H4 H5 H6 H7 H8] Hv.
  destruct (add_use_ok st v 1) as (st' & Ha & C1 & C2 & C3 & C4 & C5 & C6); [done|auto|].
  exists st'. split; [done|]. split; rewrite ?C2, ?C3; try done.
  - intros x [?| ->%list_elem_of_singleton]%elem_of_app; auto.
  - intros x Hx. rewrite C6. case_decide; subst; auto.
  - intros x Hx. rewrite C5, cnt_app. simpl. case_decide as E; subst.
    + rewrite H5, (decide_True (P := v = v)) by done. lia.
    + rewrite (decide_False (P := v = x)) by congruence. rewrite H5 by done. lia.
  - intros x Hx. rewrite C4. case_decide; subst; auto.
Qed.

Lemma counted_def st D L v arg :
  Counted st D L → arg ∈ graph_args → name_map_ names !! na_name arg = Some v → (v < num_values)%nat →
  v ∉ L → ∃ st', ProcessDef st v arg = Ok st' ∧
    ∃ st'', add_use st' v 1 = Ok st'' ∧
      Counted st'' (D ++ [v]) (L ++ (if decide (v ∈ defs0) then [] else [v])).
Proof.
  intros [H1 H2 H3 H4 H5 H6 H7 H8] Harg Hn Hv HL.
  destruct (ProcessDef_ok st v arg) as (st1 & Ha & C1 & C2 & C3 & C4 & C5 & C6); [done|done|].
  destruct (add_use_ok st1 v 1) as (st2 & Hb & E1 & E2 & E3 & E4 & E5 & E6); [done|done|].
  exists st1. split; [done|]. exists st2. split; [done|].
  split; rewrite ?E2, ?E3, ?C2, ?C3; try done.
  - intros x [?| ->%list_elem_of_singleton]%elem_of_app; auto.
  - intros x [?|Hx]%elem_of_app; [apply elem_of_app; auto|]. apply elem_of_app. right.
    by case_decide; [apply not_elem_of_nil in Hx|].
  - intros x Hx. rewrite E6, !C6, (decide_True (P := v = v)) by done. case_decide; [done|].
    apply H4. apply elem_of_app in Hx as [?|?%list_elem_of_singleton]; done.
  - intros x Hx. rewrite E5, !C5, (decide_True (P := v = v)) by done. rewrite cnt_app.
    destruct (decide (x = v)) as [->|Hne].
    + rewrite (cnt_not_elem v L) by done. case_decide; simpl; [done|]. by rewrite decide_True.
    + assert (x ∈ D) as Hx' by (apply elem_of_app in Hx as [?|?%list_elem_of_singleton]; done).
      rewrite (H5 x Hx'). destruct (decide (v ∈ defs0)); simpl; [lia|].
      rewrite (decide_False (P := v = x)) by congruence. lia.
  - intros x Hx. rewrite E4, !C4, (decide_True (P := v = v)) by done. case_decide as E; [subst; eauto|].
    apply H6. apply elem_of_app in Hx as [?|?%list_elem_of_singleton]; done.
Qed.

Lemma counted_plan st D L v f :
  Counted st D L → (v < num_values)%nat → (∀ p, alloc_kind (f p) = alloc_kind p) →
  ∃ st', update_plan st v f = Ok st' ∧ Counted st' D L.
Proof.
  intros [H1 H2 H3 H4 H5 H6 H7 H8] Hv Hf. destruct (update_plan_ok st v f H1 Hv) as (p & Hp & -> & Hs).
  eexists. split; [done|].
  split; [exact Hs|exact H2|exact H3|exact H4|exact H5|exact H6|exact H7|]. cbn [plan_values with_plan].
  intros x q. rewrite lookup_alter_decide. case_decide; [|apply H8].
  intros (q' & Hq' & ->)%fmap_Some. rewrite Hf. eauto.
Qed.

Lemma define_use_ok l st D :
  GraphOk → Counted st D [] → (∀ arg, arg ∈ l → arg ∈ g_inputs g ++ g_outer g ++ g_initializers g) →
  ∃ st', foldM (define_use names) st l = Ok st' ∧ Counted st' (D ++ all_ids l) [].
Proof.
  intros Hg. revert st D. induction l as [|arg l IH]; intros st D HC Hl.
  { exists st. split; [done|]. by rewrite app_nil_r. }
  assert (Harg := Hl arg ltac:(by left)).
  assert (Hga : arg ∈ graph_args) by (unfold graph_args; set_solver).
  destruct (ok_known Hg arg Hga) as [v Hv]; [apply (ok_exist Hg); set_solver|].
  assert (Hd : v ∈ defs0).
  { unfold defs0. rewrite !elem_of_app, !elem_of_all_ids. rewrite !elem_of_app in Harg. naive_solver. }
  destruct (counted_def st D [] v arg HC Hga Hv) as (st1 & HE1 & st2 & HE & HC2);
    [by eapply index_lt|apply not_elem_of_nil|].
  assert (define_use names st arg = Ok st2) as HE2.
  { unfold define_use. rewrite (Index_ok arg v Hv). cbn [mbind res_bind]. by rewrite HE1. }
  cbn [foldM]. rewrite HE2. cbn [mbind res_bind].
  rewrite decide_True in HC2 by done.
  destruct (IH st2 (D ++ [v]) HC2) as (st' & -> & HC'); [intros; apply Hl; by right|].
  exists st'. split; [done|]. simpl. by rewrite Hv, <- app_assoc in *.
Qed.

Lemma count_inputs_ok l st D L :
  GraphOk → Counted st D L → (∀ arg, arg ∈ l → arg ∈ graph_args) → (∀ v, v ∈ ids l → v ∈ D) →
  ∃ st', foldM (count_input names) st l = Ok st' ∧ Counted st' D (L ++ ids l).
Proof.
  intros Hg. revert st L. induction l as [|arg l IH]; intros st L HC Hl Hd.
  { exists st. split; [done|]. by rewrite app_nil_r. }
  assert (Hl' : ∀ a, a ∈ l → a ∈ graph_args) by (intros; apply Hl; by right).
  cbn [foldM]. destruct (na_exists arg) eqn:Ee.
  - destruct (ok_known Hg arg) as [v Hv]; [apply Hl; by left|done|].
    destruct (counted_use st D L v HC) as (st1 & HE1 & HC1).
    { apply Hd, elem_of_ids. exists arg. split_and!; [by left|done..]. }
    assert (count_input names st arg = Ok st1) as ->.
    { unfold count_input. by rewrite Ee, (Index_ok arg v Hv). }
    cbn [mbind res_bind].
    destruct (IH st1 (L ++ [v]) HC1) as (st' & -> & HC'); [done| |].
    { intros x Hx. apply Hd. simpl. rewrite Ee, Hv. by right. }
    exists st'. split; [done|]. simpl. rewrite Ee. by rewrite Hv, <- app_assoc in *.
  - assert (count_input names st arg = Ok st) as -> by (unfold count_input; by rewrite Ee).
    cbn [mbind res_bind]. simpl. rewrite Ee. destruct (IH st L HC) as (st' & -> & HC'); [done| |eauto].
    intros x Hx. apply Hd. simpl. by rewrite Ee.
Qed.

Lemma count_output_ok kd provider i arg st D L v :
  GraphOk → Counted st D L → arg ∈ graph_args → na_exists arg = true →
  name_map_ names !! na_name arg = Some v → v ∉ D → v ∉ defs0 →
  ∃ st', count_output names kd provider st (i, arg) = Ok st' ∧ Counted st' (D ++ [v]) (L ++ [v]).
Proof.
  intros Hg HC Harg He Hv HD Hd. pose proof (index_lt _ _ Hg Hv) as Hlt.
  destruct (counted_def st D L v arg HC Harg Hv Hlt) as (st1 & HE1 & st2 & HE2 & HC2).
  { intros Hin. by apply (cd_sub _ _ _ HC) in Hin. }
  rewrite decide_False in HC2 by done. unfold count_output.
  rewrite He, (Index_ok arg v Hv). cbn [mbind res_bind]. rewrite HE1. cbn [mbind res_bind].
  rewrite HE2. cbn [mbind res_bind]. case_bool_decide; [eauto|].
  destruct (_ =? _); eapply counted_plan; eauto.
Qed.

Lemma count_outputs_ok kd provider l st D L :
  GraphOk → Counted st D L → (∀ arg, arg ∈ l.*2 → arg ∈ graph_args) →
  NoDup (ids l.*2) → (∀ v, v ∈ ids l.*2 → v ∉ D ∧ v ∉ defs0) →
  ∃ st', foldM (count_output names kd provider) st l = Ok st' ∧ Counted st' (D ++ ids l.*2) (L ++ ids l.*2).
Proof.
  intros Hg. revert st D L. induction l as [|[i arg] l IH]; intros st D L HC Hl Hnd Hd.
  { exists st. split; [done|]. by rewrite !app_nil_r. }
  rewrite fmap_cons in *. cbn [foldM]. cbn [ids omap list_omap fst snd] in *. fold (ids l.*2) in *.
  assert (Hl' : ∀ a, a ∈ l.*2 → a ∈ graph_args) by (intros; apply Hl; by right).
  destruct (na_exists arg) eqn:Ee.
  - destruct (ok_known Hg arg) as [v Hv]; [apply Hl; by left|done|]. rewrite Hv in *.
    apply NoDup_cons in Hnd as [Hvl Hnd].
    destruct (Hd v) as [Hv1 Hv2]; [by left|].
    destruct (count_output_ok kd provider i arg st D L v) as (st1 & -> & HC1); try done; [apply Hl; by left|].
    cbn [mbind res_bind]. destruct (IH st1 (D ++ [v]) (L ++ [v])) as (st' & -> & HC'); try done.
    { intros x Hx. destruct (Hd x) as [Hx1 Hx2]; [by right|]. split; [|done].
      rewrite not_elem_of_app, list_elem_of_singleton. split; [done|]. by intros ->. }
    exists st'. split; [done|]. by rewrite <- !app_assoc in HC'.
  - assert (count_output names kd provider st (i, arg) = Ok st) as -> by (simpl; by rewrite Ee).
    cbn [mbind res_bind]. by apply IH.
Qed.

Lemma mark_fences_ok l st D L :
  GraphOk → Counted st D L → (∀ arg, arg ∈ l → arg ∈ graph_args) →
  ∃ st', foldM (mark_fence names) st l = Ok st' ∧ Counted st' D L.
Proof.
  intros Hg. revert st. induction l as [|arg l IH]; intros st HC Hl; [eauto|].
  cbn [foldM]. assert (∃ st1, mark_fence names st arg = Ok st1 ∧ Counted st1 D L) as (st1 & -> & HC1).
  { unfold mark_fence. destruct (na_exists arg) eqn:Ee; [|eauto].
    destruct (ok_known Hg arg) as [v Hv]; [apply Hl; by left|done|].
    rewrite (Index_ok arg v Hv). cbn [mbind res_bind]. apply counted_plan; [done|by eapply index_lt|done]. }
  cbn [mbind res_bind]. apply IH; [done|]. intros; apply Hl; by right.
Qed.

Lemma topo_args k node arg :
  g_topo g !! k = Some node → arg ∈ n_inputs node ++ n_implicit_inputs node ++ n_outputs node →
  arg ∈ graph_args.
Proof.
  intros Hk Ha. unfold graph_args. do 4 (apply elem_of_app; right). apply list_elem_of_bind.
  exists node. split; [done|]. apply elem_of_app. left. by eapply list_elem_of_lookup_2.
Qed.

Lemma all_outs_take k node :
  g_topo g !! k = Some node → all_outs (take (S k) (g_topo g)) = all_outs (take k (g_topo g)) ++ outs node.
Proof.
  intros Hk. rewrite (take_S_r _ _ _ Hk). unfold all_outs. rewrite bind_app. simpl. by rewrite app_nil_r.
Qed.
Lemma all_releases_take k node :
  g_topo g !! k = Some node →
  all_releases (take (S k) (g_topo g)) = all_releases (take k (g_topo g)) ++ releases node.
Proof.
  intros Hk. rewrite (take_S_r _ _ _ Hk). unfold all_releases. rewrite bind_app. simpl. by rewrite app_nil_r.
Qed.

(** Outputs of a node are new. *)
Lemma outs_fresh k node :
  GraphOk → g_topo g !! k = Some node →
  NoDup (outs node) ∧ ∀ v, v ∈ outs node → v ∉ defs0 ∧ v ∉ all_outs (take k (g_topo g)).
Proof.
  intros Hg Hk. pose proof (ok_single Hg) as Hnd.
  rewrite <- (take_drop_middle _ _ _ Hk) in Hnd. unfold all_outs in Hnd.
  rewrite bind_app, bind_cons, !NoDup_app in Hnd. destruct Hnd as (_ & Hdis & Hno & _).
  split; [done|]. intros v Hv. split.
  - apply (ok_fresh Hg). rewrite <- (take_drop_middle _ _ _ Hk). unfold all_outs.
    rewrite bind_app, bind_cons, !elem_of_app. auto.
  - intros Hv'. eapply Hdis; [exact Hv'|]. apply elem_of_app. auto.
Qed.

Lemma count_node_ok k node st :
  GraphOk → g_topo g !! k = Some node →
  Counted st (defs0 ++ all_outs (take k (g_topo g))) (all_releases (take k (g_topo g))) →
  ∃ st', count_node names (StatusOK, st) node = Ok (StatusOK, st') ∧
    Counted st' (defs0 ++ all_outs (take (S k) (g_topo g))) (all_releases (take (S k) (g_topo g))).
Proof.
  intros Hg Hk HC. unfold count_node. cbn [IsOK StatusOK negb].
  assert (Huse : ∀ v, v ∈ uses node → v ∈ defs0 ++ all_outs (take k (g_topo g))).
  { intros v Hv. apply elem_of_app. by eapply (ok_order Hg). }
  assert (Harg : ∀ a, a ∈ n_inputs node ++ n_implicit_inputs node ++ n_outputs node → a ∈ graph_args)
    by (intros; by eapply topo_args).
  destruct (count_inputs_ok (n_inputs node) st _ _ Hg HC) as (st1 & -> & HC1).
  { intros a Ha. apply Harg. set_solver. }
  { intros v Hv. apply Huse. unfold uses. set_solver. }
  cbn [mbind res_bind].
  destruct (count_inputs_ok (n_implicit_inputs node) st1 _ _ Hg HC1) as (st2 & -> & HC2).
  { intros a Ha. apply Harg. set_solver. }
  { intros v Hv. apply Huse. unfold uses. set_solver. }
  cbn [mbind res_bind].
  destruct (ok_kernel Hg node) as [[kd ->] [provider ->]].
  { apply elem_of_app. left. by eapply list_elem_of_lookup_2. }
  cbn [of_option mbind res_bind]. destruct (outs_fresh k node Hg Hk) as [Hnd Hfr].
  destruct (count_outputs_ok kd provider (indexed (n_outputs node)) st2 _ _ Hg HC2) as (st3 & -> & HC3).
  { unfold indexed. rewrite imap_pair_snd. intros a Ha. apply Harg. set_solver. }
  { unfold indexed. by rewrite imap_pair_snd. }
  { unfold indexed. rewrite imap_pair_snd. intros v Hv. destruct (Hfr v Hv).
    rewrite not_elem_of_app. done. }
  cbn [mbind res_bind]. unfold indexed in HC3. rewrite imap_pair_snd in HC3.
  assert (∃ st4, (if kd_exec_queue_id kd =? 0 then Ok st3
     else foldM (mark_fence names) st3 (n_inputs node ++ n_implicit_inputs node ++ n_outputs node)) = Ok st4 ∧
     Counted st4 (defs0 ++ all_outs (take (S k) (g_topo g))) (all_releases (take (S k) (g_topo g))))
    as (st4 & -> & HC4); [|eauto].
  rewrite (all_outs_take k node), (all_releases_take k node), app_assoc by done.
  unfold releases, uses. rewrite !app_assoc in *.
  destruct (_ =? 0); [eauto|]. by apply mark_fences_ok.
Qed.

Lemma count_nodes_ok l pre st :
  GraphOk → g_topo g = pre ++ l →
  Counted st (defs0 ++ all_outs pre) (all_releases pre) →
  ∃ st', foldM (count_node names) (StatusOK, st) l = Ok (StatusOK, st') ∧
    Counted st' defined (all_releases (g_topo g)).
Proof.
  intros Hg. revert pre st. induction l as [|node l IH]; intros pre st Ht HC.
  { exists st. split; [done|]. rewrite app_nil_r in Ht. unfold defined. by rewrite Ht. }
  assert (Hk : g_topo g !! length pre = Some node) by (rewrite Ht; by apply list_lookup_middle).
  assert (Htk : take (length pre) (g_topo g) = pre) by (rewrite Ht; by apply take_app_length).
  destruct (count_node_ok (length pre) node st Hg Hk) as (st1 & HN & HC1); [by rewrite Htk|].
  rewrite (all_outs_take _ _ Hk), (all_releases_take _ _ Hk), Htk in HC1.
  cbn [foldM]. rewrite HN. cbn [mbind res_bind]. apply (IH (pre ++ [node])).
  - by rewrite <- app_assoc.
  - unfold all_outs, all_releases in *. rewrite !bind_app. simpl. by rewrite !app_nil_r.
Qed.

Lemma count_graph_outputs_ok l st L :
  GraphOk → Counted st defined L → (∀ arg, arg ∈ l → arg ∈ g_outputs g) →
  ∃ st', foldM (count_graph_output names) st l = Ok st' ∧ Counted st' defined (L ++ all_ids l).
Proof.
  intros Hg. revert st L. induction l as [|arg l IH]; intros st L HC Hl.
  { exists st. split; [done|]. by rewrite app_nil_r. }
  assert (Harg : arg ∈ g_outputs g) by (apply Hl; by left).
  destruct (ok_known Hg arg) as [v Hv]; [unfold graph_args; set_solver|apply (ok_exist Hg); set_solver|].
  destruct (counted_use st defined L v HC) as (st1 & HE & HC1).
  { unfold defined. apply elem_of_app, (ok_outputs Hg), elem_of_all_ids. eauto. }
  cbn [foldM]. unfold count_graph_output at 2. rewrite (Index_ok arg v Hv). cbn [mbind res_bind].
  rewrite HE. cbn [mbind res_bind]. destruct (IH st1 (L ++ [v])) as (st' & -> & HC'); [done|intros; apply Hl; by right|].
  exists st'. split; [done|]. simpl. by rewrite Hv, <- app_assoc in *.
Qed.

Lemma Initialize_ok : Counted (Initialize (T := T) num_values) [] [].
Proof.
  split; try (intros; by (exfalso; eapply not_elem_of_nil)).
  - split; simpl; by rewrite length_replicate.
  - done.
  - intros v p. simpl. by intros [-> _]%lookup_replicate.
Qed.

Lemma ComputeUseCounts_ok :
  GraphOk → ∃ st, ComputeUseCounts names g (Initialize num_values) = Ok (StatusOK, st) ∧
    Counted st defined (all_releases (g_topo g) ++ all_ids (g_outputs g)).
Proof.
  intros Hg. unfold ComputeUseCounts.
  destruct (define_use_ok (g_inputs g) _ [] Hg Initialize_ok) as (st1 & -> & HC1); [intros; set_solver|].
  cbn [mbind res_bind].
  destruct (define_use_ok (g_outer g) st1 _ Hg HC1) as (st2 & -> & HC2); [intros; set_solver|].
  cbn [mbind res_bind].
  destruct (define_use_ok (g_initializers g) st2 _ Hg HC2) as (st3 & -> & HC3); [intros; set_solver|].
  cbn [mbind res_bind]. simpl in HC3. rewrite <- app_assoc in HC3. fold defs0 in HC3.
  destruct (count_nodes_ok (g_topo g) [] st3 Hg eq_refl) as (st4 & -> & HC4).
  { simpl. by rewrite app_nil_r. }
  cbn [mbind res_bind IsOK StatusOK].
  destruct (count_graph_outputs_ok (g_outputs g) st4 _ Hg HC4) as (st5 & -> & HC5); [done|].
  eauto.
Qed.
End inv.
