(* ===== verification/AllocPlannerReuse.v ===== *)
(** The invariant of [ComputeReusePlan] and its preservation by [Reuse], by the
    planning of an output and by the release of a use. *)
From S2P Require Import Prelude MemPattern AllocPlanner AllocPlannerInv.

Section reuse.
Context {T : Type} `{!TensorTypes T}.
Context (names : MLValueNameIdxMap) (g : GraphView T).
Implicit Types (st : PState T) (arg : NodeArg T) (node : Node T) (D L : list nat).

Abbreviation defined := (defined names g).
Abbreviation num_values := (num_values names).
Abbreviation Sized := (Sized names).

(** The uses of [v] that are still to come when [L] is still to be released. *)
Definition rem L (v : nat) : Z := cnt v L + perm names g v.

(** The uses to come of the values of [D] that share the buffer [b]. *)
Definition shared st D L (b : nat) : Z :=
  sumZ (fun v => if decide (buf st v = b) then rem L v else 0) D.

(** [D] are the values planned so far, [L] the releases to come. *)
Record Planned st D L : Prop := {
  pn_sized : Sized st;
  pn_sub : ∀ v, v ∈ D → v ∈ defined;
  pn_nodup : NoDup D;
  pn_site : ∀ v, v ∈ defined → ∃ arg, site st v = Some arg ∧ arg ∈ graph_args g ∧
    name_map_ names !! na_name arg = Some v;
  pn_todo : ∀ v, v ∈ defined → v ∉ D → buf st v = v ∧ uc st v = rem L v;
  pn_root : ∀ v, v ∈ D → buf st v ∈ D ∧ buf st (buf st v) = buf st v;
  pn_uc : ∀ b, b ∈ D → buf st b = b → uc st b = shared st D L b;
  pn_free_nodup : NoDup (freelist_ st).*1;
  pn_free : ∀ b pt, (b, pt) ∈ freelist_ st → b ∈ D ∧ buf st b = b ∧ uc st b = 0;
  pn_zero : ∀ b, b ∈ D → buf st b = b → uc st b = 0 → b ∈ (freelist_ st).*1;
  pn_plan : ∀ v, v ∈ defined → plan_buf (plan_values st) v = buf st v;
  pn_self : ∀ v p, plan_values st !! v = Some p → alloc_kind p = kReuse → reused_buffer p ≠ v;
}.

Lemma perm_nonneg v : 0 ≤ perm names g v.
Proof.
  unfold perm. pose proof (cnt_nonneg v (all_ids names (g_outputs g))). case_decide; lia.
Qed.
Lemma rem_nonneg L v : 0 ≤ rem L v.
Proof. unfold rem. pose proof (cnt_nonneg v L). pose proof (perm_nonneg v). lia. Qed.
Lemma rem_elem L v : v ∈ L → 1 ≤ rem L v.
Proof. intros ?%cnt_elem. unfold rem. pose proof (perm_nonneg v). lia. Qed.
Lemma rem_zero L v : rem L v = 0 → v ∉ L ∧ perm names g v = 0.
Proof.
  unfold rem. pose proof (perm_nonneg v). pose proof (cnt_nonneg v L). intros.
  split; [apply cnt_zero; lia|lia].
Qed.

Lemma shared_terms st D L b v : v ∈ D → 0 ≤ (if decide (buf st v = b) then rem L v else 0).
Proof. intros _. case_decide; [apply rem_nonneg|done]. Qed.
Lemma shared_elem st D L v : v ∈ D → rem L v ≤ shared st D L (buf st v).
Proof.
  intros Hv. pose proof (sumZ_elem (fun x => if decide (buf st x = buf st v) then rem L x else 0) D v
    (fun y Hy => shared_terms st D L (buf st v) y Hy) Hv) as H. simpl in H.
  by rewrite decide_True in H.
Qed.
Lemma shared_elem2 st D L v w :
  v ∈ D → w ∈ D → v ≠ w → buf st w = buf st v → rem L v + rem L w ≤ shared st D L (buf st v).
Proof.
  intros Hv Hw Hne Hb.
  pose proof (sumZ_elem2 (fun x => if decide (buf st x = buf st v) then rem L x else 0) D v w
    (fun y Hy => shared_terms st D L (buf st v) y Hy) Hv Hw Hne) as H. simpl in H.
  by rewrite !decide_True in H.
Qed.

(** A buffer without uses to come: none of its values has any. *)
Lemma shared_zero st D L b :
  shared st D L b = 0 → ∀ v, v ∈ D → buf st v = b → v ∉ L ∧ perm names g v = 0.
Proof.
  intros H v Hv <-. apply rem_zero. pose proof (shared_elem st D L v Hv). pose proof (rem_nonneg L v). lia.
Qed.

Lemma uc_buffer st D L v : Planned st D L → v ∈ D → uc st (buf st v) = shared st D L (buf st v).
Proof. intros HP Hv. destruct (pn_root _ _ _ HP v Hv). by apply (pn_uc _ _ _ HP). Qed.

Lemma defined_lt v : GraphOk names g → v ∈ defined → (v < num_values)%nat.
Proof.
  intros Hg. unfold AllocPlannerInv.defined, defs0, all_outs.
  rewrite !elem_of_app, list_elem_of_bind, !elem_of_all_ids.
  intros [[(a & _ & H)|[(a & _ & H)|(a & _ & H)]]|(n & (a & _ & _ & H)%elem_of_ids & _)]; by eapply index_lt.
Qed.

Lemma shared_snoc st D L o b :
  shared st (D ++ [o]) L b = shared st D L b + (if decide (buf st o = b) then rem L o else 0).
Proof. unfold shared. rewrite sumZ_app. simpl. lia. Qed.
Lemma shared_ext st st' D L b :
  (∀ v, v ∈ D → buf st' v = buf st v) → shared st' D L b = shared st D L b.
Proof. intros H. apply sumZ_ext. intros v Hv. by rewrite H. Qed.
Lemma shared_none st D L b : (∀ v, v ∈ D → buf st v ≠ b) → shared st D L b = 0.
Proof.
  intros H. unfold shared. rewrite (sumZ_ext _ (fun _ => 0)).
  - clear H. induction D; simpl; [done|]. lia.
  - intros v Hv. by rewrite decide_False by auto.
Qed.

(** ** A value with a buffer of its own *)

Lemma planned_fresh st D L o :
  Planned st D L → o ∈ defined → o ∉ D → o ∈ L → Planned st (D ++ [o]) L.
Proof.
  intros [H1 H2 H3 H4 H5 H6 H7 H8 H9 H10 H11 H12] Ho HD HL. destruct (H5 o Ho HD) as [Hb Hu].
  assert (Hno : ∀ v, v ∈ D → buf st v ≠ o) by (intros v Hv <-; by destruct (H6 v Hv)).
  split; try done.
  - intros v [?| ->%list_elem_of_singleton]%elem_of_app; auto.
  - apply NoDup_app. split_and!; [done| |apply NoDup_singleton]. intros x Hx ->%list_elem_of_singleton. done.
  - intros v Hv [? ?]%not_elem_of_app. auto.
  - intros v [Hv| ->%list_elem_of_singleton]%elem_of_app; rewrite elem_of_app, list_elem_of_singleton.
    + destruct (H6 v Hv). auto.
    + rewrite !Hb. auto.
  - intros b [Hv| ->%list_elem_of_singleton]%elem_of_app Hbb; rewrite shared_snoc, Hb.
    + rewrite decide_False by (by intros ->). rewrite H7 by done. lia.
    + rewrite decide_True, (shared_none st D L o), Hu by done. lia.
  - intros b pt Hf. destruct (H9 b pt Hf) as (? & ? & ?). rewrite elem_of_app. auto.
  - intros b [Hv| ->%list_elem_of_singleton]%elem_of_app Hbb Hz; [auto|].
    pose proof (rem_elem L o HL). lia.
Qed.

(** ** Changes of the plan only *)

Lemma planned_plan st D L v f :
  Planned st D L → (v < num_values)%nat →
  (∀ p, plan_values st !! v = Some p →
     (if decide (alloc_kind (f p) = kReuse) then reused_buffer (f p) else v) = buf st v) →
  (∀ p, plan_values st !! v = Some p → alloc_kind (f p) = kReuse → reused_buffer (f p) ≠ v) →
  ∃ st', update_plan st v f = Ok st' ∧ Planned st' D L ∧ freelist_ st' = freelist_ st ∧
    (∀ w, buf st' w = buf st w) ∧ (∀ w, uc st' w = uc st w) ∧
    plan_values st' = alter f v (plan_values st).
Proof.
  intros [H1 H2 H3 H4 H5 H6 H7 H8 H9 H10 H11 H12] Hv Hf Hself.
  destruct (update_plan_ok names st v f H1 Hv) as (p & Hp & -> & Hs).
  eexists. split; [done|]. split_and!; try done.
  split; [exact Hs|exact H2|exact H3|exact H4|exact H5|exact H6|exact H7|exact H8|exact H9|exact H10|..].
  - intros w Hw. unfold plan_buf. cbn [plan_values with_plan]. rewrite lookup_alter_decide.
    case_decide as E; [|by apply H11]. subst. rewrite Hp. simpl. by apply Hf.
  - intros w q. cbn [plan_values with_plan]. rewrite lookup_alter_decide. case_decide as E; [|by apply H12].
    subst. rewrite Hp. intros [= <-]. by apply Hself.
Qed.

(** ** A value that shares a buffer *)

Lemma planned_reuse st D L fl x o :
  GraphOk names g → Planned st D L → x ∈ D → o ∈ defined → o ∉ D → o ∈ L →
  NoDup fl.*1 → (∀ b pt, (b, pt) ∈ fl ↔ (b, pt) ∈ freelist_ st ∧ b ≠ buf st x) →
  ∃ st', Reuse (with_freelist st fl) x o = Ok st' ∧ Planned st' (D ++ [o]) L ∧
    freelist_ st' = fl ∧ buf st' o = buf st x ∧ (∀ v, v ∈ D → buf st' v = buf st v).
Proof.
  intros Hg [H1 H2 H3 H4 H5 H6 H7 H8 H9 H10 H11 H12] Hx Ho HD HL Hfnd Hfl.
  set (r := buf st x) in *. destruct (H6 x Hx) as [Hr Hrr]. fold r in Hr, Hrr.
  destruct (H5 o Ho HD) as [Hbo Huo].
  assert (Hlt := defined_lt o Hg Ho). assert (Hltx := defined_lt x Hg (H2 x Hx)).
  assert (Hltr := defined_lt r Hg (H2 r Hr)).
  assert (Hro : r ≠ o) by (by intros ->). assert (Hxo : x ≠ o) by (by intros ->).
  set (st0 := with_freelist st fl). assert (Hs0 : Sized st0) by (split; apply H1).
  unfold Reuse. rewrite (proj2 (Nat.eqb_neq _ _)) by done. cbn [negb enforce mbind res_bind].
  unfold Buffer, ValueInfo. rewrite (info_lookup names st0 x), (info_lookup names st0 o) by done.
  cbn [of_option mbind res_bind reused_buffer_index].
  change (buf st0 x) with r.
  set (l1 := alter _ o (ml_value_info_ st0)).
  assert (info_changed names st0 (with_info st0 l1) o (site st o) (uc st o) r) as (C1 & C2 & C3 & C4 & C5 & C6).
  { apply set_info_changed; [done|done|unfold l1; rewrite length_alter; apply Hs0|].
    intros w. unfold l1. rewrite lookup_alter_decide. case_decide as E; [|done].
    subst. by rewrite (info_lookup names st0 o). }
  set (st1 := with_info st0 l1) in *.
  unfold UseCount, ValueInfo. rewrite (info_lookup names st1 o) by done. cbn [of_option mbind res_bind usecount].
  destruct (add_use_ok names st1 r (uc st1 o)) as (st2 & -> & E1 & E2 & E3 & E4 & E5 & E6); [done|done|].
  cbn [mbind res_bind].
  destruct (update_plan_ok names st2 o (set_reused r) E1 Hlt) as (p & Hp & -> & Hs3).
  assert (Huo1 : uc st1 o = rem L o) by (rewrite C5, decide_True by done; done).
  assert (Hbuf : ∀ w, buf st2 w = if decide (w = o) then r else buf st w).
  { intros w. rewrite E6, !C6. rewrite (decide_False (P := r = o)) by done.
    case_decide as Ea; [subst w; by rewrite decide_False|done]. }
  assert (Huc : ∀ w, uc st2 w = if decide (w = r) then uc st r + rem L o else uc st w).
  { intros w. rewrite E5, Huo1, !C5, (decide_False (P := r = o)) by done.
    case_decide as Ea; [done|]. case_decide; [by subst|done]. }
  assert (HbufD : ∀ v, v ∈ D → buf st2 v = buf st v).
  { intros v Hv. rewrite Hbuf, decide_False; [done|]. by intros ->. }
  eexists. split; [done|]. split_and!; [|by simpl; rewrite E3, C3|by change (buf st2 o = r); rewrite Hbuf, decide_True|exact HbufD].
  change (with_plan st2 (alter (set_reused r) o (plan_values st2))) with
    (mkPState (ml_value_info_ st2) (alter (set_reused r) o (plan_values st2)) (freelist_ st2)) in *.
  rewrite E3, C3 in Hs3 |- *. change (freelist_ st0) with fl in Hs3 |- *. set (st3 := mkPState _ _ fl) in *.
  change (buf st2) with (buf st3) in *. change (uc st2) with (uc st3) in *.
  assert (Hnof : ∀ b pt, (b, pt) ∈ fl → b ∈ D ∧ b ≠ r ∧ buf st b = b ∧ uc st b = 0).
  { intros b pt [Hf Hne]%Hfl. destruct (H9 b pt Hf) as (? & ? & ?). done. }
  split; try done.
  - intros v [?| ->%list_elem_of_singleton]%elem_of_app; auto.
  - apply NoDup_app. split_and!; [done| |apply NoDup_singleton]. intros v Hv ->%list_elem_of_singleton. done.
  - intros v Hv. change (site st3 v) with (site st2 v). rewrite E4, !C4.
    rewrite (decide_False (P := r = o)) by done.
    case_decide as Ea; [subst; by apply H4|]. case_decide as Eb; [subst; by apply H4|]. by apply H4.
  - intros v Hv [Hv1 Hv2]%not_elem_of_app. rewrite list_elem_of_singleton in Hv2.
    rewrite Hbuf, Huc, !decide_False by (done || by intros ->). by apply H5.
  - intros v [Hv| ->%list_elem_of_singleton]%elem_of_app; rewrite elem_of_app, list_elem_of_singleton.
    + rewrite (HbufD v Hv). destruct (H6 v Hv) as [Hv1 Hv2]. rewrite (HbufD _ Hv1). auto.
    + rewrite (Hbuf o), decide_True by done. rewrite (HbufD r Hr). auto.
  - intros b Hb Hbb. assert (Hbo' : b ≠ o).
    { intros ->. rewrite Hbuf, decide_True in Hbb by done. done. }
    assert (HbD : b ∈ D) by (apply elem_of_app in Hb as [?|?%list_elem_of_singleton]; done).
    rewrite (HbufD b HbD) in Hbb. rewrite Huc, shared_snoc, (shared_ext st st3) by done.
    rewrite (Hbuf o), (decide_True (P := o = o)) by done.
    destruct (decide (b = r)) as [->|Hne].
    + rewrite decide_True by done. rewrite H7 by done. done.
    + rewrite decide_False by congruence. rewrite H7 by done. lia.
  - intros b pt Hf. destruct (Hnof b pt Hf) as (Hb1 & Hb2 & Hb3 & Hb4).
    rewrite (HbufD b Hb1), Huc, decide_False by done. rewrite elem_of_app. auto.
  - intros b Hb Hbb Hz. assert (Hbo' : b ≠ o).
    { intros ->. rewrite Hbuf, decide_True in Hbb by done. done. }
    assert (HbD : b ∈ D) by (apply elem_of_app in Hb as [?|?%list_elem_of_singleton]; done).
    rewrite (HbufD b HbD) in Hbb. rewrite Huc in Hz. pose proof (rem_elem L o HL).
    destruct (decide (b = r)) as [->|Hne].
    + rewrite H7 in Hz by done. assert (0 ≤ shared st D L r); [|lia].
      apply sumZ_nonneg. intros v Hv. by apply (shared_terms st D).
    + assert (Hf := H10 b HbD Hbb Hz). apply list_elem_of_fmap in Hf as ([b' pt] & -> & Hf).
      apply list_elem_of_fmap. exists (b', pt). split; [done|]. by apply Hfl.
  - intros v Hv. rewrite Hbuf. unfold plan_buf. cbn [plan_values st3]. rewrite lookup_alter_decide.
    case_decide as Ea.
    + subst. rewrite Hp. done.
    + rewrite E2, C2. by apply H11.
  - intros v q. cbn [plan_values st3]. rewrite lookup_alter_decide. case_decide as Ea.
    + subst. rewrite Hp. by intros [= <-].
    + rewrite E2, C2. apply H12.
Qed.

(** ** One use less *)

Lemma rem_cons x L v : rem (x :: L) v = rem L v + (if decide (x = v) then 1 else 0).
Proof. unfold rem. simpl. lia. Qed.

Lemma shared_cons st D x L b :
  NoDup D → x ∈ D → shared st D (x :: L) b = shared st D L b + (if decide (buf st x = b) then 1 else 0).
Proof.
  intros Hnd Hx. unfold shared.
  rewrite (sumZ_update (fun v => if decide (buf st v = b) then rem L v else 0) _ D x); [|done|done|].
  - rewrite rem_cons. rewrite (decide_True (P := x = x)) by done. case_decide; lia.
  - intros y Hy Hne. rewrite rem_cons, (decide_False (P := x = y)) by congruence.
    case_decide; lia.
Qed.

Lemma planned_release st D L x arg pc :
  GraphOk names g → Planned st D (x :: L) → x ∈ D → na_exists arg = true →
  name_map_ names !! na_name arg = Some x →
  ∃ st', release names pc st arg = Ok st' ∧ Planned st' D L ∧ (∀ w, buf st' w = buf st w) ∧
    (freelist_ st' = freelist_ st ∨
     freelist_ st' = (buf st x, pc) :: freelist_ st ∧ shared st D L (buf st x) = 0).
Proof.
  intros Hg HP Hx He Hn. pose proof (uc_buffer _ _ _ x HP Hx) as Hux.
  destruct HP as [H1 H2 H3 H4 H5 H6 H7 H8 H9 H10 H11 H12].
  set (r := buf st x) in *. destruct (H6 x Hx) as [Hr Hrr]. fold r in Hr, Hrr.
  assert (Hltx := defined_lt x Hg (H2 x Hx)). assert (Hltr := defined_lt r Hg (H2 r Hr)).
  unfold release. rewrite He, (Index_ok names arg x Hn). cbn [mbind res_bind].
  unfold Buffer, ValueInfo. rewrite (info_lookup names st x) by done.
  cbn [of_option mbind res_bind reused_buffer_index]. fold r.
  destruct (add_use_ok names st r (-1)) as (st1 & -> & E1 & E2 & E3 & E4 & E5 & E6); [done|done|].
  cbn [mbind res_bind]. unfold UseCount, ValueInfo. rewrite (info_lookup names st1 r) by done.
  cbn [of_option mbind res_bind usecount].
  assert (Hbuf : ∀ w, buf st1 w = buf st w) by (intros w; rewrite E6; case_decide; by subst).
  assert (Hsh : ∀ b, shared st1 D L b = shared st D (x :: L) b - (if decide (r = b) then 1 else 0)).
  { intros b. rewrite (shared_cons st D x L b H3 Hx). fold r. rewrite (shared_ext st st1) by auto. lia. }
  assert (Hur : uc st1 r = shared st1 D L r).
  { rewrite E5, Hsh, !decide_True by done. rewrite Hux. lia. }
  assert (Hnotfree : r ∉ (freelist_ st).*1).
  { intros ([b pt] & Hb & Hin)%list_elem_of_fmap. simpl in Hb. subst b. destruct (H9 r pt Hin) as (_ & _ & Hz).
    rewrite Hux in Hz. pose proof (shared_elem st D (x :: L) x Hx) as Hle. fold r in Hle.
    pose proof (rem_elem (x :: L) x ltac:(by left)). lia. }
  assert (Hcore : ∀ fl, (∀ b pt, (b, pt) ∈ fl → (b, pt) ∈ freelist_ st ∨ b = r ∧ uc st1 r = 0) →
    (∀ b, b ∈ (freelist_ st).*1 → b ∈ fl.*1) → (uc st1 r = 0 → r ∈ fl.*1) → NoDup fl.*1 →
    Planned (with_freelist st1 fl) D L).
  { intros fl Hfl1 Hfl2 Hfl3 Hfl4. split; [split; apply E1|done|done|..];
      change (site (with_freelist st1 fl)) with (site st1); change (buf (with_freelist st1 fl)) with (buf st1);
      change (uc (with_freelist st1 fl)) with (uc st1);
      change (plan_values (with_freelist st1 fl)) with (plan_values st1);
      change (freelist_ (with_freelist st1 fl)) with fl;
      change (shared (with_freelist st1 fl)) with (shared st1).
    - intros v Hv. rewrite E4. case_decide; subst; by apply H4.
    - intros v Hv HvD. destruct (H5 v Hv HvD) as [Hb Hu]. rewrite Hbuf, E5, decide_False by (by intros ->).
      rewrite Hu, rem_cons, decide_False by (by intros ->). split; [done|lia].
    - intros v Hv. rewrite !Hbuf. by apply H6.
    - intros b Hb. rewrite Hbuf. intros Hbb. destruct (decide (b = r)) as [->|Hne]; [done|].
      rewrite E5, Hsh, !decide_False by congruence. rewrite H7 by done. lia.
    - done.
    - intros b pt Hin. rewrite Hbuf. destruct (Hfl1 b pt Hin) as [Hf|[-> Hz]]; [|done].
      destruct (H9 b pt Hf) as (? & ? & ?). rewrite E5, decide_False; [done|].
      intros ->. apply Hnotfree, list_elem_of_fmap. by exists (r, pt).
    - intros b Hb. rewrite Hbuf. intros Hbb Hz. destruct (decide (b = r)) as [->|Hne]; [auto|].
      apply Hfl2, H10; [done..|]. by rewrite E5, decide_False in Hz by done.
    - intros v Hv. rewrite E2, Hbuf. by apply H11.
    - rewrite E2. done. }
  destruct (Z.eqb_spec (uc st1 r) 0) as [Hz|Hz].
  - eexists. split; [done|]. split_and!.
    + apply Hcore; rewrite E3; simpl.
      * intros b pt [[= -> ->]|?]%elem_of_cons; auto.
      * intros b ?. by right.
      * intros _. by left.
      * by constructor.
    + exact Hbuf.
    + right. simpl. rewrite E3. split; [done|]. rewrite <- (shared_ext st st1) by auto. by rewrite <- Hur.
  - exists st1. split; [done|]. split_and!; [|exact Hbuf|left; done].
    assert (st1 = with_freelist st1 (freelist_ st)) as -> by (rewrite <- E3; by destruct st1).
    apply Hcore; [auto|done|done|done].
Qed.

(** ** Candidates *)

Definition node_known node : Prop :=
  ∀ arg, arg ∈ n_inputs node ++ n_implicit_inputs node ++ n_outputs node → arg ∈ graph_args g.

Lemma input_at_elem node i arg : input_at node i = Some arg → arg ∈ n_inputs node.
Proof. unfold input_at. destruct (0 <=? i); [|done]. apply list_elem_of_lookup_2. Qed.

Lemma find_alias_ok node num l :
  GraphOk names g → node_known node →
  ∃ o, find_alias names node num l = Ok o ∧ ∀ x, o = Some x → x ∈ uses names node.
Proof.
  intros Hg Hk. induction l as [|[i o] l IH]; simpl; [by exists None|].
  destruct (o =? num); [|done]. destruct (input_at node i) as [arg|] eqn:Ei; [|done].
  apply input_at_elem in Ei. destruct (na_exists arg) eqn:Ee; [|done].
  destruct (ok_known _ _ Hg arg) as [v Hv]; [apply Hk; set_solver|done|].
  rewrite (Index_ok names arg v Hv). simpl. exists (Some v). split; [done|]. intros x [= <-].
  unfold uses. apply elem_of_app. left. apply elem_of_ids. eauto.
Qed.

Lemma SameSize_ok a1 a2 s1 s2 :
  GraphOk names g → a1 ∈ graph_args g → a2 ∈ graph_args g → na_shape a1 = Some s1 → na_shape a2 = Some s2 →
  ∃ b, SameSize s1 (na_type a1) s2 (na_type a2) = Ok b.
Proof.
  intros Hg H1 H2 E1 E2. destruct (ok_shaped _ _ Hg _ _ H1 E1) as [z1 Hz1].
  destruct (ok_shaped _ _ Hg _ _ H2 E2) as [z2 Hz2]. unfold SameSize, GetElementSize.
  rewrite Hz1, Hz2. simpl. eauto.
Qed.
Lemma SameSizeArg_ok a1 a2 :
  GraphOk names g → a1 ∈ graph_args g → a2 ∈ graph_args g → ∃ b, SameSizeArg a1 a2 = Ok b.
Proof.
  intros Hg H1 H2. unfold SameSizeArg. destruct (_ || _); [eauto|].
  destruct (na_shape a1) eqn:E1; [|eauto]. destruct (na_shape a2) eqn:E2; [|eauto]. by apply SameSize_ok.
Qed.

Lemma find_inplace_ok st D L node output num l :
  GraphOk names g → Planned st D L → node_known node → output ∈ graph_args g →
  (∀ x, x ∈ uses names node → x ∈ D) →
  ∃ o, find_inplace names st node output num l = Ok o ∧
    ∀ x, o = Some x → x ∈ uses names node ∧ uc st (buf st x) = 1 ∧
      ∃ i a, (i, num) ∈ l ∧ input_at node i = Some a ∧ name_map_ names !! na_name a = Some x.
Proof.
  intros Hg HP Hk Hout HD. induction l as [|[i o] l IH]; cbn [find_inplace]; [by exists None|].
  assert (Hnext : ∃ r, find_inplace names st node output num l = Ok r ∧
    ∀ x, r = Some x → x ∈ uses names node ∧ uc st (buf st x) = 1 ∧
      ∃ i' a, (i', num) ∈ (i, o) :: l ∧ input_at node i' = Some a ∧ name_map_ names !! na_name a = Some x).
  { destruct IH as (r & -> & Hr). exists r. split; [done|]. intros x Hx.
    destruct (Hr x Hx) as (? & ? & i' & a & ? & ?). split_and!; [done..|]. exists i', a. split; [by right|done]. }
  clear IH. destruct (Z.eqb_spec o num) as [->|]; [|done]. destruct (input_at node i) as [arg|] eqn:Ei; [|done].
  pose proof (input_at_elem _ _ _ Ei) as Hin. destruct (na_exists arg) eqn:Ee; [|done].
  assert (Harg : arg ∈ graph_args g) by (apply Hk; set_solver).
  destruct (ok_known _ _ Hg arg Harg Ee) as [x Hx].
  rewrite (Index_ok names arg x Hx). cbn [mbind res_bind].
  assert (Hxu : x ∈ uses names node) by (apply elem_of_app; left; apply elem_of_ids; eauto).
  assert (HxD := HD x Hxu). destruct (pn_root _ _ _ HP x HxD) as [Hr _].
  unfold Buffer, UseCount, ValueInfo.
  rewrite (info_lookup names st x); [|apply HP|apply (defined_lt x Hg), (pn_sub _ _ _ HP x HxD)].
  cbn [of_option mbind res_bind reused_buffer_index].
  rewrite (info_lookup names st (buf st x)); [|apply HP|apply (defined_lt _ Hg), (pn_sub _ _ _ HP _ Hr)].
  cbn [of_option mbind res_bind usecount].
  destruct (Z.eqb_spec 1 (uc st (buf st x))) as [Hone|]; [|done].
  destruct (SameSizeArg_ok arg output Hg Harg Hout) as [b ->]. cbn [mbind res_bind].
  destruct b; [|done]. exists (Some x). split; [done|]. intros y [= <-]. split_and!; [done|done|].
  exists i, arg. split; [by left|done].
Qed.

Lemma find_free_ok st D L arg shape l :
  GraphOk names g → Planned st D L → arg ∈ graph_args g → na_shape arg = Some shape →
  (∀ b pt, (b, pt) ∈ l → b ∈ D) → ∀ loc,
  ∃ o, find_free names st shape (na_type arg) loc l = Ok o ∧
    ∀ b rest, o = Some (b, rest) → ∃ l1 pt l2, l = l1 ++ (b, pt) :: l2 ∧ rest = l1 ++ l2.
Proof.
  intros Hg HP Harg Hsh Hl loc. induction l as [|[b pt] l IH]; simpl; [by exists None|].
  assert (HbD : b ∈ D) by (eapply Hl; by left). assert (Hbd := pn_sub _ _ _ HP b HbD).
  unfold ValueInfo. rewrite (info_lookup names st b); [|apply HP|by apply defined_lt].
  cbn [of_option mbind res_bind p_def_site].
  destruct (pn_site _ _ _ HP b Hbd) as (a & -> & Ha & Hn). cbn [of_option mbind res_bind].
  rewrite (Index_ok names a b Hn). cbn [mbind res_bind]. unfold AllocPlan.
  destruct (plan_lookup names st b) as [p ->]; [apply HP|by apply defined_lt|]. cbn [of_option mbind res_bind].
  destruct IH as (o & Ho & Hspec); [intros; eapply Hl; by right|]. rewrite Ho. cbn [mbind res_bind].
  assert (Hnext : ∃ o', Ok (option_map (fun '(x, rest) => (x, (b, pt) :: rest)) o) = Ok o' ∧
    ∀ x rest, o' = Some (x, rest) → ∃ l1 pt' l2, (b, pt) :: l = l1 ++ (x, pt') :: l2 ∧ rest = l1 ++ l2).
  { eexists. split; [done|]. intros x rest E. destruct o as [[x' rest']|]; [|done]. simplify_eq/=.
    destruct (Hspec x rest' eq_refl) as (l1 & pt' & l2 & -> & ->). by exists ((b, pt) :: l1), pt', l2. }
  destruct (negb _); [done|]. destruct (na_shape a) as [s|] eqn:Es; [|done].
  destruct (SameSize_ok a arg s shape Hg Ha Harg Es Hsh) as [same ->]. cbn [mbind res_bind].
  destruct same; [|done]. exists (Some (b, l)). split; [done|]. intros x rest [= <- <-]. by exists [], pt, l.
Qed.

(** ** What the plan guarantees *)

(** Why the [j]-th output [o] of the [k]-th node gets the buffer of an earlier
    value [v], as the planner decides it: what the kernel declares is looked up
    with the number of the outputs before [o] that exist, which is not the
    position [j] if one of them does not. *)
Definition reuse_counted (bufof : nat → nat) (k j o v : nat) : Prop :=
  ∃ node arg kd, g_topo g !! k = Some node ∧ n_outputs node !! j = Some arg ∧
    name_map_ names !! na_name arg = Some o ∧ n_kernel node = Some kd ∧ na_exists arg = true ∧
    let num := Z.of_nat (length (ids names (take j (n_outputs node)))) in
    (∃ x, x ∈ uses names node ∧ find_alias names node num (kd_alias kd) = Ok (Some x) ∧ bufof x = bufof o) ∨
    (perm names g v = 0 ∧ v ∉ all_releases names (drop (S k) (g_topo g)) ∧
     (v ∈ uses names node → cnt v (uses names node) = 1 ∧
        ∃ i a, (i, num) ∈ kd_may_inplace kd ∧ input_at node i = Some a ∧
          name_map_ names !! na_name a = Some v)).

(** The buffer of an output of the [k]-th node is its own or that of a value
    defined before the node. *)
Definition root_ok st (k o : nat) : Prop :=
  buf st o = o ∨ buf st o ∈ defs0 names g ++ all_outs names (take k (g_topo g)).

Record History st D : Prop := {
  hi_reuse : ∀ l1 o l2 v, D = l1 ++ o :: l2 → v ∈ l1 → buf st v = buf st o →
    ∃ k j, reuse_counted (buf st) k j o v ∧ (∀ node x, g_topo g !! k = Some node → x ∈ uses names node → x ∈ l1);
  hi_free : ∀ b pt v, (b, pt) ∈ freelist_ st → v ∈ D → buf st v = b →
    perm names g v = 0 ∧ v ∉ all_releases names (drop (S pt) (g_topo g));
  hi_own : ∀ v, v ∈ D → v ∈ defs0 names g → buf st v = v;
  hi_root : ∀ k node o, g_topo g !! k = Some node → o ∈ outs names node → o ∈ D → root_ok st k o;
}.

Lemma reuse_counted_ext f f' k j o v l1 :
  reuse_counted f k j o v → (∀ node x, g_topo g !! k = Some node → x ∈ uses names node → x ∈ l1) →
  (∀ x, x ∈ o :: l1 → f' x = f x) → reuse_counted f' k j o v.
Proof.
  intros (node & arg & kd & E1 & E2 & E3 & E4 & E5 & H) Hl Hf. exists node, arg, kd. split_and!; [done..|].
  simpl in H |- *. destruct H as [(x & Hx & Ha & Hb)|H]; [left|by right].
  exists x. split_and!; [done|done|]. rewrite !Hf; [done|by left|right; eauto].
Qed.

Lemma history_snoc st st' D o :
  History st D → (∀ v, v ∈ D → buf st' v = buf st v) →
  (∀ v, v ∈ D → buf st' v = buf st' o →
     ∃ k j, reuse_counted (buf st') k j o v ∧ (∀ node x, g_topo g !! k = Some node → x ∈ uses names node → x ∈ D)) →
  (∀ b pt, (b, pt) ∈ freelist_ st' → (b, pt) ∈ freelist_ st ∧ b ≠ buf st' o) →
  o ∉ defs0 names g → (∀ k node, g_topo g !! k = Some node → o ∈ outs names node → root_ok st' k o) →
  History st' (D ++ [o]).
Proof.
  intros [H1 H2 H3 H4] Hbuf Ho Hfl Hnew Hroot. split.
  - intros l1 o' l2 v HD Hv Hb. destruct l2 as [|e l2 _] using rev_ind.
    + apply app_inj_tail in HD as [-> ->]. auto.
    + rewrite app_comm_cons, app_assoc in HD. apply app_inj_tail in HD as [-> ->].
      rewrite !Hbuf in Hb by set_solver. destruct (H1 l1 o' l2 v eq_refl Hv Hb) as (k & j & Hr & Hu).
      exists k, j. split; [|done]. eapply reuse_counted_ext; [done|done|]. intros x Hx. apply Hbuf. set_solver.
  - intros b pt v [Hf Hne]%Hfl [Hv| ->%list_elem_of_singleton]%elem_of_app Hb; [|done].
    rewrite Hbuf in Hb by done. eauto.
  - intros v [Hv| ->%list_elem_of_singleton]%elem_of_app Hd; [|done]. rewrite Hbuf by done. auto.
  - intros k node x Hk Hx [Hv| ->%list_elem_of_singleton]%elem_of_app; [|eauto].
    unfold root_ok. rewrite Hbuf by done. by eapply H4.
Qed.

Lemma history_same st st' D :
  History st D → (∀ v, buf st' v = buf st v) →
  (∀ b pt, (b, pt) ∈ freelist_ st' → (b, pt) ∈ freelist_ st ∨ ∀ v, v ∈ D → buf st v = b →
     perm names g v = 0 ∧ v ∉ all_releases names (drop (S pt) (g_topo g))) →
  History st' D.
Proof.
  intros [H1 H2 H3 H4] Hbuf Hfl. split.
  - intros l1 o l2 v HD Hv. rewrite !Hbuf. intros Hb. destruct (H1 l1 o l2 v HD Hv Hb) as (k & j & Hr & Hu).
    exists k, j. split; [|done]. eapply reuse_counted_ext; [done|done|]. auto.
  - intros b pt v Hf Hv. rewrite Hbuf. destruct (Hfl b pt Hf) as [?|Hnew]; eauto.
  - intros v Hv Hd. rewrite Hbuf. auto.
  - intros k node x Hk Hx Hv. unfold root_ok. rewrite Hbuf. by eapply H4.
Qed.
End reuse.
