(* ===== verification/AllocPlannerFree.v ===== *)
(** The free list is ordered by the step that frees, and
    [GenerateDeallocationPlan] turns it into the free ranges of the steps. *)
From S2P Require Import Prelude MemPattern AllocPlanner AllocPlannerInv AllocPlannerReuse.

(** ** Order of the free list *)

Section order.
Context {T : Type} `{!TensorTypes T}.
Context (names : MLValueNameIdxMap) (g : GraphView T).
Implicit Types (st : PState T).

(** Later entries of the list were freed earlier, none after step [k]. *)
Definition FreeOrder (k : nat) (l : list (nat * nat)) : Prop :=
  StronglySorted ge l.*2 ∧ Forall (fun p => p ≤ k)%nat l.*2.

Lemma order_sublist k l l' : l' `sublist_of` l → FreeOrder k l → FreeOrder k l'.
Proof.
  intros Hs [H1 H2]. apply (sublist_map snd) in Hs. split.
  - by eapply sublist_sorted.
  - by eapply sublist_Forall.
Qed.
Lemma order_mono k k' l : (k ≤ k')%nat → FreeOrder k l → FreeOrder k' l.
Proof. intros Hk [H1 H2]. split; [done|]. eapply Forall_impl; [done|]. simpl. lia. Qed.
Lemma order_cons k b l : FreeOrder k l → FreeOrder k ((b, k) :: l).
Proof. intros [H1 H2]. split; simpl; constructor; auto. Qed.

Lemma update_plan_free st v f st' : update_plan st v f = Ok st' → freelist_ st' = freelist_ st.
Proof. unfold update_plan. intros (? & _ & [= <-])%bind_Ok. done. Qed.
Lemma Reuse_free st x o st' : Reuse st x o = Ok st' → freelist_ st' = freelist_ st.
Proof.
  unfold Reuse, add_use. intros (? & _ & (? & _ & (? & _ & (? & _ & H)%bind_Ok)%bind_Ok)%bind_Ok)%bind_Ok.
  apply bind_Ok in H as (s & H & ->%update_plan_free). apply bind_Ok in H as (? & _ & [= <-]). done.
Qed.

Lemma find_free_sublist st s t loc l b rest :
  find_free names st s t loc l = Ok (Some (b, rest)) → rest `sublist_of` l.
Proof.
  revert b rest. induction l as [|[r pt] l IH]; intros b rest; cbn [find_free]; [done|].
  intros (i & _ & (a & _ & (x & _ & (p & _ & H)%bind_Ok)%bind_Ok)%bind_Ok)%bind_Ok.
  assert (Hnext : (o ← find_free names st s t loc l;
    Ok (option_map (fun '(b, rest) => (b, (r, pt) :: rest)) o)) = Ok (Some (b, rest)) →
    rest `sublist_of` (r, pt) :: l).
  { intros (o & Ho & [= E])%bind_Ok. destruct o as [[b' rest']|]; [|done]. simplify_eq/=.
    constructor. by eapply IH. }
  destruct (negb _); [auto|]. destruct (na_shape a); [|auto].
  apply bind_Ok in H as (same & _ & H). destruct same; [|auto]. injection H as <- <-. by constructor.
Qed.

Lemma plan_output_free k node st n a st' n' :
  FreeOrder k (freelist_ st) → plan_output names g node (st, n) a = Ok (st', n') → FreeOrder k (freelist_ st').
Proof.
  intros Ho. unfold plan_output. destruct (negb (na_exists a)); [by intros [= <- <-]|].
  intros (c & _ & (s1 & H1 & (s2 & H2 & [= <- <-])%bind_Ok)%bind_Ok)%bind_Ok.
  apply update_plan_free in H1. rewrite <- H1 in Ho. clear H1.
  assert (Hup : ∀ f, update_plan s1 c f = Ok s2 → FreeOrder k (freelist_ s2)).
  { intros f E%update_plan_free. by rewrite E. }
  destruct (is_graph_output g a); [eauto|]. destruct (IsNonTensor a); [eauto|].
  apply bind_Ok in H2 as ([x|] & _ & H2); [by rewrite (Reuse_free _ _ _ _ H2)|].
  apply bind_Ok in H2 as ([[x s3]|] & Ht & H2); [|eauto]. rewrite (Reuse_free _ _ _ _ H2).
  destruct (g_parallel g); [done|]. unfold FindReusableTensor in Ht. destruct (na_shape a); [|done].
  apply bind_Ok in Ht as (y & _ & (p & _ & (o & Hf & [= E])%bind_Ok)%bind_Ok).
  destruct o as [[b rest]|]; [|done]. simplify_eq/=. eapply order_sublist; [|done]. by eapply find_free_sublist.
Qed.

Lemma release_free k st a st' :
  FreeOrder k (freelist_ st) → release names k st a = Ok st' → FreeOrder k (freelist_ st').
Proof.
  intros Ho. unfold release, add_use. destruct (na_exists a); [|by intros [= <-]].
  intros (x & _ & (o & _ & (s1 & (? & _ & [= <-])%bind_Ok & (u & _ & H)%bind_Ok)%bind_Ok)%bind_Ok)%bind_Ok.
  destruct (u =? 0); injection H as <-; [by apply order_cons|done].
Qed.

(** An invariant kept by every successful round is kept by the loop. *)
Lemma foldM_keep {S A} (I : S → Prop) (f : S → A → res S) s l s' :
  (∀ s x s', I s → f s x = Ok s' → I s') → I s → foldM f s l = Ok s' → I s'.
Proof.
  intros Hf. revert s. induction l as [|x l IH]; intros s HI; cbn [foldM]; [by intros [= <-]|].
  intros (s1 & H1 & H2)%bind_Ok. eauto.
Qed.

Lemma plan_node_free k node st st' :
  FreeOrder k (freelist_ st) → plan_node names g st (k, node) = Ok st' → FreeOrder k (freelist_ st').
Proof.
  intros Ho. unfold plan_node. intros ([s1 n1] & H1 & (s2 & H2 & (s3 & H3 & H4)%bind_Ok)%bind_Ok)%bind_Ok.
  assert (Hr : ∀ l (s s' : PState T), FreeOrder k (freelist_ s) → foldM (release names k) s l = Ok s' → FreeOrder k (freelist_ s')).
  { intros l s s' ? ?. eapply (foldM_keep (fun s => FreeOrder k (freelist_ s))); [|done|done].
    intros. by eapply release_free. }
  do 3 (eapply Hr; [|done]).
  apply (foldM_keep (fun s => FreeOrder k (freelist_ s.1))) in H1; [done| |done].
  intros [s n] a [s' n'] Hs H. by eapply plan_output_free.
Qed.

Lemma plan_nodes_free l k st st' :
  StronglySorted ge (freelist_ st).*2 → Forall (fun p => p < k)%nat (freelist_ st).*2 →
  foldM (plan_node names g) st (imap (fun i n => (k + i, n)%nat) l) = Ok st' →
  StronglySorted ge (freelist_ st').*2 ∧ Forall (fun p => p < k + length l)%nat (freelist_ st').*2.
Proof.
  revert k st. induction l as [|node l IH]; intros k st Hs Hk.
  { intros [= <-]. split; [done|]. by rewrite Nat.add_0_r. }
  rewrite imap_cons. cbn [foldM]. rewrite Nat.add_0_r. intros (s1 & H1 & H2)%bind_Ok.
  apply plan_node_free in H1 as [Hs1 Hk1].
  2:{ split; [done|]. eapply Forall_impl; [exact Hk|]. simpl. lia. }
  cbn [length]. rewrite Nat.add_succ_r. apply (IH (S k) s1); [done| |].
  - eapply Forall_impl; [exact Hk1|]. simpl. lia.
  - rewrite <- H2. f_equal. apply imap_ext. intros i n _. simpl. do 2 f_equal. lia.
Qed.
End order.

(** ** The free ranges *)

(** Position [i] of [to_be_freed] is in the free range of the step. *)
Definition in_range (s : NodeExecutionPlan) (i : nat) : Prop :=
  free_from_index s ≤ Z.of_nat i ≤ free_to_index s.

(** The step [k] frees the entries of [pre] with its number, but step 0 frees
    nothing. *)
Definition range_ok (pre : list (nat * nat)) (k : nat) (s : NodeExecutionPlan) : Prop :=
  ∀ i, in_range s i ↔ ∃ b, pre !! i = Some (b, k) ∧ k ≠ 0%nat.

(** After the entries [pre]: the steps other than the last one seen are
    finished; of that one only the start is written. *)
Record Dealloc (n : nat) (pre : list (nat * nat)) (d : DState) : Prop := {
  de_len : length (d_plan d) = n;
  de_current : d_current d = Z.of_nat (length pre);
  de_le : ∀ i b pt, pre !! i = Some (b, pt) → (pt ≤ d_prev d)%nat;
  de_first : d_has_prev d = false → d_prev d = 0%nat;
  de_closed : ∀ k s, d_plan d !! k = Some s → (d_has_prev d = true → k ≠ d_prev d) → range_ok pre k s;
  de_open : d_has_prev d = true → d_prev d ≠ 0%nat ∧ (d_prev d < n)%nat ∧ ∀ s, d_plan d !! d_prev d = Some s →
    ∀ i b pt, pre !! i = Some (b, pt) → (free_from_index s ≤ Z.of_nat i ↔ pt = d_prev d);
  de_from : d_has_prev d = true → ∀ s, d_plan d !! d_prev d = Some s → 0 ≤ free_from_index s < Z.of_nat (length pre);
}.

(** Writing the end of the range that is open finishes it. *)
Lemma close_ok n pre d :
  Dealloc n pre d →
  ∃ p, (if d_has_prev d then alter_step (set_free_to (d_current d - 1)) (d_prev d) (d_plan d)
        else Ok (d_plan d)) = Ok p ∧ length p = n ∧ ∀ k s, p !! k = Some s → range_ok pre k s.
Proof.
  intros [H1 H2 H3 H4 H5 H6 H7]. destruct (d_has_prev d) eqn:Eh.
  - destruct (H6 eq_refl) as (Hnz & Hlt & Hopen). unfold alter_step.
    destruct (lookup_lt_is_Some_2 (d_plan d) (d_prev d)) as [s Hs]; [lia|]. rewrite Hs. cbn [of_option mbind res_bind].
    eexists. split; [done|]. rewrite length_alter. split; [done|]. intros k s'. rewrite lookup_alter_decide.
    case_decide as E; [subst k|intros Hk; apply H5; [done|by intros _]].
    rewrite Hs. intros [= <-] i. unfold in_range. simpl. rewrite H2. split.
    + intros [Hf Ht]. destruct (lookup_lt_is_Some_2 pre i) as [[b pt] Hi]; [lia|]. exists b.
      apply (Hopen s Hs i b pt Hi) in Hf as ->. done.
    + intros (b & Hi & _). split; [by apply (Hopen s Hs i b _ Hi)|]. apply lookup_lt_Some in Hi. lia.
  - exists (d_plan d). split_and!; [done|done|]. intros k s Hk. by apply H5.
Qed.

Lemma range_ok_snoc pre k s e : range_ok pre k s → e.2 ≠ k ∨ k = 0%nat → range_ok (pre ++ [e]) k s.
Proof.
  intros H He i. rewrite (H i). split; intros (b & Hb & Hk).
  - exists b. split; [|done]. by apply lookup_app_l_Some.
  - exists b. split; [|done]. apply lookup_app_Some in Hb as [?|[_ Hb]]; [done|].
    apply list_lookup_singleton_Some in Hb as [_ ->]. simpl in He. naive_solver.
Qed.

Lemma dealloc_step_ok n pre d e :
  Dealloc n pre d → (d_prev d ≤ e.2 < n)%nat → ∃ d', dealloc_step d e = Ok d' ∧ Dealloc n (pre ++ [e]) d' ∧ d_prev d' = e.2.
Proof.
  intros HD He. unfold dealloc_step. destruct (Nat.eqb_spec e.2 (d_prev d)) as [E|E]; cbn [negb].
  - eexists. split; [done|]. split; [|done]. destruct HD as [H1 H2 H3 H4 H5 H6 H7].
    split; cbn [d_plan d_current d_has_prev d_prev].
    + done.
    + rewrite length_app. simpl. lia.
    + intros i b pt [?|[_ Hb]]%lookup_app_Some; [eauto|]. apply list_lookup_singleton_Some in Hb as [_ ->]. simpl in E. lia.
    + done.
    + intros k s Hk Hp. apply range_ok_snoc; [auto|]. destruct (d_has_prev d) eqn:Eh.
      * left. rewrite E. specialize (Hp eq_refl). congruence.
      * rewrite (H4 eq_refl) in E. destruct k; [auto|left; congruence].
    + intros Eh. destruct (H6 Eh) as (? & ? & Hopen). split_and!; [done..|]. intros s Hs i b pt.
      intros [?|[Hi Hb]]%lookup_app_Some; [eauto|]. apply list_lookup_singleton_Some in Hb as [Hi0 ->]. simpl in E.
      destruct (H7 Eh s Hs). split; [done|]. intros _. lia.
    + intros Eh s Hs. destruct (H7 Eh s Hs). rewrite length_app. simpl. lia.
  - destruct (close_ok n pre d HD) as (p & -> & Hlen & Hclosed). cbn [mbind res_bind]. unfold alter_step.
    destruct (lookup_lt_is_Some_2 p e.2) as [s Hs]; [lia|]. rewrite Hs. cbn [of_option mbind res_bind].
    eexists. split; [done|]. split; [|done]. destruct HD as [H1 H2 H3 H4 H5 H6 H7].
    split; cbn [d_plan d_current d_has_prev d_prev].
    + by rewrite length_alter.
    + rewrite length_app. simpl. lia.
    + intros i b pt [Hi|[_ Hb]]%lookup_app_Some; [specialize (H3 i b pt Hi); lia|].
      apply list_lookup_singleton_Some in Hb as [_ ->]. simpl. lia.
    + done.
    + intros k s' Hk Hp. rewrite lookup_alter_decide, decide_False in Hk by (specialize (Hp eq_refl); congruence).
      apply range_ok_snoc; [eauto|]. left. specialize (Hp eq_refl). congruence.
    + intros _. split_and!; [lia|lia|]. intros s'. rewrite lookup_alter_decide, decide_True, Hs by done. simpl.
      intros [= <-] i b pt Hi. simpl. rewrite H2. apply lookup_app_Some in Hi as [Hi|[Hi Hb]].
      * specialize (H3 i b pt Hi). apply lookup_lt_Some in Hi. split; [lia|intros ->; lia].
      * apply list_lookup_singleton_Some in Hb as [Hi0 ->]. simpl. split; [done|]. intros _. lia.
    + intros _ s'. rewrite lookup_alter_decide, decide_True, Hs by done. simpl. intros [= <-]. simpl.
      rewrite H2, length_app. simpl. lia.
Qed.

Lemma dealloc_steps_ok n l pre d :
  Dealloc n pre d → StronglySorted le l.*2 → Forall (fun p => d_prev d ≤ p < n)%nat l.*2 →
  ∃ d', foldM dealloc_step d l = Ok d' ∧ Dealloc n (pre ++ l) d'.
Proof.
  revert pre d. induction l as [|e l IH]; intros pre d HD Hs Hl.
  { exists d. by rewrite app_nil_r. }
  cbn [foldM]. csimpl in Hs. csimpl in Hl. apply Forall_cons in Hl as [He Hl]. apply StronglySorted_inv in Hs as [Hs Hle].
  destruct (dealloc_step_ok n pre d e HD He) as (d1 & -> & HD1 & Hprev). cbn [mbind res_bind].
  change (e :: l) with ([e] ++ l). rewrite app_assoc. apply IH; [done|done|]. rewrite Hprev.
  rewrite Forall_forall in Hl, Hle |- *. intros p Hp. specialize (Hl p Hp). specialize (Hle p Hp). lia.
Qed.

Lemma StronglySorted_reverse_ge (l : list nat) : StronglySorted ge l → StronglySorted le (reverse l).
Proof.
  induction 1 as [|x l Hs IH Hx]; [constructor|]. rewrite reverse_cons. apply StronglySorted_app_2; [|done|].
  - intros a b Ha ->%list_elem_of_singleton. rewrite elem_of_reverse in Ha. rewrite Forall_forall in Hx. specialize (Hx a Ha). lia.
  - repeat constructor.
Qed.

Lemma GenerateDeallocationPlan_ok steps fl :
  StronglySorted ge fl.*2 → Forall (fun p => p < length steps)%nat fl.*2 →
  (∀ s, s ∈ steps → free_from_index s = 1 ∧ free_to_index s = 0) →
  ∃ p, GenerateDeallocationPlan steps fl = Ok (p, (reverse fl).*1) ∧ length p = length steps ∧
    ∀ k s, p !! k = Some s → range_ok (reverse fl) k s.
Proof.
  intros Hs Hf Hnew. unfold GenerateDeallocationPlan.
  destruct (dealloc_steps_ok (length steps) (reverse fl) [] (mkDState steps false 0 0)) as (d & -> & HD).
  - split; cbn [d_plan d_current d_has_prev d_prev]; try done.
    intros k s Hk _ i. apply list_elem_of_lookup_2, Hnew in Hk. unfold in_range. split; [lia|].
    intros (b & ? & _). by rewrite lookup_nil in *.
  - rewrite fmap_reverse. by apply StronglySorted_reverse_ge.
  - rewrite fmap_reverse. apply Forall_reverse. eapply Forall_impl; [exact Hf|]. simpl. lia.
  - cbn [mbind res_bind]. destruct (close_ok _ _ _ HD) as (p & -> & Hlen & Hr). cbn [mbind res_bind]. eauto.
Qed.
