(* ===== verification/AllocPlannerSteps.v ===== *)
(** The steps of [ComputeReusePlan] keep the invariant of
    [AllocPlannerReuse] and the history of the buffers: planning one output,
    one node and the whole execution plan. *)
From S2P Require Import Prelude MemPattern AllocPlanner AllocPlannerInv AllocPlannerReuse AllocPlannerFree.

Section steps.
Context {T : Type} `{!TensorTypes T}.
Context (names : MLValueNameIdxMap) (g : GraphView T).
Implicit Types (st : PState T) (arg : NodeArg T) (node : Node T) (D L : list nat).

Abbreviation Planned := (Planned names g).
Abbreviation History := (History names g).
Abbreviation defined := (defined names g).
Abbreviation num_values := (num_values names).

(** The releases after the [k]-th node. *)
Definition after (k : nat) : list nat := all_releases names (drop (S k) (g_topo g)).
Definition arg_num node (j : nat) : Z := Z.of_nat (length (ids names (take j (n_outputs node)))).

Lemma length_ids (l : list (NodeArg T)) : (length (ids names l) ≤ length l)%nat.
Proof. unfold ids. induction l as [|a l IH]; csimpl; [done|]. case_match; csimpl; lia. Qed.

(** The output planned next. *)
Record Current (k j o : nat) node arg D : Prop := {
  cu_node : g_topo g !! k = Some node;
  cu_arg : n_outputs node !! j = Some arg;
  cu_exists : na_exists arg = true;
  cu_index : name_map_ names !! na_name arg = Some o;
  cu_uses : ∀ x, x ∈ uses names node → x ∈ D;
  cu_new : o ∉ D;
  cu_sub : ∀ v, v ∈ D → v ∈ defs0 names g ++ all_outs names (take k (g_topo g)) ∨ v ∈ outs names node;
}.

Lemma current_defined k j o node arg D : Current k j o node arg D → o ∈ outs names node ∧ o ∈ defined.
Proof.
  intros [H1 H2 H3 H4 _ _ _]. assert (Ho : o ∈ outs names node).
  { apply elem_of_ids. exists arg. split_and!; [by eapply list_elem_of_lookup_2|done..]. }
  split; [done|]. unfold AllocPlannerInv.defined. apply elem_of_app. right.
  apply list_elem_of_bind. exists node. split; [done|]. by eapply list_elem_of_lookup_2.
Qed.

Section current.
Context (Hg : GraphOk names g) (k j o : nat) (node : Node T) (arg : NodeArg T) (D : list nat).
Context (HC : Current k j o node arg D).
Abbreviation L := (releases names node ++ after k).

Lemma current_known : node_known g node.
Proof. intros a Ha. eapply topo_args; [apply HC|done]. Qed.

Lemma out_in_L : o ∈ L.
Proof. apply elem_of_app. left. apply elem_of_app. right. by destruct (current_defined _ _ _ _ _ _ HC). Qed.

Lemma not_after v : v ∉ L → v ∉ after k ∧ v ∉ uses names node.
Proof. unfold releases. rewrite !not_elem_of_app. tauto. Qed.

(** The output belongs to this node only, and its buffer is in order if it is
    that of a value defined before the node. *)
Lemma current_root st' :
  root_ok names g st' k o →
  o ∉ defs0 names g ∧ ∀ k' node', g_topo g !! k' = Some node' → o ∈ outs names node' → root_ok names g st' k' o.
Proof.
  intros Hr. destruct (current_defined _ _ _ _ _ _ HC) as [Ho Hd]. split.
  - apply (ok_fresh _ _ Hg). apply list_elem_of_bind. exists node. split; [done|]. eapply list_elem_of_lookup_2, HC.
  - intros k' node' Hk' Ho'. destruct (decide (k' = k)) as [->|Hne]; [done|]. exfalso.
    assert (H : ∀ i i' n n', (i < i')%nat → g_topo g !! i = Some n → g_topo g !! i' = Some n' →
      o ∈ outs names n → o ∈ outs names n' → False).
    { intros i i' n n' Hlt Hn Hn' H H'. destruct (outs_fresh names g i' n' Hg Hn') as [_ Hf].
      apply Hf in H' as [_ H']. apply H'. apply list_elem_of_bind. exists n. split; [done|].
      apply list_elem_of_lookup. exists i. by rewrite lookup_take_lt. }
    pose proof (cu_node _ _ _ _ _ _ HC) as Hk. destruct (decide (k < k')%nat); [by eapply (H k k')|eapply (H k' k); [lia|done..]].
Qed.
Lemma input_root st x :
  History st D → x ∈ uses names node → buf st x ∈ defs0 names g ++ all_outs names (take k (g_topo g)).
Proof.
  intros HH Hx. pose proof (cu_uses _ _ _ _ _ _ HC x Hx) as HxD. apply elem_of_app.
  destruct (ok_order _ _ Hg k node x (cu_node _ _ _ _ _ _ HC) Hx) as [Hd|Hd].
  - left. by rewrite (hi_own _ _ _ _ HH).
  - pose proof Hd as Hd'. apply list_elem_of_bind in Hd' as (n & Hxn & (i & Hi)%list_elem_of_lookup).
    apply lookup_take_Some in Hi as [Hi Hik]. destruct (hi_root _ _ _ _ HH i n x Hi Hxn HxD) as [->|Hr]; [auto|].
    apply elem_of_app in Hr as [?|Hr]; [auto|]. right.
    apply list_elem_of_bind in Hr as (m & Hm & (i' & Hi')%list_elem_of_lookup). apply list_elem_of_bind. exists m. split; [done|].
    apply lookup_take_Some in Hi' as [Hi' ?]. apply list_elem_of_lookup. exists i'. rewrite lookup_take_lt by lia. done.
Qed.

(** A buffer of its own. *)
Lemma output_fresh st f :
  Planned st D L → History st D → (∀ p, alloc_kind (f p) ≠ kReuse) →
  ∃ st', update_plan st o f = Ok st' ∧ Planned st' (D ++ [o]) L ∧ History st' (D ++ [o]).
Proof.
  intros HP HH Hf. destruct (current_defined _ _ _ _ _ _ HC) as [Ho Hd].
  destruct (pn_todo _ _ _ _ _ HP o Hd (cu_new _ _ _ _ _ _ HC)) as [Hb _].
  destruct (planned_plan names g st D L o f HP) as (st' & -> & HP' & Hfl & Hbuf & _).
  { by apply (defined_lt names g). }
  { intros p _. by rewrite decide_False. }
  { by intros p _ ?%Hf. }
  exists st'. split; [done|].
  split; [apply planned_fresh; [done|done|apply HC|apply out_in_L]|].
  destruct (current_root st') as [Hn0 Hr0]; [left; by rewrite Hbuf|].
  apply (history_snoc names g st); [done|auto| | |done|done].
  - intros v Hv. rewrite !Hbuf, Hb. intros E. exfalso. apply (cu_new _ _ _ _ _ _ HC). rewrite <- E.
    by apply (pn_root _ _ _ _ _ HP).
  - rewrite Hfl, Hbuf, Hb. intros b pt Hin. split; [done|]. intros ->.
    apply (cu_new _ _ _ _ _ _ HC). by eapply (pn_free _ _ _ _ _ HP).
Qed.

(** The buffer of an input or of a dead value. *)
Lemma output_reuse st fl x :
  Planned st D L → History st D → x ∈ D →
  NoDup fl.*1 → (∀ b pt, (b, pt) ∈ fl ↔ (b, pt) ∈ freelist_ st ∧ b ≠ buf st x) →
  (∀ f, f x = f o → ∀ v, v ∈ D → buf st v = buf st x → reuse_counted names g f k j o v) →
  buf st x ∈ defs0 names g ++ all_outs names (take k (g_topo g)) →
  ∃ st', Reuse (with_freelist st fl) x o = Ok st' ∧ Planned st' (D ++ [o]) L ∧ History st' (D ++ [o]).
Proof.
  intros HP HH Hx Hnd Hfl Hok Hroot. destruct (current_defined _ _ _ _ _ _ HC) as [Ho Hd].
  destruct (planned_reuse names g st D L fl x o Hg HP Hx Hd (cu_new _ _ _ _ _ _ HC) out_in_L Hnd Hfl)
    as (st' & -> & HP' & Hfl' & Hbo & Hbuf).
  destruct (current_root st') as [Hn0 Hr0]; [right; by rewrite Hbo|].
  exists st'. split; [done|]. split; [done|]. apply (history_snoc names g st); [done|done| | |done|done].
  - intros v Hv. rewrite Hbo, Hbuf by done. intros E. exists k, j. split.
    + apply Hok; [|done|done]. by rewrite Hbuf, Hbo.
    + intros node' y Hn Hy. rewrite (cu_node _ _ _ _ _ _ HC) in Hn. injection Hn as <-. by apply HC.
  - intros b pt. rewrite Hfl', Hbo. apply Hfl.
Qed.

Lemma freelist_same st x :
  Planned st D L → x ∈ D → uc st (buf st x) ≠ 0 →
  NoDup (freelist_ st).*1 ∧ ∀ b pt, (b, pt) ∈ freelist_ st ↔ (b, pt) ∈ freelist_ st ∧ b ≠ buf st x.
Proof.
  intros HP Hx Hu. split; [apply HP|]. intros b pt. split; [|tauto]. intros Hf. split; [done|]. intros ->.
  by destruct (pn_free _ _ _ _ _ HP _ _ Hf) as (_ & _ & ?).
Qed.

Lemma input_live st x : Planned st D L → x ∈ uses names node → 1 ≤ uc st (buf st x).
Proof.
  intros HP Hx. assert (HxD := cu_uses _ _ _ _ _ _ HC x Hx). rewrite (uc_buffer _ _ _ _ _ _ HP HxD).
  pose proof (shared_elem names g st D L x HxD) as H1.
  pose proof (rem_elem names g L x ltac:(unfold releases; set_solver)). lia.
Qed.

(** The state with an unchanged free list. *)
Lemma with_freelist_id st : with_freelist st (freelist_ st) = st.
Proof. by destruct st. Qed.

Lemma output_alias st x kd :
  Planned st D L → History st D → n_kernel node = Some kd → x ∈ uses names node →
  find_alias names node (arg_num node j) (kd_alias kd) = Ok (Some x) →
  ∃ st', Reuse st x o = Ok st' ∧ Planned st' (D ++ [o]) L ∧ History st' (D ++ [o]).
Proof.
  intros HP HH Hk Hx Ha. assert (HxD := cu_uses _ _ _ _ _ _ HC x Hx).
  pose proof (input_live st x HP Hx) as Hlive.
  destruct (freelist_same st x HP HxD ltac:(lia)) as [Hnd Hfl].
  destruct (output_reuse st (freelist_ st) x) as (st' & Hst & HP' & HH'); [done..| |by apply input_root|].
  2:{ exists st'. by rewrite <- (with_freelist_id st) at 1. }
  intros f Hf v Hv Hb. exists node, arg, kd. destruct HC. split_and!; [done..|]. left. by exists x.
Qed.

Lemma output_inplace st x kd :
  Planned st D L → History st D → n_kernel node = Some kd → x ∈ uses names node →
  uc st (buf st x) = 1 →
  (∃ i a, (i, arg_num node j) ∈ kd_may_inplace kd ∧ input_at node i = Some a ∧
     name_map_ names !! na_name a = Some x) →
  ∃ st', Reuse st x o = Ok st' ∧ Planned st' (D ++ [o]) L ∧ History st' (D ++ [o]).
Proof.
  intros HP HH Hk Hx Hu Hi. assert (HxD := cu_uses _ _ _ _ _ _ HC x Hx).
  destruct (freelist_same st x HP HxD ltac:(lia)) as [Hnd Hfl].
  destruct (output_reuse st (freelist_ st) x) as (st' & Hst & HP' & HH'); [done..| |by apply input_root|].
  2:{ exists st'. by rewrite <- (with_freelist_id st) at 1. }
  intros f Hf v Hv Hb. exists node, arg, kd. split_and!; [apply HC|apply HC|apply HC|done|apply HC|]. right.
  rewrite (uc_buffer _ _ _ _ _ _ HP HxD) in Hu.
  assert (Hrx : 1 ≤ rem names g L x) by (apply rem_elem; unfold releases; set_solver).
  destruct (decide (v = x)) as [->|Hne].
  - pose proof (shared_elem names g st D L x HxD) as H1. rewrite Hu in H1. unfold rem in H1.
    pose proof (perm_nonneg names g x). pose proof (cnt_elem x _ Hx) as Hc.
    pose proof (cnt_nonneg x (outs names node)). pose proof (cnt_nonneg x (after k)).
    unfold releases in H1. rewrite !cnt_app in H1. split_and!; [lia|apply (cnt_zero x (after k)); lia|].
    intros _. split; [lia|done].
  - pose proof (shared_elem2 names g st D L x v) as H2. rewrite Hu in H2.
    specialize (H2 HxD Hv ltac:(done) Hb). pose proof (rem_nonneg names g L v).
    destruct (rem_zero names g L v) as [Hn Hp]; [lia|].
    apply not_after in Hn as [? ?]. done.
Qed.

Lemma output_free st x pt fl1 fl2 kd :
  Planned st D L → History st D → n_kernel node = Some kd → freelist_ st = fl1 ++ (x, pt) :: fl2 →
  ∃ st', Reuse (with_freelist st (fl1 ++ fl2)) x o = Ok st' ∧ Planned st' (D ++ [o]) L ∧ History st' (D ++ [o]).
Proof.
  intros HP HH Hk Hfl. destruct (pn_free _ _ _ _ _ HP x pt) as (Hx & Hbx & Hux); [rewrite Hfl; set_solver|].
  pose proof (pn_free_nodup _ _ _ _ _ HP) as Hnd. rewrite Hfl, fmap_app, fmap_cons in Hnd.
  apply output_reuse; [done..| | | |].
  - rewrite fmap_app. eapply sublist_NoDup; [exact Hnd|]. apply sublist_app; [done|]. by constructor.
  - intros b p. rewrite Hfl, Hbx. apply NoDup_app in Hnd as (_ & Hd & [Hn _]%NoDup_cons).
    rewrite !elem_of_app, elem_of_cons. split.
    + intros Hin. split; [naive_solver|]. intros ->. simpl in *. destruct Hin as [Hin|Hin].
      * apply (Hd x); [apply list_elem_of_fmap; by exists (x, p)|by left].
      * apply Hn. apply list_elem_of_fmap. by exists (x, p).
    + intros [[?|[[= -> ->]|?]] ?]; naive_solver.
  - intros f Hf v Hv Hb. exists node, arg, kd. split_and!; [apply HC|apply HC|apply HC|done|apply HC|]. right.
    rewrite Hbx in Hb. rewrite <- Hbx, (uc_buffer _ _ _ _ _ _ HP Hx), Hbx in Hux.
    destruct (shared_zero names g st D L x Hux v Hv Hb) as [Hn Hp].
    apply not_after in Hn as [? ?]. done.
  - rewrite Hbx. destruct (cu_sub _ _ _ _ _ _ HC x Hx) as [?|Hout]; [done|]. exfalso.
    rewrite <- Hbx, (uc_buffer _ _ _ _ _ _ HP Hx) in Hux.
    destruct (shared_zero names g st D L _ Hux x Hx eq_refl) as [Hn _]. apply Hn. unfold releases. set_solver.
Qed.

Lemma set_value_type_ok st t :
  Planned st D L → History st D →
  ∃ st', update_plan st o (set_value_type t) = Ok st' ∧ Planned st' D L ∧ History st' D.
Proof.
  intros HP HH. destruct (current_defined _ _ _ _ _ _ HC) as [_ Hd].
  destruct (planned_plan names g st D L o (set_value_type t) HP) as (st' & E & HP' & Hfl & Hbuf & _).
  { by apply (defined_lt names g). }
  { intros p Hp. pose proof (pn_plan _ _ _ _ _ HP o Hd) as Hb. unfold plan_buf in Hb. by rewrite Hp in Hb. }
  { intros p Hp. exact (pn_self _ _ _ _ _ HP o p Hp). }
  exists st'. split_and!; [done|done|]. apply (history_same names g st); [done|done|]. rewrite Hfl. auto.
Qed.

Lemma arg_num_lookup : ∃ out, n_outputs node !! Z.to_nat (arg_num node j) = Some out.
Proof.
  apply lookup_lt_is_Some_2. pose proof (lookup_lt_Some _ _ _ (cu_arg _ _ _ _ _ _ HC)) as Hj.
  unfold arg_num. rewrite Nat2Z.id. unfold ids.
  pose proof (length_ids (take j (n_outputs node))) as Hle. rewrite length_take in Hle. unfold ids in Hle. lia.
Qed.

Lemma FindReusableInput_ok st kd :
  Planned st D L → n_kernel node = Some kd →
  ∃ r, FindReusableInput names st node (arg_num node j) = Ok r ∧
    ∀ x, r = Some x → x ∈ uses names node ∧
      (find_alias names node (arg_num node j) (kd_alias kd) = Ok (Some x) ∨
       uc st (buf st x) = 1 ∧ ∃ i a, (i, arg_num node j) ∈ kd_may_inplace kd ∧ input_at node i = Some a ∧
         name_map_ names !! na_name a = Some x).
Proof.
  intros HP Hk. unfold FindReusableInput. destruct arg_num_lookup as [out Hout]. rewrite Hout, Hk.
  cbn [of_option mbind res_bind].
  destruct (find_alias_ok names g node (arg_num node j) (kd_alias kd) Hg current_known) as (a & Ea & Ha).
  rewrite Ea. cbn [mbind res_bind]. destruct a as [x|].
  - exists (Some x). split; [done|]. intros y [= <-]. auto.
  - destruct (find_inplace_ok names g st D L node out (arg_num node j) (kd_may_inplace kd)) as (r & -> & Hr);
      [done|done|apply current_known| |apply HC|].
    { eapply topo_args; [apply HC|]. do 2 (apply elem_of_app; right). by eapply list_elem_of_lookup_2. }
    exists r. split; [done|]. intros x Hx. destruct (Hr x Hx) as (? & ? & ?). auto.
Qed.

Lemma current_arg : arg ∈ graph_args g.
Proof.
  eapply topo_args; [apply HC|]. do 2 (apply elem_of_app; right). eapply list_elem_of_lookup_2, HC.
Qed.

Lemma FindReusableTensor_ok st :
  Planned st D L →
  ∃ r, FindReusableTensor names st arg = Ok r ∧
    ∀ x st', r = Some (x, st') → ∃ l1 pt l2, freelist_ st = l1 ++ (x, pt) :: l2 ∧
      st' = with_freelist st (l1 ++ l2).
Proof.
  intros HP. unfold FindReusableTensor. destruct (na_shape arg) as [shape|] eqn:Es; [|by exists None].
  rewrite (Index_ok names arg o) by apply HC. cbn [mbind res_bind]. unfold AllocPlan.
  destruct (current_defined _ _ _ _ _ _ HC) as [_ Hd].
  destruct (plan_lookup names st o) as [p ->]; [apply HP|by apply (defined_lt names g)|]. cbn [of_option mbind res_bind].
  destruct (find_free_ok names g st D L arg shape (freelist_ st) Hg HP current_arg Es) with (loc := location p)
    as (r & -> & Hr).
  { intros b pt Hf. by eapply (pn_free _ _ _ _ _ HP). }
  cbn [mbind res_bind]. eexists. split; [done|]. intros x st' E. destruct r as [[b rest]|]; [|done].
  simplify_eq/=. destruct (Hr x rest eq_refl) as (l1 & pt & l2 & ? & ->). by exists l1, pt, l2.
Qed.

Lemma plan_output_ok st :
  Planned st D L → History st D →
  ∃ st', plan_output names g node (st, arg_num node j) arg = Ok (st', arg_num node j + 1) ∧
    Planned st' (D ++ [o]) L ∧ History st' (D ++ [o]).
Proof.
  intros HP HH. unfold plan_output. rewrite (cu_exists _ _ _ _ _ _ HC). cbn [negb].
  rewrite (Index_ok names arg o) by apply HC. cbn [mbind res_bind].
  destruct (set_value_type_ok st (na_type arg) HP HH) as (s1 & -> & HP1 & HH1). cbn [mbind res_bind].
  destruct (ok_kernel _ _ Hg node) as [[kd Hk] _].
  { apply elem_of_app. left. eapply list_elem_of_lookup_2, HC. }
  assert (Hfin : ∀ m, (∃ st', m = Ok st' ∧ Planned st' (D ++ [o]) L ∧ History st' (D ++ [o])) →
    ∃ st', (st0 ← m; Ok (st0, arg_num node j + 1)) = Ok (st', arg_num node j + 1) ∧
      Planned st' (D ++ [o]) L ∧ History st' (D ++ [o])).
  { intros m (st' & -> & H). by exists st'. }
  apply Hfin. clear Hfin. destruct (is_graph_output g arg); [by apply output_fresh|].
  destruct (IsNonTensor arg); [by apply output_fresh|].
  destruct (FindReusableInput_ok s1 kd HP1 Hk) as (r & -> & Hr). cbn [mbind res_bind].
  destruct r as [x|].
  { destruct (Hr x eq_refl) as [Hx [Ha|[Hu Hi]]]; [by eapply output_alias|by eapply output_inplace]. }
  destruct (g_parallel g); [cbn [mbind res_bind]; by apply output_fresh|].
  destruct (FindReusableTensor_ok s1 HP1) as (t & -> & Ht). cbn [mbind res_bind].
  destruct t as [[x s2]|]; [|by apply output_fresh].
  destruct (Ht x s2 eq_refl) as (l1 & pt & l2 & Hfl & ->). by eapply output_free.
Qed.
End current.

Lemma ids_app (l1 l2 : list (NodeArg T)) : ids names (l1 ++ l2) = ids names l1 ++ ids names l2.
Proof. unfold ids. by rewrite omap_app. Qed.
Lemma ids_missing (a : NodeArg T) : na_exists a = false → ids names [a] = [].
Proof. intros E. unfold ids. simpl. by rewrite E. Qed.
Lemma ids_one (a : NodeArg T) v : na_exists a = true → name_map_ names !! na_name a = Some v → ids names [a] = [v].
Proof. intros E Hv. unfold ids. simpl. by rewrite E, Hv. Qed.

(** All outputs of a node. *)
Lemma plan_outputs_ok k node D l pre st :
  GraphOk names g → g_topo g !! k = Some node → (∀ x, x ∈ uses names node → x ∈ D) →
  (∀ v, v ∈ D → v ∈ defs0 names g ++ all_outs names (take k (g_topo g))) →
  (∀ v, v ∈ outs names node → v ∉ D) → NoDup (outs names node) → n_outputs node = pre ++ l →
  Planned st (D ++ ids names pre) (releases names node ++ after k) → History st (D ++ ids names pre) →
  ∃ st' n', foldM (plan_output names g node) (st, arg_num node (length pre)) l = Ok (st', n') ∧
    Planned st' (D ++ outs names node) (releases names node ++ after k) ∧ History st' (D ++ outs names node).
Proof.
  intros Hg Hk Huses Hsub Hnew Hnd. revert pre st. induction l as [|a l IH]; intros pre st Hout HP HH.
  { rewrite app_nil_r in Hout. exists st, (arg_num node (length pre)). unfold outs. by rewrite Hout. }
  assert (Hout' : n_outputs node = (pre ++ [a]) ++ l) by (rewrite Hout, <- app_assoc; done).
  specialize (IH (pre ++ [a])). rewrite ids_app, app_assoc in IH. cbn [foldM].
  assert (Hnum : arg_num node (length (pre ++ [a])) = arg_num node (length pre) + Z.of_nat (length (ids names [a]))).
  { unfold arg_num. rewrite Hout' at 1. rewrite Hout. rewrite !take_app_length, ids_app, length_app. lia. }
  rewrite Hnum in IH.
  assert (Hat : n_outputs node !! length pre = Some a) by (rewrite Hout; apply list_lookup_middle; done).
  destruct (na_exists a) eqn:Ee.
  - destruct (ok_known _ _ Hg a) as [v Hv]; [|done|].
    { eapply topo_args; [exact Hk|]. do 2 (apply elem_of_app; right). by eapply list_elem_of_lookup_2. }
    rewrite (ids_one a v Ee Hv) in IH. cbn [length] in IH.
    assert (HC : Current k (length pre) v node a (D ++ ids names pre)).
    { assert (Hvo : v ∈ outs names node).
      { apply elem_of_ids. exists a. split_and!; [by eapply list_elem_of_lookup_2|done..]. }
      split; try done; [set_solver| |].
      2:{ intros x [Hx|Hx]%elem_of_app; [left; auto|right]. unfold outs. rewrite Hout, ids_app. set_solver. }
      intros [Hin|Hin]%elem_of_app; [by eapply Hnew|].
      unfold outs in Hnd. rewrite Hout', !ids_app, (ids_one a v Ee Hv), <- app_assoc in Hnd.
      apply NoDup_app in Hnd as (_ & Hd & _). eapply Hd; [exact Hin|]. by left. }
    destruct (plan_output_ok Hg _ _ _ _ _ _ HC st HP HH) as (st1 & -> & HP1 & HH1).
    cbn [mbind res_bind]. by apply IH.
  - rewrite (ids_missing a Ee), app_nil_r in IH. cbn [length] in IH. rewrite Z.add_0_r in IH.
    unfold plan_output at 2. rewrite Ee. cbn [negb mbind res_bind]. by apply IH.
Qed.

(** The releases after a node. *)
Lemma releases_ok k D l L st :
  GraphOk names g → (∀ x, x ∈ ids names l → x ∈ D) → (∀ v, v ∈ after k → v ∈ L) →
  (∀ a, a ∈ l → a ∈ graph_args g) →
  Planned st D (ids names l ++ L) → History st D →
  ∃ st', foldM (release names k) st l = Ok st' ∧ Planned st' D L ∧ History st' D.
Proof.
  intros Hg HD HL Hl. revert st. induction l as [|a l IH]; intros st HP HH; [by exists st|].
  change (a :: l) with ([a] ++ l) in HD, HP. rewrite ids_app in HD, HP. cbn [foldM].
  destruct (na_exists a) eqn:Ee.
  - destruct (ok_known _ _ Hg a (Hl a ltac:(by left)) Ee) as [x Hx].
    rewrite (ids_one a x Ee Hx) in HD, HP. cbn [app] in HP.
    destruct (planned_release names g st D (ids names l ++ L) x a k) as (st1 & E1 & HP1 & Hbuf & Hfl);
      [done|done|set_solver|done|done|].
    rewrite E1. cbn [mbind res_bind]. apply IH; [set_solver|set_solver|done|].
    apply (history_same names g st); [done|done|]. intros b pt.
    destruct Hfl as [->|[-> Hz]]; [auto|]. intros [[= -> ->]|?]%elem_of_cons; [right|auto].
    intros v Hv Hb. destruct (shared_zero names g st D _ _ Hz v Hv Hb) as [Hn Hp].
    split; [done|]. intros Hin. apply Hn, elem_of_app. right. by apply HL.
  - rewrite (ids_missing a Ee) in HD, HP. unfold release at 2. rewrite Ee. cbn [mbind res_bind].
    apply IH; [set_solver|set_solver|done|done].
Qed.

(** The values defined before the [k]-th node, in the order of definition. *)
Definition before (k : nat) : list nat := remove_dups (defs0 names g) ++ all_outs names (take k (g_topo g)).

Lemma after_S k node : g_topo g !! S k = Some node → after k = releases names node ++ after (S k).
Proof.
  intros Hk. unfold after. by rewrite (drop_S _ _ _ Hk).
Qed.

Lemma plan_node_ok k node st :
  GraphOk names g → g_topo g !! k = Some node →
  Planned st (before k) (releases names node ++ after k) → History st (before k) →
  ∃ st', plan_node names g st (k, node) = Ok st' ∧ Planned st' (before (S k)) (after k) ∧
    History st' (before (S k)).
Proof.
  intros Hg Hk HP HH. destruct (outs_fresh names g k node Hg Hk) as [Hnd Hnew].
  assert (Hu : ∀ x, x ∈ uses names node → x ∈ before k).
  { intros x Hx. apply elem_of_app. rewrite elem_of_remove_dups. by eapply ok_order. }
  assert (Hn : ∀ v, v ∈ outs names node → v ∉ before k).
  { intros v Hv. unfold before. rewrite not_elem_of_app, elem_of_remove_dups. by apply Hnew. }
  unfold plan_node.
  destruct (plan_outputs_ok k node (before k) (n_outputs node) [] st) as (s1 & n1 & E1 & HP1 & HH1); try done;
    [|by rewrite app_nil_r..|].
  { intros v. unfold before. by rewrite !elem_of_app, elem_of_remove_dups. }
  change (arg_num node (length [])) with 0 in E1. rewrite E1. cbn [mbind res_bind].
  assert (Hb : before (S k) = before k ++ outs names node).
  { unfold before. by rewrite (all_outs_take names g k node Hk), app_assoc. }
  rewrite <- Hb in HP1, HH1. assert (Hsub : ∀ x, x ∈ releases names node → x ∈ before (S k)).
  { intros x. unfold releases. rewrite Hb, !(elem_of_app _ _ x). intros [?|?]; auto. }
  unfold releases, uses in HP1, Hsub. rewrite <- !app_assoc in HP1.
  assert (Hargs : ∀ a, a ∈ n_inputs node ++ n_implicit_inputs node ++ n_outputs node → a ∈ graph_args g).
  { intros a. by apply (topo_args g k). }
  destruct (releases_ok k (before (S k)) (n_inputs node) (ids names (n_implicit_inputs node) ++ outs names node ++ after k) s1)
    as (s2 & -> & HP2 & HH2); [done|set_solver|set_solver|set_solver|done|done|]. cbn [mbind res_bind].
  destruct (releases_ok k (before (S k)) (n_implicit_inputs node) (outs names node ++ after k) s2)
    as (s3 & -> & HP3 & HH3); [done|set_solver|set_solver|set_solver|done|done|]. cbn [mbind res_bind].
  apply (releases_ok k (before (S k)) (n_outputs node) (after k) s3); [done|set_solver|set_solver|set_solver|done|done].
Qed.

(** All nodes. *)
Lemma plan_nodes_ok l k st :
  GraphOk names g → drop k (g_topo g) = l →
  Planned st (before k) (all_releases names l) → History st (before k) →
  ∃ st', foldM (plan_node names g) st (imap (fun i n => (k + i, n)%nat) l) = Ok st' ∧
    Planned st' (before (length (g_topo g))) [] ∧ History st' (before (length (g_topo g))).
Proof.
  intros Hg. revert k st. induction l as [|node l IH]; intros k st Hl HP HH.
  - exists st. split; [done|]. assert (Hle : (length (g_topo g) ≤ k)%nat).
    { apply (f_equal length) in Hl. rewrite length_drop in Hl. simpl in Hl. lia. }
    unfold before in *. rewrite take_ge in HP, HH by done. by rewrite take_ge.
  - assert (Hk : g_topo g !! k = Some node).
    { rewrite <- (take_drop k (g_topo g)), Hl. rewrite lookup_app_r; rewrite length_take.
      - apply (f_equal length) in Hl. rewrite length_drop in Hl. simpl in Hl.
        by replace (k - k `min` length (g_topo g))%nat with 0%nat by lia.
      - lia. }
    assert (Hl' : drop (S k) (g_topo g) = l).
    { rewrite (drop_S _ _ _ Hk) in Hl. by injection Hl. }
    rewrite imap_cons. cbn [foldM]. rewrite Nat.add_0_r.
    change (all_releases names (node :: l)) with (releases names node ++ all_releases names l) in HP.
    rewrite <- Hl' in HP.
    destruct (plan_node_ok k node st Hg Hk HP HH) as (st1 & -> & HP1 & HH1). cbn [mbind res_bind].
    unfold after in HP1. rewrite Hl' in HP1. destruct (IH (S k) st1 Hl' HP1 HH1) as (st' & E & H).
    exists st'. split; [|done]. rewrite <- E. f_equal. apply imap_ext. intros i n _. simpl. do 2 f_equal. lia.
Qed.

(** ** The start: use counts are known, nothing is planned but the values
    that exist before the first node *)

Abbreviation L0 := (all_releases names (g_topo g)).

Record Start st : Prop := {
  sr_planned : Planned st (before 0) L0;
  sr_history : History st (before 0);
  sr_own : ∀ v, v ∈ defs0 names g → buf st v = v;
  sr_free : freelist_ st = [];
}.

Lemma elem_of_before0 v : v ∈ before 0 ↔ v ∈ defs0 names g.
Proof. unfold before. simpl. by rewrite app_nil_r, elem_of_remove_dups. Qed.
Lemma NoDup_before0 : NoDup (before 0).
Proof. unfold before. simpl. rewrite app_nil_r. apply NoDup_remove_dups. Qed.

Lemma shared_own st D L b :
  NoDup D → b ∈ D → (∀ v, v ∈ D → buf st v = v) → shared names g st D L b = rem names g L b.
Proof.
  intros Hnd Hb Hown. unfold shared.
  rewrite (sumZ_update (fun _ => 0) _ D b); [|done|done|].
  - rewrite (Hown b Hb), decide_True by done. assert (H : sumZ (fun _ => 0) D = 0) by (clear; by induction D).
    lia.
  - intros y Hy Hne. rewrite (Hown y Hy). by rewrite decide_False.
Qed.

Lemma start_ok st :
  GraphOk names g → Counted names g st defined (L0 ++ all_ids names (g_outputs g)) → Start st.
Proof.
  intros Hg [H1 H2 H3 H4 H5 H6 H7 H8].
  assert (Huc : ∀ v, v ∈ defined → uc st v = rem names g L0 v).
  { intros v Hv. rewrite H5, cnt_app by done. unfold rem, perm. lia. }
  assert (Hdef : ∀ v, v ∈ before 0 → v ∈ defined) by (intros v ?%elem_of_before0; apply elem_of_app; auto).
  split; [split|split| |].
  - done.
  - done.
  - apply NoDup_before0.
  - done.
  - auto.
  - intros v Hv. by rewrite !H4 by auto.
  - intros b Hb _. rewrite Huc, shared_own by auto using NoDup_before0. done.
  - rewrite H7. constructor.
  - rewrite H7. intros b pt []%not_elem_of_nil.
  - intros b Hb _ Hz. rewrite Huc in Hz by auto. apply elem_of_before0 in Hb.
    apply rem_zero in Hz as [_ Hp]. unfold perm in Hp. rewrite decide_True in Hp by done.
    pose proof (cnt_nonneg b (all_ids names (g_outputs g))). lia.
  - intros v Hv. rewrite H4 by done. unfold plan_buf. destruct (plan_values st !! v) as [p|] eqn:E; [|done].
    by rewrite (H8 v p E).
  - intros v p E. by rewrite (H8 v p E).
  - intros l1 o l2 v HD Hv. pose proof NoDup_before0 as Hnd. rewrite HD in Hnd.
    rewrite !H4 by (apply Hdef; rewrite HD; set_solver). intros ->.
    apply NoDup_app in Hnd as (_ & Hd & _). exfalso. eapply Hd; [exact Hv|by left].
  - rewrite H7. intros b pt v []%not_elem_of_nil.
  - intros v Hv _. auto.
  - intros k node o Hk Ho Hin. left. auto.
  - intros v Hv. apply H4, elem_of_app. auto.
  - done.
Qed.

Lemma start_update st v f :
  GraphOk names g → Start st → v ∈ defs0 names g → (∀ p, alloc_kind (f p) ≠ kReuse) →
  ∃ st', update_plan st v f = Ok st' ∧ Start st'.
Proof.
  intros Hg [HP HH Hown Hnil] Hv Hf.
  destruct (planned_plan names g st (before 0) L0 v f HP) as (st' & -> & HP' & Hfl & Hbuf & _).
  { apply (defined_lt names g); [done|]. apply elem_of_app. auto. }
  { intros p _. rewrite decide_False by done. by rewrite Hown. }
  { by intros p _ ?%Hf. }
  exists st'. split; [done|]. split; [done| |intros; rewrite Hbuf; auto|by rewrite Hfl].
  apply (history_same names g st); [done|done|]. rewrite Hfl. auto.
Qed.

Lemma setup_preexisting_ok l st :
  GraphOk names g → Start st → (∀ a, a ∈ l → a ∈ g_inputs g ++ g_outer g) →
  ∃ st', foldM (setup_preexisting names) st l = Ok st' ∧ Start st'.
Proof.
  intros Hg HS Hl. apply (foldM_total Start); [done|]. clear st HS. intros st a Ha HS.
  specialize (Hl a Ha). destruct (ok_known _ _ Hg a) as [v Hv];
    [unfold graph_args; set_solver|apply (ok_exist _ _ Hg); set_solver|].
  unfold setup_preexisting. rewrite (Index_ok names a v Hv). cbn [mbind res_bind].
  apply start_update; [done|done| |done]. unfold defs0. rewrite !elem_of_app, !elem_of_all_ids.
  apply elem_of_app in Hl as [?|?]; eauto.
Qed.

Lemma plan_weight_ok node st io :
  GraphOk names g → Start st → node ∈ g_nodes g → io.2 ∈ n_inputs node →
  ∃ st', plan_weight names g node st io = Ok st' ∧ Start st'.
Proof.
  intros Hg HS Hn Hi. destruct io as [i a]. unfold plan_weight. simpl in Hi.
  destruct (na_exists a) eqn:Ee; [|by exists st]. cbn [negb].
  destruct (existsb _ _) eqn:Ex; [|by exists st]. cbn [negb].
  apply existsb_exists in Ex as (w & Hw & Hname). apply bool_decide_eq_true in Hname.
  destruct (ok_known _ _ Hg a) as [v Hv]; [|done|].
  { unfold graph_args. do 4 (apply elem_of_app; right). apply list_elem_of_bind. exists node.
    split; [set_solver|]. apply elem_of_app. auto. }
  rewrite (Index_ok names a v Hv). cbn [mbind res_bind].
  assert (Hd : v ∈ defs0 names g).
  { unfold defs0. rewrite !elem_of_app, !elem_of_all_ids. right. right. exists w. rewrite Hname.
    split; [by apply list_elem_of_In|done]. }
  unfold AllocPlan. destruct (plan_lookup names st v) as [p ->]; [apply HS| |].
  { apply (defined_lt names g); [done|]. apply elem_of_app. auto. }
  destruct (ok_kernel _ _ Hg node) as [[kd ->] [pr ->]]; [set_solver|]. cbn [of_option mbind res_bind].
  by apply start_update.
Qed.

Lemma GeneratePlanForWeights_ok st :
  GraphOk names g → Start st → ∃ st', GeneratePlanForWeights names g st = Ok st' ∧ Start st'.
Proof.
  intros Hg HS. apply (foldM_total Start); [done|]. clear st HS. intros st node Hn HS.
  apply (foldM_total Start); [done|]. intros st' io Hio HS'. apply plan_weight_ok; [done|done|done|].
  unfold indexed in Hio. rewrite <- (imap_pair_snd (n_inputs node)). apply list_elem_of_fmap. eauto.
Qed.

Lemma ComputeReusePlan_ok st :
  GraphOk names g → Counted names g st defined (L0 ++ all_ids names (g_outputs g)) →
  ∃ st', ComputeReusePlan names g st = Ok st' ∧
    Planned st' (before (length (g_topo g))) [] ∧ History st' (before (length (g_topo g))) ∧
    StronglySorted ge (freelist_ st').*2 ∧ Forall (fun p => p < length (g_topo g))%nat (freelist_ st').*2.
Proof.
  intros Hg HC. apply start_ok in HC as HS; [|done]. clear HC. unfold ComputeReusePlan.
  destruct (setup_preexisting_ok (g_inputs g) st Hg HS) as (s1 & -> & HS1); [set_solver|]. cbn [mbind res_bind].
  destruct (setup_preexisting_ok (g_outer g) s1 Hg HS1) as (s2 & -> & HS2); [set_solver|]. cbn [mbind res_bind].
  destruct (GeneratePlanForWeights_ok s2 Hg HS2) as (s3 & -> & [HP HH _ Hnil]). cbn [mbind res_bind].
  destruct (plan_nodes_ok (g_topo g) 0 s3 Hg eq_refl HP HH) as (st' & E & HP' & HH').
  exists st'. split_and!; [exact E|done|done|..];
    by apply (plan_nodes_free names g (g_topo g) 0 s3 st'); [rewrite Hnil; constructor..|exact E].
Qed.
End steps.
