(* ===== verification/AllocPlannerProps.v ===== *)
(** The theorems about the allocation planner: values that share a buffer,
    the release of buffers and the indices of names. *)
From S2P Require Import Prelude DataTypes MemPattern AllocPlanner AllocPlannerInv AllocPlannerReuse AllocPlannerFree AllocPlannerSteps.

(** ** Names and indices *)

Lemma new_names_ok : NamesOk new_MLValueNameIdxMap.
Proof. split; intros; simpl in *; by rewrite lookup_empty in *. Qed.

Lemma Add_names_ok m name : NamesOk m → NamesOk (Add m name).2.
Proof.
  intros [H1 H2]. unfold Add. destruct (name_map_ m !! name) eqn:E; [done|]. split; cbn [snd name_map_ MaxIdx mlvalue_max_idx_].
  - intros n i [[<- <-]|[? Hi]]%lookup_insert_Some; [lia|]. specialize (H1 n i Hi). unfold MaxIdx in H1. lia.
  - intros n n' i [[<- <-]|[? Hi]]%lookup_insert_Some [[<- E']|[? Hi']]%lookup_insert_Some; [done| | |eauto].
    + specialize (H1 n' _ Hi'). unfold MaxIdx in H1. lia.
    + subst. specialize (H1 n _ Hi). unfold MaxIdx in H1. lia.
Qed.

(** The map built by adding names one after the other. *)
Definition add_all (l : list string) : MLValueNameIdxMap := foldl (fun m n => (Add m n).2) new_MLValueNameIdxMap l.

Lemma add_all_ok l : NamesOk (add_all l).
Proof.
  unfold add_all. generalize new_names_ok. generalize new_MLValueNameIdxMap.
  induction l as [|n l IH]; intros m Hm; [done|]. simpl. by apply IH, Add_names_ok.
Qed.

(** [MLValueNameIdxMap] gives every name one index: [GetIdx] after [Add]
    returns the index [Add] returned, with an OK status, the other names keep
    theirs, no two names share an index and all are below [MaxIdx]. *)
Theorem name_idx_roundtrip m name :
  NamesOk m →
  let '(idx, m') := Add m name in
  NamesOk m' ∧ GetIdx m' name = (StatusOK, Z.of_nat idx) ∧ (idx < MaxIdx m')%nat ∧
  (∀ n, n ≠ name → GetIdx m' n = GetIdx m n) ∧ Add m' name = (idx, m') ∧
  (∀ n, n ≠ name → GetIdx m' n ≠ (StatusOK, Z.of_nat idx)).
Proof.
  intros Hm. pose proof (Add_names_ok m name Hm) as Hm'. unfold Add in *.
  destruct (name_map_ m !! name) as [idx|] eqn:E; cbn [snd] in Hm'.
  - split; [done|]. unfold GetIdx. rewrite E. split_and!; [done|by eapply names_lt|done|done|].
    intros n Hn. destruct (name_map_ m !! n) eqn:En; [|done]. intros [= ->%Nat2Z.inj]. by eapply Hn, (names_inj m).
  - split; [done|]. unfold GetIdx. cbn [name_map_]. rewrite !lookup_insert_eq.
    split_and!; [done|simpl; lia| |done|].
    + intros n Hn. by rewrite lookup_insert_ne.
    + intros n Hn. rewrite lookup_insert_ne by done. destruct (name_map_ m !! n) eqn:En; [|done].
      intros [= ->%Nat2Z.inj]. pose proof (names_lt m Hm _ _ En) as H. unfold MaxIdx in H. lia.
Qed.

Lemma name_idx_roundtrip_witness :
  NamesOk (add_all ["X"; "Y"]) ∧ GetIdx (Add (add_all ["X"; "Y"]) "Z").2 "Z" = (StatusOK, 2).
Proof.
  split; [apply add_all_ok|].
  exact (proj1 (proj2 (name_idx_roundtrip (add_all ["X"; "Y"]) "Z" (add_all_ok _)))).
Defined.

(** ** [CreatePlan] *)

Section props.
Context {T : Type} `{!TensorTypes T}.
Context (names : MLValueNameIdxMap) (g : GraphView T).

(** The values in the order of their definition: graph inputs and
    initializers, then the outputs of the nodes in execution order. *)
Definition values : list nat := before names g (length (g_topo g)).

Lemma elem_of_values v : v ∈ values ↔ v ∈ defined names g.
Proof.
  unfold values, before, defined. rewrite !elem_of_app, elem_of_remove_dups. by rewrite take_ge.
Qed.

Lemma CreatePlan_ok :
  GraphOk names g →
  ∃ plan st, CreatePlan names g = Ok (StatusOK, plan) ∧ allocation_plan plan = plan_values st ∧
    to_be_freed plan = (reverse (freelist_ st)).*1 ∧
    length (execution_plan plan) = length (g_topo g) ∧
    (∀ k s, execution_plan plan !! k = Some s → range_ok (reverse (freelist_ st)) k s) ∧
    Planned names g st values [] ∧ History names g st values ∧
    Forall (fun p => p < length (g_topo g))%nat (freelist_ st).*2.
Proof.
  intros Hg. unfold CreatePlan.
  destruct (ComputeUseCounts_ok names g Hg) as (s1 & E1 & HC). fold (num_values names). rewrite E1.
  cbn [mbind res_bind IsOK StatusOK negb].
  destruct (ComputeReusePlan_ok names g s1 Hg HC) as (st & -> & HP & HH & Hs & Hf). cbn [mbind res_bind].
  destruct (GenerateDeallocationPlan_ok ((fun n => new_step (n_index n)) <$> g_topo g) (freelist_ st))
    as (p & -> & Hlen & Hr); [done|by rewrite length_fmap| |].
  { by intros s (n & -> & _)%list_elem_of_fmap. }
  cbn [mbind res_bind]. rewrite length_fmap in Hlen. eexists _, st. split; [done|]. by split_and!.
Qed.

(** An output that a node omits is not followed by one that it has: then the
    counter of the planner is the position that the kernel declares. *)
Definition trailing_outputs : Prop := ∀ node j arg i a, node ∈ g_topo g → n_outputs node !! j = Some arg → na_exists arg = true → (i < j)%nat → n_outputs node !! i = Some a → na_exists a = true.

(** Why the [j]-th output [o] of the [k]-th node may have the buffer of an
    earlier value [v]: the kernel declares this output to be an alias of an input,
    which has the buffer, or [v] has no use after the node, is not a graph input,
    initializer or output, and a use by the node itself is the single use of an
    input that the kernel declares it may overwrite for this output. *)
Definition reuse_ok (bufof : nat → nat) (k j o v : nat) : Prop :=
  ∃ node arg kd, g_topo g !! k = Some node ∧ n_outputs node !! j = Some arg ∧ name_map_ names !! na_name arg = Some o ∧ n_kernel node = Some kd ∧
    ((∃ i a x, (i, Z.of_nat j) ∈ kd_alias kd ∧ input_at node i = Some a ∧ na_exists a = true ∧ name_map_ names !! na_name a = Some x ∧ bufof x = bufof o) ∨
     (perm names g v = 0 ∧ v ∉ all_releases names (drop (S k) (g_topo g)) ∧
      (v ∈ uses names node → cnt v (uses names node) = 1 ∧
         ∃ i a, (i, Z.of_nat j) ∈ kd_may_inplace kd ∧ input_at node i = Some a ∧ name_map_ names !! na_name a = Some v))).

Lemma find_alias_declared (node : Node T) num l x : find_alias names node num l = Ok (Some x) → ∃ i a, (i, num) ∈ l ∧ input_at node i = Some a ∧ na_exists a = true ∧ name_map_ names !! na_name a = Some x.
Proof.
  induction l as [|[i o] l IH]; cbn [find_alias]; [done|]. intros E.
  assert (Hrest : find_alias names node num l = Ok (Some x) → ∃ i' a, (i', num) ∈ (i, o) :: l ∧ input_at node i' = Some a ∧ na_exists a = true ∧ name_map_ names !! na_name a = Some x).
  { intros H. destruct (IH H) as (i' & a & Hin & H'). exists i', a. split; [by right|done]. }
  destruct (Z.eqb_spec o num) as [->|]; [|by apply Hrest]. destruct (input_at node i) as [a|] eqn:Ea; [|by apply Hrest]. destruct (na_exists a) eqn:Ex; [|by apply Hrest].
  exists i, a. split; [by left|]. split; [done|]. split; [done|]. unfold Index in E. destruct (name_map_ names !! na_name a); [by injection E as ->|done].
Qed.
Lemma counted_position k j (node : Node T) arg : GraphOk names g → trailing_outputs → g_topo g !! k = Some node → n_outputs node !! j = Some arg → na_exists arg = true →
  length (ids names (take j (n_outputs node))) = j.
Proof.
  intros Hg Ht Hk Hj Hx. pose proof (lookup_lt_Some _ _ _ Hj) as Hlt. apply list_elem_of_lookup_2 in Hk as Hin.
  assert (H : ∀ l : list (NodeArg T), (∀ a, a ∈ l → na_exists a = true ∧ known names a) → length (ids names l) = length l).
  { induction l as [|a l IH]; intros Hl; [done|]. destruct (Hl a) as [Ea [x Hn]]; [by left|]. unfold ids. cbn. rewrite Ea, Hn. cbn. f_equal. apply IH. intros b Hb. apply Hl. by right. }
  rewrite H, length_take; [lia|]. intros a (i & Ha)%list_elem_of_lookup. apply lookup_take_Some in Ha as [Ha Hi].
  assert (Ea : na_exists a = true) by (exact (Ht node j arg i a Hin Hj Hx Hi Ha)). split; [done|]. apply (ok_known _ _ Hg); [|done]. unfold graph_args. rewrite !elem_of_app. do 4 right. apply list_elem_of_bind. exists node. rewrite !elem_of_app. split; [|by left]. do 2 right. by eapply list_elem_of_lookup_2.
Qed.
Lemma reuse_declared f k j o v : GraphOk names g → trailing_outputs → reuse_counted names g f k j o v → reuse_ok f k j o v.
Proof.
  intros Hg Ht (node & arg & kd & E1 & E2 & E3 & E4 & E5 & H). rewrite (counted_position k j node arg Hg Ht E1 E2 E5) in H. exists node, arg, kd. split_and!; [done..|].
  destruct H as [(x & _ & Ha & Hb)|H]; [left|by right]. apply find_alias_declared in Ha as (i & a & Hin & Hi & Hex & Hn). by exists i, a, x.
Qed.

(** C5. [CreatePlan] succeeds on every graph whose names are known, whose values
    are defined once and before their uses, and whose nodes have kernels. If in
    addition no node omits an output before one that it has, an output that is
    given the buffer of an earlier value is one that the kernel declares to be an
    alias of an input with that buffer, or the earlier value has no use after the
    node (a use by the node itself is an input that the kernel declares it may
    overwrite) and is neither a graph input, an initializer nor a graph output.
    Without the condition it does not hold: see [missing_output_misaliases]. *)
Theorem CreatePlan_reuse_safe :
  GraphOk names g → trailing_outputs →
  ∃ plan, CreatePlan names g = Ok (StatusOK, plan) ∧
    ∀ l1 o l2 v, values = l1 ++ o :: l2 → v ∈ l1 →
      plan_buf (allocation_plan plan) v = plan_buf (allocation_plan plan) o →
      ∃ k j, reuse_ok (plan_buf (allocation_plan plan)) k j o v.
Proof.
  intros Hg Ht. destruct (CreatePlan_ok Hg) as (plan & st & E & Ep & _ & _ & _ & HP & HH & _).
  exists plan. split; [done|]. intros l1 o l2 v Hv Hin Hb.
  assert (Hbuf : ∀ x, x ∈ values → plan_buf (allocation_plan plan) x = buf st x).
  { intros x Hx. rewrite Ep. by apply (pn_plan _ _ _ _ _ HP), elem_of_values. }
  rewrite !Hbuf in Hb by (rewrite Hv; set_solver).
  destruct (hi_reuse _ _ _ _ HH l1 o l2 v Hv Hin Hb) as (k & j & Hr & Hu).
  exists k, j. apply reuse_declared; [done|done|]. eapply reuse_counted_ext; [done|done|]. intros x Hx. apply Hbuf. rewrite Hv. set_solver.
Qed.

(** C25. A buffer that a step of the plan frees is dead: no value with that
    buffer is used after the step, and none is a graph input, an initializer or
    a graph output. No buffer is freed twice: it is listed once, and no two steps
    free the same entry of the list. *)
Theorem CreatePlan_free_safe :
  GraphOk names g →
  ∃ plan, CreatePlan names g = Ok (StatusOK, plan) ∧ NoDup (to_be_freed plan) ∧
    length (execution_plan plan) = length (g_topo g) ∧
    (∀ k s k' s' i, execution_plan plan !! k = Some s → execution_plan plan !! k' = Some s' → in_range s i → in_range s' i → k = k') ∧
    ∀ k s i, execution_plan plan !! k = Some s → in_range s i →
      ∃ b, to_be_freed plan !! i = Some b ∧
        ∀ v, v ∈ defined names g → plan_buf (allocation_plan plan) v = b →
          perm names g v = 0 ∧ v ∉ all_releases names (drop (S k) (g_topo g)).
Proof.
  intros Hg. destruct (CreatePlan_ok Hg) as (plan & st & E & Ep & Ef & Hlen & Hr & HP & HH & _).
  exists plan. split; [done|]. split_and!; [|done| |].
  - rewrite Ef, fmap_reverse, reverse_Permutation. apply HP.
  - intros k s k' s' i Hk Hk' Hi Hi'. apply (Hr k s Hk) in Hi as (b & Hb & _). apply (Hr k' s' Hk') in Hi' as (b' & Hb' & _). congruence.
  - intros k s i Hk Hi. destruct (Hr k s Hk i) as [Hin _]. destruct (Hin Hi) as (b & Hb & _).
    exists b. split; [by rewrite Ef, list_lookup_fmap, Hb|]. intros v Hv. rewrite Ep, (pn_plan _ _ _ _ _ HP) by done.
    intros Hbv. apply (hi_free _ _ _ _ HH b k v); [|by apply elem_of_values|done].
    apply list_elem_of_lookup_2 in Hb. by rewrite elem_of_reverse in Hb.
Qed.

(** C36. No buffer leaks out of the plan: the buffer of every value that shares
    it with no graph input, initializer or graph output is in [to_be_freed],
    and a step frees it unless its last use is in step 0. *)
Theorem CreatePlan_frees_dead :
  GraphOk names g →
  ∃ plan, CreatePlan names g = Ok (StatusOK, plan) ∧
    ∀ v, v ∈ defined names g →
      (∀ w, w ∈ defined names g → plan_buf (allocation_plan plan) w = plan_buf (allocation_plan plan) v →
         perm names g w = 0) →
      ∃ i, to_be_freed plan !! i = Some (plan_buf (allocation_plan plan) v) ∧
        ((∃ k s, execution_plan plan !! k = Some s ∧ in_range s i) ∨
         ∀ w, w ∈ defined names g → plan_buf (allocation_plan plan) w = plan_buf (allocation_plan plan) v →
           w ∉ all_releases names (drop 1 (g_topo g))).
Proof.
  intros Hg. destruct (CreatePlan_ok Hg) as (plan & st & E & Ep & Ef & Hlen & Hr & HP & HH & Hlt).
  exists plan. split; [done|]. intros v Hv Hperm. rewrite Ep in Hperm |- *.
  assert (Hpb := pn_plan _ _ _ _ _ HP). rewrite (Hpb v Hv) in Hperm |- *.
  destruct (pn_root _ _ _ _ _ HP v) as [Hb Hbb]; [by apply elem_of_values|].
  assert (Hz : uc st (buf st v) = 0).
  { rewrite (pn_uc _ _ _ _ _ HP) by done. unfold shared.
    rewrite (sumZ_ext _ (fun _ => 0)); [clear; by induction values|]. intros w Hw. case_decide as Ew; [|done].
    unfold rem. simpl. apply elem_of_values in Hw. rewrite Hperm; [done|done|]. by rewrite Hpb. }
  pose proof (pn_zero _ _ _ _ _ HP _ Hb Hbb Hz) as ([b pt] & Eb & Hf)%list_elem_of_fmap. simpl in Eb. subst b.
  pose proof Hf as Hf'. rewrite <- elem_of_reverse in Hf'. apply list_elem_of_lookup in Hf' as [i Hi].
  exists i. split; [by rewrite Ef, list_lookup_fmap, Hi|]. destruct (decide (pt = 0%nat)) as [->|Hne].
  - right. intros w Hw. rewrite Hpb by done. intros Hwb. eapply (hi_free _ _ _ _ HH); [exact Hf|by apply elem_of_values|done].
  - left. rewrite Forall_fmap, Forall_forall in Hlt. specialize (Hlt _ Hf). simpl in Hlt.
    destruct (lookup_lt_is_Some_2 (execution_plan plan) pt) as [s Hs]; [lia|].
    exists pt, s. split; [done|]. apply (Hr pt s Hs). eauto.
Qed.

(** A buffer whose last use is in the first step is never freed by a step:
    the free range of step 0 is empty in every plan. *)
Theorem step0_frees_nothing :
  GraphOk names g →
  ∃ plan, CreatePlan names g = Ok (StatusOK, plan) ∧
    ∀ s i, execution_plan plan !! 0%nat = Some s → ¬ in_range s i.
Proof.
  intros Hg. destruct (CreatePlan_ok Hg) as (plan & st & E & _ & _ & _ & Hr & _).
  exists plan. split; [done|]. intros s i Hs Hi. by apply (Hr 0%nat s Hs) in Hi as (b & _ & ?).
Qed.

(** ** A decision procedure for well-formed graphs *)

Definition graph_okb : bool :=
  forallb (fun a => negb (na_exists a) || bool_decide (is_Some (name_map_ names !! na_name a))) (graph_args g) &&
  forallb na_exists (g_inputs g ++ g_outer g ++ g_initializers g ++ g_outputs g) &&
  forallb (fun a => match na_shape a with
                    | Some _ => bool_decide (is_Some (tensor_element_size (na_type a)))
                    | None => true
                    end) (graph_args g) &&
  forallb (fun n => bool_decide (is_Some (n_kernel n)) && bool_decide (is_Some (n_provider n))) (g_topo g ++ g_nodes g) &&
  bool_decide (NoDup (all_outs names (g_topo g))) &&
  forallb (fun v => negb (bool_decide (v ∈ defs0 names g))) (all_outs names (g_topo g)) &&
  forallb (fun kn => forallb (fun v => bool_decide (v ∈ defs0 names g ++ all_outs names (take kn.1 (g_topo g))))
                       (uses names kn.2)) (indexed (g_topo g)) &&
  forallb (fun v => bool_decide (v ∈ defs0 names g ++ all_outs names (g_topo g))) (all_ids names (g_outputs g)).

Lemma forallb_elem {A} (f : A → bool) l x : forallb f l = true → x ∈ l → f x = true.
Proof. rewrite forallb_forall. intros H Hx. by apply H, list_elem_of_In. Qed.

Lemma graph_okb_sound : NamesOk names → graph_okb = true → GraphOk names g.
Proof.
  unfold graph_okb. rewrite !andb_true_iff. intros Hn [[[[[[[H1 H2] H3] H4] H5] H6] H7] H8]. split.
  - done.
  - intros a Ha He. pose proof (forallb_elem _ _ _ H1 Ha) as H. simpl in H. rewrite He in H. by apply bool_decide_eq_true in H.
  - intros a Ha. by apply (forallb_elem _ _ _ H2).
  - intros a s Ha Hs. pose proof (forallb_elem _ _ _ H3 Ha) as H. simpl in H. rewrite Hs in H. by apply bool_decide_eq_true in H.
  - intros n Ha. pose proof (forallb_elem _ _ _ H4 Ha) as H. simpl in H. by rewrite andb_true_iff, !bool_decide_eq_true in H.
  - by apply bool_decide_eq_true in H5.
  - intros v Hv. pose proof (forallb_elem _ _ _ H6 Hv) as H. simpl in H. by apply negb_true_iff, bool_decide_eq_false in H.
  - intros k n v Hk Hv. assert (Hi : (k, n) ∈ indexed (g_topo g)).
    { unfold indexed. apply list_elem_of_lookup. exists k. by rewrite list_lookup_imap, Hk. }
    pose proof (forallb_elem _ _ _ H7 Hi) as H. simpl in H. pose proof (forallb_elem _ _ _ H Hv) as H'. simpl in H'.
    by apply bool_decide_eq_true, elem_of_app in H'.
  - intros v Hv. pose proof (forallb_elem _ _ _ H8 Hv) as H. simpl in H. by apply bool_decide_eq_true, elem_of_app in H.
Qed.
End props.

(** ** Concrete graphs *)

#[local] Instance onnx_types : TensorTypes MLDataType := {| has_tensor_type := IsTensorType; tensor_element_size := element_size |}.

Module Example.
Definition arg (n : string) : NodeArg MLDataType := mkNodeArg n true tensor_float (Some [DimValue 2; DimValue 3]).
Definition missing : NodeArg MLDataType := mkNodeArg "" false tensor_float None.
Definition kernel (alias inplace : list (Z * Z)) : option KernelDef :=
  Some (mkKernelDef alias inplace (fun _ => 0) (fun _ => 0) 0).
Definition cpu : Provider := fun _ => mkInfo CPU 0 0 1.
Definition node (i : Z) (ins outs : list string) (alias inplace : list (Z * Z)) : Node MLDataType :=
  mkNode i (arg <$> ins) [] (arg <$> outs) (kernel alias inplace) (Some cpu).

(** A chain of four nodes: [B] overwrites [A], [D] takes the buffer that [B]
    left, [E] is the graph output. *)
Definition names : MLValueNameIdxMap := add_all ["X"; "W"; "A"; "B"; "C"; "D"; "E"].
Definition nodes : list (Node MLDataType) :=
  [node 0 ["X"; "W"] ["A"] [] []; node 1 ["A"] ["B"] [] [(0, 0)]; node 2 ["B"] ["C"] [] [];
   node 3 ["C"] ["D"] [] []; node 4 ["D"] ["E"] [] []].
Definition graph : GraphView MLDataType := mkGraphView [arg "X"] [] [arg "W"] nodes nodes [arg "E"] cpu false.

Lemma graph_ok : GraphOk names graph.
Proof. apply graph_okb_sound; [apply add_all_ok|]. by vm_compute. Qed.
(** No output is omitted. *)
Lemma all_outputs_trailing {T} (h : GraphView T) : Forall (fun node => Forall (fun a => na_exists a = true) (n_outputs node)) (g_topo h) → trailing_outputs h.
Proof. intros H node j arg i a Hn _ _ _ Ha. rewrite Forall_forall in H. specialize (H node Hn). rewrite Forall_forall in H. by eapply H, list_elem_of_lookup_2. Qed.
Lemma graph_trailing : trailing_outputs graph.
Proof. apply all_outputs_trailing. cbn. repeat constructor. Qed.
End Example.

Lemma CreatePlan_reuse_safe_witness :
  GraphOk Example.names Example.graph ∧
  ∃ plan, CreatePlan Example.names Example.graph = Ok (StatusOK, plan) ∧
    plan_buf (allocation_plan plan) 3 = 2%nat ∧ plan_buf (allocation_plan plan) 5 = 2%nat ∧
    ∃ k j, reuse_ok Example.names Example.graph (plan_buf (allocation_plan plan)) k j 5 2.
Proof.
  split; [apply Example.graph_ok|].
  destruct (CreatePlan_reuse_safe Example.names Example.graph Example.graph_ok Example.graph_trailing) as (plan & E & H).
  assert (Hp : plan_buf (allocation_plan plan) 3 = 2%nat ∧ plan_buf (allocation_plan plan) 5 = 2%nat ∧
    plan_buf (allocation_plan plan) 2 = 2%nat).
  { vm_compute in E. injection E as <-. by vm_compute. }
  destruct Hp as (H3 & H5 & H2). exists plan. split_and!; [done..|].
  apply (H [0; 1; 2; 3; 4]%nat 5%nat [6]%nat 2%nat); [vm_compute; reflexivity|do 2 right; by left|by rewrite H2, H5].
Defined.

Lemma CreatePlan_free_safe_witness :
  GraphOk Example.names Example.graph ∧
  ∃ plan s, CreatePlan Example.names Example.graph = Ok (StatusOK, plan) ∧
    execution_plan plan !! 3%nat = Some s ∧ in_range s 0 ∧ to_be_freed plan !! 0%nat = Some 4%nat ∧
    perm Example.names Example.graph 4 = 0.
Proof.
  split; [apply Example.graph_ok|].
  destruct (CreatePlan_free_safe Example.names Example.graph Example.graph_ok) as (plan & E & _ & _ & _ & H).
  assert (Hp : ∃ s, execution_plan plan !! 3%nat = Some s ∧ in_range s 0 ∧ plan_buf (allocation_plan plan) 4 = 4%nat ∧
     to_be_freed plan !! 0%nat = Some 4%nat).
  { vm_compute in E. injection E as <-. eexists. split_and!; [by vm_compute|by vm_compute..]. }
  destruct Hp as (s & Hs & Hr & H4 & Hf). exists plan, s. split_and!; [done..|].
  destruct (H 3%nat s 0%nat Hs Hr) as (b & Hb & Hd). apply (Hd 4%nat); [|by rewrite H4; congruence].
  apply (bool_decide_unpack _). by vm_compute.
Defined.

Lemma CreatePlan_frees_dead_witness :
  GraphOk Example.names Example.graph ∧
  ∃ plan i, CreatePlan Example.names Example.graph = Ok (StatusOK, plan) ∧ to_be_freed plan !! i = Some 2%nat.
Proof.
  split; [apply Example.graph_ok|].
  destruct (CreatePlan_frees_dead Example.names Example.graph Example.graph_ok) as (plan & E & H).
  assert (Hp : plan_buf (allocation_plan plan) 2 = 2%nat ∧ ∀ w, w ∈ defined Example.names Example.graph →
    plan_buf (allocation_plan plan) w = 2%nat → perm Example.names Example.graph w = 0).
  { vm_compute in E. injection E as <-. split; [by vm_compute|].
    refine (proj1 (Forall_forall (fun w => _ → perm _ _ w = 0) _) _). vm_compute. repeat constructor; done. }
  destruct Hp as [H2 Hperm]. exists plan.
  destruct (H 2%nat) as (i & Hi & _); [apply (bool_decide_unpack _); by vm_compute|rewrite H2; exact Hperm|].
  rewrite H2 in Hi. eauto.
Defined.

Lemma step0_frees_nothing_witness :
  GraphOk Example.names Example.graph ∧
  ∃ plan, CreatePlan Example.names Example.graph = Ok (StatusOK, plan) ∧
    ∀ s i, execution_plan plan !! 0%nat = Some s → ¬ in_range s i.
Proof. split; [apply Example.graph_ok|]. exact (step0_frees_nothing Example.names Example.graph Example.graph_ok). Defined.

(** ** An output that does not exist *)

Module MissingOutput.
Import Example.
(** The kernel of the node aliases its first output, which this node does not
    have, to its input; its second output is a tensor of its own. *)
Definition names : MLValueNameIdxMap := add_all ["X"; "A"; "B"; "C"].
Definition split : Node MLDataType :=
  mkNode 1 [arg "A"] [] [missing; arg "B"] (kernel [(0, 0)] []) (Some cpu).
Definition nodes : list (Node MLDataType) := [node 0 ["X"] ["A"] [] []; split; node 2 ["A"; "B"] ["C"] [] []].
Definition graph : GraphView MLDataType := mkGraphView [arg "X"] [] [] nodes nodes [arg "C"] cpu false.
End MissingOutput.

(** The counter of outputs is not advanced past an output that does not
    exist, so the alias the kernel declares for output 0 is applied to output
    1: in this well-formed graph [B] gets the buffer of [A], which the next
    node reads together with [B]. *)
Theorem missing_output_misaliases :
  GraphOk MissingOutput.names MissingOutput.graph ∧
  ∃ plan, CreatePlan MissingOutput.names MissingOutput.graph = Ok (StatusOK, plan) ∧
    plan_buf (allocation_plan plan) 2 = plan_buf (allocation_plan plan) 1 ∧
    (2 ∈ uses MissingOutput.names (Example.node 2 ["A"; "B"] ["C"] [] []))%nat ∧
    (1 ∈ uses MissingOutput.names (Example.node 2 ["A"; "B"] ["C"] [] []))%nat ∧
    (∀ kd, n_kernel MissingOutput.split = Some kd → (0, 1) ∉ kd_alias kd ∧ (0, 1) ∉ kd_may_inplace kd).
Proof.
  split; [apply graph_okb_sound; [apply add_all_ok|by vm_compute]|].
  eexists. split; [vm_compute; reflexivity|]. split_and!; [by vm_compute|..].
  - apply (bool_decide_unpack _). by vm_compute.
  - apply (bool_decide_unpack _). by vm_compute.
  - intros kd [= <-]. split; apply (bool_decide_unpack _); by vm_compute.
Qed.
