(* ===== verification/SafePlan.v ===== *)
(** What the planner promises to the executor: the class [SafePlan], and the
    proof that [CreatePlan] keeps it. *)
From S2P Require Import Prelude MemPattern AllocPlanner AllocPlannerInv AllocPlannerReuse AllocPlannerFree AllocPlannerSteps AllocPlannerProps.

Section safe_plan.
Context {T : Type} `{!TensorTypes T}.

(** The plan has an entry for every value and a step for every node; an output
    has an entry of its type, allocates or takes the buffer of a value that is
    defined before its node; a buffer that a step frees belongs to no value
    with a later use. *)
Class SafePlan (names : MLValueNameIdxMap) (g : GraphView T) (plan : SequentialExecutionPlan T) : Prop := {
  sp_len : length (allocation_plan plan) = (MaxIdx names + 1)%nat;
  sp_steps : node_index <$> execution_plan plan = n_index <$> g_topo g;
  sp_output k node arg v : g_topo g !! k = Some node → arg ∈ n_outputs node → na_exists arg = true →
    name_map_ names !! na_name arg = Some v →
    ∃ p, allocation_plan plan !! v = Some p ∧ value_type p = Some (na_type arg) ∧
      (v ∈ all_ids names (g_outputs g) → alloc_kind p = kAllocateOutput) ∧
      (alloc_kind p = kAllocate ∨ alloc_kind p = kAllocateOutput ∨ alloc_kind p = kReuse ∧ reused_buffer p ≠ v);
  sp_own v : v ∈ defs0 names g → plan_buf (allocation_plan plan) v = v;
  sp_root k node v : g_topo g !! k = Some node → v ∈ outs names node →
    let b := plan_buf (allocation_plan plan) v in
    plan_buf (allocation_plan plan) b = b ∧ (b = v ∨ b ∈ defs0 names g ++ all_outs names (take k (g_topo g)));
  sp_from s : s ∈ execution_plan plan → 0 ≤ free_from_index s;
  sp_free k s i : execution_plan plan !! k = Some s → in_range s i →
    ∃ b, to_be_freed plan !! i = Some b ∧ b ∈ defined names g ∧ plan_buf (allocation_plan plan) b = b ∧
      ∀ v, v ∈ defined names g → plan_buf (allocation_plan plan) v = b →
        perm names g v = 0 ∧ v ∉ all_releases names (drop (S k) (g_topo g));
  sp_once k k' s s' i : execution_plan plan !! k = Some s → execution_plan plan !! k' = Some s' →
    in_range s i → in_range s' i → k = k';
  sp_nodup : NoDup (to_be_freed plan);
}.

(** ** The entries of the outputs *)

Context (names : MLValueNameIdxMap) (g : GraphView T).
Implicit Types (st : PState T) (arg : NodeArg T).

Definition entry_ok st (v : nat) arg : Prop :=
  ∃ p, plan_values st !! v = Some p ∧ value_type p = Some (na_type arg) ∧
    (is_graph_output g arg = true → alloc_kind p = kAllocateOutput) ∧
    (alloc_kind p = kAllocate ∨ alloc_kind p = kAllocateOutput ∨ alloc_kind p = kReuse).

Lemma update_plan_values st v f st' :
  update_plan st v f = Ok st' → ∃ p, plan_values st !! v = Some p ∧ plan_values st' = alter f v (plan_values st).
Proof.
  unfold update_plan, AllocPlan. destruct (plan_values st !! v) as [p|]; simpl; [|done]. intros [= <-]. eauto.
Qed.
Lemma Reuse_values st x o st' :
  Reuse st x o = Ok st' → ∃ b p, plan_values st !! o = Some p ∧ plan_values st' = alter (set_reused b) o (plan_values st).
Proof.
  unfold Reuse. intros H. apply bind_Ok in H as (? & _ & H). apply bind_Ok in H as (b & _ & H).
  apply bind_Ok in H as (? & _ & H). apply bind_Ok in H as (u & _ & H). apply bind_Ok in H as (s & Hs & H).
  apply update_plan_values in H as (p & Hp & H). exists b, p. unfold add_use in Hs. apply bind_Ok in Hs as (? & _ & [= <-]). done.
Qed.
Lemma FindReusableTensor_values st arg x st' :
  FindReusableTensor names st arg = Ok (Some (x, st')) → plan_values st' = plan_values st.
Proof.
  unfold FindReusableTensor. destruct (na_shape arg); [|done]. intros H. apply bind_Ok in H as (? & _ & H).
  apply bind_Ok in H as (? & _ & H). apply bind_Ok in H as ([[b rest]|] & _ & H); [|done]. simpl in H. by simplify_eq.
Qed.

(** Planning an output writes its own entry only. *)
Lemma plan_output_entry node st n arg st' n' v :
  plan_output names g node (st, n) arg = Ok (st', n') → na_exists arg = true → name_map_ names !! na_name arg = Some v →
  entry_ok st' v arg ∧ ∀ w, w ≠ v → plan_values st' !! w = plan_values st !! w.
Proof.
  intros H He Hv. unfold plan_output in H. rewrite He in H. cbn [negb] in H. rewrite (Index_ok names arg v Hv) in H.
  cbn [mbind res_bind] in H. apply bind_Ok in H as (s1 & E1 & H). apply bind_Ok in H as (s2 & E2 & [= -> _]).
  apply update_plan_values in E1 as (p & Hp & V1).
  assert (Hset : ∀ f, plan_values st' = alter f v (plan_values s1) →
    value_type (f (set_value_type (na_type arg) p)) = Some (na_type arg) →
    (is_graph_output g arg = true → alloc_kind (f (set_value_type (na_type arg) p)) = kAllocateOutput) →
    (let k := alloc_kind (f (set_value_type (na_type arg) p)) in k = kAllocate ∨ k = kAllocateOutput ∨ k = kReuse) →
    entry_ok st' v arg ∧ ∀ w, w ≠ v → plan_values st' !! w = plan_values st !! w).
  { intros f V2 Ht Ho Hk. rewrite V1 in V2. split.
    - exists (f (set_value_type (na_type arg) p)). rewrite V2, !list_lookup_alter_eq, Hp. split_and!; [done|exact Ht|exact Ho|exact Hk].
    - intros w Hw. rewrite V2, !list_lookup_alter_ne by done. done. }
  destruct (is_graph_output g arg) eqn:Eo.
  { apply update_plan_values in E2 as (_ & _ & V2). apply (Hset _ V2); simpl; naive_solver. }
  destruct (IsNonTensor arg).
  { apply update_plan_values in E2 as (_ & _ & V2). apply (Hset _ V2); simpl; naive_solver. }
  apply bind_Ok in E2 as (r & _ & E2). destruct r as [x|].
  { apply Reuse_values in E2 as (b & _ & _ & V2). apply (Hset _ V2); simpl; naive_solver. }
  apply bind_Ok in E2 as (t & Et & E2). destruct t as [[x s3]|].
  - assert (V3 : plan_values s3 = plan_values s1).
    { destruct (g_parallel g); [done|]. by apply FindReusableTensor_values in Et. }
    apply Reuse_values in E2 as (b & _ & _ & V2). rewrite V3 in V2. apply (Hset _ V2); simpl; naive_solver.
  - apply update_plan_values in E2 as (_ & _ & V2). apply (Hset _ V2); simpl; naive_solver.
Qed.

Lemma release_values k st arg st' : release names k st arg = Ok st' → plan_values st' = plan_values st.
Proof.
  unfold release. destruct (na_exists arg); [|by intros [= <-]]. intros H. apply bind_Ok in H as (x & _ & H).
  apply bind_Ok in H as (b & _ & H). apply bind_Ok in H as (s & Hs & H). apply bind_Ok in H as (u & _ & H).
  unfold add_use in Hs. apply bind_Ok in Hs as (? & _ & [= <-]). destruct (u =? 0); by injection H as <-.
Qed.
Lemma releases_values k l st st' : foldM (release names k) st l = Ok st' → plan_values st' = plan_values st.
Proof.
  revert st. induction l as [|a l IH]; intros st; simpl; [by intros [= <-]|]. intros H. apply bind_Ok in H as (s & Hs & H).
  apply IH in H. by rewrite H, (release_values _ _ _ _ Hs).
Qed.

Lemma plan_outputs_entries node l st n st' n' :
  foldM (plan_output names g node) (st, n) l = Ok (st', n') → NoDup (ids names l) →
  (∀ a, a ∈ l → na_exists a = true → known names a) →
  (∀ a v, a ∈ l → na_exists a = true → name_map_ names !! na_name a = Some v → entry_ok st' v a) ∧
  (∀ w, w ∉ ids names l → plan_values st' !! w = plan_values st !! w).
Proof.
  revert st n. induction l as [|a l IH]; intros st n; cbn [foldM].
  { intros [= <- <-] _ _. split; [by intros ? ? ?%not_elem_of_nil|done]. }
  intros H Hnd Hk. apply bind_Ok in H as ([s1 n1] & E1 & H). change (a :: l) with ([a] ++ l) in Hnd |- *.
  rewrite ids_app in Hnd |- *. apply NoDup_app in Hnd as (_ & Hd & Hnd).
  destruct (IH s1 n1 H Hnd) as [IH1 IH2]; [intros; apply Hk; [by right|done]|].
  destruct (na_exists a) eqn:Ee.
  - destruct (Hk a ltac:(by left) Ee) as [v Hv]. rewrite (ids_one names a v Ee Hv) in *.
    destruct (plan_output_entry node st n a s1 n1 v E1 Ee Hv) as [He Hf]. specialize (Hd v ltac:(by left)). split.
    + intros b w [->%list_elem_of_singleton|Hb]%elem_of_app; [|eauto]. intros _ Hw. rewrite Hv in Hw. injection Hw as <-.
      destruct He as (p & Hp & He). exists p. by rewrite IH2.
    + intros w [Hw1 Hw2]%not_elem_of_app. rewrite IH2 by done. apply Hf. intros ->. apply Hw1. by left.
  - rewrite (ids_missing names a Ee) in *. unfold plan_output in E1. rewrite Ee in E1. injection E1 as <- <-. split.
    + intros b w [->%list_elem_of_singleton|Hb]%elem_of_app; [congruence|eauto].
    + intros w [_ Hw]%not_elem_of_app. auto.
Qed.

Lemma plan_nodes_entries l k st st' :
  foldM (plan_node names g) st (imap (fun i n => (k + i, n)%nat) l) = Ok st' → NoDup (all_outs names l) →
  (∀ n a, n ∈ l → a ∈ n_outputs n → na_exists a = true → known names a) →
  (∀ n a v, n ∈ l → a ∈ n_outputs n → na_exists a = true → name_map_ names !! na_name a = Some v → entry_ok st' v a) ∧
  (∀ w, w ∉ all_outs names l → plan_values st' !! w = plan_values st !! w).
Proof.
  revert k st. induction l as [|node l IH]; intros k st.
  { intros [= <-] _ _. split; [by intros ? ? ? ?%not_elem_of_nil|done]. }
  rewrite imap_cons. cbn [foldM]. intros H Hnd Hk. apply bind_Ok in H as (s1 & E1 & H).
  change (all_outs names (node :: l)) with (outs names node ++ all_outs names l) in *.
  apply NoDup_app in Hnd as (Hnd1 & Hd & Hnd). rewrite (imap_ext _ (fun i n => (S k + i, n)%nat)) in H
    by (intros i n _; simpl; do 2 f_equal; lia).
  destruct (IH (S k) s1 H Hnd) as [IH1 IH2]; [intros n a Hn; apply Hk; by right|].
  rewrite Nat.add_0_r in E1. unfold plan_node in E1. apply bind_Ok in E1 as ([s2 n2] & E2 & E1).
  apply bind_Ok in E1 as (s3 & E3 & E1). apply bind_Ok in E1 as (s4 & E4 & E1).
  apply releases_values in E1, E3, E4. assert (V : plan_values s1 = plan_values s2) by congruence.
  destruct (plan_outputs_entries node (n_outputs node) st 0 s2 n2 E2 Hnd1) as [P1 P2].
  { intros a Ha. apply (Hk node); [by left|done]. }
  split.
  - intros n a v [->|Hn]%elem_of_cons; [|eauto]. intros Ha He Hv. destruct (P1 a v Ha He Hv) as (p & Hp & Hrest).
    exists p. split; [|done]. rewrite IH2, V; [done|]. apply Hd. apply elem_of_ids. eauto.
  - intros w [Hw1 Hw2]%not_elem_of_app. rewrite IH2, V by done. by apply P2.
Qed.

(** ** The steps *)

(** The deallocation plan writes the ranges only, and they start at 0 or later. *)
Definition steps_ok (steps0 steps : list NodeExecutionPlan) : Prop :=
  node_index <$> steps = node_index <$> steps0 ∧ ∀ s, s ∈ steps → 0 ≤ free_from_index s.

Lemma alter_steps_ok steps0 f n l l' :
  steps_ok steps0 l → (∀ s, node_index (f s) = node_index s ∧ (0 ≤ free_from_index s → 0 ≤ free_from_index (f s))) →
  alter_step f n l = Ok l' → steps_ok steps0 l'.
Proof.
  intros [H1 H2] Hf. unfold alter_step. destruct (l !! n); simpl; [|done]. intros [= <-]. split.
  - rewrite <- H1. apply list_eq. intros i. rewrite !list_lookup_fmap. destruct (decide (i = n)) as [->|Hne].
    + rewrite list_lookup_alter_eq. destruct (l !! n) as [s|]; simpl; [|done]. by rewrite (proj1 (Hf s)).
    + by rewrite list_lookup_alter_ne.
  - intros s (i & Hi)%list_elem_of_lookup. destruct (decide (i = n)) as [->|Hne].
    + rewrite list_lookup_alter_eq in Hi. apply fmap_Some in Hi as (s' & Hs' & ->). apply Hf, H2. by eapply list_elem_of_lookup_2.
    + rewrite list_lookup_alter_ne in Hi by done. apply H2. by eapply list_elem_of_lookup_2.
Qed.
Lemma dealloc_step_steps steps0 d e d' :
  dealloc_step d e = Ok d' → steps_ok steps0 (d_plan d) ∧ 0 ≤ d_current d → steps_ok steps0 (d_plan d') ∧ 0 ≤ d_current d'.
Proof.
  intros H [H1 H2]. unfold dealloc_step in H. destruct (negb _); [|injection H as <-; simpl; split; [done|lia]].
  apply bind_Ok in H as (p & Hp & H). apply bind_Ok in H as (p' & Hp' & [= <-]). simpl. split; [|lia].
  eapply alter_steps_ok; [| |exact Hp']; [|simpl; auto with lia].
  destruct (d_has_prev d); [|by injection Hp as <-]. eapply alter_steps_ok; [exact H1| |exact Hp]. simpl. auto.
Qed.
Lemma GenerateDeallocationPlan_steps steps fl p fr :
  GenerateDeallocationPlan steps fl = Ok (p, fr) → (∀ s, s ∈ steps → free_from_index s = 1) → steps_ok steps p.
Proof.
  unfold GenerateDeallocationPlan. intros H Hs. apply bind_Ok in H as (d & Hd & H).
  assert (Hok : steps_ok steps (d_plan d) ∧ 0 ≤ d_current d).
  { eapply (foldM_keep (fun d => steps_ok steps (d_plan d) ∧ 0 ≤ d_current d)); [| |exact Hd].
    - intros d1 e d2 H1 H2. by eapply dealloc_step_steps.
    - simpl. split; [|done]. split; [done|]. intros s Hin. rewrite (Hs s Hin). lia. }
  apply bind_Ok in H as (p' & Hp & [= <- _]). destruct (d_has_prev d); [|injection Hp as <-; apply Hok].
  eapply alter_steps_ok; [apply Hok| |exact Hp]. simpl. auto.
Qed.

(** ** [CreatePlan] *)

Lemma CreatePlan_safe :
  GraphOk names g → ∃ plan, CreatePlan names g = Ok (StatusOK, plan) ∧ SafePlan names g plan.
Proof.
  intros Hg. destruct (CreatePlan_ok names g Hg) as (plan & st & E & Ep & Ef & Hlen & Hr & HP & HH & Hlt).
  exists plan. split; [done|].
  assert (Hent : (∀ n a v, n ∈ g_topo g → a ∈ n_outputs n → na_exists a = true → name_map_ names !! na_name a = Some v →
      entry_ok st v a) ∧ steps_ok ((fun n => new_step (n_index n)) <$> g_topo g) (execution_plan plan)).
  { unfold CreatePlan in E. destruct (ComputeUseCounts_ok names g Hg) as (s1 & E1 & HC).
    fold (num_values names) in E. rewrite E1 in E. cbn [mbind res_bind IsOK StatusOK negb] in E.
    apply bind_Ok in E as (st2 & E2 & E). apply bind_Ok in E as ([p fr] & E3 & [= <-]). simpl in Ep |- *. subst.
    split; [|eapply GenerateDeallocationPlan_steps; [exact E3|]; by intros s (n & -> & _)%list_elem_of_fmap].
    intros n a v Hn Ha He Hv. unfold entry_ok. rewrite <- Ep. unfold ComputeReusePlan in E2.
    apply bind_Ok in E2 as (sa & _ & E2). apply bind_Ok in E2 as (sb & _ & E2). apply bind_Ok in E2 as (sc & _ & E2).
    eapply (plan_nodes_entries (g_topo g) 0 sc st2 E2 (ok_single _ _ Hg)); [|done|done|done|done].
    intros n' a' Hn' Ha' He'. apply (ok_known _ _ Hg); [|done]. unfold graph_args. do 4 (apply elem_of_app; right).
    apply list_elem_of_bind. exists n'. split; [|set_solver]. do 2 (apply elem_of_app; right). done. }
  destruct Hent as [Hent [Hsteps Hfrom]].
  assert (Hbuf : ∀ v, v ∈ defined names g → plan_buf (allocation_plan plan) v = buf st v).
  { intros v Hv. rewrite Ep. by apply (pn_plan _ _ _ _ _ HP). }
  assert (Hout : ∀ k node v, g_topo g !! k = Some node → v ∈ outs names node → v ∈ defined names g).
  { intros k node v Hk Hv. apply elem_of_app. right. apply list_elem_of_bind. exists node. split; [done|]. by eapply list_elem_of_lookup_2. }
  split.
  - rewrite Ep. apply (pn_sized _ _ _ _ _ HP).
  - rewrite Hsteps, <- list_fmap_compose. done.
  - intros k node arg v Hk Ha He Hv. apply list_elem_of_lookup_2 in Hk.
    destruct (Hent node arg v Hk Ha He Hv) as (p & Hp & Ht & Ho & Hkind). rewrite Ep. exists p. split_and!; [done|done| |].
    2: { destruct Hkind as [?|[?|Hr']]; [by auto..|]. do 2 right. split; [done|]. by apply (pn_self _ _ _ _ _ HP v p Hp). }
    intros Hvo. apply Ho. unfold is_graph_output. apply existsb_exists. apply elem_of_all_ids in Hvo as (o & Hoin & Hoid).
    exists o. split; [by apply list_elem_of_In|]. apply bool_decide_eq_true. by eapply (names_inj names (ok_names _ _ Hg)).
  - intros v Hv. rewrite Hbuf by (apply elem_of_app; auto). apply (hi_own _ _ _ _ HH); [|done]. apply elem_of_values, elem_of_app. auto.
  - intros k node v Hk Hv. simpl. pose proof (Hout k node v Hk Hv) as Hd. rewrite (Hbuf v Hd).
    destruct (pn_root _ _ _ _ _ HP v) as [Hb Hbb]; [by apply elem_of_values|].
    split; [rewrite Hbuf; [done|by apply elem_of_values]|]. apply (hi_root _ _ _ _ HH k node v Hk Hv). by apply elem_of_values.
  - done.
  - intros k s i Hk Hi. destruct (Hr k s Hk i) as [Hin _]. destruct (Hin Hi) as (b & Hb & _).
    exists b. split; [by rewrite Ef, list_lookup_fmap, Hb|]. apply list_elem_of_lookup_2 in Hb. rewrite elem_of_reverse in Hb.
    destruct (pn_free _ _ _ _ _ HP b k Hb) as (HbD & Hbb & _). pose proof HbD as Hbd. apply elem_of_values in Hbd.
    split_and!; [done|by rewrite Hbuf|]. intros v Hv. rewrite Hbuf by done. intros Hbv.
    apply (hi_free _ _ _ _ HH b k v Hb); [by apply elem_of_values|done].
  - intros k k' s s' i Hk Hk' Hi Hi'. destruct (Hr k s Hk i) as [Hin _]. destruct (Hr k' s' Hk' i) as [Hin' _].
    destruct (Hin Hi) as (b & Hb & _), (Hin' Hi') as (b' & Hb' & _). congruence.
  - rewrite Ef, fmap_reverse, reverse_Permutation. apply HP.
Qed.
End safe_plan.
