(* ===== verification/Graph.v ===== *)
(** The graph of [graph.cc]: nodes and node args, the edges between nodes,
    the checks of [Graph::Resolve] on names and connections, the two
    traversals (topological sort and reverse depth-first search) and the
    order of [GraphViewer]. *)
From stdpp Require Import pretty.
From S2P Require Import Prelude.

(** ** Node args, edges and nodes *)

(** A [NodeArg]; the graph owns one per name, so a pointer is its name. [Type]
    is an interned type string or null. *)
Record NodeArg := mkArg { na_name : string; na_type : option string }.
Definition Exists (a : NodeArg) : bool := negb (String.eqb (na_name a) "").
Definition same_arg (a b : NodeArg) : bool := String.eqb (na_name a) (na_name b).

(** One end of an edge: the node at the other end and the two argument slots. *)
Record EdgeEnd := mkEdgeEnd { e_node : nat; e_src : Z; e_dst : Z }.
#[export] Instance EdgeEnd_eq_dec : EqDecision EdgeEnd.
Proof. solve_decision. Defined.
Definition INT_MAX : Z := 2 ^ 31 - 1.
Definition control_edge (n : nat) : EdgeEnd := mkEdgeEnd n INT_MAX INT_MAX.

Definition EdgeEndCompare (lhs rhs : EdgeEnd) : bool :=
  if (e_node lhs =? e_node rhs)%nat then
    if e_src lhs =? e_src rhs then e_dst lhs <? e_dst rhs else e_src lhs <? e_src rhs
  else (e_node lhs <? e_node rhs)%nat.

(** [std::set] of edge ends: the elements in the order of the comparison. *)
Fixpoint edge_insert (e : EdgeEnd) (l : list EdgeEnd) : list EdgeEnd :=
  match l with
  | [] => [e]
  | x :: l' => if EdgeEndCompare e x then e :: x :: l'
               else if EdgeEndCompare x e then x :: edge_insert e l'
               else x :: l'
  end.
Fixpoint edge_erase (e : EdgeEnd) (l : list EdgeEnd) : list EdgeEnd :=
  match l with
  | [] => []
  | x :: l' => if EdgeEndCompare e x || EdgeEndCompare x e then x :: edge_erase e l' else l'
  end.

Record Node := mkNode {
  n_name : string;
  n_op_type : string;
  n_input_defs : list NodeArg;
  n_input_arg_count : list Z;
  n_implicit_input_defs : list NodeArg;
  n_output_defs : list NodeArg;
  n_input_edges : list EdgeEnd;
  n_output_edges : list EdgeEnd;
  n_control_inputs : gset string;
}.

(** [Node::Init] on a new node; attributes are not modelled. *)
Definition Init (name op_type : string) (input_args output_args : list NodeArg) : Node :=
  mkNode name op_type input_args (replicate (length input_args) 1) [] output_args [] [] ∅.

Definition with_input_defs (l : list NodeArg) (n : Node) : Node :=
  mkNode (n_name n) (n_op_type n) l (n_input_arg_count n) (n_implicit_input_defs n) (n_output_defs n)
    (n_input_edges n) (n_output_edges n) (n_control_inputs n).
Definition with_implicit (l : list NodeArg) (n : Node) : Node :=
  mkNode (n_name n) (n_op_type n) (n_input_defs n) (n_input_arg_count n) l (n_output_defs n)
    (n_input_edges n) (n_output_edges n) (n_control_inputs n).
Definition with_output_defs (l : list NodeArg) (n : Node) : Node :=
  mkNode (n_name n) (n_op_type n) (n_input_defs n) (n_input_arg_count n) (n_implicit_input_defs n) l
    (n_input_edges n) (n_output_edges n) (n_control_inputs n).
Definition with_arg_count (l : list Z) (n : Node) : Node :=
  mkNode (n_name n) (n_op_type n) (n_input_defs n) l (n_implicit_input_defs n) (n_output_defs n)
    (n_input_edges n) (n_output_edges n) (n_control_inputs n).
Definition with_input_edges (f : list EdgeEnd → list EdgeEnd) (n : Node) : Node :=
  mkNode (n_name n) (n_op_type n) (n_input_defs n) (n_input_arg_count n) (n_implicit_input_defs n)
    (n_output_defs n) (f (n_input_edges n)) (n_output_edges n) (n_control_inputs n).
Definition with_output_edges (f : list EdgeEnd → list EdgeEnd) (n : Node) : Node :=
  mkNode (n_name n) (n_op_type n) (n_input_defs n) (n_input_arg_count n) (n_implicit_input_defs n)
    (n_output_defs n) (n_input_edges n) (f (n_output_edges n)) (n_control_inputs n).
Definition with_control (s : string) (n : Node) : Node :=
  mkNode (n_name n) (n_op_type n) (n_input_defs n) (n_input_arg_count n) (n_implicit_input_defs n)
    (n_output_defs n) (n_input_edges n) (n_output_edges n) ({[s]} ∪ n_control_inputs n).

(** [Node::ReplaceDefs]: the replacements one after the other, in explicit
    inputs and outputs. *)
Definition replace_arg (p : NodeArg * NodeArg) (a : NodeArg) : NodeArg :=
  if same_arg a p.1 then p.2 else a.
Definition ReplaceDefs (replacements : list (NodeArg * NodeArg)) (n : Node) : Node :=
  foldl (fun n p => with_output_defs (replace_arg p <$> n_output_defs n)
                      (with_input_defs (replace_arg p <$> n_input_defs n) n)) n replacements.

(** [Node::UpdateInputArgCount] against an operator with [num_inputs] formal
    inputs: every formal but the last takes one argument while there are any,
    the last takes the rest. *)
Fixpoint spread_args (m : nat) (left : Z) : list Z * Z :=
  match m with
  | O => ([], left)
  | S m' => if 0 <? left then let '(l, r) := spread_args m' (left - 1) in (1 :: l, r)
            else let '(l, r) := spread_args m' left in (0 :: l, r)
  end.
Definition UpdateInputArgCount (num_inputs : nat) (n : Node) : Status * Node :=
  let total := foldl Z.add 0 (n_input_arg_count n) in
  if (total <? 0) || negb (total =? Z.of_nat (length (n_input_defs n))) then (Some FAIL, n)
  else if (num_inputs =? length (n_input_arg_count n))%nat then (StatusOK, n)
  else let '(l, r) := spread_args (num_inputs - 1) total in (StatusOK, with_arg_count (l ++ [r]) n).

(** ** The graph *)

Record Graph := mkGraph {
  nodes_ : list (option Node);
  num_of_nodes_ : Z;
  node_args_ : gmap string NodeArg;
  name_generator_ : Z;
  graph_resolve_needed_ : bool;
  graph_proto_sync_needed_ : bool;
}.

Definition new_Graph : Graph := mkGraph [] 0 ∅ 0 true false.
Definition set_nodes (l : list (option Node)) (g : Graph) : Graph :=
  mkGraph l (num_of_nodes_ g) (node_args_ g) (name_generator_ g) (graph_resolve_needed_ g)
    (graph_proto_sync_needed_ g).
Definition set_args (m : gmap string NodeArg) (g : Graph) : Graph :=
  mkGraph (nodes_ g) (num_of_nodes_ g) m (name_generator_ g) (graph_resolve_needed_ g)
    (graph_proto_sync_needed_ g).
Definition set_generator (k : Z) (g : Graph) : Graph :=
  mkGraph (nodes_ g) (num_of_nodes_ g) (node_args_ g) k (graph_resolve_needed_ g)
    (graph_proto_sync_needed_ g).
(** [SetGraphResolveNeeded] and [SetGraphProtoSyncNeeded], which every mutable
    access to definitions or relationships performs. *)
Definition set_dirty (g : Graph) : Graph :=
  mkGraph (nodes_ g) (num_of_nodes_ g) (node_args_ g) (name_generator_ g) true true.

(** [Graph::GetNode]: an index out of range is refused, a freed node is null. *)
Definition GetNode (g : Graph) (i : nat) : res (option Node) :=
  of_option EnforceFailed (nodes_ g !! i).
(** The node at an index that holds one. *)
Definition live (g : Graph) (i : nat) : option Node := mjoin (nodes_ g !! i).
(** [GraphNodes]: the nodes that are not null, with their indices. *)
Definition Nodes (g : Graph) : list (nat * Node) :=
  omap (fun p => (pair p.1) <$> p.2) (imap pair (nodes_ g)).
Definition MaxNodeIndex (g : Graph) : nat := length (nodes_ g).

Definition update_node (g : Graph) (i : nat) (f : Node → Node) : Graph :=
  set_nodes (alter (option_map f) i (nodes_ g)) g.

Definition GetNodeArg (g : Graph) (name : string) : option NodeArg := node_args_ g !! name.
Definition GetOrCreateNodeArg (g : Graph) (name : string) (type : option string) : NodeArg * Graph :=
  match node_args_ g !! name with
  | Some a => (a, g)
  | None => (mkArg name type, set_args (<[name := mkArg name type]> (node_args_ g)) g)
  end.

Definition generated_name (base : string) (k : Z) : string := (base ++ "_" ++ pretty k)%string.
(** The loops that count up until a name is free; [fuel] bounds the rounds. *)
Fixpoint generate (fuel : nat) (used : string → bool) (base : string) (k : Z) : res (string * Z) :=
  match fuel with
  | O => OutOfFuel
  | S fuel' =>
      let name := generated_name base k in
      if used name then generate fuel' used base (k + 1) else Ok (name, k + 1)
  end.
Definition GenerateNodeArgName (g : Graph) (base : string) : res (string * Graph) :=
  '(name, k) ← generate (S (size (node_args_ g))) (fun n => bool_decide (is_Some (node_args_ g !! n)))
                 base (name_generator_ g);
  Ok (name, set_generator k g).
Definition node_name_used (g : Graph) (name : string) : bool :=
  existsb (fun o => match o with Some n => String.eqb (n_name n) name | None => false end) (nodes_ g).
Definition GenerateNodeName (g : Graph) (base : string) : res (string * Graph) :=
  '(name, k) ← generate (S (length (nodes_ g))) (node_name_used g) base (name_generator_ g);
  Ok (name, set_generator k g).

(** ** Adding and removing nodes *)

Definition AllocateNode (g : Graph) (n : Node) : res (nat * Graph) :=
  _ ← enforce (Z.of_nat (length (nodes_ g)) <? INT_MAX);
  Ok (length (nodes_ g),
      mkGraph (nodes_ g ++ [Some n]) (num_of_nodes_ g + 1) (node_args_ g) (name_generator_ g) true
        (graph_proto_sync_needed_ g)).

Definition ReleaseNode (g : Graph) (index : nat) : bool * Graph :=
  if (length (nodes_ g) <=? index)%nat then (false, g)
  else match live g index with
       | Some _ => (true, mkGraph (<[index := None]> (nodes_ g)) (num_of_nodes_ g - 1) (node_args_ g)
                            (name_generator_ g) true true)
       | None => (true, g)
       end.

Definition create_args (g : Graph) (l : list NodeArg) : list NodeArg * Graph :=
  foldl (fun acc a => let '(r, g') := GetOrCreateNodeArg acc.2 (na_name a) (na_type a) in (acc.1 ++ [r], g'))
    ([], g) l.
Definition kNoOp : string := "NoOp".
Definition AddNode (g : Graph) (name op_type : string) (input_args output_args : list NodeArg) :
    res (nat * Graph) :=
  let '(inputs, g) := create_args g input_args in
  let '(outputs, g) := create_args g output_args in
  '(i, g) ← AllocateNode g (Init name op_type inputs outputs);
  Ok (i, if String.eqb op_type kNoOp then g
         else mkGraph (nodes_ g) (num_of_nodes_ g) (node_args_ g) (name_generator_ g)
                (graph_resolve_needed_ g) true).

(** ** Edges *)

(** [defs.size() > slot] with the slot converted to an unsigned number. *)
Definition at_slot (l : list NodeArg) (slot : Z) : option NodeArg :=
  if slot <? 0 then None else l !! Z.to_nat slot.

(** The argument at an input slot, implicit inputs after explicit ones. *)
Definition input_slot (n : Node) (slot : Z) : option NodeArg :=
  match at_slot (n_input_defs n) slot with
  | Some a => Some a
  | None => if slot <? Z.of_nat (length (n_input_defs n)) then None
            else at_slot (n_implicit_input_defs n) (slot - Z.of_nat (length (n_input_defs n)))
  end.
Definition set_input_slot (a : NodeArg) (slot : Z) (n : Node) : Node :=
  if slot <? Z.of_nat (length (n_input_defs n))
  then with_input_defs (<[Z.to_nat slot := a]> (n_input_defs n)) n
  else with_implicit (<[Z.to_nat (slot - Z.of_nat (length (n_input_defs n))) := a]> (n_implicit_input_defs n)) n.

Definition AddEdge (g : Graph) (src dst : nat) (src_arg_slot dst_arg_slot : Z) : res Graph :=
  match live g src, live g dst with
  | Some src_node, Some dst_node =>
      src_arg ← of_option EnforceFailed (at_slot (n_output_defs src_node) src_arg_slot);
      dst_arg ← of_option EnforceFailed (input_slot dst_node dst_arg_slot);
      g ← (if same_arg src_arg dst_arg then Ok g
           else if bool_decide (na_type src_arg = na_type dst_arg)
                then Ok (update_node g dst (set_input_slot src_arg dst_arg_slot))
                else Throw EnforceFailed);
      let g := update_node g src (with_output_edges (edge_insert (mkEdgeEnd dst src_arg_slot dst_arg_slot))) in
      let g := update_node g dst (with_input_edges (edge_insert (mkEdgeEnd src src_arg_slot dst_arg_slot))) in
      Ok (set_dirty g)
  | _, _ => Throw EnforceFailed
  end.

Definition RemoveEdge (g : Graph) (src dst : nat) (src_arg_slot dst_arg_slot : Z) : res Graph :=
  match live g src, live g dst with
  | Some src_node, Some dst_node =>
      src_arg ← of_option EnforceFailed (at_slot (n_output_defs src_node) src_arg_slot);
      dst_arg ← of_option EnforceFailed (input_slot dst_node dst_arg_slot);
      if same_arg src_arg dst_arg then
        let g := update_node g dst (with_input_edges (edge_erase (mkEdgeEnd src src_arg_slot dst_arg_slot))) in
        let g := update_node g src (with_output_edges (edge_erase (mkEdgeEnd dst src_arg_slot dst_arg_slot))) in
        Ok (set_dirty g)
      else Throw EnforceFailed
  | _, _ => Throw EnforceFailed
  end.

Definition AddControlEdge (g : Graph) (src dst : nat) : bool * Graph :=
  match live g src, live g dst with
  | Some src_node, Some _ =>
      let g := update_node g src (with_output_edges (edge_insert (control_edge dst))) in
      let g := update_node g dst (with_input_edges (edge_insert (control_edge src))) in
      (true, set_dirty (update_node g dst (with_control (n_name src_node))))
  | _, _ => (false, g)
  end.

Definition RemoveNode (g : Graph) (p_index : nat) : res (bool * Graph) :=
  node ← GetNode g p_index;
  match node with
  | None => Ok (false, g)
  | Some n =>
      g ← foldM (fun g e => RemoveEdge g (e_node e) p_index (e_src e) (e_dst e)) g (n_input_edges n);
      Ok (ReleaseNode g p_index)
  end.

(** The part of [FuseSubGraph] (and of [InlineFunction]) that takes a node out
    of the graph: its output edges, then the node. *)
Definition remove_output_edges (g : Graph) (i : nat) (n : Node) : res Graph :=
  foldM (fun g e => RemoveEdge g i (e_node e) (e_src e) (e_dst e)) g (n_output_edges n).
Definition fuse_remove (g : Graph) (i : nat) : res Graph :=
  node ← GetNode g i;
  match node with
  | None => Ok g
  | Some n => g ← remove_output_edges g i n; '(_, g) ← RemoveNode g i; Ok g
  end.

(** ** Checks of [Resolve] *)

(** The tables of the resolve context that the checks fill: outputs by name
    with their node and slot, and node names. *)
Record ResolveContext := mkContext {
  output_args : gmap string (nat * Z);
  node_name_to_index : gmap string nat;
}.

Definition verify_output (inputs_and_initializers : gset string) (node : nat)
    (acc : Status * gmap string (nat * Z)) (p : nat * NodeArg) : Status * gmap string (nat * Z) :=
  let '(s, m) := acc in
  if negb (IsOK s) then acc
  else if negb (Exists p.2) then acc
  else if bool_decide (na_name p.2 ∈ inputs_and_initializers) then (Some FAIL, m)
  else match m !! na_name p.2 with
       | Some _ => (Some FAIL, m)
       | None => (StatusOK, <[na_name p.2 := (node, Z.of_nat p.1)]> m)
       end.
Definition verify_node (inputs_and_initializers : gset string) (acc : Status * ResolveContext)
    (p : nat * Node) : Status * ResolveContext :=
  let '(s, c) := acc in
  if negb (IsOK s) then acc
  else if negb (String.eqb (n_name p.2) "") && bool_decide (is_Some (node_name_to_index c !! n_name p.2))
  then (Some FAIL, c)
  else
    let names := <[n_name p.2 := p.1]> (node_name_to_index c) in
    let '(s, m) := foldl (verify_output inputs_and_initializers p.1) (StatusOK, output_args c)
                     (imap pair (n_output_defs p.2)) in
    (s, mkContext m names).
Definition VerifyNoDuplicateName (g : Graph) (inputs_and_initializers : gset string) :
    Status * ResolveContext :=
  foldl (verify_node inputs_and_initializers) (StatusOK, mkContext ∅ ∅) (Nodes g).

(** The loop of [BuildConnections] over the nodes of the graph itself: every
    input that a node of the graph produces gets an edge, every other one that
    the outer scope has is reported, and a node without inputs and outputs is
    removed. *)
Definition connect_input (c : ResolveContext) (outer_scope_node_args : gset string) (node : nat)
    (acc : Graph * list string) (p : nat * NodeArg) : res (Graph * list string) :=
  let '(g, consumed) := acc in
  if negb (Exists p.2) then Ok acc
  else match output_args c !! na_name p.2 with
       | None => Ok (g, if bool_decide (na_name p.2 ∈ outer_scope_node_args)
                        then consumed ++ [na_name p.2] else consumed)
       | Some (output_node, slot) =>
           g ← AddEdge g output_node node slot (Z.of_nat p.1);
           Ok (g, consumed)
       end.
Definition connect_node (c : ResolveContext) (outer_scope_node_args : gset string)
    (acc : Graph * list string) (i : nat) : res (Graph * list string) :=
  let '(g, consumed) := acc in
  match live g i with
  | None => Ok acc
  | Some n =>
      if (0 <? length (n_input_defs n))%nat
      then foldM (connect_input c outer_scope_node_args i) acc (imap pair (n_input_defs n))
      else if (length (n_output_defs n) <=? 0)%nat then '(_, g) ← RemoveNode g i; Ok (g, consumed)
      else Ok acc
  end.
Definition build_connections (g : Graph) (c : ResolveContext) (outer_scope_node_args : gset string) :
    res (Graph * list string) :=
  foldM (connect_node c outer_scope_node_args) (g, []) (seq 0 (length (nodes_ g))).

(** ** Traversals *)

Definition input_nodes (n : Node) : list nat := e_node <$> n_input_edges n.

(** Order of [std::sort] with a comparison. *)
Fixpoint sort_insert (lt : nat → nat → bool) (x : nat) (l : list nat) : list nat :=
  match l with
  | [] => [x]
  | y :: l' => if lt y x then y :: sort_insert lt x l' else x :: y :: l'
  end.
Definition std_sort (lt : nat → nat → bool) (l : list nat) : list nat := foldr (sort_insert lt) [] l.

(** The calls of the [enter] and [leave] functions, in order. *)
Inductive Visit :=
  | Enter (i : nat)
  | Leave (i : nat).

(** The work stack has its top at the head; the flag of an entry says that the
    node is to be left. *)
Fixpoint reverse_dfs (fuel : nat) (g : Graph) (enter leave : bool) (comp : option (nat → nat → bool))
    (stack : list (nat * bool)) (visited : gset nat) (trace : list Visit) : res (list Visit) :=
  match stack with
  | [] => Ok trace
  | (n, leaving) :: stack =>
      match fuel with
      | O => OutOfFuel
      | S fuel =>
          if leaving : bool then reverse_dfs fuel g enter leave comp stack visited (trace ++ [Leave n])
          else
            node ← of_option UndefinedBehaviour (live g n);
            if bool_decide (n ∈ visited) then reverse_dfs fuel g enter leave comp stack visited trace
            else
              let visited := {[n]} ∪ visited in
              let trace := if enter then trace ++ [Enter n] else trace in
              let stack := if leave then (n, true) :: stack else stack in
              let inputs := match comp with
                            | Some lt => std_sort lt (input_nodes node)
                            | None => input_nodes node
                            end in
              let push := filter (fun i => i ∉ visited) inputs in
              reverse_dfs fuel g enter leave comp (reverse ((fun i => (i, false)) <$> push) ++ stack) visited trace
      end
  end.

(** Every node is entered once and pushes its inputs once. *)
Definition dfs_fuel (g : Graph) (from : list nat) : nat :=
  length from + list_sum ((fun p => S (length (n_input_edges p.2))) <$> Nodes g).
Definition ReverseDFSFrom (g : Graph) (from : list nat) (enter leave : bool)
    (comp : option (nat → nat → bool)) : res (list Visit) :=
  reverse_dfs (dfs_fuel g from) g enter leave comp (reverse ((fun i => (i, false)) <$> from)) ∅ [].

(** [GraphViewer]: the nodes in topological order and the root nodes. *)
Definition NodeCompare (n1 n2 : nat) : bool := (n1 <? n2)%nat.
Definition leaves (t : list Visit) : list nat :=
  omap (fun v => match v with Leave i => Some i | Enter _ => None end) t.
Definition leaf_nodes (g : Graph) : list nat :=
  omap (fun p => match n_output_edges p.2 with [] => Some p.1 | _ => None end) (Nodes g).
Definition root_nodes (g : Graph) : list nat :=
  omap (fun p => match n_input_edges p.2 with [] => Some p.1 | _ => None end) (Nodes g).
Record GraphViewer := mkViewer { nodes_in_topological_order_ : list nat; root_nodes_ : list nat }.
Definition new_GraphViewer (g : Graph) : res GraphViewer :=
  t ← ReverseDFSFrom g (leaf_nodes g) false true (Some NodeCompare);
  Ok (mkViewer (leaves t) (root_nodes g)).

(** [PerformTopologicalSortAndCheckIsAcyclic]. *)
Definition kConstant : string := "Constant".
Fixpoint has_inputs (g : Graph) (l : list EdgeEnd) : res bool :=
  match l with
  | [] => Ok false
  | e :: l' => n ← of_option UndefinedBehaviour (live g (e_node e));
               if String.eqb (n_op_type n) kConstant then has_inputs g l' else Ok true
  end.
Record TopoState := mkTopo {
  t_order : list nat;
  t_processed : gset nat;
  t_output_nodes : gset nat;
  t_added : gset nat;
  t_stack : list nat;
}.
Definition top_level (g : Graph) (st : TopoState) (p : nat * Node) : res TopoState :=
  h ← has_inputs g (n_input_edges p.2);
  if h : bool then Ok st
  else Ok (mkTopo (t_order st ++ [p.1]) ({[p.1]} ∪ t_processed st) (t_output_nodes st)
             ({[p.1]} ∪ t_added st) (t_stack st)).

(** Pushing the inputs of a node; [None] when one of them is being worked on. *)
Fixpoint push_inputs (st : TopoState) (l : list nat) : option (list nat) :=
  match l with
  | [] => Some (t_stack st)
  | i :: l' =>
      if bool_decide (i ∈ t_output_nodes st) then None
      else push_inputs (mkTopo (t_order st) (t_processed st) (t_output_nodes st) (t_added st)
                          (if bool_decide (i ∈ t_added st) then t_stack st else i :: t_stack st)) l'
  end.

Fixpoint topo_loop (fuel : nat) (g : Graph) (st : TopoState) : res (Status * list nat) :=
  match t_stack st with
  | [] => Ok (if num_of_nodes_ g =? Z.of_nat (length (t_order st)) then StatusOK else Some FAIL, t_order st)
  | current :: stack =>
      match fuel with
      | O => OutOfFuel
      | S fuel =>
          if bool_decide (current ∈ t_processed st)
          then topo_loop fuel g (mkTopo (t_order st) (t_processed st) (t_output_nodes st) (t_added st) stack)
          else if bool_decide (current ∈ t_added st)
          then topo_loop fuel g (mkTopo (t_order st ++ [current]) ({[current]} ∪ t_processed st)
                                   (t_output_nodes st ∖ {[current]}) (t_added st) stack)
          else
            node ← GetNode g current;
            match node with
            | None => topo_loop fuel g (mkTopo (t_order st) (t_processed st) (t_output_nodes st) (t_added st) stack)
            | Some n =>
                let st' := mkTopo (t_order st) (t_processed st) ({[current]} ∪ t_output_nodes st) (t_added st)
                             (current :: stack) in
                match push_inputs st' (input_nodes n) with
                | None => Ok (Some FAIL, t_order st)
                | Some stack' => topo_loop fuel g (mkTopo (t_order st) (t_processed st) (t_output_nodes st')
                                                     ({[current]} ∪ t_added st) stack')
                end
            end
      end
  end.
Definition PerformTopologicalSortAndCheckIsAcyclic (g : Graph) : res (Status * list nat) :=
  st ← foldM (top_level g) (mkTopo [] ∅ ∅ ∅ []) (Nodes g);
  let st := mkTopo (t_order st) (t_processed st) (t_output_nodes st) (t_added st) (reverse (leaf_nodes g)) in
  topo_loop (dfs_fuel g (leaf_nodes g)) g st.

(** ** The structural part of [Resolve] for a graph without subgraphs *)

(** [InitInputsInitializersOutputs] clears what the previous resolve built. *)
Definition clear_node (n : Node) : Node :=
  mkNode (n_name n) (n_op_type n) (n_input_defs n) (n_input_arg_count n) [] (n_output_defs n) [] [] ∅.
Definition clear_relationships (g : Graph) : Graph :=
  match Nodes g with
  | [] => g
  | _ => set_dirty (set_nodes (option_map clear_node <$> nodes_ g) g)
  end.

Definition verify_input (acc : Status * gset string) (name : string) : Status * gset string :=
  if negb (IsOK acc.1) then acc
  else if bool_decide (name ∈ acc.2) then (Some FAIL, acc.2) else (StatusOK, {[name]} ∪ acc.2).
Definition VerifyInputAndInitializerNames (inputs initializers : list string) : Status * gset string :=
  let '(s, names) := foldl verify_input (StatusOK, ∅) inputs in
  if IsOK s then (StatusOK, names ∪ list_to_set initializers) else (s, names).

(** The checks and the construction of [Resolve] between setting the graph
    inputs and the type inference, with the order of the nodes. *)
Definition resolve_structure (g : Graph) (inputs initializers : list string) :
    res (Status * Graph * list nat) :=
  let g := clear_relationships g in
  let '(s, names) := VerifyInputAndInitializerNames inputs initializers in
  if negb (IsOK s) then Ok (s, g, [])
  else
    let '(s, c) := VerifyNoDuplicateName g names in
    if negb (IsOK s) then Ok (s, g, [])
    else
      '(g, consumed) ← build_connections g c ∅;
      _ ← enforce (bool_decide (consumed = []));
      '(s, order) ← PerformTopologicalSortAndCheckIsAcyclic g;
      Ok (s, g, order).
