(* ===== verification/GraphInv.v ===== *)
(** The edges of a graph are consistent: an output edge of a node is an input
    edge of the node at its other end and conversely, edge sets are ordered,
    and the node counter counts the nodes. *)
From S2P Require Import Prelude Graph.

(** ** Ordered edge sets *)

Definition edge_lt (a b : EdgeEnd) : Prop := EdgeEndCompare a b = true.
Abbreviation EdgesSorted := (StronglySorted edge_lt).

Lemma EdgeEndCompare_spec a b :
  EdgeEndCompare a b = true ↔
  (e_node a < e_node b)%nat ∨ e_node a = e_node b ∧ (e_src a < e_src b ∨ e_src a = e_src b ∧ e_dst a < e_dst b).
Proof.
  unfold EdgeEndCompare. destruct (Nat.eqb_spec (e_node a) (e_node b)); [destruct (Z.eqb_spec (e_src a) (e_src b))|];
    rewrite ?Z.ltb_lt, ?Nat.ltb_lt; lia.
Qed.
Lemma edge_lt_trans a b c : edge_lt a b → edge_lt b c → edge_lt a c.
Proof. unfold edge_lt. rewrite !EdgeEndCompare_spec. lia. Qed.
Lemma edge_lt_irrefl a : ¬ edge_lt a a.
Proof. unfold edge_lt. rewrite EdgeEndCompare_spec. lia. Qed.
Lemma edge_eq_of_not_lt a b : EdgeEndCompare a b = false → EdgeEndCompare b a = false → a = b.
Proof.
  intros H1 H2. apply not_true_iff_false in H1, H2. rewrite EdgeEndCompare_spec in H1, H2.
  destruct a, b; simpl in *. f_equal; lia.
Qed.

Lemma elem_of_edge_insert e l y : y ∈ edge_insert e l ↔ y = e ∨ y ∈ l.
Proof.
  induction l as [|x l IH]; simpl; [set_solver|]. destruct (EdgeEndCompare e x) eqn:E1; [set_solver|].
  destruct (EdgeEndCompare x e) eqn:E2; [set_solver|]. rewrite (edge_eq_of_not_lt _ _ E1 E2). set_solver.
Qed.
Lemma edge_insert_sorted e l : EdgesSorted l → EdgesSorted (edge_insert e l).
Proof.
  induction 1 as [|x l Hs IH Hx]; simpl; [repeat constructor|]. destruct (EdgeEndCompare e x) eqn:E1.
  - constructor; [by constructor|]. constructor; [done|]. eapply Forall_impl; [exact Hx|].
    intros y Hy. by eapply edge_lt_trans.
  - destruct (EdgeEndCompare x e) eqn:E2; [|by constructor]. constructor; [done|]. rewrite Forall_forall in Hx |- *.
    intros y [->|Hy]%elem_of_edge_insert; [done|auto].
Qed.
Lemma elem_of_edge_erase e l y : EdgesSorted l → y ∈ edge_erase e l ↔ y ≠ e ∧ y ∈ l.
Proof.
  induction 1 as [|x l Hs IH Hx]; simpl; [set_solver|]. rewrite Forall_forall in Hx.
  assert (Hxl : x ∉ l) by (intros Hin; by eapply edge_lt_irrefl, Hx).
  destruct (EdgeEndCompare e x || EdgeEndCompare x e) eqn:E.
  - assert (x ≠ e) by (intros ->; apply orb_true_iff in E as [E|E]; by apply edge_lt_irrefl in E). set_solver.
  - apply orb_false_iff in E as [E1 E2]. pose proof (edge_eq_of_not_lt _ _ E1 E2) as <-. set_solver.
Qed.
Lemma edge_erase_sorted e l : EdgesSorted l → EdgesSorted (edge_erase e l).
Proof.
  intros Hs. apply (sublist_sorted _ l); [|done]. clear Hs. induction l as [|x l IH]; simpl; [done|].
  destruct (_ || _); by constructor.
Qed.

(** ** Nodes *)

Lemma live_lt g i n : live g i = Some n → (i < length (nodes_ g))%nat.
Proof.
  unfold live. destruct (nodes_ g !! i) eqn:E; [|done]. intros _. by eapply lookup_lt_Some.
Qed.
Lemma live_nodes g i n : live g i = Some n ↔ nodes_ g !! i = Some (Some n).
Proof. unfold live. destruct (nodes_ g !! i) as [[]|]; simpl; naive_solver. Qed.
Lemma elem_of_Nodes g i n : (i, n) ∈ Nodes g ↔ live g i = Some n.
Proof.
  rewrite live_nodes. unfold Nodes. rewrite list_elem_of_omap. split.
  - intros ([j o] & Hin & E). simpl in E. destruct o; simplify_eq/=.
    apply list_elem_of_lookup in Hin as [k Hk]. rewrite list_lookup_imap in Hk.
    destruct (nodes_ g !! k) eqn:En; simplify_eq/=. done.
  - intros H. exists (i, Some n). split; [|done]. apply list_elem_of_lookup. exists i.
    by rewrite list_lookup_imap, H.
Qed.

Lemma live_update g i j f : live (update_node g i f) j = if decide (j = i) then f <$> live g j else live g j.
Proof.
  unfold live, update_node. simpl. case_decide as E.
  - subst. rewrite list_lookup_alter_eq. by destruct (nodes_ g !! i) as [[]|].
  - by rewrite list_lookup_alter_ne.
Qed.
Lemma live_dirty g i : live (set_dirty g) i = live g i.
Proof. done. Qed.

(** The indices of the nodes. *)
Definition indices (g : Graph) : list nat := (Nodes g).*1.

Lemma elem_of_indices g i : i ∈ indices g ↔ is_Some (live g i).
Proof.
  unfold indices. rewrite list_elem_of_fmap. split.
  - intros ([j n] & -> & ?%elem_of_Nodes). simpl. eauto.
  - intros [n Hn]. exists (i, n). split; [done|]. by apply elem_of_Nodes.
Qed.
Lemma indices_seq g : indices g `sublist_of` seq 0 (length (nodes_ g)).
Proof.
  unfold indices, Nodes. generalize (nodes_ g). intros l.
  assert (H : ∀ k, (omap (fun p : nat * option Node => pair p.1 <$> p.2) (imap (fun i o => (k + i, o)%nat) l)).*1
            `sublist_of` seq k (length l)).
  { induction l as [|o l IH]; intros k; [done|]. rewrite imap_cons. csimpl. rewrite Nat.add_0_r.
    assert (E : imap ((fun i o0 => (k + i, o0)%nat) ∘ S) l = imap (fun i o0 => (S k + i, o0)%nat) l).
    { apply imap_ext. intros i x _. simpl. f_equal. lia. }
    rewrite E. destruct o; simpl; [apply sublist_skip|apply sublist_cons]; exact (IH (S k)). }
  exact (H 0%nat).
Qed.
Lemma indices_nodup g : NoDup (indices g).
Proof. eapply sublist_NoDup; [|apply indices_seq]. apply NoDup_seq. Qed.

(** ** The invariant *)

Record GraphInv (g : Graph) : Prop := {
  gi_out : ∀ a n e, live g a = Some n → e ∈ n_output_edges n →
    ∃ m, live g (e_node e) = Some m ∧ mkEdgeEnd a (e_src e) (e_dst e) ∈ n_input_edges m;
  gi_in : ∀ a n e, live g a = Some n → e ∈ n_input_edges n →
    ∃ m, live g (e_node e) = Some m ∧ mkEdgeEnd a (e_src e) (e_dst e) ∈ n_output_edges m;
  gi_sorted : ∀ a n, live g a = Some n → EdgesSorted (n_input_edges n) ∧ EdgesSorted (n_output_edges n);
  gi_count : num_of_nodes_ g = Z.of_nat (length (Nodes g));
}.

(** A change of the edges of a graph: the nodes stay, the edge sets of node [i]
    become [fi i] and [fo i] of what they were. *)
Record EdgesStep (g g' : Graph) (fi fo : nat → list EdgeEnd → list EdgeEnd) : Prop := {
  es_none : ∀ i, live g i = None → live g' i = None;
  es_some : ∀ i n, live g i = Some n → ∃ n', live g' i = Some n' ∧
    n_input_edges n' = fi i (n_input_edges n) ∧ n_output_edges n' = fo i (n_output_edges n);
  es_num : num_of_nodes_ g' = num_of_nodes_ g;
}.

Lemma es_inv g g' fi fo i n' :
  EdgesStep g g' fi fo → live g' i = Some n' → ∃ n, live g i = Some n ∧
    n_input_edges n' = fi i (n_input_edges n) ∧ n_output_edges n' = fo i (n_output_edges n).
Proof.
  intros [H1 H2 _] Hn'. destruct (live g i) as [n|] eqn:E.
  - destruct (H2 i n E) as (n'' & ? & ? & ?). simplify_eq. eauto.
  - rewrite H1 in Hn' by done. done.
Qed.

Lemma length_Nodes_same g g' : (∀ i, is_Some (live g i) ↔ is_Some (live g' i)) → length (Nodes g) = length (Nodes g').
Proof.
  intros H. rewrite <- (length_fmap fst (Nodes g)), <- (length_fmap fst (Nodes g')). apply Permutation_length.
  apply NoDup_Permutation; [apply indices_nodup..|]. intros i. fold (indices g) (indices g').
  by rewrite !elem_of_indices.
Qed.

Lemma edges_step_count g g' fi fo : EdgesStep g g' fi fo → GraphInv g → num_of_nodes_ g' = Z.of_nat (length (Nodes g')).
Proof.
  intros HS HI. rewrite (es_num _ _ _ _ HS), (gi_count _ HI). f_equal. apply length_Nodes_same. intros i. split.
  - intros [n Hn]. destruct (es_some _ _ _ _ HS i n Hn) as (n' & ? & _). eauto.
  - intros [n Hn]. destruct (es_inv _ _ _ _ _ _ HS Hn) as (n0 & ? & _). eauto.
Qed.

Definition on (i j : nat) (f : list EdgeEnd → list EdgeEnd) (l : list EdgeEnd) : list EdgeEnd :=
  if decide (i = j) then f l else l.

(** Inserting an edge at both ends. *)
Lemma insert_edge_inv g g' s d a b :
  GraphInv g → is_Some (live g s) → is_Some (live g d) →
  EdgesStep g g' (fun i => on i d (edge_insert (mkEdgeEnd s a b))) (fun i => on i s (edge_insert (mkEdgeEnd d a b))) →
  GraphInv g'.
Proof.
  intros HI [ns Hs] [nd Hd] HS. split.
  - intros i n' e Hn' He. destruct (es_inv _ _ _ _ _ _ HS Hn') as (n & Hn & Ei & Eo). rewrite Eo in He.
    assert (He' : (i = s ∧ e = mkEdgeEnd d a b) ∨ e ∈ n_output_edges n).
    { unfold on in He. case_decide; [|auto]. apply elem_of_edge_insert in He as [->|]; auto. }
    destruct He' as [[-> ->]|He'].
    + destruct (es_some _ _ _ _ HS d nd Hd) as (m & Hm & Em & _). exists m. split; [done|]. rewrite Em. unfold on.
      rewrite decide_True by done. apply elem_of_edge_insert. auto.
    + destruct (gi_out _ HI i n e Hn He') as (m & Hm & Hin). destruct (es_some _ _ _ _ HS _ m Hm) as (m' & Hm' & Em & _).
      exists m'. split; [done|]. rewrite Em. unfold on. case_decide; [|done]. apply elem_of_edge_insert. auto.
  - intros i n' e Hn' He. destruct (es_inv _ _ _ _ _ _ HS Hn') as (n & Hn & Ei & Eo). rewrite Ei in He.
    assert (He' : (i = d ∧ e = mkEdgeEnd s a b) ∨ e ∈ n_input_edges n).
    { unfold on in He. case_decide; [|auto]. apply elem_of_edge_insert in He as [->|]; auto. }
    destruct He' as [[-> ->]|He'].
    + destruct (es_some _ _ _ _ HS s ns Hs) as (m & Hm & _ & Em). exists m. split; [done|]. rewrite Em. unfold on.
      rewrite decide_True by done. apply elem_of_edge_insert. auto.
    + destruct (gi_in _ HI i n e Hn He') as (m & Hm & Hin). destruct (es_some _ _ _ _ HS _ m Hm) as (m' & Hm' & _ & Em).
      exists m'. split; [done|]. rewrite Em. unfold on. case_decide; [|done]. apply elem_of_edge_insert. auto.
  - intros i n' Hn'. destruct (es_inv _ _ _ _ _ _ HS Hn') as (n & Hn & -> & ->). destruct (gi_sorted _ HI i n Hn).
    unfold on. split; case_decide; auto using edge_insert_sorted.
  - by eapply edges_step_count.
Qed.

(** Erasing an edge at both ends. *)
Lemma erase_edge_inv g g' s d a b :
  GraphInv g →
  EdgesStep g g' (fun i => on i d (edge_erase (mkEdgeEnd s a b))) (fun i => on i s (edge_erase (mkEdgeEnd d a b))) →
  GraphInv g'.
Proof.
  intros HI HS. split.
  - intros i n' e Hn' He. destruct (es_inv _ _ _ _ _ _ HS Hn') as (n & Hn & Ei & Eo). rewrite Eo in He.
    destruct (gi_sorted _ HI i n Hn) as [_ Hso].
    assert (He' : e ∈ n_output_edges n ∧ (i = s → e ≠ mkEdgeEnd d a b)).
    { unfold on in He. case_decide; [|done]. apply elem_of_edge_erase in He as [? ?]; auto. }
    destruct He' as [He' Hne]. destruct (gi_out _ HI i n e Hn He') as (m & Hm & Hin).
    destruct (es_some _ _ _ _ HS _ m Hm) as (m' & Hm' & Em & _). exists m'. split; [done|]. rewrite Em. unfold on.
    case_decide as Ed; [|done]. apply elem_of_edge_erase; [by eapply gi_sorted|]. split; [|done].
    intros [= -> E1 E2]. apply Hne; [done|]. destruct e; simpl in *; congruence.
  - intros i n' e Hn' He. destruct (es_inv _ _ _ _ _ _ HS Hn') as (n & Hn & Ei & Eo). rewrite Ei in He.
    destruct (gi_sorted _ HI i n Hn) as [Hsi _].
    assert (He' : e ∈ n_input_edges n ∧ (i = d → e ≠ mkEdgeEnd s a b)).
    { unfold on in He. case_decide; [|done]. apply elem_of_edge_erase in He as [? ?]; auto. }
    destruct He' as [He' Hne]. destruct (gi_in _ HI i n e Hn He') as (m & Hm & Hin).
    destruct (es_some _ _ _ _ HS _ m Hm) as (m' & Hm' & _ & Em). exists m'. split; [done|]. rewrite Em. unfold on.
    case_decide as Ed; [|done]. apply elem_of_edge_erase; [by eapply gi_sorted|]. split; [|done].
    intros [= -> E1 E2]. apply Hne; [done|]. destruct e; simpl in *; congruence.
  - intros i n' Hn'. destruct (es_inv _ _ _ _ _ _ HS Hn') as (n & Hn & -> & ->). destruct (gi_sorted _ HI i n Hn).
    unfold on. split; case_decide; auto using edge_erase_sorted.
  - by eapply edges_step_count.
Qed.

(** ** The operations *)

Lemma set_input_slot_edges a slot n :
  n_input_edges (set_input_slot a slot n) = n_input_edges n ∧ n_output_edges (set_input_slot a slot n) = n_output_edges n.
Proof. unfold set_input_slot. by destruct (_ <? _). Qed.

Lemma AddEdge_step g s d a b g' :
  AddEdge g s d a b = Ok g' → is_Some (live g s) ∧ is_Some (live g d) ∧
  EdgesStep g g' (fun i => on i d (edge_insert (mkEdgeEnd s a b))) (fun i => on i s (edge_insert (mkEdgeEnd d a b))).
Proof.
  unfold AddEdge. destruct (live g s) as [ns|] eqn:Es; [|done]. destruct (live g d) as [nd|] eqn:Ed; [|done].
  intros (sa & _ & (da & _ & (g1 & H1 & [= <-])%bind_Ok)%bind_Ok)%bind_Ok. split_and!; [eauto..|].
  assert (HS1 : EdgesStep g g1 (fun _ l => l) (fun _ l => l)).
  { destruct (same_arg sa da); [injection H1 as <-; split; eauto|]. case_bool_decide; [|done]. injection H1 as <-.
    split; [|intros i n Hn|done].
    - intros i Hi. rewrite live_update. case_decide; by rewrite Hi.
    - rewrite live_update. destruct (set_input_slot_edges sa b n). case_decide; rewrite Hn; simpl; eauto. }
  split; [| |by apply HS1].
  - intros i Hi. rewrite live_dirty, !live_update, (es_none _ _ _ _ HS1 i Hi). by repeat case_decide.
  - intros i n Hn. destruct (es_some _ _ _ _ HS1 i n Hn) as (n1 & Hn1 & <- & <-).
    rewrite live_dirty, !live_update, Hn1. unfold on. repeat case_decide; simpl; eauto.
Qed.

Lemma RemoveEdge_step g s d a b g' :
  RemoveEdge g s d a b = Ok g' →
  EdgesStep g g' (fun i => on i d (edge_erase (mkEdgeEnd s a b))) (fun i => on i s (edge_erase (mkEdgeEnd d a b))).
Proof.
  unfold RemoveEdge. destruct (live g s) as [ns|] eqn:Es; [|done]. destruct (live g d) as [nd|] eqn:Ed; [|done].
  intros (sa & _ & (da & _ & H)%bind_Ok)%bind_Ok. destruct (same_arg sa da); [|done]. injection H as <-.
  split; [| |done].
  - intros i Hi. rewrite live_dirty, !live_update, Hi. by repeat case_decide.
  - intros i n Hn. rewrite live_dirty, !live_update, Hn. unfold on. repeat case_decide; simpl; eauto.
Qed.

Lemma AddEdge_inv g s d a b g' : GraphInv g → AddEdge g s d a b = Ok g' → GraphInv g'.
Proof. intros HI (? & ? & ?)%AddEdge_step. by apply (insert_edge_inv g _ s d a b). Qed.
Lemma RemoveEdge_inv g s d a b g' : GraphInv g → RemoveEdge g s d a b = Ok g' → GraphInv g'.
Proof. intros HI ?%RemoveEdge_step. by apply (erase_edge_inv g _ s d a b). Qed.

Lemma AddControlEdge_inv g s d : GraphInv g → GraphInv (AddControlEdge g s d).2.
Proof.
  intros HI. unfold AddControlEdge. destruct (live g s) as [ns|] eqn:Es; [|done].
  destruct (live g d) as [nd|] eqn:Ed; [|done]. simpl. apply (insert_edge_inv g _ s d INT_MAX INT_MAX); [done|eauto..|].
  split; [| |done].
  - intros i Hi. rewrite live_dirty, !live_update, Hi. by repeat case_decide.
  - intros i n Hn. rewrite live_dirty, !live_update, Hn. unfold on. repeat case_decide; simpl; eauto.
Qed.

(** Nodes without edges come and go. *)
Lemma indices_permutation g g' i :
  (∀ j, is_Some (live g j) ↔ j = i ∨ is_Some (live g' j)) → live g' i = None →
  length (Nodes g) = S (length (Nodes g')).
Proof.
  intros H Hi. rewrite <- (length_fmap fst (Nodes g)), <- (length_fmap fst (Nodes g')). fold (indices g) (indices g').
  change (S (length (indices g'))) with (length (i :: indices g')). apply Permutation_length.
  apply NoDup_Permutation.
  - apply indices_nodup.
  - apply NoDup_cons. split; [|apply indices_nodup]. rewrite elem_of_indices, Hi. by intros [? ?].
  - intros j. by rewrite elem_of_cons, !elem_of_indices.
Qed.

Lemma release_inv g i n :
  GraphInv g → live g i = Some n → n_input_edges n = [] → n_output_edges n = [] →
  ∃ g', ReleaseNode g i = (true, g') ∧ GraphInv g' ∧ live g' i = None ∧ ∀ j, j ≠ i → live g' j = live g j.
Proof.
  intros HI Hn Hi Ho. unfold ReleaseNode. pose proof (live_lt _ _ _ Hn).
  destruct (Nat.leb_spec (length (nodes_ g)) i); [lia|]. rewrite Hn. eexists. split; [done|].
  set (g' := mkGraph _ _ _ _ _ _).
  assert (Hsame : ∀ j, j ≠ i → live g' j = live g j).
  { intros j Hj. unfold live. simpl. by rewrite list_lookup_insert_ne. }
  assert (Hnone : live g' i = None).
  { unfold live. simpl. by rewrite list_lookup_insert_eq. }
  assert (Hinv : ∀ j m, live g' j = Some m → j ≠ i ∧ live g j = Some m).
  { intros j m Hm. destruct (decide (j = i)) as [->|Hne]; [by rewrite Hnone in Hm|]. by rewrite <- Hsame. }
  split_and!; [|done|done]. split.
  - intros j m e [Hj Hm]%Hinv He. destruct (gi_out _ HI j m e Hm He) as (k & Hk & Hin). exists k. split; [|done].
    rewrite Hsame; [done|]. intros Ei. rewrite Ei, Hn in Hk. injection Hk as <-. by rewrite Hi, elem_of_nil in Hin.
  - intros j m e [Hj Hm]%Hinv He. destruct (gi_in _ HI j m e Hm He) as (k & Hk & Hin). exists k. split; [|done].
    rewrite Hsame; [done|]. intros Ei. rewrite Ei, Hn in Hk. injection Hk as <-. by rewrite Ho, elem_of_nil in Hin.
  - intros j m [Hj Hm]%Hinv. by eapply gi_sorted.
  - simpl. rewrite (gi_count _ HI), (indices_permutation g g' i); [lia| |done]. intros j.
    destruct (decide (j = i)) as [->|Hne]; [rewrite Hn; naive_solver|]. rewrite Hsame by done. naive_solver.
Qed.

Lemma AllocateNode_inv g n i g' :
  GraphInv g → n_input_edges n = [] → n_output_edges n = [] → AllocateNode g n = Ok (i, g') →
  GraphInv g' ∧ live g i = None ∧ live g' i = Some n ∧ ∀ j, j ≠ i → live g' j = live g j.
Proof.
  intros HI Hi Ho (u & _ & [= <- <-])%bind_Ok. set (g' := mkGraph _ _ _ _ _ _). set (i := length (nodes_ g)).
  assert (Hsame : ∀ j, j ≠ i → live g' j = live g j).
  { intros j Hj. unfold live. simpl. destruct (decide (j < i)%nat); [by rewrite lookup_app_l|].
    rewrite !lookup_ge_None_2; [done| |rewrite length_app; simpl]; lia. }
  assert (Hnew : live g' i = Some n).
  { unfold live. simpl. by rewrite list_lookup_middle. }
  assert (Hnone : live g i = None).
  { unfold live. by rewrite lookup_ge_None_2. }
  assert (Hinv : ∀ j m, live g' j = Some m → (j = i ∧ m = n) ∨ (j ≠ i ∧ live g j = Some m)).
  { intros j m Hm. destruct (decide (j = i)) as [->|Hne]; [left; by simplify_eq|]. right. by rewrite <- Hsame. }
  assert (Hkeep : ∀ j m, live g j = Some m → live g' j = Some m).
  { intros j m Hm. rewrite Hsame; [done|]. intros ->. by rewrite Hnone in Hm. }
  split_and!; [split|done|done|done].
  - intros j m e [[-> ->]|[Hj Hm]]%Hinv He; [by rewrite Ho, elem_of_nil in He|].
    destruct (gi_out _ HI j m e Hm He) as (k & Hk & Hin). eauto.
  - intros j m e [[-> ->]|[Hj Hm]]%Hinv He; [by rewrite Hi, elem_of_nil in He|].
    destruct (gi_in _ HI j m e Hm He) as (k & Hk & Hin). eauto.
  - intros j m [[-> ->]|[Hj Hm]]%Hinv; [rewrite Hi, Ho; split; constructor|]. by eapply gi_sorted.
  - simpl. rewrite (gi_count _ HI), (indices_permutation g' g i); [lia| |done]. intros j.
    destruct (decide (j = i)) as [->|Hne]; [rewrite Hnew; naive_solver|]. rewrite Hsame by done. naive_solver.
Qed.

Lemma create_args_nodes l g acc : nodes_ (foldl (fun acc a =>
    let '(r, g') := GetOrCreateNodeArg acc.2 (na_name a) (na_type a) in (acc.1 ++ [r], g')) (acc, g) l).2 = nodes_ g
  ∧ num_of_nodes_ (foldl (fun acc a =>
    let '(r, g') := GetOrCreateNodeArg acc.2 (na_name a) (na_type a) in (acc.1 ++ [r], g')) (acc, g) l).2 = num_of_nodes_ g.
Proof.
  revert g acc. induction l as [|a l IH]; intros g acc; [done|]. cbn [foldl]. cbn [snd fst].
  unfold GetOrCreateNodeArg at 2 4. destruct (node_args_ g !! na_name a); [apply IH|].
  destruct (IH (set_args (<[na_name a := mkArg (na_name a) (na_type a)]> (node_args_ g)) g)
    (acc ++ [mkArg (na_name a) (na_type a)])) as [H1 H2]. split; [rewrite H1|rewrite H2]; done.
Qed.

(** The invariant depends on the nodes and their number only. *)
Lemma inv_same g g' : nodes_ g' = nodes_ g → num_of_nodes_ g' = num_of_nodes_ g → GraphInv g → GraphInv g'.
Proof.
  intros Hn Hk [H1 H2 H3 H4]. assert (Hl : ∀ i, live g' i = live g i) by (intros; unfold live; by rewrite Hn).
  split.
  - intros a n e. rewrite Hl. intros Ha He. rewrite Hl. eauto.
  - intros a n e. rewrite Hl. intros Ha He. rewrite Hl. eauto.
  - intros a n. rewrite Hl. apply H3.
  - rewrite Hk, H4. unfold Nodes. by rewrite Hn.
Qed.

Lemma AddNode_inv g name op ins outs i g' :
  GraphInv g → AddNode g name op ins outs = Ok (i, g') → GraphInv g' ∧ ∃ n, live g' i = Some n ∧ n_name n = name.
Proof.
  intros HI. unfold AddNode, create_args. destruct (foldl _ ([], g) ins) as [inputs g1] eqn:E1.
  destruct (foldl _ ([], g1) outs) as [outputs g2] eqn:E2.
  pose proof (create_args_nodes ins g []) as [A1 A2]. rewrite E1 in A1, A2.
  pose proof (create_args_nodes outs g1 []) as [B1 B2]. rewrite E2 in B1, B2. simpl in *.
  intros ([j g3] & H3 & [= <- <-])%bind_Ok.
  apply AllocateNode_inv in H3 as (HI3 & _ & Hn & _); [|apply (inv_same g); congruence|done..].
  destruct (String.eqb op kNoOp); [eauto|]. split; [by apply (inv_same g3)|]. exists (Init name op inputs outputs). done.
Qed.

(** ** Removing nodes *)

Lemma sorted_NoDup l : EdgesSorted l → NoDup l.
Proof.
  induction 1 as [|x l Hs IH Hx]; constructor; [|done]. intros Hin. rewrite Forall_forall in Hx.
  by eapply edge_lt_irrefl, Hx.
Qed.

(** The loop over the input edges of a node, none of which leads back to it. *)
Lemma remove_inputs_ok l g i n g' :
  GraphInv g → live g i = Some n → (∀ e, e ∈ n_input_edges n ↔ e ∈ l) → NoDup l → n_output_edges n = [] →
  foldM (fun g e => RemoveEdge g (e_node e) i (e_src e) (e_dst e)) g l = Ok g' →
  GraphInv g' ∧ ∃ n', live g' i = Some n' ∧ n_input_edges n' = [] ∧ n_output_edges n' = [].
Proof.
  revert g n. induction l as [|e l IH]; intros g n HI Hn Hl Hnd Ho.
  { intros [= <-]. split; [done|]. exists n. split_and!; [done| |done]. apply elem_of_nil_inv. intros e. rewrite Hl. set_solver. }
  cbn [foldM]. intros (g1 & H1 & H2)%bind_Ok. pose proof (RemoveEdge_inv _ _ _ _ _ _ HI H1) as HI1.
  apply NoDup_cons in Hnd as [Hel Hnd].
  apply RemoveEdge_step in H1. destruct (es_some _ _ _ _ H1 i n Hn) as (n1 & Hn1 & E1 & E2).
  unfold on in E1, E2. rewrite decide_True in E1 by done. apply (IH g1 n1); [done|done| |done| |done].
  - intros x. rewrite E1, elem_of_edge_erase by apply (gi_sorted _ HI i n Hn). rewrite Hl, elem_of_cons.
    destruct e as [a b c]. simpl. naive_solver.
  - rewrite E2, Ho. by case_decide.
Qed.

Lemma RemoveNode_inv g i n b g' :
  GraphInv g → live g i = Some n → n_output_edges n = [] → RemoveNode g i = Ok (b, g') →
  b = true ∧ GraphInv g' ∧ live g' i = None.
Proof.
  intros HI Hn Ho. unfold RemoveNode, GetNode. apply live_nodes in Hn as Hn'. rewrite Hn'. cbn [of_option mbind res_bind].
  intros (g1 & H1 & [= E])%bind_Ok.
  destruct (remove_inputs_ok (n_input_edges n) g i n g1) as (HI1 & n1 & Hn1 & Hi1 & Ho1); try done.
  { by eapply sorted_NoDup, gi_sorted. }
  destruct (release_inv g1 i n1 HI1 Hn1 Hi1 Ho1) as (g2 & E2 & HI2 & Hnone & _). rewrite E2 in E. by simplify_eq.
Qed.

(** Taking a node out with all its edges. *)
Lemma remove_outputs_ok l g i n g' :
  GraphInv g → live g i = Some n → (∀ e, e ∈ n_output_edges n ↔ e ∈ l) → NoDup l →
  foldM (fun g e => RemoveEdge g i (e_node e) (e_src e) (e_dst e)) g l = Ok g' →
  GraphInv g' ∧ ∃ n', live g' i = Some n' ∧ n_output_edges n' = [].
Proof.
  revert g n. induction l as [|e l IH]; intros g n HI Hn Hl Hnd.
  { intros [= <-]. split; [done|]. exists n. split; [done|]. apply elem_of_nil_inv. intros e. rewrite Hl. set_solver. }
  cbn [foldM]. intros (g1 & H1 & H2)%bind_Ok. pose proof (RemoveEdge_inv _ _ _ _ _ _ HI H1) as HI1.
  apply NoDup_cons in Hnd as [Hel Hnd].
  apply RemoveEdge_step in H1. destruct (es_some _ _ _ _ H1 i n Hn) as (n1 & Hn1 & E1 & E2).
  unfold on in E2. rewrite decide_True in E2 by done. apply (IH g1 n1); [done|done| |done|done].
  intros x. rewrite E2, elem_of_edge_erase by apply (gi_sorted _ HI i n Hn). rewrite Hl, elem_of_cons.
  destruct e as [a b c]. simpl. naive_solver.
Qed.

Lemma fuse_remove_inv g i g' :
  GraphInv g → fuse_remove g i = Ok g' → GraphInv g' ∧ live g' i = None.
Proof.
  intros HI. unfold fuse_remove, GetNode. destruct (nodes_ g !! i) as [[n|]|] eqn:E; [| |done]; cbn [of_option mbind res_bind].
  - intros (g1 & H1 & ([b g2] & H2 & [= <-])%bind_Ok)%bind_Ok. apply live_nodes in E.
    apply (remove_outputs_ok _ g i n) in H1 as (HI1 & n1 & Hn1 & Ho1); [|done|done|done|by eapply sorted_NoDup, gi_sorted].
    destruct (RemoveNode_inv g1 i n1 b g2) as (_ & ? & ?); done.
  - intros [= <-]. split; [done|]. unfold live. by rewrite E.
Qed.
