(* ===== verification/GraphTopo.v ===== *)
(** The topological sort of [graph.cc] terminates, succeeds exactly on acyclic
    graphs and yields a topological order. *)
From S2P Require Import Prelude Graph GraphInv.

(** ** Edges, cycles and orders *)

(** [v] has an input edge from [u]. *)
Definition edge (g : Graph) (u v : nat) : Prop := ∃ n, live g v = Some n ∧ u ∈ input_nodes n.
Definition Acyclic (g : Graph) : Prop := ∀ v, ¬ tc (edge g) v v.

(** The order lists the nodes of the graph, every node after its inputs. *)
Record Topological (g : Graph) (order : list nat) : Prop := {
  to_nodup : NoDup order;
  to_all : ∀ v, v ∈ order ↔ is_Some (live g v);
  to_inputs : ∀ l1 v l2 u, order = l1 ++ v :: l2 → edge g u v → u ∈ l1;
}.

Lemma edge_live g u v : GraphInv g → edge g u v → is_Some (live g u) ∧ is_Some (live g v).
Proof.
  intros HI (n & Hn & (e & -> & He)%list_elem_of_fmap). destruct (gi_in _ HI v n e Hn He) as (m & ? & _). eauto.
Qed.
Lemma edge_no_leaf g u v n : GraphInv g → edge g u v → live g u = Some n → n_output_edges n ≠ [].
Proof.
  intros HI (m & Hm & (e & -> & He)%list_elem_of_fmap) Hn. destruct (gi_in _ HI v m e Hm He) as (n' & Hn' & Hin).
  simplify_eq. intros E. by rewrite E, elem_of_nil in Hin.
Qed.
Lemma leaf_edge g u n : GraphInv g → live g u = Some n → n_output_edges n ≠ [] → ∃ v, edge g u v.
Proof.
  intros HI Hn Ho. destruct (n_output_edges n) as [|e l] eqn:E; [done|].
  destruct (gi_out _ HI u n e Hn) as (m & Hm & Hin); [rewrite E; by left|]. exists (e_node e), m. split; [done|].
  apply list_elem_of_fmap. eexists. split; [|exact Hin]. done.
Qed.

Lemma elem_of_split_unique {A} (x : A) l1 l2 k1 k2 :
  x ∉ l1 → x ∉ k1 → l1 ++ x :: l2 = k1 ++ x :: k2 → l1 = k1 ∧ l2 = k2.
Proof.
  revert k1. induction l1 as [|a l1 IH]; intros [|b k1] H1 H2 E; simplify_eq/=; [done|set_solver|set_solver|].
  destruct (IH k1) as [-> ->]; [set_solver|set_solver|done|done].
Qed.

(** A node of an order is preceded by everything upstream of it. *)
Lemma topological_tc g order u v :
  Topological g order → tc (edge g) u v → v ∈ order → ∃ l1 l2, order = l1 ++ v :: l2 ∧ u ∈ l1.
Proof.
  intros HT Ht Hv. induction Ht as [u v Hedge|u w v Hedge Ht IH].
  - apply list_elem_of_split in Hv as (l1 & l2 & E). exists l1, l2. split; [done|]. by eapply to_inputs.
  - destruct (IH Hv) as (l1 & l2 & E & Hw). exists l1, l2. split; [done|].
    apply list_elem_of_split in Hw as (k1 & k2 & ->). rewrite <- app_assoc in E. simpl in E.
    apply elem_of_app. left. by eapply (to_inputs _ _ HT k1 w (k2 ++ v :: l2)).
Qed.
Lemma topological_acyclic g order : GraphInv g → Topological g order → Acyclic g.
Proof.
  intros HI HT v Ht. assert (Hlive : is_Some (live g v)).
  { inversion Ht as [? ? He|? ? ? He _]; by destruct (edge_live _ _ _ HI He). }
  destruct (topological_tc g order v v HT Ht) as (l1 & l2 & E & Hin); [by apply (to_all _ _ HT)|].
  pose proof (to_nodup _ _ HT) as Hnd. rewrite E in Hnd. apply NoDup_app in Hnd as (_ & Hd & _).
  apply (Hd v Hin). by left.
Qed.

(** ** In an acyclic graph every node leads to a leaf *)

Lemma acyclic_leaf g :
  GraphInv g → Acyclic g → ∀ v, is_Some (live g v) → ∃ w n, rtc (edge g) v w ∧ live g w = Some n ∧ n_output_edges n = [].
Proof.
  intros HI HA v Hv.
  assert (H : ∀ k path w, (length path + k = S (length (nodes_ g)))%nat → NoDup path →
    (∀ x, x ∈ path → is_Some (live g x) ∧ rtc (edge g) x w) → rtc (edge g) v w → w ∈ path →
    ∃ w n, rtc (edge g) v w ∧ live g w = Some n ∧ n_output_edges n = []).
  { induction k as [|k IH]; intros path w Hlen Hnd Hp Hr Hw.
    - exfalso. assert (Hsub : path ⊆+ seq 0 (length (nodes_ g))).
      { apply NoDup_submseteq; [done|]. intros x [[n Hn%live_lt] _]%Hp. apply elem_of_seq. lia. }
      apply submseteq_length in Hsub. rewrite length_seq in Hsub. lia.
    - destruct (Hp w Hw) as [[n Hn] _]. destruct (decide (n_output_edges n = [])) as [|Hne]; [eauto|].
      destruct (leaf_edge g w n HI Hn Hne) as [x Hx]. apply (IH (x :: path) x).
      + simpl. lia.
      + apply NoDup_cons. split; [|done]. intros [_ Hxw]%Hp. apply (HA x). by eapply tc_rtc_l, tc_once.
      + intros y [->|Hy]%elem_of_cons; [split; [by eapply edge_live|apply rtc_refl]|].
        destruct (Hp y Hy). split; [done|]. by eapply rtc_r.
      + by eapply rtc_r.
      + by left. }
  apply (H (length (nodes_ g)) [v] v); [simpl; lia|apply NoDup_singleton| |apply rtc_refl|by left].
  intros x ->%list_elem_of_singleton. split; [done|apply rtc_refl].
Qed.

(** ** The work left: one pop for each entry of the stack, and for each node
    not added yet its own entry and one for each input *)

Definition weight (g : Graph) (A : gset nat) : nat :=
  list_sum ((fun p => if bool_decide (p.1 ∈ A) then 0 else S (length (n_input_edges p.2)))%nat <$> Nodes g).

Lemma weight_empty g : weight g ∅ = list_sum ((fun p => S (length (n_input_edges p.2))) <$> Nodes g).
Proof. unfold weight. by f_equal. Qed.

Lemma weight_add g A v n :
  live g v = Some n → v ∉ A → weight g A = (weight g ({[v]} ∪ A) + S (length (n_input_edges n)))%nat.
Proof.
  intros Hn%elem_of_Nodes HA. unfold weight. pose proof (indices_nodup g) as Hnd. unfold indices in Hnd.
  induction (Nodes g) as [|[w m] l IH]; [by rewrite elem_of_nil in Hn|]. csimpl in Hnd. apply NoDup_cons in Hnd as [Hw Hnd].
  csimpl. apply elem_of_cons in Hn as [E|Hn].
  - injection E as -> ->. rewrite bool_decide_false by done. rewrite bool_decide_true by set_solver.
    assert (E : (fun p : nat * Node => if bool_decide (p.1 ∈ A) then 0 else S (length (n_input_edges p.2)))%nat <$> l =
      (fun p => if bool_decide (p.1 ∈ {[w]} ∪ A) then 0 else S (length (n_input_edges p.2)))%nat <$> l).
    { apply list_fmap_ext. intros i p Hp. assert (p.1 ≠ w).
      { intros <-. apply Hw, list_elem_of_fmap. exists p. split; [done|]. by eapply list_elem_of_lookup_2. }
      by rewrite (bool_decide_ext _ (p.1 ∈ {[w]} ∪ A)) by set_solver. }
    rewrite E. simpl. lia.
  - assert (Hne : w ≠ v) by (intros ->; apply Hw, list_elem_of_fmap; by exists (v, n)).
    rewrite (bool_decide_ext (w ∈ {[v]} ∪ A) (w ∈ A)) by set_solver. rewrite IH by done. lia.
Qed.
Lemma weight_mono g A B : A ⊆ B → (weight g B ≤ weight g A)%nat.
Proof.
  intros HAB. unfold weight. induction (Nodes g) as [|p l IH]; csimpl; [done|].
  destruct (decide (p.1 ∈ A)) as [HA|HA].
  - rewrite !bool_decide_true by set_solver. lia.
  - rewrite (bool_decide_false (p.1 ∈ A)) by done. destruct (bool_decide _); lia.
Qed.

(** ** The invariant of the loop *)

Definition is_leaf (g : Graph) (v : nat) : Prop := ∃ n, live g v = Some n ∧ n_output_edges n = [].

Record TopoInv (g : Graph) (st : TopoState) : Prop := {
  ti_nodup : NoDup (t_order st);
  ti_order : ∀ v, v ∈ t_order st ↔ v ∈ t_processed st;
  ti_live : ∀ v, v ∈ t_order st ∨ v ∈ t_stack st → is_Some (live g v);
  ti_topo : ∀ l1 v l2 u, t_order st = l1 ++ v :: l2 → edge g u v → u ∈ l1;
  ti_added : ∀ v, v ∈ t_added st ↔ v ∈ t_processed st ∨ v ∈ t_output_nodes st;
  ti_disj : ∀ v, v ∈ t_processed st → v ∉ t_output_nodes st;
  ti_gray : ∀ v, v ∈ t_output_nodes st → ∃ pre post, t_stack st = pre ++ v :: post ∧ v ∉ pre ∧
    (∀ u, edge g u v → u ∈ t_processed st ∨ u ∈ pre) ∧ (∀ x, x ∈ pre → tc (edge g) x v);
  ti_leaf : ∀ v, is_leaf g v → v ∈ t_processed st ∨ v ∈ t_stack st;
}.

(** The entry on top of the stack is not a marker of its own. *)
Lemma gray_tail g st c stack v :
  TopoInv g st → t_stack st = c :: stack → v ∈ t_output_nodes st → v ≠ c →
  ∃ pre post, stack = pre ++ v :: post ∧ v ∉ pre ∧
    (∀ u, edge g u v → u ∈ t_processed st ∨ u = c ∨ u ∈ pre) ∧ tc (edge g) c v ∧ (∀ x, x ∈ pre → tc (edge g) x v).
Proof.
  intros HT Hs Hv Hne. destruct (ti_gray _ _ HT v Hv) as (pre & post & E & Hp & Hin & Ht).
  rewrite Hs in E. destruct pre as [|c' pre]; simplify_eq/=. exists pre, post. split_and!; [done|set_solver| | |].
  - intros u Hu. destruct (Hin u Hu); set_solver.
  - apply Ht. by left.
  - intros x Hx. apply Ht. by right.
Qed.

Lemma topo_skip g st c stack :
  TopoInv g st → t_stack st = c :: stack → c ∈ t_processed st →
  TopoInv g (mkTopo (t_order st) (t_processed st) (t_output_nodes st) (t_added st) stack).
Proof.
  intros HT Hs Hc. pose proof HT as [H1 H2 H3 H4 H5 H6 H7 H8]. rewrite Hs in H3, H8.
  split; cbn [t_order t_processed t_output_nodes t_added t_stack]; try done.
  - intros v Hv. apply H3. set_solver.
  - intros v Hv. assert (v ≠ c) by (intros ->; by apply (H6 c)).
    destruct (gray_tail g st c stack v HT Hs Hv) as (pre & post & ? & ? & Hin & _ & Ht); [done|].
    exists pre, post. split_and!; [done|done| |done]. intros u Hu. destruct (Hin u Hu) as [?|[->|?]]; auto.
  - intros v Hv. destruct (H8 v Hv) as [?|[->|?]%elem_of_cons]; auto.
Qed.

Lemma topo_leave g st c stack :
  TopoInv g st → t_stack st = c :: stack → c ∉ t_processed st → c ∈ t_added st →
  TopoInv g (mkTopo (t_order st ++ [c]) ({[c]} ∪ t_processed st) (t_output_nodes st ∖ {[c]}) (t_added st) stack).
Proof.
  intros HT Hs Hc Ha. pose proof HT as [H1 H2 H3 H4 H5 H6 H7 H8]. rewrite Hs in H3, H8.
  assert (Hg : c ∈ t_output_nodes st) by (apply H5 in Ha as [?|?]; done).
  assert (Hin : ∀ u, edge g u c → u ∈ t_processed st).
  { intros u Hu. destruct (H7 c Hg) as (pre & post & E & Hp & Hin & _). rewrite Hs in E.
    destruct pre as [|c' pre]; simplify_eq/=; [|set_solver]. destruct (Hin u Hu) as [|[]%not_elem_of_nil]; done. }
  split; cbn [t_order t_processed t_output_nodes t_added t_stack].
  - apply NoDup_app. split_and!; [done| |apply NoDup_singleton]. intros v Hv ->%list_elem_of_singleton. by apply Hc, H2.
  - intros v. rewrite elem_of_app, list_elem_of_singleton, H2. set_solver.
  - intros v. rewrite elem_of_app, list_elem_of_singleton. intros [[?| ->]|?]; apply H3; set_solver.
  - intros l1 v l2 u E Hu. destruct l2 as [|e l2 _] using rev_ind.
    + apply app_inj_tail in E as [<- <-]. by apply H2, Hin.
    + rewrite app_comm_cons, app_assoc in E. apply app_inj_tail in E as [E _]. by eapply H4.
  - intros v. rewrite H5. destruct (decide (v = c)); set_solver.
  - intros v. specialize (H6 v). set_solver.
  - intros v [Hv Hne]%elem_of_difference. rewrite elem_of_singleton in Hne.
    destruct (gray_tail g st c stack v HT Hs Hv Hne) as (pre & post & ? & ? & Hi & _ & Ht).
    exists pre, post. split_and!; [done|done| |done]. intros u Hu. destruct (Hi u Hu) as [?|[->|?]]; set_solver.
  - intros v Hv. destruct (H8 v Hv) as [?|[->|?]%elem_of_cons]; set_solver.
Qed.

Lemma push_inputs_spec st l :
  match push_inputs st l with
  | None => ∃ u, u ∈ l ∧ u ∈ t_output_nodes st
  | Some stack => (∀ u, u ∈ l → u ∉ t_output_nodes st) ∧
      ∃ pushed, stack = pushed ++ t_stack st ∧ (∀ u, u ∈ pushed ↔ u ∈ l ∧ u ∉ t_added st) ∧
        (length pushed ≤ length l)%nat
  end.
Proof.
  revert st. induction l as [|i l IH]; intros st; cbn [push_inputs].
  { split; [set_solver|]. exists []. split_and!; [done|set_solver|done]. }
  case_bool_decide as Hi; [exists i; set_solver|].
  specialize (IH (mkTopo (t_order st) (t_processed st) (t_output_nodes st) (t_added st)
                    (if bool_decide (i ∈ t_added st) then t_stack st else i :: t_stack st))).
  destruct (push_inputs _ l) as [stack|]; cbn [t_output_nodes t_stack t_added] in IH; [|set_solver].
  destruct IH as (Hu & pushed & -> & Hp & Hlen). split; [set_solver|]. case_bool_decide as Ha.
  - exists pushed. split_and!; [done| |simpl; lia]. intros u. rewrite Hp, elem_of_cons. naive_solver.
  - exists (pushed ++ [i]). split_and!.
    + by rewrite <- app_assoc.
    + intros u. rewrite elem_of_app, list_elem_of_singleton, Hp, elem_of_cons. naive_solver.
    + rewrite length_app. simpl. lia.
Qed.

(** Expanding a node whose inputs are not being worked on. *)
Lemma topo_enter g st c n stack pushed :
  GraphInv g → TopoInv g st → t_stack st = c :: stack → c ∉ t_added st → live g c = Some n →
  (∀ u, u ∈ input_nodes n → u ∉ {[c]} ∪ t_output_nodes st) →
  (∀ u, u ∈ pushed ↔ u ∈ input_nodes n ∧ u ∉ t_added st) →
  TopoInv g (mkTopo (t_order st) (t_processed st) ({[c]} ∪ t_output_nodes st) ({[c]} ∪ t_added st)
               (pushed ++ c :: stack)).
Proof.
  intros HI HT Hs Hc Hn Hgray Hp. pose proof HT as [H1 H2 H3 H4 H5 H6 H7 H8]. rewrite Hs in H3, H8.
  assert (Hcp : c ∉ t_processed st ∧ c ∉ t_output_nodes st) by (rewrite <- not_elem_of_union, elem_of_union, <- H5; done).
  destruct Hcp as [Hcp Hco].
  assert (He : ∀ u, edge g u c ↔ u ∈ input_nodes n).
  { intros u. split; [intros (n' & ? & ?); by simplify_eq|intros ?; by exists n]. }
  split; cbn [t_order t_processed t_output_nodes t_added t_stack]; try done.
  - intros v [Hv|Hv]; [apply H3; auto|]. apply elem_of_app in Hv as [Hv|Hv]; [|apply H3; auto].
    apply Hp in Hv as [Hv%He _]. by apply (edge_live g v c).
  - intros v. rewrite elem_of_union, elem_of_singleton, H5. set_solver.
  - intros v Hv. specialize (H6 v Hv). set_solver.
  - intros v [->%elem_of_singleton|Hv]%elem_of_union.
    + exists pushed, stack. split_and!; [done| | |].
      * intros [Hin _]%Hp. specialize (Hgray c Hin). set_solver.
      * intros u Hu%He. destruct (decide (u ∈ t_added st)) as [Ha|]; [left|right; by apply Hp].
        apply H5 in Ha as [?|?]; [done|]. specialize (Hgray u Hu). set_solver.
      * intros x [Hx%He _]%Hp. by apply tc_once.
    + assert (Hne : v ≠ c) by (by intros ->).
      destruct (gray_tail g st c stack v HT Hs Hv Hne) as (pre & post & -> & Hpre & Hin & Hcv & Ht).
      exists (pushed ++ c :: pre), post. split_and!.
      * by rewrite <- app_assoc.
      * rewrite not_elem_of_app, not_elem_of_cons. split_and!; [|done|done]. intros [_ Ha]%Hp. apply Ha, H5. auto.
      * intros u Hu. destruct (Hin u Hu) as [?|[->|?]]; set_solver.
      * intros x [Hx|[->|Hx]%elem_of_cons]%elem_of_app; [|done|auto].
        apply Hp in Hx as [Hx%He _]. by eapply tc_l.
  - intros v Hv. destruct (H8 v Hv) as [?|?]; [auto|]. set_solver.
Qed.

(** ** The result of the loop *)

Lemma topo_cycle g st c n stack u :
  TopoInv g st → t_stack st = c :: stack → live g c = Some n → u ∈ input_nodes n →
  u ∈ {[c]} ∪ t_output_nodes st → c ∉ t_output_nodes st → ¬ Acyclic g.
Proof.
  intros HT Hs Hn Hu Hin Hc HA. assert (Huc : edge g u c) by (by exists n).
  apply elem_of_union in Hin as [->%elem_of_singleton|Hin]; [by apply (HA c), tc_once|].
  destruct (gray_tail g st c stack u HT Hs Hin) as (_ & _ & _ & _ & _ & Hcu & _); [by intros ->|].
  apply (HA u). by eapply tc_l.
Qed.

Lemma topo_done g st :
  GraphInv g → TopoInv g st → t_stack st = [] →
  (num_of_nodes_ g = Z.of_nat (length (t_order st)) → Topological g (t_order st)) ∧
  (Acyclic g → num_of_nodes_ g = Z.of_nat (length (t_order st))).
Proof.
  intros HI HT Hs. pose proof HT as [H1 H2 H3 H4 H5 H6 H7 H8].
  assert (Hsub : t_order st ⊆+ indices g).
  { apply NoDup_submseteq; [done|]. intros v Hv. apply elem_of_indices, H3. auto. }
  rewrite (gi_count _ HI). split.
  - intros Hlen. assert (Hp : t_order st ≡ₚ indices g).
    { apply submseteq_length_Permutation; [done|]. unfold indices. rewrite length_fmap. lia. }
    split; [done| |done]. intros v. by rewrite Hp, elem_of_indices.
  - intros HA. f_equal. rewrite <- (length_fmap fst (Nodes g)). fold (indices g). apply Permutation_length.
    symmetry. apply NoDup_Permutation; [done|apply indices_nodup|]. intros v. rewrite elem_of_indices.
    split; [intros; apply H3; auto|]. intros Hv. destruct (acyclic_leaf g HI HA v Hv) as (w & n & Hr & Hw & Ho).
    assert (Hin : w ∈ t_order st).
    { apply H2. destruct (H8 w) as [?|Hin]; [by exists n|done|]. rewrite Hs in Hin. by apply not_elem_of_nil in Hin. }
    clear Hw Ho. induction Hr as [w|v x w Hvx Hr IH]; [done|].
    assert (Hx : x ∈ t_order st) by (apply IH; [by eapply edge_live|done]).
    apply list_elem_of_split in Hx as (l1 & l2 & E). rewrite E. apply elem_of_app. left. by eapply H4.
Qed.

Lemma topo_loop_ok fuel g st :
  GraphInv g → TopoInv g st → (length (t_stack st) + weight g (t_added st) ≤ fuel)%nat →
  ∃ s order, topo_loop fuel g st = Ok (s, order) ∧ (IsOK s = true → Topological g order) ∧ (Acyclic g → IsOK s = true).
Proof.
  intros HI. revert st. induction fuel as [|fuel IH]; intros st HT Hf;
    destruct (t_stack st) as [|c stack] eqn:Hs; cbn [topo_loop]; rewrite Hs; [| simpl in Hf; lia| |].
  1,2: destruct (topo_done g st HI HT Hs) as [Hd1 Hd2]; eexists _, _; split; [done|];
    destruct (Z.eqb_spec (num_of_nodes_ g) (Z.of_nat (length (t_order st)))); (split; [try done; auto|]); [done|intros HA; by specialize (Hd2 HA)].
  simpl in Hf. case_bool_decide as Hp; [apply IH; [by eapply topo_skip|simpl; lia]|].
  case_bool_decide as Ha; [apply IH; [by eapply topo_leave|simpl; lia]|].
  assert (Hlive : is_Some (live g c)) by (apply (ti_live _ _ HT); rewrite Hs; right; by left).
  destruct Hlive as [n Hn]. unfold GetNode. pose proof Hn as Hn'. apply live_nodes in Hn'. rewrite Hn'.
  cbn [of_option mbind res_bind].
  set (st' := mkTopo (t_order st) (t_processed st) ({[c]} ∪ t_output_nodes st) (t_added st) (c :: stack)).
  pose proof (push_inputs_spec st' (input_nodes n)) as Hspec. cbn zeta.
  assert (Hco : c ∉ t_output_nodes st) by (intros ?; apply Ha, (ti_added _ _ HT); auto).
  destruct (push_inputs st' (input_nodes n)) as [stack'|]; cbn [st' t_output_nodes t_stack t_added] in Hspec.
  - destruct Hspec as (Hu & pushed & -> & Hpush & Hlen). apply IH.
    + by eapply topo_enter.
    + cbn [t_stack t_added]. rewrite (weight_add g (t_added st) c n Hn Ha) in Hf.
      unfold input_nodes in Hlen. rewrite length_fmap in Hlen. rewrite length_app. simpl. lia.
  - destruct Hspec as (u & Hu & Hin). eexists _, _. split; [done|]. split; [done|]. intros HA. exfalso.
    by eapply (topo_cycle g st c n stack u).
Qed.

(** ** The nodes of the first phase *)

Definition NoConstants (g : Graph) : Prop := ∀ i n, live g i = Some n → n_op_type n ≠ kConstant.

Lemma has_inputs_ok g i n :
  GraphInv g → NoConstants g → live g i = Some n →
  has_inputs g (n_input_edges n) = Ok (match n_input_edges n with [] => false | _ => true end).
Proof.
  intros HI Hc Hn. destruct (n_input_edges n) as [|e l] eqn:E; [done|]. cbn [has_inputs].
  destruct (gi_in _ HI i n e Hn) as (m & Hm & _); [rewrite E; by left|]. rewrite Hm. cbn [of_option mbind res_bind].
  destruct (String.eqb_spec (n_op_type m) kConstant) as [Hk|]; [|done]. by destruct (Hc _ _ Hm).
Qed.

Definition roots (l : list (nat * Node)) : list nat :=
  omap (fun p => match n_input_edges p.2 with [] => Some p.1 | _ => None end) l.

Lemma top_level_ok g l st :
  GraphInv g → NoConstants g → (∀ p, p ∈ l → p ∈ Nodes g) →
  ∃ st', foldM (top_level g) st l = Ok st' ∧ t_order st' = t_order st ++ roots l ∧
    (∀ v, v ∈ t_processed st' ↔ v ∈ t_processed st ∨ v ∈ roots l) ∧
    (∀ v, v ∈ t_added st' ↔ v ∈ t_added st ∨ v ∈ roots l) ∧ t_output_nodes st' = t_output_nodes st.
Proof.
  intros HI Hc. revert st. induction l as [|[i n] l IH]; intros st Hl.
  { exists st. simpl. rewrite app_nil_r. split_and!; [done..|set_solver|set_solver|done]. }
  cbn [foldM]. unfold top_level at 2. simpl.
  rewrite (has_inputs_ok g i n HI Hc) by (apply elem_of_Nodes, Hl; by left). cbn [mbind res_bind].
  assert (Hl' : ∀ p, p ∈ l → p ∈ Nodes g) by (intros; apply Hl; by right).
  destruct (n_input_edges n); cbn [mbind res_bind].
  - destruct (IH (mkTopo (t_order st ++ [i]) ({[i]} ∪ t_processed st) (t_output_nodes st) ({[i]} ∪ t_added st) (t_stack st)) Hl')
      as (st' & -> & E1 & E2 & E3 & E4). exists st'. split; [done|]. cbn [t_order t_processed t_added t_output_nodes] in *.
    split_and!; [by rewrite E1, <- app_assoc| | |done].
    + intros v. rewrite E2. csimpl. set_solver.
    + intros v. rewrite E3. csimpl. set_solver.
  - destruct (IH st Hl') as (st' & -> & E1 & E2 & E3 & E4). exists st'. by split_and!.
Qed.

Lemma elem_of_leaf_nodes g v : v ∈ leaf_nodes g ↔ is_leaf g v.
Proof.
  unfold leaf_nodes, is_leaf. rewrite list_elem_of_omap. split.
  - intros ([i n] & Hin%elem_of_Nodes & E). simpl in E. destruct (n_output_edges n) eqn:En; simplify_eq. eauto.
  - intros (n & Hn%elem_of_Nodes & E). exists (v, n). simpl. by rewrite E.
Qed.
Lemma elem_of_root_nodes g v : v ∈ roots (Nodes g) ↔ ∃ n, live g v = Some n ∧ n_input_edges n = [].
Proof.
  unfold roots. rewrite list_elem_of_omap. split.
  - intros ([i n] & Hin%elem_of_Nodes & E). simpl in E. destruct (n_input_edges n) eqn:En; simplify_eq. eauto.
  - intros (n & Hn%elem_of_Nodes & E). exists (v, n). simpl. by rewrite E.
Qed.
Lemma omap_fst_sublist (f : nat * Node → bool) l :
  omap (fun p => if f p then Some p.1 else None) l `sublist_of` l.*1.
Proof. induction l as [|p l IH]; csimpl; [done|]. destruct (f p); by constructor. Qed.
Lemma roots_nodup g : NoDup (roots (Nodes g)).
Proof.
  eapply sublist_NoDup; [apply (indices_nodup g)|]. unfold roots, indices.
  etrans; [|apply (omap_fst_sublist (fun p => match n_input_edges p.2 with [] => true | _ => false end))].
  apply reflexive_eq. apply list_omap_ext, Forall_Forall2_diag, Forall_true. intros [i n]. simpl.
  by destruct (n_input_edges n).
Qed.

Lemma PerformTopologicalSort_ok g :
  GraphInv g → NoConstants g →
  ∃ s order, PerformTopologicalSortAndCheckIsAcyclic g = Ok (s, order) ∧
    (IsOK s = true → Topological g order) ∧ (Acyclic g → IsOK s = true).
Proof.
  intros HI Hc. unfold PerformTopologicalSortAndCheckIsAcyclic.
  destruct (top_level_ok g (Nodes g) (mkTopo [] ∅ ∅ ∅ []) HI Hc) as (st & -> & E1 & E2 & E3 & E4); [done|].
  cbn [mbind res_bind]. cbn [t_order t_processed t_added t_output_nodes] in *. simpl in E1.
  assert (Hr : ∀ v, v ∈ roots (Nodes g) → is_Some (live g v) ∧ ∀ u, ¬ edge g u v).
  { intros v (n & Hn & Ei)%elem_of_root_nodes. split; [eauto|]. intros u (n' & Hn' & Hu). simplify_eq.
    unfold input_nodes in Hu. rewrite Ei in Hu. by apply not_elem_of_nil in Hu. }
  apply topo_loop_ok; [done| |].
  - split; cbn [t_order t_processed t_added t_output_nodes t_stack].
    + rewrite E1. apply roots_nodup.
    + intros v. rewrite E1, E2. set_solver.
    + intros v [Hv|Hv]; [rewrite E1 in Hv; by apply Hr|]. rewrite elem_of_reverse, elem_of_leaf_nodes in Hv.
      destruct Hv as (n & ? & _). eauto.
    + intros l1 v l2 u Ev Hu. exfalso. eapply (Hr v); [|exact Hu]. rewrite <- E1, Ev. set_solver.
    + intros v. rewrite E2, E3, E4. set_solver.
    + intros v _. rewrite E4. set_solver.
    + intros v. rewrite E4. set_solver.
    + intros v Hv%elem_of_leaf_nodes. right. by rewrite elem_of_reverse.
  - cbn [t_stack t_added]. rewrite length_reverse. unfold dfs_fuel. rewrite <- weight_empty.
    pose proof (weight_mono g ∅ (t_added st) ltac:(set_solver)). lia.
Qed.
