(* ===== verification/GraphDfs.v ===== *)
(** The reverse depth-first search of [graph.cc] on acyclic graphs: it leaves
    the nodes upstream of its start once each, after their inputs; the order of
    [GraphViewer] is a topological order. *)
From S2P Require Import Prelude Graph GraphInv GraphTopo.

(** ** Sorting *)

Lemma sort_insert_perm lt x l : sort_insert lt x l ≡ₚ x :: l.
Proof.
  induction l as [|y l IH]; simpl; [done|]. destruct (lt y x); [|done]. rewrite IH. apply Permutation_swap.
Qed.
Lemma std_sort_perm lt l : std_sort lt l ≡ₚ l.
Proof. induction l as [|x l IH]; simpl; [done|]. by rewrite sort_insert_perm, IH. Qed.

(** ** The invariant of the search *)

Record DfsInv (g : Graph) (from : list nat) (stack : list (nat * bool)) (V : gset nat) (L : list nat) : Prop := {
  df_nodup : NoDup L;
  df_sub : ∀ v, v ∈ L → v ∈ V;
  df_topo : ∀ l1 v l2 u, L = l1 ++ v :: l2 → edge g u v → u ∈ l1;
  df_gray : ∀ v, v ∈ V → v ∈ L ∨ (v, true) ∈ stack;
  df_mark : ∀ pre v post, stack = pre ++ (v, true) :: post →
    v ∈ V ∧ v ∉ L ∧ (v, true) ∉ pre ∧ (∀ u, edge g u v → u ∈ L ∨ ∃ b, (u, b) ∈ pre) ∧
    ∀ x b, (x, b) ∈ pre → tc (edge g) x v;
  df_live : ∀ v, v ∈ V ∨ v ∈ stack.*1 → is_Some (live g v) ∧ ∃ f, f ∈ from ∧ rtc (edge g) v f;
  df_from : ∀ f, f ∈ from → f ∈ V ∨ f ∈ stack.*1;
}.

Section search.
Context (g : Graph) (HI : GraphInv g) (HA : Acyclic g).
Implicit Types (stack : list (nat * bool)) (V : gset nat) (L from : list nat).

Lemma dfs_leave from c stack V L :
  DfsInv g from ((c, true) :: stack) V L → DfsInv g from stack V (L ++ [c]).
Proof.
  intros [H1 H2 H3 H4 H5 H6 H7]. destruct (H5 [] c stack eq_refl) as (Hc & HcL & _ & Hin & _).
  assert (Hin' : ∀ u, edge g u c → u ∈ L).
  { intros u Hu. destruct (Hin u Hu) as [|[b []%not_elem_of_nil]]; done. }
  split.
  - apply NoDup_app. split_and!; [done| |apply NoDup_singleton]. by intros v Hv ->%list_elem_of_singleton.
  - intros v [?| ->%list_elem_of_singleton]%elem_of_app; auto.
  - intros l1 v l2 u E Hu. destruct l2 as [|e l2 _] using rev_ind.
    + apply app_inj_tail in E as [<- <-]. auto.
    + rewrite app_comm_cons, app_assoc in E. apply app_inj_tail in E as [E _]. by eapply H3.
  - intros v Hv. rewrite elem_of_app, list_elem_of_singleton. destruct (H4 v Hv) as [?|[E|?]%elem_of_cons]; [auto| |auto].
    injection E as ->. auto.
  - intros pre v post E. destruct (H5 ((c, true) :: pre) v post) as (Hv & HvL & Hp & Hi & Ht); [by rewrite E|].
    split_and!; [done| |set_solver| |].
    + rewrite not_elem_of_app, list_elem_of_singleton. split; [done|]. intros ->. apply Hp. by left.
    + intros u Hu. rewrite elem_of_app, list_elem_of_singleton.
      destruct (Hi u Hu) as [?|[b [E'|?]%elem_of_cons]]; [auto| |eauto]. injection E' as -> ->. auto.
    + intros x b Hx. apply (Ht x b). by right.
  - intros v Hv. apply H6. csimpl. set_solver.
  - intros f Hf. destruct (H7 f Hf) as [?|Hin0]; [auto|]. csimpl in Hin0. apply elem_of_cons in Hin0 as [->|?]; auto.
Qed.

Lemma dfs_skip from c stack V L :
  DfsInv g from ((c, false) :: stack) V L → c ∈ V → DfsInv g from stack V L.
Proof.
  intros [H1 H2 H3 H4 H5 H6 H7] Hc. split; try done.
  - intros v Hv. destruct (H4 v Hv) as [?|[E|?]%elem_of_cons]; [auto|done|auto].
  - intros pre v post E. destruct (H5 ((c, false) :: pre) v post) as (Hv & HvL & Hp & Hi & Ht); [by rewrite E|].
    split_and!; [done|done|set_solver| |].
    + intros u Hu. destruct (Hi u Hu) as [?|[b [E'|?]%elem_of_cons]]; [auto| |eauto]. injection E' as -> ->.
      destruct (H4 c Hc) as [?|Hm]; [auto|]. right. exists true. apply elem_of_cons in Hm as [?|Hm]; [done|].
      rewrite E in Hm. apply elem_of_app in Hm as [?|[E'|Hm]%elem_of_cons]; [done| |]; exfalso.
      * injection E' as ->. by apply (HA v), tc_once.
      * apply list_elem_of_split in Hm as (p1 & p2 & ->).
        destruct (H5 ((c, false) :: pre ++ (v, true) :: p1) c p2) as (_ & _ & _ & _ & Ht').
        { rewrite E. simpl. by rewrite <- app_assoc. }
        apply (HA c). eapply tc_l; [exact Hu|]. apply (Ht' v true). set_solver.
    + intros x b Hx. apply (Ht x b). by right.
  - intros v Hv. apply H6. csimpl. set_solver.
  - intros f Hf. destruct (H7 f Hf) as [?|Hin0]; [auto|]. csimpl in Hin0. apply elem_of_cons in Hin0 as [->|?]; auto.
Qed.

Lemma mark_split (pushed stack pre post : list (nat * bool)) c v :
  (∀ u, (u, true) ∉ pushed) → pushed ++ (c, true) :: stack = pre ++ (v, true) :: post →
  (pre = pushed ∧ v = c ∧ post = stack) ∨ ∃ k, pre = pushed ++ (c, true) :: k ∧ stack = k ++ (v, true) :: post.
Proof.
  intros Hp E. apply app_eq_inv in E as [(k & -> & E)|(k & -> & E)].
  - destruct k as [|e k]; simplify_eq/=; [left; by rewrite app_nil_r|]. exfalso. apply (Hp v). set_solver.
  - destruct k as [|e k]; simplify_eq/=; [left; by rewrite app_nil_r|]. right. by exists k.
Qed.

Lemma dfs_enter from c n stack V L pushed :
  DfsInv g from ((c, false) :: stack) V L → c ∉ V → live g c = Some n →
  (∀ u b, (u, b) ∈ pushed ↔ b = false ∧ u ∈ input_nodes n ∧ u ∉ {[c]} ∪ V) →
  DfsInv g from (pushed ++ (c, true) :: stack) ({[c]} ∪ V) L.
Proof.
  intros [H1 H2 H3 H4 H5 H6 H7] Hc Hn Hp.
  assert (He : ∀ u, edge g u c ↔ u ∈ input_nodes n).
  { intros u. split; [intros (n' & ? & ?); by simplify_eq|intros ?; by exists n]. }
  assert (Hold : ∀ pre v post, stack = pre ++ (v, true) :: post → tc (edge g) c v ∧ v ≠ c ∧ v ∈ V ∧ v ∉ L ∧
    (v, true) ∉ pre ∧ (∀ u, edge g u v → u ∈ L ∨ u = c ∨ ∃ b, (u, b) ∈ pre) ∧ ∀ x b, (x, b) ∈ pre → tc (edge g) x v).
  { intros pre v post E. destruct (H5 ((c, false) :: pre) v post) as (Hv & HvL & Hpre & Hi & Ht); [by rewrite E|].
    split_and!; [apply (Ht c false); by left|by intros ->|done|done|set_solver| |intros x b Hx; apply (Ht x b); by right].
    intros u Hu. destruct (Hi u Hu) as [?|[b [E'|?]%elem_of_cons]]; [auto|injection E' as -> ->; auto|eauto]. }
  destruct (H6 c) as [_ (f0 & Hf0 & Hr0)]; [right; csimpl; by left|].
  split.
  - done.
  - intros v Hv. set_solver.
  - done.
  - intros v [->%elem_of_singleton|Hv]%elem_of_union; [right; set_solver|].
    destruct (H4 v Hv) as [?|[?|?]%elem_of_cons]; [auto|done|]. right. set_solver.
  - intros pre v post E. apply mark_split in E as [(-> & -> & ->)|(k & -> & E)]; [| |by intros u [? _]%Hp].
    + split_and!; [set_solver|by intros ?%H2|by intros [? _]%Hp| |].
      * intros u Hu. destruct (decide (u ∈ {[c]} ∪ V)) as [Hin|]; [|right; exists false; apply Hp; by rewrite <- He].
        apply elem_of_union in Hin as [->%elem_of_singleton|Hin]; [exfalso; by apply (HA c), tc_once|].
        destruct (H4 u Hin) as [?|[?|Hm]%elem_of_cons]; [auto|done|]. exfalso.
        apply list_elem_of_split in Hm as (p1 & p2 & E'). destruct (Hold p1 u p2 E') as [Htc _].
        apply (HA c). by eapply tc_r.
      * intros x b (_ & Hx%He & _)%Hp. by apply tc_once.
    + destruct (Hold k v post E) as (Htc & Hne & Hv & HvL & Hk & Hi & Ht). split_and!.
      * set_solver.
      * done.
      * rewrite not_elem_of_app, not_elem_of_cons. split_and!; [by intros [? _]%Hp|congruence|done].
      * intros u Hu. destruct (Hi u Hu) as [?|[->|[b ?]]]; [auto|right; exists true|right; exists b]; rewrite elem_of_app, elem_of_cons; auto.
      * intros x b [Hx|[E'|Hx]%elem_of_cons]%elem_of_app; [|injection E' as -> ->; done|eauto].
        apply Hp in Hx as (_ & Hx%He & _). by eapply tc_l.
  - intros v Hv. rewrite fmap_app in Hv. csimpl in Hv.
    assert (Hcase : v = c ∨ (v ∈ V ∨ v ∈ ((c, false) :: stack).*1) ∨ edge g v c).
    { rewrite elem_of_union, elem_of_singleton, elem_of_app, elem_of_cons in Hv. csimpl. rewrite elem_of_cons.
      destruct Hv as [[->|?]|[([x b] & -> & (_ & Hx%He & _)%Hp)%list_elem_of_fmap|[->|?]]]; auto. }
    destruct Hcase as [->|[?|Hvc]]; [split; eauto|auto|]. split; [by apply (edge_live g v c)|]. exists f0. split; [done|].
    by eapply rtc_l.
  - intros f Hf. rewrite fmap_app. csimpl. rewrite elem_of_union, elem_of_singleton, elem_of_app, elem_of_cons.
    destruct (H7 f Hf) as [?|Hin]; [auto|]. csimpl in Hin. apply elem_of_cons in Hin as [->|?]; auto.
Qed.

Lemma dfs_done from V L :
  DfsInv g from [] V L →
  NoDup L ∧ (∀ v, v ∈ L ↔ ∃ f, f ∈ from ∧ rtc (edge g) v f) ∧
  (∀ l1 v l2 u, L = l1 ++ v :: l2 → edge g u v → u ∈ l1).
Proof.
  intros [H1 H2 H3 H4 H5 H6 H7]. split_and!; [done| |done].
  assert (HL : ∀ v, v ∈ V → v ∈ L) by (intros v Hv; destruct (H4 v Hv) as [|[]%not_elem_of_nil]; done).
  intros v. split; [intros; apply H6; auto|]. intros (f & Hf & Hr).
  assert (Hin : f ∈ L) by (destruct (H7 f Hf) as [|[]%not_elem_of_nil]; auto). clear Hf.
  induction Hr as [|v x f Hvx Hr IHr]; [done|]. specialize (IHr Hin).
  apply list_elem_of_split in IHr as (l1 & l2 & E). rewrite E. apply elem_of_app. left. by eapply H3.
Qed.

Lemma reverse_dfs_ok fuel from comp stack V trace :
  DfsInv g from stack V (leaves trace) → (length stack + weight g V ≤ fuel)%nat →
  ∃ trace', reverse_dfs fuel g false true comp stack V trace = Ok trace' ∧
    NoDup (leaves trace') ∧
    (∀ v, v ∈ leaves trace' ↔ ∃ f, f ∈ from ∧ rtc (edge g) v f) ∧
    (∀ l1 v l2 u, leaves trace' = l1 ++ v :: l2 → edge g u v → u ∈ l1).
Proof.
  revert stack V trace. induction fuel as [|fuel IH]; intros stack V trace HD Hf;
    destruct stack as [|[c b] stack]; cbn [reverse_dfs]; [|simpl in Hf; lia| |].
  1,2: exists trace; split; [done|by eapply dfs_done].
  simpl in Hf. destruct b.
  { apply IH; [|lia]. unfold leaves. rewrite omap_app. simpl. by apply dfs_leave. }
  destruct (df_live _ _ _ _ _ HD c) as [[n Hn] _]; [right; csimpl; by left|]. rewrite Hn. cbn [of_option mbind res_bind].
  case_bool_decide as Hc; [apply IH; [by eapply dfs_skip|lia]|]. apply IH.
  - apply (dfs_enter from c n stack); [exact HD|exact Hc|exact Hn|]. intros u b. rewrite elem_of_reverse, list_elem_of_fmap. split.
    + intros (u' & E & [Hu Hin]%list_elem_of_filter). injection E as -> ->. split_and!; [done| |done].
      destruct comp as [lt|]; [|done]. by rewrite std_sort_perm in Hin.
    + intros (-> & Hin & Hu). exists u. split; [done|]. apply list_elem_of_filter. split; [done|].
      destruct comp as [lt|]; [|done]. by rewrite std_sort_perm.
  - rewrite (weight_add g V c n Hn Hc) in Hf. rewrite length_app, length_reverse, length_fmap. simpl.
    pose proof (length_filter (fun i => i ∉ {[c]} ∪ V) match comp with Some lt => std_sort lt (input_nodes n) | None => input_nodes n end) as Hlen.
    assert (Hin : length match comp with Some lt => std_sort lt (input_nodes n) | None => input_nodes n end = length (n_input_edges n)).
    { destruct comp; rewrite ?std_sort_perm; unfold input_nodes; by rewrite length_fmap. }
    lia.
Qed.

Lemma ReverseDFSFrom_ok from comp :
  (∀ f, f ∈ from → is_Some (live g f)) →
  ∃ trace, ReverseDFSFrom g from false true comp = Ok trace ∧ NoDup (leaves trace) ∧
    (∀ v, v ∈ leaves trace ↔ ∃ f, f ∈ from ∧ rtc (edge g) v f) ∧
    (∀ l1 v l2 u, leaves trace = l1 ++ v :: l2 → edge g u v → u ∈ l1).
Proof.
  intros Hfrom. assert (Hfst : ∀ v, v ∈ (reverse ((fun i : nat => (i, false)) <$> from)).*1 ↔ v ∈ from).
  { intros v. rewrite fmap_reverse, elem_of_reverse, <- list_fmap_compose, list_elem_of_fmap. naive_solver. }
  apply reverse_dfs_ok.
  - split.
    + constructor.
    + by intros v []%not_elem_of_nil.
    + by intros [] v l2 u E.
    + set_solver.
    + intros pre v post E. exfalso. assert (Hin : (v, true) ∈ reverse ((fun i : nat => (i, false)) <$> from)) by (rewrite E; set_solver).
      rewrite elem_of_reverse in Hin. by apply list_elem_of_fmap in Hin as (? & ? & _).
    + intros v [?|Hv%Hfst]; [set_solver|]. split; [auto|]. exists v. split; [done|apply rtc_refl].
    + intros f Hf. right. by apply Hfst.
  - rewrite length_reverse, length_fmap. unfold dfs_fuel. by rewrite weight_empty.
Qed.

Lemma new_GraphViewer_ok :
  ∃ v, new_GraphViewer g = Ok v ∧ Topological g (nodes_in_topological_order_ v) ∧
    (∀ r, r ∈ root_nodes_ v ↔ is_Some (live g r) ∧ ∀ u, ¬ edge g u r).
Proof.
  unfold new_GraphViewer.
  destruct (ReverseDFSFrom_ok (leaf_nodes g) (Some NodeCompare)) as (trace & -> & Hnd & Hv & Ht).
  { intros f (n & ? & _)%elem_of_leaf_nodes. eauto. }
  cbn [mbind res_bind]. eexists. split; [done|]. split; [split; [done| |done]|].
  - intros v. rewrite Hv. split.
    + intros (f & (n & Hn & _)%elem_of_leaf_nodes & Hr). destruct Hr as [|v x f Hvx _]; [eauto|]. by apply (edge_live g v x).
    + intros Hl. destruct (acyclic_leaf g HI HA v Hl) as (w & n & Hr & Hw & Ho). exists w. split; [|done].
      apply elem_of_leaf_nodes. by exists n.
  - intros r. fold (roots (Nodes g)). change (root_nodes g) with (roots (Nodes g)). cbn [root_nodes_].
    rewrite elem_of_root_nodes. split.
    + intros (n & Hn & E). split; [eauto|]. intros u (n' & Hn' & Hu). simplify_eq. unfold input_nodes in Hu. rewrite E in Hu.
      by apply not_elem_of_nil in Hu.
    + intros [[n Hn] He]. exists n. split; [done|]. destruct (n_input_edges n) as [|e l] eqn:E; [done|]. exfalso.
      apply (He (e_node e)). exists n. split; [done|]. unfold input_nodes. rewrite E. by left.
Qed.
End search.
