(* ===== verification/GraphResolve.v ===== *)
(** The structural part of [Graph::Resolve]: it succeeds exactly when names
    are unique and the data flow is acyclic, and then the edges are the data
    flow and the order follows it. *)
From S2P Require Import Prelude Graph GraphInv GraphTopo.

(** ** Unique names *)

(** The names of the outputs of a node that exist, and their slots. *)
Definition existing (l : list NodeArg) : list string := na_name <$> filter (fun a => Exists a = true) l.
Definition all_outputs (l : list (nat * Node)) : list string := l ≫= fun p => existing (n_output_defs p.2).
Definition node_names (l : list (nat * Node)) : list string := filter (fun s => s ≠ "") ((fun p => n_name p.2) <$> l).

(** [name] is the output [slot] of node [i] among [l]. *)
Definition output_at (l : list (nat * Node)) (name : string) (i : nat) (slot : Z) : Prop :=
  ∃ n s a, (i, n) ∈ l ∧ n_output_defs n !! s = Some a ∧ Exists a = true ∧ na_name a = name ∧ slot = Z.of_nat s.

Lemma elem_of_existing l name : name ∈ existing l ↔ ∃ s a, l !! s = Some a ∧ Exists a = true ∧ na_name a = name.
Proof.
  unfold existing. rewrite list_elem_of_fmap. split.
  - intros (a & -> & [He [s Hs]%list_elem_of_lookup]%list_elem_of_filter). eauto.
  - intros (s & a & Hs & He & <-). exists a. split; [done|]. apply list_elem_of_filter. split; [done|].
    by eapply list_elem_of_lookup_2.
Qed.

Lemma existing_app l1 l2 : existing (l1 ++ l2) = existing l1 ++ existing l2.
Proof. unfold existing. by rewrite filter_app, fmap_app. Qed.

(** The loop over the outputs of one node. *)
Lemma verify_outputs_ok inits i n pre l m :
  n_output_defs n = pre ++ l →
  (∀ name, is_Some (m !! name) → name ∉ inits) →
  let r := foldl (verify_output inits i) (StatusOK, m) (imap (fun k a => (length pre + k, a)%nat) l) in
  (IsOK r.1 = true ↔ NoDup (existing l) ∧ ∀ name, name ∈ existing l → name ∉ inits ∧ m !! name = None) ∧
  (IsOK r.1 = true → ∀ name v, r.2 !! name = Some v ↔ m !! name = Some v ∨
     ∃ k a, l !! k = Some a ∧ Exists a = true ∧ na_name a = name ∧ v = (i, Z.of_nat (length pre + k))).
Proof.
  revert pre m. induction l as [|a l IH]; intros pre m Hn Hm; cbn zeta.
  { simpl. split; [split; [|done]|]. - intros _. split; [constructor|set_solver].
    - intros _ name v. split; [auto|]. intros [?|(k & a & Hk & _)]; [done|]. by rewrite lookup_nil in Hk. }
  rewrite imap_cons. cbn [foldl]. rewrite Nat.add_0_r.
  assert (Eimap : imap ((fun k a0 => (length pre + k, a0)%nat) ∘ S) l = imap (fun k a0 => (length (pre ++ [a]) + k, a0)%nat) l).
  { apply imap_ext. intros k x _. simpl. rewrite length_app. simpl. f_equal. lia. }
  rewrite Eimap. assert (Hn' : n_output_defs n = (pre ++ [a]) ++ l) by (by rewrite <- app_assoc).
  pose proof (eq_refl (verify_output inits i (StatusOK, m) (length pre, a))) as Hstep.
  unfold verify_output in Hstep at 2. cbn [fst snd IsOK StatusOK negb] in Hstep.
  assert (Hfail : ∀ s m', IsOK s = false → (foldl (verify_output inits i) (s, m') (imap (fun k a0 => (length (pre ++ [a]) + k, a0)%nat) l)).1 = s).
  { intros s m' Hs. generalize (imap (fun k a0 => (length (pre ++ [a]) + k, a0)%nat) l). intros l0.
    induction l0 as [|x l0 IH0]; [done|]. cbn [foldl]. unfold verify_output at 2. by rewrite Hs. }
  destruct (Exists a) eqn:Ea; cbn [negb] in Hstep.
  2:{ rewrite Hstep. clear Hstep Hfail. specialize (IH (pre ++ [a]) m Hn' Hm). cbn zeta in IH. destruct IH as [IH1 IH2].
      assert (Ee : existing (a :: l) = existing l) by (unfold existing; rewrite filter_cons_False by congruence; done).
      rewrite Ee. split; [done|]. intros Hok name v. rewrite (IH2 Hok name v). apply or_iff_compat_l. split.
      - intros (k & x & Hk & ? & ? & ->). exists (S k), x. split_and!; [done..|]. rewrite length_app. simpl. do 2 f_equal. lia.
      - intros ([|k] & x & Hk & ? & ? & ->); simplify_eq/=; [congruence|]. exists k, x. split_and!; [done..|]. rewrite length_app. simpl. do 2 f_equal. lia. }
  assert (Ee : existing (a :: l) = na_name a :: existing l) by (unfold existing; rewrite filter_cons_True by done; done).
  rewrite Ee. case_bool_decide as Hin.
  { rewrite Hstep. split; [|by rewrite Hfail]. rewrite Hfail by done. split; [done|]. intros [_ H]. destruct (H (na_name a)); [by left|done]. }
  destruct (m !! na_name a) eqn:Em; rewrite Hstep; clear Hstep.
  { split; [|by rewrite Hfail]. rewrite Hfail by done. split; [done|]. intros [_ H]. destruct (H (na_name a)); [by left|congruence]. }
  specialize (IH (pre ++ [a]) (<[na_name a := (i, Z.of_nat (length pre))]> m) Hn'). cbn zeta in IH.
  destruct IH as [IH1 IH2].
  { intros name [v Hv]. apply lookup_insert_Some in Hv as [[<- _]|[_ Hv]]; [done|]. apply Hm. eauto. }
  split.
  - rewrite IH1. rewrite NoDup_cons. split.
    + intros [Hnd H]. split_and!; [|done|].
      * intros Hx. destruct (H _ Hx) as [_ Hx']. by rewrite lookup_insert_eq in Hx'.
      * intros name [->|Hx]%elem_of_cons; [done|]. destruct (H _ Hx) as [? Hx']. split; [done|].
        apply lookup_insert_None in Hx' as [? _]. done.
    + intros [[Hx Hnd] H]. split; [done|]. intros name Hname. destruct (H name); [by right|]. split; [done|].
      apply lookup_insert_None. split; [done|]. by intros <-.
  - intros Hok name v. rewrite (IH2 Hok name v), lookup_insert_Some. split.
    + intros [[[<- <-]|[_ ?]]|(k & x & Hk & ? & ? & ->)]; [|auto|].
      * right. exists 0%nat, a. split_and!; [done..|]. by rewrite Nat.add_0_r.
      * right. exists (S k), x. split_and!; [done..|]. rewrite length_app. simpl. do 2 f_equal. lia.
    + intros [Hv|([|k] & x & Hk & ? & Hx & ->)]; simplify_eq/=.
      * left. right. split; [congruence|done].
      * left. left. rewrite Nat.add_0_r. done.
      * right. exists k, x. split_and!; [done..|]. rewrite length_app. simpl. do 2 f_equal. lia.
Qed.

(** The loop over the nodes. *)
Definition unique_names (inits : gset string) (l : list (nat * Node)) : Prop :=
  NoDup (node_names l) ∧ NoDup (all_outputs l) ∧ ∀ name, name ∈ all_outputs l → name ∉ inits.

Record Verified (inits : gset string) (l : list (nat * Node)) (c : ResolveContext) : Prop := {
  vf_names : ∀ name, is_Some (node_name_to_index c !! name) ↔ name ∈ ((fun p => n_name p.2) <$> l);
  vf_inits : ∀ name, is_Some (output_args c !! name) → name ∉ inits;
  vf_outputs : ∀ name i s, output_args c !! name = Some (i, s) ↔ output_at l name i s;
}.

Lemma elem_of_all_outputs l name : name ∈ all_outputs l ↔ ∃ i s, output_at l name i s.
Proof.
  unfold all_outputs. rewrite list_elem_of_bind. split.
  - intros ([i n] & (s & a & ? & ? & ?)%elem_of_existing & Hin). exists i, (Z.of_nat s), n, s, a. by split_and!.
  - intros (i & z & n & s & a & Hin & ? & ? & ? & ->). exists (i, n). split; [|done]. apply elem_of_existing. eauto.
Qed.

Lemma node_names_snoc l p :
  node_names (l ++ [p]) = node_names l ++ (if decide (n_name p.2 = "") then [] else [n_name p.2]).
Proof.
  unfold node_names. rewrite fmap_app, filter_app. f_equal. csimpl. case_decide; [rewrite filter_cons_False by tauto|rewrite filter_cons_True by done]; done.
Qed.

Lemma all_outputs_snoc l p : all_outputs (l ++ [p]) = all_outputs l ++ existing (n_output_defs p.2).
Proof. unfold all_outputs. rewrite bind_app, bind_cons. simpl. by rewrite app_nil_r. Qed.

Lemma verify_node_ok inits l p c :
  Verified inits l c → unique_names inits l →
  let r := verify_node inits (StatusOK, c) p in
  (IsOK r.1 = true ↔ unique_names inits (l ++ [p])) ∧ (IsOK r.1 = true → Verified inits (l ++ [p]) r.2).
Proof.
  intros [H1 H2 H3] (Hu1 & Hu2 & Hu3). destruct p as [i n]. cbn zeta. unfold verify_node. cbn [IsOK StatusOK negb fst snd].
  unfold unique_names. rewrite node_names_snoc. rewrite all_outputs_snoc. cbn [snd].
  assert (Hname : (negb (String.eqb (n_name n) "") && bool_decide (is_Some (node_name_to_index c !! n_name n))) = true ↔
    n_name n ≠ "" ∧ n_name n ∈ node_names l).
  { rewrite andb_true_iff, negb_true_iff, bool_decide_eq_true, H1, String.eqb_neq. unfold node_names.
    rewrite list_elem_of_filter. tauto. }
  destruct (_ && _).
  { split; [|done]. split; [done|]. intros (Hnd & _). exfalso. destruct Hname as [[Hne Hin] _]; [done|].
    rewrite decide_False in Hnd by done. apply NoDup_app in Hnd as (_ & Hd & _). apply (Hd _ Hin). by left. }
  assert (Hnd : NoDup (node_names l ++ (if decide (n_name n = "") then [] else [n_name n]))).
  { apply NoDup_app. split_and!; [done| |case_decide; [constructor|apply NoDup_singleton]]. intros x Hx Hx'.
    case_decide; [by apply not_elem_of_nil in Hx'|]. apply list_elem_of_singleton in Hx' as ->.
    destruct Hname as [_ Hn]. by specialize (Hn (conj H Hx)). }
  destruct (verify_outputs_ok inits i n [] (n_output_defs n) (output_args c) eq_refl H2) as [V1 V2]. cbn zeta in V1, V2.
  change (imap (fun k a => (length (@nil NodeArg) + k, a)%nat) (n_output_defs n)) with (imap pair (n_output_defs n)) in V1, V2.
  destruct (foldl (verify_output inits i) (StatusOK, output_args c) (imap pair (n_output_defs n))) as [s m] eqn:Ef.
  cbn [fst snd] in V1, V2 |- *.
  assert (Hfresh : ∀ name, output_args c !! name = None ↔ name ∉ all_outputs l).
  { intros name. rewrite elem_of_all_outputs, eq_None_not_Some. apply not_iff_compat. split.
    - intros [[j z] Hj%H3]. eauto.
    - intros (j & z & Hj%H3). eauto. }
  split.
  - rewrite V1. split.
    + intros [Hnd' H]. split_and!; [done| |].
      * apply NoDup_app. split_and!; [done| |done]. intros x Hx Hx'%H. by destruct Hx' as [_ ?%Hfresh].
      * intros x [?|?%H]%elem_of_app; [auto|tauto].
    + intros (_ & (_ & Hd & Hnd')%NoDup_app & H). split; [done|]. intros x Hx. split; [apply H; set_solver|].
      apply Hfresh. intros Hx'. by apply (Hd x).
  - intros Hok. specialize (V2 Hok). apply V1 in Hok as [_ Hin]. split; cbn [node_name_to_index output_args].
    + intros name. rewrite lookup_insert_is_Some, H1, fmap_app. csimpl. rewrite elem_of_app, list_elem_of_singleton.
      destruct (decide (n_name n = name)); naive_solver.
    + intros name [v Hv]. apply V2 in Hv as [?|(k & a & Hk & Ha & Hn & _)]; [apply H2; eauto|].
      apply Hin. apply elem_of_existing. eauto.
    + intros name j z. rewrite V2, H3. split.
      * intros [(n' & s' & a & Hin' & ?)|(k & a & Hk & Ha & Hn & [= -> ->])].
        -- exists n', s', a. split; [set_solver|done].
        -- exists n, k, a. split_and!; [set_solver|done..].
      * intros (n' & s' & a & [?|[= -> ->]%list_elem_of_singleton]%elem_of_app & Hk & Ha & Hn & ->).
        -- left. exists n', s', a. by split_and!.
        -- right. exists s', a. by split_and!.
Qed.

Lemma verify_nodes_fail inits s c l : IsOK s = false → foldl (verify_node inits) (s, c) l = (s, c).
Proof. intros Hs. induction l as [|p l IH]; [done|]. cbn [foldl]. unfold verify_node at 2. by rewrite Hs. Qed.

Lemma unique_names_app inits l1 l2 : unique_names inits (l1 ++ l2) → unique_names inits l1.
Proof.
  unfold unique_names, node_names, all_outputs. rewrite fmap_app, filter_app, bind_app.
  intros ((? & _)%NoDup_app & (? & _)%NoDup_app & Hi). split_and!; [done..|]. intros name Hname. apply Hi. set_solver.
Qed.

Lemma verify_nodes_ok inits l pre c :
  Verified inits pre c → unique_names inits pre →
  let r := foldl (verify_node inits) (StatusOK, c) l in
  (IsOK r.1 = true ↔ unique_names inits (pre ++ l)) ∧ (IsOK r.1 = true → Verified inits (pre ++ l) r.2).
Proof.
  revert pre c. induction l as [|p l IH]; intros pre c HV HU; cbn zeta.
  { simpl. by rewrite app_nil_r. }
  cbn [foldl]. destruct (verify_node_ok inits pre p c HV HU) as [S1 S2]. cbn zeta in S1, S2.
  destruct (verify_node inits (StatusOK, c) p) as [s c'] eqn:E. cbn [fst snd] in S1, S2.
  assert (Eapp : pre ++ p :: l = (pre ++ [p]) ++ l) by (by rewrite <- app_assoc). rewrite Eapp.
  destruct (IsOK s) eqn:Es.
  - destruct s; [done|]. apply IH; tauto.
  - rewrite verify_nodes_fail by done. cbn [fst snd]. rewrite Es. split; [|done]. split; [done|].
    intros HU'%unique_names_app. by apply S1 in HU'.
Qed.

Lemma VerifyNoDuplicateName_ok g inits :
  let r := VerifyNoDuplicateName g inits in
  (IsOK r.1 = true ↔ unique_names inits (Nodes g)) ∧ (IsOK r.1 = true → Verified inits (Nodes g) r.2).
Proof.
  apply (verify_nodes_ok inits (Nodes g) []).
  - split; cbn [node_name_to_index output_args].
    + intros name. rewrite lookup_empty. split; [by intros [? ?]|by intros []%not_elem_of_nil].
    + intros name [v Hv]. by rewrite lookup_empty in Hv.
    + intros name i s. rewrite lookup_empty. split; [done|]. by intros (? & ? & ? & []%not_elem_of_nil & _).
  - split_and!; [constructor|constructor|by intros ? []%not_elem_of_nil].
Qed.

(** ** Connections *)

(** The edge [e] into a node comes from one of the first [m] inputs. *)
Definition flows (c : ResolveContext) (n : Node) (m : nat) (e : EdgeEnd) : Prop :=
  ∃ p a, (p < m)%nat ∧ n_input_defs n !! p = Some a ∧ Exists a = true ∧
    output_args c !! na_name a = Some (e_node e, e_src e) ∧ e_dst e = Z.of_nat p.

Definition same_defs (n n' : Node) : Prop :=
  n_name n' = n_name n ∧ n_op_type n' = n_op_type n ∧ n_input_defs n' = n_input_defs n ∧ n_output_defs n' = n_output_defs n.
Definition useless (n : Node) : Prop := n_input_defs n = [] ∧ n_output_defs n = [].

(** Nodes before [k] are connected, of node [k] the first [m] inputs. *)
Record Built (g0 : Graph) (c : ResolveContext) (k m : nat) (g : Graph) : Prop := {
  bu_inv : GraphInv g;
  bu_len : length (nodes_ g) = length (nodes_ g0);
  bu_none : ∀ i, live g0 i = None → live g i = None;
  bu_some : ∀ i n0, live g0 i = Some n0 →
    ((i < k)%nat ∧ useless n0 ∧ live g i = None) ∨
    (∃ n, live g i = Some n ∧ same_defs n0 n ∧ (useless n0 → (k ≤ i)%nat) ∧
       ∀ e, e ∈ n_input_edges n ↔ flows c n0 (if decide (i < k)%nat then length (n_input_defs n0)
                                              else if decide (i = k) then m else 0) e);
}.

Lemma AddEdge_same g s d a b ns nd sa da :
  live g s = Some ns → live g d = Some nd → at_slot (n_output_defs ns) a = Some sa → input_slot nd b = Some da →
  same_arg sa da = true →
  ∃ g', AddEdge g s d a b = Ok g' ∧ length (nodes_ g') = length (nodes_ g) ∧
    (∀ i n', live g' i = Some n' → ∃ n, live g i = Some n ∧ same_defs n n').
Proof.
  intros Hs Hd Ha Hb He. unfold AddEdge. rewrite Hs, Hd, Ha, Hb. cbn [of_option mbind res_bind]. rewrite He.
  cbn [mbind res_bind]. eexists. split; [done|]. split; [simpl; by rewrite !length_alter|].
  intros i n'. rewrite live_dirty, !live_update. repeat case_decide; intros Hn';
    repeat (apply fmap_Some in Hn' as (? & Hn' & ->)); eexists; (split; [exact Hn'|done]).
Qed.

Lemma flows_S c n m e :
  flows c n (S m) e ↔ flows c n m e ∨ ∃ a, n_input_defs n !! m = Some a ∧ Exists a = true ∧
    output_args c !! na_name a = Some (e_node e, e_src e) ∧ e_dst e = Z.of_nat m.
Proof.
  split.
  - intros (p & a & Hp & H). destruct (decide (p = m)) as [->|]; [right; eauto|]. left. exists p, a. split; [lia|done].
  - intros [(p & a & Hp & H)|(a & H)]; [exists p, a; split; [lia|done]|]. exists m, a. split; [lia|done].
Qed.

Section build.
Context (g0 : Graph) (c : ResolveContext) (inits : gset string).
Context (HV : Verified inits (Nodes g0) c).

(** One input: a new edge, or nothing. *)
Lemma connect_input_ok outer k n0 m a g consumed :
  Built g0 c k m g → live g0 k = Some n0 → n_input_defs n0 !! m = Some a →
  ∃ g' consumed', connect_input c outer k (g, consumed) (m, a) = Ok (g', consumed') ∧ Built g0 c k (S m) g' ∧
    (outer = ∅ → consumed' = consumed).
Proof.
  intros HB Hn0 Ha. unfold connect_input. cbn [fst snd].
  assert (Hnoedge : (∀ x, output_args c !! na_name a = Some x → Exists a = false) → Built g0 c k (S m) g).
  { intros Hno. destruct HB as [B1 B2 B3 B4]. split; [done..|]. intros i n Hi. destruct (B4 i n Hi) as [?|(n' & ? & ? & ? & He)]; [auto|].
    right. exists n'. split_and!; [done..|]. intros e. rewrite He. destruct (decide (i < k)%nat); [done|].
    destruct (decide (i = k)) as [->|]; [|done]. rewrite flows_S. split; [auto|]. intros [?|(a' & Ha' & He' & Ho & _)]; [done|].
    simplify_eq. by rewrite (Hno _ Ho) in He'. }
  destruct (Exists a) eqn:Ea; cbn [negb].
  2:{ exists g, consumed. split_and!; [done| |done]. apply Hnoedge. done. }
  destruct (output_args c !! na_name a) as [[j slot]|] eqn:Eo.
  2:{ eexists _, _. split; [done|]. split; [by apply Hnoedge|]. intros ->. by rewrite bool_decide_false by set_solver. }
  clear Hnoedge. pose proof HB as [B1 B2 B3 B4].
  apply (vf_outputs _ _ _ HV) in Eo as Hout. destruct Hout as (nj & s & b & Hj%elem_of_Nodes & Hs & Hbe & Hbn & ->).
  destruct (B4 j nj Hj) as [(_ & [_ Hu] & _)|(nj' & Hj' & (_ & _ & _ & Hdj) & _)].
  { rewrite Hu in Hs. by rewrite lookup_nil in Hs. }
  destruct (B4 k n0 Hn0) as [(? & _)|(nk & Hk & (_ & _ & Hdk & _) & _ & Hek)]; [lia|].
  destruct (AddEdge_same g j k (Z.of_nat s) (Z.of_nat m) nj' nk b a) as (g' & Eadd & Hlen & Hdefs); [done|done| | |by apply String.eqb_eq|].
  { unfold at_slot. destruct (Z.ltb_spec (Z.of_nat s) 0); [lia|]. by rewrite Nat2Z.id, Hdj. }
  { unfold input_slot, at_slot. destruct (Z.ltb_spec (Z.of_nat m) 0); [lia|]. by rewrite Nat2Z.id, Hdk, Ha. }
  rewrite Eadd. cbn [mbind res_bind]. exists g', consumed. split_and!; [done| |done].
  pose proof (AddEdge_inv _ _ _ _ _ _ B1 Eadd) as HI'. apply AddEdge_step in Eadd as (_ & _ & HS).
  split; [done|congruence| |].
  - intros i Hi. by apply (es_none _ _ _ _ HS), B3.
  - intros i n Hi. destruct (B4 i n Hi) as [(? & ? & ?)|(n1 & Hn1 & Hsd & Hle & He)].
    { left. split_and!; [done..|]. by apply (es_none _ _ _ _ HS). }
    right. destruct (es_some _ _ _ _ HS i n1 Hn1) as (n2 & Hn2 & Ei & _). exists n2.
    destruct (Hdefs i n2 Hn2) as (n1' & Hn1' & Hsd'). simplify_eq. split_and!; [done| |done|].
    { destruct Hsd as (? & ? & ? & ?), Hsd' as (? & ? & ? & ?). split_and!; congruence. }
    intros e. rewrite Ei. unfold on. destruct (decide (i = k)) as [->|Hne].
    + rewrite elem_of_edge_insert, He. destruct (decide (k < k)%nat); [lia|]. rewrite flows_S.
      split; [|intros [?|(a' & Ha' & _ & Ho & Hd)]; [auto|]].
      * intros [->|?]; [right|auto]. exists a. by rewrite Hn0 in Hi; simplify_eq.
      * left. rewrite Hn0 in Hi. simplify_eq. destruct e. simpl in *. congruence.
    + rewrite He. destruct (decide (i < k)%nat); [done|]. done.
Qed.

Lemma connect_inputs_ok outer k n0 l m g consumed :
  Built g0 c k m g → live g0 k = Some n0 → drop m (n_input_defs n0) = l →
  ∃ g' consumed', foldM (connect_input c outer k) (g, consumed) (imap (fun i a => (m + i, a)%nat) l) = Ok (g', consumed') ∧
    Built g0 c k (m + length l) g' ∧ (outer = ∅ → consumed' = consumed).
Proof.
  intros HB Hn0. revert m g consumed HB. induction l as [|a l IH]; intros m g consumed HB Hl.
  { exists g, consumed. rewrite Nat.add_0_r. done. }
  rewrite imap_cons. cbn [foldM]. rewrite Nat.add_0_r.
  assert (Ha : n_input_defs n0 !! m = Some a).
  { rewrite <- (take_drop m (n_input_defs n0)), Hl. apply (f_equal length) in Hl. rewrite length_drop in Hl. simpl in Hl.
    rewrite lookup_app_r; rewrite length_take; [|lia]. by replace (m - _)%nat with 0%nat by lia. }
  destruct (connect_input_ok outer k n0 m a g consumed HB Hn0 Ha) as (g1 & c1 & E1 & HB1 & Hc1). rewrite E1. cbn [mbind res_bind].
  destruct (IH (S m) g1 c1 HB1) as (g2 & c2 & E2 & HB2 & Hc2).
  { rewrite (drop_S _ _ _ Ha) in Hl. by injection Hl. }
  exists g2, c2. split_and!.
  - rewrite <- E2. f_equal. apply imap_ext. intros i x _. simpl. f_equal. lia.
  - simpl. by replace (m + S (length l))%nat with (S m + length l)%nat by lia.
  - intros Ho. by rewrite (Hc2 Ho), (Hc1 Ho).
Qed.

(** Another node than the current one, seen from the next step. *)
Lemma built_other k i n g :
  Built g0 c k 0 g → i ≠ k → live g0 i = Some n →
  ((i < S k)%nat ∧ useless n ∧ live g i = None) ∨
  (∃ n', live g i = Some n' ∧ same_defs n n' ∧ (useless n → (S k ≤ i)%nat) ∧
     ∀ e, e ∈ n_input_edges n' ↔ flows c n (if decide (i < S k)%nat then length (n_input_defs n)
                                            else if decide (i = S k) then 0%nat else 0) e).
Proof.
  intros [B1 B2 B3 B4] Hne Hi. destruct (B4 i n Hi) as [(? & ? & ?)|(n' & Hn' & Hsd & Hle & He)].
  { left. split_and!; [lia|done..]. }
  right. exists n'. split_and!; [done|done|intros ?%Hle; lia|]. intros e. rewrite He.
  destruct (decide (i < k)%nat), (decide (i < S k)%nat); try lia; [done|].
  rewrite (decide_False (P := i = k)) by done. by destruct (decide (i = S k)).
Qed.

Lemma built_next k m g :
  Built g0 c k m g → (∀ n0, live g0 k = Some n0 → m = length (n_input_defs n0) ∧ (useless n0 → live g k = None)) →
  Built g0 c (S k) 0 g.
Proof.
  intros [B1 B2 B3 B4] Hk. split; [done..|]. intros i n Hi. destruct (B4 i n Hi) as [(? & ? & ?)|(n' & Hn' & Hsd & Hle & He)].
  { left. split_and!; [lia|done..]. }
  destruct (decide (i = k)) as [->|Hne].
  - destruct (Hk n Hi) as [-> Hu]. right. exists n'. split_and!; [done|done|intros Hus%Hu; congruence|].
    intros e. rewrite He. destruct (decide (k < k)%nat); [lia|]. by rewrite (decide_True (P := (k < S k)%nat)) by lia.
  - right. exists n'. split_and!; [done|done|intros ?%Hle; lia|]. intros e. rewrite He.
    destruct (decide (i < k)%nat), (decide (i < S k)%nat); try lia; [done|]. by destruct (decide (i = S k)).
Qed.

Lemma connect_node_ok outer k g consumed :
  Built g0 c k 0 g →
  ∃ g' consumed', connect_node c outer (g, consumed) k = Ok (g', consumed') ∧ Built g0 c (S k) 0 g' ∧
    (outer = ∅ → consumed' = consumed).
Proof.
  intros HB. pose proof HB as [B1 B2 B3 B4]. unfold connect_node. destruct (live g k) as [nk|] eqn:Ek.
  2:{ exists g, consumed. split_and!; [done| |done]. apply (built_next k 0); [done|]. intros n0 Hn0.
      destruct (B4 k n0 Hn0) as [(? & _)|(n & Hn & _)]; [lia|congruence]. }
  destruct (live g0 k) as [n0|] eqn:En0; [|by rewrite B3 in Ek].
  destruct (B4 k n0 En0) as [(? & _)|(n & Hn & (_ & _ & Hdi & Hdo) & _ & He)]; [lia|].
  assert (nk = n) as -> by congruence. clear Ek. destruct (decide (k < k)%nat); [lia|]. rewrite decide_True in He by done.
  assert (Hnil : n_input_edges n = []).
  { apply elem_of_nil_inv. intros e (p & a & ? & _)%He. lia. }
  rewrite Hdi, Hdo. destruct (Nat.ltb_spec 0 (length (n_input_defs n0))) as [Hlt|Hge].
  - destruct (connect_inputs_ok outer k n0 (n_input_defs n0) 0 g consumed HB En0 eq_refl) as (g' & c' & E & HB' & Hc).
    exists g', c'. split; [exact E|]. split; [|done]. apply (built_next k (0 + length (n_input_defs n0))); [done|].
    intros n' Hn'. simplify_eq. split; [done|]. intros [Hu _]. rewrite Hu in Hlt. simpl in Hlt. lia.
  - assert (Hin : n_input_defs n0 = []) by (destruct (n_input_defs n0); [done|simpl in Hge; lia]).
    destruct (Nat.leb_spec (length (n_output_defs n0)) 0) as [Hle|Hgt].
    + assert (Hout : n_output_defs n0 = []) by (destruct (n_output_defs n0); [done|simpl in Hle; lia]).
      assert (Honil : n_output_edges n = []).
      { apply elem_of_nil_inv. intros e Hine. destruct (gi_out _ B1 k n e Hn Hine) as (m & Hm & Hmin).
        destruct (live g0 (e_node e)) as [m0|] eqn:Em0; [|by rewrite B3 in Hm].
        destruct (B4 _ _ Em0) as [(_ & _ & ?)|(m' & Hm' & _ & _ & Hem)]; [congruence|].
        assert (m' = m) as -> by congruence. destruct (proj1 (Hem _) Hmin) as (p & a & _ & _ & _ & Ho & _). simpl in Ho.
        apply (vf_outputs _ _ _ HV) in Ho as (nk & s & b & Hk%elem_of_Nodes & Hs & _).
        assert (nk = n0) as -> by congruence. by rewrite Hout, lookup_nil in Hs. }
      destruct (release_inv g k n B1 Hn Hnil Honil) as (g' & Er & HI' & Hnone & Hsame).
      unfold RemoveNode, GetNode. apply live_nodes in Hn as Hn'. rewrite Hn'. cbn [of_option mbind res_bind].
      rewrite Hnil. cbn [foldM mbind res_bind]. rewrite Er. cbn [mbind res_bind].
      exists g', consumed. split_and!; [done| |done]. split; [done| | |].
      * rewrite <- B2. unfold ReleaseNode in Er. destruct (_ <=? _)%nat; [done|]. rewrite Hn in Er. injection Er as <-.
        simpl. by rewrite length_insert.
      * intros i Hi. destruct (decide (i = k)) as [->|Hne]; [done|]. rewrite Hsame by done. auto.
      * intros i n' Hi. destruct (decide (i = k)) as [->|Hne]; [left; simplify_eq; split_and!; [lia|done|done]|].
        rewrite Hsame by done. pose proof (built_other k i n' g HB Hne Hi) as Hother. exact Hother.
    + exists g, consumed. split_and!; [done| |done]. apply (built_next k 0); [done|]. intros n' Hn'. simplify_eq.
      rewrite Hin. split; [done|]. intros [_ Hu]. rewrite Hu in Hgt. simpl in Hgt. lia.
Qed.

Lemma build_loop_ok outer l k g consumed :
  l = seq k (length (nodes_ g0) - k) → (k ≤ length (nodes_ g0))%nat → Built g0 c k 0 g →
  ∃ g' consumed', foldM (connect_node c outer) (g, consumed) l = Ok (g', consumed') ∧
    Built g0 c (length (nodes_ g0)) 0 g' ∧ (outer = ∅ → consumed' = consumed).
Proof.
  revert k g consumed. induction l as [|i l IH]; intros k g consumed Hl Hk HB.
  - exists g, consumed. split_and!; [done| |done]. apply (f_equal length) in Hl. rewrite length_seq in Hl. simpl in Hl.
    by replace (length (nodes_ g0)) with k by lia.
  - destruct (length (nodes_ g0) - k)%nat as [|d] eqn:Ed; [done|]. simpl in Hl. injection Hl as -> Hl.
    cbn [foldM]. destruct (connect_node_ok outer k g consumed HB) as (g1 & c1 & -> & HB1 & Hc1). cbn [mbind res_bind].
    destruct (IH (S k) g1 c1) as (g2 & c2 & -> & HB2 & Hc2); [|lia|done|].
    { by replace (length (nodes_ g0) - S k)%nat with d by lia. }
    exists g2, c2. split_and!; [done..|]. intros Ho. by rewrite (Hc2 Ho), (Hc1 Ho).
Qed.

Lemma build_connections_ok outer :
  GraphInv g0 → (∀ i n, live g0 i = Some n → n_input_edges n = []) →
  ∃ g' consumed, build_connections g0 c outer = Ok (g', consumed) ∧ Built g0 c (length (nodes_ g0)) 0 g' ∧
    (outer = ∅ → consumed = []).
Proof.
  intros HI Hno. unfold build_connections. apply (build_loop_ok outer _ 0 g0 []); [by rewrite Nat.sub_0_r|lia|].
  split; [done|done|done|]. intros i n Hi. right. exists n. split_and!; [done|done|lia|]. intros e.
  rewrite (Hno i n Hi), elem_of_nil. split; [done|]. intros (p & a & Hp & _).
  destruct (decide (i < 0)%nat); [lia|]. destruct (decide _); lia.
Qed.
End build.

(** ** The data flow of a graph *)

(** [v] has an input that [u] produces. *)
Definition dataflow (g : Graph) (u v : nat) : Prop :=
  ∃ nu nv name, live g u = Some nu ∧ live g v = Some nv ∧ name ∈ existing (n_output_defs nu) ∧ name ∈ existing (n_input_defs nv).

Lemma tc_impl {A} (R S : relation A) x y : (∀ a b, R a b → S a b) → tc R x y → tc S x y.
Proof. intros HR. induction 1; [apply tc_once; auto|eapply tc_l; eauto]. Qed.

Lemma live_clear g i : live (clear_relationships g) i = clear_node <$> live g i.
Proof.
  unfold clear_relationships. destruct (Nodes g) eqn:E.
  - destruct (live g i) as [n|] eqn:Hn; [|done]. apply elem_of_Nodes in Hn. rewrite E in Hn. by apply not_elem_of_nil in Hn.
  - unfold live. simpl. rewrite list_lookup_fmap. by destruct (nodes_ g !! i) as [[]|].
Qed.
Lemma nodes_clear_aux (l : list (option Node)) (h : nat → nat) :
  omap (fun p : nat * option Node => pair p.1 <$> p.2) (imap (fun i o => (h i, o)) (option_map clear_node <$> l)) =
  (fun p : nat * Node => (p.1, clear_node p.2)) <$>
    omap (fun p : nat * option Node => pair p.1 <$> p.2) (imap (fun i o => (h i, o)) l).
Proof.
  revert h. induction l as [|o l IH]; intros h; [done|]. rewrite fmap_cons, !imap_cons. csimpl. specialize (IH (h ∘ S)).
  destruct o; csimpl; [f_equal|]; exact IH.
Qed.
Lemma Nodes_clear g : Nodes (clear_relationships g) = (fun p => (p.1, clear_node p.2)) <$> Nodes g.
Proof.
  unfold clear_relationships. destruct (Nodes g) eqn:E; [by rewrite E|]. rewrite <- E.
  exact (nodes_clear_aux (nodes_ g) id).
Qed.

Lemma unique_names_clear inits g : unique_names inits (Nodes (clear_relationships g)) ↔ unique_names inits (Nodes g).
Proof.
  assert (E : ∀ l, node_names ((fun p => (p.1, clear_node p.2)) <$> l) = node_names l ∧
    all_outputs ((fun p => (p.1, clear_node p.2)) <$> l) = all_outputs l).
  { intros l. unfold node_names. rewrite <- list_fmap_compose. split; [done|].
    induction l as [|p l IH]; [done|]. unfold all_outputs in *. rewrite fmap_cons, !bind_cons, IH. done. }
  unfold unique_names. rewrite Nodes_clear. by destruct (E (Nodes g)) as [-> ->].
Qed.

Lemma clear_inv g :
  num_of_nodes_ g = Z.of_nat (length (Nodes g)) → GraphInv (clear_relationships g).
Proof.
  intros Hc. assert (Hl : ∀ i n, live (clear_relationships g) i = Some n → n_input_edges n = [] ∧ n_output_edges n = []).
  { intros i n. rewrite live_clear. intros (m & _ & ->)%fmap_Some. done. }
  split.
  - intros a n e [_ Ho]%Hl He. rewrite Ho in He. by apply not_elem_of_nil in He.
  - intros a n e [Hi _]%Hl He. rewrite Hi in He. by apply not_elem_of_nil in He.
  - intros a n [-> ->]%Hl. split; constructor.
  - rewrite Nodes_clear, length_fmap, <- Hc. unfold clear_relationships. by destruct (Nodes g).
Qed.

(** The edges that were built are the data flow. *)
Lemma built_edges g inits c g' :
  Verified inits (Nodes (clear_relationships g)) c →
  Built (clear_relationships g) c (length (nodes_ (clear_relationships g))) 0 g' →
  (∀ u v, edge g' u v ↔ dataflow g u v) ∧ (∀ v, is_Some (live g' v) ↔ ∃ n, live g v = Some n ∧ ¬ useless n).
Proof.
  intros HV [B1 B2 B3 B4].
  assert (Hcl : ∀ v n, live g v = Some n → live (clear_relationships g) v = Some (clear_node n)).
  { intros v n Hn. by rewrite live_clear, Hn. }
  assert (Hback : ∀ v n', live g' v = Some n' → ∃ n, live g v = Some n ∧ ¬ useless n ∧
    ∀ e, e ∈ n_input_edges n' ↔ flows c n (length (n_input_defs n)) e).
  { intros v n' Hn'. destruct (live g v) as [n|] eqn:E; [|rewrite B3 in Hn'; [done|]; by rewrite live_clear, E].
    specialize (Hcl v n E). pose proof (live_lt _ _ _ Hcl) as Hlt.
    destruct (B4 v _ Hcl) as [(_ & _ & ?)|(n2 & Hn2 & _ & Hle & He)]; [congruence|]. assert (n2 = n') as -> by congruence.
    rewrite decide_True in He by done. exists n. split_and!; [done| |done]. intros Hu%Hle. lia. }
  assert (Hflow : ∀ u n, (∃ e, e_node e = u ∧ flows c n (length (n_input_defs n)) e) ↔
    ∃ nu name, live g u = Some nu ∧ name ∈ existing (n_output_defs nu) ∧ name ∈ existing (n_input_defs n)).
  { intros u n. split.
    - intros (e & <- & p & a & Hp & Ha & Ex & Ho & Hd). apply (vf_outputs _ _ _ HV) in Ho as (nu & s & b & Hin & Hs & Hb & Hn & Es).
      apply elem_of_Nodes in Hin. rewrite live_clear in Hin. apply fmap_Some in Hin as (nu' & Hnu & ->).
      exists nu', (na_name a). split_and!; [done| |]; apply elem_of_existing; eauto.
    - intros (nu & name & Hnu & (s & b & Hs & Hb & <-)%elem_of_existing & (p & a & Hp & Ha & Hn)%elem_of_existing).
      exists (mkEdgeEnd u (Z.of_nat s) (Z.of_nat p)). split; [done|]. exists p, a. split_and!; [by eapply lookup_lt_Some|done|done| |done].
      apply (vf_outputs _ _ _ HV). exists (clear_node nu), s, b. split_and!; [apply elem_of_Nodes; auto|done|done|done|done]. }
  split.
  - intros u v. unfold edge, dataflow. split.
    + intros (n' & Hn' & (e & -> & He)%list_elem_of_fmap). destruct (Hback v n' Hn') as (n & Hn & _ & Hfl).
      apply Hfl in He. destruct (proj1 (Hflow (e_node e) n)) as (nu & name & ? & ? & ?); [eauto|]. exists nu, n, name. by split_and!.
    + intros (nu & nv & name & Hnu & Hnv & Ho & Hi). destruct (proj2 (Hflow u nv)) as (e & <- & He); [eauto|].
      specialize (Hcl v nv Hnv). pose proof (live_lt _ _ _ Hcl) as Hlt.
      destruct (B4 v _ Hcl) as [(_ & [Hu _] & _)|(n' & Hn' & _ & _ & He')].
      { simpl in Hu. rewrite Hu in Hi. by apply not_elem_of_nil in Hi. }
      rewrite decide_True in He' by done. exists n'. split; [done|]. apply list_elem_of_fmap. exists e. split; [done|].
      by apply He'.
  - intros v. split.
    + intros [n' Hn']. destruct (Hback v n' Hn') as (n & ? & ? & _). eauto.
    + intros (n & Hn & Hu). destruct (B4 v _ (Hcl v n Hn)) as [(_ & Hu' & _)|(n' & Hn' & _)]; [|eauto]. by destruct Hu.
Qed.

Lemma built_no_constants g c k g' :
  NoConstants g → Built (clear_relationships g) c k 0 g' → NoConstants g'.
Proof.
  intros Hc [B1 B2 B3 B4] i n' Hn'. destruct (live (clear_relationships g) i) as [n0|] eqn:E; [|by rewrite B3 in Hn'].
  destruct (B4 i n0 E) as [(_ & _ & ?)|(n & Hn & (_ & Hop & _) & _)]; [congruence|]. assert (n = n') as -> by congruence.
  rewrite Hop. rewrite live_clear in E. apply fmap_Some in E as (m & Hm & ->). exact (Hc i m Hm).
Qed.

Lemma VerifyInputs_ok inputs initializers :
  let r := VerifyInputAndInitializerNames inputs initializers in
  (IsOK r.1 = true ↔ NoDup inputs) ∧ (IsOK r.1 = true → r.2 = list_to_set (inputs ++ initializers)).
Proof.
  unfold VerifyInputAndInitializerNames.
  assert (H : ∀ l pre (m : gset string), m = list_to_set pre → NoDup pre →
    (IsOK (foldl verify_input (StatusOK, m) l).1 = true ↔ NoDup (pre ++ l)) ∧
    (IsOK (foldl verify_input (StatusOK, m) l).1 = true → (foldl verify_input (StatusOK, m) l).2 = list_to_set (pre ++ l))).
  { induction l as [|x l IH]; intros pre m Hm Hnd; [simpl; by rewrite app_nil_r|]. cbn [foldl].
    assert (Eapp : pre ++ x :: l = (pre ++ [x]) ++ l) by (by rewrite <- app_assoc).
    pose proof (eq_refl (verify_input (StatusOK, m) x)) as Hstep. unfold verify_input in Hstep at 2.
    cbn [fst snd IsOK StatusOK negb] in Hstep. rewrite Hstep. clear Hstep. case_bool_decide as Hx.
    - assert (Hf : ∀ l0 m0, foldl verify_input (Some FAIL, m0) l0 = (Some FAIL, m0)) by (intros l0; induction l0 as [|y l0 IH0]; intros m0; [done|]; exact (IH0 m0)).
      rewrite Hf. simpl. split; [|done]. split; [done|]. rewrite Eapp. intros ((_ & Hd & _)%NoDup_app & _)%NoDup_app.
      exfalso. apply (Hd x); [set_solver|by left].
    - rewrite Eapp. apply IH; [set_solver|]. apply NoDup_app. split_and!; [done| |apply NoDup_singleton]. set_solver. }
  destruct (H inputs [] ∅ eq_refl NoDup_nil_2) as [H1 H2]. simpl in H1, H2.
  destruct (foldl verify_input (StatusOK, ∅) inputs) as [s m]. cbn [fst snd] in H1, H2 |- *.
  destruct (IsOK s) eqn:Es; cbn [fst snd].
  - split; [done|]. intros _. rewrite (H2 eq_refl). set_solver.
  - rewrite Es. done.
Qed.

(** C6. The structural part of [Resolve] on a graph without subgraphs and
    without [Constant] nodes never throws ([constant_input_misordered] shows
    what a [Constant] node does to the order).  It succeeds exactly if the graph inputs are distinct, node names and output
    names are unique and the data flow has no cycle; then the edges are the
    data flow and the order lists the nodes that have inputs or outputs, each
    after the producers of its inputs. *)
Theorem resolve_structure_correct g inputs initializers :
  num_of_nodes_ g = Z.of_nat (length (Nodes g)) → NoConstants g →
  ∃ s g' order, resolve_structure g inputs initializers = Ok (s, g', order) ∧
    (IsOK s = true ↔ NoDup inputs ∧ unique_names (list_to_set (inputs ++ initializers)) (Nodes g) ∧
       ∀ v, ¬ tc (dataflow g) v v) ∧
    (IsOK s = true → (∀ u v, edge g' u v ↔ dataflow g u v) ∧ NoDup order ∧
       (∀ v, v ∈ order ↔ ∃ n, live g v = Some n ∧ ¬ useless n) ∧
       ∀ l1 v l2 u, order = l1 ++ v :: l2 → dataflow g u v → u ∈ l1).
Proof.
  intros Hcount Hconst. unfold resolve_structure.
  destruct (VerifyInputs_ok inputs initializers) as [I1 I2]. cbn zeta in I1, I2.
  destruct (VerifyInputAndInitializerNames inputs initializers) as [si names]. cbn [fst snd] in I1, I2.
  destruct (IsOK si) eqn:Esi; cbn [negb].
  2:{ eexists _, _, _. split; [done|]. rewrite Esi. split; [|done]. split; [done|]. intros (Hnd & _). by apply I1 in Hnd. }
  rewrite (I2 eq_refl) in *. destruct (VerifyNoDuplicateName_ok (clear_relationships g) (list_to_set (inputs ++ initializers))) as [V1 V2].
  cbn zeta in V1, V2. destruct (VerifyNoDuplicateName _ _) as [sv c]. cbn [fst snd] in V1, V2. rewrite unique_names_clear in V1.
  destruct (IsOK sv) eqn:Esv; cbn [negb].
  2:{ eexists _, _, _. split; [done|]. rewrite Esv. split; [|done]. split; [done|]. intros (_ & Hu & _). by apply V1 in Hu. }
  pose proof (clear_inv g Hcount) as HI.
  destruct (build_connections_ok _ c _ (V2 eq_refl) ∅ HI) as (g' & consumed & -> & HB & Hcons).
  { intros i n. rewrite live_clear. by intros (m & _ & ->)%fmap_Some. }
  rewrite (Hcons eq_refl). cbn [mbind res_bind]. rewrite bool_decide_true by done. cbn [enforce mbind res_bind].
  destruct (built_edges g _ c g' (V2 eq_refl) HB) as [Hedge Hlive].
  destruct (PerformTopologicalSort_ok g') as (s & order & -> & Htop & Hac); [apply HB|by eapply built_no_constants|].
  cbn [mbind res_bind]. eexists _, _, _. split; [done|].
  assert (Hcyc : Acyclic g' ↔ ∀ v, ¬ tc (dataflow g) v v).
  { unfold Acyclic. apply forall_proper. intros v. apply not_iff_compat.
    split; apply tc_impl; intros ? ?; apply Hedge. }
  split.
  - split.
    + intros Hok. split_and!; [tauto|tauto|]. apply Hcyc. eapply topological_acyclic; [apply HB|by apply Htop].
    + intros (_ & _ & ?%Hcyc). auto.
  - intros Hok. specialize (Htop Hok) as [T1 T2 T3]. split_and!; [done|done| |].
    + intros v. by rewrite T2, Hlive.
    + intros l1 v l2 u E Hd%Hedge. by eapply T3.
Qed.
