(* ===== verification/GraphProps.v ===== *)
(** The theorems about graphs: the order of [GraphViewer] and of the
    topological sort, the consistency of edges under every operation, and
    generated names. *)
From stdpp Require Import pretty.
From S2P Require Import Prelude Graph GraphInv GraphTopo GraphDfs GraphResolve.

(** ** The operations of a graph *)

Inductive graph_step : Graph → Graph → Prop :=
  | step_AddNode g name op ins outs i g' : AddNode g name op ins outs = Ok (i, g') → graph_step g g'
  | step_AddEdge g s d a b g' : AddEdge g s d a b = Ok g' → graph_step g g'
  | step_RemoveEdge g s d a b g' : RemoveEdge g s d a b = Ok g' → graph_step g g'
  | step_AddControlEdge g s d : graph_step g (AddControlEdge g s d).2
  | step_RemoveNode g i n b g' : live g i = Some n → n_output_edges n = [] → RemoveNode g i = Ok (b, g') → graph_step g g'
  | step_fuse g i g' : fuse_remove g i = Ok g' → graph_step g g'
  | step_arg_name g base name g' : GenerateNodeArgName g base = Ok (name, g') → graph_step g g'
  | step_node_name g base name g' : GenerateNodeName g base = Ok (name, g') → graph_step g g'
  | step_resolve g ins inits s g' order : resolve_structure g ins inits = Ok (s, g', order) → graph_step g g'.

Lemma new_graph_inv : GraphInv new_Graph.
Proof. by split; [intros a n e|intros a n e|intros a n|]. Qed.

Lemma resolve_inv g ins inits s g' order :
  GraphInv g → resolve_structure g ins inits = Ok (s, g', order) → GraphInv g'.
Proof.
  intros HI. pose proof (clear_inv g (gi_count _ HI)) as HC. unfold resolve_structure.
  destruct (VerifyInputAndInitializerNames ins inits) as [si names].
  destruct (IsOK si); cbn [negb]; [|by intros [= _ <- _]].
  destruct (VerifyNoDuplicateName_ok (clear_relationships g) names) as [_ V2]. cbn zeta in V2.
  destruct (VerifyNoDuplicateName _ _) as [sv c]. cbn [fst snd] in V2.
  destruct (IsOK sv); cbn [negb]; [|by intros [= _ <- _]].
  destruct (build_connections_ok _ c _ (V2 eq_refl) ∅ HC) as (g1 & consumed & -> & HB & _).
  { intros i n. rewrite live_clear. by intros (m & _ & ->)%fmap_Some. }
  cbn [mbind res_bind]. intros (u & _ & ([s1 o1] & _ & [= _ <- _])%bind_Ok)%bind_Ok. apply HB.
Qed.

Lemma graph_step_inv g g' : GraphInv g → graph_step g g' → GraphInv g'.
Proof.
  intros HI Hs. destruct Hs as [g name op ins outs i g' H|g s d a b g' H|g s d a b g' H|g s d|g i n b g' Hn Ho H|g i g' H
    |g base name g' H|g base name g' H|g ins inits s g' order H].
  - by eapply AddNode_inv.
  - by eapply AddEdge_inv.
  - by eapply RemoveEdge_inv.
  - by apply AddControlEdge_inv.
  - destruct (RemoveNode_inv g i n b g' HI Hn Ho H) as (_ & ? & _). done.
  - by eapply fuse_remove_inv.
  - apply bind_Ok in H as ([nm k] & _ & [= _ <-]). by apply (inv_same g).
  - apply bind_Ok in H as ([nm k] & _ & [= _ <-]). by apply (inv_same g).
  - by eapply resolve_inv.
Qed.

(** Whatever operations built a graph from the empty one, with nodes removed
    only after their output edges: an output edge of a node is an input edge
    of a node that still exists, and conversely, and the counter counts the
    nodes. *)
Theorem graph_edges_consistent g :
  rtc graph_step new_Graph g → GraphInv g.
Proof.
  pose proof new_graph_inv as H0. revert H0. generalize new_Graph. intros g0 H0 Hr. induction Hr as [|g0 g1 g Hs Hr IH]; [done|].
  apply IH. by eapply graph_step_inv.
Qed.

(** ** Orders *)

(** C26. The topological sort terminates on every graph with consistent edges (it
    never runs out of the fuel that one pop per edge and node needs) and
    without [Constant] nodes; it returns OK exactly if the graph is acyclic,
    and the order then lists every node once, after its inputs. *)
Theorem topological_sort_correct g :
  GraphInv g → NoConstants g →
  ∃ s order, PerformTopologicalSortAndCheckIsAcyclic g = Ok (s, order) ∧
    (IsOK s = true ↔ Acyclic g) ∧ (IsOK s = true → Topological g order).
Proof.
  intros HI Hc. destruct (PerformTopologicalSort_ok g HI Hc) as (s & order & E & H1 & H2).
  exists s, order. split_and!; [done| |done]. split; [|done]. intros Hok. by eapply topological_acyclic, H1.
Qed.

(** The order of [GraphViewer], which the planner and the executor follow, is a
    topological order of every acyclic graph, and its root nodes are the nodes
    without inputs. *)
Theorem graph_viewer_order g :
  GraphInv g → Acyclic g →
  ∃ v, new_GraphViewer g = Ok v ∧ Topological g (nodes_in_topological_order_ v) ∧
    (∀ r, r ∈ root_nodes_ v ↔ is_Some (live g r) ∧ ∀ u, ¬ edge g u r).
Proof. intros HI HA. by apply new_GraphViewer_ok. Qed.

(** The search of [ReverseDFSFrom] leaves exactly the nodes upstream of its
    starting points, each once and after its inputs, whatever the comparison. *)
Theorem reverse_dfs_upstream g from comp :
  GraphInv g → Acyclic g → (∀ f, f ∈ from → is_Some (live g f)) →
  ∃ trace, ReverseDFSFrom g from false true comp = Ok trace ∧ NoDup (leaves trace) ∧
    (∀ v, v ∈ leaves trace ↔ ∃ f, f ∈ from ∧ rtc (edge g) v f) ∧
    (∀ l1 v l2 u, leaves trace = l1 ++ v :: l2 → edge g u v → u ∈ l1).
Proof. intros HI HA Hf. by apply ReverseDFSFrom_ok. Qed.

(** ** Generated names *)

Lemma generated_name_inj base k k' : generated_name base k = generated_name base k' → k = k'.
Proof.
  unfold generated_name. intros H. apply (inj (String.append base)) in H. apply (inj (String.append "_")) in H.
  by apply (inj pretty) in H.
Qed.

(** The loop ends when it has tried more names than are in use. *)
Lemma generate_ok (names tried : list string) fuel used base k :
  (∀ n, used n = true → n ∈ names) → NoDup tried →
  (∀ n, n ∈ tried → n ∈ names ∧ ∃ j, j < k ∧ n = generated_name base j) → (length names < length tried + fuel)%nat →
  ∃ k', generate fuel used base k = Ok (generated_name base k', k' + 1) ∧ k ≤ k' ∧
    used (generated_name base k') = false ∧ ∀ j, k ≤ j < k' → used (generated_name base j) = true.
Proof.
  revert tried k. induction fuel as [|fuel IH]; intros tried k Hu Hnd Ht Hl.
  { exfalso. assert (Hs : tried ⊆+ names) by (apply NoDup_submseteq; [done|]; intros n ?%Ht; tauto).
    apply submseteq_length in Hs. lia. }
  cbn [generate]. destruct (used (generated_name base k)) eqn:E; [|exists k; split_and!; [done|lia|done|lia]].
  destruct (IH (generated_name base k :: tried) (k + 1)) as (k' & -> & Hk & Hf & Hj).
  - done.
  - apply NoDup_cons. split; [|done]. intros (_ & j & Hlt & Ej%generated_name_inj)%Ht. lia.
  - intros n [->|Hn]%elem_of_cons; [split; [auto|]; exists k; split; [lia|done]|].
    destruct (Ht n Hn) as (? & j & ? & ?). split; [done|]. exists j. split; [lia|done].
  - simpl. lia.
  - exists k'. split_and!; [done|lia|done|]. intros j Hjk. destruct (decide (j = k)) as [->|]; [done|]. apply Hj. lia.
Qed.

(** [GenerateNodeArgName] and [GenerateNodeName] return: the name is new in the
    graph, and it is the first one of the series from the counter on that is. *)
Theorem generated_names_fresh g base :
  (∃ k, GenerateNodeArgName g base = Ok (generated_name base k, set_generator (k + 1) g) ∧
     name_generator_ g ≤ k ∧ GetNodeArg g (generated_name base k) = None ∧
     ∀ j, name_generator_ g ≤ j < k → is_Some (GetNodeArg g (generated_name base j))) ∧
  (∃ k, GenerateNodeName g base = Ok (generated_name base k, set_generator (k + 1) g) ∧
     name_generator_ g ≤ k ∧ (∀ i n, live g i = Some n → n_name n ≠ generated_name base k) ∧
     ∀ j, name_generator_ g ≤ j < k → ∃ i n, live g i = Some n ∧ n_name n = generated_name base j).
Proof.
  split.
  - destruct (generate_ok (elements (dom (node_args_ g))) [] (S (size (node_args_ g)))
      (fun n => bool_decide (is_Some (node_args_ g !! n))) base (name_generator_ g)) as (k & E & Hk & Hf & Hj).
    + intros n Hn%bool_decide_eq_true. by apply elem_of_elements, elem_of_dom.
    + constructor.
    + by intros n []%not_elem_of_nil.
    + simpl. rewrite <- size_dom. unfold size, set_size. simpl. lia.
    + exists k. unfold GenerateNodeArgName. rewrite E. split_and!; [done|done| |].
      * apply bool_decide_eq_false in Hf. by apply eq_None_not_Some.
      * intros j Hjk. by apply Hj, bool_decide_eq_true in Hjk.
  - assert (Hused : ∀ n, node_name_used g n = true ↔ ∃ i m, live g i = Some m ∧ n_name m = n).
    { intros n. unfold node_name_used. rewrite existsb_exists. split.
      - intros ([m|] & Hin & Em); [|done]. apply list_elem_of_In, list_elem_of_lookup in Hin as [i Hi].
        exists i, m. split; [by apply live_nodes|by apply String.eqb_eq].
      - intros (i & m & Hm%live_nodes & <-). exists (Some m). split; [|apply String.eqb_refl].
        apply list_elem_of_In. by eapply list_elem_of_lookup_2. }
    destruct (generate_ok ((fun p => n_name p.2) <$> Nodes g) [] (S (length (nodes_ g))) (node_name_used g) base
      (name_generator_ g)) as (k & E & Hk & Hf & Hj).
    + intros n (i & m & Hm & <-)%Hused. apply list_elem_of_fmap. exists (i, m). split; [done|]. by apply elem_of_Nodes.
    + constructor.
    + by intros n []%not_elem_of_nil.
    + rewrite length_fmap, <- (length_fmap fst (Nodes g)). fold (indices g).
      pose proof (sublist_length _ _ (indices_seq g)) as Hlen. rewrite length_seq in Hlen. simpl. lia.
    + exists k. unfold GenerateNodeName. rewrite E. split_and!; [done|done| |].
      * intros i n Hn Hname. apply not_true_iff_false in Hf. apply Hf, Hused. eauto.
      * intros j Hjk. by apply Hused, Hj.
Qed.

(** ** Concrete graphs *)

Module GraphExample.
Definition arg (s : string) : NodeArg := mkArg s (Some "tensor(float)").
Definition add (g : Graph) (d : string * string * list string * list string) : res Graph :=
  let '(name, op, ins, outs) := d in
  '(_, g) ← AddNode g name op (arg <$> ins) (arg <$> outs); Ok g.
Definition build (l : list (string * string * list string * list string)) : res Graph := foldM add new_Graph l.
Definition get (r : res Graph) : Graph := match r with Ok g => g | _ => new_Graph end.

(** A diamond whose nodes were not added in the order of the data flow. *)
Definition nodes : list (string * string * list string * list string) :=
  [("join", "Add", ["B"; "C"], ["D"]); ("left", "Abs", ["A"], ["B"]); ("right", "Neg", ["A"], ["C"]);
   ("first", "Relu", ["X"], ["A"]); ("useless", "NoOp", [], [])].
Definition diamond : Graph := get (build nodes).
Definition outcome (r : res (Status * Graph * list nat)) : option (Status * list nat) :=
  match r with Ok (s, _, order) => Some (s, order) | _ => None end.

Lemma diamond_reachable : rtc graph_step new_Graph diamond.
Proof.
  unfold diamond. assert (H : ∀ l g g', foldM add g l = Ok g' → rtc graph_step g g').
  { induction l as [|[[[name op] ins] outs] l IH]; intros g g'; cbn [foldM]; [intros [= <-]; apply rtc_refl|].
    intros (g1 & ([i g2] & H1 & [= <-])%bind_Ok & H2)%bind_Ok. eapply rtc_l; [by eapply step_AddNode|auto]. }
  destruct (build nodes) as [g| |] eqn:E; [|apply rtc_refl..]. by apply (H nodes).
Qed.

Lemma no_constants g : forallb (fun p => negb (String.eqb (n_op_type p.2) kConstant)) (Nodes g) = true → NoConstants g.
Proof.
  intros H i n Hn%elem_of_Nodes. rewrite forallb_forall in H. apply list_elem_of_In in Hn. apply H in Hn. simpl in Hn.
  by apply negb_true_iff, String.eqb_neq in Hn.
Qed.

Definition resolved : Graph :=
  match resolve_structure diamond ["X"] [] with Ok (_, g, _) => g | _ => new_Graph end.

Lemma resolved_inv : GraphInv resolved.
Proof.
  unfold resolved. assert (HI : GraphInv diamond).
  { unfold diamond. assert (H : ∀ l g g', GraphInv g → foldM add g l = Ok g' → GraphInv g').
    { induction l as [|[[[name op] ins] outs] l IH]; intros g g' Hg; cbn [foldM]; [by intros [= <-]|].
      intros (g1 & ([i g2] & H1 & [= <-])%bind_Ok & H2)%bind_Ok. eapply IH; [|done]. by eapply AddNode_inv. }
    pose proof new_graph_inv. destruct (build nodes) as [g| |] eqn:E; [|done..]. by apply (H nodes new_Graph). }
  destruct (resolve_structure diamond ["X"] []) as [[[s g] order]| |] eqn:E.
  - by eapply resolve_inv.
  - apply new_graph_inv.
  - apply new_graph_inv.
Qed.
Lemma resolved_no_constants : NoConstants resolved.
Proof. apply no_constants. by vm_compute. Qed.
Lemma resolved_acyclic : Acyclic resolved.
Proof.
  destruct (PerformTopologicalSort_ok resolved resolved_inv resolved_no_constants) as (s & order & E & H & _).
  eapply topological_acyclic; [apply resolved_inv|]. apply H.
  assert (Hs : match PerformTopologicalSortAndCheckIsAcyclic resolved with Ok (s, _) => IsOK s | _ => false end = true)
    by (vm_compute; reflexivity).
  by rewrite E in Hs.
Qed.
End GraphExample.

Lemma topological_sort_correct_witness :
  GraphInv GraphExample.resolved ∧ NoConstants GraphExample.resolved ∧
  ∃ order, PerformTopologicalSortAndCheckIsAcyclic GraphExample.resolved = Ok (StatusOK, order) ∧
    Topological GraphExample.resolved order ∧ order = [3; 2; 1; 0]%nat.
Proof.
  split; [apply GraphExample.resolved_inv|]. split; [apply GraphExample.resolved_no_constants|].
  destruct (topological_sort_correct GraphExample.resolved GraphExample.resolved_inv GraphExample.resolved_no_constants)
    as (s & order & E & _ & H).
  assert (Hs : PerformTopologicalSortAndCheckIsAcyclic GraphExample.resolved = Ok (StatusOK, [3; 2; 1; 0]%nat))
    by (vm_compute; reflexivity).
  rewrite E in Hs. injection Hs as -> ->. exists [3; 2; 1; 0]%nat. split; [exact E|]. split; [apply H; reflexivity|reflexivity].
Defined.

Lemma graph_viewer_order_witness :
  GraphInv GraphExample.resolved ∧ Acyclic GraphExample.resolved ∧
  ∃ v, new_GraphViewer GraphExample.resolved = Ok v ∧ Topological GraphExample.resolved (nodes_in_topological_order_ v) ∧
    nodes_in_topological_order_ v = [3; 2; 1; 0]%nat ∧ root_nodes_ v = [3]%nat.
Proof.
  split; [apply GraphExample.resolved_inv|]. split; [apply GraphExample.resolved_acyclic|].
  destruct (graph_viewer_order GraphExample.resolved GraphExample.resolved_inv GraphExample.resolved_acyclic)
    as (v & E & H & _).
  assert (Hs : new_GraphViewer GraphExample.resolved = Ok (mkViewer [3; 2; 1; 0]%nat [3]%nat)) by (vm_compute; reflexivity).
  exists v. split; [exact E|]. split; [exact H|]. rewrite E in Hs. injection Hs as Hv. rewrite Hv. split; reflexivity.
Defined.

Lemma reverse_dfs_upstream_witness :
  GraphInv GraphExample.resolved ∧ Acyclic GraphExample.resolved ∧
  ∃ trace, ReverseDFSFrom GraphExample.resolved [1%nat] false true None = Ok trace ∧ leaves trace = [3; 1]%nat ∧
    ∃ f, f ∈ [1%nat] ∧ rtc (edge GraphExample.resolved) 3%nat f.
Proof.
  split; [apply GraphExample.resolved_inv|]. split; [apply GraphExample.resolved_acyclic|].
  destruct (reverse_dfs_upstream GraphExample.resolved [1%nat] None GraphExample.resolved_inv GraphExample.resolved_acyclic)
    as (trace & E & _ & H & _).
  { intros f ->%list_elem_of_singleton. vm_compute. by eexists. }
  assert (Hs : ReverseDFSFrom GraphExample.resolved [1%nat] false true None = Ok [Leave 3%nat; Leave 1%nat]) by (vm_compute; reflexivity).
  rewrite E in Hs. injection Hs as ->. exists [Leave 3%nat; Leave 1%nat]. split; [exact E|]. split; [reflexivity|].
  clear E. apply H. simpl. by left.
Defined.

(** ** [Constant] nodes and control edges *)

Module GraphFindings.
Import GraphExample.
(** A consumer added before the [Constant] node that feeds it, with the edge
    between them. *)
Definition constant_graph : Graph :=
  get (g ← build [("use", "Relu", ["K"], ["Y"]); ("const", kConstant, [], ["K"])]; AddEdge g 1 0 0 0).
(** A control edge between two nodes. *)
Definition control_graph : Graph := (AddControlEdge (get (build [("a", "Relu", ["X"], ["A"]); ("b", "Relu", ["X"], ["B"])])) 0 1).2.
End GraphFindings.

(** The topological sort does not count edges from [Constant] nodes as inputs:
    on this acyclic graph it returns OK with the consumer before the constant. *)
Theorem constant_input_misordered :
  PerformTopologicalSortAndCheckIsAcyclic GraphFindings.constant_graph = Ok (StatusOK, [0; 1]%nat) ∧
  edge GraphFindings.constant_graph 1 0 ∧ ¬ Topological GraphFindings.constant_graph [0; 1]%nat.
Proof.
  assert (He : edge GraphFindings.constant_graph 1 0).
  { unfold edge. destruct (live GraphFindings.constant_graph 0) as [n|] eqn:E; [|by vm_compute in E].
    exists n. split; [done|]. assert (Hi : input_nodes <$> live GraphFindings.constant_graph 0 = Some [1%nat]) by (vm_compute; reflexivity).
    rewrite E in Hi. injection Hi as ->. by left. }
  split; [vm_compute; reflexivity|]. split; [exact He|]. intros [_ _ H].
  by specialize (H [] 0%nat [1%nat] 1%nat eq_refl He) as ?%not_elem_of_nil.
Qed.

Lemma RemoveEdge_cases g s d a b :
  RemoveEdge g s d a b = Throw EnforceFailed ∨
  ∃ g', RemoveEdge g s d a b = Ok g' ∧
    ∀ i n', live g' i = Some n' → ∃ n, live g i = Some n ∧ n_output_defs n' = n_output_defs n.
Proof.
  unfold RemoveEdge. destruct (live g s) as [ns|] eqn:Es; [|auto]. destruct (live g d) as [nd|] eqn:Ed; [|auto].
  destruct (at_slot _ a) as [sa|]; [|auto]. cbn [of_option mbind res_bind].
  destruct (input_slot nd b) as [da|]; [|auto]. cbn [of_option mbind res_bind].
  destruct (same_arg sa da); [right|auto]. eexists. split; [done|].
  intros i n'. rewrite live_dirty, !live_update. repeat case_decide; intros Hn';
    repeat (apply fmap_Some in Hn' as (? & Hn' & ->)); eexists; (split; [exact Hn'|done]).
Qed.

Lemma remove_control_throws l g s d :
  control_edge s ∈ l → (∀ n, live g s = Some n → Z.of_nat (length (n_output_defs n)) ≤ INT_MAX) →
  foldM (fun g e => RemoveEdge g (e_node e) d (e_src e) (e_dst e)) g l = Throw EnforceFailed.
Proof.
  revert g. induction l as [|e l IH]; intros g Hin Hlen; [by apply not_elem_of_nil in Hin|]. cbn [foldM].
  destruct (RemoveEdge_cases g (e_node e) d (e_src e) (e_dst e)) as [->|(g' & E & Hdefs)]; [done|]. rewrite E. cbn [mbind res_bind].
  apply elem_of_cons in Hin as [<-|Hin].
  - exfalso. simpl in E. unfold RemoveEdge in E. destruct (live g s) as [n|]; [|done]. destruct (live g d); [|done].
    unfold at_slot in E. destruct (Z.ltb_spec INT_MAX 0); [done|]. specialize (Hlen n eq_refl).
    rewrite lookup_ge_None_2 in E; [done|]. unfold INT_MAX in *. lia.
  - apply IH; [done|]. intros n' Hn'. destruct (Hdefs s n' Hn') as (n & Hn & ->). auto.
Qed.

(** A node with a control edge into it cannot be removed: [RemoveNode] looks up
    the slots of the control edge, which no node has, and throws. *)
Theorem control_edge_blocks_removal g s d m :
  live g d = Some m → control_edge s ∈ n_input_edges m →
  (∀ n, live g s = Some n → Z.of_nat (length (n_output_defs n)) ≤ INT_MAX) →
  RemoveNode g d = Throw EnforceFailed.
Proof.
  intros Hd Hin Hlen. unfold RemoveNode, GetNode. apply live_nodes in Hd as Hd'. rewrite Hd'. cbn [of_option mbind res_bind].
  by rewrite (remove_control_throws _ g s d Hin Hlen).
Qed.

Lemma control_edge_blocks_removal_witness :
  (∃ m, live GraphFindings.control_graph 1 = Some m ∧ control_edge 0 ∈ n_input_edges m) ∧
  RemoveNode GraphFindings.control_graph 1 = Throw EnforceFailed.
Proof.
  assert (Hm : ∃ m, live GraphFindings.control_graph 1 = Some m ∧ control_edge 0 ∈ n_input_edges m).
  { eexists. split; [vm_compute; reflexivity|]. simpl. by left. }
  split; [exact Hm|]. destruct Hm as (m & Hm & Hin). apply (control_edge_blocks_removal _ 0 1 m Hm Hin).
  intros n Hn. assert (E : length <$> (n_output_defs <$> live GraphFindings.control_graph 0) = Some 1%nat) by (vm_compute; reflexivity).
  rewrite Hn in E. injection E as ->. unfold INT_MAX. lia.
Defined.

Lemma graph_edges_consistent_witness :
  rtc graph_step new_Graph GraphExample.diamond ∧ GraphInv GraphExample.diamond ∧ length (Nodes GraphExample.diamond) = 5%nat.
Proof.
  split; [apply GraphExample.diamond_reachable|]. split; [|vm_compute; reflexivity].
  exact (graph_edges_consistent GraphExample.diamond GraphExample.diamond_reachable).
Defined.

Lemma resolve_structure_correct_witness :
  num_of_nodes_ GraphExample.diamond = Z.of_nat (length (Nodes GraphExample.diamond)) ∧ NoConstants GraphExample.diamond ∧
  ∃ g', resolve_structure GraphExample.diamond ["X"] [] = Ok (StatusOK, g', [3; 2; 1; 0]%nat) ∧
    (edge g' 1 0 ↔ dataflow GraphExample.diamond 1 0).
Proof.
  assert (Hn : num_of_nodes_ GraphExample.diamond = Z.of_nat (length (Nodes GraphExample.diamond))) by (vm_compute; reflexivity).
  assert (Hc : NoConstants GraphExample.diamond) by (apply GraphExample.no_constants; vm_compute; reflexivity).
  split; [exact Hn|]. split; [exact Hc|].
  destruct (resolve_structure_correct GraphExample.diamond ["X"] [] Hn Hc) as (s & g' & order & E & _ & H).
  assert (Hs : GraphExample.outcome (resolve_structure GraphExample.diamond ["X"] []) = Some (StatusOK, [3; 2; 1; 0]%nat))
    by (vm_compute; reflexivity).
  rewrite E in Hs. simpl in Hs. injection Hs as -> ->. exists g'. split; [exact E|]. apply H. reflexivity.
Defined.
