(* ===== verification/TransposeProps.v ===== *)
(** Correctness of the Transpose kernel. *)
From S2P Require Import Prelude TensorShape Transpose.

(** ** The iteration space *)

Lemma val_ext k dims a b : (∀ i, (i < k)%nat → a !!! i = b !!! i) → val k dims a = val k dims b.
Proof. induction k as [|k IH]; intros H; simpl; [done|]. rewrite IH, (H k) by (auto with lia). done. Qed.

(** Incrementing an index moves to the next position. *)
Lemma IncrementIndex_spec ub k idx :
  (k ≤ length idx)%nat → (k ≤ length ub)%nat → (∀ i, (i < k)%nat → 0 ≤ idx !!! i < ub !!! i) →
  let idx' := IncrementIndex idx ub k in
  length idx' = length idx ∧ (∀ i, (k ≤ i)%nat → idx' !!! i = idx !!! i) ∧
  (∀ i, (i < k)%nat → 0 ≤ idx' !!! i < ub !!! i) ∧
  (val k ub idx + 1 < prodZ (take k ub) → val k ub idx' = val k ub idx + 1).
Proof.
  revert idx. induction k as [|k IH]; intros idx Hl Hu Hr; cbn [IncrementIndex].
  { split_and!; [done|done|done|simpl; lia]. }
  set (idx1 := alter (Z.add 1) k idx).
  assert (E1 : idx1 !!! k = idx !!! k + 1).
  { unfold idx1. rewrite list_lookup_total_alter_eq by lia. lia. }
  assert (E2 : ∀ i, i ≠ k → idx1 !!! i = idx !!! i).
  { intros i Hi. unfold idx1. by rewrite list_lookup_total_alter_ne. }
  assert (El : length idx1 = length idx) by (unfold idx1; by rewrite length_alter).
  pose proof (Hr k ltac:(lia)) as Hk. destruct (Z.ltb_spec (idx1 !!! k) (ub !!! k)) as [Hlt|Hge].
  - split_and!; [done|intros; apply E2; lia| |].
    + intros i Hi. destruct (decide (i = k)) as [->|]; [lia|]. rewrite E2 by done. apply Hr. lia.
    + intros _. simpl. rewrite E1, (val_ext k ub idx1 idx) by (intros; apply E2; lia). lia.
  - set (idx2 := <[k:=0]> idx1).
    assert (F1 : idx2 !!! k = 0) by (unfold idx2; rewrite list_lookup_total_insert_eq by lia; done).
    assert (F2 : ∀ i, i ≠ k → idx2 !!! i = idx !!! i).
    { intros i Hi. unfold idx2. rewrite list_lookup_total_insert_ne by done. by apply E2. }
    destruct (IH idx2) as (L & O & R & V).
    { unfold idx2. rewrite length_insert. lia. }
    { lia. }
    { intros i Hi. rewrite F2 by lia. apply Hr. lia. }
    split_and!.
    + rewrite L. unfold idx2. by rewrite length_insert.
    + intros i Hi. rewrite O, F2 by lia. done.
    + intros i Hi. destruct (decide (i = k)) as [->|]; [rewrite O, F1 by lia; lia|apply R; lia].
    + rewrite take_total by lia. rewrite prodZ_app. simpl. rewrite O, F1 by lia.
      rewrite (val_ext k ub idx2 idx) in V by (intros; apply F2; lia). intros Hlt.
      rewrite V by nia. nia.
Qed.

Lemma ComputeOffset_sum idx stride k :
  0 ≤ sum_to k (fun j => idx !!! j * stride !!! j) < 2 ^ 64 →
  ComputeOffset idx stride k = sum_to k (fun j => idx !!! j * stride !!! j).
Proof.
  intros H. rewrite <- (u64_small (sum_to _ _)) by done. clear H. unfold ComputeOffset.
  induction k as [|k IH]; [done|]. rewrite seq_S, foldl_snoc, IH, sum_to_S. simpl. unfold u64.
  by rewrite Z.add_mod_idemp_l.
Qed.

Lemma ComputeOffset_ext idx idx' stride k :
  (∀ i, (i < k)%nat → idx !!! i = idx' !!! i) → ComputeOffset idx stride k = ComputeOffset idx' stride k.
Proof.
  unfold ComputeOffset. induction k as [|k IH]; intros H; [done|]. rewrite seq_S, !foldl_snoc, IH by auto with lia.
  simpl. by rewrite H by lia.
Qed.
Lemma val_zero k n dims : (k ≤ n)%nat → val k dims (replicate n 0) = 0.
Proof.
  induction k as [|k IH]; intros H; simpl; [done|]. rewrite IH by lia. by rewrite lookup_total_replicate_2 by lia.
Qed.

(** The digits from [k] on are the index in the slice of the inner dimensions. *)
Lemma flat_split dims idx k :
  (k ≤ length dims)%nat → flat dims idx = val k dims idx * prodZ (drop k dims) + flat (drop k dims) (drop k idx).
Proof.
  intros Hk. unfold flat. rewrite length_drop.
  assert (H : ∀ m, (k + m ≤ length dims)%nat →
    val (k + m) dims idx = val k dims idx * prodZ (take m (drop k dims)) + val m (drop k dims) (drop k idx)).
  { induction m as [|m IH]; intros Hm; [rewrite take_0, Nat.add_0_r; simpl; lia|].
    rewrite Nat.add_succ_r. simpl. rewrite IH by lia.
    rewrite take_total by (rewrite length_drop; lia). rewrite prodZ_app, !lookup_total_drop. simpl. lia. }
  specialize (H (length dims - k)%nat ltac:(lia)). rewrite take_ge in H by (rewrite length_drop; lia).
  rewrite <- H. f_equal. lia.
Qed.
Lemma flat_cons d dims i idx : flat (d :: dims) (i :: idx) = i * prodZ dims + flat dims idx.
Proof. rewrite (flat_split (d :: dims) (i :: idx) 1) by (simpl; lia). simpl. rewrite !drop_0. lia. Qed.
Lemma flat_bound dims idx : valid_index dims idx → 0 ≤ flat dims idx < prodZ dims.
Proof.
  intros [Hl Hr]. unfold flat. pose proof (val_bound (length dims) dims idx) as H. rewrite firstn_all in H. auto.
Qed.
Lemma valid_index_drop dims idx k :
  (k ≤ length dims)%nat → valid_index dims idx → valid_index (drop k dims) (drop k idx).
Proof.
  intros Hk [Hl Hr]. split; [rewrite !length_drop; lia|]. intros i. rewrite length_drop, !lookup_total_drop.
  intros. apply Hr. lia.
Qed.

(** ** Strides and partition *)

Section permuted.
Context (perm : list nat) (dims : list Z).
Hypothesis Hperm : perm ≡ₚ seq 0 (length dims).
Hypothesis Hdims : Forall (fun d => 1 ≤ d) dims.
Hypothesis Hprod : prodZ dims < 2 ^ 63.

(** The dimensions of the output. *)
Abbreviation output_dims := ((fun p => dims !!! p) <$> perm).

Lemma perm_length : length perm = length dims.
Proof using Hperm. rewrite Hperm. apply length_seq. Qed.
Lemma perm_lookup i : (i < length dims)%nat → (perm !!! i < length dims)%nat.
Proof using Hperm.
  intros Hi. assert (H : perm !!! i ∈ seq 0 (length dims)).
  { rewrite <- Hperm. apply list_elem_of_lookup_total_2. by rewrite perm_length. }
  apply elem_of_seq in H. lia.
Qed.
Lemma perm_seq k : (k ≤ length dims)%nat → (fun i => perm !!! i) <$> seq 0 k = take k perm.
Proof using Hperm.
  intros Hk. apply list_eq. intros i. rewrite list_lookup_fmap. destruct (decide (i < k)%nat) as [Hi|Hi].
  - rewrite lookup_seq_lt, lookup_take_lt by done. simpl. symmetry. apply list_lookup_lookup_total_lt. rewrite perm_length. lia.
  - rewrite lookup_seq_ge, lookup_take_ge by lia. done.
Qed.
Lemma output_dims_lookup i : (i < length dims)%nat → output_dims !!! i = dims !!! (perm !!! i).
Proof using Hperm. intros Hi. rewrite (list_lookup_total_fmap (fun p => dims !!! p)); [done|by rewrite perm_length]. Qed.
Lemma dims_seq : (fun p => dims !!! p) <$> seq 0 (length dims) = dims.
Proof.
  apply list_eq. intros i. rewrite list_lookup_fmap. destruct (decide (i < length dims)%nat) as [Hi|Hi].
  - rewrite lookup_seq_lt by done. simpl. symmetry. by apply list_lookup_lookup_total_lt.
  - rewrite lookup_seq_ge, lookup_ge_None_2 by lia. done.
Qed.
Lemma output_dims_perm : output_dims ≡ₚ dims.
Proof using Hperm. etrans; [by apply fmap_Permutation|]. by rewrite dims_seq. Qed.
Lemma output_dims_pos : Forall (fun d => 1 ≤ d) output_dims.
Proof using Hperm Hdims. by rewrite output_dims_perm. Qed.
Lemma output_dims_prod : prodZ output_dims = prodZ dims.
Proof using Hperm. apply prodZ_perm, output_dims_perm. Qed.
Lemma output_dims_length : length output_dims = length dims.
Proof using Hperm. by rewrite length_fmap, perm_length. Qed.

Lemma stride_of_ok i :
  (i < length dims)%nat → stride_of perm dims i = Ok (prodZ (drop (S (perm !!! i)) dims)).
Proof using Hperm Hdims Hprod.
  intros Hi. unfold stride_of. pose proof (perm_lookup i Hi).
  destruct (Nat.ltb_spec (S (perm !!! i)) (length dims)).
  - rewrite SizeFromDimension_ok by (done || lia). simpl. pose proof (prodZ_drop_le (S (perm !!! i)) dims Hdims).
    by rewrite u64_small by lia.
  - rewrite drop_ge by lia. done.
Qed.
Lemma strides_ok : strides perm dims = Ok ((fun i => prodZ (drop (S (perm !!! i)) dims)) <$> seq 0 (length dims)).
Proof using Hperm Hdims Hprod.
  unfold strides.
  destruct (foldM_seq (fun i l => l = (fun i => prodZ (drop (S (perm !!! i)) dims)) <$> seq 0 i)
    (fun acc i => s ← stride_of perm dims i; Ok (acc ++ [s])) [] 0 (length dims)) as (s & E & ->); [|done|done].
  intros i l Hi ->. rewrite stride_of_ok by lia. eexists. split; [done|]. by rewrite seq_S, fmap_app.
Qed.
Lemma stride_lookup i :
  (i < length dims)%nat →
  ((fun i => prodZ (drop (S (perm !!! i)) dims)) <$> seq 0 (length dims)) !!! i = prodZ (drop (S (perm !!! i)) dims).
Proof. intros Hi. rewrite (list_lookup_total_fmap (fun i => prodZ (drop (S (perm !!! i)) dims))) by (by rewrite length_seq). by rewrite lookup_total_seq_lt. Qed.

Record partition_at (k : nat) (p : Partition) (np : nat) : Prop := {
  pa_range : (k ≤ np ≤ length dims)%nat;
  pa_num : num_axes_in_prefix p = (np - k)%nat;
  pa_is : is_suffix p = true → np = k;
  pa_fixed : ∀ i, (np ≤ i < length dims)%nat → perm !!! i = i;
  pa_suffix : suffix_blocksize p = prodZ (drop np dims);
  pa_prefix : prefix_blocksize p = prodZ (take (np - k) (drop k output_dims));
}.
Lemma partition_axis_ok k p np :
  partition_at (S k) p np → ∃ np', partition_at k (partition_axis perm dims p k) np'.
Proof using Hperm Hdims Hprod.
  intros [Hr Hn Hi Hf Hs Hp]. unfold partition_axis. pose proof output_dims_length as Ho.
  pose proof output_dims_pos as Hpos. pose proof output_dims_prod as Hop.
  destruct (is_suffix p && (perm !!! k =? k)%nat) eqn:E.
  - apply andb_true_iff in E as [E1 E2%Nat.eqb_eq]. specialize (Hi E1). subst np. exists k.
    rewrite Nat.sub_diag in Hp. rewrite E2, Hs. pose proof (prodZ_drop_le k dims Hdims) as Hb.
    rewrite (drop_total dims k) in Hb by lia. simpl in Hb.
    split; simpl; [lia|lia|done| | |by rewrite Nat.sub_diag].
    + intros i Hik. destruct (decide (i = k)) as [->|]; [done|]. apply Hf. lia.
    + rewrite (drop_total dims k) by lia. simpl. rewrite u64_small; lia.
  - exists np. rewrite Hp, <- output_dims_lookup by lia.
    assert (Ht : take (np - k) (drop k output_dims) = output_dims !!! k :: take (np - S k) (drop (S k) output_dims)).
    { rewrite drop_total by lia. replace (np - k)%nat with (S (np - S k)) by lia. done. }
    split; simpl; [lia|lia|done|done|done|]. rewrite Ht. simpl.
    pose proof (prodZ_take_le (np - k) (drop k output_dims) ltac:(by apply Forall_drop)) as Hb1.
    pose proof (prodZ_drop_le k output_dims Hpos). rewrite Ht in Hb1. simpl in Hb1. rewrite u64_small; lia.
Qed.
(** The suffix is made of axes that stay in place, and the two block sizes are
    the products of the dimensions of the output in front of it and in it. *)
Lemma partition_ok : ∃ np, partition_at 0 (partition perm dims) np.
Proof using Hperm Hdims Hprod.
  assert (H : ∀ k p np, partition_at k p np →
    ∃ np', partition_at 0 (foldl (partition_axis perm dims) p (reverse (seq 0 k))) np').
  { induction k as [|k IH]; intros p np Hp; [eauto|]. rewrite seq_S, reverse_snoc. simpl.
    destruct (partition_axis_ok k p np Hp) as [np' Hnp']. eauto. }
  eapply (H (length dims) _ (length dims)). split; simpl; [lia|lia|done|lia| |].
  - by rewrite drop_all.
  - by rewrite Nat.sub_diag.
Qed.

(** ** Offsets *)

Lemma sum_to_le n f g : (∀ i, (i < n)%nat → 0 ≤ f i ≤ g i) → 0 ≤ sum_to n f ≤ sum_to n g.
Proof.
  induction n as [|n IH]; intros H; [done|]. rewrite !sum_to_S. specialize (IH ltac:(auto with lia)).
  specialize (H n ltac:(lia)). lia.
Qed.
Lemma sum_to_max k :
  (k ≤ length dims)%nat →
  sum_to k (fun j => (dims !!! j - 1) * prodZ (drop (S j) dims)) = prodZ dims - prodZ (drop k dims).
Proof.
  induction k as [|k IH]; intros Hk; [rewrite drop_0; change (sum_to 0 _) with 0; lia|]. rewrite sum_to_S, IH by lia.
  rewrite (drop_total dims k) by lia. simpl. lia.
Qed.

Section prefix.
Context (np : nat).
Implicit Types (idx jdx : list Z).
Hypothesis Hnp : (np ≤ length dims)%nat.
Hypothesis Hfixed : ∀ i, (np ≤ i < length dims)%nat → perm !!! i = i.

Lemma drop_perm : drop np perm = seq np (length dims - np).
Proof using Hperm Hnp Hfixed.
  apply list_eq. intros i. rewrite lookup_drop. destruct (decide (i < length dims - np)%nat) as [Hi|Hi].
  - rewrite lookup_seq_lt by done. rewrite (list_lookup_lookup_total_lt perm) by (rewrite perm_length; lia).
    by rewrite Hfixed by lia.
  - rewrite lookup_seq_ge by lia. apply lookup_ge_None_2. rewrite perm_length. lia.
Qed.
Lemma take_perm : take np perm ≡ₚ seq 0 np.
Proof using Hperm Hnp Hfixed.
  apply (Permutation_app_inv_r (drop np perm)). rewrite take_drop, drop_perm, Hperm.
  replace (length dims) with (np + (length dims - np))%nat at 1 by lia. by rewrite seq_app.
Qed.
Lemma sum_perm f : sum_to np (fun i => f (perm !!! i)) = sum_to np f.
Proof using Hperm Hnp Hfixed.
  unfold sum_to. change (fun i => f (perm !!! i)) with (f ∘ (fun i : nat => perm !!! i)).
  rewrite list_fmap_compose, perm_seq by done.
  assert (H : ∀ l l', l ≡ₚ l' → foldr Z.add 0 l = foldr Z.add 0 l') by (induction 1; simpl; lia).
  apply H, fmap_Permutation, take_perm.
Qed.
Lemma output_dims_drop : drop np output_dims = drop np dims.
Proof using Hperm Hnp Hfixed.
  rewrite <- fmap_drop, drop_perm. rewrite <- dims_seq at 2. rewrite <- fmap_drop, drop_seq. done.
Qed.
Lemma output_dims_take : prodZ (take np output_dims) * prodZ (drop np dims) = prodZ dims.
Proof using Hperm Hnp Hfixed. rewrite <- output_dims_drop, <- prodZ_app, take_drop. apply output_dims_prod. Qed.

Lemma offset_ok idx :
  (∀ i, (i < np)%nat → 0 ≤ idx !!! i < output_dims !!! i) →
  let offset := ComputeOffset idx ((fun i => prodZ (drop (S (perm !!! i)) dims)) <$> seq 0 (length dims)) np in
  offset = sum_to np (fun i => idx !!! i * prodZ (drop (S (perm !!! i)) dims)) ∧
  0 ≤ offset ≤ prodZ dims - prodZ (drop np dims).
Proof using Hperm Hdims Hprod Hnp Hfixed.
  intros Hr offset.
  assert (Hs : 0 ≤ sum_to np (fun i => idx !!! i * prodZ (drop (S (perm !!! i)) dims)) ≤ prodZ dims - prodZ (drop np dims)).
  { rewrite <- (sum_to_max np Hnp), <- (sum_perm (fun j => (dims !!! j - 1) * prodZ (drop (S j) dims))).
    apply sum_to_le. intros i Hi. specialize (Hr i Hi). rewrite output_dims_lookup in Hr by lia.
    pose proof (prodZ_drop_le (S (perm !!! i)) dims Hdims). nia. }
  assert (E : offset = sum_to np (fun i => idx !!! i * prodZ (drop (S (perm !!! i)) dims))).
  { pose proof (prodZ_drop_le np dims Hdims).
    rewrite <- (sum_to_ext np (fun j => idx !!! j *
      ((fun i => prodZ (drop (S (perm !!! i)) dims)) <$> seq 0 (length dims)) !!! j)) in Hs |- *
      by (intros i Hi; by rewrite stride_lookup by lia).
    apply ComputeOffset_sum. lia. }
  by rewrite E.
Qed.
(** The offset of an index of the output is the position of the block of the
    permuted index. *)
Lemma offset_val (idx jdx : list Z) :
  (∀ i, (i < length dims)%nat → jdx !!! (perm !!! i) = idx !!! i) →
  sum_to np (fun i => idx !!! i * prodZ (drop (S (perm !!! i)) dims)) = val np dims jdx * prodZ (drop np dims).
Proof using Hperm Hnp Hfixed.
  intros Hj. rewrite val_sum by done. rewrite <- (sum_perm (fun j => jdx !!! j * prodZ (drop (S j) dims))).
  apply sum_to_ext. intros i Hi. by rewrite Hj by lia.
Qed.
Lemma drop_index (idx jdx : list Z) :
  length idx = length dims → length jdx = length dims →
  (∀ i, (i < length dims)%nat → jdx !!! (perm !!! i) = idx !!! i) → drop np jdx = drop np idx.
Proof using Hnp Hfixed.
  intros Li Lj H. apply list_eq. intros i. rewrite !lookup_drop. destruct (decide (np + i < length dims)%nat).
  - rewrite !list_lookup_lookup_total_lt by lia. by rewrite <- H, Hfixed by lia.
  - rewrite !lookup_ge_None_2 by lia. done.
Qed.

(** It is enough to copy each block from its offset. *)
Lemma blocks_suffice {B} size (source out : list B) :
  0 < size →
  (∀ idx b, (∀ i, (i < np)%nat → 0 ≤ idx !!! i < output_dims !!! i) → 0 ≤ b < prodZ (drop np dims) * size →
     out !! Z.to_nat (val np output_dims idx * (prodZ (drop np dims) * size) + b) =
     source !! Z.to_nat (ComputeOffset idx ((fun i => prodZ (drop (S (perm !!! i)) dims)) <$> seq 0 (length dims)) np
                           * size + b)) →
  ∀ (idx jdx : list Z) b, valid_index output_dims idx → length jdx = length dims →
    (∀ i, (i < length dims)%nat → jdx !!! (perm !!! i) = idx !!! i) → 0 ≤ b < size →
    out !! Z.to_nat (flat output_dims idx * size + b) = source !! Z.to_nat (flat dims jdx * size + b).
Proof using Hperm Hdims Hprod Hnp Hfixed.
  intros Hsz Hout idx jdx b Hv Lj Hj Hb. pose proof Hv as [Li Hr].
  pose proof output_dims_length as Lod. pose proof output_dims_drop as Ed.
  rewrite (flat_split output_dims idx np), (flat_split dims jdx np) by lia.
  rewrite (drop_index idx jdx) by (done || lia).
  pose proof (valid_index_drop _ idx np ltac:(rewrite Lod; exact Hnp) Hv) as Hvd. rewrite Ed in Hvd |- *.
  pose proof (flat_bound _ _ Hvd) as HR.
  destruct (offset_ok idx) as [Eo Ho]; [intros i Hi; apply Hr; lia|].
  rewrite (offset_val idx jdx Hj) in Eo.
  set (R := flat (drop np dims) (drop np idx)) in *. set (S' := prodZ (drop np dims)) in *.
  replace ((val np output_dims idx * S' + R) * size + b) with (val np output_dims idx * (S' * size) + (R * size + b)) by lia.
  rewrite Hout by (first [intros i Hi; apply Hr; lia|nia]). f_equal. rewrite Eo. lia.
Qed.
End prefix.
End permuted.

(** ** Copies *)

Section copies.
Context {B : Type}.
Implicit Types (source target : list B).

(** A copy inside the two buffers changes exactly the bytes of its range. *)
Lemma memcpy_ok target p source q n :
  0 ≤ p → 0 ≤ q → 0 ≤ n → p + n ≤ Z.of_nat (length target) → q + n ≤ Z.of_nat (length source) →
  ∃ target', memcpy target p source q n = Ok target' ∧ length target' = length target ∧
    (∀ b, 0 ≤ b < n → target' !! Z.to_nat (p + b) = source !! Z.to_nat (q + b)) ∧
    (∀ x, (x < Z.to_nat p)%nat → target' !! x = target !! x).
Proof.
  intros Hp Hq Hn Ht Hs. unfold memcpy.
  rewrite !(proj2 (Z.leb_le _ _)) by done. simpl. eexists. split; [done|].
  assert (Lt : length (take (Z.to_nat p) target) = Z.to_nat p) by (rewrite length_take; lia).
  assert (Ls : length (take (Z.to_nat n) (drop (Z.to_nat q) source)) = Z.to_nat n) by (rewrite length_take, length_drop; lia).
  split_and!.
  - rewrite !length_app, Lt, Ls, length_drop. lia.
  - intros b Hb. rewrite lookup_app_r by lia. rewrite lookup_app_l by lia. rewrite lookup_take_lt by lia.
    rewrite lookup_drop. f_equal. lia.
  - intros x Hx. rewrite lookup_app_l by lia. by rewrite lookup_take_lt by lia.
Qed.

(** The loop that both copying routines run, on blocks of [width] bytes. *)
Definition copy_block (size width : Z) (num_axes : nat) (dims stride : list Z) source
    (st : list Z * list B) (i : nat) : res (list Z * list B) :=
  target ← memcpy (snd st) (Z.of_nat i * width) source (ComputeOffset (fst st) stride num_axes * size) width;
  Ok (IncrementIndex (fst st) dims num_axes, target).

(** It fills the block at each position of the iteration space with the block
    of the source at the offset of the index of the position. *)
Lemma copy_blocks_ok size width k dims stride source target m :
  0 ≤ width → (k ≤ length dims)%nat → Forall (fun d => 1 ≤ d) dims → Z.of_nat m = prodZ (take k dims) →
  Z.of_nat m * width ≤ Z.of_nat (length target) →
  (∀ idx, (∀ i, (i < k)%nat → 0 ≤ idx !!! i < dims !!! i) →
     0 ≤ ComputeOffset idx stride k * size ∧
     ComputeOffset idx stride k * size + width ≤ Z.of_nat (length source)) →
  ∃ idx' target', foldM (copy_block size width k dims stride source) (replicate k 0, target) (seq 0 m) = Ok (idx', target') ∧
    length target' = length target ∧
    ∀ idx b, (∀ i, (i < k)%nat → 0 ≤ idx !!! i < dims !!! i) → 0 ≤ b < width →
      target' !! Z.to_nat (val k dims idx * width + b) = source !! Z.to_nat (ComputeOffset idx stride k * size + b).
Proof.
  intros Hw Hk Hd Hm Hlt Hoff.
  set (I := fun (i : nat) (st : list Z * list B) =>
    length (fst st) = k ∧ (∀ j, (j < k)%nat → 0 ≤ fst st !!! j < dims !!! j) ∧ length (snd st) = length target ∧
    ((i < m)%nat → val k dims (fst st) = Z.of_nat i) ∧
    ∀ idx b, (∀ j, (j < k)%nat → 0 ≤ idx !!! j < dims !!! j) → val k dims idx < Z.of_nat i → 0 ≤ b < width →
      snd st !! Z.to_nat (val k dims idx * width + b) = source !! Z.to_nat (ComputeOffset idx stride k * size + b)).
  destruct (foldM_seq I (copy_block size width k dims stride source) (replicate k 0, target) 0 m) as ([idx' target'] & E & HI).
  - intros i [idx tg] Hi (L & R & Lt & V & H). simpl in L, R, Lt, V, H. specialize (V ltac:(lia)).
    destruct (Hoff idx R) as [Ho1 Ho2].
    destruct (memcpy_ok tg (Z.of_nat i * width) source (ComputeOffset idx stride k * size) width) as (tg' & E & Lt' & Hin & Hout);
      [nia|done|done|nia|done|].
    destruct (IncrementIndex_spec dims k idx) as (L' & _ & R' & V'); [lia|done|done|].
    unfold copy_block at 1. simpl. rewrite E. simpl. eexists. split; [done|]. split_and!; simpl; [lia|done|lia| |].
    + intros Hi'. rewrite V', V by lia. lia.
    + intros idx0 b Hr0 Hlt0 Hb. pose proof (val_bound k dims idx0 Hk Hr0) as Hvb.
      destruct (decide (val k dims idx0 = Z.of_nat i)) as [Ev|Ev].
      * rewrite Ev, Hin by done. rewrite <- V in Ev.
        rewrite (ComputeOffset_ext idx0 idx) by (by apply (val_inj k dims)). done.
      * rewrite Hout by nia. apply H; [done|lia|done].
  - split_and!; simpl; [by rewrite length_replicate| |done| |].
    + intros j Hj. rewrite lookup_total_replicate_2 by lia. split; [done|].
      assert (Hj' := list_lookup_lookup_total_lt dims j ltac:(lia)). eapply Forall_lookup_1 in Hd; [|exact Hj']. simpl in Hd. lia.
    + intros _. by apply val_zero.
    + intros idx b Hr Hlt0. pose proof (val_bound k dims idx Hk Hr). lia.
  - exists idx', target'. destruct HI as (_ & _ & Lt & _ & H). split_and!; [done|done|].
    intros idx b Hr Hb. pose proof (val_bound k dims idx Hk Hr). apply H; [done|lia|done].
Qed.
End copies.

(** ** The kernel *)

Section kernel.
Context {B : Type}.
Implicit Types (source target : list B).

Lemma DoTransposeEltWise_blocks size k dims m stride source target :
  DoTransposeEltWise size k dims m stride source target =
  ('(_, target) ← foldM (copy_block size size k dims stride source) (replicate k 0, target) (seq 0 (Z.to_nat m)); Ok target).
Proof. unfold DoTransposeEltWise. f_equal. by apply foldM_ext; intros []. Qed.
Lemma DoTransposeImpl_blocks k dims m n stride source target :
  0 ≤ n * sizeof_float < 2 ^ 64 →
  DoTransposeImpl sizeof_float k dims m n stride source target =
  ('(_, target) ← foldM (copy_block sizeof_float (n * sizeof_float) k dims stride source) (replicate k 0, target)
     (seq 0 (Z.to_nat m)); Ok target).
Proof.
  intros Hn. unfold DoTransposeImpl. f_equal. apply foldM_ext. intros [] i. unfold copy_block. simpl.
  rewrite u64_small by done. by rewrite Z.mul_assoc.
Qed.

(** The blocks are the innermost dimensions; their elements have [size] bytes. *)
Lemma DoTypedTranspose_ok size perm dims source target :
  perm ≡ₚ seq 0 (length dims) → Forall (fun d => 1 ≤ d) dims → 0 < size → prodZ dims * size < 2 ^ 63 →
  (size = sizeof_float ∨ prefix_blocksize (partition perm dims) = 1 ∨ suffix_blocksize (partition perm dims) = 1) →
  Z.of_nat (length source) = prodZ dims * size → Z.of_nat (length target) = prodZ dims * size →
  let output_dims := (fun p => dims !!! p) <$> perm in
  ∃ out, DoTypedTranspose size perm dims output_dims source target = Ok out ∧ length out = length target ∧
    ∀ idx jdx b, valid_index output_dims idx → length jdx = length dims →
      (∀ i, (i < length dims)%nat → jdx !!! (perm !!! i) = idx !!! i) → 0 ≤ b < size →
      out !! Z.to_nat (flat output_dims idx * size + b) = source !! Z.to_nat (flat dims jdx * size + b).
Proof.
  intros Hperm Hdims Hsz Hprod Hcase Ls Lt od.
  pose proof (prodZ_pos _ Hdims) as Hpos. assert (Hp63 : prodZ dims < 2 ^ 63) by nia.
  unfold DoTypedTranspose. rewrite strides_ok by done. cbn [mbind res_bind].
  destruct (partition_ok perm dims Hperm Hdims Hp63) as [np [[_ Hnp] Hnum _ Hfix Hs Hp]].
  rewrite Nat.sub_0_r in Hnum, Hp. rewrite drop_0 in Hp. fold od in Hp. rewrite Hnum, Hs, Hp in *. clear Hnum Hs Hp.
  pose proof (output_dims_take perm dims Hperm np Hnp Hfix) as Htake. fold od in Htake.
  pose proof (output_dims_length perm dims Hperm) as Lod. fold od in Lod.
  pose proof (prodZ_drop_le np dims Hdims) as HS.
  pose proof (prodZ_take_le np od (output_dims_pos perm dims Hperm Hdims)) as HP.
  set (S := prodZ (drop np dims)) in *. set (P := prodZ (take np od)) in *.
  set (stride := (fun i => prodZ (drop (Datatypes.S (perm !!! i)) dims)) <$> seq 0 (length dims)).
  pose proof (blocks_suffice perm dims Hperm Hdims Hp63 np Hnp Hfix size source) as Hblocks.
  fold S stride od in Hblocks.
  assert (Hoffs : ∀ idx, (∀ i, (i < np)%nat → 0 ≤ idx !!! i < od !!! i) →
    0 ≤ ComputeOffset idx stride np * size ∧
    ComputeOffset idx stride np * size + S * size ≤ Z.of_nat (length source)).
  { intros idx Hr. destruct (offset_ok perm dims Hperm Hdims Hp63 np Hnp Hfix idx Hr) as [_ Ho]. fold stride S in Ho. nia. }
  destruct (Z.eqb_spec 1 P) as [EP|NP]; [|destruct (Z.eqb_spec 1 S) as [ES|NS]].
  - unfold DoTransposeSingleBlock. rewrite u64_small by nia.
    destruct (memcpy_ok target 0 source 0 (S * size)) as (out & -> & L & Hin & _); [nia..|].
    exists out. split_and!; [done|done|]. apply Hblocks; [done|]. intros idx b Hr Hb.
    destruct (offset_ok perm dims Hperm Hdims Hp63 np Hnp Hfix idx Hr) as [_ Ho]. fold stride S in Ho.
    pose proof (val_bound np od idx ltac:(lia) Hr) as Hvb. fold P in Hvb.
    replace (val np od idx) with 0 by lia. replace (ComputeOffset idx stride np) with 0 by nia.
    rewrite !Z.mul_0_l. auto.
  - rewrite DoTransposeEltWise_blocks. rewrite <- ES, Z.mul_1_l in Hblocks, Hoffs.
    destruct (copy_blocks_ok size size np od stride source target (Z.to_nat P)) as (idx' & out & E & L & H);
      [lia|lia|by apply output_dims_pos|unfold P; lia|nia|done|].
    rewrite E. exists out. split_and!; [done|done|]. apply Hblocks; [done|exact H].
  - destruct Hcase as [->|[?|?]]; [|lia|lia]. rewrite DoTransposeImpl_blocks by nia.
    destruct (copy_blocks_ok sizeof_float (S * sizeof_float) np od stride source target (Z.to_nat P)) as (idx' & out & E & L & H);
      [lia|lia|by apply output_dims_pos|unfold P; lia|nia|done|].
    rewrite E. exists out. split_and!; [done|done|]. apply Hblocks; [done|exact H].
Qed.
End kernel.

(** ** The permutation attribute *)

Lemma check_axis_spec n seen l :
  length seen = n →
  match foldM (check_axis n) seen l with
  | Ok _ => Forall (fun i => 0 ≤ i < Z.of_nat n) l ∧ NoDup l ∧ ∀ i, i ∈ l → seen !!! Z.to_nat i = false
  | Throw _ => ¬ (Forall (fun i => 0 ≤ i < Z.of_nat n) l ∧ NoDup l ∧ ∀ i, i ∈ l → seen !!! Z.to_nat i = false)
  | OutOfFuel => False
  end.
Proof.
  revert seen. induction l as [|i l IH]; intros seen Hl; cbn [foldM].
  { split_and!; [constructor|constructor|]. intros i Hi. by apply not_elem_of_nil in Hi. }
  unfold check_axis at 2.
  destruct (Z.ltb_spec i 0) as [|Hi0]; cbn [orb].
  { simpl. intros [[Hi _]%Forall_cons_1 _]. simpl in Hi. lia. }
  destruct (Z.leb_spec (Z.of_nat n) i) as [|Hin].
  { simpl. intros [[Hi _]%Forall_cons_1 _]. simpl in Hi. lia. }
  destruct (seen !!! Z.to_nat i : bool) eqn:Es.
  { simpl. intros (_ & _ & HS). specialize (HS i ltac:(by left)). congruence. }
  cbn [mbind res_bind]. specialize (IH (<[Z.to_nat i := true]> seen) ltac:(by rewrite length_insert)).
  assert (Hiff : (Forall (fun i => 0 ≤ i < Z.of_nat n) l ∧ NoDup l ∧ ∀ j, j ∈ l → <[Z.to_nat i:=true]> seen !!! Z.to_nat j = false) ↔
    (Forall (fun i => 0 ≤ i < Z.of_nat n) (i :: l) ∧ NoDup (i :: l) ∧ ∀ j, j ∈ i :: l → seen !!! Z.to_nat j = false)).
  { split; intros (HF & HN & HS).
    - rewrite Forall_forall in HF.
      assert (Hne : i ∉ l).
      { intros Hi. specialize (HS i Hi). rewrite list_lookup_total_insert_eq in HS by lia. done. }
      split_and!; [constructor; [lia|by rewrite Forall_forall]|by constructor|].
      intros j [->|Hj]%elem_of_cons; [done|]. rewrite <- (HS j Hj). symmetry. apply list_lookup_total_insert_ne.
      intros E. assert (i = j) as -> by (specialize (HF j Hj); simpl in HF; lia). done.
    - apply Forall_cons_1 in HF as [_ HF]. apply NoDup_cons in HN as [HN1 HN2]. split_and!; [done|done|].
      intros j Hj. rewrite list_lookup_total_insert_ne; [apply HS; by right|].
      rewrite Forall_forall in HF. specialize (HF j Hj). simpl in HF. intros E. assert (i = j) as -> by lia. done. }
  destruct (foldM _ _ l); [by apply Hiff|by rewrite <- Hiff|done].
Qed.

Lemma seq_permutation (l : list Z) :
  Forall (fun i => 0 ≤ i < Z.of_nat (length l)) l → NoDup l → Z.to_nat <$> l ≡ₚ seq 0 (length l).
Proof.
  intros HF HN. apply submseteq_length_Permutation; [|by rewrite length_seq, length_fmap].
  rewrite Forall_forall in HF. apply NoDup_submseteq.
  - apply NoDup_fmap_2_strong; [|done]. intros x y Hx%HF Hy%HF E. simpl in *. lia.
  - intros x [y [-> Hy%HF]]%list_elem_of_fmap. simpl in Hy. apply elem_of_seq. lia.
Qed.

(** The permutation a kernel uses. *)
Definition kernel_perm (attr : option (list Z)) (rank : nat) : list nat :=
  match attr with Some l => Z.to_nat <$> l | None => reverse (seq 0 rank) end.

Lemma default_perm_reverse rank : (fun i => rank - i - 1)%nat <$> seq 0 rank = reverse (seq 0 rank).
Proof.
  apply list_eq. intros i. destruct (decide (i < rank)%nat).
  - rewrite list_lookup_fmap, lookup_seq_lt by done. rewrite reverse_lookup by (rewrite length_seq; lia).
    rewrite length_seq, lookup_seq_lt by lia. simpl. f_equal. lia.
  - rewrite !lookup_ge_None_2; [done|rewrite length_reverse, length_seq; lia|rewrite length_fmap, length_seq; lia].
Qed.

Lemma ComputeOutputShape_ok t attr dims :
  new_TransposeBase attr = Ok t → kernel_perm attr (length dims) ≡ₚ seq 0 (length dims) →
  ComputeOutputShape t dims =
    Ok ((fun p => dims !!! p) <$> kernel_perm attr (length dims), kernel_perm attr (length dims)).
Proof.
  intros Ht Hp. unfold ComputeOutputShape.
  assert (E : (if perm_specified_ t then Z.to_nat <$> perm_ t
               else (fun i => length dims - i - 1)%nat <$> seq 0 (length dims)) = kernel_perm attr (length dims)).
  { unfold new_TransposeBase in Ht. destruct attr as [l|].
    - apply bind_Ok in Ht as (? & _ & [= <-]). done.
    - injection Ht as <-. simpl. apply default_perm_reverse. }
  rewrite E. set (perm := kernel_perm attr (length dims)) in *.
  destruct (foldM_seq (fun i acc => acc = (fun p => dims !!! p) <$> take i perm)
    (fun acc i => inpdim ← of_option UndefinedBehaviour (perm !! i);
      d ← of_option UndefinedBehaviour (dims !! inpdim); Ok (acc ++ [d])) [] 0 (length dims)) as (s & -> & ->); [|done|].
  - intros i acc Hi ->. pose proof (perm_length perm dims Hp) as Lp.
    pose proof (list_lookup_lookup_total_lt perm i ltac:(lia)) as Ei. rewrite Ei. simpl.
    pose proof (perm_lookup perm dims Hp i ltac:(lia)) as Hb.
    rewrite (list_lookup_lookup_total_lt dims _ Hb). simpl. eexists. split; [done|].
    by rewrite (take_S_r _ _ _ Ei), fmap_app.
  - cbn [mbind res_bind Nat.add]. by rewrite take_ge by (rewrite (perm_length perm dims Hp); done).
Qed.



(** A permutation of fewer axes than the input has is accepted when the kernel
    is made, and every run then reads past the end of [perm_]
    (transpose.h:59). *)
Lemma transpose_short_perm {B} l dims (source target : list B) :
  (length l < length dims)%nat → Forall (fun i => 0 ≤ i < Z.of_nat (length l)) l → NoDup l →
  ∃ t, new_TransposeBase (Some l) = Ok t ∧ Compute_Transpose t dims source target = Throw UndefinedBehaviour.
Proof.
  intros Hlen HF HN. exists (mkTransposeBase true l). split.
  - unfold new_TransposeBase.
    pose proof (check_axis_spec (length l) (replicate (length l) false) l (length_replicate _ _)) as H.
    destruct (foldM _ _ l); [done| |done]. destruct H. split_and!; [done|done|]. intros i Hi.
    rewrite Forall_forall in HF. specialize (HF i Hi). simpl in HF. apply lookup_total_replicate_2. lia.
  - unfold Compute_Transpose, ComputeOutputShape. cbn [perm_specified_ perm_].
    assert (Hshort : ∀ k acc, (k ≤ length l)%nat → foldM (fun acc i =>
        inpdim ← of_option UndefinedBehaviour ((Z.to_nat <$> l) !! i);
        d ← of_option UndefinedBehaviour (dims !! inpdim);
        Ok (acc ++ [d])) acc (seq k (length dims - k)) = Throw UndefinedBehaviour).
    { intros k acc Hk. remember (length l - k)%nat as n eqn:En. revert k acc Hk En.
      induction n as [|n IH]; intros k acc Hk En;
        (destruct (length dims - k)%nat as [|m] eqn:Em; [lia|]); cbn [seq foldM]; rewrite list_lookup_fmap.
      - rewrite lookup_ge_None_2 by lia. done.
      - destruct (lookup_lt_is_Some_2 l k) as [p Hp]; [lia|]. rewrite Hp. cbn [fmap option_fmap option_map of_option mbind res_bind].
        rewrite Forall_lookup in HF. specialize (HF k p Hp). simpl in HF.
        destruct (lookup_lt_is_Some_2 dims (Z.to_nat p)) as [d Hd]; [lia|]. rewrite Hd. cbn [of_option mbind res_bind].
        replace m with (length dims - S k)%nat by lia. apply IH; lia. }
    specialize (Hshort 0%nat [] ltac:(lia)). rewrite Nat.sub_0_r in Hshort. rewrite Hshort. done.
Qed.

(** [DoTranspose] promises any element type but copies blocks with the size
    of a [float]: blocks of doubles are copied by half, blocks of bytes are
    copied past the end of the buffers, and strings are not copied at all. *)
Theorem transpose_block_size :
  DoTranspose [1; 0; 2]%nat Double Double [2; 2; 2] [2; 2; 2] (seq 0 64) (replicate 64 99%nat) =
    Ok (StatusOK, seq 0 8 ++ replicate 8 99%nat ++ seq 32 8 ++ replicate 8 99%nat ++
                  seq 16 8 ++ replicate 8 99%nat ++ seq 48 8 ++ replicate 8 99%nat) ∧
  DoTranspose [1; 0; 2]%nat Int8 Int8 [2; 2; 2] [2; 2; 2] (seq 0 8) (replicate 8 99%nat) = Throw UndefinedBehaviour ∧
  DoTranspose [1; 0]%nat StringType StringType [1; 2] [2; 1] [1; 2]%nat [0; 0]%nat = Ok (StatusOK, [0; 0]%nat).
Proof. split_and!; vm_compute; reflexivity. Qed.
