(* ===== verification/Broadcast.v ===== *)
(** The broadcasting element-wise kernels of [element_wise_ops.h] and
    [element_wise_ops.cc]: the iterators that walk two tensors of different
    shapes in step with the output, and the kernels built on them. *)
From S2P Require Import Prelude TensorShape.

(** ** The iterator of one input *)

Record BroadcastIterator := mkBroadcastIterator {
  counters_ : list Z;
  deltas_ : list Z;
  counts_ : list Z;
  count_ : Z;
  index_ : Z;
}.
Definition new_BroadcastIterator : BroadcastIterator := mkBroadcastIterator [] [] [] 1 0.

(** [back()] and [front()] of a vector that has one. *)
Definition back (l : list Z) : Z := l !!! pred (length l).
Definition front (l : list Z) : Z := l !!! 0%nat.

(** The loop of [AdvanceBy] over the counters behind the first one. *)
Fixpoint advance_counters (counters deltas counts : list Z) (index : Z) : list Z * Z :=
  match counters, deltas, counts with
  | c :: counters', d :: deltas', n :: counts' =>
      let index := u64 (index + d) in
      let c := i64 (c + 1) in
      if negb (c =? n) then (c :: counters', index)
      else let '(counters', index) := advance_counters counters' deltas' counts' index in (0 :: counters', index)
  | _, _, _ => (counters, index)
  end.
Definition AdvanceBy (it : BroadcastIterator) (delta : Z) : Z * BroadcastIterator :=
  let index := index_ it in
  let index' := u64 (index_ it + front (deltas_ it) * delta) in
  let c0 := i64 (front (counters_ it) + delta) in
  let '(counters, index') :=
    if c0 =? front (counts_ it)
    then let '(cs, i) := advance_counters (tail (counters_ it)) (tail (deltas_ it)) (tail (counts_ it)) index' in (0 :: cs, i)
    else (c0 :: tail (counters_ it), index') in
  (index, mkBroadcastIterator counters (deltas_ it) (counts_ it) (count_ it) index').

Definition Init (it : BroadcastIterator) (axis largest : Z) : res BroadcastIterator :=
  _ ← enforce ((axis =? 1) || (axis =? largest));
  Ok (mkBroadcastIterator (counters_ it) (deltas_ it ++ [if 1 <? axis then 1 else 0]) (counts_ it ++ [largest])
        (u64 (count_ it * axis)) (index_ it)).
Definition StopBroadcasting (it : BroadcastIterator) : BroadcastIterator :=
  mkBroadcastIterator (counters_ it) (deltas_ it ++ [i64 (count_ it)]) (counts_ it ++ [1]) (count_ it) (index_ it).
Definition StartBroadcasting (it : BroadcastIterator) : BroadcastIterator :=
  mkBroadcastIterator (counters_ it) (deltas_ it ++ [i64 (- count_ it)]) (counts_ it ++ [1]) (count_ it) (index_ it).
Definition Append (it : BroadcastIterator) (axis largest : Z) : res BroadcastIterator :=
  _ ← enforce ((axis =? 1) || (axis =? largest));
  let it := if 1 <? axis then (if back (deltas_ it) <=? 0 then StopBroadcasting it else it)
            else (if 0 <? back (deltas_ it) then StartBroadcasting it else it) in
  Ok (mkBroadcastIterator (counters_ it) (deltas_ it)
        (alter (fun n => i64 (n * largest)) (pred (length (counts_ it))) (counts_ it))
        (u64 (count_ it * axis)) (index_ it)).
Definition resize_counters (it : BroadcastIterator) : BroadcastIterator :=
  mkBroadcastIterator (replicate (length (counts_ it)) 0) (deltas_ it) (counts_ it) (count_ it) (index_ it).

(** ** The two iterators *)

Record Broadcaster := mkBroadcaster {
  iterator1_ : BroadcastIterator;
  iterator2_ : BroadcastIterator;
  output_shape_ : list Z;
}.
Definition Init2 (b : Broadcaster) (axis1 axis2 largest : Z) : res Broadcaster :=
  it1 ← Init (iterator1_ b) axis1 largest; it2 ← Init (iterator2_ b) axis2 largest;
  Ok (mkBroadcaster it1 it2 (output_shape_ b)).
Definition Append2 (b : Broadcaster) (axis1 axis2 largest : Z) : res Broadcaster :=
  it1 ← Append (iterator1_ b) axis1 largest; it2 ← Append (iterator2_ b) axis2 largest;
  Ok (mkBroadcaster it1 it2 (output_shape_ b)).
Definition push_output (b : Broadcaster) (axis : Z) : Broadcaster :=
  mkBroadcaster (iterator1_ b) (iterator2_ b) (axis :: output_shape_ b).

(** The first loop; the shapes are walked from their ends, so [iter1] and
    [iter2] are reversed. *)
Fixpoint first_axes (iter1 iter2 : list Z) (b : Broadcaster) : res (list Z * list Z * Broadcaster) :=
  match iter1, iter2 with
  | axis1 :: iter1', axis2 :: iter2' =>
      let largest := Z.max axis1 axis2 in
      let b := push_output b largest in
      if (largest =? 1) && negb (bool_decide (iter1' = [] ∨ iter2' = [])) then first_axes iter1' iter2' b
      else b ← Init2 b axis1 axis2 largest; Ok (iter1', iter2', b)
  | _, _ => Ok (iter1, iter2, b)
  end.
(** The second loop. *)
Fixpoint shared_axes (iter1 iter2 : list Z) (b : Broadcaster) : res (list Z * list Z * Broadcaster) :=
  match iter1, iter2 with
  | axis1 :: iter1', axis2 :: iter2' =>
      let largest := Z.max axis1 axis2 in
      let b := push_output b largest in
      if largest =? 1 then shared_axes iter1' iter2' b
      else b ← Append2 b axis1 axis2 largest; shared_axes iter1' iter2' b
  | _, _ => Ok (iter1, iter2, b)
  end.
(** The third loop, over the longer shape. *)
Fixpoint longer_axes (second : bool) (iter : list Z) (b : Broadcaster) : res Broadcaster :=
  match iter with
  | [] => Ok b
  | axis :: iter' =>
      b ← (if second then Append2 b 1 axis axis else Append2 b axis 1 axis);
      longer_axes second iter' (push_output b axis)
  end.
(** The scalar cases, or else the first loop. *)
Definition start_axes (iter1 iter2 : list Z) (b : Broadcaster) : res (list Z * list Z * Broadcaster) :=
  match iter1, iter2 with
  | [], [] => b ← Init2 b 1 1 1; Ok ([], [], b)
  | [], axis :: iter2' => b ← Init2 b 1 axis axis; Ok ([], iter2', push_output b axis)
  | axis :: iter1', [] => b ← Init2 b axis 1 axis; Ok (iter1', [], push_output b axis)
  | _, _ => first_axes iter1 iter2 b
  end.
Definition new_Broadcaster (shape1 shape2 : list Z) : res Broadcaster :=
  '(iter1, iter2, b) ← start_axes (reverse shape1) (reverse shape2)
                         (mkBroadcaster new_BroadcastIterator new_BroadcastIterator []);
  '(iter1, iter2, b) ← shared_axes iter1 iter2 b;
  let second := (Nat.max (length shape1) (length shape2) =? length shape2)%nat in
  b ← longer_axes second (if second then iter2 else iter1) b;
  Ok (mkBroadcaster (resize_counters (iterator1_ b)) (resize_counters (iterator2_ b)) (output_shape_ b)).
Definition GetSpanSize (b : Broadcaster) : Z := Z.min (front (counts_ (iterator1_ b))) (front (counts_ (iterator2_ b))).
Definition IsInput0Scalar (b : Broadcaster) : bool := front (deltas_ (iterator1_ b)) =? 0.
Definition IsInput1Scalar (b : Broadcaster) : bool := front (deltas_ (iterator2_ b)) =? 0.

(** ** The loop over the output *)

Section loop.
Context {A C : Type}.
Implicit Types (input : list A) (output : list C).

(** [NextScalar] and [NextSpan]: reads of one or [span] elements. *)
Definition read_scalar input (pos : Z) : res A := of_option UndefinedBehaviour (input !! Z.to_nat pos).
Definition read_span input (pos span : Z) : res (list A) :=
  if pos + span <=? Z.of_nat (length input) then Ok (take (Z.to_nat span) (drop (Z.to_nat pos) input))
  else Throw UndefinedBehaviour.
(** The assignment to the span at [pos] of the output. *)
Definition write_span output (pos span : Z) (v : list C) : res (list C) :=
  if pos + span <=? Z.of_nat (length output)
  then Ok (take (Z.to_nat pos) output ++ v ++ drop (Z.to_nat (pos + span)) output)
  else Throw UndefinedBehaviour.

Section functions.
Context (input0scalar : A → list A → list C) (input1scalar : list A → A → list C) (general : list A → list A → list C).

(** One iteration of [BroadcastLoop], on the branch of the two flags. *)
Definition broadcast_span (scalar0 scalar1 : bool) (span : Z) input0 input1 (pos1 pos2 : Z) : res (list C) :=
  if scalar0 then x ← read_scalar input0 pos1; l ← read_span input1 pos2 span; Ok (input0scalar x l)
  else if scalar1 then l ← read_span input0 pos1 span; x ← read_scalar input1 pos2; Ok (input1scalar l x)
  else l1 ← read_span input0 pos1 span; l2 ← read_span input1 pos2 span; Ok (general l1 l2).
Fixpoint broadcast_loop (fuel : nat) (scalar0 scalar1 : bool) (span : Z) input0 input1 (it1 it2 : BroadcastIterator)
    (output_ output_end_ : Z) output : res (list C) :=
  match fuel with
  | O => OutOfFuel
  | S fuel' =>
      if output_ =? output_end_ then Ok output else
      let '(pos1, it1) := AdvanceBy it1 span in
      let '(pos2, it2) := AdvanceBy it2 span in
      v ← broadcast_span scalar0 scalar1 span input0 input1 pos1 pos2;
      output ← write_span output output_ span v;
      broadcast_loop fuel' scalar0 scalar1 span input0 input1 it1 it2 (output_ + span) output_end_ output
  end.
Definition BroadcastLoop (b : Broadcaster) input0 input1 output : res (list C) :=
  broadcast_loop (S (length output)) (IsInput0Scalar b) (IsInput1Scalar b) (GetSpanSize b) input0 input1
    (iterator1_ b) (iterator2_ b) 0 (Size (output_shape_ b)) output.

(** [BroadcastTwo]; [allocate] is the memory of the output tensor of the
    context, or of a temporary one. *)
Definition BroadcastTwo (allocate : Z → list C) (shape1 : list Z) input0 (shape2 : list Z) input1 :
    res (list Z * list C) :=
  b ← new_Broadcaster shape1 shape2;
  output ← BroadcastLoop b input0 input1 (allocate (Size (output_shape_ b)));
  Ok (output_shape_ b, output).
End functions.
End loop.

(** [BroadcastVariadic]: the first two inputs, then the result with each other
    input. *)
Definition BroadcastVariadic {A} (input0scalar : A → list A → list A) (input1scalar : list A → A → list A)
    (general : list A → list A → list A) (allocate : Z → list A) (inputs : list (list Z * list A)) :
    res (list Z * list A) :=
  match inputs with
  | [] => Throw EnforceFailed
  | input :: inputs' =>
      foldM (fun tensor0 tensor1 => BroadcastTwo input0scalar input1scalar general allocate
                                      (fst tensor0) (snd tensor0) (fst tensor1) (snd tensor1)) input inputs'
  end.

(** ** The kernels *)

(** The arithmetic of an element type.  [div] is [None] where a quotient of the
    type is undefined, as for an integer divided by zero. *)
Class Numeric (T : Type) := {
  add : T → T → T;
  sub : T → T → T;
  mul : T → T → T;
  div : T → T → option T;
  eqb : T → T → bool;
  ltb : T → T → bool;
  gtb : T → T → bool;
}.
(** [a > b] is [b < a], and equality is symmetric. *)
Class NumericLaws (T : Type) `{!Numeric T} : Prop := {
  gtb_ltb (a b : T) : gtb a b = ltb b a;
  eqb_sym (a b : T) : eqb a b = eqb b a;
}.

Section arithmetic.
Context {T : Type} `{!Numeric T}.

Definition Add_Compute : (Z → list T) → list Z → list T → list Z → list T → res (list Z * list T) :=
  BroadcastTwo (fun input0 input1 => (fun y => add input0 y) <$> input1)
    (fun input0 input1 => (fun x => add x input1) <$> input0) (zip_with add).
Definition Sub_Compute : (Z → list T) → list Z → list T → list Z → list T → res (list Z * list T) :=
  BroadcastTwo (fun input0 input1 => (fun y => sub input0 y) <$> input1)
    (fun input0 input1 => (fun x => sub x input1) <$> input0) (zip_with sub).
Definition Mul_Compute : (Z → list T) → list Z → list T → list Z → list T → res (list Z * list T) :=
  BroadcastTwo (fun input0 input1 => (fun y => mul input0 y) <$> input1)
    (fun input0 input1 => (fun x => mul x input1) <$> input0) (zip_with mul).
(** One undefined quotient makes the whole run undefined. *)
Definition Div_Compute (allocate : Z → list T) (s1 : list Z) (a : list T) (s2 : list Z) (b : list T) :
    res (list Z * list T) :=
  '(shape, quotients) ← BroadcastTwo (fun input0 input1 => (fun y => div input0 y) <$> input1)
    (fun input0 input1 => (fun x => div x input1) <$> input0) (zip_with div) (fun n => Some <$> allocate n) s1 a s2 b;
  output ← of_option UndefinedBehaviour (mapM id quotients);
  Ok (shape, output).
Definition Equal_Compute : (Z → list bool) → list Z → list T → list Z → list T → res (list Z * list bool) :=
  BroadcastTwo (fun input0 input1 => (fun y => eqb y input0) <$> input1)
    (fun input0 input1 => (fun x => eqb x input1) <$> input0) (zip_with eqb).
Definition Less_Compute : (Z → list bool) → list Z → list T → list Z → list T → res (list Z * list bool) :=
  BroadcastTwo (fun input0 input1 => (fun y => gtb y input0) <$> input1)
    (fun input0 input1 => (fun x => ltb x input1) <$> input0) (zip_with ltb).
Definition Greater_Compute : (Z → list bool) → list Z → list T → list Z → list T → res (list Z * list bool) :=
  BroadcastTwo (fun input0 input1 => (fun y => ltb y input0) <$> input1)
    (fun input0 input1 => (fun x => gtb x input1) <$> input0) (zip_with gtb).
Definition Sum_8_Compute : (Z → list T) → list (list Z * list T) → res (list Z * list T) :=
  BroadcastVariadic (fun input0 input1 => (fun y => add input0 y) <$> input1)
    (fun input0 input1 => (fun x => add x input1) <$> input0) (zip_with add).
(** [Sum_6] takes inputs of one shape. *)
Definition Sum_6_Compute (inputs : list (list Z * list T)) : res (list Z * list T) :=
  match inputs with
  | [] => Throw EnforceFailed
  | (shape, data_0) :: inputs' =>
      sum ← foldM (fun sum input => _ ← enforce (bool_decide (fst input = shape)); Ok (zip_with add sum (snd input)))
              data_0 inputs';
      Ok (shape, sum)
  end.
End arithmetic.

Definition And_Compute : (Z → list bool) → list Z → list bool → list Z → list bool → res (list Z * list bool) :=
  BroadcastTwo (fun (input0 : bool) input1 => if input0 then input1 else (fun _ => false) <$> input1)
    (fun input0 (input1 : bool) => if input1 then input0 else (fun _ => false) <$> input0) (zip_with andb).
Definition Or_Compute : (Z → list bool) → list Z → list bool → list Z → list bool → res (list Z * list bool) :=
  BroadcastTwo (fun (input0 : bool) input1 => if input0 then (fun _ => true) <$> input1 else input1)
    (fun input0 (input1 : bool) => if input1 then (fun _ => true) <$> input0 else input0) (zip_with orb).
Definition Xor_Compute : (Z → list bool) → list Z → list bool → list Z → list bool → res (list Z * list bool) :=
  BroadcastTwo (fun (input0 : bool) input1 => if input0 then negb <$> input1 else input1)
    (fun input0 (input1 : bool) => if input1 then negb <$> input0 else input0) (zip_with xorb).
Definition Not_Compute (shape : list Z) (input : list bool) : list Z * list bool := (shape, negb <$> input).

(** Two's complement integers of 32 bits.  A quotient by zero and the quotient
    of the least number by -1, which has no representation, are undefined. *)
#[export] Instance int32_numeric : Numeric Z := {|
  add a b := i32 (a + b);
  sub a b := i32 (a - b);
  mul a b := i32 (a * b);
  div a b := if (b =? 0) || ((a =? - 2 ^ 31) && (b =? -1)) then None else Some (Z.quot a b);
  eqb a b := a =? b;
  ltb a b := a <? b;
  gtb a b := b <? a;
|}.
#[export] Instance int32_laws : NumericLaws Z.
Proof. split; [done|]. intros a b. apply Z.eqb_sym. Qed.
