(* ===== verification/BroadcastInv.v ===== *)
(** What the groups of a broadcasting iterator mean: the position it reports
    after [p] elements of the output, and the invariant its construction
    keeps. *)
From S2P Require Import Prelude TensorShape Transpose TransposeProps Broadcast.

(** ** Positions and counters *)

(** The position after [p] elements: the delta of a group is added whenever the
    groups in front of it are run through. *)
Fixpoint pos (ds ns : list Z) (p : Z) : Z :=
  match ds, ns with
  | d :: ds', n :: ns' => d * p + pos ds' ns' (p / n)
  | _, _ => 0
  end.
(** The counters after [p] elements. *)
Fixpoint digits (ns : list Z) (p : Z) : list Z :=
  match ns with
  | [] => []
  | n :: ns' => p mod n :: digits ns' (p / n)
  end.

Lemma div_mod_succ m k :
  1 ≤ k → (m mod k + 1 = k ∧ (m + 1) mod k = 0 ∧ (m + 1) / k = m / k + 1) ∨
          (m mod k + 1 < k ∧ (m + 1) mod k = m mod k + 1 ∧ (m + 1) / k = m / k).
Proof.
  intros Hk. pose proof (Z.mod_pos_bound m k ltac:(lia)) as Hb. pose proof (Z.div_mod m k ltac:(lia)) as Hd.
  destruct (decide (m mod k + 1 = k)) as [E|E]; [left|right].
  - destruct (Z.div_mod_unique k (m / k + 1) ((m + 1) / k) 0 ((m + 1) mod k)) as [E1 E2]; [lia|left; apply Z.mod_pos_bound; lia| |lia].
    pose proof (Z.div_mod (m + 1) k ltac:(lia)). lia.
  - destruct (Z.div_mod_unique k (m / k) ((m + 1) / k) (m mod k + 1) ((m + 1) mod k)) as [E1 E2];
      [lia|left; apply Z.mod_pos_bound; lia| |lia].
    pose proof (Z.div_mod (m + 1) k ltac:(lia)). lia.
Qed.

Lemma u64_idemp z : u64 (u64 z) = u64 z.
Proof. unfold u64. by rewrite Z.mod_mod. Qed.
Lemma u64_add_l a b : u64 (u64 a + b) = u64 (a + b).
Proof. unfold u64. by rewrite Z.add_mod_idemp_l. Qed.

Lemma advance_counters_spec ds ns p index :
  length ds = length ns → Forall (fun n => 1 ≤ n < 2 ^ 63) ns →
  advance_counters (digits ns p) ds ns (u64 index) = (digits ns (p + 1), u64 (index + pos ds ns (p + 1) - pos ds ns p)).
Proof.
  intros Hl Hn. revert ds p index Hl. induction Hn as [|n ns Hn Hns IH]; intros [|d ds] p index Hl; try discriminate Hl; [|injection Hl as Hl]; simpl.
  { do 2 f_equal. lia. }
  pose proof (Z.mod_pos_bound p n ltac:(lia)). rewrite u64_add_l.
  destruct (div_mod_succ p n ltac:(lia)) as [(E1 & E2 & E3)|(E1 & E2 & E3)]; rewrite E2, E3, i64_small by lia.
  - rewrite (proj2 (Z.eqb_eq _ _)) by lia. simpl. rewrite IH by done. do 2 f_equal. lia.
  - rewrite (proj2 (Z.eqb_neq _ _)) by lia. simpl. do 2 f_equal. lia.
Qed.

(** [AdvanceBy] moves from one multiple of the span to the next. *)
Lemma AdvanceBy_spec d0 ds n0 ns count p span :
  length ds = length ns → Forall (fun n => 1 ≤ n < 2 ^ 63) (n0 :: ns) → 1 ≤ span → (span | n0) → (span | p) →
  let it p := mkBroadcastIterator (digits (n0 :: ns) p) (d0 :: ds) (n0 :: ns) count (u64 (pos (d0 :: ds) (n0 :: ns) p)) in
  AdvanceBy (it p) span = (u64 (pos (d0 :: ds) (n0 :: ns) p), it (p + span)).
Proof.
  intros Hl [Hn0 Hns]%Forall_cons_1 Hs [k ->] [m ->]. cbn zeta. unfold AdvanceBy, front. simpl.
  assert (Hk : 1 ≤ k) by nia.
  rewrite <- Z.mul_succ_l, !Z.mul_mod_distr_r, !Z.div_mul_cancel_r by lia. unfold Z.succ. rewrite u64_add_l.
  pose proof (Z.mod_pos_bound m k ltac:(lia)). rewrite i64_small by nia.
  destruct (div_mod_succ m k ltac:(lia)) as [(E1 & E2 & E3)|(E1 & E2 & E3)]; rewrite E2, E3.
  - rewrite (proj2 (Z.eqb_eq _ _)) by nia. rewrite advance_counters_spec by done. do 3 f_equal. lia.
  - rewrite (proj2 (Z.eqb_neq _ _)) by nia. f_equal. f_equal; [f_equal; lia|f_equal; lia].
Qed.

(** Inside a span the position moves with the first delta. *)
Lemma pos_within d0 ds n0 ns p span t :
  1 ≤ n0 → (span | n0) → (span | p) → 0 ≤ t < span →
  pos (d0 :: ds) (n0 :: ns) (p + t) = pos (d0 :: ds) (n0 :: ns) p + d0 * t.
Proof.
  intros Hn0 [k ->] [m ->] Ht. simpl.
  assert (E : (m * span + t) / (k * span) = m * span / (k * span)).
  { assert (0 < k) by nia. rewrite (Z.mul_comm k), <- (Z.div_div (m * span + t)), <- (Z.div_div (m * span)) by lia.
    rewrite Z.div_add_l, Z.div_mul, (Z.div_small t) by lia. by rewrite Z.add_0_r. }
  rewrite E. lia.
Qed.

Lemma pos_snoc ds ns d n p :
  length ds = length ns → Forall (fun n => 1 ≤ n) ns →
  pos (ds ++ [d]) (ns ++ [n]) p = pos ds ns p + d * (p / prodZ ns).
Proof.
  intros Hl Hn. revert ds p Hl. induction Hn as [|m ns Hm Hns IH]; intros [|e ds] p Hl; try discriminate Hl; [|injection Hl as Hl]; simpl.
  { rewrite Z.div_1_r. lia. }
  rewrite IH by done. pose proof (prodZ_pos _ Hns). rewrite Z.div_div by lia. lia.
Qed.

(** ** Row-major positions by dimension *)

Lemma valid_index_cons d dims i idx : valid_index (d :: dims) (i :: idx) ↔ 0 ≤ i < d ∧ valid_index dims idx.
Proof.
  unfold valid_index. simpl. split.
  - intros [Hl Hr]. split_and!; [apply (Hr 0%nat); lia|apply (Hr 0%nat); lia|lia|].
    intros j Hj. apply (Hr (S j)). lia.
  - intros [Hi [Hl Hr]]. split; [lia|]. intros [|j] Hj; [done|]. apply Hr. lia.
Qed.
Lemma valid_index_nil idx : valid_index [] idx → idx = [].
Proof. intros [Hl _]. by destruct idx. Qed.
(** Every position is the position of an index. *)
Lemma flat_surj dims p :
  Forall (fun d => 1 ≤ d) dims → 0 ≤ p < prodZ dims → ∃ idx, valid_index dims idx ∧ flat dims idx = p.
Proof.
  intros Hd. revert p. induction Hd as [|d dims Hd Hds IH]; intros p Hp; simpl in Hp.
  - exists []. split; [split; [done|simpl; lia]|]. unfold flat. simpl. lia.
  - pose proof (prodZ_pos _ Hds). destruct (IH (p mod prodZ dims)) as (idx & Hv & E); [apply Z.mod_pos_bound; lia|].
    exists (p / prodZ dims :: idx). rewrite flat_cons, valid_index_cons, E. split_and!; [|..|done|].
    + apply Z.div_pos; lia.
    + apply Z.div_lt_upper_bound; lia.
    + rewrite (Z.div_mod p (prodZ dims)) at 3 by lia. lia.
Qed.

(** The index that reads a tensor with dimensions [axes] in place of one with
    larger ones: an axis of size one is always read at 0. *)
Definition broadcast_index (axes idx : list Z) : list Z := zip_with (fun a i => if a =? 1 then 0 else i) axes idx.

Lemma broadcast_index_bound axes outs idx :
  Forall2 (fun a o => (a = 1 ∨ a = o) ∧ 1 ≤ o) axes outs → valid_index outs idx →
  valid_index axes (broadcast_index axes idx).
Proof.
  intros H. revert idx. induction H as [|a o axes outs [Ha Ho] H IH]; intros idx Hv.
  - apply valid_index_nil in Hv as ->. split; [done|simpl; lia].
  - destruct idx as [|i idx]; [destruct Hv as [? _]; done|]. apply valid_index_cons in Hv as [Hi Hv]. simpl.
    apply valid_index_cons. split; [|auto]. destruct (Z.eqb_spec a 1); lia.
Qed.

(** ** The invariant of an iterator under construction *)

(** [axes] and [outs] are the dimensions of the input and of the output that
    have been processed, outermost first. *)
Record it_inv (it : BroadcastIterator) (axes outs : list Z) : Prop := {
  ii_compat : Forall2 (fun a o => (a = 1 ∨ a = o) ∧ 1 ≤ o) axes outs;
  ii_count : count_ it = prodZ axes;
  ii_index : index_ it = 0;
  ii_len : length (deltas_ it) = length (counts_ it);
  ii_nonempty : counts_ it ≠ [];
  ii_counts : Forall (fun n => 1 ≤ n) (counts_ it);
  ii_prod : prodZ (counts_ it) = prodZ outs;
  ii_slope p q : 0 ≤ q →
    pos (deltas_ it) (counts_ it) (p + q * prodZ outs) =
    pos (deltas_ it) (counts_ it) p + q * (if 0 <? back (deltas_ it) then prodZ axes else 0);
  ii_value idx : valid_index outs idx →
    pos (deltas_ it) (counts_ it) (flat outs idx) = flat axes (broadcast_index axes idx);
  ii_front : ∃ j, front (counts_ it) = prodZ (drop j outs) ∧ (length (counts_ it) = 1%nat → j = 0%nat) ∧
    (front (deltas_ it) = 0 ∧ Forall (fun a => a = 1) (drop j axes) ∨ front (deltas_ it) = 1);
}.

Lemma compat_pos axes outs :
  Forall2 (fun a o => (a = 1 ∨ a = o) ∧ 1 ≤ o) axes outs →
  Forall (fun a => 1 ≤ a) axes ∧ Forall (fun o => 1 ≤ o) outs ∧ prodZ axes ≤ prodZ outs.
Proof.
  induction 1 as [|a o axes outs [Ha Ho] _ (IH1 & IH2 & IH3)]; [done|].
  split_and!; [constructor; [lia|done]|by constructor|]. simpl. pose proof (prodZ_pos _ IH1). nia.
Qed.
Lemma back_snoc l x : back (l ++ [x]) = x.
Proof.
  unfold back. rewrite length_app. simpl. rewrite Nat.add_1_r. simpl. rewrite lookup_total_app_r by lia.
  by rewrite Nat.sub_diag.
Qed.
Lemma front_snoc l x : l ≠ [] → front (l ++ [x]) = front l.
Proof. by destruct l. Qed.
Lemma snoc_inv {A} (l : list A) : l ≠ [] → ∃ l' x, l = l' ++ [x].
Proof. destruct l as [|x l' _] using rev_ind; [done|eauto]. Qed.
Lemma alter_last f l (x : Z) : alter f (pred (length (l ++ [x]))) (l ++ [x]) = l ++ [f x].
Proof.
  rewrite length_app. simpl. rewrite Nat.add_1_r. simpl. induction l as [|y l IH]; simpl; [done|]. f_equal. exact IH.
Qed.

(** A group whose delta is [d] times the elements of the input so far. *)
Lemma push_group_inv it axes outs d d' :
  it_inv it axes outs → d' = d * prodZ axes →
  (if 0 <? back (deltas_ it) then prodZ axes else 0) + d' = (if 0 <? d' then prodZ axes else 0) →
  it_inv (mkBroadcastIterator (counters_ it) (deltas_ it ++ [d']) (counts_ it ++ [1]) (count_ it) (index_ it)) axes outs.
Proof.
  intros [Hc Hcnt Hi Hl Hne Hcs Hp Hs Hv (j & Hf1 & Hf2 & Hf3)] Hd Hback.
  destruct (compat_pos _ _ Hc) as (Ha & Ho & Hle). pose proof (prodZ_pos _ Ho).
  assert (Hdne : deltas_ it ≠ []) by (intros E; rewrite E in Hl; destruct (counts_ it); done).
  split; simpl; [done|done|done| | | | | | |].
  - rewrite !length_app. simpl. lia.
  - by destruct (counts_ it).
  - apply Forall_app. split; [done|]. constructor; [lia|constructor].
  - rewrite prodZ_app, Hp. simpl. lia.
  - intros p q Hq. rewrite !pos_snoc, Hs, Hp, Z.div_add, back_snoc by (done || lia). rewrite <- Hback. lia.
  - intros idx Hidx. rewrite pos_snoc, Hp, Hv by done. pose proof (flat_bound _ _ Hidx). rewrite Z.div_small by lia. lia.
  - exists j. rewrite !front_snoc by done. split_and!; [done| |done]. rewrite length_app. simpl.
    destruct (counts_ it); simpl; [done|lia].
Qed.

Lemma StopBroadcasting_inv it axes outs :
  it_inv it axes outs → prodZ outs < 2 ^ 63 → back (deltas_ it) ≤ 0 →
  it_inv (StopBroadcasting it) axes outs ∧ 0 < back (deltas_ (StopBroadcasting it)).
Proof.
  intros H Hlt Hb. destruct (compat_pos _ _ (ii_compat _ _ _ H)) as (Ha & Ho & Hle). pose proof (prodZ_pos _ Ha).
  unfold StopBroadcasting. simpl. rewrite back_snoc, (ii_count _ _ _ H), i64_small by lia. split; [|lia].
  rewrite <- (ii_count _ _ _ H) at 2. apply (push_group_inv _ _ _ 1); [done|lia|].
  destruct (Z.ltb_spec 0 (back (deltas_ it))); [lia|]. destruct (Z.ltb_spec 0 (prodZ axes)); lia.
Qed.
Lemma StartBroadcasting_inv it axes outs :
  it_inv it axes outs → prodZ outs < 2 ^ 63 → 0 < back (deltas_ it) →
  it_inv (StartBroadcasting it) axes outs ∧ back (deltas_ (StartBroadcasting it)) ≤ 0.
Proof.
  intros H Hlt Hb. destruct (compat_pos _ _ (ii_compat _ _ _ H)) as (Ha & Ho & Hle). pose proof (prodZ_pos _ Ha).
  unfold StartBroadcasting. simpl. rewrite back_snoc, (ii_count _ _ _ H), i64_small by lia. split; [|lia].
  rewrite <- (ii_count _ _ _ H) at 2. apply (push_group_inv _ _ _ (-1)); [done|lia|].
  destruct (Z.ltb_spec 0 (back (deltas_ it))); [|lia]. destruct (Z.ltb_spec 0 (- prodZ axes)); lia.
Qed.

(** The last group grows by an axis of its kind. *)
Lemma grow_inv it axes outs axis largest :
  it_inv it axes outs → (axis = 1 ∨ axis = largest) → 1 ≤ largest → largest * prodZ outs < 2 ^ 63 →
  (1 < axis ↔ 0 < back (deltas_ it)) →
  it_inv (mkBroadcastIterator (counters_ it) (deltas_ it)
    (alter (fun n => i64 (n * largest)) (pred (length (counts_ it))) (counts_ it)) (u64 (count_ it * axis)) (index_ it))
    (axis :: axes) (largest :: outs).
Proof.
  intros [Hc Hcnt Hi Hl Hne Hcs Hp Hs Hv (j & Hf1 & Hf2 & Hf3)] Hax Hlg Hlt Hkind.
  destruct (compat_pos _ _ Hc) as (Ha & Ho & Hle). pose proof (prodZ_pos _ Ho). pose proof (prodZ_pos _ Ha).
  destruct (snoc_inv (counts_ it) Hne) as (ns & n & En). rewrite En in *. rewrite length_app in Hl. simpl in Hl.
  destruct (snoc_inv (deltas_ it)) as (ds & d & Ed); [intros E; rewrite E in Hl; simpl in Hl; lia|]. rewrite Ed in *.
  rewrite length_app in Hl. simpl in Hl. rewrite back_snoc in *. rewrite alter_last.
  apply Forall_app in Hcs as [Hns Hn]. apply Forall_cons_1 in Hn as [Hn _].
  rewrite prodZ_app in Hp. simpl in Hp. pose proof (prodZ_pos _ Hns). rewrite i64_small by nia.
  assert (Epos : ∀ p, pos (ds ++ [d]) (ns ++ [n * largest]) p = pos (ds ++ [d]) (ns ++ [n]) p).
  { intros p. by rewrite !pos_snoc by (done || lia). }
  assert (Eslope : (if 0 <? d then prodZ axes else 0) * largest = (if 0 <? d then axis * prodZ axes else 0)).
  { destruct (Z.ltb_spec 0 d); nia. }
  split; cbn [counters_ deltas_ counts_ count_ index_ prodZ foldr].
  - constructor; [lia|done].
  - rewrite Hcnt, u64_small by nia. fold (prodZ axes). lia.
  - done.
  - rewrite !length_app. simpl. lia.
  - by destruct ns.
  - apply Forall_app. split; [done|]. constructor; [nia|constructor].
  - rewrite prodZ_app. fold (prodZ outs). simpl. nia.
  - intros p q Hq. rewrite !Epos. fold (prodZ outs) (prodZ axes). rewrite back_snoc.
    replace (q * (largest * prodZ outs)) with (q * largest * prodZ outs) by lia. rewrite Hs by nia. nia.
  - intros idx Hidx. rewrite Epos. destruct idx as [|i idx]; [by destruct Hidx|].
    apply valid_index_cons in Hidx as [Hir Hidx]. simpl. rewrite !flat_cons. rewrite Z.add_comm, Hs, Hv by (done || lia).
    destruct (Z.ltb_spec 0 d), (Z.eqb_spec axis 1); lia.
  - destruct ns as [|n0 ns].
    + destruct ds as [|d0 ds]; [|simpl in Hl; lia]. exists 0%nat. specialize (Hf2 eq_refl) as ->.
      unfold front in *. simpl in *. rewrite drop_0 in Hf1, Hf3. split_and!; [rewrite Hf1; fold (prodZ outs); lia|done|].
      destruct Hf3 as [[Hd0 Hones]|?]; [left|by right]. split; [done|]. constructor; [lia|done].
    + exists (S j). rewrite front_snoc in * by done. simpl. split_and!; [done| |done].
      rewrite length_app. simpl. lia.
Qed.

Lemma Append_spec it axes outs axis largest :
  it_inv it axes outs → 1 ≤ axis ≤ largest → largest * prodZ outs < 2 ^ 63 →
  if decide (axis = 1 ∨ axis = largest)
  then ∃ it', Append it axis largest = Ok it' ∧ it_inv it' (axis :: axes) (largest :: outs)
  else Append it axis largest = Throw EnforceFailed.
Proof.
  intros H Hax Hlt. unfold Append. destruct (compat_pos _ _ (ii_compat _ _ _ H)) as (_ & Ho & _). pose proof (prodZ_pos _ Ho).
  destruct (decide _) as [Hc|Hc].
  - replace ((axis =? 1) || (axis =? largest)) with true
      by (symmetry; apply orb_true_iff; rewrite !Z.eqb_eq; done).
    simpl. eexists. split; [done|]. destruct (Z.ltb_spec 1 axis).
    + destruct (Z.leb_spec (back (deltas_ it)) 0) as [Hb|Hb].
      * destruct (StopBroadcasting_inv it axes outs H ltac:(nia) Hb) as [H' Hb']. apply (grow_inv (StopBroadcasting it)); [done|done|lia|done|lia].
      * apply grow_inv; [done|done|lia|done|lia].
    + destruct (Z.ltb_spec 0 (back (deltas_ it))) as [Hb|Hb].
      * destruct (StartBroadcasting_inv it axes outs H ltac:(nia) Hb) as [H' Hb']. apply (grow_inv (StartBroadcasting it)); [done|done|lia|done|lia].
      * apply grow_inv; [done|done|lia|done|lia].
  - replace ((axis =? 1) || (axis =? largest)) with false; [done|].
    symmetry. apply orb_false_iff. rewrite !Z.eqb_neq. naive_solver.
Qed.

(** Axes of size one in both shapes may be skipped, in front of the first
    group and behind it. *)
Lemma skip_inv it axes outs : it_inv it axes outs → it_inv it (1 :: axes) (1 :: outs).
Proof.
  intros [Hc Hcnt Hi Hl Hne Hcs Hp Hs Hv (j & Hf1 & Hf2 & Hf3)]. split; try done; cbn [prodZ foldr].
  - constructor; [lia|done].
  - rewrite Hcnt. fold (prodZ axes). lia.
  - rewrite Hp. fold (prodZ outs). lia.
  - intros p q Hq. fold (prodZ outs) (prodZ axes). rewrite !Z.mul_1_l. auto.
  - intros [|i idx] Hidx; [by destruct Hidx|]. apply valid_index_cons in Hidx as [Hir Hidx]. simpl.
    rewrite !flat_cons. assert (i = 0) as -> by lia. rewrite !Z.mul_0_l, !Z.add_0_l. auto.
  - destruct (decide (j = 0)%nat) as [->|Hj].
    + exists 0%nat. rewrite drop_0 in *. split_and!; [rewrite Hf1; simpl; lia|done|].
      destruct Hf3 as [[? ?]|?]; [left; split; [done|by constructor]|by right].
    + exists (S j). simpl. split_and!; [done|intros ?; naive_solver|done].
Qed.
Lemma Init_spec k axis largest :
  1 ≤ axis ≤ largest → largest < 2 ^ 63 →
  if decide (axis = 1 ∨ axis = largest)
  then ∃ it', Init new_BroadcastIterator axis largest = Ok it' ∧ it_inv it' (axis :: replicate k 1) (largest :: replicate k 1)
  else Init new_BroadcastIterator axis largest = Throw EnforceFailed.
Proof.
  intros Hax Hlt. unfold Init. destruct (decide _) as [Hc|Hc].
  - replace ((axis =? 1) || (axis =? largest)) with true
      by (symmetry; apply orb_true_iff; rewrite !Z.eqb_eq; done).
    simpl. eexists. split; [done|].
    assert (Hone : prodZ (replicate k 1) = 1) by (clear; induction k; simpl; lia).
    assert (Hz : ∀ idx, valid_index (replicate k 1) idx → flat (replicate k 1) idx = 0).
    { intros idx Hidx. pose proof (flat_bound _ _ Hidx). lia. }
    assert (Hb : ∀ idx, valid_index (replicate k 1) idx → flat (replicate k 1) (broadcast_index (replicate k 1) idx) = 0).
    { intros idx Hidx. apply Hz. eapply broadcast_index_bound; [|done]. clear. induction k; simpl; constructor; auto. lia. }
    split; cbn [counters_ deltas_ counts_ count_ index_ prodZ foldr app]; fold (prodZ (replicate k 1)); rewrite ?Hone.
    + constructor; [lia|]. clear. induction k; simpl; constructor; auto. lia.
    + rewrite u64_small by lia. lia.
    + done.
    + done.
    + done.
    + constructor; [lia|constructor].
    + lia.
    + intros p q Hq. unfold back. simpl. destruct (Z.ltb_spec 1 axis); simpl; nia.
    + intros [|i idx] Hidx; [by destruct Hidx|]. apply valid_index_cons in Hidx as [Hir Hidx]. simpl.
      rewrite !flat_cons, Hz, Hb, Hone by done. destruct (Z.ltb_spec 1 axis), (Z.eqb_spec axis 1); lia.
    + exists 0%nat. unfold front. simpl. rewrite Hone. split_and!; [lia|done|].
      destruct (Z.ltb_spec 1 axis); [by right|left]. split; [done|]. constructor; [lia|]. by apply Forall_replicate.
  - replace ((axis =? 1) || (axis =? largest)) with false; [done|].
    symmetry. apply orb_false_iff. rewrite !Z.eqb_neq. naive_solver.
Qed.
