(* ===== verification/BroadcastProps.v ===== *)
(** Correctness of the broadcasting kernels. *)
From S2P Require Import Prelude TensorShape Transpose TransposeProps Broadcast BroadcastInv.

(** ** The shapes *)

(** The pairs of dimensions of two shapes, innermost first; the shorter shape
    is filled up with ones. *)
Fixpoint zip_pad (iter1 iter2 : list Z) : list (Z * Z) :=
  match iter1, iter2 with
  | a :: iter1', b :: iter2' => (a, b) :: zip_pad iter1' iter2'
  | [], _ => (fun b => (1, b)) <$> iter2
  | _, [] => (fun a => (a, 1)) <$> iter1
  end.
(** The same outermost first. *)
Definition axis_pairs (shape1 shape2 : list Z) : list (Z * Z) := reverse (zip_pad (reverse shape1) (reverse shape2)).
Definition largest (p : Z * Z) : Z := Z.max (fst p) (snd p).
(** Two dimensions go together when they are equal or one of them is one. *)
Definition compatible (p : Z * Z) : Prop := fst p = 1 ∨ snd p = 1 ∨ fst p = snd p.
#[export] Instance compatible_dec p : Decision (compatible p).
Proof. apply _. Defined.

(** The iterators after the pairs [ps]. *)
Definition J (b : Broadcaster) (ps : list (Z * Z)) : Prop :=
  it_inv (iterator1_ b) ps.*1 (largest <$> ps) ∧ it_inv (iterator2_ b) ps.*2 (largest <$> ps).

Lemma J_push b ps x : J (push_output b x) ps ↔ J b ps.
Proof. done. Qed.
Lemma J_skip b ps : J b ps → J b ((1, 1) :: ps).
Proof. intros [H1 H2]. split; simpl; by apply skip_inv. Qed.

Lemma Append2_spec b ps p :
  J b ps → 1 ≤ fst p → 1 ≤ snd p → largest p * prodZ (largest <$> ps) < 2 ^ 63 →
  if decide (compatible p)
  then ∃ it1 it2, Append2 b (fst p) (snd p) (largest p) = Ok (mkBroadcaster it1 it2 (output_shape_ b)) ∧
       J (mkBroadcaster it1 it2 (output_shape_ b)) (p :: ps)
  else Append2 b (fst p) (snd p) (largest p) = Throw EnforceFailed.
Proof.
  destruct p as [a1 a2]. simpl. intros [H1 H2] Ha1 Ha2 Hlt. unfold Append2, largest in *. simpl in *.
  pose proof (Append_spec _ _ _ a1 (Z.max a1 a2) H1 ltac:(lia) Hlt) as S1.
  pose proof (Append_spec _ _ _ a2 (Z.max a1 a2) H2 ltac:(lia) Hlt) as S2.
  destruct (decide (compatible _)) as [Hc|Hc]; unfold compatible in Hc; simpl in Hc.
  - rewrite decide_True in S1 by lia. rewrite decide_True in S2 by lia. destruct S1 as (it1 & -> & I1), S2 as (it2 & -> & I2). simpl.
    exists it1, it2. split; [done|]. by split.
  - destruct (decide (a1 = 1 ∨ a1 = Z.max a1 a2)) as [C1|C1]; [|by rewrite S1].
    destruct S1 as (it1 & -> & I1). simpl. rewrite decide_False in S2 by lia. by rewrite S2.
Qed.
Lemma Init2_spec outs k p :
  1 ≤ fst p → 1 ≤ snd p → largest p < 2 ^ 63 →
  if decide (compatible p)
  then ∃ it1 it2, Init2 (mkBroadcaster new_BroadcastIterator new_BroadcastIterator outs) (fst p) (snd p) (largest p) =
       Ok (mkBroadcaster it1 it2 outs) ∧
       J (mkBroadcaster it1 it2 outs) (p :: replicate k (1, 1))
  else Init2 (mkBroadcaster new_BroadcastIterator new_BroadcastIterator outs) (fst p) (snd p) (largest p) = Throw EnforceFailed.
Proof.
  destruct p as [a1 a2]. simpl. intros Ha1 Ha2 Hlt. unfold Init2, largest in *. simpl in *.
  pose proof (Init_spec k a1 (Z.max a1 a2) ltac:(lia) Hlt) as S1.
  pose proof (Init_spec k a2 (Z.max a1 a2) ltac:(lia) Hlt) as S2.
  destruct (decide (compatible _)) as [Hc|Hc]; unfold compatible in Hc; simpl in Hc.
  - rewrite decide_True in S1 by lia. rewrite decide_True in S2 by lia. destruct S1 as (it1 & -> & I1), S2 as (it2 & -> & I2). simpl.
    exists it1, it2. split; [done|]. split; simpl; rewrite !fmap_replicate; done.
  - destruct (decide (a1 = 1 ∨ a1 = Z.max a1 a2)) as [C1|C1]; [|by rewrite S1].
    destruct S1 as (it1 & -> & I1). simpl. rewrite decide_False in S2 by lia. by rewrite S2.
Qed.

Section construction.
Context (full : list (Z * Z)).
Hypothesis Hpos : Forall (fun p => 1 ≤ fst p ∧ 1 ≤ snd p) full.
Hypothesis Hprod : prodZ (largest <$> full) < 2 ^ 63.

(** The state between two axes: [iter1] and [iter2] remain. *)
Definition at_axes (iter1 iter2 : list Z) (b : Broadcaster) : Prop :=
  ∃ ps, J b ps ∧ output_shape_ b = largest <$> ps ∧ reverse (zip_pad iter1 iter2) ++ ps = full.

Lemma split_bound rest p ps :
  reverse (p :: rest) ++ ps = full →
  reverse rest ++ p :: ps = full ∧ 1 ≤ fst p ∧ 1 ≤ snd p ∧ largest p * prodZ (largest <$> ps) < 2 ^ 63 ∧
  largest p < 2 ^ 63 ∧ p ∈ full.
Proof using Hpos Hprod.
  intros E. rewrite reverse_cons, <- app_assoc in E. simpl in E.
  assert (Hl : Forall (fun d => 1 ≤ d) (largest <$> full)).
  { apply Forall_fmap. eapply Forall_impl; [done|]. unfold largest. intros q [??]; simpl in *; lia. }
  assert (Hin : p ∈ full) by (rewrite <- E; set_solver).
  rewrite Forall_forall in Hpos. specialize (Hpos p Hin). rewrite <- E in Hl, Hprod. rewrite fmap_app in Hl, Hprod. simpl in Hl, Hprod.
  apply Forall_app in Hl as [Hl1 Hl2]. apply Forall_cons_1 in Hl2 as [Hp Hl2]. rewrite prodZ_app in Hprod. simpl in Hprod.
  apply prodZ_pos in Hl1, Hl2.
  set (A := prodZ (largest <$> reverse rest)) in *. set (Bs := prodZ (largest <$> ps)) in *.
  change (prodZ (list_fmap _ _ largest ps)) with Bs in Hprod, Hl2.
  assert (1 ≤ largest p * Bs) by nia. assert (largest p ≤ largest p * Bs) by nia.
  assert (largest p * Bs < 2 ^ 63) by nia. split_and!; [done|lia|lia|done|lia|done].
Qed.

Definition step_ok (iter1 iter2 : list Z) (r : res (list Z * list Z * Broadcaster)) : Prop :=
  match r with
  | Ok (i1, i2, b) => at_axes i1 i2 b ∧ (length iter1 ≤ length iter2 → length i1 ≤ length i2)%nat ∧
                   (length iter2 ≤ length iter1 → length i2 ≤ length i1)%nat
  | Throw e => e = EnforceFailed ∧ ¬ Forall compatible full
  | OutOfFuel => False
  end.

Lemma shared_axes_ok iter1 iter2 b :
  at_axes iter1 iter2 b → step_ok iter1 iter2 (shared_axes iter1 iter2 b) ∧
  ∀ i1 i2 b', shared_axes iter1 iter2 b = Ok (i1, i2, b') → i1 = [] ∨ i2 = [].
Proof using Hpos Hprod.
  revert iter2 b. induction iter1 as [|a1 iter1 IH]; intros iter2 b H; [split; [by split|]|].
  { intros i1 i2 b' [= <- <- <-]. by left. }
  destruct iter2 as [|a2 iter2]; [split; [by split|]|].
  { intros i1 i2 b' [= <- <- <-]. by right. }
  destruct H as (ps & HJ & Ho & E). cbn [zip_pad] in E.
  destruct (split_bound _ _ _ E) as (E' & H1 & H2 & H3 & _ & Hin). simpl in H1, H2. cbn [shared_axes].
  assert (Hlen : ∀ r, step_ok iter1 iter2 r → step_ok (a1 :: iter1) (a2 :: iter2) r).
  { intros [[[i1 i2] b']| |]; simpl; [|done|done]. intros [? ?]. split; [done|lia]. }
  destruct (Z.eqb_spec (Z.max a1 a2) 1) as [E1|E1].
  - assert (a1 = 1) as -> by lia. assert (a2 = 1) as -> by lia.
    destruct (IH iter2 (push_output b (Z.max 1 1))) as [IH1 IH2]; [|split; [by apply Hlen|done]].
    exists ((1, 1) :: ps). split_and!; [by apply J_skip|simpl; by rewrite Ho|done].
  - pose proof (Append2_spec (push_output b (Z.max a1 a2)) ps (a1, a2) HJ H1 H2 H3) as HA. simpl in HA.
    change (largest (a1, a2)) with (Z.max a1 a2) in HA. destruct (decide _) as [Hc|Hc].
    + destruct HA as (it1 & it2 & -> & HJ'). simpl.
      destruct (IH iter2 (mkBroadcaster it1 it2 (Z.max a1 a2 :: output_shape_ b))) as [IH1 IH2]; [|split; [by apply Hlen|done]].
      exists ((a1, a2) :: ps). split_and!; [done|simpl; by rewrite Ho|done].
    + rewrite HA. simpl. split; [|done]. split; [done|]. intros HF. apply Hc. by eapply Forall_forall.
Qed.

Lemma longer_axes_ok (second : bool) iter b :
  at_axes (if second then [] else iter) (if second then iter else []) b →
  match longer_axes second iter b with
  | Ok b' => at_axes [] [] b'
  | Throw e => False
  | OutOfFuel => False
  end.
Proof using Hpos Hprod.
  revert b. induction iter as [|a iter IH]; intros b H; [by destruct second|].
  destruct H as (ps & HJ & Ho & E). cbn [longer_axes].
  assert (E2 : reverse ((if second then (1, a) else (a, 1)) :: zip_pad (if second then [] else iter) (if second then iter else [])) ++ ps = full).
  { rewrite <- E. f_equal. f_equal. destruct second; [done|]. by destruct iter. }
  destruct (split_bound _ _ _ E2) as (E' & H1 & H2 & H3 & _ & Hin).
  pose proof (Append2_spec b ps _ HJ H1 H2 H3) as HA.
  rewrite decide_True in HA by (unfold compatible; destruct second; simpl; auto).
  assert (Hlg : largest (if second then (1, a) else (a, 1)) = a) by (unfold largest; destruct second; simpl in *; lia).
  rewrite Hlg in HA. destruct HA as (it1 & it2 & HA & HJ').
  assert (EA : (if second then Append2 b 1 a a else Append2 b a 1 a) = Ok (mkBroadcaster it1 it2 (output_shape_ b))) by (by destruct second).
  rewrite EA. simpl. apply IH. eexists. split_and!; [exact HJ'| |exact E']. simpl. by rewrite Ho, Hlg.
Qed.

Lemma first_axes_ok iter1 iter2 k :
  iter1 ≠ [] → iter2 ≠ [] → reverse (zip_pad iter1 iter2) ++ replicate k (1, 1) = full →
  step_ok iter1 iter2 (first_axes iter1 iter2
    (mkBroadcaster new_BroadcastIterator new_BroadcastIterator (replicate k 1))).
Proof using Hpos Hprod.
  revert iter2 k. induction iter1 as [|a1 iter1 IH]; intros [|a2 iter2] k Hn1 Hn2 E; [done..|].
  cbn [zip_pad] in E. destruct (split_bound _ _ _ E) as (E' & H1 & H2 & _ & H4 & Hin). simpl in H1, H2. cbn [first_axes].
  destruct (_ && _) eqn:Es.
  - apply andb_true_iff in Es as [E1%Z.eqb_eq E2%negb_true_iff]. apply bool_decide_eq_false in E2.
    assert (a1 = 1) as -> by lia. assert (a2 = 1) as -> by lia. 
    specialize (IH iter2 (S k) ltac:(naive_solver) ltac:(naive_solver) E').
    unfold push_output. cbn [iterator1_ iterator2_ output_shape_]. change (Z.max 1 1 :: replicate k 1) with (replicate (S k) 1).
    destruct (first_axes _ _ _) as [[[i1 i2] b']| |]; simpl in *; [split; [naive_solver|lia]|done..].
  - unfold push_output. cbn [iterator1_ iterator2_ output_shape_].
    pose proof (Init2_spec (Z.max a1 a2 :: replicate k 1) k (a1, a2) H1 H2 H4) as HI. simpl in HI.
    change (largest (a1, a2)) with (Z.max a1 a2) in HI. destruct (decide _) as [Hc|Hc].
    + destruct HI as (it1 & it2 & -> & HJ). simpl. split; [|lia].
      eexists. split_and!; [exact HJ| |exact E']. simpl. by rewrite fmap_replicate.
    + rewrite HI. simpl. split; [done|]. intros HF. apply Hc. by eapply Forall_forall.
Qed.
End construction.

Lemma J_compatible b ps : J b ps → Forall compatible ps.
Proof.
  intros [[H1 _ _ _ _ _ _ _ _ _] [H2 _ _ _ _ _ _ _ _ _]]. clear -H1 H2.
  induction ps as [|[x y] ps IH]; [constructor|]. simpl in H1, H2. unfold largest in H1, H2. simpl in H1, H2.
  apply Forall2_cons in H1 as [H1 H1'], H2 as [H2 H2']. constructor; [unfold compatible; simpl; lia|auto].
Qed.

(** The first axis of a pair of shapes one of which is a scalar. *)
Lemma start_scalar p rest :
  let full := reverse (p :: rest) in
  Forall (fun p => 1 ≤ fst p ∧ 1 ≤ snd p) full → prodZ (largest <$> full) < 2 ^ 63 → fst p = 1 ∨ snd p = 1 →
  ∃ it1 it2, Init2 (mkBroadcaster new_BroadcastIterator new_BroadcastIterator []) (fst p) (snd p) (largest p) =
      Ok (mkBroadcaster it1 it2 []) ∧
    ∀ i1 i2, zip_pad i1 i2 = rest → at_axes full i1 i2 (push_output (mkBroadcaster it1 it2 []) (largest p)).
Proof.
  intros full Hpos Hprod Hone.
  destruct (split_bound _ Hpos Hprod rest p []) as (E' & H1 & H2 & _ & H4 & _); [by rewrite app_nil_r|].
  pose proof (Init2_spec [] 0 p H1 H2 H4) as HI. rewrite decide_True in HI by (unfold compatible; tauto).
  destruct HI as (it1 & it2 & HI & HJ). exists it1, it2. split; [done|]. intros i1 i2 Ez. exists [p].
  split_and!; [done|done|by rewrite Ez].
Qed.

Definition start_ok (iter1 iter2 : list Z) (full : list (Z * Z)) (r : res (list Z * list Z * Broadcaster)) : Prop :=
  step_ok full iter1 iter2 r ∨ full = [] ∧ ∃ b, r = Ok ([], [], b) ∧ J b [(1, 1)] ∧ output_shape_ b = [].
Lemma start_axes_ok iter1 iter2 :
  let full := reverse (zip_pad iter1 iter2) in
  Forall (fun p => 1 ≤ fst p ∧ 1 ≤ snd p) full → prodZ (largest <$> full) < 2 ^ 63 →
  start_ok iter1 iter2 full
    (start_axes iter1 iter2 (mkBroadcaster new_BroadcastIterator new_BroadcastIterator [])).
Proof.
  intros full Hpos Hprod. unfold full in *. destruct iter1 as [|a1 i1], iter2 as [|a2 i2].
  - right. split; [done|]. pose proof (Init2_spec [] 0 (1, 1) ltac:(done) ltac:(done) ltac:(done)) as HI.
    rewrite decide_True in HI by (by left). destruct HI as (it1 & it2 & HI & HJ). simpl in HI.
    change (largest (1, 1)) with 1 in HI. cbn [start_axes]. rewrite HI. simpl. eauto.
  - left. destruct (start_scalar (1, a2) (list_fmap _ _ (fun b => (1, b)) i2) Hpos Hprod ltac:(by left)) as (it1 & it2 & HI & Hat).
    destruct (split_bound _ Hpos Hprod (list_fmap _ _ (fun b => (1, b)) i2) (1, a2) []) as (_ & _ & H2 & _); [by rewrite app_nil_r|].
    simpl in H2, HI. replace (largest (1, a2)) with a2 in * by (unfold largest; simpl; lia). cbn [start_axes]. rewrite HI. simpl.
    split; [by apply Hat|lia].
  - left. destruct (start_scalar (a1, 1) (list_fmap _ _ (fun a => (a, 1)) i1) Hpos Hprod ltac:(by right)) as (it1 & it2 & HI & Hat).
    destruct (split_bound _ Hpos Hprod (list_fmap _ _ (fun a => (a, 1)) i1) (a1, 1) []) as (_ & H1 & _); [by rewrite app_nil_r|].
    simpl in H1, HI. replace (largest (a1, 1)) with a1 in * by (unfold largest; simpl; lia). cbn [start_axes]. rewrite HI. simpl.
    split; [apply Hat; by destruct i1|lia].
  - left. apply (first_axes_ok _ Hpos Hprod (a1 :: i1) (a2 :: i2) 0); [done|done|by rewrite app_nil_r].
Qed.

(** The construction succeeds on the shapes whose dimensions go together, and
    only on them. *)
Lemma new_Broadcaster_ok shape1 shape2 :
  let full := axis_pairs shape1 shape2 in
  Forall (fun p => 1 ≤ fst p ∧ 1 ≤ snd p) full → prodZ (largest <$> full) < 2 ^ 63 →
  match new_Broadcaster shape1 shape2 with
  | Ok b => Forall compatible full ∧ output_shape_ b = largest <$> full ∧
      ∃ b0, iterator1_ b = resize_counters (iterator1_ b0) ∧ iterator2_ b = resize_counters (iterator2_ b0) ∧
        (J b0 full ∨ full = [] ∧ J b0 [(1, 1)])
  | Throw e => e = EnforceFailed ∧ ¬ Forall compatible full
  | OutOfFuel => False
  end.
Proof.
  intros full Hpos Hprod. unfold new_Broadcaster.
  destruct (start_axes_ok (reverse shape1) (reverse shape2) Hpos Hprod) as [Hst|(Hfull & b & -> & HJ & Ho)].
  - destruct (start_axes _ _ _) as [[[i1 i2] b]| |]; [|done|done]. cbn [mbind res_bind]. simpl in Hst.
    destruct Hst as [Hat Hlen]. rewrite !length_reverse in Hlen.
    destruct (shared_axes_ok full Hpos Hprod i1 i2 b Hat) as [Hs Hend].
    destruct (shared_axes i1 i2 b) as [[[j1 j2] b2]| |]; [|done|done]. cbn [mbind res_bind]. simpl in Hs.
    destruct Hs as [Hat2 Hlen2]. specialize (Hend _ _ _ eq_refl).
    set (second := (Nat.max (length shape1) (length shape2) =? length shape2)%nat).
    assert (Hat3 : at_axes full (if second then [] else (if second then j2 else j1)) (if second then (if second then j2 else j1) else []) b2).
    { unfold second. destruct (Nat.eqb_spec (Nat.max (length shape1) (length shape2)) (length shape2)).
      - destruct Hend as [->| ->]; [done|]. simpl in *. destruct j1; [done|simpl in *; lia].
      - destruct Hend as [->| ->]; [|done]. simpl in *. destruct j2; [done|simpl in *; lia]. }
    pose proof (longer_axes_ok full Hpos Hprod second (if second then j2 else j1) b2 Hat3) as HL.
    destruct (longer_axes second _ b2) as [b3| |]; [|done|done].
    cbn [mbind res_bind iterator1_ iterator2_ output_shape_]. destruct HL as (ps & HJ & Ho & E). simpl in E. subst ps.
    split_and!; [by eapply J_compatible|done|]. exists b3. split_and!; [done|done|by left].
  - cbn [shared_axes mbind res_bind]. rewrite Tauto.if_same. cbn [longer_axes mbind res_bind iterator1_ iterator2_ output_shape_].
    change full with (reverse (zip_pad (reverse shape1) (reverse shape2))).
    rewrite Hfull, Ho. split_and!; [constructor|done|]. exists b. split_and!; [done|done|by right].
Qed.

(** ** Running the iterators *)

(** An iterator after [p] elements. *)
Definition after (it : BroadcastIterator) (p : Z) : BroadcastIterator :=
  mkBroadcastIterator (digits (counts_ it) p) (deltas_ it) (counts_ it) (count_ it) (u64 (pos (deltas_ it) (counts_ it) p)).
(** An iterator ready to run in steps of [span] over [total] elements of the
    output, on an input with [size] elements. *)
Record runs (it : BroadcastIterator) (total size span : Z) : Prop := {
  ru_len : length (deltas_ it) = length (counts_ it);
  ru_nonempty : counts_ it ≠ [];
  ru_counts : Forall (fun n => 1 ≤ n < 2 ^ 63) (counts_ it);
  ru_span : 1 ≤ span ∧ (span | front (counts_ it)) ∧ (span | total);
  ru_delta : front (deltas_ it) = 0 ∨ front (deltas_ it) = 1;
  ru_range p : 0 ≤ p < total → 0 ≤ pos (deltas_ it) (counts_ it) p < size;
  ru_size : size < 2 ^ 64;
}.

Lemma runs_conses it total size span :
  runs it total size span → ∃ d0 ds n0 ns, deltas_ it = d0 :: ds ∧ counts_ it = n0 :: ns ∧ length ds = length ns.
Proof.
  intros [Hl Hne _ _ _ _ _]. destruct (counts_ it) as [|n0 ns] eqn:En, (deltas_ it) as [|d0 ds] eqn:Ed; try done.
  simpl in Hl. naive_solver lia.
Qed.
Lemma after_advance it total size span p :
  runs it total size span → (span | p) → 0 ≤ p < total →
  AdvanceBy (after it p) span = (pos (deltas_ it) (counts_ it) p, after it (p + span)).
Proof.
  intros H Hp Hr. pose proof (ru_range _ _ _ _ H p Hr) as Hb. pose proof (ru_size _ _ _ _ H).
  destruct (runs_conses _ _ _ _ H) as (d0 & ds & n0 & ns & Ed & En & Hl). destruct H as [_ _ Hc (Hs1 & Hs2 & _) _ _ _].
  unfold after. rewrite Ed, En in *. rewrite AdvanceBy_spec by done. rewrite u64_small by lia. done.
Qed.
Lemma pos_span it total size span p t :
  runs it total size span → (span | p) → 0 ≤ t < span →
  pos (deltas_ it) (counts_ it) (p + t) = pos (deltas_ it) (counts_ it) p + front (deltas_ it) * t.
Proof.
  intros H Hp Ht. destruct (runs_conses _ _ _ _ H) as (d0 & ds & n0 & ns & Ed & En & Hl).
  destruct H as [_ _ Hc (Hs1 & Hs2 & _) _ _ _]. rewrite Ed, En in *. apply Forall_cons_1 in Hc as [Hn _].
  apply (pos_within _ _ _ _ _ span); [lia|done|done|done].
Qed.

Lemma drop_divide (l : list Z) j j' : (j ≤ j')%nat → (prodZ (drop j' l) | prodZ (drop j l)).
Proof.
  intros H. replace j' with (j + (j' - j))%nat by lia. rewrite <- drop_drop.
  rewrite <- (take_drop (j' - j) (drop j l)) at 2. rewrite prodZ_app. by exists (prodZ (take (j' - j) (drop j l))).
Qed.
Lemma prodZ_elem l n : Forall (fun d => 1 ≤ d) l → n ∈ l → 1 ≤ n ≤ prodZ l.
Proof.
  induction 1 as [|d l Hd Hl IH]; intros Hn; [by apply not_elem_of_nil in Hn|]. simpl. pose proof (prodZ_pos _ Hl).
  apply elem_of_cons in Hn as [->|Hn]; [nia|]. specialize (IH Hn). nia.
Qed.

(** The smaller first count divides the other one; if both inputs stay in place
    inside a span, it has one element. *)
Lemma span_ok b ps :
  J b ps →
  let s := GetSpanSize b in
  1 ≤ s ∧ (s | front (counts_ (iterator1_ b))) ∧ (s | front (counts_ (iterator2_ b))) ∧ (s | prodZ (largest <$> ps)) ∧
  (front (deltas_ (iterator1_ b)) = 0 → front (deltas_ (iterator2_ b)) = 0 → s = 1).
Proof.
  intros [H1 H2] s. destruct (compat_pos _ _ (ii_compat _ _ _ H1)) as (_ & Ho & _).
  destruct H1 as [Hc1 _ _ _ _ _ _ _ _ (j1 & F1 & _ & D1)], H2 as [Hc2 _ _ _ _ _ _ _ _ (j2 & F2 & _ & D2)].
  unfold s, GetSpanSize. rewrite F1, F2. pose proof (prodZ_drop_le j1 _ Ho) as B1. pose proof (prodZ_drop_le j2 _ Ho) as B2.
  pose proof (drop_divide (largest <$> ps) j1 j2) as V12. pose proof (drop_divide (largest <$> ps) j2 j1) as V21.
  assert (Hmin : Z.min (prodZ (drop j1 (largest <$> ps))) (prodZ (drop j2 (largest <$> ps))) =
                 prodZ (drop (Nat.max j1 j2) (largest <$> ps))).
  { destruct (decide (j1 ≤ j2)%nat) as [Hj|Hj].
    - rewrite Nat.max_r by done. apply Z.divide_pos_le in V12; [lia|lia|done].
    - rewrite Nat.max_l by lia. apply Z.divide_pos_le in V21; [lia|lia|lia]. }
  rewrite Hmin. pose proof (prodZ_drop_le (Nat.max j1 j2) _ Ho).
  split_and!; [lia|apply drop_divide; lia|apply drop_divide; lia| |].
  - apply (drop_divide _ 0). lia.
  - intros E1 E2. destruct D1 as [[_ D1]|?]; [|lia]. destruct D2 as [[_ D2]|?]; [|lia].
    assert (D1' : Forall (fun a => a = 1) (drop (Nat.max j1 j2) ps.*1)).
    { replace (Nat.max j1 j2) with (j1 + (Nat.max j1 j2 - j1))%nat by lia. rewrite <- drop_drop. by apply Forall_drop. }
    assert (D2' : Forall (fun a => a = 1) (drop (Nat.max j1 j2) ps.*2)).
    { replace (Nat.max j1 j2) with (j2 + (Nat.max j1 j2 - j2))%nat by lia. rewrite <- drop_drop. by apply Forall_drop. }
    rewrite <- fmap_drop in D1', D2' |- *. clear -D1' D2'. induction (drop (Nat.max j1 j2) ps) as [|[x y] l IH]; [done|].
    simpl in *. apply Forall_cons_1 in D1' as [-> D1], D2' as [-> D2]. change (1 * prodZ (largest <$> l) = 1). rewrite IH by done. done.
Qed.

Lemma it_inv_runs it axes outs span :
  it_inv it axes outs → prodZ outs < 2 ^ 63 → 1 ≤ span → (span | front (counts_ it)) → (span | prodZ outs) →
  runs it (prodZ outs) (prodZ axes) span ∧ resize_counters it = after it 0.
Proof.
  intros [Hc Hcnt Hi Hl Hne Hcs Hp Hs Hv (j & Hf1 & Hf2 & Hf3)] Hlt Hs1 Hs2 Hs3.
  destruct (compat_pos _ _ Hc) as (Ha & Ho & Hle).
  split; [split; try done|].
  - rewrite Forall_forall. intros n Hn. pose proof (prodZ_elem _ n Hcs Hn). lia.
  - tauto.
  - intros p Hpr. destruct (flat_surj outs p Ho Hpr) as (idx & Hidx & <-). rewrite Hv by done.
    apply flat_bound. by eapply broadcast_index_bound.
  - lia.
  - unfold resize_counters, after.
    assert (Hd : ∀ ns, digits ns 0 = replicate (length ns) 0).
    { clear. induction ns as [|n ns IH]; simpl; [done|]. by rewrite Zmod_0_l, Zdiv_0_l, IH. }
    assert (Hz : ∀ ds ns, pos ds ns 0 = 0).
    { clear. induction ds as [|d ds IH]; intros [|n ns]; simpl; try done. rewrite Zdiv_0_l, IH. lia. }
    by rewrite Hd, Hz, Hi.
Qed.

(** ** The loop *)

Section loop.
Context {A C : Type} (f : A → A → C).
Context (input0scalar : A → list A → list C) (input1scalar : list A → A → list C) (general : list A → list A → list C).
(** The three functions of a kernel do the same on every element. *)
Hypothesis H0 : ∀ x l, input0scalar x l = f x <$> l.
Hypothesis H1 : ∀ l y, input1scalar l y = (fun x => f x y) <$> l.
Hypothesis H2 : ∀ l1 l2, general l1 l2 = zip_with f l1 l2.
Implicit Types (input : list A) (output : list C).

Lemma read_span_ok it total span input p :
  runs it total (Z.of_nat (length input)) span → (span | p) → 0 ≤ p < total →
  front (deltas_ it) = 1 ∨ span = 1 →
  ∃ l, read_span input (pos (deltas_ it) (counts_ it) p) span = Ok l ∧ length l = Z.to_nat span ∧
    ∀ t, 0 ≤ t < span → l !! Z.to_nat t = input !! Z.to_nat (pos (deltas_ it) (counts_ it) (p + t)).
Proof.
  intros H Hp Hr Hd. pose proof (ru_span _ _ _ _ H) as (Hs1 & _ & [k ->]). destruct Hp as [m ->].
  assert (m < k) by nia. assert (Hend : m * span + (span - 1) < k * span) by nia.
  pose proof (ru_range _ _ _ _ H (m * span) Hr) as B1.
  pose proof (ru_range _ _ _ _ H (m * span + (span - 1)) ltac:(lia)) as B2.
  assert (Et : ∀ t, 0 ≤ t < span →
    pos (deltas_ it) (counts_ it) (m * span + t) = pos (deltas_ it) (counts_ it) (m * span) + t).
  { intros t Ht. rewrite (pos_span _ _ _ _ _ _ H) by (done || by exists m). destruct Hd as [->|?]; [lia|]. assert (t = 0) as -> by lia. lia. }
  rewrite Et in B2 by lia. unfold read_span.
  destruct (Z.leb_spec (pos (deltas_ it) (counts_ it) (m * span) + span) (Z.of_nat (length input))); [|lia].
  eexists. split_and!; [done|rewrite length_take, length_drop; lia|].
  intros t Ht. rewrite lookup_take_lt, lookup_drop, Et by lia. f_equal. lia.
Qed.
Lemma read_scalar_ok it total span input p :
  runs it total (Z.of_nat (length input)) span → (span | p) → 0 ≤ p < total → front (deltas_ it) = 0 →
  ∃ x, read_scalar input (pos (deltas_ it) (counts_ it) p) = Ok x ∧
    ∀ t, 0 ≤ t < span → input !! Z.to_nat (pos (deltas_ it) (counts_ it) (p + t)) = Some x.
Proof.
  intros H Hp Hr Hd. pose proof (ru_range _ _ _ _ H p Hr) as B.
  destruct (lookup_lt_is_Some_2 input (Z.to_nat (pos (deltas_ it) (counts_ it) p))) as [x Ex]; [lia|].
  exists x. unfold read_scalar. rewrite Ex. split; [done|]. intros t Ht.
  rewrite (pos_span _ _ _ _ _ _ H) by done. rewrite Hd. by rewrite Z.mul_0_l, Z.add_0_r.
Qed.

(** The element of the output at a position. *)
Definition elem_at (it1 it2 : BroadcastIterator) input0 input1 (p : Z) (z : C) : Prop :=
  ∃ x y, input0 !! Z.to_nat (pos (deltas_ it1) (counts_ it1) p) = Some x ∧
         input1 !! Z.to_nat (pos (deltas_ it2) (counts_ it2) p) = Some y ∧ z = f x y.

Section two.
Context (it1 it2 : BroadcastIterator) (total span : Z) (input0 input1 : list A).
Hypothesis R1 : runs it1 total (Z.of_nat (length input0)) span.
Hypothesis R2 : runs it2 total (Z.of_nat (length input1)) span.
Hypothesis Hboth : front (deltas_ it1) = 0 → front (deltas_ it2) = 0 → span = 1.

Lemma broadcast_span_ok p :
  (span | p) → 0 ≤ p < total →
  ∃ v, broadcast_span input0scalar input1scalar general (front (deltas_ it1) =? 0) (front (deltas_ it2) =? 0) span
         input0 input1 (pos (deltas_ it1) (counts_ it1) p) (pos (deltas_ it2) (counts_ it2) p) = Ok v ∧
    length v = Z.to_nat span ∧
    ∀ t, 0 ≤ t < span → ∃ z, v !! Z.to_nat t = Some z ∧ elem_at it1 it2 input0 input1 (p + t) z.
Proof using H0 H1 H2 R1 R2 Hboth.
  intros Hp Hr. unfold broadcast_span, elem_at.
  pose proof (ru_delta _ _ _ _ R1) as D1. pose proof (ru_delta _ _ _ _ R2) as D2.
  destruct (Z.eqb_spec (front (deltas_ it1)) 0) as [E1|E1]; [|destruct (Z.eqb_spec (front (deltas_ it2)) 0) as [E2|E2]].
  - destruct (read_scalar_ok _ _ _ _ p R1 Hp Hr E1) as (x & -> & Hx).
    destruct (read_span_ok _ _ _ _ p R2 Hp Hr ltac:(lia)) as (l & -> & Ll & Hl). simpl.
    rewrite H0. eexists. split_and!; [done|by rewrite length_fmap|]. intros t Ht.
    destruct (lookup_lt_is_Some_2 l (Z.to_nat t)) as [y Ey]; [lia|].
    exists (f x y). rewrite list_lookup_fmap, Ey. split; [done|]. rewrite <- Hl, Ey by done. exists x, y. auto.
  - destruct (read_span_ok _ _ _ _ p R1 Hp Hr ltac:(lia)) as (l & -> & Ll & Hl).
    destruct (read_scalar_ok _ _ _ _ p R2 Hp Hr E2) as (y & -> & Hy). simpl.
    rewrite H1. eexists. split_and!; [done|by rewrite length_fmap|]. intros t Ht.
    destruct (lookup_lt_is_Some_2 l (Z.to_nat t)) as [x Ex]; [lia|].
    exists (f x y). rewrite list_lookup_fmap, Ex. split; [done|]. rewrite <- Hl, Ex by done. exists x, y. auto.
  - destruct (read_span_ok _ _ _ _ p R1 Hp Hr ltac:(lia)) as (l1 & -> & L1 & Hl1).
    destruct (read_span_ok _ _ _ _ p R2 Hp Hr ltac:(lia)) as (l2 & -> & L2 & Hl2). simpl.
    rewrite H2. eexists. split_and!; [done|rewrite length_zip_with; lia|]. intros t Ht.
    destruct (lookup_lt_is_Some_2 l1 (Z.to_nat t)) as [x Ex]; [lia|].
    destruct (lookup_lt_is_Some_2 l2 (Z.to_nat t)) as [y Ey]; [lia|].
    exists (f x y). rewrite lookup_zip_with, Ex, Ey. split; [done|]. rewrite <- Hl1, <- Hl2, Ex, Ey by done. exists x, y. auto.
Qed.

Lemma write_span_ok output p v :
  0 ≤ p → 0 ≤ span → length v = Z.to_nat span → p + span ≤ Z.of_nat (length output) →
  ∃ output', write_span output p span v = Ok output' ∧ length output' = length output ∧
    (∀ t, 0 ≤ t < span → output' !! Z.to_nat (p + t) = v !! Z.to_nat t) ∧
    (∀ x, 0 ≤ x < p → output' !! Z.to_nat x = output !! Z.to_nat x).
Proof.
  intros Hp Hs Hv Hl. unfold write_span. rewrite (proj2 (Z.leb_le _ _)) by done. eexists. split; [done|].
  assert (Lt : length (take (Z.to_nat p) output) = Z.to_nat p) by (rewrite length_take; lia).
  split_and!.
  - rewrite !length_app, Lt, length_drop. lia.
  - intros t Ht. rewrite lookup_app_r by lia. rewrite lookup_app_l by lia. f_equal. lia.
  - intros x Hx. rewrite lookup_app_l by lia. by rewrite lookup_take_lt by lia.
Qed.

(** From every multiple of the span on, the loop fills the rest of the output. *)
Lemma broadcast_loop_ok fuel p output :
  0 ≤ p ≤ total → (span | p) → total - p < Z.of_nat fuel → Z.of_nat (length output) = total →
  (∀ i, 0 ≤ i < p → ∃ z, output !! Z.to_nat i = Some z ∧ elem_at it1 it2 input0 input1 i z) →
  ∃ out, broadcast_loop input0scalar input1scalar general fuel (front (deltas_ it1) =? 0) (front (deltas_ it2) =? 0) span
           input0 input1 (after it1 p) (after it2 p) p total output = Ok out ∧ Z.of_nat (length out) = total ∧
    ∀ i, 0 ≤ i < total → ∃ z, out !! Z.to_nat i = Some z ∧ elem_at it1 it2 input0 input1 i z.
Proof using H0 H1 H2 R1 R2 Hboth.
  revert p output. induction fuel as [|fuel IH]; intros p output Hp Hd Hf Hl Hdone; [lia|]. cbn [broadcast_loop].
  destruct (Z.eqb_spec p total) as [->|Hne]; [eauto|].
  rewrite (after_advance _ _ _ _ _ R1), (after_advance _ _ _ _ _ R2) by (done || lia).
  destruct (broadcast_span_ok p Hd ltac:(lia)) as (v & -> & Lv & Hv). cbn [mbind res_bind].
  pose proof (ru_span _ _ _ _ R1) as (Hs1 & _ & [k Hk]). pose proof Hd as [m Hm]. assert (m < k) by nia.
  destruct (write_span_ok output p v) as (output' & -> & Lo & Hin & Hout); [lia|lia|done|nia|]. cbn [mbind res_bind].
  apply IH; [nia|by apply Z.divide_add_r; [|exists 1; lia]|lia|lia|].
  intros i Hi. destruct (decide (i < p)) as [Hip|Hip].
  - destruct (Hdone i) as (z & Ez & Hz); [lia|]. exists z. by rewrite Hout by lia.
  - destruct (Hv (i - p)) as (z & Ez & Hz); [lia|]. exists z. replace i with (p + (i - p)) by lia. by rewrite Hin, Ez by lia.
Qed.
End two.
End loop.

(** ** Shapes and positions *)

Lemma zip_pad_fst i1 i2 : (zip_pad i1 i2).*1 = i1 ++ replicate (length i2 - length i1) 1.
Proof.
  revert i2. induction i1 as [|a i1 IH]; intros [|b i2]; simpl; [done| | |].
  - f_equal. rewrite <- list_fmap_compose. clear. induction i2; simpl; f_equal; auto.
  - f_equal. rewrite app_nil_r. rewrite <- list_fmap_compose. clear. induction i1; simpl; f_equal; auto.
  - f_equal. apply IH.
Qed.
Lemma zip_pad_swap i1 i2 : zip_pad i2 i1 = (fun p => (snd p, fst p)) <$> zip_pad i1 i2.
Proof.
  revert i2. induction i1 as [|a i1 IH]; intros [|b i2]; simpl; [done| | |].
  - f_equal. by rewrite <- list_fmap_compose.
  - f_equal. by rewrite <- list_fmap_compose.
  - f_equal. apply IH.
Qed.
Lemma axis_pairs_fst s1 s2 : (axis_pairs s1 s2).*1 = replicate (length s2 - length s1) 1 ++ s1.
Proof.
  unfold axis_pairs. rewrite fmap_reverse, zip_pad_fst, reverse_app, reverse_replicate, reverse_involutive, !length_reverse.
  done.
Qed.
Lemma axis_pairs_snd s1 s2 : (axis_pairs s1 s2).*2 = replicate (length s1 - length s2) 1 ++ s2.
Proof.
  rewrite <- axis_pairs_fst. unfold axis_pairs. rewrite (zip_pad_swap (reverse s1)), !fmap_reverse. f_equal.
  by rewrite <- list_fmap_compose.
Qed.
Lemma axis_pairs_pos s1 s2 :
  Forall (fun d => 1 ≤ d) s1 → Forall (fun d => 1 ≤ d) s2 →
  Forall (fun p => 1 ≤ fst p ∧ 1 ≤ snd p) (axis_pairs s1 s2).
Proof.
  intros F1 F2. apply Forall_forall. intros p Hp.
  assert (Q1 : Forall (fun d => 1 ≤ d) (axis_pairs s1 s2).*1).
  { rewrite axis_pairs_fst. apply Forall_app. split; [by apply Forall_replicate|done]. }
  assert (Q2 : Forall (fun d => 1 ≤ d) (axis_pairs s1 s2).*2).
  { rewrite axis_pairs_snd. apply Forall_app. split; [by apply Forall_replicate|done]. }
  rewrite Forall_fmap, Forall_forall in Q1, Q2. split; [by apply Q1|by apply Q2].
Qed.

(** The position in a tensor of shape [s] that the output reads at [idx]: the
    innermost axes correspond, and an axis of size one is read at 0. *)
Definition broadcast_pos (s idx : list Z) : Z := flat s (broadcast_index s (drop (length idx - length s) idx)).

Lemma prodZ_ones k s : prodZ (replicate k 1 ++ s) = prodZ s.
Proof. induction k as [|k IH]; simpl; [done|]. rewrite IH. lia. Qed.
Lemma flat_ones k s idx :
  length idx = (k + length s)%nat →
  flat (replicate k 1 ++ s) (broadcast_index (replicate k 1 ++ s) idx) = broadcast_pos s idx.
Proof.
  intros Hl. unfold broadcast_pos. replace (length idx - length s)%nat with k by lia.
  revert idx Hl. induction k as [|k IH]; intros idx Hl; [by rewrite drop_0|].
  destruct idx as [|i idx]; [done|]. simpl. rewrite flat_cons, IH by (simpl in Hl; lia). lia.
Qed.

(** What an iterator made for two shapes reports. *)
Lemma iterator_pos it0 k s outs :
  (it_inv it0 (replicate k 1 ++ s) outs ∨ (k = 0%nat ∧ s = [] ∧ outs = [] ∧ it_inv it0 [1] [1])) →
  length outs = (k + length s)%nat → prodZ outs < 2 ^ 63 →
  (∀ span, 1 ≤ span → (span | front (counts_ it0)) → (span | prodZ outs) →
     runs it0 (prodZ outs) (prodZ s) span ∧ resize_counters it0 = after it0 0) ∧
  ∀ idx, valid_index outs idx → pos (deltas_ it0) (counts_ it0) (flat outs idx) = broadcast_pos s idx.
Proof.
  intros [H|(-> & -> & -> & H)] Hl Hlt; split.
  - intros span Hs1 Hs2 Hs3. pose proof (it_inv_runs _ _ _ span H Hlt Hs1 Hs2 Hs3) as Hr. by rewrite prodZ_ones in Hr.
  - intros idx Hidx. rewrite (ii_value _ _ _ H) by done. apply flat_ones. destruct Hidx as [-> _]. done.
  - intros span Hs1 Hs2 Hs3. by apply (it_inv_runs _ _ _ span H).
  - intros idx Hidx. apply valid_index_nil in Hidx as ->. pose proof (ii_value _ _ _ H [0]) as Hv.
    apply Hv. split; [done|]. intros [|i] Hi; [done|simpl in Hi; lia].
Qed.

Lemma axis_pairs_length s1 s2 : length (axis_pairs s1 s2) = (length s2 - length s1 + length s1)%nat.
Proof. rewrite <- (length_fmap fst), axis_pairs_fst, length_app, length_replicate. done. Qed.

(** The contract of [BroadcastTwo]. *)
Definition broadcast_result {A C} (f : A → A → C) (s1 : list Z) (a : list A) (s2 : list Z) (b : list A)
    (r : res (list Z * list C)) : Prop :=
  let outs := largest <$> axis_pairs s1 s2 in
  match r with
  | Ok (shape, out) =>
      Forall compatible (axis_pairs s1 s2) ∧ shape = outs ∧ Z.of_nat (length out) = prodZ outs ∧
      ∀ idx, valid_index outs idx → ∃ x y, a !! Z.to_nat (broadcast_pos s1 idx) = Some x ∧
        b !! Z.to_nat (broadcast_pos s2 idx) = Some y ∧ out !! Z.to_nat (flat outs idx) = Some (f x y)
  | Throw e => e = EnforceFailed ∧ ¬ Forall compatible (axis_pairs s1 s2)
  | OutOfFuel => False
  end.

(** The iterators a pair of shapes gets, run in steps of the span. *)
Lemma new_Broadcaster_runs s1 s2 bc :
  Forall (fun d => 1 ≤ d) s1 → Forall (fun d => 1 ≤ d) s2 → prodZ (largest <$> axis_pairs s1 s2) < 2 ^ 63 →
  new_Broadcaster s1 s2 = Ok bc →
  let outs := largest <$> axis_pairs s1 s2 in
  ∃ it1 it2, iterator1_ bc = after it1 0 ∧ iterator2_ bc = after it2 0 ∧
    runs it1 (prodZ outs) (prodZ s1) (GetSpanSize bc) ∧ runs it2 (prodZ outs) (prodZ s2) (GetSpanSize bc) ∧
    (front (deltas_ it1) = 0 → front (deltas_ it2) = 0 → GetSpanSize bc = 1) ∧
    ∀ idx, valid_index outs idx → pos (deltas_ it1) (counts_ it1) (flat outs idx) = broadcast_pos s1 idx ∧
                                  pos (deltas_ it2) (counts_ it2) (flat outs idx) = broadcast_pos s2 idx.
Proof.
  intros F1 F2 Hprod HB outs. pose proof (new_Broadcaster_ok s1 s2 (axis_pairs_pos _ _ F1 F2) Hprod) as HB'.
  rewrite HB in HB'. destruct HB' as (Hc & Ho & b0 & I1 & I2 & HJ).
  assert (Hlen : length outs = (length s2 - length s1 + length s1)%nat) by (unfold outs; rewrite length_fmap; apply axis_pairs_length).
  assert (Hspan : GetSpanSize bc = GetSpanSize b0) by (unfold GetSpanSize; by rewrite I1, I2). rewrite Hspan.
  assert (Hsp : 1 ≤ GetSpanSize b0 ∧ (GetSpanSize b0 | front (counts_ (iterator1_ b0))) ∧
    (GetSpanSize b0 | front (counts_ (iterator2_ b0))) ∧ (GetSpanSize b0 | prodZ outs) ∧
    (front (deltas_ (iterator1_ b0)) = 0 → front (deltas_ (iterator2_ b0)) = 0 → GetSpanSize b0 = 1)).
  { destruct HJ as [HJ|[E HJ]]; [by apply span_ok|]. pose proof (span_ok _ _ HJ) as Hs. unfold outs. by rewrite E. }
  destruct Hsp as (Hs1 & Hs2 & Hs3 & Hs4 & Hs5).
  destruct (iterator_pos (iterator1_ b0) (length s2 - length s1) s1 outs) as [R1 P1]; [|lia|done|].
  { destruct HJ as [[HJ _]|[E [HJ _]]]; [left; by rewrite axis_pairs_fst in HJ|right].
    pose proof (axis_pairs_fst s1 s2) as Ef. rewrite E in Ef. symmetry in Ef. apply app_eq_nil in Ef as [Er ->].
    split_and!; [by destruct (length s2 - length (@nil Z))%nat|done|unfold outs; by rewrite E|done]. }
  destruct (iterator_pos (iterator2_ b0) (length s1 - length s2) s2 outs) as [R2 P2]; [|lia|done|].
  { destruct HJ as [[_ HJ]|[E [_ HJ]]]; [left; by rewrite axis_pairs_snd in HJ|right].
    pose proof (axis_pairs_snd s1 s2) as Ef. rewrite E in Ef. symmetry in Ef. apply app_eq_nil in Ef as [Er ->].
    split_and!; [by destruct (length s1 - length (@nil Z))%nat|done|unfold outs; by rewrite E|done]. }
  destruct (R1 _ Hs1 Hs2 Hs4) as [R1' E1], (R2 _ Hs1 Hs3 Hs4) as [R2' E2].
  exists (iterator1_ b0), (iterator2_ b0). rewrite I1, I2. split_and!; [done|done|done|done|done|]. auto.
Qed.

Lemma largest_pos s1 s2 :
  Forall (fun d => 1 ≤ d) s1 → Forall (fun d => 1 ≤ d) s2 → Forall (fun d => 1 ≤ d) (largest <$> axis_pairs s1 s2).
Proof.
  intros F1 F2. apply Forall_fmap. eapply Forall_impl; [exact (axis_pairs_pos _ _ F1 F2)|].
  unfold largest. intros q [??]; simpl in *; lia.
Qed.

Lemma BroadcastTwo_ok {A C} (f : A → A → C) input0scalar input1scalar general allocate s1 a s2 b :
  (∀ x l, input0scalar x l = f x <$> l) → (∀ l y, input1scalar l y = (fun x => f x y) <$> l) →
  (∀ l1 l2, general l1 l2 = zip_with f l1 l2) → (∀ n, 0 ≤ n → Z.of_nat (length (allocate n)) = n) →
  Forall (fun d => 1 ≤ d) s1 → Forall (fun d => 1 ≤ d) s2 → prodZ (largest <$> axis_pairs s1 s2) < 2 ^ 63 →
  Z.of_nat (length a) = prodZ s1 → Z.of_nat (length b) = prodZ s2 →
  broadcast_result f s1 a s2 b (BroadcastTwo input0scalar input1scalar general allocate s1 a s2 b).
Proof.
  intros H0 H1 H2 Hal F1 F2 Hprod La Lb. pose proof (axis_pairs_pos _ _ F1 F2) as Hpos. unfold BroadcastTwo.
  pose proof (new_Broadcaster_ok s1 s2 Hpos Hprod) as HB. destruct (new_Broadcaster s1 s2) as [bc| |] eqn:Eb; [|done|done].
  destruct HB as (Hc & Ho & _).
  destruct (new_Broadcaster_runs s1 s2 bc F1 F2 Hprod Eb) as (it1 & it2 & I1 & I2 & R1 & R2 & Hboth & HP).
  cbn [mbind res_bind]. unfold BroadcastLoop. set (outs := largest <$> axis_pairs s1 s2) in *.
  assert (Hopos : Forall (fun d => 1 ≤ d) outs) by (by apply largest_pos).
  assert (Hsize : Size (output_shape_ bc) = prodZ outs).
  { rewrite Ho. unfold Size, SizeHelper. rewrite drop_0, Nat.sub_0_r, firstn_all, size_loop_ok by (done || lia). lia. }
  unfold IsInput0Scalar, IsInput1Scalar. rewrite Hsize, I1, I2. cbn [after deltas_].
  rewrite <- La in R1. rewrite <- Lb in R2. pose proof (prodZ_pos _ Hopos). specialize (Hal (prodZ outs) ltac:(lia)).
  destruct (broadcast_loop_ok f input0scalar input1scalar general H0 H1 H2 _ _ _ _ a b R1 R2 Hboth
    (S (length (allocate (prodZ outs)))) 0 (allocate (prodZ outs))) as (out & -> & Lo & Hout);
    [lia|apply Z.divide_0_r|lia|done|lia|].
  cbn [mbind res_bind broadcast_result]. split_and!; [done|done|done|]. intros idx Hidx.
  destruct (Hout (flat outs idx) (flat_bound _ _ Hidx)) as (z & Ez & x & y & Ex & Ey & ->).
  destruct (HP idx Hidx) as [P1 P2]. rewrite P1 in Ex. rewrite P2 in Ey. eauto.
Qed.

(** ** The kernels *)

(** The contract of a division: as that of [BroadcastTwo] where every pair of
    elements has a quotient, and undefined if one has none. *)
Definition division_result `{!Numeric T} (s1 : list Z) (a : list T) (s2 : list Z) (b : list T)
    (r : res (list Z * list T)) : Prop :=
  let outs := largest <$> axis_pairs s1 s2 in
  let paired idx x y := a !! Z.to_nat (broadcast_pos s1 idx) = Some x ∧ b !! Z.to_nat (broadcast_pos s2 idx) = Some y in
  match r with
  | Ok (shape, out) =>
      Forall compatible (axis_pairs s1 s2) ∧ shape = outs ∧ Z.of_nat (length out) = prodZ outs ∧
      ∀ idx, valid_index outs idx → ∃ x y z, paired idx x y ∧ div x y = Some z ∧ out !! Z.to_nat (flat outs idx) = Some z
  | Throw EnforceFailed => ¬ Forall compatible (axis_pairs s1 s2)
  | Throw UndefinedBehaviour =>
      Forall compatible (axis_pairs s1 s2) ∧
      ∃ idx x y, valid_index outs idx ∧ paired idx x y ∧ div x y = None
  | OutOfFuel => False
  end.

Lemma Div_Compute_ok `{!Numeric T} allocate s1 (a : list T) s2 b :
  (∀ n, 0 ≤ n → Z.of_nat (length (allocate n)) = n) →
  Forall (fun d => 1 ≤ d) s1 → Forall (fun d => 1 ≤ d) s2 → prodZ (largest <$> axis_pairs s1 s2) < 2 ^ 63 →
  Z.of_nat (length a) = prodZ s1 → Z.of_nat (length b) = prodZ s2 →
  division_result s1 a s2 b (Div_Compute allocate s1 a s2 b).
Proof.
  intros Ha F1 F2 Hp La Lb. unfold Div_Compute.
  assert (Hal : ∀ n, 0 ≤ n → Z.of_nat (length (Some <$> allocate n)) = n) by (intros; rewrite length_fmap; auto).
  pose proof (BroadcastTwo_ok div (fun x l => div x <$> l) (fun l y => (fun x => div x y) <$> l) (zip_with div)
    (fun n => Some <$> allocate n) s1 a s2 b ltac:(done) ltac:(done) ltac:(done) Hal F1 F2 Hp La Lb) as H.
  destruct (BroadcastTwo _ _ _ _ _ _ _ _) as [[shape qs]|e|]; cbn [mbind res_bind]; [|destruct H as [-> H]; exact H|done].
  destruct H as (Hc & -> & Lq & H). destruct (mapM id qs) as [out|] eqn:Em; cbn [of_option mbind res_bind division_result].
  - apply mapM_Some in Em. split_and!; [done|done|by rewrite <- Lq, (Forall2_length _ _ _ Em)|]. intros idx Hidx.
    destruct (H idx Hidx) as (x & y & Hx & Hy & Hq). destruct (Forall2_lookup_l _ _ _ _ _ Em Hq) as (z & Hz & E).
    exists x, y, z. done.
  - split; [done|]. apply mapM_None, Exists_exists in Em as (q & Hin & Eq). simpl in Eq. subst q.
    apply list_elem_of_lookup in Hin as [k Hk]. pose proof (lookup_lt_Some _ _ _ Hk).
    destruct (flat_surj (largest <$> axis_pairs s1 s2) (Z.of_nat k)) as (idx & Hidx & E);
      [by apply largest_pos|lia|].
    destruct (H idx Hidx) as (x & y & Hx & Hy & Hq). exists idx, x, y. split_and!; [done|done|done|].
    rewrite E, Nat2Z.id, Hk in Hq. congruence.
Qed.

(** C8. For shapes without empty axes whose broadcast size an [int64_t] counts:
    the arithmetic and comparison kernels apply their operation to the two
    elements that broadcasting pairs at every index of the output, whichever of
    the scalar, span and general loops they run; they raise exactly when two
    dimensions do not go together, and always terminate.  [Div] is defined
    exactly if every pair has a quotient. *)
Theorem arithmetic_kernels {T} `{!Numeric T, !NumericLaws T} allocate allocate_bool s1 (a : list T) s2 b :
  (∀ n, 0 ≤ n → Z.of_nat (length (allocate n)) = n) → (∀ n, 0 ≤ n → Z.of_nat (length (allocate_bool n)) = n) →
  Forall (fun d => 1 ≤ d) s1 → Forall (fun d => 1 ≤ d) s2 → prodZ (largest <$> axis_pairs s1 s2) < 2 ^ 63 →
  Z.of_nat (length a) = prodZ s1 → Z.of_nat (length b) = prodZ s2 →
  broadcast_result add s1 a s2 b (Add_Compute allocate s1 a s2 b) ∧
  broadcast_result sub s1 a s2 b (Sub_Compute allocate s1 a s2 b) ∧
  broadcast_result mul s1 a s2 b (Mul_Compute allocate s1 a s2 b) ∧
  division_result s1 a s2 b (Div_Compute allocate s1 a s2 b) ∧
  broadcast_result eqb s1 a s2 b (Equal_Compute allocate_bool s1 a s2 b) ∧
  broadcast_result ltb s1 a s2 b (Less_Compute allocate_bool s1 a s2 b) ∧
  broadcast_result gtb s1 a s2 b (Greater_Compute allocate_bool s1 a s2 b).
Proof.
  intros Ha Hb F1 F2 Hp La Lb. pose proof (Div_Compute_ok allocate s1 a s2 b Ha F1 F2 Hp La Lb) as Hdiv.
  split_and!; [..|exact Hdiv| | |]; apply BroadcastTwo_ok; try done; intros x l; apply list_fmap_ext; intros i y _; simpl.
  - apply eqb_sym.
  - apply gtb_ltb.
  - by rewrite gtb_ltb.
Qed.

Lemma arithmetic_kernels_witness :
  Less_Compute (fun n => replicate (Z.to_nat n) false) [2; 1] [1; 5] [3] [4; 5; 6] =
    Ok ([2; 3], [true; true; true; false; false; true]) ∧
  broadcast_result ltb [2; 1] [1; 5] [3] [4; 5; 6] (Ok ([2; 3], [true; true; true; false; false; true])) ∧
  Div_Compute (fun n => replicate (Z.to_nat n) 0) [2; 1] [1; 5] [3] [4; 5; 6] = Ok ([2; 3], [0; 0; 0; 1; 1; 0]) ∧
  division_result [2; 1] [1; 5] [3] [4; 5; 6] (Ok ([2; 3], [0; 0; 0; 1; 1; 0])).
Proof.
  destruct (arithmetic_kernels (fun n => replicate (Z.to_nat n) 0) (fun n => replicate (Z.to_nat n) false)
    [2; 1] [1; 5] [3] [4; 5; 6]) as (_ & _ & _ & Hd & _ & Hl & _).
  - intros n Hn. rewrite length_replicate. lia.
  - intros n Hn. rewrite length_replicate. lia.
  - repeat (constructor; [lia|]). constructor.
  - repeat (constructor; [lia|]). constructor.
  - reflexivity.
  - reflexivity.
  - reflexivity.
  - split_and!; [vm_compute; reflexivity|exact Hl|vm_compute; reflexivity|exact Hd].
Defined.

(** Division by a zero anywhere in the divisor is undefined. *)
Example division_by_zero :
  Div_Compute (fun n => replicate (Z.to_nat n) 0) [3] [1; 5; 2] [3] [4; 0; 6] = Throw UndefinedBehaviour.
Proof. reflexivity. Qed.

(** The logical kernels, whose scalar loops skip the operation when the
    scalar decides it, compute the same as the operation on every element. *)
Theorem logical_kernels allocate s1 (a : list bool) s2 b :
  (∀ n, 0 ≤ n → Z.of_nat (length (allocate n)) = n) →
  Forall (fun d => 1 ≤ d) s1 → Forall (fun d => 1 ≤ d) s2 → prodZ (largest <$> axis_pairs s1 s2) < 2 ^ 63 →
  Z.of_nat (length a) = prodZ s1 → Z.of_nat (length b) = prodZ s2 →
  broadcast_result andb s1 a s2 b (And_Compute allocate s1 a s2 b) ∧
  broadcast_result orb s1 a s2 b (Or_Compute allocate s1 a s2 b) ∧
  broadcast_result xorb s1 a s2 b (Xor_Compute allocate s1 a s2 b).
Proof.
  intros Ha F1 F2 Hp La Lb.
  assert (Hid : ∀ l : list bool, l = id <$> l) by (intros; by rewrite list_fmap_id).
  split_and!; apply BroadcastTwo_ok; try done.
  - intros [] l; simpl; [apply Hid|done].
  - intros l []; [rewrite (Hid l) at 1|]; apply list_fmap_ext; intros i [] _; done.
  - intros [] l; simpl; [done|apply Hid].
  - intros l []; [|rewrite (Hid l) at 1]; apply list_fmap_ext; intros i [] _; done.
  - intros [] l; [|rewrite (Hid l) at 1]; apply list_fmap_ext; intros i [] _; done.
  - intros l []; [|rewrite (Hid l) at 1]; apply list_fmap_ext; intros i [] _; done.
Qed.

Lemma logical_kernels_witness :
  ∃ out, And_Compute (fun n => replicate (Z.to_nat n) false) [2; 1] [true; false] [] [true] = Ok ([2; 1], out) ∧
    length out = 2%nat.
Proof.
  destruct (logical_kernels (fun n => replicate (Z.to_nat n) false) [2; 1] [true; false] [] [true]) as (H & _ & _).
  - intros n Hn. rewrite length_replicate. lia.
  - repeat (constructor; [lia|]). constructor.
  - constructor.
  - reflexivity.
  - reflexivity.
  - reflexivity.
  - assert (E : And_Compute (fun n => replicate (Z.to_nat n) false) [2; 1] [true; false] [] [true] = Ok ([2; 1], [true; false]))
      by (vm_compute; reflexivity).
    rewrite E in H |- *. destruct H as (_ & _ & L & _). eexists. split; [reflexivity|]. apply Nat2Z.inj. exact L.
Defined.

(** On two inputs of one shape broadcasting is the pointwise operation. *)
Lemma axis_pairs_same s : axis_pairs s s = zip s s.
Proof.
  unfold axis_pairs. assert (H : ∀ l, zip_pad l l = (fun x => (x, x)) <$> l) by (induction l as [|x l IH]; simpl; [done|]; by rewrite IH).
  rewrite H, <- fmap_reverse, reverse_involutive. clear. induction s as [|x s IH]; simpl; [done|]. f_equal. exact IH.
Qed.
Lemma zip_same_largest s : largest <$> zip s s = s.
Proof. induction s as [|x s IH]; simpl; [done|]. unfold largest at 1. simpl. rewrite Z.max_id. by f_equal. Qed.
Lemma broadcast_pos_same s idx : valid_index s idx → broadcast_pos s idx = flat s idx.
Proof.
  intros Hv. unfold broadcast_pos. destruct Hv as [Hl Hr] eqn:E. rewrite Hl, Nat.sub_diag, drop_0. clear E Hl Hr. revert idx Hv.
  induction s as [|d s IH]; intros [|i idx] Hv; [done|done|by destruct Hv|]. apply valid_index_cons in Hv as [Hi Hv]. simpl.
  rewrite !flat_cons, IH by done. destruct (Z.eqb_spec d 1); [|done]. by assert (i = 0) as -> by lia.
Qed.
Lemma BroadcastTwo_same {A C} (f : A → A → C) input0scalar input1scalar general allocate s a b :
  (∀ x l, input0scalar x l = f x <$> l) → (∀ l y, input1scalar l y = (fun x => f x y) <$> l) →
  (∀ l1 l2, general l1 l2 = zip_with f l1 l2) → (∀ n, 0 ≤ n → Z.of_nat (length (allocate n)) = n) →
  Forall (fun d => 1 ≤ d) s → prodZ s < 2 ^ 63 → Z.of_nat (length a) = prodZ s → Z.of_nat (length b) = prodZ s →
  BroadcastTwo input0scalar input1scalar general allocate s a s b = Ok (s, zip_with f a b).
Proof.
  intros H0 H1 H2 Hal F Hp La Lb.
  pose proof (BroadcastTwo_ok f input0scalar input1scalar general allocate s a s b H0 H1 H2 Hal F F) as H.
  unfold broadcast_result in H. rewrite axis_pairs_same, zip_same_largest in H. specialize (H Hp La Lb).
  destruct (BroadcastTwo _ _ _ _ _ _ _ _) as [[shape out]|e|]; [| |done].
  - destruct H as (_ & -> & Lo & Hout). do 2 f_equal. apply list_eq. intros i.
    destruct (decide (i < length out)%nat) as [Hi|Hi].
    + destruct (flat_surj s (Z.of_nat i) F ltac:(lia)) as (idx & Hidx & Ei).
      destruct (Hout idx Hidx) as (x & y & Ex & Ey & Ez). rewrite broadcast_pos_same, Ei, Nat2Z.id in * by done.
      by rewrite lookup_zip_with, Ex, Ey, Ez.
    + rewrite !lookup_ge_None_2; [done|rewrite length_zip_with; lia|lia].
  - destruct H as [_ H]. exfalso. apply H. clear. induction s; simpl; constructor; [|done]. right. by right.
Qed.

(** The variadic [Sum] of opset 8, which broadcasts pair by pair, agrees with
    the [Sum] of opset 6 on inputs of one shape. *)
Theorem sum_versions_agree {T} `{!Numeric T} allocate s (data : list T) rest :
  (∀ n, 0 ≤ n → Z.of_nat (length (allocate n)) = n) →
  Forall (fun d => 1 ≤ d) s → prodZ s < 2 ^ 63 →
  Forall (fun l => Z.of_nat (length l) = prodZ s) (data :: rest) →
  Sum_8_Compute allocate ((fun l => (s, l)) <$> data :: rest) = Sum_6_Compute ((fun l => (s, l)) <$> data :: rest) ∧
  Sum_6_Compute ((fun l => (s, l)) <$> data :: rest) = Ok (s, foldl (zip_with add) data rest).
Proof.
  intros Hal F Hp Hl. unfold Sum_8_Compute, Sum_6_Compute, BroadcastVariadic. rewrite fmap_cons. cbv beta iota.
  assert (H6 : foldM (fun sum input => _ ← enforce (bool_decide (fst input = s)); Ok (zip_with add sum (snd input)))
    data ((fun l => (s, l)) <$> rest) = Ok (foldl (zip_with add) data rest)).
  { clear Hl. revert data. induction rest as [|l rest IH]; intros data; [done|]. simpl. rewrite bool_decide_true by done. apply IH. }
  rewrite H6. split; [|done]. simpl. clear H6.
  revert data Hl. induction rest as [|l rest IH]; intros data Hl; [done|]. simpl.
  apply Forall_cons_1 in Hl as [L1 Hl]. apply Forall_cons_1 in Hl as [L2 Hl].
  rewrite (BroadcastTwo_same add) by done. simpl. apply IH. constructor; [|done].
  rewrite length_zip_with. lia.
Qed.

Lemma sum_versions_agree_witness :
  Sum_8_Compute (fun n => replicate (Z.to_nat n) 0) [([2], [1; 2]); ([2], [3; 4]); ([2], [5; 6])] = Ok ([2], [9; 12]).
Proof.
  destruct (sum_versions_agree (fun n => replicate (Z.to_nat n) 0) [2] [1; 2] [[3; 4]; [5; 6]]) as [H1 H2].
  - intros n Hn. rewrite length_replicate. lia.
  - repeat (constructor; [lia|]). constructor.
  - reflexivity.
  - repeat (constructor; [reflexivity|]). constructor.
  - exact (eq_trans H1 H2).
Defined.
