(* ===== verification/ExecutionFrame.v ===== *)
(** The run of a plan: [ExecutionFrame] of [execution_frame.cc], which holds the
    values of one run and allocates, shares and releases their memory as the
    plan says, [OpKernelContext] of [op_kernel.cc], through which a kernel asks
    for its outputs, the parts of [SessionState] of [session_state.cc] they
    use, and [SequentialExecutor] of [sequential_executor.cc]. *)
From S2P Require Import Prelude TensorShape MemPattern AllocPlanner.

(** ** Sizes *)

(** [IAllocator::CalcMemSizeForArrayWithAlignment]; [None] is the result
    false. *)
Definition CalcMemSizeForArrayWithAlignment (alignment nmemb size : Z) : option Z :=
  let max_allowed := 2 ^ 32 - alignment in
  let max_size := 2 ^ 64 - 1 - alignment in
  let alignment_mask := alignment - 1 in
  if (max_allowed <=? nmemb) && (max_size / nmemb <? size) then None
  else if (max_allowed <=? size) && (0 <? nmemb) && (max_size / nmemb <? size) then None
  else if alignment =? 0 then Some (u64 (size * nmemb))
  else Some (Z.land (u64 (u64 (size * nmemb) + alignment_mask)) (2 ^ 64 - 1 - alignment_mask)).

(** ** Values *)

(** [MLDataType]: besides what the planner asks of a type, the type of the
    elements of a tensor type, [TensorTypeBase::GetElementType], the size of a
    value of a type, [DataTypeImpl::Size], and whether a type is the one of
    strings. *)
Class ValueTypes (T : Type) := {
  GetElementType : T → T;
  type_Size : T → Z;
  is_string : T → bool;
}.

(** A pointer into a buffer that an allocator gave out. *)
Inductive Pointer :=
  | Null
  | Ptr (buffer : nat) (offset : Z).
Definition ptr_add (p : Pointer) (z : Z) : Pointer :=
  match p with Null => Null | Ptr b o => Ptr b (o + z) end.

(** The buffers of all allocators: those numbered below [next_buffer] have been
    given out, those in [freed] were given back. *)
Record Heap := mkHeap { next_buffer : nat; freed : gset nat }.
Definition heap_Alloc (h : Heap) : nat * Heap := (next_buffer h, mkHeap (S (next_buffer h)) (freed h)).
Definition live (h : Heap) (p : Pointer) : bool :=
  match p with Null => true | Ptr b _ => (b <? next_buffer h)%nat && bool_decide (b ∉ freed h) end.
(** Only the start of a buffer that is out can be given back. *)
Definition heap_Free (h : Heap) (p : Pointer) : res Heap :=
  match p with
  | Null => Ok h
  | Ptr b o => if (o =? 0) && live h p then Ok (mkHeap (next_buffer h) ({[b]} ∪ freed h)) else Throw UndefinedBehaviour
  end.

(** [buffer_deleter_] is set for a tensor that owns its buffer. *)
Record Tensor (T : Type) := mkTensor {
  dtype_ : T;
  shape_ : TensorShape;
  p_data_ : Pointer;
  alloc_info_ : OrtAllocatorInfo;
  owns_buffer : bool;
}.
Arguments mkTensor {T}.
Arguments dtype_ {T}.
Arguments shape_ {T}.
Arguments p_data_ {T}.
Arguments alloc_info_ {T}.
Arguments owns_buffer {T}.

Inductive Object (T : Type) :=
  | TensorObject (t : Tensor T)
  | OtherObject (type : T).
Arguments TensorObject {T}.
Arguments OtherObject {T}.

(** An [MLValue]: the object, whether somebody outside the frame holds it too
    (a feed, an initializer, a preallocated fetch), and the fence. *)
Record MLValue (T : Type) := mkMLValue {
  data_ : option (Object T);
  shared : bool;
  fence_ : option nat;
}.
Arguments mkMLValue {T}.
Arguments data_ {T}.
Arguments shared {T}.
Arguments fence_ {T}.
Definition empty_MLValue {T} : MLValue T := mkMLValue None false None.
Definition IsAllocated {T} (v : MLValue T) : bool := bool_decide (is_Some (data_ v)).
Definition IsTensor {T} (v : MLValue T) : bool :=
  match data_ v with Some (TensorObject _) => true | _ => false end.
Definition GetTensor {T} (v : MLValue T) : res (Tensor T) :=
  match data_ v with Some (TensorObject t) => Ok t | _ => Throw EnforceFailed end.
(** What dropping the last reference to the object gives back. *)
Definition drop_value {T} (h : Heap) (v : MLValue T) : res Heap :=
  match data_ v with
  | Some (TensorObject t) => if owns_buffer t && negb (shared v) then heap_Free h (p_data_ t) else Ok h
  | _ => Ok h
  end.
Definition share {T} (v : MLValue T) : MLValue T := mkMLValue (data_ v) (IsAllocated v) (fence_ v).

(** ** The session *)

Record SessionState (T : Type) := mkSession {
  graph_viewer_ : GraphView T;
  max_node_index : nat;
  mlvalue_name_idx_map_ : MLValueNameIdxMap;
  initialized_tensors_ : list (nat * MLValue T);
  p_seq_exec_plan_ : SequentialExecutionPlan T;
  enable_mem_pattern_ : bool;
  mem_pattern_cache_ : gmap Z MemoryPatternGroup;
}.
Arguments mkSession {T}.
Arguments graph_viewer_ {T}.
Arguments max_node_index {T}.
Arguments mlvalue_name_idx_map_ {T}.
Arguments initialized_tensors_ {T}.
Arguments p_seq_exec_plan_ {T}.
Arguments enable_mem_pattern_ {T}.
Arguments mem_pattern_cache_ {T}.

Definition CalculateMemoryPatternsKey (shapes : list TensorShape) : Z :=
  foldl (fun key shape => foldl Z.lxor key shape) 0 shapes.
Definition GetMemoryPatternGroup {T} (s : SessionState T) (input_shapes : list TensorShape) : option MemoryPatternGroup :=
  mem_pattern_cache_ s !! CalculateMemoryPatternsKey input_shapes.
Definition UpdateMemoryPatternGroupCache {T} (s : SessionState T) (input_shapes : list TensorShape)
    (mem_patterns : MemoryPatternGroup) : SessionState T :=
  let key := CalculateMemoryPatternsKey input_shapes in
  match mem_pattern_cache_ s !! key with
  | Some _ => s
  | None => mkSession (graph_viewer_ s) (max_node_index s) (mlvalue_name_idx_map_ s) (initialized_tensors_ s)
              (p_seq_exec_plan_ s) (enable_mem_pattern_ s) (<[key := mem_patterns]> (mem_pattern_cache_ s))
  end.

(** ** The frame *)

Record ExecutionFrame (T : Type) := mkFrame {
  node_values_ : list Z;
  all_values_ : list (MLValue T);
  node_offsets_ : list nat;
  mem_patterns_ : option MemoryPatternGroup;
  planner_ : option MLValuePatternPlanner;
  buffers_ : list (OrtAllocatorInfo * Pointer);
  output_indices_ : list nat;
  heap_ : Heap;
}.
Arguments mkFrame {T}.
Arguments node_values_ {T}.
Arguments all_values_ {T}.
Arguments node_offsets_ {T}.
Arguments mem_patterns_ {T}.
Arguments planner_ {T}.
Arguments buffers_ {T}.
Arguments output_indices_ {T}.
Arguments heap_ {T}.

Section frame.
Context {T : Type} `{!TensorTypes T, !ValueTypes T}.
(** The fence an allocator creates, if its device runs asynchronously. *)
Context (CreateFence : OrtAllocatorInfo → option nat).
Context (session : SessionState T).
Implicit Types (f : ExecutionFrame T) (v : MLValue T).

Definition plan : SequentialExecutionPlan T := p_seq_exec_plan_ session.

Definition set_values f vs h : ExecutionFrame T :=
  mkFrame (node_values_ f) vs (node_offsets_ f) (mem_patterns_ f) (planner_ f) (buffers_ f) (output_indices_ f) h.
Definition set_planner f p : ExecutionFrame T :=
  mkFrame (node_values_ f) (all_values_ f) (node_offsets_ f) (mem_patterns_ f) p (buffers_ f) (output_indices_ f) (heap_ f).
Definition set_node_values f nv : ExecutionFrame T :=
  mkFrame nv (all_values_ f) (node_offsets_ f) (mem_patterns_ f) (planner_ f) (buffers_ f) (output_indices_ f) (heap_ f).
Definition set_node_offsets f no : ExecutionFrame T :=
  mkFrame (node_values_ f) (all_values_ f) no (mem_patterns_ f) (planner_ f) (buffers_ f) (output_indices_ f) (heap_ f).
Definition set_output_indices f l : ExecutionFrame T :=
  mkFrame (node_values_ f) (all_values_ f) (node_offsets_ f) (mem_patterns_ f) (planner_ f) (buffers_ f) l (heap_ f).
Definition set_patterns f g bs h : ExecutionFrame T :=
  mkFrame (node_values_ f) (all_values_ f) (node_offsets_ f) g (planner_ f) bs (output_indices_ f) h.
Definition put f (i : nat) v : ExecutionFrame T := set_values f (<[i := v]> (all_values_ f)) (heap_ f).

Definition value_at f (i : Z) : res (MLValue T) :=
  if i <? 0 then Throw UndefinedBehaviour else of_option UndefinedBehaviour (all_values_ f !! Z.to_nat i).

Definition GetAllocationPlan (mlvalue_idx : Z) : res (AllocPlanPerValue T) :=
  if mlvalue_idx <? 0 then Throw EnforceFailed
  else of_option EnforceFailed (allocation_plan plan !! Z.to_nat mlvalue_idx).

(** ** Tracing *)

Definition TraceAllocate f (mlvalue_idx size : Z) : res (ExecutionFrame T) :=
  p ← GetAllocationPlan mlvalue_idx;
  match planner_ f with
  | Some planner =>
      if bool_decide (alloc_kind p = kAllocateOutput) then Ok f
      else '(_, planner) ← ml_TraceAllocation planner mlvalue_idx size; Ok (set_planner f (Some planner))
  | None => Ok f
  end.
Definition frame_TraceFree f (mlvalue_idx : nat) : res (ExecutionFrame T) :=
  match planner_ f with
  | Some planner =>
      if bool_decide (mlvalue_idx ∈ output_indices_ f) then Ok f
      else
        p ← of_option EnforceFailed (allocation_plan plan !! mlvalue_idx);
        t ← of_option UndefinedBehaviour (value_type p);
        if has_tensor_type t && negb (is_string (GetElementType t))
        then '(_, planner) ← ml_TraceFree planner (Z.of_nat mlvalue_idx); Ok (set_planner f (Some planner))
        else Ok f
  | None => Ok f
  end.

(** ** Allocation *)

Definition AllocateTensorWithPreAllocateBufferHelper f (i : nat) v (pBuffer : Pointer) (element_type : T)
    (location : OrtAllocatorInfo) (shape : TensorShape) : res (Status * ExecutionFrame T) :=
  if IsAllocated v then Ok (StatusOK, f)
  else if Size shape <? 0 then Throw EnforceFailed
  else Ok (StatusOK, put f i (mkMLValue (Some (TensorObject (mkTensor element_type shape pBuffer location false)))
                                false (fence_ v))).

(** The place of a value in the memory of the pattern of its location, if the
    pattern has a block of the right size for it. *)
Definition pattern_place f (p : AllocPlanPerValue T) (mlvalue_index : nat) (location : OrtAllocatorInfo) (size : Z) :
    option Pointer :=
  g ← mem_patterns_ f;
  if bool_decide (alloc_kind p = kAllocateOutput) then None
  else pattern ← GetPatterns g location;
       block ← GetBlock pattern (Z.of_nat mlvalue_index);
       it ← snd <$> list_find (fun e => info_equiv (fst e) location = true) (buffers_ f);
       if size_ block =? size then Some (ptr_add (snd it) (offset_ block)) else None.

Definition AllocateMLValueTensorSelfOwnBufferHelper f (mlvalue_index : Z) (element_type : T)
    (location : OrtAllocatorInfo) (shape : TensorShape) (create_fence : bool) : res (Status * ExecutionFrame T) :=
  if mlvalue_index <? 0 then Ok (Some FAIL, f)
  else
    let i := Z.to_nat mlvalue_index in
    v ← value_at f mlvalue_index;
    if IsAllocated v then Ok (StatusOK, f)
    else
      let len := Size shape in
      if len <? 0 then Ok (Some INVALID_ARGUMENT, f)
      else
        match CalcMemSizeForArrayWithAlignment 64 len (type_Size element_type) with
        | None => Ok (Some FAIL, f)
        | Some size =>
            v ← (if create_fence
                 then _ ← enforce (negb (bool_decide (is_Some (fence_ v))));
                      Ok (mkMLValue (data_ v) (shared v) (CreateFence location))
                 else Ok v);
            let f := put f i v in
            p ← GetAllocationPlan mlvalue_index;
            match pattern_place f p i location size with
            | Some ptr => AllocateTensorWithPreAllocateBufferHelper f i v ptr element_type location shape
            | None =>
                let '(ptr, heap) :=
                  if size =? 0 then (Null, heap_ f) else let '(b, h) := heap_Alloc (heap_ f) in (Ptr b 0, h) in
                let tensor := mkTensor element_type shape ptr location true in
                let f := set_values f (<[i := mkMLValue (Some (TensorObject tensor)) false (fence_ v)]> (all_values_ f)) heap in
                f ← (if is_string element_type then Ok f else TraceAllocate f mlvalue_index size);
                Ok (StatusOK, f)
            end
        end.
Definition AllocateMLValueTensorSelfOwnBuffer f (mlvalue_index : Z) (element_type : T)
    (location : OrtAllocatorInfo) (shape : TensorShape) (create_fence : bool) : res (Status * ExecutionFrame T) :=
  _ ← enforce ((0 <=? mlvalue_index) && (mlvalue_index <? Z.of_nat (length (all_values_ f))));
  AllocateMLValueTensorSelfOwnBufferHelper f mlvalue_index element_type location shape create_fence.

(** The same for the argument of a node at position [index]. *)
Definition AllocateTensorWithSelfOwnBuffer f (index : Z) (element_type : T) (location : OrtAllocatorInfo)
    (shape : TensorShape) (create_fence : bool) : res (Status * ExecutionFrame T) :=
  _ ← enforce ((0 <=? index) && (index <? Z.of_nat (length (node_values_ f))));
  i ← of_option UndefinedBehaviour (node_values_ f !! Z.to_nat index);
  AllocateMLValueTensorSelfOwnBufferHelper f i element_type location shape create_fence.
Definition AllocateTensorWithPreAllocateBuffer f (offset : Z) (pBuffer : Pointer) (element_type : T)
    (location : OrtAllocatorInfo) (shape : TensorShape) : res (Status * ExecutionFrame T) :=
  _ ← enforce ((0 <=? offset) && (offset <? Z.of_nat (length (node_values_ f))));
  i ← of_option UndefinedBehaviour (node_values_ f !! Z.to_nat offset);
  if i <? 0 then Ok (Some FAIL, f)
  else v ← value_at f i; AllocateTensorWithPreAllocateBufferHelper f (Z.to_nat i) v pBuffer element_type location shape.

Definition AllocateMLValueTensorPreAllocateBuffer f (mlvalue_index_to_allocate mlvalue_index_reuse : Z)
    (element_type : T) (location : OrtAllocatorInfo) (shape : TensorShape) (create_fence : bool) :
    res (Status * ExecutionFrame T) :=
  _ ← enforce ((0 <=? mlvalue_index_to_allocate) && (mlvalue_index_to_allocate <? Z.of_nat (length (all_values_ f))));
  _ ← enforce ((0 <=? mlvalue_index_reuse) && (mlvalue_index_reuse <? Z.of_nat (length (all_values_ f))));
  v_reuse ← value_at f mlvalue_index_reuse;
  reuse_tensor ← GetTensor v_reuse;
  let v_reuse :=
    if create_fence && negb (bool_decide (is_Some (fence_ v_reuse)))
    then mkMLValue (data_ v_reuse) (shared v_reuse) (CreateFence location) else v_reuse in
  let f := put f (Z.to_nat mlvalue_index_reuse) v_reuse in
  v ← value_at f mlvalue_index_to_allocate;
  let v := mkMLValue (data_ v) (shared v) (fence_ v_reuse) in
  let f := put f (Z.to_nat mlvalue_index_to_allocate) v in
  AllocateTensorWithPreAllocateBufferHelper f (Z.to_nat mlvalue_index_to_allocate) v (p_data_ reuse_tensor)
    element_type location shape.

Definition AllocateAsPerAllocationPlan f (mlvalue_index : Z) (shape : TensorShape) : res (Status * ExecutionFrame T) :=
  if (mlvalue_index <? 0) || (Z.of_nat (length (all_values_ f)) <=? mlvalue_index) then Ok (Some INVALID_ARGUMENT, f)
  else
    p ← GetAllocationPlan mlvalue_index;
    match value_type p with
    | None => Ok (Some INVALID_ARGUMENT, f)
    | Some ml_type =>
        if negb (has_tensor_type ml_type) then
          v ← value_at f mlvalue_index;
          Ok (StatusOK, put f (Z.to_nat mlvalue_index) (mkMLValue (Some (OtherObject ml_type)) false (fence_ v)))
        else
          let ml_data_type := GetElementType ml_type in
          match alloc_kind p with
          | kAllocateOutput | kAllocate =>
              AllocateMLValueTensorSelfOwnBuffer f mlvalue_index ml_data_type (location p) shape (create_fence_if_async p)
          | kReuse =>
              AllocateMLValueTensorPreAllocateBuffer f mlvalue_index (Z.of_nat (reused_buffer p)) ml_data_type (location p)
                shape (create_fence_if_async p)
          | _ => Ok (Some FAIL, f)
          end
    end.

Definition VerifyShape v (shape : TensorShape) : res unit :=
  match data_ v with
  | Some (TensorObject t) => enforce (bool_decide (shape_ t = shape))
  | _ => Ok tt
  end.

(** The value of an argument of a node; [None] for one that is not used. *)
Definition GetNodeInputOrOutputMLValue f (index : Z) : res (option (MLValue T)) :=
  _ ← enforce ((0 <=? index) && (index <? Z.of_nat (length (node_values_ f))));
  i ← of_option UndefinedBehaviour (node_values_ f !! Z.to_nat index);
  if 0 <=? i then v ← value_at f i; Ok (Some v) else Ok None.

Definition GetOrCreateNodeOutputMLValue f (index : Z) (shape : TensorShape) : res (Status * ExecutionFrame T) :=
  if (index <? 0) || (Z.of_nat (length (node_values_ f)) <=? index) then Ok (Some INVALID_ARGUMENT, f)
  else
    i ← of_option UndefinedBehaviour (node_values_ f !! Z.to_nat index);
    if i <? 0 then Ok (StatusOK, f)
    else
      v ← value_at f i;
      if IsAllocated v then _ ← VerifyShape v shape; Ok (StatusOK, f)
      else AllocateAsPerAllocationPlan f i shape.

Definition ReleaseMLValue f (mlvalue_idx : nat) : res (Status * ExecutionFrame T) :=
  match all_values_ f !! mlvalue_idx with
  | None => Ok (Some INVALID_ARGUMENT, f)
  | Some v =>
      heap ← drop_value (heap_ f) v;
      let f := set_values f (<[mlvalue_idx := empty_MLValue]> (all_values_ f)) heap in
      f ← frame_TraceFree f mlvalue_idx;
      Ok (StatusOK, f)
  end.

(** The bound that is checked is the one of [node_offsets_]. *)
Definition Release f (offset : Z) : res (ExecutionFrame T) :=
  _ ← enforce ((0 <=? offset) && (offset <? Z.of_nat (length (node_offsets_ f))));
  i ← of_option UndefinedBehaviour (node_values_ f !! Z.to_nat offset);
  match (if i <? 0 then None else all_values_ f !! Z.to_nat i) with
  | Some v =>
      heap ← drop_value (heap_ f) v;
      frame_TraceFree (set_values f (<[Z.to_nat i := empty_MLValue]> (all_values_ f)) heap) (Z.to_nat i)
  | None => Ok f
  end.

Definition frame_GeneratePatterns f : Status * option MemoryPatternGroup :=
  match planner_ f with
  | None => (Some FAIL, None)
  | Some p => GeneratePatterns p (Some (mkGroup [] []))
  end.

(** ** Construction *)

Definition SetupNodeArg f (arg : NodeArg T) : res (ExecutionFrame T) :=
  if bool_decide (na_name arg = ""%string) then Ok (set_node_values f (node_values_ f ++ [-1]))
  else
    let '(s, index) := GetIdx (mlvalue_name_idx_map_ session) (na_name arg) in
    _ ← enforce (IsOK s);
    Ok (set_node_values f (node_values_ f ++ [index])).
Definition setup_node f (node : Node T) : res (ExecutionFrame T) :=
  _ ← enforce (n_index node <? Z.of_nat (length (node_offsets_ f)));
  let f := set_node_offsets f (<[Z.to_nat (n_index node) := length (node_values_ f)]> (node_offsets_ f)) in
  f ← foldM SetupNodeArg f (n_inputs node);
  f ← foldM SetupNodeArg f (n_implicit_inputs node);
  foldM SetupNodeArg f (n_outputs node).

Definition put_at f (i : nat) v : res (ExecutionFrame T) :=
  match all_values_ f !! i with Some _ => Ok (put f i v) | None => Throw UndefinedBehaviour end.
Definition put_named f (name : string) v : res (nat * ExecutionFrame T) :=
  let '(s, idx) := GetIdx (mlvalue_name_idx_map_ session) name in
  _ ← enforce (IsOK s);
  f ← put_at f (Z.to_nat idx) v;
  Ok (Z.to_nat idx, f).

Definition frame_Init f (feeds : list (string * MLValue T)) (output_names : list string) (fetches : list (MLValue T)) :
    res (ExecutionFrame T) :=
  let f := set_node_offsets f (replicate (max_node_index session) 0%nat) in
  let f := set_values f (replicate (MaxIdx (mlvalue_name_idx_map_ session) + 1) empty_MLValue) (heap_ f) in
  f ← foldM (fun f e => put_at f (fst e) (share (snd e))) f (initialized_tensors_ session);
  f ← foldM (fun f e => '(_, f) ← put_named f (fst e) (share (snd e)); Ok f) f feeds;
  f ← (if bool_decide (fetches = []) then Ok f
       else _ ← enforce (length output_names =? length fetches)%nat;
            foldM (fun f e => '(i, f) ← put_named f (fst e) (share (snd e));
                              Ok (set_output_indices f (output_indices_ f ++ [i])))
              f (zip output_names fetches));
  foldM setup_node f (g_nodes (graph_viewer_ session)).

(** The shapes of the feeds if all of them are tensors. *)
Fixpoint input_shapes (feeds : list (string * MLValue T)) : option (list TensorShape) :=
  match feeds with
  | [] => Some []
  | (_, v) :: feeds' =>
      match data_ v with
      | Some (TensorObject t) => shapes ← input_shapes feeds'; Some (shape_ t :: shapes)
      | _ => None
      end
  end.

(** The memory of each location of the pattern in one buffer. *)
Definition allocate_pattern f (e : OrtAllocatorInfo * MemoryPattern) : res (ExecutionFrame T) :=
  let '(location, pattern) := e in
  _ ← enforce (negb (existsb (fun b => info_equiv (fst b) location) (buffers_ f)));
  let '(ptr, heap) :=
    if 0 <? PeakSize pattern then let '(b, h) := heap_Alloc (heap_ f) in (Ptr b 0, h) else (Null, heap_ f) in
  Ok (set_patterns f (mem_patterns_ f) (buffers_ f ++ [(location, ptr)]) heap).

Definition new_ExecutionFrame (heap : Heap) (feeds : list (string * MLValue T)) (output_names : list string)
    (fetches : list (MLValue T)) : res (ExecutionFrame T) :=
  f ← frame_Init (mkFrame [] [] [] None None [] [] heap) feeds output_names fetches;
  if enable_mem_pattern_ session then
    match input_shapes feeds with
    | None => Ok f
    | Some shapes =>
        match GetMemoryPatternGroup session shapes with
        | None => Ok (set_planner f (Some (new_MLValuePatternPlanner (location <$> allocation_plan plan))))
        | Some g => foldM allocate_pattern (set_patterns f (Some g) (buffers_ f) (heap_ f)) (zip (locations g) (patterns g))
        end
    end
  else Ok f.

(** ** Kernels *)

(** A kernel sees its inputs and answers with the outputs it asks for, in
    order, and the status it returns with. *)
Context (kernel : Z → list (option (MLValue T)) → Status * list (Z * TensorShape)).

(** The memory of a value that is read or written. *)
Definition access f (arg : option (MLValue T)) : res unit :=
  match arg with
  | None => Ok tt
  | Some v => match data_ v with
              | None => Throw EnforceFailed
              | Some (TensorObject t) => if live (heap_ f) (p_data_ t) then Ok tt else Throw UndefinedBehaviour
              | Some (OtherObject _) => Ok tt
              end
  end.

Definition GetFirstArgIndex f (node_index : Z) : res nat :=
  _ ← enforce (node_index <? Z.of_nat (length (node_offsets_ f)));
  of_option UndefinedBehaviour (node_offsets_ f !! Z.to_nat node_index).

(** The arguments of a node from position [start] on. *)
Definition node_args f (start : nat) (count : nat) : res (list (option (MLValue T))) :=
  foldM (fun acc i => v ← GetNodeInputOrOutputMLValue f (Z.of_nat i); Ok (acc ++ [v])) [] (seq start count).

(** [OpKernelContext::Output]: its status is enforced. *)
Definition context_Output (node : Node T) (output_start : nat) f (request : Z * TensorShape) : res (ExecutionFrame T) :=
  let '(index, shape) := request in
  if (index <? 0) || (Z.of_nat (length (n_outputs node)) <=? index) then Ok f
  else '(s, f) ← GetOrCreateNodeOutputMLValue f (Z.of_nat output_start + index) shape;
       _ ← enforce (IsOK s);
       p_ml_value ← GetNodeInputOrOutputMLValue f (Z.of_nat output_start + index);
       match p_ml_value with
       | Some v => _ ← GetTensor v; Ok f
       | None => Ok f
       end.

Definition compute_node f (node : Node T) : res (Status * ExecutionFrame T) :=
  input_start ← GetFirstArgIndex f (n_index node);
  let implicit_start := (input_start + length (n_inputs node))%nat in
  let output_start := (implicit_start + length (n_implicit_inputs node))%nat in
  inputs ← node_args f input_start (length (n_inputs node) + length (n_implicit_inputs node));
  _ ← foldM (fun _ arg => access f arg) tt inputs;
  let '(s, requests) := kernel (n_index node) inputs in
  f ← foldM (context_Output node output_start) f requests;
  outputs ← node_args f output_start (length (n_outputs node));
  _ ← (if IsOK s then foldM (fun _ arg => access f arg) tt (inputs ++ outputs) else Ok tt);
  Ok (s, f).

(** ** The executor *)

Definition ReleaseNodeMLValues f (step : NodeExecutionPlan) : res (Status * ExecutionFrame T) :=
  foldM (fun sf i =>
      let '(s, f) := sf in
      if negb (IsOK s) then Ok (s, f)
      else mlvalue_idx ← of_option UndefinedBehaviour (to_be_freed plan !! i); ReleaseMLValue f mlvalue_idx)
    (StatusOK, f)
    (seq (Z.to_nat (free_from_index step)) (Z.to_nat (free_to_index step + 1 - free_from_index step))).

Definition node_of (node_index : Z) : option (Node T) :=
  find (fun n => n_index n =? node_index) (g_nodes (graph_viewer_ session)).

(** One round of the loop over the plan; [terminate] is the flag another thread
    may have set when the round starts. *)
Definition execute_step (terminate : nat → bool) (sf : Status * ExecutionFrame T) (ks : nat * NodeExecutionPlan) :
    res (Status * ExecutionFrame T) :=
  let '(s, f) := sf in
  let '(k, step) := ks in
  if negb (IsOK s) then Ok (s, f)
  else if terminate k then Ok (Some FAIL, f)
  else match node_of (node_index step) with
       | None => Ok (Some FAIL, f)
       | Some node =>
           '(s, f) ← compute_node f node;
           if negb (IsOK s) then Ok (s, f) else ReleaseNodeMLValues f step
       end.

Definition GetMLValue f (mlvalue_index : Z) : res (MLValue T) :=
  _ ← enforce ((0 <=? mlvalue_index) && (mlvalue_index <? Z.of_nat (length (all_values_ f))));
  value_at f mlvalue_index.
(** The fetched values are shared with the caller from then on. *)
Definition FetchOutput f (output_names : list string) (fetches : list (MLValue T)) :
    res (Status * list (MLValue T) * ExecutionFrame T) :=
  _ ← (if bool_decide (fetches = []) then Ok tt else enforce (length output_names =? length fetches)%nat);
  foldM (fun acc oname =>
      let '(s, out, f) := acc in
      if negb (IsOK s) then Ok (s, out, f)
      else let '(s, i) := GetIdx (mlvalue_name_idx_map_ session) oname in
           if negb (IsOK s) then Ok (s, out, f)
           else v ← GetMLValue f i; Ok (StatusOK, out ++ [v], put f (Z.to_nat i) (share v)))
    (StatusOK, [], f) output_names.

(** The destructor of the frame: the values go, and the memory of the patterns. *)
Definition destroy_frame f : res Heap :=
  h ← foldM (fun h b => heap_Free h (snd b)) (heap_ f) (buffers_ f);
  foldM drop_value h (all_values_ f).

(** [SequentialExecutor::Execute]: the status, the fetched values, the session
    with its cache and the memory after the frame is gone. *)
Definition Execute (terminate : nat → bool) (heap : Heap) (feeds : list (string * MLValue T))
    (output_names : list string) (fetches : list (MLValue T)) :
    res (Status * list (MLValue T) * SessionState T * Heap) :=
  f ← new_ExecutionFrame heap feeds output_names fetches;
  '(s, f) ← foldM (execute_step terminate) (StatusOK, f) (indexed (execution_plan plan));
  '(s, out, session', f) ←
    (if negb (IsOK s) then Ok (s, fetches, session, f)
     else
       '(s, out, f) ← FetchOutput f output_names fetches;
       if negb (IsOK s) then Ok (s, out, session, f)
       else match planner_ f, input_shapes feeds with
            | Some _, Some shapes =>
                match frame_GeneratePatterns f with
                | (None, Some g) => Ok (StatusOK, out, UpdateMemoryPatternGroupCache session shapes g, f)
                | (s, _) => Ok (s, out, session, f)
                end
            | _, _ => Ok (StatusOK, out, session, f)
            end);
  h ← destroy_frame f;
  Ok (s, out, session', h).
End frame.
