(* ===== verification/AllocSize.v ===== *)
(** The size of an array: [CalcMemSizeForArrayWithAlignment] against exact
    arithmetic. *)
From S2P Require Import Prelude ExecutionFrame.

(** The number of bytes, rounded up to the alignment. *)
Definition rounded_bytes (alignment n : Z) : Z :=
  if alignment =? 0 then n else (n + alignment - 1) / alignment * alignment.

Lemma div_lt_iff a b q : 0 < b → a / b < q ↔ a < q * b.
Proof.
  intros Hb. pose proof (Z.mul_div_le a b Hb). pose proof (Z.mul_succ_div_gt a b Hb). split; intros; nia.
Qed.

(** Clearing the low bits rounds down. *)
Lemma land_round_down x k :
  0 ≤ x < 2 ^ 64 → 0 ≤ k ≤ 64 → Z.land x (2 ^ 64 - 1 - (2 ^ k - 1)) = x / 2 ^ k * 2 ^ k.
Proof.
  intros Hx Hk. assert (E : 2 ^ 64 - 1 - (2 ^ k - 1) = Z.ldiff (Z.ones 64) (Z.ones k)).
  { rewrite <- Z.sub_nocarry_ldiff; [by rewrite !Z.ones_equiv, !Z.sub_1_r|].
    apply Z.bits_inj'. intros i Hi. rewrite Z.ldiff_spec, Z.bits_0, !Z.testbit_ones_nonneg by lia.
    destruct (Z.ltb_spec i k), (Z.ltb_spec i 64); simpl; lia. }
  rewrite E. rewrite <- Z.shiftr_div_pow2, <- Z.shiftl_mul_pow2, <- Z.ldiff_ones_r by lia. apply Z.bits_inj'. intros i Hi.
  rewrite Z.land_spec, !Z.ldiff_spec, !Z.testbit_ones_nonneg by lia. destruct (Z.ltb_spec i 64); [by rewrite andb_true_l|].
  replace (Z.testbit x i) with false; [done|]. symmetry. destruct (decide (x = 0)) as [->|Hne]; [apply Z.bits_0|].
  apply Z.bits_above_log2; [lia|]. assert (Z.log2 x < 64); [|lia]. apply Z.log2_lt_pow2; lia.
Qed.

(** For an alignment of 0 or a power of two, [CalcMemSizeForArrayWithAlignment]
    fails exactly if the bytes of the array do not fit below the largest
    multiple the type can hold, and else gives the exact product rounded up to
    the alignment: no wrapped product is ever taken for a size. *)
Theorem array_size_exact alignment nmemb size :
  (alignment = 0 ∨ ∃ k, 0 ≤ k < 32 ∧ alignment = 2 ^ k) → 0 ≤ nmemb < 2 ^ 64 → 0 ≤ size < 2 ^ 64 →
  CalcMemSizeForArrayWithAlignment alignment nmemb size =
    if size * nmemb <=? 2 ^ 64 - 1 - alignment then Some (rounded_bytes alignment (size * nmemb)) else None.
Proof.
  intros Ha Hn Hs. assert (Hal : 0 ≤ alignment ≤ 2 ^ 31).
  { destruct Ha as [->|(k & Hk & ->)]; [lia|]. split; [lia|]. apply Z.pow_le_mono_r; lia. }
  unfold CalcMemSizeForArrayWithAlignment. set (mx := 2 ^ 64 - 1 - alignment). set (ma := 2 ^ 32 - alignment).
  assert (Hbig : 0 < nmemb → (mx / nmemb <? size) = negb (size * nmemb <=? mx)).
  { intros Hpos. pose proof (div_lt_iff mx nmemb size Hpos).
    destruct (Z.ltb_spec (mx / nmemb) size), (Z.leb_spec (size * nmemb) mx); simpl; lia. }
  assert (Hsmall : nmemb < ma → size < ma → size * nmemb ≤ mx).
  { intros H1 H2. unfold ma, mx in *. assert (size * nmemb ≤ (2 ^ 32 - alignment - 1) * (2 ^ 32 - alignment - 1)) by nia. nia. }
  assert (Hcond : (ma <=? nmemb) && (mx / nmemb <? size) || (ma <=? size) && (0 <? nmemb) && (mx / nmemb <? size) =
    negb (size * nmemb <=? mx)).
  { destruct (Z.leb_spec ma nmemb).
    - rewrite Hbig by (unfold ma in *; lia). destruct (size * nmemb <=? mx); simpl; [|done]. by rewrite andb_false_r.
    - simpl. destruct (Z.leb_spec ma size); simpl.
      + destruct (Z.ltb_spec 0 nmemb); simpl; [by apply Hbig|]. assert (nmemb = 0) as -> by lia. rewrite Z.mul_0_r.
        rewrite (proj2 (Z.leb_le _ _)); [done|]. unfold mx. lia.
      + rewrite (proj2 (Z.leb_le _ _)); [done|auto]. }
  destruct ((ma <=? nmemb) && _) eqn:E1; simpl in Hcond.
  { destruct (size * nmemb <=? mx); [done|done]. }
  rewrite Hcond. destruct (Z.leb_spec (size * nmemb) mx) as [Hle|]; simpl; [|done]. unfold mx in Hle.
  unfold rounded_bytes. rewrite (u64_small (size * nmemb)) by nia.
  destruct Ha as [->|(k & Hk & ->)]; [done|]. rewrite (proj2 (Z.eqb_neq (2 ^ k) 0)) by lia. f_equal.
  assert (0 < 2 ^ k) by lia. rewrite u64_small by nia. rewrite land_round_down by (nia || lia). f_equal. f_equal. lia.
Qed.

Lemma array_size_exact_witness :
  CalcMemSizeForArrayWithAlignment 64 (2 ^ 62) 5 = None ∧ CalcMemSizeForArrayWithAlignment 64 33 4 = Some 192.
Proof.
  split.
  - rewrite (array_size_exact 64 (2 ^ 62) 5); [reflexivity|right; exists 6; lia|lia|lia].
  - rewrite (array_size_exact 64 33 4); [reflexivity|right; exists 6; lia|lia|lia].
Defined.
