(* ===== verification/ExecutionInv.v ===== *)
(** The invariant of a run: which values a frame holds after the outputs [D]
    are there and the buffers [F] are gone, and how allocating and releasing
    keep it. *)
From S2P Require Import Prelude TensorShape MemPattern AllocPlanner AllocPlannerInv AllocPlannerReuse AllocPlannerFree AllocPlannerSteps AllocPlannerProps SafePlan ExecutionFrame.

(** ** Pointers and heaps *)

Definition base (p : Pointer) : option nat := match p with Null => None | Ptr b _ => Some b end.
Lemma base_add p z : base (ptr_add p z) = base p.
Proof. by destruct p. Qed.
Lemma live_base h p p' : base p = base p' → live h p = live h p'.
Proof. destruct p, p'; simpl; naive_solver. Qed.
Lemma live_add h p z : live h (ptr_add p z) = live h p.
Proof. apply live_base, base_add. Qed.
Lemma live_ptr_lt h p b : live h p = true → base p = Some b → (b < next_buffer h)%nat ∧ b ∉ freed h.
Proof.
  destruct p as [|b' o]; simpl; [done|]. intros [H1%Nat.ltb_lt H2%bool_decide_eq_true]%andb_true_iff [= ->]. done.
Qed.

(** More buffers are out, none more came back. *)
Definition heap_le (h h' : Heap) : Prop := (next_buffer h ≤ next_buffer h')%nat ∧ freed h' = freed h.
Lemma heap_le_refl h : heap_le h h.
Proof. split; [lia|done]. Qed.
Lemma heap_le_trans h1 h2 h3 : heap_le h1 h2 → heap_le h2 h3 → heap_le h1 h3.
Proof. intros [H1 H2] [H3 H4]. split; [lia|congruence]. Qed.
Lemma live_mono h h' p : heap_le h h' → live h p = true → live h' p = true.
Proof.
  intros [H1 H2]. destruct p as [|b o]; simpl; [done|]. rewrite H2, !andb_true_iff, !Nat.ltb_lt. intros []. split; [lia|done].
Qed.
Lemma live_alloc h b h' :
  (∀ x, x ∈ freed h → (x < next_buffer h)%nat) → heap_Alloc h = (b, h') →
  heap_le h h' ∧ b = next_buffer h ∧ live h' (Ptr b 0) = true.
Proof.
  intros Hh [= <- <-]. unfold heap_le. simpl. split_and!; [lia|done|done|]. rewrite andb_true_iff, Nat.ltb_lt.
  split; [lia|]. apply bool_decide_eq_true. intros Hin%Hh. lia.
Qed.
Lemma live_free h b q :
  live h q = true → base q ≠ Some b → live (mkHeap (next_buffer h) ({[b]} ∪ freed h)) q = true.
Proof.
  destruct q as [|b' o']; simpl; [done|]. rewrite !andb_true_iff. intros [H1 H2] Hb. split; [done|].
  apply bool_decide_eq_true in H2. apply bool_decide_eq_true. set_solver.
Qed.

(** ** The invariant *)

Section frame_inv.
Context {T : Type} `{!TensorTypes T, !ValueTypes T}.
Context (CreateFence : OrtAllocatorInfo → option nat) (session : SessionState T).
Abbreviation names := (mlvalue_name_idx_map_ session).
Abbreviation g := (graph_viewer_ session).
Abbreviation plan := (p_seq_exec_plan_ session).
Context (Hg : GraphOk names g) (HS : SafePlan names g plan).
Implicit Types (f : ExecutionFrame T) (D : list nat) (F : nat → Prop).

(** The shape and the size in bytes of each output in this run. *)
Context (out_shape : nat → TensorShape) (bytes : nat → Z).
(** The memory at the start of the run. *)
Context (h0 : Heap).

Definition B (v : nat) : nat := plan_buf (allocation_plan plan) v.
Abbreviation outputs := (all_outs names (g_topo g)).

Definition tensor_at f (v : nat) (t : Tensor T) : Prop :=
  ∃ sh fe, all_values_ f !! v = Some (mkMLValue (Some (TensorObject t)) sh fe).
Lemma tensor_at_inj f v t t' : tensor_at f v t → tensor_at f v t' → t = t'.
Proof. intros (? & ? & H) (? & ? & H'). congruence. Qed.

(** The value of an argument in [node_values_]. *)
Definition arg_index (arg : NodeArg T) : Z :=
  if bool_decide (na_name arg = ""%string) then -1
  else match name_map_ names !! na_name arg with Some i => Z.of_nat i | None => -1 end.
Definition node_all_args (node : Node T) : list (NodeArg T) := n_inputs node ++ n_implicit_inputs node ++ n_outputs node.
Definition Layout f : Prop :=
  ∀ node, node ∈ g_nodes g → ∃ off, node_offsets_ f !! Z.to_nat (n_index node) = Some off ∧
    0 ≤ n_index node < Z.of_nat (length (node_offsets_ f)) ∧
    ∀ i arg, node_all_args node !! i = Some arg → node_values_ f !! (off + i)%nat = Some (arg_index arg).

(** The root [r] has a buffer [b] of its own that the frame gives back. *)
Definition Owned D (F : nat → Prop) f (r b : nat) : Prop :=
  r ∈ D ∧ r ∈ outputs ∧ B r = r ∧ ¬ F r ∧ ∃ t, tensor_at f r t ∧ owns_buffer t = true ∧ base (p_data_ t) = Some b.

(** The requests traced so far. *)
Record TraceOk (D : list nat) (ops : list trace_op) : Prop := {
  to_ids : ids_in (location <$> allocation_plan plan) ops;
  to_nodup : NoDup (alloc_ids ops);
  to_alloc : ∀ i s, TAlloc i s ∈ ops → ∃ v, i = Z.of_nat v ∧ v ∈ D ∧ v ∈ outputs ∧ s = bytes v;
}.
Definition traced (D : list nat) f : Prop :=
  match planner_ f with
  | None => True
  | Some p => ∃ ops, ml_run (new_MLValuePatternPlanner (location <$> allocation_plan plan)) ops = Ok (StatusOK, p) ∧
                     TraceOk D ops
  end.

Record FrameOk (D : list nat) (F : nat → Prop) f : Prop := {
  fo_len : length (all_values_ f) = (MaxIdx names + 1)%nat;
  fo_layout : Layout f;
  fo_heap : ∀ b, b ∈ freed (heap_ f) → (b < next_buffer (heap_ f))%nat;
  fo_D : ∀ v, v ∈ D → v ∈ defined names g ∧ B v ∈ D ∧ B (B v) = B v;
  fo_val : ∀ v, v ∈ D → ¬ F (B v) → ∃ t r, tensor_at f v t ∧ tensor_at f (B v) r ∧ p_data_ t = p_data_ r ∧
    live (heap_ f) (p_data_ t) = true ∧ shape_ t = out_shape v;
  fo_new : ∀ v, (v < MaxIdx names + 1)%nat → v ∉ D → all_values_ f !! v = Some empty_MLValue;
  fo_gone : ∀ v, F v → B v = v ∧ all_values_ f !! v = Some empty_MLValue;
  fo_shared : ∀ v x, v ∈ D → v ∈ outputs → all_values_ f !! v = Some x → shared x = false;
  fo_ext : ∀ v x, v ∈ D → v ∉ outputs → all_values_ f !! v = Some x → shared x = true ∧
    ∀ t b, data_ x = Some (TensorObject t) → base (p_data_ t) = Some b → (b < next_buffer h0)%nat;
  fo_root : ∀ v t, v ∈ D → v ∈ outputs → tensor_at f v t → owns_buffer t = true →
    B v = v ∧ (p_data_ t = Null ∨ ∃ b, p_data_ t = Ptr b 0);
  fo_own : ∀ r b w t, Owned D F f r b → w ∈ D → ¬ F (B w) → B w ≠ r → tensor_at f w t → base (p_data_ t) ≠ Some b;
  fo_bufs : ∀ loc p, (loc, p) ∈ buffers_ f → live (heap_ f) p = true ∧
    (p = Null ∨ ∃ b, p = Ptr b 0 ∧ (next_buffer h0 ≤ b)%nat) ∧ ∀ r b, Owned D F f r b → base p ≠ Some b;
  fo_bufs_nodup : NoDup (omap (fun e => base (snd e)) (buffers_ f));
  fo_account : ∀ b, (next_buffer h0 ≤ b < next_buffer (heap_ f))%nat →
    b ∈ freed (heap_ f) ∨ (∃ r, Owned D F f r b) ∨ ∃ loc p, (loc, p) ∈ buffers_ f ∧ base p = Some b;
  fo_old : (next_buffer h0 ≤ next_buffer (heap_ f))%nat ∧ freed h0 ⊆ freed (heap_ f) ∧
    (∀ b, b ∈ freed (heap_ f) → b ∈ freed h0 ∨ (next_buffer h0 ≤ b)%nat) ∧
    ∀ r b, Owned D F f r b → (next_buffer h0 ≤ b)%nat;
  fo_fetch : ∀ v t, v ∈ D → v ∈ outputs → v ∈ all_ids names (g_outputs g) → tensor_at f v t → owns_buffer t = true;
  fo_type : ∀ v t p, v ∈ D → v ∈ outputs → tensor_at f v t → allocation_plan plan !! v = Some p →
    ∃ ty, value_type p = Some ty ∧ dtype_ t = GetElementType ty;
  fo_trace : traced D f;
}.

Lemma owned_live D F f r b : FrameOk D F f → Owned D F f r b → (b < next_buffer (heap_ f))%nat.
Proof.
  intros HF (Hr & _ & Hb & Hn & t & Ht & _ & Hbase). destruct (fo_val _ _ _ HF r Hr) as (t' & _ & Ht' & _ & _ & Hl & _); [by rewrite Hb|].
  rewrite (tensor_at_inj _ _ _ _ Ht Ht') in Hbase. by eapply live_ptr_lt.
Qed.

Lemma owned_ext D D' F F' f r b :
  (∀ v, v ∈ D ↔ v ∈ D') → (∀ x, F x ↔ F' x) → Owned D F f r b ↔ Owned D' F' f r b.
Proof. intros HD HFF. unfold Owned. by rewrite HD, HFF. Qed.
Lemma frame_ext D D' F F' f :
  (∀ v, v ∈ D ↔ v ∈ D') → (∀ x, F x ↔ F' x) → FrameOk D F f → FrameOk D' F' f.
Proof.
  intros HD HFF [].
  assert (HO : ∀ r b, Owned D F f r b ↔ Owned D' F' f r b) by (intros; by apply owned_ext).
  split; try done; try (setoid_rewrite <- HD); try (setoid_rewrite <- HFF); try (setoid_rewrite <- HO); try done.
  unfold traced in *. destruct (planner_ f); [|done]. destruct fo_trace0 as (ops & Hr & [T1 T2 T3]). exists ops. split; [done|].
  split; [done|done|]. intros i s Hi. destruct (T3 i s Hi) as (v & ? & Hv & ?). exists v. by rewrite <- HD.
Qed.

(** ** A new output *)

(** [f'] is [f] with the tensor [t] at [o]; only fences of other values may
    differ. *)
Record Adds f f' (o : nat) (t : Tensor T) : Prop := {
  ad_len : length (all_values_ f') = length (all_values_ f);
  ad_nodes : node_values_ f' = node_values_ f ∧ node_offsets_ f' = node_offsets_ f;
  ad_bufs : buffers_ f' = buffers_ f;
  ad_heap : heap_le (heap_ f) (heap_ f');
  ad_new : ∃ fe, all_values_ f' !! o = Some (mkMLValue (Some (TensorObject t)) false fe);
  ad_old : ∀ v x, v ≠ o → all_values_ f !! v = Some x →
    ∃ fe, all_values_ f' !! v = Some (mkMLValue (data_ x) (shared x) fe) ∧ (data_ x = None → fe = fence_ x);
}.

Lemma adds_tensor f f' o t v x : Adds f f' o t → v ≠ o → tensor_at f v x → tensor_at f' v x.
Proof. intros HA Hv (sh & fe & E). destruct (ad_old _ _ _ _ HA v _ Hv E) as (fe' & E' & _). by exists sh, fe'. Qed.
Lemma adds_tensor_inv f f' o t v x : Adds f f' o t → v ≠ o → tensor_at f' v x → tensor_at f v x.
Proof.
  intros HA Hv (sh & fe & E). pose proof (lookup_lt_Some _ _ _ E) as Hlt. rewrite (ad_len _ _ _ _ HA) in Hlt.
  destruct (lookup_lt_is_Some_2 _ _ Hlt) as [y Hy]. destruct (ad_old _ _ _ _ HA v y Hv Hy) as (fe' & E' & _).
  exists (shared y), (fence_ y). rewrite Hy. destruct y as [dy sy fy]. simpl in *. congruence.
Qed.

(** Where the memory of a new tensor may come from: a new buffer or none if it
    is empty, the memory of a pattern, or the buffer of the root. *)
Inductive place_ok D f (o : nat) (t : Tensor T) (h' : Heap) : Prop :=
  | place_new :
      B o = o → owns_buffer t = true →
      (p_data_ t = Null ∧ next_buffer h' = next_buffer (heap_ f) ∨
       p_data_ t = Ptr (next_buffer (heap_ f)) 0 ∧ next_buffer h' = S (next_buffer (heap_ f))) → place_ok D f o t h'
  | place_pattern loc p :
      B o = o → owns_buffer t = false → next_buffer h' = next_buffer (heap_ f) → (loc, p) ∈ buffers_ f →
      base (p_data_ t) = base p → place_ok D f o t h'
  | place_reuse r :
      B o ∈ D → B (B o) = B o → owns_buffer t = false → next_buffer h' = next_buffer (heap_ f) →
      tensor_at f (B o) r → p_data_ t = p_data_ r → place_ok D f o t h'.

Section add.
Context (D : list nat) (F : nat → Prop) (f f' : ExecutionFrame T) (o : nat) (t : Tensor T).
Hypothesis HF : FrameOk D F f.
Hypothesis Hout : o ∈ outputs.
Hypothesis Ho : o ∉ D.
Hypothesis HFo : ¬ F (B o).
Hypothesis HA : Adds f f' o t.
Hypothesis HP : place_ok D f o t (heap_ f').

Lemma add_here : tensor_at f' o t.
Proof. destruct (ad_new _ _ _ _ HA) as [fe E]. by exists false, fe. Qed.
Lemma add_ne w : w ∈ D → w ≠ o.
Proof. by intros Hw ->. Qed.
Lemma add_kept w x : w ≠ o → tensor_at f' w x ↔ tensor_at f w x.
Proof. intros Hw. split; [by eapply adds_tensor_inv|by eapply adds_tensor]. Qed.
Lemma add_value_inv w x : w ≠ o → all_values_ f' !! w = Some x →
  ∃ y, all_values_ f !! w = Some y ∧ data_ x = data_ y ∧ shared x = shared y ∧ (data_ y = None → x = y).
Proof.
  intros Hw Hx. assert (Hlt : (w < length (all_values_ f))%nat) by (rewrite <- (ad_len _ _ _ _ HA); by eapply lookup_lt_Some).
  destruct (lookup_lt_is_Some_2 _ _ Hlt) as [y Hy]. destruct (ad_old _ _ _ _ HA w y Hw Hy) as (fe & E & Hfe).
  rewrite E in Hx. injection Hx as <-. exists y. split_and!; [done..|]. intros Hd. rewrite (Hfe Hd). by destruct y.
Qed.

(** Buffers of values that are held are old. *)
Lemma add_held_lt w x b :
  w ∈ D → ¬ F (B w) → tensor_at f w x → base (p_data_ x) = Some b → (b < next_buffer (heap_ f))%nat.
Proof.
  intros Hw HFw Hx Hb. destruct (fo_val _ _ _ HF w Hw HFw) as (x' & _ & Hx' & _ & _ & Hl & _).
  rewrite (tensor_at_inj _ _ _ _ Hx Hx') in Hb. by eapply live_ptr_lt.
Qed.
(** The new value is the only one with a new buffer. *)
Lemma add_owned r b :
  Owned (o :: D) F f' r b ↔
    Owned D F f r b ∨ r = o ∧ B o = o ∧ p_data_ t = Ptr b 0 ∧ b = next_buffer (heap_ f) ∧ owns_buffer t = true ∧
      next_buffer (heap_ f') = S (next_buffer (heap_ f)).
Proof.
  split.
  - intros (Hr & Hro & Hb & Hn & x & Hx & Hown & Hbase). destruct (decide (r = o)) as [->|Hne].
    + right. rewrite (tensor_at_inj _ _ _ _ Hx add_here) in *.
      destruct HP as [HBo _ [[Hp _]|[Hp Hnx]]|loc p _ Hno|r' _ _ Hno]; [by rewrite Hp in Hbase| |congruence|congruence].
      rewrite Hp in Hbase. injection Hbase as <-. done.
    + left. split_and!; [by apply elem_of_cons in Hr as [?|?]|done..|]. exists x. split; [by apply add_kept|done].
  - intros [(Hr & Hro & Hb & Hn & x & Hx & Hrest)|(-> & HB & Hp & _ & Hown & _)].
    + split_and!; [by right|done..|]. exists x. split; [apply add_kept; [by apply add_ne|done]|done].
    + split_and!; [by left|done|done|by rewrite <- HB|]. exists t. split_and!; [apply add_here|done|by rewrite Hp].
Qed.
Lemma add_next : (next_buffer (heap_ f') = next_buffer (heap_ f) ∨ next_buffer (heap_ f') = S (next_buffer (heap_ f)) ∧
  Owned (o :: D) F f' o (next_buffer (heap_ f))).
Proof.
  destruct HP as [HBo Hown [[Hp ?]|[Hp ?]]|loc p _ _ ?|r' _ _ _ ?]; [by left| |by left|by left]. right. split; [done|].
  apply add_owned. right. done.
Qed.
Lemma add_live : live (heap_ f') (p_data_ t) = true.
Proof.
  destruct HP as [HBo Hown [[-> _]|[-> Hnx]]|loc p _ _ _ Hp Hb|r HB HBB _ _ Hr ->]; [done| | |].
  - destruct (ad_heap _ _ _ _ HA) as [_ Hfr]. simpl. rewrite Hnx, Hfr, andb_true_iff, Nat.ltb_lt. split; [lia|].
    apply bool_decide_eq_true. intros Hin%(fo_heap _ _ _ HF). lia.
  - rewrite (live_base _ _ _ Hb). eapply live_mono; [apply HA|]. by apply (fo_bufs _ _ _ HF loc).
  - eapply live_mono; [apply HA|]. destruct (fo_val _ _ _ HF (B o) HB) as (r' & _ & Hr' & _ & _ & Hl & _); [by rewrite HBB|].
    by rewrite (tensor_at_inj _ _ _ _ Hr Hr').
Qed.

Lemma add_own r b w x :
  Owned (o :: D) F f' r b → w ∈ o :: D → ¬ F (B w) → B w ≠ r → tensor_at f' w x → base (p_data_ x) ≠ Some b.
Proof.
  intros [HO|(-> & HBo & _ & -> & _)]%add_owned Hw HFw Hwr Hx.
  - pose proof (owned_live D F f r b HF HO) as Hbl. apply elem_of_cons in Hw as [->|Hw].
    + rewrite (tensor_at_inj _ _ _ _ Hx add_here).
      destruct HP as [HB Hown [[-> _]|[-> _]]|loc p HB Hown _ Hp ->|y HB HBB Hown _ Hy ->].
      * done.
      * simpl. intros [= ?]. lia.
      * by eapply (fo_bufs _ _ _ HF loc p Hp).
      * eapply (fo_own _ _ _ HF r b (B o)); [done|done|by rewrite HBB|by rewrite HBB|done].
    + eapply (fo_own _ _ _ HF r b w); [done|done|done|done|]. apply add_kept; [by apply add_ne|done].
  - apply elem_of_cons in Hw as [->|Hw]; [done|]. apply add_kept in Hx; [|by apply add_ne].
    intros E. pose proof (add_held_lt w x _ Hw HFw Hx E). lia.
Qed.

Lemma add_value :
  shape_ t = out_shape o → (o ∈ all_ids names (g_outputs g) → owns_buffer t = true) →
  (∀ p, allocation_plan plan !! o = Some p → ∃ ty, value_type p = Some ty ∧ dtype_ t = GetElementType ty) → traced (o :: D) f' →
  FrameOk (o :: D) F f'.
Proof.
  intros Hsh Hgo Hty Htr. pose proof add_here as Hto. destruct (ad_heap _ _ _ _ HA) as [Hle Hfr].
  destruct (fo_old _ _ _ HF) as (Ho1 & Ho2 & Ho3 & Ho4).
  split.
  - rewrite (ad_len _ _ _ _ HA). apply HF.
  - intros node Hn. destruct (ad_nodes _ _ _ _ HA) as [-> ->]. by apply (fo_layout _ _ _ HF).
  - rewrite Hfr. intros b Hb%(fo_heap _ _ _ HF). lia.
  - intros v [->|Hv]%elem_of_cons.
    + split; [apply elem_of_app; by right|]. destruct HP as [HB|loc p HB|r HB HBB]; [rewrite !HB; split; [by left|done]..|].
      split; [by right|done].
    + destruct (fo_D _ _ _ HF v Hv) as (? & ? & ?). split_and!; [done|by right|done].
  - intros v [->|Hv]%elem_of_cons HFv.
    + destruct HP as [HB|loc p HB|r HB HBB Hno Hnx Hr Hp]; [exists t, t; rewrite HB; by auto using add_live..|].
      exists t, r. split_and!; [done|by apply add_kept; [apply add_ne|]|done|apply add_live|done].
    + destruct (fo_val _ _ _ HF v Hv HFv) as (x & r & Hx & Hr & Ep & Hl & Hs). exists x, r.
      rewrite !add_kept by (by apply add_ne; [apply (fo_D _ _ _ HF)] || by apply add_ne).
      split_and!; [done|done|done|eapply live_mono; [apply HA|done]|done].
  - intros v Hlt [Hvo Hvd]%not_elem_of_cons. pose proof (fo_new _ _ _ HF v Hlt Hvd) as E.
    destruct (ad_old _ _ _ _ HA v _ Hvo E) as (fe & -> & Hfe). by rewrite (Hfe eq_refl).
  - intros v Hv. destruct (fo_gone _ _ _ HF v Hv) as [HB E]. split; [done|].
    assert (Hvo : v ≠ o) by (intros ->; by rewrite HB in HFo). destruct (ad_old _ _ _ _ HA v _ Hvo E) as (fe & -> & Hfe).
    by rewrite (Hfe eq_refl).
  - intros v x [->|Hv]%elem_of_cons Hvo Hx; [destruct (ad_new _ _ _ _ HA) as [fe E]; rewrite E in Hx; by injection Hx as <-|].
    destruct (add_value_inv v x (add_ne v Hv) Hx) as (y & Hy & _ & -> & _). by eapply (fo_shared _ _ _ HF v).
  - intros v x [->|Hv]%elem_of_cons Hvo Hx; [done|]. destruct (add_value_inv v x (add_ne v Hv) Hx) as (y & Hy & -> & -> & _).
    by apply (fo_ext _ _ _ HF v).
  - intros v x [->|Hv]%elem_of_cons Hvo Hx Hown.
    + rewrite (tensor_at_inj _ _ _ _ Hx Hto) in *.
      destruct HP as [HB _ [[? _]|[? _]]|loc p _ Hno|r' _ _ Hno]; [by auto|split; [done|]; right; eauto|congruence..].
    + apply add_kept in Hx; [|by apply add_ne]. by apply (fo_root _ _ _ HF v x).
  - apply add_own.
  - rewrite (ad_bufs _ _ _ _ HA). intros loc p Hp. destruct (fo_bufs _ _ _ HF loc p Hp) as (Hl & Hsh' & Hd).
    split; [eapply live_mono; [apply HA|done]|]. split; [done|]. intros r b [HO|(_ & _ & _ & -> & _)]%add_owned; [by eapply Hd|].
    intros E. destruct (live_ptr_lt _ _ _ Hl E). lia.
  - rewrite (ad_bufs _ _ _ _ HA). apply HF.
  - rewrite (ad_bufs _ _ _ _ HA), Hfr. intros b Hb.
    destruct (decide (b < next_buffer (heap_ f))%nat) as [Hlt|Hge].
    + destruct (fo_account _ _ _ HF b ltac:(lia)) as [?|[[r HO]|?]]; [by auto| |by auto]. right; left. exists r. apply add_owned. by left.
    + destruct add_next as [Hn|[Hn HO]]; [lia|]. right; left. exists o. by replace b with (next_buffer (heap_ f)) by lia.
  - rewrite Hfr. split_and!; [lia|done|done|]. intros r b [HO|(_ & _ & _ & -> & _)]%add_owned; [by eapply Ho4|done].
  - intros v x [->|Hv]%elem_of_cons Hvo Hvg Hx; [rewrite (tensor_at_inj _ _ _ _ Hx Hto); auto|].
    apply add_kept in Hx; [|by apply add_ne]. by eapply (fo_fetch _ _ _ HF v).
  - intros v x p [->|Hv]%elem_of_cons Hvo Hx Hp; [rewrite (tensor_at_inj _ _ _ _ Hx Hto); auto|].
    apply add_kept in Hx; [|by apply add_ne]. by eapply (fo_type _ _ _ HF v).
  - done.
Qed.
End add.
End frame_inv.
