(* ===== verification/ExecutionSteps.v ===== *)
(** The steps of a run keep the invariant: an allocation as the plan says, a
    release, the kernel of a node and the releases after it. *)
From S2P Require Import Prelude TensorShape MemPattern AllocPlanner AllocPlannerInv AllocPlannerReuse AllocPlannerFree AllocPlannerSteps AllocPlannerProps SafePlan ExecutionFrame ExecutionInv.

Section steps.
Context {T : Type} `{!TensorTypes T, !ValueTypes T}.
Context (CreateFence : OrtAllocatorInfo → option nat) (session : SessionState T).
Abbreviation names := (mlvalue_name_idx_map_ session).
Abbreviation g := (graph_viewer_ session).
Abbreviation plan := (p_seq_exec_plan_ session).
Context (Hg : GraphOk names g) (HS : SafePlan names g plan).
Context (out_shape : nat → TensorShape) (bytes : nat → Z) (h0 : Heap).
Implicit Types (f : ExecutionFrame T) (D : list nat) (F : nat → Prop).
Abbreviation outputs := (all_outs names (g_topo g)).
Abbreviation B := (B session).
Abbreviation FrameOk := (FrameOk session out_shape bytes h0).
Abbreviation traced := (traced session bytes).
Abbreviation TraceOk := (TraceOk session bytes).
Abbreviation place_ok := (place_ok session).

(** The outputs of this run are tensors whose sizes fit into the address
    space, one by one and together. *)
Definition output_ok (v : nat) (t : T) : Prop :=
  has_tensor_type t = true ∧ 0 ≤ Size (out_shape v) ∧
    CalcMemSizeForArrayWithAlignment 64 (Size (out_shape v)) (type_Size (GetElementType t)) = Some (bytes v).
Hypothesis Houtputs : ∀ k node arg v, g_topo g !! k = Some node → arg ∈ n_outputs node → na_exists arg = true →
  name_map_ names !! na_name arg = Some v → output_ok v (na_type arg).
Hypothesis Hbytes : ∀ v, v ∈ outputs → 0 ≤ bytes v.
Hypothesis Hsum : sumZ bytes outputs < 2 ^ 64.

(** ** Tracing *)

Lemma trace_bytes_sum ops :
  (∀ i s, TAlloc i s ∈ ops → ∃ v, i = Z.of_nat v ∧ s = bytes v) →
  trace_bytes ops = sumZ bytes (Z.to_nat <$> alloc_ids ops).
Proof.
  induction ops as [|o ops IH]; intros H; simpl; [done|]. unfold alloc_ids in *. simpl.
  destruct o as [i s|i]; simpl; [|apply IH; intros; apply H; by right].
  destruct (H i s ltac:(by left)) as (v & -> & ->). rewrite Nat2Z.id, IH; [done|]. intros; apply H; by right.
Qed.
Lemma sumZ_perm (h : nat → Z) l k : l ≡ₚ k → sumZ h l = sumZ h k.
Proof. induction 1; simpl; lia. Qed.
Lemma sumZ_sub l : NoDup l → (∀ v, v ∈ l → v ∈ outputs) → sumZ bytes l ≤ sumZ bytes outputs.
Proof.
  intros Hnd Hsub. assert (Hs : l ⊆+ outputs) by (by apply NoDup_submseteq).
  apply submseteq_Permutation in Hs as [k Hk].
  rewrite (sumZ_perm _ _ _ Hk), sumZ_app. assert (0 ≤ sumZ bytes k); [|lia]. apply sumZ_nonneg. intros x Hx. apply Hbytes. rewrite Hk. set_solver.
Qed.
Lemma trace_total D ops :
  TraceOk D ops → ∃ p, ml_run (new_MLValuePatternPlanner (location <$> allocation_plan plan)) ops = Ok (StatusOK, p) ∧
    NoDup (planner_map_ p).*1.
Proof.
  intros [H1 H2 H3].
  destruct (ml_run_new (location <$> allocation_plan plan) ops) as (locs & gg & _ & Hnd & E & _);
    [done| |done| |eexists; split; [exact E|]; simpl; rewrite <- list_fmap_compose; unfold compose; simpl; by rewrite list_fmap_id].
  - intros i s Hi. destruct (H3 i s Hi) as (v & -> & _ & Hv & ->). auto.
  - rewrite trace_bytes_sum by (intros i s Hi; destruct (H3 i s Hi) as (v & ? & _ & _ & ?); eauto).
    eapply Z.le_lt_trans; [apply sumZ_sub|exact Hsum].
    + apply NoDup_fmap_2_strong; [|done]. intros x y Hx Hy Exy.
      assert (Hnn : ∀ z, z ∈ alloc_ids ops → 0 ≤ z).
      { intros z (o & Ho & Hz)%list_elem_of_omap. destruct o; simplify_eq/=. destruct (H3 _ _ Ho) as (v & -> & _). lia. }
      apply Hnn in Hx, Hy. lia.
    + intros v (z & -> & (o & Ho & Hz)%list_elem_of_omap)%list_elem_of_fmap. destruct o; simplify_eq/=.
      destruct (H3 _ _ Ho) as (v & -> & _ & Hv & _). by rewrite Nat2Z.id.
Qed.
Lemma trace_step_total D D' p ops o :
  ml_run (new_MLValuePatternPlanner (location <$> allocation_plan plan)) ops = Ok (StatusOK, p) →
  TraceOk D' (ops ++ [o]) →
  ∃ p', ml_step p o = Ok (StatusOK, p') ∧
    ml_run (new_MLValuePatternPlanner (location <$> allocation_plan plan)) (ops ++ [o]) = Ok (StatusOK, p').
Proof.
  intros Hr Ht. destruct (trace_total D' (ops ++ [o]) Ht) as (p' & Hp' & _). exists p'. split; [|done].
  rewrite ml_run_snoc, Hr in Hp'. exact Hp'.
Qed.

Lemma traced_mono D o f : traced D f → traced (o :: D) f.
Proof.
  unfold ExecutionInv.traced. destruct (planner_ f); [|done]. intros (ops & Hr & [H1 H2 H3]). exists ops. split; [done|].
  split; [done|done|]. intros i s Hi. destruct (H3 i s Hi) as (v & -> & Hv & Hvo & ->). exists v. split_and!; [done|by right|done|done].
Qed.
Lemma set_planner_id f : set_planner f (planner_ f) = f.
Proof. by destruct f. Qed.

Lemma TraceAllocate_ok D f o p :
  traced D f → o ∉ D → o ∈ outputs → allocation_plan plan !! o = Some p →
  ∃ pl, TraceAllocate session f (Z.of_nat o) (bytes o) = Ok (set_planner f pl) ∧ traced (o :: D) (set_planner f pl).
Proof.
  intros Ht Ho Hout Hp. unfold TraceAllocate, GetAllocationPlan, ExecutionFrame.plan.
  rewrite (proj2 (Z.ltb_ge _ _)) by lia. rewrite Nat2Z.id, Hp. cbn [of_option mbind res_bind].
  destruct (planner_ f) as [pl|] eqn:Epl.
  - case_bool_decide.
    + exists (Some pl). rewrite <- Epl, set_planner_id. split; [done|by apply traced_mono].
    + pose proof Ht as Ht'. unfold ExecutionInv.traced in Ht'. rewrite Epl in Ht'. destruct Ht' as (ops & Hr & [T1 T2 T3]).
      assert (HT : TraceOk (o :: D) (ops ++ [TAlloc (Z.of_nat o) (bytes o)])).
      { split.
        - intros x [Hx| ->%list_elem_of_singleton]%elem_of_app; [by apply T1|]. simpl. rewrite length_fmap.
          apply lookup_lt_Some in Hp. lia.
        - rewrite alloc_ids_app. apply NoDup_app. split_and!; [done| |apply NoDup_singleton].
          intros x (y & Hy & Hxy)%list_elem_of_omap Hxo%list_elem_of_singleton. destruct y; simplify_eq/=.
          destruct (T3 _ _ Hy) as (v & ->%Nat2Z.inj & Hv & _). done.
        - intros i s [Hi|Hi%list_elem_of_singleton]%elem_of_app.
          + destruct (T3 i s Hi) as (v & -> & Hv & Hvo & ->). exists v. split_and!; [done|by right|done|done].
          + injection Hi as -> ->. exists o. split_and!; [done|by left|done|done]. }
      destruct (trace_step_total D (o :: D) pl ops _ Hr HT) as (pl' & Hs & Hr'). simpl in Hs. rewrite Hs. cbn [mbind res_bind].
      exists (Some pl'). split; [done|]. unfold ExecutionInv.traced. simpl. eauto.
  - exists None. rewrite <- Epl at 1 2. rewrite set_planner_id. split; [done|]. by apply traced_mono.
Qed.

(** ** Allocations *)

Lemma adds_insert f o t fe h :
  all_values_ f !! o = Some empty_MLValue → heap_le (heap_ f) h →
  Adds f (set_values f (<[o := mkMLValue (Some (TensorObject t)) false fe]> (all_values_ f)) h) o t.
Proof.
  intros Ho Hh. split; simpl; [apply length_insert|done|done|done| |].
  - exists fe. apply list_lookup_insert_eq. by eapply lookup_lt_Some.
  - intros v x Hv Hx. exists (fence_ x). rewrite list_lookup_insert_ne by done. rewrite Hx. by destruct x.
Qed.
Lemma adds_planner f f' o t pl : Adds f f' o t → Adds f (set_planner f' pl) o t.
Proof. intros [H1 H2 H3 H4 H5 H6]. by split. Qed.
Lemma put_put f i v v' : put (put f i v) i v' = put f i v'.
Proof. unfold put, set_values. simpl. by rewrite list_insert_insert_eq. Qed.
Lemma set_put f i v v' h : set_values (put f i v) (<[i := v']> (all_values_ (put f i v))) h = set_values f (<[i := v']> (all_values_ f)) h.
Proof. unfold put, set_values. simpl. by rewrite list_insert_insert_eq. Qed.

Lemma pattern_place_ok f p o loc sz ptr :
  pattern_place f p o loc sz = Some ptr →
  alloc_kind p ≠ kAllocateOutput ∧ ∃ loc' q, (loc', q) ∈ buffers_ f ∧ base ptr = base q.
Proof.
  unfold pattern_place. intros H. apply bind_Some in H as (gr & _ & H). case_bool_decide; [done|].
  apply bind_Some in H as (pat & _ & H). apply bind_Some in H as (blk & _ & H). apply bind_Some in H as ([l q] & Hf & H).
  destruct (_ =? _); [|done]. injection H as <-. apply fmap_Some in Hf as ([i e] & He & Ee). simpl in Ee. subst e.
  split; [done|]. exists l, q. rewrite base_add. apply list_find_Some in He as (He & _). split; [|done]. by eapply list_elem_of_lookup_2.
Qed.

Lemma output_lt o : o ∈ outputs → (o < MaxIdx names + 1)%nat.
Proof. intros Ho. apply (defined_lt names g); [done|]. apply elem_of_app. by right. Qed.
Lemma frame_new_lookup D F f o : FrameOk D F f → o ∈ outputs → o ∉ D → value_at f (Z.of_nat o) = Ok empty_MLValue.
Proof.
  intros HF Ho HoD. unfold value_at. rewrite (proj2 (Z.ltb_ge _ _)) by lia. rewrite Nat2Z.id, (fo_new _ _ _ _ _ _ _ HF) by (done || by apply output_lt). done.
Qed.

Lemma new_fence (c : bool) loc :
  (if c then _ ← enforce (negb (bool_decide (is_Some (fence_ (@empty_MLValue T)))));
             Ok (mkMLValue (data_ (@empty_MLValue T)) (shared (@empty_MLValue T)) (CreateFence loc))
   else Ok empty_MLValue) = Ok (mkMLValue None false (if c then CreateFence loc else None)).
Proof. destruct c; [|done]. rewrite bool_decide_false by (by intros []). done. Qed.
Lemma alloc_own D F f o p t :
  FrameOk D F f → o ∈ outputs → o ∉ D → ¬ F (B o) → allocation_plan plan !! o = Some p → B o = o →
  output_ok o t → value_type p = Some t → (o ∈ all_ids names (g_outputs g) → alloc_kind p = kAllocateOutput) →
  ∃ f', AllocateMLValueTensorSelfOwnBuffer CreateFence session f (Z.of_nat o) (GetElementType t) (location p) (out_shape o)
          (create_fence_if_async p) = Ok (StatusOK, f') ∧ FrameOk (o :: D) F f' ∧ heap_le (heap_ f) (heap_ f') ∧ node_values_ f' = node_values_ f.
Proof.
  intros HF Ho HoD HFo Hp HB (Ht & Hsz & Hcalc) Hty Hgo.
  pose proof (fo_new _ _ _ _ _ _ _ HF o (output_lt o Ho) HoD) as Hnew. pose proof (lookup_lt_Some _ _ _ Hnew) as Hlt.
  unfold AllocateMLValueTensorSelfOwnBuffer, AllocateMLValueTensorSelfOwnBufferHelper.
  rewrite (proj2 (Z.leb_le 0 (Z.of_nat o))), (proj2 (Z.ltb_lt (Z.of_nat o) (Z.of_nat (length (all_values_ f))))) by lia. cbn [andb enforce mbind res_bind].
  rewrite (proj2 (Z.ltb_ge (Z.of_nat o) 0)) by lia. rewrite (frame_new_lookup D F f o HF Ho HoD). cbn [mbind res_bind].
  change (IsAllocated empty_MLValue) with false. cbv iota.
  rewrite (proj2 (Z.ltb_ge (Size (out_shape o)) 0)) by lia. rewrite Hcalc.
  set (fe := if create_fence_if_async p then CreateFence (location p) else None).
  rewrite (new_fence (create_fence_if_async p) (location p)). fold fe. cbn [mbind res_bind]. rewrite Nat2Z.id.
  unfold GetAllocationPlan, ExecutionFrame.plan. rewrite (proj2 (Z.ltb_ge (Z.of_nat o) 0)) by lia. rewrite Nat2Z.id, Hp.
  cbn [of_option mbind res_bind fence_]. destruct (pattern_place _ p o (location p) (bytes o)) as [ptr|] eqn:Epat.
  - apply pattern_place_ok in Epat as (Hkind & loc' & q & Hq & Hbase). simpl in Hq.
    unfold AllocateTensorWithPreAllocateBufferHelper. change (IsAllocated (mkMLValue (T := T) None false fe)) with false. cbv iota.
    rewrite (proj2 (Z.ltb_ge (Size (out_shape o)) 0)) by lia. rewrite put_put. simpl fence_. eexists. split; [done|].
    assert (HA := adds_insert f o (mkTensor (GetElementType t) (out_shape o) ptr (location p) false) fe (heap_ f) Hnew ltac:(split; [lia|done])).
    split; [|split; [apply heap_le_refl|done]].
    eapply add_value; [exact HF|done|done|done|exact HA| |done|naive_solver|by intros p' Hp'; simplify_eq/=; eexists|apply traced_mono, HF].
    by apply (place_pattern _ _ _ _ _ _ loc' q).
  - set (ph := if bytes o =? 0 then (Null, heap_ (put f o (mkMLValue None false fe)))
               else let '(b, h) := heap_Alloc (heap_ (put f o (mkMLValue None false fe))) in (Ptr b 0, h)).
    assert (Hph : heap_le (heap_ f) (snd ph) ∧
      (fst ph = Null ∧ next_buffer (snd ph) = next_buffer (heap_ f) ∨
       fst ph = Ptr (next_buffer (heap_ f)) 0 ∧ next_buffer (snd ph) = S (next_buffer (heap_ f)))).
    { unfold ph. simpl. destruct (bytes o =? 0); [split; [apply heap_le_refl|by left]|]. split; [split; simpl; [lia|done]|by right]. }
    destruct ph as [ptr h]. simpl in Hph. destruct Hph as (Hle & Hfresh). cbv iota beta. rewrite set_put.
    set (f1 := set_values f _ h). assert (HA := adds_insert f o (mkTensor (GetElementType t) (out_shape o) ptr (location p) true) fe h Hnew Hle).
    fold f1 in HA.
    assert (Hfin : ∀ f2 pl, f2 = set_planner f1 pl → traced (o :: D) f2 → FrameOk (o :: D) F f2 ∧ heap_le (heap_ f) (heap_ f2) ∧ node_values_ f2 = node_values_ f).
    { intros f2 pl -> Htr. split; [|split; [apply HA|done]]. eapply add_value; [exact HF|done|done|done|by apply adds_planner| |done|done|by intros p' Hp'; simplify_eq/=; eexists|done].
      by apply place_new. }
    destruct (is_string (GetElementType t)).
    + cbn [mbind res_bind]. eexists. split; [done|]. apply (Hfin f1 (planner_ f1)); [by rewrite set_planner_id|].
      apply traced_mono. exact (fo_trace _ _ _ _ _ _ _ HF).
    + destruct (TraceAllocate_ok D f1 o p) as (pl & -> & Htr); [exact (fo_trace _ _ _ _ _ _ _ HF)|done|done|done|].
      cbn [mbind res_bind]. eexists. split; [done|]. by apply (Hfin _ pl).
Qed.

Lemma value_at_lookup f v x : all_values_ f !! v = Some x → value_at f (Z.of_nat v) = Ok x.
Proof. intros Hx. unfold value_at. rewrite (proj2 (Z.ltb_ge _ _)) by lia. by rewrite Nat2Z.id, Hx. Qed.
Lemma index_in_range f v x :
  all_values_ f !! v = Some x → (0 <=? Z.of_nat v) && (Z.of_nat v <? Z.of_nat (length (all_values_ f))) = true.
Proof. intros Hx%lookup_lt_Some. rewrite andb_true_iff, Z.leb_le, Z.ltb_lt. lia. Qed.

Lemma alloc_reuse D F f o (p : AllocPlanPerValue T) t :
  FrameOk D F f → o ∈ outputs → o ∉ D → ¬ F (B o) → B o ∈ D → B (B o) = B o → output_ok o t →
  (∀ p', allocation_plan plan !! o = Some p' → value_type p' = Some t) → o ∉ all_ids names (g_outputs g) →
  ∃ f', AllocateMLValueTensorPreAllocateBuffer CreateFence f (Z.of_nat o) (Z.of_nat (B o)) (GetElementType t) (location p) (out_shape o)
          (create_fence_if_async p) = Ok (StatusOK, f') ∧ FrameOk (o :: D) F f' ∧ heap_le (heap_ f) (heap_ f') ∧ node_values_ f' = node_values_ f.
Proof.
  intros HF Ho HoD HFo HBD HBB (Ht & Hsz & Hcalc) Hty Hgo.
  pose proof (fo_new _ _ _ _ _ _ _ HF o (output_lt o Ho) HoD) as Hnew.
  destruct (fo_val _ _ _ _ _ _ _ HF (B o) HBD) as (r & _ & Hr & _ & _ & _ & _); [by rewrite HBB|].
  pose proof Hr as (sh & fe & Er). assert (Hne : B o ≠ o) by (intros E; by rewrite E in HBD).
  unfold AllocateMLValueTensorPreAllocateBuffer. rewrite (index_in_range _ _ _ Hnew), (index_in_range _ _ _ Er).
  cbn [enforce mbind res_bind]. rewrite (value_at_lookup _ _ _ Er). cbn [mbind res_bind GetTensor data_ shared fence_].
  match goal with |- context [put f _ ?x] => set (vr := x) end.
  assert (Hvr : ∃ fe', vr = mkMLValue (Some (TensorObject r)) sh fe') by (unfold vr; destruct (_ && _); eauto).
  destruct Hvr as [fe' ->]. rewrite !Nat2Z.id.
  assert (E1 : all_values_ (put f (B o) (mkMLValue (Some (TensorObject r)) sh fe')) !! o = Some empty_MLValue).
  { simpl. by rewrite list_lookup_insert_ne. }
  rewrite (value_at_lookup _ _ _ E1). cbn [mbind res_bind fence_].
  unfold AllocateTensorWithPreAllocateBufferHelper. change (IsAllocated _) with false. cbv iota.
  rewrite (proj2 (Z.ltb_ge (Size (out_shape o)) 0)) by lia. rewrite put_put. eexists. split; [done|].
  split; [|split; [apply heap_le_refl|done]]. set (x := mkTensor (GetElementType t) (out_shape o) (p_data_ r) (location p) false).
  apply (add_value session out_shape bytes h0 D F f _ o x); [done|done|done|done| | |done|done|intros p' Hp'; exists t; by split; [apply Hty|]|by apply traced_mono, HF].
  - split; simpl; [by rewrite !length_insert|done|done|apply heap_le_refl| |].
    + exists fe'. rewrite list_lookup_insert_eq; [done|]. rewrite length_insert. by eapply lookup_lt_Some.
    + intros v y Hv Hy. rewrite list_lookup_insert_ne by done. destruct (decide (v = B o)) as [->|Hvb].
      * rewrite list_lookup_insert_eq by (by eapply lookup_lt_Some). rewrite Er in Hy. injection Hy as <-. by exists fe'.
      * rewrite list_lookup_insert_ne by done. rewrite Hy. exists (fence_ y). by destruct y.
  - by apply (place_reuse _ _ _ _ _ _ r).
Qed.

Lemma alloc_ok D F f k node arg o :
  g_topo g !! k = Some node → arg ∈ n_outputs node → na_exists arg = true → name_map_ names !! na_name arg = Some o →
  (∀ v, v ∈ defs0 names g ++ all_outs names (take k (g_topo g)) → v ∈ D) →
  FrameOk D F f → o ∉ D → ¬ F (B o) →
  ∃ f', AllocateAsPerAllocationPlan CreateFence session f (Z.of_nat o) (out_shape o) = Ok (StatusOK, f') ∧
    FrameOk (o :: D) F f' ∧ heap_le (heap_ f) (heap_ f') ∧ node_values_ f' = node_values_ f.
Proof.
  intros Hk Harg He Hv HD HF HoD HFo. destruct (sp_output k node arg o Hk Harg He Hv) as (p & Hp & Hty & Hgo & Hkind).
  assert (Hout : o ∈ outs names node) by (apply elem_of_ids; eauto).
  assert (Ho : o ∈ outputs) by (apply list_elem_of_bind; exists node; split; [done|by eapply list_elem_of_lookup_2]).
  pose proof (Houtputs k node arg o Hk Harg He Hv) as Hok. pose proof (fo_new _ _ _ _ _ _ _ HF o (output_lt o Ho) HoD) as Hnew.
  destruct (sp_root k node o Hk Hout) as [HBB HBr]. fold (B o) in HBB, HBr. fold (B (B o)) in HBB.
  unfold AllocateAsPerAllocationPlan. pose proof (index_in_range _ _ _ Hnew) as [H1%Z.leb_le H2%Z.ltb_lt]%andb_true_iff.
  rewrite (proj2 (Z.ltb_ge (Z.of_nat o) 0)), (proj2 (Z.leb_gt _ _)) by lia. cbn [orb].
  unfold GetAllocationPlan, ExecutionFrame.plan. rewrite (proj2 (Z.ltb_ge (Z.of_nat o) 0)) by lia. rewrite Nat2Z.id, Hp.
  cbn [of_option mbind res_bind]. rewrite Hty. pose proof Hok as (Htt & _). rewrite Htt. cbn [negb].
  assert (HBo : B o = if decide (alloc_kind p = kReuse) then reused_buffer p else o) by (unfold ExecutionInv.B, plan_buf; by rewrite Hp).
  destruct Hkind as [E|[E|[E Hself]]]; rewrite E in HBo |- *.
  1, 2: rewrite decide_False in HBo by done; apply (alloc_own D F f o p); try done; by rewrite E.
  rewrite decide_True in HBo by done. rewrite <- HBo. apply alloc_reuse; [done..| |done|done|congruence|by intros ?%Hgo; congruence]. apply HD. destruct HBr as [HBr|HBr]; [congruence|done].
Qed.

(** ** Releases *)

Lemma frame_TraceFree_ok D f r p t :
  traced D f → allocation_plan plan !! r = Some p → value_type p = Some t →
  ∃ pl, frame_TraceFree session f r = Ok (set_planner f pl) ∧ traced D (set_planner f pl).
Proof.
  intros Ht Hp Hty. unfold frame_TraceFree, ExecutionFrame.plan. destruct (planner_ f) as [pl|] eqn:Epl.
  - case_bool_decide; [exists (Some pl); by rewrite <- Epl, set_planner_id|]. rewrite Hp. cbn [of_option mbind res_bind]. rewrite Hty.
    cbn [of_option mbind res_bind]. destruct (_ && _).
    + pose proof Ht as Ht'. unfold ExecutionInv.traced in Ht'. rewrite Epl in Ht'. destruct Ht' as (ops & Hr & [T1 T2 T3]).
      assert (HT : TraceOk D (ops ++ [TFree (Z.of_nat r)])).
      { split.
        - intros x [Hx| ->%list_elem_of_singleton]%elem_of_app; [by apply T1|]. simpl. rewrite length_fmap.
          apply lookup_lt_Some in Hp. lia.
        - by rewrite alloc_ids_app, app_nil_r.
        - intros i s [Hi|Hi%list_elem_of_singleton]%elem_of_app; [by apply T3|done]. }
      destruct (trace_step_total D D pl ops _ Hr HT) as (pl' & Hs & Hr'). simpl in Hs. rewrite Hs. cbn [mbind res_bind].
      exists (Some pl'). split; [done|]. unfold ExecutionInv.traced. simpl. eauto.
    + exists (Some pl). by rewrite <- Epl, set_planner_id.
  - exists None. rewrite <- Epl at 1 2. by rewrite set_planner_id.
Qed.

(** The value [r] is gone, and with it the memory it owned. *)
Definition released f (r : nat) (h : Heap) : ExecutionFrame T := set_values f (<[r := empty_MLValue]> (all_values_ f)) h.

Lemma released_tensor f r h v t : v ≠ r → tensor_at (released f r h) v t ↔ tensor_at f v t.
Proof. intros Hv. unfold tensor_at. simpl. by rewrite list_lookup_insert_ne. Qed.
Lemma released_empty f r h x : all_values_ f !! r = Some x → all_values_ (released f r h) !! r = Some empty_MLValue.
Proof. intros Hx%lookup_lt_Some. by apply list_lookup_insert_eq. Qed.

(** What goes is the buffer that the root owns. *)
Lemma drop_root D F f r :
  FrameOk D F f → r ∈ D → r ∈ outputs → B r = r → ¬ F r →
  ∃ x h, all_values_ f !! r = Some x ∧ drop_value (heap_ f) x = Ok h ∧ next_buffer h = next_buffer (heap_ f) ∧
    ∀ b, b ∈ freed h ↔ b ∈ freed (heap_ f) ∨ Owned session D F f r b.
Proof.
  intros HF Hr Hout HB HFr.
  destruct (fo_val _ _ _ _ _ _ _ HF r Hr) as (t & _ & Ht & _ & _ & Hl & _); [by rewrite HB|].
  pose proof Ht as (sh & fe & Hx). pose proof (fo_shared _ _ _ _ _ _ _ HF r _ Hr Hout Hx) as Hsh. simpl in Hsh. subst sh.
  assert (HO : ∀ b, Owned session D F f r b → owns_buffer t = true ∧ base (p_data_ t) = Some b).
  { intros b (_ & _ & _ & _ & t' & Ht' & H). by rewrite (tensor_at_inj _ _ _ _ Ht Ht'). }
  exists (mkMLValue (Some (TensorObject t)) false fe). unfold drop_value. cbn [data_ shared negb]. rewrite andb_true_r. destruct (owns_buffer t) eqn:Eo.
  - destruct (fo_root _ _ _ _ _ _ _ HF r t Hr Hout Ht Eo) as [_ [Ep|[b Ep]]]; rewrite Ep in *.
    + eexists. split_and!; [exact Hx|done|done|]. intros b. split; [by left|]. intros [?|[_ ?]%HO]; done.
    + cbn [heap_Free]. rewrite Hl. eexists. split_and!; [exact Hx|done|done|]. intros b'. simpl. rewrite elem_of_union, elem_of_singleton. split.
      * intros [->|?]; [right|by left]. split_and!; [done..|]. exists t. rewrite Ep. split_and!; [by exists false, fe|done|done].
      * intros [?|[_ [= ->]]%HO]; auto.
  - eexists. split_and!; [exact Hx|done|done|]. intros b. split; [by left|]. intros [?|[? _]%HO]; done.
Qed.
Lemma live_drop h h' q :
  next_buffer h' = next_buffer h → live h q = true → (∀ b, base q = Some b → b ∈ freed h' → b ∈ freed h) → live h' q = true.
Proof.
  intros Hn. destruct q as [|b o]; simpl; [done|]. rewrite !andb_true_iff, Hn, !bool_decide_eq_true. intros [H1 H2] H.
  split; [done|]. intros ?%H; done.
Qed.

Lemma released_ok D F f r :
  FrameOk D F f → r ∈ D → r ∈ outputs → B r = r → ¬ F r →
  ∃ x h, all_values_ f !! r = Some x ∧ drop_value (heap_ f) x = Ok h ∧ FrameOk D (fun v => F v ∨ v = r) (released f r h).
Proof.
  intros HF Hr Hout HB HFr. destruct (drop_root D F f r HF Hr Hout HB HFr) as (x & h & Hx & Hd & Hnx & Hfr).
  exists x, h. split_and!; [done|done|]. pose proof (fo_old _ _ _ _ _ _ _ HF) as (Ho1 & Ho2 & Ho3 & Ho4).
  assert (HO : ∀ r' b, Owned session D (fun v => F v ∨ v = r) (released f r h) r' b ↔ Owned session D F f r' b ∧ r' ≠ r).
  { intros r' b. unfold Owned. split.
    - intros (H1 & H2 & H3 & [H4 H4']%Decidable.not_or & y & Hy & H5). split; [|done]. split_and!; [done..|].
      exists y. by rewrite released_tensor in Hy by done.
    - intros [(H1 & H2 & H3 & H4 & y & Hy & H5) Hne]. split_and!; [done..|naive_solver|]. exists y. by rewrite released_tensor by done. }
  assert (Hlive : ∀ w y, w ∈ D → ¬ F (B w) → B w ≠ r → tensor_at f w y → live (heap_ f) (p_data_ y) = true → live h (p_data_ y) = true).
  { intros w y Hw HFw Hne Hy Hl. apply (live_drop (heap_ f)); [done|done|]. intros b Hb [?|HOb]%Hfr; [done|].
    by destruct (fo_own _ _ _ _ _ _ _ HF r b w y HOb Hw HFw Hne Hy). }
  split; simpl.
  - rewrite length_insert. apply HF.
  - exact (fo_layout _ _ _ _ _ _ _ HF).
  - rewrite Hnx. intros b [?%(fo_heap _ _ _ _ _ _ _ HF)|HOb]%Hfr; [done|]. by eapply owned_live.
  - apply HF.
  - intros v Hv [HFv Hvr]%Decidable.not_or. destruct (fo_val _ _ _ _ _ _ _ HF v Hv HFv) as (y & z & Hy & Hz & Ep & Hl & Hs).
    assert (v ≠ r) by (intros ->; by rewrite HB in Hvr). exists y, z. rewrite !released_tensor by done.
    split_and!; [done|done|done|by apply (Hlive v)|done].
  - intros v Hlt HvD. rewrite list_lookup_insert_ne by (by intros ->). by apply (fo_new _ _ _ _ _ _ _ HF).
  - intros v [HFv| ->]; [|split; [done|by eapply (released_empty f r h)]].
    destruct (fo_gone _ _ _ _ _ _ _ HF v HFv). split; [done|]. by rewrite list_lookup_insert_ne by (by intros ->).
  - intros v y Hv Hvo Hy. destruct (decide (v = r)) as [->|Hne].
    + rewrite list_lookup_insert_eq in Hy by (by eapply lookup_lt_Some). by injection Hy as <-.
    + rewrite list_lookup_insert_ne in Hy by done. by eapply (fo_shared _ _ _ _ _ _ _ HF v).
  - intros v y Hv Hvo. rewrite list_lookup_insert_ne by (by intros ->). by apply (fo_ext _ _ _ _ _ _ _ HF).
  - intros v y Hv Hvo Hy Hown. destruct (decide (v = r)) as [->|Hne].
    + destruct Hy as (sh & fe' & Hy). by rewrite (released_empty f r h x Hx) in Hy.
    + apply released_tensor in Hy; [|done]. by apply (fo_root _ _ _ _ _ _ _ HF).
  - intros r' b w y [HO' Hne']%HO Hw [HFw Hwr]%Decidable.not_or Hne Hy. apply released_tensor in Hy; [|by intros ->].
    by eapply (fo_own _ _ _ _ _ _ _ HF r' b w).
  - intros loc q Hq. destruct (fo_bufs _ _ _ _ _ _ _ HF loc q Hq) as (Hl & Hq' & Hqo). split; [|split; [done|by intros r' b [? _]%HO; eapply Hqo]].
    apply (live_drop (heap_ f)); [done|done|]. intros b Hb [?|HOb]%Hfr; [done|]. by destruct (Hqo r b HOb).
  - apply HF.
  - rewrite Hnx. intros b Hb. destruct (fo_account _ _ _ _ _ _ _ HF b Hb) as [?|[[r' HOb]|?]]; [left; apply Hfr; by left| |by auto].
    destruct (decide (r' = r)) as [->|Hne]; [left; apply Hfr; by right|]. right; left. exists r'. by apply HO.
  - rewrite Hnx. split_and!; [done|intros b Hb; apply Hfr; left; by apply Ho2| |intros r' b [? _]%HO; by eapply Ho4].
    intros b [?|HOb]%Hfr; [by apply Ho3|right; by eapply Ho4].
  - intros v y Hv Hvo Hvg Hy. destruct (decide (v = r)) as [->|Hne].
    + destruct Hy as (sh & fe' & Hy). by rewrite (released_empty f r h x Hx) in Hy.
    + apply released_tensor in Hy; [|done]. by eapply (fo_fetch _ _ _ _ _ _ _ HF).
  - intros v y p Hv Hvo Hy. destruct (decide (v = r)) as [->|Hne].
    + destruct Hy as (sh & fe' & Hy). by rewrite (released_empty f r h x Hx) in Hy.
    + apply released_tensor in Hy; [|done]. by eapply (fo_type _ _ _ _ _ _ _ HF).
  - exact (fo_trace _ _ _ _ _ _ _ HF).
Qed.

Lemma frame_planner D F f pl : FrameOk D F f → traced D (set_planner f pl) → FrameOk D F (set_planner f pl).
Proof. intros [] Ht. by split. Qed.

Lemma ReleaseMLValue_ok D F f r :
  FrameOk D F f → r ∈ D → r ∈ outputs → B r = r → ¬ F r →
  ∃ f', ReleaseMLValue session f r = Ok (StatusOK, f') ∧ FrameOk D (fun v => F v ∨ v = r) f'.
Proof.
  intros HF Hr Hout HB HFr. destruct (released_ok D F f r HF Hr Hout HB HFr) as (x & h & Hx & Hd & HF').
  unfold ReleaseMLValue. rewrite Hx, Hd. cbn [mbind res_bind]. unfold released in HF'.
  pose proof Hout as (node & Hn & (k & Hk)%list_elem_of_lookup)%list_elem_of_bind.
  apply elem_of_ids in Hn as (arg & Ha & He & Hv).
  destruct (sp_output k node arg r Hk Ha He Hv) as (p & Hp & Hty & _).
  destruct (frame_TraceFree_ok D _ r p (na_type arg) (fo_trace _ _ _ _ _ _ _ HF') Hp Hty) as (pl & -> & Htr).
  cbn [mbind res_bind]. eexists. split; [done|]. by apply frame_planner.
Qed.

(** ** Arguments *)

Hypothesis Hexists : ∀ arg, arg ∈ graph_args g → na_exists arg = negb (bool_decide (na_name arg = ""%string)).
Hypothesis Hnodes : ∀ node, node ∈ g_topo g → node ∈ g_nodes g.
Abbreviation arg_index := (arg_index session).

Lemma arg_index_cases arg :
  arg ∈ graph_args g →
  (na_exists arg = false ∧ arg_index arg = -1) ∨
  (na_exists arg = true ∧ ∃ v, name_map_ names !! na_name arg = Some v ∧ arg_index arg = Z.of_nat v).
Proof.
  intros Ha. unfold ExecutionInv.arg_index. pose proof (Hexists arg Ha) as He. case_bool_decide; simpl in He; [by left|right].
  split; [done|]. destruct (ok_known _ _ Hg arg Ha He) as [v Hv]. exists v. by rewrite Hv.
Qed.

(** The value of an argument. *)
Definition arg_value f (arg : NodeArg T) : option (MLValue T) :=
  if arg_index arg <? 0 then None else all_values_ f !! Z.to_nat (arg_index arg).

Lemma arg_value_some f arg v :
  arg ∈ graph_args g → na_exists arg = true → name_map_ names !! na_name arg = Some v →
  arg_value f arg = all_values_ f !! v.
Proof.
  intros Ha He Hv. unfold arg_value. destruct (arg_index_cases arg Ha) as [[? _]|(_ & v' & Hv' & ->)]; [congruence|].
  rewrite Hv in Hv'. injection Hv' as <-. rewrite (proj2 (Z.ltb_ge _ _)) by lia. by rewrite Nat2Z.id.
Qed.

Lemma node_value_ok f i arg :
  length (all_values_ f) = (MaxIdx names + 1)%nat → node_values_ f !! i = Some (arg_index arg) → arg ∈ graph_args g →
  GetNodeInputOrOutputMLValue f (Z.of_nat i) = Ok (arg_value f arg).
Proof.
  intros Hlen Hl Ha. unfold GetNodeInputOrOutputMLValue. pose proof (lookup_lt_Some _ _ _ Hl).
  rewrite (proj2 (Z.leb_le 0 _)), (proj2 (Z.ltb_lt _ (Z.of_nat (length (node_values_ f))))) by lia. cbn [andb enforce mbind res_bind].
  rewrite Nat2Z.id, Hl. cbn [of_option mbind res_bind]. destruct (arg_index_cases arg Ha) as [[_ E]|(He & v & Hv & E)].
  { unfold arg_value. by rewrite E. }
  rewrite (arg_value_some f arg v), E by done.
  assert (Hlt : (v < length (all_values_ f))%nat) by (rewrite Hlen; by eapply (index_lt names g)).
  destruct (lookup_lt_is_Some_2 _ _ Hlt) as [x Hx].
  rewrite (proj2 (Z.leb_le 0 _)), (value_at_lookup f v x Hx), Hx by lia. done.
Qed.
Lemma node_args_ok f start args :
  length (all_values_ f) = (MaxIdx names + 1)%nat →
  (∀ i arg, args !! i = Some arg → node_values_ f !! (start + i)%nat = Some (arg_index arg)) →
  (∀ arg, arg ∈ args → arg ∈ graph_args g) → node_args f start (length args) = Ok (arg_value f <$> args).
Proof.
  intros Hlen. induction args as [|arg args IH] using rev_ind; [done|]. intros Hlay Hin.
  rewrite length_app. simpl. rewrite Nat.add_1_r. unfold node_args in *. rewrite seq_S, foldM_app, IH; cbn [mbind res_bind foldM].
  2: { intros i a Hi. apply Hlay. by apply lookup_app_l_Some. }
  2: { intros a Ha. apply Hin, elem_of_app. by left. }
  rewrite (node_value_ok f _ arg); [by rewrite fmap_app|done|by apply Hlay, list_lookup_middle|]. apply Hin. set_solver.
Qed.

Lemma access_ok D F f f' arg :
  FrameOk D F f → heap_le (heap_ f) (heap_ f') → arg ∈ graph_args g →
  (∀ v, na_exists arg = true → name_map_ names !! na_name arg = Some v → v ∈ D ∧ ¬ F (B v)) →
  access f' (arg_value f arg) = Ok tt.
Proof.
  intros HF Hh Ha Hv. destruct (arg_index_cases arg Ha) as [[_ E]|(He & v & Ev & E)].
  - unfold arg_value. by rewrite E.
  - rewrite (arg_value_some f arg v) by done. destruct (Hv v He Ev) as [HD HFv].
    destruct (fo_val _ _ _ _ _ _ _ HF v HD HFv) as (t & _ & (sh & fe & ->) & _ & _ & Hl & _). unfold access. simpl.
    by rewrite (live_mono _ _ _ Hh Hl).
Qed.
Lemma accesses_ok D F f f' args :
  FrameOk D F f → heap_le (heap_ f) (heap_ f') → (∀ arg, arg ∈ args → arg ∈ graph_args g) →
  (∀ v, v ∈ ids names args → v ∈ D ∧ ¬ F (B v)) →
  foldM (fun _ arg => access f' arg) tt (arg_value f <$> args) = Ok tt.
Proof.
  intros HF Hh. induction args as [|arg args IH]; intros Hin Hv; [done|]. cbn [fmap list_fmap foldM].
  rewrite (access_ok D F f f' arg HF Hh). 
  - cbn [mbind res_bind]. apply IH; [set_solver|]. intros v Hin'. apply Hv. change (arg :: args) with ([arg] ++ args).
    rewrite ids_app. apply elem_of_app. by right.
  - apply Hin. by left.
  - intros v He Ev. apply Hv. apply elem_of_ids. exists arg. split; [by left|done].
Qed.

(** ** The kernel of a node *)

(** What a kernel gets: a tensor of the shape its value has in this run for
    each argument that exists. What it must do: ask for each output that
    exists, with the shape of this run. *)
Definition inputs_ok (node : Node T) (inputs : list (option (MLValue T))) : Prop :=
  Forall2 (fun arg x => if na_exists arg
      then ∃ v t sh fe, name_map_ names !! na_name arg = Some v ∧
             x = Some (mkMLValue (Some (TensorObject t)) sh fe) ∧ shape_ t = out_shape v
      else x = None) (n_inputs node ++ n_implicit_inputs node) inputs.
Definition requests_ok (node : Node T) (requests : list (Z * TensorShape)) : Prop :=
  (∀ i sh arg v, (i, sh) ∈ requests → n_outputs node !! Z.to_nat i = Some arg → 0 ≤ i → na_exists arg = true →
     name_map_ names !! na_name arg = Some v → sh = out_shape v) ∧
  (∀ i arg, n_outputs node !! i = Some arg → na_exists arg = true → ∃ sh, (Z.of_nat i, sh) ∈ requests).
Context (kernel : Z → list (option (MLValue T)) → Status * list (Z * TensorShape)).
Hypothesis Hkernel : ∀ node inputs, node ∈ g_topo g → inputs_ok node inputs →
  ∃ requests, kernel (n_index node) inputs = (StatusOK, requests) ∧ requests_ok node requests.

Section node.
Context (k : nat) (node : Node T).
Hypothesis Hk : g_topo g !! k = Some node.
Abbreviation before k := (defs0 names g ++ all_outs names (take k (g_topo g))).

Lemma node_elem : node ∈ g_topo g.
Proof. by eapply list_elem_of_lookup_2. Qed.
Lemma node_arg_in arg : arg ∈ node_all_args node → arg ∈ graph_args g.
Proof.
  intros Ha. unfold graph_args. do 4 (apply elem_of_app; right). apply list_elem_of_bind. exists node. split; [exact Ha|].
  apply elem_of_app. left. apply node_elem.
Qed.

(** [D] has the values before the node and some of its outputs. *)
Definition Between (D : list nat) : Prop :=
  (∀ v, v ∈ before k → v ∈ D) ∧ (∀ v, v ∈ D → v ∈ before k ∨ v ∈ outs names node).

Lemma context_Output_ok D F f off i sh :
  Between D → FrameOk D F f → (∀ v, v ∈ outs names node → ¬ F (B v)) →
  (∀ i arg, node_all_args node !! i = Some arg → node_values_ f !! (off + i)%nat = Some (arg_index arg)) →
  (∀ arg v, n_outputs node !! Z.to_nat i = Some arg → 0 ≤ i → na_exists arg = true →
     name_map_ names !! na_name arg = Some v → sh = out_shape v) →
  ∃ D' f', context_Output CreateFence session node (off + length (n_inputs node) + length (n_implicit_inputs node)) f (i, sh) = Ok f' ∧
    Between D' ∧ FrameOk D' F f' ∧ heap_le (heap_ f) (heap_ f') ∧ node_values_ f' = node_values_ f ∧ (∀ v, v ∈ D → v ∈ D') ∧
    (∀ arg v, n_outputs node !! Z.to_nat i = Some arg → 0 ≤ i → na_exists arg = true →
       name_map_ names !! na_name arg = Some v → v ∈ D').
Proof.
  intros HD HF HFo Hlay Hsh. unfold context_Output.
  assert (Hstay : (∀ arg v, n_outputs node !! Z.to_nat i = Some arg → 0 ≤ i → na_exists arg = true →
       name_map_ names !! na_name arg = Some v → v ∈ D) →
    ∃ D' f', Ok f = Ok f' ∧ Between D' ∧ FrameOk D' F f' ∧ heap_le (heap_ f) (heap_ f') ∧ node_values_ f' = node_values_ f ∧
      (∀ v, v ∈ D → v ∈ D') ∧ (∀ arg v, n_outputs node !! Z.to_nat i = Some arg → 0 ≤ i → na_exists arg = true →
         name_map_ names !! na_name arg = Some v → v ∈ D')).
  { intros H. exists D, f. do 3 (split; [done|]). split; [apply heap_le_refl|done]. }
  destruct ((i <? 0) || (Z.of_nat (length (n_outputs node)) <=? i)) eqn:Ei.
  { apply Hstay. intros arg v Harg Hi. apply lookup_lt_Some in Harg.
    apply orb_true_iff in Ei as [?%Z.ltb_lt|?%Z.leb_le]; lia. }
  apply orb_false_iff in Ei as [Hi1%Z.ltb_ge Hi2%Z.leb_gt].
  assert (Hil : (Z.to_nat i < length (n_outputs node))%nat) by lia.
  destruct (lookup_lt_is_Some_2 _ _ Hil) as [arg Harg].
  assert (Hall : node_all_args node !! (length (n_inputs node) + (length (n_implicit_inputs node) + Z.to_nat i))%nat = Some arg).
  { unfold node_all_args. rewrite lookup_app_r by lia. rewrite lookup_app_r by lia.
    replace (_ - _ - _)%nat with (Z.to_nat i) by lia. done. }
  pose proof (Hlay _ _ Hall) as Hnv. pose proof (node_arg_in arg ltac:(by eapply list_elem_of_lookup_2)) as Hga.
  set (pos := (off + (length (n_inputs node) + (length (n_implicit_inputs node) + Z.to_nat i)))%nat) in *.
  replace (Z.of_nat _ + i) with (Z.of_nat pos) by (unfold pos; lia).
  unfold GetOrCreateNodeOutputMLValue. pose proof (lookup_lt_Some _ _ _ Hnv) as Hlt.
  rewrite (proj2 (Z.ltb_ge _ 0)), (proj2 (Z.leb_gt (Z.of_nat (length (node_values_ f))) _)) by lia. cbn [orb].
  rewrite Nat2Z.id, Hnv. cbn [of_option mbind res_bind].
  assert (Hget : ∀ D' f', FrameOk D' F f' → node_values_ f' = node_values_ f → GetNodeInputOrOutputMLValue f' (Z.of_nat pos) = Ok (arg_value f' arg)).
  { intros D' f' HF' Hn'. apply node_value_ok; [apply HF'|by rewrite Hn'|done]. }
  destruct (arg_index_cases arg Hga) as [[Hne E]|(He & v & Hv & E)]; rewrite E.
  { cbn [Z.ltb Z.compare mbind res_bind IsOK StatusOK enforce]. rewrite (Hget D f HF eq_refl). unfold arg_value. rewrite E.
    cbn [Z.ltb Z.compare mbind res_bind]. apply Hstay. intros arg' v' Harg' _ He'. rewrite Harg in Harg'. congruence. }
  rewrite (proj2 (Z.ltb_ge _ _)) by lia. specialize (Hsh arg v Harg Hi1 He Hv) as ->.
  assert (Harg_in : arg ∈ n_outputs node) by (by eapply list_elem_of_lookup_2).
  assert (Hout : v ∈ outs names node) by (apply elem_of_ids; eauto).
  assert (Hlast : ∀ D', v ∈ D' → ∀ arg' v', n_outputs node !! Z.to_nat i = Some arg' → 0 ≤ i → na_exists arg' = true →
    name_map_ names !! na_name arg' = Some v' → v' ∈ D').
  { intros D' Hin arg' v' Harg' _ _ Hv'. rewrite Harg in Harg'. injection Harg' as <-. congruence. }
  destruct (decide (v ∈ D)) as [Hin|Hnin].
  - destruct (fo_val _ _ _ _ _ _ _ HF v Hin (HFo v Hout)) as (t & _ & (s' & fe & Hx) & _ & _ & _ & Hs).
    rewrite (value_at_lookup _ _ _ Hx). cbn [mbind res_bind]. change (IsAllocated _) with true. cbv iota.
    unfold VerifyShape. cbn [data_]. rewrite bool_decide_true by done.
    cbn [mbind res_bind IsOK StatusOK enforce]. rewrite (Hget D f HF eq_refl), (arg_value_some f arg v), Hx by done. apply Hstay. by apply Hlast.
  - rewrite (value_at_lookup f v empty_MLValue).
    2: { apply (fo_new _ _ _ _ _ _ _ HF); [|done]. apply output_lt. apply list_elem_of_bind. exists node. split; [done|apply node_elem]. }
    cbn [mbind res_bind]. change (IsAllocated empty_MLValue) with false. cbv iota.
    destruct (alloc_ok D F f k node arg v Hk Harg_in He Hv (proj1 HD) HF Hnin (HFo v Hout)) as (f' & -> & HF' & Hh & Hn').
    cbn [mbind res_bind IsOK StatusOK enforce]. rewrite (Hget _ f' HF' Hn'), (arg_value_some f' arg v) by done.
    destruct (fo_val _ _ _ _ _ _ _ HF' v ltac:(by left) (HFo v Hout)) as (t & _ & (s' & fe & ->) & _). cbn [mbind res_bind GetTensor data_].
    exists (v :: D), f'. split; [done|]. split; [|split; [done|split; [done|split; [done|split; [by right|apply Hlast; by left]]]]].
    split; [intros w Hw; right; by apply HD|]. intros w [->|Hw]%elem_of_cons; [by right|by apply HD].
Qed.

Lemma requests_fold D F f off requests :
  Between D → FrameOk D F f → (∀ v, v ∈ outs names node → ¬ F (B v)) →
  (∀ i arg, node_all_args node !! i = Some arg → node_values_ f !! (off + i)%nat = Some (arg_index arg)) →
  (∀ i sh arg v, (i, sh) ∈ requests → n_outputs node !! Z.to_nat i = Some arg → 0 ≤ i → na_exists arg = true →
     name_map_ names !! na_name arg = Some v → sh = out_shape v) →
  ∃ D' f', foldM (context_Output CreateFence session node (off + length (n_inputs node) + length (n_implicit_inputs node))) f requests = Ok f' ∧
    Between D' ∧ FrameOk D' F f' ∧ heap_le (heap_ f) (heap_ f') ∧ node_values_ f' = node_values_ f ∧ (∀ v, v ∈ D → v ∈ D') ∧
    (∀ i sh arg v, (i, sh) ∈ requests → n_outputs node !! Z.to_nat i = Some arg → 0 ≤ i → na_exists arg = true →
       name_map_ names !! na_name arg = Some v → v ∈ D').
Proof.
  revert D f. induction requests as [|[i sh] requests IH]; intros D f HD HF HFo Hlay Hsh; cbn [foldM].
  { exists D, f. do 3 (split; [done|]). split; [apply heap_le_refl|]. split; [done|]. split; [done|]. by intros ? ? ? ? ?%not_elem_of_nil. }
  destruct (context_Output_ok D F f off i sh HD HF HFo Hlay) as (D1 & f1 & -> & HD1 & HF1 & Hh1 & Hn1 & Hsub1 & Hin1).
  { intros arg v. apply Hsh. by left. }
  cbn [mbind res_bind]. destruct (IH D1 f1 HD1 HF1 HFo) as (D2 & f2 & E2 & HD2 & HF2 & Hh2 & Hn2 & Hsub2 & Hin2).
  { by rewrite Hn1. }
  { intros i' sh' arg v Hi. apply Hsh. by right. }
  exists D2, f2. split; [done|]. split; [done|]. split; [done|]. split; [by eapply heap_le_trans|]. split; [congruence|].
  split; [auto|]. intros i' sh' arg v [[= -> ->]|Hi]%elem_of_cons; [|eauto]. intros Ha Hi' He Hv. eapply Hsub2, Hin1; eauto.
Qed.

Lemma inputs_values D F f :
  FrameOk D F f → (∀ v, v ∈ uses names node → v ∈ D ∧ ¬ F (B v)) →
  inputs_ok node (arg_value f <$> (n_inputs node ++ n_implicit_inputs node)).
Proof.
  intros HF Hv. unfold inputs_ok. apply Forall2_fmap_r. apply Forall_Forall2_diag. apply Forall_forall. intros arg Ha. unfold compose.
  assert (Hga : arg ∈ graph_args g) by (apply node_arg_in; unfold node_all_args; set_solver).
  destruct (arg_index_cases arg Hga) as [[-> E]|(He & v & Ev & E)]; [unfold arg_value; by rewrite E|]. rewrite He.
  destruct (Hv v) as [HD HFv]; [unfold uses; rewrite <- ids_app; apply elem_of_ids; eauto|].
  destruct (fo_val _ _ _ _ _ _ _ HF v HD HFv) as (t & _ & (sh & fe & Hx) & _ & _ & _ & Hs).
  exists v, t, sh, fe. by rewrite (arg_value_some f arg v).
Qed.

Lemma compute_node_ok F f :
  FrameOk (before k) F f → (∀ v, v ∈ releases names node → ¬ F (B v)) →
  ∃ f', compute_node CreateFence session kernel f node = Ok (StatusOK, f') ∧ FrameOk (before (S k)) F f'.
Proof.
  intros HF HFr. destruct (fo_layout _ _ _ _ _ _ _ HF node (Hnodes node node_elem)) as (off & Hoff & Hidx & Hlay).
  assert (Huses : ∀ v, v ∈ ids names (n_inputs node ++ n_implicit_inputs node) → v ∈ before k ∧ ¬ F (B v)).
  { intros v Hv. rewrite ids_app in Hv. split; [|apply HFr, elem_of_app; by left]. apply elem_of_app. by eapply (ok_order _ _ Hg). }
  assert (Hga1 : ∀ arg, arg ∈ n_inputs node ++ n_implicit_inputs node → arg ∈ graph_args g).
  { intros arg Ha. apply node_arg_in. unfold node_all_args. set_solver. }
  assert (Hga2 : ∀ arg, arg ∈ n_outputs node → arg ∈ graph_args g).
  { intros arg Ha. apply node_arg_in. unfold node_all_args. set_solver. }
  unfold compute_node, GetFirstArgIndex. rewrite (proj2 (Z.ltb_lt _ _)), Hoff by lia. cbn [enforce of_option mbind res_bind].
  rewrite <- length_app, (node_args_ok f off (n_inputs node ++ n_implicit_inputs node)); [|apply HF| |done].
  2: { intros i arg Hi. apply Hlay. unfold node_all_args. rewrite app_assoc. by apply lookup_app_l_Some. }
  cbn [mbind res_bind]. rewrite (accesses_ok (before k) F f f _ HF (heap_le_refl _)) by done. cbn [mbind res_bind].
  destruct (Hkernel node _ node_elem (inputs_values (before k) F f HF ltac:(intros v; unfold uses; rewrite <- ids_app; auto)))
    as (requests & -> & Hreq1 & Hreq2).
  destruct (requests_fold (before k) F f off requests) as (D' & f' & -> & HD' & HF' & Hh & Hn & Hsub & Hin);
    [by split; auto|done|intros v Hv; apply HFr, elem_of_app; by right|done|done|].
  cbn [mbind res_bind].
  assert (HD : ∀ v, v ∈ D' ↔ v ∈ before (S k)).
  { intros v. rewrite (all_outs_take names g k node Hk), app_assoc, elem_of_app. split; [apply HD'|].
    intros [Hv|Hv]; [by apply HD'|]. apply elem_of_ids in Hv as (arg & (i & Hi)%list_elem_of_lookup & He & Ev).
    destruct (Hreq2 i arg Hi He) as [sh Hsh]. eapply Hin; [exact Hsh|by rewrite Nat2Z.id|lia|done|done]. }
  rewrite (node_args_ok f' _ (n_outputs node)); [|apply HF'| |done].
  2: { intros i arg Hi. rewrite Hn. rewrite <- !Nat.add_assoc. apply Hlay. unfold node_all_args.
       rewrite lookup_app_r by lia. rewrite lookup_app_r by lia. by replace (_ - _ - _)%nat with i by lia. }
  cbn [mbind res_bind IsOK StatusOK]. rewrite foldM_app, (accesses_ok (before k) F f f' _ HF Hh) by done. cbn [mbind res_bind].
  rewrite (accesses_ok D' F f' f' _ HF' (heap_le_refl _)); [|done|].
  2: { intros v Hv. split; [|apply HFr, elem_of_app; by right]. apply HD. rewrite (all_outs_take names g k node Hk). set_solver. }
  cbn [mbind res_bind]. exists f'. split; [done|]. by eapply frame_ext; [exact HD| |exact HF'].
Qed.
End node.

(** ** The steps of the plan *)

Abbreviation before k := (defs0 names g ++ all_outs names (take k (g_topo g))).

(** The buffers released before the entry [n] of step [k]. *)
Definition Freed (k n x : nat) : Prop :=
  ∃ j s i, execution_plan plan !! j = Some s ∧ in_range s i ∧ to_be_freed plan !! i = Some x ∧
    ((j < k)%nat ∨ j = k ∧ (i < n)%nat).

Lemma freed_dead k x v :
  Freed k 0 x → v ∈ defined names g → B v = x → perm names g v = 0 ∧ v ∉ all_releases names (drop k (g_topo g)).
Proof.
  intros (j & s & i & Hj & Hi & Hx & [Hlt|[_ ?]]) Hv HB; [|lia]. destruct (sp_free j s i Hj Hi) as (b & Hb & _ & _ & Hdead).
  rewrite Hx in Hb. injection Hb as <-. destruct (Hdead v Hv HB) as [Hp Hr]. split; [done|]. intros Hin. apply Hr.
  apply list_elem_of_bind in Hin as (node & Hn & Hin). apply list_elem_of_bind. exists node. split; [done|].
  replace k with (S j + (k - S j))%nat in Hin by lia. rewrite <- drop_drop in Hin.
  apply list_elem_of_lookup in Hin as [q Hq]. rewrite lookup_drop in Hq. by eapply list_elem_of_lookup_2.
Qed.
Lemma outputs_split k v : v ∈ outputs → v ∈ all_outs names (take k (g_topo g)) ∨ v ∈ all_outs names (drop k (g_topo g)).
Proof. intros Hv. rewrite <- (take_drop k (g_topo g)) in Hv. unfold all_outs in Hv. by rewrite bind_app, elem_of_app in Hv. Qed.
Lemma outs_released (l : list (Node T)) v : v ∈ all_outs names l → v ∈ all_releases names l.
Proof.
  intros (node & Hv & Hn)%list_elem_of_bind. apply list_elem_of_bind. exists node. split; [apply elem_of_app; by right|done].
Qed.

Lemma freed_next k s i b :
  execution_plan plan !! k = Some s → in_range s i → to_be_freed plan !! i = Some b →
  ∀ x, (Freed k i x ∨ x = b) ↔ Freed k (S i) x.
Proof.
  intros Hk Hi Hb x. split.
  - intros [(j & s' & i' & ? & ? & ? & Hlt)| ->]; [exists j, s', i'; split_and!; [done..|]; lia|].
    exists k, s, i. split_and!; [done..|]. right. lia.
  - intros (j & s' & i' & Hj & Hi' & Hx & Hlt). destruct (decide (j = k ∧ i' = i)) as [[-> ->]|Hne]; [right; congruence|].
    left. exists j, s', i'. split_and!; [done..|]. lia.
Qed.

Lemma ReleaseNodeMLValues_ok k s f :
  execution_plan plan !! k = Some s → FrameOk (before (S k)) (Freed k 0) f →
  ∃ f', ReleaseNodeMLValues session f s = Ok (StatusOK, f') ∧ FrameOk (before (S k)) (Freed (S k) 0) f'.
Proof.
  intros Hk HF. unfold ReleaseNodeMLValues, ExecutionFrame.plan. pose proof (sp_from s ltac:(by eapply list_elem_of_lookup_2)) as Hfrom.
  set (a := Z.to_nat (free_from_index s)). set (m := Z.to_nat (free_to_index s + 1 - free_from_index s)).
  assert (Hrange : ∀ i, in_range s i ↔ (a ≤ i < a + m)%nat) by (intros i; unfold in_range, a, m; lia).
  match goal with |- context [foldM ?fn _ _] => destruct (foldM_seq (fun i sf => sf.1 = StatusOK ∧ FrameOk (before (S k)) (Freed k i) sf.2)
    fn (StatusOK, f) a m) as ([s' f'] & E & Hs & HF') end.
  - intros i [st f1] Hi [Hst HF1]. simpl in Hst, HF1. subst st. cbn [IsOK StatusOK negb].
    apply Hrange in Hi. destruct (sp_free k s i Hk Hi) as (b & Hb & Hbd & HBb & Hdead). rewrite Hb. cbn [of_option mbind res_bind].
    destruct (Hdead b Hbd HBb) as [Hp Hr]. fold (B b) in HBb.
    assert (Hb0 : b ∉ defs0 names g).
    { intros Hb0. unfold perm in Hp. rewrite decide_True in Hp by done. pose proof (cnt_nonneg b (all_ids names (g_outputs g))). lia. }
    assert (Hbo : b ∈ outputs) by (apply elem_of_app in Hbd as [?|?]; done).
    assert (HbD : b ∈ before (S k)).
    { apply elem_of_app. right. destruct (outputs_split (S k) b Hbo) as [?|Hl]; [done|]. by apply outs_released in Hl. }
    destruct (ReleaseMLValue_ok (before (S k)) (Freed k i) f1 b HF1 HbD Hbo HBb) as (f2 & E2 & HF2).
    { intros (j & s' & i' & Hj & Hi' & Hx & Hlt).
      assert (i' = i) as -> by (by eapply NoDup_lookup; [apply sp_nodup| |]).
      assert (j = k) as -> by (by eapply (sp_once j k s' s i)). lia. }
    exists (StatusOK, f2). split; [done|]. split; [done|]. eapply frame_ext; [done| |exact HF2]. by eapply freed_next.
  - split; [done|]. simpl. eapply frame_ext; [done| |exact HF]. intros x. split; intros (j & s' & i & Hj & Hi & Hx & Hlt).
    + exists j, s', i. split_and!; [done..|]. lia.
    + exists j, s', i. split_and!; [done..|]. destruct Hlt as [?|[-> Hlt]]; [lia|]. rewrite Hk in Hj. injection Hj as <-.
      apply Hrange in Hi. lia.
  - simpl in Hs, HF'. subst s'. exists f'. split; [exact E|]. eapply frame_ext; [done| |exact HF'].
    intros x. split; intros (j & s' & i & Hj & Hi & Hx & Hlt); exists j, s', i; (split_and!; [done..|]); [lia|].
    destruct (decide (j = k)) as [->|]; [|lia]. rewrite Hk in Hj. injection Hj as <-. apply Hrange in Hi. lia.
Qed.

Hypothesis Hindex : NoDup (n_index <$> g_nodes g).
Lemma node_of_ok node : node ∈ g_nodes g → node_of session (n_index node) = Some node.
Proof.
  unfold node_of. revert Hindex. generalize (g_nodes g) as l. intros l. induction l as [|n l IH]; intros Hnd; [by intros ?%not_elem_of_nil|].
  rewrite fmap_cons, NoDup_cons in Hnd. destruct Hnd as [Hn Hnd]. intros [->|Hin]%elem_of_cons; simpl; [by rewrite Z.eqb_refl|].
  destruct (Z.eqb_spec (n_index n) (n_index node)) as [E|E]; [|by apply IH]. exfalso. apply Hn. rewrite E. by apply list_elem_of_fmap_2.
Qed.

Context (terminate : nat → bool).
Hypothesis Hterm : ∀ k, terminate k = false.

Lemma execute_step_ok k s f :
  execution_plan plan !! k = Some s → FrameOk (before k) (Freed k 0) f →
  ∃ f', execute_step CreateFence session kernel terminate (StatusOK, f) (k, s) = Ok (StatusOK, f') ∧
    FrameOk (before (S k)) (Freed (S k) 0) f'.
Proof.
  intros Hk HF. assert (Hn : (n_index <$> g_topo g) !! k = Some (node_index s)).
  { rewrite <- sp_steps, list_lookup_fmap, Hk. done. }
  rewrite list_lookup_fmap in Hn. apply fmap_Some in Hn as (node & Hnode & Hidx).
  unfold execute_step. cbn [IsOK StatusOK negb]. rewrite Hterm, Hidx, node_of_ok by (by apply Hnodes; eapply list_elem_of_lookup_2).
  destruct (compute_node_ok k node Hnode (Freed k 0) f HF) as (f1 & -> & HF1).
  { intros v Hv HFv. assert (Hin : v ∈ all_releases names (drop k (g_topo g))).
    { rewrite (drop_S _ _ _ Hnode). apply list_elem_of_bind. exists node. split; [done|by left]. }
    destruct (freed_dead k (B v) v HFv) as [_ Hno]; [|done|done]. apply elem_of_app. apply elem_of_app in Hv as [Hv|Hv].
    - destruct (ok_order _ _ Hg k node v Hnode Hv) as [?|Hv']; [by left|right].
      apply list_elem_of_bind in Hv' as (n & Hv' & Hn). apply list_elem_of_bind. exists n. split; [done|].
      apply list_elem_of_lookup in Hn as [q Hq]. apply lookup_take_Some in Hq as [Hq _]. by eapply list_elem_of_lookup_2.
    - right. apply list_elem_of_bind. exists node. split; [done|]. by eapply list_elem_of_lookup_2. }
  cbn [mbind res_bind IsOK StatusOK negb]. by apply ReleaseNodeMLValues_ok.
Qed.

Lemma execute_steps_ok l k f :
  drop k (execution_plan plan) = l → FrameOk (before k) (Freed k 0) f →
  ∃ f', foldM (execute_step CreateFence session kernel terminate) (StatusOK, f) (imap (fun i s => ((k + i)%nat, s)) l) = Ok (StatusOK, f') ∧
    FrameOk (before (k + length l)) (Freed (k + length l) 0) f'.
Proof.
  revert k f. induction l as [|s l IH]; intros k f Hl HF; [simpl; rewrite Nat.add_0_r; eauto|].
  assert (Hk : execution_plan plan !! k = Some s).
  { rewrite <- (Nat.add_0_r k), <- lookup_drop, Hl. done. }
  rewrite imap_cons. cbn [foldM]. rewrite Nat.add_0_r. destruct (execute_step_ok k s f Hk HF) as (f1 & -> & HF1). cbn [mbind res_bind].
  destruct (IH (S k) f1) as (f' & E & HF'); [|done|].
  { rewrite (drop_S _ _ _ Hk) in Hl. by injection Hl. }
  exists f'. simpl. rewrite Nat.add_succ_r. split; [|done]. rewrite <- E. f_equal. apply imap_ext. intros i x _. simpl. f_equal. lia.
Qed.
End steps.
