(* ===== verification/ExecutionInit.v ===== *)
(** The start of a run: the constructor of the frame puts the initializers and
    the feeds into their places, lays out the arguments of the nodes and
    reserves the memory of a known pattern. *)
From S2P Require Import Prelude TensorShape MemPattern AllocPlanner AllocPlannerInv AllocPlannerReuse AllocPlannerFree AllocPlannerSteps AllocPlannerProps SafePlan ExecutionFrame ExecutionInv ExecutionSteps.

(** What a run relies on: the graph is well formed and its plan comes from
    [CreatePlan]; the nodes are numbered; the kernels do their part; the sizes
    fit; the groups of the cache have one pattern for each location. *)
Record RunOk {T : Type} `{!TensorTypes T, !ValueTypes T} (session : SessionState T)
    (kernel : Z → list (option (MLValue T)) → Status * list (Z * TensorShape))
    (out_shape : nat → TensorShape) (bytes : nat → Z) : Prop := {
  ro_graph : GraphOk (mlvalue_name_idx_map_ session) (graph_viewer_ session);
  ro_plan : CreatePlan (mlvalue_name_idx_map_ session) (graph_viewer_ session) = Ok (StatusOK, p_seq_exec_plan_ session);
  ro_nodes : ∀ node, node ∈ g_topo (graph_viewer_ session) → node ∈ g_nodes (graph_viewer_ session);
  ro_index : NoDup (n_index <$> g_nodes (graph_viewer_ session));
  ro_range : ∀ node, node ∈ g_nodes (graph_viewer_ session) → 0 ≤ n_index node < Z.of_nat (max_node_index session);
  ro_exists : ∀ arg, arg ∈ graph_args (graph_viewer_ session) → na_exists arg = negb (bool_decide (na_name arg = ""%string));
  ro_outputs : ∀ k node arg v, g_topo (graph_viewer_ session) !! k = Some node → arg ∈ n_outputs node → na_exists arg = true →
    name_map_ (mlvalue_name_idx_map_ session) !! na_name arg = Some v → output_ok out_shape bytes v (na_type arg);
  ro_bytes : ∀ v, v ∈ all_outs (mlvalue_name_idx_map_ session) (g_topo (graph_viewer_ session)) → 0 ≤ bytes v;
  ro_sum : sumZ bytes (all_outs (mlvalue_name_idx_map_ session) (g_topo (graph_viewer_ session))) < 2 ^ 64;
  ro_kernel : ∀ node inputs, node ∈ g_topo (graph_viewer_ session) → inputs_ok session out_shape node inputs →
    ∃ requests, kernel (n_index node) inputs = (StatusOK, requests) ∧ requests_ok session out_shape node requests;
  ro_cache : ∀ key grp, mem_pattern_cache_ session !! key = Some grp → NoDup (locations grp);
}.

Section init.
Context {T : Type} `{!TensorTypes T, !ValueTypes T}.
Context (session : SessionState T) (kernel : Z → list (option (MLValue T)) → Status * list (Z * TensorShape)).
Context (out_shape : nat → TensorShape) (bytes : nat → Z) (h0 : Heap).
Abbreviation names := (mlvalue_name_idx_map_ session).
Abbreviation g := (graph_viewer_ session).
Abbreviation plan := (p_seq_exec_plan_ session).
Abbreviation FrameOk := (FrameOk session out_shape bytes h0).
Abbreviation arg_index := (arg_index session).
Context (HR : RunOk session kernel out_shape bytes).
Implicit Types (f : ExecutionFrame T) (x : MLValue T).

Lemma run_plan : SafePlan names g plan.
Proof.
  destruct (CreatePlan_safe names g (ro_graph _ _ _ _ HR)) as (p & E & HS). rewrite (ro_plan _ _ _ _ HR) in E. by injection E as ->.
Qed.

(** A value from outside: a live tensor with the shape of this run. *)
Definition value_ok (h : Heap) (v : nat) x : Prop :=
  ∃ t, data_ x = Some (TensorObject t) ∧ shape_ t = out_shape v ∧ live h (p_data_ t) = true.

(** The feeds and the initializers give each value that exists before the
    first node. *)
Record FeedsOk (h : Heap) (feeds : list (string * MLValue T)) : Prop := {
  fd_heap : ∀ b, b ∈ freed h → (b < next_buffer h)%nat;
  fd_feeds : ∀ n x, (n, x) ∈ feeds → ∃ v, name_map_ names !! n = Some v ∧ v ∈ defs0 names g ∧ value_ok h v x;
  fd_init : ∀ v x, (v, x) ∈ initialized_tensors_ session → v ∈ defs0 names g ∧ value_ok h v x;
  fd_all : ∀ v, v ∈ defs0 names g →
    (∃ n x, (n, x) ∈ feeds ∧ name_map_ names !! n = Some v) ∨ ∃ x, (v, x) ∈ initialized_tensors_ session;
}.

(** ** The values *)

(** The values [l] are there, and nothing but values of [defs0]. *)
Record Values (h : Heap) (l : list nat) f : Prop := {
  va_len : length (all_values_ f) = (MaxIdx names + 1)%nat;
  va_val : ∀ v, v ∈ l → ∃ x, all_values_ f !! v = Some x ∧ value_ok h v x ∧ shared x = true;
  va_new : ∀ v, v ∉ defs0 names g → (v < MaxIdx names + 1)%nat → all_values_ f !! v = Some empty_MLValue;
}.

Lemma defs0_lt v : v ∈ defs0 names g → (v < MaxIdx names + 1)%nat.
Proof. intros Hv. apply (defined_lt names g); [apply HR|]. apply elem_of_app. by left. Qed.

Lemma put_at_ok h l f v x : Values h l f → (v < MaxIdx names + 1)%nat → put_at f v x = Ok (put f v x).
Proof.
  intros [H1 _ _] Hv. rewrite <- H1 in Hv. unfold put_at. by destruct (lookup_lt_is_Some_2 _ _ Hv) as [y ->].
Qed.
Lemma put_values h l f v x :
  Values h l f → v ∈ defs0 names g → value_ok h v x → Values h (v :: l) (put f v (share x)).
Proof.
  intros [H1 H2 H3] Hv Hx. split; simpl.
  - by rewrite length_insert.
  - intros w Hw. destruct (decide (w = v)) as [->|Hne].
    + exists (share x). split_and!; [|exact Hx|destruct Hx as (t & Ht & _); simpl; unfold IsAllocated; by rewrite Ht].
      apply list_lookup_insert_eq. rewrite H1. by apply defs0_lt.
    + rewrite list_lookup_insert_ne by done. apply H2. set_solver.
  - intros w Hw Hlt. rewrite list_lookup_insert_ne by (by intros ->). auto.
Qed.
Lemma put_empty h f v :
  Values h (defs0 names g) f → v ∉ defs0 names g → Values h (defs0 names g) (put f v (share empty_MLValue)).
Proof.
  intros [H1 H2 H3] Hv. split; simpl.
  - by rewrite length_insert.
  - intros w Hw. rewrite list_lookup_insert_ne by (by intros ->). auto.
  - intros w Hw Hlt. destruct (decide (w = v)) as [->|Hne]; [|rewrite list_lookup_insert_ne by done; auto].
    rewrite list_lookup_insert_eq by (by rewrite H1). done.
Qed.
Lemma values_sub h l l' f : (∀ v, v ∈ l' → v ∈ l) → Values h l f → Values h l' f.
Proof. intros Hl [H1 H2 H3]. split; auto. Qed.
Lemma values_set_outputs h l f o : Values h l f → Values h l (set_output_indices f o).
Proof. by intros [H1 H2 H3]. Qed.

Lemma init_values h feeds f l inits :
  FeedsOk h feeds → (∀ e, e ∈ inits → e ∈ initialized_tensors_ session) → Values h l f →
  ∃ vs, let f' := set_values f vs (heap_ f) in
    foldM (fun f e => put_at f (fst e) (share (snd e))) f inits = Ok f' ∧ Values h ((fst <$> inits) ++ l) f'.
Proof.
  intros HF. revert f l. induction inits as [|[v x] inits IH]; intros f l Hin HV; cbn [foldM].
  { exists (all_values_ f). split; [by destruct f|]. by destruct HV. }
  destruct (fd_init _ _ HF v x) as [Hv Hx]; [apply Hin; by left|]. cbn [fst snd].
  rewrite (put_at_ok h l) by (done || by apply defs0_lt). cbn [mbind res_bind].
  destruct (IH (put f v (share x)) (v :: l)) as (vs & E & HV'); [intros; apply Hin; by right|by apply put_values|].
  exists vs. split; [exact E|]. eapply values_sub; [|exact HV']. intros w. cbn. set_solver.
Qed.

Lemma put_named_ok h l f n v x :
  Values h l f → name_map_ names !! n = Some v → put_named session f n x = Ok (v, put f v x).
Proof.
  intros HV Hv. unfold put_named, GetIdx. rewrite Hv. cbn [IsOK StatusOK enforce mbind res_bind]. rewrite Nat2Z.id.
  rewrite (put_at_ok h l); [done|done|]. pose proof (names_lt _ (ok_names _ _ (ro_graph _ _ _ _ HR)) _ _ Hv). lia.
Qed.
Lemma feed_values h feeds f l fs :
  FeedsOk h feeds → (∀ e, e ∈ fs → e ∈ feeds) → Values h l f →
  ∃ vs, let f' := set_values f vs (heap_ f) in
    foldM (fun f e => '(_, f) ← put_named session f (fst e) (share (snd e)); Ok f) f fs = Ok f' ∧
    Values h l f' ∧ ∀ n x v, (n, x) ∈ fs → name_map_ names !! n = Some v →
      ∃ y, all_values_ f' !! v = Some y ∧ value_ok h v y ∧ shared y = true.
Proof.
  intros HF. revert f l. induction fs as [|[n x] fs IH]; intros f l Hin HV; cbn [foldM].
  { exists (all_values_ f). split; [by destruct f|]. split; [by destruct HV|]. by intros ? ? ? ?%not_elem_of_nil. }
  destruct (fd_feeds _ _ HF n x) as (v & Hv & Hd & Hx); [apply Hin; by left|].
  cbn [fst snd]. rewrite (put_named_ok h l f n v) by done. cbn [mbind res_bind].
  destruct (IH (put f v (share x)) (v :: l)) as (vs & E & HV' & Hall); [intros; apply Hin; by right|by apply put_values|].
  exists vs. split; [exact E|]. split; [eapply values_sub; [|exact HV']; intros w Hw; by right|].
  intros n' x' v' [[= -> ->]|Hin']%elem_of_cons Hv'; [|eauto]. rewrite Hv in Hv'. injection Hv' as <-.
  apply (va_val _ _ _ HV'). by left.
Qed.

(** What a caller may pass for an output: nothing, or a place that is still
    empty for a value a node computes, or a value that is there already. *)
Definition FetchesOk (h : Heap) (output_names : list string) (fetches : list (MLValue T)) : Prop :=
  fetches = [] ∨ Forall2 (fun n x => ∃ v, name_map_ names !! n = Some v ∧
    (v ∈ all_outs names (g_topo g) ∧ x = empty_MLValue ∨ v ∈ defs0 names g ∧ value_ok h v x)) output_names fetches.

Lemma fetch_values h f output_names fetches :
  FetchesOk h output_names fetches → Values h (defs0 names g) f → fetches ≠ [] →
  ∃ vs o, let f' := set_output_indices (set_values f vs (heap_ f)) o in
    foldM (fun f e => '(i, f) ← put_named session f (fst e) (share (snd e)); Ok (set_output_indices f (output_indices_ f ++ [i])))
      f (zip output_names fetches) = Ok f' ∧ Values h (defs0 names g) f'.
Proof.
  intros [->|HF] HV _; [by exists (all_values_ f), (output_indices_ f); destruct output_names, f, HV|].
  revert f HV. induction HF as [|n x output_names fetches (v & Hv & Hx) HF IH]; intros f HV; simpl.
  { exists (all_values_ f), (output_indices_ f). split; [by destruct f|]. by destruct HV. }
  rewrite (put_named_ok h (defs0 names g) f n v) by done. cbn [mbind res_bind].
  assert (HV1 : Values h (defs0 names g) (put f v (share x))).
  { destruct Hx as [[Hv' ->]|[Hv' Hx]]; [apply put_empty; [done|by apply (ok_fresh _ _ (ro_graph _ _ _ _ HR))]|].
    eapply values_sub; [|by apply put_values]. intros w Hw. by right. }
  destruct (IH _ (values_set_outputs h _ _ (output_indices_ (put f v (share x)) ++ [v]) HV1)) as (vs & o & E & HV2).
  exists vs, o. split; [exact E|exact HV2].
Qed.

(** ** The layout of the arguments *)

Lemma SetupNodeArg_ok f arg :
  arg ∈ graph_args g → SetupNodeArg session f arg = Ok (set_node_values f (node_values_ f ++ [arg_index arg])).
Proof.
  intros Ha. unfold SetupNodeArg, ExecutionInv.arg_index. pose proof (ro_exists _ _ _ _ HR arg Ha) as He.
  case_bool_decide; [done|]. destruct (ok_known _ _ (ro_graph _ _ _ _ HR) arg Ha He) as [v Hv].
  unfold GetIdx. by rewrite Hv.
Qed.
Lemma setup_args_ok f args :
  (∀ arg, arg ∈ args → arg ∈ graph_args g) →
  foldM (SetupNodeArg session) f args = Ok (set_node_values f (node_values_ f ++ (arg_index <$> args))).
Proof.
  revert f. induction args as [|arg args IH]; intros f Hin; simpl; [rewrite app_nil_r; by destruct f|].
  rewrite SetupNodeArg_ok by (apply Hin; by left). cbn [mbind res_bind]. rewrite IH by (intros; apply Hin; by right).
  cbn [set_node_values node_values_]. by rewrite <- app_assoc.
Qed.

Record Laid (l : list (Node T)) f : Prop := {
  la_len : length (node_offsets_ f) = max_node_index session;
  la_args : ∀ node, node ∈ l → ∃ off, node_offsets_ f !! Z.to_nat (n_index node) = Some off ∧
    ∀ i arg, node_all_args node !! i = Some arg → node_values_ f !! (off + i)%nat = Some (arg_index arg);
}.

Lemma graph_node_arg node arg : node ∈ g_nodes g → arg ∈ node_all_args node → arg ∈ graph_args g.
Proof.
  intros Hn Ha. unfold graph_args. do 4 (apply elem_of_app; right). apply list_elem_of_bind. exists node. split; [exact Ha|].
  apply elem_of_app. by right.
Qed.

Lemma setup_node_ok l f node :
  node ∈ g_nodes g → (∀ n, n ∈ l → n ∈ g_nodes g ∧ n_index n ≠ n_index node) → Laid l f →
  ∃ nv no, let f' := set_node_values (set_node_offsets f no) nv in
    setup_node session f node = Ok f' ∧ Laid (l ++ [node]) f'.
Proof.
  intros Hn Hl [H1 H2]. pose proof (ro_range _ _ _ _ HR node Hn) as Hr. unfold setup_node.
  rewrite (proj2 (Z.ltb_lt _ _)) by lia. cbn [enforce mbind res_bind].
  rewrite setup_args_ok by (intros a Ha; apply (graph_node_arg node); [done|unfold node_all_args; set_solver]). cbn [mbind res_bind].
  rewrite setup_args_ok by (intros a Ha; apply (graph_node_arg node); [done|unfold node_all_args; set_solver]). cbn [mbind res_bind].
  rewrite setup_args_ok by (intros a Ha; apply (graph_node_arg node); [done|unfold node_all_args; set_solver]).
  cbn [set_node_values set_node_offsets node_values_ node_offsets_ all_values_ mem_patterns_ planner_ buffers_ output_indices_ heap_].
  eexists _, _. split; [done|]. rewrite <- !app_assoc, <- !fmap_app. change (n_inputs node ++ _) with (node_all_args node). split; simpl.
  { by rewrite length_insert. }
  intros n [Hn'| ->%list_elem_of_singleton]%elem_of_app.
  - destruct (Hl n Hn') as [Hng Hne]. destruct (H2 n Hn') as (off & Hoff & Hargs). exists off.
    pose proof (ro_range _ _ _ _ HR n Hng). rewrite list_lookup_insert_ne by lia. split; [done|].
    intros i arg Hi. apply lookup_app_l_Some. by apply Hargs.
  - exists (length (node_values_ f)). rewrite list_lookup_insert_eq by lia. split; [done|]. intros i arg Hi.
    rewrite lookup_app_r by lia. replace (_ - _)%nat with i by lia. by rewrite list_lookup_fmap, Hi.
Qed.

Lemma setup_nodes_ok f l l' :
  l ++ l' = g_nodes g → Laid l f →
  ∃ nv no, let f' := set_node_values (set_node_offsets f no) nv in
    foldM (setup_node session) f l' = Ok f' ∧ Laid (g_nodes g) f'.
Proof.
  revert f l. induction l' as [|node l' IH]; intros f l Hl HL; cbn [foldM].
  { rewrite app_nil_r in Hl. subst l. exists (node_values_ f), (node_offsets_ f). split; [by destruct f|]. by destruct HL. }
  pose proof (ro_index _ _ _ _ HR) as Hnd. rewrite <- Hl, fmap_app, fmap_cons in Hnd. apply NoDup_app in Hnd as (_ & Hd & _).
  destruct (setup_node_ok l f node) as (nv & no & -> & HL1); [rewrite <- Hl; set_solver| |done|].
  { intros n Hn. split; [rewrite <- Hl; set_solver|]. intros E. eapply (Hd (n_index n)); [by apply list_elem_of_fmap_2|]. rewrite E. by left. }
  cbn [mbind res_bind]. destruct (IH _ (l ++ [node]) ltac:(by rewrite <- app_assoc) HL1) as (nv' & no' & E & HL').
  exists nv', no'. split; [exact E|exact HL'].
Qed.

(** ** The frame *)

Abbreviation before0 := (defs0 names g ++ all_outs names (take 0 (g_topo g))).

Lemma not_owned_start F f r b : ¬ Owned session before0 F f r b.
Proof.
  intros (Hr & Ho & _). simpl in Hr. rewrite app_nil_r in Hr. by apply (ok_fresh _ _ (ro_graph _ _ _ _ HR) r).
Qed.

Lemma not_freed_start v : ¬ Freed session 0 0 v.
Proof. intros (j & s & i & _ & _ & _ & Hlt). lia. Qed.

Lemma frame_start feeds f :
  FeedsOk h0 feeds → Values h0 (defs0 names g) f → Laid (g_nodes g) f → heap_ f = h0 → planner_ f = None → buffers_ f = [] →
  FrameOk before0 (Freed session 0 0) f.
Proof.
  intros HF [V1 V2 V3] [L1 L2] Hh Hp Hb. pose proof run_plan as HS.
  assert (Hd : ∀ v, v ∈ before0 ↔ v ∈ defs0 names g) by (intros v; simpl; by rewrite app_nil_r).
  assert (Hno : ∀ v, v ∈ before0 → v ∉ all_outs names (g_topo g)).
  { intros v Hv Hout. by apply (ok_fresh _ _ (ro_graph _ _ _ _ HR) v Hout), Hd. }
  assert (Hval : ∀ v, v ∈ before0 → ∃ x t, all_values_ f !! v = Some x ∧ shared x = true ∧ data_ x = Some (TensorObject t) ∧
    tensor_at f v t ∧ shape_ t = out_shape v ∧ live h0 (p_data_ t) = true).
  { intros v Hv. destruct (V2 v (proj1 (Hd v) Hv)) as (x & Hx & (t & Ht & Hs & Hl) & Hsh). exists x, t. split_and!; [done..| |done|done].
    exists (shared x), (fence_ x). rewrite Hx. f_equal. destruct x. simpl in *. congruence. }
  split.
  - done.
  - intros node Hn. destruct (L2 node Hn) as (off & H1 & H2). exists off. rewrite L1. split; [done|].
    split; [by apply (ro_range _ _ _ _ HR)|done].
  - rewrite Hh. apply HF.
  - intros v Hv. unfold B. rewrite !(sp_own v) by (by apply Hd). split; [apply elem_of_app; left; by apply Hd|done].
  - intros v Hv _. unfold B. rewrite (sp_own v) by (by apply Hd). destruct (Hval v Hv) as (x & t & _ & _ & _ & Ht & Hs & Hl).
    exists t, t. by rewrite Hh.
  - intros v Hlt Hv. apply V3; [by rewrite <- Hd|done].
  - intros v Hv. by apply not_freed_start in Hv.
  - intros v x Hv Hout. by destruct (Hno v Hv).
  - intros v x Hv _ Hx. destruct (Hval v Hv) as (x' & t & Hx' & Hsh & Ht & _ & _ & Hl). rewrite Hx in Hx'. injection Hx' as <-.
    split; [done|]. intros t' b Ht' Hb'. rewrite Ht in Ht'. injection Ht' as <-. by eapply live_ptr_lt.
  - intros v t Hv Hout. by destruct (Hno v Hv).
  - intros r b w t HO. by apply not_owned_start in HO.
  - rewrite Hb. by intros loc p ?%not_elem_of_nil.
  - rewrite Hb. constructor.
  - rewrite Hh. intros b Hlt. lia.
  - rewrite Hh. split_and!; [done|done|auto|]. intros r b HO. by apply not_owned_start in HO.
  - intros v t Hv Hout. by destruct (Hno v Hv).
  - intros v t p Hv Hout. by destruct (Hno v Hv).
  - unfold traced. by rewrite Hp.
Qed.

Lemma frame_Init_ok feeds output_names fetches :
  FeedsOk h0 feeds → FetchesOk h0 output_names fetches →
  ∃ f, frame_Init session (mkFrame [] [] [] None None [] [] h0) feeds output_names fetches = Ok f ∧
    FrameOk before0 (Freed session 0 0) f ∧ heap_ f = h0 ∧ planner_ f = None ∧ buffers_ f = [] ∧ mem_patterns_ f = None.
Proof.
  intros HF HFe. unfold frame_Init.
  set (f0 := set_values _ _ _). assert (HV0 : Values h0 [] f0).
  { split; simpl; [apply length_replicate|by intros v ?%not_elem_of_nil|]. intros v _ Hlt. by apply lookup_replicate_2. }
  destruct (init_values h0 feeds f0 [] (initialized_tensors_ session) HF ltac:(done) HV0) as (vs1 & -> & HV1).
  rewrite app_nil_r in HV1. cbn [mbind res_bind].
  destruct (feed_values h0 feeds (set_values f0 vs1 (heap_ f0)) _ feeds HF ltac:(done) HV1) as (vs2 & -> & HV2 & Hall).
  cbn [mbind res_bind]. set (f2 := set_values _ vs2 _) in *.
  assert (HV3 : Values h0 (defs0 names g) f2).
  { destruct HV2 as [H1 H2 H3]. split; [exact H1| |exact H3]. intros v Hv.
    destruct (fd_all _ _ HF v Hv) as [(n & x & Hin & Hn)|[x Hin]]; [by eapply Hall|].
    apply H2. apply list_elem_of_fmap. by exists (v, x). }
  assert (Hfetch : ∃ vs o, let f3 := set_output_indices (set_values f2 vs (heap_ f2)) o in
    (if bool_decide (fetches = []) then Ok f2
     else _ ← enforce (length output_names =? length fetches)%nat;
          foldM (fun f e => '(i, f) ← put_named session f (fst e) (share (snd e)); Ok (set_output_indices f (output_indices_ f ++ [i])))
            f2 (zip output_names fetches)) = Ok f3 ∧ Values h0 (defs0 names g) f3).
  { case_bool_decide as Ef; [by exists (all_values_ f2), (output_indices_ f2)|].
    rewrite (proj2 (Nat.eqb_eq _ _)) by (by destruct HFe as [?|?%Forall2_length]). by apply fetch_values. }
  destruct Hfetch as (vs3 & o & -> & HV4). cbn [mbind res_bind]. set (f3 := set_output_indices _ o) in *.
  destruct (setup_nodes_ok f3 [] (g_nodes g)) as (nv & no & -> & HL); [done| |].
  { split; [simpl; apply length_replicate|by intros n ?%not_elem_of_nil]. }
  eexists. split; [done|]. split; [|done]. apply (frame_start feeds); [done| |exact HL|done..].
  destruct HV4 as [H1 H2 H3]. split; [exact H1|exact H2|exact H3].
Qed.

(** Memory for a pattern is new memory. *)
Lemma frame_buffer F f loc p h :
  FrameOk before0 F f →
  (p = Null ∧ h = heap_ f ∨ p = Ptr (next_buffer (heap_ f)) 0 ∧ next_buffer h = S (next_buffer (heap_ f)) ∧ freed h = freed (heap_ f)) →
  FrameOk before0 F (set_patterns f (mem_patterns_ f) (buffers_ f ++ [(loc, p)]) h).
Proof.
  intros HF Hp. pose proof (fo_old _ _ _ _ _ _ _ HF) as (Ho1 & Ho2 & Ho3 & _).
  assert (Hh : heap_le (heap_ f) h) by (destruct Hp as [[_ ->]|(_ & Hn & Hf)]; [apply heap_le_refl|split; [lia|done]]).
  assert (Hl : live h p = true).
  { destruct Hp as [[-> _]|(-> & Hn & Hf)]; [done|]. simpl. rewrite Hn, Hf, andb_true_iff, Nat.ltb_lt. split; [lia|].
    apply bool_decide_eq_true. intros Hin%(fo_heap _ _ _ _ _ _ _ HF). lia. }
  destruct HF as [H1 H2 H3 H4 H5 H6 H7 H8 H9 H10 H11 H12 H13 H14 H15 H16 H17 H18]. destruct Hh as [Hle Hfr].
  split; try done; simpl; rewrite ?Hfr.
  - intros b Hb%H3. lia.
  - intros v Hv HFv. destruct (H5 v Hv HFv) as (t & r & Ht & Hr & Ep & Hl' & Hs). exists t, r.
    split_and!; [done|done|done|by eapply live_mono|done].
  - intros loc' p' [Hin|Heq%list_elem_of_singleton]%elem_of_app.
    + destruct (H12 loc' p' Hin) as (Hl' & Hp' & _). split_and!; [by eapply live_mono|done|]. intros r b HO. by apply not_owned_start in HO.
    + injection Heq as -> ->. split_and!; [done| |intros r b HO; by apply not_owned_start in HO].
      destruct Hp as [[-> _]|(-> & _)]; [by left|right; eauto].
  - rewrite omap_app. apply NoDup_app. split_and!; [done| |destruct p; simpl; [constructor|apply NoDup_singleton]].
    intros b ([loc' p'] & Hin & Hb)%list_elem_of_omap Hb'. simpl in Hb. destruct (H12 loc' p' Hin) as (Hl' & _).
    destruct (live_ptr_lt _ _ _ Hl' Hb) as [Hlt _]. destruct Hp as [[-> _]|(-> & _)]; simpl in Hb'; [by apply not_elem_of_nil in Hb'|].
    apply list_elem_of_singleton in Hb'. lia.
  - intros b Hb. destruct (decide (b < next_buffer (heap_ f))%nat) as [Hlt|Hge].
    + destruct (H14 b ltac:(lia)) as [?|[[r HO]|(loc' & p' & Hin & Hb')]]; [by auto|by apply not_owned_start in HO|].
      right; right. exists loc', p'. rewrite elem_of_app. auto.
    + right; right. exists loc, p. rewrite elem_of_app, list_elem_of_singleton. split; [by right|].
      destruct Hp as [[_ ->]|(-> & Hn & _)]; [lia|]. simpl. f_equal. lia.
  - split_and!; [lia|done|done|]. intros r b HO. by apply not_owned_start in HO.
Qed.
Lemma frame_group F f grp : FrameOk before0 F f → FrameOk before0 F (set_patterns f grp (buffers_ f) (heap_ f)).
Proof. intros []. by split. Qed.

Lemma allocate_pattern_ok F f loc pat :
  FrameOk before0 F f → loc ∉ (buffers_ f).*1 →
  ∃ p h, let f' := set_patterns f (mem_patterns_ f) (buffers_ f ++ [(loc, p)]) h in
    allocate_pattern f (loc, pat) = Ok f' ∧ FrameOk before0 F f'.
Proof.
  intros HF Hloc. unfold allocate_pattern. cbv iota.
  rewrite (proj1 (not_true_iff_false (existsb (fun b => info_equiv b.1 loc) (buffers_ f)))).
  2: { intros ([loc' p] & Hin & Heq)%existsb_exists. simpl in Heq. apply info_equiv_iff in Heq as ->.
       apply Hloc. apply list_elem_of_fmap. exists (loc, p). split; [done|]. by apply list_elem_of_In. }
  cbn [negb enforce mbind res_bind]. destruct (0 <? PeakSize pat); eexists _, _; (split; [done|]); apply frame_buffer; auto.
Qed.
Lemma allocate_patterns_ok F f l :
  FrameOk before0 F f → NoDup ((buffers_ f).*1 ++ l.*1) →
  ∃ f', foldM allocate_pattern f l = Ok f' ∧ FrameOk before0 F f' ∧ planner_ f' = planner_ f.
Proof.
  revert f. induction l as [|[loc pat] l IH]; intros f HF Hnd; cbn [foldM]; [eauto|].
  rewrite fmap_cons in Hnd. pose proof Hnd as (_ & Hd & _)%NoDup_app.
  destruct (allocate_pattern_ok F f loc pat HF) as (p & h & -> & HF1).
  { intros Hin. apply (Hd loc Hin). by left. }
  cbn [mbind res_bind].
  destruct (IH (set_patterns f (mem_patterns_ f) (buffers_ f ++ [(loc, p)]) h)) as (f' & -> & HF' & Hpl).
  - done.
  - simpl. by rewrite fmap_app, <- app_assoc.
  - eauto.
Qed.
Lemma fst_zip_sublist {A A'} (l : list A) (k : list A') : (zip l k).*1 `sublist_of` l.
Proof. revert k. induction l as [|x l IH]; intros [|y k]; simpl; auto using sublist_nil_l, sublist_skip. Qed.

Lemma new_frame_ok feeds output_names fetches :
  FeedsOk h0 feeds → FetchesOk h0 output_names fetches →
  ∃ f, new_ExecutionFrame session h0 feeds output_names fetches = Ok f ∧ FrameOk before0 (Freed session 0 0) f ∧
    (is_Some (planner_ f) → is_Some (input_shapes feeds)).
Proof.
  intros HF HFe. unfold new_ExecutionFrame. destruct (frame_Init_ok feeds output_names fetches HF HFe) as (f & -> & HFr & Hh & Hp & Hb & Hm).
  cbn [mbind res_bind]. destruct (enable_mem_pattern_ session); [|exists f; rewrite Hp; split_and!; [done|done|by intros []]].
  destruct (input_shapes feeds) as [shapes|]; [|exists f; rewrite Hp; split_and!; [done|done|by intros []]].
  destruct (GetMemoryPatternGroup session shapes) as [grp|] eqn:Eg.
  - destruct (allocate_patterns_ok (Freed session 0 0) (set_patterns f (Some grp) (buffers_ f) (heap_ f)) (zip (locations grp) (patterns grp)))
      as (f' & -> & HF' & _).
    + by apply frame_group.
    + simpl. rewrite Hb. simpl. eapply sublist_NoDup; [exact (ro_cache _ _ _ _ HR _ _ Eg)|apply fst_zip_sublist].
    + eexists. split; [done|]. split; [done|]. eauto.
  - eexists. split; [done|]. split; [|eauto]. apply frame_planner; [done|]. unfold traced. simpl. exists []. split; [done|].
    split; [|constructor|]; [intros ? ?%not_elem_of_nil|intros ? ? ?%not_elem_of_nil]; done.
Qed.
End init.
