(* ===== verification/ExecutionProps.v ===== *)
(** A run of a planned graph: it finishes, it reads and writes live memory
    only, and hands out what the graph promises. *)
From S2P Require Import Prelude DataTypes TensorShape MemPattern AllocPlanner AllocPlannerInv AllocPlannerReuse AllocPlannerFree AllocPlannerSteps AllocPlannerProps SafePlan ExecutionFrame ExecutionInv ExecutionSteps ExecutionInit.

(** Values that give different results leave no duplicates. *)
Lemma omap_nodup {A A'} (k : A → option A') l :
  (∀ i j x y b, l !! i = Some x → l !! j = Some y → k x = Some b → k y = Some b → i = j) → NoDup (omap k l).
Proof.
  induction l as [|x l IH]; intros H; simpl; [constructor|].
  assert (Hl : NoDup (omap k l)).
  { apply IH. intros i j y z b Hi Hj Hy Hz. by assert (S i = S j) as [= ?] by (by eapply (H (S i) (S j))). }
  destruct (k x) as [b|] eqn:E; [|done]. constructor; [|done]. intros (y & (j & Hj)%list_elem_of_lookup & Hy)%list_elem_of_omap.
  by assert (0%nat = S j) by (by eapply (H 0%nat (S j))).
Qed.

Section run.
Context {T : Type} `{!TensorTypes T, !ValueTypes T}.
Context (CreateFence : OrtAllocatorInfo → option nat).
Context (session : SessionState T) (kernel : Z → list (option (MLValue T)) → Status * list (Z * TensorShape)).
Context (out_shape : nat → TensorShape) (bytes : nat → Z) (h0 : Heap).
Abbreviation names := (mlvalue_name_idx_map_ session).
Abbreviation g := (graph_viewer_ session).
Abbreviation plan := (p_seq_exec_plan_ session).
Abbreviation FrameOk := (FrameOk session out_shape bytes h0).
Abbreviation steps := (length (g_topo g)).
Implicit Types (f : ExecutionFrame T) (x : MLValue T).

(** The frame at the end of a run. *)
Abbreviation DoneOk := (FrameOk (defined names g) (Freed session steps 0)).

(** ** Fetching *)

Section done.
Context (HR : RunOk session kernel out_shape bytes).

Lemma output_held v : v ∈ all_ids names (g_outputs g) → v ∈ defined names g ∧ ¬ Freed session steps 0 (B session v).
Proof.
  intros Hv. pose proof (ro_graph _ _ _ _ HR) as Hg.
  assert (Hd : v ∈ defined names g) by (apply elem_of_app; by apply (ok_outputs _ _ Hg)). split; [done|].
  intros HF. destruct (freed_dead session (run_plan _ _ _ _ HR) steps (B session v) v HF Hd eq_refl) as [Hp _].
  unfold perm in Hp. pose proof (cnt_elem v _ Hv). case_decide; lia.
Qed.
Lemma output_own v : v ∈ all_outs names (g_topo g) → v ∈ all_ids names (g_outputs g) → B session v = v.
Proof.
  intros (node & (arg & Ha & He & Ev)%elem_of_ids & (k & Hk)%list_elem_of_lookup)%list_elem_of_bind Hv.
  destruct (sp_output (SafePlan := run_plan _ _ _ _ HR) k node arg v Hk Ha He Ev) as (p & Hp & _ & Hkind & _).
  unfold B, plan_buf. rewrite Hp, decide_False by (rewrite Hkind; done). done.
Qed.
Lemma defs0_own v : v ∈ defined names g → v ∉ all_outs names (g_topo g) → B session v = v.
Proof. intros [Hv|?]%elem_of_app ?; [|done]. by apply (sp_own (SafePlan := run_plan _ _ _ _ HR)). Qed.

(** The values of the frame with those of [K] shared. *)
Definition shared_values (K : list nat) f : list (MLValue T) :=
  imap (fun v x => if decide (v ∈ K) then share x else x) (all_values_ f).
Lemma shared_lookup K f v x :
  all_values_ f !! v = Some x → shared_values K f !! v = Some (if decide (v ∈ K) then share x else x).
Proof. intros Hx. unfold shared_values. by rewrite list_lookup_imap, Hx. Qed.
Lemma shared_nil f : shared_values [] f = all_values_ f.
Proof.
  apply list_eq. intros v. unfold shared_values. rewrite list_lookup_imap. destruct (all_values_ f !! v); [|done]. cbn.
  destruct (decide (v ∈ [])) as [Hv|]; [by apply not_elem_of_nil in Hv|done].
Qed.
Lemma shared_put K f v x :
  all_values_ f !! v = Some x →
  put (set_values f (shared_values K f) (heap_ f)) v (share (if decide (v ∈ K) then share x else x)) =
    set_values f (shared_values (K ++ [v]) f) (heap_ f).
Proof.
  intros Hx. unfold put, set_values. simpl. f_equal. apply list_eq. intros w. destruct (decide (w = v)) as [->|Hne].
  - rewrite list_lookup_insert_eq by (unfold shared_values; rewrite length_imap; by eapply lookup_lt_Some).
    rewrite (shared_lookup _ _ _ _ Hx), (decide_True (P := v ∈ K ++ [v])) by set_solver.
    f_equal. unfold share, IsAllocated. by destruct (decide (v ∈ K)).
  - rewrite list_lookup_insert_ne by done. unfold shared_values. rewrite !list_lookup_imap. destruct (all_values_ f !! w); [|done]. simpl.
    f_equal. destruct (decide (w ∈ K)), (decide (w ∈ K ++ [v])); [done|set_solver|set_solver|done].
Qed.

(** The value of a name in the frame. *)
Definition named f (n : string) x : Prop :=
  ∃ v y, name_map_ names !! n = Some v ∧ v ∈ all_ids names (g_outputs g) ∧ all_values_ f !! v = Some y ∧ data_ x = data_ y.

Lemma GetIdx_known n v : name_map_ names !! n = Some v → GetIdx names n = (StatusOK, Z.of_nat v).
Proof. intros Hv. unfold GetIdx. by rewrite Hv. Qed.
Lemma GetMLValue_ok f v x : all_values_ f !! v = Some x → GetMLValue f (Z.of_nat v) = Ok x.
Proof.
  intros Hx. unfold GetMLValue. rewrite (index_in_range _ _ _ Hx). cbn [enforce mbind res_bind]. by apply value_at_lookup.
Qed.
Lemma FetchOutput_ok f output_names fetches :
  DoneOk f → (fetches = [] ∨ length output_names = length fetches) →
  (∀ n, n ∈ output_names → ∃ v, name_map_ names !! n = Some v ∧ v ∈ all_ids names (g_outputs g)) →
  ∃ out K, FetchOutput session f output_names fetches = Ok (StatusOK, out, set_values f (shared_values K f) (heap_ f)) ∧
    Forall2 (named f) output_names out ∧ (∀ v, v ∈ K ↔ ∃ n, n ∈ output_names ∧ name_map_ names !! n = Some v).
Proof.
  intros HF Hlen Hn. unfold FetchOutput.
  assert ((if bool_decide (fetches = []) then Ok tt else enforce (length output_names =? length fetches)%nat) = Ok tt) as ->.
  { case_bool_decide; [done|]. by rewrite (proj2 (Nat.eqb_eq _ _)) by (by destruct Hlen). }
  clear Hlen. cbn [mbind res_bind].
  assert (Hgen : ∀ acc K, ∃ out K', foldM (fun acc oname =>
      let '(s, out, f) := acc in
      if negb (IsOK s) then Ok (s, out, f)
      else let '(s, i) := GetIdx names oname in
           if negb (IsOK s) then Ok (s, out, f) else v ← GetMLValue f i; Ok (StatusOK, out ++ [v], put f (Z.to_nat i) (share v)))
      (StatusOK, acc, set_values f (shared_values K f) (heap_ f)) output_names =
      Ok (StatusOK, acc ++ out, set_values f (shared_values K' f) (heap_ f)) ∧ Forall2 (named f) output_names out ∧
      (∀ v, v ∈ K' ↔ v ∈ K ∨ ∃ n, n ∈ output_names ∧ name_map_ names !! n = Some v)).
  { induction output_names as [|n output_names IH]; intros acc K; cbn [foldM].
    { exists [], K. rewrite app_nil_r. split_and!; [done|constructor|]. intros v. split; [by left|]. intros [?|(n & ?%not_elem_of_nil & _)]; done. }
    destruct (Hn n ltac:(by left)) as (v & Hv & Hvo). cbn [IsOK StatusOK negb]. rewrite (GetIdx_known n v Hv). cbn [IsOK StatusOK negb].
    destruct (output_held v Hvo) as [Hd Hnf]. destruct (fo_val _ _ _ _ _ _ _ HF v Hd Hnf) as (t & _ & (sh & fe & Hx) & _).
    rewrite (GetMLValue_ok (set_values f (shared_values K f) (heap_ f)) v _ (shared_lookup K f v _ Hx)). cbn [mbind res_bind].
    rewrite Nat2Z.id, (shared_put K f v _ Hx).
    destruct (IH ltac:(intros; apply Hn; by right) (acc ++ [if decide (v ∈ K) then share (mkMLValue (Some (TensorObject t)) sh fe) else mkMLValue (Some (TensorObject t)) sh fe]) (K ++ [v]))
      as (out & K' & -> & H1 & H2).
    eexists (_ :: out), K'. rewrite <- app_assoc. split; [done|]. split.
    - constructor; [|done]. exists v, (mkMLValue (Some (TensorObject t)) sh fe). split_and!; [done..|]. by destruct (decide (v ∈ K)).
    - intros w. rewrite H2, elem_of_app, list_elem_of_singleton. split.
      + intros [[?| ->]|(n' & ? & ?)]; [by left|right; exists n; split; [by left|done]|right; exists n'; split; [by right|done]].
      + intros [?|(n' & [->|?]%elem_of_cons & Hw)]; [by auto|rewrite Hv in Hw; injection Hw as <-; auto|eauto]. }
  destruct (Hgen [] []) as (out & K & E & H1 & H2). exists out, K. split_and!; [|done|].
  - change ([] ++ out) with out in E. rewrite <- E. rewrite shared_nil. by destruct f.
  - intros v. rewrite H2. split; [intros [?%not_elem_of_nil|?]; done|by right].
Qed.

(** ** The end of the frame *)

Lemma free_all h ps :
  (∀ p, p ∈ ps → p = Null ∨ ∃ b, p = Ptr b 0 ∧ live h p = true) → NoDup (omap base ps) →
  ∃ h', foldM heap_Free h ps = Ok h' ∧ next_buffer h' = next_buffer h ∧ ∀ b, b ∈ freed h' ↔ b ∈ freed h ∨ b ∈ omap base ps.
Proof.
  revert h. induction ps as [|p ps IH]; intros h Hp Hnd; cbn [foldM].
  { exists h. split_and!; [done|done|]. intros b. split; [by left|]. intros [?|?%not_elem_of_nil]; done. }
  assert (Hps : ∀ p', p' ∈ ps → p' = Null ∨ ∃ b, p' = Ptr b 0 ∧ live h p' = true) by (intros; apply Hp; by right).
  destruct (Hp p ltac:(by left)) as [->|(b & -> & Hl)]; cbn [heap_Free]; [by apply IH|]. rewrite Hl. cbn [Z.eqb andb mbind res_bind].
  simpl in Hnd. apply NoDup_cons in Hnd as [Hb Hnd].
  destruct (IH (mkHeap (next_buffer h) ({[b]} ∪ freed h))) as (h' & -> & Hn & Hf); [|done|].
  { intros p' Hp'. destruct (Hps p' Hp') as [?|(b' & -> & Hl')]; [by left|]. right. exists b'. split; [done|].
    apply live_free; [done|]. simpl. intros [= ->]. apply Hb. apply list_elem_of_omap. by exists (Ptr b 0). }
  exists h'. split_and!; [done|done|]. intros b'. rewrite Hf. simpl. rewrite elem_of_union, elem_of_singleton, elem_of_cons. tauto.
Qed.

(** What a value gives back when it goes. *)
Definition owned_ptr x : option Pointer :=
  match data_ x with
  | Some (TensorObject t) => if owns_buffer t && negb (shared x) then Some (p_data_ t) else None
  | _ => None
  end.
Lemma drop_owned h x : drop_value h x = match owned_ptr x with Some p => heap_Free h p | None => Ok h end.
Proof. unfold drop_value, owned_ptr. destruct (data_ x) as [[t|ty]|]; [|done..]. by destruct (owns_buffer t && negb (shared x)). Qed.
Lemma drop_values h vs : foldM drop_value h vs = foldM heap_Free h (omap owned_ptr vs).
Proof.
  revert h. induction vs as [|x vs IH]; intros h; [done|]. cbn [foldM omap list_omap]. rewrite drop_owned.
  destruct (owned_ptr x) as [p|]; [|apply IH]. cbn [foldM]. destruct (heap_Free h p); cbn [mbind res_bind]; [apply IH|done|done].
Qed.
Lemma omap_snd (bs : list (OrtAllocatorInfo * Pointer)) : omap base bs.*2 = omap (fun e => base (snd e)) bs.
Proof. induction bs as [|e bs IH]; [done|]. simpl. destruct (base e.2); [f_equal; apply IH|apply IH]. Qed.
Lemma free_buffers h (bs : list (OrtAllocatorInfo * Pointer)) :
  foldM (fun h b => heap_Free h (snd b)) h bs = foldM heap_Free h bs.*2.
Proof. revert h. induction bs as [|e bs IH]; intros h; simpl; [done|]. destruct (heap_Free h e.2); simpl; auto. Qed.

Section destroy.
Context (f : ExecutionFrame T) (K : list nat).
Hypothesis HF : DoneOk f.
Hypothesis HK : ∀ v, v ∈ K → v ∈ all_ids names (g_outputs g).
Abbreviation f' := (set_values f (shared_values K f) (heap_ f)).
Abbreviation Owned := (Owned session (defined names g) (Freed session steps 0) f).

Lemma value_shared v x : shared_values K f !! v = Some x → ∃ y, all_values_ f !! v = Some y ∧ data_ x = data_ y ∧
  (v ∉ K → x = y) ∧ (v ∈ K → is_Some (data_ y) → shared x = true).
Proof.
  unfold shared_values. rewrite list_lookup_imap. intros (y & Hy & ->)%fmap_Some. exists y. split; [done|].
  destruct (decide (v ∈ K)); split_and!; try done. intros _ Hd. simpl. unfold IsAllocated. by apply bool_decide_eq_true.
Qed.

(** The values that give memory back are the roots that were not fetched. *)
Lemma owned_value v x p :
  shared_values K f !! v = Some x → owned_ptr x = Some p → v ∉ K ∧ (p = Null ∨ ∃ b, p = Ptr b 0 ∧ Owned v b).
Proof.
  intros Hx Hp. destruct (value_shared v x Hx) as (y & Hy & Hd & HnK & HyK). unfold owned_ptr in Hp.
  destruct (data_ x) as [[t|]|] eqn:Ed; [|done..]. destruct (owns_buffer t && negb (shared x)) eqn:Eo; [|done]. injection Hp as <-.
  apply andb_true_iff in Eo as [Eo Es%negb_true_iff]. assert (Hv : v ∉ K) by (intros Hv; rewrite HyK in Es by (rewrite <- ?Hd; eauto); done).
  split; [done|]. rewrite (HnK Hv) in *. clear HnK HyK.
  assert (Hlt : (v < MaxIdx names + 1)%nat) by (rewrite <- (fo_len _ _ _ _ _ _ _ HF); by eapply lookup_lt_Some).
  assert (HD : v ∈ defined names g).
  { destruct (decide (v ∈ defined names g)) as [|Hn]; [done|]. pose proof (fo_new _ _ _ _ _ _ _ HF v Hlt Hn) as E. rewrite Hy in E.
    injection E as ->. done. }
  assert (Hout : v ∈ all_outs names (g_topo g)).
  { destruct (decide (v ∈ all_outs names (g_topo g))) as [|Hn]; [done|]. destruct (fo_ext _ _ _ _ _ _ _ HF v y HD Hn Hy). congruence. }
  assert (Ht : tensor_at f v t) by (exists (shared y), (fence_ y); rewrite Hy; destruct y; simpl in *; congruence).
  destruct (fo_root _ _ _ _ _ _ _ HF v t HD Hout Ht Eo) as [HB [?|[b Hb]]]; [by left|]. right. exists b. split; [done|].
  split_and!; [done|done|done| |exists t; rewrite Hb; done]. intros HFv. destruct (fo_gone _ _ _ _ _ _ _ HF v HFv) as [_ E].
  rewrite Hy in E. injection E as ->. done.
Qed.
Lemma value_owned v b : Owned v b → v ∉ K → ∃ x, shared_values K f !! v = Some x ∧ owned_ptr x = Some (Ptr b 0).
Proof.
  intros (HD & Hout & HB & HFv & t & Ht & Hown & Hb) HvK. pose proof Ht as (sh & fe & Hx). rewrite <- HB in HFv.
  pose proof (shared_lookup K f v _ Hx) as Hs. rewrite decide_False in Hs by done. eexists. split; [exact Hs|].
  unfold owned_ptr. simpl. pose proof (fo_shared _ _ _ _ _ _ _ HF v _ HD Hout Hx) as Hsh. simpl in Hsh. subst sh. rewrite Hown. simpl. f_equal.
  destruct (fo_root _ _ _ _ _ _ _ HF v t HD Hout Ht Hown) as [_ [E|[b' E]]]; rewrite E in *; [done|]. by injection Hb as ->.
Qed.
Lemma owned_inj v w b : Owned v b → Owned w b → v = w.
Proof.
  intros HO (HD & Hout & HB & HFw & t & Ht & _ & Hb). destruct (decide (v = w)) as [|Hne]; [done|].
  destruct (fo_own _ _ _ _ _ _ _ HF v b w t HO HD); [by rewrite HB|by rewrite HB|done|done].
Qed.
Lemma owned_is_live v b : Owned v b → live (heap_ f) (Ptr b 0) = true.
Proof.
  intros (HD & Hout & HB & HFw & t & Ht & _ & Hb). destruct (fo_val _ _ _ _ _ _ _ HF v HD) as (t' & _ & Ht' & _ & _ & Hl & _); [by rewrite HB|].
  rewrite (tensor_at_inj _ _ _ _ Ht Ht') in Hb. rewrite <- Hl. by apply live_base.
Qed.

Lemma destroy_ok :
  ∃ h, destroy_frame f' = Ok h ∧ next_buffer h = next_buffer (heap_ f) ∧
    ∀ b, b ∈ freed h ↔ b ∈ freed (heap_ f) ∨ (∃ loc p, (loc, p) ∈ buffers_ f ∧ base p = Some b) ∨ ∃ v, v ∉ K ∧ Owned v b.
Proof.
  unfold destroy_frame. cbn [set_values heap_ buffers_ all_values_]. rewrite free_buffers.
  assert (Hval : ∀ p, p ∈ omap owned_ptr (shared_values K f) → p = Null ∨ ∃ b v, p = Ptr b 0 ∧ Owned v b ∧ v ∉ K).
  { intros p (x & (v & Hv)%list_elem_of_lookup & Hp)%list_elem_of_omap. destruct (owned_value v x p Hv Hp) as [? [?|(b & -> & HO)]]; [by left|eauto 10]. }
  destruct (free_all (heap_ f) ((buffers_ f).*2 ++ omap owned_ptr (shared_values K f))) as (h & E & Hn & Hf).
  - intros p [([loc p'] & -> & Hin)%list_elem_of_fmap|Hin]%elem_of_app.
    + destruct (fo_bufs _ _ _ _ _ _ _ HF loc p' Hin) as (Hl & [->|(b & -> & _)] & _); [by left|eauto].
    + destruct (Hval p Hin) as [?|(b & v & -> & HO & _)]; [by left|]. right. exists b. split; [done|]. by eapply owned_is_live.
  - rewrite omap_app. apply NoDup_app. split_and!.
    + rewrite omap_snd. exact (fo_bufs_nodup _ _ _ _ _ _ _ HF).
    + intros b (p & ([loc p'] & -> & Hin)%list_elem_of_fmap & Hb)%list_elem_of_omap (p2 & Hp2 & Hb2)%list_elem_of_omap.
      destruct (Hval p2 Hp2) as [->|(b' & v & -> & HO & _)]; [done|]. injection Hb2 as ->.
      destruct (fo_bufs _ _ _ _ _ _ _ HF loc p' Hin) as (_ & _ & Hne). by destruct (Hne v b HO).
    + assert (Hbase : omap base (omap owned_ptr (shared_values K f)) = omap (fun x => owned_ptr x ≫= base) (shared_values K f)).
      { clear. induction (shared_values K f) as [|x l IH]; simpl; [done|]. destruct (owned_ptr x) as [p|]; simpl; [|exact IH].
        destruct (base p); [f_equal; exact IH|exact IH]. }
      rewrite Hbase. apply omap_nodup. intros i j x y b Hi Hj (p & Hp & Hb)%bind_Some (p' & Hp' & Hb')%bind_Some.
      destruct (owned_value i x p Hi Hp) as [_ [->|(b1 & -> & H1)]]; [done|]. destruct (owned_value j y p' Hj Hp') as [_ [->|(b2 & -> & H2)]]; [done|].
      injection Hb as ->. injection Hb' as ->. by apply (owned_inj i j b).
  - rewrite foldM_app in E. apply bind_Ok in E as (h1 & -> & E). cbn [mbind res_bind]. rewrite drop_values. exists h. split_and!; [done|done|].
    intros b. rewrite Hf, omap_app, elem_of_app, !list_elem_of_omap. split.
    + intros [?|[(p & ([loc p'] & -> & Hin)%list_elem_of_fmap & Hb)|(p & Hp & Hb)]]; [by left|right; left; eauto|].
      right; right. destruct (Hval p Hp) as [->|(b' & v & -> & HO & HvK)]; [done|]. injection Hb as ->. eauto.
    + intros [?|[(loc & p & Hin & Hb)|(v & HvK & HO)]]; [by left|right; left; exists p; split; [apply list_elem_of_fmap; by exists (loc, p)|done]|].
      right; right. exists (Ptr b 0). split; [|done]. destruct (value_owned v b HO HvK) as (x & Hx & Hp). apply list_elem_of_omap. exists x.
      split; [by eapply list_elem_of_lookup_2|done].
Qed.
End destroy.

(** ** The run *)

(** A value that the caller gets for the name of a graph output: a live tensor
    with the shape of this run that owns its memory if a node computed it. *)
Definition fetched (h : Heap) (name : string) x : Prop :=
  ∃ v t, name_map_ names !! name = Some v ∧ data_ x = Some (TensorObject t) ∧ shape_ t = out_shape v ∧
    live h (p_data_ t) = true ∧ (v ∈ all_outs names (g_topo g) → owns_buffer t = true).
(** The memory that the fetched values hold. *)
Definition held (out : list (MLValue T)) (b : nat) : Prop :=
  ∃ x t, x ∈ out ∧ data_ x = Some (TensorObject t) ∧ base (p_data_ t) = Some b.

Section after.
Context (f : ExecutionFrame T) (K : list nat) (h : Heap) (output_names : list string) (out : list (MLValue T)).
Hypothesis HF : DoneOk f.
Hypothesis HK : ∀ v, v ∈ K ↔ ∃ n, n ∈ output_names ∧ name_map_ names !! n = Some v.
Hypothesis Hout : Forall2 (named f) output_names out.
Hypothesis Hn : next_buffer h = next_buffer (heap_ f).
Hypothesis Hf : ∀ b, b ∈ freed h ↔ b ∈ freed (heap_ f) ∨ (∃ loc p, (loc, p) ∈ buffers_ f ∧ base p = Some b) ∨
  ∃ v, v ∉ K ∧ Owned session (defined names g) (Freed session steps 0) f v b.

Lemma named_fetched n x : n ∈ output_names → named f n x → fetched h n x.
Proof.
  intros Hin (v & y & Hv & Hvo & Hy & Hd). destruct (output_held v Hvo) as [HD Hnf].
  destruct (fo_val _ _ _ _ _ _ _ HF v HD Hnf) as (t & _ & Ht & _ & _ & Hl & Hs). pose proof Ht as (sh & fe & Hx).
  rewrite Hy in Hx. injection Hx as ->. exists v, t. split_and!; [done|done|done| |by intros ?; eapply (fo_fetch _ _ _ _ _ _ _ HF v)].
  assert (HvK : v ∈ K) by (apply HK; eauto). apply (live_drop (heap_ f)); [done|done|].
  intros b Hb [?|[(loc & p & Hp & Hpb)|(w & HwK & HO)]]%Hf; [done|exfalso..].
  - destruct (fo_bufs _ _ _ _ _ _ _ HF loc p Hp) as (_ & [->|(b' & -> & Hge)] & Hno); [done|]. injection Hpb as ->.
    destruct (decide (v ∈ all_outs names (g_topo g))) as [Hvout|Hvout].
    + apply (Hno v b); [|done]. pose proof (output_own v Hvout Hvo) as HB. rewrite HB in Hnf. split_and!; [done..|].
      exists t. split_and!; [done|by eapply (fo_fetch _ _ _ _ _ _ _ HF v)|done].
    + destruct (fo_ext _ _ _ _ _ _ _ HF v _ HD Hvout Hy) as [_ Hlt]. specialize (Hlt t b eq_refl Hb). lia.
  - destruct (decide (B session v = w)) as [HBw|HBw]; [|by destruct (fo_own _ _ _ _ _ _ _ HF w b v t HO HD Hnf HBw Ht)].
    apply HwK. rewrite <- HBw. destruct (decide (v ∈ all_outs names (g_topo g))) as [Hvout|Hvout];
      [by rewrite (output_own v)|by rewrite (defs0_own v)].
Qed.
Lemma outs_fetched : Forall2 (fetched h) output_names out.
Proof.
  apply Forall2_same_length_lookup. split; [by eapply Forall2_length|]. intros i n x Hi Hx.
  apply named_fetched; [by eapply list_elem_of_lookup_2|]. by eapply Forall2_lookup_lr.
Qed.

Lemma memory_exact b :
  b ∈ freed h ↔ b ∈ freed h0 ∨ (next_buffer h0 ≤ b < next_buffer h)%nat ∧ ¬ held out b.
Proof.
  pose proof (fo_old _ _ _ _ _ _ _ HF) as (Ho1 & Ho2 & Ho3 & Ho4). rewrite Hn. split.
  - intros Hb. assert (Hheld : ¬ held out b).
    { intros (x & t & (i & Hi)%list_elem_of_lookup & Hd & Hbase). destruct (Forall2_lookup_r _ _ _ _ _ outs_fetched Hi) as (n & _ & v & t' & _ & Hd' & _ & Hl & _).
      rewrite Hd in Hd'. injection Hd' as <-. by destruct (live_ptr_lt _ _ _ Hl Hbase). }
    apply Hf in Hb as [Hb|[(loc & p & Hp & Hpb)|(v & _ & HO)]].
    + pose proof (fo_heap _ _ _ _ _ _ _ HF b Hb). destruct (Ho3 b Hb); auto.
    + right. split; [|done]. destruct (fo_bufs _ _ _ _ _ _ _ HF loc p Hp) as (Hl & [->|(b' & -> & Hge)] & _); [done|].
      injection Hpb as ->. by destruct (live_ptr_lt _ _ _ Hl eq_refl).
    + right. split; [|done]. split; [by eapply Ho4|by eapply owned_live].
  - intros [Hb|[Hb Hh]]; [apply Hf; left; by apply Ho2|]. apply Hf. destruct (fo_account _ _ _ _ _ _ _ HF b Hb) as [?|[[r HO]|?]]; [by auto| |by auto].
    right; right. exists r. split; [|done]. intros (n & (i & Hi)%list_elem_of_lookup & Hv)%HK. apply Hh.
    destruct (Forall2_lookup_l _ _ _ _ _ Hout Hi) as (x & Hx & v & y & Hv' & _ & Hy & Hd). rewrite Hv in Hv'. injection Hv' as <-.
    destruct HO as (_ & _ & _ & _ & t & (sh & fe & Ht) & _ & Hbase). rewrite Hy in Ht. injection Ht as ->.
    exists x, t. split_and!; [by eapply list_elem_of_lookup_2|done|done].
Qed.
End after.

(** The patterns of the run. *)
Lemma patterns_ok f shapes grp :
  traced session bytes (defined names g) f → frame_GeneratePatterns f = (StatusOK, Some grp) →
  RunOk (UpdateMemoryPatternGroupCache session shapes grp) kernel out_shape bytes.
Proof.
  intros Ht Hp. unfold UpdateMemoryPatternGroupCache. destruct (mem_pattern_cache_ session !! _) eqn:Ec; [done|].
  assert (Hnd : NoDup (locations grp)).
  { unfold frame_GeneratePatterns, traced in *. destruct (planner_ f) as [p|]; [|done].
    destruct Ht as (ops & Hr & HT). injection Hp as <-. simpl.
    destruct (trace_total session (ro_graph _ _ _ _ HR) (run_plan _ _ _ _ HR) out_shape bytes (ro_outputs _ _ _ _ HR) (ro_bytes _ _ _ _ HR) (ro_sum _ _ _ _ HR) _ _ HT) as (p' & Hp' & Hnd).
    rewrite Hr in Hp'. by injection Hp' as ->. }
  destruct HR as [R1 R2 R3 R4 R5 R6 R7 R8 R9 R10 R11].
  split; [exact R1|exact R2|exact R3|exact R4|exact R5|exact R6|exact R7|exact R8|exact R9|exact R10|].
  simpl. intros key grp'. destruct (decide (key = CalculateMemoryPatternsKey shapes)) as [->|Hne].
  - rewrite lookup_insert_eq. by intros [= <-].
  - rewrite lookup_insert_ne by done. apply R11.
Qed.

Lemma Execute_ok terminate feeds output_names fetches :
  FeedsOk session out_shape h0 feeds → FetchesOk session out_shape h0 output_names fetches → (∀ k, terminate k = false) →
  (∀ n, n ∈ output_names → ∃ v, name_map_ names !! n = Some v ∧ v ∈ all_ids names (g_outputs g)) →
  ∃ out session' h f, Execute CreateFence session kernel terminate h0 feeds output_names fetches = Ok (StatusOK, out, session', h) ∧
    DoneOk f ∧ Forall2 (named f) output_names out ∧ RunOk session' kernel out_shape bytes ∧
    Forall2 (fetched h) output_names out ∧ (next_buffer h0 ≤ next_buffer h)%nat ∧
    ∀ b, b ∈ freed h ↔ b ∈ freed h0 ∨ (next_buffer h0 ≤ b < next_buffer h)%nat ∧ ¬ held out b.
Proof.
  intros HFd HFe Hterm Hn. unfold Execute.
  destruct (new_frame_ok session kernel out_shape bytes h0 HR feeds output_names fetches HFd HFe) as (f0 & -> & HF0 & _). cbn [mbind res_bind].
  destruct (execute_steps_ok CreateFence session (ro_graph _ _ _ _ HR) (run_plan _ _ _ _ HR) out_shape bytes h0 (ro_outputs _ _ _ _ HR)
    (ro_bytes _ _ _ _ HR) (ro_sum _ _ _ _ HR) (ro_exists _ _ _ _ HR) (ro_nodes _ _ _ _ HR) kernel (ro_kernel _ _ _ _ HR)
    (ro_index _ _ _ _ HR) terminate Hterm (execution_plan plan) 0 f0) as (f1 & E1 & HF1); [done|exact HF0|].
  unfold indexed. change (imap pair (execution_plan (ExecutionFrame.plan session))) with (imap (fun i s => ((0 + i)%nat, s)) (execution_plan plan)).
  rewrite E1. cbn [mbind res_bind IsOK StatusOK negb].
  assert (Hlen : (0 + length (execution_plan plan))%nat = steps).
  { pose proof (sp_steps (SafePlan := run_plan _ _ _ _ HR)) as Hs. apply (f_equal length) in Hs. by rewrite !length_fmap in Hs. }
  rewrite Hlen, firstn_all in HF1. fold (defined names g) in HF1.
  destruct (FetchOutput_ok f1 output_names fetches HF1 ltac:(by destruct HFe as [?|?%Forall2_length]; auto) Hn) as (out & K & -> & Hout & HK).
  cbn [mbind res_bind IsOK StatusOK negb].
  destruct (destroy_ok f1 K HF1) as (h & Ed & Hnx & Hfr).
  assert (Hfin : ∀ session', RunOk session' kernel out_shape bytes →
    ∃ out' s' h' f', (h ← destroy_frame (set_values f1 (shared_values K f1) (heap_ f1)); Ok (StatusOK, out, session', h)) = Ok (StatusOK, out', s', h') ∧
    DoneOk f' ∧ Forall2 (named f') output_names out' ∧ RunOk s' kernel out_shape bytes ∧
    Forall2 (fetched h') output_names out' ∧ (next_buffer h0 ≤ next_buffer h')%nat ∧
    ∀ b, b ∈ freed h' ↔ b ∈ freed h0 ∨ (next_buffer h0 ≤ b < next_buffer h')%nat ∧ ¬ held out' b).
  { intros session' HR'. exists out, session', h, f1. rewrite Ed. split_and!; [done..|by eapply outs_fetched| |by eapply memory_exact].
    rewrite Hnx. apply (fo_old _ _ _ _ _ _ _ HF1). }
  cbn [set_values planner_]. destruct (planner_ f1) as [pl|] eqn:Epl; [|by apply Hfin].
  destruct (input_shapes feeds) as [shapes|]; [|by apply Hfin].
  unfold frame_GeneratePatterns at 1. cbn [set_values planner_]. rewrite Epl. cbn [GeneratePatterns mbind res_bind StatusOK]. apply Hfin.
  apply (patterns_ok f1); [apply HF1|]. unfold frame_GeneratePatterns. by rewrite Epl.
Qed.
End done.

(** C4. A run of a well-formed graph with the plan of [CreatePlan]: if the feeds
    and initializers are live tensors and the kernels ask for their outputs in
    the shapes of the run, then [Execute] returns OK. No access touches released
    memory, nothing is given back twice, no lookup fails and tracing does not
    either. Each fetched value is a live tensor of the right shape that owns its
    memory if a node computed it. The buffers given back are exactly those the
    run took and no fetched value holds: nothing leaks and nothing of the caller
    is released. The session with its updated cache is ready for the next run. *)
Theorem executor_safe terminate feeds output_names fetches :
  RunOk session kernel out_shape bytes → FeedsOk session out_shape h0 feeds →
  FetchesOk session out_shape h0 output_names fetches → (∀ k, terminate k = false) →
  (∀ n, n ∈ output_names → ∃ v, name_map_ names !! n = Some v ∧ v ∈ all_ids names (g_outputs g)) →
  ∃ out session' h, Execute CreateFence session kernel terminate h0 feeds output_names fetches = Ok (StatusOK, out, session', h) ∧
    Forall2 (fetched h) output_names out ∧ RunOk session' kernel out_shape bytes ∧ (next_buffer h0 ≤ next_buffer h)%nat ∧
    ∀ b, b ∈ freed h ↔ b ∈ freed h0 ∨ (next_buffer h0 ≤ b < next_buffer h)%nat ∧ ¬ held out b.
Proof.
  intros HR HFd HFe Ht Hn. destruct (Execute_ok HR terminate feeds output_names fetches HFd HFe Ht Hn)
    as (out & session' & h & f & E & _ & _ & H1 & H2 & H3 & H4).
  by exists out, session', h.
Qed.

(** C27. Types are kept from the graph to the caller: a fetched value that a node
    computed is a tensor of the element type that the graph declares for this
    output of the node, in the shape of this run. *)
Theorem executor_types terminate feeds output_names fetches out session' h i name x k node arg :
  RunOk session kernel out_shape bytes → FeedsOk session out_shape h0 feeds →
  FetchesOk session out_shape h0 output_names fetches → (∀ k, terminate k = false) →
  (∀ n, n ∈ output_names → ∃ v, name_map_ names !! n = Some v ∧ v ∈ all_ids names (g_outputs g)) →
  Execute CreateFence session kernel terminate h0 feeds output_names fetches = Ok (StatusOK, out, session', h) →
  output_names !! i = Some name → out !! i = Some x →
  g_topo g !! k = Some node → arg ∈ n_outputs node → na_exists arg = true → na_name arg = name →
  ∃ t v, data_ x = Some (TensorObject t) ∧ dtype_ t = GetElementType (na_type arg) ∧ name_map_ names !! name = Some v ∧ shape_ t = out_shape v.
Proof.
  intros HR HFd HFe Ht Hn E Hi Hx Hk Ha He <-.
  destruct (Execute_ok HR terminate feeds output_names fetches HFd HFe Ht Hn) as (out' & s' & h' & f & E' & HF & H1 & _ & H2 & _).
  rewrite E' in E. injection E as -> -> ->. destruct (Forall2_lookup_lr _ _ _ _ _ _ H1 Hi Hx) as (v & y & Hv & _ & Hy & Hdy).
  destruct (Forall2_lookup_lr _ _ _ _ _ _ H2 Hi Hx) as (v' & t & Hv' & Hd & Hs & _). rewrite Hv in Hv'. injection Hv' as <-.
  assert (Hout : v ∈ all_outs names (g_topo g)).
  { apply list_elem_of_bind. exists node. split; [apply elem_of_ids; eauto|by eapply list_elem_of_lookup_2]. }
  destruct (sp_output (SafePlan := run_plan _ _ _ _ HR) k node arg v Hk Ha He Hv) as (p & Hp & Hty & _).
  exists t, v. split_and!; [done| |done|done].
  pose proof (fo_type _ _ _ _ _ _ _ HF v t p ltac:(apply elem_of_app; by right) Hout) as Htype.
  assert (tensor_at f v t) as Htt by (exists (shared y), (fence_ y); rewrite Hy; destruct y; simpl in *; congruence).
  destruct (Htype Htt Hp) as (ty & E1 & ->). congruence.
Qed.
End run.

(** ** A concrete run *)

Module Run.
Import AllocPlannerProps.Example.
#[local] Existing Instance AllocPlannerProps.onnx_types.
#[export] Instance value_types : ValueTypes MLDataType := {| GetElementType := element_type; type_Size := value_size; is_string := string_type |}.
Definition shape : TensorShape := [2; 3].
Definition input (b : nat) : MLValue MLDataType :=
  mkMLValue (Some (TensorObject (mkTensor float_type shape (Ptr b 0) (mkInfo CPU 0 0 1) true))) false None.
Definition the_plan : SequentialExecutionPlan MLDataType :=
  match CreatePlan names graph with Ok (_, p) => p | _ => mkExecPlan [] [] [] end.
Definition session : SessionState MLDataType := mkSession graph 5 names [(1%nat, input 1)] the_plan true ∅.
Definition run_kernel (_ : Z) (_ : list (option (MLValue MLDataType))) : Status * list (Z * TensorShape) := (StatusOK, [(0, shape)]).
Definition heap : Heap := mkHeap 2 ∅.
Definition feeds : list (string * MLValue MLDataType) := [("X"%string, input 0)].
Definition fetches : list (MLValue MLDataType) := [empty_MLValue].
Definition no_fence (_ : OrtAllocatorInfo) : option nat := None.

Lemma run_ok : RunOk session run_kernel (fun _ => shape) (fun _ => 64).
Proof.
  split.
  - apply graph_ok.
  - vm_compute. reflexivity.
  - done.
  - apply (bool_decide_unpack _). vm_compute. reflexivity.
  - intros node Hn. assert (H : forallb (fun n => (0 <=? n_index n) && (n_index n <? 5)) nodes = true) by (vm_compute; reflexivity).
    apply (forallb_elem _ _ _ H) in Hn. simpl in *. lia.
  - intros a Ha. assert (H : forallb (fun a => Bool.eqb (na_exists a) (negb (bool_decide (na_name a = ""%string)))) (graph_args graph) = true)
      by (vm_compute; reflexivity).
    apply (forallb_elem _ _ _ H) in Ha. by apply eqb_prop in Ha.
  - intros k node a v Hk Ha _ _. assert (Ht : na_type a = tensor_float).
    { assert (H : forallb (fun n => forallb (fun a => bool_decide (na_type a = tensor_float)) (n_outputs n)) nodes = true) by (vm_compute; reflexivity).
      apply list_elem_of_lookup_2, (forallb_elem _ _ _ H) in Hk. by apply (forallb_elem _ _ _ Hk), bool_decide_eq_true in Ha. }
    rewrite Ht. split_and!; [done|done|vm_compute; reflexivity].
  - done.
  - vm_compute. reflexivity.
  - intros node inputs Hn _. exists [(0, shape)]. split; [done|]. split.
    + by intros i sh a v [= -> ->]%list_elem_of_singleton.
    + intros i a Hi _. assert (H : forallb (fun n => (length (n_outputs n) =? 1)%nat) nodes = true) by (vm_compute; reflexivity).
      apply (forallb_elem _ _ _ H), Nat.eqb_eq in Hn. apply lookup_lt_Some in Hi. assert (i = 0%nat) as -> by lia.
      exists shape. by left.
  - intros key grp. change (mem_pattern_cache_ session) with (∅ : gmap Z MemoryPatternGroup). by rewrite lookup_empty.
Qed.
Lemma feeds_ok : FeedsOk session (fun _ => shape) heap feeds.
Proof.
  split.
  - by intros b ?%elem_of_empty.
  - intros n x [= -> ->]%list_elem_of_singleton. exists 0%nat. split; [by vm_compute|]. split; [by left|].
    eexists. split_and!; [done|done|by vm_compute].
  - intros v x [= -> ->]%list_elem_of_singleton. split; [right; by left|]. eexists. split_and!; [done|done|by vm_compute].
  - assert (Hd : defs0 names graph = [0; 1]%nat) by (vm_compute; reflexivity). intros v. change (defs0 _ _) with (defs0 names graph). rewrite Hd.
    intros [->|[->|[]%not_elem_of_nil]%elem_of_cons]%elem_of_cons.
    + left. exists "X"%string, (input 0). split; [by left|by vm_compute].
    + right. exists (input 1). by left.
Qed.
Lemma fetches_ok : FetchesOk session (fun _ => shape) heap ["E"%string] fetches.
Proof.
  right. constructor; [|constructor]. exists 6%nat. split; [by vm_compute|]. left. split; [|done].
  apply (bool_decide_unpack _). by vm_compute.
Qed.
Lemma names_ok n :
  n ∈ ["E"%string] → ∃ v, name_map_ (mlvalue_name_idx_map_ session) !! n = Some v ∧
    v ∈ all_ids (mlvalue_name_idx_map_ session) (g_outputs (graph_viewer_ session)).
Proof. intros ->%list_elem_of_singleton. exists 6%nat. split; [by vm_compute|]. apply (bool_decide_unpack _). by vm_compute. Qed.
End Run.
#[local] Existing Instance AllocPlannerProps.onnx_types.
#[local] Existing Instance Run.value_types.

(** What a run of the chain leaves: the status, whether each fetched value owns
    its memory, the buffers given out and given back, the cached patterns. *)
Definition run_summary {T} (r : res (Status * list (MLValue T) * SessionState T * Heap)) :
    option (bool * list bool * nat * list nat * nat) :=
  match r with
  | Ok (s, out, session', h) => Some (IsOK s, (fun x => match data_ x with Some (TensorObject t) => owns_buffer t | _ => false end) <$> out,
      next_buffer h, elements (freed h), size (mem_pattern_cache_ session'))
  | _ => None
  end.
Lemma executor_safe_witness :
  ∃ out session' h, Execute Run.no_fence Run.session Run.run_kernel (fun _ => false) Run.heap Run.feeds ["E"%string] Run.fetches =
      Ok (StatusOK, out, session', h) ∧
    run_summary (Ok (StatusOK, out, session', h)) = Some (true, [true], 5%nat, [2; 3]%nat, 1%nat) ∧
    RunOk session' Run.run_kernel (fun _ => Run.shape) (fun _ => 64).
Proof.
  destruct (executor_safe Run.no_fence Run.session Run.run_kernel (fun _ => Run.shape) (fun _ => 64) Run.heap (fun _ => false) Run.feeds
    ["E"%string] Run.fetches Run.run_ok Run.feeds_ok Run.fetches_ok (fun _ => eq_refl) Run.names_ok) as (out & session' & h & E & H & HR & _).
  exists out, session', h. split; [exact E|]. split; [|exact HR]. rewrite <- E. vm_compute. reflexivity.
Defined.
Lemma executor_types_witness :
  ∃ out session' h x t, Execute Run.no_fence Run.session Run.run_kernel (fun _ => false) Run.heap Run.feeds ["E"%string] Run.fetches =
      Ok (StatusOK, out, session', h) ∧ out !! 0%nat = Some x ∧ data_ x = Some (TensorObject t) ∧
    dtype_ t = float_type ∧ shape_ t = Run.shape.
Proof.
  destruct (Execute_ok Run.no_fence Run.session Run.run_kernel (fun _ => Run.shape) (fun _ => 64) Run.heap Run.run_ok (fun _ => false) Run.feeds
    ["E"%string] Run.fetches Run.feeds_ok Run.fetches_ok (fun _ => eq_refl) Run.names_ok) as (out & session' & h & f0 & E & _ & H & _).
  apply Forall2_cons_inv_l in H as (x & rest & _ & _ & ->). exists (x :: rest), session', h, x.
  destruct (executor_types Run.no_fence Run.session Run.run_kernel (fun _ => Run.shape) (fun _ => 64) Run.heap (fun _ => false) Run.feeds
    ["E"%string] Run.fetches (x :: rest) session' h 0 "E" x 4 (Example.node 4 ["D"%string] ["E"%string] [] []) (Example.arg "E"))
    as (t & v & Hd & Ht & _ & Hs); [exact Run.run_ok|exact Run.feeds_ok|exact Run.fetches_ok|done|exact Run.names_ok|exact E|done|done|done|by left|done|done|].
  exists t. split_and!; [exact E|done|exact Hd|exact Ht|exact Hs].
Defined.
