(* ===== verification/Devices.v ===== *)
(** Feeds and fetches across devices: the execution providers of a session
    ([execution_providers.h], [execution_provider.cc]), the mapping from graph
    inputs to the nodes that use them ([session_state.cc],
    [session_state_initializer.cc]), and the copies that [utils::ExecuteGraph]
    of [utils.cc] makes before and after a run. *)
From S2P Require Import Prelude TensorShape MemPattern AllocPlanner ExecutionFrame.

Definition kCpuExecutionProvider : string := "CPUExecutionProvider".
Definition kTRTExecutionProvider : string := "TRTExecutionProvider".
Definition size_t_max : Z := 2 ^ 64 - 1.

#[export] Instance Pointer_eq_dec : EqDecision Pointer.
Proof. solve_decision. Defined.

Section devices.
Context {T : Type} `{!TensorTypes T, !ValueTypes T}.

(** ** Execution providers *)

(** [MakeKey] of [execution_provider.cc] on [int]. *)
Definition MakeKey (id mem_type : Z) : Z := Z.lor (Z.shiftl id 2) mem_type.

(** A provider: its type, its allocators by key and its [CopyTensor], which
    gives the destination after the copy. *)
Record IExecutionProvider := mkExecutionProvider {
  provider_Type : string;
  allocators_ : gmap Z OrtAllocatorInfo;
  CopyTensor : Tensor T → Tensor T → res (Status * Tensor T);
}.

Definition provider_GetAllocator (p : IExecutionProvider) (id mem_type : Z) : option OrtAllocatorInfo :=
  allocators_ p !! MakeKey id mem_type.
Definition InsertAllocator (p : IExecutionProvider) (info : OrtAllocatorInfo) : res IExecutionProvider :=
  let key := MakeKey (i_id info) (i_mem_type info) in
  match allocators_ p !! key with
  | Some _ => Throw EnforceFailed
  | None => Ok (mkExecutionProvider (provider_Type p) (<[key := info]> (allocators_ p)) (CopyTensor p))
  end.
Definition GetAllocatorMap (p : IExecutionProvider) : list OrtAllocatorInfo := (map_to_list (allocators_ p)).*2.

(** [Tensor::ShallowCopy] into [dst], and [CPUExecutionProvider::CopyTensor]. *)
Definition ShallowCopy (dst src : Tensor T) : res (Tensor T) :=
  _ ← enforce (negb (owns_buffer src));
  Ok (mkTensor (dtype_ src) (shape_ src) (p_data_ src) (alloc_info_ src) false).
Definition cpu_CopyTensor (src dst : Tensor T) : res (Status * Tensor T) :=
  _ ← enforce (strcmp_eq (i_name (alloc_info_ dst)) CPU);
  if negb (strcmp_eq (i_name (alloc_info_ src)) CPU) then Throw EnforceFailed
  else dst ← ShallowCopy dst src; Ok (StatusOK, dst).

Record ExecutionProviders := mkProviders {
  exec_providers_ : list IExecutionProvider;
  provider_idx_map_ : gmap string nat;
  allocator_idx_map_ : list (OrtAllocatorInfo * nat);
}.
Definition providers_Add (ps : ExecutionProviders) (provider_id : string) (p : IExecutionProvider) :
    Status * ExecutionProviders :=
  match provider_idx_map_ ps !! provider_id with
  | Some _ => (Some FAIL, ps)
  | None =>
      if existsb (fun a => existsb (fun e => info_equiv (fst e) a) (allocator_idx_map_ ps)) (GetAllocatorMap p)
      then (Some FAIL, ps)
      else
        let new_provider_idx := length (exec_providers_ ps) in
        (StatusOK, mkProviders (exec_providers_ ps ++ [p]) (<[provider_id := new_provider_idx]> (provider_idx_map_ ps))
          (allocator_idx_map_ ps ++ ((fun a => (a, new_provider_idx)) <$> GetAllocatorMap p)))
  end.
Definition Get_by_type (ps : ExecutionProviders) (provider_id : string) : option IExecutionProvider :=
  i ← provider_idx_map_ ps !! provider_id; exec_providers_ ps !! i.
Definition Get_by_info (ps : ExecutionProviders) (info : OrtAllocatorInfo) : option IExecutionProvider :=
  it ← snd <$> list_find (fun e => info_equiv (fst e) info = true) (allocator_idx_map_ ps); exec_providers_ ps !! snd it.

(** ** The nodes that use an input *)

(** The type of the provider that a node was assigned to. *)
Context (GetExecutionProviderType : Node T → string).

Record NodeInfo := mkNodeInfo {
  index : Z;
  p_node : option (Node T);
  kci : option KernelDef;
}.
Abbreviation NameNodeInfoMapType := (gmap string (list NodeInfo)).

Definition GetNodeInputProviderType (info : NodeInfo) : res string :=
  let implicit_input := index info =? size_t_max in
  let node_input_on_cpu :=
    negb implicit_input &&
    match kci info with
    | Some kd => MemTypeOnCpuExplicitly (kd_input_memory_type kd (Z.to_nat (index info)))
    | None => false
    end in
  if node_input_on_cpu then Ok kCpuExecutionProvider
  else node ← of_option UndefinedBehaviour (p_node info); Ok (GetExecutionProviderType node).

(** The error status of the last branch is built but not returned. *)
Definition AddInputNameToNodeInfoMapping (m : NameNodeInfoMapType) (input_name : string) (node_info : NodeInfo) :
    res (Status * NameNodeInfoMapType) :=
  let entries := default [] (m !! input_name) in
  match entries with
  | [] => Ok (StatusOK, <[input_name := [node_info]]> m)
  | existing_entry :: rest =>
      if index node_info =? size_t_max then Ok (StatusOK, m)
      else if index existing_entry =? size_t_max then Ok (StatusOK, <[input_name := node_info :: rest]> m)
      else
        current_provider ← GetNodeInputProviderType existing_entry;
        new_provider ← GetNodeInputProviderType node_info;
        if bool_decide (current_provider = new_provider)
        then Ok (StatusOK, <[input_name := entries ++ [node_info]]> m)
        else Ok (StatusOK, m)
  end.
Definition GetInputNodeInfo (m : NameNodeInfoMapType) (input_name : string) : Status * list NodeInfo :=
  match m !! input_name with
  | Some entries => (StatusOK, entries)
  | None => (Some FAIL, [])
  end.
Definition AddOutputNameToNodeInfoMapping (m : NameNodeInfoMapType) (output_name : string) (node_info : NodeInfo) :
    NameNodeInfoMapType :=
  <[output_name := default [] (m !! output_name) ++ [node_info]]> m.

Definition IsArgNameInInputsOutputs (name : string) (graph_args : list (NodeArg T)) : bool :=
  existsb (fun arg => bool_decide (na_name arg = name)) graph_args.

(** One input of a node; the statuses of the mapping are not looked at. *)
Definition save_input (graph_inputs graph_outputs : list (NodeArg T)) (implicit_inputs : option (list (NodeArg T)))
    (node : Node T) (maps : NameNodeInfoMapType * NameNodeInfoMapType) (e : nat * NodeArg T) :
    res (NameNodeInfoMapType * NameNodeInfoMapType) :=
  let '(ins, outs) := maps in
  let '(i, arg) := e in
  if negb (na_exists arg) || bool_decide (na_name arg = ""%string) then Ok (ins, outs)
  else
    let node_info := mkNodeInfo (Z.of_nat i) (Some node) (n_kernel node) in
    if IsArgNameInInputsOutputs (na_name arg) graph_inputs
       || match implicit_inputs with Some l => IsArgNameInInputsOutputs (na_name arg) l | None => false end
    then '(_, ins) ← AddInputNameToNodeInfoMapping ins (na_name arg) node_info; Ok (ins, outs)
    else if IsArgNameInInputsOutputs (na_name arg) graph_outputs
    then Ok (ins, AddOutputNameToNodeInfoMapping outs (na_name arg) node_info)
    else Ok (ins, outs).
Definition save_node (graph_inputs graph_outputs : list (NodeArg T)) (implicit_inputs : option (list (NodeArg T)))
    (maps : NameNodeInfoMapType * NameNodeInfoMapType) (node : Node T) :
    res (NameNodeInfoMapType * NameNodeInfoMapType) :=
  maps ← foldM (save_input graph_inputs graph_outputs implicit_inputs node) maps (indexed (n_inputs node));
  let '(ins, outs) := maps in
  let node_info := mkNodeInfo size_t_max (Some node) (n_kernel node) in
  ins ← foldM (fun ins arg => '(_, ins) ← AddInputNameToNodeInfoMapping ins (na_name arg) node_info; Ok ins)
          ins (n_implicit_inputs node);
  Ok (ins, outs).
Definition SaveInputOutputNamesToNodeMapping (nodes : list (Node T)) (graph_inputs graph_outputs : list (NodeArg T))
    (implicit_inputs : option (list (NodeArg T))) (maps : NameNodeInfoMapType * NameNodeInfoMapType) :
    res (Status * (NameNodeInfoMapType * NameNodeInfoMapType)) :=
  let implicit_inputs := match implicit_inputs with Some [] => None | o => o end in
  '(ins, outs) ← foldM (save_node graph_inputs graph_outputs implicit_inputs) maps nodes;
  let empty_node_info := mkNodeInfo size_t_max None None in
  ins ← foldM (fun ins arg =>
      match ins !! na_name arg with
      | Some _ => Ok ins
      | None => '(_, ins) ← AddInputNameToNodeInfoMapping ins (na_name arg) empty_node_info; Ok ins
      end) ins graph_inputs;
  Ok (StatusOK, (ins, outs)).

(** ** Copies *)

Context (providers : ExecutionProviders).

(** [Tensor::Size] in bytes, a [size_t]. *)
Definition tensor_Size (t : Tensor T) : Z := u64 (Size (shape_ t) * type_Size (dtype_ t)).

Definition AllocateHelper (p : IExecutionProvider) (device_id : Z) (h : Heap) (fetched_tensor : Tensor T) :
    res (Status * option (Tensor T) * Heap) :=
  match provider_GetAllocator p device_id OrtMemTypeDefault with
  | None => Ok (Some FAIL, None, h)
  | Some info =>
      let sz := tensor_Size fetched_tensor in
      let '(buffer, h) := if negb (sz =? 0) then let '(b, h) := heap_Alloc h in (Ptr b 0, h) else (Null, h) in
      if Size (shape_ fetched_tensor) <? 0 then Throw EnforceFailed
      else Ok (StatusOK, Some (mkTensor (dtype_ fetched_tensor) (shape_ fetched_tensor) buffer info true), h)
  end.

(** The provider of a location, or the CPU provider. *)
Definition location_provider (info : OrtAllocatorInfo) : option IExecutionProvider :=
  match Get_by_info providers info with
  | Some p => Some p
  | None => Get_by_type providers kCpuExecutionProvider
  end.

(** An assignment of one value to the place of another: the object that was
    there goes if it is another one and nothing else holds it. *)
Definition same_object (x y : MLValue T) : bool :=
  match data_ x, data_ y with
  | Some (TensorObject t), Some (TensorObject u) => bool_decide (p_data_ t = p_data_ u)
  | _, _ => false
  end.
Definition replace_value (h : Heap) (old new : MLValue T) : res Heap :=
  if same_object old new then Ok h else drop_value h old.

(** The copy of a tensor into a new one on [target]; the provider that is not
    the CPU makes the copy. *)
Definition copy_tensor (h : Heap) (target source : IExecutionProvider) (target_is_cpu : bool) (t : Tensor T) :
    res (Status * option (Tensor T) * Heap) :=
  '(s, new_tensor, h) ← AllocateHelper target 0 h t;
  match new_tensor with
  | None => Ok (s, None, h)
  | Some dst => '(s, dst) ← CopyTensor (if target_is_cpu then source else target) t dst; Ok (s, Some dst, h)
  end.

Definition CopyOneInputAcrossDevices (m : NameNodeInfoMapType) (h : Heap) (input_name : string) (orig_mlvalue : MLValue T) :
    res (Status * MLValue T * Heap) :=
  let '(s, node_info_vec) := GetInputNodeInfo m input_name in
  if negb (IsOK s) then Ok (s, empty_MLValue, h)
  else
    node_info ← of_option UndefinedBehaviour (head node_info_vec);
    match p_node node_info, data_ orig_mlvalue with
    | Some _, Some (TensorObject input_tensor) =>
        required_provider_type ← GetNodeInputProviderType node_info;
        let input_tensor_loc := alloc_info_ input_tensor in
        p_input_provider ← of_option EnforceFailed (location_provider input_tensor_loc);
        if bool_decide (required_provider_type = kTRTExecutionProvider) then Ok (StatusOK, share orig_mlvalue, h)
        else if bool_decide (provider_Type p_input_provider = required_provider_type) &&
                (i_mem_type input_tensor_loc =? OrtMemTypeDefault) then Ok (StatusOK, share orig_mlvalue, h)
        else if bool_decide (required_provider_type = kCpuExecutionProvider) &&
                (i_mem_type input_tensor_loc =? OrtMemTypeCPUOutput) then Ok (StatusOK, share orig_mlvalue, h)
        else
          required_provider ← of_option EnforceFailed (Get_by_type providers required_provider_type);
          '(s, new_tensor, h) ← copy_tensor h required_provider p_input_provider
                                  (bool_decide (required_provider_type = kCpuExecutionProvider)) input_tensor;
          Ok (s, match new_tensor with Some t => mkMLValue (Some (TensorObject t)) false None | None => empty_MLValue end, h)
    | _, _ => Ok (StatusOK, share orig_mlvalue, h)
    end.

Definition CopyInputsAcrossDevices (m : NameNodeInfoMapType) (h : Heap) (orig_feeds : list (string * MLValue T)) :
    res (Status * list (string * MLValue T) * Heap) :=
  foldM (fun acc pair =>
      let '(s, new_feeds, h) := acc in
      if negb (IsOK s) then Ok (s, new_feeds, h)
      else '(s, new_mlvalue, h) ← CopyOneInputAcrossDevices m h (fst pair) (snd pair);
           if negb (IsOK s) then h ← drop_value h new_mlvalue; Ok (s, new_feeds, h)
           else Ok (s, new_feeds ++ [(fst pair, new_mlvalue)], h))
    (StatusOK, [], h) orig_feeds.

(** [Contains]: the position of a name. *)
Definition Contains (output_names : list string) (name : string) : option nat :=
  fst <$> list_find (fun n => n = name) output_names.

(** One output of a node. *)
Definition match_output (output_names : list string) (fetches : list (MLValue T)) (node : Node T)
    (st : gset string * list (MLValue T)) (arg : NodeArg T) : res (gset string * list (MLValue T)) :=
  let '(seen_outputs, new_fetches) := st in
  match (if negb (na_exists arg) || bool_decide (na_name arg = ""%string) then None else Contains output_names (na_name arg)) with
  | None => Ok (seen_outputs, new_fetches)
  | Some idx =>
      let seen_outputs := {[na_name arg]} ∪ seen_outputs in
      orig_mlvalue ← of_option UndefinedBehaviour (fetches !! idx);
      match data_ orig_mlvalue with
      | Some (TensorObject orig_tensor) =>
          tensor_provider ← of_option UndefinedBehaviour (location_provider (alloc_info_ orig_tensor));
          Ok (seen_outputs, if bool_decide (GetExecutionProviderType node = provider_Type tensor_provider)
                            then <[idx := share orig_mlvalue]> new_fetches else new_fetches)
      | _ => Ok (seen_outputs, <[idx := share orig_mlvalue]> new_fetches)
      end
  end.
Definition match_node (output_names : list string) (fetches : list (MLValue T))
    (st : gset string * list (MLValue T)) (node : Node T) : res (gset string * list (MLValue T)) :=
  if (size (fst st) =? length fetches)%nat then Ok st
  else foldM (match_output output_names fetches node) st (n_outputs node).

(** A graph output that is a weight. *)
Definition match_weight (session : SessionState T) (output_names : list string)
    (acc : Status * (gset string * list (MLValue T))) (one_def : NodeArg T) :
    res (Status * (gset string * list (MLValue T))) :=
  let '(s, (seen_outputs, new_fetches)) := acc in
  if negb (IsOK s) then Ok acc
  else
    match (if negb (na_exists one_def) || bool_decide (na_name one_def = ""%string) ||
              bool_decide (na_name one_def ∈ seen_outputs) then None
           else Contains output_names (na_name one_def)) with
    | None => Ok acc
    | Some idx =>
        let '(s, mlvalue_idx) := GetIdx (mlvalue_name_idx_map_ session) (na_name one_def) in
        if negb (IsOK s) then Ok (s, (seen_outputs, new_fetches))
        else
          match snd <$> list_find (fun e => Z.of_nat (fst e) = mlvalue_idx) (initialized_tensors_ session) with
          | None => Ok acc
          | Some (_, weight) => Ok (StatusOK, ({[na_name one_def]} ∪ seen_outputs, <[idx := share weight]> new_fetches))
          end
    end.

Definition MatchOutputsWithProviders (session : SessionState T) (output_names : list string) (fetches : list (MLValue T)) :
    res (Status * list (MLValue T) * list (MLValue T)) :=
  let fetches := if bool_decide (fetches = []) then replicate (length output_names) empty_MLValue else fetches in
  let new_fetches := replicate (length output_names) empty_MLValue in
  '(seen_outputs, new_fetches) ←
    foldM (match_node output_names fetches) (∅, new_fetches) (g_nodes (graph_viewer_ session));
  if (size seen_outputs =? length output_names)%nat then Ok (StatusOK, fetches, new_fetches)
  else
    '(s, (seen_outputs, new_fetches)) ←
      foldM (match_weight session output_names) (StatusOK, (seen_outputs, new_fetches)) (g_outputs (graph_viewer_ session));
    if negb (IsOK s) then Ok (s, fetches, new_fetches)
    else if (size seen_outputs =? length output_names)%nat then Ok (StatusOK, fetches, new_fetches)
    else Ok (Some FAIL, fetches, new_fetches).

(** One output that goes back to the caller. What the caller does not take of
    the fetched values goes with the vector that held them. *)
Definition copy_output (acc : Status * list (MLValue T) * Heap) (e : nat * MLValue T) :
    res (Status * list (MLValue T) * Heap) :=
  let '(s, user_fetches, h) := acc in
  let '(idx, fetched_mlvalue) := e in
  if negb (IsOK s) then h ← drop_value h fetched_mlvalue; Ok (s, user_fetches, h)
  else
    output_mlvalue ← of_option UndefinedBehaviour (user_fetches !! idx);
    match data_ fetched_mlvalue with
    | Some (TensorObject fetched_tensor) =>
        let fetched_tensor_location := alloc_info_ fetched_tensor in
        p_fetched_provider ← of_option EnforceFailed (location_provider fetched_tensor_location);
        let fetched_on_cpu := bool_decide (provider_Type p_fetched_provider = kCpuExecutionProvider) in
        if negb (IsAllocated output_mlvalue) && fetched_on_cpu then Ok (s, <[idx := fetched_mlvalue]> user_fetches, h)
        else
          '(s, output_mlvalue, h) ←
            (if IsAllocated output_mlvalue then Ok (s, output_mlvalue, h)
             else cpu ← of_option UndefinedBehaviour (Get_by_type providers kCpuExecutionProvider);
                  '(s, t, h) ← AllocateHelper cpu 0 h fetched_tensor;
                  Ok (s, match t with Some t => mkMLValue (Some (TensorObject t)) false None | None => empty_MLValue end, h));
          if negb (IsOK s) then h ← drop_value h fetched_mlvalue; Ok (s, user_fetches, h)
          else
            output_tensor ← GetTensor output_mlvalue;
            p_output_provider ← of_option EnforceFailed (location_provider (alloc_info_ output_tensor));
            if bool_decide (provider_Type p_output_provider = provider_Type p_fetched_provider) ||
               (i_mem_type fetched_tensor_location =? OrtMemTypeCPUOutput)
            then h ← replace_value h output_mlvalue fetched_mlvalue; Ok (StatusOK, <[idx := fetched_mlvalue]> user_fetches, h)
            else
              '(s, output_tensor) ← CopyTensor (if fetched_on_cpu then p_output_provider else p_fetched_provider)
                                      fetched_tensor output_tensor;
              h ← drop_value h fetched_mlvalue;
              Ok (s, <[idx := mkMLValue (Some (TensorObject output_tensor)) (shared output_mlvalue) (fence_ output_mlvalue)]>
                       user_fetches, h)
    | _ => h ← replace_value h output_mlvalue fetched_mlvalue; Ok (StatusOK, <[idx := fetched_mlvalue]> user_fetches, h)
    end.
Definition CopyOutputsAcrossDevices (h : Heap) (fetches user_fetches : list (MLValue T)) :
    res (Status * list (MLValue T) * Heap) :=
  foldM copy_output (StatusOK, user_fetches, h) (indexed fetches).

(** [utils::ExecuteGraph] with sequential execution: the status, the fetches of
    the caller, the session and the memory after the copies of the feeds are
    gone. *)
Definition ExecuteGraph (CreateFence : OrtAllocatorInfo → option nat) (session : SessionState T)
    (kernel : Z → list (option (MLValue T)) → Status * list (Z * TensorShape)) (m : NameNodeInfoMapType)
    (terminate : nat → bool) (h : Heap) (feeds : list (string * MLValue T)) (output_names : list string)
    (fetches : list (MLValue T)) : res (Status * list (MLValue T) * SessionState T * Heap) :=
  '(s, device_feeds, h) ← CopyInputsAcrossDevices m h feeds;
  '(s, fetches, session, h) ←
    (if negb (IsOK s) then Ok (s, fetches, session, h)
     else
       '(s, fetches, device_fetches) ← MatchOutputsWithProviders session output_names fetches;
       if negb (IsOK s) then Ok (s, fetches, session, h)
       else
         '(s, device_fetches, session, h) ← Execute CreateFence session kernel terminate h device_feeds output_names device_fetches;
         if negb (IsOK s) then h ← foldM drop_value h device_fetches; Ok (s, fetches, session, h)
         else '(s, fetches, h) ← CopyOutputsAcrossDevices h device_fetches fetches; Ok (s, fetches, session, h));
  h ← foldM drop_value h (snd <$> device_feeds);
  Ok (s, fetches, session, h).
End devices.
