(* ===== verification/DevicesProps.v ===== *)
(** Properties of [Devices]: the mapping from graph inputs to the nodes that
    use them, the keys of allocators, and [ExecuteGraph] on a session whose only
    provider is the CPU. *)
From S2P Require Import Prelude DataTypes TensorShape MemPattern AllocPlanner AllocPlannerInv SafePlan ExecutionFrame ExecutionInv ExecutionSteps ExecutionInit ExecutionProps Devices.

(** ** Folds that record what they have seen *)

Lemma foldM_events {S A X} (ev : A → list X) (P : list X → S → Prop) (f : S → A → res S) l : ∀ E s,
  (∀ E s x, x ∈ l → P E s → ∃ s', f s x = Ok s' ∧ P (E ++ ev x) s') → P E s →
  ∃ s', foldM f s l = Ok s' ∧ P (E ++ (l ≫= ev)) s'.
Proof.
  induction l as [|x l IH]; intros E s Hstep HP; simpl.
  - exists s. by rewrite app_nil_r.
  - destruct (Hstep E s x) as (s1 & -> & H1); [by left|done|]. cbn [mbind res_bind].
    destruct (IH (E ++ ev x) s1) as (s2 & -> & H2); [|done|].
    + intros E' s' y Hy. apply Hstep. by right.
    + exists s2. by rewrite (assoc_L (++)).
Qed.

Lemma list_bind_fmap {A B} (f : A → B) l : (l ≫= fun x => [f x]) = f <$> l.
Proof. induction l as [|x l IH]; [done|]. simpl. by f_equal. Qed.
Lemma list_bind_singleton {A} (l : list A) : (l ≫= fun x => [x]) = l.
Proof. rewrite (list_bind_fmap (fun x => x)). apply list_fmap_id. Qed.

(** ** The uses of an input *)

Section mapping.
Context {T : Type} (GetExecutionProviderType : Node T → string).
Abbreviation provider := (GetNodeInputProviderType GetExecutionProviderType).
Abbreviation Add := (AddInputNameToNodeInfoMapping GetExecutionProviderType).
Implicit Types (e : NodeInfo (T := T)) (L : list (NodeInfo (T := T))) (m : gmap string (list (NodeInfo (T := T)))).

Definition explicit e : bool := negb (index e =? size_t_max).
Definition same_provider e e' : bool :=
  match provider e, provider e' with Ok p, Ok q => bool_decide (p = q) | _, _ => false end.
(** The entries for the uses [L] of an input: the explicit uses that need the
    provider of the first one, or else the first implicit use. *)
Definition entries_of L : list (NodeInfo (T := T)) :=
  match List.filter explicit L with
  | [] => take 1 L
  | e :: rest => e :: List.filter (same_provider e) rest
  end.
Definition entry_of L : option (list (NodeInfo (T := T))) := match L with [] => None | _ => Some (entries_of L) end.

Lemma provider_ok e : is_Some (p_node e) → ∃ p, provider e = Ok p.
Proof. intros [n Hn]. unfold provider. rewrite Hn. case_match; by eexists. Qed.

Lemma entries_cons a L : ∃ e l, entries_of (a :: L) = e :: l ∧ e ∈ a :: L.
Proof.
  unfold entries_of. destruct (List.filter explicit (a :: L)) as [|u rest] eqn:Ef; [eexists a, _; split; [done|by left]|].
  exists u, (List.filter (same_provider u) rest). split; [done|]. apply list_elem_of_In. apply (List.filter_In explicit). rewrite Ef. by left.
Qed.
Lemma same_provider_refl e : is_Some (p_node e) → same_provider e e = true.
Proof. intros [p Hp]%provider_ok. unfold same_provider. rewrite Hp. by apply bool_decide_eq_true_2. Qed.
Lemma filter_filter (f g : NodeInfo (T := T) → bool) L : List.filter g (List.filter f L) = List.filter (fun e => f e && g e) L.
Proof. induction L as [|e L IH]; [done|]. simpl. destruct (f e); simpl; [|done]. by rewrite IH. Qed.
Lemma entries_spec a L :
  Forall (fun e => is_Some (p_node e)) (a :: L) →
  ∃ e l p, entries_of (a :: L) = e :: l ∧ e ∈ a :: L ∧ (∀ e', e' ∈ e :: l → provider e' = Ok p) ∧
    if existsb explicit (a :: L) then
      head (List.filter explicit (a :: L)) = Some e ∧ e :: l = List.filter (fun e' => explicit e' && same_provider e e') (a :: L)
    else e = a ∧ l = [].
Proof.
  intros HL. rewrite Forall_forall in HL. destruct (List.filter explicit (a :: L)) as [|u rest] eqn:Ef.
  - destruct (provider_ok a) as [p Hp]; [apply HL; by left|]. exists a, [], p. split_and!; [unfold entries_of; by rewrite Ef|by left| |].
    + by intros e' ->%list_elem_of_singleton.
    + destruct (existsb explicit (a :: L)) eqn:Ex; [|done]. apply existsb_exists in Ex as (x & Hx). apply List.filter_In in Hx. by rewrite Ef in Hx.
  - assert (Hu : u ∈ a :: L ∧ explicit u = true) by (rewrite list_elem_of_In; apply List.filter_In; rewrite Ef; by left).
    destruct Hu as [Hu Hxu], (provider_ok u (HL u Hu)) as [p Hp].
    exists u, (List.filter (same_provider u) rest), p. split_and!; [unfold entries_of; by rewrite Ef|done| |].
    + intros e' [->|He']%elem_of_cons; [done|]. apply list_elem_of_In, List.filter_In in He' as [_ Hs]. unfold same_provider in Hs.
      rewrite Hp in Hs. destruct (provider e'); [|done..]. by apply bool_decide_eq_true in Hs as ->.
    + assert (existsb explicit (a :: L) = true) as -> by (apply existsb_exists; exists u; by rewrite <- list_elem_of_In).
      split; [done|]. rewrite <- filter_filter, Ef. simpl. by rewrite same_provider_refl by (by apply HL).
Qed.
Lemma entries_snoc_explicit L e u rest :
  List.filter explicit L = u :: rest → explicit e = true →
  entries_of (L ++ [e]) = entries_of L ++ (if same_provider u e then [e] else []).
Proof.
  intros HL He. unfold entries_of. rewrite List.filter_app, HL. simpl. rewrite He. simpl. rewrite List.filter_app. simpl.
  by case_match.
Qed.

Lemma add_entry m n L e :
  m !! n = entry_of L → Forall (fun e => is_Some (p_node e)) (L ++ [e]) → Add m n e = Ok (StatusOK, <[n := entries_of (L ++ [e])]> m).
Proof.
  intros Hm HL. unfold Add. rewrite Hm. destruct L as [|a L]; simpl entry_of; cbn [default from_option id].
  { unfold entries_of. simpl. by destruct (explicit e). }
  set (L' := a :: L) in *. change (m !! n = Some (entries_of L')) in Hm. destruct (List.filter explicit L') as [|u rest] eqn:Ef.
  - assert (entries_of L' = [a]) as HE by (unfold entries_of; rewrite Ef; done). rewrite HE.
    assert (explicit a = false) as Ha by (simpl in Ef; by destruct (explicit a)).
    unfold explicit in Ha. apply negb_false_iff in Ha. rewrite Ha.
    assert (entries_of (L' ++ [e]) = if explicit e then [e] else [a]) as ->.
    { unfold entries_of. rewrite List.filter_app, Ef. simpl. by destruct (explicit e). }
    unfold explicit. destruct (index e =? size_t_max); [|done]. by rewrite insert_id by (by rewrite Hm, HE).
  - assert (entries_of L' = u :: List.filter (same_provider u) rest) as HE by (unfold entries_of; by rewrite Ef). rewrite HE.
    assert (u ∈ L' ∧ explicit u = true) as [Hu Hxu].
    { rewrite !list_elem_of_In. apply List.filter_In. rewrite Ef. by left. }
    unfold explicit in Hxu. apply negb_true_iff in Hxu. destruct (index e =? size_t_max) eqn:Ee.
    + rewrite insert_id; [done|]. rewrite Hm, HE. unfold entries_of. rewrite List.filter_app, Ef. simpl.
      unfold explicit. rewrite Ee. simpl. by rewrite app_nil_r.
    + rewrite Hxu. apply Forall_app in HL as [HL He]. rewrite Forall_forall in HL. rewrite Forall_singleton in He.
      destruct (provider_ok u (HL u Hu)) as (p & Hp), (provider_ok e He) as (q & Hq). rewrite Hp, Hq. cbn [mbind res_bind].
      rewrite (entries_snoc_explicit _ _ _ _ Ef) by (unfold explicit; by rewrite Ee). rewrite HE.
      assert (same_provider u e = bool_decide (p = q)) as -> by (unfold same_provider; by rewrite Hp, Hq).
      case_bool_decide; [done|]. rewrite app_nil_r, insert_id; [done|]. by rewrite Hm, HE.
Qed.

(** The uses recorded so far, by name. *)
Definition uses_of (E : list (string * NodeInfo (T := T))) (n : string) : list (NodeInfo (T := T)) :=
  snd <$> List.filter (fun x => bool_decide (x.1 = n)) E.
Definition recorded E m : Prop := Forall (fun x => is_Some (p_node x.2)) E ∧ ∀ n, m !! n = entry_of (uses_of E n).

Lemma uses_app E E' n : uses_of (E ++ E') n = uses_of E n ++ uses_of E' n.
Proof. unfold uses_of. by rewrite List.filter_app, fmap_app. Qed.
Lemma uses_one n e n' : uses_of [(n, e)] n' = if decide (n = n') then [e] else [].
Proof. unfold uses_of. cbn. case_bool_decide; by case_decide. Qed.
Lemma uses_elem E n e : e ∈ uses_of E n → (n, e) ∈ E.
Proof.
  intros ([n' e'] & -> & Hx)%list_elem_of_fmap. rewrite !list_elem_of_In in *. apply List.filter_In in Hx as [Hx Hn%bool_decide_eq_true_1]. simpl in *. by subst.
Qed.
Lemma add_recorded E m n e :
  recorded E m → is_Some (p_node e) → ∃ m', Add m n e = Ok (StatusOK, m') ∧ recorded (E ++ [(n, e)]) m'.
Proof.
  intros [HE Hm] He. eexists. split; [apply (add_entry m n (uses_of E n)); [done|]|].
  - apply Forall_app. split; [|by apply Forall_singleton]. apply Forall_forall. intros x Hx%uses_elem. by rewrite Forall_forall in HE; apply HE in Hx.
  - split; [apply Forall_app; split; [done|by apply Forall_singleton]|]. intros n'. rewrite uses_app, uses_one. destruct (decide (n = n')) as [<-|Hne].
    + rewrite lookup_insert_eq. by destruct (uses_of E n).
    + by rewrite lookup_insert_ne, app_nil_r.
Qed.

(** ** The uses in a graph *)

Context (graph_inputs graph_outputs : list (NodeArg T)) (implicit_inputs : option (list (NodeArg T))).

(** The use that one input of a node is. *)
Definition explicit_use (node : Node T) (x : nat * NodeArg T) : list (string * NodeInfo (T := T)) :=
  if na_exists x.2 && negb (bool_decide (na_name x.2 = ""%string)) &&
     (IsArgNameInInputsOutputs (na_name x.2) graph_inputs || IsArgNameInInputsOutputs (na_name x.2) (default [] implicit_inputs))
  then [(na_name x.2, mkNodeInfo (Z.of_nat x.1) (Some node) (n_kernel node))] else [].
Definition node_uses (node : Node T) : list (string * NodeInfo (T := T)) :=
  (indexed (n_inputs node) ≫= explicit_use node) ++
  ((fun arg => (na_name arg, mkNodeInfo size_t_max (Some node) (n_kernel node))) <$> n_implicit_inputs node).

Abbreviation norm := (match implicit_inputs with Some [] => None | o => o end).
Lemma save_input_recorded node E maps x :
  recorded E maps.1 → ∃ maps', save_input GetExecutionProviderType graph_inputs graph_outputs norm node maps x = Ok maps' ∧
    recorded (E ++ explicit_use node x) maps'.1.
Proof.
  destruct maps as [ins outs], x as [i arg]. intros HE. unfold save_input, explicit_use. cbn [fst snd] in *.
  destruct (na_exists arg); cbn [negb orb andb]; [|exists (ins, outs); by rewrite app_nil_r].
  case_bool_decide; cbn [negb orb andb]; [exists (ins, outs); by rewrite app_nil_r|].
  assert (match norm with Some l => IsArgNameInInputsOutputs (na_name arg) l | None => false end =
    IsArgNameInInputsOutputs (na_name arg) (default [] implicit_inputs)) as -> by (by destruct implicit_inputs as [[]|]).
  destruct (_ || _).
  - destruct (add_recorded E ins (na_name arg) (mkNodeInfo (Z.of_nat i) (Some node) (n_kernel node)) HE) as (m' & -> & Hm'); [done|].
    by exists (m', outs).
  - rewrite app_nil_r. case_match; by eexists.
Qed.
Lemma save_node_recorded node E maps :
  recorded E maps.1 → ∃ maps', save_node GetExecutionProviderType graph_inputs graph_outputs norm maps node = Ok maps' ∧
    recorded (E ++ node_uses node) maps'.1.
Proof.
  intros HE. unfold save_node, node_uses.
  destruct (foldM_events (explicit_use node) (fun E maps => recorded E maps.1)
    (save_input GetExecutionProviderType graph_inputs graph_outputs norm node) (indexed (n_inputs node)) E maps) as ([ins outs] & -> & H1); [|done|].
  { intros E' s x _ H. by apply save_input_recorded. }
  cbn [mbind res_bind].
  destruct (foldM_events (fun arg => [(na_name arg, mkNodeInfo size_t_max (Some node) (n_kernel node))]) recorded
    (fun ins arg => '(_, ins) ← Add ins (na_name arg) (mkNodeInfo size_t_max (Some node) (n_kernel node)); Ok ins)
    (n_implicit_inputs node) (E ++ (indexed (n_inputs node) ≫= explicit_use node)) ins) as (ins' & -> & H2); [|done|].
  { intros E' s x _ H. destruct (add_recorded E' s (na_name x) (mkNodeInfo size_t_max (Some node) (n_kernel node)) H) as (m' & -> & Hm'); [done|].
    by exists m'. }
  exists (ins', outs). split; [done|]. cbn [fst]. by rewrite (assoc_L (++)), <- list_bind_fmap.
Qed.

(** What the mapping holds for a name in the end. *)
Definition mapped_entry (nodes : list (Node T)) (n : string) : option (list (NodeInfo (T := T))) :=
  match uses_of (nodes ≫= node_uses) n with
  | [] => if IsArgNameInInputsOutputs n graph_inputs then Some [mkNodeInfo size_t_max None None] else None
  | L => Some (entries_of L)
  end.
Lemma save_mapping_ok nodes :
  ∃ ins outs, SaveInputOutputNamesToNodeMapping GetExecutionProviderType nodes graph_inputs graph_outputs implicit_inputs (∅, ∅) =
      Ok (StatusOK, (ins, outs)) ∧ ∀ n, ins !! n = mapped_entry nodes n.
Proof.
  unfold SaveInputOutputNamesToNodeMapping.
  destruct (foldM_events node_uses (fun E maps => recorded E maps.1) (save_node GetExecutionProviderType graph_inputs graph_outputs norm)
    nodes [] (∅, ∅)) as ([ins outs] & -> & HE & Hm).
  { intros E s x _ H. by apply save_node_recorded. }
  { split; [by constructor|]. intros n. apply lookup_empty. }
  cbn [fst snd app mbind res_bind] in *.
  destruct (foldM_events (fun arg => [arg]) (fun P m => ∀ n, m !! n = match uses_of (nodes ≫= node_uses) n with
      | [] => if IsArgNameInInputsOutputs n P then Some [mkNodeInfo size_t_max None None] else None
      | L => Some (entries_of L) end)
    (fun ins arg => match ins !! na_name arg with Some _ => Ok ins
       | None => '(_, ins) ← Add ins (na_name arg) (mkNodeInfo size_t_max None None); Ok ins end) graph_inputs [] ins) as (m' & -> & Hm').
  { intros P m arg _ HP. assert (Hin : ∀ n, IsArgNameInInputsOutputs n (P ++ [arg]) = IsArgNameInInputsOutputs n P || bool_decide (na_name arg = n)).
    { intros n. unfold IsArgNameInInputsOutputs. rewrite existsb_app. simpl. by rewrite orb_false_r. }
    destruct (m !! na_name arg) as [l|] eqn:El.
    - exists m. split; [done|]. intros n. rewrite HP, Hin. case_bool_decide as Hn; [|by rewrite orb_false_r]. subst n. rewrite HP in El.
      destruct (uses_of _ _); [|done]. by destruct (IsArgNameInInputsOutputs _ P).
    - unfold Add. rewrite El. cbn [default from_option id mbind res_bind]. eexists. split; [done|]. intros n. rewrite Hin.
      case_bool_decide as Hn; [|by rewrite orb_false_r, lookup_insert_ne]. subst n. rewrite lookup_insert_eq, orb_true_r. rewrite HP in El.
      by destruct (uses_of _ _). }
  { intros n. rewrite Hm. by destruct (uses_of _ _). }
  exists m', outs. split; [done|]. intros n. rewrite Hm'. unfold mapped_entry. by rewrite app_nil_l, list_bind_singleton.
Qed.
End mapping.

(** ** A session with the CPU only *)

Section cpu.
Context {T : Type} `{!TensorTypes T, !ValueTypes T}.
Context (session : SessionState T).
Context (GetExecutionProviderType : Node T → string) (providers : ExecutionProviders (T := T)).
Abbreviation names := (mlvalue_name_idx_map_ session).
Abbreviation g := (graph_viewer_ session).
Implicit Types (x : MLValue T) (h : Heap).

(** Every location and every node belongs to the CPU provider. *)
Record CpuOnly (cpu : IExecutionProvider (T := T)) : Prop := {
  co_type : provider_Type cpu = kCpuExecutionProvider;
  co_get : Get_by_type providers kCpuExecutionProvider = Some cpu;
  co_info : ∀ i p, Get_by_info providers i = Some p → p = cpu;
  co_nodes : ∀ node, node ∈ g_nodes g → GetExecutionProviderType node = kCpuExecutionProvider;
}.
Context (cpu : IExecutionProvider (T := T)) (HC : CpuOnly cpu).

Lemma location_cpu i : location_provider providers i = Some cpu.
Proof.
  unfold location_provider. destruct (Get_by_info providers i) eqn:E; [by rewrite (co_info _ HC i _ E)|apply HC].
Qed.

(** *** Feeds *)

(** A feed for an input of the graph, in plain or pinned memory of the CPU. *)
Definition cpu_feed (graph_inputs : list (NodeArg T)) (e : string * MLValue T) : Prop :=
  IsArgNameInInputsOutputs e.1 graph_inputs = true ∧
  ∀ t, data_ e.2 = Some (TensorObject t) →
    i_mem_type (alloc_info_ t) = OrtMemTypeDefault ∨ i_mem_type (alloc_info_ t) = OrtMemTypeCPUOutput.

Lemma provider_cpu (e : NodeInfo (T := T)) node :
  p_node e = Some node → node ∈ g_nodes g → GetNodeInputProviderType GetExecutionProviderType e = Ok kCpuExecutionProvider.
Proof.
  intros Hp Hn. unfold GetNodeInputProviderType. rewrite Hp. case_match; [done|]. cbn. by rewrite (co_nodes _ HC).
Qed.

Lemma node_uses_elem graph_inputs implicit_inputs (node : Node T) n e :
  (n, e) ∈ node_uses graph_inputs implicit_inputs node → p_node e = Some node.
Proof.
  unfold node_uses. rewrite elem_of_app, list_elem_of_bind, list_elem_of_fmap.
  intros [(x & Hx & _)|(a & [= -> ->] & _)]; [|done]. unfold explicit_use in Hx. case_match; [|by apply not_elem_of_nil in Hx].
  by apply list_elem_of_singleton in Hx as [= -> ->].
Qed.
Lemma mapped_head graph_inputs implicit_inputs nodes n :
  IsArgNameInInputsOutputs n graph_inputs = true →
  ∃ e l, mapped_entry GetExecutionProviderType graph_inputs implicit_inputs nodes n = Some (e :: l) ∧
    (p_node e = None ∨ ∃ node, node ∈ nodes ∧ p_node e = Some node).
Proof.
  intros Hn. unfold mapped_entry. rewrite Hn. destruct (uses_of _ n) as [|a L] eqn:EL; [eauto|].
  destruct (entries_cons GetExecutionProviderType a L) as (e & l & He & Hin). rewrite He. exists e, l. split; [done|]. right.
  rewrite <- EL in Hin. apply uses_elem, list_elem_of_bind in Hin as (node & Hx & Hnode). exists node. split; [done|].
  by eapply node_uses_elem.
Qed.

Section feeds.
Context (graph_inputs : list (NodeArg T)) (implicit_inputs : option (list (NodeArg T))).
Context (ins : gmap string (list (NodeInfo (T := T)))).
Context (Hins : ∀ n, ins !! n = mapped_entry GetExecutionProviderType graph_inputs implicit_inputs (g_nodes g) n).

Lemma copy_input_cpu h e :
  cpu_feed graph_inputs e → CopyOneInputAcrossDevices GetExecutionProviderType providers ins h e.1 e.2 = Ok (StatusOK, share e.2, h).
Proof.
  intros [Hn Ht]. unfold CopyOneInputAcrossDevices, GetInputNodeInfo. rewrite Hins.
  destruct (mapped_head graph_inputs implicit_inputs (g_nodes g) e.1 Hn) as (i & l & -> & Hi). cbn [mbind res_bind of_option head].
  cbn [IsOK StatusOK negb]. destruct (p_node i) as [node|] eqn:Ep; [|done]. destruct Hi as [?|(node' & Hnode & [= ->])]; [done|].
  destruct (data_ e.2) as [[t|]|] eqn:Ed; [|done..]. rewrite (provider_cpu _ node') by done. cbn [mbind res_bind].
  rewrite location_cpu. cbn [mbind res_bind of_option]. rewrite (co_type _ HC).
  rewrite bool_decide_false by done. rewrite !bool_decide_true by done. cbn [andb]. destruct (Ht t eq_refl) as [->| ->]; done.
Qed.
Lemma copy_inputs_cpu h feeds :
  Forall (cpu_feed graph_inputs) feeds →
  CopyInputsAcrossDevices GetExecutionProviderType providers ins h feeds = Ok (StatusOK, prod_map id share <$> feeds, h).
Proof.
  intros HF. unfold CopyInputsAcrossDevices. 
  match goal with |- foldM ?f _ _ = _ =>
    assert (H : ∀ acc, foldM f (StatusOK, acc, h) feeds = Ok (StatusOK, acc ++ (prod_map id share <$> feeds), h)); [|apply H] end.
  induction HF as [|e feeds He HF IH]; intros acc; cbn [foldM]; [by rewrite app_nil_r|].
  cbn [IsOK StatusOK negb]. rewrite copy_input_cpu by done. cbn [mbind res_bind]. cbn [IsOK StatusOK negb].
  etrans; [apply IH|]. by rewrite <- (assoc_L (++)).
Qed.
End feeds.
(** The feeds that were not copied are still held by the caller. *)
Lemma drop_share h x : drop_value h (share x) = Ok h.
Proof.
  unfold drop_value, share, IsAllocated. cbn [data_ shared]. destruct (data_ x) as [[t|]|]; [|done..].
  rewrite bool_decide_true by done. by rewrite andb_false_r.
Qed.
Lemma drop_feeds h (feeds : list (string * MLValue T)) : foldM drop_value h (snd <$> (prod_map id share <$> feeds)) = Ok h.
Proof. induction feeds as [|e l IH]; [done|]. simpl. by rewrite drop_share. Qed.

(** *** Fetches *)

Section fetches.
Context (output_names : list string) (Hnd : NoDup output_names).

(** A name that a node computes, and one of a weight that is a graph output. *)
Definition arg_named (n : string) (arg : NodeArg T) : Prop := na_exists arg = true ∧ na_name arg = n ∧ n ≠ ""%string.
Definition produced (n : string) : Prop := ∃ node arg, node ∈ g_nodes g ∧ arg ∈ n_outputs node ∧ arg_named n arg.
Definition weight (n : string) x : Prop := ∃ v, name_map_ names !! n = Some v ∧ (v, x) ∈ initialized_tensors_ session.

Record Matched (st : gset string * list (MLValue T)) : Prop := {
  ma_names : ∀ n, n ∈ st.1 → n ∈ output_names;
  ma_len : length st.2 = length output_names;
  ma_new : ∀ i n, output_names !! i = Some n →
    st.2 !! i = Some empty_MLValue ∧ (n ∈ st.1 → produced n) ∨ ∃ x, st.2 !! i = Some (share x) ∧ weight n x;
}.

Lemma Contains_Some n i : Contains output_names n = Some i → output_names !! i = Some n.
Proof.
  unfold Contains. destruct (list_find _ _) as [[j y]|] eqn:E; [|done]. intros [= ->]. by apply list_find_Some in E as (Hi & -> & _).
Qed.
Lemma Contains_None n : Contains output_names n = None → n ∉ output_names.
Proof.
  unfold Contains. destruct (list_find _ _) as [[j y]|] eqn:E; [done|]. intros _ Hn.
  apply list_find_None in E. rewrite Forall_forall in E. by apply (E n).
Qed.

(** One more name is seen, and its place filled. *)
Lemma matched_insert seen new n i x :
  Matched (seen, new) → output_names !! i = Some n → (x = empty_MLValue ∧ produced n ∨ ∃ y, x = share y ∧ weight n y) →
  Matched ({[n]} ∪ seen, <[i := x]> new).
Proof.
  intros [H1 H2 H3] Hi Hx. split; cbn [fst snd] in *.
  - intros m [->%elem_of_singleton|Hm]%elem_of_union; [by eapply list_elem_of_lookup_2|by apply H1].
  - by rewrite length_insert.
  - intros j m Hj. destruct (decide (j = i)) as [->|Hne].
    + rewrite Hi in Hj. injection Hj as <-. rewrite list_lookup_insert_eq by (rewrite H2; by eapply lookup_lt_Some).
      destruct Hx as [[-> ?]|(y & -> & ?)]; eauto.
    + rewrite list_lookup_insert_ne by done. destruct (H3 j m Hj) as [[? Hs]|?]; [left|by right]. split; [done|].
      intros [->%elem_of_singleton|Hm]%elem_of_union; [|auto]. by destruct Hne; eapply NoDup_lookup.
Qed.
Lemma all_seen (seen : gset string) :
  (∀ n, n ∈ seen → n ∈ output_names) → (size seen =? length output_names)%nat = true ↔ ∀ n, n ∈ output_names → n ∈ seen.
Proof.
  intros Hs. assert (Hsz : size (list_to_set output_names : gset string) = length output_names) by (by apply size_list_to_set).
  rewrite Nat.eqb_eq, <- Hsz. split.
  - intros E n Hn. assert (seen = list_to_set output_names) as ->; [|by apply elem_of_list_to_set].
    apply leibniz_equiv. apply set_subseteq_size_equiv; [|lia]. intros m Hm. by apply elem_of_list_to_set, Hs.
  - intros Hall. f_equal. apply leibniz_equiv. intros n. rewrite elem_of_list_to_set. split; auto.
Qed.
Abbreviation F := (replicate (length output_names) (empty_MLValue (T := T))).

Definition outputs_seen (l : list (NodeArg T)) (seen : gset string) : Prop :=
  ∀ n arg, arg ∈ l → arg_named n arg → n ∈ output_names → n ∈ seen.
Lemma match_output_ok node st E arg :
  node ∈ g_nodes g → arg ∈ n_outputs node → Matched st → outputs_seen E st.1 →
  ∃ st', match_output GetExecutionProviderType providers output_names F node st arg = Ok st' ∧ Matched st' ∧ outputs_seen (E ++ [arg]) st'.1.
Proof.
  intros Hnode Harg HM HE. destruct st as [seen new]. unfold match_output. cbn [fst] in *.
  assert (Hsnoc : ∀ seen', seen ⊆ seen' → (∀ n, arg_named n arg → n ∈ output_names → n ∈ seen') → outputs_seen (E ++ [arg]) seen').
  { intros seen' Hsub Hn n a [Ha| ->%list_elem_of_singleton]%elem_of_app Hna Hin; [apply Hsub; by eapply HE|by apply Hn]. }
  destruct (if negb _ || _ then None else _) as [i|] eqn:Ec.
  - destruct (negb (na_exists arg) || bool_decide (na_name arg = ""%string)) eqn:Eg; [done|]. apply orb_false_iff in Eg as [Ex%negb_false_iff En%bool_decide_eq_false_1].
    apply Contains_Some in Ec. rewrite lookup_replicate_2 by (by eapply lookup_lt_Some). cbn.
    eexists. split; [done|]. split; [apply matched_insert; [done..|left; split; [done|by exists node, arg]]|].
    apply Hsnoc; [set_solver|]. intros n (_ & <- & _) _. set_solver.
  - exists (seen, new). split; [done|]. split; [done|]. apply Hsnoc; [done|]. intros n (Ex & <- & Hne) Hin.
    rewrite Ex, bool_decide_false in Ec by done. by apply Contains_None in Ec.
Qed.

Lemma match_nodes_ok :
  ∃ st, foldM (match_node GetExecutionProviderType providers output_names F) (∅, F) (g_nodes g) = Ok st ∧ Matched st ∧
    outputs_seen (g_nodes g ≫= n_outputs) st.1.
Proof.
  destruct (foldM_events n_outputs (fun E st => Matched st ∧ outputs_seen E st.1)
    (match_node GetExecutionProviderType providers output_names F) (g_nodes g) [] (∅, F)) as (st & -> & HM & HE).
  - intros E st node Hnode [HM HE]. unfold match_node. destruct (size st.1 =? length F)%nat eqn:Es.
    + exists st. split; [done|]. split; [done|]. intros n arg _ _ Hin. rewrite length_replicate in Es. by apply (all_seen st.1); [apply HM|..].
    + destruct (foldM_events (fun arg => [arg]) (fun E st => Matched st ∧ outputs_seen E st.1)
        (match_output GetExecutionProviderType providers output_names F node) (n_outputs node) E st) as (st' & -> & HM' & HE'); [|done|].
      * intros E' st' arg Harg [HM' HE']. by apply match_output_ok.
      * exists st'. by rewrite list_bind_singleton in HE'.
  - split; [|by intros ? ? ?%not_elem_of_nil]. split; cbn [fst snd]; [by intros n ?%elem_of_empty|by rewrite length_replicate|].
    intros i n Hi. left. split; [apply lookup_replicate_2; by eapply lookup_lt_Some|by intros ?%elem_of_empty].
  - by exists st.
Qed.

(** A graph output that is a weight gets its value. *)
Definition weight_output (n : string) : Prop := (∃ arg, arg ∈ g_outputs g ∧ arg_named n arg) ∧ ∃ x, weight n x.
Lemma match_weight_ok st E arg :
  (∀ n, arg_named n arg → is_Some (name_map_ names !! n)) → Matched st → 
  (∀ n a, a ∈ E → arg_named n a → n ∈ output_names → weight_output n → n ∈ st.1) → arg ∈ g_outputs g →
  ∃ st', match_weight session output_names (StatusOK, st) arg = Ok (StatusOK, st') ∧ Matched st' ∧ st.1 ⊆ st'.1 ∧
    (∀ n a, a ∈ E ++ [arg] → arg_named n a → n ∈ output_names → weight_output n → n ∈ st'.1).
Proof.
  intros Hname HM HE Harg. destruct st as [seen new]. unfold match_weight. cbn [fst IsOK StatusOK negb] in *.
  assert (Hsnoc : ∀ seen' : gset string, seen ⊆ seen' → (∀ n, arg_named n arg → n ∈ output_names → weight_output n → n ∈ seen') →
    ∀ n a, a ∈ E ++ [arg] → arg_named n a → n ∈ output_names → weight_output n → n ∈ seen').
  { intros seen' Hsub Hn n a [Ha| ->%list_elem_of_singleton]%elem_of_app Hna Hin Hw; [apply Hsub; by eapply HE|by apply Hn]. }
  destruct (if negb _ || _ || _ then None else _) as [i|] eqn:Ec.
  - destruct (_ || _ || _) eqn:Eg in Ec; [done|]. apply orb_false_iff in Eg as [[Ex%negb_false_iff En%bool_decide_eq_false_1]%orb_false_iff _].
    apply Contains_Some in Ec. destruct (Hname (na_name arg)) as [v Hv]; [done|].
    rewrite (GetIdx_known session _ _ Hv). cbn [IsOK StatusOK negb].
    destruct (list_find _ _) as [[j [v' x]]|] eqn:Ef; cbn [fmap option_fmap option_map snd].
    + apply list_find_Some in Ef as (Hj & Hvv & _). cbn [fst] in Hvv. apply Nat2Z.inj in Hvv as ->. apply list_elem_of_lookup_2 in Hj.
      eexists. split; [done|]. split; [apply matched_insert; [done..|right; exists x; split; [done|by exists v]]|].
      split; [cbn; set_solver|]. apply Hsnoc; [set_solver|]. intros n (_ & <- & _) _ _. set_solver.
    + exists (seen, new). split; [done|]. split; [done|]. split; [done|]. apply Hsnoc; [done|].
      intros n (_ & <- & _) _ (_ & x & w & Hw & Hx). rewrite Hv in Hw. injection Hw as <-.
      apply list_find_None in Ef. rewrite Forall_forall in Ef. by destruct (Ef _ Hx).
  - exists (seen, new). split; [done|]. split; [done|]. split; [done|]. apply Hsnoc; [done|]. intros n (Ex & <- & Hne) Hin _.
    destruct (decide (na_name arg ∈ seen)) as [?|Hns]; [done|]. rewrite Ex, !bool_decide_false in Ec by done. by apply Contains_None in Ec.
Qed.

Lemma match_outputs_ok fetches :
  (fetches = [] ∨ fetches = F) → (∀ arg, arg ∈ g_outputs g → na_exists arg = true → is_Some (name_map_ names !! na_name arg)) →
  (∀ n, n ∈ output_names → produced n ∨ weight_output n) →
  ∃ new, MatchOutputsWithProviders GetExecutionProviderType providers session output_names fetches = Ok (StatusOK, F, new) ∧
    length new = length output_names ∧ ∀ i n, output_names !! i = Some n →
    new !! i = Some empty_MLValue ∧ produced n ∨ ∃ x, new !! i = Some (share x) ∧ weight n x.
Proof.
  intros Hf Hname Hall. unfold MatchOutputsWithProviders.
  assert ((if bool_decide (fetches = []) then F else fetches) = F) as -> by (case_bool_decide; by destruct Hf).
  destruct match_nodes_ok as ([seen new] & -> & HM & HE). cbn [mbind res_bind].
  assert (Hdone : ∀ seen new, Matched (seen, new) → (size seen =? length output_names)%nat = true → length new = length output_names ∧
    ∀ i n, output_names !! i = Some n → new !! i = Some empty_MLValue ∧ produced n ∨ ∃ x, new !! i = Some (share x) ∧ weight n x).
  { intros seen' new' [H1 H2 H3] Hs. split; [done|]. intros i n Hi. destruct (H3 i n Hi) as [[? Hp]|?]; [left|by right]. split; [done|].
    apply Hp. apply (all_seen seen'); [done..|]. by eapply list_elem_of_lookup_2. }
  destruct (size seen =? length output_names)%nat eqn:Es; [exists new; split; [done|]; by eapply Hdone|].
  destruct (foldM_events (fun arg => [arg]) (fun E acc => ∃ st, acc = (StatusOK, st) ∧ Matched st ∧ seen ⊆ st.1 ∧
      ∀ n a, a ∈ E → arg_named n a → n ∈ output_names → weight_output n → n ∈ st.1)
    (match_weight session output_names) (g_outputs g) [] (StatusOK, (seen, new))) as (acc & -> & [seen' new'] & -> & HM' & Hsub & HE').
  - intros E acc arg Harg (st & -> & HM' & Hsub & HE').
    destruct (match_weight_ok st E arg) as (st' & -> & HM'' & Hsub' & HE''); [|done..|].
    { intros n (Hx & <- & _). by apply Hname. }
    eexists. split; [done|]. exists st'. split; [done|]. split; [done|]. split; [by etrans|done].
  - exists (seen, new). split; [done|]. split; [done|]. split; [done|]. by intros ? ? ?%not_elem_of_nil.
  - cbn [mbind res_bind IsOK StatusOK negb fst] in *. rewrite app_nil_l, list_bind_singleton in HE'.
    assert (Es' : (size seen' =? length output_names)%nat = true).
    { apply all_seen; [apply HM'|]. intros n Hn. destruct (Hall n Hn) as [(node & arg & Hnode & Harg & Hna)|Hw].
      - apply Hsub. apply (HE n arg); [|done..]. apply list_elem_of_bind. by exists node.
      - destruct Hw as [(arg & Harg & Hna) Hx] eqn:Ew. apply (HE' n arg); done. }
    rewrite Es'. exists new'. split; [done|]. by eapply Hdone.
Qed.
End fetches.

Lemma copy_outputs_cpu h (out : list (MLValue T)) :
  Forall (fun x => ∃ t, data_ x = Some (TensorObject t)) out →
  CopyOutputsAcrossDevices providers h out (replicate (length out) empty_MLValue) = Ok (StatusOK, out, h).
Proof.
  intros Ht. unfold CopyOutputsAcrossDevices, indexed.
  assert (H : ∀ pre, foldM (copy_output providers) (StatusOK, pre ++ replicate (length out) empty_MLValue, h)
    (imap (fun i x => ((length pre + i)%nat, x)) out) = Ok (StatusOK, pre ++ out, h)); [|apply (H [])].
  induction Ht as [|x out [t Hx] Ht IH]; intros pre; [by cbn; rewrite !app_nil_r|]. cbn [imap length replicate foldM].
  assert (copy_output providers (StatusOK, pre ++ empty_MLValue :: replicate (length out) empty_MLValue, h) ((length pre + 0)%nat, x) =
    Ok (StatusOK, (pre ++ [x]) ++ replicate (length out) empty_MLValue, h)) as ->.
  { unfold copy_output. cbn [IsOK StatusOK negb]. rewrite Nat.add_0_r, list_lookup_middle by done. cbn [mbind res_bind of_option].
    rewrite Hx, location_cpu. cbn [mbind res_bind of_option]. rewrite (co_type _ HC), bool_decide_true by done. cbn.
    rewrite insert_app_r_alt by lia. rewrite Nat.sub_diag. cbn. by rewrite <- (assoc_L (++)). }
  cbn [mbind res_bind].
  assert (imap ((fun i y => ((length pre + i)%nat, y)) ∘ S) out = imap (fun i y => ((length (pre ++ [x]) + i)%nat, y)) out) as ->.
  { apply imap_ext. intros i y _. cbn. f_equal. rewrite length_app. cbn. lia. }
  rewrite IH. by rewrite <- (assoc_L (++)).
Qed.

(** *** The run *)

Section run.
Context (kernel : Z → list (option (MLValue T)) → Status * list (Z * TensorShape)).
Context (out_shape : nat → TensorShape) (bytes : nat → Z).

Lemma feeds_shared h feeds :
  FeedsOk session out_shape h feeds → FeedsOk session out_shape h (prod_map id share <$> feeds).
Proof.
  intros [H1 H2 H3 H4]. split; [done| |done|].
  - intros n x ([n' y] & [= -> ->] & Hin)%list_elem_of_fmap. destruct (H2 _ _ Hin) as (v & ? & ? & ?). by exists v.
  - intros v Hv. destruct (H4 v Hv) as [(n & x & Hin & Hn)|?]; [left|by right]. exists n, (share x). split; [|done].
    apply list_elem_of_fmap. by exists (n, x).
Qed.

(** An output that the caller may ask for: a node computes it, or it is a weight. *)
Definition fetchable (n : string) : Prop :=
  (∃ v, name_map_ names !! n = Some v ∧ v ∈ all_ids names (g_outputs g)) ∧ (produced n ∨ weight_output n).

Lemma matched_fetches_ok h feeds output_names new :
  RunOk session kernel out_shape bytes → FeedsOk session out_shape h feeds →
  (∀ node, node ∈ g_nodes g → node ∈ g_topo g) → (∀ n, n ∈ output_names → fetchable n) → length new = length output_names →
  (∀ i n, output_names !! i = Some n → new !! i = Some empty_MLValue ∧ produced n ∨ ∃ x, new !! i = Some (share x) ∧ weight n x) →
  FetchesOk session out_shape h output_names new.
Proof.
  intros HR HF Htopo Hn Hlen Hnew. right. apply Forall2_same_length_lookup. split; [done|]. intros i n x Hi Hx.
  destruct (Hn n) as [(v & Hv & _) _]; [by eapply list_elem_of_lookup_2|]. exists v. split; [done|].
  destruct (Hnew i n Hi) as [[He Hp]|(y & Hy & w & Hw & Hin)].
  - left. rewrite Hx in He. injection He as ->. split; [|done]. destruct Hp as (node & arg & Hnode & Harg & Hex & <- & _).
    apply list_elem_of_bind. exists node. split; [apply elem_of_ids; eauto|by apply Htopo].
  - right. rewrite Hv in Hw. injection Hw as <-. rewrite Hx in Hy. injection Hy as ->.
    destruct (fd_init _ _ _ _ HF v y Hin) as [? Hok]. done.
Qed.
End run.
End cpu.

Section graph.
Context {T : Type} `{!TensorTypes T, !ValueTypes T}.
Context (CreateFence : OrtAllocatorInfo → option nat) (session : SessionState T).
Context (kernel : Z → list (option (MLValue T)) → Status * list (Z * TensorShape)).
Context (out_shape : nat → TensorShape) (bytes : nat → Z).
Context (GetExecutionProviderType : Node T → string) (providers : ExecutionProviders (T := T)).

(** The same with any list of inputs that the mapping was built for. *)
Lemma execute_graph_ok cpu graph_inputs implicit_inputs ins terminate h feeds output_names fetches :
  RunOk session kernel out_shape bytes → CpuOnly session GetExecutionProviderType providers cpu →
  (∀ n, ins !! n = mapped_entry GetExecutionProviderType graph_inputs implicit_inputs (g_nodes (graph_viewer_ session)) n) →
  FeedsOk session out_shape h feeds → Forall (cpu_feed graph_inputs) feeds →
  (∀ node, node ∈ g_nodes (graph_viewer_ session) → node ∈ g_topo (graph_viewer_ session)) →
  NoDup output_names → (∀ n, n ∈ output_names → fetchable session n) →
  (fetches = [] ∨ fetches = replicate (length output_names) empty_MLValue) → (∀ k, terminate k = false) →
  ∃ out session' h', ExecuteGraph GetExecutionProviderType providers CreateFence session kernel ins terminate h feeds output_names fetches =
      Ok (StatusOK, out, session', h') ∧
    Forall2 (fetched session out_shape h') output_names out ∧ RunOk session' kernel out_shape bytes ∧ (next_buffer h ≤ next_buffer h')%nat ∧
    (∀ b, b ∈ freed h' ↔ b ∈ freed h ∨ (next_buffer h ≤ b < next_buffer h')%nat ∧ ¬ held out b).
Proof.
  intros HR HC Hins HF Hcf Htopo Hnd Hn Hfe Ht.
  unfold ExecuteGraph. rewrite (copy_inputs_cpu _ _ _ _ HC _ _ _ Hins) by done. cbn [mbind res_bind IsOK StatusOK negb].
  destruct (match_outputs_ok session GetExecutionProviderType providers _ HC output_names Hnd fetches Hfe)
    as (new & -> & Hlen & Hnew).
  { intros arg Ha He. apply (ok_known _ _ (ro_graph _ _ _ _ HR)); [|done]. unfold graph_args. set_solver. }
  { intros n Hin. by apply Hn. }
  cbn [mbind res_bind IsOK StatusOK negb].
  destruct (Execute_ok CreateFence session kernel out_shape bytes h HR terminate (prod_map id share <$> feeds) output_names new)
    as (out & session' & h' & f & -> & _ & _ & HR' & Hout & Hnext & Hmem).
  { by apply feeds_shared. }
  { by eapply matched_fetches_ok. }
  { done. }
  { intros n Hin. by apply Hn. }
  cbn [mbind res_bind IsOK StatusOK negb].
  assert (length output_names = length out) as -> by (by eapply Forall2_length).
  rewrite (copy_outputs_cpu _ _ _ _ HC).
  - cbn [mbind res_bind]. rewrite drop_feeds. by exists out, session', h'.
  - apply Forall_forall. intros x (i & Hi)%list_elem_of_lookup. destruct (Forall2_lookup_r _ _ _ _ _ Hout Hi) as (n & _ & v & t & _ & Hd & _). eauto.
Qed.

(** C28. [ExecuteGraph] on a session that only has the CPU provider: with the
    mapping that the session initializer builds, feeds in CPU memory for inputs
    of the graph and outputs that a node computes or that are weights, it
    returns OK. The fetches of the caller are the results of the executor, each
    a live tensor of the right shape. The steps around the executor copy
    nothing: the buffers given back are those of the run that no fetched value
    holds, and the session is ready for the next run. *)
Theorem execute_graph_cpu cpu implicit_inputs ins outs terminate h feeds output_names fetches :
  RunOk session kernel out_shape bytes → CpuOnly session GetExecutionProviderType providers cpu →
  SaveInputOutputNamesToNodeMapping GetExecutionProviderType (g_nodes (graph_viewer_ session)) (g_inputs (graph_viewer_ session))
    (g_outputs (graph_viewer_ session)) implicit_inputs (∅, ∅) = Ok (StatusOK, (ins, outs)) →
  FeedsOk session out_shape h feeds → Forall (cpu_feed (g_inputs (graph_viewer_ session))) feeds →
  (∀ node, node ∈ g_nodes (graph_viewer_ session) → node ∈ g_topo (graph_viewer_ session)) →
  NoDup output_names → (∀ n, n ∈ output_names → fetchable session n) →
  (fetches = [] ∨ fetches = replicate (length output_names) empty_MLValue) → (∀ k, terminate k = false) →
  ∃ out session' h', ExecuteGraph GetExecutionProviderType providers CreateFence session kernel ins terminate h feeds output_names fetches =
      Ok (StatusOK, out, session', h') ∧
    Forall2 (fetched session out_shape h') output_names out ∧ RunOk session' kernel out_shape bytes ∧
    (∀ b, b ∈ freed h' ↔ b ∈ freed h ∨ (next_buffer h ≤ b < next_buffer h')%nat ∧ ¬ held out b).
Proof.
  intros HR HC Hsave HF Hcf Htopo Hnd Hn Hfe Ht.
  destruct (save_mapping_ok GetExecutionProviderType (g_inputs (graph_viewer_ session)) (g_outputs (graph_viewer_ session)) implicit_inputs
    (g_nodes (graph_viewer_ session))) as (ins' & outs' & E & Hins). rewrite Hsave in E. injection E as <- <-.
  destruct (execute_graph_ok cpu (g_inputs (graph_viewer_ session)) implicit_inputs ins terminate h feeds output_names fetches)
    as (out & session' & h' & E & H1 & H2 & _ & H3); [done..|]. by exists out, session', h'.
Qed.

(** The mapping from input names to the nodes that use them, as the session
    initializer builds it: building it never fails. A name has an entry if a
    node of the graph uses it as an input of the graph or implicitly, or if it is
    an input of the graph. All entries of a name need the same provider. If the
    name has explicit uses, then its entries are, in order, the explicit uses
    that need the provider of the first one; the uses on other providers are
    left out without an error. *)
Theorem input_mapping_exact nodes graph_inputs graph_outputs implicit_inputs :
  ∃ ins outs, SaveInputOutputNamesToNodeMapping GetExecutionProviderType nodes graph_inputs graph_outputs implicit_inputs (∅, ∅) =
      Ok (StatusOK, (ins, outs)) ∧
    ∀ n, let L := uses_of (nodes ≫= node_uses graph_inputs implicit_inputs) n in
    match L with
    | [] => GetInputNodeInfo ins n = if IsArgNameInInputsOutputs n graph_inputs then (StatusOK, [mkNodeInfo size_t_max None None]) else (Some FAIL, [])
    | first :: _ => ∃ e l p, GetInputNodeInfo ins n = (StatusOK, e :: l) ∧ e ∈ L ∧
        (∀ e', e' ∈ e :: l → GetNodeInputProviderType GetExecutionProviderType e' = Ok p) ∧
        if existsb explicit L then
          head (List.filter explicit L) = Some e ∧
          e :: l = List.filter (fun e' => explicit e' && same_provider GetExecutionProviderType e e') L
        else e = first ∧ l = []
    end.
Proof.
  destruct (save_mapping_ok GetExecutionProviderType graph_inputs graph_outputs implicit_inputs nodes) as (ins & outs & E & Hins).
  exists ins, outs. split; [done|]. intros n. cbn zeta. unfold GetInputNodeInfo. rewrite Hins. unfold mapped_entry.
  assert (HL : Forall (fun e => is_Some (p_node e)) (uses_of (nodes ≫= node_uses graph_inputs implicit_inputs) n)).
  { apply Forall_forall. intros e He%uses_elem. apply list_elem_of_bind in He as (node & He & _). by apply node_uses_elem in He as ->. }
  destruct (uses_of _ n) as [|a L]; [by destruct (IsArgNameInInputsOutputs n graph_inputs)|].
  destruct (entries_spec GetExecutionProviderType a L HL) as (e & l & p & -> & ?). by exists e, l, p.
Qed.
End graph.

(** ** Allocators by key *)

Lemma lor_shift_neg id m : 0 ≤ id → m = -1 ∨ m = -2 → Z.lor (Z.shiftl id 2) m = m.
Proof.
  intros Hid Hm. apply Z.bits_inj'. intros n Hn. rewrite Z.lor_spec, Z.shiftl_spec by done.
  destruct (decide (n < 2)) as [Hlt|Hge]; [by rewrite Z.testbit_neg_r by lia|].
  assert (Z.testbit m n = true) as ->; [|apply orb_true_r]. destruct Hm as [-> | ->]; [by apply Z.bits_m1|].
  replace (-2) with (Z.lnot 1) by done. rewrite Z.lnot_spec by done. rewrite (Z.bits_above_log2 1); [done|lia|simpl; lia].
Qed.
Lemma MakeKey_eq id id' m m' :
  0 ≤ id → 0 ≤ id' → (m = -2 ∨ m = -1 ∨ m = 0) → (m' = -2 ∨ m' = -1 ∨ m' = 0) →
  MakeKey id m = MakeKey id' m' ↔ m = m' ∧ (id = id' ∨ m < 0).
Proof.
  intros Hid Hid' Hm Hm'. unfold MakeKey.
  assert (H : ∀ id m, 0 ≤ id → (m = -2 ∨ m = -1 ∨ m = 0) → Z.lor (Z.shiftl id 2) m = if m <? 0 then m else 4 * id).
  { intros i k Hi [->|[->| ->]]; [by apply lor_shift_neg; auto..|]. rewrite Z.lor_0_r, Z.shiftl_mul_pow2 by done. change (i * 4 = 4 * i). lia. }
  rewrite !H by done. destruct Hm as [->|[->| ->]], Hm' as [->|[->| ->]]; simpl; lia.
Qed.

(** [InsertAllocator] and [GetAllocator] of a provider: an allocator that
    was inserted is found under its device and memory type, and the others are
    found as before. For the pinned memory types, whose values are negative, the
    device does not matter: the allocator is found for every device, and no
    second one of the same memory type can be inserted. *)
Theorem allocator_lookup {T} (p p' : IExecutionProvider (T := T)) (a b : OrtAllocatorInfo) id mem_type :
  InsertAllocator p a = Ok p' → 0 ≤ i_id a < 2 ^ 29 → 0 ≤ id < 2 ^ 29 →
  (i_mem_type a = OrtMemTypeCPUInput ∨ i_mem_type a = OrtMemTypeCPUOutput ∨ i_mem_type a = OrtMemTypeDefault) →
  (mem_type = OrtMemTypeCPUInput ∨ mem_type = OrtMemTypeCPUOutput ∨ mem_type = OrtMemTypeDefault) →
  provider_GetAllocator p' id mem_type =
    (if (mem_type =? i_mem_type a) && ((id =? i_id a) || MemTypeOnCpuExplicitly mem_type) then Some a else provider_GetAllocator p id mem_type) ∧
  (i_id b = id → i_mem_type b = mem_type →
    InsertAllocator p' b = Throw EnforceFailed ↔ is_Some (provider_GetAllocator p' id mem_type)).
Proof.
  unfold InsertAllocator, provider_GetAllocator, MemTypeOnCpuExplicitly, OrtMemTypeCPUInput, OrtMemTypeCPUOutput, OrtMemTypeDefault.
  intros Hins Ha Hid Hm Hmt. destruct (allocators_ p !! MakeKey (i_id a) (i_mem_type a)); [done|]. injection Hins as <-. cbn [allocators_].
  pose proof (MakeKey_eq (i_id a) id (i_mem_type a) mem_type (proj1 Ha) (proj1 Hid) Hm Hmt) as Hk. split.
  - destruct (decide (MakeKey (i_id a) (i_mem_type a) = MakeKey id mem_type)) as [E|E].
    + rewrite E, lookup_insert_eq. apply Hk in E as [E1 E2]. rewrite <- E1, Z.eqb_refl. cbn [andb].
      destruct E2 as [->|E2]; [by rewrite Z.eqb_refl|]. assert (i_mem_type a = -2 ∨ i_mem_type a = -1) as [-> | ->] by lia; by rewrite orb_true_r.
    + rewrite lookup_insert_ne by done. destruct (_ && _) eqn:Eb; [|done]. destruct E. apply Hk.
      apply andb_true_iff in Eb as [?%Z.eqb_eq [?%Z.eqb_eq|[?%Z.eqb_eq|?%Z.eqb_eq]%orb_true_iff]%orb_true_iff]; lia.
  - intros <- <-. destruct (_ !! MakeKey (i_id b) (i_mem_type b)); by split.
Qed.

(** ** A concrete session *)

Module Cpu.
Import ExecutionProps.Run.
#[local] Existing Instance AllocPlannerProps.onnx_types.
Definition info : OrtAllocatorInfo := mkInfo CPU 0 0 1.
Definition no_copy (src dst : Tensor MLDataType) : res (Status * Tensor MLDataType) := cpu_CopyTensor src dst.
Definition cpu0 : IExecutionProvider (T := MLDataType) := mkExecutionProvider kCpuExecutionProvider ∅ no_copy.
Definition cpu : IExecutionProvider (T := MLDataType) :=
  match InsertAllocator cpu0 info with Ok p => p | _ => cpu0 end.
Definition providers : ExecutionProviders (T := MLDataType) := snd (providers_Add (mkProviders [] ∅ []) kCpuExecutionProvider cpu).
Definition on_cpu (_ : Node MLDataType) : string := kCpuExecutionProvider.

Lemma cpu_only : CpuOnly session on_cpu providers cpu.
Proof.
  split; [done|by vm_compute| |done].
  intros i p. unfold Get_by_info. destruct (list_find _ _) as [[j e]|] eqn:E; [|done]. cbn.
  apply list_find_Some in E as (Hj & _ & _). assert (allocator_idx_map_ providers = [(info, 0%nat)]) as HE by (vm_compute; reflexivity).
  rewrite HE in Hj. apply list_elem_of_lookup_2, list_elem_of_singleton in Hj as ->. cbn. by intros [= <-].
Qed.
Lemma feeds_on_cpu : Forall (cpu_feed (g_inputs (graph_viewer_ session))) feeds.
Proof. constructor; [|constructor]. split; [by vm_compute|]. intros t [= <-]. by left. Qed.
Lemma nodes_ordered node : node ∈ g_nodes (graph_viewer_ session) → node ∈ g_topo (graph_viewer_ session).
Proof. done. Qed.
Lemma output_fetchable n : n ∈ ["E"%string] → fetchable session n.
Proof.
  intros ->%list_elem_of_singleton. split; [by apply names_ok; left|]. left.
  exists (AllocPlannerProps.Example.node 4 ["D"%string] ["E"%string] [] []), (AllocPlannerProps.Example.arg "E").
  split; [|split; [by left|done]]. apply (list_elem_of_lookup_2 _ 4). by vm_compute.
Qed.
End Cpu.
#[local] Existing Instance AllocPlannerProps.onnx_types.
#[local] Existing Instance ExecutionProps.Run.value_types.

(** What [ExecuteGraph] leaves on the chain: one result that owns its memory,
    five buffers given out and the two that are not fetched given back. *)
Lemma execute_graph_cpu_witness :
  ∃ ins outs out session' h', SaveInputOutputNamesToNodeMapping Cpu.on_cpu (g_nodes (graph_viewer_ Run.session)) (g_inputs (graph_viewer_ Run.session))
      (g_outputs (graph_viewer_ Run.session)) None (∅, ∅) = Ok (StatusOK, (ins, outs)) ∧
    ExecuteGraph Cpu.on_cpu Cpu.providers Run.no_fence Run.session Run.run_kernel ins (fun _ => false) Run.heap Run.feeds ["E"%string] [] =
      Ok (StatusOK, out, session', h') ∧
    length out = 1%nat ∧ next_buffer h' = 5%nat ∧ 2%nat ∈ freed h' ∧ RunOk session' Run.run_kernel (fun _ => Run.shape) (fun _ => 64).
Proof.
  destruct (save_mapping_ok Cpu.on_cpu (g_inputs (graph_viewer_ Run.session)) (g_outputs (graph_viewer_ Run.session)) None
    (g_nodes (graph_viewer_ Run.session))) as (ins & outs & E & _).
  destruct (execute_graph_cpu Run.no_fence Run.session Run.run_kernel (fun _ => Run.shape) (fun _ => 64) Cpu.on_cpu Cpu.providers Cpu.cpu None ins outs
    (fun _ => false) Run.heap Run.feeds ["E"%string] [] Run.run_ok Cpu.cpu_only E Run.feeds_ok Cpu.feeds_on_cpu Cpu.nodes_ordered
    ltac:(apply NoDup_singleton) Cpu.output_fetchable (or_introl eq_refl) (fun _ => eq_refl)) as (out & session' & h' & EX & Hout & HR & Hmem).
  exists ins, outs, out, session', h'. split; [exact E|]. split; [exact EX|]. split; [by eapply eq_sym, (Forall2_length _ _ _ Hout)|].
  assert (Hins : ins = match SaveInputOutputNamesToNodeMapping Cpu.on_cpu (g_nodes (graph_viewer_ Run.session)) (g_inputs (graph_viewer_ Run.session))
      (g_outputs (graph_viewer_ Run.session)) None (∅, ∅) with Ok (_, (ins, _)) => ins | _ => ∅ end) by (by rewrite E).
  assert (Hh : option_map (fun h => (next_buffer h, bool_decide (2%nat ∈ freed h))) (match ExecuteGraph Cpu.on_cpu Cpu.providers Run.no_fence Run.session Run.run_kernel ins (fun _ => false) Run.heap Run.feeds ["E"%string] [] with
    Ok (_, _, _, h) => Some h | _ => None end) = Some (5%nat, true)) by (rewrite Hins; vm_compute; reflexivity).
  rewrite EX in Hh. injection Hh as Hn Hb. split; [exact Hn|]. split; [by apply bool_decide_eq_true in Hb|exact HR].
Defined.

Lemma allocator_lookup_witness :
  InsertAllocator Cpu.cpu0 (mkInfo CPU 3 (-1) 1) ≠ Throw EnforceFailed ∧ ∃ p', InsertAllocator Cpu.cpu0 (mkInfo CPU 3 (-1) 1) = Ok p' ∧
    provider_GetAllocator p' 5 OrtMemTypeCPUOutput = Some (mkInfo CPU 3 (-1) 1) ∧
    InsertAllocator p' (mkInfo CPU 5 (-1) 1) = Throw EnforceFailed.
Proof.
  split; [by vm_compute|]. eexists. split; [vm_compute; reflexivity|].
  destruct (allocator_lookup Cpu.cpu0 _ (mkInfo CPU 3 (-1) 1) (mkInfo CPU 5 (-1) 1) 5 OrtMemTypeCPUOutput eq_refl) as [H1 H2];
    [by vm_compute|by vm_compute|right; by left|right; by left|].
  split; [exact H1|]. apply H2; [done|done|]. rewrite H1. by eexists.
Defined.
