(* ===== verification/ParallelExecutor.v ===== *)
(** The parallel executor of [parallel_executor.cc]: the counters of unfinished
    inputs, the tasks that run nodes, the two mutexes and the condition variable
    on which [Execute] waits. A state machine: each step is what one thread does
    between two points where another thread can see a difference. Below it the
    thread pool of [task_thread_pool.h], which runs the tasks. *)
From S2P Require Import Prelude Graph GraphInv GraphTopo.

(** ** Threads *)

(** Where a call of [RunNodeAsync] is. [Releasing] holds [ref_mutex_] and has the
    output edges that are left and the node to go on with; [Notifying] has
    counted [out_standings_] down to 0. The flag says that the call ends with an
    exception. *)
Inductive Task :=
  | RunNode (node_index : nat)
  | Computing (node_index : nat)
  | Locking (node_index : nat)
  | Releasing (node_index : nat) (edges : list EdgeEnd) (next : option nat)
  | Finishing (exception : bool)
  | Notifying (exception : bool)
  | Ended (exception : bool).

(** Where [Execute] is: putting root nodes in the queue, testing
    [out_standings_], waiting on [complete_cv_], or past the wait. *)
Inductive Main :=
  | Enqueuing (roots : list nat)
  | Testing
  | Waiting
  | Returned.

(** The members of the executor and its threads. The last four fields record
    what has happened: the nodes given to a task, the nodes whose kernel
    returned OK, the nodes given up, and the edges that were counted down. *)
Record State := mkState {
  node_refs_ : list Z;
  out_standings_ : Z;
  ref_mutex_ : option nat;
  tasks : list Task;
  main : Main;
  terminate_flag_ : bool;
  started : list nat;
  computed : list nat;
  failed : list nat;
  released : list (nat * EdgeEnd);
}.

(** What a thread can do: go on, wait for a mutex or for nothing any more, or
    leave the defined behaviour. *)
Inductive outcome :=
  | Moved (st : State)
  | Blocked
  | Undefined.

Section executor.
Context (g : Graph).
(** The kernel of a node, if the session has one, and whether [Compute] returns OK. *)
Context (GetKernel : nat → option bool).

Definition new_refs : list Z :=
  foldl (fun refs p => <[p.1 := Z.of_nat (length (n_input_edges p.2))]> refs) (replicate (MaxNodeIndex g) 0) (Nodes g).
(** The executor after its constructor, at the start of [Execute]. *)
Definition new_ParallelExecutor (terminate : bool) : State :=
  mkState new_refs 0 None [] (Enqueuing (root_nodes g)) terminate [] [] [] [].

Definition set_task st (i : nat) (t : Task) : State :=
  mkState (node_refs_ st) (out_standings_ st) (ref_mutex_ st) (<[i := t]> (tasks st)) (main st) (terminate_flag_ st)
    (started st) (computed st) (failed st) (released st).
Definition set_main st (m : Main) : State :=
  mkState (node_refs_ st) (out_standings_ st) (ref_mutex_ st) (tasks st) m (terminate_flag_ st)
    (started st) (computed st) (failed st) (released st).
Definition set_mutex st (m : option nat) : State :=
  mkState (node_refs_ st) (out_standings_ st) m (tasks st) (main st) (terminate_flag_ st)
    (started st) (computed st) (failed st) (released st).
Definition set_out st (n : Z) : State :=
  mkState (node_refs_ st) n (ref_mutex_ st) (tasks st) (main st) (terminate_flag_ st)
    (started st) (computed st) (failed st) (released st).
Definition note_started st (n : nat) : State :=
  mkState (node_refs_ st) (out_standings_ st) (ref_mutex_ st) (tasks st) (main st) (terminate_flag_ st)
    (started st ++ [n]) (computed st) (failed st) (released st).
Definition note_computed st (n : nat) : State :=
  mkState (node_refs_ st) (out_standings_ st) (ref_mutex_ st) (tasks st) (main st) (terminate_flag_ st)
    (started st) (computed st ++ [n]) (failed st) (released st).
Definition note_failed st (n : nat) : State :=
  mkState (node_refs_ st) (out_standings_ st) (ref_mutex_ st) (tasks st) (main st) (terminate_flag_ st)
    (started st) (computed st) (failed st ++ [n]) (released st).
Definition count_down st (idx : nat) (r : Z) (u : nat) (e : EdgeEnd) : State :=
  mkState (<[idx := r]> (node_refs_ st)) (out_standings_ st) (ref_mutex_ st) (tasks st) (main st) (terminate_flag_ st)
    (started st) (computed st) (failed st) (released st ++ [(u, e)]).

Definition EnqueueNode st (n : nat) : State :=
  mkState (node_refs_ st) (out_standings_ st + 1) (ref_mutex_ st) (tasks st ++ [RunNode n]) (main st) (terminate_flag_ st)
    (started st ++ [n]) (computed st) (failed st) (released st).

(** [FinishNodeRun] up to the end of its critical section. *)
Definition FinishNodeRun st (i : nat) (exception : bool) : State :=
  let out := out_standings_ st - 1 in
  set_task (set_out st out) i (if out =? 0 then Notifying exception else Ended exception).

(** One output edge in the critical section of [ref_mutex_]. *)
Definition release_edge st (i u : nat) (e : EdgeEnd) (es : list EdgeEnd) (next : option nat) : outcome :=
  let idx := e_node e in
  match node_refs_ st !! idx with
  | None => Undefined
  | Some r =>
      let r := u64 (r - 1) in
      let st := count_down st idx r u e in
      if r =? 0 then
        match next with
        | None => Moved (set_task st i (Releasing u es (Some idx)))
        | Some _ => Moved (EnqueueNode (set_task st i (Releasing u es next)) idx)
        end
      else Moved (set_task st i (Releasing u es next))
  end.

(** The head of the loop, the kernel, and the two ends of the critical section
    of [RunNodeAsyncInternal]. An exception goes through [RunNodeAsync], which
    calls [FinishNodeRun]. *)
Definition begin_node st (i n : nat) : outcome :=
  if terminate_flag_ st then Moved (note_failed (set_task st i (Finishing true)) n)
  else match GetKernel n with
       | None => Moved (note_failed (set_task st i (Finishing true)) n)
       | Some _ => Moved (set_task st i (Computing n))
       end.
Definition compute_kernel st (i n : nat) : outcome :=
  if default false (GetKernel n) then Moved (note_computed (set_task st i (Locking n)) n)
  else Moved (note_failed (set_task st i (Finishing true)) n).
Definition lock_refs st (i n : nat) : outcome :=
  match live g n, ref_mutex_ st with
  | None, _ => Undefined
  | Some _, Some _ => Blocked
  | Some node, None => Moved (set_mutex (set_task st i (Releasing n (n_output_edges node) None)) (Some i))
  end.
Definition unlock_refs st (i : nat) (next : option nat) : outcome :=
  match next with
  | Some n => Moved (note_started (set_mutex (set_task st i (RunNode n)) None) n)
  | None => Moved (set_mutex (set_task st i (Finishing false)) None)
  end.
(** The notification at the end of [FinishNodeRun]. *)
Definition notify st (i : nat) (exception : bool) : outcome :=
  Moved (set_task (match main st with Waiting => set_main st Testing | _ => st end) i (Ended exception)).

(** One step of the call [i] of [RunNodeAsync]. *)
Definition task_step st (i : nat) : outcome :=
  match tasks st !! i with
  | Some (RunNode n) => begin_node st i n
  | Some (Computing n) => compute_kernel st i n
  | Some (Locking n) => lock_refs st i n
  | Some (Releasing u (e :: es) next) => release_edge st i u e es next
  | Some (Releasing u [] next) => unlock_refs st i next
  | Some (Finishing exception) => Moved (FinishNodeRun st i exception)
  | Some (Notifying exception) => notify st i exception
  | Some (Ended _) | None => Blocked
  end.

(** One step of [Execute] up to the end of its wait. *)
Definition main_step st : outcome :=
  match main st with
  | Enqueuing (n :: roots) =>
      match GetKernel n with
      | None => Moved (note_failed (set_main st (Enqueuing roots)) n)
      | Some _ => Moved (EnqueueNode (set_main st (Enqueuing roots)) n)
      end
  | Enqueuing [] => Moved (set_main st Testing)
  | Testing => Moved (set_main st (if 0 <? out_standings_ st then Waiting else Returned))
  | Waiting | Returned => Blocked
  end.

(** The steps of the executor, and what comes from outside: the terminate flag
    is set, or the wait ends without a notification. *)
Inductive step : relation State :=
  | step_task st i st' : task_step st i = Moved st' → step st st'
  | step_main st st' : main_step st = Moved st' → step st st'.
Inductive env_step : relation State :=
  | env_terminate st : env_step st
      (mkState (node_refs_ st) (out_standings_ st) (ref_mutex_ st) (tasks st) (main st) true
         (started st) (computed st) (failed st) (released st))
  | env_wakeup st : main st = Waiting → env_step st (set_main st Testing).
Definition reachable st : Prop := ∃ terminate, rtc (fun a b => step a b ∨ env_step a b) (new_ParallelExecutor terminate) st.

(** ** The thread pool *)

(** [TaskThreadPool] runs the tasks: its queue holds the calls that no thread has
    taken yet, in the order in which [RunTask] put them there, so the number of
    calls taken says which they are. A thread that has taken a call runs it to its
    end. *)
Record PoolState := mkPool {
  executor : State;
  taken : nat;
}.
Definition new_TaskThreadPool (terminate : bool) : PoolState := mkPool (new_ParallelExecutor terminate) 0.
Definition busy (t : Task) : bool := match t with Ended _ => false | _ => true end.
(** The threads that are not [available_]. *)
Definition running (p : PoolState) : nat := length (filter busy (take (taken p) (tasks (executor p)))).
Context (total_ : nat).
(** A thread takes the front of the queue. *)
Definition can_take (p : PoolState) : bool := (taken p <? length (tasks (executor p)))%nat && (running p <? total_)%nat.
Inductive pool_step : relation PoolState :=
  | pool_take p : can_take p = true → pool_step p (mkPool (executor p) (S (taken p)))
  | pool_task p i st : (i < taken p)%nat → task_step (executor p) i = Moved st → pool_step p (mkPool st (taken p))
  | pool_main p st : main_step (executor p) = Moved st → pool_step p (mkPool st (taken p)).
Definition pool_env_step (p p' : PoolState) : Prop := env_step (executor p) (executor p') ∧ taken p' = taken p.
Definition pool_reachable p : Prop := ∃ terminate, rtc (fun a b => pool_step a b ∨ pool_env_step a b) (new_TaskThreadPool terminate) p.
End executor.

(** The size of the pool of a session, from its options and the number of
    processors. *)
Definition pool_size (session_thread_pool_size hardware_concurrency : Z) : Z :=
  if session_thread_pool_size =? 0 then hardware_concurrency `div` 2 else session_thread_pool_size.
