(* ===== verification/ParallelInv.v ===== *)
(** The invariant of the parallel executor: the counters are the numbers of input
    edges that are not yet released, every node whose counter is 0 is in exactly
    one place, and [out_standings_] is the number of calls that have not
    counted it down. *)
From S2P Require Import Prelude Graph GraphInv GraphTopo ParallelExecutor.

(** ** Lists of tasks *)

Lemma bind_insert {A B} (f : A → list B) (l : list A) i t :
  l !! i = Some t → ∃ rest, l ≫= f ≡ₚ f t ++ rest ∧ ∀ t', <[i := t']> l ≫= f ≡ₚ f t' ++ rest.
Proof.
  intros Hi. exists ((take i l ≫= f) ++ (drop (S i) l ≫= f)). split.
  - rewrite <- (take_drop_middle l i t Hi) at 1. rewrite bind_app. simpl. by rewrite Permutation_app_swap_app.
  - intros t'. rewrite insert_take_drop by (by eapply lookup_lt_Some). rewrite bind_app. simpl. by rewrite Permutation_app_swap_app.
Qed.
Lemma bind_snoc {A B} (f : A → list B) l t : (l ++ [t]) ≫= f = (l ≫= f) ++ f t.
Proof. rewrite bind_app. simpl. by rewrite app_nil_r. Qed.

Section inv.
Context (g : Graph) (GetKernel : nat → option bool).
Implicit Types (st : State) (t : Task).

(** Calls that [out_standings_] counts. *)
Definition active t : list unit :=
  match t with Notifying _ | Ended _ => [] | _ => [()] end.
(** The node a call runs, the node it goes on with, and the edges it owes. *)
Definition current t : list nat := match t with RunNode n | Computing n => [n] | _ => [] end.
Definition following t : list nat := match t with Releasing _ _ (Some n) => [n] | _ => [] end.
Definition lockers t : list nat := match t with Locking n => [n] | _ => [] end.
Definition out_edges (u : nat) : list EdgeEnd := match live g u with Some n => n_output_edges n | None => [] end.
Definition owes t : list (nat * EdgeEnd) :=
  match t with
  | Locking u => pair u <$> out_edges u
  | Releasing u es _ => pair u <$> es
  | _ => []
  end.
Definition roots_left (m : Main) : list nat := match m with Enqueuing l => l | _ => [] end.

(** The nodes that are ready, wherever they are. *)
Definition places st : list nat :=
  roots_left (main st) ++ (tasks st ≫= following) ++ (tasks st ≫= current) ++ computed st ++ failed st.
(** The input edges of node [v] that are not yet released. *)
Definition unreleased (R : list (nat * EdgeEnd)) (v : nat) (n : Node) : list EdgeEnd :=
  filter (fun e => (e_node e, mkEdgeEnd v (e_src e) (e_dst e)) ∉ R) (n_input_edges n).
Definition ready (R : list (nat * EdgeEnd)) (v : nat) : Prop := ∃ n, live g v = Some n ∧ unreleased R v n = [].

Record Inv st : Prop := {
  iv_out : out_standings_ st = Z.of_nat (length (tasks st ≫= active));
  iv_lock : ∀ i, ref_mutex_ st = Some i ↔ ∃ u es next, tasks st !! i = Some (Releasing u es next);
  iv_refs : ∀ v n, live g v = Some n → node_refs_ st !! v = Some (Z.of_nat (length (unreleased (released st) v n)));
  iv_nodup : NoDup (places st);
  iv_ready : ∀ v, v ∈ places st ↔ ready (released st) v;
  iv_started : NoDup (started st) ∧ ∀ v, v ∈ started st → v ∈ (tasks st ≫= current) ++ computed st ++ failed st;
  iv_released : ∀ u e, (u, e) ∈ released st → u ∈ computed st;
  iv_edges : ∀ u e, u ∈ computed st → e ∈ out_edges u → (u, e) ∈ released st ∨ (u, e) ∈ tasks st ≫= owes;
  iv_owed : NoDup (tasks st ≫= owes) ∧ ∀ u e, (u, e) ∈ tasks st ≫= owes → (u, e) ∉ released st ∧ u ∈ computed st ∧ e ∈ out_edges u;
  iv_lockers : ∀ u, u ∈ tasks st ≫= lockers → is_Some (live g u);
  iv_wait : main st = Waiting → (0 < length (tasks st ≫= active))%nat ∨ ∃ i b, tasks st !! i = Some (Notifying b);
  iv_return : main st = Returned → tasks st ≫= active = [];
}.

Context (HG : GraphInv g) (Hsmall : ∀ v n, live g v = Some n → Z.of_nat (length (n_input_edges n)) < 2 ^ 64).

(** *** The start *)

Lemma new_refs_lookup v n : live g v = Some n → new_refs g !! v = Some (Z.of_nat (length (n_input_edges n))).
Proof.
  intros Hv. unfold new_refs.
  assert (H : ∀ (l : list (nat * Node)) refs, NoDup l.*1 → (∀ p, p ∈ l → (p.1 < length refs)%nat) →
    (∀ n, (v, n) ∈ l → foldl (fun refs p => <[p.1 := Z.of_nat (length (n_input_edges p.2))]> refs) refs l !! v = Some (Z.of_nat (length (n_input_edges n)))) ∧
    (v ∉ l.*1 → foldl (fun refs p => <[p.1 := Z.of_nat (length (n_input_edges p.2))]> refs) refs l !! v = refs !! v)).
  { induction l as [|[i m] l IH]; intros refs Hnd Hlt; simpl; [split; [by intros ? ?%not_elem_of_nil|done]|].
    simpl in Hnd. apply NoDup_cons in Hnd as [Hni Hnd].
    destruct (IH (<[i := Z.of_nat (length (n_input_edges m))]> refs)) as [H1 H2]; [done|intros p Hp; rewrite length_insert; apply Hlt; by right|].
    split.
    - intros n' [[= <- <-]|Hin]%elem_of_cons; [|by apply H1]. rewrite H2 by done. apply list_lookup_insert_eq. apply (Hlt (v, n')). by left.
    - intros Hv'. rewrite H2 by set_solver. apply list_lookup_insert_ne. set_solver. }
  apply (H (Nodes g)); [apply indices_nodup| |by apply elem_of_Nodes].
  intros [i m] Hp%elem_of_Nodes. rewrite length_replicate. by eapply live_lt.
Qed.

Lemma inv_start terminate : Inv (new_ParallelExecutor g terminate).
Proof.
  assert (Hun : ∀ v n, unreleased [] v n = n_input_edges n).
  { intros v n. apply list_filter_all. intros e _ ?%not_elem_of_nil. done. }
  assert (Hpl : places (new_ParallelExecutor g terminate) = root_nodes g).
  { unfold places. simpl. by rewrite app_nil_r. }
  split; simpl; try done.
  - intros i. split; [done|]. by intros (? & ? & ? & ?).
  - intros v n Hv. rewrite Hun. by apply new_refs_lookup.
  - rewrite Hpl. apply roots_nodup.
  - intros v. rewrite Hpl. change (root_nodes g) with (roots (Nodes g)). rewrite elem_of_root_nodes. unfold ready. by setoid_rewrite Hun.
  - split; [constructor|]. by intros v ?%not_elem_of_nil.
  - by intros u e ?%not_elem_of_nil.
  - by intros u e ?%not_elem_of_nil.
  - split; [constructor|]. by intros u e ?%not_elem_of_nil.
  - by intros u ?%not_elem_of_nil.
Qed.

(** *** Steps *)

Lemma bind_same {A} (f : Task → list A) l i t t' : l !! i = Some t → f t' = f t → <[i := t']> l ≫= f = l ≫= f.
Proof.
  intros Hi Ht. rewrite <- (take_drop_middle l i t Hi) at 2. rewrite insert_take_drop by (by eapply lookup_lt_Some).
  rewrite !bind_app. simpl. by rewrite Ht.
Qed.

(** What a change of one call means for the mutex and for a waiting [Execute]. *)
Lemma lock_other (l : list Task) i t' j m :
  (∀ j, m = Some j ↔ ∃ u es next, l !! j = Some (Releasing u es next)) → (∀ u es next, t' ≠ Releasing u es next) →
  (∀ t, l !! i = Some t → ∀ u es next, t ≠ Releasing u es next) →
  m = Some j ↔ ∃ u es next, <[i := t']> l !! j = Some (Releasing u es next).
Proof.
  intros Hl Ht' Ht. rewrite Hl. destruct (decide (i = j)) as [->|Hne]; [|by rewrite list_lookup_insert_ne].
  split; intros (u & es & next & E); [by destruct (Ht _ E u es next)|].
  destruct (decide (j < length l)%nat); [|rewrite list_insert_ge in E by lia; eauto].
  rewrite list_lookup_insert_eq in E by done. injection E as E. by destruct (Ht' u es next).
Qed.
Lemma notifying_other (l : list Task) i t t' :
  l !! i = Some t → (∀ b, t ≠ Notifying b) → (∃ j b, l !! j = Some (Notifying b)) → ∃ j b, <[i := t']> l !! j = Some (Notifying b).
Proof.
  intros Hi Ht (j & b & Hj). exists j, b. rewrite list_lookup_insert_ne; [done|]. intros ->. rewrite Hi in Hj. injection Hj as ->. by destruct (Ht b).
Qed.

(** The nodes stay ready when they only change their place. *)
Lemma ready_moved st st' :
  Inv st → places st' ≡ₚ places st → released st' = released st →
  NoDup (places st') ∧ ∀ v, v ∈ places st' ↔ ready (released st') v.
Proof. intros HI HP ->. split; [rewrite HP; apply HI|]. intros v. rewrite HP. apply HI. Qed.

Ltac agg Hi t' :=
  rewrite ?(bind_same active _ _ _ t' Hi eq_refl), ?(bind_same current _ _ _ t' Hi eq_refl), ?(bind_same following _ _ _ t' Hi eq_refl),
    ?(bind_same lockers _ _ _ t' Hi eq_refl), ?(bind_same owes _ _ _ t' Hi eq_refl).

Lemma step_begin st i n : Inv st → tasks st !! i = Some (RunNode n) → Inv (set_task st i (Computing n)).
Proof.
  intros HI Hi. destruct (ready_moved st (set_task st i (Computing n)) HI) as [Hn Hr]; [|done|].
  { unfold places. simpl. by agg Hi (Computing n). }
  destruct HI as [I1 I2 I3 I4 I5 I6 I7 I8 I9 I10 I11 I12]. split; [|..|].
  all: try assumption; simpl; agg Hi (Computing n); try done.
  - intros j. apply lock_other; [done|done|]. intros t Ht. rewrite Hi in Ht. by injection Ht as <-.
  - intros Hm. destruct (I11 Hm); [by left|right]. by eapply notifying_other.
Qed.

(** A node is given up. *)
Lemma step_fail st i n t :
  Inv st → tasks st !! i = Some t → t = RunNode n ∨ t = Computing n → Inv (note_failed (set_task st i (Finishing true)) n).
Proof.
  intros HI Hi Ht.
  assert (Hc : current t = [n] ∧ active t = [()] ∧ following t = [] ∧ lockers t = [] ∧ owes t = [] ∧ (∀ u es next, t ≠ Releasing u es next) ∧ ∀ b, t ≠ Notifying b)
    by (destruct Ht as [-> | ->]; done). destruct Hc as (Hc & Ha & Hf & Hl & Ho & Hnr & Hnn).
  destruct (bind_insert current _ _ _ Hi) as (rest & HC & HC'). specialize (HC' (Finishing true)). rewrite Hc in HC. simpl in HC'.
  pose proof (bind_same active _ _ _ (Finishing true) Hi ltac:(done)) as Ea. pose proof (bind_same following _ _ _ (Finishing true) Hi ltac:(done)) as Ef.
  pose proof (bind_same lockers _ _ _ (Finishing true) Hi ltac:(done)) as El. pose proof (bind_same owes _ _ _ (Finishing true) Hi ltac:(done)) as Eo.
  destruct (ready_moved st (note_failed (set_task st i (Finishing true)) n) HI) as [Hn Hr]; [|done|].
  { unfold places. simpl. rewrite Ef, HC, HC'. solve_Permutation. }
  destruct HI as [I1 I2 I3 I4 I5 I6 I7 I8 I9 I10 I11 I12]. split.
  all: try assumption; simpl; rewrite ?Ea, ?El, ?Eo; try done.
  - intros j. apply lock_other; [done|done|]. intros t0 Ht0. rewrite Hi in Ht0. by injection Ht0 as <-.
  - split; [apply I6|]. intros v Hv%I6. revert Hv. rewrite HC, HC'. set_solver.
  - intros Hm. destruct (I11 Hm); [by left|right]. by eapply notifying_other.
Qed.

Lemma step_computed st i n :
  Inv st → tasks st !! i = Some (Computing n) → Inv (note_computed (set_task st i (Locking n)) n).
Proof.
  intros HI Hi. destruct (bind_insert current _ _ _ Hi) as (rest & HC & HC'). specialize (HC' (Locking n)). simpl in HC, HC'.
  destruct (bind_insert owes _ _ _ Hi) as (ro & HO & HO'). specialize (HO' (Locking n)). simpl in HO, HO'.
  destruct (bind_insert lockers _ _ _ Hi) as (rl & HL & HL'). specialize (HL' (Locking n)). simpl in HL, HL'.
  destruct (ready_moved st (note_computed (set_task st i (Locking n)) n) HI) as [Hn Hr]; [|done|].
  { unfold places. simpl. rewrite (bind_same following _ _ _ (Locking n) Hi eq_refl), HC, HC'. solve_Permutation. }
  assert (Hnc : n ∉ computed st).
  { pose proof (iv_nodup _ HI) as Hnd. unfold places in Hnd. rewrite HC in Hnd. intros Hin.
    apply NoDup_app in Hnd as (_ & _ & Hnd). apply NoDup_app in Hnd as (_ & _ & Hnd). simpl in Hnd. apply NoDup_cons in Hnd as [Hni _]. set_solver. }
  assert (Hlive : is_Some (live g n)).
  { destruct (proj1 (iv_ready _ HI n)) as (m & ? & _); [|eauto]. unfold places. rewrite HC. set_solver. }
  destruct HI as [I1 I2 I3 I4 I5 I6 I7 I8 I9 I10 I11 I12]. split.
  all: try assumption; simpl; rewrite ?(bind_same active _ _ _ (Locking n) Hi eq_refl); try done.
  - intros j. apply lock_other; [done|done|]. intros t0 Ht0. rewrite Hi in Ht0. by injection Ht0 as <-.
  - split; [apply I6|]. intros v Hv%I6. revert Hv. rewrite HC, HC'. set_solver.
  - intros u e Hu%I7. set_solver.
  - intros u e [Hu| ->%list_elem_of_singleton]%elem_of_app He; rewrite HO'.
    + destruct (I8 u e Hu He) as [?|Hin]; [by left|right]. rewrite HO in Hin. set_solver.
    + right. apply elem_of_app. left. by apply list_elem_of_fmap_2.
  - rewrite HO'. destruct I9 as [Hnd Hin]. rewrite HO in Hnd. setoid_rewrite HO in Hin. split.
    + apply NoDup_app. split_and!; [|intros [u e] (e' & [= -> ->] & _)%list_elem_of_fmap Hro|done].
      * apply NoDup_fmap; [intros ?? [=]; done|]. unfold out_edges. destruct Hlive as [m Hm]. rewrite Hm. eapply sorted_NoDup, gi_sorted; done.
      * by destruct (Hin _ _ Hro) as (_ & ? & _).
    + intros u e. rewrite HO'. intros [(e' & [= -> ->] & He)%list_elem_of_fmap|Hro]%elem_of_app.
      * split_and!; [by intros ?%I7|set_solver|done].
      * destruct (Hin _ _ Hro) as (? & ? & ?). set_solver.
  - intros u. rewrite HL'. intros [->|Hu]%elem_of_cons; [done|]. apply I10. by rewrite HL.
  - intros Hm. destruct (I11 Hm); [by left|right]. by eapply notifying_other.
Qed.

Lemma step_locked st i n node :
  Inv st → tasks st !! i = Some (Locking n) → live g n = Some node → ref_mutex_ st = None →
  Inv (set_mutex (set_task st i (Releasing n (n_output_edges node) None)) (Some i)).
Proof.
  intros HI Hi Hn Hm. set (t' := Releasing n (n_output_edges node) None).
  destruct (bind_insert lockers _ _ _ Hi) as (rl & HL & HL'). specialize (HL' t'). simpl in HL, HL'.
  assert (Eo : <[i := t']> (tasks st) ≫= owes = tasks st ≫= owes) by (apply (bind_same owes _ _ _ t' Hi); simpl; unfold out_edges; by rewrite Hn).
  destruct (ready_moved st (set_mutex (set_task st i t') (Some i)) HI) as [Hnd Hr]; [|done|].
  { unfold places. simpl. by agg Hi t'. }
  destruct HI as [I1 I2 I3 I4 I5 I6 I7 I8 I9 I10 I11 I12]. split.
  all: try assumption; simpl; rewrite ?Eo; agg Hi t'; try done.
  - intros j. split.
    + intros [= <-]. unfold t'. eexists _, _, _. apply list_lookup_insert_eq. by eapply lookup_lt_Some.
    + intros (u & es & nx & E). destruct (decide (i = j)) as [->|Hne]; [done|]. rewrite list_lookup_insert_ne in E by done.
      assert (ref_mutex_ st = Some j) by (apply I2; eauto). congruence.
  - intros u. rewrite HL'. intros Hu. apply I10. rewrite HL. by right.
  - intros Hw. destruct (I11 Hw); [by left|right]. by eapply notifying_other.
Qed.

(** The critical section ends. *)
Lemma step_continue st i u n :
  Inv st → tasks st !! i = Some (Releasing u [] (Some n)) → Inv (note_started (set_mutex (set_task st i (RunNode n)) None) n).
Proof.
  intros HI Hi. destruct (bind_insert current _ _ _ Hi) as (rc & HC & HC'). specialize (HC' (RunNode n)). simpl in HC, HC'.
  destruct (bind_insert following _ _ _ Hi) as (rf & HF & HF'). specialize (HF' (RunNode n)). simpl in HF, HF'.
  destruct (ready_moved st (note_started (set_mutex (set_task st i (RunNode n)) None) n) HI) as [Hnd Hr]; [|done|].
  { unfold places. simpl. rewrite HC, HC', HF, HF'. solve_Permutation. }
  assert (Hns : n ∉ started st).
  { intros Hin%(iv_started _ HI). pose proof (iv_nodup _ HI) as Hp. unfold places in Hp. rewrite HF in Hp.
    apply NoDup_app in Hp as (_ & _ & Hp). simpl in Hp. apply NoDup_cons in Hp as [Hni _]. set_solver. }
  destruct HI as [I1 I2 I3 I4 I5 I6 I7 I8 I9 I10 I11 I12]. split.
  all: try assumption; simpl; agg Hi (RunNode n); try done.
  - intros j. split; [done|]. intros (w & es & nx & E). destruct (decide (i = j)) as [->|Hne].
    + by rewrite list_lookup_insert_eq in E by (by eapply lookup_lt_Some).
    + rewrite list_lookup_insert_ne in E by done. assert (ref_mutex_ st = Some j) by (apply I2; eauto).
      assert (ref_mutex_ st = Some i) by (apply I2; eauto). congruence.
  - split; [apply NoDup_app; split_and!; [apply I6|set_solver|apply NoDup_singleton]|].
    intros v Hv. rewrite HC'. apply elem_of_app in Hv as [Hv%I6|Hv]; [rewrite HC in Hv|]; set_solver.
  - intros Hw. destruct (I11 Hw); [by left|right]. by eapply notifying_other.
Qed.
Lemma step_unlock st i u :
  Inv st → tasks st !! i = Some (Releasing u [] None) → Inv (set_mutex (set_task st i (Finishing false)) None).
Proof.
  intros HI Hi. destruct (ready_moved st (set_mutex (set_task st i (Finishing false)) None) HI) as [Hnd Hr]; [|done|].
  { unfold places. simpl. by agg Hi (Finishing false). }
  destruct HI as [I1 I2 I3 I4 I5 I6 I7 I8 I9 I10 I11 I12]. split.
  all: try assumption; simpl; agg Hi (Finishing false); try done.
  - intros j. split; [done|]. intros (w & es & nx & E). destruct (decide (i = j)) as [->|Hne].
    + by rewrite list_lookup_insert_eq in E by (by eapply lookup_lt_Some).
    + rewrite list_lookup_insert_ne in E by done. assert (ref_mutex_ st = Some j) by (apply I2; eauto).
      assert (ref_mutex_ st = Some i) by (apply I2; eauto). congruence.
  - intros Hw. destruct (I11 Hw); [by left|right]. by eapply notifying_other.
Qed.

(** *** An edge is released *)

Lemma filter_remove (x : EdgeEnd) l : NoDup l → x ∈ l → length l = S (length (filter (fun y => y ≠ x) l)).
Proof.
  induction 1 as [|y l Hy Hnd IH]; [by intros ?%not_elem_of_nil|]. intros [->|Hx]%elem_of_cons.
  - rewrite filter_cons_False by (intros H; by apply H). simpl. f_equal. rewrite list_filter_all; [done|]. intros z Hz ->. done.
  - rewrite filter_cons_True by (intros ->; done). simpl. f_equal. by apply IH.
Qed.
Lemma unreleased_other R u e v n : v ≠ e_node e → unreleased (R ++ [(u, e)]) v n = unreleased R v n.
Proof.
  intros Hne. unfold unreleased. apply list_filter_iff. intros x. rewrite not_elem_of_app, list_elem_of_singleton. split; [tauto|].
  intros H. split; [done|]. intros [= _ Heq]. apply Hne. by rewrite <- Heq.
Qed.
Lemma unreleased_this R u e m :
  EdgesSorted (n_input_edges m) → mkEdgeEnd u (e_src e) (e_dst e) ∈ n_input_edges m → (u, e) ∉ R →
  length (unreleased R (e_node e) m) = S (length (unreleased (R ++ [(u, e)]) (e_node e) m)).
Proof.
  intros Hs Hin Hnot. set (ie := mkEdgeEnd u (e_src e) (e_dst e)). unfold unreleased at 1.
  rewrite (filter_remove ie).
  - f_equal. rewrite list_filter_filter. f_equal. unfold unreleased. apply list_filter_iff. intros x.
    assert (Hx : x = ie ↔ (e_node x, mkEdgeEnd (e_node e) (e_src x) (e_dst x)) = (u, e)).
    { unfold ie. destruct x as [xn xs xd], e as [en es ed]. simpl. split; intros ?; by simplify_eq. }
    rewrite not_elem_of_app, list_elem_of_singleton. tauto.
  - apply NoDup_filter. by apply sorted_NoDup.
  - apply list_elem_of_filter. split; [|done]. unfold ie. simpl. by destruct e.
Qed.

Section release.
Context (st : State) (i u : nat) (e : EdgeEnd) (es : list EdgeEnd) (nx : option nat).
Context (HI : Inv st) (Hi : tasks st !! i = Some (Releasing u (e :: es) nx)).
Abbreviation R' := (released st ++ [(u, e)]).
Abbreviation idx := (e_node e).

Lemma release_owed : (u, e) ∉ released st ∧ u ∈ computed st ∧ e ∈ out_edges u.
Proof.
  apply (iv_owed _ HI). destruct (bind_insert owes _ _ _ Hi) as (ro & HO & _). rewrite HO. simpl. by left.
Qed.
Lemma release_node :
  ∃ m, live g idx = Some m ∧ node_refs_ st !! idx = Some (Z.of_nat (S (length (unreleased R' idx m)))) ∧
    Z.of_nat (length (unreleased R' idx m)) < 2 ^ 64.
Proof.
  destruct release_owed as (Hnr & Hc & He). unfold out_edges in He. destruct (live g u) as [nu|] eqn:Hu; [|by apply not_elem_of_nil in He].
  destruct (gi_out _ HG u nu e Hu He) as (m & Hm & Hin). exists m. split; [done|]. rewrite (iv_refs _ HI _ _ Hm).
  rewrite <- (unreleased_this _ _ _ _ (proj1 (gi_sorted _ HG _ _ Hm)) Hin Hnr). split; [done|].
  pose proof (Hsmall _ _ Hm). assert (length (unreleased R' idx m) ≤ length (n_input_edges m))%nat by apply length_filter. lia.
Qed.

Context (m : Node) (nx' : option nat) (new added : list nat).
Hypothesis Hm : live g idx = Some m.
Hypothesis Hadd : added = if decide (unreleased R' idx m = []) then [idx] else [].
Hypothesis Hmove : following (Releasing u es nx') ++ new ≡ₚ following (Releasing u (e :: es) nx) ++ added.
Hypothesis Hnew : ∀ v, v ∈ new → v = idx.
Hypothesis Hnd : NoDup new.
Abbreviation t' := (Releasing u es nx').
Definition after_release : State :=
  mkState (<[idx := Z.of_nat (length (unreleased R' idx m))]> (node_refs_ st)) (out_standings_ st + Z.of_nat (length new)) (ref_mutex_ st)
    (<[i := t']> (tasks st) ++ (RunNode <$> new)) (main st) (terminate_flag_ st) (started st ++ new) (computed st) (failed st) R'.

Lemma release_lt : length (unreleased (released st) idx m) = S (length (unreleased R' idx m)).
Proof.
  destruct release_node as (m' & Hm' & Hr & _). rewrite Hm in Hm'. injection Hm' as <-. rewrite (iv_refs _ HI _ _ Hm) in Hr.
  injection Hr as Hr. lia.
Qed.
Lemma idx_new : idx ∉ places st.
Proof.
  rewrite (iv_ready _ HI). intros (m' & Hm' & E). rewrite Hm in Hm'. injection Hm' as <-. pose proof release_lt as Hl. rewrite E in Hl. done.
Qed.
Lemma run_new {A} (f : Task → list A) : (RunNode <$> new) ≫= f = new ≫= (fun n => f (RunNode n)).
Proof. clear. induction new as [|a l IH]; [done|]. simpl. f_equal. exact IH. Qed.
Lemma current_new : (RunNode <$> new) ≫= current = new.
Proof. rewrite run_new. clear. induction new as [|a l IH]; [done|]. simpl. by f_equal. Qed.
Lemma nothing_new {A} (f : Task → list A) : (∀ n, f (RunNode n) = []) → (RunNode <$> new) ≫= f = [].
Proof. intros Hf. rewrite run_new. clear -Hf. induction new as [|a l IH]; [done|]. simpl. by rewrite Hf. Qed.
Lemma active_new : length ((RunNode <$> new) ≫= active) = length new.
Proof. rewrite run_new. clear. induction new as [|a l IH]; [done|]. simpl. by f_equal. Qed.
Lemma lock_new j : (∃ w es' n', (<[i := t']> (tasks st) ++ (RunNode <$> new)) !! j = Some (Releasing w es' n')) ↔
  ∃ w es' n', tasks st !! j = Some (Releasing w es' n').
Proof.
  destruct (decide (i = j)) as [->|Hne].
  - rewrite lookup_app_l by (rewrite length_insert; by eapply lookup_lt_Some). rewrite list_lookup_insert_eq by (by eapply lookup_lt_Some).
    split; intros _; [by eauto|]. by eexists _, _, _.
  - destruct (decide (j < length (tasks st))%nat) as [Hlt|Hge].
    + rewrite lookup_app_l by (by rewrite length_insert). by rewrite list_lookup_insert_ne.
    + rewrite lookup_app_r by (rewrite length_insert; lia). rewrite list_lookup_fmap. split.
      * intros (w & es' & n' & E). by destruct (new !! _).
      * intros (w & es' & n' & E%lookup_lt_Some). lia.
Qed.
Lemma places_release : places after_release ≡ₚ added ++ places st.
Proof.
  unfold places, after_release. simpl. rewrite !bind_app, current_new, (nothing_new following) by done. rewrite app_nil_r.
  rewrite (bind_same current _ _ _ t' Hi eq_refl).
  destruct (bind_insert following _ _ _ Hi) as (rf & HF & HF'). rewrite HF, (HF' t').
  transitivity (roots_left (main st) ++ rf ++ (tasks st ≫= current) ++ computed st ++ failed st ++ (following t' ++ new)); [solve_Permutation|].
  rewrite Hmove. solve_Permutation.
Qed.

Lemma release_edge_inv : Inv after_release.
Proof.
  pose proof idx_new as Hidx. destruct release_owed as (Hnr & Hc & He).
  destruct (bind_insert owes _ _ _ Hi) as (ro & HO & HO'). specialize (HO' t'). simpl in HO, HO'.
  assert (Eo : (<[i := t']> (tasks st) ++ (RunNode <$> new)) ≫= owes = <[i := t']> (tasks st) ≫= owes).
  { rewrite bind_app, (nothing_new owes) by done. apply app_nil_r. }
  assert (Ea : length ((<[i := t']> (tasks st) ++ (RunNode <$> new)) ≫= active) = (length (tasks st ≫= active) + length new)%nat).
  { by rewrite bind_app, (bind_same active _ _ _ t' Hi eq_refl), length_app, active_new. }
  destruct (iv_owed _ HI) as [Ond Oin]. rewrite HO in Ond. simpl in Ond. apply NoDup_cons in Ond as [One Ond].
  split; simpl.
  - rewrite Ea, (iv_out _ HI). lia.
  - intros j. rewrite (lock_new j). apply (iv_lock _ HI).
  - intros v n Hv. destruct (decide (v = idx)) as [->|Hne].
    + rewrite Hm in Hv. injection Hv as <-. apply list_lookup_insert_eq. eapply lookup_lt_Some, (iv_refs _ HI), Hm.
    + rewrite list_lookup_insert_ne by done. rewrite (unreleased_other _ _ _ _ _ Hne). by apply (iv_refs _ HI).
  - rewrite places_release. apply NoDup_app. split_and!; [|intros v Hv ?|apply HI]; subst added; case_decide; try (by constructor).
    + apply NoDup_singleton.
    + apply list_elem_of_singleton in Hv as ->. done.
    + by apply not_elem_of_nil in Hv.
  - intros v. rewrite places_release, elem_of_app, (iv_ready _ HI). split.
    + intros [Hv|(n & Hn & Hu)].
      * subst added. case_decide; [|by apply not_elem_of_nil in Hv]. apply list_elem_of_singleton in Hv as ->. by exists m.
      * exists n. split; [done|]. rewrite unreleased_other; [done|]. intros ->. apply Hidx, (iv_ready _ HI). by exists n.
    + intros (n & Hn & Hu). destruct (decide (v = idx)) as [->|Hne].
      * rewrite Hm in Hn. injection Hn as <-. left. subst added. rewrite decide_True by done. by left.
      * right. exists n. split; [done|]. by rewrite unreleased_other in Hu.
  - rewrite bind_app, current_new, (bind_same current _ _ _ t' Hi eq_refl). destruct (iv_started _ HI) as [S1 S2]. split.
    + apply NoDup_app. split_and!; [done| |done]. intros v Hv ->%Hnew. apply Hidx. apply S2 in Hv. unfold places. set_solver.
    + intros v [Hv%S2|Hv]%elem_of_app; set_solver.
  - intros w f [Hw|[= -> ->]%list_elem_of_singleton]%elem_of_app; [by eapply (iv_released _ HI)|done].
  - intros w f Hw Hf. rewrite Eo, HO'. destruct (iv_edges _ HI w f Hw Hf) as [?|Hin]; [left; set_solver|]. rewrite HO in Hin.
    apply elem_of_cons in Hin as [Heq|Hin]; [left; set_solver|by right].
  - rewrite Eo, HO'. split; [done|]. intros w f. rewrite HO'. intros Hin. destruct (Oin w f) as (H1 & H2 & H3); [rewrite HO; by right|].
    split_and!; [|done..]. intros [?|Heq%list_elem_of_singleton]%elem_of_app; [done|]. rewrite Heq in Hin. by apply One.
  - intros w. rewrite bind_app, (nothing_new lockers), app_nil_r by done. rewrite (bind_same lockers _ _ _ t' Hi eq_refl). apply HI.
  - intros Hw. left. rewrite Ea. destruct (bind_insert active _ _ _ Hi) as (ra & HA & _). rewrite HA. simpl. lia.
  - intros Hw. pose proof (iv_return _ HI Hw) as E. destruct (bind_insert active _ _ _ Hi) as (ra & HA & _). rewrite E in HA.
    by apply Permutation_nil in HA.
Qed.
End release.

Lemma step_release st i u e es nx :
  Inv st → tasks st !! i = Some (Releasing u (e :: es) nx) → ∃ st', release_edge st i u e es nx = Moved st' ∧ Inv st'.
Proof.
  intros HI Hi. destruct (release_node st i u e es nx HI Hi) as (m & Hm & Hr & Hb). unfold release_edge. rewrite Hr.
  replace (u64 (Z.of_nat (S (length (unreleased (released st ++ [(u, e)]) (e_node e) m))) - 1)) with (Z.of_nat (length (unreleased (released st ++ [(u, e)]) (e_node e) m)))
    by (unfold u64; rewrite Z.mod_small; lia).
  assert (Hstay : ∀ nx', following (Releasing u es nx') ++ [] ≡ₚ following (Releasing u (e :: es) nx) ++
      (if decide (unreleased (released st ++ [(u, e)]) (e_node e) m = []) then [e_node e] else []) →
    Inv (set_task (count_down st (e_node e) (Z.of_nat (length (unreleased (released st ++ [(u, e)]) (e_node e) m))) u e) i (Releasing u es nx'))).
  { intros nx' Hp. pose proof (release_edge_inv st i u e es nx HI Hi m nx' [] _ Hm eq_refl Hp ltac:(by intros ? ?%not_elem_of_nil) ltac:(constructor)) as H.
    unfold after_release in H. simpl in H. by rewrite Z.add_0_r, !app_nil_r in H. }
  destruct (Z.eqb_spec (Z.of_nat (length (unreleased (released st ++ [(u, e)]) (e_node e) m))) 0) as [E|E].
  - assert (Hu : unreleased (released st ++ [(u, e)]) (e_node e) m = []) by (apply length_zero_iff_nil; lia).
    rewrite (decide_True (P := _ = [])) in Hstay by done. destruct nx as [n|].
    + eexists. split; [done|].
      exact (release_edge_inv st i u e es (Some n) HI Hi m (Some n) [e_node e] [e_node e] Hm ltac:(by rewrite decide_True) ltac:(done)
        ltac:(by intros ? ->%list_elem_of_singleton) ltac:(apply NoDup_singleton)).
    + eexists. split; [done|]. by apply Hstay.
  - eexists. split; [done|]. apply Hstay. rewrite decide_False; [done|]. intros Hu. rewrite Hu in E. done.
Qed.

Lemma step_finish st i b : Inv st → tasks st !! i = Some (Finishing b) → Inv (FinishNodeRun st i b).
Proof.
  intros HI Hi. unfold FinishNodeRun. set (t' := if _ : bool then _ else _).
  assert (Ht : active t' = [] ∧ current t' = [] ∧ following t' = [] ∧ lockers t' = [] ∧ owes t' = [] ∧ ∀ u es n, t' ≠ Releasing u es n)
    by (unfold t'; by destruct (_ =? _)). destruct Ht as (Ta & Tc & Tf & Tl & To & Tr).
  destruct (bind_insert active _ _ _ Hi) as (ra & HA & HA'). specialize (HA' t'). rewrite Ta in HA'. simpl in HA, HA'.
  pose proof (bind_same current _ _ _ t' Hi Tc) as Ec. pose proof (bind_same following _ _ _ t' Hi Tf) as Ef.
  pose proof (bind_same lockers _ _ _ t' Hi Tl) as El. pose proof (bind_same owes _ _ _ t' Hi To) as Eo.
  destruct (ready_moved st (set_task (set_out st (out_standings_ st - 1)) i t') HI) as [Hnd Hr]; [|done|].
  { unfold places. simpl. by rewrite Ec, Ef. }
  destruct HI as [I1 I2 I3 I4 I5 I6 I7 I8 I9 I10 I11 I12]. split.
  all: try assumption; simpl; rewrite ?Ec, ?El, ?Eo; try done.
  - rewrite I1, HA', HA. simpl. lia.
  - intros j. apply lock_other; [done|done|]. intros t0 Ht0. rewrite Hi in Ht0. by injection Ht0 as <-.
  - intros _. rewrite HA'. destruct ra as [|x ra]; [right|left; simpl; lia]. exists i, b. rewrite list_lookup_insert_eq by (by eapply lookup_lt_Some).
    f_equal. unfold t'. rewrite I1, HA. done.
  - intros Hret. specialize (I12 Hret). rewrite I12 in HA. by apply Permutation_nil in HA.
Qed.

Lemma step_notify st i b :
  Inv st → tasks st !! i = Some (Notifying b) →
  Inv (set_task (match main st with Waiting => set_main st Testing | _ => st end) i (Ended b)).
Proof.
  intros HI Hi. set (st1 := match main st with Waiting => _ | _ => _ end).
  assert (H1 : st1 = set_main st (match main st with Waiting => Testing | m => m end)) by (unfold st1; clear; destruct st; simpl; by case_match).
  rewrite H1. clear st1 H1. set (m' := match main st with Waiting => _ | _ => _ end).
  assert (Hm : roots_left m' = roots_left (main st) ∧ m' ≠ Waiting ∧ (m' = Returned → main st = Returned)) by (unfold m'; by destruct (main st)).
  destruct Hm as (Hrl & Hw & Hret).
  destruct (ready_moved st (set_task (set_main st m') i (Ended b)) HI) as [Hnd Hr]; [|done|].
  { unfold places. simpl. rewrite Hrl. by agg Hi (Ended b). }
  destruct HI as [I1 I2 I3 I4 I5 I6 I7 I8 I9 I10 I11 I12]. split.
  all: try assumption; simpl; agg Hi (Ended b); try done; auto.
  intros j. apply lock_other; [done|done|]. intros t0 Ht0. rewrite Hi in Ht0. by injection Ht0 as <-.
Qed.

Lemma task_step_ok st i : Inv st → task_step g GetKernel st i ≠ Undefined ∧ ∀ st', task_step g GetKernel st i = Moved st' → Inv st'.
Proof.
  intros HI. unfold task_step, begin_node, compute_kernel, lock_refs, unlock_refs, notify. destruct (tasks st !! i) as [[n|n|n|u [|e es] [n|]|b|b|b]|] eqn:Hi; try done.
  - destruct (terminate_flag_ st); [|destruct (GetKernel n)]; (split; [done|]); intros st' [= <-];
      [eapply step_fail; eauto|by apply step_begin|eapply step_fail; eauto].
  - destruct (default false (GetKernel n)); (split; [done|]); intros st' [= <-]; [by apply step_computed|eapply step_fail; eauto].
  - assert (is_Some (live g n)) as [node Hn].
    { apply (iv_lockers _ HI). destruct (bind_insert lockers _ _ _ Hi) as (rl & HL & _). rewrite HL. by left. }
    rewrite Hn. destruct (ref_mutex_ st) eqn:Em; [done|]. split; [done|]. intros st' [= <-]. by eapply step_locked.
  - split; [done|]. intros st' [= <-]. by eapply step_continue.
  - split; [done|]. intros st' [= <-]. by eapply step_unlock.
  - destruct (step_release _ _ _ _ _ _ HI Hi) as (st1 & -> & H1). split; [done|]. by intros st' [= <-].
  - destruct (step_release _ _ _ _ _ _ HI Hi) as (st1 & -> & H1). split; [done|]. by intros st' [= <-].
  - split; [done|]. intros st' [= <-]. by apply step_finish.
  - split; [done|]. intros st' [= <-]. by apply step_notify.
Qed.

(** *** Steps of [Execute] *)

(** A change of [main] alone. *)
Lemma main_inv st m' :
  Inv st → roots_left m' = roots_left (main st) →
  (m' = Waiting → (0 < length (tasks st ≫= active))%nat ∨ ∃ i b, tasks st !! i = Some (Notifying b)) →
  (m' = Returned → tasks st ≫= active = []) → Inv (set_main st m').
Proof.
  intros HI Hm Hw Hr. destruct (ready_moved st (set_main st m') HI) as [Hnd Hready]; [|done|].
  { unfold places. simpl. by rewrite Hm. }
  destruct HI as [I1 I2 I3 I4 I5 I6 I7 I8 I9 I10 I11 I12]. by split.
Qed.
Lemma skip_root_inv st n l : Inv st → main st = Enqueuing (n :: l) → Inv (note_failed (set_main st (Enqueuing l)) n).
Proof.
  intros HI Hm. destruct (ready_moved st (note_failed (set_main st (Enqueuing l)) n) HI) as [Hnd Hready]; [|done|].
  { unfold places. simpl. rewrite Hm. simpl. solve_Permutation. }
  destruct HI as [I1 I2 I3 I4 I5 I6 I7 I8 I9 I10 I11 I12]. split; try done. split; [apply I6|]. intros v Hv%I6. simpl. set_solver.
Qed.
Lemma enqueue_root_inv st n l : Inv st → main st = Enqueuing (n :: l) → Inv (EnqueueNode (set_main st (Enqueuing l)) n).
Proof.
  intros HI Hm. destruct (ready_moved st (EnqueueNode (set_main st (Enqueuing l)) n) HI) as [Hnd Hready]; [|done|].
  { unfold places. simpl. rewrite Hm, !bind_snoc. simpl. solve_Permutation. }
  assert (Hns : n ∉ started st).
  { intros Hin%(iv_started _ HI). pose proof (iv_nodup _ HI) as Hp. unfold places in Hp. rewrite Hm in Hp. simpl in Hp.
    apply NoDup_cons in Hp as [Hni _]. set_solver. }
  destruct HI as [I1 I2 I3 I4 I5 I6 I7 I8 I9 I10 I11 I12]. split; simpl; try done; rewrite ?bind_snoc; simpl; rewrite ?app_nil_r; try done.
  - rewrite I1, length_app. simpl. lia.
  - intros j. rewrite I2. split; intros (u & es & nx & E); exists u, es, nx; [by apply lookup_app_l_Some|].
    apply lookup_app_Some in E as [?|[_ E]]; [done|]. by apply list_lookup_singleton_Some in E as [_ ?].
  - split; [apply NoDup_app; split_and!; [apply I6|set_solver|apply NoDup_singleton]|].
    intros v [Hv%I6|Hv]%elem_of_app; set_solver.
Qed.
Lemma main_step_ok st : Inv st → main_step GetKernel st ≠ Undefined ∧ ∀ st', main_step GetKernel st = Moved st' → Inv st'.
Proof.
  intros HI. unfold main_step. destruct (main st) as [[|n l]| | |] eqn:Hm; try done.
  - split; [done|]. intros st' [= <-]. by apply main_inv; rewrite ?Hm.
  - destruct (GetKernel n); (split; [done|]); intros st' [= <-]; [by apply enqueue_root_inv|by apply skip_root_inv].
  - split; [done|]. intros st' [= <-]. rewrite (iv_out _ HI). apply main_inv; [done|rewrite Hm; by destruct (_ <? _)|..].
    + destruct (Z.ltb_spec 0 (Z.of_nat (length (tasks st ≫= active)))); [|done]. intros _. left. lia.
    + destruct (Z.ltb_spec 0 (Z.of_nat (length (tasks st ≫= active)))); [done|]. intros _. apply length_zero_iff_nil. lia.
Qed.

Lemma env_inv st st' : Inv st → env_step st st' → Inv st'.
Proof.
  intros HI Hs. revert HI. destruct Hs as [st1|st1 Hm]; intros HI.
  - destruct HI as [I1 I2 I3 I4 I5 I6 I7 I8 I9 I10 I11 I12]. by split.
  - by apply main_inv; rewrite ?Hm.
Qed.
Lemma step_inv st st' : Inv st → step g GetKernel st st' → Inv st'.
Proof. intros HI Hs. revert HI. destruct Hs as [st1 i st2 E|st1 st2 E]; intros HI; [by eapply task_step_ok|by eapply main_step_ok]. Qed.
Lemma reachable_inv st : reachable g GetKernel st → Inv st.
Proof.
  intros [b Hr]. pose proof (inv_start b) as H0. revert H0 Hr. generalize (new_ParallelExecutor g b). intros s0 H0 Hr. revert H0. induction Hr as [|a c d [Hs|Hs] _ IH]; [done|..]; intros H0; apply IH.
  - by eapply step_inv.
  - by eapply env_inv.
Qed.
End inv.
