(* ===== verification/ParallelProps.v ===== *)
(** Properties of the parallel executor: nodes run once and in the order of the
    data flow, [Execute] passes its wait only when all is done, there is no
    deadlock and every run ends. *)
From S2P Require Import Prelude Graph GraphInv GraphTopo GraphDfs GraphProps ParallelExecutor ParallelInv.

Section props.
Context (g : Graph) (GetKernel : nat → option bool).
Context (HG : GraphInv g) (Hsmall : ∀ v n, live g v = Some n → Z.of_nat (length (n_input_edges n)) < 2 ^ 64).
Implicit Types (st : State) (t : Task).
Abbreviation step := (step g GetKernel).
Abbreviation Inv := (Inv g).

(** ** Order *)

Lemma ready_inputs st u v : Inv st → v ∈ places st → edge g u v → u ∈ computed st.
Proof.
  intros HI Hv (n & Hn & (e & -> & He)%list_elem_of_fmap). apply (iv_ready _ _ HI) in Hv as (n' & Hn' & E). rewrite Hn in Hn'. injection Hn' as <-.
  apply (iv_released _ _ HI _ (mkEdgeEnd v (e_src e) (e_dst e))). destruct (decide ((e_node e, mkEdgeEnd v (e_src e) (e_dst e)) ∈ released st)) as [?|Hnot]; [done|].
  assert (Hin : e ∈ unreleased (released st) v n) by (by apply list_elem_of_filter). rewrite E in Hin. by apply not_elem_of_nil in Hin.
Qed.
Lemma current_place st i t n : tasks st !! i = Some t → n ∈ current t → n ∈ places st.
Proof. intros Hi Hn. destruct (bind_insert current _ _ _ Hi) as (rest & HC & _). unfold places. rewrite HC. set_solver. Qed.

(** What the executor did is a prefix of an order of the data flow, and it gave up
    nodes only for a reason. *)
Record History st : Prop := {
  hi_order : ∀ l1 v l2 u, computed st = l1 ++ v :: l2 → edge g u v → u ∈ l1;
  hi_ok : ∀ v, v ∈ computed st → GetKernel v = Some true;
  hi_failed : ∀ v, v ∈ failed st → terminate_flag_ st = true ∨ GetKernel v ≠ Some true;
}.
Lemma parallel_history_same st st' :
  History st → computed st' = computed st → failed st' = failed st → terminate_flag_ st' = terminate_flag_ st → History st'.
Proof. intros [H1 H2 H3] E1 E2 E3. split; by rewrite ?E1, ?E2, ?E3. Qed.
Lemma history_failed st st' n :
  History st → computed st' = computed st → failed st' = failed st ++ [n] → terminate_flag_ st' = terminate_flag_ st →
  (terminate_flag_ st = true ∨ GetKernel n ≠ Some true) → History st'.
Proof.
  intros [H1 H2 H3] E1 E2 E3 Hn. split; rewrite ?E1, ?E2, ?E3; [done|done|]. intros v [Hv%H3| ->%list_elem_of_singleton]%elem_of_app; done.
Qed.
Lemma history_computed st i n :
  Inv st → History st → tasks st !! i = Some (Computing n) → GetKernel n = Some true → History (note_computed (set_task st i (Locking n)) n).
Proof.
  intros HI [H1 H2 H3] Hi Hk. split; simpl; [|intros v [?| ->%list_elem_of_singleton]%elem_of_app; auto|done].
  intros l1 v l2 u E He. destruct l2 as [|w l2 _] using rev_ind.
  - apply app_inj_tail in E as [<- <-]. eapply ready_inputs; [done| |done]. eapply current_place; [done|by left].
  - rewrite app_comm_cons, app_assoc in E. apply app_inj_tail in E as [E _]. by eapply H1.
Qed.
Lemma step_history st st' : Inv st → History st → step st st' → History st'.
Proof.
  intros HI HH Hs. destruct Hs as [st i st' E|st st' E].
  - unfold task_step, begin_node, compute_kernel, lock_refs, unlock_refs, notify, release_edge in E. destruct (tasks st !! i) as [[n|n|n|u [|e es] nx|b|b|b]|] eqn:Hi; [| | | | | | | |done].
    all: try (repeat case_match; simplify_eq/=; by eapply parallel_history_same).
    + destruct (terminate_flag_ st) eqn:Et; [injection E as <-; eapply history_failed; eauto|].
      destruct (GetKernel n) eqn:Ek; injection E as <-; [by eapply parallel_history_same|]. eapply history_failed; [done..|]. right. by rewrite Ek.
    + destruct (GetKernel n) as [[]|] eqn:Ek; simpl in E; injection E as <-; [by apply history_computed|..]; (eapply history_failed; [done..|]); right; by rewrite Ek.
  - unfold main_step in E. destruct (main st) as [[|n l]| | |]; simplify_eq; try (by eapply parallel_history_same).
    destruct (GetKernel n) eqn:Ek; simplify_eq; [by eapply parallel_history_same|]. eapply history_failed; [done..|]. right. by rewrite Ek.
Qed.
Lemma parallel_reachable_ok st : reachable g GetKernel st → Inv st ∧ History st.
Proof.
  intros [b Hr]. assert (H0 : Inv (new_ParallelExecutor g b) ∧ History (new_ParallelExecutor g b)).
  { split; [by apply inv_start|]. split; simpl; [|by intros v ?%not_elem_of_nil..]. by intros [] v l2 u. }
  revert H0 Hr. generalize (new_ParallelExecutor g b). intros s0 H0 Hr. revert H0. induction Hr as [|a c d Hs _ IH]; [done|]. intros [HI HH]. apply IH.
  destruct Hs as [Hs|Hs]; [split; [by apply (step_inv g GetKernel HG Hsmall a)|by apply (step_history a)]|].
  split; [by apply (env_inv g a)|].
  revert HH. destruct Hs as [st1|st1 Hm]; intros HH; [|by eapply parallel_history_same]. destruct HH as [H1 H2 H3]. split; [done|done|by left].
Qed.

(** ** When [Execute] passes its wait *)

Lemma list_filter_none {A} (P : A → Prop) `{!∀ x, Decision (P x)} (l : list A) : (∀ x, x ∈ l → ¬ P x) → filter P l = [].
Proof.
  induction l as [|x l IH]; intros Hl; [done|]. rewrite filter_cons_False by (apply Hl; by left). apply IH. intros y Hy. apply Hl. by right.
Qed.

Lemma returned_tasks st : Inv st → main st = Returned → ∀ i t, tasks st !! i = Some t → ∃ b, t = Notifying b ∨ t = Ended b.
Proof.
  intros HI Hm i t Hi. pose proof (iv_return _ _ HI Hm) as E. destruct (bind_insert active _ _ _ Hi) as (ra & HA & _). rewrite E in HA.
  apply Permutation_nil_l in HA. symmetry in HA. apply app_eq_nil in HA as [Ha _]. destruct t; simpl in Ha; try done; eauto.
Qed.
Lemma idle_bind {A} (f : Task → list A) (l : list Task) :
  (∀ b, f (Notifying b) = [] ∧ f (Ended b) = []) → (∀ i t, l !! i = Some t → ∃ b, t = Notifying b ∨ t = Ended b) → l ≫= f = [].
Proof.
  intros Hf. induction l as [|t l IH]; intros Hl; [done|]. simpl. destruct (Hl 0%nat t eq_refl) as (b & Ht).
  assert (f t = []) as -> by (destruct (Hf b); by destruct Ht as [-> | ->]). apply IH. intros i. exact (Hl (S i)).
Qed.
(** The inputs of a node that was not reached lead back to a node given up. *)
Lemma returned_nodes order st :
  Topological g order → Inv st → main st = Returned → ∀ v, is_Some (live g v) → v ∈ computed st ∨ ∃ f, f ∈ failed st ∧ rtc (edge g) f v.
Proof.
  intros HT HI Hm. pose proof (returned_tasks st HI Hm) as Hidle.
  assert (Hpl : places st = computed st ++ failed st).
  { unfold places. rewrite Hm, (idle_bind following), (idle_bind current) by done. done. }
  assert (H : ∀ l1 l2, order = l1 ++ l2 → ∀ v, v ∈ l1 → v ∈ computed st ∨ ∃ f, f ∈ failed st ∧ rtc (edge g) f v).
  { induction l1 as [|w l1 IH] using rev_ind; intros l2 E v; [by intros ?%not_elem_of_nil|]. rewrite <- (assoc_L (++)) in E.
    specialize (IH _ E). intros [Hv| ->%list_elem_of_singleton]%elem_of_app; [by apply IH|].
    destruct (proj1 (to_all _ _ HT w)) as [n Hn]; [rewrite E; set_solver|].
    destruct (decide (Forall (fun e => e_node e ∈ computed st) (n_input_edges n))) as [Hall|Hnot].
    - assert (w ∈ computed st ++ failed st) as [?|?]%elem_of_app; [|by left|right; exists w; by split].
      rewrite <- Hpl. apply (iv_ready _ _ HI). exists n. split; [done|]. unfold unreleased. apply list_filter_none. rewrite Forall_forall in Hall.
      intros e He Hnr. apply Hnr. destruct (gi_in _ HG w n e Hn He) as (m & Hm' & Ho).
      destruct (iv_edges _ _ HI (e_node e) (mkEdgeEnd w (e_src e) (e_dst e))) as [?|Hin]; [by apply Hall|unfold out_edges; by rewrite Hm'|done|].
      rewrite (idle_bind (owes g)) in Hin by done. by apply not_elem_of_nil in Hin.
    - apply not_Forall_Exists in Hnot; [|apply _]. apply Exists_exists in Hnot as (e & He & Hec).
      assert (Hedge : edge g (e_node e) w) by (exists n; split; [done|]; by apply list_elem_of_fmap_2).
      destruct (IH (e_node e)) as [?|(f & Hf & Hr)]; [by eapply (to_inputs _ _ HT)|done|]. right. exists f. split; [done|]. by eapply rtc_r. }
  intros v Hv. apply (H order []); [by rewrite app_nil_r|]. by apply (to_all _ _ HT).
Qed.

(** ** Progress *)

(** How a step changes the tasks: the call that moves, and new ones at the end of
    the queue. *)
Lemma task_step_tasks st i st' :
  task_step g GetKernel st i = Moved st' → ∃ t l, tasks st' = <[i := t]> (tasks st) ++ (RunNode <$> l).
Proof.
  unfold task_step, begin_node, compute_kernel, lock_refs, unlock_refs, notify, release_edge, FinishNodeRun. intros H.
  repeat case_match; try done; injection H as <-; simpl; (try by eexists _, []; rewrite app_nil_r); by eexists _, [_].
Qed.
Lemma main_step_tasks st st' : main_step GetKernel st = Moved st' → ∃ l, tasks st' = tasks st ++ (RunNode <$> l).
Proof.
  unfold main_step. intros H. repeat case_match; try done; injection H as <-; simpl; (try by exists []; rewrite app_nil_r); by eexists [_].
Qed.
Lemma env_step_tasks st st' : env_step st st' → tasks st' = tasks st.
Proof. by destruct 1. Qed.

(** The calls in the queue have not begun. *)
Definition PoolOk (p : PoolState) : Prop :=
  (taken p ≤ length (tasks (executor p)))%nat ∧ ∀ i t, (taken p ≤ i)%nat → tasks (executor p) !! i = Some t → ∃ n, t = RunNode n.
Lemma pool_ok_grows (p : PoolState) l l' st :
  PoolOk p → length l' = length (tasks (executor p)) → (∀ i, (taken p ≤ i)%nat → l' !! i = tasks (executor p) !! i) →
  tasks st = l' ++ (RunNode <$> l) → PoolOk (mkPool st (taken p)).
Proof.
  intros [H1 H2] Hl Hq E. split; simpl; rewrite E; [rewrite length_app; lia|]. intros i t Hi [Ht|[_ Ht]]%lookup_app_Some.
  - rewrite Hq in Ht by done. by eapply H2.
  - apply list_lookup_fmap_Some in Ht as (n & -> & _). by exists n.
Qed.
Lemma pool_step_ok total_ p p' : PoolOk p → pool_step g GetKernel total_ p p' → PoolOk p'.
Proof.
  intros Hp Hs. revert Hp. destruct Hs as [p Ht|p i st Hi Ht|p st Ht]; intros Hp.
  - unfold can_take in Ht. apply andb_true_iff in Ht as [Ht%Nat.ltb_lt _]. destruct Hp as [H1 H2]. split; simpl; [lia|]. intros i t Hi. apply H2. lia.
  - destruct (task_step_tasks _ _ _ Ht) as (t & l & E). eapply pool_ok_grows; [done| | |exact E]; [by rewrite length_insert|].
    intros j Hj. apply list_lookup_insert_ne. lia.
  - destruct (main_step_tasks _ _ Ht) as (l & E). by eapply pool_ok_grows.
Qed.
(** Every run with a pool is a run of the executor. *)
Lemma pool_step_refines total_ p p' : pool_step g GetKernel total_ p p' → executor p' = executor p ∨ step (executor p) (executor p').
Proof. destruct 1; [by left|right; by eapply step_task|right; by apply step_main]. Qed.
Lemma pool_refines total_ p : pool_reachable g GetKernel total_ p → reachable g GetKernel (executor p) ∧ PoolOk p.
Proof.
  intros (terminate & H). revert H. apply (rtc_ind_r (fun p => reachable g GetKernel (executor p) ∧ PoolOk p)).
  - split; [by exists terminate|]. split; [done|]. intros i t _ [=].
  - intros p1 p2 _ Hs [[b Hr] Hp]. destruct Hs as [Hs|[He Ht]].
    + split; [|by eapply pool_step_ok]. exists b. destruct (pool_step_refines _ _ _ Hs) as [->|Hs']; [done|]. eapply rtc_r; [done|by left].
    + split; [exists b; eapply rtc_r; [done|by right]|]. destruct p2 as [st2 n]. simpl in *. subst n. apply env_step_tasks in He.
      eapply (pool_ok_grows p1 [] _ st2); [done|done|done|by rewrite app_nil_r].
Qed.

Lemma begun_taken p i t : PoolOk p → tasks (executor p) !! i = Some t → (∀ n, t ≠ RunNode n) → (i < taken p)%nat.
Proof. intros [_ H] Hi Ht. destruct (le_lt_dec (taken p) i) as [Hle|]; [|done]. destruct (H i t Hle Hi) as [n ->]. by destruct (Ht n). Qed.
Lemma taken_moves total_ p i t :
  Inv (executor p) → PoolOk p → tasks (executor p) !! i = Some t → (i < taken p)%nat → busy t = true → ∃ p', pool_step g GetKernel total_ p p'.
Proof.
  intros HI Hp Hi Hlt Ha. set (st := executor p) in *. destruct (task_step g GetKernel st i) as [st'| |] eqn:E.
  - eexists. by eapply pool_task.
  - unfold task_step, begin_node, compute_kernel, lock_refs, unlock_refs, notify in E. rewrite Hi in E. destruct t as [n|n|n|u [|e es] nx|b|b|b]; try done; try (repeat case_match; done).
    + destruct (live g n); [|done]. destruct (ref_mutex_ st) as [j|] eqn:Em; [|done]. apply (iv_lock _ _ HI) in Em as (u & es & nx & Hj).
      destruct (task_step g GetKernel st j) as [st'| |] eqn:E'; [eexists; eapply pool_task; [by eapply begun_taken|exact E']|..].
      * unfold task_step, unlock_refs in E'. rewrite Hj in E'. destruct es as [|e es]; [by destruct nx|].
        destruct (step_release g GetKernel HG Hsmall st j u e es nx HI Hj) as (st' & Er & _). by rewrite Er in E'.
      * by destruct (task_step_ok g GetKernel HG Hsmall st j HI) as [H _].
    + destruct (step_release g GetKernel HG Hsmall st i u e es nx HI Hi) as (st' & Er & _). by rewrite Er in E.
  - by destruct (task_step_ok g GetKernel HG Hsmall st i HI) as [H _].
Qed.
(** A call that is not ended moves itself or the pool: if no thread is busy, one
    takes the front of the queue. *)
Lemma busy_moves total_ p i t :
  (0 < total_)%nat → Inv (executor p) → PoolOk p → tasks (executor p) !! i = Some t → busy t = true → ∃ p', pool_step g GetKernel total_ p p'.
Proof.
  intros Hn HI Hp Hi Hb. destruct (le_lt_dec (taken p) i) as [Hle|Hlt]; [|by eapply taken_moves].
  destruct (filter busy (take (taken p) (tasks (executor p)))) as [|t' l] eqn:Ef.
  - eexists. apply pool_take. unfold can_take, running. rewrite Ef. apply lookup_lt_Some in Hi. apply andb_true_iff. rewrite !Nat.ltb_lt. simpl. lia.
  - assert (Ht : t' ∈ filter busy (take (taken p) (tasks (executor p)))) by (rewrite Ef; by left).
    apply list_elem_of_filter in Ht as [Hb' (j & Hj)%list_elem_of_lookup]. apply lookup_take_Some in Hj as [Hj Hlt].
    by eapply (taken_moves total_ p j t'); try apply Is_true_true.
Qed.
Lemma no_deadlock total_ p :
  (0 < total_)%nat → Inv (executor p) → PoolOk p → main (executor p) ≠ Returned → ∃ p', pool_step g GetKernel total_ p p'.
Proof.
  intros Hn HI Hp Hm. destruct (main_step GetKernel (executor p)) as [st'| |] eqn:E;
    [eexists; by apply pool_main| |by destruct (main_step_ok g GetKernel HG Hsmall (executor p) HI)].
  unfold main_step in E. destruct (main (executor p)) as [[|n l]| | |] eqn:Em; try done; [by destruct (GetKernel n)|].
  destruct (iv_wait _ _ HI Em) as [Ha|(i & b & Hi)]; [|by eapply busy_moves].
  destruct (tasks (executor p) ≫= active) as [|x r] eqn:Et; [simpl in Ha; lia|].
  assert (Hx : x ∈ tasks (executor p) ≫= active) by (rewrite Et; by left). apply list_elem_of_bind in Hx as (t & Hx & (i & Hi)%list_elem_of_lookup).
  apply (busy_moves total_ p i t Hn HI Hp Hi). destruct t; try done. by apply not_elem_of_nil in Hx.
Qed.

(** ** Every run ends *)

Definition degree (v : nat) : nat := length (out_edges g v).
Definition task_cost t : nat :=
  match t with
  | RunNode n => degree n + 8
  | Computing n => degree n + 7
  | Locking n => degree n + 6
  | Releasing _ es _ => length es + 5
  | Finishing _ => 4
  | Notifying _ => 2
  | Ended _ => 0
  end.
Definition main_cost (m : Main) : nat :=
  match m with Enqueuing l => length l + 3 | Testing => 2 | Waiting => 1 | Returned => 0 end.
Definition pending (s : list nat) : nat := list_sum ((fun v => if decide (v ∈ s) then 0 else degree v + 9)%nat <$> indices g).
(** No more steps than this are left. *)
Definition potential st : nat := pending (started st) + list_sum (task_cost <$> tasks st) + main_cost (main st).

Lemma list_sum_cons a l : list_sum (a :: l) = (a + list_sum l)%nat.
Proof. done. Qed.
Lemma sum_task (l : list Task) i t :
  l !! i = Some t → ∃ rest, list_sum (task_cost <$> l) = (task_cost t + rest)%nat ∧
    ∀ t', list_sum (task_cost <$> <[i := t']> l) = (task_cost t' + rest)%nat.
Proof.
  intros Hi. exists (list_sum (task_cost <$> take i l) + list_sum (task_cost <$> drop (S i) l))%nat. split.
  - rewrite <- (take_drop_middle l i t Hi) at 1. rewrite fmap_app, fmap_cons, list_sum_app, list_sum_cons. lia.
  - intros t'. rewrite insert_take_drop by (by eapply lookup_lt_Some). rewrite fmap_app, fmap_cons, list_sum_app, list_sum_cons. lia.
Qed.
Lemma pending_start s n : n ∉ s → is_Some (live g n) → pending s = (pending (s ++ [n]) + degree n + 9)%nat.
Proof.
  intros Hns Hl%elem_of_indices. unfold pending. pose proof (indices_nodup g) as Hnd. induction (indices g) as [|v l IH]; [by apply not_elem_of_nil in Hl|].
  apply NoDup_cons in Hnd as [Hv Hnd]. rewrite !fmap_cons, !list_sum_cons. apply elem_of_cons in Hl as [->|Hl].
  - rewrite decide_False by done. rewrite (decide_True (P := v ∈ s ++ [v])) by set_solver.
    assert ((fun v0 => if decide (v0 ∈ s) then 0 else degree v0 + 9)%nat <$> l = (fun v0 => if decide (v0 ∈ s ++ [v]) then 0 else degree v0 + 9)%nat <$> l) as E.
    { apply list_fmap_ext. intros i w Hw%list_elem_of_lookup_2. apply decide_ext. set_solver. }
    rewrite E. lia.
  - assert (v ≠ n) by (intros ->; done). rewrite (IH Hl Hnd), (decide_ext (v ∈ s) (v ∈ s ++ [n])) by set_solver. lia.
Qed.

Lemma place_live st v : Inv st → v ∈ places st → is_Some (live g v).
Proof. intros HI (n & Hn & _)%(iv_ready _ _ HI). eauto. Qed.
Lemma started_place st v : Inv st → v ∈ started st → v ∈ places st.
Proof. intros HI Hv%(iv_started _ _ HI). unfold places. set_solver. Qed.
Lemma fresh_following st i u n : Inv st → tasks st !! i = Some (Releasing u [] (Some n)) → n ∉ started st ∧ is_Some (live g n).
Proof.
  intros HI Hi. destruct (bind_insert following _ _ _ Hi) as (rf & HF & _). simpl in HF. split.
  - intros Hin%(iv_started _ _ HI). pose proof (iv_nodup _ _ HI) as Hp. unfold places in Hp. rewrite HF in Hp.
    apply NoDup_app in Hp as (_ & _ & Hp). simpl in Hp. apply NoDup_cons in Hp as [Hni _]. set_solver.
  - apply (place_live st); [done|]. unfold places. rewrite HF. set_solver.
Qed.
Lemma fresh_root st n l : Inv st → main st = Enqueuing (n :: l) → n ∉ started st ∧ is_Some (live g n).
Proof.
  intros HI Hm. split.
  - intros Hin%(iv_started _ _ HI). pose proof (iv_nodup _ _ HI) as Hp. unfold places in Hp. rewrite Hm in Hp. simpl in Hp.
    apply NoDup_cons in Hp as [Hni _]. set_solver.
  - apply (place_live st); [done|]. unfold places. rewrite Hm. set_solver.
Qed.

Lemma release_decreases st i u e es nx st' :
  Inv st → tasks st !! i = Some (Releasing u (e :: es) nx) → release_edge st i u e es nx = Moved st' →
  (potential st' + length (tasks st') < potential st + length (tasks st))%nat.
Proof.
  intros HI Hi E. destruct (release_node g GetKernel HG Hsmall st i u e es nx HI Hi) as (m & Hm & Hr & _). unfold release_edge in E. rewrite Hr in E.
  destruct (sum_task _ _ _ Hi) as (rest & H1 & H2). unfold potential. rewrite H1. simpl.
  assert (Hf : e_node e ∉ started st).
  { intros Hin%(started_place _ _ HI). by eapply idx_new. }
  destruct (u64 _ =? 0); [destruct nx as [n|]|]; injection E as <-; simpl; rewrite ?fmap_app, ?list_sum_app, ?length_app, length_insert, H2; simpl; [|lia..].
  rewrite (pending_start (started st) (e_node e)) by eauto. lia.
Qed.
Lemma task_decreases st i st' :
  Inv st → task_step g GetKernel st i = Moved st' → (potential st' + length (tasks st') < potential st + length (tasks st))%nat.
Proof.
  intros HI E. unfold task_step, begin_node, compute_kernel, lock_refs, unlock_refs, notify in E. destruct (tasks st !! i) as [t|] eqn:Hi; [|done]. destruct (sum_task _ _ _ Hi) as (rest & H1 & H2).
  destruct t as [n|n|n|u [|e es] nx|b|b|b]; [| | | |by eapply release_decreases| | |done]; unfold potential; rewrite H1; simpl.
  - destruct (terminate_flag_ st); [|destruct (GetKernel n)]; injection E as <-; simpl; rewrite length_insert, H2; simpl; lia.
  - destruct (default false (GetKernel n)); injection E as <-; simpl; rewrite length_insert, H2; simpl; lia.
  - destruct (live g n) as [node|] eqn:Hn; [|done]. destruct (ref_mutex_ st); [done|]. injection E as <-. simpl. rewrite length_insert, H2. simpl.
    unfold degree, out_edges. rewrite Hn. lia.
  - destruct nx as [n|]; injection E as <-; simpl; rewrite length_insert, H2; simpl; [|lia]. destruct (fresh_following st i u n HI Hi) as [Hns Hl].
    rewrite (pending_start _ _ Hns Hl). lia.
  - injection E as <-. unfold FinishNodeRun. simpl. rewrite length_insert, H2. destruct (_ =? 0); simpl; lia.
  - injection E as <-. simpl. destruct (main st) eqn:Em; simpl; rewrite length_insert, H2, ?Em; simpl; lia.
Qed.
Lemma main_decreases st st' :
  Inv st → main_step GetKernel st = Moved st' → (potential st' + length (tasks st') < potential st + length (tasks st))%nat.
Proof.
  intros HI E. unfold main_step in E. destruct (main st) as [[|n l]| | |] eqn:Hm; [| | |done|done].
  - injection E as <-. unfold potential. rewrite Hm. simpl. lia.
  - destruct (GetKernel n); injection E as <-; unfold potential; rewrite Hm; simpl; [|lia].
    rewrite fmap_app, list_sum_app, length_app. simpl. destruct (fresh_root st n l HI Hm) as [Hns Hl]. rewrite (pending_start _ _ Hns Hl). lia.
  - injection E as <-. unfold potential. rewrite Hm. simpl. destruct (0 <? out_standings_ st); simpl; lia.
Qed.
(** No more steps of the pool than this are left. *)
Definition steps_left (p : PoolState) : nat := potential (executor p) + (length (tasks (executor p)) - taken p).
Lemma pool_decreases total_ p p' : Inv (executor p) → PoolOk p → pool_step g GetKernel total_ p p' → (steps_left p' < steps_left p)%nat ∧ Inv (executor p').
Proof.
  intros HI Hp Hs. revert HI Hp. unfold steps_left. destruct Hs as [p Ht|p i st Hi Ht|p st Ht]; intros HI [Hp _]; simpl.
  - unfold can_take in Ht. apply andb_true_iff in Ht as [Ht%Nat.ltb_lt _]. split; [lia|done].
  - pose proof (task_decreases _ _ _ HI Ht). destruct (task_step_tasks _ _ _ Ht) as (t & l & E). apply (f_equal length) in E. rewrite length_app, length_insert in E.
    split; [lia|]. by eapply task_step_ok.
  - pose proof (main_decreases _ _ HI Ht). destruct (main_step_tasks _ _ Ht) as (l & E). apply (f_equal length) in E. rewrite length_app in E.
    split; [lia|]. by eapply main_step_ok.
Qed.
Lemma steps_bounded total_ k p p' :
  Inv (executor p) → PoolOk p → nsteps (pool_step g GetKernel total_) k p p' → (k + steps_left p' ≤ steps_left p)%nat ∧ Inv (executor p') ∧ PoolOk p'.
Proof.
  intros HI Hp Hs. induction Hs as [p|k p p1 p' Hs _ IH]; [done|]. destruct (pool_decreases _ _ _ HI Hp Hs) as [Hd HI1].
  destruct IH as (Hk & HI' & Hp'); [done|by eapply pool_step_ok|]. split_and!; [lia|done..].
Qed.
Lemma run_to_end total_ p :
  (0 < total_)%nat → Inv (executor p) → PoolOk p → ∃ p', rtc (pool_step g GetKernel total_) p p' ∧ main (executor p') = Returned.
Proof.
  intros Hn. remember (steps_left p) as n eqn:En. revert p En. induction (lt_wf n) as [n _ IH]. intros p -> HI Hp.
  destruct (main (executor p)) eqn:Hm; [| | |by exists p].
  all: destruct (no_deadlock total_ p Hn HI Hp) as (p1 & Hs); [by rewrite Hm|]; destruct (pool_decreases _ _ _ HI Hp Hs) as [Hd HI1];
    destruct (IH _ Hd p1 eq_refl HI1) as (p' & Hr & He); [by eapply pool_step_ok|]; exists p'; split; [by eapply rtc_l|done].
Qed.

(** There is a call for each node that was started, or fewer: the counter of the
    calls stays below the number of the nodes. *)
Lemma step_started st st' : step st st' → (length (tasks st') + length (started st) ≤ length (tasks st) + length (started st'))%nat.
Proof.
  destruct 1 as [st i st' E|st st' E].
  - unfold task_step, begin_node, compute_kernel, lock_refs, unlock_refs, notify, release_edge, FinishNodeRun in E. repeat case_match; try done; injection E as <-;
      simpl; rewrite ?length_app, ?length_insert; simpl; lia.
  - unfold main_step in E. repeat case_match; try done; injection E as <-; simpl; rewrite ?length_app; simpl; lia.
Qed.
Lemma tasks_started st : reachable g GetKernel st → (length (tasks st) ≤ length (started st))%nat.
Proof.
  intros [b Hr]. revert Hr. apply (rtc_ind_r (fun st => (length (tasks st) ≤ length (started st))%nat)); [done|].
  intros s1 s2 _ [Hs|Hs] IH; [apply step_started in Hs; lia|by destruct Hs].
Qed.
Lemma active_length (l : list Task) : (length (l ≫= active) ≤ length l)%nat.
Proof. induction l as [|t l IH]; [done|]. rewrite bind_cons, length_app. simpl. destruct t; simpl; lia. Qed.
Lemma out_bounded st : Inv st → reachable g GetKernel st → 0 ≤ out_standings_ st ≤ Z.of_nat (length (indices g)).
Proof.
  intros HI Hr. rewrite (iv_out _ _ HI). pose proof (tasks_started st Hr). pose proof (active_length (tasks st)). destruct (iv_started _ _ HI) as [Hnd _].
  assert (Hl : (length (started st) ≤ length (indices g))%nat); [|lia].
  apply submseteq_length, NoDup_submseteq; [done|]. intros v Hv. apply elem_of_indices. eapply place_live; [done|]. by apply started_place.
Qed.

Lemma current_unique st i j n :
  Inv st → tasks st !! i = Some (Computing n) → tasks st !! j = Some (Computing n) → n ∉ computed st ∧ j = i.
Proof.
  intros HI Hi Hj. destruct (bind_insert current _ _ _ Hi) as (rest & HC & HC'). specialize (HC' (Ended false)). simpl in HC, HC'.
  pose proof (iv_nodup _ _ HI) as Hnd. unfold places in Hnd. rewrite HC in Hnd. do 2 apply NoDup_app in Hnd as (_ & _ & Hnd). simpl in Hnd.
  apply NoDup_cons in Hnd as [Hni _]. split; [set_solver|]. destruct (decide (j = i)) as [?|Hne]; [done|]. destruct Hni. apply elem_of_app. left.
  rewrite <- HC'. apply list_elem_of_bind. exists (Computing n). split; [by left|]. apply (list_elem_of_lookup_2 _ j). by rewrite list_lookup_insert_ne.
Qed.
Lemma computed_nodup st : Inv st → NoDup (computed st).
Proof.
  intros HI. pose proof (iv_nodup _ _ HI) as Hnd. unfold places in Hnd. do 3 apply NoDup_app in Hnd as (_ & _ & Hnd). by apply NoDup_app in Hnd as [? _].
Qed.
End props.

Section theorems.
Context (g : Graph) (GetKernel : nat → option bool).

(** C29. The parallel executor at any point of any interleaving of its threads, with
    the terminate flag set at any time and with spurious wakeups: no thread
    accesses a counter out of range. The nodes whose kernels have returned are
    distinct and in an order of the data flow. A node whose kernel is running has
    not run before, no other thread runs it, and the kernels of all its inputs
    have returned OK. *)
Theorem parallel_order st :
  GraphInv g → (∀ v n, live g v = Some n → Z.of_nat (length (n_input_edges n)) < 2 ^ 64) → reachable g GetKernel st →
  (∀ i, task_step g GetKernel st i ≠ Undefined) ∧ NoDup (computed st) ∧
  (∀ l1 v l2 u, computed st = l1 ++ v :: l2 → edge g u v → u ∈ l1) ∧
  ∀ i n, tasks st !! i = Some (Computing n) →
    (∀ u, edge g u n → u ∈ computed st ∧ GetKernel u = Some true) ∧ n ∉ computed st ∧ ∀ j, tasks st !! j = Some (Computing n) → j = i.
Proof.
  intros HG Hs Hr. destruct (parallel_reachable_ok g GetKernel HG Hs st Hr) as [HI HH]. split_and!.
  - intros i. by apply task_step_ok.
  - by eapply computed_nodup.
  - apply HH.
  - intros i n Hi. assert (HU : ∀ j, tasks st !! j = Some (Computing n) → n ∉ computed st ∧ j = i) by (intros j Hj; by eapply current_unique).
    split_and!; [|by destruct (HU i Hi)|intros j Hj; by destruct (HU j Hj)].
    intros u He. assert (Hu : u ∈ computed st) by (eapply ready_inputs; [done|eapply (current_place g GetKernel HG Hs st i); [done|by left]|done]). split; [done|by apply HH].
Qed.

(** C31. When [Execute] has passed its wait on an acyclic graph, all kernels have
    returned: a task has ended or has nothing left to do but to notify. Every
    node has been computed or lies downstream of a node that was
    given up, because its kernel is missing or failed or because the terminate
    flag is set. If no node was given up, then the order in which the kernels
    returned is a topological order of the whole graph. *)
Theorem parallel_complete st :
  GraphInv g → Acyclic g → (∀ v n, live g v = Some n → Z.of_nat (length (n_input_edges n)) < 2 ^ 64) → reachable g GetKernel st →
  main st = Returned →
  (∀ i t, tasks st !! i = Some t → ∃ b, t = Notifying b ∨ t = Ended b) ∧
  (∀ v, is_Some (live g v) → v ∈ computed st ∨ ∃ f, f ∈ failed st ∧ rtc (edge g) f v) ∧
  (∀ f, f ∈ failed st → terminate_flag_ st = true ∨ GetKernel f ≠ Some true) ∧
  (failed st = [] → Topological g (computed st)).
Proof.
  intros HG HA Hs Hr Hm. destruct (parallel_reachable_ok g GetKernel HG Hs st Hr) as [HI HH].
  destruct (new_GraphViewer_ok g HG HA) as (v & _ & HT & _).
  pose proof (returned_nodes g GetKernel HG Hs _ st HT HI Hm) as Hall. split_and!; [by eapply returned_tasks|done|apply HH|].
  intros Hf. split; [|split; [|]|apply HH].
  - by eapply computed_nodup.
  - intros Hw. eapply place_live; [done|]. unfold places. rewrite !elem_of_app. tauto.
  - intros Hw. destruct (Hall _ Hw) as [?|(f & Hin & _)]; [done|]. rewrite Hf in Hin. by apply not_elem_of_nil in Hin.
Qed.

(** C30. There is no deadlock and no lost wakeup if the thread pool has a thread, be
    it only one: as long as [Execute] has not passed its wait, some thread can go
    on, although only as many calls run at a time as the pool has threads and a
    call that waits for [ref_mutex_] keeps its thread. Every run of the threads is
    finite, with a bound that the state gives; so [Execute] passes its wait in the
    end, also when kernels fail. The counter [out_standings_], an [int] in the
    code, is never negative and never above the number of nodes. Kernels return, no other run uses the pool, and
    wakeups without a notification are not counted. *)
Theorem parallel_terminates total_ p k p' :
  GraphInv g → (∀ v n, live g v = Some n → Z.of_nat (length (n_input_edges n)) < 2 ^ 64) → (0 < total_)%nat →
  pool_reachable g GetKernel total_ p → nsteps (pool_step g GetKernel total_) k p p' →
  (k ≤ steps_left g p)%nat ∧ 0 ≤ out_standings_ (executor p') ≤ Z.of_nat (length (indices g)) ∧ (main (executor p') ≠ Returned → ∃ p'', pool_step g GetKernel total_ p' p'') ∧
  ∃ p'', rtc (pool_step g GetKernel total_) p' p'' ∧ main (executor p'') = Returned.
Proof.
  intros HG Hs Hn Hr Hk. destruct (pool_refines g GetKernel total_ p Hr) as [Hr' Hp]. destruct (parallel_reachable_ok g GetKernel HG Hs _ Hr') as [HI _].
  destruct (steps_bounded g GetKernel HG Hs total_ k p p' HI Hp Hk) as (Hb & HI' & Hp'). 
  assert (Hr2 : reachable g GetKernel (executor p')).
  { destruct Hr' as [b Hr']. exists b. clear -Hr' Hk. induction Hk as [p|k p p1 p' Hs _ IH]; [done|]. apply IH.
    destruct (pool_step_refines g GetKernel _ _ _ Hs) as [->|Hs']; [done|]. eapply rtc_r; [done|by left]. }
  split; [lia|]. split; [by eapply out_bounded|]. split; [by apply no_deadlock|by apply run_to_end].
Qed.
End theorems.

(** ** Concrete runs *)

Module ParallelRun.
(** A schedule: which thread goes next. *)
Inductive Actor := AMain | ATask (i : nat).
Fixpoint run (g : Graph) (GetKernel : nat → option bool) (l : list Actor) (st : State) : option State :=
  match l with
  | [] => Some st
  | a :: l => match (match a with AMain => main_step GetKernel st | ATask i => task_step g GetKernel st i end) with
              | Moved st => run g GetKernel l st
              | _ => None
              end
  end.
Lemma run_steps g GetKernel l st st' : run g GetKernel l st = Some st' → nsteps (step g GetKernel) (length l) st st'.
Proof.
  revert st. induction l as [|a l IH]; intros st; simpl; [intros [= ->]; constructor|].
  destruct a as [|i]; [destruct (main_step GetKernel st) eqn:E|destruct (task_step g GetKernel st i) eqn:E]; try done; intros H.
  - econstructor; [by apply step_main|by apply IH].
  - econstructor; [by eapply step_task|by apply IH].
Qed.
Lemma run_reachable g GetKernel l st : run g GetKernel l (new_ParallelExecutor g false) = Some st → reachable g GetKernel st.
Proof.
  intros H%run_steps. exists false. eapply rtc_subrel; [|apply rtc_nsteps; eauto]. intros. by left.
Qed.
Definition graph : Graph := GraphExample.resolved.
Definition all_ok (_ : nat) : option bool := Some true.
Lemma small v n : live graph v = Some n → Z.of_nat (length (n_input_edges n)) < 2 ^ 64.
Proof.
  intros Hn%elem_of_Nodes. assert (H : forallb (fun p => Z.of_nat (length (n_input_edges p.2)) <? 2 ^ 64) (Nodes graph) = true) by (vm_compute; reflexivity).
  rewrite forallb_forall in H. apply list_elem_of_In, H in Hn. simpl in Hn. lia.
Qed.
(** The first node runs; then its two successors run side by side. *)
Definition to_middle : list Actor :=
  [AMain; AMain] ++ replicate 7 (ATask 0) ++ [ATask 1].
(** The rest of the run until the last call has counted down [out_standings_]. *)
Definition to_end : list Actor := to_middle ++ replicate 5 (ATask 0) ++ replicate 9 (ATask 1).
Definition at_end (o : option State) : option (list Task * Main * list nat) :=
  option_map (fun st => (tasks st, main st, computed st)) o.
Definition start : State := new_ParallelExecutor graph false.

(** A schedule with a pool. *)
Inductive PoolActor := PMain | PTake | PTask (i : nat).
Definition pool_move (total_ : nat) (a : PoolActor) (p : PoolState) : option PoolState :=
  match a with
  | PTake => if can_take total_ p then Some (mkPool (executor p) (S (taken p))) else None
  | PMain => match main_step all_ok (executor p) with Moved st => Some (mkPool st (taken p)) | _ => None end
  | PTask i =>
      if (i <? taken p)%nat then match task_step graph all_ok (executor p) i with Moved st => Some (mkPool st (taken p)) | _ => None end else None
  end.
Fixpoint pool_run (total_ : nat) (l : list PoolActor) (p : PoolState) : option PoolState :=
  match l with
  | [] => Some p
  | a :: l => match pool_move total_ a p with Some p => pool_run total_ l p | None => None end
  end.
Lemma pool_run_steps total_ l p p' : pool_run total_ l p = Some p' → nsteps (pool_step graph all_ok total_) (length l) p p'.
Proof.
  revert p. induction l as [|a l IH]; intros p; simpl; [intros [= ->]; constructor|]. destruct (pool_move total_ a p) as [p1|] eqn:E; [|done]. intros H.
  econstructor; [|by apply IH]. destruct a as [| |i]; simpl in E.
  - destruct (main_step all_ok (executor p)) eqn:Em; try done. injection E as <-. by apply pool_main.
  - destruct (can_take total_ p) eqn:Et; [|done]. injection E as <-. by apply pool_take.
  - destruct (Nat.ltb_spec i (taken p)); [|done]. destruct (task_step graph all_ok (executor p) i) eqn:Et; try done. injection E as <-. by eapply pool_task.
Qed.
(** One thread runs the first call with all that follows from it, then the other. *)
Definition one_thread : list PoolActor := [PMain; PMain; PTake] ++ replicate 12 (PTask 0) ++ [PTake] ++ replicate 11 (PTask 1).
End ParallelRun.
Import ParallelRun.

Lemma parallel_order_witness :
  ∃ st, run graph all_ok to_middle start = Some st ∧ tasks st = [Computing 1; Computing 2] ∧ computed st = [3%nat] ∧
    (∀ u, edge graph u 2 → u ∈ computed st ∧ all_ok u = Some true) ∧ (2%nat ∉ computed st).
Proof.
  destruct (run graph all_ok to_middle start) as [st|] eqn:E; [|by vm_compute in E]. exists st.
  assert (Hst : at_end (Some st) = Some ([Computing 1; Computing 2], Testing, [3%nat])) by (rewrite <- E; vm_compute; reflexivity).
  injection Hst as Ht Hm Hc.
  destruct (parallel_order graph all_ok st GraphExample.resolved_inv small (run_reachable _ _ _ _ E)) as (_ & _ & _ & H).
  destruct (H 1%nat 2%nat) as (H1 & H2 & _); [by rewrite Ht|]. split_and!; [done|done|done|exact H1|exact H2].
Defined.
Lemma parallel_complete_witness :
  ∃ st, run graph all_ok (to_end ++ [AMain]) start = Some st ∧ main st = Returned ∧ Topological graph (computed st) ∧ computed st = [3; 1; 2; 0]%nat.
Proof.
  destruct (run graph all_ok (to_end ++ [AMain]) start) as [st|] eqn:E; [|by vm_compute in E]. exists st.
  assert (Hst : at_end (Some st) = Some ([Ended false; Notifying false], Returned, [3; 1; 2; 0]%nat)) by (rewrite <- E; vm_compute; reflexivity).
  assert (Hf : option_map failed (Some st) = Some []) by (rewrite <- E; vm_compute; reflexivity). injection Hst as Ht Hm Hc. injection Hf as Hf.
  destruct (parallel_complete graph all_ok st GraphExample.resolved_inv GraphExample.resolved_acyclic small (run_reachable _ _ _ _ E) Hm) as (_ & _ & _ & H).
  split_and!; [done|exact Hm|exact (H Hf)|exact Hc].
Defined.
Lemma parallel_terminates_witness :
  ∃ p, pool_run 1 one_thread (new_TaskThreadPool graph false) = Some p ∧ tasks (executor p) = [Ended false; Ended false] ∧
    (length one_thread ≤ steps_left graph (new_TaskThreadPool graph false))%nat ∧
    ∃ p'', rtc (pool_step graph all_ok 1) p p'' ∧ main (executor p'') = Returned.
Proof.
  destruct (pool_run 1 one_thread (new_TaskThreadPool graph false)) as [p|] eqn:E; [|by vm_compute in E]. exists p.
  destruct (parallel_terminates graph all_ok 1 (new_TaskThreadPool graph false) (length one_thread) p GraphExample.resolved_inv small) as (H1 & _ & _ & H2).
  - lia.
  - by exists false.
  - by apply pool_run_steps.
  - assert (Ht : (fun p => tasks (executor p)) <$> Some p = Some [Ended false; Ended false]) by (rewrite <- E; vm_compute; reflexivity).
    injection Ht as Ht. split_and!; [done|exact Ht|exact H1|exact H2].
Defined.

(** A pool without threads runs nothing, and [Execute] waits for ever. A session
    makes such a pool on a machine with one processor, or where the number is not
    known and counts as 0, unless its options give a size
    (inference_session.cc:71). *)
Theorem empty_pool_hangs :
  pool_size 0 1 = 0 ∧ pool_size 0 0 = 0 ∧
  ∃ p, pool_reachable graph all_ok 0 p ∧ main (executor p) = Waiting ∧ ∀ p', ¬ pool_step graph all_ok 0 p p'.
Proof.
  split; [done|]. split; [done|]. destruct (pool_run 0 [PMain; PMain; PMain] (new_TaskThreadPool graph false)) as [p|] eqn:E; [|by vm_compute in E].
  exists p. assert (Hp : (fun p => (main (executor p), taken p)) <$> Some p = Some (Waiting, 0%nat)) by (rewrite <- E; vm_compute; reflexivity).
  injection Hp as Hm Ht. split_and!; [|done|].
  - exists false. eapply rtc_subrel; [|apply rtc_nsteps; eexists; by apply pool_run_steps]. intros. by left.
  - intros p' Hs. destruct Hs as [p Hc|p i st Hi _|p st Hs]; [|lia|unfold main_step in Hs; by rewrite Hm in Hs].
    unfold can_take in Hc. apply andb_true_iff in Hc as [_ Hc%Nat.ltb_lt]. lia.
Qed.

(** The wait of [Execute] does not wait for the notification: the call that
    counts [out_standings_] down to 0 gives up the mutex before it notifies, so
    [Execute] can pass its test and return, and the executor with its condition
    variable be destroyed, while that call is still about to use it. *)
Theorem notify_after_return :
  ∃ st i, reachable graph all_ok st ∧ main st = Returned ∧ tasks st !! i = Some (Notifying false).
Proof.
  destruct (run graph all_ok (to_end ++ [AMain]) start) as [st|] eqn:E; [|by vm_compute in E].
  assert (Hst : at_end (Some st) = Some ([Ended false; Notifying false], Returned, [3; 1; 2; 0]%nat)) by (rewrite <- E; vm_compute; reflexivity).
  injection Hst as Ht Hm Hc. exists st, 1%nat. split; [by apply (run_reachable _ _ (to_end ++ [AMain]))|]. split; [done|]. by rewrite Ht.
Qed.

(** A kernel that fails does not make [Execute] fail: a run in which no kernel
    returns OK passes the wait like any other, and what follows it does not look
    at what the tasks did. *)
Theorem failures_pass_unseen :
  ∃ st, reachable graph (fun _ => Some false) st ∧ main st = Returned ∧ computed st = [] ∧ failed st = [3%nat] ∧
    ∀ i t, tasks st !! i = Some t → t = Ended true.
Proof.
  set (bad := fun _ : nat => Some false).
  destruct (run graph bad ([AMain; AMain] ++ replicate 4 (ATask 0) ++ [AMain]) start) as [st|] eqn:E; [|by vm_compute in E].
  assert (Hst : at_end (Some st) = Some ([Ended true], Returned, [])) by (rewrite <- E; vm_compute; reflexivity).
  assert (Hf : option_map failed (Some st) = Some [3%nat]) by (rewrite <- E; vm_compute; reflexivity).
  injection Hst as Ht Hm Hc. injection Hf as Hf. exists st. split_and!; [by eapply run_reachable|done|done|done|].
  rewrite Ht. by intros [|[|i]] t; simpl; intros [= <-].
Qed.
