(* ===== verification/TensorProto.v ===== *)
(** Weights in a model file: [TensorUtils::UnpackTensor] and
    [GetSizeInBytesFromTensorProto] of [tensorutils.cc], which read the elements
    of a [TensorProto] and compute its size, and [GetTensorFromTensorProto] of
    [tensorprotoutils.cc], which makes a tensor of it. *)
From S2P Require Import Prelude TensorShape MemPattern AllocPlanner ExecutionFrame.

(** ** Messages *)

Inductive DataType :=
  | UNDEFINED | FLOAT | UINT8 | INT8 | UINT16 | INT16 | INT32 | INT64 | STRING | BOOL
  | FLOAT16 | DOUBLE | UINT32 | UINT64 | COMPLEX64 | COMPLEX128 | BFLOAT16.
#[export] Instance DataType_eq_dec : EqDecision DataType.
Proof. solve_decision. Defined.

(** The fields of [TensorProto] that are read. The numbers of [float_data] and
    [double_data] are bit patterns; [raw_data] is a string of bytes. *)
Record TensorProto := mkProto {
  dims : list Z;
  data_type : DataType;
  raw_data : option (list Z);
  float_data : list Z;
  int32_data : list Z;
  int64_data : list Z;
  uint64_data : list Z;
  double_data : list Z;
  string_data : list string;
}.

(** What a tensor holds: bit patterns of numbers, or strings. *)
Inductive Content :=
  | Numbers (l : list Z)
  | Strings (l : list string).

(** [DataTypeImpl::GetType<X>] and [sizeof(std::string)]. *)
Class ElementTypes (T : Type) := {
  GetType : DataType → T;
  sizeof_string : Z;
}.

(** [sizeof] of the C++ type that holds an element; [None] for the types that
    the code has no case for. *)
Definition sizeof_number (d : DataType) : option Z :=
  match d with
  | FLOAT | INT32 | UINT32 => Some 4
  | DOUBLE | INT64 | UINT64 => Some 8
  | BOOL | INT8 | UINT8 => Some 1
  | INT16 | UINT16 | FLOAT16 | BFLOAT16 => Some 2
  | _ => None
  end.

(** ** Sizes *)

Definition CalcMemSizeForArray (nmemb size : Z) : option Z := CalcMemSizeForArrayWithAlignment 0 nmemb size.

Definition size_dim (acc : Status * Z) (d : Z) : Status * Z :=
  let '(s, size) := acc in
  if negb (IsOK s) then acc
  else if d <? 0 then (Some FAIL, size)
  else match CalcMemSizeForArray size d with
       | None => (Some FAIL, size)
       | Some size => (StatusOK, size)
       end.
Definition GetSizeInBytesFromTensorProto (alignment : Z) (tensor_proto : TensorProto) : Status * Z :=
  let '(s, size) := foldl size_dim (StatusOK, 1) (dims tensor_proto) in
  if negb (IsOK s) then (s, 0)
  else match sizeof_number (data_type tensor_proto) with
       | None => (Some NOT_IMPLEMENTED, 0)
       | Some sz =>
           match CalcMemSizeForArrayWithAlignment alignment size sz with
           | None => (Some FAIL, 0)
           | Some out => (StatusOK, out)
           end
       end.

(** ** Elements *)

Definition le_value (bytes : list Z) : Z := foldr (fun b acc => b + 256 * acc) 0 bytes.
(** An array of [type_size] byte elements in the memory [bytes]. *)
Definition le_elements (type_size : nat) (bytes : list Z) : list Z :=
  (fun i => le_value (take type_size (drop (i * type_size) bytes))) <$> seq 0 (length bytes / type_size).

Section unpack.
(** [IsLittleEndianOrder]. *)
Context (little_endian : bool).

(** On a big-endian machine the inner loop reads the same byte in each round,
    and the second element is read and written out of range. *)
Definition UnpackTensorWithRawData (type_size : nat) (raw : list Z) : res (list Z) :=
  if little_endian then Ok (le_elements type_size raw)
  else if bool_decide (raw = []) then Ok []
  else if (length raw <=? type_size)%nat
  then b ← of_option UndefinedBehaviour (raw !! (type_size - 1)%nat); Ok [le_value (replicate type_size b)]
  else Throw UndefinedBehaviour.

(** [*reinterpret_cast<const T*>] of a field of [from] bytes. *)
Definition reinterpret (from to v : Z) : Z :=
  if little_endian then v mod 2 ^ (8 * to) else v mod 2 ^ (8 * from) / 2 ^ (8 * (from - to)).

(** A null destination is fine for a tensor without elements. *)
Definition null_status (size : nat) : Status := if (size =? 0)%nat then StatusOK else Some INVALID_ARGUMENT.

(** The fields that [DEFINE_UNPACK_TENSOR] is used with, and their width. *)
Definition unpack_field (d : DataType) (tensor : TensorProto) : option (list Z * Z) :=
  match d with
  | FLOAT => Some (float_data tensor, 4)
  | DOUBLE => Some (double_data tensor, 8)
  | UINT8 | INT8 | INT16 | UINT16 | INT32 => Some (int32_data tensor, 4)
  | INT64 => Some (int64_data tensor, 8)
  | UINT64 | UINT32 => Some (uint64_data tensor, 8)
  | _ => None
  end.
Definition unpack_numbers (d : DataType) (type_size : Z) (field : list Z) (width : Z) (tensor : TensorProto)
    (p_data_null : bool) (expected_size : Z) : res (Status * Content) :=
  let raw_size := match raw_data tensor with Some raw => length raw | None => length field end in
  if p_data_null then Ok (null_status raw_size, Numbers [])
  else if negb (bool_decide (d = data_type tensor)) then Ok (Some INVALID_ARGUMENT, Numbers [])
  else match raw_data tensor with
       | Some raw =>
           match CalcMemSizeForArray expected_size type_size with
           | None => Ok (Some FAIL, Numbers [])
           | Some expected_size_in_bytes =>
               if negb (Z.of_nat (length raw) =? expected_size_in_bytes) then Ok (Some FAIL, Numbers [])
               else l ← UnpackTensorWithRawData (Z.to_nat type_size) raw; Ok (StatusOK, Numbers l)
           end
       | None =>
           if negb (Z.of_nat (length field) =? expected_size) then Ok (Some FAIL, Numbers [])
           else Ok (StatusOK, Numbers (reinterpret width type_size <$> field))
       end.

(** The cases for [bool], [MLFloat16] and [BFloat16] share the checks. *)
Definition unpack_int32 (d : DataType) (type_size : Z) (convert : list Z → Status * list Z) (tensor : TensorProto)
    (p_data_null : bool) (expected_size : Z) : res (Status * Content) :=
  let raw_size := match raw_data tensor with Some raw => length raw | None => length (int32_data tensor) end in
  if p_data_null then Ok (null_status raw_size, Numbers [])
  else if negb (bool_decide (d = data_type tensor)) then Ok (Some INVALID_ARGUMENT, Numbers [])
  else match raw_data tensor with
       | Some raw =>
           if negb (Z.of_nat (length raw) =? u64 (expected_size * type_size)) then Ok (Some FAIL, Numbers [])
           else l ← UnpackTensorWithRawData (Z.to_nat type_size) raw; Ok (StatusOK, Numbers l)
       | None =>
           if negb (Z.of_nat (length (int32_data tensor)) =? expected_size) then Ok (Some FAIL, Numbers [])
           else let '(s, l) := convert (int32_data tensor) in Ok (s, Numbers l)
       end.
Definition to_bools (l : list Z) : Status * list Z := (StatusOK, (fun v => if v =? 0 then 0 else 1) <$> l).
Fixpoint to_halves (l : list Z) : Status * list Z :=
  match l with
  | [] => (StatusOK, [])
  | v :: l' => if (v <? 0) || (65535 <? v) then (Some FAIL, []) else let '(s, r) := to_halves l' in (s, v :: r)
  end.
Definition unpack_strings (tensor : TensorProto) (p_data_null : bool) (expected_size : Z) : Status * Content :=
  if p_data_null then (null_status (length (string_data tensor)), Strings [])
  else if negb (bool_decide (STRING = data_type tensor)) then (Some INVALID_ARGUMENT, Strings [])
  else if negb (Z.of_nat (length (string_data tensor)) =? expected_size) then (Some FAIL, Strings [])
  else (StatusOK, Strings (string_data tensor)).

(** [UnpackTensor<X>] for the C++ type of [d]. *)
Definition UnpackTensor (d : DataType) (tensor : TensorProto) (p_data_null : bool) (expected_size : Z) :
    res (Status * Content) :=
  match d with
  | STRING => Ok (unpack_strings tensor p_data_null expected_size)
  | BOOL => unpack_int32 BOOL 1 to_bools tensor p_data_null expected_size
  | FLOAT16 => unpack_int32 FLOAT16 2 to_halves tensor p_data_null expected_size
  | BFLOAT16 => unpack_int32 BFLOAT16 2 to_halves tensor p_data_null expected_size
  | _ =>
      match sizeof_number d, unpack_field d tensor with
      | Some type_size, Some (field, width) => unpack_numbers d type_size field width tensor p_data_null expected_size
      | _, _ => Throw UndefinedBehaviour
      end
  end.

(** ** Tensors *)

Context {T : Type} `{!ElementTypes T}.

(** [IAllocator::Alloc] gives a null pointer for 0 bytes. *)
Definition Alloc_bytes (h : Heap) (size : Z) : Pointer * Heap :=
  if size =? 0 then (Null, h) else let '(b, h) := heap_Alloc h in (Ptr b 0, h).

Definition is_null (p : Pointer) : bool := match p with Null => true | _ => false end.

(** The tensor with what is put into its memory. When the elements cannot be
    read, a new buffer of numbers is not given back; a string tensor exists
    already and goes. *)
Definition GetTensorByTypeFromTensorProto (d : DataType) (type_size : Z) (tensor_proto : TensorProto) (tensor_shape : TensorShape)
    (alloc : OrtAllocatorInfo) (preallocated : Pointer) (preallocated_size : Z) (h : Heap) :
    res (Status * option (Tensor T * Content) * Heap) :=
  let tensor_size := Size tensor_shape in
  if tensor_size <? 0 then Ok (Some INVALID_ARGUMENT, None, h)
  else match CalcMemSizeForArrayWithAlignment 256 tensor_size type_size with
       | None => Ok (Some INVALID_ARGUMENT, None, h)
       | Some size_to_allocate =>
           if negb (is_null preallocated) && negb (preallocated_size =? size_to_allocate) then Ok (Some FAIL, None, h)
           else
             let '(p_data, h) := if is_null preallocated then Alloc_bytes h size_to_allocate else (preallocated, h) in
             let tensor := mkTensor (GetType d) tensor_shape p_data alloc (is_null preallocated) in
             '(s, content) ← UnpackTensor d tensor_proto (is_null p_data) tensor_size;
             if negb (IsOK s) then
               h ← (if bool_decide (d = STRING) then drop_value h (mkMLValue (Some (TensorObject tensor)) false None) else Ok h);
               Ok (s, None, h)
             else Ok (StatusOK, Some (tensor, content), h)
       end.

Definition GetTensorShapeFromTensorProto (tensor_proto : TensorProto) : TensorShape := dims tensor_proto.

(** [sizeof] of the type of the case for [d]. *)
Definition sizeof_element (d : DataType) : option Z := if bool_decide (d = STRING) then Some sizeof_string else sizeof_number d.

Definition GetTensorFromTensorProto (tensor_proto : TensorProto) (allocator : OrtAllocatorInfo) (preallocated : Pointer)
    (preallocated_size : Z) (h : Heap) : res (Status * option (Tensor T * Content) * Heap) :=
  let tensor_shape := GetTensorShapeFromTensorProto tensor_proto in
  let d := data_type tensor_proto in
  match sizeof_element d with
  | Some type_size =>
      GetTensorByTypeFromTensorProto d type_size tensor_proto tensor_shape allocator preallocated preallocated_size h
  | None => Ok (Some INVALID_ARGUMENT, None, h)
  end.

Definition TensorProtoToMLValue (input : TensorProto) (allocator : OrtAllocatorInfo) (preallocated : Pointer)
    (preallocated_size : Z) (h : Heap) : res (Status * option (MLValue T * Content) * Heap) :=
  '(s, p_tensor, h) ← GetTensorFromTensorProto input allocator preallocated preallocated_size h;
  Ok (s, option_map (fun '(t, c) => (mkMLValue (Some (TensorObject t)) false None, c)) p_tensor, h).
End unpack.
