(* ===== verification/TensorProtoProps.v ===== *)
(** The reading of weights: what [UnpackTensor] puts into memory, that the two
    encodings of a tensor mean the same, and that the size which is planned for a
    tensor is the one it is checked against. *)
From S2P Require Import Prelude TensorShape MemPattern AllocPlanner ExecutionFrame AllocSize TensorProto.

(** ** Bytes *)

Fixpoint le_bytes (n : nat) (v : Z) : list Z :=
  match n with O => [] | S n' => v mod 256 :: le_bytes n' (v / 256) end.
Lemma length_le_bytes n v : length (le_bytes n v) = n.
Proof. revert v. induction n as [|n IH]; intros v; simpl; [done|]. by rewrite IH. Qed.
Lemma le_value_bytes n v : 0 ≤ v < 256 ^ Z.of_nat n → le_value (le_bytes n v) = v.
Proof.
  revert v. induction n as [|n IH]; intros v Hv; [simpl in *; lia|].
  change (v mod 256 + 256 * le_value (le_bytes n (v / 256)) = v). rewrite Nat2Z.inj_succ, Z.pow_succ_r in Hv by lia.
  rewrite IH; [pose proof (Z.div_mod v 256); lia|]. split; [apply Z.div_pos; lia|]. apply Z.div_lt_upper_bound; lia.
Qed.
Lemma le_value_bound bytes : Forall (fun b => 0 ≤ b < 256) bytes → 0 ≤ le_value bytes < 256 ^ Z.of_nat (length bytes).
Proof.
  induction 1 as [|b l Hb Hl IH]; [simpl; lia|]. cbn [length le_value foldr]. fold (le_value l).
  rewrite Nat2Z.inj_succ, Z.pow_succ_r by lia. lia.
Qed.

Lemma length_encode ts (l : list Z) : length (l ≫= le_bytes ts) = (length l * ts)%nat.
Proof. induction l as [|x l IH]; [done|]. rewrite bind_cons, length_app, length_le_bytes, IH. simpl. lia. Qed.
Lemma encode_chunk ts (l : list Z) i x :
  l !! i = Some x → take ts (drop (i * ts) (l ≫= le_bytes ts)) = le_bytes ts x.
Proof.
  revert i. induction l as [|y l IH]; intros i Hi; [done|]. rewrite bind_cons. destruct i as [|i].
  - injection Hi as ->. rewrite drop_0, take_app_le by (rewrite length_le_bytes; lia). apply take_ge. by rewrite length_le_bytes.
  - rewrite drop_app_ge by (rewrite length_le_bytes; simpl; lia). rewrite length_le_bytes.
    replace (S i * ts - ts)%nat with (i * ts)%nat by (simpl; lia). by apply IH.
Qed.
Lemma le_elements_encode ts l :
  (0 < ts)%nat → Forall (fun x => 0 ≤ x < 256 ^ Z.of_nat ts) l → le_elements ts (l ≫= le_bytes ts) = l.
Proof.
  intros Hts Hl. unfold le_elements. rewrite length_encode, Nat.div_mul by lia. apply list_eq. intros i.
  rewrite list_lookup_fmap. destruct (l !! i) as [x|] eqn:Ei.
  - rewrite lookup_seq_lt by (by eapply lookup_lt_Some). simpl. rewrite (encode_chunk _ _ _ _ Ei).
    rewrite le_value_bytes; [done|]. rewrite Forall_forall in Hl. apply Hl. by eapply list_elem_of_lookup_2.
  - by rewrite lookup_seq_ge by (by apply lookup_ge_None).
Qed.
Lemma le_elements_bound ts raw n :
  (0 < ts)%nat → length raw = (n * ts)%nat → Forall (fun b => 0 ≤ b < 256) raw →
  length (le_elements ts raw) = n ∧ Forall (fun x => 0 ≤ x < 256 ^ Z.of_nat ts) (le_elements ts raw).
Proof.
  intros Hts Hlen Hb. unfold le_elements. rewrite Hlen, Nat.div_mul by lia. split; [by rewrite length_fmap, length_seq|].
  apply Forall_fmap, Forall_forall. intros i Hi%elem_of_seq. simpl.
  assert (E : length (take ts (drop (i * ts) raw)) = ts) by (rewrite length_take, length_drop; nia).
  pose proof (le_value_bound (take ts (drop (i * ts) raw)) ltac:(by apply Forall_take, Forall_drop)) as H. by rewrite E in H.
Qed.
Lemma pow_256 sz : 0 ≤ sz → 256 ^ Z.of_nat (Z.to_nat sz) = 2 ^ (8 * sz).
Proof. intros H. rewrite Z2Nat.id by done. change 256 with (2 ^ 8). rewrite <- Z.pow_mul_r by lia. done. Qed.

(** ** Elements *)

Lemma sizeof_range d sz : sizeof_number d = Some sz → 1 ≤ sz ≤ 8.
Proof. destruct d; simpl; intros; simplify_eq; lia. Qed.
Lemma CalcMemSizeForArray_ok n sz : 0 ≤ n < 2 ^ 64 → 0 ≤ sz < 2 ^ 64 →
  CalcMemSizeForArray n sz = if sz * n <=? 2 ^ 64 - 1 then Some (sz * n) else None.
Proof.
  intros Hn Hs. unfold CalcMemSizeForArray. rewrite array_size_exact by auto. rewrite Z.sub_0_r. done.
Qed.

(** Bytes are bytes. *)
Definition raw_ok (tensor : TensorProto) : Prop := ∀ raw, raw_data tensor = Some raw → Forall (fun b => 0 ≤ b < 256) raw.

Definition filled (n sz : Z) (l : list Z) : Prop := Z.of_nat (length l) = n ∧ Forall (fun x => 0 ≤ x < 2 ^ (8 * sz)) l.

Lemma raw_filled n sz raw :
  1 ≤ sz → 0 ≤ n → Z.of_nat (length raw) = sz * n → Forall (fun b => 0 ≤ b < 256) raw → filled n sz (le_elements (Z.to_nat sz) raw).
Proof.
  intros Hs Hn Hlen Hb. destruct (le_elements_bound (Z.to_nat sz) raw (Z.to_nat n)) as [H1 H2]; [lia|nia|done|].
  split; [lia|]. by rewrite pow_256 in H2 by lia.
Qed.

Lemma unpack_numbers_fills d sz field width tensor n c :
  1 ≤ sz ≤ 8 → 0 ≤ n < 2 ^ 63 → raw_ok tensor →
  unpack_numbers true d sz field width tensor false n = Ok (StatusOK, c) → ∃ l, c = Numbers l ∧ filled n sz l.
Proof.
  intros Hs Hn Hraw. unfold unpack_numbers. destruct (negb _); [done|]. destruct (raw_data tensor) as [raw|] eqn:Er.
  - rewrite CalcMemSizeForArray_ok by lia. destruct (sz * n <=? _); [|done].
    destruct (Z.eqb_spec (Z.of_nat (length raw)) (sz * n)) as [E|]; [|done]. intros [= <-]. eexists. split; [done|].
    apply raw_filled; [lia|lia|done|by apply Hraw].
  - destruct (Z.eqb_spec (Z.of_nat (length field)) n) as [E|]; [|done]. intros [= <-]. eexists. split; [done|].
    split; [by rewrite length_fmap|]. apply Forall_fmap, Forall_forall. intros x _. simpl. apply Z.mod_pos_bound. lia.
Qed.
Lemma unpack_int32_fills d sz convert tensor n c :
  1 ≤ sz ≤ 2 → 0 ≤ n < 2 ^ 63 → raw_ok tensor →
  (∀ l, (convert l).1 = StatusOK → length (convert l).2 = length l ∧ Forall (fun x => 0 ≤ x < 2 ^ (8 * sz)) (convert l).2) →
  unpack_int32 true d sz convert tensor false n = Ok (StatusOK, c) → ∃ l, c = Numbers l ∧ filled n sz l.
Proof.
  intros Hs Hn Hraw Hc. unfold unpack_int32. destruct (negb _); [done|]. destruct (raw_data tensor) as [raw|] eqn:Er.
  - destruct (Z.eqb_spec (Z.of_nat (length raw)) (u64 (n * sz))) as [E|]; [|done]. intros [= <-]. eexists. split; [done|].
    rewrite u64_small in E by nia. apply raw_filled; [lia|lia|lia|by apply Hraw].
  - destruct (Z.eqb_spec (Z.of_nat (length (int32_data tensor))) n) as [E|]; [|done]. simpl.
    specialize (Hc (int32_data tensor)). destruct (convert _) as [s l]. intros [= -> <-]. destruct (Hc eq_refl) as [H1 H2]. simpl in *.
    eexists. split; [done|]. split; [lia|done].
Qed.
Lemma to_halves_ok l : (to_halves l).1 = StatusOK → (to_halves l).2 = l ∧ Forall (fun x => 0 ≤ x < 2 ^ (8 * 2)) l.
Proof.
  induction l as [|v l IH]; simpl; [by intros _|]. destruct (Z.ltb_spec v 0), (Z.ltb_spec 65535 v); simpl; try done.
  destruct (to_halves l) as [s r]. simpl in *. intros ->. destruct (IH eq_refl) as [-> H2]. split; [done|]. constructor; [lia|done].
Qed.
Lemma to_halves_id l : Forall (fun x => 0 ≤ x < 2 ^ (8 * 2)) l → to_halves l = (StatusOK, l).
Proof.
  induction 1 as [|v l Hv Hl IH]; simpl; [done|]. destruct (Z.ltb_spec v 0), (Z.ltb_spec 65535 v); simpl; try lia. by rewrite IH.
Qed.

(** [UnpackTensor] into memory for [n] elements, on a little-endian machine:
    if it returns OK then it has written exactly [n] elements of the width of the
    type, whatever encoding the message uses and whatever lengths it claims. *)
Theorem unpack_fills d tensor n c :
  0 ≤ n < 2 ^ 63 → raw_ok tensor → UnpackTensor true d tensor false n = Ok (StatusOK, c) →
  match c with
  | Numbers l => ∃ sz, sizeof_number d = Some sz ∧ filled n sz l
  | Strings l => d = STRING ∧ Z.of_nat (length l) = n
  end.
Proof.
  intros Hn Hraw H.
  assert (Hnum : ∀ sz, sizeof_number d = Some sz → (∃ l, c = Numbers l ∧ filled n sz l) →
    match c with Numbers l => ∃ sz, sizeof_number d = Some sz ∧ filled n sz l | Strings l => d = STRING ∧ Z.of_nat (length l) = n end)
    by (intros sz Hs (l & -> & Hl); eauto).
  destruct d; cbn [UnpackTensor sizeof_number unpack_field] in H; try done;
    try (eapply (Hnum _ eq_refl), unpack_numbers_fills; [lia|done|done|exact H]);
    try (eapply (Hnum _ eq_refl), unpack_int32_fills; [lia|done|done| |exact H];
      intros l [-> Hl]%to_halves_ok; done).
  - unfold unpack_strings in H. destruct (negb _); [done|]. destruct (Z.eqb_spec (Z.of_nat (length (string_data tensor))) n); [|done].
    by injection H as <-.
  - eapply (Hnum _ eq_refl), unpack_int32_fills; [lia|done|done| |exact H]. intros l _. simpl. rewrite length_fmap. split; [done|].
    apply Forall_fmap, Forall_forall. intros x _. simpl. destruct (x =? 0); lia.
Qed.

(** ** Encodings *)

(** The value of a pattern in the field of the message. *)
Definition signed (d : DataType) (x : Z) : Z :=
  match d with
  | INT8 => if x <? 2 ^ 7 then x else x - 2 ^ 8
  | INT16 => if x <? 2 ^ 15 then x else x - 2 ^ 16
  | INT32 => if x <? 2 ^ 31 then x else x - 2 ^ 32
  | INT64 => if x <? 2 ^ 63 then x else x - 2 ^ 64
  | _ => x
  end.
(** The messages for the elements [l]: in little-endian bytes, and in the field
    that ONNX has for the type. *)
Definition raw_proto (d : DataType) (shape l : list Z) : TensorProto :=
  mkProto shape d (Some (l ≫= le_bytes (Z.to_nat (default 0 (sizeof_number d))))) [] [] [] [] [] [].
Definition typed_proto (d : DataType) (shape l : list Z) : TensorProto :=
  let f := signed d <$> l in
  match d with
  | FLOAT => mkProto shape d None f [] [] [] [] []
  | UINT8 | INT8 | UINT16 | INT16 | INT32 | BOOL | FLOAT16 | BFLOAT16 => mkProto shape d None [] f [] [] [] []
  | INT64 => mkProto shape d None [] [] f [] [] []
  | UINT32 | UINT64 => mkProto shape d None [] [] [] f [] []
  | DOUBLE => mkProto shape d None [] [] [] [] f []
  | _ => mkProto shape d None [] [] [] [] [] []
  end.

Lemma signed_mod d sz x : sizeof_number d = Some sz → 0 ≤ x < 2 ^ (8 * sz) → signed d x mod 2 ^ (8 * sz) = x.
Proof.
  intros Hs Hx. assert (E : signed d x = x ∨ signed d x = x - 2 ^ (8 * sz)).
  { destruct d; simpl in *; simplify_eq; auto; (match goal with |- context [x <? ?y] => destruct (x <? y) end); auto. }
  destruct E as [-> | ->]; [by apply Z.mod_small|].
  rewrite <- (Z.mod_small x (2 ^ (8 * sz))) at 2 by done. replace (x - 2 ^ (8 * sz)) with (x + (-1) * 2 ^ (8 * sz)) by lia.
  apply Z.mod_add. lia.
Qed.

Section roundtrip.
Context (d : DataType) (sz : Z) (shape l : list Z).
Context (Hs : sizeof_number d = Some sz) (Hl : Forall (fun x => 0 ≤ x < 2 ^ (8 * sz)) l) (Hn : Z.of_nat (length l) * sz < 2 ^ 63).

Lemma raw_length : Z.of_nat (length (l ≫= le_bytes (Z.to_nat sz))) = sz * Z.of_nat (length l).
Proof. pose proof (sizeof_range _ _ Hs). rewrite length_encode. nia. Qed.
Lemma raw_elements : le_elements (Z.to_nat sz) (l ≫= le_bytes (Z.to_nat sz)) = l.
Proof. pose proof (sizeof_range _ _ Hs). apply le_elements_encode; [lia|]. by rewrite pow_256 by lia. Qed.
Lemma raw_numbers field width :
  unpack_numbers true d sz field width (raw_proto d shape l) false (Z.of_nat (length l)) = Ok (StatusOK, Numbers l).
Proof.
  pose proof (sizeof_range _ _ Hs). unfold unpack_numbers, raw_proto. cbn [raw_data data_type]. rewrite Hs. cbn [default id].
  rewrite bool_decide_true by done. cbn [negb]. rewrite CalcMemSizeForArray_ok by nia. rewrite (proj2 (Z.leb_le _ _)) by nia.
  rewrite raw_length, Z.eqb_refl. cbn [negb UnpackTensorWithRawData mbind res_bind]. by rewrite raw_elements.
Qed.
Lemma raw_int32 convert :
  unpack_int32 true d sz convert (raw_proto d shape l) false (Z.of_nat (length l)) = Ok (StatusOK, Numbers l).
Proof.
  pose proof (sizeof_range _ _ Hs). unfold unpack_int32, raw_proto. cbn [raw_data data_type]. rewrite Hs. cbn [default id].
  rewrite bool_decide_true by done. cbn [negb]. rewrite u64_small by nia.
  rewrite raw_length, (Z.mul_comm sz), Z.eqb_refl. cbn [negb UnpackTensorWithRawData mbind res_bind]. by rewrite raw_elements.
Qed.
Lemma typed_numbers tensor width :
  data_type tensor = d → raw_data tensor = None →
  unpack_numbers true d sz (signed d <$> l) width tensor false (Z.of_nat (length l)) = Ok (StatusOK, Numbers l).
Proof.
  intros Hd Hr. unfold unpack_numbers. rewrite Hr, bool_decide_true, length_fmap, Z.eqb_refl by done. cbn [negb]. do 3 f_equal.
  rewrite <- list_fmap_compose. rewrite <- (list_fmap_id l) at 2. apply list_fmap_ext. intros i x Hx.
  unfold compose, reinterpret. apply signed_mod; [done|]. rewrite Forall_forall in Hl. apply Hl. by eapply list_elem_of_lookup_2.
Qed.
Lemma typed_int32 convert tensor :
  data_type tensor = d → raw_data tensor = None → int32_data tensor = l → convert l = (StatusOK, l) →
  unpack_int32 true d sz convert tensor false (Z.of_nat (length l)) = Ok (StatusOK, Numbers l).
Proof.
  intros Hd Hr Hi Hc. unfold unpack_int32. rewrite Hr, bool_decide_true, Hi, Z.eqb_refl by done. cbn [negb]. by rewrite Hc.
Qed.
End roundtrip.

Lemma to_bools_id l : Forall (fun x => 0 ≤ x < 2) l → to_bools l = (StatusOK, l).
Proof.
  intros H. unfold to_bools. f_equal. rewrite <- (list_fmap_id l) at 2. apply list_fmap_ext. intros i x Hx.
  rewrite Forall_forall in H. specialize (H x ltac:(by eapply list_elem_of_lookup_2)). simpl. destruct (Z.eqb_spec x 0); lia.
Qed.

(** C32. The two encodings of a tensor mean the same: for every type that the code
    reads, the elements come back from their bytes in [raw_data] and from the
    typed field, signed numbers included. *)
Theorem unpack_roundtrip d sz shape l :
  sizeof_number d = Some sz → Forall (fun x => 0 ≤ x < 2 ^ (8 * sz)) l → (d = BOOL → Forall (fun x => 0 ≤ x < 2) l) →
  Z.of_nat (length l) * sz < 2 ^ 63 →
  UnpackTensor true d (raw_proto d shape l) false (Z.of_nat (length l)) = Ok (StatusOK, Numbers l) ∧
  UnpackTensor true d (typed_proto d shape l) false (Z.of_nat (length l)) = Ok (StatusOK, Numbers l).
Proof.
  intros Hs Hl Hb Hn. destruct d; cbn [sizeof_number] in Hs; try discriminate Hs; injection Hs as <-;
    cbn [UnpackTensor sizeof_number unpack_field]; split;
    first [by apply raw_numbers|by apply raw_int32|by apply typed_numbers|
      apply typed_int32; [done|done|apply list_fmap_id|first [by apply to_halves_id|by apply to_bools_id, Hb]]].
Qed.

(** ** Sizes *)

Lemma Size_loop s : Size s = size_loop 1 s.
Proof. unfold Size, SizeHelper. by rewrite drop_0, Nat.sub_0_r, firstn_all. Qed.
Lemma size_loop_with_zero size s : Forall (fun d => 0 ≤ d) s → prodZ s = 0 → size_loop size s = 0.
Proof.
  intros Hs. revert size. induction Hs as [|d s Hd Hs IH]; intros size Hp; simpl in *; [done|].
  destruct (Z.ltb_spec d 0); [lia|]. destruct (decide (d = 0)) as [->|].
  - rewrite Z.mul_0_r, i64_small by lia. by apply size_loop_zero.
  - apply IH. nia.
Qed.
(** The size of a shape, with dimensions that may be 0. *)
Lemma Size_prod s : Forall (fun d => 0 ≤ d) s → prodZ s < 2 ^ 63 → Size s = prodZ s.
Proof.
  intros Hs Hp. rewrite Size_loop. destruct (decide (prodZ s = 0)) as [E|E]; [by rewrite size_loop_with_zero|].
  rewrite size_loop_ok; [lia|lia|by apply prodZ_zero|lia].
Qed.

Definition int64_dims (s : list Z) : Prop := Forall (fun d => d < 2 ^ 63) s.

Lemma size_dims_error s size l : IsOK s = false → foldl size_dim (s, size) l = (s, size).
Proof. intros H. induction l as [|d l IH]; simpl; [done|]. by rewrite H. Qed.
Lemma size_dims_ok size0 l size :
  0 ≤ size0 < 2 ^ 64 → int64_dims l → foldl size_dim (StatusOK, size0) l = (StatusOK, size) →
  Forall (fun d => 0 ≤ d) l ∧ size = size0 * prodZ l ∧ 0 ≤ size < 2 ^ 64.
Proof.
  intros H0 Hl. revert size0 H0. induction Hl as [|d l Hd Hl IH]; intros size0 H0; simpl.
  { intros [= <-]. split_and!; [constructor|lia|lia|lia]. }
  destruct (Z.ltb_spec d 0); [by rewrite size_dims_error|]. rewrite CalcMemSizeForArray_ok by lia.
  destruct (Z.leb_spec (d * size0) (2 ^ 64 - 1)); [|by rewrite size_dims_error].
  intros E. apply IH in E as (E1 & -> & E2); [|nia]. split_and!; [by constructor|lia|lia|lia].
Qed.

Lemma proto_size tensor_proto len :
  int64_dims (dims tensor_proto) → GetSizeInBytesFromTensorProto 256 tensor_proto = (StatusOK, len) →
  ∃ sz, sizeof_number (data_type tensor_proto) = Some sz ∧ Forall (fun d => 0 ≤ d) (dims tensor_proto) ∧
    sz * prodZ (dims tensor_proto) ≤ 2 ^ 64 - 1 - 256 ∧ len = rounded_bytes 256 (sz * prodZ (dims tensor_proto)).
Proof.
  intros Hd. unfold GetSizeInBytesFromTensorProto. destruct (foldl _ _ _) as [s size] eqn:E.
  destruct s as [c|]; cbn [negb IsOK]; [by intros [= ? _]|]. apply size_dims_ok in E as (H1 & -> & H2); [|lia|done].
  destruct (sizeof_number _) as [sz|] eqn:Es; [|done]. pose proof (sizeof_range _ _ Es).
  rewrite array_size_exact by first [lia|right; exists 8; lia]. rewrite Z.mul_1_l in *.
  destruct (Z.leb_spec (sz * prodZ (dims tensor_proto)) (2 ^ 64 - 1 - 256)); [|done]. intros [= <-]. by exists sz.
Qed.
Lemma rounded_256 n : 0 ≤ n → n ≤ rounded_bytes 256 n < n + 256.
Proof. intros Hn. unfold rounded_bytes. simpl. pose proof (Z.div_mod (n + 256 - 1) 256). pose proof (Z.mod_pos_bound (n + 256 - 1) 256). lia. Qed.

(** What [GetTensorFromTensorProto] does in memory of the planned size. *)
Lemma get_tensor_planned {T} `{!ElementTypes T} tensor_proto len alloc p h s c :
  int64_dims (dims tensor_proto) → prodZ (dims tensor_proto) < 2 ^ 63 → is_null p = false →
  GetSizeInBytesFromTensorProto 256 tensor_proto = (StatusOK, len) →
  UnpackTensor true (data_type tensor_proto) tensor_proto false (prodZ (dims tensor_proto)) = Ok (s, c) →
  GetTensorFromTensorProto (T := T) true tensor_proto alloc p len h =
    Ok (s, if IsOK s then Some (mkTensor (GetType (data_type tensor_proto)) (dims tensor_proto) p alloc false, c) else None, h).
Proof.
  intros Hd Hp Hnull Hlen Hu. destruct (proto_size _ _ Hd Hlen) as (sz & Hs & Hpos & Hsmall & ->).
  pose proof (sizeof_range _ _ Hs). pose proof (prodZ_nonneg _ Hpos).
  unfold GetTensorFromTensorProto, sizeof_element, GetTensorByTypeFromTensorProto, GetTensorShapeFromTensorProto.
  assert (data_type tensor_proto ≠ STRING) by (intros E; by rewrite E in Hs).
  rewrite bool_decide_false, Hs, Size_prod by done. rewrite (proj2 (Z.ltb_ge _ _)) by lia.
  rewrite array_size_exact by first [lia|right; exists 8; lia]. rewrite (proj2 (Z.leb_le _ _)) by done.
  rewrite Hnull, Z.eqb_refl. cbn [negb andb]. cbv beta iota. rewrite Hnull, Hu. cbn [mbind res_bind].
  by destruct s.
Qed.

(** The size that is planned for a tensor is the size it needs:
    [GetSizeInBytesFromTensorProto] gives the exact number of bytes rounded up to
    256 or fails, and in memory of that size [GetTensorFromTensorProto] never
    fails on the size: it allocates nothing and makes a tensor of the type and
    shape of the message on that memory, unless the elements cannot be read. *)
Theorem proto_size_consistent {T} `{!ElementTypes T} tensor_proto len alloc p h :
  int64_dims (dims tensor_proto) → prodZ (dims tensor_proto) < 2 ^ 63 → is_null p = false →
  GetSizeInBytesFromTensorProto 256 tensor_proto = (StatusOK, len) →
  (∃ sz, sizeof_number (data_type tensor_proto) = Some sz ∧ sz * prodZ (dims tensor_proto) ≤ len < sz * prodZ (dims tensor_proto) + 256 ∧
    len mod 256 = 0) ∧
  ∃ s c, UnpackTensor true (data_type tensor_proto) tensor_proto false (prodZ (dims tensor_proto)) = Ok (s, c) ∧
    GetTensorFromTensorProto (T := T) true tensor_proto alloc p len h =
      Ok (s, if IsOK s then Some (mkTensor (GetType (data_type tensor_proto)) (dims tensor_proto) p alloc false, c) else None, h).
Proof.
  intros Hd Hp Hnull Hlen. destruct (proto_size _ _ Hd Hlen) as (sz & Hs & Hpos & Hsmall & E).
  pose proof (sizeof_range _ _ Hs). pose proof (prodZ_nonneg _ Hpos). split.
  - exists sz. split; [done|]. subst len. split; [apply rounded_256; nia|]. unfold rounded_bytes. simpl. apply Z.mod_mul. lia.
  - assert (Hu : ∃ s c, UnpackTensor true (data_type tensor_proto) tensor_proto false (prodZ (dims tensor_proto)) = Ok (s, c)).
    { destruct (data_type tensor_proto); cbn [sizeof_number] in Hs; try discriminate Hs; cbn [UnpackTensor sizeof_number unpack_field];
        unfold unpack_numbers, unpack_int32, UnpackTensorWithRawData; cbn [mbind res_bind];
        repeat case_match; eauto. }
    destruct Hu as (s & c & Hu). exists s, c. split; [done|]. by apply get_tensor_planned.
Qed.

Module Weight.
(** Two rows of [int16] numbers with a negative one. *)
Definition numbers : list Z := [1; 65535; 300; 2].
Definition message : TensorProto := typed_proto INT16 [2; 2] numbers.
#[export] Instance element_types : ElementTypes DataType := {| GetType := id; sizeof_string := 32 |}.
Definition location : OrtAllocatorInfo := mkInfo CPU 0 0 1.
End Weight.
Import Weight.

Lemma unpack_fills_witness : ∃ l, UnpackTensor true INT16 message false 4 = Ok (StatusOK, Numbers l) ∧ filled 4 2 l.
Proof.
  exists numbers. split; [vm_compute; reflexivity|].
  destruct (unpack_fills INT16 message 4 (Numbers numbers)) as (sz & [= <-] & H); [lia|done|vm_compute; reflexivity|exact H].
Defined.
Lemma unpack_roundtrip_witness :
  int32_data message = [1; -1; 300; 2] ∧ raw_data (raw_proto INT16 [2; 2] numbers) = Some [1; 0; 255; 255; 44; 1; 2; 0] ∧
  UnpackTensor true INT16 (raw_proto INT16 [2; 2] numbers) false 4 = Ok (StatusOK, Numbers numbers) ∧
  UnpackTensor true INT16 message false 4 = Ok (StatusOK, Numbers numbers).
Proof.
  split; [reflexivity|]. split; [reflexivity|].
  apply (unpack_roundtrip INT16 2 [2; 2] numbers); [reflexivity| |done|simpl; lia].
  repeat (apply Forall_cons; split; [by vm_compute|]). apply Forall_nil. done.
Defined.
Lemma proto_size_consistent_witness :
  GetSizeInBytesFromTensorProto 256 message = (StatusOK, 256) ∧
  ∃ s c, UnpackTensor true INT16 message false 4 = Ok (s, c) ∧
    GetTensorFromTensorProto (T := DataType) true message location (Ptr 0 512) 256 (mkHeap 1 ∅) =
      Ok (s, if IsOK s then Some (mkTensor INT16 [2; 2] (Ptr 0 512) location false, c) else None, mkHeap 1 ∅).
Proof.
  split; [reflexivity|].
  destruct (proto_size_consistent (T := DataType) message 256 location (Ptr 0 512) (mkHeap 1 ∅)) as [_ H];
    [repeat constructor|simpl; lia|reflexivity|reflexivity|exact H].
Defined.
