(* ===== verification/SessionInit.v ===== *)
(** The session initializer of [session_state_initializer.cc]: it numbers the
    values of a graph, makes the plan, puts the weights into memory, creates the
    kernels and records which nodes use an input. *)
From S2P Require Import Prelude TensorShape MemPattern AllocPlanner ExecutionFrame Devices TensorProto.

Section initializer.
Context {T : Type} `{!TensorTypes T, !ValueTypes T, !ElementTypes T}.
Context (little_endian : bool) (GetExecutionProviderType : Node T → string).

(** What is read of a graph: the view of it, its inputs with the initializers,
    the initializers and the bound of the node indices. *)
Record MainGraph := mkMainGraph {
  mg_view : GraphView T;
  mg_all_inputs : list (NodeArg T);
  mg_initializers : list (string * TensorProto);
  mg_max_node_index : nat;
}.

(** [Graph::CleanAllInitializedTensors]. *)
Definition CleanAllInitializedTensors (g : MainGraph) : MainGraph :=
  let v := mg_view g in
  mkMainGraph (mkGraphView (g_inputs v) (g_outer v) [] (g_topo v) (g_nodes v) (g_outputs v) (g_cpu v) (g_parallel v))
    (mg_all_inputs g) [] (mg_max_node_index g).

(** ** Names *)

Definition add_arg (m : MLValueNameIdxMap) (arg : NodeArg T) : MLValueNameIdxMap := snd (Add m (na_name arg)).
Definition add_existing (m : MLValueNameIdxMap) (arg : NodeArg T) : MLValueNameIdxMap :=
  if na_exists arg then add_arg m arg else m.
Definition add_node (m : MLValueNameIdxMap) (node : Node T) : MLValueNameIdxMap :=
  foldl add_existing (foldl add_existing (foldl add_existing m (n_inputs node)) (n_implicit_inputs node)) (n_outputs node).
Definition SaveMLValueNameIndexMapping (g : MainGraph) (m : MLValueNameIdxMap) : MLValueNameIdxMap :=
  let m := foldl add_arg m (mg_all_inputs g) in
  let m := foldl add_node m (g_nodes (mg_view g)) in
  foldl add_existing m (g_outputs (mg_view g)).

(** ** Weights *)

(** The memory of the weights: a buffer for each location, the tensors by
    index with what is in them, and the buffers of the allocators. *)
Record Weights := mkWeights {
  weights_buffers : list (OrtAllocatorInfo * Pointer);
  initialized : list (nat * (MLValue T * Content));
  w_heap : Heap;
}.

Context (providers : ExecutionProviders (T := T)).

Definition GetAllocator (allocator_info : OrtAllocatorInfo) : option OrtAllocatorInfo :=
  exec_provider ← Get_by_info providers allocator_info;
  provider_GetAllocator exec_provider (i_id allocator_info) (i_mem_type allocator_info).

Definition tensor_value (t : Tensor T) : MLValue T := mkMLValue (Some (TensorObject t)) false None.

(** For a device the tensor is read into CPU memory first and copied. *)
Definition deserialize_on_device (tensor_proto : TensorProto) (alloc_info alloc_ptr : OrtAllocatorInfo) (preallocated : Pointer)
    (h : Heap) : res (Status * option (MLValue T * Content) * Heap) :=
  cpu ← of_option UndefinedBehaviour (Get_by_type providers kCpuExecutionProvider);
  deserialize_alloc_ptr ← of_option UndefinedBehaviour (provider_GetAllocator cpu 0 OrtMemTypeDefault);
  '(s, p_deserialize_tensor, h) ← GetTensorFromTensorProto little_endian tensor_proto deserialize_alloc_ptr Null 0 h;
  match p_deserialize_tensor with
  | None => Ok (s, None, h)
  | Some (t, content) =>
      provider ← of_option EnforceFailed (Get_by_info providers alloc_info);
      let size := tensor_Size t in
      let '(p_data, h) := if is_null preallocated then Alloc_bytes h size else (preallocated, h) in
      let p_tensor := mkTensor (dtype_ t) (shape_ t) p_data alloc_info (is_null preallocated) in
      '(copy_status, p_tensor) ← CopyTensor provider t p_tensor;
      h ← drop_value h (tensor_value t);
      if negb (IsOK copy_status) then h ← drop_value h (tensor_value p_tensor); Ok (copy_status, None, h)
      else Ok (StatusOK, Some (tensor_value p_tensor, content), h)
  end.
Definition DeserializeTensorProto (tensor_proto : TensorProto) (alloc_info : OrtAllocatorInfo) (preallocated : Pointer)
    (preallocated_size : Z) (h : Heap) : res (Status * option (MLValue T * Content) * Heap) :=
  match GetAllocator alloc_info with
  | None => Ok (Some FAIL, None, h)
  | Some alloc_ptr =>
      if strcmp_eq (i_name alloc_info) CPU || (i_mem_type alloc_info =? OrtMemTypeCPUOutput)
      then TensorProtoToMLValue little_endian tensor_proto alloc_ptr preallocated preallocated_size h
      else deserialize_on_device tensor_proto alloc_info alloc_ptr preallocated h
  end.

(** [SessionState::AddInitializedTensor]: [insert] keeps an entry that exists. *)
Definition AddInitializedTensor (names : MLValueNameIdxMap) (w : Weights) (mlvalue_index : Z) (v : MLValue T * Content) : res Weights :=
  _ ← enforce ((0 <=? mlvalue_index) && (mlvalue_index <=? Z.of_nat (MaxIdx names)));
  let i := Z.to_nat mlvalue_index in
  if bool_decide (i ∈ (initialized w).*1)
  then h ← drop_value (w_heap w) (fst v); Ok (mkWeights (weights_buffers w) (initialized w) h)
  else Ok (mkWeights (weights_buffers w) (initialized w ++ [(i, v)]) (w_heap w)).

Section save.
Context (names : MLValueNameIdxMap) (execution_plan : SequentialExecutionPlan T).

Definition weight_location (mlvalue_index : Z) : res OrtAllocatorInfo :=
  p ← of_option UndefinedBehaviour (allocation_plan execution_plan !! Z.to_nat mlvalue_index); Ok (location p).

(** A tensor whose size cannot be computed, like one of strings, is not planned. *)
Definition PlanTensor (planner : MLValuePatternPlanner) (name : string) (tensor_proto : TensorProto) :
    res (Status * MLValuePatternPlanner) :=
  let '(s, mlvalue_index) := GetIdx names name in
  if negb (IsOK s) then Ok (s, planner)
  else
    let '(st, len) := GetSizeInBytesFromTensorProto 256 tensor_proto in
    match st with
    | Some NOT_IMPLEMENTED => Ok (StatusOK, planner)
    | Some code => Ok (Some code, planner)
    | None => ml_TraceAllocation planner mlvalue_index len
    end.
Definition plan_weights (acc : Status * MLValuePatternPlanner) (entry : string * TensorProto) : res (Status * MLValuePatternPlanner) :=
  if negb (IsOK (fst acc)) then Ok acc else PlanTensor (snd acc) (fst entry) (snd entry).

(** The buffer of one location. *)
Definition allocate_weights (acc : Status * Weights) (e : OrtAllocatorInfo * MemoryPattern) : res (Status * Weights) :=
  let '(s, w) := acc in
  let '(location, pattern) := e in
  if negb (IsOK s) then Ok acc
  else
    _ ← enforce (negb (existsb (fun b => info_equiv (fst b) location) (weights_buffers w)));
    match GetAllocator location with
    | None => Ok (Some FAIL, w)
    | Some _ =>
        let '(buffer, h) := if 0 <? PeakSize pattern then Alloc_bytes (w_heap w) (PeakSize pattern) else (Null, w_heap w) in
        Ok (StatusOK, mkWeights (weights_buffers w ++ [(location, buffer)]) (initialized w) h)
    end.

(** One tensor, in its block of the buffer if it has one. *)
Definition create_weight (mem_patterns : MemoryPatternGroup) (acc : Status * Weights) (entry : string * TensorProto) :
    res (Status * Weights) :=
  let '(s, w) := acc in
  if negb (IsOK s) then Ok acc
  else
    let '(s, mlvalue_index) := GetIdx names (fst entry) in
    if negb (IsOK s) then Ok (s, w)
    else
      location ← weight_location mlvalue_index;
      match snd <$> list_find (fun b => info_equiv (fst b) location = true) (weights_buffers w), GetPatterns mem_patterns location with
      | None, _ => Ok (Some FAIL, w)
      | Some _, None => Ok (Some FAIL, w)
      | Some it, Some pattern =>
          let block := if is_null (snd it) then None else GetBlock pattern mlvalue_index in
          '(st, v, h) ← match block with
                        | None => DeserializeTensorProto (snd entry) location Null 0 (w_heap w)
                        | Some b => DeserializeTensorProto (snd entry) location (ptr_add (snd it) (offset_ b)) (size_ b) (w_heap w)
                        end;
          let w := mkWeights (weights_buffers w) (initialized w) h in
          match v with
          | None => Ok (st, w)
          | Some v => w ← AddInitializedTensor names w mlvalue_index v; Ok (StatusOK, w)
          end
      end.

Definition SaveInitializedTensorsWithMemPattern (initialized_tensor_set : list (string * TensorProto)) (w : Weights) :
    res (Status * Weights) :=
  _ ← enforce (0 <? MaxIdx names)%nat;
  '(s, planner) ← foldM plan_weights (StatusOK, new_MLValuePatternPlanner (location <$> allocation_plan execution_plan)) initialized_tensor_set;
  if negb (IsOK s) then Ok (s, w)
  else
    let '(s, mem_patterns) := GeneratePatterns planner (Some (mkGroup [] [])) in
    let mem_patterns := default (mkGroup [] []) mem_patterns in
    if negb (IsOK s) then Ok (s, w)
    else
      acc ← foldM allocate_weights (StatusOK, w) (zip (locations mem_patterns) (patterns mem_patterns));
      foldM (create_weight mem_patterns) acc initialized_tensor_set.

(** Each tensor in a buffer of its own. *)
Definition create_separate (acc : Status * Weights) (entry : string * TensorProto) : res (Status * Weights) :=
  let '(s, w) := acc in
  if negb (IsOK s) then Ok acc
  else
    let '(s, mlvalue_index) := GetIdx names (fst entry) in
    if negb (IsOK s) then Ok (s, w)
    else
      location ← weight_location mlvalue_index;
      '(st, v, h) ← DeserializeTensorProto (snd entry) location Null 0 (w_heap w);
      let w := mkWeights (weights_buffers w) (initialized w) h in
      match v with
      | None => Ok (st, w)
      | Some v => w ← AddInitializedTensor names w mlvalue_index v; Ok (StatusOK, w)
      end.
Definition SaveInitializedTensorsWithSeperateBuffer (initialized_tensor_set : list (string * TensorProto)) (w : Weights) :
    res (Status * Weights) :=
  _ ← enforce (0 <? MaxIdx names)%nat;
  foldM create_separate (StatusOK, w) initialized_tensor_set.

Definition SaveInitializedTensors (enable_memory_pattern : bool) (initialized_tensor_set : list (string * TensorProto)) (w : Weights) :
    res (Status * Weights) :=
  if enable_memory_pattern then SaveInitializedTensorsWithMemPattern initialized_tensor_set w
  else SaveInitializedTensorsWithSeperateBuffer initialized_tensor_set w.
End save.

(** ** Kernels *)

(** [KernelRegistryManager::CreateKernel] through its status. *)
Context (CreateKernel : Node T → IExecutionProvider (T := T) → Status).

(** A node without a provider is logged; the provider is dereferenced all the
    same. *)
Definition CreateOpKernel (node : Node T) : res Status :=
  let exec_provider_name := GetExecutionProviderType node in
  let exec_provider := if bool_decide (exec_provider_name = ""%string) then None else Get_by_type providers exec_provider_name in
  exec_provider ← of_option UndefinedBehaviour exec_provider;
  Ok (CreateKernel node exec_provider).
Definition save_kernel (acc : Status * gset Z) (node : Node T) : res (Status * gset Z) :=
  let '(s, session_kernels) := acc in
  if negb (IsOK s) then Ok acc
  else s ← CreateOpKernel node; Ok (s, if IsOK s then {[n_index node]} ∪ session_kernels else session_kernels).
Definition SaveKernels (nodes : list (Node T)) : res (Status * gset Z) := foldM save_kernel (StatusOK, ∅) nodes.

(** ** The whole *)

(** The session state with what is not in [SessionState]: the nodes that have a
    kernel, the two mappings and the memory of the weights. *)
Record Built := mkBuilt {
  b_session : SessionState T;
  b_kernels : gset Z;
  b_inputs : gmap string (list (NodeInfo (T := T)));
  b_outputs : gmap string (list (NodeInfo (T := T)));
  b_weights : Weights;
}.

Definition set_outer (g : GraphView T) (outer : list (NodeArg T)) (parallel : bool) : GraphView T :=
  mkGraphView (g_inputs g) outer (g_initializers g) (g_topo g) (g_nodes g) (g_outputs g) (g_cpu g) parallel.

(** Outer scope arguments without an index are left out. *)
Definition Initializer_CreatePlan (g : MainGraph) (outer_scope_node_args : list (NodeArg T)) (enable_sequential_execution : bool)
    (m : MLValueNameIdxMap) : res (Status * (MLValueNameIdxMap * GraphView T * SequentialExecutionPlan T)) :=
  let names := SaveMLValueNameIndexMapping g m in
  let valid := List.filter (fun arg => IsOK (fst (GetIdx names (na_name arg)))) outer_scope_node_args in
  let view := set_outer (mg_view g) valid (negb enable_sequential_execution) in
  '(s, plan) ← CreatePlan names view;
  Ok (s, (names, view, plan)).

Definition InitializeAndSave (g : MainGraph) (enable_memory_pattern : bool) (implicit_inputs : option (list (NodeArg T)))
    (names : MLValueNameIdxMap) (view : GraphView T) (plan : SequentialExecutionPlan T) (h : Heap) :
    res (Status * option Built * Heap) :=
  '(s, w) ← SaveInitializedTensors names plan enable_memory_pattern (mg_initializers g) (mkWeights [] [] h);
  if negb (IsOK s) then Ok (s, None, w_heap w)
  else
    '(s, kernels) ← SaveKernels (g_nodes view);
    if negb (IsOK s) then Ok (s, None, w_heap w)
    else
      '(s, (ins, outs)) ← SaveInputOutputNamesToNodeMapping GetExecutionProviderType (g_nodes view) (mg_all_inputs g) (g_outputs view)
                            implicit_inputs (∅, ∅);
      let weights := (fun e => (fst e, fst (snd e))) <$> initialized w in
      let session := mkSession view (mg_max_node_index g) names weights plan enable_memory_pattern ∅ in
      Ok (s, Some (mkBuilt session kernels ins outs w), w_heap w).

(** The calls that [InferenceSession::Initialize] makes for the main graph. *)
Definition build_session (g : MainGraph) (enable_sequential_execution enable_memory_pattern : bool) (h : Heap) :
    res (Status * option Built * Heap) :=
  '(s, (names, view, plan)) ← Initializer_CreatePlan g [] enable_sequential_execution new_MLValueNameIdxMap;
  if negb (IsOK s) then Ok (s, None, h) else InitializeAndSave g enable_memory_pattern None names view plan h.
End initializer.
