(* ===== verification/WeightsInv.v ===== *)
(** The weights in memory: the blocks that the pattern planner gives them, the
    buffers of the locations, and the tensors on them. *)
From S2P Require Import Prelude TensorShape MemPattern AllocPlanner AllocPlannerInv ExecutionFrame AllocSize Devices TensorProto TensorProtoProps SessionInit.

(** ** Blocks *)

Definition only_allocs (l : list trace_op) : Prop := ∀ o, o ∈ l → ∃ i z, o = TAlloc i z.

Lemma elem_of_alloc_ids l i z : TAlloc i z ∈ l → i ∈ alloc_ids l.
Proof. intros H. apply list_elem_of_omap. eexists. split; [exact H|done]. Qed.
Lemma alloc_size_unique l i z z' : NoDup (alloc_ids l) → TAlloc i z ∈ l → TAlloc i z' ∈ l → z = z'.
Proof.
  induction l as [|o l IH]; intros Hnd; [by intros ?%not_elem_of_nil|].
  rewrite !elem_of_cons. destruct o as [i0 z0|i0]; simpl in Hnd; [apply NoDup_cons in Hnd as [Hn Hnd]|].
  - intros [E1|H1] [E2|H2]; [congruence| | |by apply (IH Hnd)]; exfalso; apply Hn.
    + injection E1 as <- _. by eapply elem_of_alloc_ids.
    + injection E2 as <- _. by eapply elem_of_alloc_ids.
  - intros [?|H1] [?|H2]; [done..|]. by apply (IH Hnd).
Qed.
Lemma allocs_live l i z : only_allocs l → TAlloc i z ∈ l → 0 < z → i ∈ live_after l.
Proof.
  induction l as [|o l IH] using rev_ind; intros Hall Hin Hz; [by apply not_elem_of_nil in Hin|].
  assert (Hall' : only_allocs l) by (intros x Hx; apply Hall, elem_of_app; auto).
  rewrite live_after_snoc. destruct (Hall o) as (i0 & z0 & ->); [apply elem_of_app; right; by left|].
  apply elem_of_app in Hin as [Hin|Hin%list_elem_of_singleton].
  - specialize (IH Hall' Hin Hz). destruct (z0 =? 0); [done|by right].
  - injection Hin as -> ->. destruct (Z.eqb_spec z0 0); [lia|by left].
Qed.

(** Requests without releases: every value has a block of the size that was
    asked for, inside the peak size, and no two share a byte. *)
Definition blocks_ok (l : list trace_op) (pat : MemoryPattern) : Prop :=
  (∀ i z, TAlloc i z ∈ l → ∃ b, GetBlock pat i = Some b ∧ size_ b = z ∧ 0 ≤ offset_ b ∧ offset_ b + z ≤ PeakSize pat) ∧
  (∀ i j bi bj x, i ∈ alloc_ids l → j ∈ alloc_ids l → i ≠ j → GetBlock pat i = Some bi → GetBlock pat j = Some bj →
    ¬ (offset_ bi ≤ x < offset_ bi + size_ bi ∧ offset_ bj ≤ x < offset_ bj + size_ bj)) ∧
  (∀ i b, GetBlock pat i = Some b → i ∈ alloc_ids l).

Lemma GetBlock_index p i b : GetBlock (GenerateMemPattern p) i = Some b → i ∈ index_ <$> allocs_ p.
Proof.
  unfold GetBlock, GenerateMemPattern. simpl. induction (allocs_ p) as [|a l IH] using rev_ind; simpl; [by rewrite lookup_empty|].
  rewrite foldl_app, fmap_app, elem_of_app. simpl. intros [[<- _]|[_ H]]%lookup_insert_Some; [right; by left|]. left. by apply IH.
Qed.

Lemma allocs_blocks l p :
  only_allocs l → sizes_ok l → NoDup (alloc_ids l) → trace_bytes l < 2 ^ 64 →
  trace_run new_MemPatternPlanner l = Ok p → blocks_ok l (GenerateMemPattern p).
Proof.
  intros Hall Hs Hnd Hb HR. destruct (trace_run_ok l Hs Hnd Hb) as (p' & bs & HR' & [K1 K2 K3 K4 K5 K6 K7]). rewrite HR in HR'. injection HR' as <-.
  assert (Hget : ∀ i, i ∈ alloc_ids l → ∃ a, a ∈ allocs_ p ∧ index_ a = i ∧ GetBlock (GenerateMemPattern p) i = Some (block_ a)).
  { intros i Hi. rewrite <- K4 in Hi. apply list_elem_of_fmap in Hi as (a & -> & Ha). exists a. split_and!; [done|done|].
    apply GetBlock_generate; [by rewrite K4|done]. }
  assert (Hlive : ∀ a, a ∈ allocs_ p → 0 < size_ (block_ a) → a ∈ bs).
  { intros a Ha Hsz. assert (Hi : index_ a ∈ index_ <$> bs) by (apply K2; by eapply allocs_live; [|apply K6|]).
    apply list_elem_of_fmap in Hi as (a' & E & Ha'). pose proof (GetBlock_generate p a ltac:(by rewrite K4) Ha) as G1.
    pose proof (GetBlock_generate p a' ltac:(by rewrite K4) (K5 a' Ha')) as G2. rewrite <- E, G1 in G2.
    destruct a as [i b], a' as [i' b']; simpl in *. congruence. }
  split; [|split; [|intros i b Hi; rewrite <- K4; by eapply GetBlock_index]].
  - intros i z Hin. destruct (Hget i (elem_of_alloc_ids _ _ _ Hin)) as (a & Ha & <- & HG). exists (block_ a).
    assert (size_ (block_ a) = z) as <- by (by eapply alloc_size_unique; [|apply K6|]). split_and!; [done|done|..]; by apply (pl_allocs _ _ K1).
  - intros i j bi bj x Hi Hj Hij Gi Gj [Hx1 Hx2]. destruct (Hget i Hi) as (a & Ha & Ea & GA), (Hget j Hj) as (b & Hb' & Eb & GB).
    rewrite GA in Gi. rewrite GB in Gj. injection Gi as <-. injection Gj as <-.
    pose proof (Hlive a Ha ltac:(lia)) as (m & Hm)%list_elem_of_lookup. pose proof (Hlive b Hb' ltac:(lia)) as (n & Hn)%list_elem_of_lookup.
    assert (m ≠ n) by (intros ->; congruence).
    apply (f_equal (fmap block_)) in Hm, Hn. rewrite <- list_lookup_fmap in Hm, Hn. simpl in Hm, Hn. pose proof (pl_packed _ _ K1) as Hpk.
    destruct (decide (m < n)%nat).
    + pose proof (packed_disjoint _ _ _ _ _ _ _ Hpk Hm Hn ltac:(lia)). lia.
    + pose proof (packed_disjoint _ _ _ _ _ _ _ Hpk Hn Hm ltac:(lia)). lia.
Qed.

Section weights.
Context {T : Type} `{!TensorTypes T, !ValueTypes T, !ElementTypes T}.

(** ** Messages *)

(** A message that describes a tensor: sizes in range, and elements that can be
    read. *)
Record MessageOk (m : TensorProto) (sz : Z) (c : Content) : Prop := {
  mo_size : sizeof_element (data_type m) = Some sz;
  mo_pos : 1 ≤ sz < 2 ^ 64;
  mo_dims : Forall (fun d => 0 ≤ d < 2 ^ 63) (dims m);
  mo_prod : prodZ (dims m) < 2 ^ 63;
  mo_fits : sz * prodZ (dims m) ≤ 2 ^ 64 - 1 - 256;
  mo_planned : (GetSizeInBytesFromTensorProto 256 m).1 = if bool_decide (data_type m = STRING) then Some NOT_IMPLEMENTED else StatusOK;
  mo_unpack : UnpackTensor true (data_type m) m false (prodZ (dims m)) = Ok (StatusOK, c);
}.

Definition weight_bytes (m : TensorProto) (sz : Z) : Z := rounded_bytes 256 (sz * prodZ (dims m)).

Lemma le_elements_nil ts : le_elements ts [] = [].
Proof. unfold le_elements. by rewrite Nat.Div0.div_0_l. Qed.
Lemma unpack_null d m c : UnpackTensor true d m false 0 = Ok (StatusOK, c) → UnpackTensor true d m true 0 = Ok (StatusOK, c).
Proof.
  assert (Hnil : ∀ (l : list Z), Z.of_nat (length l) = 0 → l = []) by (intros [|]; simpl; [done|lia]).
  assert (Hn : ∀ sz field width, 1 ≤ sz ≤ 8 → unpack_numbers true d sz field width m false 0 = Ok (StatusOK, c) →
    unpack_numbers true d sz field width m true 0 = Ok (StatusOK, c)).
  { intros sz field width Hs. unfold unpack_numbers. destruct (negb _); [done|]. rewrite CalcMemSizeForArray_ok, Z.mul_0_r by lia. simpl.
    destruct (raw_data m) as [raw|]; [destruct (Z.eqb_spec (Z.of_nat (length raw)) 0) as [->%Hnil|]
      |destruct (Z.eqb_spec (Z.of_nat (length field)) 0) as [->%Hnil|]]; simpl; rewrite ?le_elements_nil; done. }
  assert (Hi : ∀ sz convert, convert [] = (StatusOK, []) → unpack_int32 true d sz convert m false 0 = Ok (StatusOK, c) →
    unpack_int32 true d sz convert m true 0 = Ok (StatusOK, c)).
  { intros sz convert Hc. unfold unpack_int32. destruct (negb _); [done|].
    destruct (raw_data m) as [raw|]; [destruct (Z.eqb_spec (Z.of_nat (length raw)) (u64 (0 * sz))) as [E|]
      |destruct (Z.eqb_spec (Z.of_nat (length (int32_data m))) 0) as [E%Hnil|]]; [|done| |done].
    - rewrite Z.mul_0_l in E. apply Hnil in E as ->. simpl. by rewrite le_elements_nil.
    - rewrite E, Hc. done. }
  destruct d; cbn [UnpackTensor sizeof_number unpack_field]; try done; try (apply Hn; lia); try (by apply Hi).
  unfold unpack_strings. destruct (negb _); [done|]. destruct (string_data m); done.
Qed.

(** A tensor in memory of its own. *)
Lemma get_tensor_own m sz c alloc size0 h :
  MessageOk m sz c →
  GetTensorFromTensorProto (T := T) true m alloc Null size0 h =
    let '(p, h') := Alloc_bytes h (weight_bytes m sz) in
    Ok (StatusOK, Some (mkTensor (GetType (data_type m)) (dims m) p alloc true, c), h').
Proof.
  intros H. pose proof (mo_fits _ _ _ H). pose proof (mo_pos _ _ _ H).
  assert (Hnn : Forall (fun d => 0 ≤ d) (dims m)) by (eapply Forall_impl; [apply H|]; simpl; lia). pose proof (prodZ_nonneg _ Hnn).
  unfold GetTensorFromTensorProto, GetTensorByTypeFromTensorProto, GetTensorShapeFromTensorProto.
  rewrite (mo_size _ _ _ H), Size_prod by (done || apply H). rewrite (proj2 (Z.ltb_ge _ _)) by lia.
  assert (Hc : CalcMemSizeForArrayWithAlignment 256 (prodZ (dims m)) sz = Some (weight_bytes m sz)).
  { rewrite array_size_exact by first [lia|right; exists 8; lia|split; [lia|]; pose proof (mo_prod _ _ _ H); lia].
    by rewrite (proj2 (Z.leb_le _ _)) by done. }
  rewrite Hc. cbn [is_null negb andb]. unfold Alloc_bytes.
  assert (Hz : (weight_bytes m sz =? 0) = (prodZ (dims m) =? 0)).
  { unfold weight_bytes. pose proof (rounded_256 (sz * prodZ (dims m))).
    destruct (Z.eqb_spec (prodZ (dims m)) 0) as [->|]; [by rewrite Z.mul_0_r|]. apply Z.eqb_neq. nia. }
  rewrite Hz. destruct (Z.eqb_spec (prodZ (dims m)) 0) as [E|E]; cbn [is_null heap_Alloc]; pose proof (mo_unpack _ _ _ H) as Hu.
  - rewrite E in Hu |- *. rewrite (unpack_null _ _ _ Hu). done.
  - rewrite Hu. done.
Qed.

Lemma message_len m sz c : MessageOk m sz c → data_type m ≠ STRING → GetSizeInBytesFromTensorProto 256 m = (StatusOK, weight_bytes m sz).
Proof.
  intros H Hne. pose proof (mo_planned _ _ _ H) as Hp. rewrite bool_decide_false in Hp by done.
  destruct (GetSizeInBytesFromTensorProto 256 m) as [s len] eqn:E. simpl in Hp. subst s. f_equal.
  destruct (proto_size m len) as (sz' & Hs & _ & _ & ->); [eapply Forall_impl; [apply H|]; simpl; lia|done|].
  pose proof (mo_size _ _ _ H) as Hs'. unfold sizeof_element in Hs'. rewrite bool_decide_false in Hs' by done. unfold weight_bytes. congruence.
Qed.

(** ** The plan *)

Definition msg_size (m : TensorProto) : Z := default 1 (sizeof_element (data_type m)).
Definition msg_content (m : TensorProto) : Content :=
  match UnpackTensor true (data_type m) m false (prodZ (dims m)) with Ok (_, c) => c | _ => Numbers [] end.
Definition msg_bytes (m : TensorProto) : Z := weight_bytes m (msg_size m).

Context (providers : ExecutionProviders (T := T)) (names : MLValueNameIdxMap) (plan : SequentialExecutionPlan T).
Context (inits : list (string * TensorProto)).

(** What the saving of the weights relies on: each initializer has a name of its
    own with an index and a message that can be read; each location of the plan
    has its allocator; the weights are on the CPU and fit into memory. *)
Record WeightsOk : Prop := {
  wo_names : NamesOk names;
  wo_some : (0 < MaxIdx names)%nat;
  wo_plan : length (allocation_plan plan) = (MaxIdx names + 1)%nat;
  wo_nodup : NoDup inits.*1;
  wo_known : ∀ e, e ∈ inits → is_Some (name_map_ names !! e.1);
  wo_message : ∀ e, e ∈ inits → MessageOk e.2 (msg_size e.2) (msg_content e.2);
  wo_alloc : ∀ p, p ∈ allocation_plan plan → GetAllocator providers (location p) = Some (location p);
  wo_cpu : ∀ e v p, e ∈ inits → name_map_ names !! e.1 = Some v → allocation_plan plan !! v = Some p →
    strcmp_eq (i_name (location p)) CPU || (i_mem_type (location p) =? OrtMemTypeCPUOutput) = true;
  wo_bytes : foldr (fun e n => msg_bytes e.2 + n) 0 inits < 2 ^ 64;
}.
Context (HW : WeightsOk).

Definition idx_of (n : string) : nat := default 0%nat (name_map_ names !! n).
Definition plan_locations : list OrtAllocatorInfo := location <$> allocation_plan plan.
Definition weight_op (e : string * TensorProto) : option trace_op :=
  if bool_decide (data_type e.2 = STRING) then None else Some (TAlloc (Z.of_nat (idx_of e.1)) (msg_bytes e.2)).

Lemma idx_known e : e ∈ inits → name_map_ names !! e.1 = Some (idx_of e.1) ∧ (idx_of e.1 < MaxIdx names)%nat.
Proof.
  intros He. unfold idx_of. destruct (wo_known HW e He) as [v Hv]. rewrite Hv. split; [done|]. by eapply names_lt; [apply HW|].
Qed.
Lemma idx_inj e e' : e ∈ inits → e' ∈ inits → idx_of e.1 = idx_of e'.1 → e = e'.
Proof.
  intros He He' E. destruct (idx_known e He) as [H1 _], (idx_known e' He') as [H2 _].
  rewrite E in H1. pose proof (names_inj _ (wo_names HW) _ _ _ H1 H2) as E1. apply list_elem_of_lookup in He as (i & Hi), He' as (j & Hj).
  assert (i = j) as ->; [|congruence]. eapply NoDup_lookup; [apply (wo_nodup HW)|by rewrite list_lookup_fmap, Hi|by rewrite list_lookup_fmap, Hj, E1].
Qed.
Lemma weight_GetIdx e : e ∈ inits → GetIdx names e.1 = (StatusOK, Z.of_nat (idx_of e.1)).
Proof. intros He. unfold GetIdx. by rewrite (proj1 (idx_known e He)). Qed.

Lemma plan_weights_error c g l : foldM (plan_weights names) (Some c, g) l = Ok (Some c, g).
Proof. induction l as [|e l IH]; simpl; [done|]. apply IH. Qed.
Lemma PlanTensor_op g e :
  e ∈ inits → PlanTensor names g e.1 e.2 = match weight_op e with None => Ok (StatusOK, g) | Some o => ml_step g o end.
Proof.
  intros He. pose proof (wo_message HW e He) as HM. unfold PlanTensor, weight_op. rewrite weight_GetIdx by done. cbn [IsOK negb].
  case_bool_decide as Ed.
  - pose proof (mo_planned _ _ _ HM) as Hp. rewrite bool_decide_true in Hp by done.
    destruct (GetSizeInBytesFromTensorProto 256 e.2) as [s len]. simpl in Hp. by subst s.
  - by rewrite (message_len _ _ _ HM).
Qed.
Lemma plan_run g l :
  (∀ e, e ∈ l → e ∈ inits) → foldM (plan_weights names) (StatusOK, g) l = ml_run g (omap weight_op l).
Proof.
  revert g. induction l as [|e l IH]; intros g Hl; [done|]. cbn [foldM]. change (plan_weights names (StatusOK, g) e) with (PlanTensor names g e.1 e.2).
  rewrite PlanTensor_op by (apply Hl; by left). cbn [omap list_omap]. destruct (weight_op e) as [o|].
  - cbn [ml_run]. destruct (ml_step g o) as [[s g']|ex|]; cbn [mbind res_bind]; try done. destruct s as [c|]; cbn [IsOK].
    + by rewrite plan_weights_error.
    + apply IH. intros; apply Hl; by right.
  - cbn [mbind res_bind]. apply IH. intros; apply Hl; by right.
Qed.

Lemma weight_op_elem o : o ∈ omap weight_op inits → ∃ e, e ∈ inits ∧ data_type e.2 ≠ STRING ∧ o = TAlloc (Z.of_nat (idx_of e.1)) (msg_bytes e.2).
Proof.
  intros (e & He & H)%list_elem_of_omap. unfold weight_op in H. case_bool_decide; [done|]. injection H as <-. eauto.
Qed.
Lemma msg_bytes_nonneg e : e ∈ inits → 0 ≤ msg_bytes e.2.
Proof.
  intros He. pose proof (wo_message HW e He) as HM. unfold msg_bytes, weight_bytes.
  assert (0 ≤ prodZ (dims e.2)) by (apply prodZ_nonneg; eapply Forall_impl; [apply HM|]; simpl; lia).
  pose proof (mo_pos _ _ _ HM). assert (Hnn : 0 ≤ msg_size e.2 * prodZ (dims e.2)) by nia. pose proof (rounded_256 _ Hnn). lia.
Qed.
Lemma weight_ops_bytes l : (∀ e, e ∈ l → e ∈ inits) → 0 ≤ trace_bytes (omap weight_op l) ≤ foldr (fun e n => msg_bytes e.2 + n) 0 l.
Proof.
  induction l as [|e l IH]; intros Hl; [simpl; lia|].
  change (omap weight_op (e :: l)) with (match weight_op e with Some o => o :: omap weight_op l | None => omap weight_op l end). cbn [foldr].
  specialize (IH ltac:(intros; apply Hl; by right)).
  pose proof (msg_bytes_nonneg e ltac:(apply Hl; by left)). destruct (weight_op e) as [o|] eqn:Eo; [|lia].
  unfold weight_op in Eo. case_bool_decide; [done|]. injection Eo as <-. cbn [trace_bytes]. lia.
Qed.
Lemma weight_ops_nodup l : (∀ e, e ∈ l → e ∈ inits) → NoDup l → NoDup (alloc_ids (omap weight_op l)).
Proof.
  induction l as [|e l IH]; intros Hl Hnd; [constructor|]. apply NoDup_cons in Hnd as [He Hnd]. specialize (IH ltac:(intros; apply Hl; by right) Hnd).
  cbn [omap list_omap]. destruct (weight_op e) as [o|] eqn:Eo; [|done]. unfold weight_op in Eo. case_bool_decide; [done|]. injection Eo as <-.
  cbn. apply NoDup_cons. split; [|done]. intros (o & Ho & Hi)%list_elem_of_omap. apply list_elem_of_omap in Ho as (e' & He' & Eo').
  unfold weight_op in Eo'. case_bool_decide; [done|]. injection Eo' as <-. injection Hi as Hi%Nat2Z.inj.
  apply He. rewrite (idx_inj e e'); [done|apply Hl; by left|apply Hl; by right|done].
Qed.

Lemma plan_weights_ok :
  ∃ locs (g : OrtAllocatorInfo → MemPatternPlanner),
    foldM (plan_weights names) (StatusOK, new_MLValuePatternPlanner plan_locations) inits =
      Ok (StatusOK, mkMLPlanner ((fun x => (x, g x)) <$> locs) plan_locations) ∧
    NoDup locs ∧ (∀ l, l ∈ locs ↔ l ∈ plan_locations) ∧
    ∀ l, blocks_ok (ops_at plan_locations l (omap weight_op inits)) (GenerateMemPattern (g l)).
Proof.
  assert (Hs : sizes_ok (omap weight_op inits)).
  { intros i z (e & He & _ & [= -> ->])%weight_op_elem. by apply msg_bytes_nonneg. }
  assert (Hnd : NoDup (alloc_ids (omap weight_op inits))).
  { apply weight_ops_nodup; [done|]. eapply NoDup_fmap_1, (wo_nodup HW). }
  pose proof (weight_ops_bytes inits ltac:(done)) as Hb. pose proof (wo_bytes HW).
  destruct (ml_run_new plan_locations (omap weight_op inits)) as (locs & g & Hin & Hndl & Hg & Hrun); [|done|done|lia|].
  { intros o (e & He & _ & ->)%weight_op_elem. simpl. unfold plan_locations. rewrite length_fmap, (wo_plan HW).
    destruct (idx_known e He). lia. }
  exists locs, g. rewrite plan_run by done. split_and!; [done|done|done|]. intros l.
  assert (Hsub : ops_at plan_locations l (omap weight_op inits) `sublist_of` omap weight_op inits) by apply sublist_filter.
  apply allocs_blocks; [| | | |done].
  - intros o [_ (e & _ & _ & ->)%weight_op_elem]%list_elem_of_filter. eauto.
  - intros i z Hi. eapply Hs. by eapply elem_of_sublist.
  - eapply sublist_NoDup; [exact Hnd|]. by apply sublist_omap.
  - pose proof (trace_bytes_sublist _ _ Hs Hsub). lia.
Qed.
End weights.
