(* ===== verification/WeightsProps.v ===== *)
(** The saving of the weights: the buffers of the locations, each tensor on its
    block or in memory of its own. *)
From S2P Require Import Prelude DataTypes TensorShape MemPattern AllocPlanner AllocPlannerInv AllocPlannerProps ExecutionFrame ExecutionProps AllocSize Devices DevicesProps TensorProto TensorProtoProps SessionInit WeightsInv.

Section save.
Context {T : Type} `{!TensorTypes T, !ValueTypes T, !ElementTypes T}.
Context (providers : ExecutionProviders (T := T)) (names : MLValueNameIdxMap) (plan : SequentialExecutionPlan T).
Context (inits : list (string * TensorProto)) (HW : WeightsOk providers names plan inits).
Abbreviation idx_of := (idx_of names).
Abbreviation plan_locations := (plan_locations plan).
Implicit Types (e : string * TensorProto) (t : Tensor T) (h : Heap) (w : Weights (T := T)).

(** ** Buffers *)

(** New buffers, none of them twice. *)
Record Buffers (h0 h : Heap) (B : list (OrtAllocatorInfo * Pointer)) : Prop := {
  bf_freed : freed h = freed h0;
  bf_next : (next_buffer h0 ≤ next_buffer h)%nat;
  bf_ptr : ∀ l p, (l, p) ∈ B → p = Null ∨ ∃ b, p = Ptr b 0 ∧ (next_buffer h0 ≤ b < next_buffer h)%nat;
  bf_inj : ∀ l l' b, (l, Ptr b 0) ∈ B → (l', Ptr b 0) ∈ B → l = l';
}.

Lemma allocate_one pat h0 B I h l :
  Buffers h0 h B → l ∉ B.*1 → is_Some (GetAllocator providers l) →
  ∃ p h', allocate_weights providers (StatusOK, mkWeights B I h) (l, pat l) = Ok (StatusOK, mkWeights (B ++ [(l, p)]) I h') ∧
    Buffers h0 h' (B ++ [(l, p)]).
Proof.
  intros HB Hl [a Ha]. unfold allocate_weights. cbn [IsOK StatusOK negb weights_buffers w_heap initialized].
  assert (existsb (fun b => info_equiv (fst b) l) B = false) as ->.
  { apply not_true_iff_false. rewrite existsb_exists. intros ([l' p] & Hin%list_elem_of_In & E). apply info_equiv_iff in E. simpl in E. subst l'.
    apply Hl, list_elem_of_fmap. by exists (l, p). }
  cbn [negb enforce mbind res_bind]. rewrite Ha.
  assert (HB' : ∀ p h', freed h' = freed h0 → (next_buffer h ≤ next_buffer h')%nat →
    (p = Null ∨ p = Ptr (next_buffer h) 0 ∧ (next_buffer h < next_buffer h')%nat) → Buffers h0 h' (B ++ [(l, p)])).
  { intros p h' Hf Hnx Hp. pose proof (bf_next _ _ _ HB). split; [done|lia| |].
    - intros l1 p1 [Hin|[= -> ->]%list_elem_of_singleton]%elem_of_app.
      + destruct (bf_ptr _ _ _ HB _ _ Hin) as [->|(b & -> & Hb)]; [by left|]. right. exists b. split; [done|lia].
      + destruct Hp as [->|[-> Hlt]]; [by left|]. right. eexists. split; [done|lia].
    - assert (Hnew : ∀ l1 b, (l1, Ptr b 0) ∈ B → p ≠ Ptr b 0).
      { intros l1 b Hin. destruct (bf_ptr _ _ _ HB _ _ Hin) as [|(b' & [= <-] & Hb)]; [done|].
        destruct Hp as [->|[-> _]]; [done|]. intros [= E]. lia. }
      intros l1 l2 b [H1|[= -> E1]%list_elem_of_singleton]%elem_of_app [H2|[= -> E2]%list_elem_of_singleton]%elem_of_app;
        [by eapply (bf_inj _ _ _ HB)| | |done].
      + by destruct (Hnew _ _ H1).
      + by destruct (Hnew _ _ H2). }
  destruct (0 <? PeakSize (pat l)) eqn:Ep.
  - unfold Alloc_bytes. rewrite (proj2 (Z.eqb_neq _ _)) by lia. cbn [heap_Alloc]. do 2 eexists. split; [done|].
    apply HB'; [apply HB|simpl; lia|right; simpl; auto with lia].
  - do 2 eexists. split; [done|]. apply HB'; [apply HB|done|by left].
Qed.
Lemma allocate_all pat h0 locs B I h :
  Buffers h0 h B → NoDup (B.*1 ++ locs) → (∀ l, l ∈ locs → is_Some (GetAllocator providers l)) →
  ∃ B' h', foldM (allocate_weights providers) (StatusOK, mkWeights B I h) ((fun l => (l, pat l)) <$> locs) = Ok (StatusOK, mkWeights B' I h') ∧
    Buffers h0 h' B' ∧ B'.*1 = B.*1 ++ locs.
Proof.
  revert B h. induction locs as [|l locs IH]; intros B h HB Hnd Ha; [exists B, h; by rewrite app_nil_r|].
  rewrite fmap_cons. cbn [foldM]. destruct (allocate_one pat h0 B I h l HB) as (p & h1 & -> & HB1).
  { apply NoDup_app in Hnd as (_ & Hd & _). intros Hin. apply (Hd _ Hin). by left. }
  { apply Ha. by left. }
  cbn [mbind res_bind]. destruct (IH (B ++ [(l, p)]) h1 HB1) as (B' & h' & -> & HB' & E).
  { by rewrite fmap_app, <- app_assoc. }
  { intros; apply Ha; by right. }
  exists B', h'. split_and!; [done|done|]. by rewrite E, fmap_app, <- app_assoc.
Qed.

(** ** Tensors *)

Definition wloc e : OrtAllocatorInfo := match allocation_plan plan !! idx_of e.1 with Some p => location p | None => mkInfo CPU 0 0 1 end.

Lemma wloc_plan e : e ∈ inits → ∃ p, allocation_plan plan !! idx_of e.1 = Some p ∧ location p = wloc e.
Proof.
  intros He. destruct (idx_known _ _ _ _ HW e He) as [_ Hlt]. unfold wloc.
  destruct (lookup_lt_is_Some_2 (allocation_plan plan) (idx_of e.1)) as [p ->]; [rewrite (wo_plan _ _ _ _ HW); lia|]. eauto.
Qed.
Lemma wloc_lookup e : e ∈ inits → plan_locations !! idx_of e.1 = Some (wloc e).
Proof. intros He. destruct (wloc_plan e He) as (p & Hp & <-). unfold WeightsInv.plan_locations. by rewrite list_lookup_fmap, Hp. Qed.
Lemma wloc_alloc e : e ∈ inits → GetAllocator providers (wloc e) = Some (wloc e).
Proof. intros He. destruct (wloc_plan e He) as (p & Hp & <-). apply (wo_alloc _ _ _ _ HW). by eapply list_elem_of_lookup_2. Qed.
Lemma deserialize_cpu e p size h :
  e ∈ inits → DeserializeTensorProto true providers e.2 (wloc e) p size h = TensorProtoToMLValue true e.2 (wloc e) p size h.
Proof.
  intros He. unfold DeserializeTensorProto. rewrite wloc_alloc by done. destruct (wloc_plan e He) as (q & Hq & <-).
  rewrite (wo_cpu _ _ _ _ HW e _ q He (proj1 (idx_known _ _ _ _ HW e He)) Hq). done.
Qed.
Definition weight_tensor e (p : Pointer) (own : bool) : Tensor T := mkTensor (GetType (data_type e.2)) (dims e.2) p (wloc e) own.
Lemma deserialize_own e size h :
  e ∈ inits → DeserializeTensorProto true providers e.2 (wloc e) Null size h =
    Ok (StatusOK, Some (tensor_value (weight_tensor e (Alloc_bytes h (msg_bytes e.2)).1 true), msg_content e.2), (Alloc_bytes h (msg_bytes e.2)).2).
Proof.
  intros He. rewrite deserialize_cpu by done. unfold TensorProtoToMLValue.
  rewrite (get_tensor_own _ _ _ _ _ _ (wo_message _ _ _ _ HW e He)). fold (msg_bytes (T := T) e.2).
  by destruct (Alloc_bytes h (msg_bytes e.2)) as [p h'].
Qed.
Lemma deserialize_block e p h :
  e ∈ inits → data_type e.2 ≠ STRING → is_null p = false →
  DeserializeTensorProto true providers e.2 (wloc e) p (msg_bytes (T := T) e.2) h =
    Ok (StatusOK, Some (tensor_value (weight_tensor e p false), msg_content e.2), h).
Proof.
  intros He Hne Hp. rewrite deserialize_cpu by done. unfold TensorProtoToMLValue. pose proof (wo_message _ _ _ _ HW e He) as HM.
  rewrite (get_tensor_planned _ _ _ _ _ StatusOK (msg_content e.2)); [done|..|done| |].
  - eapply Forall_impl; [apply HM|]. simpl. lia.
  - apply HM.
  - by apply message_len in HM.
  - apply HM.
Qed.

(** Where a tensor is: on its block of the buffer of its location, or in memory
    of its own. *)
Definition on_block (pat : OrtAllocatorInfo → MemoryPattern) (B : list (OrtAllocatorInfo * Pointer)) e (p : Pointer) : Prop :=
  data_type e.2 ≠ STRING ∧ ∃ b blk, (wloc e, Ptr b 0) ∈ B ∧ GetBlock (pat (wloc e)) (Z.of_nat (idx_of e.1)) = Some blk ∧ p = Ptr b (offset_ blk).
Definition on_own (h1 h : Heap) e (p : Pointer) : Prop :=
  p = Null ∧ msg_bytes (T := T) e.2 = 0 ∨ ∃ b, p = Ptr b 0 ∧ (next_buffer h1 ≤ b < next_buffer h)%nat.

Definition own_buffer (x : nat * (MLValue T * Content)) : option nat :=
  match data_ x.2.1 with
  | Some (TensorObject t) => if owns_buffer t then match p_data_ t with Ptr b _ => Some b | Null => None end else None
  | _ => None
  end.

Record Created (pat : OrtAllocatorInfo → MemoryPattern) (B : list (OrtAllocatorInfo * Pointer)) (h1 : Heap)
    (l : list (string * TensorProto)) w : Prop := {
  cr_buffers : weights_buffers w = B;
  cr_freed : freed (w_heap w) = freed h1;
  cr_next : (next_buffer h1 ≤ next_buffer (w_heap w))%nat;
  cr_values : Forall2 (fun e x => ∃ p own, x = (idx_of e.1, (tensor_value (weight_tensor e p own), msg_content e.2)) ∧
    if own : bool then on_own h1 (w_heap w) e p else on_block pat B e p) l (initialized w);
  cr_own : NoDup (omap own_buffer (initialized w));
}.

Lemma own_lt pat B h1 l w b : Created pat B h1 l w → b ∈ omap own_buffer (initialized w) → (b < next_buffer (w_heap w))%nat.
Proof.
  intros HC (x & Hx & Hb)%list_elem_of_omap. apply list_elem_of_lookup in Hx as (i & Hi).
  destruct (Forall2_lookup_r _ _ _ _ _ (cr_values _ _ _ _ _ HC) Hi) as (e & _ & p & own & -> & Hp). unfold own_buffer in Hb. simpl in Hb.
  destruct own; [|done]. destruct Hp as [[-> _]|(b' & -> & Hb')]; [done|]. injection Hb as ->. lia.
Qed.
Lemma created_keys pat B h1 l w : Created pat B h1 l w → (initialized w).*1 = (fun e => idx_of e.1) <$> l.
Proof.
  intros HC. pose proof (cr_values _ _ _ _ _ HC) as H. clear HC. induction H as [|e x l' l'' (p & own & -> & _) H IH]; [done|]. rewrite !fmap_cons. f_equal. exact IH.
Qed.

(** Adding a tensor that is where it should be. *)
Lemma created_add pat B h1 l w e p own h :
  Created pat B h1 l w → e ∈ inits → e ∉ l → (∀ e', e' ∈ l → e' ∈ inits) →
  freed h = freed h1 → (next_buffer (w_heap w) ≤ next_buffer h)%nat →
  (if own : bool then p = Null ∧ msg_bytes (T := T) e.2 = 0 ∨ p = Ptr (next_buffer (w_heap w)) 0 ∧ (next_buffer (w_heap w) < next_buffer h)%nat
   else on_block pat B e p) →
  ∃ w', AddInitializedTensor names (mkWeights (weights_buffers w) (initialized w) h) (Z.of_nat (idx_of e.1))
      (tensor_value (weight_tensor e p own), msg_content e.2) = Ok w' ∧ Created pat B h1 (l ++ [e]) w'.
Proof.
  intros HC He Hl Hin Hf Hn Hp. unfold AddInitializedTensor. destruct (idx_known _ _ _ _ HW e He) as [_ Hlt].
  rewrite (proj2 (Z.leb_le 0 _)), (proj2 (Z.leb_le _ (Z.of_nat (MaxIdx names)))) by lia. cbn [andb enforce mbind res_bind initialized].
  rewrite Nat2Z.id. rewrite bool_decide_false.
  2: { rewrite (created_keys _ _ _ _ _ HC). intros (e' & E & He')%list_elem_of_fmap.
       apply Hl. by rewrite (idx_inj _ _ _ _ HW e e' He (Hin _ He') E). }
  pose proof (cr_next _ _ _ _ _ HC). eexists. split; [done|]. split; cbn [weights_buffers w_heap initialized]; [apply HC|done|lia| |].
  - apply Forall2_app; [|constructor; [|constructor]].
    + eapply Forall2_impl; [apply HC|]. intros e' x (p' & own' & -> & Hp'). exists p', own'. split; [done|].
      destruct own'; [|done]. destruct Hp' as [?|(b & -> & ?)]; [by left|]. right. exists b. split; [done|lia].
    + exists p, own. split; [done|]. destruct own; [|done]. destruct Hp as [?|[-> ?]]; [by left|]. right. eexists. split; [done|lia].
  - rewrite omap_app. apply NoDup_app. split; [apply HC|]. unfold own_buffer at 2 3. cbn. destruct own; [|split; [by intros ? _ ?%not_elem_of_nil|constructor]].
    destruct Hp as [[-> _]|[-> _]]; [split; [by intros ? _ ?%not_elem_of_nil|constructor]|].
    split; [|apply NoDup_singleton]. intros b Hb ->%list_elem_of_singleton. pose proof (own_lt _ _ _ _ _ _ HC Hb). lia.
Qed.

(** A new tensor in memory of its own. *)
Lemma create_own pat B h1 l w e :
  Created pat B h1 l w → e ∈ inits → e ∉ l → (∀ e', e' ∈ l → e' ∈ inits) →
  ∃ v h w', DeserializeTensorProto true providers e.2 (wloc e) Null 0 (w_heap w) = Ok (StatusOK, Some v, h) ∧
    AddInitializedTensor names (mkWeights (weights_buffers w) (initialized w) h) (Z.of_nat (idx_of e.1)) v = Ok w' ∧
    Created pat B h1 (l ++ [e]) w'.
Proof.
  intros HC He Hl Hin. rewrite deserialize_own by done. pose proof (cr_freed _ _ _ _ _ HC) as Hf.
  unfold Alloc_bytes. destruct (Z.eqb_spec (msg_bytes (T := T) e.2) 0) as [E|E]; cbn [heap_Alloc fst snd].
  - destruct (created_add pat B h1 l w e Null true (w_heap w) HC He Hl Hin Hf) as (w' & Ha & HC'); [lia|by left|]. by do 3 eexists.
  - destruct (created_add pat B h1 l w e (Ptr (next_buffer (w_heap w)) 0) true (mkHeap (S (next_buffer (w_heap w))) (freed (w_heap w))) HC He Hl Hin Hf)
      as (w' & Ha & HC'); [simpl; lia|right; simpl; auto with lia|]. by do 3 eexists.
Qed.

Section pattern.
Context (pat : OrtAllocatorInfo → MemoryPattern) (locs : list OrtAllocatorInfo) (B : list (OrtAllocatorInfo * Pointer)) (h0 h1 : Heap).
Context (HB : Buffers h0 h1 B) (EB : B.*1 = locs) (Hlocs : ∀ l, l ∈ locs ↔ l ∈ plan_locations).
Context (Hpat : ∀ l, blocks_ok (ops_at plan_locations l (omap (weight_op (T := T) names) inits)) (pat l)).
Abbreviation grp := (mkGroup locs (pat <$> locs)).

Lemma wloc_locs e : e ∈ inits → wloc e ∈ locs.
Proof. intros He. apply Hlocs. eapply list_elem_of_lookup_2. by apply wloc_lookup. Qed.
Lemma find_buffer l : l ∈ locs → ∃ p, snd <$> list_find (fun b => info_equiv (fst b) l = true) B = Some (l, p) ∧ (l, p) ∈ B.
Proof.
  intros Hl. rewrite <- EB in Hl. apply list_elem_of_fmap in Hl as ([l' p] & -> & Hin).
  destruct (list_find_elem_of (fun b => info_equiv (fst b) l' = true) B (l', p) Hin ltac:(by apply info_equiv_iff)) as [[i [l2 p2]] E].
  simpl. rewrite E. apply list_find_Some in E as (Hi & E & _). apply info_equiv_iff in E. simpl in E. subst l2. exists p2. split; [done|]. by eapply list_elem_of_lookup_2.
Qed.

(** The block of a number tensor, and none for strings. *)
Lemma weight_block e :
  e ∈ inits → if bool_decide (data_type e.2 = STRING) then GetBlock (pat (wloc e)) (Z.of_nat (idx_of e.1)) = None
    else ∃ blk, GetBlock (pat (wloc e)) (Z.of_nat (idx_of e.1)) = Some blk ∧ size_ blk = msg_bytes (T := T) e.2 ∧
      Z.of_nat (idx_of e.1) ∈ alloc_ids (ops_at plan_locations (wloc e) (omap (weight_op (T := T) names) inits)).
Proof.
  intros He. destruct (Hpat (wloc e)) as (H1 & _ & H3). case_bool_decide as Ed.
  - destruct (GetBlock _ _) as [b|] eqn:Eb; [|done]. apply H3 in Eb. apply list_elem_of_omap in Eb as (o & Ho & Hi).
    apply list_elem_of_filter in Ho as [_ Ho]. apply weight_op_elem in Ho as (e' & He' & Hne & ->). injection Hi as Hi%Nat2Z.inj.
    rewrite (idx_inj _ _ _ _ HW e' e) in Hne by done. done.
  - assert (Hop : TAlloc (Z.of_nat (idx_of e.1)) (msg_bytes (T := T) e.2) ∈ ops_at plan_locations (wloc e) (omap (weight_op (T := T) names) inits)).
    { apply list_elem_of_filter. simpl. rewrite Nat2Z.id. split; [by apply wloc_lookup|]. apply list_elem_of_omap. exists e. split; [done|].
      unfold weight_op. by rewrite bool_decide_false. }
    destruct (H1 _ _ Hop) as (blk & Hb & Hsz & _). exists blk. split_and!; [done|done|]. by eapply elem_of_alloc_ids.
Qed.

Lemma create_weight_ok l w e :
  Created pat B h1 l w → e ∈ inits → e ∉ l → (∀ e', e' ∈ l → e' ∈ inits) →
  ∃ w', create_weight true providers names plan grp (StatusOK, w) e = Ok (StatusOK, w') ∧ Created pat B h1 (l ++ [e]) w'.
Proof.
  intros HC He Hl Hin. unfold create_weight. cbn [IsOK StatusOK negb]. rewrite (weight_GetIdx _ _ _ _ HW) by done. cbn [IsOK StatusOK negb].
  unfold weight_location. rewrite Nat2Z.id. destruct (wloc_plan e He) as (q & -> & Eq). cbn [of_option mbind res_bind]. rewrite Eq.
  rewrite (cr_buffers _ _ _ _ _ HC). destruct (find_buffer (wloc e)) as (p & -> & Hp); [by apply wloc_locs|].
  unfold GetPatterns. cbn [locations patterns]. rewrite get_patterns_fmap by (by apply wloc_locs). cbn [snd].
  pose proof (weight_block e He) as Hb.
  assert (Hown : ∃ w', ('(st, v, h) ← DeserializeTensorProto true providers e.2 (wloc e) Null 0 (w_heap w);
     match v with None => Ok (st, mkWeights B (initialized w) h)
     | Some v => w ← AddInitializedTensor names (mkWeights B (initialized w) h) (Z.of_nat (idx_of e.1)) v; Ok (StatusOK, w) end) = Ok (StatusOK, w') ∧
     Created pat B h1 (l ++ [e]) w').
  { destruct (create_own pat B h1 l w e HC He Hl Hin) as (v & h & w' & -> & Ha & HC'). cbn [mbind res_bind].
    rewrite (cr_buffers _ _ _ _ _ HC) in Ha. rewrite Ha. by exists w'. }
  destruct (is_null p) eqn:Enull; [exact Hown|]. case_bool_decide as Ed; [by rewrite Hb|].
  destruct Hb as (blk & Hblk & Hsz & _). rewrite Hblk. destruct (bf_ptr _ _ _ HB _ _ Hp) as [->|(b & -> & Hbb)]; [done|].
  rewrite Hsz, deserialize_block by done. cbn [mbind res_bind].
  destruct (created_add pat B h1 l w e (ptr_add (Ptr b 0) (offset_ blk)) false (w_heap w) HC He Hl Hin) as (w' & Ha & HC');
    [apply HC|done|split; [done|]; exists b, blk; split_and!; [done|done|done]|].
  rewrite (cr_buffers _ _ _ _ _ HC) in Ha. rewrite Ha. by exists w'.
Qed.
End pattern.

Lemma create_loop f pat B h1 :
  (∀ l w e, Created pat B h1 l w → e ∈ inits → e ∉ l → (∀ e', e' ∈ l → e' ∈ inits) →
    ∃ w', f (StatusOK, w) e = Ok (StatusOK, w') ∧ Created pat B h1 (l ++ [e]) w') →
  ∀ rest l w, inits = l ++ rest → Created pat B h1 l w → ∃ w', foldM f (StatusOK, w) rest = Ok (StatusOK, w') ∧ Created pat B h1 inits w'.
Proof.
  intros Hf. induction rest as [|e rest IH]; intros l w E HC; [exists w; by rewrite E, app_nil_r|].
  pose proof (NoDup_fmap_1 _ _ (wo_nodup _ _ _ _ HW)) as Hnd. rewrite E in Hnd. apply NoDup_app in Hnd as (_ & Hd & _).
  destruct (Hf l w e HC) as (w1 & H1 & HC1); [rewrite E; apply elem_of_app; right; by left|intros He; apply (Hd _ He); by left| |].
  { intros e' He'. rewrite E. apply elem_of_app. by left. }
  cbn [foldM]. rewrite H1. cbn [mbind res_bind]. apply (IH (l ++ [e])); [by rewrite <- app_assoc|done].
Qed.

Lemma created_nil pat B h1 : Created pat B h1 [] (mkWeights B [] h1).
Proof. split; [done|done|done|constructor|constructor]. Qed.

Lemma save_with_pattern h :
  ∃ pat B h1 w, SaveInitializedTensorsWithMemPattern true providers names plan inits (mkWeights [] [] h) = Ok (StatusOK, w) ∧
    Buffers h h1 B ∧ (∀ l, blocks_ok (ops_at plan_locations l (omap (weight_op (T := T) names) inits)) (pat l)) ∧ Created pat B h1 inits w.
Proof.
  destruct (plan_weights_ok _ _ _ _ HW) as (locs & g & Hg & Hnd & Hlocs & Hpat). set (pat := fun l => GenerateMemPattern (g l)).
  unfold SaveInitializedTensorsWithMemPattern. rewrite (proj2 (Nat.ltb_lt _ _) (wo_some _ _ _ _ HW)). cbn [enforce mbind res_bind].
  fold (WeightsInv.plan_locations plan). rewrite Hg. cbn [mbind res_bind IsOK StatusOK negb GeneratePatterns planner_map_ locations patterns from_option id app].
  rewrite <- !list_fmap_compose. change (fst ∘ (fun x => (x, g x))) with (@id OrtAllocatorInfo). rewrite list_fmap_id.
  change (GenerateMemPattern ∘ snd ∘ (fun x => (x, g x))) with pat.
  assert (zip locs (pat <$> locs) = (fun l => (l, pat l)) <$> locs) as -> by (clear; induction locs; simpl; [done|by f_equal]).
  destruct (allocate_all pat h locs [] [] h) as (B & h1 & -> & HB & EB); [split; [done|done|..]; by intros; exfalso; eapply not_elem_of_nil|done| |].
  { intros l Hl. apply Hlocs, list_elem_of_fmap in Hl as (p & -> & Hp). rewrite (wo_alloc _ _ _ _ HW) by done. eauto. }
  cbn [mbind res_bind]. edestruct (create_loop (create_weight true providers names plan (mkGroup locs (pat <$> locs))) pat B h1)
    as (w & Hw & HC); [|by rewrite app_nil_l|apply created_nil|by exists pat, B, h1, w].
  intros l w e. apply (create_weight_ok pat locs B h h1 HB EB Hlocs Hpat).
Qed.
Lemma save_separate pat h :
  ∃ w, SaveInitializedTensorsWithSeperateBuffer true providers names plan inits (mkWeights [] [] h) = Ok (StatusOK, w) ∧
    Created pat [] h inits w.
Proof.
  unfold SaveInitializedTensorsWithSeperateBuffer. rewrite (proj2 (Nat.ltb_lt _ _) (wo_some _ _ _ _ HW)). cbn [enforce mbind res_bind].
  apply (create_loop _ pat [] h) with (l := []); [|done|apply created_nil].
  intros l w e HC He Hl Hin. unfold create_separate. cbn [IsOK StatusOK negb]. rewrite (weight_GetIdx _ _ _ _ HW) by done. cbn [IsOK StatusOK negb].
  unfold weight_location. rewrite Nat2Z.id. destruct (wloc_plan e He) as (q & -> & Eq). cbn [of_option mbind res_bind]. rewrite Eq.
  destruct (create_own _ _ _ _ _ e HC He Hl Hin) as (v & h' & w' & -> & Ha & HC'). cbn [mbind res_bind]. rewrite Ha. by exists w'.
Qed.

(** ** Memory *)

(** The bytes that a tensor takes. *)
Definition takes e t (b : nat) (x : Z) : Prop := ∃ o, p_data_ t = Ptr b o ∧ o ≤ x < o + msg_bytes (T := T) e.2.
Definition new_memory (h h' : Heap) e t : Prop :=
  p_data_ t = Null ∧ msg_bytes (T := T) e.2 = 0 ∨ ∃ b o, p_data_ t = Ptr b o ∧ (next_buffer h ≤ b < next_buffer h')%nat.

Lemma created_memory pat B h h1 l w :
  Buffers h h1 B → Created pat B h1 l w →
  Forall2 (fun e x => ∃ t, x = (idx_of e.1, (tensor_value t, msg_content e.2)) ∧ dtype_ t = GetType (data_type e.2) ∧ shape_ t = dims e.2 ∧
    alloc_info_ t = wloc e ∧ new_memory h (w_heap w) e t) l (initialized w).
Proof.
  intros HB HC. pose proof (bf_next _ _ _ HB). pose proof (cr_next _ _ _ _ _ HC). eapply Forall2_impl; [apply HC|].
  intros e x (p & own & -> & Hp). exists (weight_tensor e p own). split_and!; [done..|]. unfold new_memory. simpl. destruct own.
  - destruct Hp as [?|(b & -> & ?)]; [by left|]. right. exists b, 0. split; [done|lia].
  - destruct Hp as (_ & b & blk & Hin & _ & ->). destruct (bf_ptr _ _ _ HB _ _ Hin) as [|(b' & [= <-] & Hb)]; [done|].
    right. eexists _, _. split; [done|lia].
Qed.
Lemma omap_nodup_lookup {A A'} (k : A → option A') l i j x y b :
  NoDup (omap k l) → l !! i = Some x → l !! j = Some y → k x = Some b → k y = Some b → i = j.
Proof.
  revert i j. induction l as [|z l IH]; intros i j Hnd Hi Hj Hx Hy; [done|].
  change (omap k (z :: l)) with (match k z with Some b => b :: omap k l | None => omap k l end) in Hnd.
  assert (Hin : ∀ m u, l !! m = Some u → k u = Some b → b ∈ omap k l) by (intros m u Hm Hu; apply list_elem_of_omap; exists u; split; [by eapply list_elem_of_lookup_2|done]).
  assert (Hnd' : NoDup (omap k l)) by (destruct (k z); [by apply NoDup_cons in Hnd as [_ ?]|done]).
  destruct i as [|i], j as [|j]; simpl in *; simplify_eq; [done| | |f_equal; by eapply IH].
  - rewrite Hx in Hnd. apply NoDup_cons in Hnd as [Hn _]. by destruct (Hn (Hin _ _ Hj Hy)).
  - rewrite Hy in Hnd. apply NoDup_cons in Hnd as [Hn _]. by destruct (Hn (Hin _ _ Hi Hx)).
Qed.
Lemma created_disjoint pat B h h1 w i j e e' v v' t t' c c' b x :
  Buffers h h1 B → (∀ l, blocks_ok (ops_at plan_locations l (omap (weight_op (T := T) names) inits)) (pat l)) → Created pat B h1 inits w →
  i ≠ j → inits !! i = Some e → inits !! j = Some e' →
  initialized w !! i = Some (v, (tensor_value t, c)) → initialized w !! j = Some (v', (tensor_value t', c')) →
  ¬ (takes e t b x ∧ takes e' t' b x).
Proof.
  intros HB Hpat HC Hij Hi Hj Hti Htj [(o & Ho & Hx) (o' & Ho' & Hx')].
  assert (He : e ∈ inits) by (by eapply list_elem_of_lookup_2). assert (He' : e' ∈ inits) by (by eapply list_elem_of_lookup_2).
  destruct (Forall2_lookup_lr _ _ _ _ _ _ (cr_values _ _ _ _ _ HC) Hi Hti) as (p & own & [= -> -> ->] & Hp). simpl in Ho. subst p.
  destruct (Forall2_lookup_lr _ _ _ _ _ _ (cr_values _ _ _ _ _ HC) Hj Htj) as (p & own' & [= -> -> ->] & Hp'). simpl in Ho'. subst p.
  assert (Hlow : ∀ e0 o0, on_block pat B e0 (Ptr b o0) → (b < next_buffer h1)%nat).
  { intros e0 o0 (_ & b0 & blk & Hin & _ & [= <- _]). destruct (bf_ptr _ _ _ HB _ _ Hin) as [|(b' & [= <-] & Hb)]; [done|lia]. }
  assert (Hhigh : ∀ e0 o0, on_own h1 (w_heap w) e0 (Ptr b o0) → (next_buffer h1 ≤ b)%nat).
  { intros e0 o0 [[? _]|(b0 & [= <- _] & Hb)]; [done|lia]. }
  destruct own, own'.
  - eapply Hij, omap_nodup_lookup; [apply (cr_own _ _ _ _ _ HC)|exact Hti|exact Htj|done|done].
  - pose proof (Hhigh _ _ Hp). pose proof (Hlow _ _ Hp'). lia.
  - pose proof (Hhigh _ _ Hp'). pose proof (Hlow _ _ Hp). lia.
  - destruct Hp as (Hne & b0 & blk & Hin & Hblk & [= <- ->]), Hp' as (Hne' & b0' & blk' & Hin' & Hblk' & [= <- ->]).
    pose proof (bf_inj _ _ _ HB _ _ _ Hin Hin') as El. pose proof (weight_block pat Hpat e He) as H1. pose proof (weight_block pat Hpat e' He') as H2.
    rewrite bool_decide_false in H1, H2 by done. destruct H1 as (blk1 & E1 & S1 & A1), H2 as (blk2 & E2 & S2 & A2).
    rewrite Hblk in E1. injection E1 as <-. rewrite Hblk' in E2. injection E2 as <-. rewrite <- El in Hblk', A2.
    destruct (Hpat (wloc e)) as (_ & Hd & _). refine (Hd _ _ _ _ x A1 A2 _ Hblk Hblk' _); [|lia].
    intros E%Nat2Z.inj. apply Hij. apply (idx_inj _ _ _ _ HW) in E; [|done|done]. subst e'.
    pose proof (NoDup_fmap_1 _ _ (wo_nodup _ _ _ _ HW)) as Hnd. by eapply NoDup_lookup.
Qed.

(** The part of the saving that a run relies on. *)
Lemma weights_values mem_pattern h :
  ∃ w, SaveInitializedTensors true providers names plan mem_pattern inits (mkWeights [] [] h) = Ok (StatusOK, w) ∧
    freed (w_heap w) = freed h ∧ (next_buffer h ≤ next_buffer (w_heap w))%nat ∧
    Forall2 (fun e x => ∃ t, x = (idx_of e.1, (tensor_value t, msg_content e.2)) ∧ dtype_ t = GetType (data_type e.2) ∧ shape_ t = dims e.2 ∧
      alloc_info_ t = wloc e ∧ new_memory h (w_heap w) e t) inits (initialized w).
Proof.
  assert (H : ∃ pat B h1 w, SaveInitializedTensors true providers names plan mem_pattern inits (mkWeights [] [] h) = Ok (StatusOK, w) ∧
    Buffers h h1 B ∧ Created pat B h1 inits w).
  { unfold SaveInitializedTensors. destruct mem_pattern.
    - destruct (save_with_pattern h) as (pat & B & h1 & w & E & HB & _ & HC). by exists pat, B, h1, w.
    - destruct (save_separate (fun _ => mkPattern ∅ 0) h) as (w & E & HC). exists (fun _ => mkPattern ∅ 0), [], h, w. split_and!; [done| |done].
      split; [done|done|..]; by intros; exfalso; eapply not_elem_of_nil. }
  destruct H as (pat & B & h1 & w & E & HB & HC). exists w. pose proof (bf_next _ _ _ HB). pose proof (cr_next _ _ _ _ _ HC).
  split_and!; [done|rewrite (cr_freed _ _ _ _ _ HC); apply HB|lia|by eapply created_memory].
Qed.
End save.

(** C22. The weights of a model, with one buffer for each location or with separate
    buffers: saving them succeeds. Every initializer becomes a tensor under the
    index of its name, of the type and shape of its message, on the location of
    the plan, that holds the elements of the message; there are no others. The
    tensors lie in new memory, nothing is released, and no two of them share a
    byte: no weight overwrites another. *)
Theorem weights_saved {T} `{!TensorTypes T, !ValueTypes T, !ElementTypes T} (providers : ExecutionProviders (T := T)) names plan inits mem_pattern h :
  WeightsOk providers names plan inits →
  ∃ w, SaveInitializedTensors true providers names plan mem_pattern inits (mkWeights [] [] h) = Ok (StatusOK, w) ∧
    freed (w_heap w) = freed h ∧
    Forall2 (fun e x => ∃ t, x = (idx_of names e.1, (tensor_value t, msg_content e.2)) ∧ dtype_ t = GetType (data_type e.2) ∧
      shape_ t = dims e.2 ∧ alloc_info_ t = wloc names plan e ∧ new_memory h (w_heap w) e t) inits (initialized w) ∧
    ∀ i j e e' v v' t t' c c' b x, i ≠ j → inits !! i = Some e → inits !! j = Some e' →
      initialized w !! i = Some (v, (tensor_value t, c)) → initialized w !! j = Some (v', (tensor_value t', c')) →
      ¬ (takes e t b x ∧ takes e' t' b x).
Proof.
  intros HW. unfold SaveInitializedTensors. destruct mem_pattern.
  - destruct (save_with_pattern providers names plan inits HW h) as (pat & B & h1 & w & E & HB & Hpat & HC). exists w. split_and!; [done| | |].
    + rewrite (cr_freed _ _ _ _ _ _ _ HC). apply HB.
    + by eapply created_memory.
    + intros. by eapply created_disjoint.
  - destruct (plan_weights_ok _ _ _ _ HW) as (locs & g & _ & _ & _ & Hpat).
    destruct (save_separate providers names plan inits HW (fun l => GenerateMemPattern (g l)) h) as (w & E & HC). exists w.
    assert (HB : Buffers h h []) by (split; [done|done|..]; by intros; exfalso; eapply not_elem_of_nil). split_and!; [done| | |].
    + apply (cr_freed _ _ _ _ _ _ _ HC).
    + by eapply created_memory.
    + intros. by eapply (created_disjoint _ _ _ _ HW (fun l => GenerateMemPattern (g l)) [] h h).
Qed.

(** ** Two weights *)

Module TwoWeights.
#[export] Existing Instance AllocPlannerProps.onnx_types.
#[export] Existing Instance ExecutionProps.Run.value_types.
#[export] Instance element_types : ElementTypes MLDataType := {|
  GetType := fun d => NonOnnxType
    match d with
    | UINT8 => Transpose.Uint8 | INT8 => Transpose.Int8 | UINT16 => Transpose.Uint16 | INT16 => Transpose.Int16 | INT32 => Transpose.Int32
    | INT64 => Transpose.Int64 | STRING => Transpose.StringType | BOOL => Transpose.Bool | FLOAT16 => Transpose.MLFloat16 | DOUBLE => Transpose.Double
    | UINT32 => Transpose.Uint32 | UINT64 => Transpose.Uint64 | BFLOAT16 => Transpose.BFloat16 | _ => Transpose.Float
    end;
  sizeof_string := 32;
|}.
Definition message (l : list Z) : TensorProto := typed_proto FLOAT [2; 3] l.
Definition inits : list (string * TensorProto) :=
  [("W"%string, message [1; 2; 3; 4; 5; 6]); ("X"%string, message [7; 8; 9; 10; 11; 12])].

Lemma message_ok l : length l = 6%nat → Forall (fun x => 0 ≤ x < 2 ^ 32) l → MessageOk (T := MLDataType) (message l) (msg_size (T := MLDataType) (message l)) (msg_content (message l)).
Proof.
  intros Hl Hx. split; [done|by vm_compute| |by vm_compute|by vm_compute|by vm_compute|].
  - repeat (apply Forall_cons; split; [by vm_compute|]). by apply Forall_nil.
  - repeat (destruct l as [|? l]; try done).
Qed.
Lemma weights_ok : WeightsOk Cpu.providers Example.names Run.the_plan inits.
Proof.
  split; [apply add_all_ok|vm_compute; lia|by vm_compute|by apply (bool_decide_unpack _); vm_compute| | | | |by vm_compute].
  - intros e [->| ->%list_elem_of_singleton]%elem_of_cons; (vm_compute; eauto).
  - intros e [->| ->%list_elem_of_singleton]%elem_of_cons; (apply message_ok; [done|]); repeat (apply Forall_cons; split; [by vm_compute|]); by apply Forall_nil.
  - assert (H : forallb (fun p => bool_decide (GetAllocator Cpu.providers (location p) = Some (location p))) (allocation_plan Run.the_plan) = true) by (vm_compute; reflexivity).
    intros p Hp. by apply (forallb_elem _ _ _ H), bool_decide_eq_true in Hp.
  - assert (H : forallb (fun p => strcmp_eq (i_name (location p)) CPU) (allocation_plan Run.the_plan) = true) by (vm_compute; reflexivity).
    intros e v p _ _ Hp. apply list_elem_of_lookup_2, (forallb_elem _ _ _ H) in Hp. by rewrite Hp.
Qed.
End TwoWeights.
Import TwoWeights.

(** The two weights lie in one buffer, one after the other. *)
Lemma weights_saved_witness :
  ∃ w, SaveInitializedTensors true Cpu.providers Example.names Run.the_plan true inits (mkWeights [] [] (mkHeap 3 ∅)) = Ok (StatusOK, w) ∧
    freed (w_heap w) = ∅ ∧ next_buffer (w_heap w) = 4%nat ∧ length (initialized w) = 2%nat.
Proof.
  destruct (weights_saved Cpu.providers Example.names Run.the_plan inits true (mkHeap 3 ∅) weights_ok) as (w & E & Hf & Hw & _).
  exists w. split_and!; [exact E|exact Hf| |by apply Forall2_length in Hw].
  assert (H : match SaveInitializedTensors true Cpu.providers Example.names Run.the_plan true inits (mkWeights [] [] (mkHeap 3 ∅)) with
    Ok (_, w) => next_buffer (w_heap w) | _ => 0%nat end = 4%nat) by (vm_compute; reflexivity).
  by rewrite E in H.
Defined.
