(* ===== verification/SessionInitProps.v ===== *)
(** The initialized session: the numbers of the values, the plan, the weights and
    the mapping fit together and are what a run relies on. *)
From S2P Require Import Prelude TensorShape MemPattern AllocPlanner AllocPlannerInv AllocPlannerProps SafePlan ExecutionFrame ExecutionProps Devices DevicesProps TensorProto TensorProtoProps SessionInit WeightsInv WeightsProps.

Section graph.
Context {T : Type} `{!TensorTypes T}.
Context (g : MainGraph (T := T)).
Abbreviation v := (mg_view g).

(** ** Names *)

Definition exist_names (l : list (NodeArg T)) : list string := na_name <$> List.filter na_exists l.
Definition out_names (l : list (Node T)) : list string := l ≫= fun n => exist_names (n_outputs n).
Definition graph_names : list string :=
  (na_name <$> mg_all_inputs g) ++
  (g_nodes v ≫= fun n => exist_names (n_inputs n) ++ exist_names (n_implicit_inputs n) ++ exist_names (n_outputs n)) ++
  exist_names (g_outputs v).

Lemma add_existing_names l m : foldl add_existing m l = foldl (fun m n => (Add m n).2) m (exist_names l).
Proof.
  revert m. induction l as [|a l IH]; intros m; [done|]. unfold exist_names in *. cbn [List.filter foldl]. rewrite IH.
  unfold add_existing, add_arg. by destruct (na_exists a).
Qed.
(** The numbering goes through the names of the graph in order. *)
Lemma names_of_graph : SaveMLValueNameIndexMapping g new_MLValueNameIdxMap = add_all graph_names.
Proof.
  unfold SaveMLValueNameIndexMapping, add_all, graph_names. rewrite !foldl_app, add_existing_names. f_equal.
  assert (foldl add_arg new_MLValueNameIdxMap (mg_all_inputs g) =
    foldl (fun m n => (Add m n).2) new_MLValueNameIdxMap (na_name <$> mg_all_inputs g)) as ->.
  { generalize new_MLValueNameIdxMap. induction (mg_all_inputs g) as [|a l IH]; intros m; [done|]. cbn. apply IH. }
  generalize (foldl (fun m n => (Add m n).2) new_MLValueNameIdxMap (na_name <$> mg_all_inputs g)).
  induction (g_nodes v) as [|n l IH]; intros m; [done|]. cbn [foldl]. rewrite IH, bind_cons, !foldl_app. unfold add_node.
  by rewrite !add_existing_names.
Qed.
Lemma Add_lookup m n n' : is_Some (name_map_ (Add m n).2 !! n') ↔ n' = n ∨ is_Some (name_map_ m !! n').
Proof.
  unfold Add. destruct (name_map_ m !! n) as [i|] eqn:E; simpl.
  - split; [auto|]. intros [->|?]; [by rewrite E|done].
  - destruct (decide (n' = n)) as [->|Hne]; [rewrite lookup_insert_eq; naive_solver|]. rewrite lookup_insert_ne by done. naive_solver.
Qed.
Lemma add_all_known l n : is_Some (name_map_ (add_all l) !! n) ↔ n ∈ l.
Proof.
  unfold add_all. assert (H : ∀ m, is_Some (name_map_ (foldl (fun m n => (Add m n).2) m l) !! n) ↔ n ∈ l ∨ is_Some (name_map_ m !! n)).
  { induction l as [|x l IH]; intros m; simpl; [set_solver|]. rewrite IH, Add_lookup, elem_of_cons. naive_solver. }
  rewrite H. simpl. rewrite lookup_empty, is_Some_alt. naive_solver.
Qed.

Lemma elem_of_exist_names l n : n ∈ exist_names l ↔ ∃ a, a ∈ l ∧ na_exists a = true ∧ na_name a = n.
Proof.
  unfold exist_names. rewrite list_elem_of_fmap. split.
  - intros (a & -> & Ha). apply list_elem_of_In, filter_In in Ha as [Ha He]. exists a. rewrite list_elem_of_In. done.
  - intros (a & Ha & He & <-). exists a. split; [done|]. apply list_elem_of_In, filter_In. by rewrite <- list_elem_of_In.
Qed.

(** ** Well-formed graphs *)

Definition given_names : list string := na_name <$> (g_inputs v ++ g_initializers v).

(** A graph in the terms of its names: the inputs and initializers are among the
    inputs that are numbered first; the nodes are in an order in which each input
    is given or computed before; each value has one definition. *)
Record GraphWf : Prop := {
  wf_inputs : ∀ n, n ∈ given_names ↔ n ∈ na_name <$> mg_all_inputs g;
  wf_nodes : ∀ n, n ∈ g_topo v ↔ n ∈ g_nodes v;
  wf_exist : ∀ a, a ∈ g_inputs v ++ g_initializers v ++ g_outputs v → na_exists a = true;
  wf_shaped : ∀ a s, a ∈ graph_args (set_outer v [] (g_parallel v)) → na_shape a = Some s → is_Some (tensor_element_size (na_type a));
  wf_kernel : ∀ node, node ∈ g_nodes v → is_Some (n_kernel node) ∧ is_Some (n_provider node);
  wf_single : NoDup (out_names (g_topo v));
  wf_fresh : ∀ n, n ∈ out_names (g_topo v) → n ∉ given_names;
  wf_order : ∀ k node a, g_topo v !! k = Some node → a ∈ n_inputs node ++ n_implicit_inputs node → na_exists a = true →
    na_name a ∈ given_names ++ out_names (take k (g_topo v));
  wf_outputs : ∀ a, a ∈ g_outputs v → na_name a ∈ given_names ++ out_names (g_topo v);
}.

Context (parallel : bool).
Abbreviation names := (add_all graph_names).
Abbreviation view := (set_outer v [] parallel).

Lemma ids_names l : ids names l = omap (fun n => name_map_ names !! n) (exist_names l).
Proof.
  induction l as [|a l IH]; [done|]. unfold ids, exist_names in *. cbn [List.filter omap list_omap].
  destruct (na_exists a); cbn [fmap list_fmap omap list_omap]; [|done]. destruct (name_map_ names !! na_name a); [f_equal|]; apply IH.
Qed.
Lemma all_outs_names l : all_outs names l = omap (fun n => name_map_ names !! n) (out_names l).
Proof.
  induction l as [|n l IH]; [done|]. unfold all_outs, out_names in *. rewrite !bind_cons, omap_app, IH. unfold outs. by rewrite ids_names.
Qed.
Lemma elem_of_all_outs l i : i ∈ all_outs names l ↔ ∃ n, n ∈ out_names l ∧ name_map_ names !! n = Some i.
Proof. rewrite all_outs_names, list_elem_of_omap. done. Qed.
Lemma elem_of_defs0 i : i ∈ defs0 names view ↔ ∃ n, n ∈ given_names ∧ name_map_ names !! n = Some i.
Proof.
  unfold defs0, given_names. simpl. rewrite elem_of_app. unfold all_ids. rewrite !list_elem_of_omap. split.
  - intros [(a & Ha & Hi)|(a & Ha & Hi)]; (exists (na_name a); split; [apply list_elem_of_fmap; exists a; split; [done|]; set_solver|done]).
  - intros (n & (a & -> & [Ha|Ha]%elem_of_app)%list_elem_of_fmap & Hi); [left|right]; eauto.
Qed.
Lemma names_inj_graph n n' i : name_map_ names !! n = Some i → name_map_ names !! n' = Some i → n = n'.
Proof. apply names_inj, add_all_ok. Qed.

Lemma graph_wf_ok (HG : GraphWf) : GraphOk names view.
Proof.
  assert (Hk : ∀ a, a ∈ graph_args view → na_exists a = true → known names a).
  { intros a Ha He. apply add_all_known. unfold graph_args in Ha. simpl in Ha. rewrite !elem_of_app in Ha. unfold graph_names. rewrite !elem_of_app.
    destruct Ha as [Ha|[Ha|[Ha|Ha]]].
    - left. apply (wf_inputs HG). apply list_elem_of_fmap. exists a. split; [done|]. set_solver.
    - left. apply (wf_inputs HG). apply list_elem_of_fmap. exists a. split; [done|]. set_solver.
    - right. right. apply elem_of_exist_names. eauto.
    - right. left. apply list_elem_of_bind in Ha as (n & Ha & Hn). apply list_elem_of_bind. exists n. split.
      + rewrite !elem_of_app, !elem_of_exist_names in *. naive_solver.
      + apply elem_of_app in Hn as [Hn|Hn]; [by apply (wf_nodes HG)|done]. }
  assert (Hmem : ∀ n l, n ∈ given_names ++ out_names l → ∀ i, name_map_ names !! n = Some i → i ∈ defs0 names view ∨ i ∈ all_outs names l).
  { intros n l [Hn|Hn]%elem_of_app i Hi; [left; apply elem_of_defs0|right; apply elem_of_all_outs]; eauto. }
  split.
  - apply add_all_ok.
  - done.
  - intros a Ha. apply (wf_exist HG). set_solver.
  - apply (wf_shaped HG).
  - intros node Hn. apply (wf_kernel HG). simpl in Hn. apply elem_of_app in Hn as [Hn|Hn]; [by apply (wf_nodes HG)|done].
  - simpl. rewrite all_outs_names. apply omap_nodup. intros i j x y b Hi Hj Hx Hy. rewrite (names_inj_graph _ _ _ Hx Hy) in Hi.
    by eapply NoDup_lookup; [apply (wf_single HG)|..].
  - intros i (n & Hn & Hi)%elem_of_all_outs (n' & Hn' & Hi')%elem_of_defs0. simpl in Hn.
    rewrite (names_inj_graph _ _ _ Hi' Hi) in Hn'. by destruct (wf_fresh HG n Hn).
  - intros k node i Hk' Hi. unfold uses in Hi. rewrite !elem_of_app, !elem_of_ids in Hi.
    assert (∃ a, a ∈ n_inputs node ++ n_implicit_inputs node ∧ na_exists a = true ∧ name_map_ names !! na_name a = Some i) as (a & Ha & He & Hn)
      by (destruct Hi as [(a & ? & ? & ?)|(a & ? & ? & ?)]; exists a; set_solver).
    eapply Hmem; [|exact Hn]. by eapply (wf_order HG).
  - intros i (a & Ha & Hi)%list_elem_of_omap. eapply Hmem; [|exact Hi]. by apply (wf_outputs HG).
Qed.
End graph.

(** ** Locations *)

Section locations.
Context {T : Type} `{!TensorTypes T}.
Context (names : MLValueNameIdxMap) (g : GraphView T) (P : OrtAllocatorInfo → Prop).
Context (H0 : P (mkInfo CPU 0 0 1)) (Hcpu : ∀ m, P (g_cpu g m)).
Context (Hnodes : ∀ node p m, node ∈ g_topo g ++ g_nodes g → n_provider node = Some p → P (p m)).
Implicit Types (st : PState T).

Definition Located st : Prop := Forall (fun p => P (location p)) (plan_values st).

Lemma located_values st st' : plan_values st' = plan_values st → Located st → Located st'.
Proof. unfold Located. by intros ->. Qed.
Lemma located_update st n f st' :
  update_plan st n f = Ok st' → (∀ p, P (location p) → P (location (f p))) → Located st → Located st'.
Proof.
  intros (p & _ & E)%update_plan_values Hf. unfold Located. rewrite E. intros H. apply Forall_forall. intros q (i & Hi)%list_elem_of_lookup.
  rewrite Forall_lookup in H. destruct (decide (i = n)) as [->|Hne].
  - rewrite list_lookup_alter_eq in Hi. apply fmap_Some in Hi as (q' & Hq & ->). apply Hf. by eapply H.
  - rewrite list_lookup_alter_ne in Hi by done. by eapply H.
Qed.
Lemma located_add_use st n k st' : add_use st n k = Ok st' → Located st → Located st'.
Proof. unfold add_use. intros (? & _ & [= <-])%bind_Ok. by apply located_values. Qed.
Lemma located_ProcessDef st n a st' : ProcessDef st n a = Ok st' → Located st → Located st'.
Proof. unfold ProcessDef. intros (? & _ & [= <-])%bind_Ok. by apply located_values. Qed.
Lemma located_fold {A} (f : PState T → A → res (PState T)) l st st' :
  (∀ st x st', x ∈ l → f st x = Ok st' → Located st → Located st') → foldM f st l = Ok st' → Located st → Located st'.
Proof.
  revert st. induction l as [|x l IH]; intros st Hf; cbn [foldM]; [by intros [= <-]|].
  intros (s1 & H1 & H2)%bind_Ok HL. eapply IH; [|exact H2|by eapply Hf; [left|..]]. intros; by eapply Hf; [right|..].
Qed.

Lemma located_define st a st' : define_use names st a = Ok st' → Located st → Located st'.
Proof.
  unfold define_use. intros (? & _ & (s1 & H1 & H2)%bind_Ok)%bind_Ok HL. by eapply located_add_use, located_ProcessDef.
Qed.
Lemma located_count_input st a st' : count_input names st a = Ok st' → Located st → Located st'.
Proof.
  unfold count_input. destruct (na_exists a); [|by intros [= <-]]. intros (? & _ & H)%bind_Ok. by eapply located_add_use.
Qed.
Lemma located_count_output kd p st io st' :
  (∀ m, P (p m)) → count_output names kd p st io = Ok st' → Located st → Located st'.
Proof.
  intros Hp. unfold count_output. destruct io as [i a]. destruct (na_exists a); [|by intros [= <-]].
  intros (? & _ & (s1 & H1 & (s2 & H2 & H)%bind_Ok)%bind_Ok)%bind_Ok HL. assert (HL2 : Located s2) by (by eapply located_add_use, located_ProcessDef).
  case_bool_decide; [by injection H as <-|]. destruct (_ =? _); (eapply located_update; [exact H| |done]; simpl; intros; apply Hp).
Qed.
Lemma located_count_node st node s st' :
  node ∈ g_topo g ++ g_nodes g → count_node names (StatusOK, st) node = Ok (s, st') → Located st → Located st'.
Proof.
  intros Hn. unfold count_node. cbn [IsOK StatusOK negb]. intros (s1 & H1 & (s2 & H2 & H)%bind_Ok)%bind_Ok HL.
  assert (HL2 : Located s2).
  { eapply located_fold; [|exact H2|]; [intros; by eapply located_count_input|].
    eapply located_fold; [|exact H1|done]; intros; by eapply located_count_input. }
  destruct (n_kernel node) as [kd|]; [|by injection H as <- <-]. apply bind_Ok in H as (p & Hp & H). apply bind_Ok in H as (s3 & H3 & H).
  apply bind_Ok in H as (s4 & H4 & [= <- <-]). destruct (n_provider node) as [q|] eqn:Eq; simpl in Hp; [|done]. injection Hp as ->.
  assert (HL3 : Located s3) by (eapply located_fold; [|exact H3|done]; intros; eapply located_count_output; [|done|done]; intros; by eapply Hnodes).
  destruct (_ =? 0); [by injection H4 as <-|]. eapply located_fold; [|exact H4|done]. intros s5 a s6 _ Ha. unfold mark_fence in Ha.
  destruct (na_exists a); [|by injection Ha as <-]. apply bind_Ok in Ha as (? & _ & Ha). by eapply located_update.
Qed.
Lemma located_counts st s st' : ComputeUseCounts names g st = Ok (s, st') → Located st → Located st'.
Proof.
  unfold ComputeUseCounts. intros (s1 & H1 & (s2 & H2 & (s3 & H3 & ([s4 st4] & H4 & H)%bind_Ok)%bind_Ok)%bind_Ok)%bind_Ok HL.
  assert (HL3 : Located s3).
  { do 3 (eapply located_fold; [intros; by eapply located_define|eassumption|]). done. }
  assert (HL4 : Located st4).
  { revert H4 HL3. generalize s3. assert (Hin : ∀ n, n ∈ g_topo g → n ∈ g_topo g ++ g_nodes g) by set_solver. revert Hin.
    generalize (g_topo g) at 1 3. intros l. generalize (StatusOK) at 1. induction l as [|n l IH]; intros s0 Hin st0; cbn [foldM]; [by intros [= <- <-]|].
    intros ([s5 st5] & H5 & H6)%bind_Ok HL0. eapply IH; [intros; apply Hin; by right|exact H6|]. destruct s0 as [c|].
    - by injection H5 as <- <-.
    - eapply located_count_node; [apply Hin; by left|exact H5|done]. }
  destruct (IsOK s4); [|by injection H as <- <-]. apply bind_Ok in H as (s5 & H5 & [= <- <-]).
  eapply located_fold; [|exact H5|done]. intros s6 a s7 _ Ha. unfold count_graph_output in Ha. apply bind_Ok in Ha as (? & _ & Ha). by eapply located_add_use.
Qed.
Lemma located_plan_weight node st io st' : node ∈ g_nodes g → plan_weight names g node st io = Ok st' → Located st → Located st'.
Proof.
  intros Hn. destruct io as [i a]. unfold plan_weight. destruct (negb (na_exists a)); [by intros [= <-]|]. destruct (negb _); [by intros [= <-]|].
  intros (? & _ & (? & _ & (p & Hp & (kd & _ & H)%bind_Ok)%bind_Ok)%bind_Ok)%bind_Ok. eapply located_update; [exact H|].
  intros q _. simpl. destruct (MemTypeOnCpuExplicitly _); [apply Hcpu|]. destruct (n_provider node) eqn:E; simpl in Hp; [|done]. injection Hp as ->.
  eapply Hnodes; [|exact E]. set_solver.
Qed.
Lemma located_Reuse st x o st' : Reuse st x o = Ok st' → Located st → Located st'.
Proof.
  unfold Reuse. intros (? & _ & (b & _ & (? & _ & (u & _ & (s1 & H1 & H)%bind_Ok)%bind_Ok)%bind_Ok)%bind_Ok)%bind_Ok HL.
  eapply located_update; [exact H|done|]. eapply located_add_use; [exact H1|]. by eapply located_values.
Qed.
Lemma located_output node st n a st' n' : plan_output names g node (st, n) a = Ok (st', n') → Located st → Located st'.
Proof.
  unfold plan_output. destruct (negb (na_exists a)); [by intros [= <- <-]|].
  intros (i & _ & (s1 & H1 & (s2 & H2 & [= -> _])%bind_Ok)%bind_Ok)%bind_Ok HL.
  assert (HL1 : Located s1) by (by eapply located_update). destruct (is_graph_output g a); [by eapply located_update|].
  destruct (IsNonTensor a); [by eapply located_update|]. apply bind_Ok in H2 as (r & _ & H2). destruct r as [x|]; [by eapply located_Reuse|].
  apply bind_Ok in H2 as (t & Ht & H2). destruct t as [[x s3]|]; [|by eapply located_update]. eapply located_Reuse; [exact H2|].
  destruct (g_parallel g); [done|]. apply FindReusableTensor_values in Ht. by eapply located_values.
Qed.
Lemma located_node st pn st' : plan_node names g st pn = Ok st' → Located st → Located st'.
Proof.
  destruct pn as [k node]. unfold plan_node. intros ([s1 n1] & H1 & (s2 & H2 & (s3 & H3 & H)%bind_Ok)%bind_Ok)%bind_Ok HL.
  apply releases_values in H, H2, H3. assert (plan_values st' = plan_values s1) as E by congruence. eapply located_values; [exact E|].
  revert H1. generalize 0. revert st HL. clear - H0 Hcpu Hnodes. induction (n_outputs node) as [|a l IH]; intros st HL z; cbn [foldM]; [by intros [= <- _]|].
  intros ([s2 n2] & H2 & H3)%bind_Ok. eapply IH; [|exact H3]. by eapply located_output.
Qed.

(** Every location of a plan is one that the CPU provider or the provider of a
    node names, or the default one. *)
Lemma plan_locations_from s plan : CreatePlan names g = Ok (s, plan) → Forall (fun p => P (location p)) (allocation_plan plan).
Proof.
  unfold CreatePlan. intros ([s1 st1] & H1 & H)%bind_Ok.
  assert (HL1 : Located st1).
  { eapply located_counts; [exact H1|]. unfold Located. simpl. apply Forall_replicate. done. }
  destruct (negb (IsOK s1)); [by injection H as <- <-|]. apply bind_Ok in H as (st2 & H2 & H). apply bind_Ok in H as ([steps fr] & _ & [= <- <-]). simpl.
  unfold ComputeReusePlan in H2. apply bind_Ok in H2 as (sa & Ha & H2). apply bind_Ok in H2 as (sb & Hb & H2). apply bind_Ok in H2 as (sc & Hc & H2).
  assert (Hpre : ∀ st a st', setup_preexisting names st a = Ok st' → Located st → Located st').
  { intros st a st' (? & _ & Hu)%bind_Ok. by eapply located_update. }
  assert (HL : Located st2); [|exact HL]. eapply located_fold; [intros; by eapply located_node|exact H2|].
  eapply located_fold; [|exact Hc|].
  - intros st node st' Hn Hs. eapply located_fold; [|exact Hs]. intros; by eapply located_plan_weight.
  - do 2 (eapply located_fold; [intros; by eapply Hpre|eassumption|]). done.
Qed.
End locations.

(** ** The session *)

Section built.
Context {T : Type} `{!TensorTypes T, !ValueTypes T, !ElementTypes T}.
Context (GetExecutionProviderType : Node T → string) (providers : ExecutionProviders (T := T)).
Context (CreateKernel : Node T → IExecutionProvider (T := T) → Status) (g : MainGraph (T := T)).
Abbreviation v := (mg_view g).
Abbreviation inits := (mg_initializers g).

(** A location that a plan of the graph can name. *)
Inductive graph_location : OrtAllocatorInfo → Prop :=
  | default_location : graph_location (mkInfo CPU 0 0 1)
  | cpu_location m : graph_location (g_cpu v m)
  | node_location node p m : node ∈ g_nodes v → n_provider node = Some p → graph_location (p m).

(** What the initialization relies on: the graph is well formed; each initializer
    has a message that can be read, and they fit into memory; the locations are in
    CPU memory and have their allocators; each node has a provider that creates
    its kernel. *)
Record InitOk : Prop := {
  io_graph : GraphWf g;
  io_some : graph_names g ≠ [];
  io_nodup : NoDup inits.*1;
  io_inits : ∀ n, n ∈ inits.*1 ↔ n ∈ na_name <$> g_initializers v;
  io_message : ∀ e, e ∈ inits → MessageOk (T := T) e.2 (msg_size (T := T) e.2) (msg_content e.2);
  io_bytes : foldr (fun e n => msg_bytes (T := T) e.2 + n) 0 inits < 2 ^ 64;
  io_location : ∀ i, graph_location i → GetAllocator providers i = Some i ∧
    strcmp_eq (i_name i) CPU || (i_mem_type i =? OrtMemTypeCPUOutput) = true;
  io_kernel : ∀ node, node ∈ g_nodes v → GetExecutionProviderType node ≠ ""%string ∧
    ∃ p, Get_by_type providers (GetExecutionProviderType node) = Some p ∧ CreateKernel node p = StatusOK;
}.
Context (HI : InitOk).
Abbreviation names := (add_all (graph_names g)).

Lemma names_some : (0 < MaxIdx names)%nat.
Proof.
  destruct (graph_names g) as [|n l] eqn:E; [by destruct (io_some HI)|]. rewrite <- E.
  destruct (proj2 (add_all_known (graph_names g) n)) as [i Hi]; [rewrite E; by left|]. pose proof (names_lt _ (add_all_ok (graph_names g)) _ _ Hi). lia.
Qed.
Lemma init_known e : e ∈ inits → is_Some (name_map_ names !! e.1).
Proof.
  intros He. apply add_all_known. unfold graph_names. apply elem_of_app. left. apply (wf_inputs _ (io_graph HI)).
  unfold given_names. rewrite fmap_app, elem_of_app. right. apply (io_inits HI), list_elem_of_fmap. eauto.
Qed.
Lemma built_weights_ok parallel plan :
  CreatePlan names (set_outer v [] parallel) = Ok (StatusOK, plan) → SafePlan names (set_outer v [] parallel) plan →
  WeightsOk providers names plan inits.
Proof.
  intros EP HS.
  assert (Hloc : Forall (fun p => GetAllocator providers (location p) = Some (location p) ∧
    strcmp_eq (i_name (location p)) CPU || (i_mem_type (location p) =? OrtMemTypeCPUOutput) = true) (allocation_plan plan)).
  { eapply (plan_locations_from names (set_outer v [] parallel) (fun i => GetAllocator providers i = Some i ∧
      strcmp_eq (i_name i) CPU || (i_mem_type i =? OrtMemTypeCPUOutput) = true)); [..|exact EP].
    - apply (io_location HI). constructor.
    - intros m. apply (io_location HI). constructor.
    - intros node p m Hn Hp. apply (io_location HI). eapply node_location; [|done]. simpl in Hn.
      apply elem_of_app in Hn as [Hn|Hn]; [by apply (wf_nodes _ (io_graph HI))|done]. }
  rewrite Forall_forall in Hloc. split.
  - apply add_all_ok.
  - apply names_some.
  - apply HS.
  - apply HI.
  - apply init_known.
  - apply HI.
  - intros p Hp. by apply Hloc.
  - intros e i p He Hi Hp. apply Hloc. by eapply list_elem_of_lookup_2.
  - apply HI.
Qed.

Lemma SaveKernels_ok l (ks : gset Z) :
  (∀ node, node ∈ l → node ∈ g_nodes v) →
  ∃ ks', foldM (save_kernel GetExecutionProviderType providers CreateKernel) (StatusOK, ks) l = Ok (StatusOK, ks') ∧
    ∀ z, z ∈ ks' ↔ z ∈ ks ∨ z ∈ n_index <$> l.
Proof.
  revert ks. induction l as [|node l IH]; intros ks Hl; [exists ks; split; [done|]; set_solver|].
  cbn [foldM]. unfold save_kernel at 2, CreateOpKernel. cbn [IsOK StatusOK negb].
  destruct (io_kernel HI node) as [Hne (p & Hp & Hk)]; [apply Hl; by left|].
  rewrite bool_decide_false, Hp by done. cbn [of_option mbind res_bind]. rewrite Hk. cbn [mbind res_bind IsOK StatusOK].
  destruct (IH ({[n_index node]} ∪ ks)) as (ks' & -> & Hks); [intros; apply Hl; by right|]. exists ks'. split; [done|].
  intros z. rewrite Hks, fmap_cons, elem_of_cons. set_solver.
Qed.

(** The session that is built, as a run needs it. *)
Lemma build_session_ok sequential mem_pattern h :
  ∃ b plan w, build_session true GetExecutionProviderType providers CreateKernel g sequential mem_pattern h = Ok (StatusOK, Some b, w_heap w) ∧
    b_session b = mkSession (set_outer v [] (negb sequential)) (mg_max_node_index g) names ((fun e => (fst e, fst (snd e))) <$> initialized w) plan mem_pattern ∅ ∧
    GraphOk names (set_outer v [] (negb sequential)) ∧ CreatePlan names (set_outer v [] (negb sequential)) = Ok (StatusOK, plan) ∧
    (∀ z, z ∈ b_kernels b ↔ z ∈ n_index <$> g_nodes v) ∧
    (∀ n, b_inputs b !! n = mapped_entry GetExecutionProviderType (mg_all_inputs g) None (g_nodes v) n) ∧
    freed (w_heap w) = freed h ∧ (next_buffer h ≤ next_buffer (w_heap w))%nat ∧
    Forall2 (fun e x => ∃ t, x = (idx_of names e.1, (tensor_value t, msg_content e.2)) ∧ dtype_ t = GetType (data_type e.2) ∧ shape_ t = dims e.2 ∧
      alloc_info_ t = wloc names plan e ∧ new_memory h (w_heap w) e t) inits (initialized w).
Proof.
  pose proof (graph_wf_ok g (negb sequential) (io_graph HI)) as Hok. destruct (CreatePlan_safe _ _ Hok) as (plan & EP & HS).
  pose proof (built_weights_ok _ _ EP HS) as HW. destruct (weights_values _ _ _ _ HW mem_pattern h) as (w & Hw & Hf & Hn & Hv).
  unfold build_session, Initializer_CreatePlan. rewrite names_of_graph. cbn [List.filter]. rewrite EP. cbn [mbind res_bind IsOK StatusOK negb].
  unfold InitializeAndSave. rewrite Hw. cbn [mbind res_bind IsOK StatusOK negb]. unfold SaveKernels. cbn [g_nodes set_outer].
  destruct (SaveKernels_ok (g_nodes v) ∅) as (ks & -> & Hks); [done|]. cbn [mbind res_bind IsOK StatusOK negb].
  destruct (save_mapping_ok GetExecutionProviderType (mg_all_inputs g) (g_outputs (set_outer v [] (negb sequential))) None (g_nodes v)) as (ins & outs & -> & Hins).
  cbn [mbind res_bind]. eexists _, plan, w. split_and!; [done|done|done|done| |exact Hins|done|done|done].
  intros z. simpl. rewrite Hks. set_solver.
Qed.
End built.
