(* ===== verification/Session.v ===== *)
(** The session that users drive ([inference_session.cc]): registering
    providers, loading a model, initializing and running it, with the checks of
    inputs and outputs; and the bindings of [IOBinding.cc]. *)
From S2P Require Import Prelude TensorShape MemPattern AllocPlanner ExecutionFrame Devices TensorProto SessionInit.

(** An exception that a [catch] of the session tells apart. *)
Inductive Exception := NotImplementedException | StdException | OtherException.
(** What code of other parts does: a result, an error, or an exception. *)
Inductive Outcome (A : Type) :=
  | Gives (a : A)
  | Fails (code : StatusCode)
  | Raises (e : Exception).
Arguments Gives {A} a.
Arguments Fails {A} code.
Arguments Raises {A} e.

Section session.
Context {T : Type} `{!EqDecision T, !TensorTypes T, !ValueTypes T, !ElementTypes T}.
(** The calls that tell a provider that a run starts or ends. *)
Inductive RunEvent :=
  | OnRunStart (provider : string)
  | OnRunEnd (provider : string).

Record InferenceSession := mkInferenceSession {
  is_model_loaded_ : bool;
  is_inited_ : bool;
  model_ : option (MainGraph (T := T));
  required_input_def_list_ : list (NodeArg T);
  input_def_list_ : list (NodeArg T);
  output_def_list_ : list (NodeArg T);
  required_model_input_names_ : gset string;
  model_input_names_ : gset string;
  model_output_names_ : gset string;
  execution_providers_ : ExecutionProviders (T := T);
  session_state_ : option (Built (T := T));
  (** [Initialize] has failed on the model, and may have left parts of a state in
      [session_state_]. *)
  state_left_ : bool;
  current_num_runs_ : Z;
  run_events : list RunEvent;
}.

(** [current_num_runs_] is not initialized: it starts with any value. *)
Definition new_InferenceSession (runs : Z) : InferenceSession :=
  mkInferenceSession false false None [] [] [] ∅ ∅ ∅ (mkProviders [] ∅ []) None false runs [].

Definition set_providers (s : InferenceSession) (ps : ExecutionProviders (T := T)) : InferenceSession :=
  mkInferenceSession (is_model_loaded_ s) (is_inited_ s) (model_ s) (required_input_def_list_ s) (input_def_list_ s) (output_def_list_ s)
    (required_model_input_names_ s) (model_input_names_ s) (model_output_names_ s) ps (session_state_ s) (state_left_ s) (current_num_runs_ s) (run_events s).
Definition set_built (s : InferenceSession) (inited : bool) st : InferenceSession :=
  mkInferenceSession (is_model_loaded_ s) inited (model_ s) (required_input_def_list_ s) (input_def_list_ s) (output_def_list_ s)
    (required_model_input_names_ s) (model_input_names_ s) (model_output_names_ s) (execution_providers_ s) st (state_left_ s) (current_num_runs_ s) (run_events s).
Definition set_runs (s : InferenceSession) (n : Z) : InferenceSession :=
  mkInferenceSession (is_model_loaded_ s) (is_inited_ s) (model_ s) (required_input_def_list_ s) (input_def_list_ s) (output_def_list_ s)
    (required_model_input_names_ s) (model_input_names_ s) (model_output_names_ s) (execution_providers_ s) (session_state_ s) (state_left_ s) n (run_events s).
Definition set_events (s : InferenceSession) (l : list RunEvent) : InferenceSession :=
  mkInferenceSession (is_model_loaded_ s) (is_inited_ s) (model_ s) (required_input_def_list_ s) (input_def_list_ s) (output_def_list_ s)
    (required_model_input_names_ s) (model_input_names_ s) (model_output_names_ s) (execution_providers_ s) (session_state_ s)
    (state_left_ s) (current_num_runs_ s) l.

(** The graph of the model is changed in place. *)
Definition set_model (s : InferenceSession) (m : MainGraph (T := T)) : InferenceSession :=
  mkInferenceSession (is_model_loaded_ s) (is_inited_ s) (Some m) (required_input_def_list_ s) (input_def_list_ s) (output_def_list_ s)
    (required_model_input_names_ s) (model_input_names_ s) (model_output_names_ s) (execution_providers_ s) (session_state_ s)
    (state_left_ s) (current_num_runs_ s) (run_events s).
Definition set_left (s : InferenceSession) : InferenceSession :=
  mkInferenceSession (is_model_loaded_ s) (is_inited_ s) (model_ s) (required_input_def_list_ s) (input_def_list_ s) (output_def_list_ s)
    (required_model_input_names_ s) (model_input_names_ s) (model_output_names_ s) (execution_providers_ s) (session_state_ s)
    true (current_num_runs_ s) (run_events s).

(** ** Setting up *)

(** The status of [Add] is not looked at. *)
Definition RegisterExecutionProvider (s : InferenceSession) (p : option (IExecutionProvider (T := T))) : Status * InferenceSession :=
  match p with
  | None => (Some FAIL, s)
  | Some p => let '(_, ps) := providers_Add (execution_providers_ s) (provider_Type p) p in (StatusOK, set_providers s ps)
  end.

Definition arg_names (l : list (NodeArg T)) : gset string := list_to_set (na_name <$> l).
(** [DoPostLoadProcessing]: the inputs without and with the initializers, and the
    outputs, with their names. *)
Definition SaveModelMetadata (s : InferenceSession) (m : MainGraph (T := T)) : InferenceSession :=
  mkInferenceSession (is_model_loaded_ s) (is_inited_ s) (Some m)
    (required_input_def_list_ s ++ g_inputs (mg_view m)) (input_def_list_ s ++ mg_all_inputs m) (output_def_list_ s ++ g_outputs (mg_view m))
    (required_model_input_names_ s ∪ arg_names (g_inputs (mg_view m))) (model_input_names_ s ∪ arg_names (mg_all_inputs m))
    (model_output_names_ s ∪ arg_names (g_outputs (mg_view m)))
    (execution_providers_ s) (session_state_ s) (state_left_ s) (current_num_runs_ s) (run_events s).
Definition set_loaded (s : InferenceSession) : InferenceSession :=
  mkInferenceSession true (is_inited_ s) (model_ s) (required_input_def_list_ s) (input_def_list_ s) (output_def_list_ s)
    (required_model_input_names_ s) (model_input_names_ s) (model_output_names_ s) (execution_providers_ s) (session_state_ s)
    (state_left_ s) (current_num_runs_ s) (run_events s).
(** [Load] of a model file and of a [ModelProto]; [r] is what [Model::Load] does. *)
Definition Load (s : InferenceSession) (r : Outcome (MainGraph (T := T))) : Status * InferenceSession :=
  if is_model_loaded_ s then (Some MODEL_LOADED, s)
  else match r with
       | Raises OtherException => (Some RUNTIME_EXCEPTION, s)
       | Raises _ => (Some FAIL, s)
       | Fails code => (Some code, s)
       | Gives m => (StatusOK, set_loaded (SaveModelMetadata s m))
       end.
(** [Load] of a stream, which is parsed first. *)
Definition Load_istream (s : InferenceSession) (parsed : bool) (r : Outcome (MainGraph (T := T))) : Status * InferenceSession :=
  if is_model_loaded_ s then (Some MODEL_LOADED, s)
  else if negb parsed then (Some INVALID_PROTOBUF, s)
  else Load s r.

(** The settings of the session, what the transformers make of a graph before it
    is resolved, what they leave of it if they fail, and the status of the
    sessions of the subgraphs. *)
Context (little_endian enable_sequential_execution enable_memory_pattern : bool) (default_cpu : IExecutionProvider (T := T)).
Context (GetExecutionProviderType : Node T → string) (CreateKernel : Node T → IExecutionProvider (T := T) → Status).
Context (TransformAndResolve : MainGraph (T := T) → ExecutionProviders (T := T) → Outcome (MainGraph (T := T))).
Context (TransformLeaves : MainGraph (T := T) → ExecutionProviders (T := T) → MainGraph (T := T)).
Context (InitializeSubgraphSessions : Built (T := T) → Status).

Definition exception_status (e : Exception) : Status :=
  match e with NotImplementedException => Some NOT_IMPLEMENTED | StdException => Some FAIL | OtherException => Some RUNTIME_EXCEPTION end.

(** Whether building the state comes as far as [CleanAllInitializedTensors]: the
    plan is made and the weights are saved. *)
Definition weights_cleaned (ps : ExecutionProviders (T := T)) (g : MainGraph (T := T)) (h : Heap) : bool :=
  match Initializer_CreatePlan g [] enable_sequential_execution new_MLValueNameIdxMap with
  | Ok (None, (names, view, plan)) =>
      match SaveInitializedTensors little_endian ps names plan enable_memory_pattern (mg_initializers g) (mkWeights [] [] h) with
      | Ok (None, _) => true
      | _ => false
      end
  | _ => false
  end.

(** [Initialize] on a session whose state is empty, that is, unless an earlier
    call has failed and may have left parts of one behind ([state_left_]). The transformers and
    [CleanAllInitializedTensors] change the graph of the model in place. What an
    exception leaves in memory is not modelled. *)
Definition Session_Initialize (s : InferenceSession) (h : Heap) : res (Status * InferenceSession * Heap) :=
  if negb (is_model_loaded_ s) then Ok (Some FAIL, s, h)
  else if is_inited_ s then Ok (StatusOK, s, h)
  else
    let s := match Get_by_type (execution_providers_ s) kCpuExecutionProvider with
             | Some _ => s
             | None => set_providers s (snd (providers_Add (execution_providers_ s) kCpuExecutionProvider default_cpu))
             end in
    model ← of_option UndefinedBehaviour (model_ s);
    match TransformAndResolve model (execution_providers_ s) with
    | Raises e => Ok (exception_status e, set_left (set_model s (TransformLeaves model (execution_providers_ s))), h)
    | Fails code => Ok (Some code, set_left (set_model s (TransformLeaves model (execution_providers_ s))), h)
    | Gives graph =>
        let s := set_model s (if weights_cleaned (execution_providers_ s) graph h then CleanAllInitializedTensors graph else graph) in
        match build_session little_endian GetExecutionProviderType (execution_providers_ s) CreateKernel graph
                enable_sequential_execution enable_memory_pattern h with
        | Throw UndefinedBehaviour => Throw UndefinedBehaviour
        | OutOfFuel => OutOfFuel
        | Throw EnforceFailed => Ok (exception_status StdException, set_left s, h)
        | Ok (None, Some b, h) =>
            let status := InitializeSubgraphSessions b in
            if IsOK status then Ok (status, set_built s true (Some b), h) else Ok (status, set_left s, h)
        | Ok (status, _, h) => Ok (status, set_left s, h)
        end
    end.

Definition GetModelInputs (s : InferenceSession) : Status * list (NodeArg T) :=
  if negb (is_model_loaded_ s) then (Some FAIL, []) else (StatusOK, required_input_def_list_ s).
Definition GetModelOutputs (s : InferenceSession) : Status * list (NodeArg T) :=
  if negb (is_model_loaded_ s) then (Some FAIL, []) else (StatusOK, output_def_list_ s).

(** ** Checks before a run *)

(** [typeid] of a null type throws. *)
Definition CheckTypes (actual : option T) (expected : T) : res Status :=
  match actual with
  | None => Throw EnforceFailed
  | Some t => Ok (if bool_decide (t = expected) then StatusOK else Some INVALID_ARGUMENT)
  end.
Definition feed_of (feeds : list (string * MLValue T)) (name : string) : option (MLValue T) :=
  snd <$> (snd <$> list_find (fun e => fst e = name) feeds).

(** One input of the model. For a tensor, [AsTensorType] of the expected type is
    dereferenced. *)
Definition validate_type (feeds : list (string * MLValue T)) (s : Status) (arg : NodeArg T) : res Status :=
  if negb (IsOK s) then Ok s
  else if bool_decide (na_name arg = ""%string) then Ok s
  else match feed_of feeds (na_name arg) with
       | None => Ok s
       | Some v =>
           match data_ v with
           | Some (TensorObject t) => if has_tensor_type (na_type arg) then CheckTypes (Some (dtype_ t)) (GetElementType (na_type arg)) else Throw UndefinedBehaviour
           | Some (OtherObject type) => CheckTypes (Some type) (na_type arg)
           | None => CheckTypes None (na_type arg)
           end
       end.
Definition ValidateInputTypes (s : InferenceSession) (feeds : list (string * MLValue T)) : res Status :=
  foldM (validate_type feeds) StatusOK (input_def_list_ s).
(** The names that are missing, separated by commas; nothing is missing if the
    text is empty. *)
Definition missing_required_inputs (s : InferenceSession) (feeds : list (string * MLValue T)) : string :=
  foldl (fun missing required_input =>
      if bool_decide (required_input ∈ feeds.*1) then missing
      else ((if bool_decide (missing = "") then missing else missing ++ ",") ++ required_input)%string)
    ""%string (elements (required_model_input_names_ s)).
Definition ValidateInputNames (s : InferenceSession) (feeds : list (string * MLValue T)) : Status :=
  if negb (bool_decide (missing_required_inputs s feeds = ""%string)) then Some INVALID_ARGUMENT
  else if negb (forallb (fun e => bool_decide (fst e ∈ model_input_names_ s)) feeds) then Some INVALID_ARGUMENT
  else StatusOK.
Definition ValidateInputs (s : InferenceSession) (feeds : list (string * MLValue T)) : res Status :=
  match ValidateInputNames s feeds with
  | Some code => Ok (Some code)
  | None => ValidateInputTypes s feeds
  end.
Definition ValidateOutputs (s : InferenceSession) (output_names : list string) (p_fetches : option (list (MLValue T))) : Status :=
  match p_fetches with
  | None => Some INVALID_ARGUMENT
  | Some fetches =>
      if bool_decide (output_names = []) then Some INVALID_ARGUMENT
      else if negb (bool_decide (fetches = [])) && negb (length output_names =? length fetches)%nat then Some INVALID_ARGUMENT
      else if negb (forallb (fun n => bool_decide (n ∈ model_output_names_ s)) output_names) then Some INVALID_ARGUMENT
      else StatusOK
  end.

(** ** Runs *)

Context (CreateFence : OrtAllocatorInfo → option nat).
Context (kernel : Z → list (option (MLValue T)) → Status * list (Z * TensorShape)).
(** [OnRunStart] and [OnRunEnd] of the providers. *)
Context (run_start run_end : IExecutionProvider (T := T) → Status).

(** [ORT_CHECK_AND_SET_RETVAL] over the providers. *)
Definition notify_providers (call : IExecutionProvider (T := T) → Status) (event : string → RunEvent)
    (acc : Status * InferenceSession) (p : IExecutionProvider (T := T)) : Status * InferenceSession :=
  let '(retval, s) := acc in
  if IsOK retval then (call p, set_events s (run_events s ++ [event (provider_Type p)])) else acc.

(** The end of [Run], after the [try] block. *)
Definition end_run (acc : Status * InferenceSession) : Status * InferenceSession :=
  let '(retval, s) := foldl (notify_providers run_end OnRunEnd) acc (exec_providers_ (execution_providers_ (snd acc))) in
  (retval, set_runs s (current_num_runs_ s - 1)).

(** [Run] with sequential execution: the status, the fetches, the session and the
    memory. What an exception of the executor leaves in memory is not modelled. *)
Definition Run (s : InferenceSession) (terminate : nat → bool) (h : Heap) (feeds : list (string * MLValue T))
    (output_names : list string) (p_fetches : option (list (MLValue T))) :
    res (Status * option (list (MLValue T)) * InferenceSession * Heap) :=
  let retval := if is_inited_ s then StatusOK else Some FAIL in
  match (if IsOK retval then ValidateInputs s feeds else Ok retval) with
  | Throw UndefinedBehaviour => Throw UndefinedBehaviour
  | OutOfFuel => OutOfFuel
  | Throw EnforceFailed => let '(retval, s) := end_run (Some FAIL, s) in Ok (retval, p_fetches, s, h)
  | Ok retval =>
      let retval := if IsOK retval then ValidateOutputs s output_names p_fetches else retval in
      let s := set_runs s (current_num_runs_ s + 1) in
      let '(retval, s) := foldl (notify_providers run_start OnRunStart) (retval, s) (exec_providers_ (execution_providers_ s)) in
      match retval, session_state_ s, p_fetches with
      | None, Some b, Some fetches =>
          match ExecuteGraph GetExecutionProviderType (execution_providers_ s) CreateFence (b_session b) kernel (b_inputs b) terminate h feeds output_names fetches with
          | Throw UndefinedBehaviour => Throw UndefinedBehaviour
          | OutOfFuel => OutOfFuel
          | Throw EnforceFailed => let '(retval, s) := end_run (Some FAIL, s) in Ok (retval, p_fetches, s, h)
          | Ok (retval, fetches, state, h) =>
              let '(retval, s) := end_run (retval, set_built s (is_inited_ s) (Some (mkBuilt state (b_kernels b) (b_inputs b) (b_outputs b) (b_weights b)))) in
              Ok (retval, Some fetches, s, h)
          end
      | None, _, _ => Throw UndefinedBehaviour
      | Some _, _, _ => let '(retval, s) := end_run (retval, s) in Ok (retval, p_fetches, s, h)
      end
  end.

(** ** Bindings *)

Record IOBinding := mkIOBinding {
  feeds_ : list (string * MLValue T);
  output_names_ : list string;
  outputs_ : list (MLValue T);
}.
Definition NewIOBinding (s : InferenceSession) : Status * option IOBinding :=
  if is_inited_ s then (StatusOK, Some (mkIOBinding [] [] [])) else (Some FAIL, None).
(** [feeds_[name] = v], where the value that was there goes. *)
Definition bind_feed (b : IOBinding) (h : Heap) (name : string) (v : MLValue T) : res (Status * IOBinding * Heap) :=
  h ← match feed_of (feeds_ b) name with Some old => replace_value h old v | None => Ok h end;
  Ok (StatusOK, mkIOBinding (filter (fun e => fst e ≠ name) (feeds_ b) ++ [(name, v)]) (output_names_ b) (outputs_ b), h).
Definition BindInput (providers : ExecutionProviders (T := T)) (input_map : gmap string (list (NodeInfo (T := T)))) (b : IOBinding) (h : Heap)
    (name : string) (v : MLValue T) : res (Status * IOBinding * Heap) :=
  if negb (IsTensor v) then bind_feed b h name (share v)
  else
    '(s, new_mlvalue, h) ← CopyOneInputAcrossDevices GetExecutionProviderType providers input_map h name v;
    if negb (IsOK s) then h ← drop_value h new_mlvalue; Ok (s, b, h)
    else bind_feed b h name new_mlvalue.
Definition BindOutput (b : IOBinding) (h : Heap) (name : string) (v : MLValue T) : res (Status * IOBinding * Heap) :=
  match Contains (output_names_ b) name with
  | Some i =>
      old ← of_option UndefinedBehaviour (outputs_ b !! i);
      h ← replace_value h old (share v);
      Ok (StatusOK, mkIOBinding (feeds_ b) (output_names_ b) (<[i := share v]> (outputs_ b)), h)
  | None => Ok (StatusOK, mkIOBinding (feeds_ b) (output_names_ b ++ [name]) (outputs_ b ++ [share v]), h)
  end.
(** The providers that a mapping names; every entry is dereferenced. *)
Definition sync_set (node_info_map : gmap string (list (NodeInfo (T := T)))) : res (gset string) :=
  foldM (fun providers info =>
      node ← of_option UndefinedBehaviour (p_node info);
      Ok (if bool_decide (GetExecutionProviderType node = kCpuExecutionProvider) then providers
          else {[GetExecutionProviderType node]} ∪ providers))
    ∅ ((map_to_list node_info_map).*2 ≫= id).
Definition SyncProviders (Sync : IExecutionProvider (T := T) → Status) (providers : ExecutionProviders (T := T))
    (node_info_map : gmap string (list (NodeInfo (T := T)))) : res Status :=
  types ← sync_set node_info_map;
  Ok (foldl (fun s type => if IsOK s then match Get_by_type providers type with Some p => Sync p | None => s end else s) StatusOK (elements types)).
Definition SynchronizeInputs (Sync : IExecutionProvider (T := T) → Status) (providers : ExecutionProviders (T := T)) (b : Built (T := T)) : res Status :=
  SyncProviders Sync providers (b_inputs b).
Definition SynchronizeOutputs (Sync : IExecutionProvider (T := T) → Status) (providers : ExecutionProviders (T := T)) (b : Built (T := T)) : res Status :=
  SyncProviders Sync providers (b_outputs b).
Definition Run_binding (s : InferenceSession) (terminate : nat → bool) (h : Heap) (b : IOBinding) :
    res (Status * IOBinding * InferenceSession * Heap) :=
  '(retval, fetches, s, h) ← Run s terminate h (feeds_ b) (output_names_ b) (Some (outputs_ b));
  Ok (retval, mkIOBinding (feeds_ b) (output_names_ b) (default (outputs_ b) fetches), s, h).
End session.
