(* ===== verification/SessionProps.v ===== *)
(** The session of the user: its life cycle, what [Run] refuses, and a run from the
    loaded model to the fetched values. *)
From S2P Require Import Prelude DataTypes TensorShape MemPattern AllocPlanner AllocPlannerInv AllocPlannerProps SafePlan ExecutionFrame ExecutionInv ExecutionSteps ExecutionInit ExecutionProps Devices DevicesProps TensorProto TensorProtoProps SessionInit WeightsInv WeightsProps SessionInitProps Session.

(** ** The state that a run leaves *)

Definition same_but_cache {T} (s s' : SessionState T) : Prop :=
  s' = mkSession (graph_viewer_ s) (max_node_index s) (mlvalue_name_idx_map_ s) (initialized_tensors_ s) (p_seq_exec_plan_ s) (enable_mem_pattern_ s)
         (mem_pattern_cache_ s').
Lemma same_refl {T} (s : SessionState T) : same_but_cache s s.
Proof. by destruct s. Qed.
Lemma same_update {T} (s : SessionState T) shapes grp : same_but_cache s (UpdateMemoryPatternGroupCache s shapes grp).
Proof. unfold UpdateMemoryPatternGroupCache. case_match; [apply same_refl|done]. Qed.
Lemma Execute_session {T} `{!TensorTypes T, !ValueTypes T} CreateFence (session : SessionState T) kernel terminate h feeds names fetches s out session' h' :
  Execute CreateFence session kernel terminate h feeds names fetches = Ok (s, out, session', h') → same_but_cache session session'.
Proof.
  unfold Execute. intros (f & _ & ([s1 f1] & _ & ([[[s2 out2] se2] f2] & H & (h2 & _ & [= _ _ <- _])%bind_Ok)%bind_Ok)%bind_Ok)%bind_Ok.
  destruct (negb (IsOK s1)); [injection H as _ _ <- _; apply same_refl|]. apply bind_Ok in H as ([[s3 out3] f3] & _ & H).
  repeat (case_match; try (injection H as _ _ <- _; first [apply same_refl|apply same_update])).
Qed.
Lemma ExecuteGraph_session {T} `{!TensorTypes T, !ValueTypes T} GetEP providers CreateFence (session : SessionState T) kernel m terminate h feeds names fetches s out session' h' :
  ExecuteGraph GetEP providers CreateFence session kernel m terminate h feeds names fetches = Ok (s, out, session', h') → same_but_cache session session'.
Proof.
  unfold ExecuteGraph. intros ([[s1 df] h1] & _ & ([[[s2 out2] se2] h2] & H & (h3 & _ & [= _ _ <- _])%bind_Ok)%bind_Ok)%bind_Ok.
  destruct (negb (IsOK s1)); [injection H as _ _ <- _; apply same_refl|]. apply bind_Ok in H as ([[s3 fe] de] & _ & H).
  destruct (negb (IsOK s3)); [injection H as _ _ <- _; apply same_refl|]. apply bind_Ok in H as ([[[s4 de4] se4] h4] & HE & H).
  apply Execute_session in HE. destruct (negb (IsOK s4)).
  - apply bind_Ok in H as (h5 & _ & [= _ _ <- _]). done.
  - apply bind_Ok in H as ([[s5 fe5] h5] & _ & [= _ _ <- _]). done.
Qed.

Section session.
Context {T : Type} `{!EqDecision T, !TensorTypes T, !ValueTypes T, !ElementTypes T}.
Implicit Types (s : InferenceSession (T := T)) (feeds : list (string * MLValue T)) (h : Heap).

(** ** Checks *)

Lemma string_app_empty (a b : string) : (a ++ b = "")%string ↔ a = ""%string ∧ b = ""%string.
Proof. destruct a; simpl; naive_solver. Qed.
(** Required names that are not empty and are not fed. *)
Definition missing s feeds : Prop := ∃ n, n ∈ required_model_input_names_ s ∧ n ∉ feeds.*1 ∧ n ≠ ""%string.
Lemma missing_text s feeds : missing_required_inputs s feeds = ""%string ↔ ¬ missing s feeds.
Proof.
  unfold missing_required_inputs, missing.
  assert (H : ∀ l acc, foldl (fun missing required_input =>
      if bool_decide (required_input ∈ feeds.*1) then missing
      else ((if bool_decide (missing = "") then missing else missing ++ ",") ++ required_input)%string) acc l = ""%string ↔
    acc = ""%string ∧ ∀ n, n ∈ l → n ∈ feeds.*1 ∨ n = ""%string).
  { induction l as [|n l IH]; intros acc; simpl; [set_solver|]. rewrite IH. case_bool_decide; [set_solver|].
    case_bool_decide as Ha; rewrite !string_app_empty; [set_solver|]. split; [naive_solver|]. intros [-> _]. done. }
  rewrite H. setoid_rewrite elem_of_elements. split.
  - intros [_ Hn] (n & Hin & Hf & Hne). destruct (Hn n Hin); done.
  - intros Hn. split; [done|]. intros n Hin. destruct (decide (n ∈ feeds.*1)); [by left|]. right.
    destruct (decide (n = ""%string)); [done|]. exfalso. apply Hn. eauto.
Qed.
Definition unknown_input s feeds : Prop := ∃ e, e ∈ feeds ∧ e.1 ∉ model_input_names_ s.
Lemma ValidateInputNames_ok s feeds : ¬ missing s feeds → ¬ unknown_input s feeds → ValidateInputNames s feeds = StatusOK.
Proof.
  intros Hm Hu. unfold ValidateInputNames. rewrite bool_decide_true by (by apply missing_text). simpl.
  destruct (forallb _ feeds) eqn:E; [done|]. exfalso. apply not_true_iff_false in E. rewrite forallb_forall in E.
  apply E. intros e He%list_elem_of_In. apply bool_decide_eq_true. apply dec_stable. intros H. apply Hu. by exists e.
Qed.
Lemma ValidateInputNames_fails s feeds : missing s feeds ∨ unknown_input s feeds → ValidateInputNames s feeds = Some INVALID_ARGUMENT.
Proof.
  intros H. unfold ValidateInputNames. case_bool_decide as E; [|done]. apply missing_text in E. destruct H as [?|(e & He & Hn)]; [done|].
  simpl. destruct (forallb _ feeds) eqn:F; [|done]. rewrite forallb_forall in F. apply list_elem_of_In, F in He. by apply bool_decide_eq_true in He.
Qed.

(** The types: each feed of a model input is there, and a tensor is fed only for a
    tensor; [wrong_type] is a feed of another type. *)
Definition typed_feed feeds (arg : NodeArg T) : option (MLValue T) := if bool_decide (na_name arg = ""%string) then None else feed_of feeds (na_name arg).
Definition has_type (x : MLValue T) (t : T) : Prop :=
  match data_ x with Some (TensorObject u) => dtype_ u = GetElementType t | Some (OtherObject t') => t' = t | None => False end.
Definition checkable (x : MLValue T) (t : T) : Prop :=
  match data_ x with Some (TensorObject _) => has_tensor_type t = true | Some (OtherObject _) => True | None => False end.
#[local] Instance has_type_dec x t : Decision (has_type x t).
Proof. unfold has_type. repeat case_match; apply _. Defined.
Definition feeds_checkable s feeds : Prop := ∀ arg x, arg ∈ input_def_list_ s → typed_feed feeds arg = Some x → checkable x (na_type arg).
Definition wrong_type s feeds : Prop := ∃ arg x, arg ∈ input_def_list_ s ∧ typed_feed feeds arg = Some x ∧ ¬ has_type x (na_type arg).

Lemma validate_type_step feeds arg :
  validate_type feeds StatusOK arg =
    match typed_feed feeds arg with
    | None => Ok StatusOK
    | Some x => match data_ x with
        | Some (TensorObject t) => if has_tensor_type (na_type arg) then CheckTypes (Some (dtype_ t)) (GetElementType (na_type arg)) else Throw UndefinedBehaviour
        | Some (OtherObject type) => CheckTypes (Some type) (na_type arg)
        | None => CheckTypes None (na_type arg)
        end
    end.
Proof. unfold validate_type, typed_feed. cbn [IsOK StatusOK negb]. case_bool_decide; [done|]. done. Qed.
Lemma validate_type_checkable feeds arg x :
  typed_feed feeds arg = Some x → checkable x (na_type arg) →
  validate_type feeds StatusOK arg = Ok (if decide (has_type x (na_type arg)) then StatusOK else Some INVALID_ARGUMENT).
Proof.
  intros Ht Hc. rewrite validate_type_step, Ht. unfold checkable in Hc. case_decide as Hh; unfold has_type in Hh;
    (destruct (data_ x) as [[t|t']|]; [rewrite Hc| |done]); unfold CheckTypes; by case_bool_decide.
Qed.
Lemma validate_types_error feeds c l : foldM (validate_type feeds) (Some c) l = Ok (Some c).
Proof. induction l as [|a l IH]; simpl; [done|]. apply IH. Qed.
Lemma ValidateInputTypes_ok s feeds :
  feeds_checkable s feeds → ValidateInputTypes s feeds = Ok StatusOK ∧ ¬ wrong_type s feeds ∨ ValidateInputTypes s feeds = Ok (Some INVALID_ARGUMENT) ∧ wrong_type s feeds.
Proof.
  unfold feeds_checkable, wrong_type, ValidateInputTypes. induction (input_def_list_ s) as [|a l IH]; intros Hc.
  { left. split; [done|]. by intros (? & ? & ?%not_elem_of_nil & _). }
  cbn [foldM]. destruct (typed_feed feeds a) as [x|] eqn:Ex.
  - rewrite (validate_type_checkable _ _ _ Ex) by (apply Hc; [by left|done]). cbn [mbind res_bind]. case_decide as Ht.
    + destruct IH as [[-> Hn]|[-> (b & y & Hb & ?)]]; [intros b y Hb; apply Hc; by right| |].
      * left. split; [done|]. intros (b & y & [->|Hb]%elem_of_cons & Hy & Hny); [congruence|]. apply Hn. eauto.
      * right. split; [done|]. exists b, y. split; [by right|done].
    + rewrite validate_types_error. right. split; [done|]. exists a, x. split_and!; [by left|done|done].
  - rewrite validate_type_step, Ex. cbn [mbind res_bind]. destruct IH as [[-> Hn]|[-> (b & y & Hb & ?)]]; [intros b y Hb; apply Hc; by right| |].
    + left. split; [done|]. intros (b & y & [->|Hb]%elem_of_cons & Hy & Hny); [congruence|]. apply Hn. eauto.
    + right. split; [done|]. exists b, y. split; [by right|done].
Qed.

(** The request for outputs. *)
Definition bad_outputs s (output_names : list string) (p_fetches : option (list (MLValue T))) : Prop :=
  output_names = [] ∨ (∃ n, n ∈ output_names ∧ n ∉ model_output_names_ s) ∨
  match p_fetches with None => True | Some fetches => fetches ≠ [] ∧ length fetches ≠ length output_names end.
Lemma ValidateOutputs_cases s output_names p_fetches :
  ValidateOutputs s output_names p_fetches = StatusOK ∧ ¬ bad_outputs s output_names p_fetches ∨
  ValidateOutputs s output_names p_fetches = Some INVALID_ARGUMENT ∧ bad_outputs s output_names p_fetches.
Proof.
  unfold ValidateOutputs, bad_outputs. destruct p_fetches as [fetches|]; [|by right; auto]. case_bool_decide as E1; [right; auto|].
  destruct (negb _ && _) eqn:E2.
  - right. split; [done|]. right. right. apply andb_true_iff in E2 as [E2 E3]. rewrite negb_true_iff, bool_decide_eq_false in E2.
    rewrite negb_true_iff, Nat.eqb_neq in E3. done.
  - assert (Hf : ¬ (fetches ≠ [] ∧ length fetches ≠ length output_names)).
    { intros [H1 H2]. rewrite andb_false_iff, !negb_false_iff, bool_decide_eq_true, Nat.eqb_eq in E2. destruct E2; congruence. }
    destruct (forallb _ output_names) eqn:E3; simpl.
    + left. split; [done|]. rewrite forallb_forall in E3. intros [?|[(n & Hn%list_elem_of_In & Hm)|?]]; [done| |done].
      apply E3 in Hn. by apply bool_decide_eq_true in Hn.
    + right. split; [done|]. right. left. apply not_true_iff_false in E3.
      destruct (decide (Exists (fun n => n ∉ model_output_names_ s) output_names)) as [He|He]; [by apply Exists_exists in He|].
      destruct E3. apply forallb_forall. intros n Hn%list_elem_of_In. apply bool_decide_eq_true. apply dec_stable. intros H. apply He, Exists_exists. eauto.
Qed.
End session.

Section run.
Context {T : Type} `{!EqDecision T, !TensorTypes T, !ValueTypes T, !ElementTypes T}.
Context (GetExecutionProviderType : Node T → string) (CreateFence : OrtAllocatorInfo → option nat).
Context (kernel : Z → list (option (MLValue T)) → Status * list (Z * TensorShape)).
Context (run_start run_end : IExecutionProvider (T := T) → Status).
Abbreviation Run := (Run GetExecutionProviderType CreateFence kernel run_start run_end).
Implicit Types (s : InferenceSession (T := T)) (feeds : list (string * MLValue T)) (h : Heap).

(** ** Refused runs *)

Lemma notify_error (call : IExecutionProvider (T := T) → Status) event c s l : foldl (notify_providers call event) (Some c, s) l = (Some c, s).
Proof. induction l; simpl; [done|]. done. Qed.
Lemma notify_ok (call : IExecutionProvider (T := T) → Status) event s l :
  (∀ p, p ∈ l → call p = StatusOK) →
  foldl (notify_providers call event) (StatusOK, s) l = (StatusOK, set_events s (run_events s ++ ((fun p => event (provider_Type p)) <$> l))).
Proof.
  revert s. induction l as [|p l IH]; intros s Hl; [rewrite app_nil_r; by destruct s|]. cbn [foldl]. unfold notify_providers at 2. cbn [IsOK StatusOK].
  rewrite (Hl p) by (by left). rewrite IH by (intros; apply Hl; by right). f_equal. rewrite fmap_cons. unfold set_events. cbn. by rewrite <- app_assoc.
Qed.
Lemma end_run_error c s : end_run run_end (Some c, s) = (Some c, set_runs s (current_num_runs_ s - 1)).
Proof. unfold end_run. by rewrite notify_error. Qed.
Lemma count_back s : set_runs (set_runs s (current_num_runs_ s + 1)) (current_num_runs_ (set_runs s (current_num_runs_ s + 1)) - 1) = s.
Proof. destruct s. unfold set_runs. simpl. f_equal. lia. Qed.

(** A status that is not OK before the executor starts. *)
Lemma run_stops s terminate h feeds output_names p_fetches r c :
  (if IsOK (if is_inited_ s then StatusOK else Some FAIL) then ValidateInputs s feeds else Ok (if is_inited_ s then StatusOK else Some FAIL)) = Ok r →
  (if IsOK r then ValidateOutputs s output_names p_fetches else r) = Some c →
  Run s terminate h feeds output_names p_fetches = Ok (Some c, p_fetches, s, h).
Proof.
  intros H1 H2. unfold Session.Run. rewrite H1, H2, notify_error, end_run_error, count_back. done.
Qed.

(** C35. A run that cannot be made is refused before anything happens: without
    [Initialize] with the status FAIL; with INVALID_ARGUMENT if a required input is
    missing or an input is not one of the model; and, where every feed holds a
    value and no tensor is fed to an input that is none ([feeds_checkable]; see
    [unchecked_feeds]), if a feed has another type or the outputs asked for are
    none, unknown or not as many as the places for them.  The session, the places for the outputs and the memory stay as they were, and
    no provider is told of a run. Otherwise the checks pass. *)
Theorem run_refuses s terminate h feeds output_names p_fetches :
  (is_inited_ s = false → Run s terminate h feeds output_names p_fetches = Ok (Some FAIL, p_fetches, s, h)) ∧
  (is_inited_ s = true → missing s feeds ∨ unknown_input s feeds →
     Run s terminate h feeds output_names p_fetches = Ok (Some INVALID_ARGUMENT, p_fetches, s, h)) ∧
  (is_inited_ s = true → feeds_checkable s feeds → wrong_type s feeds ∨ bad_outputs s output_names p_fetches →
     Run s terminate h feeds output_names p_fetches = Ok (Some INVALID_ARGUMENT, p_fetches, s, h)) ∧
  (feeds_checkable s feeds → ¬ missing s feeds → ¬ unknown_input s feeds → ¬ wrong_type s feeds → ¬ bad_outputs s output_names p_fetches →
     ValidateInputs s feeds = Ok StatusOK ∧ ValidateOutputs s output_names p_fetches = StatusOK).
Proof.
  split_and!.
  - intros Hi. apply run_stops with (Some FAIL); [by rewrite Hi|done].
  - intros Hi H. apply run_stops with (Some INVALID_ARGUMENT); [|done]. rewrite Hi. cbn [IsOK StatusOK]. unfold ValidateInputs.
    by rewrite ValidateInputNames_fails.
  - intros Hi Hc H. destruct (ValidateInputNames s feeds) as [c|] eqn:En.
    + assert (c = INVALID_ARGUMENT) as -> by (unfold ValidateInputNames in En; repeat case_match; by simplify_eq).
      apply run_stops with (Some INVALID_ARGUMENT); [|done]. rewrite Hi. cbn [IsOK StatusOK]. unfold ValidateInputs. by rewrite En.
    + assert (Hv : ValidateInputs s feeds = ValidateInputTypes s feeds) by (unfold ValidateInputs; by rewrite En).
      destruct (ValidateInputTypes_ok s feeds Hc) as [[E Hn]|[E _]].
      * apply run_stops with StatusOK; [rewrite Hi; cbn [IsOK StatusOK]; by rewrite Hv|]. cbn [IsOK StatusOK].
        destruct (ValidateOutputs_cases s output_names p_fetches) as [[_ Hb]|[-> _]]; [|done]. by destruct H.
      * apply run_stops with (Some INVALID_ARGUMENT); [|done]. rewrite Hi. cbn [IsOK StatusOK]. by rewrite Hv.
  - intros Hc Hm Hu Hw Hb. unfold ValidateInputs. rewrite ValidateInputNames_ok by done.
    destruct (ValidateInputTypes_ok s feeds Hc) as [[-> _]|[_ ?]]; [|done].
    by destruct (ValidateOutputs_cases s output_names p_fetches) as [[-> _]|[_ ?]].
Qed.

(** Two feeds that the checks of the types do not expect. A value that is not
    allocated: comparing its type throws before the run is counted, and the end
    of the run is counted all the same, so [GetCurrentNumRuns] is one too low from
    then on. A tensor for an input that is not a tensor: a null pointer is
    dereferenced. *)
Theorem unchecked_feeds s terminate h feeds output_names p_fetches arg rest x :
  is_inited_ s = true → ¬ missing s feeds → ¬ unknown_input s feeds → input_def_list_ s = arg :: rest → typed_feed feeds arg = Some x →
  (data_ x = None → Run s terminate h feeds output_names p_fetches = Ok (Some FAIL, p_fetches, set_runs s (current_num_runs_ s - 1), h)) ∧
  (∀ t, data_ x = Some (TensorObject t) → has_tensor_type (na_type arg) = false →
     Run s terminate h feeds output_names p_fetches = Throw UndefinedBehaviour).
Proof.
  intros Hi Hm Hu Hl Hx. assert (Hv : ValidateInputs s feeds = (s' ← validate_type feeds StatusOK arg; foldM (validate_type feeds) s' rest)).
  { unfold ValidateInputs, ValidateInputTypes. rewrite ValidateInputNames_ok, Hl by done. done. }
  unfold Session.Run. rewrite Hi. cbn [IsOK StatusOK]. rewrite Hv, validate_type_step, Hx. split.
  - intros ->. cbn [CheckTypes mbind res_bind]. by rewrite end_run_error.
  - intros t -> ->. done.
Qed.

(** ** Sessions that are ready to run *)

Context (out_shape : nat → TensorShape) (bytes : nat → Z).

(** The session after [Initialize], on the CPU: the state of the session can run;
    its inputs and outputs are those that the user sees; what is there before the
    first node is a required input or a weight, and the weights are in memory. An
    output that is not itself an input can be fetched. *)
Record Ready (cpu : IExecutionProvider (T := T)) (b : Built (T := T)) s h : Prop := {
  rd_inited : is_inited_ s = true;
  rd_built : session_state_ s = Some b;
  rd_run : RunOk (b_session b) kernel out_shape bytes;
  rd_cpu : CpuOnly (b_session b) GetExecutionProviderType (execution_providers_ s) cpu;
  rd_mapping : ∀ n, b_inputs b !! n =
    mapped_entry GetExecutionProviderType (input_def_list_ s) None (g_nodes (graph_viewer_ (b_session b))) n;
  rd_topo : ∀ node, node ∈ g_nodes (graph_viewer_ (b_session b)) → node ∈ g_topo (graph_viewer_ (b_session b));
  rd_required : required_model_input_names_ s = arg_names (required_input_def_list_ s);
  rd_inputs : model_input_names_ s = arg_names (input_def_list_ s);
  rd_outputs : model_output_names_ s = arg_names (output_def_list_ s);
  rd_known : ∀ arg, arg ∈ input_def_list_ s → ∃ v, name_map_ (mlvalue_name_idx_map_ (b_session b)) !! na_name arg = Some v ∧
    v ∈ defs0 (mlvalue_name_idx_map_ (b_session b)) (graph_viewer_ (b_session b));
  rd_given : ∀ v, v ∈ defs0 (mlvalue_name_idx_map_ (b_session b)) (graph_viewer_ (b_session b)) →
    (∃ arg, arg ∈ required_input_def_list_ s ∧ name_map_ (mlvalue_name_idx_map_ (b_session b)) !! na_name arg = Some v) ∨
    ∃ x, (v, x) ∈ initialized_tensors_ (b_session b);
  rd_weights : ∀ v x, (v, x) ∈ initialized_tensors_ (b_session b) →
    v ∈ defs0 (mlvalue_name_idx_map_ (b_session b)) (graph_viewer_ (b_session b)) ∧ value_ok out_shape h v x;
  rd_fetch : ∀ arg, arg ∈ output_def_list_ s → na_name arg ∉ na_name <$> required_input_def_list_ s → fetchable (b_session b) (na_name arg);
  rd_heap : ∀ a, a ∈ freed h → (a < next_buffer h)%nat;
}.

(** Feeds that fit: one for each required input, each for an input of the model,
    a live tensor of its type and of the shape of this run, in CPU memory. *)
Record FeedsFit (b : Built (T := T)) s h feeds : Prop := {
  ff_required : ∀ arg, arg ∈ required_input_def_list_ s → na_name arg ∈ feeds.*1;
  ff_known : ∀ n x, (n, x) ∈ feeds → n ∈ na_name <$> input_def_list_ s;
  ff_value : ∀ arg x, arg ∈ input_def_list_ s → (na_name arg, x) ∈ feeds →
    has_tensor_type (na_type arg) = true ∧ ∃ t v, data_ x = Some (TensorObject t) ∧ dtype_ t = GetElementType (na_type arg) ∧
      name_map_ (mlvalue_name_idx_map_ (b_session b)) !! na_name arg = Some v ∧ shape_ t = out_shape v ∧ live h (p_data_ t) = true ∧
      (i_mem_type (alloc_info_ t) = OrtMemTypeDefault ∨ i_mem_type (alloc_info_ t) = OrtMemTypeCPUOutput);
}.

Lemma elem_of_arg_names (l : list (NodeArg T)) n : n ∈ arg_names l ↔ n ∈ na_name <$> l.
Proof. unfold arg_names. by rewrite elem_of_list_to_set. Qed.
Lemma typed_feed_elem feeds arg x : typed_feed feeds arg = Some x → (na_name arg, x) ∈ feeds.
Proof.
  unfold typed_feed, feed_of. case_bool_decide; [done|]. destruct (list_find _ feeds) as [[i [n y]]|] eqn:E; [|done]. cbn. intros [= ->].
  apply list_find_Some in E as (Hi & Hn & _). cbn in Hn. subst n. by eapply list_elem_of_lookup_2.
Qed.
Lemma fit_checks cpu b s h feeds :
  Ready cpu b s h → FeedsFit b s h feeds → feeds_checkable s feeds ∧ ¬ missing s feeds ∧ ¬ unknown_input s feeds ∧ ¬ wrong_type s feeds.
Proof.
  intros HR HF. split_and!.
  - intros arg x Ha Hx%typed_feed_elem. destruct (ff_value _ _ _ _ HF arg x Ha Hx) as (Ht & t & v & Hd & _). unfold checkable. by rewrite Hd.
  - intros (n & Hn & Hf & _). rewrite (rd_required _ _ _ _ HR), elem_of_arg_names, list_elem_of_fmap in Hn. destruct Hn as (arg & -> & Ha).
    by destruct Hf; apply HF.
  - intros ([n x] & He & Hn). rewrite (rd_inputs _ _ _ _ HR), elem_of_arg_names in Hn. by destruct Hn; eapply HF.
  - intros (arg & x & Ha & Hx%typed_feed_elem & Ht). destruct (ff_value _ _ _ _ HF arg x Ha Hx) as (_ & t & v & Hd & Hty & _).
    apply Ht. unfold has_type. by rewrite Hd.
Qed.
Lemma fit_feeds cpu b s h feeds :
  Ready cpu b s h → FeedsFit b s h feeds → FeedsOk (b_session b) out_shape h feeds ∧ Forall (cpu_feed (input_def_list_ s)) feeds.
Proof.
  intros HR HF. split; [split|].
  - apply HR.
  - intros n x Hin. destruct (proj1 (list_elem_of_fmap _ _ _) (ff_known _ _ _ _ HF n x Hin)) as (arg & -> & Ha).
    destruct (rd_known _ _ _ _ HR arg Ha) as (v & Hv & Hd). exists v. split_and!; [done|done|].
    destruct (ff_value _ _ _ _ HF arg x Ha Hin) as (_ & t & v' & Hx & _ & Hv' & Hs & Hl & _). rewrite Hv in Hv'. injection Hv' as <-. by exists t.
  - apply HR.
  - intros v Hv. destruct (rd_given _ _ _ _ HR v Hv) as [(arg & Ha & Hn)|?]; [left|by right].
    pose proof (ff_required _ _ _ _ HF arg Ha) as Hf. apply list_elem_of_fmap in Hf as ([n x] & Hn' & Hin). simpl in Hn'. subst n. eauto.
  - apply Forall_forall. intros [n x] Hin. destruct (proj1 (list_elem_of_fmap _ _ _) (ff_known _ _ _ _ HF n x Hin)) as (arg & -> & Ha). split.
    + unfold IsArgNameInInputsOutputs. apply existsb_exists. exists arg. split; [by apply list_elem_of_In|]. by apply bool_decide_eq_true.
    + intros t Ht. destruct (ff_value _ _ _ _ HF arg x Ha Hin) as (_ & t' & v' & Hx & _ & _ & _ & _ & Hm). simpl in Ht. congruence.
Qed.
Lemma value_later h h' v (x : MLValue T) :
  (∀ a, a ∈ freed h' → a ∈ freed h ∨ (next_buffer h ≤ a)%nat) → (next_buffer h ≤ next_buffer h')%nat → value_ok out_shape h v x → value_ok out_shape h' v x.
Proof.
  intros Hf Hn (t & Hd & Hs & Hl). exists t. split_and!; [done|done|]. unfold live in *. destruct (p_data_ t) as [|a o]; [done|].
  apply andb_true_iff in Hl as [H1%Nat.ltb_lt H2%bool_decide_eq_true]. apply andb_true_iff. split; [apply Nat.ltb_lt; lia|].
  apply bool_decide_eq_true. intros [?|?]%Hf; [done|lia].
Qed.
(** What the end of a run changes of a session does not matter to the next. *)
Definition after_run s (state : SessionState T) (b : Built (T := T)) (events : list RunEvent) : InferenceSession :=
  set_events (set_built s (is_inited_ s) (Some (mkBuilt state (b_kernels b) (b_inputs b) (b_outputs b) (b_weights b)))) events.
Lemma ready_after cpu b s h h' state events :
  Ready cpu b s h → same_but_cache (b_session b) state → RunOk state kernel out_shape bytes →
  (∀ a, a ∈ freed h' → a ∈ freed h ∨ (next_buffer h ≤ a < next_buffer h')%nat) → (next_buffer h ≤ next_buffer h')%nat →
  Ready cpu (mkBuilt state (b_kernels b) (b_inputs b) (b_outputs b) (b_weights b)) (after_run s state b events) h'.
Proof.
  intros [] Hs HR Hf Hn. destruct state as [view mx nm ini pl en cache]. unfold same_but_cache in Hs. injection Hs as -> -> -> -> -> ->.
  split; simpl; [done|done|done| |done..| | |].
  - destruct rd_cpu0. by split.
  - intros v x Hx. destruct (rd_weights0 v x Hx) as [? Hv]. split; [done|]. eapply value_later; [|exact Hn|exact Hv]. intros a [?|?]%Hf; [by left|right; lia].
  - intros arg Ha Hr. exact (rd_fetch0 arg Ha Hr).
  - intros a [?%rd_heap0|?]%Hf; lia.
Qed.

(** C2. A run of a session that is ready, with feeds that fit and outputs of the
    model that are not themselves inputs, asked for once each: [Run] returns OK.
    Each fetched value is a live tensor of the right shape, and owns its memory if
    a node computed it. Every provider is told of the start, then of the end. The
    number of running runs is as before. Of the memory that the run took, just
    what the fetched values do not hold is given back, and the weights stay: the
    session is ready for the next run. *)
Theorem session_run cpu b s terminate h feeds output_names fetches :
  Ready cpu b s h → FeedsFit b s h feeds →
  output_names ≠ [] → NoDup output_names →
  (∀ n, n ∈ output_names → n ∈ na_name <$> output_def_list_ s ∧ n ∉ na_name <$> required_input_def_list_ s) →
  (fetches = [] ∨ fetches = replicate (length output_names) empty_MLValue) → (∀ k, terminate k = false) →
  (∀ p, p ∈ exec_providers_ (execution_providers_ s) → run_start p = StatusOK ∧ run_end p = StatusOK) →
  ∃ out b' s' h', Run s terminate h feeds output_names (Some fetches) = Ok (StatusOK, Some out, s', h') ∧
    Forall2 (fetched (b_session b) out_shape h') output_names out ∧
    run_events s' = run_events s ++ ((fun p => OnRunStart (provider_Type p)) <$> exec_providers_ (execution_providers_ s)) ++
      ((fun p => OnRunEnd (provider_Type p)) <$> exec_providers_ (execution_providers_ s)) ∧
    current_num_runs_ s' = current_num_runs_ s ∧
    (∀ a, a ∈ freed h' ↔ a ∈ freed h ∨ (next_buffer h ≤ a < next_buffer h')%nat ∧ ¬ held out a) ∧
    Ready cpu b' s' h'.
Proof.
  intros HR HF Hne Hnd Hout Hfe Ht Hp. destruct (fit_checks _ _ _ _ _ HR HF) as (Hc & Hm & Hu & Hw). destruct (fit_feeds _ _ _ _ _ HR HF) as [Hfeeds Hcpu].
  assert (Hvi : ValidateInputs s feeds = Ok StatusOK).
  { unfold ValidateInputs. rewrite ValidateInputNames_ok by done. by destruct (ValidateInputTypes_ok s feeds Hc) as [[-> _]|[_ ?]]. }
  assert (Hvo : ValidateOutputs s output_names (Some fetches) = StatusOK).
  { destruct (ValidateOutputs_cases s output_names (Some fetches)) as [[-> _]|[_ [?|[(n & Hn & Hx)|[H1 H2]]]]]; [done|done| |].
    - destruct Hx. rewrite (rd_outputs _ _ _ _ HR), elem_of_arg_names. by apply Hout.
    - destruct Hfe as [->| ->]; [done|]. by rewrite length_replicate in H2. }
  destruct (execute_graph_ok CreateFence (b_session b) kernel out_shape bytes GetExecutionProviderType (execution_providers_ s) cpu
    (input_def_list_ s) None (b_inputs b) terminate h feeds output_names fetches) as (out & state & h' & E & Hval & HR' & Hn & Hmem); [apply HR..|done|done|apply HR|done| |done|done|].
  { intros n Hin. destruct (Hout n Hin) as [(arg & -> & Ha)%list_elem_of_fmap Hr]. by apply HR. }
  unfold Session.Run. rewrite (rd_inited _ _ _ _ HR). cbn [IsOK StatusOK]. rewrite Hvi. cbn [IsOK StatusOK]. rewrite Hvo.
  rewrite notify_ok by (intros; by apply Hp). cbn [StatusOK session_state_ set_events set_runs execution_providers_]. rewrite (rd_built _ _ _ _ HR), E.
  unfold end_run. cbn [snd set_built set_events set_runs execution_providers_]. rewrite notify_ok by (intros; by apply Hp).
  eexists out, _, _, h'. split; [reflexivity|]. split; [exact Hval|]. split; [cbn; by rewrite <- app_assoc|]. split; [cbn; lia|]. split; [exact Hmem|].
  pose proof (ready_after _ _ _ _ h' state (run_events s ++ ((fun p => OnRunStart (provider_Type p)) <$> exec_providers_ (execution_providers_ s)) ++
      ((fun p => OnRunEnd (provider_Type p)) <$> exec_providers_ (execution_providers_ s))) HR (ExecuteGraph_session _ _ _ _ _ _ _ _ _ _ _ _ _ _ _ E) HR') as H.
  destruct H as []; [intros a Ha%Hmem; naive_solver|done|]. by split.
Qed.
End run.

(** ** From the model to a session that is ready *)

(** A session that is built has no weights left in its graph. *)
Lemma built_cleaned {T} `{!EqDecision T, !TensorTypes T, !ValueTypes T, !ElementTypes T} little_endian GetExecutionProviderType ps CreateKernel
    (g : MainGraph (T := T)) sequential mem_pattern h st b h' :
  build_session little_endian GetExecutionProviderType ps CreateKernel g sequential mem_pattern h = Ok (st, Some b, h') →
  weights_cleaned little_endian sequential mem_pattern ps g h = true.
Proof.
  unfold build_session, weights_cleaned. intros ([s [[names view] plan]] & -> & H)%bind_Ok. destruct s; [done|]. cbn [IsOK negb] in H.
  apply bind_Ok in H as ([s w] & -> & H). by destruct s.
Qed.

Section initialize.
Context {T : Type} `{!EqDecision T, !TensorTypes T, !ValueTypes T, !ElementTypes T}.
Context (mem_pattern : bool) (default_cpu : IExecutionProvider (T := T)).
Context (GetExecutionProviderType : Node T → string) (CreateKernel : Node T → IExecutionProvider (T := T) → Status).
Context (TransformAndResolve : MainGraph (T := T) → ExecutionProviders (T := T) → Outcome (MainGraph (T := T))).
Context (TransformLeaves : MainGraph (T := T) → ExecutionProviders (T := T) → MainGraph (T := T)).
Context (InitializeSubgraphSessions : Built (T := T) → Status).
Context (kernel : Z → list (option (MLValue T)) → Status * list (Z * TensorShape)).
Context (out_shape : nat → TensorShape) (bytes : nat → Z).
Abbreviation Session_Initialize := (Session_Initialize true true mem_pattern default_cpu GetExecutionProviderType CreateKernel TransformAndResolve TransformLeaves InitializeSubgraphSessions).
Implicit Types (s : InferenceSession (T := T)) (h : Heap) (g m : MainGraph (T := T)).

(** The names and the view of a graph that is initialized for sequential runs. *)
Definition graph_state g : SessionState T :=
  mkSession (set_outer (mg_view g) [] false) (mg_max_node_index g) (add_all (graph_names g)) [] (mkExecPlan [] [] []) false ∅.

(** What the kernels promise for the shapes of the runs, and that the outputs fit
    into memory. *)
Record KernelsOk g : Prop := {
  ku_index : NoDup (n_index <$> g_nodes (mg_view g));
  ku_range : ∀ node, node ∈ g_nodes (mg_view g) → 0 ≤ n_index node < Z.of_nat (mg_max_node_index g);
  ku_exists : ∀ arg, arg ∈ graph_args (graph_viewer_ (graph_state g)) → na_exists arg = negb (bool_decide (na_name arg = ""%string));
  ku_outputs : ∀ k node arg v, g_topo (mg_view g) !! k = Some node → arg ∈ n_outputs node → na_exists arg = true →
    name_map_ (add_all (graph_names g)) !! na_name arg = Some v → output_ok out_shape bytes v (na_type arg);
  ku_bytes : ∀ v, v ∈ all_outs (add_all (graph_names g)) (g_topo (mg_view g)) → 0 ≤ bytes v;
  ku_sum : sumZ bytes (all_outs (add_all (graph_names g)) (g_topo (mg_view g))) < 2 ^ 64;
  ku_kernel : ∀ node inputs, node ∈ g_topo (mg_view g) → inputs_ok (graph_state g) out_shape node inputs →
    ∃ requests, kernel (n_index node) inputs = (StatusOK, requests) ∧ requests_ok (graph_state g) out_shape node requests;
  ku_weights : ∀ e v, e ∈ mg_initializers g → name_map_ (add_all (graph_names g)) !! e.1 = Some v → out_shape v = dims e.2;
}.

(** The providers after the default one is added. *)
Definition all_providers (ps : ExecutionProviders (T := T)) : ExecutionProviders (T := T) :=
  match Get_by_type ps kCpuExecutionProvider with Some _ => ps | None => snd (providers_Add ps kCpuExecutionProvider default_cpu) end.
(** The transformers keep the inputs and the outputs of the model. *)
Definition same_interface m g : Prop :=
  mg_all_inputs g = mg_all_inputs m ∧ g_inputs (mg_view g) = g_inputs (mg_view m) ∧ g_outputs (mg_view g) = g_outputs (mg_view m).

Section built_state.
Context (ps : ExecutionProviders (T := T)) (g : MainGraph (T := T)) (b : Built (T := T)) (plan : SequentialExecutionPlan T) (w : Weights (T := T)) (h : Heap).
Context (HI : InitOk GetExecutionProviderType ps CreateKernel g) (HK : KernelsOk g) (Hfreed : ∀ a, a ∈ freed h → (a < next_buffer h)%nat).
Context (Eb : b_session b = mkSession (set_outer (mg_view g) [] false) (mg_max_node_index g) (add_all (graph_names g))
  ((fun e => (fst e, fst (snd e))) <$> initialized w) plan mem_pattern ∅).
Context (HG : GraphOk (add_all (graph_names g)) (set_outer (mg_view g) [] false)).
Context (EP : CreatePlan (add_all (graph_names g)) (set_outer (mg_view g) [] false) = Ok (StatusOK, plan)).
Context (Hf : freed (w_heap w) = freed h) (Hn : (next_buffer h ≤ next_buffer (w_heap w))%nat).
Context (HW : Forall2 (fun e x => ∃ t, x = (idx_of (add_all (graph_names g)) e.1, (tensor_value t, msg_content e.2)) ∧ dtype_ t = GetType (data_type e.2) ∧
  shape_ t = dims e.2 ∧ alloc_info_ t = wloc (add_all (graph_names g)) plan e ∧ new_memory h (w_heap w) e t) (mg_initializers g) (initialized w)).

Lemma built_run_ok : RunOk (b_session b) kernel out_shape bytes.
Proof.
  rewrite Eb. split; try apply HK; try done.
  intros node Hn'. by apply (wf_nodes _ (io_graph _ _ _ _ HI)).
Qed.
Lemma init_index e : e ∈ mg_initializers g → name_map_ (add_all (graph_names g)) !! e.1 = Some (idx_of (add_all (graph_names g)) e.1).
Proof. intros He. destruct (init_known _ _ _ _ HI e He) as [i Hi]. unfold idx_of. by rewrite Hi. Qed.
Lemma init_given e : e ∈ mg_initializers g → e.1 ∈ given_names g.
Proof.
  intros He. unfold given_names. rewrite fmap_app, elem_of_app. right. apply (io_inits _ _ _ _ HI), list_elem_of_fmap. eauto.
Qed.
Lemma built_weight v x : (v, x) ∈ initialized_tensors_ (b_session b) →
  v ∈ defs0 (add_all (graph_names g)) (set_outer (mg_view g) [] false) ∧ value_ok out_shape (w_heap w) v x.
Proof.
  rewrite Eb. simpl. intros ([v' [x' c]] & [= -> ->] & (i & Hi)%list_elem_of_lookup)%list_elem_of_fmap.
  destruct (Forall2_lookup_r _ _ _ _ _ HW Hi) as (e & He & t & [= -> -> _] & _ & Hs & _ & Hm). apply list_elem_of_lookup_2 in He.
  pose proof (init_index e He) as Hv. split; [apply elem_of_defs0; exists (e.1); by auto using init_given|].
  exists t. split; [done|]. rewrite Hs. split; [by rewrite (ku_weights _ HK e _ He Hv)|].
  unfold live. destruct Hm as [[-> _]|(a & o & -> & Ha)]; [done|]. apply andb_true_iff. split; [apply Nat.ltb_lt; lia|].
  apply bool_decide_eq_true. rewrite Hf. intros ?%Hfreed. lia.
Qed.
Lemma built_given v : v ∈ defs0 (add_all (graph_names g)) (set_outer (mg_view g) [] false) →
  (∃ arg, arg ∈ g_inputs (mg_view g) ∧ name_map_ (add_all (graph_names g)) !! na_name arg = Some v) ∨ ∃ x, (v, x) ∈ initialized_tensors_ (b_session b).
Proof.
  intros (n & Hin & Hv)%elem_of_defs0. unfold given_names in Hin. rewrite fmap_app, elem_of_app in Hin. destruct Hin as [Hin|Hin].
  - apply list_elem_of_fmap in Hin as (arg & -> & Ha). left. eauto.
  - right. apply (io_inits _ _ _ _ HI), list_elem_of_fmap in Hin as (e & -> & He). pose proof (init_index e He) as Hi. rewrite Hv in Hi. injection Hi as ->.
    apply list_elem_of_lookup in He as (i & Hi). destruct (Forall2_lookup_l _ _ _ _ _ HW Hi) as (x & Hx & t & -> & _). exists (tensor_value t).
    rewrite Eb. simpl. apply list_elem_of_fmap. eexists. split; [|by eapply list_elem_of_lookup_2]. done.
Qed.
Lemma built_known arg : arg ∈ mg_all_inputs g →
  ∃ v, name_map_ (add_all (graph_names g)) !! na_name arg = Some v ∧ v ∈ defs0 (add_all (graph_names g)) (set_outer (mg_view g) [] false).
Proof.
  intros Ha. assert (Hg : na_name arg ∈ given_names g) by (apply (wf_inputs _ (io_graph _ _ _ _ HI)), list_elem_of_fmap; eauto).
  destruct (proj2 (add_all_known (graph_names g) (na_name arg))) as [v Hv].
  { unfold graph_names. apply elem_of_app. left. apply list_elem_of_fmap. eauto. }
  exists v. split; [done|]. apply elem_of_defs0. eauto.
Qed.
Lemma built_fetch arg : arg ∈ g_outputs (mg_view g) → na_name arg ∉ na_name <$> g_inputs (mg_view g) → fetchable (b_session b) (na_name arg).
Proof.
  intros Ha Hr. assert (Hex : na_exists arg = true) by (apply (wf_exist _ (io_graph _ _ _ _ HI)); set_solver).
  assert (Hne : na_name arg ≠ ""%string).
  { assert (Hga : arg ∈ graph_args (graph_viewer_ (graph_state g))) by (unfold graph_args; simpl; set_solver).
    rewrite (ku_exists _ HK arg Hga) in Hex. by case_bool_decide. }
  destruct (ok_known _ _ HG arg) as [v Hv]; [unfold graph_args; simpl; set_solver|done|]. unfold fetchable, produced, weight_output, weight. rewrite Eb. simpl. split.
  { exists v. split; [done|]. apply list_elem_of_omap. eauto. }
  pose proof (wf_outputs _ (io_graph _ _ _ _ HI) arg Ha) as Ho. unfold given_names in Ho. rewrite fmap_app, !elem_of_app in Ho. destruct Ho as [[Ho|Ho]|Ho]; [done|right|left].
  - split; [by exists arg|]. destruct (built_given v) as [(a & Ha' & Hv')|(x & Hx)].
    + apply elem_of_defs0. exists (na_name arg). unfold given_names. rewrite fmap_app, elem_of_app. auto.
    + destruct Hr. rewrite (names_inj_graph g _ _ _ Hv Hv'). apply list_elem_of_fmap. eauto.
    + rewrite Eb in Hx. exists x, v. done.
  - unfold out_names in Ho. apply list_elem_of_bind in Ho as (node & Hin & Hnode). apply elem_of_exist_names in Hin as (a & Ha' & He & Hna).
    exists node, a. split_and!; [by apply (wf_nodes _ (io_graph _ _ _ _ HI))|done|]. unfold arg_named. by rewrite Hna.
Qed.
End built_state.

(** The session that [Initialize] leaves, with the graph [g] that the transformers
    give, without its weights. *)
Definition initialized_session ps runs m g (b : Built (T := T)) : InferenceSession :=
  set_built (set_model (set_loaded (SaveModelMetadata (set_providers (new_InferenceSession runs) (all_providers ps)) m))
    (CleanAllInitializedTensors g)) true (Some b).
Lemma initialized_ready cpu ps runs m g h :
  TransformAndResolve m (all_providers ps) = Gives g → same_interface m g →
  InitOk GetExecutionProviderType (all_providers ps) CreateKernel g → KernelsOk g →
  CpuOnly (graph_state g) GetExecutionProviderType (all_providers ps) cpu → (∀ b, InitializeSubgraphSessions b = StatusOK) →
  (∀ a, a ∈ freed h → (a < next_buffer h)%nat) →
  ∃ b h2, Session_Initialize (set_loaded (SaveModelMetadata (set_providers (new_InferenceSession runs) ps) m)) h =
      Ok (StatusOK, initialized_session ps runs m g b, h2) ∧
    mlvalue_name_idx_map_ (b_session b) = add_all (graph_names g) ∧
    Ready GetExecutionProviderType kernel out_shape bytes cpu b (initialized_session ps runs m g b) h2 ∧
    freed h2 = freed h ∧ (next_buffer h ≤ next_buffer h2)%nat.
Proof.
  intros ET (E1 & E2 & E3) HI HK HC Hsub Hh.
  destruct (build_session_ok _ _ _ _ HI true mem_pattern h) as (b & plan & w & EB & Eb & HG & EP & _ & Hmap & Hf & Hn & HW).
  exists b, (w_heap w). split.
  { unfold Session.Session_Initialize. cbn [is_model_loaded_ set_loaded SaveModelMetadata set_providers is_inited_ new_InferenceSession negb execution_providers_].
    unfold initialized_session, all_providers in *. destruct (Get_by_type ps kCpuExecutionProvider);
      cbn [model_ set_providers set_loaded SaveModelMetadata of_option mbind res_bind execution_providers_]; rewrite ET;
      cbn [execution_providers_ set_model set_loaded set_providers SaveModelMetadata]; rewrite (built_cleaned _ _ _ _ _ _ _ _ _ _ _ EB), EB, Hsub; reflexivity. }
  assert (HR : ∀ s, is_inited_ s = true → session_state_ s = Some b → execution_providers_ s = all_providers ps →
    required_input_def_list_ s = g_inputs (mg_view m) → input_def_list_ s = mg_all_inputs m → output_def_list_ s = g_outputs (mg_view m) →
    required_model_input_names_ s = arg_names (g_inputs (mg_view m)) → model_input_names_ s = arg_names (mg_all_inputs m) →
    model_output_names_ s = arg_names (g_outputs (mg_view m)) → Ready GetExecutionProviderType kernel out_shape bytes cpu b s (w_heap w)).
  { intros s H1 H2 H3 H4 H5 H6 H7 H8 H9. split; rewrite ?H4, ?H5, ?H6; try done.
    - by eapply built_run_ok.
    - rewrite Eb, H3. destruct HC as [C1 C2 C3 C4]. by split.
    - intros n. rewrite Eb. simpl. rewrite <- E1. apply Hmap.
    - intros node Hnode. rewrite Eb in *. by apply (wf_nodes _ (io_graph _ _ _ _ HI)).
    - intros arg Ha. rewrite Eb. rewrite <- E1 in Ha. by eapply built_known.
    - intros v Hv. rewrite Eb in Hv. pose proof (built_given _ _ b plan w h HI Eb HW v Hv) as Hg. rewrite Eb in *. rewrite <- E2. exact Hg.
    - intros v x Hx. pose proof (built_weight _ _ b plan w h HI HK Hh Eb Hf Hn HW v x Hx) as Hv. rewrite Eb. exact Hv.
    - intros arg Ha Hr. rewrite <- E3 in Ha. rewrite <- E2 in Hr. by eapply built_fetch.
    - rewrite Hf. intros a ?%Hh. lia. }
  split_and!; [by rewrite Eb|apply HR; simpl; set_solver|done..].
Qed.

(** C3. From the model to a session that can run. A new session, with any
    providers, loads a model; transformers that keep its inputs and outputs give
    a graph that is well formed, with messages that can be read, and kernels that
    keep to the shapes. Then [Initialize] returns OK, has added the default CPU
    provider if there was none, and leaves a session that is ready to run: the
    numbering, the plan, the weights in memory and the mapping of the inputs fit
    together. The user sees the inputs without the initializers, and the outputs.
    Nothing is given back of the memory. *)
Theorem session_initialized cpu ps runs m g h :
  TransformAndResolve m (all_providers ps) = Gives g → same_interface m g →
  InitOk GetExecutionProviderType (all_providers ps) CreateKernel g → KernelsOk g →
  CpuOnly (graph_state g) GetExecutionProviderType (all_providers ps) cpu → (∀ b, InitializeSubgraphSessions b = StatusOK) →
  (∀ a, a ∈ freed h → (a < next_buffer h)%nat) →
  ∃ s1 b s2 h2, Load (set_providers (new_InferenceSession runs) ps) (Gives m) = (StatusOK, s1) ∧
    Session_Initialize s1 h = Ok (StatusOK, s2, h2) ∧
    Ready GetExecutionProviderType kernel out_shape bytes cpu b s2 h2 ∧ execution_providers_ s2 = all_providers ps ∧
    GetModelInputs s2 = (StatusOK, g_inputs (mg_view m)) ∧ GetModelOutputs s2 = (StatusOK, g_outputs (mg_view m)) ∧
    freed h2 = freed h ∧ (next_buffer h ≤ next_buffer h2)%nat.
Proof.
  intros ET HS HI HK HC Hsub Hh. destruct (initialized_ready cpu ps runs m g h ET HS HI HK HC Hsub Hh) as (b & h2 & E & _ & HR & Hf & Hn).
  eexists _, b, _, h2. split; [reflexivity|]. split; [exact E|]. by split_and!.
Qed.
End initialize.

(** ** A model from its message to its results *)

Module Model.
Import Example Run TwoWeights.
(** The chain of the planner, whose weight comes from a message. *)
Definition main : MainGraph (T := MLDataType) := mkMainGraph graph [arg "X"; arg "W"] [("W"%string, message [1; 2; 3; 4; 5; 6])] 5.
Definition no_providers : ExecutionProviders (T := MLDataType) := mkProviders [] ∅ [].
Definition create (_ : Node MLDataType) (_ : IExecutionProvider (T := MLDataType)) : Status := StatusOK.
Definition transform (m : MainGraph (T := MLDataType)) (_ : ExecutionProviders (T := MLDataType)) : Outcome (MainGraph (T := MLDataType)) := Gives m.
Definition leaves (m : MainGraph (T := MLDataType)) (_ : ExecutionProviders (T := MLDataType)) : MainGraph (T := MLDataType) := m.
Definition no_subgraphs (_ : Built (T := MLDataType)) : Status := StatusOK.
Definition quiet (_ : IExecutionProvider (T := MLDataType)) : Status := StatusOK.

Lemma forallb_sound {A} (P : A → Prop) `{!∀ x, Decision (P x)} l : forallb (fun x => bool_decide (P x)) l = true → ∀ x, x ∈ l → P x.
Proof. intros Hf x Hx. by apply (forallb_elem _ _ _ Hf), bool_decide_eq_true in Hx. Qed.
Lemma main_wf : GraphWf main.
Proof.
  split.
  - by intros n.
  - done.
  - apply (forallb_sound (fun a => na_exists a = true)). by vm_compute.
  - intros a s Ha _. revert a Ha. apply (forallb_sound (fun a => is_Some (tensor_element_size (na_type a)))). by vm_compute.
  - apply (forallb_sound (fun node => is_Some (n_kernel node) ∧ is_Some (n_provider node))). by vm_compute.
  - apply (bool_decide_unpack _). by vm_compute.
  - apply (forallb_sound (fun n => n ∉ given_names main)). by vm_compute.
  - intros k node a Hk Ha _. assert (Hin : (k, node) ∈ indexed (g_topo (mg_view main))).
    { unfold indexed. apply list_elem_of_lookup. exists k. by rewrite list_lookup_imap, Hk. }
    revert a Ha. apply (Forall_forall (fun a => na_name a ∈ given_names main ++ out_names (take k (g_topo (mg_view main))))).
    apply (forallb_sound (fun e => Forall (fun a => na_name a ∈ given_names main ++ out_names (take e.1 (g_topo (mg_view main)))) (n_inputs e.2 ++ n_implicit_inputs e.2))
      (indexed (g_topo (mg_view main)))) in Hin; [exact Hin|by vm_compute].
  - apply (forallb_sound (fun a => na_name a ∈ given_names main ++ out_names (g_topo (mg_view main)))). by vm_compute.
Qed.
Lemma main_init : InitOk Cpu.on_cpu Cpu.providers create main.
Proof.
  split; [apply main_wf|done|by apply (bool_decide_unpack _); vm_compute|done| |by vm_compute| |].
  - intros e ->%list_elem_of_singleton. apply message_ok; [done|]. repeat (apply Forall_cons; split; [by vm_compute|]). by apply Forall_nil.
  - intros i Hi. assert (i = mkInfo CPU 0 0 1) as ->; [|by vm_compute]. destruct Hi as [|m|node p m Hn Hp]; [done|done|].
    apply (forallb_sound (fun node => default (mkInfo CPU 0 0 1) ((fun p : Provider => p m) <$> n_provider node) = mkInfo CPU 0 0 1)) in Hn; [by rewrite Hp in Hn|by vm_compute].
  - intros node _. split; [done|]. by exists Cpu.cpu.
Qed.
Lemma main_kernels : KernelsOk run_kernel (fun _ => shape) (fun _ => 64) main.
Proof.
  destruct run_ok as [_ _ _ H1 H2 H3 H5 _ _ H4 _]. split.
  - exact H1.
  - exact H2.
  - exact H3.
  - exact H5.
  - done.
  - vm_compute. reflexivity.
  - intros node inputs Hn _. exists [(0, shape)]. split; [done|]. split.
    + by intros i sh a v [= -> ->]%list_elem_of_singleton.
    + intros i a Hi _. assert (length (n_outputs node) = 1%nat) as Hl.
      { revert Hn. apply (forallb_sound (fun node => length (n_outputs node) = 1%nat)). by vm_compute. }
      apply lookup_lt_Some in Hi. assert (i = 0%nat) as -> by lia. exists shape. by left.
  - by intros e v ->%list_elem_of_singleton.
Qed.
Lemma main_cpu : CpuOnly (graph_state main) Cpu.on_cpu Cpu.providers Cpu.cpu.
Proof. destruct Cpu.cpu_only. by split. Qed.
End Model.
#[local] Existing Instance AllocPlannerProps.onnx_types.
#[local] Existing Instance ExecutionProps.Run.value_types.
#[local] Existing Instance WeightsProps.TwoWeights.element_types.

Lemma run_refuses_witness :
  let s := initialized_session Cpu.cpu Model.no_providers 0 Model.main Model.main (mkBuilt Run.session ∅ ∅ ∅ (mkWeights [] [] Run.heap)) in
  Run Cpu.on_cpu Run.no_fence Run.run_kernel Model.quiet Model.quiet s (fun _ => false) Run.heap [] ["E"%string] (Some []) =
    Ok (Some INVALID_ARGUMENT, Some [], s, Run.heap).
Proof.
  intros s. destruct (run_refuses Cpu.on_cpu Run.no_fence Run.run_kernel Model.quiet Model.quiet s (fun _ => false) Run.heap [] ["E"%string] (Some []))
    as (_ & H & _). apply H; [done|]. left. exists "X"%string. split_and!; [|apply not_elem_of_nil|done]. apply (bool_decide_unpack _). by vm_compute.
Defined.
Lemma unchecked_feeds_witness :
  let s := initialized_session Cpu.cpu Model.no_providers 0 Model.main Model.main (mkBuilt Run.session ∅ ∅ ∅ (mkWeights [] [] Run.heap)) in
  Run Cpu.on_cpu Run.no_fence Run.run_kernel Model.quiet Model.quiet s (fun _ => false) Run.heap [("X"%string, empty_MLValue)] ["E"%string] (Some []) =
    Ok (Some FAIL, Some [], set_runs s (-1), Run.heap).
Proof.
  intros s. destruct (unchecked_feeds Cpu.on_cpu Run.no_fence Run.run_kernel Model.quiet Model.quiet s (fun _ => false) Run.heap
    [("X"%string, empty_MLValue)] ["E"%string] (Some []) (Example.arg "X") [Example.arg "W"] empty_MLValue) as [H _];
    [reflexivity|apply missing_text; vm_compute; reflexivity| |reflexivity|reflexivity|apply H; reflexivity].
  intros (e & ->%list_elem_of_singleton & Hn). apply Hn. apply (bool_decide_unpack _). by vm_compute.
Defined.
Lemma session_initialized_witness :
  ∃ s1 s2 h2, Load (set_providers (new_InferenceSession 0) Model.no_providers) (Gives Model.main) = (StatusOK, s1) ∧
    Session_Initialize true true true Cpu.cpu Cpu.on_cpu Model.create Model.transform Model.leaves Model.no_subgraphs s1 (mkHeap 1 ∅) = Ok (StatusOK, s2, h2) ∧
    execution_providers_ s2 = Cpu.providers ∧ GetModelInputs s2 = (StatusOK, [Example.arg "X"]) ∧ (1 ≤ next_buffer h2)%nat.
Proof.
  destruct (session_initialized true Cpu.cpu Cpu.on_cpu Model.create Model.transform Model.leaves Model.no_subgraphs Run.run_kernel (fun _ => Run.shape) (fun _ => 64)
    Cpu.cpu Model.no_providers 0 Model.main Model.main (mkHeap 1 ∅) eq_refl) as (s1 & b & s2 & h2 & H1 & H2 & _ & H3 & H4 & _ & _ & H5);
    [by split_and!|exact Model.main_init|exact Model.main_kernels|exact Model.main_cpu|done|by intros a ?%elem_of_empty|].
  exists s1, s2, h2. by split_and!.
Defined.
Lemma main_fits b h : (0 < next_buffer h)%nat → freed h = ∅ → mlvalue_name_idx_map_ (b_session b) = add_all (graph_names Model.main) →
  FeedsFit (fun _ => Run.shape) b (initialized_session Cpu.cpu Model.no_providers 0 Model.main Model.main b) h Run.feeds.
Proof.
  intros Hn Hf Hb. split.
  - intros arg ->%list_elem_of_singleton. by left.
  - intros n x [= -> ->]%list_elem_of_singleton. by left.
  - intros arg x Ha [= Hx ->]%list_elem_of_singleton. assert (Ht : na_type arg = tensor_float).
    { revert arg Ha Hx. apply (Forall_forall (fun arg => na_name arg = "X"%string → na_type arg = tensor_float)). by repeat constructor. }
    rewrite Ht. split; [done|]. eexists _, 0%nat. split_and!; [reflexivity|done| |done| |by left].
    + rewrite Hb, Hx. by vm_compute.
    + unfold live. simpl. rewrite Hf. by destruct (next_buffer h); [lia|].
Qed.
(** Loaded, initialized and run: the result owns its memory. *)
Lemma session_run_witness :
  ∃ b s2 h2 out s3 h3,
    Session_Initialize true true true Cpu.cpu Cpu.on_cpu Model.create Model.transform Model.leaves Model.no_subgraphs
      (set_loaded (SaveModelMetadata (set_providers (new_InferenceSession 0) Model.no_providers) Model.main)) (mkHeap 1 ∅) = Ok (StatusOK, s2, h2) ∧
    Run Cpu.on_cpu Run.no_fence Run.run_kernel Model.quiet Model.quiet s2 (fun _ => false) h2 Run.feeds ["E"%string] (Some []) =
      Ok (StatusOK, Some out, s3, h3) ∧
    Forall2 (fetched (b_session b) (fun _ => Run.shape) h3) ["E"%string] out ∧
    run_events s3 = [OnRunStart kCpuExecutionProvider; OnRunEnd kCpuExecutionProvider] ∧ current_num_runs_ s3 = 0.
Proof.
  destruct (initialized_ready true Cpu.cpu Cpu.on_cpu Model.create Model.transform Model.leaves Model.no_subgraphs Run.run_kernel (fun _ => Run.shape) (fun _ => 64)
    Cpu.cpu Model.no_providers 0 Model.main Model.main (mkHeap 1 ∅) eq_refl) as (b & h2 & E & Hb & HR & Hf & Hn);
    [by split_and!|exact Model.main_init|exact Model.main_kernels|exact Model.main_cpu|done|by intros a ?%elem_of_empty|].
  destruct (session_run Cpu.on_cpu Run.no_fence Run.run_kernel Model.quiet Model.quiet (fun _ => Run.shape) (fun _ => 64) Cpu.cpu b _ (fun _ => false) h2
    Run.feeds ["E"%string] [] HR) as (out & b' & s3 & h3 & ER & Hout & Hev & Hruns & _ & _);
    [apply main_fits; [simpl in Hn; lia|exact Hf|exact Hb]|discriminate|apply NoDup_singleton| |left; reflexivity|reflexivity|intros p _; split; reflexivity|].
  { intros n ->%list_elem_of_singleton. split; [by left|]. by intros ?%list_elem_of_singleton. }
  exists b, (initialized_session Cpu.cpu Model.no_providers 0 Model.main Model.main b), h2, out, s3, h3. split_and!; [exact E|exact ER|exact Hout|exact Hev|exact Hruns].
Defined.
