(* ===== verification/SessionLife.v ===== *)
(** The life of a session under any calls of the user, and the bindings of its
    inputs and outputs. *)
From S2P Require Import Prelude DataTypes TensorShape MemPattern AllocPlanner AllocPlannerProps ExecutionFrame ExecutionProps Devices DevicesProps TensorProto SessionInit WeightsProps Session SessionProps.

Section life.
Context {T : Type} `{!EqDecision T, !TensorTypes T, !ValueTypes T, !ElementTypes T}.
Context (little_endian enable_sequential_execution enable_memory_pattern : bool) (default_cpu : IExecutionProvider (T := T)).
Context (GetExecutionProviderType : Node T → string) (CreateKernel : Node T → IExecutionProvider (T := T) → Status).
Context (TransformAndResolve : MainGraph (T := T) → ExecutionProviders (T := T) → Outcome (MainGraph (T := T))).
Context (TransformLeaves : MainGraph (T := T) → ExecutionProviders (T := T) → MainGraph (T := T)).
Context (InitializeSubgraphSessions : Built (T := T) → Status).
Context (CreateFence : OrtAllocatorInfo → option nat).
Context (kernel : Z → list (option (MLValue T)) → Status * list (Z * TensorShape)).
Context (run_start run_end : IExecutionProvider (T := T) → Status).
Implicit Types (s : InferenceSession (T := T)) (h : Heap) (m : MainGraph (T := T)).

(** ** The calls *)

(** A call that returns, with the session and the memory around it. [Initialize]
    is not called again after it has failed: the state of the session then holds
    what the first call left there. *)
Inductive session_step : InferenceSession (T := T) * Heap → InferenceSession (T := T) * Heap → Prop :=
  | step_register s h p st s' : RegisterExecutionProvider s p = (st, s') → session_step (s, h) (s', h)
  | step_load s h r st s' : Load s r = (st, s') → session_step (s, h) (s', h)
  | step_load_istream s h parsed r st s' : Load_istream s parsed r = (st, s') → session_step (s, h) (s', h)
  | step_initialize s h st s' h' :
      state_left_ s = false →
      Session_Initialize little_endian enable_sequential_execution enable_memory_pattern default_cpu GetExecutionProviderType CreateKernel
        TransformAndResolve TransformLeaves InitializeSubgraphSessions s h = Ok (st, s', h') →
      session_step (s, h) (s', h')
  | step_run s h terminate feeds output_names p_fetches st out s' h' :
      Run GetExecutionProviderType CreateFence kernel run_start run_end s terminate h feeds output_names p_fetches = Ok (st, out, s', h') →
      session_step (s, h) (s', h').
Definition session_steps := rtc session_step.

(** The session holds nothing of a model before it is loaded, and the inputs and
    outputs of the model as it was loaded afterwards, by their names; it is
    initialized only with the state for its runs, and then the graph of the model
    has no weights left. *)
Definition holds_model s m : Prop :=
  na_name <$> required_input_def_list_ s = na_name <$> g_inputs (mg_view m) ∧ na_name <$> input_def_list_ s = na_name <$> mg_all_inputs m ∧
  na_name <$> output_def_list_ s = na_name <$> g_outputs (mg_view m) ∧
  required_model_input_names_ s = arg_names (g_inputs (mg_view m)) ∧ model_input_names_ s = arg_names (mg_all_inputs m) ∧
  model_output_names_ s = arg_names (g_outputs (mg_view m)).
Definition holds_nothing s : Prop :=
  model_ s = None ∧ required_input_def_list_ s = [] ∧ input_def_list_ s = [] ∧ output_def_list_ s = [] ∧
  required_model_input_names_ s = ∅ ∧ model_input_names_ s = ∅ ∧ model_output_names_ s = ∅ ∧ session_state_ s = None.
Record SessionOk s : Prop := {
  so_none : is_model_loaded_ s = false → holds_nothing s;
  so_model : is_model_loaded_ s = true → is_Some (model_ s) ∧ ∃ m, holds_model s m;
  so_inited : is_inited_ s = true →
    is_model_loaded_ s = true ∧ is_Some (session_state_ s) ∧ ∃ g, model_ s = Some g ∧ mg_initializers g = [] ∧ g_initializers (mg_view g) = [];
}.
(** What no call takes back: that a model is loaded and which, that the session is
    initialized, and a provider that is registered. *)
Record Later s s' : Prop := {
  la_loaded : is_model_loaded_ s = true → is_model_loaded_ s' = true;
  la_inited : is_inited_ s = true → is_inited_ s' = true;
  la_model : ∀ m, is_model_loaded_ s = true → holds_model s m → holds_model s' m;
  la_provider : ∀ type p, Get_by_type (execution_providers_ s) type = Some p → Get_by_type (execution_providers_ s') type = Some p;
}.

Lemma later_refl s : Later s s.
Proof. by split. Qed.
Lemma later_trans s1 s2 s3 : Later s1 s2 → Later s2 s3 → Later s1 s3.
Proof. intros [] []. split; eauto 10. Qed.

(** A run changes only the state, the events and the number of runs. *)
Definition same_static s s' : Prop :=
  s' = mkInferenceSession (is_model_loaded_ s) (is_inited_ s) (model_ s) (required_input_def_list_ s) (input_def_list_ s) (output_def_list_ s)
    (required_model_input_names_ s) (model_input_names_ s) (model_output_names_ s) (execution_providers_ s) (session_state_ s')
    (state_left_ s) (current_num_runs_ s') (run_events s') ∧ (is_Some (session_state_ s) ↔ is_Some (session_state_ s')).
Lemma static_refl s : same_static s s.
Proof. by destruct s. Qed.
Lemma static_trans s1 s2 s3 : same_static s1 s2 → same_static s2 s3 → same_static s1 s3.
Proof. intros [-> H] [-> H']. split; [done|]. simpl in *. by rewrite H, H'. Qed.
Lemma static_notify call event (acc : Status * InferenceSession (T := T)) p : same_static acc.2 (notify_providers call event acc p).2.
Proof. destruct acc as [st s]. unfold notify_providers. destruct (IsOK st); [|apply static_refl]. done. Qed.
Lemma static_notify_all call event l (acc : Status * InferenceSession (T := T)) : same_static acc.2 (foldl (notify_providers call event) acc l).2.
Proof.
  revert acc. induction l as [|p l IH]; intros acc; simpl; [apply static_refl|]. eapply static_trans; [apply static_notify|apply IH].
Qed.
Lemma static_end (acc : Status * InferenceSession (T := T)) : same_static acc.2 (end_run run_end acc).2.
Proof.
  unfold end_run. pose proof (static_notify_all run_end OnRunEnd (exec_providers_ (execution_providers_ acc.2)) acc) as H.
  destruct (foldl _ _ _) as [st s]. simpl in *. eapply static_trans; [exact H|done].
Qed.
Lemma end_static s acc st s' : same_static s acc.2 → end_run run_end acc = (st, s') → same_static s s'.
Proof. intros H E. eapply static_trans; [exact H|]. pose proof (static_end acc) as H'. by rewrite E in H'. Qed.
Lemma run_static s terminate h feeds output_names p_fetches st out s' h' :
  Run GetExecutionProviderType CreateFence kernel run_start run_end s terminate h feeds output_names p_fetches = Ok (st, out, s', h') → same_static s s'.
Proof.
  unfold Run. destruct (if IsOK _ then _ else _) as [r|[]|]; try done.
  2: { destruct (end_run _ _) as [st1 s1] eqn:E. intros [= _ _ <- _]. by eapply end_static; [|exact E]; apply static_refl. }
  destruct (foldl _ _ _) as [st1 s1] eqn:E1.
  assert (H1 : same_static s s1).
  { pose proof (static_notify_all run_start OnRunStart (exec_providers_ (execution_providers_ (set_runs s (current_num_runs_ s + 1))))
      ((if IsOK r then ValidateOutputs s output_names p_fetches else r), set_runs s (current_num_runs_ s + 1))) as H.
    cbn [execution_providers_ set_runs snd] in *. rewrite E1 in H. eapply static_trans; [|exact H]. done. }
  destruct st1 as [c|].
  { destruct (end_run _ _) as [st2 s2] eqn:E. intros [= _ _ <- _]. by eapply end_static; [|exact E]. }
  destruct (session_state_ s1) as [b|] eqn:Eb; [|done]. destruct p_fetches as [fetches|]; [|done].
  destruct (ExecuteGraph _ _ _ _ _ _ _ _ _ _ _) as [[[[st3 fe] se] h3]|[]|]; try done;
    (destruct (end_run _ _) as [st2 s2] eqn:E; intros [= _ _ <- _]; eapply end_static; [|exact E]); [|done].
  eapply static_trans; [exact H1|]. simpl. split; [done|]. rewrite Eb. split; by eexists.
Qed.

Lemma static_keeps s s' : same_static s s' → (SessionOk s → SessionOk s') ∧ Later s s'.
Proof.
  intros [E H]. split.
  - intros [H1 H2 H3]. split.
    + intros Hl. rewrite E in Hl. simpl in Hl. destruct (H1 Hl) as (? & ? & ? & ? & ? & ? & ? & Hs). rewrite E. unfold holds_nothing. simpl. split_and!; try done.
      destruct (session_state_ s') as [b|]; [|done]. rewrite Hs in H. by destruct (proj2 H (ex_intro _ b eq_refl)).
    + intros Hl. rewrite E in Hl. rewrite E. exact (H2 Hl).
    + intros Hl. rewrite E in Hl. destruct (H3 Hl) as (Ha & Hb & Hc). split_and!; [by rewrite E|by apply H|by rewrite E].
  - rewrite E. by split.
Qed.

Lemma providers_Add_keeps (ps : ExecutionProviders (T := T)) id p type q :
  Get_by_type ps type = Some q → Get_by_type (providers_Add ps id p).2 type = Some q.
Proof.
  unfold Get_by_type, providers_Add. destruct (provider_idx_map_ ps !! id) eqn:Ei; [done|]. destruct (existsb _ _); [done|]. simpl.
  destruct (decide (type = id)) as [->|Hne]; [by rewrite Ei|]. rewrite lookup_insert_ne by done.
  destruct (provider_idx_map_ ps !! type) as [i|]; [|done]. cbn. intros Hq. apply lookup_app_l_Some. done.
Qed.
Lemma providers_keep s ps :
  (∀ type p, Get_by_type (execution_providers_ s) type = Some p → Get_by_type ps type = Some p) →
  (SessionOk s → SessionOk (set_providers s ps)) ∧ Later s (set_providers s ps).
Proof. intros H. split; [intros [H1 H2 H3]|]; by split. Qed.
Lemma load_keeps s r st s' : Load s r = (st, s') → SessionOk s → SessionOk s' ∧ Later s s'.
Proof.
  unfold Load. intros H Hs. destruct (is_model_loaded_ s) eqn:El; [injection H as _ <-; split; [done|apply later_refl]|].
  destruct r as [m|c|[]]; injection H as _ <-; try (split; [done|apply later_refl]).
  destruct (so_none _ Hs El) as (E1 & E2 & E3 & E4 & E5 & E6 & E7 & E8). split; [|split; by rewrite ?El].
  split; simpl; [done| |].
  - intros _. split; [by eexists|]. exists m. unfold holds_model. simpl. rewrite E2, E3, E4, E5, E6, E7. split_and!; try done; apply (left_id_L ∅ (∪)).
  - intros Hi. destruct (so_inited _ Hs Hi). congruence.
Qed.
Lemma left_keeps s g :
  SessionOk s → is_model_loaded_ s = true → is_inited_ s = false → SessionOk (set_left (set_model s g)) ∧ Later s (set_left (set_model s g)).
Proof.
  intros [H1 H2 H3] El Ei. split; [|by split]. split; simpl; [congruence| |congruence]. intros H. split; [by eexists|]. by apply H2.
Qed.
Lemma built_keeps s g b :
  SessionOk s → is_model_loaded_ s = true →
  let s' := set_built (set_model s (CleanAllInitializedTensors g)) true (Some b) in SessionOk s' ∧ Later s s'.
Proof.
  intros [H1 H2 H3] El. split; [|by split]. split; simpl; [congruence| |].
  - intros H. split; [by eexists|]. by apply H2.
  - intros _. split_and!; [done|by eexists|]. by eexists.
Qed.
Lemma initialize_keeps s h st s' h' :
  Session_Initialize little_endian enable_sequential_execution enable_memory_pattern default_cpu GetExecutionProviderType CreateKernel
    TransformAndResolve TransformLeaves InitializeSubgraphSessions s h = Ok (st, s', h') → SessionOk s → SessionOk s' ∧ Later s s'.
Proof.
  unfold Session_Initialize. intros H Hs. assert (Hsame : SessionOk s ∧ Later s s) by (split; [done|apply later_refl]).
  destruct (is_model_loaded_ s) eqn:El; [|by injection H as _ <- _]. destruct (is_inited_ s) eqn:Ei; [by injection H as _ <- _|]. cbn [negb] in H.
  set (s1 := match Get_by_type (execution_providers_ s) kCpuExecutionProvider with Some _ => s | None => _ end) in H.
  assert (H1 : SessionOk s1 ∧ Later s s1 ∧ is_model_loaded_ s1 = true ∧ is_inited_ s1 = false).
  { subst s1. destruct (Get_by_type _ _); [by split_and!|].
    destruct (providers_keep s (providers_Add (execution_providers_ s) kCpuExecutionProvider default_cpu).2) as [Ha Hb]; [|split_and!; auto].
    intros. by apply providers_Add_keeps. }
  clearbody s1. destruct H1 as (Hs1 & Hl1 & El1 & Ei1). apply bind_Ok in H as (m & Hm & H).
  cut (SessionOk s' ∧ Later s1 s'); [intros [? ?]; split; [done|by eapply later_trans]|].
  destruct (TransformAndResolve m _) as [g|c|e]; [|injection H as _ <- _; by apply left_keeps..]. cbn [execution_providers_ set_model] in H.
  destruct (build_session _ _ _ _ _ _ _ _) as [[[[c|] [b|]] h1]|[]|] eqn:EB; try done; try (injection H as _ <- _; by apply left_keeps).
  rewrite (built_cleaned _ _ _ _ _ _ _ _ _ _ _ EB) in H. destruct (IsOK _); injection H as _ <- _; [by apply built_keeps|by apply left_keeps].
Qed.
Lemma step_keeps x x' : session_step x x' → SessionOk x.1 → SessionOk x'.1 ∧ Later x.1 x'.1.
Proof.
  destruct 1 as [s h p st s' H|s h r st s' H|s h parsed r st s' H|s h st s' h' _ H|s h terminate feeds output_names p_fetches st out s' h' H]; simpl; intros Hs.
  - unfold RegisterExecutionProvider in H. destruct p as [p|]; [|injection H as _ <-; split; [done|apply later_refl]].
    destruct (providers_Add _ _ _) as [st' ps] eqn:E. injection H as _ <-. destruct (providers_keep s ps) as [Ha Hb]; [|split; auto].
    intros type q Hq. apply (providers_Add_keeps _ (provider_Type p) p) in Hq. by rewrite E in Hq.
  - by eapply load_keeps.
  - unfold Load_istream in H. destruct (is_model_loaded_ s) eqn:El; [injection H as _ <-; split; [done|apply later_refl]|].
    destruct (negb parsed); [injection H as _ <-; split; [done|apply later_refl]|]. by eapply load_keeps.
  - by eapply initialize_keeps.
  - apply run_static, static_keeps in H as [Ha Hb]. auto.
Qed.

(** C24. Whatever calls a user makes of a new session, in whatever order and with
    whatever results, except that [Initialize] is not called again after it has
    failed on a model: the session holds nothing of a model until one is loaded,
    and from then on the names of the inputs and outputs of that one model, as it
    was loaded. It is initialized only with a model and with the state that runs
    use, so [Run] never finds that state missing, and then the graph has no
    weights left. No later call takes back that a model is loaded, its inputs and
    outputs, the initialization or a registered provider: a second [Load] is
    refused with MODEL_LOADED. Calls that end in undefined behaviour do not
    return and are not steps. *)
Theorem session_lifecycle runs h x :
  session_steps (new_InferenceSession runs, h) x →
  SessionOk x.1 ∧ ∀ y, session_steps x y → SessionOk y.1 ∧ Later x.1 y.1 ∧
    (is_model_loaded_ x.1 = true → ∀ r, Load y.1 r = (Some MODEL_LOADED, y.1)).
Proof.
  assert (Hk : ∀ x y, session_steps x y → SessionOk x.1 → SessionOk y.1 ∧ Later x.1 y.1).
  { induction 1 as [x0|x0 y z Hxy _ IH]; intros Hx; [split; [done|apply later_refl]|].
    destruct (step_keeps _ _ Hxy Hx) as [Hy Hl]. destruct (IH Hy) as [Hz Hl']. split; [done|by eapply later_trans]. }
  intros H. destruct (Hk _ _ H) as [Hx _]; [by split|]. split; [done|]. intros y Hy. destruct (Hk _ _ Hy Hx) as [Hoy Hl].
  split_and!; [done|done|]. intros Hx' r. unfold Load. by rewrite (la_loaded _ _ Hl Hx').
Qed.

(** ** Bindings *)

(** Each name is bound once, and each output has its place. *)
Record BindingOk (b : IOBinding (T := T)) : Prop := {
  bo_feeds : NoDup (feeds_ b).*1;
  bo_names : NoDup (output_names_ b);
  bo_places : length (outputs_ b) = length (output_names_ b);
}.

Lemma NoDup_filter_keys {A} (P : string * A → Prop) `{!∀ x, Decision (P x)} l : NoDup l.*1 → NoDup (filter P l).*1.
Proof.
  induction l as [|e l IH]; [done|]. rewrite fmap_cons, NoDup_cons. intros [H1 H2]. rewrite filter_cons. case_decide; [|auto].
  rewrite fmap_cons. apply NoDup_cons. split; [|auto]. intros (e' & E & [_ He]%list_elem_of_filter)%list_elem_of_fmap. apply H1, list_elem_of_fmap. eauto.
Qed.
Lemma feed_of_filter (l : list (string * MLValue T)) name n :
  feed_of (filter (fun e => fst e ≠ name) l) n = if decide (n = name) then None else feed_of l n.
Proof.
  unfold feed_of. induction l as [|[m v] l IH]; [by destruct (decide _)|]. rewrite filter_cons. simpl. destruct (decide (m = name)) as [->|Hm].
  - rewrite decide_False by auto. rewrite IH. destruct (decide (n = name)) as [->|Hne]; [done|]. rewrite decide_False by auto. by destruct (list_find _ l).
  - rewrite decide_True by done. simpl. destruct (decide (m = n)) as [->|Hmn].
    + by rewrite decide_False by auto.
    + destruct (list_find (fun e => e.1 = n) (filter _ l)) eqn:E1, (list_find (fun e => e.1 = n) l) eqn:E2; simpl in *;
        destruct (decide (n = name)); naive_solver.
Qed.
Lemma feed_of_app (l l' : list (string * MLValue T)) n : feed_of (l ++ l') n = match feed_of l n with Some v => Some v | None => feed_of l' n end.
Proof.
  unfold feed_of. induction l as [|[m v] l IH]; [done|]. simpl. destruct (decide (m = n)); [done|].
  destruct (list_find _ (l ++ l')) eqn:E1, (list_find _ l) eqn:E2; simpl in *; naive_solver.
Qed.
Lemma bind_feed_ok b h name (v : MLValue T) st b' h' :
  bind_feed b h name v = Ok (st, b', h') → st = StatusOK ∧ (BindingOk b → BindingOk b') ∧ output_names_ b' = output_names_ b ∧ outputs_ b' = outputs_ b ∧
  ∀ n, feed_of (feeds_ b') n = if decide (n = name) then Some v else feed_of (feeds_ b) n.
Proof.
  unfold bind_feed. intros (h1 & _ & [= <- <- <-])%bind_Ok. split_and!; try done.
  - intros [H1 H2 H3]. split; simpl; [|done|done]. rewrite fmap_app. apply NoDup_app. split_and!.
    + by apply NoDup_filter_keys.
    + intros n Hn. apply list_elem_of_fmap in Hn as (e & -> & He). apply list_elem_of_filter in He as [He _]. simpl. by intros ?%list_elem_of_singleton.
    + apply NoDup_singleton.
  - intros n. simpl. rewrite feed_of_app, feed_of_filter. destruct (decide (n = name)) as [->|Hne].
    + unfold feed_of. simpl. by rewrite decide_True.
    + destruct (feed_of (feeds_ b) n); [done|]. unfold feed_of. simpl. rewrite decide_False by auto. done.
Qed.

(** The bindings of a run. [BindInput] and [BindOutput] keep each name bound
    once, with a place for each output. Binding a value that is not a tensor, or a
    tensor that is already where it is used, binds that value; a tensor that has
    to be copied binds the copy; and no other binding changes. An error leaves the
    bindings as they were. A name that is bound as an output again keeps its
    place, a new one gets the last. *)
Theorem bindings_kept providers input_map b h name (v : MLValue T) :
  BindingOk b →
  (∀ st b' h', BindInput GetExecutionProviderType providers input_map b h name v = Ok (st, b', h') →
     BindingOk b' ∧ output_names_ b' = output_names_ b ∧ outputs_ b' = outputs_ b ∧
     (IsOK st = true → ∃ x, (x = share v ∨ IsTensor v = true ∧
        ∃ h1, CopyOneInputAcrossDevices GetExecutionProviderType providers input_map h name v = Ok (StatusOK, x, h1)) ∧
        ∀ n, feed_of (feeds_ b') n = if decide (n = name) then Some x else feed_of (feeds_ b) n) ∧
     (IsOK st = false → b' = b)) ∧
  (∀ st b' h', BindOutput b h name v = Ok (st, b', h') →
     st = StatusOK ∧ BindingOk b' ∧ feeds_ b' = feeds_ b ∧
     output_names_ b' = (if decide (name ∈ output_names_ b) then output_names_ b else output_names_ b ++ [name]) ∧
     (∃ i, output_names_ b' !! i = Some name ∧ outputs_ b' !! i = Some (share v)) ∧
     ∀ j n, n ≠ name → output_names_ b !! j = Some n → outputs_ b' !! j = outputs_ b !! j) ∧
  ((∀ x, x ∈ outputs_ b → IsAllocated x = false) → ∃ b', BindOutput b h name v = Ok (StatusOK, b', h)).
Proof.
  intros Hb. split_and!.
  - intros st b' h' H. unfold BindInput in H. destruct (IsTensor v) eqn:Et; cbn [negb] in H.
    + apply bind_Ok in H as ([[s1 x] h1] & Hc & H). destruct s1 as [c|]; cbn [IsOK negb] in H.
      * apply bind_Ok in H as (h2 & _ & [= <- <- <-]). by split_and!.
      * apply bind_feed_ok in H as (-> & Hk & Ho & Ho' & Hf). split_and!; [auto|done|done| |done]. intros _. exists x. split; [right; eauto|done].
    + apply bind_feed_ok in H as (-> & Hk & Ho & Ho' & Hf). split_and!; [auto|done|done| |done]. intros _. exists (share v). auto.
  - intros st b' h' H. unfold BindOutput in H. destruct Hb as [H1 H2 H3]. destruct (Contains (output_names_ b) name) as [i|] eqn:Ec.
    + apply Contains_Some in Ec. apply bind_Ok in H as (old & Hold & (h1 & _ & [= <- <- <-])%bind_Ok). simpl.
      rewrite decide_True by (by eapply list_elem_of_lookup_2). split_and!; try done.
      * split; simpl; [done|done|by rewrite length_insert].
      * exists i. split; [done|]. apply list_lookup_insert_eq. rewrite H3. by eapply lookup_lt_Some.
      * intros j n Hn Hj. apply list_lookup_insert_ne. intros ->. congruence.
    + apply Contains_None in Ec. injection H as <- <- <-. simpl. rewrite decide_False by done. split_and!; try done.
      * split; simpl; [done| |rewrite !length_app; simpl; lia]. apply NoDup_app. split_and!; [done| |apply NoDup_singleton].
        intros n Hn ->%list_elem_of_singleton. done.
      * exists (length (output_names_ b)). split; [by rewrite lookup_app_r, Nat.sub_diag by lia|]. rewrite <- H3. by rewrite lookup_app_r, Nat.sub_diag by lia.
      * intros j n _ Hj%lookup_lt_Some. apply lookup_app_l. lia.
  - intros He. unfold BindOutput. destruct Hb as [H1 H2 H3]. destruct (Contains (output_names_ b) name) as [i|] eqn:Ec; [|eauto].
    apply Contains_Some, lookup_lt_Some in Ec. rewrite <- H3 in Ec. destruct (lookup_lt_is_Some_2 _ _ Ec) as [old Hold]. rewrite Hold. cbn [of_option mbind res_bind].
    specialize (He old (list_elem_of_lookup_2 _ _ _ Hold)). unfold replace_value, drop_value, IsAllocated in *. destruct (data_ old); [done|].
    destruct (same_object old (share v)); cbn [mbind res_bind]; eauto.
Qed.

(** ** Synchronization *)

Lemma sync_set_null (m : gmap string (list (NodeInfo (T := T)))) : (∃ n infos i, m !! n = Some infos ∧ i ∈ infos ∧ p_node i = None) → sync_set GetExecutionProviderType m = Throw UndefinedBehaviour.
Proof.
  intros (n & infos & i & Hm & Hi & Hp). unfold sync_set. assert (Hin : i ∈ ((map_to_list m).*2 ≫= id)).
  { apply list_elem_of_bind. exists infos. split; [done|]. apply list_elem_of_fmap. exists (n, infos). split; [done|]. by apply elem_of_map_to_list. }
  revert Hin. generalize (∅ : gset string). induction ((map_to_list m).*2 ≫= id) as [|j l IH]; intros X Hin; [by apply not_elem_of_nil in Hin|].
  cbn [foldM]. destruct (p_node j) as [node|] eqn:Ej; [|done]. cbn [of_option mbind res_bind]. apply IH. apply elem_of_cons in Hin as [->|?]; [congruence|done].
Qed.

Lemma entries_sub L (e : NodeInfo (T := T)) : e ∈ entries_of GetExecutionProviderType L → e ∈ L.
Proof.
  unfold entries_of. destruct (List.filter explicit L) as [|u rest] eqn:E.
  - intros H. apply elem_of_take in H as (i & Hi & _). by eapply list_elem_of_lookup_2.
  - intros H. apply list_elem_of_In, (List.filter_In explicit). rewrite E. apply elem_of_cons in H as [->|H]; [by left|]. right.
    by apply list_elem_of_In, List.filter_In in H as [? _].
Qed.

(** A graph input that no node uses makes [SynchronizeInputs] dereference a
    null pointer: its entry in the mapping of the session has no node. If every
    input is used and every node is on the CPU, no provider has to wait. *)
Theorem sync_unused_input Sync providers (b : Built (T := T)) graph_inputs nodes :
  (∀ n, b_inputs b !! n = mapped_entry GetExecutionProviderType graph_inputs None nodes n) →
  ((∃ arg, arg ∈ graph_inputs ∧ uses_of (nodes ≫= node_uses graph_inputs None) (na_name arg) = []) →
     SynchronizeInputs GetExecutionProviderType Sync providers b = Throw UndefinedBehaviour) ∧
  ((∀ arg, arg ∈ graph_inputs → uses_of (nodes ≫= node_uses graph_inputs None) (na_name arg) ≠ []) →
     (∀ node, node ∈ nodes → GetExecutionProviderType node = kCpuExecutionProvider) →
     SynchronizeInputs GetExecutionProviderType Sync providers b = Ok StatusOK).
Proof.
  intros Hm. split.
  - intros (arg & Ha & Hu). unfold SynchronizeInputs, SyncProviders. rewrite sync_set_null; [done|].
    exists (na_name arg), [mkNodeInfo size_t_max None None]. eexists. split_and!; [|by left|done]. rewrite Hm. unfold mapped_entry. rewrite Hu.
    unfold IsArgNameInInputsOutputs. destruct (existsb _ _) eqn:E; [done|]. apply not_true_iff_false in E. destruct E. apply existsb_exists.
    exists arg. split; [by apply list_elem_of_In|by apply bool_decide_eq_true].
  - intros Hu Hc. unfold SynchronizeInputs, SyncProviders.
    assert (sync_set GetExecutionProviderType (b_inputs b) = Ok ∅) as ->; [|done].
    assert (Hall : Forall (fun i => ∃ node, p_node i = Some node ∧ node ∈ nodes) ((map_to_list (b_inputs b)).*2 ≫= id)).
    { apply Forall_forall. intros i (infos & Hi & ([n infos'] & -> & Hn)%list_elem_of_fmap)%list_elem_of_bind. apply elem_of_map_to_list in Hn. simpl in *.
      rewrite Hm in Hn. unfold mapped_entry in Hn. destruct (uses_of _ n) as [|u L] eqn:EL.
      - unfold IsArgNameInInputsOutputs in Hn. destruct (existsb _ _) eqn:E; [|done]. apply existsb_exists in E as (arg & Ha%list_elem_of_In & Hna%bool_decide_eq_true).
        destruct (Hu arg Ha). by rewrite Hna.
      - injection Hn as <-. apply entries_sub in Hi. rewrite <- EL in Hi. apply uses_elem, list_elem_of_bind in Hi as (node & Hi & Hnode).
        exists node. split; [|done]. by eapply node_uses_elem. }
    unfold sync_set. induction Hall as [|i l (node & Hn & Hin) _ IH]; [done|]. cbn [foldM]. rewrite Hn. cbn [of_option mbind res_bind].
    rewrite bool_decide_true by auto. exact IH.
Qed.
End life.

#[local] Existing Instance AllocPlannerProps.onnx_types.
#[local] Existing Instance ExecutionProps.Run.value_types.
#[local] Existing Instance WeightsProps.TwoWeights.element_types.

(** A model that is loaded and initialized. *)
Lemma session_lifecycle_witness :
  ∃ b h, let s := initialized_session Cpu.cpu Model.no_providers 0 Model.main Model.main b in
    session_steps true true true Cpu.cpu Cpu.on_cpu Model.create Model.transform Model.leaves Model.no_subgraphs Run.no_fence Run.run_kernel Model.quiet
      Model.quiet (new_InferenceSession 0, mkHeap 1 ∅) (s, h) ∧
    SessionOk s ∧ ∀ r, Load s r = (Some MODEL_LOADED, s).
Proof.
  destruct (initialized_ready true Cpu.cpu Cpu.on_cpu Model.create Model.transform Model.leaves Model.no_subgraphs Run.run_kernel (fun _ => Run.shape)
    (fun _ => 64) Cpu.cpu Model.no_providers 0 Model.main Model.main (mkHeap 1 ∅) eq_refl) as (b & h & E & _);
    [by split_and!|exact Model.main_init|exact Model.main_kernels|exact Model.main_cpu|done|by intros a ?%elem_of_empty|].
  exists b, h. intros s.
  assert (Hs : session_steps true true true Cpu.cpu Cpu.on_cpu Model.create Model.transform Model.leaves Model.no_subgraphs Run.no_fence Run.run_kernel
    Model.quiet Model.quiet (new_InferenceSession 0, mkHeap 1 ∅) (s, h)).
  { eapply rtc_l; [eapply (step_load _ _ _ _ _ _ _ _ _ _ _ _ _ _ _ (Gives Model.main) StatusOK); reflexivity|].
    apply rtc_once. eapply step_initialize; [reflexivity|exact E]. }
  destruct (session_lifecycle true true true Cpu.cpu Cpu.on_cpu Model.create Model.transform Model.leaves Model.no_subgraphs Run.no_fence Run.run_kernel
    Model.quiet Model.quiet 0 (mkHeap 1 ∅) (s, h) Hs) as [H1 H2].
  split_and!; [exact Hs|exact H1|]. apply (H2 _ (rtc_refl _ _)). reflexivity.
Defined.
Lemma bindings_kept_witness :
  ∃ b', BindOutput (mkIOBinding [] ["E"%string] [empty_MLValue]) Run.heap "E" (Run.input 0) = Ok (StatusOK, b', Run.heap) ∧
    output_names_ b' = ["E"%string] ∧ BindingOk b'.
Proof.
  destruct (bindings_kept Cpu.on_cpu Cpu.providers ∅ (mkIOBinding [] ["E"%string] [empty_MLValue]) Run.heap "E" (Run.input 0)) as (_ & H & Hb).
  { split; [constructor|apply NoDup_singleton|done]. }
  destruct Hb as [b' Eb]; [by intros x ->%list_elem_of_singleton|]. exists b'. split; [exact Eb|].
  destruct (H _ _ _ Eb) as (_ & Hok & _ & Hn & _). split; [|exact Hok]. rewrite Hn. by vm_compute.
Defined.
(** A graph with an input and no node. *)
Lemma sync_unused_input_witness :
  ∃ ins, SynchronizeInputs Cpu.on_cpu Model.quiet Cpu.providers (mkBuilt Run.session ∅ ins ∅ (mkWeights [] [] Run.heap)) = Throw UndefinedBehaviour.
Proof.
  destruct (save_mapping_ok Cpu.on_cpu [Example.arg "X"] [] None []) as (ins & outs & _ & Hins). exists ins.
  apply (sync_unused_input Cpu.on_cpu Model.quiet Cpu.providers (mkBuilt Run.session ∅ ins ∅ (mkWeights [] [] Run.heap)) [Example.arg "X"] [] Hins).
  exists (Example.arg "X"). split; [by left|reflexivity].
Defined.
