(* ===== verification/KernelRegistry.v ===== *)
(** Which kernel runs a node: [KernelDef] and its builder of
    [kernel_def_builder.cc], the registry of [kernel_registry.cc] and the manager
    of registries of [kernel_registry_manager.cc]. *)
From S2P Require Import Prelude.

Section registry.
(** [MLDataType], [TypeProto] and [DataTypeImpl::IsCompatible], for which
    [DataTypes] has the definitions: the registry needs of them only that types
    can be compared and that the test returns. [K] stands for the functions that
    create kernels. *)
Context {D P K : Type} `{!EqDecision D} (IsCompatible : D → P → bool).

(** ** Kernel definitions *)

Record OpKernelDef := mkRegKernelDef {
  op_name_ : string;
  op_since_version_start_ : Z;
  op_since_version_end_ : Z;
  op_domain_ : string;
  provider_type_ : string;
  type_constraints_ : list (string * list D);
  inplace_map_ : list (Z * Z);
  alias_map_ : list (Z * Z);
  input_memory_type_args_ : list (Z * Z);
  output_memory_type_args_ : list (Z * Z);
}.
Definition max_version : Z := 2 ^ 31 - 1.
Definition new_KernelDef : OpKernelDef := mkRegKernelDef "" 1 max_version "" "" [] [] [] [] [].

Definition SetName (d : OpKernelDef) (op_name : string) : OpKernelDef :=
  mkRegKernelDef op_name (op_since_version_start_ d) (op_since_version_end_ d) (op_domain_ d) (provider_type_ d) (type_constraints_ d)
    (inplace_map_ d) (alias_map_ d) (input_memory_type_args_ d) (output_memory_type_args_ d).
Definition SetDomain (d : OpKernelDef) (domain : string) : OpKernelDef :=
  mkRegKernelDef (op_name_ d) (op_since_version_start_ d) (op_since_version_end_ d) domain (provider_type_ d) (type_constraints_ d)
    (inplace_map_ d) (alias_map_ d) (input_memory_type_args_ d) (output_memory_type_args_ d).
Definition SinceVersion (d : OpKernelDef) (start stop : Z) : OpKernelDef :=
  mkRegKernelDef (op_name_ d) start stop (op_domain_ d) (provider_type_ d) (type_constraints_ d)
    (inplace_map_ d) (alias_map_ d) (input_memory_type_args_ d) (output_memory_type_args_ d).
Definition SetProvider (d : OpKernelDef) (provider_type : string) : OpKernelDef :=
  mkRegKernelDef (op_name_ d) (op_since_version_start_ d) (op_since_version_end_ d) (op_domain_ d) provider_type (type_constraints_ d)
    (inplace_map_ d) (alias_map_ d) (input_memory_type_args_ d) (output_memory_type_args_ d).
(** [type_constraints_[arg_name] = supported_types]. *)
Definition TypeConstraint (d : OpKernelDef) (arg_name : string) (supported_types : list D) : OpKernelDef :=
  mkRegKernelDef (op_name_ d) (op_since_version_start_ d) (op_since_version_end_ d) (op_domain_ d) (provider_type_ d)
    (filter (fun e => fst e ≠ arg_name) (type_constraints_ d) ++ [(arg_name, supported_types)])
    (inplace_map_ d) (alias_map_ d) (input_memory_type_args_ d) (output_memory_type_args_ d).
Definition MayInplace (d : OpKernelDef) (input_index output_index : Z) : OpKernelDef :=
  mkRegKernelDef (op_name_ d) (op_since_version_start_ d) (op_since_version_end_ d) (op_domain_ d) (provider_type_ d) (type_constraints_ d)
    (inplace_map_ d ++ [(input_index, output_index)]) (alias_map_ d) (input_memory_type_args_ d) (output_memory_type_args_ d).
Definition Alias (d : OpKernelDef) (input_index output_index : Z) : OpKernelDef :=
  mkRegKernelDef (op_name_ d) (op_since_version_start_ d) (op_since_version_end_ d) (op_domain_ d) (provider_type_ d) (type_constraints_ d)
    (inplace_map_ d) (alias_map_ d ++ [(input_index, output_index)]) (input_memory_type_args_ d) (output_memory_type_args_ d).
(** [InputMemoryType] and [OutputMemoryType] insert into a map: the first entry
    of an index stays. *)
Definition insert_mem_type (m : list (Z * Z)) (index type : Z) : list (Z * Z) :=
  if bool_decide (index ∈ m.*1) then m else m ++ [(index, type)].
Definition InputMemoryType (d : OpKernelDef) (type input_index : Z) : OpKernelDef :=
  mkRegKernelDef (op_name_ d) (op_since_version_start_ d) (op_since_version_end_ d) (op_domain_ d) (provider_type_ d) (type_constraints_ d)
    (inplace_map_ d) (alias_map_ d) (insert_mem_type (input_memory_type_args_ d) input_index type) (output_memory_type_args_ d).
Definition OutputMemoryType (d : OpKernelDef) (type output_index : Z) : OpKernelDef :=
  mkRegKernelDef (op_name_ d) (op_since_version_start_ d) (op_since_version_end_ d) (op_domain_ d) (provider_type_ d) (type_constraints_ d)
    (inplace_map_ d) (alias_map_ d) (input_memory_type_args_ d) (insert_mem_type (output_memory_type_args_ d) output_index type).

Definition find_key {A} (m : list (string * A)) (k : string) : option A := snd <$> (snd <$> list_find (fun e => fst e = k) m).
Definition find_index (m : list (Z * Z)) (k : Z) : option Z := snd <$> (snd <$> list_find (fun e => fst e = k) m).

Definition AreIntervalsOverlap (start1 end1 start2 end2 : Z) : bool := (start1 <=? end2) && (start2 <=? end1).
Definition AreVectorsOverlap (v1 v2 : list D) : bool := existsb (fun type => bool_decide (type ∈ v2)) v1.

Definition types_overlap (d other : OpKernelDef) : bool :=
  forallb (fun it => match find_key (type_constraints_ other) (fst it) with
                     | Some types => AreVectorsOverlap (snd it) types
                     | None => true
                     end) (type_constraints_ d).
(** The same pair in both maps; an index of the first map that is missing in the
    second passes. *)
Definition same_input_mem_type (d other : OpKernelDef) : bool :=
  existsb (fun it => bool_decide (find_index (input_memory_type_args_ other) (fst it) = Some (snd it))) (input_memory_type_args_ d).
(** The loop over the outputs looks the memory type itself up as an index. *)
Fixpoint same_output_mem_type (l other : list (Z * Z)) : res bool :=
  match l with
  | [] => Ok false
  | it :: l' =>
      if bool_decide (is_Some (find_index other (fst it)))
      then type ← of_option UndefinedBehaviour (find_index other (u64 (snd it)));
           if type =? snd it then Ok true else same_output_mem_type l' other
      else same_output_mem_type l' other
  end.
Definition IsConflict (d other : OpKernelDef) : res bool :=
  if negb (bool_decide (op_name_ d = op_name_ other)) || negb (bool_decide (provider_type_ d = provider_type_ other)) then Ok false
  else if negb (AreIntervalsOverlap (op_since_version_start_ d) (op_since_version_end_ d)
                  (op_since_version_start_ other) (op_since_version_end_ other)) then Ok false
  else if negb (types_overlap d other) then Ok false
  else if bool_decide (inplace_map_ d = []) && negb (bool_decide (inplace_map_ other = [])) then Ok false
  else if negb (forallb (fun it => bool_decide (it ∈ inplace_map_ other)) (inplace_map_ d)) then Ok false
  else if negb (forallb (fun it => bool_decide (it ∈ alias_map_ other)) (alias_map_ d)) then Ok false
  else if bool_decide (alias_map_ d = []) && negb (bool_decide (alias_map_ other = [])) then Ok false
  else if same_input_mem_type d other then Ok false
  else if bool_decide (input_memory_type_args_ d = []) && negb (bool_decide (input_memory_type_args_ other = [])) then Ok false
  else
    same ← same_output_mem_type (output_memory_type_args_ d) (output_memory_type_args_ other);
    if same : bool then Ok false
    else Ok (negb (bool_decide (output_memory_type_args_ d = []) && negb (bool_decide (output_memory_type_args_ other = [])))).

(** ** Nodes *)

Record FormalParameter := mkFormalParameter { fp_name : string; fp_type_str : string }.
Record OpSchema := mkOpSchema {
  os_inputs : list FormalParameter;
  os_outputs : list FormalParameter;
  os_since_version : Z;
}.
(** [TypeAsProto] is null for an argument without a type. *)
Record OpArg := mkOpArg { oa_exists : bool; oa_type : option P }.
Record OpNode := mkOpNode {
  on_op_type : string;
  on_domain : string;
  on_provider : string;
  on_schema : OpSchema;
  on_input_arg_count : list nat;
  on_input_defs : list OpArg;
  on_output_defs : list OpArg;
}.

(** [TraverseFormalParametersWithTypeProto]: [f] gives the new state and whether
    to go on; a state that is final is on the left. *)
Section traverse.
Context {S : Type} (filter_fn : FormalParameter → bool) (f : S → FormalParameter → option P → S * bool) (node : OpNode).

Definition visit (s : S) (param : FormalParameter) (arg : OpArg) : S + S :=
  if oa_exists arg then let '(s, go) := f s param (oa_type arg) in if go : bool then inr s else inl s else inr s.
Fixpoint visit_actuals (s : S) (param : FormalParameter) (actual : nat) (count : nat) : res (S + S) :=
  match count with
  | O => Ok (inr s)
  | Datatypes.S count' =>
      arg ← of_option UndefinedBehaviour (on_input_defs node !! actual);
      match visit s param arg with
      | inl s => Ok (inl s)
      | inr s => visit_actuals s param (Datatypes.S actual) count'
      end
  end.
Fixpoint visit_inputs (s : S) (params : list FormalParameter) (counts : list nat) (actual : nat) : res (S + S) :=
  match counts with
  | [] => Ok (inr s)
  | count :: counts' =>
      match params with
      | [] => Throw UndefinedBehaviour
      | param :: params' =>
          r ← (if filter_fn param then visit_actuals s param actual count else Ok (inr s));
          match r with
          | inl s => Ok (inl s)
          | inr s => visit_inputs s params' counts' (actual + count)%nat
          end
      end
  end.
Fixpoint visit_outputs (s : S) (args : list OpArg) (i : nat) : res S :=
  match args with
  | [] => Ok s
  | arg :: args' =>
      formal ← of_option UndefinedBehaviour (os_outputs (on_schema node) !! Nat.min i (length (os_outputs (on_schema node)) - 1));
      if filter_fn formal
      then match visit s formal arg with inl s => Ok s | inr s => visit_outputs s args' (Datatypes.S i) end
      else visit_outputs s args' (Datatypes.S i)
  end.
Definition TraverseFormalParametersWithTypeProto (s : S) : res S :=
  _ ← enforce (length (on_input_arg_count node) <=? length (os_inputs (on_schema node)))%nat;
  r ← visit_inputs s (os_inputs (on_schema node)) (on_input_arg_count node) 0;
  match r with
  | inl s => Ok s
  | inr s => visit_outputs s (on_output_defs node) 0
  end.
End traverse.

(** ** Types of parameters *)

Abbreviation TypeBindingMap := (gmap string (option P)).
Definition emplace (m : TypeBindingMap) (k : string) (type : option P) : TypeBindingMap :=
  match m !! k with Some _ => m | None => <[k := type]> m end.
Record TypeBindingResolver := mkResolver {
  node_ : OpNode;
  type_binding_map_ : option TypeBindingMap;
}.
Definition new_TypeBindingResolver (node : OpNode) (use_lookup_map : bool) : res TypeBindingResolver :=
  if use_lookup_map
  then m ← TraverseFormalParametersWithTypeProto (fun _ => true)
             (fun m param type => (emplace (emplace m (fp_name param) type) (fp_type_str param) type, true)) node ∅;
       Ok (mkResolver node (Some m))
  else Ok (mkResolver node None).
Definition Resolve (r : TypeBindingResolver) (name_or_type_str : string) : res (option P) :=
  match type_binding_map_ r with
  | Some m => Ok (default None (m !! name_or_type_str))
  | None =>
      TraverseFormalParametersWithTypeProto
        (fun param => bool_decide (fp_name param = name_or_type_str) || bool_decide (fp_type_str param = name_or_type_str))
        (fun _ _ type => (type, false)) (node_ r) None
  end.

(** ** Matching *)

Definition valid_version (start stop node_since_version : Z) : bool :=
  (start =? node_since_version) || ((start <? node_since_version) && negb (stop =? max_version) && (node_since_version <=? stop)).
Fixpoint verify_types (r : TypeBindingResolver) (constraints : list (string * list D)) : res bool :=
  match constraints with
  | [] => Ok true
  | (name, allowed_types) :: rest =>
      actual_type ← Resolve r name;
      match actual_type with
      | Some t => if existsb (fun expected => IsCompatible expected t) allowed_types then verify_types r rest else Ok false
      | None => verify_types r rest
      end
  end.
Definition expected_provider (node : OpNode) (exec_provider : string) : string :=
  if bool_decide (on_provider node = ""%string) then exec_provider else on_provider node.
Definition use_lookup_map (node : OpNode) (def : OpKernelDef) : bool :=
  (50 * 50 <? length (type_constraints_ def) * (length (os_inputs (on_schema node)) + length (os_outputs (on_schema node))))%nat.
Definition VerifyKernelDef (node : OpNode) (def : OpKernelDef) (exec_provider : string) : res bool :=
  if negb (bool_decide (on_domain node = op_domain_ def)) then Ok false
  else if negb (bool_decide (expected_provider node exec_provider = provider_type_ def)) then Ok false
  else if negb (valid_version (op_since_version_start_ def) (op_since_version_end_ def) (os_since_version (on_schema node))) then Ok false
  else
    r ← new_TypeBindingResolver node (use_lookup_map node def);
    verify_types r (type_constraints_ def).

(** ** The registry *)

Record KernelCreateInfo := mkCreateInfo {
  kernel_def : OpKernelDef;
  kernel_create_func : K;
  status : Status;
}.
(** The move constructor leaves the status out. *)
Definition move_info (other : KernelCreateInfo) : KernelCreateInfo := mkCreateInfo (kernel_def other) (kernel_create_func other) StatusOK.
(** The entries of the multimap [kernel_creator_fn_map_], in the order in which
    they were put there. *)
Abbreviation KernelRegistry := (list KernelCreateInfo).
Definition equal_range (r : KernelRegistry) (op_name : string) : list KernelCreateInfo :=
  filter (fun i => op_name_ (kernel_def i) = op_name) r.
Fixpoint has_conflict (l : list KernelCreateInfo) (def : OpKernelDef) : res bool :=
  match l with
  | [] => Ok false
  | i :: l' =>
      if IsOK (status i)
      then c ← IsConflict (kernel_def i) def; if c : bool then Ok true else has_conflict l' def
      else has_conflict l' def
  end.
(** An entry in conflict is moved into the map as well. *)
Definition Register (r : KernelRegistry) (def : OpKernelDef) (create : K) : res (Status * KernelRegistry) :=
  c ← has_conflict (equal_range r (op_name_ def)) def;
  let st := if c : bool then Some FAIL else StatusOK in
  Ok (st, r ++ [move_info (mkCreateInfo def create st)]).
Fixpoint find_kernel (node : OpNode) (exec_provider : string) (l : list KernelCreateInfo) : res (option KernelCreateInfo) :=
  match l with
  | [] => Ok None
  | i :: l' =>
      if IsOK (status i)
      then ok ← VerifyKernelDef node (kernel_def i) exec_provider; if ok : bool then Ok (Some i) else find_kernel node exec_provider l'
      else find_kernel node exec_provider l'
  end.
Definition TryFindKernel (r : KernelRegistry) (node : OpNode) (exec_provider : string) : res (option KernelCreateInfo) :=
  find_kernel node exec_provider (equal_range r (on_op_type node)).
Definition registry_CreateKernel (r : KernelRegistry) (node : OpNode) (provider : string) : res (Status * option K) :=
  info ← TryFindKernel r node provider;
  Ok (match info with None => (Some FAIL, None) | Some i => (StatusOK, Some (kernel_create_func i)) end).

(** ** The manager *)

Inductive KernelRegistryPriority := HighPriority | LowPriority.
Abbreviation KernelRegistryManager := (list KernelRegistry).
Definition RegisterKernelRegistry (m : KernelRegistryManager) (kernel_registry : option KernelRegistry) (priority : KernelRegistryPriority) :
    KernelRegistryManager :=
  match kernel_registry with
  | None => m
  | Some r => match priority with HighPriority => r :: m | LowPriority => m ++ [r] end
  end.
Definition RegisterKernels (m : KernelRegistryManager) (registries_of_providers : list (option KernelRegistry)) (priority : KernelRegistryPriority) :
    KernelRegistryManager :=
  foldl (fun m r => RegisterKernelRegistry m r priority) m registries_of_providers.
Fixpoint create_first (l : list KernelRegistry) (st : Status) (node : OpNode) (provider : string) : res (Status * option K) :=
  match l with
  | [] => Ok (st, None)
  | r :: l' =>
      '(st, k) ← registry_CreateKernel r node provider;
      if IsOK st then Ok (st, k) else create_first l' st node provider
  end.
Definition CreateKernel (m : KernelRegistryManager) (node : OpNode) (provider : string) : res (Status * option K) :=
  if bool_decide (length m = 0%nat) then Ok (Some FAIL, None) else create_first m StatusOK node provider.
Fixpoint search_first (l : list KernelRegistry) (node : OpNode) : res (Status * option KernelCreateInfo) :=
  match l with
  | [] => Ok (Some FAIL, None)
  | r :: l' =>
      info ← TryFindKernel r node "";
      match info with Some i => Ok (StatusOK, Some i) | None => search_first l' node end
  end.
Definition SearchKernelRegistry (m : KernelRegistryManager) (node : OpNode) : res (Status * option KernelCreateInfo) :=
  if bool_decide (length m = 0%nat) then Ok (Some FAIL, None) else search_first m node.
End registry.
