(* ===== verification/KernelRegistryProps.v ===== *)
(** Properties of the kernel registries: the two ways to resolve a type agree, the
    kernel of a node does not depend on the order of registration, the planner
    and the initializer get the same one, and what the test for conflicts lets
    pass. *)
From S2P Require Import Prelude Transpose DataTypes DataTypesProps KernelRegistry.

Section props.
Context {D P K : Type} `{!EqDecision D} (IsCompatible : D → P → bool).
Implicit Types (node : OpNode (P := P)) (def : OpKernelDef (D := D)) (arg : OpArg (P := P)) (param : FormalParameter).
Abbreviation Binding := (FormalParameter * option P)%type.

(** ** The parameters of a node *)

Definition bind_args param (args : list (OpArg (P := P))) : list Binding := (fun a => (param, oa_type a)) <$> List.filter oa_exists args.
Fixpoint input_bindings (params : list FormalParameter) (counts : list nat) (args : list (OpArg (P := P))) : list Binding :=
  match counts, params with
  | count :: counts', param :: params' => bind_args param (take count args) ++ input_bindings params' counts' (drop count args)
  | _, _ => []
  end.
Definition output_param node (i : nat) : FormalParameter :=
  default (mkFormalParameter "" "") (os_outputs (on_schema node) !! Nat.min i (length (os_outputs (on_schema node)) - 1)).
Definition output_bindings node : list Binding :=
  imap (fun i a => (i, a)) (on_output_defs node) ≫= fun ia => bind_args (output_param node ia.1) [ia.2].
(** Each formal parameter with the types of its actual ones, in the order of the
    traversal. *)
Definition bindings node : list Binding :=
  input_bindings (os_inputs (on_schema node)) (on_input_arg_count node) (on_input_defs node) ++ output_bindings node.

(** A node as [Graph::Resolve] leaves it: a count for each formal input that is
    used, as many arguments as they say, and a formal output if there are any. *)
Record NodeOk node : Prop := {
  nk_counts : (length (on_input_arg_count node) ≤ length (os_inputs (on_schema node)))%nat;
  nk_args : (sum_list (on_input_arg_count node) ≤ length (on_input_defs node))%nat;
  nk_outputs : on_output_defs node ≠ [] → os_outputs (on_schema node) ≠ [];
}.

(** The traversal as a loop over the bindings. *)
Fixpoint run {S} (f : S → FormalParameter → option P → S * bool) (s : S) (l : list Binding) : S + S :=
  match l with
  | [] => inr s
  | (param, type) :: l' => let '(s, go) := f s param type in if go : bool then run f s l' else inl s
  end.
Lemma run_app {S} (f : S → FormalParameter → option P → S * bool) s l l' :
  run f s (l ++ l') = match run f s l with inl s => inl s | inr s => run f s l' end.
Proof. revert s. induction l as [|[p t] l IH]; intros s; simpl; [done|]. destruct (f s p t) as [s' []]; [apply IH|done]. Qed.
Lemma run_visit {S} (f : S → FormalParameter → option P → S * bool) s param arg : visit f s param arg = run f s (bind_args param [arg]).
Proof. unfold visit, bind_args. simpl. destruct (oa_exists arg); [|done]. simpl. by destruct (f s param (oa_type arg)) as [? []]. Qed.

Section traverse.
Context {S : Type} (filter_fn : FormalParameter → bool) (f : S → FormalParameter → option P → S * bool) (node : OpNode (P := P)).
Abbreviation kept := (List.filter (fun b : Binding => filter_fn (fst b))).

Lemma bind_args_app param l l' : bind_args param (l ++ l') = bind_args param l ++ bind_args param l'.
Proof. unfold bind_args. by rewrite List.filter_app, fmap_app. Qed.
Lemma kept_args param args : kept (bind_args param args) = if filter_fn param then bind_args param args else [].
Proof.
  unfold bind_args. destruct (filter_fn param) eqn:E; induction (List.filter oa_exists args) as [|a l IH]; simpl; rewrite ?E; [done|f_equal; apply IH|done|apply IH].
Qed.
Lemma visit_actuals_run s param actual count :
  (actual + count ≤ length (on_input_defs node))%nat →
  visit_actuals f node s param actual count = Ok (run f s (bind_args param (take count (drop actual (on_input_defs node))))).
Proof.
  revert s actual. induction count as [|count IH]; intros s actual Hl; [done|]. cbn [visit_actuals].
  destruct (lookup_lt_is_Some_2 (on_input_defs node) actual) as [arg Ha]; [lia|]. rewrite Ha. cbn [of_option mbind res_bind].
  rewrite (drop_S _ _ _ Ha). cbn [take]. change (arg :: ?l) with ([arg] ++ l). rewrite bind_args_app, run_app, <- run_visit.
  destruct (visit f s param arg); [done|]. apply IH. lia.
Qed.
Lemma visit_inputs_run s params counts actual :
  (length counts ≤ length params)%nat → (actual + sum_list counts ≤ length (on_input_defs node))%nat →
  visit_inputs filter_fn f node s params counts actual = Ok (run f s (kept (input_bindings params counts (drop actual (on_input_defs node))))).
Proof.
  revert s params actual. induction counts as [|count counts IH]; intros s params actual Hp Hl; [by destruct params|].
  destruct params as [|param params]; [simpl in Hp; lia|]. simpl in Hp, Hl. cbn [visit_inputs input_bindings]. rewrite List.filter_app, run_app, kept_args.
  assert ((if filter_fn param then visit_actuals f node s param actual count else Ok (inr s)) =
    Ok (run f s (if filter_fn param then bind_args param (take count (drop actual (on_input_defs node))) else []))) as ->.
  { destruct (filter_fn param); [|done]. apply visit_actuals_run. lia. }
  cbn [mbind res_bind]. destruct (run f s _) as [s'|s']; [done|]. rewrite IH by lia. by rewrite drop_drop.
Qed.
Lemma visit_outputs_run s args i :
  (args ≠ [] → os_outputs (on_schema node) ≠ []) →
  visit_outputs filter_fn f node s args i =
    Ok (match run f s (kept (imap (fun j a => (i + j, a)%nat) args ≫= fun ia => bind_args (output_param node ia.1) [ia.2])) with inl s => s | inr s => s end).
Proof.
  revert s i. induction args as [|arg args IH]; intros s i Hne; [done|]. cbn [visit_outputs].
  assert (Hout : os_outputs (on_schema node) !! Nat.min i (length (os_outputs (on_schema node)) - 1) = Some (output_param node i)).
  { unfold output_param. destruct (os_outputs (on_schema node)) as [|p ps] eqn:E; [by destruct Hne|].
    destruct (lookup_lt_is_Some_2 (p :: ps) (Nat.min i (length (p :: ps) - 1))) as [q Hq]; [simpl; lia|]. by rewrite Hq. }
  rewrite Hout. cbn [of_option mbind res_bind]. rewrite imap_cons, bind_cons, List.filter_app, run_app. cbn [fst snd]. rewrite Nat.add_0_r, kept_args.
  assert (imap ((fun j a => (i + j, a)%nat) ∘ Datatypes.S) args = imap (fun j a => (Datatypes.S i + j, a)%nat) args) as -> by (apply imap_ext; intros; simpl; f_equal; lia).
  destruct (filter_fn (output_param node i)).
  - rewrite <- run_visit. destruct (visit f s (output_param node i) arg); [done|]. apply IH. intros _. by apply Hne.
  - cbn [run]. apply IH. intros _. by apply Hne.
Qed.
Lemma traverse_run s :
  NodeOk node →
  TraverseFormalParametersWithTypeProto filter_fn f node s =
    Ok (match run f s (kept (bindings node)) with inl s => s | inr s => s end).
Proof.
  intros [H1 H2 H3]. unfold TraverseFormalParametersWithTypeProto. rewrite (proj2 (Nat.leb_le _ _) H1). cbn [enforce mbind res_bind].
  rewrite visit_inputs_run by done. cbn [mbind res_bind]. unfold bindings. rewrite List.filter_app, run_app, drop_0.
  destruct (run f s _) as [s'|s']; [done|]. rewrite visit_outputs_run by done. unfold output_bindings. done.
Qed.
End traverse.

(** ** Types *)

Definition named (name : string) (b : Binding) : bool := bool_decide (fp_name b.1 = name) || bool_decide (fp_type_str b.1 = name).
(** The type of the first actual parameter that the name or the type string of its
    formal parameter picks. *)
Definition type_of node (name : string) : option P := match List.filter (named name) (bindings node) with b :: _ => b.2 | [] => None end.

Lemma emplace_lookup (m : gmap string (option P)) k t k' : emplace m k t !! k' = match m !! k' with Some x => Some x | None => if decide (k = k') then Some t else None end.
Proof.
  unfold emplace. destruct (m !! k) as [x|] eqn:E.
  - destruct (m !! k') eqn:E'; [done|]. destruct (decide (k = k')) as [->|]; [congruence|done].
  - destruct (decide (k = k')) as [->|Hne]; [by rewrite lookup_insert_eq, E|]. rewrite lookup_insert_ne by done. by destruct (m !! k').
Qed.
Abbreviation add_binding := (fun (m : gmap string (option P)) param type => (emplace (emplace m (fp_name param) type) (fp_type_str param) type, true)).
Lemma run_map m (l : list Binding) name :
  ∃ m', run add_binding m l = inr m' ∧
    m' !! name = match m !! name with Some t => Some t | None => snd <$> head (List.filter (named name) l) end.
Proof.
  revert m. induction l as [|[param t] l IH]; intros m; [exists m; split; [done|]; by destruct (m !! name)|]. cbn [run].
  destruct (IH (emplace (emplace m (fp_name param) t) (fp_type_str param) t)) as (m' & -> & Hm'). exists m'. split; [done|]. rewrite Hm', !emplace_lookup.
  cbn [List.filter]. unfold named at 2. cbn [fst]. destruct (m !! name); [done|].
  destruct (decide (fp_name param = name)) as [E|E]; [by rewrite bool_decide_true by done|]. rewrite bool_decide_false by done. cbn [orb].
  destruct (decide (fp_type_str param = name)) as [E'|E']; [by rewrite bool_decide_true by done|]. by rewrite bool_decide_false by done.
Qed.
Lemma filter_true {A} (l : list A) : List.filter (fun _ => true) l = l.
Proof. induction l as [|x l IH]; simpl; [done|by rewrite IH]. Qed.
Lemma resolve_type node use name r :
  NodeOk node → new_TypeBindingResolver node use = Ok r → Resolve r name = Ok (type_of node name).
Proof.
  intros Hk. unfold new_TypeBindingResolver, type_of. destruct use.
  - rewrite traverse_run by done. rewrite filter_true. cbn [mbind res_bind]. destruct (run_map ∅ (bindings node) name) as (m & -> & Hm). intros [= <-].
    unfold Resolve. cbn [type_binding_map_]. rewrite Hm, lookup_empty. by destruct (List.filter (named name) (bindings node)).
  - intros [= <-]. unfold Resolve. cbn [type_binding_map_ node_]. rewrite traverse_run by done.
    change (List.filter (fun b => bool_decide (fp_name (fst b) = name) || bool_decide (fp_type_str (fst b) = name)) (bindings node))
      with (List.filter (named name) (bindings node)). by destruct (List.filter (named name) (bindings node)) as [|[p t] l].
Qed.
Lemma resolver_total node use : NodeOk node → ∃ r, new_TypeBindingResolver node use = Ok r.
Proof. intros Hk. unfold new_TypeBindingResolver. destruct use; [|eauto]. rewrite traverse_run by done. cbn [mbind res_bind]. eauto. Qed.

(** C19. The two ways in which a registry finds the type that a name of a type
    constraint stands for agree: the table that is filled once for all names of a
    node, and the search through the parameters of the node for each name. Both
    give the type of the first actual parameter whose formal parameter has the
    name or the type string. *)
Theorem resolvers_agree node name :
  NodeOk node →
  ∃ table search, new_TypeBindingResolver node true = Ok table ∧ new_TypeBindingResolver node false = Ok search ∧
    Resolve table name = Resolve search name ∧ Resolve search name = Ok (type_of node name).
Proof.
  intros Hk. destruct (resolver_total node true Hk) as [t Et], (resolver_total node false Hk) as [q Eq]. exists t, q.
  rewrite (resolve_type _ _ _ _ Hk Et), (resolve_type _ _ _ _ Hk Eq). done.
Qed.

(** ** Matching *)

Definition type_allowed node (c : string * list D) : bool :=
  match type_of node c.1 with Some t => existsb (fun d => IsCompatible d t) c.2 | None => true end.
Definition fits node def (exec_provider : string) : bool :=
  bool_decide (on_domain node = op_domain_ def) && bool_decide (expected_provider node exec_provider = provider_type_ def) &&
  valid_version (op_since_version_start_ def) (op_since_version_end_ def) (os_since_version (on_schema node)) &&
  forallb (type_allowed node) (type_constraints_ def).
Lemma verify_fits node def exec_provider : NodeOk node → VerifyKernelDef IsCompatible node def exec_provider = Ok (fits node def exec_provider).
Proof.
  intros Hk. unfold VerifyKernelDef, fits. case_bool_decide; [|done]. case_bool_decide; [|done]. cbn [negb andb].
  destruct (valid_version _ _ _); [|done]. cbn [negb andb]. destruct (resolver_total node (use_lookup_map node def) Hk) as [r Er]. rewrite Er. cbn [mbind res_bind].
  induction (type_constraints_ def) as [|[name allowed] l IH]; [done|]. cbn [verify_types forallb]. rewrite (resolve_type _ _ _ _ Hk Er). cbn [mbind res_bind].
  unfold type_allowed at 1. cbn [fst snd]. destruct (type_of node name) as [t|]; [|apply IH]. by destruct (existsb _ allowed).
Qed.
Lemma find_kernel_spec node exec_provider l :
  NodeOk node → find_kernel (K := K) IsCompatible node exec_provider l =
    Ok (head (List.filter (fun i => IsOK (status i) && fits node (kernel_def i) exec_provider) l)).
Proof.
  intros Hk. induction l as [|i l IH]; [done|]. cbn [find_kernel List.filter]. destruct (IsOK (status i)); [|apply IH]. rewrite verify_fits by done.
  cbn [mbind res_bind andb]. by destruct (fits node (kernel_def i) exec_provider).
Qed.

(** ** The choice of a kernel *)

(** A kernel that declares no memory types and no sharing of buffers. *)
Definition plain def : Prop :=
  inplace_map_ def = [] ∧ alias_map_ def = [] ∧ input_memory_type_args_ def = [] ∧ output_memory_type_args_ def = [].
Lemma find_key_elem {A} (m : list (string * A)) k x : find_key m k = Some x → (k, x) ∈ m.
Proof.
  unfold find_key. destruct (list_find _ m) as [[i [k' y]]|] eqn:E; [|done]. cbn. intros [= ->]. apply list_find_Some in E as (Hi & Hk & _).
  cbn in Hk. subst k'. by eapply list_elem_of_lookup_2.
Qed.
(** The constraints name only types of the set [Q]. *)
Definition types_in (Q : D → bool) def : Prop := ∀ c d, c ∈ type_constraints_ def → d ∈ c.2 → Q d = true.
Lemma fits_conflict (Q : D → bool) node def def' exec_provider :
  (∀ d d' t, Q d = true → Q d' = true → IsCompatible d t = true → IsCompatible d' t = true → d = d') → types_in Q def → types_in Q def' →
  (∀ c, c ∈ type_constraints_ def → is_Some (type_of node c.1)) →
  plain def → plain def' → op_since_version_start_ def ≤ op_since_version_end_ def → op_since_version_start_ def' ≤ op_since_version_end_ def' →
  op_name_ def = op_name_ def' → fits node def exec_provider = true → fits node def' exec_provider = true → IsConflict def def' = Ok true.
Proof.
  intros HC HQ HQ' Ht (P1 & P2 & P3 & P4) (Q1 & Q2 & Q3 & Q4) V V' Hn F F'. unfold fits in F, F'. rewrite !andb_true_iff, !bool_decide_eq_true in F, F'.
  destruct F as [[[F1 F2] F3] F4], F' as [[[F1' F2'] F3'] F4']. unfold IsConflict, same_input_mem_type. rewrite P1, P2, P3, P4, Q1, Q2, Q3, Q4.
  rewrite !bool_decide_true by congruence. unfold valid_version in F3, F3'.
  assert (AreIntervalsOverlap (op_since_version_start_ def) (op_since_version_end_ def) (op_since_version_start_ def') (op_since_version_end_ def') = true) as ->.
  { unfold AreIntervalsOverlap. rewrite orb_true_iff, !andb_true_iff, Z.eqb_eq, Z.ltb_lt, Z.leb_le in F3, F3'. rewrite andb_true_iff, !Z.leb_le. lia. }
  assert (types_overlap def def' = true) as ->; [|done]. unfold types_overlap. apply forallb_forall. intros [k types] Hin%list_elem_of_In. cbn [fst snd].
  destruct (find_key (type_constraints_ def') k) as [types'|] eqn:Ek; [|done]. apply find_key_elem in Ek.
  pose proof (fun d => HQ _ d Hin) as HQd. pose proof (fun d => HQ' _ d Ek) as HQd'. cbn in HQd, HQd'.
  destruct (Ht _ Hin) as [t Hty]. cbn in Hty. rewrite forallb_forall in F4, F4'. apply list_elem_of_In, F4 in Hin. apply list_elem_of_In, F4' in Ek.
  unfold type_allowed in Hin, Ek. cbn [fst snd] in *. rewrite Hty in Hin, Ek. apply existsb_exists in Hin as (d & Hd & Hc), Ek as (d' & Hd' & Hc').
  unfold AreVectorsOverlap. apply existsb_exists. exists d. split; [done|]. apply bool_decide_eq_true, list_elem_of_In.
  by rewrite (HC d d' t (HQd d ltac:(by apply list_elem_of_In)) (HQd' d' ltac:(by apply list_elem_of_In)) Hc Hc').
Qed.

(** The registries that [Register] builds without an error. *)
Inductive built_registry : list (KernelCreateInfo (D := D) (K := K)) → Prop :=
  | built_empty : built_registry []
  | built_register r def k r' : built_registry r → Register r def k = Ok (StatusOK, r') → built_registry r'.

Section choice.
Context (node : OpNode (P := P)) (exec_provider : string) (Q : D → bool).
(** A type message is compatible with one type of [Q] only. *)
Context (Hcompat : ∀ d d' t, Q d = true → Q d' = true → IsCompatible d t = true → IsCompatible d' t = true → d = d').

(** What the uniqueness relies on for a kernel: it is plain, its versions are a
    range, its constraints name types of [Q], and the node has an argument for each
    of them. *)
Definition regular (i : KernelCreateInfo (D := D) (K := K)) : Prop :=
  plain (kernel_def i) ∧ op_since_version_start_ (kernel_def i) ≤ op_since_version_end_ (kernel_def i) ∧ types_in Q (kernel_def i) ∧
  ∀ c, c ∈ type_constraints_ (kernel_def i) → is_Some (type_of node c.1).
Definition usable (i : KernelCreateInfo (D := D) (K := K)) : bool := IsOK (status i) && fits node (kernel_def i) exec_provider.
Definition candidates (r : list (KernelCreateInfo (D := D) (K := K))) := List.filter usable (equal_range r (on_op_type node)).

Lemma elem_candidates r i : i ∈ candidates r ↔ i ∈ r ∧ op_name_ (kernel_def i) = on_op_type node ∧ usable i = true.
Proof.
  unfold candidates, equal_range. rewrite list_elem_of_In, List.filter_In, <- list_elem_of_In, list_elem_of_filter. naive_solver.
Qed.
Lemma candidates_app r r' : candidates (r ++ r') = candidates r ++ candidates r'.
Proof. unfold candidates, equal_range. by rewrite filter_app, List.filter_app. Qed.
Lemma no_conflict l def : has_conflict (K := K) l def = Ok false → ∀ i, i ∈ l → IsOK (status i) = true → IsConflict (kernel_def i) def = Ok false.
Proof.
  induction l as [|j l IH]; cbn [has_conflict]; intros H i Hi Hs; [by apply not_elem_of_nil in Hi|]. apply elem_of_cons in Hi as [->|Hi].
  - rewrite Hs in H. apply bind_Ok in H as ([] & Hc & H); [done|done].
  - destruct (IsOK (status j)); [|by apply IH]. apply bind_Ok in H as ([] & _ & H); [done|by apply IH].
Qed.
Lemma candidates_one r : built_registry r → (∀ i, i ∈ r → regular i) → (length (candidates r) ≤ 1)%nat.
Proof.
  induction 1 as [|r def k r' Hr IH HR]; intros Hreg; [simpl; lia|]. unfold Register in HR. apply bind_Ok in HR as ([] & Hc & [= <-]).
  assert (Hr1 : (length (candidates r) ≤ 1)%nat) by (apply IH; intros; apply Hreg; set_solver).
  unfold move_info in *. cbn [kernel_def kernel_create_func] in *. set (x := mkCreateInfo def k _) in *. rewrite candidates_app, length_app.
  destruct (candidates [x]) as [|y l'] eqn:Ex; [simpl; lia|]. assert (Hx : x ∈ candidates [x] ∧ l' = []).
  { unfold candidates, equal_range in *. rewrite filter_cons, filter_nil in *. destruct (decide _); [|done]. cbn [List.filter] in *. destruct (usable x); [|done].
    injection Ex as <- <-. split; [by left|done]. }
  destruct Hx as [(_ & Hn & Hx)%elem_candidates ->]. cbn [length]. destruct (candidates r) as [|i l] eqn:Ei; [simpl; lia|]. exfalso.
  assert (Hi : i ∈ candidates r) by (rewrite Ei; by left). apply elem_candidates in Hi as (Hi & Hni & Hu). unfold usable in Hx, Hu. apply andb_true_iff in Hx as [Hx Hfx], Hu as [Hu Hfu].
  assert (Hcf : IsConflict (kernel_def i) def = Ok false).
  { eapply no_conflict; [exact Hc| |done]. apply list_elem_of_filter. split; [|done]. cbn in Hn. congruence. }
  destruct (Hreg i) as (P1 & V1 & Q1 & T1); [set_solver|]. destruct (Hreg x) as (P2 & V2 & Q2 & T2); [set_solver|].
  rewrite (fits_conflict Q node (kernel_def i) def exec_provider) in Hcf; [done|done|done|done|done|done|done|done|done|cbn in Hn; congruence|done|done].
Qed.
End choice.

Lemma choice_unique node exec_provider (Q : D → bool) r r' :
  NodeOk node → (∀ d d' t, Q d = true → Q d' = true → IsCompatible d t = true → IsCompatible d' t = true → d = d') →
  built_registry r → (∀ i, i ∈ r → regular node Q i) → r ≡ₚ r' →
  ∃ found, TryFindKernel IsCompatible r node exec_provider = Ok found ∧ TryFindKernel IsCompatible r' node exec_provider = Ok found ∧
    ∀ i, found = Some i ↔ i ∈ r ∧ op_name_ (kernel_def i) = on_op_type node ∧ IsOK (status i) = true ∧ fits node (kernel_def i) exec_provider = true.
Proof.
  intros Hk HC Hr Hreg Hp. pose proof (candidates_one node exec_provider Q HC r Hr Hreg) as Hone.
  assert (Hc : candidates node exec_provider r ≡ₚ candidates node exec_provider r').
  { unfold candidates, equal_range. assert (∀ l l' : list (KernelCreateInfo (D := D) (K := K)), l ≡ₚ l' → List.filter (usable node exec_provider) l ≡ₚ List.filter (usable node exec_provider) l') as Hf.
    { induction 1; simpl; repeat (destruct (usable _ _ _)); econstructor; eauto. }
    apply Hf. by rewrite Hp. }
  exists (head (candidates node exec_provider r)). unfold TryFindKernel. rewrite !find_kernel_spec by done.
  fold (usable node exec_provider). fold (candidates node exec_provider r). fold (candidates node exec_provider r'). split_and!; [done| |].
  - pose proof (Permutation_length Hc) as Hl. destruct (candidates node exec_provider r) as [|a [|]]; simpl in *; [by apply Permutation_nil in Hc as ->| |lia].
    by apply Permutation_length_1_inv in Hc as ->.
  - intros i. pose proof (elem_candidates node exec_provider r i) as Hi. change (usable node exec_provider i) with (IsOK (status i) && fits node (kernel_def i) exec_provider) in Hi.
    rewrite andb_true_iff in Hi. rewrite <- Hi.
    destruct (candidates node exec_provider r) as [|a [|]]; simpl in *; [split; [done|by intros ?%not_elem_of_nil]|rewrite list_elem_of_singleton; naive_solver|lia].
Qed.

Lemma TryFindKernel_head node (r : list (KernelCreateInfo (D := D) (K := K))) p : NodeOk node → TryFindKernel IsCompatible r node p = Ok (head (candidates node p r)).
Proof. intros Hk. unfold TryFindKernel. by rewrite find_kernel_spec. Qed.

(** C39. A kernel that [Register] refuses stays usable: the move into the map
    drops its status, and [TryFindKernel] gives it to the nodes that it fits and
    no earlier kernel does. *)
Theorem refused_kernel_runs (r r' : list (KernelCreateInfo (D := D) (K := K))) def k node exec_provider :
  NodeOk node → Register r def k = Ok (Some FAIL, r') → op_name_ def = on_op_type node → fits node def exec_provider = true →
  TryFindKernel IsCompatible r node exec_provider = Ok None →
  TryFindKernel IsCompatible r' node exec_provider = Ok (Some (mkCreateInfo def k StatusOK)).
Proof.
  intros Hk HR Hn Hf. unfold Register in HR. apply bind_Ok in HR as ([] & _ & [= <-]). rewrite !TryFindKernel_head by done. rewrite candidates_app.
  intros [= H]. destruct (candidates node exec_provider r); [|done]. cbn [app]. unfold candidates, equal_range, move_info. cbn [kernel_def kernel_create_func].
  rewrite filter_cons_True by done. rewrite filter_nil. cbn [List.filter]. unfold usable. cbn [status kernel_def]. by rewrite Hf.
Qed.

(** ** The kernel that is planned for and the kernel that runs *)

Lemma fits_assigned node def p q : on_provider node ≠ ""%string → fits node def p = fits node def q.
Proof.
  intros H. unfold fits. assert (expected_provider node p = expected_provider node q) as -> by (unfold expected_provider; by case_bool_decide). done.
Qed.
Lemma candidates_assigned node (r : list (KernelCreateInfo (D := D) (K := K))) p q : on_provider node ≠ ""%string → candidates node p r = candidates node q r.
Proof.
  intros H. unfold candidates. induction (equal_range r (on_op_type node)) as [|i l IH]; [done|]. cbn [List.filter].
  assert (usable node p i = usable node q i) as -> by (unfold usable; by rewrite (fits_assigned node (kernel_def i) p q)). by rewrite IH.
Qed.
(** C37. The allocation planner asks the manager for the kernel of a node without
    naming a provider, the session initializer for the provider of the node. For a
    node that is as [Graph::Resolve] leaves it ([NodeOk]) and is assigned to a
    provider, both get the same kernel, so the kernel that
    runs is the one whose aliases and memory types were planned for: the first one
    that fits, in the registries in the order of their priority. Both fail if
    there is none. *)
Theorem planned_kernel_runs (m : list (list (KernelCreateInfo (D := D) (K := K)))) node provider :
  NodeOk node → on_provider node ≠ ""%string →
  let found := head (m ≫= candidates node provider) in
  SearchKernelRegistry IsCompatible m node = Ok (match found with Some _ => StatusOK | None => Some FAIL end, found) ∧
  CreateKernel IsCompatible m node provider = Ok (match found with Some _ => StatusOK | None => Some FAIL end, kernel_create_func <$> found).
Proof.
  intros Hk Hp found. subst found. split.
  - unfold SearchKernelRegistry. case_bool_decide as Em; [by destruct m|]. clear Em. induction m as [|r m IH]; [done|]. cbn [search_first].
    rewrite TryFindKernel_head, (candidates_assigned node r "" provider) by done. cbn [mbind res_bind]. rewrite bind_cons.
    destruct (candidates node provider r) as [|i l]; [exact IH|done].
  - unfold CreateKernel. case_bool_decide as Em; [by destruct m|].
    assert (H : ∀ st, create_first IsCompatible m st node provider =
      Ok (match head (m ≫= candidates node provider) with Some _ => StatusOK | None => if bool_decide (m = []) then st else Some FAIL end,
        kernel_create_func <$> head (m ≫= candidates node provider))).
    { clear Em. induction m as [|r m IH]; intros st; [done|]. cbn [create_first]. unfold registry_CreateKernel. rewrite TryFindKernel_head by done. cbn [mbind res_bind].
      rewrite bind_cons. destruct (candidates node provider r) as [|i l]; [|done]. cbn [head IsOK]. rewrite app_nil_l, IH.
      destruct (head _); [done|]. by case_bool_decide. }
    rewrite H. destruct m as [|r m]; [done|]. by rewrite (bool_decide_false (r :: m = [])).
Qed.
End props.

(** C23. In a registry that [Register] built without an error, at most one kernel
    fits a node. [TryFindKernel] finds it in whatever order the kernels were put
    there, and finds none only if none fits. The kernels declare no memory types
    and no sharing of buffers, their versions are ranges, and their constraints
    name types made of tensors, maps and sequences, not opaque ones, for which
    [IsCompatible] does not throw and confuses no two types; and the node has an
    argument for each constraint. *)
Theorem kernel_choice {K} (node : OpNode (P := TypeProto)) exec_provider (r r' : list (KernelCreateInfo (D := MLDataType) (K := K))) :
  NodeOk node → built_registry r → (∀ i, i ∈ r → regular node onnx_type i) → r ≡ₚ r' →
  ∃ found, TryFindKernel compatible r node exec_provider = Ok found ∧ TryFindKernel compatible r' node exec_provider = Ok found ∧
    ∀ i, found = Some i ↔ i ∈ r ∧ op_name_ (kernel_def i) = on_op_type node ∧ IsOK (status i) = true ∧ fits compatible node (kernel_def i) exec_provider = true.
Proof. intros Hk Hr Hreg. apply (choice_unique compatible node exec_provider onnx_type); [done|apply compatible_unique|done|done]. Qed.

(** ** Examples *)

(** An operator for tensors of two types, with a kernel for each. *)
Module TypedRegistry.
Definition float_message : TypeProto := TensorMessage (Some 1) (Some [2; 3]).
Definition add_op : OpNode (P := TypeProto) :=
  mkOpNode "Add" "" "CPU" (mkOpSchema [mkFormalParameter "A" "T"; mkFormalParameter "B" "T"] [mkFormalParameter "C" "T"] 7)
    [1; 1]%nat [mkOpArg true (Some float_message); mkOpArg true (Some float_message)] [mkOpArg true (Some float_message)].
Definition add_of (type : ElementType) : OpKernelDef (D := MLDataType) :=
  TypeConstraint (SinceVersion (SetProvider (SetName new_KernelDef "Add") "CPU") 7 max_version) "T" [TensorType type].
Definition kernels : list (KernelCreateInfo (D := MLDataType) (K := string)) :=
  [mkCreateInfo (add_of Int32) "add_int"%string StatusOK; mkCreateInfo (add_of Float) "add_float"%string StatusOK].
Lemma kernels_built : built_registry kernels.
Proof.
  apply (built_register [mkCreateInfo (add_of Int32) "add_int"%string StatusOK] (add_of Float) "add_float"%string); [|by vm_compute].
  apply (built_register [] (add_of Int32) "add_int"%string); [apply built_empty|by vm_compute].
Qed.
Lemma kernels_regular i : i ∈ kernels → regular add_op onnx_type i.
Proof.
  intros [->| ->%list_elem_of_singleton]%elem_of_cons; (split; [done|]; split; [by vm_compute|]; split); try (intros c ->%list_elem_of_singleton; by eexists);
    intros c d ->%list_elem_of_singleton ->%list_elem_of_singleton; done.
Qed.
End TypedRegistry.
Lemma kernel_choice_witness :
  ∃ found, TryFindKernel compatible TypedRegistry.kernels TypedRegistry.add_op "CPU" = Ok found ∧
    TryFindKernel compatible (reverse TypedRegistry.kernels) TypedRegistry.add_op "CPU" = Ok found ∧ kernel_create_func <$> found = Some "add_float"%string.
Proof.
  destruct (kernel_choice TypedRegistry.add_op "CPU" TypedRegistry.kernels (reverse TypedRegistry.kernels)) as (found & H1 & H2 & H3);
    [split; simpl; [lia|lia|done]|exact TypedRegistry.kernels_built|exact TypedRegistry.kernels_regular|by rewrite reverse_Permutation|].
  exists found. split; [exact H1|]. split; [exact H2|].
  assert (found = Some (mkCreateInfo (TypedRegistry.add_of Float) "add_float"%string StatusOK)) as ->; [|done]. apply H3. split_and!; [right; by left|done|done|by vm_compute].
Defined.

Module Registry.
(** Types are numbers; a type is compatible with itself. *)
Definition compatible (d p : nat) : bool := bool_decide (d = p).
Definition add_op_node : OpNode (P := nat) :=
  mkOpNode "Add" "" "CPU" (mkOpSchema [mkFormalParameter "A" "T"; mkFormalParameter "B" "T"] [mkFormalParameter "C" "T"] 7)
    [1; 1]%nat [mkOpArg true (Some 1%nat); mkOpArg true (Some 1%nat)] [mkOpArg true (Some 1%nat)].
Definition add_kernel (type : nat) : OpKernelDef (D := nat) :=
  TypeConstraint (SinceVersion (SetProvider (SetName new_KernelDef "Add") "CPU") 7 max_version) "T" [type].
(** Two kernels for the types 0 and 1. *)
Definition registry : list (KernelCreateInfo (D := nat) (K := string)) :=
  [mkCreateInfo (add_kernel 0) "add0"%string StatusOK; mkCreateInfo (add_kernel 1) "add1"%string StatusOK].

Lemma node_ok : NodeOk add_op_node.
Proof. split; simpl; [lia|lia|done]. Qed.
(** A kernel for both types, and a node of the other one. *)
Definition both_kernel : OpKernelDef (D := nat) := TypeConstraint (add_kernel 1) "T" [0; 1]%nat.
Definition other_node : OpNode (P := nat) :=
  mkOpNode "Add" "" "CPU" (on_schema add_op_node) [1; 1]%nat [mkOpArg true (Some 0%nat); mkOpArg true (Some 0%nat)] [mkOpArg true (Some 0%nat)].
Lemma other_ok : NodeOk other_node.
Proof. split; simpl; [lia|lia|done]. Qed.

(** The same kernel with an input, or an output, in CPU memory. *)
Definition input_on_cpu : OpKernelDef (D := nat) := InputMemoryType (add_kernel 1) (-2) 0.
Definition output_on_cpu : OpKernelDef (D := nat) := OutputMemoryType (add_kernel 1) (-1) 0.
End Registry.
Import Registry.

Lemma resolvers_agree_witness :
  ∃ table search, new_TypeBindingResolver add_op_node true = Ok table ∧ new_TypeBindingResolver add_op_node false = Ok search ∧
    Resolve table "T" = Resolve search "T" ∧ Resolve search "T" = Ok (Some 1%nat).
Proof. exact (resolvers_agree add_op_node "T" node_ok). Defined.
Lemma planned_kernel_runs_witness :
  SearchKernelRegistry compatible [[]; registry] add_op_node = Ok (StatusOK, Some (mkCreateInfo (add_kernel 1) "add1"%string StatusOK)) ∧
  CreateKernel compatible [[]; registry] add_op_node "CPU" = Ok (StatusOK, Some "add1"%string).
Proof. exact (planned_kernel_runs compatible [[]; registry] add_op_node "CPU" node_ok ltac:(done)). Defined.

Lemma refused_kernel_runs_witness :
  ∃ r, Register (K := string) [] (add_kernel 1) "first"%string = Ok (StatusOK, r) ∧
    ∃ r', Register r both_kernel "second"%string = Ok (Some FAIL, r') ∧
      TryFindKernel compatible r' other_node "CPU" = Ok (Some (mkCreateInfo both_kernel "second"%string StatusOK)).
Proof.
  eexists. split; [vm_compute; reflexivity|]. eexists. split; [vm_compute; reflexivity|].
  refine (refused_kernel_runs compatible [mkCreateInfo (add_kernel 1) "first"%string StatusOK] _ both_kernel "second"%string other_node "CPU" other_ok _ _ _ _);
    vm_compute; reflexivity.
Defined.

(** What [IsConflict] misses. A kernel with an input in CPU memory can be
    registered twice: equal memory types count as a difference. A second kernel
    with the same output in CPU memory dereferences the end of a map, in which the
    memory type is looked up as if it were an index. And kernels for operators of
    the same name in two domains, which never fit the same node, are in
    conflict. *)
Theorem conflicts_missed :
  (∃ r, Register (K := string) [] input_on_cpu "first"%string = Ok (StatusOK, r) ∧
     ∃ r', Register r input_on_cpu "second"%string = Ok (StatusOK, r') ∧
       length (candidates compatible add_op_node "CPU" r') = 2%nat) ∧
  (∃ r, Register (K := string) [] output_on_cpu "first"%string = Ok (StatusOK, r) ∧
     Register r output_on_cpu "second"%string = Throw UndefinedBehaviour) ∧
  (∃ r, Register (K := string) [] (add_kernel 1) "first"%string = Ok (StatusOK, r) ∧
     ∃ r', Register r (SetDomain (add_kernel 1) "other"%string) "second"%string = Ok (Some FAIL, r') ∧
       ∀ node, ¬ (fits compatible node (add_kernel 1) "CPU" = true ∧ fits compatible node (SetDomain (add_kernel 1) "other"%string) "CPU" = true)).
Proof.
  split_and!.
  - eexists. split; [vm_compute; reflexivity|]. eexists. split; [vm_compute; reflexivity|]. by vm_compute.
  - eexists. split; [vm_compute; reflexivity|]. by vm_compute.
  - eexists. split; [vm_compute; reflexivity|]. eexists. split; [vm_compute; reflexivity|].
    intros node. unfold fits. rewrite !andb_true_iff, !bool_decide_eq_true. cbn. intros [[[[-> _] _] _] [[[? _] _] _]]. done.
Qed.
