(* ===== verification/DataMove.v ===== *)
(** Kernels that move the elements of tensors: [concat.cc], [split.cc],
    [gather.cc], [slice.cc] with the iterator of [utils.h], and the changes of
    shape of [reshape_helper.h], [squeeze.h] and [unsqueeze.cc]. A tensor is its
    dimensions and the list of its elements; offsets are counted in elements,
    and a copy of strings is a [memcpy] of elements. The tensors of one call have
    the same element type. *)
From S2P Require Import Prelude TensorShape Transpose.

Definition HandleNegativeAxis (axis tensor_rank : Z) : res Z :=
  _ ← enforce ((- tensor_rank <=? axis) && (axis <=? tensor_rank - 1));
  Ok (if axis <? 0 then axis + tensor_rank else axis).
(** [gsl::narrow<int>] throws if the value does not fit. *)
Definition fits_int (z : Z) : bool := (- 2 ^ 31 <=? z) && (z <? 2 ^ 31).
Definition narrow_int (z : Z) : res Z := if fits_int z then Ok z else Throw EnforceFailed.
(** Arithmetic in [int]. *)
Definition int_op (z : Z) : res Z := if fits_int z then Ok z else Throw UndefinedBehaviour.

Section kernels.
(** The elements, and what the memory of a new tensor holds. *)
Context {A : Type} (garbage : A).
Abbreviation Tens := (list Z * list A)%type.
(** [OpKernelContext::Output]: the memory of a new output. *)
Definition new_output (dims : list Z) : list A := replicate (Z.to_nat (prodZ dims)) garbage.

(** ** Concat *)

Record Prepare := mkPrepare {
  inputs : list (Tens * Z);
  output_axis_pitch : Z;
  output_dims : list Z;
}.
(** The dimensions of an input but the axis are those of the first one. *)
Fixpoint same_dims (axis : Z) (axis_index : nat) (data_n inputs_0 : list Z) : res bool :=
  match inputs_0 with
  | [] => Ok true
  | d :: inputs_0' =>
      if Z.of_nat axis_index =? axis then same_dims axis (S axis_index) data_n inputs_0'
      else e ← of_option UndefinedBehaviour (data_n !! axis_index);
           if e =? d then same_dims axis (S axis_index) data_n inputs_0' else Ok false
  end.
Fixpoint check_inputs (axis : Z) (inputs_0 : list Z) (l : list (option Tens)) : res Status :=
  match l with
  | [] => Ok StatusOK
  | None :: _ => Ok (Some FAIL)
  | Some data_n :: l' =>
      same ← same_dims axis 0 (fst data_n) inputs_0;
      if same : bool then check_inputs axis inputs_0 l' else Ok (Some FAIL)
  end.
Definition axis_pitch (axis : nat) (dims : list Z) : Z := foldr (fun d p => i64 (p * d)) 1 (drop axis dims).
Definition concat_axis_size (axis : nat) (l : list Tens) : res Z :=
  foldM (fun size t => d ← of_option UndefinedBehaviour (fst t !! axis); Ok (u64 (size + d))) 0 l.
Definition Concat_PrepareForCompute (axis_ : Z) (l : list (option Tens)) : res (Status * option Prepare) :=
  match l with
  | [] => Ok (Some FAIL, None)
  | None :: _ => Ok (Some FAIL, None)
  | Some inputs_0 :: rest =>
      axis ← HandleNegativeAxis axis_ (Z.of_nat (length (fst inputs_0)));
      s ← check_inputs axis (fst inputs_0) rest;
      if negb (IsOK s) then Ok (s, None)
      else
        let tensors := omap id l in
        size ← concat_axis_size (Z.to_nat axis) tensors;
        let dims := <[Z.to_nat axis := i64 size]> (fst inputs_0) in
        Ok (StatusOK, Some (mkPrepare ((fun t => (t, axis_pitch (Z.to_nat axis) (fst t))) <$> tensors) (axis_pitch (Z.to_nat axis) dims) dims))
  end.
(** The copies of one input; the counters of the loops are of type [int]. *)
Definition concat_input (is_string_type : bool) (output_axis_pitch : Z) (acc : Z * list A) (prep : Tens * Z) : res (Z * list A) :=
  let '(output_offset, output) := acc in
  let '(tensor, input_axis_pitch) := prep in
  let input_size := Size (fst tensor) in
  if input_axis_pitch =? 0 then Throw UndefinedBehaviour
  else
    _ ← (if 0 <? Z.quot input_size input_axis_pitch then int_op (Z.quot input_size input_axis_pitch) else Ok 0);
    _ ← (if is_string_type && (0 <? Z.quot input_size input_axis_pitch) && (0 <? input_axis_pitch) then int_op input_axis_pitch else Ok 0);
    output ← foldM (fun output idxCopy =>
        memcpy output (output_offset + Z.of_nat idxCopy * output_axis_pitch) (snd tensor) (Z.of_nat idxCopy * input_axis_pitch) input_axis_pitch)
      output (seq 0 (Z.to_nat (Z.quot input_size input_axis_pitch)));
    Ok (output_offset + input_axis_pitch, output).
Definition Concat_Compute (axis_ : Z) (type : ElementType) (l : list (option Tens)) : res (Status * option Tens) :=
  '(s, p) ← Concat_PrepareForCompute axis_ l;
  match p with
  | None => Ok (s, None)
  | Some p =>
      '(_, output) ← foldM (concat_input (bool_decide (type = StringType)) (output_axis_pitch p)) (0, new_output (output_dims p)) (inputs p);
      Ok (StatusOK, Some (output_dims p, output))
  end.

(** ** Split *)

(** [math::CopyMatrix]; [a] is the position of the matrix in the source. *)
Definition CopyMatrix (M N : Z) (A_ : list A) (a lda : Z) (B_ : list A) (ldb : Z) : res (list A) :=
  if (lda =? N) && (ldb =? N) then n ← int_op (N * M); memcpy B_ 0 A_ a n
  else foldM (fun B_ i => src ← int_op (lda * Z.of_nat i); dst ← int_op (ldb * Z.of_nat i); memcpy B_ dst A_ (a + src) N)
         B_ (seq 0 (Z.to_nat M)).

Record SplitKernel := mkSplit { split_axis_ : Z; split_sizes_ : list Z; split_size_sum_ : Z }.
Definition new_Split (axis : Z) (split : option (list Z)) : res SplitKernel :=
  match split with
  | None => Ok (mkSplit axis [] 0)
  | Some sizes => _ ← enforce (forallb (fun value => 0 <? value) sizes); Ok (mkSplit axis sizes (foldl (fun sum value => i64 (sum + value)) 0 sizes))
  end.
(** The sizes of the outputs on the axis, if the input can be split. *)
Definition split_sizes (k : SplitKernel) (split_dim_size : Z) (num_outputs : nat) : res (option (list Z)) :=
  if bool_decide (split_sizes_ k = [])
  then if (num_outputs =? 0)%nat then Throw UndefinedBehaviour
       else Ok (if negb (Z.rem split_dim_size (Z.of_nat num_outputs) =? 0) then None
                else Some (replicate num_outputs (Z.quot split_dim_size (Z.of_nat num_outputs))))
  else Ok (if negb (length (split_sizes_ k) =? num_outputs)%nat || negb (split_size_sum_ k =? split_dim_size) then None
           else Some (split_sizes_ k)).
Definition split_output (axis : nat) (before after_incl after_excl : Z) (input : Tens) (acc : Z * list Tens) (size : Z) : res (Z * list Tens) :=
  let '(input_offset, outputs) := acc in
  split_size ← narrow_int size;
  let dims := <[axis := split_size]> (fst input) in
  N ← int_op (split_size * after_excl);
  output ← CopyMatrix before N (snd input) input_offset after_incl (new_output dims) N;
  Ok (input_offset + N, outputs ++ [(dims, output)]).
Definition Split_ComputeImpl (k : SplitKernel) (input : Tens) (num_outputs : nat) : res (Status * list Tens) :=
  axis ← HandleNegativeAxis (split_axis_ k) (Z.of_nat (length (fst input)));
  let axis := Z.to_nat axis in
  split_dim_size ← of_option UndefinedBehaviour (fst input !! axis);
  before ← SizeToDimension (fst input) axis;
  before ← narrow_int before;
  after_incl ← SizeFromDimension (fst input) axis;
  after_incl ← narrow_int after_incl;
  after_excl ← (if (axis + 1 =? length (fst input))%nat then Ok 1
                else n ← SizeFromDimension (fst input) (axis + 1); narrow_int n);
  sizes ← split_sizes k split_dim_size num_outputs;
  match sizes with
  | None => Ok (Some FAIL, [])
  | Some sizes =>
      '(_, outputs) ← foldM (split_output axis before after_incl after_excl input) (0, []) sizes;
      Ok (StatusOK, outputs)
  end.
Definition Split_Compute (k : SplitKernel) (data_type : ElementType) (input : Tens) (num_outputs : nat) : res (Status * list Tens) :=
  match data_type with
  | Float => Split_ComputeImpl k input num_outputs
  | _ => Throw EnforceFailed
  end.

(** ** Gather *)

Definition gather_dims (axis : nat) (input_dims indices_dims : list Z) : list Z :=
  take axis input_dims ++ indices_dims ++ drop (axis + 1) input_dims.
Definition gather_copy (is_string_type : bool) (block N data_batch gathered_batch : Z) (indices_data : list Z) (src dst : list A) (index : nat) :
    res (list A) :=
  let batch := Z.of_nat index / N in
  let i := Z.of_nat index mod N in
  idx ← of_option UndefinedBehaviour (indices_data !! Z.to_nat i);
  let src_offset := batch * data_batch + idx * block in
  let dst_offset := batch * gathered_batch + i * block in
  memcpy dst dst_offset src src_offset (if is_string_type then 1 else block).
Definition GatherCopyData (is_string_type : bool) (indices_data : list Z) (src dst : list A) (block M N data_batch gathered_batch : Z)
    (input_dims : list Z) (axis : nat) : res (Status * list A) :=
  d ← of_option UndefinedBehaviour (input_dims !! axis);
  if existsb (fun idx => (idx <? 0) || (d <=? idx)) (take (Z.to_nat N) indices_data) then Ok (Some INVALID_ARGUMENT, dst)
  else
    dst ← foldM (gather_copy is_string_type block N data_batch gathered_batch indices_data src) dst (seq 0 (Z.to_nat (M * N)));
    Ok (StatusOK, dst).
Definition Gather_Compute (axis_ : Z) (type : ElementType) (input : Tens) (Tind_type : ElementType) (indices : list Z * list Z) : res (Status * Tens) :=
  axis ← HandleNegativeAxis axis_ (Z.of_nat (length (fst input)));
  let axis := Z.to_nat axis in
  let dims := gather_dims axis (fst input) (fst indices) in
  block ← SizeFromDimension (fst input) (axis + 1);
  M ← SizeToDimension (fst input) axis;
  let N := Size (fst indices) in
  data_batch ← SizeFromDimension (fst input) axis;
  match Tind_type with
  | Int32 | Int64 =>
      '(s, dst) ← GatherCopyData (bool_decide (type = StringType)) (snd indices) (snd input) (new_output dims) block M N data_batch (N * block)
                    (fst input) axis;
      Ok (s, (dims, dst))
  | _ => Ok (Some NOT_IMPLEMENTED, (dims, new_output dims))
  end.

(** ** Slice *)

(** The constructor of [SliceBase] for the attributes. *)
Definition new_SliceBase (starts ends axes : option (list Z)) : res (list Z * list Z * list Z) :=
  match starts, ends with
  | Some starts, Some ends =>
      _ ← enforce (length starts =? length ends)%nat;
      _ ← enforce (match axes with None => true | Some axes => (length axes =? length starts)%nat end);
      Ok (starts, ends, default [] axes)
  | _, _ => Throw EnforceFailed
  end.
(** The inputs of the dynamic kernel, each with its shape. *)
Definition FillVectorsFromInput (stat_tensor ends_tensor axes_tensor : option (list Z * list Z)) : res (list Z * list Z * list Z) :=
  match stat_tensor, ends_tensor with
  | Some starts, Some ends =>
      _ ← enforce ((length (fst starts) =? 1)%nat && (length (fst ends) =? 1)%nat);
      _ ← enforce (bool_decide (fst starts = fst ends));
      _ ← enforce (match axes_tensor with None => true | Some axes => bool_decide (fst starts = fst axes) end);
      let size := Z.to_nat (Size (fst starts)) in
      Ok (take size (snd starts), take size (snd ends), from_option (fun axes => take size (snd axes)) [] axes_tensor)
  | _, _ => Throw EnforceFailed
  end.
Definition clamp (v lo hi : Z) : Z := if v <? lo then lo else if hi <? v then hi else v.
Definition slice_axis (raw_starts raw_ends input_dimensions : list Z) (acc : Status * (list Z * list Z)) (e : nat * Z) :
    res (Status * (list Z * list Z)) :=
  let '(s, (starts, output_dims)) := acc in
  let '(axesIndex, raw_axis) := e in
  if negb (IsOK s) then Ok acc
  else
    let dimension_count := Z.of_nat (length input_dimensions) in
    let axis := if raw_axis <? 0 then raw_axis + dimension_count else raw_axis in
    if (dimension_count <=? axis) || (axis <? 0) then Ok (Some INVALID_ARGUMENT, (starts, output_dims))
    else
      d ← of_option UndefinedBehaviour (input_dimensions !! Z.to_nat axis);
      start ← of_option UndefinedBehaviour (raw_starts !! axesIndex);
      let start := clamp (if start <? 0 then start + d else start) 0 d in
      end_ ← of_option UndefinedBehaviour (raw_ends !! axesIndex);
      let extent := clamp (if end_ <? 0 then end_ + d else end_) 0 d - start in
      Ok (if extent <? 0 then Some INVALID_ARGUMENT else StatusOK, (<[Z.to_nat axis := start]> starts, <[Z.to_nat axis := extent]> output_dims)).
(** Without axes there is one for each dimension of the tensor. *)
Definition Slice_PrepareForCompute (raw_starts raw_ends raw_axes input_dimensions : list Z) : res (Status * (list Z * list Z)) :=
  let starts := replicate (length input_dimensions) 0 in
  let axes := if bool_decide (raw_axes = []) then Z.of_nat <$> seq 0 (length starts) else raw_axes in
  foldM (slice_axis raw_starts raw_ends input_dimensions) (StatusOK, (starts, input_dimensions)) (imap pair axes).

Fixpoint slice_skips (dims extents : list Z) : list Z * Z :=
  match dims, extents with
  | d :: dims', e :: extents' =>
      match dims' with
      | [] => ([d - e], d)
      | _ => let '(skips, pitch) := slice_skips dims' extents' in ((pitch * d - pitch * e) :: skips, pitch * d)
      end
  | _, _ => ([], 1)
  end.
Record SliceIterator := mkSliceIterator {
  input_ : Z;
  inner_counter_ : Z;
  inner_extent_ : Z;
  skips_ : list Z;
  indices_ : list Z;
}.
(** A tensor without dimensions has no last one. *)
Definition new_SliceIterator (dims starts extents : list Z) : res SliceIterator :=
  _ ← enforce ((length dims =? length extents)%nat);
  _ ← of_option UndefinedBehaviour (last dims);
  _ ← enforce ((length dims =? length starts)%nat);
  inner ← of_option UndefinedBehaviour (last extents);
  let '(input, _) := foldr (fun sd '(input, pitch) => (input + pitch * fst sd, pitch * snd sd)) (0, 1) (zip starts dims) in
  Ok (mkSliceIterator input 0 inner (fst (slice_skips dims extents)) (replicate (length extents) 0)).
(** The loop from the last axis but one; [axis] is the number of axes left. *)
Fixpoint carry (extents skips : list Z) (axis : nat) (input : Z) (indices : list Z) : Z * list Z :=
  match axis with
  | O => (input, indices)
  | S axis' =>
      let i := indices !!! axis' + 1 in
      if i =? extents !!! axis' then carry extents skips axis' (input + skips !!! axis') (<[axis' := 0]> indices)
      else (input, <[axis' := i]> indices)
  end.
Definition AdvanceOverInnerExtent (extents : list Z) (it : SliceIterator) : SliceIterator :=
  let axis := (length (skips_ it) - 1)%nat in
  let '(input, indices) := carry extents (skips_ it) axis (input_ it + skips_ it !!! axis) (indices_ it) in
  mkSliceIterator input (inner_counter_ it) (inner_extent_ it) (skips_ it) indices.
(** [operator++]: the position that is read, and the iterator after it. *)
Definition slice_next (extents : list Z) (it : SliceIterator) : Z * SliceIterator :=
  let it' := mkSliceIterator (input_ it + 1) (inner_counter_ it + 1) (inner_extent_ it) (skips_ it) (indices_ it) in
  (input_ it, if inner_counter_ it' =? inner_extent_ it'
              then AdvanceOverInnerExtent extents (mkSliceIterator (input_ it') 0 (inner_extent_ it') (skips_ it') (indices_ it'))
              else it').
Fixpoint slice_loop (n : nat) (extents : list Z) (data : list A) (it : SliceIterator) : res (list A) :=
  match n with
  | O => Ok []
  | S n' =>
      let '(pos, it) := slice_next extents it in
      x ← (if pos <? 0 then Throw UndefinedBehaviour else of_option UndefinedBehaviour (data !! Z.to_nat pos));
      l ← slice_loop n' extents data it;
      Ok (x :: l)
  end.
(** [raw] is what the constructor or [FillVectorsFromInput] gives. *)
Definition Slice_Compute (raw : list Z * list Z * list Z) (input : Tens) : res (Status * option Tens) :=
  let '(raw_starts, raw_ends, raw_axes) := raw in
  '(s, (starts, dims)) ← Slice_PrepareForCompute raw_starts raw_ends raw_axes (fst input);
  if negb (IsOK s) then Ok (s, None)
  else
    it ← new_SliceIterator (fst input) starts dims;
    output ← slice_loop (Z.to_nat (Size dims)) dims (snd input) it;
    Ok (StatusOK, Some (dims, output)).

(** ** Shapes *)

(** The loop of [ReshapeHelper]: the shape so far, the unknown dimension and the
    product of the others. *)
Definition reshape_dim (input_shape : list Z) (acc : list Z * option nat * Z) (e : nat * Z) : res (list Z * option nat * Z) :=
  let '(shape, unknown_dim, size) := acc in
  let '(i, r) := e in
  _ ← enforce (-1 <=? r);
  if r =? -1 then
    _ ← enforce (bool_decide (unknown_dim = None)); Ok (shape ++ [r], Some i, size)
  else
    r ← (if r =? 0 then _ ← enforce (i <? length input_shape)%nat; of_option UndefinedBehaviour (input_shape !! i) else Ok r);
    Ok (shape ++ [r], unknown_dim, i64 (size * r)).
Definition ReshapeHelper (input_shape requested_shape : list Z) : res (list Z) :=
  '(shape, unknown_dim, size) ← foldM (reshape_dim input_shape) ([], None, 1) (imap pair requested_shape);
  match unknown_dim with
  | Some i =>
      if size =? 0 then Throw UndefinedBehaviour
      else _ ← enforce (Z.rem (Size input_shape) size =? 0); Ok (<[i := Z.quot (Size input_shape) size]> shape)
  | None => _ ← enforce (Size input_shape =? size); Ok shape
  end.
(** [CopyCpuTensor] into a new output; an output that has the memory of the
    input is left as it is. *)
Definition CopyCpuTensor (source target : list A) (shape : list Z) : res (list A) := memcpy target 0 source 0 (Size shape).
(** [Reshape_1], with the shape of the attribute. *)
Definition Reshape_1_Compute (shape_ : list Z) (X : Tens) : res Tens :=
  shape ← ReshapeHelper (fst X) shape_;
  Y ← CopyCpuTensor (snd X) (new_output shape) (fst X);
  Ok (shape, Y).

Definition Reshape_Compute (X : Tens) (shapeTensor : list Z * list Z) : res Tens :=
  _ ← enforce (length (fst shapeTensor) =? 1)%nat;
  Reshape_1_Compute (take (Z.to_nat (fst shapeTensor !!! 0%nat)) (snd shapeTensor)) X.

(** [std::sort] and [std::unique] of the attribute. *)
Definition new_SqueezeBase (axes : option (list Z)) : res (list Z) :=
  axes ← of_option EnforceFailed axes; Ok (remove_dups (merge_sort Z.le axes)).
Fixpoint squeeze_dims (i : Z) (input_shape axes : list Z) : res (list Z) :=
  match input_shape with
  | [] => Ok []
  | d :: rest =>
      match axes with
      | a :: axes' => if a =? i then _ ← enforce (d =? 1); squeeze_dims (i + 1) rest axes'
                      else l ← squeeze_dims (i + 1) rest axes; Ok (d :: l)
      | [] => l ← squeeze_dims (i + 1) rest []; Ok (d :: l)
      end
  end.
Definition Squeeze_Compute (axes_ : list Z) (X : Tens) : res Tens :=
  output_shape ← squeeze_dims 0 (fst X) axes_;
  Y ← CopyCpuTensor (snd X) (new_output output_shape) (fst X);
  Ok (output_shape, Y).

Definition unsqueeze_axis (acc : Status * list Z) (axis : Z) : res (Status * list Z) :=
  let '(s, output_dims) := acc in
  if negb (IsOK s) then Ok acc
  else if Z.of_nat (length output_dims) <=? u64 axis then Ok (Some INVALID_ARGUMENT, output_dims)
  else if negb (output_dims !!! Z.to_nat (u64 axis) =? 0) then Ok (Some INVALID_ARGUMENT, output_dims)
  else Ok (StatusOK, <[Z.to_nat (u64 axis) := 1]> output_dims).
Fixpoint fill_dims (output_dims input_dims : list Z) : res (list Z) :=
  match output_dims with
  | [] => Ok []
  | axisSize :: rest =>
      if axisSize =? 0 then
        match input_dims with
        | [] => Throw UndefinedBehaviour
        | d :: input_dims' => l ← fill_dims rest input_dims'; Ok (d :: l)
        end
      else l ← fill_dims rest input_dims; Ok (axisSize :: l)
  end.
Definition Unsqueeze_Compute (axes_ : list Z) (X : Tens) : res (Status * option Tens) :=
  '(s, output_dims) ← foldM unsqueeze_axis (StatusOK, replicate (length axes_ + length (fst X)) 0) axes_;
  if negb (IsOK s) then Ok (s, None)
  else
    output_dims ← fill_dims output_dims (fst X);
    Y ← CopyCpuTensor (snd X) (new_output output_dims) (fst X);
    Ok (StatusOK, Some (output_dims, Y)).
End kernels.
