(* ===== verification/DataMoveRows.v ===== *)
(** Copies of blocks, and tensors whose rows are put together from the rows of
    others, as Concat and Split do. *)
From S2P Require Import Prelude TensorShape Transpose TransposeProps DataMove.

Definition zsum (l : list Z) : Z := foldr Z.add 0 l.
Lemma zsum_app l l' : zsum (l ++ l') = zsum l + zsum l'.
Proof. induction l as [|x l IH]; simpl; lia. Qed.
Lemma zsum_nonneg l : Forall (fun w => 1 ≤ w) l → 0 ≤ zsum l.
Proof. induction 1; simpl; lia. Qed.
Lemma zsum_take_le l j : Forall (fun w => 1 ≤ w) l → 0 ≤ zsum (take j l) ≤ zsum l.
Proof.
  intros H. rewrite <- (take_drop j l) in H. apply Forall_app in H as [H1%zsum_nonneg H2%zsum_nonneg].
  rewrite <- (take_drop j l) at 3. rewrite zsum_app. lia.
Qed.
Lemma zsum_take_S l j w : l !! j = Some w → zsum (take (S j) l) = zsum (take j l) + w.
Proof. intros H. rewrite (take_S_r _ _ _ H), zsum_app. simpl. lia. Qed.
Lemma zsum_mul c l : zsum ((fun d => d * c) <$> l) = zsum l * c.
Proof. unfold zsum. induction l as [|x l IH]; csimpl; [done|]. rewrite IH. lia. Qed.

Section rows.
Context {A : Type}.
Implicit Types (source target whole part : list A).

(** ** Blocks *)

Lemma memcpy_outside target p source q n target' x :
  memcpy target p source q n = Ok target' → Z.of_nat x < p ∨ p + n ≤ Z.of_nat x → target' !! x = target !! x.
Proof.
  unfold memcpy. destruct (_ && _) eqn:E; [|done]. rewrite !andb_true_iff, !Z.leb_le in E. intros [= <-] Hx.
  assert (Lt : length (take (Z.to_nat p) target) = Z.to_nat p) by (rewrite length_take; lia).
  assert (Ls : length (take (Z.to_nat n) (drop (Z.to_nat q) source)) = Z.to_nat n) by (rewrite length_take, length_drop; lia).
  destruct Hx as [Hx|Hx].
  - rewrite lookup_app_l by lia. by rewrite lookup_take_lt by lia.
  - rewrite !lookup_app_r by lia. rewrite lookup_drop. f_equal. lia.
Qed.

Lemma memcpy_elem target p source q n target' b :
  memcpy target p source q n = Ok target' → 0 ≤ b < n → target' !! Z.to_nat (p + b) = source !! Z.to_nat (q + b).
Proof.
  intros E Hb. pose proof E as E'. unfold memcpy in E'. destruct (_ && _) eqn:Ec; [|done]. rewrite !andb_true_iff, !Z.leb_le in Ec. clear E'.
  destruct (memcpy_ok target p source q n) as (t & Et & _ & H & _); [lia..|]. rewrite E in Et. injection Et as <-. by apply H.
Qed.

(** A loop of copies of blocks of [w] elements to places that do not overlap. *)
Lemma copy_loop (step : list A → nat → res (list A)) (P Q : nat → Z) w source target m :
  (∀ t i, (i < m)%nat → step t i = memcpy t (P i) source (Q i) w) → 0 ≤ w →
  (∀ i, (i < m)%nat → 0 ≤ P i ∧ P i + w ≤ Z.of_nat (length target) ∧ 0 ≤ Q i ∧ Q i + w ≤ Z.of_nat (length source)) →
  (∀ i j, (i < j < m)%nat → P i + w ≤ P j) →
  ∃ target', foldM step target (seq 0 m) = Ok target' ∧ length target' = length target ∧
    (∀ i b, (i < m)%nat → 0 ≤ b < w → target' !! Z.to_nat (P i + b) = source !! Z.to_nat (Q i + b)) ∧
    (∀ x, (∀ i, (i < m)%nat → Z.of_nat x < P i ∨ P i + w ≤ Z.of_nat x) → target' !! x = target !! x).
Proof.
  intros Hstep Hw Hin Hdis.
  destruct (foldM_seq (fun n t => (n ≤ m)%nat → length t = length target ∧
    (∀ i b, (i < n)%nat → 0 ≤ b < w → t !! Z.to_nat (P i + b) = source !! Z.to_nat (Q i + b)) ∧
    (∀ x, (∀ i, (i < n)%nat → Z.of_nat x < P i ∨ P i + w ≤ Z.of_nat x) → t !! x = target !! x)) step target 0 m) as (t & Ht & HI).
  - intros i t Hi HI. destruct (HI ltac:(lia)) as (L & Hc & Ho). rewrite Hstep by lia. destruct (Hin i ltac:(lia)) as (H1 & H2 & H3 & H4).
    destruct (memcpy_ok t (P i) source (Q i) w) as (t' & Ht' & L' & Hc' & _); [done|done|done|lia|lia|]. exists t'. split; [done|]. intros _.
    split_and!; [lia| |].
    + intros j b Hj Hb. destruct (decide (j = i)) as [->|]; [by apply Hc'|]. pose proof (Hdis j i ltac:(lia)). destruct (Hin j ltac:(lia)) as (? & _).
      rewrite (memcpy_outside _ _ _ _ _ _ _ Ht') by lia. apply Hc; lia.
    + intros x Hx. rewrite (memcpy_outside _ _ _ _ _ _ _ Ht') by (apply Hx; lia). apply Ho. intros; apply Hx; lia.
  - intros _. split_and!; [done|intros; lia|done].
  - exists t. split; [done|]. destruct (HI ltac:(lia)) as (? & ? & ?). done.
Qed.

(** ** Rows *)

(** [whole] has [M] rows, each made of one row of each part; the rows of a part
    have the width given for it. *)
Definition rows_of (M : Z) (ws : list Z) (parts : list (list A)) whole : Prop :=
  Z.of_nat (length whole) = M * zsum ws ∧ Forall2 (fun w part => Z.of_nat (length part) = M * w) ws parts ∧
  ∀ j w part o e, ws !! j = Some w → parts !! j = Some part → 0 ≤ o < M → 0 ≤ e < w →
    whole !! Z.to_nat (o * zsum ws + (zsum (take j ws) + e)) = part !! Z.to_nat (o * w + e).

(** A position in a row lies in one of the parts. *)
Lemma part_of ws e : Forall (fun w => 1 ≤ w) ws → 0 ≤ e < zsum ws → ∃ j w, ws !! j = Some w ∧ zsum (take j ws) ≤ e < zsum (take j ws) + w.
Proof.
  intros H. revert e. induction H as [|w ws Hw H IH]; intros e He; simpl in He; [lia|]. destruct (decide (e < w)).
  - exists 0%nat, w. split; [done|simpl; lia].
  - destruct (IH (e - w) ltac:(lia)) as (j & w' & Hj & Hb). exists (S j), w'. simpl. split; [done|lia].
Qed.
Lemma div_row x M W : 0 ≤ x < M * W → 1 ≤ W → ∃ o e, x = o * W + e ∧ 0 ≤ o < M ∧ 0 ≤ e < W.
Proof.
  intros Hx HW. exists (x / W), (x mod W). pose proof (Z.mod_pos_bound x W ltac:(lia)). pose proof (Z.div_mod x W ltac:(lia)). split_and!; [lia|apply Z.div_pos; lia|apply Z.div_lt_upper_bound; lia|lia..].
Qed.
(** Parts determine the whole, and the whole its parts. *)
Lemma rows_whole M ws parts whole whole' :
  Forall (fun w => 1 ≤ w) ws → rows_of M ws parts whole → rows_of M ws parts whole' → whole = whole'.
Proof.
  intros Hws (L & HF & H) (L' & _ & H'). apply (list_eq_same_length _ _ (length whole)); [lia|done|]. intros i x y Hi Hx Hy.
  assert (1 ≤ zsum ws) by (pose proof (zsum_nonneg _ Hws); destruct (decide (zsum ws = 0)) as [E|]; [rewrite E in L; lia|lia]).
  destruct (div_row (Z.of_nat i) M (zsum ws)) as (o & e & E & Ho & He); [lia|done|]. destruct (part_of ws e Hws He) as (j & w & Hj & Hb).
  destruct (Forall2_lookup_l _ _ _ _ _ HF Hj) as (part & Hp & _).
  specialize (H j w part o (e - zsum (take j ws)) Hj Hp Ho ltac:(lia)). specialize (H' j w part o (e - zsum (take j ws)) Hj Hp Ho ltac:(lia)).
  replace (o * zsum ws + (zsum (take j ws) + (e - zsum (take j ws)))) with (Z.of_nat i) in H, H' by lia. rewrite Nat2Z.id in H, H'. congruence.
Qed.
Lemma rows_parts M ws parts parts' whole :
  Forall (fun w => 1 ≤ w) ws → rows_of M ws parts whole → rows_of M ws parts' whole → parts = parts'.
Proof.
  intros Hws (L & HF & H) (_ & HF' & H'). apply list_eq. intros j. pose proof (Forall2_length _ _ _ HF) as E1. pose proof (Forall2_length _ _ _ HF') as E2.
  destruct (ws !! j) as [w|] eqn:Hj; [|apply lookup_ge_None in Hj; rewrite !lookup_ge_None_2 by lia; done].
  destruct (Forall2_lookup_l _ _ _ _ _ HF Hj) as (p & Hp & Lp). destruct (Forall2_lookup_l _ _ _ _ _ HF' Hj) as (p' & Hp' & Lp'). rewrite Hp, Hp'. f_equal.
  apply (list_eq_same_length _ _ (length p)); [lia|done|]. intros i x y Hi Hx Hy. pose proof (Forall_lookup_1 _ _ _ _ Hws Hj) as Hw. cbn in Hw.
  destruct (div_row (Z.of_nat i) M w) as (o & e & E & Ho & He); [lia|done|].
  specialize (H j w p o e Hj Hp Ho He). specialize (H' j w p' o e Hj Hp' Ho He). rewrite <- E, Nat2Z.id in H, H'. congruence.
Qed.
End rows.
