(* ===== verification/ConcatSplit.v ===== *)
(** Correctness of Concat and Split, and that each undoes the other. *)
From S2P Require Import Prelude TensorShape Transpose TransposeProps DataMove DataMoveRows.

(** ** Shapes and axes *)

Lemma HandleNegativeAxis_ok axis_ rank :
  - rank ≤ axis_ < rank → ∃ axis, HandleNegativeAxis axis_ rank = Ok axis ∧ 0 ≤ axis < rank ∧ axis = (if axis_ <? 0 then axis_ + rank else axis_).
Proof.
  intros H. unfold HandleNegativeAxis. rewrite !(proj2 (Z.leb_le _ _)) by lia. cbn. eexists. split; [done|]. split; [|done]. destruct (Z.ltb_spec axis_ 0); lia.
Qed.
Lemma Size_ok dims : Forall (fun d => 1 ≤ d) dims → prodZ dims < 2 ^ 63 → Size dims = prodZ dims.
Proof. intros Hd Hlt. unfold Size, SizeHelper. rewrite drop_0, Nat.sub_0_r, firstn_all. rewrite size_loop_ok; [lia|lia|done|lia]. Qed.
Lemma axis_pitch_ok dims k : Forall (fun d => 1 ≤ d) dims → prodZ dims < 2 ^ 63 → axis_pitch k dims = prodZ (drop k dims).
Proof.
  intros Hd Hlt. unfold axis_pitch. pose proof (prodZ_drop_le k dims Hd) as Hb. assert (Hk : Forall (fun d => 1 ≤ d) (drop k dims)) by by apply Forall_drop.
  assert (Hlt' : prodZ (drop k dims) < 2 ^ 63) by lia. clear Hb Hlt Hd. induction Hk as [|d l Hd Hl IH]; [done|]. simpl in *. pose proof (prodZ_pos _ Hl).
  rewrite IH by nia. rewrite i64_small by nia. lia.
Qed.
Lemma take_insert_same {B} (l : list B) k x : take k (<[k:=x]> l) = take k l.
Proof. apply take_insert_ge. lia. Qed.
Lemma drop_insert_same {B} (l : list B) k x : drop (S k) (<[k:=x]> l) = drop (S k) l.
Proof. apply drop_insert_lt. lia. Qed.
(** The size of a tensor around one of its axes. *)
Lemma prodZ_axis dims k : (k < length dims)%nat → prodZ dims = prodZ (take k dims) * (dims !!! k * prodZ (drop (S k) dims)).
Proof. intros Hk. rewrite <- (take_drop k dims) at 1. rewrite prodZ_app, (drop_total dims k Hk). done. Qed.
Lemma prodZ_insert dims k d : (k < length dims)%nat → prodZ (<[k:=d]> dims) = prodZ (take k dims) * (d * prodZ (drop (S k) dims)).
Proof.
  intros Hk. rewrite (prodZ_axis _ k) by (rewrite length_insert; done). rewrite take_insert_same, drop_insert_same.
  by rewrite list_lookup_total_insert_eq by done.
Qed.
(** The position of an element around an axis. *)
Lemma flat_axis dims idx k :
  (k < length dims)%nat →
  flat dims idx = val k dims idx * (dims !!! k * prodZ (drop (S k) dims)) + (idx !!! k * prodZ (drop (S k) dims) + flat (drop (S k) dims) (drop (S k) idx)).
Proof. intros Hk. rewrite (flat_split dims idx (S k)) by lia. simpl. lia. Qed.
Lemma val_dims_ext k dims dims' idx : (∀ i, (i < k)%nat → dims !!! i = dims' !!! i) → val k dims idx = val k dims' idx.
Proof. induction k as [|k IH]; intros H; simpl; [done|]. rewrite IH, (H k) by auto with lia. done. Qed.

(** The position of an element in a product of two shapes. *)
Lemma flat_app d1 d2 i1 i2 : length i1 = length d1 → flat (d1 ++ d2) (i1 ++ i2) = flat d1 i1 * prodZ d2 + flat d2 i2.
Proof.
  intros L. rewrite (flat_split (d1 ++ d2) (i1 ++ i2) (length d1)) by (rewrite length_app; lia). rewrite drop_app_length.
  replace (drop (length d1) (i1 ++ i2)) with i2 by (by rewrite <- L, drop_app_length).
  assert (∀ k, (k ≤ length d1)%nat → val k (d1 ++ d2) (i1 ++ i2) = val k d1 i1) as ->; [|done|done].
  induction k as [|k IH]; intros Hk; [done|]. simpl. rewrite IH by lia. by rewrite !lookup_total_app_l by lia.
Qed.

Section concat.
Context {A : Type} (garbage : A).
Abbreviation Tensor := (list Z * list A)%type.

(** A tensor with as many elements as its dimensions say, none of which is 0. *)
Definition tensor_ok (t : Tensor) : Prop := Forall (fun d => 1 ≤ d) (fst t) ∧ Z.of_nat (length (snd t)) = prodZ (fst t).

(** ** The copies of Concat *)

Lemma int_op_ok z : 0 ≤ z < 2 ^ 31 → int_op z = Ok z.
Proof. intros Hz. unfold int_op, fits_int. rewrite (proj2 (Z.leb_le _ _)), (proj2 (Z.ltb_lt _ _)) by lia. done. Qed.
Lemma concat_input_ok str M W (t : Tensor) w off (out out1 : list A) :
  0 ≤ M < 2 ^ 31 → 1 ≤ w < 2 ^ 31 → Size (fst t) = M * w →
  foldM (fun output i => memcpy output (off + Z.of_nat i * W) (snd t) (Z.of_nat i * w) w) out (seq 0 (Z.to_nat M)) = Ok out1 →
  concat_input str W (off, out) (t, w) = Ok (off + w, out1).
Proof.
  intros HM Hw HS E1. unfold concat_input. rewrite HS, Z.quot_mul by lia. destruct (Z.eqb_spec w 0); [lia|]. rewrite !int_op_ok by lia.
  assert (∀ (b : bool) x, ∃ z : Z, (if b then Ok x else Ok 0) = Ok z) as Hb by (intros []; eauto).
  destruct (Hb (0 <? M) M) as [? ->], (Hb (str && (0 <? M) && (0 <? w)) w) as [? ->]. cbn [mbind res_bind]. by rewrite E1.
Qed.
Lemma concat_inputs str M W (l : list (Tensor * Z)) off (out : list A) :
  0 ≤ M < 2 ^ 31 →
  Forall (fun tw : Tensor * Z => 1 ≤ snd tw < 2 ^ 31 ∧ Size (fst (fst tw)) = M * snd tw ∧ Z.of_nat (length (snd (fst tw))) = M * snd tw) l →
  0 ≤ off → off + zsum l.*2 ≤ W → Z.of_nat (length out) = M * W →
  ∃ out', foldM (concat_input str W) (off, out) l = Ok (off + zsum l.*2, out') ∧ length out' = length out ∧
    (∀ j t w o e, l !! j = Some (t, w) → 0 ≤ o < M → 0 ≤ e < w → out' !! Z.to_nat (o * W + (off + zsum (take j l.*2) + e)) = snd t !! Z.to_nat (o * w + e)) ∧
    (∀ o e, 0 ≤ o < M → 0 ≤ e < off → out' !! Z.to_nat (o * W + e) = out !! Z.to_nat (o * W + e)).
Proof.
  intros HM Hl. revert off out. induction Hl as [|[t w] l (Hw & HS & HL) Hl IH]; intros off out Hoff HW Hout.
  { exists out. split; [simpl; do 2 f_equal; lia|]. split_and!; [done|done|done]. }
  rewrite fmap_cons in *. cbn [fst snd zsum foldr] in *. change (foldr Z.add 0 l.*2) with (zsum l.*2) in *.
  assert (0 ≤ zsum l.*2) by (apply zsum_nonneg, Forall_fmap; eapply Forall_impl; [exact Hl|]; intros [??] (? & _); simpl in *; lia).
  destruct (copy_loop (fun output i => memcpy output (off + Z.of_nat i * W) (snd t) (Z.of_nat i * w) w)
    (fun i => off + Z.of_nat i * W) (fun i => Z.of_nat i * w) w (snd t) out (Z.to_nat M)) as (out1 & E1 & L1 & C1 & O1).
  { done. } { lia. } { intros i Hi. assert ((Z.of_nat i + 1) * W ≤ M * W) by (apply Z.mul_le_mono_nonneg_r; lia).
    assert ((Z.of_nat i + 1) * w ≤ M * w) by (apply Z.mul_le_mono_nonneg_r; lia).
    split_and!; [apply Z.add_nonneg_nonneg; [lia|apply Z.mul_nonneg_nonneg; lia]|lia|apply Z.mul_nonneg_nonneg; lia|lia]. }
  { intros i j Hij. assert ((Z.of_nat i + 1) * W ≤ Z.of_nat j * W) by (apply Z.mul_le_mono_nonneg_r; lia). lia. }
  destruct (IH (off + w) out1) as (out' & E' & L' & C' & O'); [lia|lia|by rewrite L1|]. exists out'. cbn [foldM].
  rewrite (concat_input_ok str M W t w off out out1) by (done || lia). cbn [mbind res_bind].
  rewrite E'. split_and!; [do 2 f_equal; lia|lia| |].
  - intros [|j] t' w' o e Hj Ho He; cbn in Hj.
    + injection Hj as <- <-. cbn [take zsum foldr]. specialize (C1 (Z.to_nat o) e ltac:(lia) ltac:(lia)). rewrite Z2Nat.id in C1 by lia.
      rewrite <- C1. replace (off + o * W + e) with (o * W + (off + e)) by lia. rewrite <- O' by lia. do 2 f_equal. lia.
    + cbn [take zsum foldr]. change (foldr Z.add 0 ?x) with (zsum x). rewrite <- (C' _ _ _ _ _ Hj Ho He). f_equal. lia.
  - intros o e Ho He. rewrite O' by lia. apply O1. intros i Hi.
    destruct (decide (Z.of_nat i < o)); [right; nia|]. destruct (decide (Z.of_nat i = o)); [left; nia|left; nia].
Qed.

(** ** Preparation of Concat *)

Lemma same_dims_ok axis k (data_n inputs_0 : list Z) :
  (∀ i d, inputs_0 !! i = Some d → Z.of_nat (k + i) ≠ axis → data_n !! (k + i)%nat = Some d) → same_dims axis k data_n inputs_0 = Ok true.
Proof.
  revert k. induction inputs_0 as [|d l IH]; intros k H; [done|]. cbn [same_dims].
  assert (Hrest : same_dims axis (S k) data_n l = Ok true).
  { apply IH. intros i d' Hi Hne. replace (S k + i)%nat with (k + S i)%nat in * by lia. by apply H. }
  destruct (Z.eqb_spec (Z.of_nat k) axis); [done|]. specialize (H 0%nat d eq_refl). rewrite Nat.add_0_r in H. rewrite H by done.
  cbn [of_option mbind res_bind]. by rewrite Z.eqb_refl.
Qed.
Lemma new_output_length dims : 0 ≤ prodZ dims → Z.of_nat (length (new_output garbage dims)) = prodZ dims.
Proof. intros H. unfold new_output. rewrite length_replicate. lia. Qed.
Lemma CopyMatrix_ok M N a W (src target : list A) :
  0 ≤ M → 1 ≤ N → 0 ≤ a → a + N ≤ W → M * W < 2 ^ 31 → Z.of_nat (length src) = M * W → Z.of_nat (length target) = M * N →
  ∃ out, CopyMatrix M N src a W target N = Ok out ∧ Z.of_nat (length out) = M * N ∧
    ∀ o e, 0 ≤ o < M → 0 ≤ e < N → out !! Z.to_nat (o * N + e) = src !! Z.to_nat (o * W + (a + e)).
Proof.
  intros HM HN Ha HaN Hlt Ls Lt. unfold CopyMatrix. rewrite Z.eqb_refl, andb_true_r. destruct (Z.eqb_spec W N) as [->|Hne].
  - assert (a = 0) as -> by lia. rewrite int_op_ok by lia. cbn [mbind res_bind].
    destruct (memcpy_ok target 0 src 0 (N * M)) as (out & E & L & C & _); [lia|lia|lia|lia|lia|]. exists out. split_and!; [done|lia|].
    intros o e Ho He. apply (C (o * N + e)). nia.
  - destruct (copy_loop (fun B_ i => src' ← int_op (W * Z.of_nat i); dst ← int_op (N * Z.of_nat i); memcpy B_ dst src (a + src') N)
      (fun i => N * Z.of_nat i) (fun i => a + W * Z.of_nat i) N src target (Z.to_nat M)) as (out & E & L & C & _).
    + intros t i Hi. assert (W * Z.of_nat i ≤ M * W) by nia. rewrite !int_op_ok by nia. done.
    + lia.
    + intros i Hi. assert (W * (Z.of_nat i + 1) ≤ W * M) by (apply Z.mul_le_mono_nonneg_l; lia).
      assert (N * (Z.of_nat i + 1) ≤ N * M) by (apply Z.mul_le_mono_nonneg_l; lia). split_and!; nia.
    + intros i j Hij. assert (N * (Z.of_nat i + 1) ≤ N * Z.of_nat j) by (apply Z.mul_le_mono_nonneg_l; lia). lia.
    + exists out. split_and!; [done|lia|]. intros o e Ho He. specialize (C (Z.to_nat o) e ltac:(lia) He). rewrite !Z2Nat.id in C by lia.
      replace (o * N + e) with (N * o + e) by lia. rewrite C. do 2 f_equal. lia.
Qed.
Lemma narrow_int_ok z : 0 ≤ z < 2 ^ 31 → narrow_int z = Ok z.
Proof. intros Hz. unfold narrow_int, fits_int. rewrite (proj2 (Z.leb_le _ _)), (proj2 (Z.ltb_lt _ _)) by lia. done. Qed.
Section inputs.
Context (dims0 : list Z) (axis : nat) (Haxis : (axis < length dims0)%nat).
(** A tensor with the given dimensions but for the axis. *)
Definition fits_axis (t : Tensor) : Prop := tensor_ok t ∧ fst t = <[axis := fst t !!! axis]> dims0.
Definition sizes (ts : list Tensor) : list Z := (fun t => fst t !!! axis) <$> ts.
Abbreviation outer := (prodZ (take axis dims0)).
Abbreviation inner := (prodZ (drop (S axis) dims0)).
Abbreviation widths ts := ((fun d => d * inner) <$> sizes ts).

Lemma fits_pos t : fits_axis t → 1 ≤ outer ∧ 1 ≤ inner ∧ 1 ≤ fst t !!! axis.
Proof.
  intros [[Hd _] E]. rewrite E in Hd. split_and!.
  - rewrite <- (take_insert_same dims0 axis (fst t !!! axis)). by apply prodZ_pos, Forall_take.
  - rewrite <- (drop_insert_same dims0 axis (fst t !!! axis)). by apply prodZ_pos, Forall_drop.
  - rewrite Forall_lookup in Hd. by apply (Hd axis), list_lookup_insert_eq.
Qed.
Lemma fits_length t : fits_axis t → length (fst t) = length dims0.
Proof. intros [_ ->]. apply length_insert. Qed.
Lemma fits_size t : fits_axis t → prodZ (fst t) = outer * (fst t !!! axis * inner).
Proof. intros [_ E]. rewrite E at 1. by apply prodZ_insert. Qed.
Lemma fits_pitch t : fits_axis t → prodZ (fst t) < 2 ^ 63 → axis_pitch axis (fst t) = fst t !!! axis * inner.
Proof.
  intros H Hlt. rewrite axis_pitch_ok by (apply H || done). rewrite drop_total by (rewrite fits_length; done). cbn [prodZ foldr]. f_equal.
  destruct H as [_ E]. rewrite E at 1. by rewrite drop_insert_same.
Qed.
Lemma sizes_pos ts : Forall fits_axis ts → Forall (fun d => 1 ≤ d) (sizes ts).
Proof. intros H. apply Forall_fmap. eapply Forall_impl; [exact H|]. intros t Ht. by apply fits_pos in Ht as (_ & _ & ?). Qed.
Lemma size_le_sum ts t : Forall fits_axis ts → t ∈ ts → fst t !!! axis ≤ zsum (sizes ts).
Proof.
  intros H [j Hj]%list_elem_of_lookup. pose proof (zsum_take_le _ (S j) (sizes_pos _ H)) as Hs.
  rewrite (zsum_take_S (sizes ts) j (fst t !!! axis)) in Hs by (unfold sizes; by rewrite list_lookup_fmap, Hj).
  pose proof (zsum_take_le _ j (sizes_pos _ H)). lia.
Qed.
Lemma size_le_whole ts t : Forall fits_axis ts → t ∈ ts → prodZ (fst t) ≤ prodZ (<[axis := zsum (sizes ts)]> dims0).
Proof.
  intros H Ht. pose proof (size_le_sum ts t H Ht). rewrite Forall_forall in H. specialize (H t Ht). rewrite prodZ_insert, fits_size by done.
  apply fits_pos in H as (? & ? & ?). apply Z.mul_le_mono_nonneg_l; [lia|]. apply Z.mul_le_mono_nonneg_r; lia.
Qed.
Lemma concat_axis_size_ok ts acc :
  Forall fits_axis ts → 0 ≤ acc → acc + zsum (sizes ts) < 2 ^ 64 →
  foldM (fun size (t : Tensor) => d ← of_option UndefinedBehaviour (fst t !! axis); Ok (u64 (size + d))) acc ts = Ok (acc + zsum (sizes ts)).
Proof.
  intros H. revert acc. induction H as [|t ts Ht H IH]; intros acc Ha Hlt; [simpl; f_equal; lia|]. unfold sizes in *. rewrite fmap_cons in *.
  cbn [foldM zsum foldr] in *. change (foldr Z.add 0 ?l) with (zsum l) in *. pose proof (fits_pos t Ht) as (_ & _ & Hd). pose proof (zsum_nonneg _ (sizes_pos _ H)) as Hs. unfold sizes in Hs.
  rewrite list_lookup_lookup_total_lt by (rewrite fits_length; done). cbn [of_option mbind res_bind]. rewrite u64_small by lia. rewrite IH by lia. f_equal. lia.
Qed.
Lemma check_inputs_ok t0 ts : fits_axis t0 → Forall fits_axis ts → check_inputs (Z.of_nat axis) (fst t0) (Some <$> ts) = Ok StatusOK.
Proof.
  intros H0. induction 1 as [|t ts Ht H IH]; [done|]. rewrite fmap_cons. cbn [check_inputs]. rewrite same_dims_ok; [exact IH|].
  intros i d Hi Hne. destruct H0 as [_ E0], Ht as [_ E]. rewrite E0 in Hi. rewrite E. rewrite list_lookup_insert_ne in Hi |- * by lia. done.
Qed.

(** ** Concat *)

Abbreviation whole_dims ts := (<[axis := zsum (sizes ts)]> dims0).
Lemma insert_pos t d : fits_axis t → 1 ≤ d → Forall (fun d => 1 ≤ d) (<[axis := d]> dims0).
Proof. intros [[H _] E] Hd. rewrite E in H. rewrite <- (list_insert_insert_eq dims0 axis d (fst t !!! axis)). by apply Forall_insert. Qed.
Lemma concat_ok axis_ type ts :
  ts ≠ [] → Forall fits_axis ts → prodZ (whole_dims ts) < 2 ^ 31 → HandleNegativeAxis axis_ (Z.of_nat (length dims0)) = Ok (Z.of_nat axis) →
  ∃ out, Concat_Compute garbage axis_ type (Some <$> ts) = Ok (StatusOK, Some (whole_dims ts, out)) ∧ rows_of outer (widths ts) (snd <$> ts) out.
Proof.
  intros Hne Hts Hlt Hax. destruct ts as [|t0 ts]; [done|]. pose proof Hts as [Ht0 Hts']%Forall_cons. pose proof (fits_pos t0 Ht0) as (Ho & Hi & Hd0).
  pose proof (zsum_nonneg _ (sizes_pos _ Hts)) as Hs0. pose proof (prodZ_insert dims0 axis (zsum (sizes (t0 :: ts))) Haxis) as Hw.
  pose proof (size_le_sum _ t0 Hts ltac:(by left)) as Hle0. assert (Hsi : zsum (sizes (t0 :: ts)) ≤ zsum (sizes (t0 :: ts)) * inner) by nia.
  assert (Hwi : zsum (sizes (t0 :: ts)) * inner ≤ prodZ (whole_dims (t0 :: ts))) by nia.
  set (l := (fun t : Tensor => (t, fst t !!! axis * inner)) <$> t0 :: ts).
  assert (El : l.*2 = widths (t0 :: ts)) by (unfold l, sizes; rewrite <- !list_fmap_compose; done).
  assert (Hsl : zsum l.*2 = zsum (sizes (t0 :: ts)) * inner) by (rewrite El; apply zsum_mul).
  destruct (concat_inputs (bool_decide (type = StringType)) outer (zsum l.*2) l 0 (new_output garbage (whole_dims (t0 :: ts)))) as (out & E & L & C & _).
  { split; [lia|]. rewrite Hw in Hlt. nia. }
  { unfold l. apply Forall_fmap, Forall_forall. intros t Ht. cbn [fst snd compose]. pose proof (size_le_whole _ t Hts Ht) as Hle. pose proof Hts as Hall. rewrite Forall_forall in Hts. specialize (Hts t Ht).
    pose proof (fits_size t Hts) as Es. pose proof (fits_pos t Hts) as (_ & _ & Hd). pose proof (size_le_sum _ t Hall Ht). split_and!; [nia|nia| |rewrite <- Es; apply Hts].
    rewrite Size_ok by (apply Hts || lia). done. }
  { lia. } { lia. } { rewrite new_output_length by nia. rewrite Hsl. done. }
  exists out. split.
  - unfold Concat_Compute, Concat_PrepareForCompute. rewrite fmap_cons. rewrite fits_length, Hax by done. cbn [mbind res_bind]. rewrite check_inputs_ok by done.
    cbn [mbind res_bind IsOK StatusOK negb]. rewrite <- fmap_cons. assert (omap id (Some <$> t0 :: ts) = t0 :: ts) as -> by (clear; induction (t0 :: ts) as [|x xs IH]; [done|by csimpl; rewrite IH]).
    unfold concat_axis_size. rewrite Nat2Z.id, concat_axis_size_ok by (done || lia). cbn [mbind res_bind]. rewrite Z.add_0_l, i64_small by lia.
    pose proof (proj2 Ht0) as E0. rewrite E0, list_insert_insert_eq. cbn [output_axis_pitch output_dims inputs].
    assert ((fun t : Tensor => (t, axis_pitch axis (fst t))) <$> t0 :: ts = l) as ->.
    { unfold l. apply list_fmap_ext. intros i t Ht%list_elem_of_lookup_2. f_equal. pose proof (size_le_whole _ t Hts Ht). rewrite Forall_forall in Hts. apply fits_pitch; [by apply Hts|lia]. }
    assert (axis_pitch axis (whole_dims (t0 :: ts)) = zsum l.*2) as ->; [|by rewrite E].
    rewrite axis_pitch_ok; [|by apply (insert_pos t0); [|lia]|lia].
    rewrite drop_total by (rewrite length_insert; done). cbn [prodZ foldr]. rewrite list_lookup_total_insert_eq, drop_insert_same by done. rewrite Hsl. done.
  - split_and!; [by rewrite L, new_output_length, zsum_mul by nia| |].
    + unfold sizes. rewrite Forall2_fmap_l, Forall2_fmap_l, Forall2_fmap_r. apply Forall_Forall2_diag. eapply Forall_impl; [exact Hts|]. intros t Ht. cbn [compose]. rewrite <- fits_size by done. apply Ht.
    + intros j w part o e Hj Hp Ho' He. rewrite list_lookup_fmap in Hp. destruct ((t0 :: ts) !! j) as [t|] eqn:Ht; [|done]. injection Hp as <-.
      assert (Hlj : l !! j = Some (t, w)).
      { unfold l. rewrite list_lookup_fmap, Ht. unfold sizes in Hj. rewrite !list_lookup_fmap, Ht in Hj. cbn in *. congruence. }
      by rewrite <- (C _ _ _ _ _ Hlj Ho' He), El.
Qed.

(** ** Split *)

Section split.
Context (input : Tensor) (Hinput : tensor_ok input) (Hdims : fst input = dims0) (Hlt : prodZ dims0 < 2 ^ 31).
Abbreviation width := (dims0 !!! axis * inner).

Lemma input_pos : 1 ≤ outer ∧ 1 ≤ inner ∧ 1 ≤ dims0 !!! axis ∧ outer * width < 2 ^ 31.
Proof.
  destruct Hinput as [Hd _]. rewrite Hdims in Hd. split_and!; [by apply prodZ_pos, Forall_take|by apply prodZ_pos, Forall_drop| |by rewrite <- prodZ_axis].
  rewrite Forall_lookup in Hd. by apply (Hd axis), list_lookup_lookup_total_lt.
Qed.
Lemma split_outputs ss off acc :
  Forall (fun d => 1 ≤ d) ss → 0 ≤ off → off + zsum ss * inner ≤ width →
  ∃ outs, foldM (split_output garbage axis outer width inner input) (off, acc) ss = Ok (off + zsum ss * inner, acc ++ outs) ∧
    Forall fits_axis outs ∧ sizes outs = ss ∧
    ∀ j t o e, outs !! j = Some t → 0 ≤ o < outer → 0 ≤ e < fst t !!! axis * inner →
      snd t !! Z.to_nat (o * (fst t !!! axis * inner) + e) = snd input !! Z.to_nat (o * width + (off + zsum (take j ss) * inner + e)).
Proof.
  destruct input_pos as (Ho & Hi & Hd & Hw). intros Hss. revert off acc. induction Hss as [|d ss Hd1 Hss IH]; intros off acc Hoff Hle.
  { exists []. rewrite app_nil_r. split_and!; [simpl; do 2 f_equal; lia|constructor|done|by intros []]. }
  cbn [foldM zsum foldr] in *. change (foldr Z.add 0 ss) with (zsum ss) in *. pose proof (zsum_nonneg _ Hss) as Hs0.
  assert (Hdi : d ≤ d * inner ≤ width) by nia. assert (Hwo : width ≤ outer * width) by nia.
  destruct (CopyMatrix_ok outer (d * inner) off width (snd input) (new_output garbage (<[axis := d]> dims0))) as (out & E & L & C); [lia|lia|lia|nia|lia| | |].
  { rewrite (proj2 Hinput), Hdims. by apply prodZ_axis. } { rewrite new_output_length; rewrite prodZ_insert by done; nia. }
  destruct (IH (off + d * inner) (acc ++ [(<[axis := d]> dims0, out)])) as (outs & Es & Hf & Hz & Hc); [nia|lia|].
  exists ((<[axis := d]> dims0, out) :: outs). 
  assert (split_output garbage axis outer width inner input (off, acc) d = Ok (off + d * inner, acc ++ [(<[axis := d]> dims0, out)])) as ->.
  { unfold split_output. rewrite narrow_int_ok by lia. cbn [mbind res_bind]. rewrite int_op_ok by lia. cbn [mbind res_bind]. by rewrite Hdims, E. }
  cbn [mbind res_bind]. rewrite Es. assert (Hdd : (<[axis := d]> dims0, out).1 !!! axis = d) by (cbn; by rewrite list_lookup_total_insert_eq).
  split_and!.
  - f_equal. f_equal; [lia|by rewrite <- app_assoc].
  - constructor; [|done]. split; [|cbn [fst]; by rewrite list_lookup_total_insert_eq]. split; [|cbn [fst snd]; rewrite prodZ_insert by done; lia].
    apply Forall_insert; [|done]. destruct Hinput as [Hp _]. by rewrite Hdims in Hp.
  - unfold sizes in *. rewrite fmap_cons, Hz, Hdd. done.
  - intros [|j] t o e Hj Ho' He; cbn in Hj.
    + injection Hj as <-. rewrite Hdd in *. cbn [snd take zsum foldr]. rewrite C by lia. do 2 f_equal. lia.
    + rewrite (Hc j t o e Hj Ho' He). cbn [take zsum foldr]. change (foldr Z.add 0 ?x) with (zsum x). do 2 f_equal. lia.
Qed.
Lemma split_impl k n r :
  HandleNegativeAxis (split_axis_ k) (Z.of_nat (length dims0)) = Ok (Z.of_nat axis) → split_sizes k (dims0 !!! axis) n = Ok r →
  Split_Compute garbage k Float input n =
    match r with
    | None => Ok (Some FAIL, [])
    | Some ss => '(_, outputs) ← foldM (split_output garbage axis outer width inner input) (0, []) ss; Ok (StatusOK, outputs)
    end.
Proof.
  intros Hax Hz. destruct input_pos as (Ho & Hi & Hd & Hw). pose proof (proj1 Hinput) as Hp. rewrite Hdims in Hp.
  assert (Hb : dims0 !!! axis ≤ width ∧ inner ≤ width) by (split; nia).
  assert (Hb' : width ≤ outer * width ∧ outer ≤ outer * width) by (split; apply Z.le_mul_diag_r || rewrite <- (Z.mul_1_r outer) at 1; nia).
  unfold Split_Compute, Split_ComputeImpl. rewrite Hdims, Hax. cbn [mbind res_bind]. rewrite Nat2Z.id.
  rewrite list_lookup_lookup_total_lt by done. cbn [of_option mbind res_bind]. rewrite SizeToDimension_ok, (SizeFromDimension_ok dims0 axis) by (done || lia). cbn [mbind res_bind].
  assert (prodZ (drop axis dims0) = width) as -> by (by rewrite drop_total). rewrite !narrow_int_ok by lia. cbn [mbind res_bind].
  assert ((if (axis + 1 =? length dims0)%nat then Ok 1 else n ← SizeFromDimension dims0 (axis + 1); narrow_int n) = Ok inner) as ->.
  { rewrite Nat.add_1_r. destruct (Nat.eqb_spec (S axis) (length dims0)) as [->|]; [by rewrite drop_all|]. rewrite SizeFromDimension_ok by (done || lia).
    cbn [mbind res_bind]. apply narrow_int_ok. lia. }
  cbn [mbind res_bind]. by rewrite Hz.
Qed.
Lemma split_ok k n ss :
  HandleNegativeAxis (split_axis_ k) (Z.of_nat (length dims0)) = Ok (Z.of_nat axis) → split_sizes k (dims0 !!! axis) n = Ok (Some ss) →
  Forall (fun d => 1 ≤ d) ss → zsum ss = dims0 !!! axis →
  ∃ outs, Split_Compute garbage k Float input n = Ok (StatusOK, outs) ∧ Forall fits_axis outs ∧ sizes outs = ss ∧
    rows_of outer (widths outs) (snd <$> outs) (snd input).
Proof.
  intros Hax Hz Hss Hsum. destruct input_pos as (Ho & Hi & Hd & Hw).
  destruct (split_outputs ss 0 [] Hss) as (outs & E & Hf & Hs & Hc); [lia|rewrite Hsum; lia|]. exists outs. split_and!; [|done|done|].
  - rewrite (split_impl k n (Some ss)) by done. by rewrite E.
  - rewrite Hs. split_and!.
    + rewrite zsum_mul, Hsum, (proj2 Hinput), Hdims. by apply prodZ_axis.
    + rewrite <- Hs. unfold sizes. rewrite Forall2_fmap_l, Forall2_fmap_l, Forall2_fmap_r. apply Forall_Forall2_diag. eapply Forall_impl; [exact Hf|]. intros t Ht. cbn [compose].
      rewrite <- fits_size by done. apply Ht.
    + intros j w part o e Hj Hp Ho' He. rewrite list_lookup_fmap in Hp. destruct (outs !! j) as [t|] eqn:Ht; [|done]. injection Hp as <-.
      assert (w = fst t !!! axis * inner) as ->. { rewrite <- Hs in Hj. unfold sizes in Hj. rewrite !list_lookup_fmap, Ht in Hj. cbn in Hj. congruence. }
      rewrite (Hc j t o e Ht Ho' He), zsum_mul, Hsum, <- fmap_take, zsum_mul. done.
Qed.
End split.

(** ** Elements *)

(** Where the rows put the element at an index of a part. *)
Lemma flat_part t idx :
  fits_axis t → valid_index (fst t) idx →
  ∃ o e, 0 ≤ o < outer ∧ 0 ≤ e < fst t !!! axis * inner ∧ flat (fst t) idx = o * (fst t !!! axis * inner) + e ∧
    ∀ off total, flat (<[axis := total]> dims0) (alter (Z.add off) axis idx) = o * (total * inner) + (off * inner + e).
Proof.
  intros Ht [Hl Hr]. pose proof (fits_length t Ht) as Lt. pose proof (proj2 Ht) as E. assert (Ha : (axis < length (fst t))%nat) by lia.
  assert (Ed : drop (S axis) (fst t) = drop (S axis) dims0) by (rewrite E at 1; apply drop_insert_same).
  assert (Ei : ∀ i, (i < axis)%nat → fst t !!! i = dims0 !!! i) by (intros i Hi; rewrite E at 1; rewrite list_lookup_total_insert_ne by lia; done).
  exists (val axis dims0 idx), (idx !!! axis * inner + flat (drop (S axis) dims0) (drop (S axis) idx)).
  pose proof (flat_bound _ _ (valid_index_drop (fst t) idx (S axis) ltac:(lia) (conj Hl Hr))) as Hfb. rewrite Ed in Hfb. pose proof (Hr axis Ha) as Hra.
  pose proof (val_bound axis dims0 idx ltac:(lia) ltac:(intros i Hi; rewrite <- Ei by lia; apply Hr; lia)) as Hvb.
  assert ((idx !!! axis + 1) * inner ≤ fst t !!! axis * inner) by (apply Z.mul_le_mono_nonneg_r; lia).
  split; [done|]. split; [nia|]. split.
  - rewrite (flat_axis _ _ axis Ha), Ed. by rewrite (val_dims_ext axis (fst t) dims0 idx Ei).
  - intros off total. rewrite (flat_axis _ _ axis) by (rewrite length_insert; done). rewrite list_lookup_total_insert_eq, drop_insert_same by done.
    rewrite list_lookup_total_alter_eq by lia. rewrite drop_alter_lt by lia.
    rewrite (val_dims_ext axis (<[axis:=total]> dims0) dims0) by (intros; by rewrite list_lookup_total_insert_ne by lia).
    rewrite (val_ext axis dims0 (alter (Z.add off) axis idx) idx) by (intros; by rewrite list_lookup_total_alter_ne by lia).
    ring.
Qed.
Lemma rows_elements ts (whole : list A) j t idx :
  Forall fits_axis ts → rows_of outer (widths ts) (snd <$> ts) whole → ts !! j = Some t → valid_index (fst t) idx →
  whole !! Z.to_nat (flat (whole_dims ts) (alter (Z.add (zsum (take j (sizes ts)))) axis idx)) = snd t !! Z.to_nat (flat (fst t) idx).
Proof.
  intros Hts (_ & _ & H) Hj Hv. assert (Ht : fits_axis t) by (rewrite Forall_lookup in Hts; by eapply Hts).
  destruct (flat_part t idx Ht Hv) as (o & e & Ho & He & -> & ->).
  rewrite <- (H j (fst t !!! axis * inner) (snd t) o e); [|by unfold sizes; rewrite !list_lookup_fmap, Hj|by rewrite list_lookup_fmap, Hj|done|done].
  rewrite zsum_mul, <- fmap_take, zsum_mul. done.
Qed.
Lemma widths_pos ts : 1 ≤ inner → Forall fits_axis ts → Forall (fun w => 1 ≤ w) (widths ts).
Proof. intros Hi H. apply Forall_fmap. eapply Forall_impl; [by apply sizes_pos|]. intros d Hd. cbn in *. nia. Qed.
Lemma fits_fst ts : Forall fits_axis ts → fst <$> ts = (fun d => <[axis := d]> dims0) <$> sizes ts.
Proof.
  intros H. unfold sizes. rewrite <- list_fmap_compose. apply list_fmap_ext. intros j t Ht. rewrite Forall_lookup in H. apply (H j t Ht).
Qed.
End inputs.

(** ** Correctness *)

Definition axis_of (axis_ : Z) (dims : list Z) : nat := Z.to_nat (if axis_ <? 0 then axis_ + Z.of_nat (length dims) else axis_).
Definition axis_valid (axis_ : Z) (dims : list Z) : Prop := - Z.of_nat (length dims) ≤ axis_ < Z.of_nat (length dims).
Lemma axis_ok axis_ dims :
  axis_valid axis_ dims → HandleNegativeAxis axis_ (Z.of_nat (length dims)) = Ok (Z.of_nat (axis_of axis_ dims)) ∧ (axis_of axis_ dims < length dims)%nat.
Proof.
  intros H. destruct (HandleNegativeAxis_ok axis_ _ H) as (axis & -> & Hb & E). unfold axis_of. rewrite <- E. split; [f_equal|]; lia.
Qed.
Lemma sum_i64 l acc :
  Forall (fun d => 1 ≤ d) l → 0 ≤ acc → acc + zsum l < 2 ^ 63 → foldl (fun sum value => i64 (sum + value)) acc l = acc + zsum l.
Proof.
  intros Hl. revert acc. induction Hl as [|x l Hx Hl IH]; intros acc Ha Hlt; simpl in *; [lia|]. fold (zsum l) in *. pose proof (zsum_nonneg _ Hl).
  rewrite i64_small by lia. rewrite IH by lia. lia.
Qed.
Lemma new_Split_axis axis split k : new_Split axis split = Ok k → split_axis_ k = axis.
Proof. unfold new_Split. destruct split as [l|]; [intros (? & _ & [= <-])%bind_Ok; done|by intros [= <-]]. Qed.
Lemma new_Split_sizes axis l :
  Forall (fun d => 1 ≤ d) l → l ≠ [] → zsum l < 2 ^ 63 →
  new_Split axis (Some l) = Ok (mkSplit axis l (zsum l)) ∧ split_sizes (mkSplit axis l (zsum l)) (zsum l) (length l) = Ok (Some l).
Proof.
  intros Hl Hne Hlt. unfold new_Split, split_sizes. cbn [split_sizes_ split_size_sum_]. split.
  - assert (forallb (fun value => 0 <? value) l = true) as ->.
    { apply forallb_forall. intros x Hx%list_elem_of_In. rewrite Forall_forall in Hl. specialize (Hl x Hx). lia. }
    cbn. by rewrite sum_i64 by (done || lia).
  - rewrite bool_decide_false by done. by rewrite Nat.eqb_refl, Z.eqb_refl.
Qed.
Lemma sizes_resolved axis split k d n ss :
  new_Split axis split = Ok k → 1 ≤ d → zsum (default [] split) < 2 ^ 63 → split_sizes k d n = Ok (Some ss) →
  split_axis_ k = axis ∧ Forall (fun d => 1 ≤ d) ss ∧ zsum ss = d ∧ length ss = n.
Proof.
  intros Hk Hd Hlt. unfold new_Split in Hk. assert (Ek : k = mkSplit axis (default [] split) (foldl (fun sum v => i64 (sum + v)) 0 (default [] split)) ∧ Forall (fun d => 1 ≤ d) (default [] split)).
  { destruct split as [l|]; [|injection Hk as <-; done]. apply bind_Ok in Hk as (? & He & [= <-]). split; [done|]. unfold enforce in He. destruct (forallb _ l) eqn:E; [|done].
    rewrite forallb_forall in E. apply Forall_forall. intros y Hy%list_elem_of_In. apply E in Hy. lia. }
  destruct Ek as [-> Hpos]. unfold split_sizes. cbn [split_sizes_ split_size_sum_ split_axis_]. case_bool_decide as He.
  - destruct (Nat.eqb_spec n 0); [done|]. destruct (Z.eqb_spec (Z.rem d (Z.of_nat n)) 0) as [Hz|]; [|done]. cbn [negb]. intros [= <-].
    pose proof (Z.quot_rem d (Z.of_nat n) ltac:(lia)) as Hq. rewrite Hz in Hq. assert (1 ≤ Z.quot d (Z.of_nat n)) by nia.
    assert (∀ m q, zsum (replicate m q) = Z.of_nat m * q) as Hs by (clear; induction m as [|m IH]; intros q; simpl; [done|]; fold (zsum (replicate m q)); rewrite IH; lia).
    split_and!; [done|by apply Forall_replicate|rewrite Hs; lia|apply length_replicate].
  - destruct (Nat.eqb_spec (length (default [] split)) n) as [El|]; [|done]. cbn [negb orb].
    rewrite sum_i64 by (done || lia). destruct (Z.eqb_spec (0 + zsum (default [] split)) d) as [Ed|]; [|done]. intros [= <-]. split_and!; [done|done|lia|done].
Qed.

(** Concat of tensors whose dimensions agree but for the axis returns OK. The
    output is as long on the axis as the inputs together, and each element of an
    input is at its own index, moved along the axis by the sizes of the inputs
    before it. *)
Theorem concat_correct axis_ type dims0 (ts : list Tensor) :
  let axis := axis_of axis_ dims0 in let whole_dims := <[axis := zsum (sizes axis ts)]> dims0 in
  axis_valid axis_ dims0 → ts ≠ [] → Forall (fits_axis dims0 axis) ts → prodZ whole_dims < 2 ^ 31 →
  ∃ out, Concat_Compute garbage axis_ type (Some <$> ts) = Ok (StatusOK, Some (whole_dims, out)) ∧ Z.of_nat (length out) = prodZ whole_dims ∧
    ∀ j t idx, ts !! j = Some t → valid_index (fst t) idx →
      out !! Z.to_nat (flat whole_dims (alter (Z.add (zsum (take j (sizes axis ts)))) axis idx)) = snd t !! Z.to_nat (flat (fst t) idx).
Proof.
  intros axis whole_dims Hv Hne Hts Hlt. destruct (axis_ok axis_ dims0 Hv) as [Hax Ha]. fold axis in Hax, Ha.
  destruct (concat_ok dims0 axis Ha axis_ type ts Hne Hts Hlt Hax) as (out & E & Hr). exists out. split_and!; [done| |].
  - destruct Hr as (L & _). unfold whole_dims. rewrite L, zsum_mul, prodZ_insert by done. done.
  - intros j t idx. by apply rows_elements.
Qed.

(** Split of a tensor of floats returns OK as soon as the sizes of the
    outputs add up to the size of the axis, and FAIL if they do not. Each output
    has its size on the axis, and its element at an index is the one of the
    input at the index moved by the sizes of the outputs before it. *)
Theorem split_correct axis_ split k (input : Tensor) n r :
  let dims := fst input in let axis := axis_of axis_ dims in
  tensor_ok input → axis_valid axis_ dims → prodZ dims < 2 ^ 31 → new_Split axis_ split = Ok k → zsum (default [] split) < 2 ^ 63 →
  split_sizes k (dims !!! axis) n = Ok r →
  match r with
  | None => Split_Compute garbage k Float input n = Ok (Some FAIL, [])
  | Some ss =>
      ∃ outs, Split_Compute garbage k Float input n = Ok (StatusOK, outs) ∧ fst <$> outs = (fun d => <[axis := d]> dims) <$> ss ∧ length ss = n ∧ zsum ss = dims !!! axis ∧
        ∀ j t idx, outs !! j = Some t → valid_index (fst t) idx →
          snd t !! Z.to_nat (flat (fst t) idx) = snd input !! Z.to_nat (flat dims (alter (Z.add (zsum (take j ss))) axis idx))
  end.
Proof.
  intros dims axis Hi Hv Hlt Hk Hs Hz. destruct (axis_ok axis_ dims Hv) as [Hax Ha]. fold axis in Hax, Ha.
  destruct (input_pos dims axis Ha input Hi eq_refl Hlt) as (_ & _ & Hd & _).
  destruct r as [ss|].
  - destruct (sizes_resolved axis_ split k (dims !!! axis) n ss Hk Hd Hs Hz) as (Ek & Hss & Hsum & Hn).
    destruct (split_ok dims axis Ha input Hi eq_refl Hlt k n ss) as (outs & E & Hf & Esz & Hr); [by rewrite Ek|done|done|done|].
    exists outs. split_and!; [done| |done|done|].
    + rewrite <- Esz. by apply fits_fst.
    + intros j t idx Ht Hvi. rewrite <- (rows_elements dims axis Ha outs (snd input) j t idx Hf Hr Ht Hvi). rewrite Esz, Hsum.
      rewrite list_insert_id by (by apply list_lookup_lookup_total_lt). done.
  - rewrite (split_impl dims axis Ha input Hi eq_refl Hlt k n None); [done|by rewrite (new_Split_axis _ _ _ Hk)|done].
Qed.

Lemma concat_after_split axis_ split k (input : Tensor) n ss :
  tensor_ok input → axis_valid axis_ (fst input) → prodZ (fst input) < 2 ^ 31 → new_Split axis_ split = Ok k → zsum (default [] split) < 2 ^ 63 →
  split_sizes k (fst input !!! axis_of axis_ (fst input)) n = Ok (Some ss) →
  ∃ outs, Split_Compute garbage k Float input n = Ok (StatusOK, outs) ∧ Concat_Compute garbage axis_ Float (Some <$> outs) = Ok (StatusOK, Some input).
Proof.
  intros Hi Hv Hlt Hk Hs Hz. destruct (axis_ok axis_ (fst input) Hv) as [Hax Ha]. set (dims := fst input) in *. set (axis := axis_of axis_ dims) in *.
  destruct (input_pos dims axis Ha input Hi eq_refl Hlt) as (_ & Hin & Hd & _).
  destruct (sizes_resolved axis_ split k (dims !!! axis) n ss Hk Hd Hs Hz) as (Ek & Hss & Hsum & Hn).
  destruct (split_ok dims axis Ha input Hi eq_refl Hlt k n ss) as (outs & E & Hf & Esz & Hr); [by rewrite Ek|done|done|done|]. exists outs. split; [done|].
  assert (Ew : <[axis := zsum (sizes axis outs)]> dims = dims) by (rewrite Esz, Hsum; apply list_insert_id; by apply list_lookup_lookup_total_lt).
  destruct (concat_ok dims axis Ha axis_ Float outs) as (out & Ec & Hr'); [|done|by rewrite Ew|done|].
  { intros ->. unfold sizes in Esz. subst ss. simpl in Hsum. lia. }
  rewrite Ec, Ew. rewrite (rows_whole _ _ _ _ _ (widths_pos dims axis Ha outs Hin Hf) Hr' Hr). unfold dims. by destruct input.
Qed.
Lemma split_after_concat axis_ dims0 (ts : list Tensor) :
  let axis := axis_of axis_ dims0 in
  axis_valid axis_ dims0 → ts ≠ [] → Forall (fits_axis dims0 axis) ts → prodZ (<[axis := zsum (sizes axis ts)]> dims0) < 2 ^ 31 →
  ∃ whole k, Concat_Compute garbage axis_ Float (Some <$> ts) = Ok (StatusOK, Some whole) ∧ new_Split axis_ (Some (sizes axis ts)) = Ok k ∧
    Split_Compute garbage k Float whole (length ts) = Ok (StatusOK, ts).
Proof.
  intros axis Hv Hne Hts Hlt. destruct (axis_ok axis_ dims0 Hv) as [Hax Ha]. fold axis in Hax, Ha.
  destruct (concat_ok dims0 axis Ha axis_ Float ts Hne Hts Hlt Hax) as (out & E & Hr). assert (∃ t0, t0 ∈ ts) as [t0 Ht] by (destruct ts as [|t0 ts]; [done|exists t0; by left]).
  pose proof (size_le_sum dims0 axis Ha _ t0 Hts Ht) as Hle. assert (Ht0 : fits_axis dims0 axis t0) by (rewrite Forall_forall in Hts; auto).
  pose proof (fits_pos dims0 axis Ha t0 Ht0) as (Ho & Hin & Hd0). set (whole_dims := <[axis := zsum (sizes axis ts)]> dims0) in *.
  assert (Hw : prodZ whole_dims = prodZ (take axis dims0) * (zsum (sizes axis ts) * prodZ (drop (S axis) dims0))) by by apply prodZ_insert.
  assert (Hsi : zsum (sizes axis ts) ≤ zsum (sizes axis ts) * prodZ (drop (S axis) dims0)) by nia. assert (Hsum : zsum (sizes axis ts) ≤ prodZ whole_dims) by nia.
  destruct (new_Split_sizes axis_ (sizes axis ts) (sizes_pos dims0 axis Ha ts Hts)) as [Hk Hz]; [by destruct ts|lia|].
  exists (whole_dims, out), (mkSplit axis_ (sizes axis ts) (zsum (sizes axis ts))). split; [done|]. split; [done|].
  assert (Hwd : whole_dims !!! axis = zsum (sizes axis ts)) by (unfold whole_dims; by rewrite list_lookup_total_insert_eq).
  assert (Lw : length whole_dims = length dims0) by (unfold whole_dims; apply length_insert).
  assert (Hok : tensor_ok (whole_dims, out)).
  { split; [by apply (insert_pos dims0 axis t0); [|lia]|]. cbn [fst snd]. destruct Hr as (L & _). rewrite L, zsum_mul. by rewrite Hw. }
  destruct (split_ok whole_dims axis ltac:(lia) (whole_dims, out) Hok eq_refl Hlt (mkSplit axis_ (sizes axis ts) (zsum (sizes axis ts))) (length ts) (sizes axis ts))
    as (outs & Es & Hf & Esz & Hr'); [by rewrite Lw| |by apply (sizes_pos dims0)|done|].
  { rewrite Hwd. replace (length ts) with (length (sizes axis ts)) by (unfold sizes; by rewrite length_fmap). exact Hz. }
  rewrite Es. do 2 f_equal. assert (Efst : fst <$> outs = fst <$> ts).
  { rewrite (fits_fst whole_dims axis outs Hf), (fits_fst dims0 axis ts Hts), Esz. apply list_fmap_ext. intros j d _. unfold whole_dims. by rewrite list_insert_insert_eq. }
  assert (Esnd : snd <$> outs = snd <$> ts).
  { unfold whole_dims in Hr'. cbn [snd] in Hr'. rewrite take_insert_same, drop_insert_same, Esz in Hr'.
    by apply (rows_parts _ _ _ _ _ (widths_pos dims0 axis Ha ts Hin Hts) Hr' Hr). }
  rewrite <- (zip_fst_snd outs), <- (zip_fst_snd ts). by rewrite Efst, Esnd.
Qed.

(** C10. On tensors of [float] without empty axes and with fewer than 2^31
    elements Concat and Split undo each other: the outputs of Split, for the
    sizes that it accepts, put together, are the input again, and the output of
    Concat of inputs that fit, split at their sizes, gives the inputs. *)
Theorem concat_split_roundtrip axis_ :
  (∀ split k (input : Tensor) n ss,
     tensor_ok input → axis_valid axis_ (fst input) → prodZ (fst input) < 2 ^ 31 → new_Split axis_ split = Ok k → zsum (default [] split) < 2 ^ 63 →
     split_sizes k (fst input !!! axis_of axis_ (fst input)) n = Ok (Some ss) →
     ∃ outs, Split_Compute garbage k Float input n = Ok (StatusOK, outs) ∧ Concat_Compute garbage axis_ Float (Some <$> outs) = Ok (StatusOK, Some input)) ∧
  (∀ dims0 (ts : list Tensor), let axis := axis_of axis_ dims0 in
     axis_valid axis_ dims0 → ts ≠ [] → Forall (fits_axis dims0 axis) ts → prodZ (<[axis := zsum (sizes axis ts)]> dims0) < 2 ^ 31 →
     ∃ whole k, Concat_Compute garbage axis_ Float (Some <$> ts) = Ok (StatusOK, Some whole) ∧ new_Split axis_ (Some (sizes axis ts)) = Ok k ∧
       Split_Compute garbage k Float whole (length ts) = Ok (StatusOK, ts)).
Proof. split; [apply concat_after_split|apply split_after_concat]. Qed.
End concat.

(** ** Examples *)

Module TwoBlocks.
(** A 2x1 and a 2x2 tensor, put side by side, and the kernel that takes them
    apart again. *)
Definition blocks : list (list Z * list Z) := [([2; 1], [1; 2]); ([2; 2], [3; 4; 5; 6])].
Definition joined : list Z * list Z := ([2; 3], [1; 3; 4; 2; 5; 6]).
Definition splitter : SplitKernel := mkSplit (-1) [1; 2] 3.
Lemma blocks_fit : Forall (fits_axis [2; 1] 1) blocks.
Proof. repeat constructor; simpl; lia. Qed.
Lemma joined_ok : tensor_ok joined.
Proof. split; [repeat constructor; simpl; lia|done]. Qed.
End TwoBlocks.
Import TwoBlocks.

Lemma concat_correct_witness :
  ∃ out, Concat_Compute 0 (-1) Float (Some <$> blocks) = Ok (StatusOK, Some ([2; 3], out)) ∧ out !! 4%nat = Some 5.
Proof.
  destruct (concat_correct 0 (-1) Float [2; 1] blocks) as (out & E & _ & H).
  - split; vm_compute; congruence.
  - discriminate.
  - exact blocks_fit.
  - vm_compute. reflexivity.
  - exists out. split; [exact E|]. apply (H 1%nat ([2; 2], [3; 4; 5; 6]) [1; 0]); [reflexivity|]. split; [reflexivity|].
    intros [|[|i]] Hi; simpl in *; lia.
Defined.
Lemma split_correct_witness :
  ∃ outs, Split_Compute 0 splitter Float joined 2 = Ok (StatusOK, outs) ∧ fst <$> outs = [[2; 1]; [2; 2]].
Proof.
  destruct (split_correct 0 (-1) (Some [1; 2]) splitter joined 2 (Some [1; 2])) as (outs & E & H & _).
  - exact joined_ok.
  - split; vm_compute; congruence.
  - vm_compute. reflexivity.
  - vm_compute. reflexivity.
  - vm_compute. reflexivity.
  - vm_compute. reflexivity.
  - exists outs. split; [exact E|exact H].
Defined.
Lemma concat_split_roundtrip_witness :
  ∃ outs, Split_Compute 0 splitter Float joined 2 = Ok (StatusOK, outs) ∧ Concat_Compute 0 (-1) Float (Some <$> outs) = Ok (StatusOK, Some joined).
Proof.
  apply (proj1 (concat_split_roundtrip 0 (-1)) (Some [1; 2]) splitter joined 2%nat [1; 2]).
  - exact joined_ok.
  - split; vm_compute; congruence.
  - vm_compute. reflexivity.
  - vm_compute. reflexivity.
  - vm_compute. reflexivity.
  - vm_compute. reflexivity.
Defined.
