(* ===== verification/GatherProps.v ===== *)
(** Correctness of Gather. *)
From S2P Require Import Prelude TensorShape Transpose TransposeProps DataMove DataMoveRows ConcatSplit.

(** ** Gather *)

(** The block after the one at [a] starts no later than the one at [b]. *)
Lemma next_block a b c : a < b → 0 ≤ c → a * c + c ≤ b * c.
Proof. intros. nia. Qed.

Section gather.
Context {A : Type} (garbage : A).
Context (axis_ : Z) (type Tind_type : ElementType) (input : list Z * list A) (indices : list Z * list Z).
Abbreviation dims := (fst input).
Abbreviation axis := (axis_of axis_ dims).
Abbreviation odims := (gather_dims axis dims (fst indices)).
Abbreviation M := (prodZ (take axis dims)).
Abbreviation N := (prodZ (fst indices)).
Abbreviation block := (prodZ (drop (S axis) dims)).

(** An input and indices in memory, with an output that fits there. *)
Record GatherOk : Prop := {
  go_input : tensor_ok input;
  go_axis : axis_valid axis_ dims;
  go_size : prodZ dims < 2 ^ 63;
  go_indices : Forall (fun d => 1 ≤ d) (fst indices) ∧ Z.of_nat (length (snd indices)) = N ∧ N < 2 ^ 63;
  go_type : Tind_type = Int32 ∨ Tind_type = Int64;
}.
Definition in_range (v : Z) : bool := (0 <=? v) && (v <? dims !!! axis).
Definition copied : Z := if bool_decide (type = StringType) then 1 else block.

Lemma in_range_lookup : forallb in_range (snd indices) = true → ∀ i v, snd indices !! i = Some v → 0 ≤ v < dims !!! axis.
Proof. intros Hr i v Hin%list_elem_of_lookup_2%list_elem_of_In. rewrite forallb_forall in Hr. apply Hr in Hin. unfold in_range in Hin. lia. Qed.
Lemma gather_dims_size : prodZ odims = M * N * block.
Proof. unfold gather_dims. rewrite Nat.add_1_r, !prodZ_app. lia. Qed.
Lemma gather_run :
  GatherOk →
  Gather_Compute garbage axis_ type input Tind_type indices =
    ('(s, dst) ← GatherCopyData (bool_decide (type = StringType)) (snd indices) (snd input) (new_output garbage odims) block M N (dims !!! axis * block) (N * block) dims axis;
     Ok (s, (odims, dst))).
Proof.
  intros [[Hd HL] Hv Hs (Hi & Li & Ni) Ht]. destruct (axis_ok axis_ dims Hv) as [Hax Ha]. unfold Gather_Compute. rewrite Hax. cbn [mbind res_bind]. rewrite Nat2Z.id.
  rewrite Nat.add_1_r, !SizeFromDimension_ok, SizeToDimension_ok by (done || lia). cbn [mbind res_bind]. rewrite Size_ok by done.
  rewrite (drop_total dims axis Ha). cbn [prodZ foldr]. by destruct Ht as [-> | ->].
Qed.
Lemma gather_refuses : GatherOk → existsb (fun v => negb (in_range v)) (snd indices) = true →
  Gather_Compute garbage axis_ type input Tind_type indices = Ok (Some INVALID_ARGUMENT, (odims, new_output garbage odims)).
Proof.
  intros H He. rewrite gather_run by done. destruct H as [_ Hv _ (Hi & Li & Ni) _]. destruct (axis_ok axis_ dims Hv) as [_ Ha]. unfold GatherCopyData.
  rewrite list_lookup_lookup_total_lt by done. cbn [of_option mbind res_bind]. rewrite take_ge by lia.
  assert (existsb (fun idx => (idx <? 0) || (dims !!! axis <=? idx)) (snd indices) = true) as ->; [|done].
  rewrite existsb_exists in He |- *. destruct He as (v & Hin & Hr). exists v. split; [done|]. unfold in_range in Hr. lia.
Qed.
(** The elements that the loop copies, and those that it leaves. *)
Lemma gather_loop :
  GatherOk → forallb in_range (snd indices) = true →
  ∃ out, foldM (gather_copy (bool_decide (type = StringType)) block N (dims !!! axis * block) (N * block) (snd indices) (snd input)) (new_output garbage odims)
      (seq 0 (Z.to_nat (M * N))) = Ok out ∧ Z.of_nat (length out) = prodZ odims ∧
    ∀ (index : nat) q v, Z.of_nat index < M * N → 0 ≤ q < block → snd indices !! Z.to_nat (Z.of_nat index mod N) = Some v →
      out !! Z.to_nat (Z.of_nat index * block + q) =
        (if q <? copied then snd input !! Z.to_nat ((Z.of_nat index / N) * (dims !!! axis * block) + v * block + q) else Some garbage).
Proof.
  intros [[Hd HL] Hv Hs (Hi & Li & Ni) _] Hr. destruct (axis_ok axis_ dims Hv) as [_ Ha].
  assert (HM : 1 ≤ M) by by apply prodZ_pos, Forall_take. assert (HB : 1 ≤ block) by by apply prodZ_pos, Forall_drop. assert (HN : 1 ≤ N) by by apply prodZ_pos.
  assert (Hc : 1 ≤ copied ≤ block) by (unfold copied; case_bool_decide; lia). assert (Ho : 0 ≤ prodZ odims) by (rewrite gather_dims_size; nia).
  set (I := fun index : nat => snd indices !!! Z.to_nat (Z.of_nat index mod N)).
  assert (Hlook : ∀ index, snd indices !! Z.to_nat (Z.of_nat index mod N) = Some (I index)).
  { intros index. apply list_lookup_lookup_total_lt. pose proof (Z.mod_pos_bound (Z.of_nat index) N). lia. }
  clearbody I.
  destruct (copy_loop (gather_copy (bool_decide (type = StringType)) block N (dims !!! axis * block) (N * block) (snd indices) (snd input))
    (fun index => Z.of_nat index * block) (fun index => (Z.of_nat index / N) * (dims !!! axis * block) + I index * block) copied (snd input) (new_output garbage odims)
    (Z.to_nat (M * N))) as (out & E & L & C & O).
  - intros t index Hx. unfold gather_copy. rewrite Hlook. cbn [of_option mbind res_bind]. fold copied. f_equal.
    pose proof (Z.div_mod (Z.of_nat index) N ltac:(lia)) as Hdm. rewrite Hdm at 3. ring.
  - lia.
  - intros index Hx. pose proof (in_range_lookup Hr _ _ (Hlook index)) as Hv'. rewrite new_output_length, gather_dims_size, HL, (prodZ_axis dims axis) by done.
    assert (0 ≤ Z.of_nat index / N < M) by (split; [apply Z.div_pos; lia|apply Z.div_lt_upper_bound; lia]).
    pose proof (next_block (Z.of_nat index) (M * N) block ltac:(lia) ltac:(lia)). assert (I index * block + block ≤ dims !!! axis * block) by (apply next_block; lia).
    assert (0 ≤ dims !!! axis * block) by nia. pose proof (next_block (Z.of_nat index / N) M (dims !!! axis * block) ltac:(lia) ltac:(done)).
    assert (0 ≤ Z.of_nat index * block ∧ 0 ≤ I index * block ∧ 0 ≤ (Z.of_nat index / N) * (dims !!! axis * block)) by (split_and!; apply Z.mul_nonneg_nonneg; lia). lia.
  - intros i j Hij. pose proof (next_block (Z.of_nat i) (Z.of_nat j) block ltac:(lia) ltac:(lia)). lia.
  - exists out. split_and!; [done|by rewrite L, new_output_length|]. intros index q v Hx Hq Hvi. assert (I index = v) as <- by (specialize (Hlook index); congruence).
    destruct (Z.ltb_spec q copied); [by rewrite C by lia|]. rewrite O.
    + unfold new_output. apply lookup_replicate_2. rewrite gather_dims_size. pose proof (next_block (Z.of_nat index) (M * N) block ltac:(lia) ltac:(lia)). nia.
    + intros j Hj. destruct (lt_eq_lt_dec j index) as [[Hlt| ->]|Hlt]; [right|right; nia|left].
      * pose proof (next_block (Z.of_nat j) (Z.of_nat index) block ltac:(lia) ltac:(lia)). nia.
      * pose proof (next_block (Z.of_nat index) (Z.of_nat j) block ltac:(lia) ltac:(lia)). nia.
Qed.
Lemma gather_copies :
  GatherOk → forallb in_range (snd indices) = true →
  ∃ out, Gather_Compute garbage axis_ type input Tind_type indices = Ok (StatusOK, (odims, out)) ∧ Z.of_nat (length out) = prodZ odims ∧
    ∀ o i q v, valid_index (take axis dims) o → valid_index (fst indices) i → valid_index (drop (S axis) dims) q → snd indices !! Z.to_nat (flat (fst indices) i) = Some v →
      out !! Z.to_nat (flat odims (o ++ i ++ q)) =
        (if flat (drop (S axis) dims) q <? copied then snd input !! Z.to_nat (flat dims (o ++ v :: q)) else Some garbage).
Proof.
  intros Hok Hr. rewrite gather_run by done. destruct (gather_loop Hok Hr) as (out & E & L & C). destruct Hok as [[Hd HL] Hv Hs (Hi & Li & Ni) _].
  destruct (axis_ok axis_ dims Hv) as [_ Ha]. exists out. split_and!; [|done|].
  - unfold GatherCopyData. rewrite list_lookup_lookup_total_lt by done. cbn [of_option mbind res_bind]. rewrite take_ge by lia.
    destruct (existsb _ (snd indices)) eqn:Ex; [|by rewrite E]. apply existsb_exists in Ex as (v & [j Hj]%list_elem_of_In%list_elem_of_lookup & Hv').
    apply (in_range_lookup Hr) in Hj. lia.
  - intros o i q v Vo Vi Vq Hvi. pose proof (flat_bound _ _ Vo) as Bo. pose proof (flat_bound _ _ Vi) as Bi. pose proof (flat_bound _ _ Vq) as Bq.
    set (x := flat (take axis dims) o) in *. set (y := flat (fst indices) i) in *. set (z := flat (drop (S axis) dims) q) in *.
    pose proof (next_block x M N ltac:(lia) ltac:(lia)) as Hxn. assert (Hxy : Z.of_nat (Z.to_nat (x * N + y)) = x * N + y) by nia.
    specialize (C (Z.to_nat (x * N + y)) z v). rewrite Hxy, (Z.add_comm (x * N) y), Z.mod_add, Z.mod_small, Z.div_add, Z.div_small in C by lia.
    assert (flat odims (o ++ i ++ q) = (x * N + y) * block + z) as ->.
    { unfold gather_dims. rewrite Nat.add_1_r, flat_app, flat_app by (apply Vo || apply Vi). rewrite prodZ_app. fold x y z. ring. }
    assert (flat dims (o ++ v :: q) = x * (dims !!! axis * block) + v * block + z) as ->.
    { rewrite <- (take_drop axis dims) at 1. rewrite (drop_total dims axis Ha), flat_app by apply Vo. cbn [prodZ foldr].
      rewrite flat_cons. fold x z. fold (prodZ (drop (S axis) dims)). ring. }
    rewrite (Z.add_comm (x * N) y), C by (done || lia). by rewrite Z.add_0_l.
Qed.
End gather.

(** C34. Gather of elements that are not strings: with all indices in the range of
    the axis it returns OK, and the element of the output at an outer index, an
    index into the indices and an inner index is the element of the input at the
    outer index, the value of the index and the inner index. An index outside the
    range is refused, and nothing is copied. *)
Theorem gather_correct {A} (garbage : A) axis_ type Tind_type input indices :
  GatherOk axis_ Tind_type input indices → type ≠ StringType →
  let axis := axis_of axis_ (fst input) in let odims := gather_dims axis (fst input) (fst indices) in
  if forallb (in_range axis_ input) (snd indices)
  then ∃ out, Gather_Compute garbage axis_ type input Tind_type indices = Ok (StatusOK, (odims, out)) ∧ Z.of_nat (length out) = prodZ odims ∧
    ∀ o i q v, valid_index (take axis (fst input)) o → valid_index (fst indices) i → valid_index (drop (S axis) (fst input)) q →
      snd indices !! Z.to_nat (flat (fst indices) i) = Some v →
      out !! Z.to_nat (flat odims (o ++ i ++ q)) = snd input !! Z.to_nat (flat (fst input) (o ++ v :: q))
  else Gather_Compute garbage axis_ type input Tind_type indices = Ok (Some INVALID_ARGUMENT, (odims, new_output garbage odims)).
Proof.
  intros Hok Ht axis odims. subst odims axis. destruct (forallb _ (snd indices)) eqn:Hr.
  - destruct (gather_copies garbage axis_ type Tind_type input indices Hok Hr) as (out & E & L & C). exists out. split_and!; [done|done|].
    intros o i q v Vo Vi Vq Hv. rewrite (C o i q v) by done. pose proof (flat_bound _ _ Vq). unfold copied. rewrite bool_decide_false by done.
    destruct (Z.ltb_spec (flat (drop (S (axis_of axis_ (fst input))) (fst input)) q) (prodZ (drop (S (axis_of axis_ (fst input))) (fst input)))); [done|lia].
  - apply gather_refuses; [done|]. clear Hok. induction (snd indices) as [|v l IH]; [done|]. simpl in *. destruct (in_range axis_ input v); [by apply IH|done].
Qed.

(** Gather of strings copies only the first string of each block: the other
    strings of the output are left as the allocation made them. *)
Theorem gather_strings {A} (garbage : A) axis_ Tind_type input indices :
  GatherOk axis_ Tind_type input indices → forallb (in_range axis_ input) (snd indices) = true →
  let axis := axis_of axis_ (fst input) in let odims := gather_dims axis (fst input) (fst indices) in
  ∃ out, Gather_Compute garbage axis_ StringType input Tind_type indices = Ok (StatusOK, (odims, out)) ∧
    ∀ o i q, valid_index (take axis (fst input)) o → valid_index (fst indices) i → valid_index (drop (S axis) (fst input)) q →
      flat (drop (S axis) (fst input)) q ≠ 0 → out !! Z.to_nat (flat odims (o ++ i ++ q)) = Some garbage.
Proof.
  intros Hok Hr axis odims. subst odims axis. destruct (gather_copies garbage axis_ StringType Tind_type input indices Hok Hr) as (out & E & L & C). exists out. split; [done|].
  intros o i q Vo Vi Vq Hne. pose proof (flat_bound _ _ Vi) as Bi. destruct Hok as [_ _ _ (_ & Li & _) _].
  destruct (lookup_lt_is_Some_2 (snd indices) (Z.to_nat (flat (fst indices) i))) as [v Hv]; [lia|]. rewrite (C o i q v) by done. pose proof (flat_bound _ _ Vq).
  unfold copied. rewrite bool_decide_true by done. destruct (Z.ltb_spec (flat (drop (S (axis_of axis_ (fst input))) (fst input)) q) 1); [lia|done].
Qed.

Module Rows.
(** Two rows of three elements; the second row is gathered twice. *)
Definition table : list Z * list Z := ([2; 3], [1; 2; 3; 4; 5; 6]).
Definition picks : list Z * list Z := ([2], [1; 1]).
Lemma gather_ok : GatherOk 0 Int64 table picks.
Proof. split; [split; [repeat constructor; simpl; lia|done]|split; vm_compute; congruence|vm_compute; reflexivity| |by right]. split_and!; [repeat constructor; simpl; lia|done|vm_compute; reflexivity]. Qed.
Lemma index_0 : valid_index (take 0 [2; 3]) [].
Proof. split; [done|simpl; lia]. Qed.
Lemma index_1 : valid_index [2] [1].
Proof. split; [done|]. intros [|i] Hi; simpl in *; lia. Qed.
Lemma index_2 : valid_index (drop 1 [2; 3]) [2].
Proof. split; [done|]. intros [|i] Hi; simpl in *; lia. Qed.
End Rows.
Import Rows.

Lemma gather_correct_witness : ∃ out, Gather_Compute 0 0 Float table Int64 picks = Ok (StatusOK, ([2; 3], out)) ∧ out !! 5%nat = Some 6.
Proof.
  destruct (gather_correct 0 0 Float Int64 table picks gather_ok ltac:(discriminate)) as (out & E & _ & H). exists out. split; [exact E|].
  exact (H [] [1] [2] 1 index_0 index_1 index_2 eq_refl).
Defined.
Lemma gather_strings_witness : ∃ out, Gather_Compute 0 0 StringType table Int64 picks = Ok (StatusOK, ([2; 3], out)) ∧ out !! 5%nat = Some 0.
Proof.
  destruct (gather_strings 0 0 Int64 table picks gather_ok eq_refl) as (out & E & H). exists out. split; [exact E|].
  apply (H [] [1] [2] index_0 index_1 index_2). discriminate.
Defined.
