(* ===== verification/SliceProps.v ===== *)
(** Correctness of Slice: the iterator visits the elements of the slice in
    order. *)
From S2P Require Import Prelude TensorShape Transpose TransposeProps DataMove DataMoveRows ConcatSplit.

(** ** The iterator *)

Lemma sum_to_change n f f' a : (a < n)%nat → (∀ i, i ≠ a → f' i = f i) → sum_to n f' = sum_to n f + (f' a - f a).
Proof.
  intros Ha H. induction n as [|n IH]; [lia|]. rewrite !sum_to_S. destruct (decide (a = n)) as [->|].
  - rewrite (sum_to_ext n f' f) by (intros; apply H; lia). lia.
  - rewrite IH, (H n) by lia. lia.
Qed.
Lemma slice_skips_ok dims extents :
  length extents = length dims → dims ≠ [] →
  length (slice_skips dims extents).1 = length dims ∧ (slice_skips dims extents).2 = prodZ dims ∧
  ∀ i, (i < length dims)%nat → (slice_skips dims extents).1 !!! i = prodZ (drop i dims) - prodZ (drop (S i) dims) * extents !!! i.
Proof.
  revert extents. induction dims as [|d dims IH]; intros [|e extents] L Hne; try done. simpl in L. destruct dims as [|d' dims].
  - simpl. split_and!; [done|lia|]. intros [|i] Hi; [cbn; lia|lia].
  - destruct (IH extents ltac:(lia) ltac:(done)) as (L1 & P & H). change (slice_skips (d :: d' :: dims) (e :: extents)) with
      (let '(skips, pitch) := slice_skips (d' :: dims) extents in ((pitch * d - pitch * e) :: skips, pitch * d)).
    destruct (slice_skips (d' :: dims) extents) as [skips pitch]. cbn [fst snd] in *. subst pitch. split_and!; [simpl in *; lia|simpl; lia|].
    intros [|i] Hi; [cbn [drop]; simpl; lia|]. cbn [drop]. simpl in Hi. rewrite <- H by (simpl; lia). done.
Qed.

Section iterator.
Context {A : Type} (dims starts extents : list Z).
Abbreviation n := (length dims).
Hypothesis Hn : (0 < n)%nat.
Hypothesis Hstarts : length starts = n.
Hypothesis Hextents : length extents = n.
Hypothesis Hrange : ∀ i, (i < n)%nat → 0 ≤ starts !!! i ∧ 0 ≤ extents !!! i ∧ starts !!! i + extents !!! i ≤ dims !!! i.

(** The position in the input of an index of the slice. *)
Definition pos (idx : list Z) : Z := flat dims (zip_with Z.add starts idx).
Abbreviation skips := (fst (slice_skips dims extents)).

Lemma dims_nonempty : dims ≠ [].
Proof. intros E. rewrite E in Hn. simpl in Hn. lia. Qed.
Lemma pos_sum idx : length idx = n → pos idx = sum_to n (fun i => (starts !!! i + idx !!! i) * prodZ (drop (S i) dims)).
Proof.
  intros L. unfold pos. rewrite flat_sum. apply sum_to_ext. intros i Hi. f_equal. apply list_lookup_total_correct. rewrite lookup_zip_with.
  rewrite (list_lookup_lookup_total_lt starts i), (list_lookup_lookup_total_lt idx i) by lia. done.
Qed.
Lemma pos_insert idx a v : length idx = n → (a < n)%nat → pos (<[a := v]> idx) = pos idx + (v - idx !!! a) * prodZ (drop (S a) dims).
Proof.
  intros L Ha. rewrite !pos_sum by (rewrite ?length_insert; done).
  rewrite (sum_to_change n (fun i => (starts !!! i + idx !!! i) * prodZ (drop (S i) dims)) _ a Ha).
  - rewrite list_lookup_total_insert_eq by lia. lia.
  - intros i Hi. by rewrite list_lookup_total_insert_ne by done.
Qed.
Lemma skips_lookup i : (i < n)%nat → skips !!! i = prodZ (drop i dims) - prodZ (drop (S i) dims) * extents !!! i.
Proof. intros Hi. apply slice_skips_ok; [done|exact dims_nonempty|done]. Qed.
Lemma increment_S (idx : list Z) k :
  (k < length idx)%nat → 0 ≤ idx !!! k < extents !!! k →
  IncrementIndex idx extents (S k) =
    if idx !!! k + 1 =? extents !!! k then IncrementIndex (<[k := 0]> idx) extents k else <[k := idx !!! k + 1]> idx.
Proof.
  intros Hk Hr. cbn [IncrementIndex]. assert (Ea : alter (Z.add 1) k idx = <[k := idx !!! k + 1]> idx).
  { apply list_eq. intros i. destruct (decide (k = i)) as [<-|]; [|by rewrite list_lookup_alter_ne, list_lookup_insert_ne by done].
    rewrite list_lookup_alter_eq, list_lookup_insert_eq, list_lookup_lookup_total_lt by done. simpl. f_equal. lia. }
  rewrite Ea, list_lookup_total_insert_eq, list_insert_insert_eq by done.
  destruct (Z.eqb_spec (idx !!! k + 1) (extents !!! k)), (Z.ltb_spec (idx !!! k + 1) (extents !!! k)); (done || lia).
Qed.

(** The loop over the outer axes is the increment of an index, and moves the
    input to the element of the index unless the slice is at its end. *)
Lemma carry_ok axis input indices :
  (axis ≤ n)%nat → length indices = n → (∀ i, (i < axis)%nat → 0 ≤ indices !!! i < extents !!! i) → input = pos indices + prodZ (drop axis dims) →
  val axis extents indices + 1 < prodZ (take axis extents) →
  carry extents skips axis input indices = (pos (IncrementIndex indices extents axis), IncrementIndex indices extents axis).
Proof.
  revert input indices. induction axis as [|a IH]; intros input indices Ha L Hr Hin Hlt; [simpl in Hlt; lia|]. cbn [carry].
  pose proof (Hr a ltac:(lia)) as Hra. rewrite (increment_S indices a) by (done || lia). destruct (Z.eqb_spec (indices !!! a + 1) (extents !!! a)) as [E|E].
  - apply IH; [lia|by rewrite length_insert| | |].
    + intros i Hi. rewrite list_lookup_total_insert_ne by lia. apply Hr. lia.
    + rewrite Hin, pos_insert, skips_lookup by lia. rewrite <- E. lia.
    + rewrite (val_ext a extents (<[a:=0]> indices) indices) by (intros; by rewrite list_lookup_total_insert_ne by lia).
      rewrite take_total, prodZ_app in Hlt by lia. cbn [val prodZ foldr] in Hlt. nia.
  - f_equal. rewrite Hin, pos_insert by lia. lia.
Qed.

(** The iterator at an index of the slice. *)
Record SliceAt (it : SliceIterator) (idx : list Z) : Prop := {
  sa_valid : valid_index extents idx;
  sa_input : input_ it = pos idx;
  sa_counter : inner_counter_ it = idx !!! (n - 1)%nat;
  sa_extent : inner_extent_ it = extents !!! (n - 1)%nat;
  sa_skips : skips_ it = skips;
  sa_indices : indices_ it = <[(n - 1)%nat := 0]> idx;
}.
Lemma slice_next_ok it idx :
  SliceAt it idx → ∃ it', slice_next extents it = (pos idx, it') ∧
    (flat extents idx + 1 < prodZ extents → ∃ idx', SliceAt it' idx' ∧ flat extents idx' = flat extents idx + 1).
Proof.
  intros [[L Hv] Hi Hc He Hs Hx]. unfold slice_next. rewrite Hi. eexists. split; [reflexivity|]. intros Hlt. cbn [inner_counter_ inner_extent_ input_ skips_ indices_].
  destruct (IncrementIndex_spec extents n idx ltac:(lia) ltac:(lia) ltac:(intros; apply Hv; lia)) as (L' & _ & R' & V'). exists (IncrementIndex idx extents n).
  unfold flat in Hlt |- *. rewrite Hextents in Hlt |- *. rewrite <- Hextents, firstn_all, Hextents in V'. specialize (V' Hlt). split; [|done].
  assert (Hvalid : valid_index extents (IncrementIndex idx extents n)) by (split; [lia|intros; apply R'; lia]).
  pose proof (Hv (n - 1)%nat ltac:(lia)) as Hl. assert (Hd1 : prodZ (drop n dims) = 1) by by rewrite drop_all.
  assert (En : n = S (n - 1)) by lia. pose proof (increment_S idx (n - 1) ltac:(lia) Hl) as HI. rewrite <- En in HI. rewrite Hc, He, Hs. rewrite HI in Hvalid |- *.
  destruct (Z.eqb_spec (idx !!! (n - 1)%nat + 1) (extents !!! (n - 1)%nat)) as [E|E].
  - destruct (IncrementIndex_spec extents (n - 1) (<[(n - 1)%nat := 0]> idx)) as (L1 & O1 & _ & _).
    { rewrite length_insert. lia. } { lia. } { intros i Hi'. rewrite list_lookup_total_insert_ne by lia. apply Hv. lia. }
    assert (E0 : IncrementIndex (<[(n - 1)%nat := 0]> idx) extents (n - 1) !!! (n - 1)%nat = 0) by (rewrite O1 by lia; rewrite list_lookup_total_insert_eq by lia; done).
    unfold AdvanceOverInnerExtent. cbn [inner_counter_ inner_extent_ input_ skips_ indices_].
    assert (length skips = n) as -> by (apply slice_skips_ok; [done|exact dims_nonempty]). rewrite Hx, carry_ok.
    + split; cbn [inner_counter_ inner_extent_ input_ skips_ indices_]; [done|done|done|done|done|]. symmetry. apply list_insert_id.
      rewrite list_lookup_lookup_total_lt by (rewrite L1, length_insert; lia). by rewrite E0.
    + lia.
    + rewrite length_insert. lia.
    + intros i Hi'. rewrite list_lookup_total_insert_ne by lia. apply Hv. lia.
    + rewrite pos_insert, skips_lookup by lia. rewrite <- En, Hd1. lia.
    + rewrite (val_ext (n - 1) extents (<[(n - 1)%nat:=0]> idx) idx) by (intros; by rewrite list_lookup_total_insert_ne by lia).
      assert (Hval : val n extents idx = val (n - 1) extents idx * extents !!! (n - 1)%nat + idx !!! (n - 1)%nat) by (rewrite En at 1; done).
      rewrite (prodZ_axis extents (n - 1)), <- En, <- Hextents, drop_all, Hextents, Hval in Hlt by lia. cbn [prodZ foldr] in Hlt. nia.
  - split; cbn [inner_counter_ inner_extent_ input_ skips_ indices_]; [done| | |done|done|].
    + rewrite pos_insert by lia. rewrite <- En, Hd1. lia.
    + by rewrite list_lookup_total_insert_eq by lia.
    + by rewrite Hx, list_insert_insert_eq.
Qed.

Lemma pos_bound idx : valid_index extents idx → 0 ≤ pos idx < prodZ dims.
Proof.
  intros [L Hv]. apply flat_bound. split; [rewrite length_zip_with; lia|]. intros i Hi. pose proof (Hv i ltac:(lia)). destruct (Hrange i Hi) as (? & ? & ?).
  rewrite (list_lookup_total_correct _ _ (starts !!! i + idx !!! i)); [lia|]. rewrite lookup_zip_with.
  rewrite (list_lookup_lookup_total_lt starts i), (list_lookup_lookup_total_lt idx i) by lia. done.
Qed.
Lemma flat_inj a b : valid_index extents a → valid_index extents b → flat extents a = flat extents b → a = b.
Proof.
  intros [La Ha] [Lb Hb] E. apply list_eq. intros i. destruct (decide (i < length extents)%nat) as [Hi|].
  - rewrite !list_lookup_lookup_total_lt by lia. f_equal. by apply (val_inj (length extents) extents a b).
  - by rewrite !lookup_ge_None_2 by lia.
Qed.
Lemma slice_loop_ok m (data : list A) it idx :
  Z.of_nat (length data) = prodZ dims → SliceAt it idx → flat extents idx + Z.of_nat m ≤ prodZ extents →
  ∃ out, slice_loop m extents data it = Ok out ∧ length out = m ∧
    ∀ idx', valid_index extents idx' → flat extents idx ≤ flat extents idx' < flat extents idx + Z.of_nat m →
      out !! Z.to_nat (flat extents idx' - flat extents idx) = data !! Z.to_nat (pos idx').
Proof.
  intros Ld. revert it idx. induction m as [|m IH]; intros it idx Hat Hm; [exists []; split_and!; [done|done|intros; lia]|].
  destruct (slice_next_ok it idx Hat) as (it' & En & Hnext). pose proof (pos_bound idx (sa_valid _ _ Hat)) as Hp. cbn [slice_loop]. rewrite En.
  destruct (Z.ltb_spec (pos idx) 0); [lia|]. destruct (lookup_lt_is_Some_2 data (Z.to_nat (pos idx))) as [x Hx]; [lia|]. rewrite Hx. cbn [of_option mbind res_bind].
  assert (∃ out, slice_loop m extents data it' = Ok out ∧ length out = m ∧
    ∀ idx', valid_index extents idx' → flat extents idx + 1 ≤ flat extents idx' < flat extents idx + 1 + Z.of_nat m →
      out !! Z.to_nat (flat extents idx' - (flat extents idx + 1)) = data !! Z.to_nat (pos idx')) as (out & Eo & Lo & Ho).
  { destruct m as [|m]; [exists []; split_and!; [done|done|intros; lia]|]. destruct Hnext as (idx1 & Hat1 & E1); [lia|].
    destruct (IH it' idx1 Hat1) as (out & Eo & Lo & Ho); [lia|]. exists out. rewrite E1 in Ho. done. }
  exists (x :: out). rewrite Eo. split_and!; [done|simpl; lia|]. intros idx' Hv' Hb. destruct (decide (flat extents idx' = flat extents idx)) as [E|].
  - rewrite E, Z.sub_diag. apply flat_inj in E as ->; [done|done|apply Hat].
  - rewrite <- Ho by (done || lia). replace (Z.to_nat (flat extents idx' - flat extents idx)) with (S (Z.to_nat (flat extents idx' - (flat extents idx + 1)))) by lia. done.
Qed.
Lemma new_SliceIterator_ok : ∃ it, new_SliceIterator dims starts extents = Ok it ∧ (1 ≤ prodZ extents → SliceAt it (replicate n 0)).
Proof.
  unfold new_SliceIterator. rewrite Hextents, Hstarts, Nat.eqb_refl. cbn [enforce mbind res_bind].
  assert (∀ l : list Z, length l = n → last l = Some (l !!! (n - 1)%nat)) as Hlast.
  { intros l Hl. rewrite last_lookup, Hl. replace (pred n) with (n - 1)%nat by lia. apply list_lookup_lookup_total_lt. lia. }
  rewrite !Hlast by done. cbn [of_option mbind res_bind].
  assert (Hin : ∀ s d, length s = length d → foldr (fun sd '(input, pitch) => (input + pitch * fst sd, pitch * snd sd)) (0, 1) (zip s d) = (flat d s, prodZ d)).
  { clear. induction s as [|x s IH]; intros [|y d] L; try done. cbn [zip zip_with foldr]. fold (zip s d). rewrite IH by (simpl in L; lia). cbn [fst snd prodZ foldr].
    fold (prodZ d). f_equal; [|lia].
    rewrite flat_cons. lia. }
  rewrite Hin by lia. eexists. split; [reflexivity|]. intros Hp. split; cbn [inner_counter_ inner_extent_ input_ skips_ indices_].
  - split; [by rewrite length_replicate|]. intros i Hi. rewrite lookup_total_replicate_2 by lia. split; [lia|]. destruct (Hrange i ltac:(lia)) as (_ & He & _).
    destruct (decide (extents !!! i = 0)) as [E|]; [|lia]. rewrite (prodZ_axis extents i) in Hp by lia. rewrite E in Hp. lia.
  - unfold pos. f_equal. apply list_eq_same_length with (n := n); [rewrite length_zip_with, length_replicate; lia|lia|]. intros i x y Hi Hx Hy.
    rewrite lookup_zip_with, Hx in Hy. cbn in Hy. rewrite lookup_replicate_2 in Hy by lia. injection Hy as <-. lia.
  - by rewrite lookup_total_replicate_2 by lia.
  - done.
  - done.
  - symmetry. apply list_insert_id, lookup_replicate_2. lia.
Qed.
Lemma val_replicate_0 : flat extents (replicate n 0) = 0.
Proof. unfold flat. rewrite Hextents. by apply val_zero. Qed.
(** The elements of the slice, in order. *)
Lemma slice_elements (data : list A) :
  Z.of_nat (length data) = prodZ dims →
  ∃ it out, new_SliceIterator dims starts extents = Ok it ∧ slice_loop (Z.to_nat (prodZ extents)) extents data it = Ok out ∧
    length out = Z.to_nat (prodZ extents) ∧ ∀ idx, valid_index extents idx → out !! Z.to_nat (flat extents idx) = data !! Z.to_nat (pos idx).
Proof.
  intros Ld. destruct new_SliceIterator_ok as (it & Ei & Hat). exists it. destruct (decide (1 ≤ prodZ extents)) as [Hp|Hp].
  - destruct (slice_loop_ok (Z.to_nat (prodZ extents)) data it (replicate n 0) Ld (Hat Hp)) as (out & Eo & Lo & Ho); [rewrite val_replicate_0; lia|].
    exists out. split_and!; [done|done|done|]. intros idx Hv. pose proof (flat_bound _ _ Hv). rewrite <- Ho by (done || rewrite val_replicate_0; lia).
    rewrite val_replicate_0. do 2 f_equal. lia.
  - exists []. replace (Z.to_nat (prodZ extents)) with 0%nat by lia. split_and!; [done|done|done|]. intros idx Hv. pose proof (flat_bound _ _ Hv). lia.
Qed.
End iterator.

(** ** The ranges *)

Section ranges.
Context (raw_starts raw_ends dims : list Z).
Abbreviation n := (length dims).
(** A start or an end on an axis of size [d]: negative values count from the
    end, and all are brought into the range of the axis. *)
Definition bound (v d : Z) : Z := Z.max 0 (Z.min d (if v <? 0 then v + d else v)).
Definition norm (axis : Z) : nat := Z.to_nat (if axis <? 0 then axis + Z.of_nat n else axis).
Definition range_of (axes : list Z) (i : nat) : Z * Z :=
  match list_find (fun a => norm a = i) axes with
  | Some (j, _) => (bound (raw_starts !!! j) (dims !!! i), bound (raw_ends !!! j) (dims !!! i))
  | None => (0, dims !!! i)
  end.

Lemma clamp_bound v d : 0 ≤ d → clamp (if v <? 0 then v + d else v) 0 d = bound v d.
Proof. intros Hd. unfold clamp, bound. set (x := if v <? 0 then v + d else v). destruct (Z.ltb_spec x 0), (Z.ltb_spec d x); lia. Qed.
(** Axes in the range of the tensor, each of them once, with a start and an end
    that does not come before it. *)
Record AxesOk (axes : list Z) : Prop := {
  ax_range : Forall (fun a => axis_valid a dims) axes;
  ax_nodup : NoDup (norm <$> axes);
  ax_starts : (length axes ≤ length raw_starts)%nat;
  ax_ends : (length axes ≤ length raw_ends)%nat;
  ax_order : ∀ j a, axes !! j = Some a → bound (raw_starts !!! j) (dims !!! norm a) ≤ bound (raw_ends !!! j) (dims !!! norm a);
}.
Lemma range_snoc axes a i :
  norm a ∉ norm <$> axes →
  range_of (axes ++ [a]) i =
    if decide (i = norm a) then (bound (raw_starts !!! length axes) (dims !!! i), bound (raw_ends !!! length axes) (dims !!! i)) else range_of axes i.
Proof.
  intros Hni. unfold range_of. destruct (decide (i = norm a)) as [->|Hne].
  - rewrite list_find_app_r by (apply list_find_None, Forall_forall; intros b Hb E; apply Hni; rewrite <- E; by apply list_elem_of_fmap_2). cbn.
    rewrite decide_True by done. done.
  - destruct (list_find (fun b => norm b = i) axes) as [[j b]|] eqn:E; [by rewrite (list_find_app_l _ _ _ _ _ E)|]. rewrite list_find_app_r by done. cbn.
    by rewrite decide_False by done.
Qed.
Lemma prepare_ok axes :
  Forall (fun d => 1 ≤ d) dims → AxesOk axes →
  ∃ starts extents, foldM (slice_axis raw_starts raw_ends dims) (StatusOK, (replicate n 0, dims)) (imap pair axes) = Ok (StatusOK, (starts, extents)) ∧
    length starts = n ∧ length extents = n ∧
    ∀ i, (i < n)%nat → starts !!! i = (range_of axes i).1 ∧ extents !!! i = (range_of axes i).2 - (range_of axes i).1.
Proof.
  intros Hd. induction axes as [|a axes IH] using rev_ind; intros [Hr Hnd Hs He Ho].
  { exists (replicate n 0), dims. split_and!; [done|by rewrite length_replicate|done|]. intros i Hi. rewrite lookup_total_replicate_2 by done. cbn. split; [done|lia]. }
  rewrite fmap_app in Hnd. apply NoDup_app in Hnd as (Hnd & Hdis & _). apply Forall_app in Hr as [Hr [Ha _]%Forall_cons]. rewrite length_app in Hs, He. simpl in Hs, He.
  destruct IH as (starts & extents & E & Ls & Le & H).
  { split; [done|done|lia|lia|]. intros j b Hj. apply Ho. by apply lookup_app_l_Some. }
  pose proof (axis_ok a dims Ha) as [_ Hna]. change (axis_of a dims) with (norm a) in Hna. assert (Hni : norm a ∉ norm <$> axes) by (intros Hin; apply (Hdis _ Hin); by left).
  assert (Hdn : 1 ≤ dims !!! norm a) by (rewrite Forall_lookup in Hd; apply (Hd (norm a)), list_lookup_lookup_total_lt, Hna).
  specialize (Ho (length axes) a). rewrite lookup_app_r, Nat.sub_diag in Ho by lia. specialize (Ho eq_refl).
  set (st := bound (raw_starts !!! length axes) (dims !!! norm a)) in *. set (en := bound (raw_ends !!! length axes) (dims !!! norm a)) in *.
  exists (<[norm a := st]> starts), (<[norm a := en - st]> extents). rewrite imap_app, foldM_app, E. cbn [mbind res_bind imap foldM]. cbn [compose]. rewrite Nat.add_0_r.
  split_and!; [|by rewrite length_insert|by rewrite length_insert|].
  - unfold slice_axis. cbn [IsOK StatusOK negb]. unfold axis_valid in Ha.
    set (ax := if a <? 0 then a + Z.of_nat n else a). assert (Hax : 0 ≤ ax < Z.of_nat n) by (unfold ax; destruct (Z.ltb_spec a 0); lia).
    destruct (Z.leb_spec (Z.of_nat n) ax); [lia|]. destruct (Z.ltb_spec ax 0); [lia|]. cbn [orb]. change (Z.to_nat ax) with (norm a).
    rewrite (list_lookup_lookup_total_lt dims (norm a) Hna), (list_lookup_lookup_total_lt raw_starts), (list_lookup_lookup_total_lt raw_ends) by lia.
    cbn [of_option mbind res_bind]. rewrite !clamp_bound by lia. fold st en. destruct (Z.ltb_spec (en - st) 0); [lia|done].
  - intros i Hi. rewrite (range_snoc axes a i Hni). destruct (decide (i = norm a)) as [->|Hne].
    + rewrite !list_lookup_total_insert_eq by lia. done.
    + rewrite !list_lookup_total_insert_ne by done. by apply H.
Qed.
End ranges.

(** ** Slice *)

Lemma size_loop_prod_zero dims size : Forall (fun d => 0 ≤ d) dims → prodZ dims = 0 → size_loop size dims = 0.
Proof.
  intros Hd. revert size. induction Hd as [|d dims Hd Hds IH]; intros size E; [done|]. cbn [prodZ foldr] in E. cbn [size_loop].
  destruct (Z.ltb_spec d 0); [lia|]. destruct (decide (d = 0)) as [->|]; [rewrite Z.mul_0_r; by apply size_loop_zero|].
  apply IH. by apply Z.mul_eq_0 in E as [?|E].
Qed.
Lemma Size_nonneg dims : Forall (fun d => 0 ≤ d) dims → prodZ dims < 2 ^ 63 → Size dims = prodZ dims.
Proof.
  intros Hd Hlt. destruct (decide (prodZ dims = 0)) as [E|Hne]; [|apply Size_ok; [by apply prodZ_zero|done]].
  unfold Size, SizeHelper. rewrite drop_0, Nat.sub_0_r, firstn_all, E. by apply size_loop_prod_zero.
Qed.
Lemma prodZ_le l l' : Forall2 (fun x y => 0 ≤ x ≤ y) l l' → 0 ≤ prodZ l ≤ prodZ l'.
Proof. induction 1; simpl; nia. Qed.
Lemma range_bounds raw_starts raw_ends dims axes i :
  AxesOk raw_starts raw_ends dims axes → 1 ≤ dims !!! i →
  let '(b, e) := range_of raw_starts raw_ends dims axes i in 0 ≤ b ∧ b ≤ e ∧ e ≤ dims !!! i.
Proof.
  intros Hax Hd. unfold range_of. destruct (list_find _ axes) as [[j a]|] eqn:E; [|lia]. apply list_find_Some in E as (Hj & <- & _).
  pose proof (ax_order _ _ _ _ Hax j a Hj) as Ho. split_and!; [unfold bound; lia|exact Ho|unfold bound; lia].
Qed.

(** C9. Slice of a tensor with at least one axis and no empty one, with axes of
    the tensor, each at most once, a start and an end for each of them and no end
    before its start, returns OK. Starts and ends count from the end of the axis
    if they are negative and are cut to the axis; an axis that is not named is
    taken whole. The element of the output at an index is the element of the
    input at the index moved by the starts. *)
Theorem slice_correct {A} (raw_starts raw_ends raw_axes : list Z) (input : list Z * list A) :
  let dims := fst input in
  let axes := if bool_decide (raw_axes = []) then Z.of_nat <$> seq 0 (length dims) else raw_axes in
  let range := range_of raw_starts raw_ends dims axes in
  tensor_ok input → dims ≠ [] → prodZ dims < 2 ^ 63 → AxesOk raw_starts raw_ends dims axes →
  ∃ starts extents out, Slice_Compute (raw_starts, raw_ends, raw_axes) input = Ok (StatusOK, Some (extents, out)) ∧
    length starts = length dims ∧ length extents = length dims ∧
    (∀ i, (i < length dims)%nat → starts !!! i = (range i).1 ∧ extents !!! i = (range i).2 - (range i).1) ∧
    Z.of_nat (length out) = prodZ extents ∧
    ∀ idx, valid_index extents idx → out !! Z.to_nat (flat extents idx) = snd input !! Z.to_nat (flat dims (zip_with Z.add starts idx)).
Proof.
  intros dims axes range [Hd Ld] Hne Hlt Hax. destruct (prepare_ok raw_starts raw_ends dims axes Hd Hax) as (starts & extents & E & Ls & Le & H).
  assert (Hdi : ∀ i, (i < length dims)%nat → 1 ≤ dims !!! i) by (intros i Hi; rewrite Forall_lookup in Hd; apply (Hd i), list_lookup_lookup_total_lt, Hi).
  assert (Hr : ∀ i, (i < length dims)%nat → 0 ≤ starts !!! i ∧ 0 ≤ extents !!! i ∧ starts !!! i + extents !!! i ≤ dims !!! i).
  { intros i Hi. destruct (H i Hi) as [-> ->]. pose proof (range_bounds _ _ _ _ i Hax (Hdi i Hi)) as Hb. destruct (range_of _ _ _ _ i). cbn. lia. }
  assert (Hpos : (0 < length dims)%nat) by (destruct dims; [done|simpl; lia]).
  assert (HF : Forall2 (fun x y => 0 ≤ x ≤ y) extents dims).
  { apply Forall2_same_length_lookup_2; [done|]. intros i x y Hx Hy. apply list_lookup_total_correct in Hx as Ex, Hy as Ey. apply lookup_lt_Some in Hy. specialize (Hr i Hy). lia. }
  pose proof (prodZ_le _ _ HF) as Hp. destruct (slice_elements dims starts extents Hpos Ls Le Hr (snd input) Ld) as (it & out & Ei & Eo & Lo & Ho).
  exists starts, extents, out. split_and!; [|done|done|done|lia|done].
  unfold Slice_Compute, Slice_PrepareForCompute. rewrite length_replicate. fold dims. fold axes. rewrite E. cbn [mbind res_bind IsOK StatusOK negb]. rewrite Ei. cbn [mbind res_bind].
  rewrite Size_nonneg; [by rewrite Eo| |lia]. eapply Forall2_Forall_l; [exact HF|]. apply Forall_true. lia.
Qed.

Module LastColumns.
(** The last two columns of a 2x3 table. *)
Definition table : list Z * list Z := ([2; 3], [1; 2; 3; 4; 5; 6]).
Lemma table_ok : tensor_ok table.
Proof. split; [repeat constructor; simpl; lia|done]. Qed.
Lemma axes_ok : AxesOk [-2] [9] [2; 3] [1].
Proof.
  split; [repeat constructor; vm_compute; congruence|repeat constructor; set_solver|simpl; lia|simpl; lia|].
  intros [|j] a Hj; [injection Hj as <-; vm_compute; congruence|done].
Qed.
Lemma corner_ok : valid_index [2; 2] [1; 1].
Proof. split; [done|]. intros [|[|i]] Hi; simpl in *; lia. Qed.
Lemma pair_of_list (l : list Z) : length l = 2%nat → l = [l !!! 0%nat; l !!! 1%nat].
Proof. by destruct l as [|x [|y [|]]]. Qed.
End LastColumns.
Import LastColumns.

Lemma slice_correct_witness :
  ∃ starts extents out, Slice_Compute ([-2], [9], [1]) table = Ok (StatusOK, Some (extents, out)) ∧ starts = [0; 1] ∧ extents = [2; 2] ∧ out !! 3%nat = Some 6.
Proof.
  destruct (slice_correct [-2] [9] [1] table table_ok ltac:(discriminate) ltac:(reflexivity) axes_ok) as (starts & extents & out & E & Ls & Le & Hr & _ & H).
  exists starts, extents, out.
  assert (Es : starts = [0; 1]) by (rewrite (pair_of_list starts Ls), (proj1 (Hr 0%nat Nat.lt_0_2)), (proj1 (Hr 1%nat Nat.lt_1_2)); reflexivity).
  assert (Ee : extents = [2; 2]) by (rewrite (pair_of_list extents Le), (proj2 (Hr 0%nat Nat.lt_0_2)), (proj2 (Hr 1%nat Nat.lt_1_2)); reflexivity).
  subst starts extents. split; [exact E|]. split; [reflexivity|]. split; [reflexivity|]. exact (H [1; 1] corner_ok).
Defined.
