(* ===== verification/ReshapeProps.v ===== *)
(** Correctness of the kernels that change only the shape of a tensor: Reshape,
    Squeeze and Unsqueeze. *)
From stdpp Require Import sorting.
From S2P Require Import Prelude TensorShape Transpose TransposeProps DataMove DataMoveRows ConcatSplit.

Section reshape.
Context {A : Type} (garbage : A).
Abbreviation Tensor := (list Z * list A)%type.

Lemma copy_all (source target : list A) dims :
  Forall (fun d => 1 ≤ d) dims → prodZ dims < 2 ^ 63 → Z.of_nat (length source) = prodZ dims → length target = length source →
  CopyCpuTensor source target dims = Ok source.
Proof.
  intros Hd Hlt L L'. unfold CopyCpuTensor, memcpy. rewrite Size_ok by done. rewrite !(proj2 (Z.leb_le _ _)) by lia. cbn [andb].
  rewrite Z.add_0_l, <- L, Nat2Z.id, <- L' at 1. change (Z.to_nat 0) with 0%nat. rewrite take_0, drop_0, L', firstn_all, drop_ge, app_nil_r by lia. done.
Qed.

(** ** Reshape *)

(** The requested shape with the dimensions that 0 copies from the input, and
    the places of the dimensions to be computed. *)
Definition resolve (dims request : list Z) : list Z := imap (fun i r => if r =? 0 then dims !!! i else r) request.
Definition unknowns (request : list Z) : list nat := omap id (imap (fun i r => if r =? -1 then Some i else None) request).

Lemma resolve_snoc dims request r :
  resolve dims (request ++ [r]) = resolve dims request ++ [if r =? 0 then dims !!! length request else r].
Proof. unfold resolve. rewrite imap_app. cbn. by rewrite Nat.add_0_r. Qed.
Lemma unknowns_snoc request r : unknowns (request ++ [r]) = unknowns request ++ (if r =? -1 then [length request] else []).
Proof. unfold unknowns. rewrite imap_app, omap_app. cbn. rewrite Nat.add_0_r. by destruct (r =? -1). Qed.

(** A request that Reshape can read. *)
Record RequestOk (dims request : list Z) : Prop := {
  rq_range : Forall (fun r => -1 ≤ r) request;
  rq_zero : ∀ i, request !! i = Some 0 → (i < length dims)%nat;
  rq_size : Z.abs (prodZ (resolve dims request)) < 2 ^ 63;
}.
Lemma resolve_abs dims request :
  Forall (fun d => 1 ≤ d) dims → Forall (fun r => -1 ≤ r) request → (∀ i, request !! i = Some 0 → (i < length dims)%nat) →
  Forall (fun r => r = -1 ∨ 1 ≤ r) (resolve dims request).
Proof.
  intros Hd Hr Hz. apply Forall_lookup. intros i x Hx. unfold resolve in Hx. rewrite list_lookup_imap in Hx. destruct (request !! i) as [r|] eqn:Er; [|done]. injection Hx as <-.
  rewrite Forall_lookup in Hr. specialize (Hr i r Er). cbn in Hr. destruct (Z.eqb_spec r 0) as [->|]; [|lia]. right. rewrite Forall_lookup in Hd. by apply (Hd i), list_lookup_lookup_total_lt, Hz.
Qed.
(** The loop over the requested dimensions. *)
Lemma reshape_loop dims request :
  Forall (fun d => 1 ≤ d) dims → RequestOk dims request →
  foldM (reshape_dim dims) ([], None, 1) (imap pair request) =
    match unknowns request with
    | [] => Ok (resolve dims request, None, prodZ (resolve dims request))
    | [i] => Ok (resolve dims request, Some i, - prodZ (resolve dims request))
    | _ => Throw EnforceFailed
    end.
Proof.
  intros Hd. induction request as [|r request IH] using rev_ind; intros [Hr Hz Hs]; [done|].
  pose proof (resolve_abs _ _ Hd Hr Hz) as Ha. rewrite resolve_snoc, Forall_app, Forall_singleton in Ha. destruct Ha as [Ha Hx]. rewrite resolve_snoc, prodZ_app in Hs. cbn [prodZ foldr] in Hs.
  apply Forall_app in Hr as [Hr Hr1]. rewrite Forall_singleton in Hr1. rewrite imap_app, foldM_app, IH; clear IH.
  - rewrite unknowns_snoc, resolve_snoc, prodZ_app. cbn [prodZ foldr imap]. cbn [compose]. rewrite Nat.add_0_r. set (x := if r =? 0 then _ else r) in *. set (p := prodZ (resolve dims request)) in *.
    assert (Hmul : Z.abs (x * 1) * Z.abs p < 2 ^ 63) by (rewrite <- Z.abs_mul, Z.mul_comm; exact Hs).
    assert (Hx' : r ≠ -1 → (if r =? 0 then _ ← enforce (length request <? length dims)%nat; of_option UndefinedBehaviour (dims !! length request) else Ok r) = Ok x).
    { intros _. unfold x. destruct (Z.eqb_spec r 0) as [->|]; [|done]. assert (Hlen : (length request < length dims)%nat) by (apply Hz; rewrite lookup_app_r, Nat.sub_diag by lia; done).
      rewrite (proj2 (Nat.ltb_lt _ _) Hlen). cbn [enforce mbind res_bind]. by rewrite list_lookup_lookup_total_lt. }
    assert (Hle : (-1 <=? r) = true) by lia.
    destruct (unknowns request) as [|i [|]]; cbn [mbind res_bind foldM reshape_dim app]; rewrite ?Hle; cbn [enforce mbind res_bind];
      destruct (Z.eqb_spec r (-1)) as [E|E]; cbn [app]; try done.
    + rewrite bool_decide_true by done. cbn [enforce mbind res_bind]. unfold x. rewrite E. cbn. do 2 f_equal. lia.
    + rewrite (Hx' E). cbn [mbind res_bind]. rewrite i64_small by lia. do 2 f_equal. lia.
    + rewrite (Hx' E). cbn [mbind res_bind]. rewrite i64_small by lia. do 2 f_equal. lia.
  - split; [done| |].
    + intros i Hi. apply Hz. rewrite lookup_app_l; [done|by eapply lookup_lt_Some].
    + rewrite Z.abs_mul in Hs. nia.
Qed.
Lemma unknowns_lookup request i : unknowns request = [i] → request !! i = Some (-1).
Proof.
  intros H. assert (Hi : i ∈ unknowns request) by (rewrite H; by left). unfold unknowns in Hi. apply list_elem_of_omap in Hi as (o & Ho & Eo). cbn in Eo. subst o.
  apply elem_of_lookup_imap_1 in Ho as (j & r & E & Hr). destruct (Z.eqb_spec r (-1)); congruence.
Qed.
Lemma rest_pos l : Forall (fun r => r = -1 ∨ 1 ≤ r) l → Forall (fun r => r ≠ -1) l → 1 ≤ prodZ l.
Proof. intros H1 H2. apply prodZ_pos. rewrite Forall_forall in *. intros x Hx. destruct (H1 x Hx); [by destruct (H2 x Hx)|done]. Qed.
(** The other dimensions of a request with one unknown one. *)
Lemma unknown_rest_pos dims request i :
  Forall (fun d => 1 ≤ d) dims → Forall (fun r => -1 ≤ r) request → (∀ i, request !! i = Some 0 → (i < length dims)%nat) → unknowns request = [i] →
  1 ≤ prodZ (take i (resolve dims request)) * prodZ (drop (S i) (resolve dims request)).
Proof.
  intros Hd Hr Hz Hu. pose proof (resolve_abs _ _ Hd Hr Hz) as Ha.
  assert (Hne : ∀ j x, resolve dims request !! j = Some x → j ≠ i → x ≠ -1).
  { intros j x Hj Hji ->. assert (Hin : j ∈ unknowns request); [|rewrite Hu in Hin; by apply list_elem_of_singleton in Hin].
    unfold resolve in Hj. rewrite list_lookup_imap in Hj. destruct (request !! j) as [r|] eqn:Er; [|done]. cbn in Hj. injection Hj as Ej.
    assert (r = -1) as ->.
    { destruct (Z.eqb_spec r 0) as [->|]; [|done]. rewrite Forall_lookup in Hd. specialize (Hd j (dims !!! j) (list_lookup_lookup_total_lt _ _ (Hz _ Er))). cbn in Hd. lia. }
    unfold unknowns. apply list_elem_of_omap. exists (Some j). split; [|done]. apply elem_of_lookup_imap_2 with (f := fun i r => if r =? -1 then Some i else None) in Er. done. }
  assert (1 ≤ prodZ (take i (resolve dims request))).
  { apply rest_pos; [by apply Forall_take|]. apply Forall_lookup. intros j x [Hj Hlt]%lookup_take_Some. apply (Hne j); [done|lia]. }
  assert (1 ≤ prodZ (drop (S i) (resolve dims request))); [|nia].
  apply rest_pos; [by apply Forall_drop|]. apply Forall_lookup. intros j x Hj. rewrite lookup_drop in Hj. apply (Hne (S i + j)%nat); [done|lia].
Qed.

(** Reshape keeps the elements and changes only the shape. A request without
    an unknown dimension is taken as it is, with 0 for the dimension of the input
    at that place, and refused if it has another number of elements. One unknown
    dimension is computed from the others, and the request is refused if there is
    no such dimension, or if there are two unknown ones. *)
Theorem reshape_correct request (X : Tensor) :
  tensor_ok X → prodZ (fst X) < 2 ^ 63 → RequestOk (fst X) request →
  let shape := resolve (fst X) request in
  Reshape_1_Compute garbage request X =
    match unknowns request with
    | [] => if prodZ shape =? prodZ (fst X) then Ok (shape, snd X) else Throw EnforceFailed
    | [i] =>
        let known := - prodZ shape in
        if prodZ (fst X) mod known =? 0 then Ok (<[i := prodZ (fst X) / known]> shape, snd X) else Throw EnforceFailed
    | _ => Throw EnforceFailed
    end.
Proof.
  intros [Hd Ld] Hlt Hrq shape. unfold Reshape_1_Compute, ReshapeHelper. rewrite reshape_loop by done. fold shape. rewrite Size_ok by done.
  destruct (unknowns request) as [|i [|]] eqn:Eu; cbn [mbind res_bind]; [| |done].
  - rewrite (Z.eqb_sym (prodZ shape)). destruct (Z.eqb_spec (prodZ (fst X)) (prodZ shape)) as [E|]; cbn [enforce mbind res_bind]; [|done].
    rewrite copy_all; [done|done|done|done|]. apply (inj Z.of_nat). rewrite new_output_length; lia.
  - assert (Hi : shape !! i = Some (-1)).
    { unfold shape, resolve. rewrite list_lookup_imap, (unknowns_lookup _ _ Eu). done. }
    pose proof (lookup_lt_Some _ _ _ Hi) as Hlen. pose proof (prodZ_axis shape i Hlen) as Hp. rewrite (list_lookup_total_correct _ _ _ Hi) in Hp.
    assert (Hk : 1 ≤ prodZ (take i shape) * prodZ (drop (S i) shape)).
    { apply unknown_rest_pos; [done|apply Hrq|apply Hrq|done]. }
    set (known := - prodZ shape) in *. assert (Hkn : known = prodZ (take i shape) * prodZ (drop (S i) shape)) by lia.
    destruct (Z.eqb_spec known 0); [lia|]. pose proof (prodZ_pos _ Hd) as Hpos. rewrite Z.rem_mod_nonneg, Z.quot_div_nonneg by lia.
    destruct (Z.eqb_spec (prodZ (fst X) mod known) 0) as [Em|]; cbn [enforce mbind res_bind]; [|done].
    rewrite copy_all; [done|done|done|done|]. apply (inj Z.of_nat). pose proof (Z.div_mod (prodZ (fst X)) known ltac:(lia)) as Hdm.
    rewrite new_output_length; rewrite prodZ_insert by done; nia.
Qed.

(** ** Squeeze and Unsqueeze *)

(** The dimensions that [PrepareCompute] marks: 1 at the axes, 0 elsewhere. *)
Definition mask (axes : list Z) (i m : nat) : list Z := (fun j => if bool_decide (Z.of_nat j ∈ axes) then 1 else 0) <$> seq i m.

Lemma mask_S axes i m : mask axes i (S m) = (if bool_decide (Z.of_nat i ∈ axes) then 1 else 0) :: mask axes (S i) m.
Proof. done. Qed.
Lemma mask_ext axes axes' i m : (∀ j, (i ≤ j)%nat → Z.of_nat j ∈ axes ↔ Z.of_nat j ∈ axes') → mask axes i m = mask axes' i m.
Proof.
  intros H. unfold mask. apply list_fmap_ext. intros k j Hj. apply lookup_seq in Hj as [-> _]. specialize (H (i + k)%nat ltac:(lia)). repeat case_bool_decide; tauto.
Qed.
Lemma unsqueeze_axes total axes seen :
  Z.of_nat total < 2 ^ 63 → NoDup (seen ++ axes) → Forall (fun a => 0 ≤ a < Z.of_nat total) axes →
  foldM unsqueeze_axis (StatusOK, mask seen 0 total) axes = Ok (StatusOK, mask (seen ++ axes) 0 total).
Proof.
  intros Ht. revert seen. induction axes as [|a axes IH]; intros seen Hnd Hr; [by rewrite app_nil_r|]. apply Forall_cons in Hr as [Ha Hr]. cbn [foldM].
  assert (unsqueeze_axis (StatusOK, mask seen 0 total) a = Ok (StatusOK, mask (seen ++ [a]) 0 total)) as ->.
  { unfold unsqueeze_axis. cbn [IsOK StatusOK negb]. rewrite u64_small by lia. assert (Lm : length (mask seen 0 total) = total) by (unfold mask; by rewrite length_fmap, length_seq).
    rewrite Lm. destruct (Z.leb_spec (Z.of_nat total) a); [lia|].
    assert (Hm : ∀ l j, (j < total)%nat → mask l 0 total !! j = Some (if bool_decide (Z.of_nat j ∈ l) then 1 else 0)).
    { intros l j Hj. unfold mask. rewrite list_lookup_fmap, lookup_seq_lt by done. done. }
    assert (Hna : a ∉ seen) by (apply NoDup_app in Hnd as (_ & Hdis & _); intros Hin; apply (Hdis a Hin); by left).
    assert (mask seen 0 total !!! Z.to_nat a = 0) as ->.
    { apply list_lookup_total_correct. rewrite Hm by lia. rewrite Z2Nat.id, bool_decide_false by (done || lia). done. }
    cbn [Z.eqb negb].
    do 3 f_equal. apply list_eq. intros j. destruct (decide (j < total)%nat) as [Hj|]; [|rewrite !lookup_ge_None_2; [done|unfold mask; rewrite length_fmap, length_seq; lia|rewrite length_insert; lia]].
    rewrite (Hm (seen ++ [a]) j Hj). destruct (decide (j = Z.to_nat a)) as [->|Hne].
    - rewrite list_lookup_insert_eq by lia. rewrite bool_decide_true; [done|]. rewrite Z2Nat.id by lia. apply elem_of_app. right. by left.
    - rewrite list_lookup_insert_ne, Hm by done. f_equal.
      assert (Z.of_nat j ∈ seen ++ [a] ↔ Z.of_nat j ∈ seen) by (rewrite elem_of_app, list_elem_of_singleton; split; [intros [|E]; [done|lia]|by left]).
      repeat case_bool_decide; tauto. }
  cbn [mbind res_bind]. rewrite IH; [by rewrite <- app_assoc|by rewrite <- app_assoc|done].
Qed.
Lemma sorted_length lo m axes : StronglySorted Z.lt axes → Forall (fun a => lo ≤ a < lo + Z.of_nat m) axes → (length axes ≤ m)%nat.
Proof.
  intros Hs. revert lo m. induction Hs as [|a axes Hs IH Ha]; intros lo m Hr; [simpl; lia|]. apply Forall_cons in Hr as [Hra Hr]. destruct m as [|m]; [lia|]. simpl.
  enough (length axes ≤ m)%nat by lia. apply (IH (lo + 1)). rewrite Forall_forall in *. intros x Hx. specialize (Ha x Hx). specialize (Hr x Hx). lia.
Qed.
(** Filling the marked dimensions and taking the marks out again. *)
Lemma fill_squeeze axes i m dims :
  StronglySorted Z.lt axes → Forall (fun a => Z.of_nat i ≤ a < Z.of_nat i + Z.of_nat m) axes → (length axes + length dims)%nat = m →
  ∃ out, fill_dims (mask axes i m) dims = Ok out ∧ squeeze_dims (Z.of_nat i) out axes = Ok dims ∧ prodZ out = prodZ dims ∧
    (Forall (fun d => 1 ≤ d) dims → Forall (fun d => 1 ≤ d) out) ∧
    ∀ j, (j < m)%nat → Z.of_nat (i + j) ∈ axes → out !! j = Some 1.
Proof.
  intros Hs. revert i m dims. induction Hs as [|a axes Hs IH Ha].
  - intros i m dims _ L. simpl in L. subst m. exists dims. revert i. induction dims as [|d dims IHd]; intros i; [split_and!; try done; simpl; intros; lia|].
    simpl length. rewrite mask_S, bool_decide_false by (apply not_elem_of_nil). cbn [fill_dims Z.eqb squeeze_dims]. destruct (IHd (S i)) as (-> & E & _). cbn [mbind res_bind].
    replace (Z.of_nat i + 1) with (Z.of_nat (S i)) by lia. rewrite E. split_and!; [done|done|done|done|by intros j _ ?%not_elem_of_nil].
  - intros i m. revert i. induction m as [|m IHm]; intros i dims Hr L; [simpl in L; lia|]. apply Forall_cons in Hr as [Hra Hr]. rewrite mask_S.
    destruct (decide (a = Z.of_nat i)) as [->|Hne].
    + rewrite bool_decide_true by (by left). rewrite (mask_ext _ axes) by (intros j Hj; rewrite elem_of_cons; split; [intros [|]; [lia|done]|by right]).
      destruct (IH (S i) m dims) as (out & E1 & E2 & E3 & E4 & E5); [|simpl in L; lia|].
      { rewrite Forall_forall in *. intros x Hx. specialize (Ha x Hx). specialize (Hr x Hx). lia. }
      exists (1 :: out). cbn [fill_dims]. change (1 =? 0) with false. cbn iota. rewrite E1. cbn [mbind res_bind squeeze_dims]. rewrite Z.eqb_refl. cbn [enforce Z.eqb Pos.eqb mbind res_bind].
      replace (Z.of_nat i + 1) with (Z.of_nat (S i)) by lia. split_and!; [done|done|simpl; lia|intros; constructor; [lia|auto]|].
      intros [|j] Hj Hin; [done|]. cbn. apply E5; [lia|]. apply elem_of_cons in Hin as [?|Hin]; [lia|]. by replace (S i + j)%nat with (i + S j)%nat by lia.
    + assert (Hi : Z.of_nat i ∉ a :: axes). { rewrite elem_of_cons. rewrite Forall_forall in Ha. intros [|Hin]; [lia|]. specialize (Ha _ Hin). lia. }
      rewrite bool_decide_false by done. assert (Hr' : Forall (fun x => Z.of_nat (S i) ≤ x < Z.of_nat (S i) + Z.of_nat m) (a :: axes)).
      { rewrite Forall_forall in *. intros x Hx. apply elem_of_cons in Hx as [->|Hx]; [lia|]. specialize (Ha x Hx). specialize (Hr x Hx). lia. }
      pose proof (sorted_length _ m _ (SSorted_cons _ Hs Ha) Hr') as Hlen. simpl in Hlen, L. destruct dims as [|d dims]; [simpl in L; lia|].
      destruct (IHm (S i) dims) as (out & E1 & E2 & E3 & E4 & E5); [done|simpl in *; lia|].
      exists (d :: out). cbn [fill_dims Z.eqb]. rewrite E1. cbn [mbind res_bind squeeze_dims]. destruct (Z.eqb_spec a (Z.of_nat i)); [done|].
      replace (Z.of_nat i + 1) with (Z.of_nat (S i)) by lia. rewrite E2. split_and!; [done|done|simpl; lia|intros [? ?]%Forall_cons; constructor; auto|].
      intros [|j] Hj Hin; [by rewrite Nat.add_0_r in Hin|]. cbn. apply E5; [lia|]. by replace (S i + j)%nat with (i + S j)%nat by lia.
Qed.
Lemma remove_dups_NoDup (l : list Z) : NoDup l → remove_dups l = l.
Proof. induction 1 as [|x l Hx Hl IH]; [done|]. simpl. destruct (decide_rel _ x l); [done|by rewrite IH]. Qed.
Lemma sorted_strictly (l : list Z) : StronglySorted Z.le l → NoDup l → StronglySorted Z.lt l.
Proof.
  induction 1 as [|x l Hs IH Hx]; [constructor|]. intros [Hni Hnd]%NoDup_cons. constructor; [by apply IH|].
  rewrite Forall_forall in *. intros y Hy. specialize (Hx y Hy). assert (x ≠ y) by by intros ->. lia.
Qed.
(** The axes as the constructor of Squeeze keeps them. *)
Lemma squeeze_axes axes :
  NoDup axes → ∃ axes_, new_SqueezeBase (Some axes) = Ok axes_ ∧ StronglySorted Z.lt axes_ ∧ axes_ ≡ₚ axes.
Proof.
  intros Hnd. exists (merge_sort Z.le axes). pose proof (merge_sort_Permutation Z.le axes) as Hp. assert (Hnd' : NoDup (merge_sort Z.le axes)) by by rewrite Hp.
  unfold new_SqueezeBase. cbn [of_option mbind res_bind]. rewrite remove_dups_NoDup by done. split_and!; [done| |done].
  apply sorted_strictly; [by apply StronglySorted_merge_sort; apply _|done].
Qed.

(** Unsqueeze puts dimensions of size 1 at the given axes of the result and
    keeps the others in order, and Squeeze with the same axes gives the tensor
    back. Both keep the elements. *)
Theorem unsqueeze_squeeze axes (X : Tensor) :
  tensor_ok X → prodZ (fst X) < 2 ^ 63 → Z.of_nat (length axes + length (fst X)) < 2 ^ 63 → NoDup axes →
  Forall (fun a => 0 ≤ a < Z.of_nat (length axes + length (fst X))) axes →
  ∃ dims axes_, Unsqueeze_Compute garbage axes X = Ok (StatusOK, Some (dims, snd X)) ∧ (∀ a, a ∈ axes → dims !! Z.to_nat a = Some 1) ∧
    new_SqueezeBase (Some axes) = Ok axes_ ∧ Squeeze_Compute garbage axes_ (dims, snd X) = Ok X.
Proof.
  intros [Hd Ld] Hlt Ht Hnd Hr. destruct (squeeze_axes axes Hnd) as (axes_ & Ea & Hs & Hp). set (total := (length axes + length (fst X))%nat) in *.
  destruct (fill_squeeze axes_ 0 total (fst X) Hs) as (dims & E1 & E2 & E3 & E4 & E5).
  { rewrite Forall_forall in *. intros a Ha. apply Hr. by rewrite <- Hp. } { unfold total. by rewrite (Permutation_length Hp). }
  exists dims, axes_. specialize (E4 Hd). split_and!; [| |done|].
  - unfold Unsqueeze_Compute. fold total. assert (replicate total 0 = mask [] 0 total) as ->.
    { unfold mask. apply list_eq. intros j. rewrite list_lookup_fmap. destruct (decide (j < total)%nat).
      - rewrite lookup_replicate_2, lookup_seq_lt by done. cbn. by rewrite bool_decide_false by apply not_elem_of_nil.
      - rewrite !lookup_ge_None_2; [done|rewrite length_seq; lia|rewrite length_replicate; lia]. }
    rewrite unsqueeze_axes by done. cbn [mbind res_bind app IsOK StatusOK negb]. rewrite (mask_ext axes axes_) by (intros j _; by rewrite Hp). rewrite E1. cbn [mbind res_bind].
    rewrite copy_all; [done|done|done|done|]. apply (inj Z.of_nat). rewrite new_output_length; lia.
  - intros a Ha. rewrite Forall_forall in Hr. pose proof (Hr a Ha). apply E5; [lia|]. cbn. rewrite Z2Nat.id by lia. by rewrite Hp.
  - unfold Squeeze_Compute. cbn [fst snd]. change 0 with (Z.of_nat 0). rewrite E2. cbn [mbind res_bind]. rewrite copy_all; [by destruct X|done|lia|lia|].
    apply (inj Z.of_nat). rewrite new_output_length; lia.
Qed.
End reshape.

(** ** Examples *)

Module Grid.
Definition grid : list Z * list Z := ([2; 3], [1; 2; 3; 4; 5; 6]).
Lemma grid_ok : tensor_ok grid.
Proof. split; [repeat constructor; simpl; lia|done]. Qed.
Lemma request_ok : RequestOk [2; 3] [3; -1].
Proof. split; [repeat constructor; lia| |vm_compute; reflexivity]. intros [|[|i]] H; discriminate. Qed.
End Grid.
Import Grid.

Lemma reshape_correct_witness : Reshape_1_Compute 0 [3; -1] grid = Ok ([3; 2], [1; 2; 3; 4; 5; 6]).
Proof. rewrite (reshape_correct 0 [3; -1] grid grid_ok ltac:(reflexivity) request_ok). reflexivity. Defined.
Lemma unsqueeze_squeeze_witness :
  ∃ dims axes_, Unsqueeze_Compute 0 [3; 0] grid = Ok (StatusOK, Some (dims, snd grid)) ∧ new_SqueezeBase (Some [3; 0]) = Ok axes_ ∧
    Squeeze_Compute 0 axes_ (dims, snd grid) = Ok grid.
Proof.
  destruct (unsqueeze_squeeze 0 [3; 0] grid grid_ok) as (dims & axes_ & H1 & _ & H2 & H3).
  - reflexivity.
  - reflexivity.
  - apply (bool_decide_unpack _). vm_compute. exact I.
  - apply (bool_decide_unpack _). vm_compute. exact I.
  - exists dims, axes_. split; [exact H1|]. split; [exact H2|exact H3].
Defined.

(** Empty tensors and short attributes that the kernels do not check: Concat
    divides by the pitch of an input without elements, Reshape takes the size of
    an empty tensor modulo 0, Slice without axes reads as many starts as the
    tensor has dimensions, however many there are, and a scalar has no last
    dimension to slice. *)
Theorem unchecked_shapes {A} (garbage : A) type (data : list A) :
  Concat_Compute garbage 0 type [Some ([2; 0], []); Some ([3; 0], [])] = Throw UndefinedBehaviour ∧
  Reshape_1_Compute garbage [0; -1] ([0; 2], []) = Throw UndefinedBehaviour ∧
  Slice_Compute ([0], [1], []) ([2; 3], data) = Throw UndefinedBehaviour ∧
  Slice_Compute ([], [], []) ([], data) = Throw UndefinedBehaviour.
Proof. split_and!; reflexivity. Qed.
