(* ===== verification/Im2col.v ===== *)
(** The unfolding of images into columns of [math_cpu.cc] and [math.h], and the
    folding back: [Im2col] with its fast paths, [Im2colNd], [Col2im] and
    [Col2imNd], in both storage orders. Elements are of any type with a zero and
    an addition; offsets are counted in elements. *)
From S2P Require Import Prelude TensorShape Transpose.

(** ** Memory and loops *)

Section memory.
Context {A : Type}.
Definition read (l : list A) (i : Z) : res A := if i <? 0 then Throw UndefinedBehaviour else of_option UndefinedBehaviour (l !! Z.to_nat i).
Definition write (l : list A) (i : Z) (x : A) : res (list A) :=
  if (0 <=? i) && (i <? Z.of_nat (length l)) then Ok (<[Z.to_nat i := x]> l) else Throw UndefinedBehaviour.
Definition memset (l : list A) (i : Z) (x : A) (n : Z) : res (list A) := memcpy l i (replicate (Z.to_nat n) x) 0 n.
End memory.
(** [for (i = 0; i < n; ++i)]. *)
Definition for_lt {S : Type} (n : Z) (f : S → Z → res S) (s : S) : res S := foldM (fun s i => f s (Z.of_nat i)) s (seq 0 (Z.to_nat n)).
(** The same with a counter of type [int]. *)
Definition for_int {S : Type} (n : Z) (f : S → Z → res S) (s : S) : res S := if 2 ^ 31 <=? n then Throw UndefinedBehaviour else for_lt n f s.
(** [for (i = 0; i != n; ++i)], and [for (i = n; i; i--)]. *)
Definition for_ne {S : Type} (n : Z) (f : S → Z → res S) (s : S) : res S := if n <? 0 then Throw UndefinedBehaviour else for_lt n f s.
(** [for (i = start; i < stop; i += step)]. *)
Definition for_step {S : Type} (start stop step : Z) (f : S → Z → res S) (s : S) : res S :=
  if step <=? 0 then (if start <? stop then Throw UndefinedBehaviour else Ok s)
  else for_lt ((stop - start + step - 1) / step) (fun s i => f s (start + i * step)) s.
Definition is_a_ge_zero_and_a_lt_b (a b : Z) : bool := u64 a <? u64 b.

(** The arguments that the four functions share. *)
Record Window := mkWindow {
  channels : Z; height : Z; width : Z;
  kernel_h : Z; kernel_w : Z;
  dilation_h : Z; dilation_w : Z;
  pad_t : Z; pad_l : Z; pad_b : Z; pad_r : Z;
  stride_h : Z; stride_w : Z;
}.
Definition dkernel_h (p : Window) : Z := dilation_h p * (kernel_h p - 1) + 1.
Definition dkernel_w (p : Window) : Z := dilation_w p * (kernel_w p - 1) + 1.
Definition height_col (p : Window) : res Z :=
  if stride_h p =? 0 then Throw UndefinedBehaviour else Ok (Z.quot (height p + pad_t p + pad_b p - dkernel_h p) (stride_h p) + 1).
Definition width_col (p : Window) : res Z :=
  if stride_w p =? 0 then Throw UndefinedBehaviour else Ok (Z.quot (width p + pad_l p + pad_r p - dkernel_w p) (stride_w p) + 1).
(** The tests for the fast paths. *)
Definition no_padding (p : Window) : bool :=
  (dilation_h p =? 1) && (dilation_w p =? 1) && (pad_l p =? 0) && (pad_r p =? 0) && (pad_t p =? 0) && (pad_b p =? 0).
Definition equal_padding (p : Window) : bool := (pad_l p =? pad_r p) && (pad_t p =? pad_b p).

Section images.
Context {A : Type} (zero : A) (add : A → A → A).
Implicit Types (data_im data_col : list A) (p : Window).

(** ** Columns *)

Section im2col.
Context (p : Window) (output_h output_w : Z) (data_im : list A).

(** Zero padding and no dilation. *)
Definition im2col_row (dst src : Z) (kh kw : Z) (data_col : list A) (y : Z) : res (list A) :=
  let iy := y * stride_h p + kh in
  let ix := kw in
  if stride_w p =? 1
  then memcpy data_col (dst + y * output_w) data_im (src + (iy * width p + ix)) output_w
  else for_int output_w (fun data_col x => memcpy data_col (dst + (y * output_w + x)) data_im (src + (iy * width p + ix + x * stride_w p)) 1) data_col.
Definition im2col_no_padding (data_col : list A) : res (list A) :=
  for_int (channels p * kernel_h p * kernel_w p) (fun data_col k =>
    let nip := Z.quot k (kernel_h p * kernel_w p) in
    let rest := Z.rem k (kernel_h p * kernel_w p) in
    let kh := Z.quot rest (kernel_w p) in
    let kw := Z.rem rest (kernel_w p) in
    let dst := nip * (kernel_h p * kernel_w p * output_h * output_w) + kh * (kernel_w p * output_h * output_w) + kw * (output_h * output_w) in
    let src := nip * (height p * width p) in
    for_int output_h (im2col_row dst src kh kw) data_col) data_col.

(** Equal padding: the position in [data_col] moves along, the one in
    [data_im] by a channel. *)
Definition im2col_pixel (rdptr : Z) (s : Z * (Z * list A)) (i : Z) : res (Z * (Z * list A)) :=
  let '(input_col, (pos, data_col)) := s in
  x ← (if is_a_ge_zero_and_a_lt_b input_col (width p) then read data_im (rdptr + i * stride_w p) else Ok zero);
  data_col ← write data_col pos x;
  Ok (input_col + stride_w p, (pos + 1, data_col)).
Definition im2col_padded_row (im kernel_col : Z) (s : Z * (Z * list A)) (_ : Z) : res (Z * (Z * list A)) :=
  let '(input_row, (pos, data_col)) := s in
  '(pos, data_col) ←
    (if negb (is_a_ge_zero_and_a_lt_b input_row (height p))
     then data_col ← memset data_col pos zero output_w; Ok (pos + output_w, data_col)
     else
       let input_col := - pad_l p + kernel_col * dilation_w p in
       '(_, s) ← for_ne output_w (im2col_pixel (im + (input_row * width p + input_col))) (input_col, (pos, data_col));
       Ok s);
  Ok (input_row + stride_h p, (pos, data_col)).
Definition Im2colWithEqualPadding (data_col : list A) : res (list A) :=
  '(_, data_col) ←
    for_ne (channels p) (fun s channel =>
      for_lt (kernel_h p) (fun s kernel_row =>
        for_lt (kernel_w p) (fun s kernel_col =>
          '(_, s) ← for_ne output_h (im2col_padded_row (channel * (height p * width p)) kernel_col) (- pad_t p + kernel_row * dilation_h p, s);
          Ok s) s) s) (0, data_col);
  Ok data_col.

Definition im2col_baseline (data_col : list A) : res (list A) :=
  for_lt (channels p * kernel_h p * kernel_w p) (fun data_col c =>
    let w_offset := Z.rem c (kernel_w p) in
    let h_offset := Z.rem (Z.quot c (kernel_w p)) (kernel_h p) in
    let c_im := Z.quot (Z.quot c (kernel_h p)) (kernel_w p) in
    for_lt output_h (fun data_col h =>
      for_lt output_w (fun data_col w =>
        let h_pad := h * stride_h p - pad_t p + h_offset * dilation_h p in
        let w_pad := w * stride_w p - pad_l p + w_offset * dilation_w p in
        if (0 <=? h_pad) && (h_pad <? height p) && (0 <=? w_pad) && (w_pad <? width p)
        then x ← read data_im ((c_im * height p + h_pad) * width p + w_pad); write data_col ((c * output_h + h) * output_w + w) x
        else write data_col ((c * output_h + h) * output_w + w) zero) data_col) data_col) data_col.
End im2col.
(** [Im2col] of the order NCHW. *)
Definition Im2col (p : Window) (data_im data_col : list A) : res (list A) :=
  output_h ← height_col p;
  output_w ← width_col p;
  if no_padding p then im2col_no_padding p output_h output_w data_im data_col
  else if equal_padding p then Im2colWithEqualPadding p output_h output_w data_im data_col
  else im2col_baseline p output_h output_w data_im data_col.

(** The order NHWC. *)
Definition Im2col_NHWC (p : Window) (data_im data_col : list A) : res (list A) :=
  output_h ← height_col p;
  output_w ← width_col p;
  '(_, data_col) ←
    for_lt output_h (fun s h =>
      for_lt output_w (fun s w =>
        let h_pad := - pad_t p + h * stride_h p in
        let w_pad := - pad_l p + w * stride_w p in
        for_step h_pad (h_pad + dkernel_h p) (dilation_h p) (fun s ih =>
          for_step w_pad (w_pad + dkernel_w p) (dilation_w p) (fun s iw =>
            let '(pos, data_col) := s in
            data_col ← (if (0 <=? ih) && (ih <? height p) && (0 <=? iw) && (iw <? width p)
                        then memcpy data_col pos data_im ((ih * width p + iw) * channels p) (channels p)
                        else memset data_col pos zero (channels p));
            Ok (pos + channels p, data_col)) s) s) s) (0, data_col);
  Ok data_col.

(** ** Images *)

(** [data_im[i] += x]. *)
Definition add_at (data_im : list A) (i : Z) (x : A) : res (list A) := y ← read data_im i; write data_im i (add y x).

Section col2im.
Context (p : Window) (output_h output_w : Z) (data_col : list A).

Definition col2im_row (dst src kh kw : Z) (data_im : list A) (y : Z) : res (list A) :=
  let iy := y * stride_h p + kh in
  let ix := kw in
  if stride_w p =? 1
  then for_int output_w (fun data_im i => x ← read data_col (dst + y * output_w + i); add_at data_im (src + (iy * width p + ix) + i) x) data_im
  else for_int output_w (fun data_im x => v ← read data_col (dst + (y * output_w + x)); add_at data_im (src + (iy * width p + ix + x * stride_w p)) v) data_im.
Definition col2im_no_padding (data_im : list A) : res (list A) :=
  for_int (channels p * kernel_h p * kernel_w p) (fun data_im k =>
    let nip := Z.quot k (kernel_h p * kernel_w p) in
    let rest := Z.rem k (kernel_h p * kernel_w p) in
    let kh := Z.quot rest (kernel_w p) in
    let kw := Z.rem rest (kernel_w p) in
    let dst := nip * (kernel_h p * kernel_w p * output_h * output_w) + kh * (kernel_w p * output_h * output_w) + kw * (output_h * output_w) in
    let src := nip * (height p * width p) in
    for_int output_h (col2im_row dst src kh kw) data_im) data_im.

Definition col2im_pixel (row : Z) (s : Z * (Z * list A)) (_ : Z) : res (Z * (Z * list A)) :=
  let '(input_col, (pos, data_im)) := s in
  data_im ← (if is_a_ge_zero_and_a_lt_b input_col (width p) then x ← read data_col pos; add_at data_im (row + input_col) x else Ok data_im);
  Ok (input_col + stride_w p, (pos + 1, data_im)).
Definition col2im_padded_row (im kernel_col : Z) (s : Z * (Z * list A)) (_ : Z) : res (Z * (Z * list A)) :=
  let '(input_row, (pos, data_im)) := s in
  '(pos, data_im) ←
    (if negb (is_a_ge_zero_and_a_lt_b input_row (height p)) then Ok (pos + output_w, data_im)
     else
       '(_, s) ← for_ne output_w (col2im_pixel (im + input_row * width p)) (- pad_l p + kernel_col * dilation_w p, (pos, data_im));
       Ok s);
  Ok (input_row + stride_h p, (pos, data_im)).
Definition col2im_equal_padding (data_im : list A) : res (list A) :=
  '(_, data_im) ←
    for_ne (channels p) (fun s channel =>
      for_lt (kernel_h p) (fun s kernel_row =>
        for_lt (kernel_w p) (fun s kernel_col =>
          '(_, s) ← for_ne output_h (col2im_padded_row (channel * (height p * width p)) kernel_col) (- pad_t p + kernel_row * dilation_h p, s);
          Ok s) s) s) (0, data_im);
  Ok data_im.

Definition col2im_fallback (data_im : list A) : res (list A) :=
  for_lt (channels p * kernel_h p * kernel_w p) (fun data_im c =>
    let w_offset := Z.rem c (kernel_w p) in
    let h_offset := Z.rem (Z.quot c (kernel_w p)) (kernel_h p) in
    let c_im := Z.quot (Z.quot c (kernel_h p)) (kernel_w p) in
    for_lt output_h (fun data_im h =>
      for_lt output_w (fun data_im w =>
        let h_pad := h * stride_h p - pad_t p + h_offset * dilation_h p in
        let w_pad := w * stride_w p - pad_l p + w_offset * dilation_w p in
        if (0 <=? h_pad) && (h_pad <? height p) && (0 <=? w_pad) && (w_pad <? width p)
        then x ← read data_col ((c * output_h + h) * output_w + w); add_at data_im ((c_im * height p + h_pad) * width p + w_pad) x
        else Ok data_im) data_im) data_im) data_im.
End col2im.
(** [Col2im] of the order NCHW; [Set] clears the image first. *)
Definition Col2im (p : Window) (data_col data_im : list A) : res (list A) :=
  output_h ← height_col p;
  output_w ← width_col p;
  data_im ← memset data_im 0 zero (height p * width p * channels p);
  if no_padding p then col2im_no_padding p output_h output_w data_col data_im
  else if equal_padding p then col2im_equal_padding p output_h output_w data_col data_im
  else col2im_fallback p output_h output_w data_col data_im.

(** [Add] of [n] elements, from [b] to the place [i] in [y]; the length is an
    [int]. *)
Definition Add_in_place (n : Z) (y : list A) (i : Z) (b : list A) (j : Z) : res (list A) :=
  for_lt (i32 n) (fun y k => x ← read b (j + k); add_at y (i + k) x) y.
(** The order NHWC. *)
Definition Col2im_NHWC (p : Window) (data_col data_im : list A) : res (list A) :=
  data_im ← memset data_im 0 zero (height p * width p * channels p);
  output_h ← height_col p;
  output_w ← width_col p;
  '(_, data_im) ←
    for_lt output_h (fun s h =>
      for_lt output_w (fun s w =>
        let h_pad := - pad_t p + h * stride_h p in
        let w_pad := - pad_l p + w * stride_w p in
        for_step h_pad (h_pad + dkernel_h p) (dilation_h p) (fun s ih =>
          for_step w_pad (w_pad + dkernel_w p) (dilation_w p) (fun s iw =>
            let '(pos, data_im) := s in
            data_im ← (if (0 <=? ih) && (ih <? height p) && (0 <=? iw) && (iw <? width p)
                       then Add_in_place (channels p) data_im ((ih * width p + iw) * channels p) data_col pos
                       else Ok data_im);
            Ok (pos + channels p, data_im)) s) s) s) (0, data_im);
  Ok data_im.

(** ** Any number of axes *)

(** The offsets of a channel of the columns in the kernel, innermost axis
    first: the remainders of successive quotients. *)
Fixpoint offsets_rev (offset : Z) (kernel_shape_rev : list Z) : list Z :=
  match kernel_shape_rev with
  | [] => []
  | k :: rest => Z.rem offset k :: offsets_rev (Z.quot offset k) rest
  end.
Definition d_offset (c_col : Z) (kernel_shape : list Z) : list Z := reverse (offsets_rev c_col (reverse kernel_shape)).
Record Axis := mkAxis { ax_im : Z; ax_col : Z; ax_kernel : Z; ax_stride : Z; ax_dilation : Z; ax_pad : Z }.
(** The loop over the axes: the indices in the column and in the image, and
    whether the latter lies in the padding. *)
Definition nd_axis (s : Z * Z * bool) (e : Axis * (Z * Z)) : Z * Z * bool :=
  let '(index_col, index_im, is_padding) := s in
  let '(a, (d, offset)) := e in
  let d_im := d * ax_stride a - ax_pad a + offset * ax_dilation a in
  (index_col * ax_col a + d, index_im * ax_im a + d_im, is_padding || (d_im <? 0) || (ax_im a <=? d_im)).
(** Counting up, innermost axis first: the next indices and whether there are
    any. *)
Fixpoint nd_increment (col_rev iter_rev : list Z) : res (list Z * bool) :=
  match col_rev, iter_rev with
  | d_max :: col_rev', d :: iter_rev' =>
      _ ← enforce (d <? d_max);
      if d =? d_max - 1 then '(l, b) ← nd_increment col_rev' iter_rev'; Ok (0 :: l, b)
      else Ok (d + 1 :: iter_rev', true)
  | _, _ => Ok ([], false)
  end.
Section nd.
Context (axes : list Axis) (data_img : list A) (accumulate_output : bool) (padding_value : A).
Definition nd_pixel (c_col : Z) (d_iter : list Z) (data_col : list A) : res (list A) :=
  let kernel_size := foldl Z.mul 1 (ax_kernel <$> axes) in
  let '(index_col, index_im, is_padding) :=
    foldl nd_axis (c_col, Z.quot c_col kernel_size, false) (zip axes (zip d_iter (d_offset c_col (ax_kernel <$> axes)))) in
  if negb accumulate_output then
    if is_padding : bool then write data_col index_col padding_value
    else x ← read data_img index_im; write data_col index_col x
  else if negb is_padding then x ← read data_img index_col; add_at data_col index_im x
  else Ok data_col.
Fixpoint nd_loop (fuel : nat) (c_col : Z) (d_iter : list Z) (data_col : list A) : res (list Z * list A) :=
  match fuel with
  | O => OutOfFuel
  | S fuel' =>
      data_col ← nd_pixel c_col d_iter data_col;
      '(iter_rev, incremented) ← nd_increment (reverse (ax_col <$> axes)) (reverse d_iter);
      if incremented : bool then nd_loop fuel' c_col (reverse iter_rev) data_col else Ok (reverse iter_rev, data_col)
  end.
(** A kernel of size 0 on an axis is a division by 0. *)
Definition Im2colNd (channels_col : Z) (data_col : list A) : res (list A) :=
  '(_, data_col) ←
    for_lt channels_col (fun '(d_iter, data_col) c_col =>
      if bool_decide (0 ∈ ax_kernel <$> axes) then Throw UndefinedBehaviour
      else nd_loop (S (Z.to_nat (prodZ (ax_col <$> axes)))) c_col d_iter data_col) (replicate (length axes) 0, data_col);
  Ok data_col.
End nd.
Definition Col2imNd (axes : list Axis) (channels_col img_size : Z) (data_col data_img : list A) : res (list A) :=
  data_img ← memset data_img 0 zero img_size;
  Im2colNd axes data_col true zero channels_col data_img.
End images.
