(* ===== verification/Im2colProps.v ===== *)
(** The fast paths of [Im2col] and [Col2im] do what the general loops do. *)
From S2P Require Import Prelude TensorShape Transpose TransposeProps DataMoveRows Im2col.

(** ** Loops *)

Lemma for_lt_inv {S} (I : Z → S → Prop) n (f : S → Z → res S) s :
  0 ≤ n → I 0 s → (∀ i s, 0 ≤ i < n → I i s → ∃ s', f s i = Ok s' ∧ I (i + 1) s') → ∃ s', for_lt n f s = Ok s' ∧ I n s'.
Proof.
  intros Hn H0 Hf. unfold for_lt. destruct (foldM_seq (fun i s => I (Z.of_nat i) s) (fun s i => f s (Z.of_nat i)) s 0 (Z.to_nat n)) as (s' & E & H).
  - intros i s1 Hi H1. destruct (Hf (Z.of_nat i) s1) as (s2 & E2 & H2); [lia|done|]. exists s2. split; [done|]. by replace (Z.of_nat (Datatypes.S i)) with (Z.of_nat i + 1) by lia.
  - done.
  - exists s'. split; [done|]. by replace (Z.of_nat (0 + Z.to_nat n)) with n in H by lia.
Qed.
Lemma for_int_inv {S} (I : Z → S → Prop) n (f : S → Z → res S) s :
  0 ≤ n < 2 ^ 31 → I 0 s → (∀ i s, 0 ≤ i < n → I i s → ∃ s', f s i = Ok s' ∧ I (i + 1) s') → ∃ s', for_int n f s = Ok s' ∧ I n s'.
Proof. intros Hn H0 Hf. unfold for_int. destruct (Z.leb_spec (2 ^ 31) n); [lia|]. apply for_lt_inv; [lia|done|done]. Qed.
Lemma for_ne_inv {S} (I : Z → S → Prop) n (f : S → Z → res S) s :
  0 ≤ n → I 0 s → (∀ i s, 0 ≤ i < n → I i s → ∃ s', f s i = Ok s' ∧ I (i + 1) s') → ∃ s', for_ne n f s = Ok s' ∧ I n s'.
Proof. intros Hn H0 Hf. unfold for_ne. destruct (Z.ltb_spec n 0); [lia|]. by apply for_lt_inv. Qed.
Lemma for_step_inv {S} (I : Z → S → Prop) start step k (f : S → Z → res S) s :
  1 ≤ step → 1 ≤ k → I 0 s → (∀ i s, 0 ≤ i < k → I i s → ∃ s', f s (start + i * step) = Ok s' ∧ I (i + 1) s') →
  ∃ s', for_step start (start + (step * (k - 1) + 1)) step f s = Ok s' ∧ I k s'.
Proof.
  intros Hs Hk H0 Hf. unfold for_step. destruct (Z.leb_spec step 0); [lia|].
  replace (start + (step * (k - 1) + 1) - start + step - 1) with (k * step) by lia. rewrite Z.div_mul by lia. apply for_lt_inv; [lia|done|done].
Qed.

(** ** Writing in order *)

Section filled.
Context {A : Type} (g : Z → A) (total : Z).
(** The first [n] elements are written. *)
Definition filled (n : Z) (l : list A) : Prop := Z.of_nat (length l) = total ∧ ∀ i, 0 ≤ i < n → l !! Z.to_nat i = Some (g i).

Lemma write_filled n l : 0 ≤ n < total → filled n l → ∃ l', write l n (g n) = Ok l' ∧ filled (n + 1) l'.
Proof.
  intros Hn [L H]. unfold write. rewrite (proj2 (Z.leb_le _ _)), (proj2 (Z.ltb_lt _ _)) by lia. cbn [andb]. eexists. split; [done|]. split; [by rewrite length_insert|].
  intros i Hi. destruct (decide (i = n)) as [->|]; [apply list_lookup_insert_eq; lia|]. rewrite list_lookup_insert_ne by lia. apply H. lia.
Qed.
Lemma memcpy_filled n m l source q :
  0 ≤ n → 0 ≤ m → n + m ≤ total → 0 ≤ q → q + m ≤ Z.of_nat (length source) → (∀ e, 0 ≤ e < m → source !! Z.to_nat (q + e) = Some (g (n + e))) → filled n l →
  ∃ l', memcpy l n source q m = Ok l' ∧ filled (n + m) l'.
Proof.
  intros Hn Hm Hnm Hq Hqm Hs [L H]. destruct (memcpy_ok l n source q m) as (l' & E & L' & C & O); [lia..|]. exists l'. split; [done|]. split; [lia|].
  intros i Hi. destruct (decide (i < n)); [rewrite O by lia; apply H; lia|]. specialize (C (i - n) ltac:(lia)). specialize (Hs (i - n) ltac:(lia)).
  replace (n + (i - n)) with i in * by lia. by rewrite C.
Qed.
Lemma memset_filled n m l x : 0 ≤ n → 0 ≤ m → n + m ≤ total → (∀ e, 0 ≤ e < m → g (n + e) = x) → filled n l → ∃ l', memset l n x m = Ok l' ∧ filled (n + m) l'.
Proof.
  intros Hn Hm Hnm Hx. apply memcpy_filled; [done|done|done|lia|rewrite length_replicate; lia|]. intros e He. rewrite Hx by done. apply lookup_replicate_2. lia.
Qed.
End filled.

(** ** Copying and adding element by element *)

(** Every element of the columns has a place in the image, or none. *)
Section places.
Context {A : Type} (zero : A) (add : A → A → A) (place : Z → option Z) (size total : Z).

Section gather.
Context (data_im : list A) (Him : size ≤ Z.of_nat (length data_im)).
(** The element of the columns with a number. *)
Definition column (i : Z) : A := match place i with Some q => default zero (data_im !! Z.to_nat q) | None => zero end.
Lemma read_im q : 0 ≤ q < size → read data_im q = Ok (default zero (data_im !! Z.to_nat q)).
Proof.
  intros Hq. unfold read. destruct (Z.ltb_spec q 0); [lia|]. destruct (lookup_lt_is_Some_2 data_im (Z.to_nat q)) as [x Hx]; [lia|]. by rewrite Hx.
Qed.
Lemma column_read n : (∀ q, place n = Some q → 0 ≤ q < size) → match place n with Some q => read data_im q | None => Ok zero end = Ok (column n).
Proof. intros Hq. unfold column. destruct (place n) as [q|]; [|done]. by apply read_im, Hq. Qed.
Lemma column_some n q : place n = Some q → 0 ≤ q < size → data_im !! Z.to_nat q = Some (column n).
Proof. intros E Hq. unfold column. rewrite E. destruct (lookup_lt_is_Some_2 data_im (Z.to_nat q)) as [x Hx]; [lia|]. by rewrite Hx. Qed.
Lemma column_none n : place n = None → column n = zero.
Proof. unfold column. by intros ->. Qed.
End gather.

Section scatter.
Context (data_col : list A) (Hcol : Z.of_nat (length data_col) = total).
(** The elements of the columns that fall on a place of the image, in order. *)
Definition falls_on (q i : Z) : option A := if decide (place i = Some q) then data_col !! Z.to_nat i else None.
Definition sum_at (q n : Z) : A := foldl add zero (omap (falls_on q) (seqZ 0 n)).
(** The first [n] elements of the columns are added; what lies behind the image
    is not changed. *)
Context (rest : list A).
Definition added (n : Z) (data_im : list A) : Prop :=
  ∃ im, data_im = im ++ rest ∧ Z.of_nat (length im) = size ∧ ∀ q, 0 ≤ q < size → im !! Z.to_nat q = Some (sum_at q n).

Lemma sum_at_next q n : 0 ≤ n → sum_at q (n + 1) = match falls_on q n with Some x => add (sum_at q n) x | None => sum_at q n end.
Proof.
  intros Hn. unfold sum_at. rewrite seqZ_app by lia. rewrite omap_app, foldl_app. change (seqZ (0 + n) 1) with [n]. cbn. by destruct (falls_on q n).
Qed.
Lemma added_step n data_im :
  0 ≤ n < total → (∀ q, place n = Some q → 0 ≤ q < size) → added n data_im →
  ∃ data_im', match place n with Some q => x ← read data_col n; add_at add data_im q x | None => Ok data_im end = Ok data_im' ∧ added (n + 1) data_im'.
Proof.
  intros Hn Hq (im & -> & L & H). destruct (place n) as [q|] eqn:E.
  - specialize (Hq q eq_refl). destruct (lookup_lt_is_Some_2 data_col (Z.to_nat n)) as [x Hx]; [lia|]. unfold read at 1, add_at, read, write.
    destruct (Z.ltb_spec n 0); [lia|]. rewrite Hx. cbn [of_option mbind res_bind]. destruct (Z.ltb_spec q 0); [lia|]. rewrite lookup_app_l, H by lia. cbn [of_option mbind res_bind].
    rewrite length_app, (proj2 (Z.leb_le _ _)), (proj2 (Z.ltb_lt _ _)) by lia. cbn [andb]. rewrite insert_app_l by lia. eexists. split; [reflexivity|]. eexists. split; [done|].
    split; [by rewrite length_insert|]. intros q' Hq'. rewrite sum_at_next by lia.
    unfold falls_on. rewrite E. destruct (decide (Some q = Some q')) as [[= <-]|Hne]; [rewrite Hx; apply list_lookup_insert_eq; lia|].
    rewrite list_lookup_insert_ne by (intros E'; apply Hne; f_equal; lia). by apply H.
  - eexists. split; [done|]. exists im. split; [done|]. split; [done|]. intros q' Hq'. rewrite sum_at_next by lia. unfold falls_on. rewrite E. destruct (decide _); [done|]. by apply H.
Qed.
Lemma added_clear data_im : 0 ≤ size → Z.of_nat (length data_im) = size → ∃ data_im', memset (data_im ++ rest) 0 zero size = Ok data_im' ∧ added 0 data_im'.
Proof.
  intros Hs L. unfold memset. destruct (memcpy_ok (data_im ++ rest) 0 (replicate (Z.to_nat size) zero) 0 size) as (im & Em & Lim & C & _); [rewrite ?length_app, ?length_replicate; lia..|].
  exists im. split; [done|]. rewrite length_app in Lim. exists (take (Z.to_nat size) im).
  assert (Er : drop (Z.to_nat size) im = rest).
  { apply list_eq. intros i. rewrite lookup_drop, (memcpy_outside _ _ _ _ _ _ _ Em), lookup_app_r by lia. f_equal. lia. }
  split; [by rewrite <- Er, take_drop|]. split; [rewrite length_take; lia|]. intros q Hq. rewrite lookup_take_lt by lia. specialize (C q Hq). rewrite Z.add_0_l in C. rewrite C. apply lookup_replicate_2. lia.
Qed.
End scatter.
End places.

(** ** The window *)

Definition out_h (p : Window) : Z := (height p + pad_t p + pad_b p - dkernel_h p) / stride_h p + 1.
Definition out_w (p : Window) : Z := (width p + pad_l p + pad_r p - dkernel_w p) / stride_w p + 1.
(** A window that fits into the padded image, and sizes that fit into the types
    of the counters. *)
Record WindowOk (p : Window) : Prop := {
  wk_image : 1 ≤ channels p ∧ 1 ≤ height p ∧ 1 ≤ width p;
  wk_kernel : 1 ≤ kernel_h p ∧ 1 ≤ kernel_w p ∧ 1 ≤ dilation_h p ∧ 1 ≤ dilation_w p ∧ 1 ≤ stride_h p ∧ 1 ≤ stride_w p;
  wk_pads : 0 ≤ pad_t p ∧ 0 ≤ pad_l p ∧ 0 ≤ pad_b p ∧ 0 ≤ pad_r p;
  wk_fits : dkernel_h p ≤ height p + pad_t p + pad_b p ∧ dkernel_w p ≤ width p + pad_l p + pad_r p;
  wk_int : channels p * kernel_h p * kernel_w p * (out_h p * out_w p) < 2 ^ 31;
  wk_int64 : height p + pad_t p + pad_b p < 2 ^ 63 ∧ width p + pad_l p + pad_r p < 2 ^ 63;
}.

Section window.
Context (p : Window) (Hp : WindowOk p).
Abbreviation oh := (out_h p).
Abbreviation ow := (out_w p).
Abbreviation kh := (kernel_h p).
Abbreviation kw := (kernel_w p).

Lemma out_pos : 1 ≤ oh ∧ 1 ≤ ow ∧ (oh - 1) * stride_h p + dkernel_h p ≤ height p + pad_t p + pad_b p ∧ (ow - 1) * stride_w p + dkernel_w p ≤ width p + pad_l p + pad_r p.
Proof.
  destruct Hp as [_ (_ & _ & _ & _ & Hsh & Hsw) _ (Hfh & Hfw) _ _]. unfold out_h, out_w.
  pose proof (Z.div_pos (height p + pad_t p + pad_b p - dkernel_h p) (stride_h p) ltac:(lia) ltac:(lia)). pose proof (Z.div_pos (width p + pad_l p + pad_r p - dkernel_w p) (stride_w p) ltac:(lia) ltac:(lia)).
  pose proof (Z.mul_div_le (height p + pad_t p + pad_b p - dkernel_h p) (stride_h p) ltac:(lia)). pose proof (Z.mul_div_le (width p + pad_l p + pad_r p - dkernel_w p) (stride_w p) ltac:(lia)).
  split_and!; lia.
Qed.
Lemma height_col_ok : height_col p = Ok oh.
Proof.
  destruct Hp as [_ (_ & _ & _ & _ & Hsh & Hsw) _ (Hfh & Hfw) _ _]. unfold height_col, out_h. destruct (Z.eqb_spec (stride_h p) 0); [lia|]. by rewrite Z.quot_div_nonneg by lia.
Qed.
Lemma width_col_ok : width_col p = Ok ow.
Proof.
  destruct Hp as [_ (_ & _ & _ & _ & Hsh & Hsw) _ (Hfh & Hfw) _ _]. unfold width_col, out_w. destruct (Z.eqb_spec (stride_w p) 0); [lia|]. by rewrite Z.quot_div_nonneg by lia.
Qed.

(** The row and column of the image under a cell of the kernel. *)
Definition image_row (kr h : Z) : Z := h * stride_h p - pad_t p + kr * dilation_h p.
Definition image_col (kc w : Z) : Z := w * stride_w p - pad_l p + kc * dilation_w p.
Definition inside (r c : Z) : bool := (0 <=? r) && (r <? height p) && (0 <=? c) && (c <? width p).
(** The place in the image of an element of the columns, none in the padding. *)
Definition cell_at (ci kr kc h w : Z) : option Z :=
  if inside (image_row kr h) (image_col kc w) then Some ((ci * height p + image_row kr h) * width p + image_col kc w) else None.
Definition cell (i : Z) : option Z :=
  let c := i / ow / oh in cell_at (c / kw / kh) (c / kw mod kh) (c mod kw) (i / ow mod oh) (i mod ow).
Definition index (ci kr kc h w : Z) : Z := (((ci * kh + kr) * kw + kc) * oh + h) * ow + w.
Abbreviation total := (channels p * kh * kw * (oh * ow)).

Lemma div_mod_add a b r : 0 ≤ r < b → (a * b + r) / b = a ∧ (a * b + r) mod b = r.
Proof. intros Hr. split; [rewrite Z.div_add_l, Z.div_small by lia; lia|by rewrite Z.add_comm, Z.mod_add, Z.mod_small by lia]. Qed.
Lemma cell_index ci kr kc h w : 0 ≤ kr < kh → 0 ≤ kc < kw → 0 ≤ h < oh → 0 ≤ w < ow → cell (index ci kr kc h w) = cell_at ci kr kc h w.
Proof.
  intros Hr Hc Hh Hw. unfold cell, index. destruct (div_mod_add (((ci * kh + kr) * kw + kc) * oh + h) ow w Hw) as [-> ->].
  destruct (div_mod_add ((ci * kh + kr) * kw + kc) oh h Hh) as [-> ->]. destruct (div_mod_add (ci * kh + kr) kw kc Hc) as [-> ->]. by destruct (div_mod_add ci kh kr Hr) as [-> ->].
Qed.
Lemma cell_at_bound ci kr kc h w q : 0 ≤ ci < channels p → cell_at ci kr kc h w = Some q → 0 ≤ q < channels p * (height p * width p).
Proof.
  intros Hci. unfold cell_at, inside. set (r := image_row kr h). set (c := image_col kc w). destruct (_ && _) eqn:E; [|done]. intros [= <-].
  rewrite !andb_true_iff, !Z.leb_le, !Z.ltb_lt in E. destruct E as [[[E1 E2] E3] E4].
  assert (Hx : 0 ≤ ci * height p + r ∧ ci * height p + r + 1 ≤ channels p * height p) by nia. set (x := ci * height p + r) in *.
  assert ((x + 1) * width p ≤ channels p * height p * width p) by (apply Z.mul_le_mono_nonneg_r; lia). assert (0 ≤ x * width p) by nia. lia.
Qed.
(** A number of a channel of the columns as channel of the image, row and column
    of the kernel. *)
Lemma kernel_digits k : 0 ≤ k < channels p * kh * kw → ∃ ci kr kc, k = (ci * kh + kr) * kw + kc ∧ 0 ≤ ci < channels p ∧ 0 ≤ kr < kh ∧ 0 ≤ kc < kw.
Proof.
  destruct (wk_kernel _ Hp) as (Hkh & Hkw & _). intros Hk. exists (k / kw / kh), (k / kw mod kh), (k mod kw).
  pose proof (Z.div_mod k kw ltac:(lia)). pose proof (Z.div_mod (k / kw) kh ltac:(lia)). pose proof (Z.mod_pos_bound k kw ltac:(lia)). pose proof (Z.mod_pos_bound (k / kw) kh ltac:(lia)).
  split_and!; [lia|apply Z.div_pos; [apply Z.div_pos|]; lia|apply Z.div_lt_upper_bound; [lia|apply Z.div_lt_upper_bound; lia]|lia..].
Qed.
Lemma index_bound ci kr kc h w : 0 ≤ ci < channels p → 0 ≤ kr < kh → 0 ≤ kc < kw → 0 ≤ h < oh → 0 ≤ w < ow → 0 ≤ index ci kr kc h w < total.
Proof.
  intros. unfold index. assert (0 ≤ (ci * kh + kr) < channels p * kh) by nia. assert (0 ≤ (ci * kh + kr) * kw + kc < channels p * kh * kw) by nia.
  set (k := (ci * kh + kr) * kw + kc) in *. assert (0 ≤ k * oh + h < channels p * kh * kw * oh) by nia. nia.
Qed.
Lemma index_row ci kr kc h w : index ci kr kc h w = index ci kr kc h 0 + w.
Proof. unfold index. lia. Qed.
Lemma index_next_row ci kr kc h : index ci kr kc h 0 + ow = index ci kr kc (h + 1) 0.
Proof. unfold index. lia. Qed.
Lemma index_next_kernel ci kr kc : index ci kr kc oh 0 = index ci kr (kc + 1) 0 0.
Proof. unfold index. lia. Qed.
Lemma index_next_kernel_row ci kr : index ci kr kw 0 0 = index ci (kr + 1) 0 0 0.
Proof. unfold index. lia. Qed.
Lemma index_next_channel ci : index ci kh 0 0 0 = index (ci + 1) 0 0 0 0.
Proof. unfold index. lia. Qed.
Lemma image_row_bound kr h : 0 ≤ kr < kh → 0 ≤ h < oh → - pad_t p ≤ image_row kr h < height p + pad_b p.
Proof.
  intros Hr Hh. destruct out_pos as (_ & _ & Ho & _). destruct (wk_kernel _ Hp) as (_ & _ & Hd & _ & Hs & _). unfold image_row, dkernel_h in *.
  assert (h * stride_h p ≤ (oh - 1) * stride_h p) by nia. assert (kr * dilation_h p ≤ dilation_h p * (kh - 1)) by nia. assert (0 ≤ h * stride_h p) by nia. assert (0 ≤ kr * dilation_h p) by nia. lia.
Qed.
Lemma image_col_bound kc w : 0 ≤ kc < kw → 0 ≤ w < ow → - pad_l p ≤ image_col kc w < width p + pad_r p.
Proof.
  intros Hr Hh. destruct out_pos as (_ & _ & _ & Ho). destruct (wk_kernel _ Hp) as (_ & _ & _ & Hd & _ & Hs). unfold image_col, dkernel_w in *.
  assert (w * stride_w p ≤ (ow - 1) * stride_w p) by nia. assert (kc * dilation_w p ≤ dilation_w p * (kw - 1)) by nia. assert (0 ≤ w * stride_w p) by nia. assert (0 ≤ kc * dilation_w p) by nia. lia.
Qed.
(** The unsigned comparison. *)
Lemma ge_zero_lt a b : - 2 ^ 63 ≤ a < 2 ^ 63 → 0 ≤ b < 2 ^ 63 → is_a_ge_zero_and_a_lt_b a b = (0 <=? a) && (a <? b).
Proof.
  intros Ha Hb. unfold is_a_ge_zero_and_a_lt_b. rewrite (u64_small b) by lia. destruct (Z.leb_spec 0 a); [by rewrite u64_small by lia|]. cbn [andb].
  apply Z.ltb_ge. unfold u64. rewrite <- (Z.mod_add a 1), Z.mod_small by lia. lia.
Qed.
Lemma row_test kr h : 0 ≤ kr < kh → 0 ≤ h < oh → is_a_ge_zero_and_a_lt_b (image_row kr h) (height p) = (0 <=? image_row kr h) && (image_row kr h <? height p).
Proof. intros Hr Hh. pose proof (image_row_bound kr h Hr Hh). destruct Hp as [Hi _ Hq _ _ [H1 H2]]. apply ge_zero_lt; lia. Qed.
Lemma col_test kc w : 0 ≤ kc < kw → 0 ≤ w < ow → is_a_ge_zero_and_a_lt_b (image_col kc w) (width p) = (0 <=? image_col kc w) && (image_col kc w <? width p).
Proof. intros Hr Hh. pose proof (image_col_bound kc w Hr Hh). destruct Hp as [Hi _ Hq _ _ [H1 H2]]. apply ge_zero_lt; lia. Qed.

Lemma int_bounds : 1 ≤ channels p * kh * kw < 2 ^ 31 ∧ 1 ≤ oh < 2 ^ 31 ∧ 1 ≤ ow < 2 ^ 31.
Proof.
  destruct out_pos as (Ho & How & _ & _). destruct (wk_image _ Hp) as (HC & _). destruct (wk_kernel _ Hp) as (Hkh & Hkw & _). pose proof (wk_int _ Hp) as Hint.
  assert (1 ≤ channels p * kh) by nia. assert (Hck : 1 ≤ channels p * kh * kw) by nia. assert (Hoo : 1 ≤ oh * ow) by nia.
  assert (channels p * kh * kw ≤ channels p * kh * kw * (oh * ow)) by nia. assert (oh * ow ≤ channels p * kh * kw * (oh * ow)) by nia. split_and!; nia.
Qed.
(** The quotients and remainders that the loops take. *)
Lemma kernel_quot ci kr kc :
  0 ≤ ci → 0 ≤ kr < kh → 0 ≤ kc < kw → let k := (ci * kh + kr) * kw + kc in
  Z.rem k kw = kc ∧ Z.rem (Z.quot k kw) kh = kr ∧ Z.quot (Z.quot k kh) kw = ci ∧ Z.quot k (kh * kw) = ci ∧
  Z.quot (Z.rem k (kh * kw)) kw = kr ∧ Z.rem (Z.rem k (kh * kw)) kw = kc.
Proof.
  intros Hci Hr Hc k. assert (Hx : 0 ≤ ci * kh + kr) by nia. assert (Hk : 0 ≤ k) by (unfold k; clear k; nia). assert (Hrc : 0 ≤ kr * kw + kc < kh * kw) by nia. assert (Ek : k = ci * (kh * kw) + (kr * kw + kc)) by (unfold k; ring).
  destruct (div_mod_add (ci * kh + kr) kw kc Hc) as [D1 M1]. destruct (div_mod_add ci kh kr Hr) as [D2 M2]. destruct (div_mod_add ci (kh * kw) (kr * kw + kc) Hrc) as [D3 M3].
  destruct (div_mod_add kr kw kc Hc) as [D4 M4]. fold k in D1, M1. rewrite <- Ek in D3, M3.
  clearbody k. assert (Hpos : 0 < kh ∧ 0 < kw ∧ 0 < kh * kw) by (split_and!; nia). assert (0 ≤ ci * kh + kr) by nia. pose proof (Z.div_pos k kh Hk ltac:(lia)).
  rewrite !(Z.quot_div_nonneg k), !(Z.rem_mod_nonneg k) by lia. rewrite M1, D1, D3, M3. rewrite !Z.rem_mod_nonneg, !Z.quot_div_nonneg by lia.
  split_and!; [done|done| |done|done|done]. rewrite Z.div_div by lia. exact D3.
Qed.
Lemma index_kernel ci kr kc : index ci kr kc 0 0 = ((ci * kh + kr) * kw + kc) * (oh * ow).
Proof. unfold index. ring. Qed.

Lemma index_parts ci kr kc : index ci kr kc 0 0 = ci * (kh * kw * oh * ow) + kr * (kw * oh * ow) + kc * (oh * ow).
Proof. unfold index. ring. Qed.

(** Without padding and dilation every cell lies in the image. *)
Lemma no_padding_inside kr kc h w :
  no_padding p = true → 0 ≤ kr < kh → 0 ≤ kc < kw → 0 ≤ h < oh → 0 ≤ w < ow →
  image_row kr h = h * stride_h p + kr ∧ image_col kc w = w * stride_w p + kc ∧ inside (image_row kr h) (image_col kc w) = true.
Proof.
  unfold no_padding. rewrite !andb_true_iff, !Z.eqb_eq. intros [[[[[Dh Dw] Pl] Pr] Pt] Pb] Hkr Hkc Hh Hw.
  pose proof (image_row_bound kr h Hkr Hh). pose proof (image_col_bound kc w Hkc Hw). unfold inside. rewrite !andb_true_iff, !Z.leb_le, !Z.ltb_lt. unfold image_row, image_col in *.
  split_and!; lia.
Qed.

(** ** The loops over the cells of the kernel *)

Section kernel_loops.
Context {S : Type} (I : Z → S → Prop).
(** One counter for the channel, the row and the column. *)
Lemma channels_inv f s :
  I 0 s →
  (∀ ci kr kc s, 0 ≤ ci < channels p → 0 ≤ kr < kh → 0 ≤ kc < kw → I (index ci kr kc 0 0) s → ∃ s', f s ((ci * kh + kr) * kw + kc) = Ok s' ∧ I (index ci kr kc oh 0) s') →
  ∃ s', for_lt (channels p * kh * kw) f s = Ok s' ∧ I total s'.
Proof.
  intros H0 Hf. destruct (wk_image _ Hp) as (HC & _). destruct (wk_kernel _ Hp) as (Hkh & Hkw & _).
  apply (for_lt_inv (fun k => I (k * (oh * ow)))); [nia|by rewrite Z.mul_0_l|]. intros k s1 Hk Hs1. destruct (kernel_digits k Hk) as (ci & kr & kc & -> & Hci & Hkr & Hkc).
  rewrite <- index_kernel in Hs1. destruct (Hf ci kr kc s1 Hci Hkr Hkc Hs1) as (s2 & E & H2). exists s2. split; [done|].
  by replace (((ci * kh + kr) * kw + kc + 1) * (oh * ow)) with (index ci kr kc oh 0) by (unfold index; ring).
Qed.
Lemma channels_inv_int f s :
  I 0 s →
  (∀ ci kr kc s, 0 ≤ ci < channels p → 0 ≤ kr < kh → 0 ≤ kc < kw → I (index ci kr kc 0 0) s → ∃ s', f s ((ci * kh + kr) * kw + kc) = Ok s' ∧ I (index ci kr kc oh 0) s') →
  ∃ s', for_int (channels p * kh * kw) f s = Ok s' ∧ I total s'.
Proof.
  intros H0 Hf. unfold for_int. destruct int_bounds as (Hck & _). destruct (Z.leb_spec (2 ^ 31) (channels p * kh * kw)); [lia|]. by apply channels_inv.
Qed.
(** Three nested loops. *)
Lemma nested_inv f s :
  I 0 s →
  (∀ ci kr kc s, 0 ≤ ci < channels p → 0 ≤ kr < kh → 0 ≤ kc < kw → I (index ci kr kc 0 0) s → ∃ s', f ci kr s kc = Ok s' ∧ I (index ci kr kc oh 0) s') →
  ∃ s', for_ne (channels p) (fun s ci => for_lt kh (fun s kr => for_lt kw (f ci kr) s) s) s = Ok s' ∧ I total s'.
Proof.
  intros H0 Hf. destruct (wk_image _ Hp) as (HC & _). destruct (wk_kernel _ Hp) as (Hkh & Hkw & _). replace total with (index (channels p) 0 0 0 0) by (unfold index; ring).
  apply (for_ne_inv (fun ci => I (index ci 0 0 0 0))); [lia|by replace (index 0 0 0 0 0) with 0 by (unfold index; lia)|]. intros ci s1 Hci Hs1. rewrite <- index_next_channel.
  apply (for_lt_inv (fun kr => I (index ci kr 0 0 0))); [lia|done|]. intros kr s2 Hkr Hs2. rewrite <- index_next_kernel_row.
  apply (for_lt_inv (fun kc => I (index ci kr kc 0 0))); [lia|done|]. intros kc s3 Hkc Hs3. rewrite <- index_next_kernel. by apply Hf.
Qed.
End kernel_loops.

(** ** Im2col *)

Section im2col.
Context {A : Type} (zero : A) (data_im : list A) (Him : channels p * (height p * width p) ≤ Z.of_nat (length data_im)).
Abbreviation Column := (column zero cell data_im).
Abbreviation Filled := (filled Column total).

Section at_index.
Context (ci kr kc : Z) (Hci : 0 ≤ ci < channels p) (Hkr : 0 ≤ kr < kh) (Hkc : 0 ≤ kc < kw).
Lemma column_pixel h w :
  0 ≤ h < oh → 0 ≤ w < ow →
  (if inside (image_row kr h) (image_col kc w) then read data_im ((ci * height p + image_row kr h) * width p + image_col kc w) else Ok zero) = Ok (Column (index ci kr kc h w)).
Proof.
  intros Hh Hw. rewrite <- (column_read zero cell _ data_im Him); rewrite cell_index by done; [|intros q; by apply cell_at_bound]. unfold cell_at. by destruct (inside _ _).
Qed.
Lemma column_inside h w :
  0 ≤ h < oh → 0 ≤ w < ow → inside (image_row kr h) (image_col kc w) = true →
  data_im !! Z.to_nat ((ci * height p + image_row kr h) * width p + image_col kc w) = Some (Column (index ci kr kc h w)).
Proof.
  intros Hh Hw Hin. assert (E : cell_at ci kr kc h w = Some ((ci * height p + image_row kr h) * width p + image_col kc w)) by (unfold cell_at; by rewrite Hin).
  eapply column_some; [done|by rewrite cell_index|by apply (cell_at_bound ci kr kc h w)].
Qed.
Lemma column_outside h w : 0 ≤ h < oh → 0 ≤ w < ow → inside (image_row kr h) (image_col kc w) = false → Column (index ci kr kc h w) = zero.
Proof. intros Hh Hw Hout. apply column_none. rewrite cell_index by done. unfold cell_at. by rewrite Hout. Qed.
End at_index.

Lemma baseline_ok data_col : Filled 0 data_col → ∃ data_col', im2col_baseline zero p oh ow data_im data_col = Ok data_col' ∧ Filled total data_col'.
Proof.
  intros H0. destruct out_pos as (Ho & How & _ & _). unfold im2col_baseline. apply channels_inv; [done|]. intros ci kr kc col Hci Hkr Hkc Hcol.
  destruct (kernel_quot ci kr kc ltac:(lia) Hkr Hkc) as (-> & -> & -> & _).
  apply (for_lt_inv (fun h => Filled (index ci kr kc h 0))); [lia|done|]. intros h col1 Hh Hcol1. rewrite <- index_next_row, <- index_row.
  apply (for_lt_inv (fun w => Filled (index ci kr kc h w))); [lia|done|]. intros w col2 Hw Hcol2.
  fold (image_row kr h) (image_col kc w) (inside (image_row kr h) (image_col kc w)) (index ci kr kc h w). pose proof (column_pixel ci kr kc Hci Hkr Hkc h w Hh Hw) as Hx.
  pose proof (index_bound ci kr kc h w Hci Hkr Hkc Hh Hw) as Hib.
  destruct (write_filled Column total _ _ Hib Hcol2) as (col3 & E3 & H3). exists col3. replace (index ci kr kc h (w + 1)) with (index ci kr kc h w + 1) by (unfold index; lia). split; [|done].
  destruct (inside _ _); [rewrite Hx; exact E3|]. injection Hx as ->. exact E3.
Qed.

(** The position moves with what is written. *)
Definition at_pos (n : Z) (s : Z * list A) : Prop := fst s = n ∧ Filled n (snd s).

Lemma padded_row_ok ci kr kc h s :
  0 ≤ ci < channels p → 0 ≤ kr < kh → 0 ≤ kc < kw → 0 ≤ h < oh → at_pos (index ci kr kc h 0) s →
  ∃ s', im2col_padded_row zero p ow data_im (ci * (height p * width p)) kc (image_row kr h, s) h = Ok (image_row kr (h + 1), s') ∧ at_pos (index ci kr kc (h + 1) 0) s'.
Proof.
  intros Hci Hkr Hkc Hh. destruct s as [pos col]. intros [Epos Hcol]. cbn [fst snd] in *. subst pos. destruct out_pos as (_ & How & _ & _).
  assert (Er : image_row kr h + stride_h p = image_row kr (h + 1)) by (unfold image_row; lia). unfold im2col_padded_row. rewrite Er, row_test by done.
  destruct (_ && _) eqn:Hrow; cbn [negb].
  - destruct (for_ne_inv (fun w s => fst s = image_col kc w ∧ at_pos (index ci kr kc h w) (snd s)) ow
      (im2col_pixel zero p data_im (ci * (height p * width p) + (image_row kr h * width p + (- pad_l p + kc * dilation_w p)))) (- pad_l p + kc * dilation_w p, (index ci kr kc h 0, col)))
      as ([ic [pos col']] & E & _ & [Epos' Hcol']).
    + lia.
    + split; [unfold image_col; cbn; lia|by split].
    + intros w [ic [pos col1]] Hw [Eic [Epos1 Hcol1]]. cbn [fst snd] in *. subst ic pos. unfold im2col_pixel. rewrite col_test by done.
      pose proof (column_pixel ci kr kc Hci Hkr Hkc h w Hh Hw) as Hx. unfold inside in Hx. rewrite Hrow in Hx. cbn [andb] in Hx.
      replace (ci * (height p * width p) + (image_row kr h * width p + (- pad_l p + kc * dilation_w p)) + w * stride_w p)
        with ((ci * height p + image_row kr h) * width p + image_col kc w) by (unfold image_col; ring).
      rewrite Hx. cbn [mbind res_bind]. destruct (write_filled Column total _ _ (index_bound ci kr kc h w Hci Hkr Hkc Hh Hw) Hcol1) as (col2 & -> & H2). cbn [mbind res_bind].
      eexists. split; [reflexivity|]. cbn [fst snd]. split; [unfold image_col; lia|]. replace (index ci kr kc h (w + 1)) with (index ci kr kc h w + 1) by (unfold index; lia). by split.
    + rewrite E. cbn [mbind res_bind]. cbn [fst snd] in *. assert (En : index ci kr kc h ow = index ci kr kc (h + 1) 0) by (unfold index; lia).
      rewrite En in *. eexists. split; [reflexivity|]. by split.
  - destruct (memset_filled Column total (index ci kr kc h 0) ow col zero) as (col1 & E1 & H1); [apply index_bound; try done; lia|lia| | |done|].
    + pose proof (index_bound ci kr kc h (ow - 1) Hci Hkr Hkc Hh ltac:(lia)). rewrite index_row in H. lia.
    + intros e He. rewrite <- index_row. apply column_outside; [done..|]. unfold inside. rewrite Hrow. done.
    + rewrite E1. cbn [mbind res_bind]. rewrite index_next_row in *. eexists. split; [reflexivity|]. by split.
Qed.
Lemma equal_padding_ok data_col : Filled 0 data_col → ∃ data_col', Im2colWithEqualPadding zero p oh ow data_im data_col = Ok data_col' ∧ Filled total data_col'.
Proof.
  intros H0. destruct out_pos as (Ho & _). unfold Im2colWithEqualPadding.
  destruct (nested_inv at_pos (fun ci kr s kc => '(_, s) ← for_ne oh (im2col_padded_row zero p ow data_im (ci * (height p * width p)) kc) (- pad_t p + kr * dilation_h p, s); Ok s) (0, data_col))
    as ([pos col] & E & Epos & Hcol).
  - by split.
  - intros ci kr kc s Hci Hkr Hkc Hs.
    destruct (for_ne_inv (fun h s => fst s = image_row kr h ∧ at_pos (index ci kr kc h 0) (snd s)) oh (im2col_padded_row zero p ow data_im (ci * (height p * width p)) kc)
      (- pad_t p + kr * dilation_h p, s)) as ([ir s3] & E3 & _ & H3).
    + lia.
    + split; [unfold image_row; cbn; lia|done].
    + intros h [ir s4] Hh [Eir Hs4]. cbn [fst snd] in *. subst ir. destruct (padded_row_ok ci kr kc h s4 Hci Hkr Hkc Hh Hs4) as (s5 & E5 & H5).
      exists (image_row kr (h + 1), s5). split; [done|]. by split.
    + exists s3. rewrite E3. done.
  - rewrite E. by exists col.
Qed.

Lemma no_padding_row_ok ci kr kc h data_col :
  no_padding p = true → 0 ≤ ci < channels p → 0 ≤ kr < kh → 0 ≤ kc < kw → 0 ≤ h < oh → Filled (index ci kr kc h 0) data_col →
  ∃ data_col', im2col_row p ow data_im (index ci kr kc 0 0) (ci * (height p * width p)) kr kc data_col h = Ok data_col' ∧ Filled (index ci kr kc (h + 1) 0) data_col'.
Proof.
  intros Hnp Hci Hkr Hkc Hh Hcol. destruct out_pos as (Ho1 & How & _ & _). unfold im2col_row.
  assert (Hsrc : ∀ w, 0 ≤ w < ow → ci * (height p * width p) + ((h * stride_h p + kr) * width p + kc + w * stride_w p) = (ci * height p + image_row kr h) * width p + image_col kc w ∧
    data_im !! Z.to_nat ((ci * height p + image_row kr h) * width p + image_col kc w) = Some (Column (index ci kr kc h w)) ∧
    0 ≤ (ci * height p + image_row kr h) * width p + image_col kc w < channels p * (height p * width p)).
  { intros w Hw. destruct (no_padding_inside kr kc h w Hnp Hkr Hkc Hh Hw) as (Er & Ec & Hin). pose proof (cell_at_bound ci kr kc h w) as Hb. unfold cell_at in Hb. rewrite Hin in Hb.
    split_and!; [rewrite Er, Ec; ring|by apply column_inside|by apply Hb..]. }
  pose proof (index_bound ci kr kc h (ow - 1) Hci Hkr Hkc Hh ltac:(lia)) as Hib. pose proof (index_bound ci kr kc h 0 Hci Hkr Hkc Hh ltac:(lia)) as Hib0. rewrite index_row in Hib.
  assert (Ed : ∀ w, index ci kr kc 0 0 + (h * ow + w) = index ci kr kc h w) by (intros; unfold index; lia). rewrite <- index_next_row. destruct (Z.eqb_spec (stride_w p) 1) as [E1|E1].
  - replace (index ci kr kc 0 0 + h * ow) with (index ci kr kc h 0) by (unfold index; lia). destruct (Hsrc 0 ltac:(lia)) as (S0 & _ & B0).
    destruct (Hsrc (ow - 1) ltac:(lia)) as (S1 & _ & B1). rewrite E1, Z.mul_1_r in *.
    replace (ci * (height p * width p) + ((h * stride_h p + kr) * width p + kc)) with ((ci * height p + image_row kr h) * width p + image_col kc 0) by lia.
    apply memcpy_filled; [lia|lia|lia|lia|lia| |done]. intros e He. rewrite <- index_row. destruct (Hsrc e He) as (Se & <- & _). f_equal. f_equal. lia.
  - destruct (for_int_inv (fun w => Filled (index ci kr kc h w)) ow
      (fun data_col x => memcpy data_col (index ci kr kc 0 0 + (h * ow + x)) data_im (ci * (height p * width p) + ((h * stride_h p + kr) * width p + kc + x * stride_w p)) 1) data_col)
      as (col & E & Hc); [|done| |].
    + destruct int_bounds. lia.
    + intros w col1 Hw Hcol1. rewrite Ed. destruct (Hsrc w Hw) as (-> & Hx & Hb). replace (index ci kr kc h (w + 1)) with (index ci kr kc h w + 1) by (unfold index; lia).
      apply memcpy_filled; [|lia| |lia|lia| |done]; [by apply index_bound|pose proof (index_bound ci kr kc h w Hci Hkr Hkc Hh Hw); lia|].
      intros e He. replace e with 0 by lia. by rewrite !Z.add_0_r.
    + exists col. rewrite <- index_row. done.
Qed.
Lemma no_padding_ok data_col :
  no_padding p = true → Filled 0 data_col → ∃ data_col', im2col_no_padding p oh ow data_im data_col = Ok data_col' ∧ Filled total data_col'.
Proof.
  intros Hnp H0. destruct int_bounds as (_ & Hoh & _). unfold im2col_no_padding. apply channels_inv_int; [done|]. intros ci kr kc col Hci Hkr Hkc Hcol.
  destruct (kernel_quot ci kr kc ltac:(lia) Hkr Hkc) as (_ & _ & _ & -> & -> & ->). rewrite <- index_parts.
  apply (for_int_inv (fun h => Filled (index ci kr kc h 0))); [lia|done|]. intros h col1 Hh Hcol1. by apply no_padding_row_ok.
Qed.
Lemma im2col_filled data_col : Filled 0 data_col → ∃ data_col', Im2col zero p data_im data_col = Ok data_col' ∧ Filled total data_col'.
Proof.
  intros H0. unfold Im2col. rewrite height_col_ok, width_col_ok. cbn [mbind res_bind]. destruct (no_padding p) eqn:Enp; [by apply no_padding_ok|].
  destruct (equal_padding p); [by apply equal_padding_ok|by apply baseline_ok].
Qed.
End im2col.

(** ** Col2im *)

Section col2im.
Context {A : Type} (zero : A) (add : A → A → A) (data_col : list A) (Hcol : Z.of_nat (length data_col) = total) (rest : list A).
Abbreviation size := (height p * width p * channels p).
Abbreviation Added := (added zero add cell size data_col rest).

Lemma added_pixel ci kr kc h w data_im :
  0 ≤ ci < channels p → 0 ≤ kr < kh → 0 ≤ kc < kw → 0 ≤ h < oh → 0 ≤ w < ow → Added (index ci kr kc h w) data_im →
  ∃ data_im', (if inside (image_row kr h) (image_col kc w)
               then x ← read data_col (index ci kr kc h w); add_at add data_im ((ci * height p + image_row kr h) * width p + image_col kc w) x
               else Ok data_im) = Ok data_im' ∧ Added (index ci kr kc h (w + 1)) data_im'.
Proof.
  intros Hci Hkr Hkc Hh Hw H. replace (index ci kr kc h (w + 1)) with (index ci kr kc h w + 1) by (unfold index; lia).
  pose proof (added_step zero add cell size total data_col Hcol rest _ data_im (index_bound ci kr kc h w Hci Hkr Hkc Hh Hw)) as Hs. rewrite cell_index in Hs by done.
  destruct Hs as (im & E & H'); [intros q Hq; pose proof (cell_at_bound ci kr kc h w q Hci Hq); lia|done|]. exists im. split; [|done]. unfold cell_at in E. by destruct (inside _ _).
Qed.
(** A row in the padding. *)
Lemma added_skip_row ci kr kc h data_im :
  0 ≤ ci < channels p → 0 ≤ kr < kh → 0 ≤ kc < kw → 0 ≤ h < oh → (∀ c, inside (image_row kr h) c = false) → Added (index ci kr kc h 0) data_im → Added (index ci kr kc (h + 1) 0) data_im.
Proof.
  intros Hci Hkr Hkc Hh Hout H0. destruct out_pos as (_ & How & _ & _).
  destruct (for_lt_inv (fun w im => im = data_im ∧ Added (index ci kr kc h w) im) ow (fun im _ => Ok im) data_im) as (im & _ & -> & H); [lia|done| |].
  - intros w im Hw [-> Him]. exists data_im. split; [done|]. split; [done|]. destruct (added_pixel ci kr kc h w data_im Hci Hkr Hkc Hh Hw Him) as (im & E & H). rewrite Hout in E. by injection E as ->.
  - by rewrite index_row, index_next_row in H.
Qed.
Lemma fallback_ok data_im : Added 0 data_im → ∃ data_im', col2im_fallback add p oh ow data_col data_im = Ok data_im' ∧ Added total data_im'.
Proof.
  intros H0. destruct out_pos as (Ho & How & _ & _). unfold col2im_fallback. apply channels_inv; [done|]. intros ci kr kc im Hci Hkr Hkc Him.
  destruct (kernel_quot ci kr kc ltac:(lia) Hkr Hkc) as (-> & -> & -> & _).
  apply (for_lt_inv (fun h => Added (index ci kr kc h 0))); [lia|done|]. intros h im1 Hh Him1. rewrite <- index_next_row, <- index_row.
  apply (for_lt_inv (fun w => Added (index ci kr kc h w))); [lia|done|]. intros w im2 Hw Him2. by apply (added_pixel ci kr kc h w im2).
Qed.
Lemma unfolded_row_ok ci kr kc h data_im :
  no_padding p = true → 0 ≤ ci < channels p → 0 ≤ kr < kh → 0 ≤ kc < kw → 0 ≤ h < oh → Added (index ci kr kc h 0) data_im →
  ∃ data_im', col2im_row add p ow data_col (index ci kr kc 0 0) (ci * (height p * width p)) kr kc data_im h = Ok data_im' ∧ Added (index ci kr kc (h + 1) 0) data_im'.
Proof.
  intros Hnp Hci Hkr Hkc Hh Him. destruct out_pos as (Ho & How & _ & _). rewrite <- index_next_row, <- index_row.
  destruct int_bounds as (_ & _ & Hint).
  assert (Hstep : ∀ w im i q, 0 ≤ w < ow → Added (index ci kr kc h w) im → i = index ci kr kc 0 0 + (h * ow + w) → q = ci * (height p * width p) + ((h * stride_h p + kr) * width p + kc + w * stride_w p) →
    ∃ im', (x ← read data_col i; add_at add im q x) = Ok im' ∧ Added (index ci kr kc h (w + 1)) im').
  { intros w im i q Hw Hw1 -> ->. destruct (added_pixel ci kr kc h w im Hci Hkr Hkc Hh Hw Hw1) as (im' & E & H). destruct (no_padding_inside kr kc h w Hnp Hkr Hkc Hh Hw) as (Er & Ec & Hin).
    rewrite Hin, Er, Ec in E. exists im'. split; [|done].
    replace (index ci kr kc 0 0 + (h * ow + w)) with (index ci kr kc h w) by (unfold index; ring).
    by replace (ci * (height p * width p) + ((h * stride_h p + kr) * width p + kc + w * stride_w p)) with ((ci * height p + (h * stride_h p + kr)) * width p + (w * stride_w p + kc)) by ring. }
  unfold col2im_row. destruct (Z.eqb_spec (stride_w p) 1) as [E1|_]; (apply (for_int_inv (fun w => Added (index ci kr kc h w))); [lia|done|]; intros w im Hw Him1; apply (Hstep w); try done; try lia).
Qed.
Lemma unfolded_ok data_im : no_padding p = true → Added 0 data_im → ∃ data_im', col2im_no_padding add p oh ow data_col data_im = Ok data_im' ∧ Added total data_im'.
Proof.
  intros Hnp H0. destruct int_bounds as (_ & Hoh & _). unfold col2im_no_padding. apply channels_inv_int; [done|]. intros ci kr kc im Hci Hkr Hkc Him.
  destruct (kernel_quot ci kr kc ltac:(lia) Hkr Hkc) as (_ & _ & _ & -> & -> & ->). rewrite <- index_parts.
  apply (for_int_inv (fun h => Added (index ci kr kc h 0))); [lia|done|]. intros h im1 Hh Him1. by apply unfolded_row_ok.
Qed.
(** The position moves over all elements of the columns. *)
Definition added_pos (n : Z) (s : Z * list A) : Prop := fst s = n ∧ Added n (snd s).
Lemma folded_row_ok ci kr kc h s :
  0 ≤ ci < channels p → 0 ≤ kr < kh → 0 ≤ kc < kw → 0 ≤ h < oh → added_pos (index ci kr kc h 0) s →
  ∃ s', col2im_padded_row add p ow data_col (ci * (height p * width p)) kc (image_row kr h, s) h = Ok (image_row kr (h + 1), s') ∧ added_pos (index ci kr kc (h + 1) 0) s'.
Proof.
  intros Hci Hkr Hkc Hh. destruct s as [pos im]. intros [Epos Him]. cbn [fst snd] in *. subst pos. destruct out_pos as (_ & How & _ & _).
  assert (Er : image_row kr h + stride_h p = image_row kr (h + 1)) by (unfold image_row; lia). unfold col2im_padded_row. rewrite Er, row_test by done.
  destruct (_ && _) eqn:Hrow; cbn [negb].
  - destruct (for_ne_inv (fun w s => fst s = image_col kc w ∧ added_pos (index ci kr kc h w) (snd s)) ow
      (col2im_pixel add p data_col (ci * (height p * width p) + image_row kr h * width p)) (- pad_l p + kc * dilation_w p, (index ci kr kc h 0, im)))
      as ([ic [pos im']] & E & _ & [Epos' Him']).
    + lia.
    + split; [unfold image_col; cbn; lia|by split].
    + intros w [ic [pos im1]] Hw [Eic [Epos1 Him1]]. cbn [fst snd] in *. subst ic pos. unfold col2im_pixel. rewrite col_test by done.
      destruct (added_pixel ci kr kc h w im1 Hci Hkr Hkc Hh Hw Him1) as (im2 & E2 & H2). unfold inside in E2. rewrite Hrow in E2. cbn [andb] in E2.
      replace (ci * (height p * width p) + image_row kr h * width p + image_col kc w) with ((ci * height p + image_row kr h) * width p + image_col kc w) by ring.
      rewrite E2. cbn [mbind res_bind]. eexists. split; [reflexivity|]. cbn [fst snd]. split; [unfold image_col; lia|]. split; [unfold index; cbn; lia|done].
    + rewrite E. cbn [mbind res_bind]. cbn [fst snd] in *. assert (En : index ci kr kc h ow = index ci kr kc (h + 1) 0) by (unfold index; lia).
      rewrite En in *. eexists. split; [reflexivity|]. by split.
  - cbn [mbind res_bind]. rewrite index_next_row. eexists. split; [reflexivity|]. split; [done|]. apply added_skip_row; [done..| |done]. intros c. unfold inside. by rewrite Hrow.
Qed.
Lemma folded_ok data_im : Added 0 data_im → ∃ data_im', col2im_equal_padding add p oh ow data_col data_im = Ok data_im' ∧ Added total data_im'.
Proof.
  intros H0. destruct out_pos as (Ho & _). unfold col2im_equal_padding.
  destruct (nested_inv added_pos (fun ci kr s kc => '(_, s) ← for_ne oh (col2im_padded_row add p ow data_col (ci * (height p * width p)) kc) (- pad_t p + kr * dilation_h p, s); Ok s) (0, data_im))
    as ([pos im] & E & Epos & Him).
  - by split.
  - intros ci kr kc s Hci Hkr Hkc Hs.
    destruct (for_ne_inv (fun h s => fst s = image_row kr h ∧ added_pos (index ci kr kc h 0) (snd s)) oh (col2im_padded_row add p ow data_col (ci * (height p * width p)) kc)
      (- pad_t p + kr * dilation_h p, s)) as ([ir s3] & E3 & _ & H3).
    + lia.
    + split; [unfold image_row; cbn; lia|done].
    + intros h [ir s4] Hh [Eir Hs4]. cbn [fst snd] in *. subst ir. destruct (folded_row_ok ci kr kc h s4 Hci Hkr Hkc Hh Hs4) as (s5 & E5 & H5).
      exists (image_row kr (h + 1), s5). split; [done|]. by split.
    + exists s3. rewrite E3. done.
  - rewrite E. by exists im.
Qed.
Lemma col2im_added data_im : Z.of_nat (length data_im) = size → ∃ data_im', Col2im zero add p data_col (data_im ++ rest) = Ok data_im' ∧ Added total data_im'.
Proof.
  intros L. unfold Col2im. rewrite height_col_ok, width_col_ok. cbn [mbind res_bind]. destruct (wk_image _ Hp) as (HC & Hh & Hw).
  assert (Hs : 0 ≤ size) by (apply Z.mul_nonneg_nonneg; [apply Z.mul_nonneg_nonneg|]; lia).
  destruct (added_clear zero add cell size data_col rest data_im Hs L) as (im & -> & H0). cbn [mbind res_bind].
  destruct (no_padding p) eqn:Enp; [by apply unfolded_ok|]. destruct (equal_padding p); [by apply folded_ok|by apply fallback_ok].
Qed.
End col2im.
End window.
