(* ===== verification/Im2colNdProps.v ===== *)
(** [Im2colNd] and [Col2imNd] for any number of axes, and for two axes the
    functions made for them. *)
From S2P Require Import Prelude TensorShape Transpose TransposeProps BroadcastInv DataMoveRows Im2col Im2colProps.

(** ** Counting, innermost axis first *)

Abbreviation digit := (fun i d : Z => 0 ≤ i < d).
Lemma valid_index_digits dims idx : valid_index dims idx ↔ Forall2 digit idx dims.
Proof.
  unfold valid_index. split.
  - intros [L H]. apply Forall2_same_length_lookup_2; [done|]. intros i x d Hx Hd. specialize (H i (lookup_lt_Some _ _ _ Hd)).
    by rewrite (list_lookup_total_correct _ _ _ Hx), (list_lookup_total_correct _ _ _ Hd) in H.
  - intros H. pose proof (Forall2_length _ _ _ H) as L. split; [done|]. intros i Hi. destruct (lookup_lt_is_Some_2 dims i Hi) as [d Hd]. destruct (lookup_lt_is_Some_2 idx i ltac:(lia)) as [x Hx].
    rewrite (list_lookup_total_correct _ _ _ Hx), (list_lookup_total_correct _ _ _ Hd). by apply (Forall2_lookup_lr _ _ _ i x d H).
Qed.

Lemma prodZ_cons d l : prodZ (d :: l) = d * prodZ l.
Proof. done. Qed.
(** The number with given digits, least significant first. *)
Fixpoint number (dims idx : list Z) : Z :=
  match dims, idx with
  | d :: dims', i :: idx' => i + d * number dims' idx'
  | _, _ => 0
  end.
Lemma flat_snoc dims idx d i : length idx = length dims → flat (dims ++ [d]) (idx ++ [i]) = flat dims idx * d + i.
Proof.
  intros L. unfold flat. rewrite length_app, Nat.add_1_r. cbn [val]. rewrite (lookup_total_app_r dims), (lookup_total_app_r idx), L, Nat.sub_diag by lia. cbn. f_equal. f_equal.
  assert (H : ∀ k, (k ≤ length dims)%nat → val k (dims ++ [d]) (idx ++ [i]) = val k dims idx); [|by apply H].
  induction k as [|k IH]; intros Hk; [done|]. cbn [val]. rewrite IH by lia. by rewrite !lookup_total_app_l by lia.
Qed.
Lemma flat_number dims idx : length idx = length dims → flat dims idx = number (reverse dims) (reverse idx).
Proof.
  revert idx. induction dims as [|d dims IH] using rev_ind; intros idx L; [by destruct idx|]. rewrite length_app in L. cbn in L.
  destruct idx as [|i idx _] using rev_ind; [cbn in L; lia|]. rewrite length_app in L. cbn in L.
  rewrite flat_snoc, IH by lia. rewrite !reverse_app, !reverse_singleton. cbn [number app]. lia.
Qed.
Lemma number_bound dims idx : Forall2 digit idx dims → 0 ≤ number dims idx < prodZ dims.
Proof. induction 1 as [|i d idx dims Hi _ IH]; cbn [number]; [done|]. rewrite prodZ_cons. nia. Qed.
Lemma prodZ_reverse dims : prodZ (reverse dims) = prodZ dims.
Proof. apply prodZ_perm, reverse_Permutation. Qed.

Lemma nd_increment_ok dims idx :
  Forall2 digit idx dims →
  ∃ idx' b, nd_increment dims idx = Ok (idx', b) ∧ Forall2 digit idx' dims ∧
    if b : bool then number dims idx' = number dims idx + 1 else number dims idx + 1 = prodZ dims ∧ idx' = replicate (length dims) 0.
Proof.
  induction 1 as [|i d idx dims Hi Hv (idx' & b & E & Hv' & Hb)].
  - exists [], false. done.
  - cbn [nd_increment]. rewrite (proj2 (Z.ltb_lt i d)) by lia. cbn [enforce mbind res_bind]. destruct (Z.eqb_spec i (d - 1)) as [->|Hne].
    + rewrite E. cbn [mbind res_bind]. exists (0 :: idx'), b. split; [done|]. split; [constructor; [lia|done]|]. destruct b; cbn [number]; [rewrite Hb; lia|].
      destruct Hb as [Hb ->]. split; [rewrite prodZ_cons; nia|done].
    + exists (i + 1 :: idx), true. split; [done|]. split; [constructor; [lia|done]|]. cbn. lia.
Qed.
(** The quotients and remainders are the digits. *)
Lemma offsets_rev_ok dims idx x : 0 ≤ x → Forall2 digit idx dims → offsets_rev (x * prodZ dims + number dims idx) dims = idx.
Proof.
  intros Hx H. induction H as [|i d idx dims Hi Hv IH]; [done|]. cbn [offsets_rev number]. rewrite prodZ_cons. pose proof (number_bound _ _ Hv).
  assert (0 ≤ x * prodZ dims) by nia. set (m := x * prodZ dims + number dims idx) in *.
  replace (x * (d * prodZ dims) + (i + d * number dims idx)) with (m * d + i) by (unfold m; ring). assert (0 ≤ m) by lia. clearbody m.
  rewrite Z.rem_mod_nonneg, Z.quot_div_nonneg by nia. destruct (div_mod_add m d i Hi) as [-> ->]. by rewrite IH.
Qed.
Lemma d_offset_ok dims idx x : 0 ≤ x → valid_index dims idx → d_offset (x * prodZ dims + flat dims idx) dims = idx.
Proof.
  intros Hx Hv. pose proof (proj1 Hv) as L. apply valid_index_digits in Hv. unfold d_offset. rewrite flat_number, <- (prodZ_reverse dims) by done.
  rewrite offsets_rev_ok by (done || by apply Forall2_reverse). apply reverse_involutive.
Qed.

Lemma length_d_offset x dims : length (d_offset x dims) = length dims.
Proof.
  unfold d_offset. rewrite length_reverse, <- (length_reverse dims). generalize (reverse dims) as l. intros l. revert x. induction l as [|d l IH]; intros x; [done|]. cbn. by rewrite IH.
Qed.

(** ** The axes *)

Section axes.
Context (axes : list Axis).
Abbreviation cols := (ax_col <$> axes).
Abbreviation ims := (ax_im <$> axes).
Abbreviation kernel := (ax_kernel <$> axes).
(** The indices in the image of a cell of the kernel at a position. *)
Definition d_im (d o : list Z) : list Z := zip_with (fun a '(d, o) => d * ax_stride a - ax_pad a + o * ax_dilation a) axes (zip d o).
Definition in_image (l : list Z) : bool := forallb (fun '(i, n) => (0 <=? i) && (i <? n)) (zip l ims).
Definition nd_place (ci : Z) (d o : list Z) : option Z := if in_image (d_im d o) then Some (ci * prodZ ims + flat ims (d_im d o)) else None.
Definition nd_cell (i : Z) : option Z :=
  let c := i / prodZ cols in nd_place (c / prodZ kernel) (d_offset (i mod prodZ cols) cols) (d_offset (c mod prodZ kernel) kernel).
Definition nd_index (ci : Z) (d o : list Z) : Z := (ci * prodZ kernel + flat kernel o) * prodZ cols + flat cols d.

Lemma nd_cell_index ci d o : valid_index cols d → valid_index kernel o → nd_cell (nd_index ci d o) = nd_place ci d o.
Proof.
  intros Hd Ho. unfold nd_cell, nd_index. pose proof (flat_bound _ _ Hd) as Bd. pose proof (flat_bound _ _ Ho) as Bo.
  destruct (div_mod_add (ci * prodZ kernel + flat kernel o) (prodZ cols) _ Bd) as [-> ->]. destruct (div_mod_add ci (prodZ kernel) _ Bo) as [-> ->].
  pose proof (d_offset_ok _ d 0 ltac:(lia) Hd) as E1. pose proof (d_offset_ok _ o 0 ltac:(lia) Ho) as E2. rewrite Z.mul_0_l, Z.add_0_l in E1, E2. by rewrite E1, E2.
Qed.
End axes.
Lemma length_d_im axes d o : length d = length axes → length o = length axes → length (d_im axes d o) = length axes.
Proof. intros Ld Lo. unfold d_im. rewrite length_zip_with, length_zip. lia. Qed.
Lemma in_image_valid axes l : length l = length axes → in_image axes l = true → valid_index (ax_im <$> axes) l.
Proof.
  intros L H. apply valid_index_digits. unfold in_image in H. revert l L H. induction axes as [|a axes IH]; intros [|i l] L H; try done.
  cbn in H. rewrite !andb_true_iff, Z.leb_le, Z.ltb_lt in H. destruct H as [[H1 H2] H3]. constructor; [done|]. apply IH; [cbn in L; lia|done].
Qed.
(** The loop over the axes of one pixel. *)
Lemma nd_axes_ok axes d o ic ii b :
  length d = length axes → length o = length axes →
  foldl nd_axis (ic, ii, b) (zip axes (zip d o)) =
    (ic * prodZ (ax_col <$> axes) + flat (ax_col <$> axes) d, ii * prodZ (ax_im <$> axes) + flat (ax_im <$> axes) (d_im axes d o), b || negb (in_image axes (d_im axes d o))).
Proof.
  revert d o ic ii b. induction axes as [|a axes IH]; intros [|x d] [|y o] ic ii b Ld Lo; try done.
  { cbn. by rewrite !Z.mul_1_r, !Z.add_0_r, orb_false_r. }
  cbn [zip zip_with foldl]. unfold nd_axis at 2. cbn [length] in Ld, Lo. rewrite IH by lia. unfold d_im, in_image. cbn [zip zip_with fmap list_fmap forallb]. rewrite !flat_cons, !prodZ_cons. fold (d_im axes d o). f_equal; [f_equal; lia|].
  rewrite Z.leb_antisym, Z.ltb_antisym. set (u := x * ax_stride a - ax_pad a + y * ax_dilation a). fold (in_image axes (d_im axes d o)). by destruct b, (0 <=? u), (u <? ax_im a), (in_image axes (d_im axes d o)).
Qed.

(** What the sizes have to be. *)
Record AxesOk (axes : list Axis) : Prop := {
  ax_cols_pos : Forall (fun a => 1 ≤ ax_col a) axes;
  ax_kernel_pos : Forall (fun a => 1 ≤ ax_kernel a) axes;
}.
Section nd.
Context (axes : list Axis) (Hok : AxesOk axes) (channels : Z) (Hch : 0 ≤ channels).
Abbreviation cols := (ax_col <$> axes).
Abbreviation ims := (ax_im <$> axes).
Abbreviation kernel := (ax_kernel <$> axes).
Abbreviation ncols := (prodZ cols).
Abbreviation nkernel := (prodZ kernel).
Abbreviation size := (channels * prodZ ims).
Abbreviation total := (channels * nkernel * ncols).
Lemma ncols_pos : 1 ≤ ncols.
Proof. apply prodZ_pos. rewrite Forall_fmap. apply Hok. Qed.
Lemma nkernel_pos : 1 ≤ nkernel.
Proof. apply prodZ_pos. rewrite Forall_fmap. apply Hok. Qed.

Lemma nd_place_bound ci d o q : 0 ≤ ci < channels → length d = length axes → length o = length axes → nd_place axes ci d o = Some q → 0 ≤ q < size.
Proof.
  intros Hci Ld Lo. unfold nd_place. destruct (in_image _ _) eqn:E; [|done]. intros [= <-]. apply in_image_valid in E; [|by apply length_d_im]. apply flat_bound in E. nia.
Qed.
(** A channel of the columns as a channel of the image and a cell of the kernel. *)
Lemma channel_digits c : 0 ≤ c < channels * nkernel → ∃ ci o, c = ci * nkernel + flat kernel o ∧ 0 ≤ ci < channels ∧ valid_index kernel o.
Proof.
  intros Hc. pose proof nkernel_pos as Hk. assert (Hk0 : nkernel ≠ 0) by lia. pose proof (Z.div_mod c _ Hk0) as E. pose proof (Z.mod_bound_or c _ Hk0) as B.
  destruct (flat_surj kernel (c mod nkernel)) as (o & Ho & Eo); [rewrite Forall_fmap; apply Hok|lia|].
  exists (c / nkernel), o. split_and!; [lia|apply Z.div_pos; lia|apply Z.div_lt_upper_bound; lia|done].
Qed.

(** An invariant of all pixels. *)
Section pixels.
Context {A : Type} (add : A → A → A) (data_img : list A) (acc : bool) (padding : A) (I : Z → list A → Prop).
Context (Hstep : ∀ ci d o col, 0 ≤ ci < channels → valid_index cols d → valid_index kernel o → I (nd_index axes ci d o) col →
  ∃ col', nd_pixel add axes data_img acc padding (ci * nkernel + flat kernel o) d col = Ok col' ∧ I (nd_index axes ci d o + 1) col').

Lemma nd_loop_inv fuel ci d o col :
  (Z.to_nat (ncols - flat cols d) ≤ fuel)%nat → 0 ≤ ci < channels → valid_index cols d → valid_index kernel o → I (nd_index axes ci d o) col →
  ∃ col', nd_loop add axes data_img acc padding fuel (ci * nkernel + flat kernel o) d col = Ok (replicate (length axes) 0, col') ∧ I ((ci * nkernel + flat kernel o + 1) * ncols) col'.
Proof.
  revert d col. induction fuel as [|fuel IH]; intros d col Hf Hci Hd Ho Hcol; pose proof (flat_bound _ _ Hd) as Bd; [lia|]. cbn [nd_loop].
  destruct (Hstep ci d o col Hci Hd Ho Hcol) as (col1 & -> & H1). cbn [mbind res_bind]. pose proof (proj1 Hd) as Ld. pose proof (proj1 (valid_index_digits _ _) Hd) as Fd.
  destruct (nd_increment_ok _ _ (Forall2_reverse _ _ _ Fd)) as (d' & b & -> & Fd' & Hb). cbn [mbind res_bind]. destruct b.
  - assert (Hd' : valid_index cols (reverse d')) by (apply valid_index_digits; rewrite <- (reverse_involutive cols); by apply Forall2_reverse).
    assert (E : flat cols (reverse d') = flat cols d + 1) by (rewrite !flat_number by (apply Hd' || done); by rewrite reverse_involutive, Hb).
    apply IH; [lia|done|done|done|]. unfold nd_index in *. by rewrite E, Z.add_assoc.
  - destruct Hb as [Hb ->]. rewrite length_reverse, length_fmap, reverse_replicate. exists col1. split; [done|].
    rewrite <- flat_number, prodZ_reverse in Hb by done. unfold nd_index in H1. by replace ((ci * nkernel + flat kernel o + 1) * ncols) with ((ci * nkernel + flat kernel o) * ncols + flat cols d + 1) by lia.
Qed.
Lemma nd_inv col : I 0 col → ∃ col', Im2colNd add axes data_img acc padding (channels * nkernel) col = Ok col' ∧ I total col'.
Proof.
  intros H0. pose proof nkernel_pos as Hk. pose proof ncols_pos as Hc. assert (Hz : valid_index cols (replicate (length axes) 0)).
  { split; [by rewrite length_replicate, length_fmap|]. intros i Hi. rewrite length_fmap in Hi. rewrite lookup_total_replicate_2 by done. destruct (lookup_lt_is_Some_2 axes i Hi) as [a Ha].
    rewrite (list_lookup_total_correct _ _ (ax_col a)) by (by rewrite list_lookup_fmap, Ha). pose proof (Forall_lookup_1 _ _ _ _ (ax_cols_pos _ Hok) Ha). cbn in *. lia. }
  assert (Ez : flat cols (replicate (length axes) 0) = 0) by (apply val_zero; by rewrite length_fmap). unfold Im2colNd.
  destruct (for_lt_inv (fun c s => fst s = replicate (length axes) 0 ∧ I (c * ncols) (snd s)) (channels * nkernel)
    (fun '(d_iter, data_col) c_col => if bool_decide (0 ∈ kernel) then Throw UndefinedBehaviour else nd_loop add axes data_img acc padding (S (Z.to_nat ncols)) c_col d_iter data_col) (replicate (length axes) 0, col))
    as ([d col'] & -> & Ed & Hcol'); [nia|done| |by exists col'].
  intros c [d col1] Hcc [Ed H1]. cbn [fst snd] in *. subst d. destruct (channel_digits c Hcc) as (ci & o & -> & Hci & Ho).
  rewrite bool_decide_false; last first.
  { intros Hin. apply list_elem_of_fmap in Hin as (a & Ea & Ha). pose proof (proj1 (Forall_forall _ _) (ax_kernel_pos _ Hok) a Ha). cbn in *. lia. }
  destruct (nd_loop_inv (S (Z.to_nat ncols)) ci (replicate (length axes) 0) o col1) as (col2 & E & H2); [lia|done|done|done|unfold nd_index; by rewrite Ez, Z.add_0_r|].
  eexists. split; [exact E|]. done.
Qed.
End pixels.

(** One pixel, in terms of its place. *)
Lemma nd_pixel_place {A} (add : A → A → A) data_img acc padding ci d o col :
  0 ≤ ci → valid_index cols d → valid_index kernel o →
  nd_pixel add axes data_img acc padding (ci * nkernel + flat kernel o) d col =
    if acc then match nd_place axes ci d o with Some q => x ← read data_img (nd_index axes ci d o); add_at add col q x | None => Ok col end
    else x ← match nd_place axes ci d o with Some q => read data_img q | None => Ok padding end; write col (nd_index axes ci d o) x.
Proof.
  intros Hci Hd Ho. unfold nd_pixel. pose proof nkernel_pos as Hk. pose proof (flat_bound _ _ Ho) as Bo. rewrite d_offset_ok by done.
  assert (Ef : foldl Z.mul 1 kernel = nkernel).
  { clear. assert (H : ∀ l z, foldl Z.mul z l = z * prodZ l) by (induction l as [|x l IH]; intros z; [cbn; lia|]; cbn [foldl]; rewrite IH, prodZ_cons; lia). rewrite H. lia. }
  rewrite Ef, Z.quot_div_nonneg by nia. rewrite (proj1 (div_mod_add ci nkernel _ Bo)). pose proof (proj1 Hd) as Ld. pose proof (proj1 Ho) as Lo. rewrite length_fmap in Ld, Lo. rewrite nd_axes_ok by done.
  fold (nd_index axes ci d o). unfold nd_place. by destruct (in_image _ _), acc.
Qed.
Lemma nd_index_bound ci d o : 0 ≤ ci < channels → valid_index cols d → valid_index kernel o → 0 ≤ nd_index axes ci d o < total.
Proof.
  intros Hci Hd Ho. apply flat_bound in Hd, Ho. unfold nd_index. assert (0 ≤ ci * nkernel + flat kernel o < channels * nkernel) by nia. set (k := ci * nkernel + flat kernel o) in *. nia.
Qed.
Lemma im2colnd_filled {A} (add : A → A → A) (padding : A) data_im col :
  size ≤ Z.of_nat (length data_im) → filled (column padding (nd_cell axes) data_im) total 0 col →
  ∃ col', Im2colNd add axes data_im false padding (channels * nkernel) col = Ok col' ∧ filled (column padding (nd_cell axes) data_im) total total col'.
Proof.
  intros Him. apply nd_inv. intros ci d o col1 Hci Hd Ho H1. pose proof (proj1 Hd) as Ld. pose proof (proj1 Ho) as Lo. rewrite length_fmap in Ld, Lo.
  rewrite nd_pixel_place by (done || lia). rewrite <- (nd_cell_index axes) by done.
  rewrite (column_read padding (nd_cell axes) size data_im Him); [|intros q; rewrite nd_cell_index by done; by apply nd_place_bound]. by apply write_filled; [apply nd_index_bound|].
Qed.
Lemma col2imnd_added {A} (zero : A) (add : A → A → A) rest data_col im :
  0 ≤ size → Z.of_nat (length data_col) = total → Z.of_nat (length im) = size →
  ∃ im', Col2imNd zero add axes (channels * nkernel) size data_col (im ++ rest) = Ok im' ∧ added zero add (nd_cell axes) size data_col rest total im'.
Proof.
  intros Hs Hcol Him. unfold Col2imNd. destruct (added_clear zero add (nd_cell axes) size data_col rest im Hs Him) as (im0 & -> & H0). cbn [mbind res_bind].
  apply nd_inv; [|done]. intros ci d o im1 Hci Hd Ho H1. pose proof (proj1 Hd) as Ld. pose proof (proj1 Ho) as Lo. rewrite length_fmap in Ld, Lo.
  rewrite nd_pixel_place by (done || lia). rewrite <- (nd_cell_index axes) by done.
  apply (added_step zero add (nd_cell axes) size total data_col Hcol); [by apply nd_index_bound| |done]. intros q. rewrite nd_cell_index by done. by apply nd_place_bound.
Qed.
End nd.
