(* ===== verification/Im2colRoundtrip.v ===== *)
(** What [Im2col] and [Col2im] compute, whichever path they take, and when they
    invert each other. *)
From S2P Require Import Prelude TensorShape Transpose TransposeProps BroadcastInv DataMoveRows Im2col Im2colProps Im2colNdProps.

(** The number of elements of the columns. *)
Definition col_size (p : Window) : Z := channels p * kernel_h p * kernel_w p * (out_h p * out_w p).
Definition im_size (p : Window) : Z := height p * width p * channels p.

(** C16. Whichever of its three paths [Im2col] takes, it writes every element of
    the columns: the pixel of the image under the cell of the kernel at the
    position of the window, and zero where the cell lies in the padding. It reads
    and writes nothing outside the two buffers. *)
Theorem im2col_correct {A} (zero : A) (p : Window) (data_im data_col : list A) :
  WindowOk p → Z.of_nat (length data_im) = im_size p → Z.of_nat (length data_col) = col_size p →
  ∃ cols, Im2col zero p data_im data_col = Ok cols ∧ length cols = length data_col ∧
    ∀ ci kr kc h w, 0 ≤ ci < channels p → 0 ≤ kr < kernel_h p → 0 ≤ kc < kernel_w p → 0 ≤ h < out_h p → 0 ≤ w < out_w p →
      let r := h * stride_h p - pad_t p + kr * dilation_h p in
      let c := w * stride_w p - pad_l p + kc * dilation_w p in
      cols !! Z.to_nat (index p ci kr kc h w) =
        if (0 <=? r) && (r <? height p) && (0 <=? c) && (c <? width p) then data_im !! Z.to_nat ((ci * height p + r) * width p + c) else Some zero.
Proof.
  unfold im_size, col_size. intros Hp Him Hcol. assert (Him' : channels p * (height p * width p) ≤ Z.of_nat (length data_im)) by lia.
  destruct (im2col_filled p Hp zero data_im Him' data_col) as (cols & E & Lc & Hc); [split; [done|lia]|]. exists cols. split; [done|]. split; [lia|].
  intros ci kr kc h w Hci Hkr Hkc Hh Hw. cbv zeta. fold (image_row p kr h) (image_col p kc w) (inside p (image_row p kr h) (image_col p kc w)).
  rewrite Hc by (by apply index_bound). destruct (inside _ _ _) eqn:Ein.
  - symmetry. by apply column_inside.
  - f_equal. by apply column_outside.
Qed.

(** Whichever of its three paths [Col2im] takes, every pixel of the image
    becomes the sum, in the order of the columns and starting from zero, of the
    elements of the columns that fall on it. *)
Theorem col2im_correct {A} (zero : A) (add : A → A → A) (p : Window) (data_col data_im : list A) :
  WindowOk p → Z.of_nat (length data_im) = im_size p → Z.of_nat (length data_col) = col_size p →
  ∃ im, Col2im zero add p data_col data_im = Ok im ∧ length im = length data_im ∧
    ∀ q, 0 ≤ q < im_size p →
      im !! Z.to_nat q = Some (foldl add zero (omap (fun i => if decide (cell p i = Some q) then data_col !! Z.to_nat i else None) (seqZ 0 (col_size p)))).
Proof.
  intros Hp Him Hcol. destruct (col2im_added p Hp zero add data_col Hcol [] data_im Him) as (im & E & (im' & -> & L & H)). rewrite !app_nil_r in E. exists im'. split; [done|]. split; [unfold im_size in Him; lia|].
  intros q Hq. by rewrite H.
Qed.

(** ** Windows that tile the image *)

(** No padding, no dilation, and a stride that is the size of the kernel and
    divides the image. *)
Definition tiles (p : Window) : Prop :=
  no_padding p = true ∧ stride_h p = kernel_h p ∧ stride_w p = kernel_w p ∧ height p mod kernel_h p = 0 ∧ width p mod kernel_w p = 0.

Section tiles.
Context (p : Window) (Hp : WindowOk p) (Ht : tiles p).

Lemma tiles_out : height p = out_h p * kernel_h p ∧ width p = out_w p * kernel_w p.
Proof.
  destruct Ht as (Hnp & Eh & Ew & Mh & Mw). destruct (wk_kernel _ Hp) as (Hkh & Hkw & _). destruct (wk_image _ Hp) as (_ & Hh & Hw). unfold no_padding in Hnp.
  rewrite !andb_true_iff, !Z.eqb_eq in Hnp. destruct Hnp as [[[[[Dh Dw] Pl] Pr] Pt] Pb].
  assert (Hgen : ∀ n k, 1 ≤ k → n mod k = 0 → n = ((n - k) / k + 1) * k).
  { intros n k Hk Hm. replace (n - k) with (n + (-1) * k) by lia. rewrite Z.div_add by lia. pose proof (Z.div_mod n k ltac:(lia)). lia. }
  unfold out_h, out_w, dkernel_h, dkernel_w. rewrite Dh, Dw, Pl, Pr, Pt, Pb, Eh, Ew. split.
  - replace (height p + 0 + 0 - (1 * (kernel_h p - 1) + 1)) with (height p - kernel_h p) by lia. by apply Hgen.
  - replace (width p + 0 + 0 - (1 * (kernel_w p - 1) + 1)) with (width p - kernel_w p) by lia. by apply Hgen.
Qed.
(** Every element of the columns has its own pixel. *)
Lemma tiles_cell ci kr kc h w :
  0 ≤ kr < kernel_h p → 0 ≤ kc < kernel_w p → 0 ≤ h < out_h p → 0 ≤ w < out_w p →
  cell p (index p ci kr kc h w) = Some ((ci * height p + (h * kernel_h p + kr)) * width p + (w * kernel_w p + kc)).
Proof.
  intros Hkr Hkc Hh Hw. destruct Ht as (Hnp & Eh & Ew & _). rewrite cell_index by done. unfold cell_at.
  destruct (no_padding_inside p Hp kr kc h w Hnp Hkr Hkc Hh Hw) as (-> & -> & ->). by rewrite Eh, Ew.
Qed.
Lemma digits i : 0 ≤ i < col_size p → ∃ ci kr kc h w, i = index p ci kr kc h w ∧ 0 ≤ ci < channels p ∧ 0 ≤ kr < kernel_h p ∧ 0 ≤ kc < kernel_w p ∧ 0 ≤ h < out_h p ∧ 0 ≤ w < out_w p.
Proof.
  unfold col_size. intros Hi. destruct (out_pos p Hp) as (Ho & How & _). set (k := i / out_w p / out_h p).
  pose proof (Z.div_mod i (out_w p) ltac:(lia)). pose proof (Z.mod_pos_bound i (out_w p) ltac:(lia)). pose proof (Z.div_mod (i / out_w p) (out_h p) ltac:(lia)). pose proof (Z.mod_pos_bound (i / out_w p) (out_h p) ltac:(lia)).
  destruct (kernel_digits p Hp k) as (ci & kr & kc & Ek & Hci & Hkr & Hkc).
  - unfold k. split; [apply Z.div_pos; [apply Z.div_pos|]; lia|apply Z.div_lt_upper_bound; [lia|apply Z.div_lt_upper_bound; lia]].
  - exists ci, kr, kc, (i / out_w p mod out_h p), (i mod out_w p). split; [|done]. unfold index. rewrite <- Ek. unfold k. lia.
Qed.
Lemma tiles_unique i j q : 0 ≤ i < col_size p → 0 ≤ j < col_size p → cell p i = Some q → cell p j = Some q → i = j.
Proof.
  intros Hi Hj. destruct (digits i Hi) as (ci & kr & kc & h & w & -> & Hci & Hkr & Hkc & Hh & Hw). destruct (digits j Hj) as (ci' & kr' & kc' & h' & w' & -> & Hci' & Hkr' & Hkc' & Hh' & Hw').
  rewrite !tiles_cell by done. destruct tiles_out as [Eh Ew]. intros [= <-] [= E].
  assert (Hc : 0 ≤ w * kernel_w p + kc < width p) by nia. assert (Hc' : 0 ≤ w' * kernel_w p + kc' < width p) by nia.
  assert (Hr : 0 ≤ h * kernel_h p + kr < height p) by nia. assert (Hr' : 0 ≤ h' * kernel_h p + kr' < height p) by nia.
  destruct (div_mod_add (ci * height p + (h * kernel_h p + kr)) (width p) _ Hc) as [D1 M1]. destruct (div_mod_add (ci' * height p + (h' * kernel_h p + kr')) (width p) _ Hc') as [D2 M2].
  rewrite E in D2, M2. rewrite D1 in D2. rewrite M1 in M2.
  destruct (div_mod_add ci (height p) _ Hr) as [D3 M3]. destruct (div_mod_add ci' (height p) _ Hr') as [D4 M4]. rewrite <- D2 in D4, M4. rewrite D3 in D4. rewrite M3 in M4.
  destruct (div_mod_add h (kernel_h p) kr Hkr) as [D5 M5]. destruct (div_mod_add h' (kernel_h p) kr' Hkr') as [D6 M6]. rewrite <- M4, D5 in D6. rewrite <- M4, M5 in M6.
  destruct (div_mod_add w (kernel_w p) kc Hkc) as [D7 M7]. destruct (div_mod_add w' (kernel_w p) kc' Hkc') as [D8 M8]. rewrite <- M2, D7 in D8. rewrite <- M2, M7 in M8. by subst.
Qed.
Lemma tiles_covered q : 0 ≤ q < im_size p → ∃ i, 0 ≤ i < col_size p ∧ cell p i = Some q.
Proof.
  unfold im_size. intros Hq. destruct (wk_kernel _ Hp) as (Hkh & Hkw & _). destruct (wk_image _ Hp) as (HC & HH & HW). destruct tiles_out as [Eh Ew].
  set (c := q mod width p). set (r := q / width p mod height p). set (ci := q / width p / height p).
  pose proof (Z.mod_pos_bound q (width p) ltac:(lia)) as Hc. pose proof (Z.mod_pos_bound (q / width p) (height p) ltac:(lia)) as Hr. fold c in Hc. fold r in Hr.
  assert (Eq : q = (ci * height p + r) * width p + c).
  { pose proof (Z.div_mod q (width p) ltac:(lia)) as E1. pose proof (Z.div_mod (q / width p) (height p) ltac:(lia)) as E2. fold c in E1. fold r ci in E2. lia. }
  assert (Hci : 0 ≤ ci < channels p).
  { unfold ci. split; [apply Z.div_pos; [apply Z.div_pos|]; lia|apply Z.div_lt_upper_bound; [lia|apply Z.div_lt_upper_bound; lia]]. }
  clearbody c r ci. pose proof (Z.mod_pos_bound r (kernel_h p) ltac:(lia)). pose proof (Z.mod_pos_bound c (kernel_w p) ltac:(lia)).
  pose proof (Z.div_mod r (kernel_h p) ltac:(lia)). pose proof (Z.div_mod c (kernel_w p) ltac:(lia)).
  assert (0 ≤ r / kernel_h p < out_h p) by (split; [apply Z.div_pos; lia|apply Z.div_lt_upper_bound; lia]). assert (0 ≤ c / kernel_w p < out_w p) by (split; [apply Z.div_pos; lia|apply Z.div_lt_upper_bound; lia]).
  exists (index p ci (r mod kernel_h p) (c mod kernel_w p) (r / kernel_h p) (c / kernel_w p)). split; [by apply index_bound|].
  rewrite tiles_cell by done. f_equal. rewrite Eq. f_equal; [f_equal; f_equal|]; lia.
Qed.
End tiles.

(** A list in which one element alone is kept. *)
Lemma omap_single {X Y} (f : X → option Y) (l : list X) x y : NoDup l → x ∈ l → f x = Some y → (∀ z, z ∈ l → z ≠ x → f z = None) → omap f l = [y].
Proof.
  intros Hn Hx Hy Hz. apply list_elem_of_split in Hx as (l1 & l2 & ->). rewrite omap_app. cbn. rewrite Hy.
  assert (Hnil : ∀ l', (∀ z, z ∈ l' → f z = None) → omap f l' = []).
  { induction l' as [|z l' IH]; intros H; [done|]. cbn. rewrite H by apply list_elem_of_here. apply IH. intros z' Hz'. apply H. by apply list_elem_of_further. }
  apply NoDup_app in Hn as (_ & Hn1 & [Hn2 _]%NoDup_cons).
  rewrite !Hnil; [done|intros z Hz'; apply Hz; [set_solver|intros ->; done]|intros z Hz'; apply Hz; [set_solver|intros ->; by apply (Hn1 x Hz'), list_elem_of_here]].
Qed.

(** C17. Folding back what was unfolded gives the image when the windows tile it:
    [Col2im] after [Im2col] is the identity, whatever the two buffers held. *)
Theorem col2im_im2col {A} (zero : A) (add : A → A → A) (p : Window) (data_im data_col buffer : list A) :
  (∀ x, add zero x = x) → WindowOk p → tiles p →
  Z.of_nat (length data_im) = im_size p → Z.of_nat (length data_col) = col_size p → length buffer = length data_im →
  (cols ← Im2col zero p data_im data_col; Col2im zero add p cols buffer) = Ok data_im.
Proof.
  intros Hadd Hp Ht Him Hcol Hb. assert (Him' : channels p * (height p * width p) ≤ Z.of_nat (length data_im)) by (unfold im_size in Him; lia).
  destruct (im2col_filled p Hp zero data_im Him' data_col) as (cols & -> & Lc & Hc); [split; [done|lia]|]. cbn [mbind res_bind].
  destruct (col2im_added p Hp zero add cols Lc [] buffer) as (im1 & E & (im & -> & L & H)); [unfold im_size in Him; lia|]. rewrite !app_nil_r in E. rewrite E. f_equal.
  apply list_eq_same_length with (length data_im); [done|unfold im_size in Him; lia|]. intros i x y Hi Hx Hy.
  specialize (H (Z.of_nat i)). rewrite Nat2Z.id in H. fold (im_size p) in H. rewrite Hx in H. destruct (tiles_covered p Hp Ht (Z.of_nat i)) as (j & Hj & Ej); [lia|].
  injection (H ltac:(lia)) as ->. unfold sum_at. rewrite (omap_single _ _ j y).
  - cbn. apply Hadd.
  - apply NoDup_seqZ.
  - apply elem_of_seqZ. unfold col_size in Hj. lia.
  - unfold falls_on. rewrite decide_True by done. rewrite Hc by done. unfold column. by rewrite Ej, Nat2Z.id, Hy.
  - intros z Hz Hne. unfold falls_on. destruct (decide _) as [Ez|]; [|done]. destruct Hne. apply elem_of_seqZ in Hz. apply (tiles_unique p Hp Ht z j (Z.of_nat i)); [unfold col_size; lia|done|done|done].
Qed.

(** ** Two axes *)

(** The axes of an image, as [Conv] passes them for a kernel of another rank. *)
Definition axes_of (p : Window) : list Axis :=
  [mkAxis (height p) (out_h p) (kernel_h p) (stride_h p) (dilation_h p) (pad_t p); mkAxis (width p) (out_w p) (kernel_w p) (stride_w p) (dilation_w p) (pad_l p)].

Lemma pair_valid a b x y : valid_index [a; b] [x; y] ↔ 0 ≤ x < a ∧ 0 ≤ y < b.
Proof.
  rewrite valid_index_digits. split; [intros H; by inversion_clear H as [|? ? ? ? H1 H2]; inversion_clear H2|intros [H1 H2]; constructor; [done|]; by constructor].
Qed.
Lemma axes_of_ok p : WindowOk p → AxesOk (axes_of p).
Proof. intros Hp. destruct (out_pos p Hp) as (? & ? & _). destruct (wk_kernel _ Hp) as (? & ? & _). split; constructor; try done; by constructor. Qed.
Lemma nd_cell_two p i : WindowOk p → 0 ≤ i < col_size p → nd_cell (axes_of p) i = cell p i.
Proof.
  intros Hp Hi. destruct (digits p Hp i Hi) as (ci & kr & kc & h & w & -> & Hci & Hkr & Hkc & Hh & Hw). rewrite cell_index by done.
  replace (index p ci kr kc h w) with (nd_index (axes_of p) ci [h; w] [kr; kc]) by (unfold nd_index, index; cbn; ring).
  rewrite nd_cell_index by (by apply pair_valid). unfold nd_place, cell_at, d_im, in_image, inside. cbn -[Z.leb Z.ltb Z.mul Z.add]. unfold image_row, image_col.
  rewrite andb_true_r, !andb_assoc. destruct (_ && _); [|done]. f_equal. unfold flat. cbn. ring.
Qed.
Lemma column_ext {A} (zero : A) place place' im i : place i = place' i → column zero place im i = column zero place' im i.
Proof. unfold column. by intros ->. Qed.
Lemma filled_eq {A} (g g' : Z → A) total l l' : filled g total total l → filled g' total total l' → (∀ i, 0 ≤ i < total → g i = g' i) → l = l'.
Proof.
  intros [L H] [L' H'] E. apply list_eq_same_length with (length l'); [done|lia|]. intros i x y Hi Hx Hy.
  specialize (H (Z.of_nat i) ltac:(lia)). specialize (H' (Z.of_nat i) ltac:(lia)). rewrite Nat2Z.id in H, H'. specialize (E (Z.of_nat i) ltac:(lia)). congruence.
Qed.
Lemma sum_at_ext {A} (zero : A) add place place' l q n : (∀ i, 0 ≤ i < n → place i = place' i) → sum_at zero add place l q n = sum_at zero add place' l q n.
Proof.
  intros E. unfold sum_at. f_equal. apply list_omap_ext, Forall2_same_length_lookup_2; [done|]. intros i x y Hx Hy. rewrite Hx in Hy. injection Hy as <-.
  apply list_elem_of_lookup_2, elem_of_seqZ in Hx. unfold falls_on. by rewrite E by lia.
Qed.

(** C18. With the axes of an image, the functions for any number of axes compute
    what those for images compute, on all of their paths. *)
Theorem two_axes_agree {A} (zero : A) (add : A → A → A) (p : Window) (data_im data_col : list A) :
  WindowOk p → Z.of_nat (length data_im) = im_size p → Z.of_nat (length data_col) = col_size p →
  Im2colNd add (axes_of p) data_im false zero (channels p * kernel_h p * kernel_w p) data_col = Im2col zero p data_im data_col ∧
  Col2imNd zero add (axes_of p) (channels p * kernel_h p * kernel_w p) (im_size p) data_col data_im = Col2im zero add p data_col data_im.
Proof.
  intros Hp Him Hcol. destruct (wk_image _ Hp) as (HC & Hh & Hw). pose proof (axes_of_ok p Hp) as Hok. assert (Hs : 0 ≤ im_size p) by (unfold im_size; nia).
  assert (Ek : channels p * kernel_h p * kernel_w p = channels p * prodZ (ax_kernel <$> axes_of p)) by (cbn; ring). assert (Ei : im_size p = channels p * prodZ (ax_im <$> axes_of p)) by (unfold im_size; cbn; ring).
  assert (Ec : col_size p = channels p * prodZ (ax_kernel <$> axes_of p) * prodZ (ax_col <$> axes_of p)) by (unfold col_size; cbn; ring). rewrite Ek. split.
  - destruct (im2colnd_filled (axes_of p) Hok (channels p) ltac:(lia) add zero data_im data_col) as (c1 & -> & F1); [lia|split; [lia|lia]|]. rewrite <- Ec in F1.
    destruct (im2col_filled p Hp zero data_im ltac:(unfold im_size in Him; lia) data_col) as (c2 & -> & F2); [split; [done|lia]|]. fold (col_size p) in F2. f_equal.
    apply (filled_eq _ _ _ _ _ F1 F2). intros i Hi. by apply column_ext, nd_cell_two.
  - rewrite Ei. destruct (col2imnd_added (axes_of p) Hok (channels p) ltac:(lia) zero add [] data_col data_im) as (i1 & E1 & (j1 & -> & A1)); [lia|lia|lia|]. rewrite !app_nil_r in E1. rewrite E1.
    destruct (col2im_added p Hp zero add data_col Hcol [] data_im Him) as (i2 & E2 & (j2 & -> & A2)). rewrite !app_nil_r in E2. rewrite E2. fold (col_size p) (im_size p) in A2. rewrite <- Ei, <- Ec in A1. f_equal.
    apply (filled_eq _ (fun q => sum_at zero add (cell p) data_col q (col_size p)) (im_size p) _ _ A1 A2). intros q Hq. apply sum_at_ext. intros i Hi. by apply nd_cell_two.
Qed.

(** Unfolding along any number of axes writes every element of the columns:
    the element of the image at the indices that stride, dilation and padding
    give, and the padding value where one of them lies outside. *)
Theorem im2colnd_correct {A} (add : A → A → A) (padding_value : A) (axes : list Axis) (C : Z) (data_im data_col : list A) :
  AxesOk axes → 0 ≤ C → Z.of_nat (length data_im) = C * prodZ (ax_im <$> axes) → Z.of_nat (length data_col) = C * prodZ (ax_kernel <$> axes) * prodZ (ax_col <$> axes) →
  ∃ cols, Im2colNd add axes data_im false padding_value (C * prodZ (ax_kernel <$> axes)) data_col = Ok cols ∧ length cols = length data_col ∧
    ∀ ci d o, 0 ≤ ci < C → valid_index (ax_col <$> axes) d → valid_index (ax_kernel <$> axes) o →
      cols !! Z.to_nat ((ci * prodZ (ax_kernel <$> axes) + flat (ax_kernel <$> axes) o) * prodZ (ax_col <$> axes) + flat (ax_col <$> axes) d) =
        if in_image axes (d_im axes d o) then data_im !! Z.to_nat (ci * prodZ (ax_im <$> axes) + flat (ax_im <$> axes) (d_im axes d o)) else Some padding_value.
Proof.
  intros Hok HC Him Hcol. destruct (im2colnd_filled axes Hok C HC add padding_value data_im data_col) as (cols & -> & L & H); [lia|split; [done|lia]|].
  exists cols. split; [done|]. split; [lia|]. intros ci d o Hci Hd Ho. fold (nd_index axes ci d o). rewrite H by (by apply nd_index_bound). pose proof (nd_cell_index axes ci d o Hd Ho) as Hc.
  pose proof (nd_place_bound axes C ci d o) as Hb. rewrite (proj1 Hd), (proj1 Ho), !length_fmap in Hb. unfold nd_place in Hc, Hb. destruct (in_image _ _).
  - symmetry. eapply column_some; [rewrite Him; done|exact Hc|by apply Hb].
  - f_equal. by apply column_none.
Qed.

(** ** Examples *)

Module SmallWindow.
(** A kernel of 2 x 2 over an image of 2 x 3, padded below and on the right. *)
Definition p : Window := mkWindow 1 2 3 2 2 1 1 0 0 1 1 1 1.
Lemma p_ok : WindowOk p.
Proof. split; vm_compute; intuition discriminate. Qed.
(** Two tiles of 2 x 2. *)
Definition t : Window := mkWindow 1 2 4 2 2 1 1 0 0 0 0 2 2.
Lemma t_ok : WindowOk t.
Proof. split; vm_compute; intuition discriminate. Qed.
End SmallWindow.
Lemma im2col_correct_witness :
  ∃ cols, Im2col 0 SmallWindow.p [1; 2; 3; 4; 5; 6] (replicate 24 9) = Ok cols ∧ cols !! Z.to_nat (index SmallWindow.p 0 1 1 0 1) = Some 6.
Proof.
  destruct (im2col_correct 0 SmallWindow.p [1; 2; 3; 4; 5; 6] (replicate 24 9) SmallWindow.p_ok eq_refl eq_refl) as (cols & E & _ & H).
  exists cols. split; [exact E|]. apply (H 0 1 1 0 1); vm_compute; intuition discriminate.
Defined.
Lemma col2im_correct_witness : ∃ im, Col2im 0 Z.add SmallWindow.p (seqZ 1 24) [0; 0; 0; 0; 0; 0] = Ok im ∧ im !! Z.to_nat 0 = Some 1.
Proof.
  destruct (col2im_correct 0 Z.add SmallWindow.p (seqZ 1 24) [0; 0; 0; 0; 0; 0] SmallWindow.p_ok eq_refl eq_refl) as (im & E & _ & H).
  exists im. split; [exact E|]. rewrite (H 0); [reflexivity|vm_compute; intuition discriminate].
Defined.
Lemma col2im_im2col_witness : (cols ← Im2col 0 SmallWindow.t (seqZ 1 8) (replicate 8 9); Col2im 0 Z.add SmallWindow.t cols (replicate 8 7)) = Ok (seqZ 1 8).
Proof. apply (col2im_im2col 0 Z.add SmallWindow.t (seqZ 1 8) (replicate 8 9) (replicate 8 7)); [done|exact SmallWindow.t_ok|by vm_compute|reflexivity|reflexivity|reflexivity]. Defined.
Lemma two_axes_agree_witness :
  Im2colNd Z.add (axes_of SmallWindow.p) [1; 2; 3; 4; 5; 6] false 0 4 (replicate 24 9) = Im2col 0 SmallWindow.p [1; 2; 3; 4; 5; 6] (replicate 24 9).
Proof. exact (proj1 (two_axes_agree 0 Z.add SmallWindow.p [1; 2; 3; 4; 5; 6] (replicate 24 9) SmallWindow.p_ok eq_refl eq_refl)). Defined.
(** One axis: a signal of 4 elements, a kernel of 3, padded with -1. *)
Lemma im2colnd_correct_witness :
  ∃ cols, Im2colNd Z.add [mkAxis 4 4 3 1 1 1] [5; 6; 7; 8] false (-1) 3 (replicate 12 0) = Ok cols ∧ cols !! Z.to_nat 0 = Some (-1) ∧ cols !! Z.to_nat 4 = Some 5.
Proof.
  destruct (im2colnd_correct Z.add (-1) [mkAxis 4 4 3 1 1 1] 1 [5; 6; 7; 8] (replicate 12 0)) as (cols & E & _ & H);
    [split; constructor; try done; by vm_compute|done|reflexivity|reflexivity|].
  assert (Hv : ∀ d i, 0 ≤ i < d → valid_index [d] [i]) by (intros d i Hi; apply valid_index_digits; by constructor).
  exists cols. split; [exact E|]. split; [apply (H 0 [0] [0])|apply (H 0 [0] [1])]; try lia; apply Hv; vm_compute; intuition discriminate.
Defined.
