(* ===== verification/Im2colNhwc.v ===== *)
(** [Im2col] and [Col2im] in the storage order NHWC. *)
From S2P Require Import Prelude TensorShape Transpose TransposeProps DataMoveRows Im2col Im2colProps.

Section nhwc.
Context (p : Window) (Hp : WindowOk p).
Abbreviation oh := (out_h p).
Abbreviation ow := (out_w p).
Abbreviation kh := (kernel_h p).
Abbreviation kw := (kernel_w p).
Abbreviation C := (channels p).
Abbreviation total := (oh * ow * kh * kw * C).
Abbreviation size := (height p * width p * C).

(** The columns hold the windows one after the other, each with its cells, each
    with its channels. *)
Definition hwc_index (h w kr kc : Z) : Z := (((h * ow + w) * kh + kr) * kw + kc) * C.
Definition hwc_place (h w kr kc ci : Z) : option Z :=
  if inside p (image_row p kr h) (image_col p kc w) then Some ((image_row p kr h * width p + image_col p kc w) * C + ci) else None.
Definition hwc_cell (i : Z) : option Z :=
  let k := i / C in hwc_place (k / kw / kh / ow) (k / kw / kh mod ow) (k / kw mod kh) (k mod kw) (i mod C).

Lemma hwc_cell_index h w kr kc ci : 0 ≤ w < ow → 0 ≤ kr < kh → 0 ≤ kc < kw → 0 ≤ ci < C → hwc_cell (hwc_index h w kr kc + ci) = hwc_place h w kr kc ci.
Proof.
  intros Hw Hr Hc Hci. unfold hwc_cell, hwc_index. destruct (div_mod_add (((h * ow + w) * kh + kr) * kw + kc) C ci Hci) as [-> ->].
  destruct (div_mod_add ((h * ow + w) * kh + kr) kw kc Hc) as [-> ->]. destruct (div_mod_add (h * ow + w) kh kr Hr) as [-> ->]. by destruct (div_mod_add h ow w Hw) as [-> ->].
Qed.
Lemma hwc_place_bound h w kr kc ci q : 0 ≤ ci < C → hwc_place h w kr kc ci = Some q → 0 ≤ q < size.
Proof.
  intros Hci. unfold hwc_place, inside. set (r := image_row p kr h). set (c := image_col p kc w). destruct (_ && _) eqn:E; [|done]. intros [= <-].
  rewrite !andb_true_iff, !Z.leb_le, !Z.ltb_lt in E. destruct E as [[[E1 E2] E3] E4]. assert (0 ≤ r * width p + c < height p * width p) by nia. set (x := r * width p + c) in *. nia.
Qed.
Lemma hwc_index_bound h w kr kc : 0 ≤ h < oh → 0 ≤ w < ow → 0 ≤ kr < kh → 0 ≤ kc < kw → 0 ≤ hwc_index h w kr kc ∧ hwc_index h w kr kc + C ≤ total.
Proof.
  intros. unfold hwc_index. assert (0 ≤ h * ow + w < oh * ow) by nia. set (a := h * ow + w) in *. assert (0 ≤ a * kh + kr < oh * ow * kh) by nia. set (b := a * kh + kr) in *.
  assert (0 ≤ b * kw + kc < oh * ow * kh * kw) by nia. set (d := b * kw + kc) in *. clearbody d. destruct (wk_image _ Hp) as (HC & _). split; [nia|].
  assert ((d + 1) * C ≤ oh * ow * kh * kw * C) by (apply Z.mul_le_mono_nonneg_r; lia). lia.
Qed.

(** The four loops. *)
Lemma hwc_inv {S} (I : Z → S → Prop) (f : Z → Z → S → res S) s :
  I 0 s →
  (∀ h w kr kc s, 0 ≤ h < oh → 0 ≤ w < ow → 0 ≤ kr < kh → 0 ≤ kc < kw → I (hwc_index h w kr kc) s →
     ∃ s', f (image_row p kr h) (image_col p kc w) s = Ok s' ∧ I (hwc_index h w kr kc + C) s') →
  ∃ s', for_lt oh (fun s h => for_lt ow (fun s w =>
      let h_pad := - pad_t p + h * stride_h p in
      let w_pad := - pad_l p + w * stride_w p in
      for_step h_pad (h_pad + dkernel_h p) (dilation_h p) (fun s ih => for_step w_pad (w_pad + dkernel_w p) (dilation_w p) (fun s iw => f ih iw s) s) s) s) s = Ok s' ∧ I total s'.
Proof.
  intros H0 Hf. destruct (out_pos p Hp) as (Ho & How & _ & _). destruct (wk_kernel _ Hp) as (Hkh & Hkw & Hdh & Hdw & _).
  replace total with (hwc_index oh 0 0 0) by (unfold hwc_index; ring). cbv zeta.
  apply (for_lt_inv (fun h => I (hwc_index h 0 0 0))); [lia|done|]. intros h s1 Hh H1. replace (hwc_index (h + 1) 0 0 0) with (hwc_index h ow 0 0) by (unfold hwc_index; ring).
  apply (for_lt_inv (fun w => I (hwc_index h w 0 0))); [lia|done|]. intros w s2 Hw H2. replace (hwc_index h (w + 1) 0 0) with (hwc_index h w kh 0) by (unfold hwc_index; ring). unfold dkernel_h.
  apply (for_step_inv (fun kr => I (hwc_index h w kr 0))); [lia|lia|done|]. intros kr s3 Hkr H3. replace (hwc_index h w (kr + 1) 0) with (hwc_index h w kr kw) by (unfold hwc_index; ring). unfold dkernel_w.
  apply (for_step_inv (fun kc => I (hwc_index h w kr kc))); [lia|lia|done|]. intros kc s4 Hkc H4. replace (hwc_index h w kr (kc + 1)) with (hwc_index h w kr kc + C) by (unfold hwc_index; ring).
  replace (- pad_t p + h * stride_h p + kr * dilation_h p) with (image_row p kr h) by (unfold image_row; ring).
  replace (- pad_l p + w * stride_w p + kc * dilation_w p) with (image_col p kc w) by (unfold image_col; ring). by apply Hf.
Qed.

Section elements.
Context {A : Type} (zero : A) (add : A → A → A).

Lemma im2col_nhwc_filled data_im data_col :
  size ≤ Z.of_nat (length data_im) → Z.of_nat (length data_col) = total →
  ∃ cols, Im2col_NHWC zero p data_im data_col = Ok cols ∧ filled (column zero hwc_cell data_im) total total cols.
Proof.
  intros Him Hcol. unfold Im2col_NHWC. rewrite height_col_ok, width_col_ok by done. cbn [mbind res_bind].
  destruct (hwc_inv (fun n s => fst s = n ∧ filled (column zero hwc_cell data_im) total n (snd s))
    (fun ih iw '(pos, data_col) =>
       data_col ← (if (0 <=? ih) && (ih <? height p) && (0 <=? iw) && (iw <? width p)
                   then memcpy data_col pos data_im ((ih * width p + iw) * C) C else memset data_col pos zero C);
       Ok (pos + C, data_col)) (0, data_col)) as ([pos cols] & E & _ & H).
  - split; [done|]. split; [done|cbn; lia].
  - intros h w kr kc [pos col] Hh Hw Hkr Hkc [Epos Hcol1]. cbn [fst snd] in *. subst pos. destruct (hwc_index_bound h w kr kc Hh Hw Hkr Hkc) as [B1 B2]. destruct (wk_image _ Hp) as (HC & _).
    fold (inside p (image_row p kr h) (image_col p kc w)).
    assert (Hc : ∀ e, 0 ≤ e < C → hwc_cell (hwc_index h w kr kc + e) = hwc_place h w kr kc e) by (intros e He; by apply hwc_cell_index).
    pose proof (fun e q => hwc_place_bound h w kr kc e q) as Hb. unfold hwc_place in Hc, Hb. destruct (inside _ _ _).
    + pose proof (Hb 0 _ ltac:(lia) eq_refl) as Hb0. pose proof (Hb (C - 1) _ ltac:(lia) eq_refl) as Hb1.
      destruct (memcpy_filled (column zero hwc_cell data_im) total (hwc_index h w kr kc) C col data_im ((image_row p kr h * width p + image_col p kc w) * C)) as (col' & -> & H'); [lia|lia|lia|lia|lia| |done|].
      * intros e He. apply (column_some zero hwc_cell size data_im Him); [by apply Hc|by apply (Hb e)].
      * cbn [mbind res_bind]. by eexists.
    + destruct (memset_filled (column zero hwc_cell data_im) total (hwc_index h w kr kc) C col zero) as (col' & -> & H'); [lia|lia|lia| |done|].
      * intros e He. apply column_none. by apply Hc.
      * cbn [mbind res_bind]. by eexists.
  - exists cols. split; [|done]. cbv zeta in E |- *. by rewrite E.
Qed.

Lemma Add_in_place_added data_col n im q :
  C < 2 ^ 31 → Z.of_nat (length data_col) = total → 0 ≤ n → n + C ≤ total →
  (∀ e, 0 ≤ e < C → hwc_cell (n + e) = Some (q + e)) → (∀ e, 0 ≤ e < C → 0 ≤ q + e < size) → added zero add hwc_cell size data_col [] n im →
  ∃ im', Add_in_place add C im q data_col n = Ok im' ∧ added zero add hwc_cell size data_col [] (n + C) im'.
Proof.
  intros HC31 Hcol Hn HnC Hc Hq H0. destruct (wk_image _ Hp) as (HC & _). unfold Add_in_place. rewrite i32_small by lia.
  apply (for_lt_inv (fun e => added zero add hwc_cell size data_col [] (n + e))); [lia|by rewrite Z.add_0_r|]. intros e im1 He H1.
  pose proof (added_step zero add hwc_cell size total data_col Hcol [] (n + e) im1 ltac:(lia)) as Hs. rewrite Hc in Hs by done. rewrite Z.add_assoc.
  apply Hs; [|done]. intros q' [= <-]. by apply Hq.
Qed.
Lemma col2im_nhwc_added data_col data_im :
  C < 2 ^ 31 → Z.of_nat (length data_im) = size → Z.of_nat (length data_col) = total →
  ∃ im, Col2im_NHWC zero add p data_col data_im = Ok im ∧ added zero add hwc_cell size data_col [] total im.
Proof.
  intros HC31 Him Hcol. unfold Col2im_NHWC. rewrite height_col_ok, width_col_ok by done. destruct (wk_image _ Hp) as (HC & HH & HW). rewrite <- (app_nil_r data_im).
  destruct (added_clear zero add hwc_cell size data_col [] data_im) as (im0 & -> & H0); [nia|done|]. cbn [mbind res_bind].
  destruct (hwc_inv (fun n s => fst s = n ∧ added zero add hwc_cell size data_col [] n (snd s))
    (fun ih iw '(pos, data_im) =>
       data_im ← (if (0 <=? ih) && (ih <? height p) && (0 <=? iw) && (iw <? width p)
                  then Add_in_place add C data_im ((ih * width p + iw) * C) data_col pos else Ok data_im);
       Ok (pos + C, data_im)) (0, im0)) as ([pos im] & E & _ & H); [done| |exists im; split; [cbv zeta in E |- *; by rewrite E|done]].
  intros h w kr kc [pos im] Hh Hw Hkr Hkc [Epos Him1]. cbn [fst snd] in *. subst pos. destruct (hwc_index_bound h w kr kc Hh Hw Hkr Hkc) as [B1 B2].
  fold (inside p (image_row p kr h) (image_col p kc w)).
  assert (Hc : ∀ e, 0 ≤ e < C → hwc_cell (hwc_index h w kr kc + e) = hwc_place h w kr kc e) by (intros e He; by apply hwc_cell_index).
  pose proof (fun e q => hwc_place_bound h w kr kc e q) as Hb. unfold hwc_place in Hc, Hb. destruct (inside _ _ _).
  - destruct (Add_in_place_added data_col (hwc_index h w kr kc) im ((image_row p kr h * width p + image_col p kc w) * C)) as (im' & -> & H'); [done|done|lia|lia|done|intros e He; by apply (Hb e)|done|].
    cbn [mbind res_bind]. by eexists.
  - cbn [mbind res_bind]. eexists. split; [done|]. cbn [fst snd]. split; [done|].
    destruct (for_lt_inv (fun e im1 => im1 = im ∧ added zero add hwc_cell size data_col [] (hwc_index h w kr kc + e) im1) C (fun im _ => Ok im) im) as (im1 & _ & -> & H1); [lia|by rewrite Z.add_0_r| |done].
    intros e im1 He [-> H1]. exists im. split; [done|]. split; [done|]. pose proof (added_step zero add hwc_cell size total data_col Hcol [] (hwc_index h w kr kc + e) im ltac:(lia)) as Hs.
    rewrite Hc in Hs by done. destruct Hs as (im' & [= ->] & H'); [done|done|]. by rewrite Z.add_assoc.
Qed.
End elements.
End nhwc.

(** An image in the one order and the same image in the other. *)
Definition same_image {A} (p : Window) (chw hwc : list A) : Prop :=
  ∀ ci r c, 0 ≤ ci < channels p → 0 ≤ r < height p → 0 ≤ c < width p →
    chw !! Z.to_nat ((ci * height p + r) * width p + c) = hwc !! Z.to_nat ((r * width p + c) * channels p + ci).

(** The two storage orders give the same columns of the same image, each in its
    own order. *)
Theorem storage_orders_agree {A} (zero : A) (p : Window) (chw hwc col col' : list A) :
  WindowOk p → let size := height p * width p * channels p in let total := channels p * kernel_h p * kernel_w p * (out_h p * out_w p) in
  Z.of_nat (length chw) = size → Z.of_nat (length hwc) = size → Z.of_nat (length col) = total → Z.of_nat (length col') = total → same_image p chw hwc →
  ∃ c c', Im2col zero p chw col = Ok c ∧ Im2col_NHWC zero p hwc col' = Ok c' ∧
    ∀ ci kr kc h w, 0 ≤ ci < channels p → 0 ≤ kr < kernel_h p → 0 ≤ kc < kernel_w p → 0 ≤ h < out_h p → 0 ≤ w < out_w p →
      c !! Z.to_nat (index p ci kr kc h w) = c' !! Z.to_nat (hwc_index p h w kr kc + ci).
Proof.
  intros Hp size total L1 L2 L3 L4 Hs. assert (L1' : channels p * (height p * width p) ≤ Z.of_nat (length chw)) by (unfold size in L1; lia).
  destruct (im2col_filled p Hp zero chw L1' col) as (c & -> & _ & H); [split; [done|lia]|].
  destruct (im2col_nhwc_filled p Hp zero hwc col') as (c' & -> & _ & H'); [unfold size in L2; lia|unfold total in L4; lia|]. exists c, c'. split; [done|]. split; [done|].
  intros ci kr kc h w Hci Hkr Hkc Hh Hw. rewrite H by (by apply index_bound). pose proof (hwc_index_bound p Hp h w kr kc Hh Hw Hkr Hkc). rewrite H' by lia. f_equal.
  unfold column. rewrite cell_index, hwc_cell_index by done. unfold cell_at, hwc_place. destruct (inside _ _ _) eqn:E; [|done].
  unfold inside in E. rewrite !andb_true_iff, !Z.leb_le, !Z.ltb_lt in E. f_equal. apply Hs; lia.
Qed.
