(* ===== verification/Conv.v ===== *)
(** The convolution kernels that unfold their input: the shapes of
    [conv_base.h], the generic [Conv] of [conv_impl.h], [ConvInteger] and
    [ConvTranspose]. The matrix products (of Eigen, mlas or gemmlowp) are
    parameters: functions of the sizes and the two matrices that give the elements
    of the product. Tensors are dimensions and elements as in [DataMove]; the
    element type is any type with a zero and an addition. *)
From S2P Require Import Prelude TensorShape Transpose DataMove Im2col.

(** Arithmetic in [int64_t]. *)
Definition fits_int64 (z : Z) : bool := (- 2 ^ 63 <=? z) && (z <? 2 ^ 63).
Definition int64_op (z : Z) : res Z := if fits_int64 z then Ok z else Throw UndefinedBehaviour.
Definition int64_div (a b : Z) : res Z := if b =? 0 then Throw UndefinedBehaviour else int64_op (Z.quot a b).
(** [operator[]] of a vector. *)
Definition elem (l : list Z) (i : nat) : res Z := of_option UndefinedBehaviour (l !! i).

(** ** [float] *)

(** The integer nearest to [a / b], the even one of two. *)
Definition nearest (a b : Z) : Z :=
  let q := a / b in let r := a mod b in
  if 2 * r <? b then q else if b <? 2 * r then q + 1 else if Z.even q then q else q + 1.
(** The [float] nearest to [a / b], as a numerator and a denominator. Its
    mantissa has 24 bits, so that its last one has the weight [2 ^ e] for the [e]
    with [2 ^ (e + 23) <= a / b < 2 ^ (e + 24)]. The numbers that occur are 0 or
    between [2 ^ -64] and [2 ^ 64], far from the bounds of the format. *)
Definition float_exponent (a b : Z) : Z := Z.log2 (a * 2 ^ 64 / b) - (64 + 23).
Definition float_pos (a b : Z) : Z * Z :=
  let e := float_exponent a b in
  if 0 <=? e then (nearest a (b * 2 ^ e) * 2 ^ e, 1) else (nearest (a * 2 ^ (- e)) b, 2 ^ (- e)).
Definition float_of (a b : Z) : Z * Z :=
  if a =? 0 then (0, 1)
  else let '(n, d) := float_pos (Z.abs a) (Z.abs b) in (Z.sgn a * Z.sgn b * n, d).
(** [static_cast<int64_t>(static_cast<float>(n) / stride + 1)]. *)
Definition float_div_plus_1 (n stride : Z) : res Z :=
  if stride =? 0 then Throw UndefinedBehaviour
  else
    let '(xn, xd) := float_of n 1 in
    let '(sn, sd) := float_of stride 1 in
    let '(qn, qd) := float_of (xn * sd) (xd * sn) in
    let '(yn, yd) := float_of (qn + qd) qd in
    int64_op (Z.quot yn yd).

(** ** Shapes *)

Inductive AutoPadType := NOTSET | VALID | SAME_UPPER | SAME_LOWER.
Definition StringToAutoPadType (str : string) : res AutoPadType :=
  if bool_decide (str = ""%string) then Ok NOTSET
  else if bool_decide (str = "NOTSET"%string) then Ok NOTSET
  else if bool_decide (str = "VALID"%string) then Ok VALID
  else if bool_decide (str = "SAME_UPPER"%string) then Ok SAME_UPPER
  else if bool_decide (str = "SAME_LOWER"%string) then Ok SAME_LOWER
  else Throw EnforceFailed.
Definition roundUpPow2_2 (a : Z) : Z := Z.land (a + (2 - 1)) (Z.lnot (2 - 1)).
(** The padding before and after, and the size of the output; the type of the
    padding is one of the four. *)
Definition ComputePadAndOutputShape (ForceSymmetricAutoPadding : bool) (in_dim stride kernel dilation : Z) (pad_type : AutoPadType) (pad_head pad_tail : Z) : res (Z * Z * Z) :=
  dkernel ← int64_op (dilation * (kernel - 1) + 1);
  match pad_type with
  | NOTSET =>
      n ← int64_op (in_dim + pad_head + pad_tail - dkernel);
      out_dim ← float_div_plus_1 n stride;
      Ok (pad_head, pad_tail, out_dim)
  | VALID =>
      q ← int64_div (in_dim - dkernel) stride;
      out_dim ← int64_op (q + 1);
      Ok (0, 0, out_dim)
  | SAME_UPPER | SAME_LOWER =>
      _ ← enforce (dilation =? 1);
      legacy_target_size ← int64_div (in_dim + stride - 1) stride;
      pad_needed ← int64_op ((legacy_target_size - 1) * stride + kernel - in_dim);
      q ← int64_div (in_dim + pad_needed - dkernel) stride;
      out_dim ← int64_op (q + 1);
      let pad_needed := if ForceSymmetricAutoPadding then roundUpPow2_2 pad_needed else pad_needed in
      let pad_head := match pad_type with SAME_LOWER => Z.quot (pad_needed + 1) 2 | _ => Z.quot pad_needed 2 end in
      Ok (pad_head, pad_needed - pad_head, out_dim)
  end.

Record ConvBase := mkConvBase {
  auto_pad_ : AutoPadType;
  group_ : Z;
  kernel_shape_specified_ : bool;
  strides_ : list Z;
  pads_ : list Z;
  dilations_ : list Z;
  kernel_shape_ : list Z;
}.
(** The constructor; an attribute that is not there is [None]. *)
Definition new_ConvBase (auto_pad : option string) (kernel_shape strides pads dilations : option (list Z)) (group : option Z) : res ConvBase :=
  auto_pad_ ← match auto_pad with Some s => StringToAutoPadType s | None => Ok NOTSET end;
  let kernel_shape_ := default [] kernel_shape in
  let rank := length kernel_shape_ in
  Ok (mkConvBase auto_pad_ (default 1 group) (bool_decide (is_Some kernel_shape))
        (default (replicate rank 1) strides) (default (replicate (rank * 2) 0) pads) (default (replicate rank 1) dilations) kernel_shape_).
Definition ComputeKernelShape (c : ConvBase) (weight_shape : TensorShape) : res (Status * list Z) :=
  if kernel_shape_specified_ c then
    let kernel_shape := kernel_shape_ c in
    if negb (length kernel_shape + 2 =? length weight_shape)%nat then Ok (Some FAIL, kernel_shape)
    else if bool_decide (kernel_shape = drop 2 weight_shape) then Ok (StatusOK, kernel_shape) else Ok (Some FAIL, kernel_shape)
  else if (length weight_shape <? 2)%nat then Throw UndefinedBehaviour else Ok (StatusOK, drop 2 weight_shape).
Definition ValidateInputShape (c : ConvBase) (X W : TensorShape) : res Status :=
  C ← elem X 1;
  M ← elem W 0;
  if negb (length X =? length W)%nat then Ok (Some FAIL)
  else
    w1 ← elem W 1;
    wc ← int64_op (w1 * group_ c);
    if negb (C =? wc) then Ok (Some FAIL)
    else if group_ c =? 0 then Throw UndefinedBehaviour
    else if negb (Z.rem M (group_ c) =? 0) then Ok (Some FAIL)
    else Ok StatusOK.
(** One dimension; the padding is changed in place, the sizes are appended. *)
Definition infer_dim (c : ConvBase) (force : bool) (input_shape kernel_shape strides dilations : list Z) (acc : Status * list Z * list Z) (dim : nat) : res (Status * list Z * list Z) :=
  let '(s, pads, output_shape) := acc in
  let rank := length input_shape in
  if negb (IsOK s) then Ok acc
  else if (length strides <=? dim)%nat || (length kernel_shape <=? dim)%nat || (length dilations <=? dim)%nat || (length pads <=? dim)%nat || (length pads <=? rank + dim)%nat
  then Ok (Some FAIL, pads, output_shape)
  else
    in_dim ← elem input_shape dim;
    stride ← elem strides dim;
    kernel ← elem kernel_shape dim;
    dilation ← elem dilations dim;
    head ← elem pads dim;
    tail ← elem pads (rank + dim);
    '(head, tail, dim_size) ← ComputePadAndOutputShape force in_dim stride kernel dilation (auto_pad_ c) head tail;
    let pads := <[(rank + dim)%nat := tail]> (<[dim := head]> pads) in
    if dim_size <=? 0 then Ok (Some INVALID_ARGUMENT, pads, output_shape)
    else Ok (StatusOK, pads, output_shape ++ [dim_size]).
Definition InferOutputShape (c : ConvBase) (force : bool) (input_shape kernel_shape strides dilations pads output_shape : list Z) : res (Status * list Z * list Z) :=
  foldM (infer_dim c force input_shape kernel_shape strides dilations) (StatusOK, pads, output_shape) (seq 0 (length input_shape)).

(** What the kernels compute before they allocate. *)
Record Geometry := mkGeometry {
  gm_N : Z; gm_C : Z; gm_M : Z;
  gm_kernel : list Z; gm_pads : list Z; gm_dilations : list Z; gm_strides : list Z;
  gm_input : list Z;
  gm_Y_dims : list Z;
}.
Definition conv_geometry (c : ConvBase) (X W : TensorShape) : res (Status * option Geometry) :=
  N ← elem X 0;
  C ← elem X 1;
  M ← elem W 0;
  s ← ValidateInputShape c X W;
  if negb (IsOK s) then Ok (s, None)
  else
    '(s, kernel_shape) ← ComputeKernelShape c W;
    if negb (IsOK s) then Ok (s, None)
    else
      let rank := length kernel_shape in
      let pads := if bool_decide (pads_ c = []) then replicate (rank * 2) 0 else pads_ c in
      let dilations := if bool_decide (dilations_ c = []) then replicate rank 1 else dilations_ c in
      let strides := if bool_decide (strides_ c = []) then replicate rank 1 else strides_ c in
      input_shape ← Slice X 2 (length X);
      '(s, pads, Y_dims) ← InferOutputShape c false input_shape kernel_shape strides dilations pads [N; M];
      if negb (IsOK s) then Ok (s, None)
      else Ok (StatusOK, Some (mkGeometry N C M kernel_shape pads dilations strides input_shape Y_dims)).

(** The sizes of the loops. *)
Record Offsets := mkOffsets {
  output_image_size : Z; X_offset : Z; Y_offset : Z; W_offset : Z; kernel_dim : Z; col_buffer_size : Z;
}.
Definition conv_offsets (c : ConvBase) (g : Geometry) (W : TensorShape) : res Offsets :=
  let input_image_size := Size (gm_input g) in
  let output_image_size := Size (drop 2 (gm_Y_dims g)) in
  let kernel_size := Size (gm_kernel g) in
  c_group ← int64_div (gm_C g) (group_ c);
  X_offset ← int64_op (c_group * input_image_size);
  y_image ← int64_div (Size (gm_Y_dims g)) (gm_N g);
  Y_offset ← int64_div y_image (group_ c);
  W_offset ← int64_div (Size W) (group_ c);
  kernel_dim ← int64_op (c_group * kernel_size);
  col_buffer_size ← int64_op (kernel_dim * output_image_size);
  Ok (mkOffsets output_image_size X_offset Y_offset W_offset kernel_dim col_buffer_size).
(** The axes that [Im2colNd] is given. *)
Definition conv_axis (g : Geometry) (i : nat) : option Axis :=
  im ← gm_input g !! i;
  col ← drop 2 (gm_Y_dims g) !! i;
  kernel ← gm_kernel g !! i;
  stride ← gm_strides g !! i;
  dilation ← gm_dilations g !! i;
  pad ← gm_pads g !! i;
  Some (mkAxis im col kernel stride dilation pad).
Definition conv_axes (g : Geometry) : res (list Axis) := of_option UndefinedBehaviour (mapM (conv_axis g) (seq 0 (length (gm_kernel g)))).

(** ** Conv *)

Section conv.
Context {A : Type} (garbage zero : A) (add : A → A → A).
(** [Gemm] with [CblasNoTrans], [alpha] 1 and [beta] 0: the product of an
    [M] x [K] and a [K] x [N] matrix. *)
Context (Gemm : Z → Z → Z → list A → list A → list A).
Abbreviation Tens := (list Z * list A)%type.

Definition conv_window (c : ConvBase) (g : Geometry) : res Window :=
  in0 ← elem (gm_input g) 0; in1 ← elem (gm_input g) 1;
  k0 ← elem (gm_kernel g) 0; k1 ← elem (gm_kernel g) 1;
  d0 ← elem (gm_dilations g) 0; d1 ← elem (gm_dilations g) 1;
  p0 ← elem (gm_pads g) 0; p1 ← elem (gm_pads g) 1; p2 ← elem (gm_pads g) 2; p3 ← elem (gm_pads g) 3;
  s0 ← elem (gm_strides g) 0; s1 ← elem (gm_strides g) 1;
  Ok (mkWindow (Z.quot (gm_C g) (group_ c)) in0 in1 k0 k1 d0 d1 p0 p1 p2 p3 s0 s1).
Definition conv_columns (c : ConvBase) (g : Geometry) (o : Offsets) (data_im col_buffer : list A) : res (list A) :=
  if (length (gm_kernel g) =? 2)%nat
  then p ← conv_window c g; Im2col zero p data_im col_buffer
  else axes ← conv_axes g; Im2colNd add axes data_im false zero (kernel_dim o) col_buffer.
Definition conv_group (c : ConvBase) (g : Geometry) (o : Offsets) (Xdata Wdata : list A) (x y : Z) (s : list A * list A) (group_id : Z) : res (list A * list A) :=
  let '(col_buffer, Y) := s in
  col_buffer ← conv_columns c g o (drop (Z.to_nat (x + group_id * X_offset o)) Xdata) col_buffer;
  let M_group := Z.quot (gm_M g) (group_ c) in
  let product := Gemm M_group (output_image_size o) (kernel_dim o) (drop (Z.to_nat (group_id * W_offset o)) Wdata) col_buffer in
  Y ← memcpy Y (y + group_id * Y_offset o) product 0 (M_group * output_image_size o);
  Ok (col_buffer, Y).
(** [Ymatrix.rowwise() += Bvec.transpose()], of the matrix at [y]. *)
Definition add_bias (M size : Z) (B : list A) (y : Z) (Y : list A) : res (list A) :=
  for_lt M (fun Y m => for_lt size (fun Y j => b ← read B m; add_at add Y (y + (m * size + j)) b) Y) Y.
Definition conv_image (c : ConvBase) (g : Geometry) (o : Offsets) (Xdata Wdata : list A) (B : option (list A)) (s : list A * list A) (image_id : Z) : res (list A * list A) :=
  let y := image_id * (Y_offset o * group_ c) in
  '(col_buffer, Y) ← for_int (group_ c) (conv_group c g o Xdata Wdata (image_id * (X_offset o * group_ c)) y) s;
  Y ← match B with Some B => add_bias (gm_M g) (output_image_size o) B y Y | None => Ok Y end;
  Ok (col_buffer, Y).
(** [activation_] is empty for this kernel, and [FuseActivation] does nothing. *)
Definition Conv_Compute (c : ConvBase) (X W : Tens) (B : option Tens) : res (Status * option Tens) :=
  '(s, g) ← conv_geometry c (fst X) (fst W);
  match g with
  | None => Ok (s, None)
  | Some g =>
      let Y := new_output garbage (gm_Y_dims g) in
      o ← conv_offsets c g (fst W);
      let col_buffer := replicate (Z.to_nat (col_buffer_size o)) garbage in
      '(_, Y) ← for_int (gm_N g) (conv_image c g o (snd X) (snd W) (snd <$> B)) (col_buffer, Y);
      Ok (StatusOK, Some (gm_Y_dims g, Y))
  end.

(** [Conv<float>]. Filters of two and three axes go to mlas, a parameter: the
    elements of the output from the parameters and the inputs. *)
Context (MlasConv : ConvBase → Geometry → list A → list A → option (list A) → list A).
Definition conv_float_group (c : ConvBase) (g : Geometry) (o : Offsets) (Xdata Wdata : list A) (x y : Z) (s : list A * list A) (group_id : Z) : res (list A * list A) :=
  let '(col_buffer, Y) := s in
  axes ← conv_axes g;
  col_buffer ← Im2colNd add axes (drop (Z.to_nat (x + group_id * X_offset o)) Xdata) false zero (kernel_dim o) col_buffer;
  let M_group := Z.quot (gm_M g) (group_ c) in
  let product := Gemm M_group (output_image_size o) (kernel_dim o) (drop (Z.to_nat (group_id * W_offset o)) Wdata) col_buffer in
  Y ← memcpy Y (y + group_id * Y_offset o) product 0 (M_group * output_image_size o);
  Ok (col_buffer, Y).
Definition conv_float_image (c : ConvBase) (g : Geometry) (o : Offsets) (Xdata Wdata : list A) (B : option (list A)) (s : list A * list A) (image_id : Z) : res (list A * list A) :=
  let y := image_id * (Y_offset o * group_ c) in
  '(col_buffer, Y) ← for_int (group_ c) (conv_float_group c g o Xdata Wdata (image_id * (X_offset o * group_ c)) y) s;
  Y ← match B with Some B => add_bias (gm_M g) (output_image_size o) B y Y | None => Ok Y end;
  Ok (col_buffer, Y).
Definition Conv_float_Compute (c : ConvBase) (X W : Tens) (B : option Tens) : res (Status * option Tens) :=
  '(s, g) ← conv_geometry c (fst X) (fst W);
  match g with
  | None => Ok (s, None)
  | Some g =>
      let Y := new_output garbage (gm_Y_dims g) in
      let kernel_rank := length (gm_kernel g) in
      if (kernel_rank =? 2)%nat || (kernel_rank =? 3)%nat then
        if group_ c =? 0 then Throw UndefinedBehaviour
        else Y ← memcpy Y 0 (MlasConv c g (snd X) (snd W) (snd <$> B)) 0 (Z.of_nat (length Y)); Ok (StatusOK, Some (gm_Y_dims g, Y))
      else
        o ← conv_offsets c g (fst W);
        let col_buffer := replicate (Z.to_nat (col_buffer_size o)) garbage in
        '(_, Y) ← for_int (gm_N g) (conv_float_image c g o (snd X) (snd W) (snd <$> B)) (col_buffer, Y);
        Ok (StatusOK, Some (gm_Y_dims g, Y))
  end.
End conv.

(** ** ConvInteger *)

Section conv_integer.
(** [GemmWithOutputPipeline] of gemmlowp with an empty pipeline: the product of
    an [M] x [K] and a [K] x [N] matrix of [uint8_t], to whose elements the two
    offsets are added. *)
Context (garbage : Z) (gemmlowp : Z → Z → Z → list Z → list Z → Z → Z → list Z).
Abbreviation Tens := (list Z * list Z)%type.

Definition zero_point (t : option Tens) : res (Status * Z) :=
  match t with
  | None => Ok (StatusOK, 0)
  | Some t =>
      if (length (fst t) =? 0)%nat || ((length (fst t) =? 1)%nat && (length (fst t) =? 1)%nat)
      then x ← of_option UndefinedBehaviour (head (snd t)); Ok (StatusOK, x)
      else Ok (Some FAIL, 0)
  end.
Definition conv_integer_group (c : ConvBase) (g : Geometry) (o : Offsets) (axes : list Axis) (Xdata Wdata : list Z) (input_offset filter_offset x y : Z) (s : list Z * list Z) (group_id : Z) :
    res (list Z * list Z) :=
  let '(col_buffer, Y) := s in
  col_buffer ← Im2colNd Z.add axes (drop (Z.to_nat (x + group_id * X_offset o)) Xdata) false input_offset (kernel_dim o) col_buffer;
  let rows := i32 (Z.quot (gm_M g) (group_ c)) in
  let cols := i32 (output_image_size o) in
  let product := gemmlowp rows cols (i32 (kernel_dim o)) (drop (Z.to_nat (group_id * W_offset o)) Wdata) col_buffer (- filter_offset) (- input_offset) in
  Y ← memcpy Y y product 0 (rows * cols);
  Ok (col_buffer, Y).
Definition ConvInteger_Compute (c : ConvBase) (X W : Tens) (X_Zero_Point W_Zero_Point : option Tens) : res (Status * option Tens) :=
  '(s, input_offset) ← zero_point X_Zero_Point;
  if negb (IsOK s) then Ok (s, None)
  else
    '(s, filter_offset) ← zero_point W_Zero_Point;
    if negb (IsOK s) then Ok (s, None)
    else
      '(s, g) ← conv_geometry c (fst X) (fst W);
      match g with
      | None => Ok (s, None)
      | Some g =>
          let Y := new_output garbage (gm_Y_dims g) in
          o ← conv_offsets c g (fst W);
          axes ← conv_axes g;
          let col_buffer := replicate (Z.to_nat (col_buffer_size o)) garbage in
          '(_, Y) ← for_int (gm_N g) (fun s image_id =>
              for_int (group_ c) (conv_integer_group c g o axes (snd X) (snd W) input_offset filter_offset
                                    (image_id * (X_offset o * group_ c)) (image_id * (Y_offset o * group_ c))) s) (col_buffer, Y);
          Ok (StatusOK, Some (gm_Y_dims g, Y))
      end.
End conv_integer.

(** ** ConvTranspose *)

(** The padding and the size of the output; an [out_size] of -1 is to be
    computed. *)
Definition ComputeTransposePadAndOutputShape (in_size stride kernel adj : Z) (pad_type : AutoPadType) (pad_head pad_tail out_size : Z) : res (Z * Z * Z) :=
  full ← int64_op ((in_size - 1) * stride + kernel + adj);
  if negb (out_size =? -1) then
    _ ← enforce (0 <=? out_size);
    let paddings := Z.max 0 (full - out_size) in
    match pad_type with
    | SAME_UPPER => Ok (paddings - Z.quot paddings 2, Z.quot paddings 2, out_size)
    | _ => Ok (Z.quot paddings 2, paddings - Z.quot paddings 2, out_size)
    end
  else
    match pad_type with
    | NOTSET => out ← int64_op (full - pad_head - pad_tail); Ok (pad_head, pad_tail, out)
    | _ => Ok (0, 0, full)
    end.

Record ConvTransposeBase := mkConvTranspose { ct_base : ConvBase; output_padding_ : list Z; output_shape_ : list Z }.
(** [vector::at] throws out of range. *)
Definition at_ (l : list Z) (i : nat) : res Z := of_option EnforceFailed (l !! i).
Definition transpose_dim (c : ConvTransposeBase) (in_size : Z) (kernel_shape strides output_padding pads : list Z) (dim : nat) (out_size : Z) : res (list Z * Z) :=
  stride ← elem strides dim;
  kernel ← elem kernel_shape dim;
  adj ← elem output_padding dim;
  head ← at_ pads dim;
  tail ← at_ pads (dim + 2);
  '(head, tail, out) ← ComputeTransposePadAndOutputShape in_size stride kernel adj (auto_pad_ (ct_base c)) head tail out_size;
  Ok (<[(dim + 2)%nat := tail]> (<[dim := head]> pads), out).
(** The last two entries of [output_shape_], or -1. *)
Definition requested_size (c : ConvTransposeBase) (H W : Z) : res (Z * Z) :=
  if bool_decide (output_shape_ c = []) then Ok (-1, -1)
  else
    let n := length (output_shape_ c) in
    if (n <? 2)%nat then Throw UndefinedBehaviour
    else
      output_height ← elem (output_shape_ c) (n - 2);
      output_width ← elem (output_shape_ c) (n - 1);
      _ ← enforce (H <=? output_height);
      _ ← enforce (W <=? output_width);
      Ok (output_height, output_width).
Definition ComputePadsAndOutputShape (c : ConvTransposeBase) (input_shape : TensorShape) (output_channel : Z) (kernel_shape strides output_padding pads : list Z) : res (list Z * list Z) :=
  N ← elem input_shape 0;
  H ← elem input_shape 2;
  W ← elem input_shape 3;
  '(output_height, output_width) ← requested_size c H W;
  '(pads, output_height) ← transpose_dim c H kernel_shape strides output_padding pads 0 output_height;
  '(pads, output_width) ← transpose_dim c W kernel_shape strides output_padding pads 1 output_width;
  Ok (pads, [N; output_channel; output_height; output_width]).

Section conv_transpose.
Context {A : Type} (garbage zero : A) (add : A → A → A).
(** [Gemm] with [CblasTrans] for the first matrix, which is [K] x [M]. *)
Context (GemmTrans : Z → Z → Z → list A → list A → list A).
Abbreviation Tens := (list Z * list A)%type.

(** [Prepare], without the tensors. *)
Record PrepareTranspose := mkPrepareTranspose {
  pt_N : Z; pt_H : Z; pt_W : Z;
  num_input_channels : Z; num_output_channels : Z;
  pt_kernel_shape : list Z; pt_pads : list Z; pt_dilations : list Z; pt_strides : list Z;
  pt_Y_dims : list Z;
}.
(** The output is allocated at the end; a negative size is refused there. *)
Definition ConvTranspose_PrepareForCompute (c : ConvTransposeBase) (X F : TensorShape) : res (Status * option PrepareTranspose) :=
  let b := ct_base c in
  if group_ b <=? 0 then Ok (Some INVALID_ARGUMENT, None)
  else if negb (length X =? 4)%nat then Ok (Some INVALID_ARGUMENT, None)
  else if negb (length X =? length F)%nat then Ok (Some INVALID_ARGUMENT, None)
  else
    num_input_channels ← elem X 1;
    f0 ← elem F 0;
    if negb (f0 =? num_input_channels) then Ok (Some INVALID_ARGUMENT, None)
    else
      N ← elem X 0;
      H ← elem X 2;
      W ← elem X 3;
      f1 ← elem F 1;
      num_output_channels ← int64_op (f1 * group_ b);
      if negb (Z.rem num_input_channels (group_ b) =? 0) then Ok (Some INVALID_ARGUMENT, None)
      else
        '(s, kernel_shape) ← ComputeKernelShape b F;
        if negb (IsOK s) then Ok (s, None)
        else
          let rank := length kernel_shape in
          let output_padding := if bool_decide (output_padding_ c = []) then replicate rank 0 else output_padding_ c in
          let pads := if bool_decide (pads_ b = []) then replicate (rank * 2) 0 else pads_ b in
          let dilations := if bool_decide (dilations_ b = []) then replicate rank 1 else dilations_ b in
          let strides := if bool_decide (strides_ b = []) then replicate rank 1 else strides_ b in
          '(pads, Y_dims) ← ComputePadsAndOutputShape c X num_output_channels kernel_shape strides output_padding pads;
          _ ← enforce (0 <=? Size Y_dims);
          Ok (StatusOK, Some (mkPrepareTranspose N H W num_input_channels num_output_channels kernel_shape pads dilations strides Y_dims)).

Record TransposeOffsets := mkTransposeOffsets { to_window : Window; to_image : Z; to_X : Z; to_Y : Z; to_W : Z; to_kernel_dim : Z; to_output : Z }.
Definition transpose_offsets (c : ConvTransposeBase) (p : PrepareTranspose) (F : TensorShape) : res TransposeOffsets :=
  let group := group_ (ct_base c) in
  input_image_size ← int64_op (pt_H p * pt_W p);
  X_offset ← int64_op (Z.quot (num_input_channels p) group * input_image_size);
  y_image ← int64_div (Size (pt_Y_dims p)) (pt_N p);
  Y_offset ← int64_div y_image group;
  W_offset ← int64_div (Size F) group;
  k0 ← elem (pt_kernel_shape p) 0; k1 ← elem (pt_kernel_shape p) 1;
  kernel_dim ← int64_op (Z.quot (num_output_channels p) group * k0 * k1);
  y2 ← elem (pt_Y_dims p) 2; y3 ← elem (pt_Y_dims p) 3;
  output_image_size ← int64_op (y2 * y3);
  p0 ← elem (pt_pads p) 0; p1 ← elem (pt_pads p) 1; p2 ← elem (pt_pads p) 2; p3 ← elem (pt_pads p) 3;
  s0 ← elem (pt_strides p) 0; s1 ← elem (pt_strides p) 1;
  Ok (mkTransposeOffsets (mkWindow (Z.quot (num_output_channels p) group) y2 y3 k0 k1 1 1 p0 p1 p2 p3 s0 s1) input_image_size X_offset Y_offset W_offset kernel_dim output_image_size).
(** [Col2im] into the part of [Y] that starts at [y]. *)
Definition col2im_at (p : Window) (col_buffer Y : list A) (y : Z) : res (list A) :=
  part ← Col2im zero add p col_buffer (drop (Z.to_nat y) Y);
  Ok (take (Z.to_nat y) Y ++ part).
Definition transpose_group (c : ConvTransposeBase) (p : PrepareTranspose) (o : TransposeOffsets) (Xdata filter_data : list A) (x y : Z) (s : list A * list A) (group_id : Z) : res (list A * list A) :=
  let '(col_buffer, Y) := s in
  let product := GemmTrans (to_kernel_dim o) (to_image o) (Z.quot (num_input_channels p) (group_ (ct_base c)))
                   (drop (Z.to_nat (group_id * to_W o)) filter_data) (drop (Z.to_nat (x + group_id * to_X o)) Xdata) in
  col_buffer ← memcpy col_buffer 0 product 0 (to_kernel_dim o * to_image o);
  Y ← col2im_at (to_window o) col_buffer Y (y + group_id * to_Y o);
  Ok (col_buffer, Y).
Definition transpose_image (c : ConvTransposeBase) (p : PrepareTranspose) (o : TransposeOffsets) (Xdata filter_data : list A) (B : option (list A)) (s : list A * list A) (image_id : Z) : res (list A * list A) :=
  let group := group_ (ct_base c) in
  let y := image_id * (to_Y o * group) in
  '(col_buffer, Y) ← for_int group (transpose_group c p o Xdata filter_data (image_id * (to_X o * group)) y) s;
  Y ← match B with Some B => add_bias add (num_output_channels p) (to_output o) B y Y | None => Ok Y end;
  Ok (col_buffer, Y).
Definition ConvTranspose_Compute (c : ConvTransposeBase) (X F : Tens) (B : option Tens) : res (Status * option Tens) :=
  '(s, p) ← ConvTranspose_PrepareForCompute c (fst X) (fst F);
  match p with
  | None => Ok (s, None)
  | Some p =>
      o ← transpose_offsets c p (fst F);
      let Y := new_output garbage (pt_Y_dims p) in
      n ← int64_op (to_kernel_dim o * pt_H p * pt_W p);
      let col_buffer := replicate (Z.to_nat n) garbage in
      '(_, Y) ← for_int (pt_N p) (transpose_image c p o (snd X) (snd F) (snd <$> B)) (col_buffer, Y);
      Ok (StatusOK, Some (pt_Y_dims p, Y))
  end.
End conv_transpose.
