(* ===== verification/ConvShapes.v ===== *)
(** The sizes that the convolution kernels compute. *)
From S2P Require Import Prelude TensorShape Transpose DataMove Im2col Conv.

(** ** Rounding *)

Lemma nearest_bound a b : 0 < b → - b ≤ 2 * (nearest a b * b - a) ≤ b.
Proof.
  intros Hb. unfold nearest. pose proof (Z.div_mod a b ltac:(lia)) as E. pose proof (Z.mod_pos_bound a b Hb). set (q := a / b) in *. set (r := a mod b) in *. clearbody q r.
  destruct (Z.ltb_spec (2 * r) b); [lia|]. destruct (Z.ltb_spec b (2 * r)); [lia|]. destruct (Z.even q); lia.
Qed.
Lemma nearest_ge a b k : 0 < b → k * b ≤ a → k ≤ nearest a b.
Proof.
  intros Hb Hk. unfold nearest. assert (k ≤ a / b) by (apply Z.div_le_lower_bound; lia). set (q := a / b) in *. clearbody q.
  destruct (2 * (a mod b) <? b); [lia|]. destruct (b <? 2 * (a mod b)); [lia|]. destruct (Z.even q); lia.
Qed.
(** A number below [2 ^ 24] is rounded to a multiple of [2 ^ - k]; the error is
    at most the 2^24-th part, and integers are not crossed. *)
Lemma float_pos_spec a b :
  0 < a → 0 < b → b ≤ a * 2 ^ 64 → a < 2 ^ 24 * b →
  ∃ m k, 0 ≤ k ∧ float_pos a b = (m, 2 ^ k) ∧ m = nearest (a * 2 ^ k) b ∧ 2 ^ 24 * (m * b) ≤ (2 ^ 24 + 1) * (a * 2 ^ k) ∧ (∀ j, j * b ≤ a → j * 2 ^ k ≤ m).
Proof.
  intros Ha Hb Hlo Hhi. set (t := Z.log2 (a * 2 ^ 64 / b)). assert (Hq : 0 < a * 2 ^ 64 / b) by (apply Z.div_str_pos; lia).
  destruct (Z.log2_spec _ Hq) as [T1 T2]. fold t in T1, T2. assert (Ht : 0 ≤ t) by apply Z.log2_nonneg.
  assert (B1 : 2 ^ t * b ≤ a * 2 ^ 64) by (pose proof (Z.mul_div_le (a * 2 ^ 64) b Hb); nia).
  assert (B2 : a * 2 ^ 64 < 2 ^ (Z.succ t) * b) by (pose proof (Z.mul_succ_div_gt (a * 2 ^ 64) b Hb); nia).
  assert (Ht88 : t < 88). { destruct (Z.lt_ge_cases t 88) as [|Hge]; [done|]. assert (2 ^ 88 ≤ 2 ^ t) by (apply Z.pow_le_mono_r; lia). nia. }
  assert (Hk : 0 ≤ 87 - t) by lia. exists (nearest (a * 2 ^ (87 - t)) b), (87 - t). split; [done|].
  assert (Epow : 2 ^ t * 2 ^ (87 - t) = 2 ^ 23 * 2 ^ 64) by (rewrite <- !Z.pow_add_r by lia; f_equal; lia).
  assert (Hpt : 0 < 2 ^ t) by (apply Z.pow_pos_nonneg; lia). set (P := 2 ^ (87 - t)) in *.
  assert (L1 : 2 ^ 23 * b ≤ a * P) by nia. split_and!.
  - unfold float_pos, float_exponent. fold t. destruct (Z.leb_spec 0 (t - (64 + 23))).
    + assert (t = 87) as E87 by lia. unfold P. rewrite E87. cbn -[nearest]. by rewrite !Z.mul_1_r.
    + unfold P. by replace (- (t - (64 + 23))) with (87 - t) by lia.
  - done.
  - pose proof (nearest_bound (a * P) b Hb). lia.
  - intros j Hj. apply nearest_ge; [done|]. assert (0 < P) by (apply Z.pow_pos_nonneg; lia). nia.
Qed.
Lemma float_of_pos a b : 0 < a → 0 < b → float_of a b = float_pos a b.
Proof. intros Ha Hb. unfold float_of. destruct (Z.eqb_spec a 0); [lia|]. rewrite !Z.abs_eq, !Z.sgn_pos by lia. destruct (float_pos a b) as [x y]. f_equal. lia. Qed.
Lemma float_of_int n : 0 ≤ n < 2 ^ 24 → ∃ k, 0 ≤ k ∧ float_of n 1 = (n * 2 ^ k, 2 ^ k).
Proof.
  intros Hn. destruct (Z.eq_dec n 0) as [->|]; [by exists 0|]. rewrite float_of_pos by lia. destruct (float_pos_spec n 1) as (m & k & Hk & -> & -> & _); [lia..|].
  exists k. split; [done|]. f_equal. unfold nearest. rewrite Z.div_1_r, Z.mod_1_r. done.
Qed.
(** The quotient, rounded: not below its integer part, and hardly above it. *)
Lemma float_quotient n s c : 0 ≤ n < 2 ^ 23 → 1 ≤ s < 2 ^ 23 → 0 < c → ∃ m k, 0 ≤ k ∧ float_of (n * c) (s * c) = (m, 2 ^ k) ∧ 2 ^ 24 * (m * s) ≤ (2 ^ 24 + 1) * (n * 2 ^ k) ∧ n / s * 2 ^ k ≤ m.
Proof.
  intros Hn Hs Hc. destruct (Z.eq_dec n 0) as [->|]; [by exists 0, 0|]. rewrite float_of_pos by nia.
  destruct (float_pos_spec (n * c) (s * c)) as (m & k & Hk & -> & _ & Hup & Hlo); [nia..|]. exists m, k. split; [done|]. split; [done|]. split; [nia|].
  apply Hlo. pose proof (Z.mul_div_le n s ltac:(lia)). nia.
Qed.

(** For the sizes of images the detour through [float] does not change the
    quotient. *)
Lemma float_div_plus_1_exact n s : 0 ≤ n → 1 ≤ s → n + 2 * s ≤ 2 ^ 23 → float_div_plus_1 n s = Ok (n / s + 1).
Proof.
  intros Hn Hs Hb. unfold float_div_plus_1. destruct (Z.eqb_spec s 0); [lia|]. destruct (float_of_int n ltac:(lia)) as (k1 & Hk1 & ->). destruct (float_of_int s ltac:(lia)) as (k2 & Hk2 & ->).
  assert (H1 : 0 < 2 ^ k1) by (apply Z.pow_pos_nonneg; lia). assert (H2 : 0 < 2 ^ k2) by (apply Z.pow_pos_nonneg; lia).
  replace (n * 2 ^ k1 * 2 ^ k2) with (n * (2 ^ k1 * 2 ^ k2)) by ring. replace (2 ^ k1 * (s * 2 ^ k2)) with (s * (2 ^ k1 * 2 ^ k2)) by ring.
  destruct (float_quotient n s (2 ^ k1 * 2 ^ k2)) as (m & k & Hk & -> & Hup & Hlo); [lia|lia|nia|]. clear k1 k2 Hk1 Hk2 H1 H2.
  assert (HP : 0 < 2 ^ k) by (apply Z.pow_pos_nonneg; lia). set (P := 2 ^ k) in *. pose proof (Z.mul_div_le n s ltac:(lia)) as Q1. pose proof (Z.mul_succ_div_gt n s ltac:(lia)) as Q2.
  pose proof (Z.div_pos n s Hn ltac:(lia)) as Q0. set (j := n / s) in *. clearbody j P. assert (Hm : 0 ≤ m) by nia. assert (Hmu : m < 2 ^ 23 * P) by nia.
  rewrite float_of_pos by lia. destruct (float_pos_spec (m + P) P) as (m3 & k3 & Hk3 & -> & _ & Hup3 & Hlo3); [lia..|]. specialize (Hlo3 (j + 1) ltac:(nia)).
  assert (HP3 : 0 < 2 ^ k3) by (apply Z.pow_pos_nonneg; lia). set (P3 := 2 ^ k3) in *. clearbody P3. assert (Hj : j ≤ n) by nia.
  assert (Hkey : (2 ^ 24 + 1) * (m + P) < 2 ^ 24 * ((j + 2) * P)).
  { assert (Hns : (2 ^ 24 + 1) * (2 ^ 24 + 1) * n + (2 ^ 24 + 1) * 2 ^ 24 * s < 2 ^ 24 * 2 ^ 24 * (s * (j + 2))) by nia.
    assert (Hm2 : (2 ^ 24 + 1) * (2 ^ 24 * (m * s)) ≤ (2 ^ 24 + 1) * ((2 ^ 24 + 1) * (n * P))) by lia.
    apply (Z.mul_lt_mono_pos_l (2 ^ 24 * s)); [lia|]. nia. }
  assert (Hlt : m3 < (j + 2) * P3) by nia. assert (Eq : Z.quot m3 P3 = j + 1) by (rewrite Z.quot_div_nonneg by lia; symmetry; apply (Z.div_unique m3 P3 (j + 1) (m3 - (j + 1) * P3)); lia).
  rewrite Eq. unfold int64_op, fits_int64. rewrite (proj2 (Z.leb_le _ _)), (proj2 (Z.ltb_lt _ _)) by lia. done.
Qed.

(** ** Sizes of the output *)

Lemma int64_op_ok z : - 2 ^ 63 ≤ z < 2 ^ 63 → int64_op z = Ok z.
Proof. intros Hz. unfold int64_op, fits_int64. by rewrite (proj2 (Z.leb_le _ _)), (proj2 (Z.ltb_lt _ _)) by lia. Qed.
Lemma int64_div_ok a b : 0 ≤ a < 2 ^ 63 → 0 < b → int64_div a b = Ok (a / b).
Proof.
  intros Ha Hb. unfold int64_div. destruct (Z.eqb_spec b 0); [lia|]. rewrite Z.quot_div_nonneg by lia. apply int64_op_ok.
  pose proof (Z.div_pos a b ltac:(lia) Hb). pose proof (Z.div_le_upper_bound a b a Hb ltac:(nia)). lia.
Qed.
Lemma last_window n stride : 0 ≤ n → 1 ≤ stride → 1 ≤ n / stride + 1 ∧ (n / stride + 1 - 1) * stride ≤ n < (n / stride + 1) * stride.
Proof. intros Hn Hs. pose proof (Z.div_pos n stride Hn ltac:(lia)). pose proof (Z.mul_div_le n stride ltac:(lia)). pose proof (Z.mul_succ_div_gt n stride ltac:(lia)). lia. Qed.

(** The padding that [SAME] needs. *)
Lemma same_needed in_dim stride kernel :
  1 ≤ in_dim → 1 ≤ stride ≤ kernel → let T := (in_dim + stride - 1) / stride in let needed := (T - 1) * stride + kernel - in_dim in
  1 ≤ T ∧ 0 ≤ needed < kernel ∧ (in_dim + needed - kernel) / stride + 1 = T ∧ 0 ≤ in_dim + needed - kernel.
Proof.
  intros Hin Hs T needed. pose proof (Z.mul_div_le (in_dim + stride - 1) stride ltac:(lia)) as H1. pose proof (Z.mul_succ_div_gt (in_dim + stride - 1) stride ltac:(lia)) as H2. fold T in H1, H2.
  assert (1 ≤ T) by (apply Z.div_le_lower_bound; lia). replace (in_dim + needed - kernel) with ((T - 1) * stride) by (unfold needed; lia). rewrite Z.div_mul by lia. split_and!; try lia; unfold needed; nia.
Qed.

Lemma same_half n : 0 ≤ n → 0 ≤ Z.quot n 2 ∧ Z.quot n 2 ≤ n - Z.quot n 2 ≤ Z.quot n 2 + 1 ∧ 0 ≤ Z.quot (n + 1) 2 ∧ n - Z.quot (n + 1) 2 ≤ Z.quot (n + 1) 2 ≤ n - Z.quot (n + 1) 2 + 1 ∧ 0 ≤ n - Z.quot (n + 1) 2.
Proof. intros Hn. rewrite !Z.quot_div_nonneg by lia. pose proof (Z.div_mod n 2 ltac:(lia)). pose proof (Z.mod_pos_bound n 2 ltac:(lia)). pose proof (Z.div_mod (n + 1) 2 ltac:(lia)). pose proof (Z.mod_pos_bound (n + 1) 2 ltac:(lia)). split_and!; lia. Qed.
Lemma same_shape in_dim stride kernel pad_type head tail :
  1 ≤ in_dim → 1 ≤ stride ≤ kernel → in_dim + 2 * stride + kernel < 2 ^ 62 →
  match pad_type with SAME_UPPER | SAME_LOWER => True | _ => False end →
  let T := (in_dim + stride - 1) / stride in let needed := (T - 1) * stride + kernel - in_dim in
  let h := match pad_type with SAME_LOWER => Z.quot (needed + 1) 2 | _ => Z.quot needed 2 end in
  ComputePadAndOutputShape false in_dim stride kernel 1 pad_type head tail = Ok (h, needed - h, T).
Proof.
  intros Hin Hs Hb Hty. destruct (same_needed in_dim stride kernel Hin Hs) as (T1 & T2 & T3 & T4). cbv zeta in *. pose proof (Z.div_le_upper_bound (in_dim + stride - 1) stride (in_dim + stride - 1) ltac:(lia) ltac:(nia)).
  set (T := (in_dim + stride - 1) / stride) in *. set (needed := (T - 1) * stride + kernel - in_dim) in *. unfold ComputePadAndOutputShape. replace (1 * (kernel - 1) + 1) with kernel by lia.
  rewrite int64_op_ok by lia. destruct pad_type; try done; cbn [Z.eqb Pos.eqb enforce mbind res_bind]; rewrite int64_div_ok by lia; cbn [mbind res_bind]; fold T needed;
    rewrite int64_op_ok by lia; cbn [mbind res_bind]; rewrite int64_div_ok by lia; cbn [mbind res_bind]; rewrite T3, int64_op_ok by lia; done.
Qed.
(** What the padding has to be for the kernel to fit. *)
Definition pads_fit (pad_type : AutoPadType) (in_dim stride kernel dilation head tail : Z) : Prop :=
  let dkernel := dilation * (kernel - 1) + 1 in
  match pad_type with
  | NOTSET => dkernel ≤ in_dim + head + tail
  | VALID => dkernel ≤ in_dim
  | SAME_UPPER | SAME_LOWER => dilation = 1 ∧ stride ≤ kernel
  end.

Lemma output_size_spec pad_type in_dim stride kernel dilation head tail :
  1 ≤ in_dim → 1 ≤ stride → 1 ≤ kernel → 1 ≤ dilation → 0 ≤ head → 0 ≤ tail →
  let dkernel := dilation * (kernel - 1) + 1 in
  in_dim + head + tail + 2 * stride + dkernel ≤ 2 ^ 23 → pads_fit pad_type in_dim stride kernel dilation head tail →
  ∃ h t out, ComputePadAndOutputShape false in_dim stride kernel dilation pad_type head tail = Ok (h, t, out) ∧
    1 ≤ out ∧ 0 ≤ h ∧ 0 ≤ t ∧ (out - 1) * stride + dkernel ≤ in_dim + h + t < out * stride + dkernel ∧ in_dim + h + t ≤ 2 ^ 23 ∧
    match pad_type with
    | NOTSET => h = head ∧ t = tail
    | VALID => h = 0 ∧ t = 0
    | SAME_UPPER => out = (in_dim + stride - 1) / stride ∧ h ≤ t ≤ h + 1
    | SAME_LOWER => out = (in_dim + stride - 1) / stride ∧ t ≤ h ≤ t + 1
    end.
Proof.
  intros Hin Hs Hk Hd Hh Ht dkernel Hb Hfit. assert (Hdk : 1 ≤ dkernel) by (unfold dkernel; nia). unfold pads_fit in Hfit. fold dkernel in Hfit. destruct pad_type.
  - unfold ComputePadAndOutputShape. fold dkernel. rewrite !int64_op_ok by lia. cbn [mbind res_bind]. rewrite int64_op_ok by lia. cbn [mbind res_bind]. rewrite float_div_plus_1_exact by lia. cbn [mbind res_bind].
    destruct (last_window (in_dim + head + tail - dkernel) stride ltac:(lia) Hs) as (W1 & W2). eexists _, _, _. split; [done|]. split_and!; lia.
  - unfold ComputePadAndOutputShape. fold dkernel. rewrite int64_op_ok by lia. cbn [mbind res_bind]. rewrite int64_div_ok by lia. cbn [mbind res_bind]. destruct (last_window (in_dim - dkernel) stride ltac:(lia) Hs) as (W1 & W2).
    pose proof (Z.div_le_upper_bound (in_dim - dkernel) stride (in_dim - dkernel) ltac:(lia) ltac:(nia)). rewrite int64_op_ok by lia. cbn [mbind res_bind]. eexists _, _, _. split; [done|]. split_and!; lia.
  - destruct Hfit as [-> Hsk]. destruct (same_needed in_dim stride kernel Hin ltac:(lia)) as (T1 & T2 & T3 & T4). pose proof (same_half _ (proj1 T2)). unfold dkernel in *.
    rewrite same_shape by lia. eexists _, _, _. split; [reflexivity|]. split_and!; lia.
  - destruct Hfit as [-> Hsk]. destruct (same_needed in_dim stride kernel Hin ltac:(lia)) as (T1 & T2 & T3 & T4). pose proof (same_half _ (proj1 T2)). unfold dkernel in *.
    rewrite same_shape by lia. eexists _, _, _. split; [reflexivity|]. split_and!; lia.
Qed.

(** C33. The padding and the size of the output of a dimension, where the kernel
    fits into the padded input ([pads_fit]; for [SAME] the stride is at most the
    kernel and there is no dilation) and all stays below 2^23: as many windows
    as fit into the padded input, and no more. Given padding is kept; for [SAME]
    the output has one element for every stride of the input, and the padding is
    spread evenly, the odd one after the input or before it. The quotient in
    [float] is the one of the integers. *)
Theorem output_size_correct pad_type in_dim stride kernel dilation head tail :
  1 ≤ in_dim → 1 ≤ stride → 1 ≤ kernel → 1 ≤ dilation → 0 ≤ head → 0 ≤ tail →
  let dkernel := dilation * (kernel - 1) + 1 in
  in_dim + head + tail + 2 * stride + dkernel ≤ 2 ^ 23 → pads_fit pad_type in_dim stride kernel dilation head tail →
  ∃ h t out, ComputePadAndOutputShape false in_dim stride kernel dilation pad_type head tail = Ok (h, t, out) ∧
    1 ≤ out ∧ 0 ≤ h ∧ 0 ≤ t ∧ (out - 1) * stride + dkernel ≤ in_dim + h + t < out * stride + dkernel ∧ in_dim + h + t ≤ 2 ^ 23 ∧
    match pad_type with
    | NOTSET => h = head ∧ t = tail
    | VALID => h = 0 ∧ t = 0
    | SAME_UPPER => out = (in_dim + stride - 1) / stride ∧ h ≤ t ≤ h + 1
    | SAME_LOWER => out = (in_dim + stride - 1) / stride ∧ t ≤ h ≤ t + 1
    end.
Proof. exact (output_size_spec pad_type in_dim stride kernel dilation head tail). Qed.
Lemma output_size_correct_witness : ∃ h t out, ComputePadAndOutputShape false 5 2 3 1 SAME_UPPER 0 0 = Ok (h, t, out) ∧ out = 3 ∧ h ≤ t ≤ h + 1.
Proof.
  destruct (output_size_correct SAME_UPPER 5 2 3 1 0 0) as (h & t & out & E & _ & _ & _ & _ & _ & Eo & Hht); try lia; [split; lia|].
  exists h, t, out. split; [exact E|]. split; [exact Eo|exact Hht].
Defined.

(** From [2 ^ 24] on the quotient in [float] is another one than that of the
    integers, which [Im2col] takes: the columns are allocated for [2 ^ 24]
    positions of the window, and written for two more. With [VALID] a kernel that
    is larger than the input is not refused as with given padding if the stride
    is larger than the difference. *)
Theorem output_sizes_differ :
  ComputePadAndOutputShape false (2 ^ 24 + 2) 1 1 1 NOTSET 0 0 = Ok (0, 0, 2 ^ 24) ∧
  width_col (mkWindow 1 1 (2 ^ 24 + 2) 1 1 1 1 0 0 0 0 1 1) = Ok (2 ^ 24 + 2) ∧
  ComputePadAndOutputShape false 2 2 3 1 VALID 0 0 = Ok (0, 0, 1) ∧
  ComputePadAndOutputShape false 2 2 3 1 NOTSET 0 0 = Ok (0, 0, 0).
Proof. by vm_compute. Qed.
