(* ===== verification/ConvGeometry.v ===== *)
(** The shapes of a convolution that fits: [conv_geometry] accepts it, and the
    axes it gives to the unfolding are those of the attributes. *)
From S2P Require Import Prelude TensorShape Transpose TransposeProps BroadcastInv DataMove Im2col Im2colProps Im2colNdProps Im2colRoundtrip Conv ConvShapes.

(** An empty attribute stands for the default. *)
Definition or_default (l d : list Z) : list Z := if bool_decide (l = []) then d else l.
(** The attributes of one dimension, and that the kernel fits there. *)
Record AxisFits (c : ConvBase) (strides dilations pads ins ks : list Z) (i : nat) : Prop := {
  af_strides : (i < length strides)%nat;
  af_dilations : (i < length dilations)%nat;
  af_pads : (length ins + i < length pads)%nat;
  af_pos : 1 ≤ ins !!! i ∧ 1 ≤ ks !!! i ∧ 1 ≤ strides !!! i ∧ 1 ≤ dilations !!! i;
  af_pads_nonneg : 0 ≤ pads !!! i ∧ 0 ≤ pads !!! (length ins + i)%nat;
  af_bound : ins !!! i + pads !!! i + pads !!! (length ins + i)%nat + 2 * strides !!! i + (dilations !!! i * (ks !!! i - 1) + 1) ≤ 2 ^ 23;
  af_fits : pads_fit (auto_pad_ c) (ins !!! i) (strides !!! i) (ks !!! i) (dilations !!! i) (pads !!! i) (pads !!! (length ins + i)%nat);
}.
Record ConvArgs (c : ConvBase) (N M Cg : Z) (ins ks : list Z) : Prop := {
  ca_pos : 1 ≤ N < 2 ^ 31 ∧ 1 ≤ M ∧ 1 ≤ Cg ∧ 1 ≤ group_ c < 2 ^ 31;
  ca_channels : Cg * group_ c < 2 ^ 63;
  ca_groups : (group_ c | M);
  ca_kernel : kernel_shape_specified_ c = true → kernel_shape_ c = ks;
  ca_rank : length ks = length ins;
  ca_axes : ∀ i, (i < length ins)%nat →
    AxisFits c (or_default (strides_ c) (replicate (length ks) 1)) (or_default (dilations_ c) (replicate (length ks) 1)) (or_default (pads_ c) (replicate (length ks * 2) 0)) ins ks i;
}.

(** ** The loop over the dimensions *)

Section infer.
Context (c : ConvBase) (ins ks strides dilations pads0 Y0 : list Z) (Hrank : length ks = length ins) (Hfit : ∀ i, (i < length ins)%nat → AxisFits c strides dilations pads0 ins ks i).

(** What one dimension gets. *)
Definition sized (i : nat) (h t out : Z) : Prop :=
  ComputePadAndOutputShape false (ins !!! i) (strides !!! i) (ks !!! i) (dilations !!! i) (auto_pad_ c) (pads0 !!! i) (pads0 !!! (length ins + i)%nat) = Ok (h, t, out) ∧
  1 ≤ out ∧ 0 ≤ h ∧ 0 ≤ t ∧ let dkernel := dilations !!! i * (ks !!! i - 1) + 1 in (out - 1) * strides !!! i + dkernel ≤ ins !!! i + h + t < out * strides !!! i + dkernel ∧ ins !!! i + h + t ≤ 2 ^ 23.
Lemma sized_exists i : (i < length ins)%nat → ∃ h t out, sized i h t out.
Proof.
  intros Hi. destruct (Hfit i Hi) as [_ _ _ (P1 & P2 & P3 & P4) [P5 P6] Hb Hf].
  destruct (output_size_spec (auto_pad_ c) (ins !!! i) (strides !!! i) (ks !!! i) (dilations !!! i) (pads0 !!! i) (pads0 !!! (length ins + i)%nat)) as (h & t & out & E & H1 & H2 & H3 & H4 & H5 & _); [done..|].
  exists h, t, out. by split_and!.
Qed.
(** The dimensions below [n] are done, those above have their padding. *)
Definition inferred (n : nat) (acc : Status * list Z * list Z) : Prop :=
  ∃ pads outs, acc = (StatusOK, pads, Y0 ++ outs) ∧ length pads = length pads0 ∧ length outs = n ∧
    (∀ i, (i < n)%nat → sized i (pads !!! i) (pads !!! (length ins + i)%nat) (outs !!! i)) ∧
    (∀ i, (n ≤ i < length ins)%nat → pads !!! i = pads0 !!! i ∧ pads !!! (length ins + i)%nat = pads0 !!! (length ins + i)%nat).

Lemma elem_total l i : (i < length l)%nat → elem l i = Ok (l !!! i).
Proof. intros Hi. unfold elem. by rewrite (list_lookup_lookup_total_lt l i Hi). Qed.
Lemma infer_dim_ok i acc : (i < length ins)%nat → inferred i acc → ∃ acc', infer_dim c false ins ks strides dilations acc i = Ok acc' ∧ inferred (S i) acc'.
Proof.
  intros Hi (pads & outs & -> & Lp & Lo & Hdone & Htodo). destruct (Hfit i Hi) as [Ls Ld Lpad _ _ _ _]. destruct (sized_exists i Hi) as (h & t & out & Hs). pose proof Hs as (E & Hout & _).
  destruct (Htodo i ltac:(lia)) as [Th Tt]. unfold infer_dim. cbn [IsOK StatusOK negb].
  rewrite (proj2 (Nat.leb_gt _ _) Ls), (proj2 (Nat.leb_gt (length ks) i)), (proj2 (Nat.leb_gt _ _) Ld), (proj2 (Nat.leb_gt (length pads) i)), (proj2 (Nat.leb_gt (length pads) (length ins + i))) by lia.
  cbn [orb]. rewrite !elem_total by lia. cbn [mbind res_bind]. rewrite Th, Tt, E. cbn [mbind res_bind]. rewrite (proj2 (Z.leb_gt out 0)) by lia.
  eexists. split; [reflexivity|]. eexists _, (outs ++ [out]). split; [by rewrite <- app_assoc|]. split; [by rewrite !length_insert|]. split; [rewrite length_app; cbn; lia|]. split.
  - intros k Hk. destruct (decide (k = i)) as [->|Hne].
    + rewrite list_lookup_total_insert_ne by lia. rewrite list_lookup_total_insert_eq by lia. rewrite list_lookup_total_insert_eq by (rewrite length_insert; lia).
      rewrite lookup_total_app_r by lia. by replace (i - length outs)%nat with 0%nat by lia.
    + rewrite !list_lookup_total_insert_ne by lia. rewrite lookup_total_app_l by lia. apply Hdone. lia.
  - intros k Hk. rewrite !list_lookup_total_insert_ne by lia. apply Htodo. lia.
Qed.
Lemma InferOutputShape_ok : ∃ pads outs, InferOutputShape c false ins ks strides dilations pads0 Y0 = Ok (StatusOK, pads, Y0 ++ outs) ∧ length pads = length pads0 ∧ length outs = length ins ∧
  ∀ i, (i < length ins)%nat → sized i (pads !!! i) (pads !!! (length ins + i)%nat) (outs !!! i).
Proof.
  unfold InferOutputShape. destruct (foldM_seq inferred (infer_dim c false ins ks strides dilations) (StatusOK, pads0, Y0) 0 (length ins)) as (acc & E & H).
  - intros i acc Hi H. by apply infer_dim_ok; [lia|].
  - exists pads0, []. rewrite app_nil_r. split_and!; [done|done|done|intros; lia|done].
  - destruct H as (pads & outs & -> & Lp & Lo & Hd & _). exists pads, outs. by split_and!.
Qed.
End infer.

(** ** The geometry *)

(** The axes of a geometry. *)
Record GeometryOk (c : ConvBase) (N M Cg : Z) (ins ks : list Z) (g : Geometry) (axes : list Axis) : Prop := {
  go_N : gm_N g = N; go_C : gm_C g = Cg * group_ c; go_M : gm_M g = M;
  go_kernel : gm_kernel g = ks; go_input : gm_input g = ins;
  go_axes : conv_axes g = Ok axes;
  go_Y : gm_Y_dims g = N :: M :: (ax_col <$> axes);
  go_ims : ax_im <$> axes = ins;
  go_ks : ax_kernel <$> axes = ks;
  go_ok : AxesOk axes;
  go_pads : (length ins * 2 ≤ length (gm_pads g))%nat;
  go_windows : ∀ i a, axes !! i = Some a → 1 ≤ ax_im a ∧ 1 ≤ ax_stride a ∧ 1 ≤ ax_dilation a ∧ 0 ≤ ax_pad a ∧ 0 ≤ gm_pads g !!! (length ins + i)%nat ∧
    let dkernel := ax_dilation a * (ax_kernel a - 1) + 1 in
    (ax_col a - 1) * ax_stride a + dkernel ≤ ax_im a + ax_pad a + gm_pads g !!! (length ins + i)%nat < ax_col a * ax_stride a + dkernel ∧ ax_im a + ax_pad a + gm_pads g !!! (length ins + i)%nat ≤ 2 ^ 23;
}.

Section geometry.
Context (c : ConvBase) (N M Cg : Z) (ins ks : list Z) (Ha : ConvArgs c N M Cg ins ks).

Lemma ValidateInputShape_ok : ValidateInputShape c (N :: Cg * group_ c :: ins) (M :: Cg :: ks) = Ok StatusOK.
Proof.
  destruct (ca_pos _ _ _ _ _ _ Ha) as (HN & HM & HC & HG). pose proof (ca_channels _ _ _ _ _ _ Ha). unfold ValidateInputShape. cbn [elem lookup list_lookup of_option mbind res_bind length].
  rewrite (ca_rank _ _ _ _ _ _ Ha), Nat.eqb_refl. cbn [negb]. unfold elem. cbn [lookup list_lookup of_option mbind res_bind]. rewrite int64_op_ok by nia. cbn [mbind res_bind]. rewrite Z.eqb_refl. cbn [negb].
  destruct (Z.eqb_spec (group_ c) 0); [lia|]. by rewrite (proj2 (Z.rem_divide M (group_ c) ltac:(lia)) (ca_groups _ _ _ _ _ _ Ha)).
Qed.
Lemma ComputeKernelShape_ok : ComputeKernelShape c (M :: Cg :: ks) = Ok (StatusOK, ks).
Proof.
  unfold ComputeKernelShape. destruct (kernel_shape_specified_ c) eqn:E; [|done]. rewrite (ca_kernel _ _ _ _ _ _ Ha E). cbn [length drop]. rewrite Nat.add_comm. cbn [Nat.add]. rewrite Nat.eqb_refl. cbn [negb].
  by rewrite bool_decide_true.
Qed.

Abbreviation strides := (or_default (strides_ c) (replicate (length ks) 1)).
Abbreviation dilations := (or_default (dilations_ c) (replicate (length ks) 1)).
Abbreviation pads0 := (or_default (pads_ c) (replicate (length ks * 2) 0)).

(** The axes of a geometry with given padding and sizes. *)
Lemma axes_exist g pads outs :
  g = mkGeometry N (Cg * group_ c) M ks pads dilations strides ins (N :: M :: outs) → length pads = length pads0 → length outs = length ins →
  (∀ i, (i < length ins)%nat → sized c ins ks strides dilations pads0 i (pads !!! i) (pads !!! (length ins + i)%nat) (outs !!! i)) →
  ∃ axes, conv_axes g = Ok axes ∧ length axes = length ins ∧
    ∀ i a, axes !! i = Some a → a = mkAxis (ins !!! i) (outs !!! i) (ks !!! i) (strides !!! i) (dilations !!! i) (pads !!! i).
Proof.
  intros Eg Lp Lo Hs. pose proof (ca_rank _ _ _ _ _ _ Ha) as Lk.
  assert (Hax : ∀ i, (i < length ins)%nat → conv_axis g i = Some (mkAxis (ins !!! i) (outs !!! i) (ks !!! i) (strides !!! i) (dilations !!! i) (pads !!! i))).
  { intros i Hi. destruct (ca_axes _ _ _ _ _ _ Ha i Hi) as [Ls Ld Lpd _ _ _ _]. rewrite Eg. unfold conv_axis. cbn [gm_input gm_Y_dims gm_kernel gm_strides gm_dilations gm_pads]. rewrite !skipn_cons, drop_0.
    rewrite (list_lookup_lookup_total_lt ins i), (list_lookup_lookup_total_lt outs i), (list_lookup_lookup_total_lt ks i), (list_lookup_lookup_total_lt strides i), (list_lookup_lookup_total_lt dilations i), (list_lookup_lookup_total_lt pads i) by lia. done. }
  destruct (mapM_is_Some_2 (conv_axis g) (seq 0 (length ks))) as [axes E].
  { apply Forall_forall. intros i Hi. apply elem_of_seq in Hi. unfold compose. rewrite Hax by lia. by eexists. }
  exists axes. unfold conv_axes. rewrite Eg at 1 2. cbn [gm_kernel]. rewrite <- Eg, E. split; [done|]. apply mapM_Some in E. pose proof (Forall2_length _ _ _ E) as La. rewrite length_seq in La.
  split; [lia|]. intros i a Hia. assert (Hi : (i < length ins)%nat) by (apply lookup_lt_Some in Hia; lia).
  pose proof (Forall2_lookup_lr _ _ _ i i a E ltac:(apply lookup_seq; lia) Hia) as Hx. cbn in Hx. rewrite Hax in Hx by lia. by injection Hx.
Qed.
Lemma fmap_axes {f : Axis → Z} (axes : list Axis) l : length axes = length l → (∀ i a, axes !! i = Some a → f a = l !!! i) → f <$> axes = l.
Proof.
  intros L Hf. apply list_eq_same_length with (length l); [done|by rewrite length_fmap|]. intros i x y Hi Hx Hy. rewrite list_lookup_fmap in Hx. destruct (axes !! i) as [a|] eqn:Ea; [|done]. injection Hx as <-.
  rewrite (Hf i a Ea). by apply list_lookup_total_correct.
Qed.
Lemma conv_geometry_ok : ∃ g axes, conv_geometry c (N :: Cg * group_ c :: ins) (M :: Cg :: ks) = Ok (StatusOK, Some g) ∧ GeometryOk c N M Cg ins ks g axes.
Proof.
  pose proof (ca_rank _ _ _ _ _ _ Ha) as Lk. unfold conv_geometry. unfold elem. cbn [lookup list_lookup of_option mbind res_bind].
  rewrite ValidateInputShape_ok. cbn [mbind res_bind IsOK StatusOK negb]. rewrite ComputeKernelShape_ok. cbn [mbind res_bind IsOK StatusOK negb].
  fold strides dilations pads0. unfold Slice. rewrite Nat.leb_refl. cbn [length Nat.leb andb enforce mbind res_bind]. rewrite !skipn_cons, drop_0, take_ge by lia.
  destruct (InferOutputShape_ok c ins ks strides dilations pads0 [N; M] Lk (ca_axes _ _ _ _ _ _ Ha)) as (pads & outs & -> & Lp & Lo & Hs). cbn [mbind res_bind IsOK StatusOK negb app].
  eexists. destruct (axes_exist _ pads outs eq_refl Lp Lo Hs) as (axes & Eaxes & La & Hax). exists axes. split; [reflexivity|].
  assert (Ecol : ax_col <$> axes = outs) by (apply fmap_axes; [lia|]; intros i a Hi; by rewrite (Hax i a Hi)).
  split; cbn [gm_N gm_C gm_M gm_kernel gm_input gm_Y_dims gm_pads]; try done.
  - by rewrite Ecol.
  - apply fmap_axes; [lia|]. intros i a Hi. by rewrite (Hax i a Hi).
  - apply fmap_axes; [lia|]. intros i a Hi. by rewrite (Hax i a Hi).
  - split; apply Forall_lookup_2; intros i a Hi; rewrite (Hax i a Hi); assert (Hlt : (i < length ins)%nat) by (apply lookup_lt_Some in Hi; lia); cbn [ax_col ax_kernel].
    + apply (Hs i Hlt).
    + apply (ca_axes _ _ _ _ _ _ Ha i Hlt).
  - destruct (decide (length ins = 0)%nat) as [->|]; [cbn; lia|]. pose proof (af_pads _ _ _ _ _ _ _ (ca_axes _ _ _ _ _ _ Ha (length ins - 1) ltac:(lia))). lia.
  - intros i a Hi. assert (Hlt : (i < length ins)%nat) by (apply lookup_lt_Some in Hi; lia). rewrite (Hax i a Hi). cbn [ax_im ax_col ax_stride ax_dilation ax_pad ax_kernel].
    destruct (Hs i Hlt) as (_ & H1 & H2 & H3 & H4). destruct (af_pos _ _ _ _ _ _ _ (ca_axes _ _ _ _ _ _ Ha i Hlt)) as (P1 & P2 & P3 & P4). cbv zeta in H4. split_and!; try done; apply H4.
Qed.
End geometry.
