(* ===== verification/ConvProps.v ===== *)
(** What the convolution kernels compute. *)
From S2P Require Import Prelude TensorShape Transpose TransposeProps BroadcastInv DataMove DataMoveRows ConcatSplit Im2col Im2colProps Im2colNdProps Im2colRoundtrip Conv ConvShapes ConvGeometry.

Lemma le_mul_r a b : 1 ≤ a → 0 ≤ b → b ≤ a * b.
Proof. nia. Qed.
Lemma mul_pos a b : 1 ≤ a → 1 ≤ b → 1 ≤ a * b.
Proof. nia. Qed.

(** Where an element of the output is. *)
Lemma position_bound M osz n m j : 0 ≤ n → 0 ≤ m < M → 0 ≤ j < osz → n * (M * osz) ≤ (n * M + m) * osz + j < (n + 1) * (M * osz).
Proof. intros Hn Hm Hj. assert (0 ≤ m * osz + j < M * osz) by nia. lia. Qed.

(** ** The loops over images and groups *)

Section sizes.
Context (c : ConvBase) (N M Cg : Z) (ins ks : list Z) (Ha : ConvArgs c N M Cg ins ks).
Abbreviation G := (group_ c).
Abbreviation Mg := (M / G).
Lemma group_facts : 1 ≤ G ∧ M = Mg * G ∧ 1 ≤ Mg ∧ Z.quot M G = Mg ∧ Z.quot (Cg * G) G = Cg.
Proof.
  destruct (ca_pos _ _ _ _ _ _ Ha) as (HN & HM & HC & HG1). destruct (ca_groups _ _ _ _ _ _ Ha) as [q Eq]. rewrite Eq, Z.div_mul, !Z.quot_mul by lia. split_and!; [lia|done|nia|done|done].
Qed.
Context (g : Geometry) (axes : list Axis) (Hg : GeometryOk c N M Cg ins ks g axes).
Abbreviation isz := (prodZ ins).
Abbreviation ksz := (prodZ ks).
Abbreviation osz := (prodZ (ax_col <$> axes)).
Abbreviation K := (Cg * ksz).

Lemma ins_pos : Forall (fun d => 1 ≤ d) ins.
Proof. rewrite <- (go_ims _ _ _ _ _ _ _ _ Hg), Forall_fmap. apply Forall_lookup_2. intros i a Hi. apply (go_windows _ _ _ _ _ _ _ _ Hg i a Hi). Qed.
Lemma conv_sizes_pos : 1 ≤ isz ∧ 1 ≤ ksz ∧ 1 ≤ osz ∧ 1 ≤ Cg ∧ 1 ≤ K.
Proof.
  destruct (ca_pos _ _ _ _ _ _ Ha) as (HN & HM & HC & HG1). pose proof (prodZ_pos _ ins_pos). pose proof (ncols_pos axes (go_ok _ _ _ _ _ _ _ _ Hg)). pose proof (nkernel_pos axes (go_ok _ _ _ _ _ _ _ _ Hg)) as Hk.
  rewrite (go_ks _ _ _ _ _ _ _ _ Hg) in Hk. split_and!; try lia; nia.
Qed.

(** ** The columns *)

(** The element of the image that a cell [k] of the filter meets at position
    [j] of the output; [base] is where the channels of the group start. *)
Definition tap {A} (padding : A) (data : list A) (base k j : Z) : A :=
  match nd_place axes (k / ksz) (d_offset j (ax_col <$> axes)) (d_offset k ks) with
  | Some q => default padding (data !! Z.to_nat (base + q))
  | None => padding
  end.
(** The columns hold the elements that the cells meet. *)
Definition columns {A} (padding : A) (data : list A) (base : Z) (col : list A) : Prop :=
  Z.of_nat (length col) = K * osz ∧ ∀ k j, 0 ≤ k < K → 0 ≤ j < osz → col !! Z.to_nat (k * osz + j) = Some (tap padding data base k j).

Lemma d_offset_rem x dims : Forall (fun d => 1 ≤ d) dims → 0 ≤ x → d_offset (x mod prodZ dims) dims = d_offset x dims.
Proof.
  intros Hd Hx. pose proof (prodZ_pos _ Hd). destruct (flat_surj dims (x mod prodZ dims) Hd ltac:(apply Z.mod_pos_bound; lia)) as (o & Ho & Eo).
  pose proof (d_offset_ok dims o 0 ltac:(lia) Ho) as E0. pose proof (d_offset_ok dims o (x / prodZ dims) ltac:(apply Z.div_pos; lia) Ho) as E1. rewrite Z.mul_0_l, Z.add_0_l, Eo in E0. rewrite E0.
  rewrite Eo, Z.mul_comm, <- Z.div_mod in E1 by lia. done.
Qed.
Lemma filled_columns {A} (padding : A) (data : list A) base col :
  0 ≤ base → filled (column padding (nd_cell axes) (drop (Z.to_nat base) data)) (K * osz) (K * osz) col → columns padding data base col.
Proof.
  intros Hb [L H]. destruct conv_sizes_pos as (I1 & K1 & O1 & C1 & _). split; [done|]. intros k j Hk Hj. assert (0 ≤ k * osz + j < K * osz) by nia. rewrite H by done. f_equal. unfold column, tap, nd_cell.
  destruct (div_mod_add k osz j Hj) as [-> ->]. rewrite (go_ks _ _ _ _ _ _ _ _ Hg). rewrite d_offset_rem; [|rewrite <- (go_ks _ _ _ _ _ _ _ _ Hg), Forall_fmap; apply (go_ok _ _ _ _ _ _ _ _ Hg)|lia].
  destruct (nd_place _ _ _ _) as [q|] eqn:E; [|done]. rewrite lookup_drop. f_equal. f_equal.
  assert (Hci : 0 ≤ k / ksz < Cg) by (split; [apply Z.div_pos; lia|apply Z.div_lt_upper_bound; lia]).
  assert (Lk : length ks = length axes) by (rewrite <- (go_ks _ _ _ _ _ _ _ _ Hg); apply length_fmap).
  pose proof (nd_place_bound axes Cg (k / ksz) (d_offset j (ax_col <$> axes)) (d_offset k ks) q Hci) as Hq. rewrite !length_d_offset, length_fmap in Hq. specialize (Hq eq_refl Lk E). lia.
Qed.

(** Unfolding along the axes. *)
Lemma Im2colNd_columns {A} (add : A → A → A) (padding : A) (data : list A) base col :
  0 ≤ base → base + Cg * isz ≤ Z.of_nat (length data) → Z.of_nat (length col) = K * osz →
  ∃ col', Im2colNd add axes (drop (Z.to_nat base) data) false padding K col = Ok col' ∧ columns padding data base col'.
Proof.
  intros Hb Hd Hc. destruct conv_sizes_pos as (I1 & K1 & O1 & C1 & _).
  destruct (im2colnd_filled axes (go_ok _ _ _ _ _ _ _ _ Hg) Cg ltac:(lia) add padding (drop (Z.to_nat base) data) col) as (col' & E & H).
  - rewrite (go_ims _ _ _ _ _ _ _ _ Hg), length_drop. lia.
  - rewrite (go_ks _ _ _ _ _ _ _ _ Hg). split; [done|lia].
  - rewrite (go_ks _ _ _ _ _ _ _ _ Hg) in E, H. exists col'. split; [done|]. by apply filled_columns.
Qed.

(** The sizes of the tensors and of the columns fit into [int64_t], and the
    counters into [int]. *)
Context (HY : N * (M * osz) < 2 ^ 63) (HX : Cg * isz < 2 ^ 63) (HW : M * K < 2 ^ 63) (HB : K * osz < 2 ^ 31).
Lemma conv_offsets_ok : conv_offsets c g (M :: Cg :: ks) = Ok (mkOffsets osz (Cg * isz) (Mg * osz) (Mg * K) K (K * osz)).
Proof.
  destruct (ca_pos _ _ _ _ _ _ Ha) as (HN & HM & HC & HG1). destruct group_facts as (G1 & EM & HMg & Q1 & Q2). destruct conv_sizes_pos as (I1 & K1 & O1 & _ & KK).
  destruct (go_ok _ _ _ _ _ _ _ _ Hg) as [Hcols Hkern]. pose proof (go_ks _ _ _ _ _ _ _ _ Hg) as Eks.
  assert (Fc : Forall (fun d => 1 ≤ d) (ax_col <$> axes)) by (by rewrite Forall_fmap). assert (Fk : Forall (fun d => 1 ≤ d) ks) by (rewrite <- Eks; by rewrite Forall_fmap).
  pose proof ins_pos as Fi. unfold conv_offsets. rewrite (go_input _ _ _ _ _ _ _ _ Hg), (go_Y _ _ _ _ _ _ _ _ Hg), (go_kernel _ _ _ _ _ _ _ _ Hg), (go_N _ _ _ _ _ _ _ _ Hg), (go_C _ _ _ _ _ _ _ _ Hg).
  rewrite !skipn_cons, drop_0. assert (O0 : 0 ≤ osz) by lia. pose proof (mul_pos M _ HM O1) as MO. pose proof (le_mul_r M _ HM O0). assert (MO0 : 0 ≤ M * osz) by lia. pose proof (le_mul_r N _ (proj1 HN) MO0). pose proof (le_mul_r Cg isz HC ltac:(lia)).
  pose proof (le_mul_r Cg ksz HC ltac:(lia)). pose proof (le_mul_r M K HM ltac:(lia)). pose proof (mul_pos K _ KK O1). pose proof (mul_pos Cg G HC G1). pose proof (ca_channels _ _ _ _ _ _ Ha).
  rewrite (Size_ok ins), (Size_ok (ax_col <$> axes)), (Size_ok ks), (Size_ok (N :: M :: _)), (Size_ok (M :: Cg :: ks)); try done; try lia; try (constructor; [lia|constructor; [lia|done]]); try (rewrite !prodZ_cons; lia).
  rewrite !prodZ_cons. rewrite (int64_div_ok (Cg * G)) by lia. cbn [mbind res_bind]. rewrite (Z.div_mul Cg) by lia. rewrite (int64_op_ok (Cg * isz)) by lia. cbn [mbind res_bind].
  rewrite (int64_div_ok (N * _)) by lia. cbn [mbind res_bind]. rewrite (Z.mul_comm N (M * osz)), Z.div_mul by lia. rewrite (int64_div_ok (M * osz)) by lia. cbn [mbind res_bind].
  rewrite (int64_div_ok (M * K)) by lia. cbn [mbind res_bind]. rewrite (int64_op_ok K) by lia. cbn [mbind res_bind]. rewrite (int64_op_ok (K * osz)) by lia. cbn [mbind res_bind]. do 2 f_equal.
  - rewrite EM at 1. replace (Mg * G * osz) with (Mg * osz * G) by ring. by rewrite Z.div_mul by lia.
  - rewrite EM at 1. replace (Mg * G * K) with (Mg * K * G) by ring. by rewrite Z.div_mul by lia.
Qed.
End sizes.

(** ** ConvInteger *)

(** What gemmlowp documents: an element of the result is the product of a row of
    the one matrix and a column of the other, after the offsets are added, in the
    arithmetic of [int32_t]. *)
Definition gemmlowp_spec (gemmlowp : Z → Z → Z → list Z → list Z → Z → Z → list Z) : Prop :=
  ∀ m n k lhs rhs lhs_offset rhs_offset, 0 < m → 0 < n → 0 < k → m * k ≤ Z.of_nat (length lhs) → k * n ≤ Z.of_nat (length rhs) →
    Z.of_nat (length (gemmlowp m n k lhs rhs lhs_offset rhs_offset)) = m * n ∧
    ∀ i j, 0 ≤ i < m → 0 ≤ j < n →
      gemmlowp m n k lhs rhs lhs_offset rhs_offset !! Z.to_nat (i * n + j) =
        Some (i32 (zsum ((fun x => (lhs !!! Z.to_nat (i * k + x) + lhs_offset) * (rhs !!! Z.to_nat (x * n + j) + rhs_offset)) <$> seqZ 0 k))).

Section conv_integer.
Context (c : ConvBase) (N M Cg : Z) (ins ks : list Z) (g : Geometry) (axes : list Axis).
Context (Ha : ConvArgs c N M Cg ins ks) (Hg : GeometryOk c N M Cg ins ks g axes).
Abbreviation G := (group_ c).
Abbreviation Mg := (M / G).
Abbreviation isz := (prodZ ins).
Abbreviation ksz := (prodZ ks).
Abbreviation osz := (prodZ (ax_col <$> axes)).
Abbreviation K := (Cg * ksz).
Context (HY : N * (M * osz) < 2 ^ 63) (HX : Cg * isz < 2 ^ 63) (HW : M * K < 2 ^ 31) (HB : K * osz < 2 ^ 31).
Context (garbage : Z) (gemmlowp : Z → Z → Z → list Z → list Z → Z → Z → list Z) (Hgemm : gemmlowp_spec gemmlowp).
Context (X W : list Z) (LX : Z.of_nat (length X) = N * (Cg * G * isz)) (LW : Z.of_nat (length W) = M * K) (xz wz : Z).
Abbreviation offsets := (mkOffsets osz (Cg * isz) (Mg * osz) (Mg * K) K (K * osz)).

(** The element of the output for the filter [m] at the position [j]; [base] is
    the position of the image. *)
Definition dot_int (base m j : Z) : Z :=
  i32 (zsum ((fun k => (W !!! Z.to_nat (m * K + k) - wz) * (tap ks axes xz X base k j - xz)) <$> seqZ 0 K)).

Lemma i32_sizes : i32 (Z.quot M G) = Mg ∧ i32 osz = osz ∧ i32 K = K ∧ 0 < Mg ∧ 0 < osz ∧ 0 < K.
Proof.
  destruct (group_facts c N M Cg ins ks Ha) as (G1 & EM & HMg & Q1 & _). destruct (conv_sizes_pos c N M Cg ins ks Ha g axes Hg) as (_ & _ & O1 & _ & KK).
  assert (O0 : 0 ≤ osz) by lia. assert (K0 : 0 ≤ K) by lia. pose proof (le_mul_r _ _ KK O0) as B1. pose proof (le_mul_r _ _ O1 K0) as B2. pose proof (ca_pos _ _ _ _ _ _ Ha) as (_ & HM & _). assert (M0 : 0 ≤ M) by lia. pose proof (le_mul_r _ _ KK M0) as B3.
  pose proof (le_mul_r _ _ HM K0) as B4.
  assert (Mg ≤ M) by (apply Z.div_le_upper_bound; nia). rewrite Q1, !i32_small by lia. split_and!; lia.
Qed.
(** One group of one image. *)
Lemma conv_integer_group_ok x y group_id col Y :
  0 ≤ group_id < G → 0 ≤ x → x + G * (Cg * isz) ≤ Z.of_nat (length X) → Z.of_nat (length col) = K * osz → 0 ≤ y → y + Mg * osz ≤ Z.of_nat (length Y) →
  ∃ col' Y' product, conv_integer_group gemmlowp c g offsets axes X W xz wz x y (col, Y) group_id = Ok (col', Y') ∧ Z.of_nat (length col') = K * osz ∧
    memcpy Y y product 0 (Mg * osz) = Ok Y' ∧ length Y' = length Y ∧
    ∀ i j, 0 ≤ i < Mg → 0 ≤ j < osz → product !! Z.to_nat (i * osz + j) = Some (dot_int (x + group_id * (Cg * isz)) (group_id * Mg + i) j).
Proof.
  intros Hid Hx HxX Hcol Hy HyY. destruct i32_sizes as (E1 & E2 & E3 & P1 & P2 & P3). destruct (conv_sizes_pos c N M Cg ins ks Ha g axes Hg) as (I1 & _ & _ & C1 & _).
  destruct (group_facts c N M Cg ins ks Ha) as (G1 & EM & _). assert (CI : 0 ≤ Cg * isz) by nia. assert (B : (group_id + 1) * (Cg * isz) ≤ G * (Cg * isz)) by (apply Z.mul_le_mono_nonneg_r; lia).
  unfold conv_integer_group. cbn [X_offset kernel_dim output_image_size W_offset].
  destruct (Im2colNd_columns c N M Cg ins ks Ha g axes Hg Z.add xz X (x + group_id * (Cg * isz)) col) as (col' & -> & Lc & Hc); [nia|lia|done|]. cbn [mbind res_bind].
  rewrite (go_M _ _ _ _ _ _ _ _ Hg), E1, E2, E3. assert (Hw : (group_id + 1) * (Mg * K) ≤ M * K) by (rewrite EM at 2; nia). assert (MK : 0 ≤ group_id * (Mg * K)) by nia.
  destruct (Hgemm Mg osz K (drop (Z.to_nat (group_id * (Mg * K))) W) col' (- wz) (- xz) P1 P2 P3) as [Lp Hp]; [rewrite length_drop; lia|lia|].
  set (product := gemmlowp _ _ _ _ _ _ _) in *. clearbody product. destruct (memcpy_ok Y y product 0 (Mg * osz)) as (Y' & EY & LY' & _); [lia|lia|nia|lia|lia|].
  exists col', Y', product. rewrite EY. split; [done|]. split; [done|]. split; [done|]. split; [done|]. intros i j Hi Hj. rewrite Hp by done. unfold dot_int. do 2 f_equal. f_equal. apply list_fmap_ext. intros n k Hk.
  apply list_elem_of_lookup_2, elem_of_seqZ in Hk. rewrite lookup_total_drop. f_equal.
  - rewrite <- Z2Nat.inj_add by nia. replace (group_id * (Mg * K) + (i * K + k)) with ((group_id * Mg + i) * K + k) by ring. lia.
  - rewrite (list_lookup_total_correct _ _ _ (Hc k j ltac:(lia) Hj)). lia.
Qed.

Abbreviation S := (M * osz).
Abbreviation Loop := (fun s image_id => for_int G (conv_integer_group gemmlowp c g offsets axes X W xz wz (image_id * (Cg * isz * G)) (image_id * (Mg * osz * G))) s).

(** An invariant of the images from one of the groups. *)
Lemma images_inv (I : Z → list Z → Prop) col Y :
  Z.of_nat (length col) = K * osz → Z.of_nat (length Y) = N * S → I 0 Y →
  (∀ n group_id Y Y' product, 0 ≤ n < N → 0 ≤ group_id < G → Z.of_nat (length Y) = N * S → I (n * G + group_id) Y → memcpy Y (n * S) product 0 (Mg * osz) = Ok Y' →
     (∀ i j, 0 ≤ i < Mg → 0 ≤ j < osz → product !! Z.to_nat (i * osz + j) = Some (dot_int (n * (Cg * G * isz) + group_id * (Cg * isz)) (group_id * Mg + i) j)) → I (n * G + group_id + 1) Y') →
  ∃ col' Y', for_int N Loop (col, Y) = Ok (col', Y') ∧ Z.of_nat (length Y') = N * S ∧ I (N * G) Y'.
Proof.
  intros Lc LY H0 Hstep. destruct (ca_pos _ _ _ _ _ _ Ha) as (HN & HM & HC & HG1). destruct (group_facts c N M Cg ins ks Ha) as (G1 & EM & _). destruct (conv_sizes_pos c N M Cg ins ks Ha g axes Hg) as (I1 & _ & O1 & _ & _).
  destruct (for_int_inv (fun n s => Z.of_nat (length (fst s)) = K * osz ∧ Z.of_nat (length (snd s)) = N * S ∧ I (n * G) (snd s)) N Loop (col, Y)) as ([col' Y'] & E & _ & L' & H'); [lia|by split_and!| |by exists col', Y'].
  intros n [col1 Y1] Hn (L1 & LY1 & H1). cbn [fst snd] in *.
  assert (Hgoal : ∃ s', for_int G (conv_integer_group gemmlowp c g offsets axes X W xz wz (n * (Cg * isz * G)) (n * (Mg * osz * G))) (col1, Y1) = Ok s' ∧
    (Z.of_nat (length (fst s')) = K * osz ∧ Z.of_nat (length (snd s')) = N * S ∧ I (n * G + G) (snd s'))).
  { apply (for_int_inv (fun group_id s => Z.of_nat (length (fst s)) = K * osz ∧ Z.of_nat (length (snd s)) = N * S ∧ I (n * G + group_id) (snd s))); [lia|by rewrite Z.add_0_r|].
    intros group_id [col2 Y2] Hid (L2 & LY2 & H2). cbn [fst snd] in *. assert (CI : 0 ≤ Cg * isz * G) by (apply Z.mul_nonneg_nonneg; nia). assert (HS : 1 ≤ S) by nia.
    assert (B1 : (n + 1) * (Cg * isz * G) ≤ N * (Cg * isz * G)) by (apply Z.mul_le_mono_nonneg_r; lia). assert (B2 : (n + 1) * S ≤ N * S) by (apply Z.mul_le_mono_nonneg_r; lia).
    assert (ES : Mg * osz * G = S) by (rewrite EM at 2; ring). assert (B3 : 1 * (Mg * osz) ≤ G * (Mg * osz)) by (apply Z.mul_le_mono_nonneg_r; [|lia]; destruct i32_sizes as (_ & _ & _ & ? & ? & _); nia).
    destruct (conv_integer_group_ok (n * (Cg * isz * G)) (n * (Mg * osz * G)) group_id col2 Y2) as (col3 & Y3 & product & E3 & L3 & EY & LY3 & Hp); [done|nia|rewrite LX; lia|done|rewrite ES; nia|rewrite ES; lia|].
    rewrite ES in EY, E3. rewrite ES. exists (col3, Y3). split; [done|]. cbn [fst snd]. split; [done|]. split; [lia|].
    rewrite Z.add_assoc. apply (Hstep n group_id Y2 Y3 product); try done. intros i j Hi Hj. rewrite Hp by done. do 2 f_equal. ring. }
  destruct Hgoal as (s' & Es & L' & LY' & H'). exists s'. split; [done|]. split; [done|]. split; [done|]. by replace ((n + 1) * G) with (n * G + G) by ring.
Qed.
(** Without groups every image is written. *)
Lemma one_group col Y :
  G = 1 → Z.of_nat (length col) = K * osz → Z.of_nat (length Y) = N * S →
  ∃ col' Y', for_int N Loop (col, Y) = Ok (col', Y') ∧
    ∀ n m j, 0 ≤ n < N → 0 ≤ m < M → 0 ≤ j < osz → Y' !! Z.to_nat ((n * M + m) * osz + j) = Some (dot_int (n * (Cg * isz)) m j).
Proof.
  intros HG Lc LY. assert (EMg : Mg = M) by (rewrite HG; apply Z.div_1_r).
  destruct (images_inv (fun x Y => ∀ n m j, 0 ≤ n < x → 0 ≤ m < M → 0 ≤ j < osz → Y !! Z.to_nat ((n * M + m) * osz + j) = Some (dot_int (n * (Cg * isz)) m j)) col Y) as (col' & Y' & E & _ & H).
  - done.
  - done.
  - intros; lia.
  - intros n group_id Y1 Y2 product Hn Hid L1 H1 EY Hp n' m j Hn' Hm Hj. assert (group_id = 0) as -> by lia. rewrite HG in Hn', H1. rewrite EMg in EY, Hp. pose proof (position_bound M osz n' m j ltac:(lia) Hm Hj) as Hpos.
    destruct (decide (n' = n)) as [->|Hne].
    + assert (HS : 0 ≤ S) by nia. pose proof (memcpy_elem _ _ _ _ _ _ (m * osz + j) EY) as Hx. replace ((n * M + m) * osz + j) with (n * S + (m * osz + j)) by ring. rewrite Hx, Z.add_0_l by lia.
      rewrite Hp by done. do 2 f_equal; rewrite ?HG; ring.
    + assert (HS : 0 ≤ S) by nia. assert (0 ≤ n' * S) by nia. assert ((n' + 1) * S ≤ n * S) by (apply Z.mul_le_mono_nonneg_r; lia). rewrite (memcpy_outside _ _ _ _ _ _ _ EY) by lia. apply H1; lia.
  - exists col', Y'. split; [done|]. intros n m j Hn. apply H. lia.
Qed.
(** With groups only the first part of every image is written. *)
Lemma other_groups col Y :
  Z.of_nat (length col) = K * osz → Z.of_nat (length Y) = N * S →
  ∃ col' Y', for_int N Loop (col, Y) = Ok (col', Y') ∧ length Y' = length Y ∧
    ∀ n m j, 0 ≤ n < N → Mg ≤ m < M → 0 ≤ j < osz → Y' !! Z.to_nat ((n * M + m) * osz + j) = Y !! Z.to_nat ((n * M + m) * osz + j).
Proof.
  intros Lc LY. destruct (group_facts c N M Cg ins ks Ha) as (G1 & EM & HMg & _).
  destruct (images_inv (fun _ Y1 => ∀ n m j, 0 ≤ n < N → Mg ≤ m < M → 0 ≤ j < osz → Y1 !! Z.to_nat ((n * M + m) * osz + j) = Y !! Z.to_nat ((n * M + m) * osz + j)) col Y) as (col' & Y' & E & L' & H); [done|done|done| |].
  - intros n group_id Y1 Y2 product Hn Hid L1 H1 EY Hp n' m j Hn' Hm Hj. pose proof (position_bound M osz n' m j ltac:(lia) ltac:(lia) Hj) as Hpos. rewrite <- H1 by done. apply (memcpy_outside _ _ _ _ _ _ _ EY).
    assert (HS : 0 ≤ S) by nia. assert (0 ≤ n' * S) by nia. destruct (Z.lt_trichotomy n' n) as [Hlt|[->|Hgt]].
    + assert ((n' + 1) * S ≤ n * S) by (apply Z.mul_le_mono_nonneg_r; lia). lia.
    + right. assert (Mg * osz ≤ m * osz) by (apply Z.mul_le_mono_nonneg_r; lia). lia.
    + right. assert ((n + 1) * S ≤ n' * S) by (apply Z.mul_le_mono_nonneg_r; lia). assert (Mg * osz ≤ M * osz) by (apply Z.mul_le_mono_nonneg_r; nia). lia.
  - exists col', Y'. split; [done|]. split; [lia|done].
Qed.
Lemma images_run xzp wzp :
  conv_geometry c (N :: Cg * G :: ins) (M :: Cg :: ks) = Ok (StatusOK, Some g) → zero_point xzp = Ok (StatusOK, xz) → zero_point wzp = Ok (StatusOK, wz) →
  ConvInteger_Compute garbage gemmlowp c (N :: Cg * G :: ins, X) (M :: Cg :: ks, W) xzp wzp =
    ('(_, Y) ← for_int N Loop (replicate (Z.to_nat (K * osz)) garbage, replicate (Z.to_nat (N * S)) garbage); Ok (StatusOK, Some (N :: M :: (ax_col <$> axes), Y))).
Proof.
  intros Eg Exz Ewz. unfold ConvInteger_Compute. rewrite Exz, Ewz. cbn [mbind res_bind IsOK StatusOK negb fst snd]. rewrite Eg. cbn [mbind res_bind].
  rewrite (conv_offsets_ok c N M Cg ins ks Ha g axes Hg) by lia. cbn [mbind res_bind]. rewrite (go_axes _ _ _ _ _ _ _ _ Hg). cbn [mbind res_bind col_buffer_size X_offset Y_offset].
  rewrite (go_Y _ _ _ _ _ _ _ _ Hg), (go_N _ _ _ _ _ _ _ _ Hg). unfold new_output. by rewrite !prodZ_cons.
Qed.
End conv_integer.

(** The sizes of a call fit into the types of the code. *)
Definition sizes_fit (N M Cg : Z) (ins ks : list Z) (axes : list Axis) : Prop :=
  N * (M * prodZ (ax_col <$> axes)) < 2 ^ 63 ∧ Cg * prodZ ins < 2 ^ 63 ∧ M * (Cg * prodZ ks) < 2 ^ 31 ∧ Cg * prodZ ks * prodZ (ax_col <$> axes) < 2 ^ 31.

Lemma geometry_ok_of c N M Cg ins ks g axes :
  ConvArgs c N M Cg ins ks → conv_geometry c (N :: Cg * group_ c :: ins) (M :: Cg :: ks) = Ok (StatusOK, Some g) → conv_axes g = Ok axes → GeometryOk c N M Cg ins ks g axes.
Proof.
  intros Ha Eg Eax. destruct (conv_geometry_ok c N M Cg ins ks Ha) as (g' & axes' & Eg' & Hg). rewrite Eg in Eg'. injection Eg' as <-. pose proof (go_axes _ _ _ _ _ _ _ _ Hg) as E. rewrite Eax in E. by injection E as <-.
Qed.

(** The zero point [x] of a whole tensor: none, a scalar, or a tensor of one
    element. *)
Inductive per_tensor : option (list Z * list Z) → Z → Prop :=
  | per_tensor_none : per_tensor None 0
  | per_tensor_scalar x : per_tensor (Some ([], [x])) x
  | per_tensor_single x : per_tensor (Some ([1], [x])) x.
Lemma zero_point_ok t x : per_tensor t x → zero_point t = Ok (StatusOK, x).
Proof. by destruct 1. Qed.
(** A vector with a zero point for each channel is not refused: its first element
    is taken for all (conv_integer.cc:24). *)
Lemma zero_point_vector n x l : zero_point (Some ([n], x :: l)) = Ok (StatusOK, x).
Proof. done. Qed.

(** C13. [ConvInteger] without groups and with zero points of whole tensors
    (absent, a scalar or a single element; [zero_point_vector] shows what the code
    makes of one per channel), given a product of matrices that does what gemmlowp
    documents: every element of the output is the sum, over the channels
    and the cells of the filter, of the weights less their zero point times the
    elements of the input less theirs; the padding adds nothing, because it is
    filled with the zero point. *)
Theorem conv_integer_correct c N M Cg ins ks g axes garbage gemmlowp X W xzp wzp xz wz :
  gemmlowp_spec gemmlowp → ConvArgs c N M Cg ins ks → group_ c = 1 →
  conv_geometry c (N :: Cg * 1 :: ins) (M :: Cg :: ks) = Ok (StatusOK, Some g) → conv_axes g = Ok axes → sizes_fit N M Cg ins ks axes →
  Z.of_nat (length X) = N * (Cg * prodZ ins) → Z.of_nat (length W) = M * (Cg * prodZ ks) → per_tensor xzp xz → per_tensor wzp wz →
  ∃ Y, ConvInteger_Compute garbage gemmlowp c (N :: Cg * 1 :: ins, X) (M :: Cg :: ks, W) xzp wzp = Ok (StatusOK, Some (N :: M :: (ax_col <$> axes), Y)) ∧
    ∀ n m d, 0 ≤ n < N → 0 ≤ m < M → valid_index (ax_col <$> axes) d →
      Y !! Z.to_nat ((n * M + m) * prodZ (ax_col <$> axes) + flat (ax_col <$> axes) d) =
        Some (i32 (zsum ((fun k =>
          (W !!! Z.to_nat (m * (Cg * prodZ ks) + k) - wz) *
          match nd_place axes (k / prodZ ks) d (d_offset k ks) with Some q => default xz (X !! Z.to_nat (n * (Cg * prodZ ins) + q)) - xz | None => 0 end) <$> seqZ 0 (Cg * prodZ ks)))).
Proof.
  intros Hgemm Ha HG Eg Eax (HY & HX & HW & HB) LX LW Exz%zero_point_ok Ewz%zero_point_ok. rewrite <- HG in Eg at 1. pose proof (geometry_ok_of _ _ _ _ _ _ _ _ Ha Eg Eax) as Hg.
  destruct (conv_sizes_pos c N M Cg ins ks Ha g axes Hg) as (I1 & K1 & O1 & C1 & KK). destruct (ca_pos _ _ _ _ _ _ Ha) as (HN & HM & HC & HG1).
  assert (LX' : Z.of_nat (length X) = N * (Cg * group_ c * prodZ ins)) by (rewrite HG; lia).
  pose proof (images_run c N M Cg ins ks g axes Ha Hg HY HX HW HB garbage gemmlowp X W xz wz xzp wzp Eg Exz Ewz) as Erun.
  destruct (one_group c N M Cg ins ks g axes Ha Hg HX HW HB gemmlowp Hgemm X W LX' LW xz wz (replicate (Z.to_nat (Cg * prodZ ks * prodZ (ax_col <$> axes))) garbage) (replicate (Z.to_nat (N * (M * prodZ (ax_col <$> axes)))) garbage) HG)
    as (col & Y & E & H); [rewrite length_replicate; nia|rewrite length_replicate; nia|].
  rewrite E in Erun. rewrite HG in Erun at 1. exists Y. split; [exact Erun|]. intros n m d Hn Hm Hd. rewrite H by (done || by apply flat_bound). unfold dot_int, tap. pose proof (d_offset_ok _ d 0 ltac:(lia) Hd) as Ed.
  rewrite Z.mul_0_l, Z.add_0_l in Ed. rewrite Ed. do 3 f_equal. apply list_fmap_ext. intros i k _. f_equal. destruct (nd_place _ _ _ _); [done|lia].
Qed.

(** C40. With groups [ConvInteger] returns OK, but the result of every group is
    written to the place of the first one: the part of the output of the other
    groups holds what the memory held before. *)
Theorem conv_integer_groups_lost c N M Cg ins ks g axes garbage gemmlowp X W xzp wzp xz wz :
  gemmlowp_spec gemmlowp → ConvArgs c N M Cg ins ks →
  conv_geometry c (N :: Cg * group_ c :: ins) (M :: Cg :: ks) = Ok (StatusOK, Some g) → conv_axes g = Ok axes → sizes_fit N M Cg ins ks axes →
  Z.of_nat (length X) = N * (Cg * group_ c * prodZ ins) → Z.of_nat (length W) = M * (Cg * prodZ ks) → zero_point xzp = Ok (StatusOK, xz) → zero_point wzp = Ok (StatusOK, wz) →
  ∃ Y, ConvInteger_Compute garbage gemmlowp c (N :: Cg * group_ c :: ins, X) (M :: Cg :: ks, W) xzp wzp = Ok (StatusOK, Some (N :: M :: (ax_col <$> axes), Y)) ∧
    ∀ n m d, 0 ≤ n < N → M / group_ c ≤ m < M → valid_index (ax_col <$> axes) d →
      Y !! Z.to_nat ((n * M + m) * prodZ (ax_col <$> axes) + flat (ax_col <$> axes) d) = Some garbage.
Proof.
  intros Hgemm Ha Eg Eax (HY & HX & HW & HB) LX LW Exz Ewz. pose proof (geometry_ok_of _ _ _ _ _ _ _ _ Ha Eg Eax) as Hg.
  destruct (conv_sizes_pos c N M Cg ins ks Ha g axes Hg) as (I1 & K1 & O1 & C1 & KK). destruct (ca_pos _ _ _ _ _ _ Ha) as (HN & HM & HC & HG1). destruct (group_facts c N M Cg ins ks Ha) as (_ & _ & HMg & _).
  pose proof (images_run c N M Cg ins ks g axes Ha Hg HY HX HW HB garbage gemmlowp X W xz wz xzp wzp Eg Exz Ewz) as Erun.
  destruct (other_groups c N M Cg ins ks g axes Ha Hg HX HW HB gemmlowp Hgemm X W LX LW xz wz (replicate (Z.to_nat (Cg * prodZ ks * prodZ (ax_col <$> axes))) garbage) (replicate (Z.to_nat (N * (M * prodZ (ax_col <$> axes)))) garbage))
    as (col & Y & E & L & H); [rewrite length_replicate; nia|rewrite length_replicate; nia|].
  rewrite E in Erun. exists Y. split; [exact Erun|]. intros n m d Hn Hm Hd. pose proof (flat_bound _ _ Hd) as Hf. rewrite H by done. apply lookup_replicate_2.
  pose proof (position_bound M _ n m _ ltac:(lia) ltac:(lia) Hf) as Hpos. set (S := M * prodZ (ax_col <$> axes)) in *. assert (0 ≤ S) by (unfold S; nia). assert ((n + 1) * S ≤ N * S) by (apply Z.mul_le_mono_nonneg_r; lia). nia.
Qed.
