(* ===== verification/ConvCorrect.v ===== *)
(** The generic [Conv]: with groups and bias, along one, two or more axes. *)
From S2P Require Import Prelude TensorShape Transpose TransposeProps BroadcastInv DataMove DataMoveRows ConcatSplit Im2col Im2colProps Im2colNdProps Im2colRoundtrip Conv ConvShapes ConvGeometry ConvProps.

(** What a product of matrices does: an element is made of a row of the one
    matrix and a column of the other by [dot], the sum of the products in the
    order of the implementation. *)
Definition gemm_spec {A} (zero : A) (dot : list (A * A) → A) (Gemm : Z → Z → Z → list A → list A → list A) : Prop :=
  ∀ m n k a b, 0 < m → 0 < n → 0 < k → m * k ≤ Z.of_nat (length a) → k * n ≤ Z.of_nat (length b) →
    Z.of_nat (length (Gemm m n k a b)) = m * n ∧
    ∀ i j, 0 ≤ i < m → 0 ≤ j < n →
      Gemm m n k a b !! Z.to_nat (i * n + j) = Some (dot ((fun x => (default zero (a !! Z.to_nat (i * k + x)), default zero (b !! Z.to_nat (x * n + j)))) <$> seqZ 0 k)).

Lemma filled_ext {A} (f f' : Z → A) total n l : filled f total n l → (∀ i, 0 ≤ i < n → f i = f' i) → filled f' total n l.
Proof. intros [L H] E. split; [done|]. intros i Hi. rewrite H by done. by rewrite E. Qed.
Lemma Sized_div n s out : 1 ≤ s → (out - 1) * s ≤ n < out * s → n / s + 1 = out.
Proof. intros Hs Hn. assert (n / s = out - 1); [|lia]. symmetry. apply (Z.div_unique n s (out - 1) (n - (out - 1) * s)); lia. Qed.

(** Arithmetic of blocks. *)
Lemma pos_of a : 1 ≤ a → 0 < a.
Proof. lia. Qed.
Lemma nonneg_of a : 1 ≤ a → 0 ≤ a.
Proof. lia. Qed.
Lemma pair_bound i m j n : 0 ≤ i < m → 0 ≤ j < n → 0 ≤ i * n + j < m * n.
Proof. nia. Qed.
Lemma digit_pair e n m : 0 < n → 0 ≤ e < m * n → ∃ i j, e = i * n + j ∧ 0 ≤ i < m ∧ 0 ≤ j < n.
Proof.
  intros Hn He. exists (e / n), (e mod n). pose proof (Z.div_mod e n ltac:(lia)). pose proof (Z.mod_pos_bound e n Hn). split_and!; [lia|apply Z.div_pos; lia|apply Z.div_lt_upper_bound; lia|lia|lia].
Qed.
Lemma block_bound n N i m x : 0 ≤ n < N → 0 ≤ i < m → 1 ≤ x → 0 ≤ n * (x * m) + i * x ∧ n * (x * m) + i * x + x ≤ N * (x * m).
Proof.
  intros Hn Hi Hx. assert (0 ≤ x * m) by nia. assert ((n + 1) * (x * m) ≤ N * (x * m)) by (apply Z.mul_le_mono_nonneg_r; lia). assert ((i + 1) * x ≤ m * x) by (apply Z.mul_le_mono_nonneg_r; lia).
  assert (0 ≤ n * (x * m)) by (apply Z.mul_nonneg_nonneg; lia). assert (0 ≤ i * x) by (apply Z.mul_nonneg_nonneg; lia). lia.
Qed.
Lemma add_le a b : 0 ≤ b → a ≤ a + b.
Proof. lia. Qed.
Lemma drop_bound {A} (l : list A) a b : 0 ≤ a → a + b ≤ Z.of_nat (length l) → b ≤ Z.of_nat (length (drop (Z.to_nat a) l)).
Proof. rewrite length_drop. lia. Qed.

(** ** The bias *)

Section bias.
Context {A : Type} (zero : A) (add : A → A → A) (raw : Z → A) (N M osz : Z) (HM : 1 ≤ M) (O1 : 1 ≤ osz) (B : option (list A)) (LB : ∀ b, B = Some b → Z.of_nat (length b) = M).
Abbreviation S := (M * osz).
(** The elements after the bias is added. *)
Definition biased (i : Z) : A := match B with Some b => add (raw i) (default zero (b !! Z.to_nat (i mod S / osz))) | None => raw i end.
(** The images below are finished, the others wait for the bias. *)
Definition upto (t i : Z) : A := if i <? t then biased i else raw i.
Abbreviation Done := (fun t n Y => filled (upto t) (N * S) n Y).

(** The bias of one element, of an image. *)
Lemma bias_step n m j b Y :
  B = Some b → 0 ≤ n < N → 0 ≤ m < M → 0 ≤ j < osz → Done (n * S + (m * osz + j)) ((n + 1) * S) Y →
  ∃ Y', (x ← read b m; add_at add Y (n * S + (m * osz + j)) x) = Ok Y' ∧ Done (n * S + (m * osz + j) + 1) ((n + 1) * S) Y'.
Proof.
  intros EB Hn Hm Hj [L H]. pose proof (pair_bound m M j osz Hm Hj) as Hq. pose proof (pair_bound n N (m * osz + j) S Hn Hq) as Hi.
  assert (Hlt : n * S + (m * osz + j) < (n + 1) * S) by (rewrite Z.mul_add_distr_r, Z.mul_1_l; apply Z.add_lt_mono_l, Hq).
  assert (Eb : (n * S + (m * osz + j)) mod S / osz = m) by (rewrite (proj2 (div_mod_add n S _ Hq)); apply (div_mod_add m osz j Hj)).
  set (i := n * S + (m * osz + j)) in *. destruct (lookup_lt_is_Some_2 b (Z.to_nat m)) as [x Hx]; [specialize (LB b EB); lia|].
  unfold read at 1. rewrite (proj2 (Z.ltb_ge m 0)) by apply Hm. rewrite Hx. cbn [of_option mbind res_bind]. unfold add_at, read, write. rewrite (proj2 (Z.ltb_ge i 0)) by apply Hi. rewrite H by (split; [apply Hi|done]).
  cbn [of_option mbind res_bind]. rewrite L, (proj2 (Z.leb_le 0 i)), (proj2 (Z.ltb_lt i _)) by apply Hi. cbn [andb]. eexists. split; [reflexivity|]. split; [by rewrite length_insert|].
  intros i' Hi'. clearbody i. destruct (decide (i' = i)) as [->|Hne].
  - rewrite list_lookup_insert_eq by (clear - L Hi; lia). f_equal. unfold upto. rewrite Z.ltb_irrefl, (proj2 (Z.ltb_lt i (i + 1))) by (clear; lia). unfold biased. by rewrite EB, Eb, Hx.
  - rewrite list_lookup_insert_ne by (clear - Hi Hi' Hne; lia). rewrite H by done. f_equal. unfold upto. destruct (Z.ltb_spec i' i), (Z.ltb_spec i' (i + 1)); try done; exfalso; clear - H0 H1 Hne; lia.
Qed.
Lemma add_bias_ok n b Y :
  B = Some b → 0 ≤ n < N → Done (n * S) ((n + 1) * S) Y → ∃ Y', add_bias add M osz b (n * S) Y = Ok Y' ∧ Done ((n + 1) * S) ((n + 1) * S) Y'.
Proof.
  intros EB Hn HD. unfold add_bias. destruct (for_lt_inv (fun m => Done (n * S + m * osz) ((n + 1) * S)) M (fun Y m => for_lt osz (fun Y j => x ← read b m; add_at add Y (n * S + (m * osz + j)) x) Y) Y) as (Y' & E & H).
  - by apply nonneg_of.
  - by rewrite Z.mul_0_l, Z.add_0_r.
  - intros m Y1 Hm H1. replace (n * S + (m + 1) * osz) with (n * S + m * osz + osz) by ring.
    apply (for_lt_inv (fun j => Done (n * S + m * osz + j) ((n + 1) * S))); [by apply nonneg_of|by rewrite Z.add_0_r|]. intros j Y2 Hj H2. rewrite <- !Z.add_assoc in H2 |- *. rewrite !Z.add_assoc. rewrite <- (Z.add_assoc (n * S)). by apply bias_step.
  - exists Y'. split; [done|]. by replace ((n + 1) * S) with (n * S + M * osz) at 1 by ring.
Qed.
Lemma bias_ok n Y :
  0 ≤ n < N → Done (n * S) ((n + 1) * S) Y → ∃ Y', match B with Some b => add_bias add M osz b (n * S) Y | None => Ok Y end = Ok Y' ∧ Done ((n + 1) * S) ((n + 1) * S) Y'.
Proof.
  intros Hn HD. assert (H : ∀ o, B = o → ∃ Y', match o with Some b => add_bias add M osz b (n * S) Y | None => Ok Y end = Ok Y' ∧ Done ((n + 1) * S) ((n + 1) * S) Y'); [|by apply H].
  intros [b|] EB; [by apply add_bias_ok|]. exists Y. split; [done|]. apply (filled_ext _ _ _ _ _ HD). intros i Hi. unfold upto, biased. rewrite EB. by destruct (_ <? _), (_ <? _).
Qed.
End bias.

Section conv.
Context (c : ConvBase) (N M Cg : Z) (ins ks : list Z) (Ha : ConvArgs c N M Cg ins ks).
Abbreviation G := (group_ c).
Abbreviation Mg := (M / G).
Context (g : Geometry) (axes : list Axis) (Hg : GeometryOk c N M Cg ins ks g axes).
Abbreviation isz := (prodZ ins).
Abbreviation ksz := (prodZ ks).
Abbreviation osz := (prodZ (ax_col <$> axes)).
Abbreviation K := (Cg * ksz).
Context (HY : N * (M * osz) < 2 ^ 63) (HX : Cg * isz < 2 ^ 63) (HW : M * K < 2 ^ 31) (HB : K * osz < 2 ^ 31).
Abbreviation offsets := (mkOffsets osz (Cg * isz) (Mg * osz) (Mg * K) K (K * osz)).

(** ** Two axes *)

Lemma conv_axis_fields i a : axes !! i = Some a →
  gm_input g !! i = Some (ax_im a) ∧ gm_kernel g !! i = Some (ax_kernel a) ∧ gm_strides g !! i = Some (ax_stride a) ∧ gm_dilations g !! i = Some (ax_dilation a) ∧ gm_pads g !! i = Some (ax_pad a).
Proof.
  intros Hi. pose proof (go_axes _ _ _ _ _ _ _ _ Hg) as E. unfold conv_axes in E. destruct (mapM _ _) as [l|] eqn:El; [|done]. injection E as ->. apply mapM_Some in El.
  destruct (Forall2_lookup_r _ _ _ i a El Hi) as (x & Hx & Ex). apply lookup_seq in Hx as [-> _]. unfold conv_axis in Ex. cbn in Ex.
  destruct (gm_input g !! i), (drop 2 (gm_Y_dims g) !! i), (gm_kernel g !! i), (gm_strides g !! i), (gm_dilations g !! i), (gm_pads g !! i); try done. by injection Ex as <-.
Qed.
Lemma conv_window_ok : length ks = 2%nat → ∃ p, conv_window c g = Ok p ∧ WindowOk p ∧ axes = axes_of p ∧ channels p = Cg.
Proof.
  intros L2. assert (La : length axes = 2%nat) by (rewrite <- L2, <- (go_ks _ _ _ _ _ _ _ _ Hg); symmetry; apply length_fmap). 
  destruct (lookup_lt_is_Some_2 axes 0 ltac:(lia)) as [a0 A0]. destruct (lookup_lt_is_Some_2 axes 1 ltac:(lia)) as [a1 A1].
  assert (Eaxes : axes = [a0; a1]) by (apply (list_eq_same_length axes [a0; a1] 2); [done|done|]; intros [|[|i]] x y Hi Hx Hy; cbn in *; [congruence|congruence|lia]).
  destruct (conv_axis_fields 0 a0 A0) as (F1 & F2 & F3 & F4 & F5). destruct (conv_axis_fields 1 a1 A1) as (F6 & F7 & F8 & F9 & F10).
  assert (Li : length ins = 2%nat) by (rewrite <- (ca_rank _ _ _ _ _ _ Ha); done). pose proof (go_pads _ _ _ _ _ _ _ _ Hg) as Lp. rewrite Li in Lp.
  destruct (lookup_lt_is_Some_2 (gm_pads g) 2 ltac:(lia)) as [p2 P2]. destruct (lookup_lt_is_Some_2 (gm_pads g) 3 ltac:(lia)) as [p3 P3].
  destruct (go_windows _ _ _ _ _ _ _ _ Hg 0%nat a0 A0) as (W1 & W2 & W3 & W4 & W5 & W6 & W7). destruct (go_windows _ _ _ _ _ _ _ _ Hg 1%nat a1 A1) as (V1 & V2 & V3 & V4 & V5 & V6 & V7). cbv zeta in *.
  rewrite Li in W5, W6, W7, V5, V6, V7. cbn [Nat.add] in *. rewrite (list_lookup_total_correct _ _ _ P2) in W5, W6, W7. rewrite (list_lookup_total_correct _ _ _ P3) in V5, V6, V7.
  destruct (group_facts c N M Cg ins ks Ha) as (_ & _ & _ & _ & Q2). destruct (conv_sizes_pos c N M Cg ins ks Ha g axes Hg) as (_ & _ & _ & C1 & _).
  pose proof (Forall_lookup_1 _ _ _ _ (ax_kernel_pos _ (go_ok _ _ _ _ _ _ _ _ Hg)) A0) as K0. pose proof (Forall_lookup_1 _ _ _ _ (ax_kernel_pos _ (go_ok _ _ _ _ _ _ _ _ Hg)) A1) as K1. cbn in K0, K1.
  set (p := mkWindow Cg (ax_im a0) (ax_im a1) (ax_kernel a0) (ax_kernel a1) (ax_dilation a0) (ax_dilation a1) (ax_pad a0) (ax_pad a1) p2 p3 (ax_stride a0) (ax_stride a1)).
  assert (Eh : out_h p = ax_col a0) by (apply Sized_div; unfold dkernel_h; cbn; lia). assert (Ew : out_w p = ax_col a1) by (apply Sized_div; unfold dkernel_w; cbn; lia).
  exists p. split.
  - unfold conv_window, elem. rewrite F1, F2, F3, F4, F5, F6, F7, F8, F9, F10, P2, P3, (go_C _ _ _ _ _ _ _ _ Hg), Q2. done.
  - split; [|split; [|done]].
    + split; cbn; try lia.
      * pose proof (Forall_lookup_1 _ _ _ _ (ax_cols_pos _ (go_ok _ _ _ _ _ _ _ _ Hg)) A0). pose proof (Forall_lookup_1 _ _ _ _ (ax_cols_pos _ (go_ok _ _ _ _ _ _ _ _ Hg)) A1). cbn in *. unfold dkernel_h, dkernel_w. cbn. split; nia.
      * rewrite Eh, Ew. rewrite <- (go_ks _ _ _ _ _ _ _ _ Hg) in HB. rewrite Eaxes in HB. cbn in HB. lia.
    + rewrite Eaxes. unfold axes_of. rewrite Eh, Ew. cbn. destruct a0, a1. done.
Qed.


Section elements.
Context {A : Type} (garbage zero : A) (add : A → A → A) (dot : list (A * A) → A) (Gemm : Z → Z → Z → list A → list A → list A) (Hgemm : gemm_spec zero dot Gemm).
Context (X W : list A) (LX : Z.of_nat (length X) = N * (Cg * G * isz)) (LW : Z.of_nat (length W) = M * K) (B : option (list A)) (LB : ∀ b, B = Some b → Z.of_nat (length b) = M).

Lemma conv_columns_ok data base col :
  0 ≤ base → base + Cg * isz ≤ Z.of_nat (length data) → Z.of_nat (length col) = K * osz →
  ∃ col', conv_columns zero add c g offsets (drop (Z.to_nat base) data) col = Ok col' ∧ columns Cg ks axes zero data base col'.
Proof.
  intros Hb Hd Hc. unfold conv_columns. rewrite (go_kernel _ _ _ _ _ _ _ _ Hg). destruct (Nat.eqb_spec (length ks) 2) as [L2|_].
  - destruct (conv_window_ok L2) as (p & -> & Hp & Eaxes & Ech). cbn [mbind res_bind].
    assert (Ei : channels p * (height p * width p) = Cg * isz) by (rewrite <- (go_ims _ _ _ _ _ _ _ _ Hg), Eaxes, <- Ech; cbn; ring).
    assert (Et : col_size p = K * osz) by (rewrite <- (go_ks _ _ _ _ _ _ _ _ Hg), Eaxes, <- Ech; unfold col_size; cbn; ring).
    destruct (im2col_filled p Hp zero (drop (Z.to_nat base) data) ltac:(rewrite length_drop; lia) col) as (col' & -> & H); [split; [unfold col_size in Et; lia|lia]|]. fold (col_size p) in H.
    exists col'. split; [done|]. apply (filled_columns c N M Cg ins ks Ha g axes Hg); [done|]. rewrite <- Et. apply (filled_ext _ _ _ _ _ H). intros i Hi. apply column_ext. rewrite Eaxes. symmetry. by apply nd_cell_two.
  - rewrite (go_axes _ _ _ _ _ _ _ _ Hg). cbn [mbind res_bind kernel_dim]. by apply (Im2colNd_columns c N M Cg ins ks Ha g axes Hg).
Qed.

(** The element of the output for the filter [m] at the position [j], before the
    bias is added. *)
Definition dot_at (base m j : Z) : A := dot ((fun k => (default zero (W !! Z.to_nat (m * K + k)), tap ks axes zero X base k j)) <$> seqZ 0 K).
Abbreviation S := (M * osz).
Definition raw (i : Z) : A := let m := i mod S / osz in dot_at (i / S * (Cg * G * isz) + m / Mg * (Cg * isz)) m (i mod osz).
Abbreviation upto_ := (upto zero add raw M osz B).
Abbreviation Done := (fun t n Y => filled (upto_ t) (N * S) n Y).

Lemma raw_at n m j : 0 ≤ m < M → 0 ≤ j < osz → raw (n * S + (m * osz + j)) = dot_at (n * (Cg * G * isz) + m / Mg * (Cg * isz)) m j.
Proof.
  intros Hm Hj. unfold raw. pose proof (position_bound M osz 0 m j ltac:(lia) Hm Hj) as Hs0. assert (Hs : 0 ≤ m * osz + j < S) by lia. destruct (div_mod_add n S (m * osz + j) Hs) as [-> ->]. destruct (div_mod_add m osz j Hj) as [-> _].
  replace (n * S + (m * osz + j)) with ((n * M + m) * osz + j) by ring. by destruct (div_mod_add (n * M + m) osz j Hj) as [_ ->].
Qed.
Lemma conv_group_ok n group_id col Y :
  0 ≤ n < N → 0 ≤ group_id < G → Z.of_nat (length col) = K * osz → Done (n * S) (n * S + group_id * (Mg * osz)) Y →
  ∃ col' Y', conv_group zero add Gemm c g offsets X W (n * (Cg * isz * G)) (n * (Mg * osz * G)) (col, Y) group_id = Ok (col', Y') ∧
    Z.of_nat (length col') = K * osz ∧ Done (n * S) (n * S + (group_id + 1) * (Mg * osz)) Y'.
Proof.
  intros Hn Hid Hcol HD. destruct (group_facts c N M Cg ins ks Ha) as (G1 & EM & HMg & Q1 & _). destruct (conv_sizes_pos c N M Cg ins ks Ha g axes Hg) as (I1 & _ & O1 & C1 & KK).
  pose proof (mul_pos _ _ C1 I1) as CI. pose proof (mul_pos _ _ HMg O1) as MO. pose proof (mul_pos _ _ HMg KK) as MK. assert (ES : Mg * osz * G = S) by (rewrite EM at 2; ring). assert (EK : M * K = 1 * (Mg * K * G)) by (rewrite EM at 1; ring).
  destruct (block_bound n N group_id G (Cg * isz) Hn Hid CI) as [X1 X2]. destruct (block_bound n N group_id G (Mg * osz) Hn Hid MO) as [Y1 Y2]. destruct (block_bound 0 1 group_id G (Mg * K) ltac:(done) Hid MK) as [W1 W2]. rewrite Z.mul_0_l, Z.add_0_l in W1, W2.
  rewrite ES in Y1, Y2. rewrite <- EK, <- LW in W2. replace (N * (Cg * isz * G)) with (N * (Cg * G * isz)) in X2 by ring. rewrite <- LX in X2. clear LX LW HW HX HY.
  unfold conv_group. cbn [X_offset kernel_dim output_image_size W_offset Y_offset]. rewrite ES.
  destruct (conv_columns_ok X (n * (Cg * isz * G) + group_id * (Cg * isz)) col X1 X2 Hcol) as (col' & -> & Lc & Hc). cbn [mbind res_bind]. rewrite (go_M _ _ _ _ _ _ _ _ Hg), Q1.
  destruct (Hgemm Mg osz K (drop (Z.to_nat (group_id * (Mg * K))) W) col' (pos_of _ HMg) (pos_of _ O1) (pos_of _ KK)) as [Lp Hp]; [by apply drop_bound|by rewrite Lc|]. set (product := Gemm _ _ _ _ _) in *. clearbody product.
  destruct (memcpy_filled (upto_ (n * S)) (N * S) (n * S + group_id * (Mg * osz)) (Mg * osz) Y product 0 Y1 (nonneg_of _ MO) Y2) as (Y' & -> & HY'); [done|by rewrite Lp| |done|].
  - intros e He. destruct (digit_pair e osz Mg (pos_of _ O1) He) as (i & j & -> & Hi & Hj). rewrite Z.add_0_l, Hp by done. f_equal. unfold upto.
    replace (n * S + group_id * (Mg * osz) + (i * osz + j)) with (n * S + ((group_id * Mg + i) * osz + j)) by ring. pose proof (pair_bound group_id G i Mg Hid Hi) as Hm. rewrite (Z.mul_comm G Mg), <- EM in Hm.
    pose proof (position_bound M osz 0 _ j ltac:(done) Hm Hj) as Hpos. rewrite (proj2 (Z.ltb_ge _ _)) by (apply add_le; apply Hpos). rewrite raw_at by done. rewrite (proj1 (div_mod_add group_id Mg i Hi)).
    unfold dot_at. f_equal. apply list_fmap_ext. intros x k Hk. apply list_elem_of_lookup_2, elem_of_seqZ in Hk. rewrite Z.add_0_l in Hk. f_equal.
    + rewrite lookup_drop. f_equal. f_equal. destruct (pair_bound i Mg k K Hi Hk) as [IK _]. rewrite <- Z2Nat.inj_add by done. f_equal. ring.
    + rewrite (Hc k j) by done. cbn. f_equal. ring.
  - exists col', Y'. cbn [mbind res_bind]. split; [done|]. split; [done|]. by replace (n * S + (group_id + 1) * (Mg * osz)) with (n * S + group_id * (Mg * osz) + Mg * osz) by ring.
Qed.
Lemma conv_image_ok n col Y :
  0 ≤ n < N → Z.of_nat (length col) = K * osz → Done (n * S) (n * S) Y →
  ∃ col' Y', conv_image zero add Gemm c g offsets X W B (col, Y) n = Ok (col', Y') ∧ Z.of_nat (length col') = K * osz ∧ Done ((n + 1) * S) ((n + 1) * S) Y'.
Proof.
  intros Hn Hcol HD. destruct (group_facts c N M Cg ins ks Ha) as (G1 & EM & _). destruct (ca_pos _ _ _ _ _ _ Ha) as (_ & HM & _ & HG1). destruct (conv_sizes_pos c N M Cg ins ks Ha g axes Hg) as (_ & _ & O1 & _). assert (ES : Mg * osz * G = S) by (rewrite EM at 2; ring).
  assert (EN : (n + 1) * S = n * S + G * (Mg * osz)) by (rewrite <- ES; ring). unfold conv_image. cbn [X_offset Y_offset output_image_size].
  destruct (for_int_inv (fun group_id s => Z.of_nat (length (fst s)) = K * osz ∧ Done (n * S) (n * S + group_id * (Mg * osz)) (snd s)) G
    (conv_group zero add Gemm c g offsets X W (n * (Cg * isz * G)) (n * (Mg * osz * G))) (col, Y)) as ([col1 Y1] & -> & L1 & H1).
  - split; [by apply nonneg_of|apply HG1].
  - split; [done|]. by rewrite Z.mul_0_l, Z.add_0_r.
  - intros group_id [col1 Y1] Hid [L1 H1]. destruct (conv_group_ok n group_id col1 Y1 Hn Hid L1 H1) as (col2 & Y2 & E2 & L2 & H2). exists (col2, Y2). by split.
  - cbn [mbind res_bind fst snd] in *. rewrite <- EN in H1. rewrite ES, (go_M _ _ _ _ _ _ _ _ Hg). destruct (bias_ok zero add raw N M osz HM O1 B LB n Y1 Hn H1) as (Y2 & -> & H2). exists col1, Y2. done.
Qed.
Lemma conv_run X_dims W_dims :
  conv_geometry c X_dims W_dims = Ok (StatusOK, Some g) → W_dims = M :: Cg :: ks →
  ∃ Y, Conv_Compute garbage zero add Gemm c (X_dims, X) (W_dims, W) ((fun b => ([M], b)) <$> B) = Ok (StatusOK, Some (N :: M :: (ax_col <$> axes), Y)) ∧
    ∀ n m j, 0 ≤ n < N → 0 ≤ m < M → 0 ≤ j < osz → Y !! Z.to_nat ((n * M + m) * osz + j) = Some (biased zero add raw M osz B (n * S + (m * osz + j))).
Proof.
  intros Eg ->. destruct (ca_pos _ _ _ _ _ _ Ha) as (HN & HM & _). destruct (conv_sizes_pos c N M Cg ins ks Ha g axes Hg) as (_ & _ & O1 & _ & KK). unfold Conv_Compute. cbn [fst snd]. rewrite Eg. cbn [mbind res_bind].
  assert (HW' : M * K < 2 ^ 63) by (apply (Z.lt_trans _ _ _ HW); done). rewrite (conv_offsets_ok c N M Cg ins ks Ha g axes Hg HY HX HW' HB). cbn [mbind res_bind col_buffer_size]. rewrite (go_Y _ _ _ _ _ _ _ _ Hg), (go_N _ _ _ _ _ _ _ _ Hg).
  unfold new_output. rewrite !prodZ_cons. replace (snd <$> ((fun b => ([M], b)) <$> B)) with B by (destruct B; done).
  pose proof (mul_pos _ _ KK O1) as KO. pose proof (mul_pos _ _ HM O1) as MO. pose proof (mul_pos _ _ (proj1 HN) MO) as NMO.
  destruct (for_int_inv (fun n s => Z.of_nat (length (fst s)) = K * osz ∧ Done (n * S) (n * S) (snd s)) N (conv_image zero add Gemm c g offsets X W B)
    (replicate (Z.to_nat (K * osz)) garbage, replicate (Z.to_nat (N * S)) garbage)) as ([col Y] & -> & _ & [_ H]).
  - split; [apply nonneg_of, HN|apply HN].
  - cbn [fst snd]. rewrite length_replicate, Z2Nat.id by (by apply nonneg_of). split; [done|]. split; [by rewrite length_replicate, Z2Nat.id by (by apply nonneg_of)|]. intros i Hi. clear - Hi. lia.
  - intros n [col Y] Hn [L1 H1]. destruct (conv_image_ok n col Y Hn L1 H1) as (col2 & Y2 & E2 & L2 & H2). exists (col2, Y2). by split.
  - cbn [mbind res_bind snd] in *. exists Y. split; [done|]. intros n m j Hn Hm Hj. pose proof (pair_bound m M j osz Hm Hj) as Hq. pose proof (pair_bound n N _ S Hn Hq) as Hi.
    replace ((n * M + m) * osz + j) with (n * S + (m * osz + j)) by ring. rewrite H by done. f_equal. unfold upto. by rewrite (proj2 (Z.ltb_lt _ _)) by apply Hi.
Qed.
End elements.
End conv.

(** The generic [Conv] along any number of axes, with groups and bias, given a
    product of matrices: every element of the output is made of the weights of its
    filter and of the elements of the channels of its group that the cells of the
    filter meet at its position, zero in the padding, plus the bias of its filter.
    For two axes the columns come from the fast paths of [Im2col]. *)
Lemma conv_elements {A} (garbage zero : A) (add : A → A → A) (dot : list (A * A) → A) Gemm c N M Cg ins ks g axes (X W : list A) (B : option (list A)) :
  gemm_spec zero dot Gemm → ConvArgs c N M Cg ins ks →
  conv_geometry c (N :: Cg * group_ c :: ins) (M :: Cg :: ks) = Ok (StatusOK, Some g) → conv_axes g = Ok axes → sizes_fit N M Cg ins ks axes →
  Z.of_nat (length X) = N * (Cg * group_ c * prodZ ins) → Z.of_nat (length W) = M * (Cg * prodZ ks) → (∀ b, B = Some b → Z.of_nat (length b) = M) →
  ∃ Y, Conv_Compute garbage zero add Gemm c (N :: Cg * group_ c :: ins, X) (M :: Cg :: ks, W) ((fun b => ([M], b)) <$> B) = Ok (StatusOK, Some (N :: M :: (ax_col <$> axes), Y)) ∧
    ∀ n m d, 0 ≤ n < N → 0 ≤ m < M → valid_index (ax_col <$> axes) d →
      let channels := n * (Cg * group_ c * prodZ ins) + m / (M / group_ c) * (Cg * prodZ ins) in
      let y := dot ((fun k =>
        (default zero (W !! Z.to_nat (m * (Cg * prodZ ks) + k)),
         match nd_place axes (k / prodZ ks) d (d_offset k ks) with Some q => default zero (X !! Z.to_nat (channels + q)) | None => zero end)) <$> seqZ 0 (Cg * prodZ ks)) in
      Y !! Z.to_nat ((n * M + m) * prodZ (ax_col <$> axes) + flat (ax_col <$> axes) d) = Some (match B with Some b => add y (default zero (b !! Z.to_nat m)) | None => y end).
Proof.
  intros Hgemm Ha Eg Eax (HY & HX & HW & HB) LX LW LB. pose proof (geometry_ok_of _ _ _ _ _ _ _ _ Ha Eg Eax) as Hg.
  destruct (conv_run c N M Cg ins ks Ha g axes Hg HY HX HW HB garbage zero add dot Gemm Hgemm X W LX LW B LB _ _ Eg eq_refl) as (Y & E & H). exists Y. split; [exact E|].
  intros n m d Hn Hm Hd. cbv zeta. pose proof (flat_bound _ _ Hd) as Hf. rewrite H by done. f_equal. unfold biased. rewrite raw_at by done.
  pose proof (pair_bound m M _ _ Hm Hf) as Hq. rewrite (proj2 (div_mod_add n _ _ Hq)), (proj1 (div_mod_add m _ _ Hf)). unfold dot_at, tap.
  pose proof (d_offset_ok _ d 0 ltac:(lia) Hd) as Ed. rewrite Z.mul_0_l, Z.add_0_l in Ed. by rewrite Ed.
Qed.

(** ** [Conv<float>] *)

Lemma for_int_ext {S} n (f g : S → Z → res S) s : (∀ s i, f s i = g s i) → for_int n f s = for_int n g s.
Proof. intros H. unfold for_int, for_lt. destruct (_ <=? _); [done|]. apply foldM_ext. intros s' i. apply H. Qed.
(** The kernel has the axes of the weights. *)
Lemma kernel_rank c W s ks : ComputeKernelShape c W = Ok (s, ks) → IsOK s = true → (length ks + 2 = length W)%nat.
Proof.
  unfold ComputeKernelShape. intros E Hs. destruct (kernel_shape_specified_ c).
  - destruct (Nat.eqb_spec (length (kernel_shape_ c) + 2) (length W)) as [H|_]; cbn [negb] in E; [|by injection E as <- <-]. by case_bool_decide; injection E as <- <-.
  - destruct (Nat.ltb_spec (length W) 2); [done|]. injection E as <- <-. rewrite length_drop. lia.
Qed.
Lemma geometry_rank c X W s g : conv_geometry c X W = Ok (s, Some g) → (length (gm_kernel g) + 2 = length W)%nat.
Proof.
  intros E. unfold conv_geometry in E. apply bind_Ok in E as (N & _ & E). apply bind_Ok in E as (C & _ & E). apply bind_Ok in E as (M & _ & E). apply bind_Ok in E as (s1 & _ & E). destruct (negb (IsOK s1)); [done|].
  apply bind_Ok in E as ([s2 ks] & Ek & E). destruct (IsOK s2) eqn:Es; [|done]. cbn [negb] in E. apply bind_Ok in E as (ins & _ & E). apply bind_Ok in E as ([[s3 pads] Yd] & _ & E). destruct (negb (IsOK s3)); [done|].
  injection E as _ <-. by apply (kernel_rank c W s2).
Qed.
(** Away from mlas, that is for filters of other than two or three axes,
    [Conv<float>] and the generic [Conv] are the same function: they refuse the
    same arguments and give the same output. *)
Lemma conv_float_agrees {A} (garbage zero : A) (add : A → A → A) Gemm MlasConv c (X W : list Z * list A) (B : option (list Z * list A)) :
  length (fst W) ≠ 4%nat → length (fst W) ≠ 5%nat →
  Conv_float_Compute garbage zero add Gemm MlasConv c X W B = Conv_Compute garbage zero add Gemm c X W B.
Proof.
  intros H2 H3. unfold Conv_float_Compute, Conv_Compute. destruct (conv_geometry c (fst X) (fst W)) as [[s [g|]]|e|] eqn:E; try done. cbn [mbind res_bind].
  pose proof (geometry_rank _ _ _ _ _ E) as R. rewrite (proj2 (Nat.eqb_neq (length (gm_kernel g)) 2)), (proj2 (Nat.eqb_neq (length (gm_kernel g)) 3)) by lia. cbn [orb].
  destruct (conv_offsets c g (fst W)) as [o|e|]; try done. cbn [mbind res_bind]. f_equal. apply for_int_ext. intros st n. unfold conv_float_image, conv_image. f_equal. apply for_int_ext. intros [col Y] i.
  unfold conv_float_group, conv_group, conv_columns. rewrite (proj2 (Nat.eqb_neq (length (gm_kernel g)) 2)) by lia. by destruct (conv_axes g).
Qed.

(** C11. [Conv<float>], the kernel that is registered for [Conv], with filters of
    other than two or three axes (those go to mlas, which is not modelled), with
    groups and bias, given a product of matrices, for arguments without empty
    dimensions whose kernel fits into the padded input ([ConvArgs]): every element
    of the output is made of the weights of its filter and of the elements of the
    channels of its group that the cells of the filter meet at its position, zero
    in the padding, plus the bias of its filter. *)
Theorem conv_float_correct {A} (garbage zero : A) (add : A → A → A) (dot : list (A * A) → A) Gemm MlasConv c N M Cg ins ks g axes (X W : list A) (B : option (list A)) :
  gemm_spec zero dot Gemm → ConvArgs c N M Cg ins ks → length ks ≠ 2%nat → length ks ≠ 3%nat →
  conv_geometry c (N :: Cg * group_ c :: ins) (M :: Cg :: ks) = Ok (StatusOK, Some g) → conv_axes g = Ok axes → sizes_fit N M Cg ins ks axes →
  Z.of_nat (length X) = N * (Cg * group_ c * prodZ ins) → Z.of_nat (length W) = M * (Cg * prodZ ks) → (∀ b, B = Some b → Z.of_nat (length b) = M) →
  ∃ Y, Conv_float_Compute garbage zero add Gemm MlasConv c (N :: Cg * group_ c :: ins, X) (M :: Cg :: ks, W) ((fun b => ([M], b)) <$> B) = Ok (StatusOK, Some (N :: M :: (ax_col <$> axes), Y)) ∧
    ∀ n m d, 0 ≤ n < N → 0 ≤ m < M → valid_index (ax_col <$> axes) d →
      let channels := n * (Cg * group_ c * prodZ ins) + m / (M / group_ c) * (Cg * prodZ ins) in
      let y := dot ((fun k =>
        (default zero (W !! Z.to_nat (m * (Cg * prodZ ks) + k)),
         match nd_place axes (k / prodZ ks) d (d_offset k ks) with Some q => default zero (X !! Z.to_nat (channels + q)) | None => zero end)) <$> seqZ 0 (Cg * prodZ ks)) in
      Y !! Z.to_nat ((n * M + m) * prodZ (ax_col <$> axes) + flat (ax_col <$> axes) d) = Some (match B with Some b => add y (default zero (b !! Z.to_nat m)) | None => y end).
Proof. intros Hgemm Ha H2 H3. rewrite conv_float_agrees by (cbn; lia). by apply conv_elements. Qed.

(** ** Examples *)

Module SmallConv.
(** A table of the values of a function. *)
Definition table {A} (m n : Z) (f : Z → Z → A) : list A := (fun x => f (x / n) (x mod n)) <$> seqZ 0 (m * n).
Lemma matrix_table_ok {A} m n (f : Z → Z → A) : 0 < m → 0 < n → Z.of_nat (length (table m n f)) = m * n ∧ ∀ i j, 0 ≤ i < m → 0 ≤ j < n → table m n f !! Z.to_nat (i * n + j) = Some (f i j).
Proof.
  intros Hm Hn. unfold table. rewrite length_fmap, length_seqZ. split; [nia|]. intros i j Hi Hj. pose proof (pair_bound i m j n Hi Hj) as Hb. rewrite list_lookup_fmap, lookup_seqZ_lt by lia. cbn.
  rewrite Z.add_0_l, Z2Nat.id by lia. by destruct (div_mod_add i n j Hj) as [-> ->].
Qed.
(** Products of matrices of integers. *)
Definition dot (l : list (Z * Z)) : Z := zsum ((fun p => fst p * snd p) <$> l).
Definition gemm (m n k : Z) (a b : list Z) : list Z :=
  table m n (fun i j => dot ((fun x => (default 0 (a !! Z.to_nat (i * k + x)), default 0 (b !! Z.to_nat (x * n + j)))) <$> seqZ 0 k)).
Lemma gemm_ok : gemm_spec 0 dot gemm.
Proof. intros m n k a b Hm Hn _ _ _. by apply matrix_table_ok. Qed.
Definition gemm8 (m n k : Z) (lhs rhs : list Z) (lo ro : Z) : list Z :=
  table m n (fun i j => i32 (zsum ((fun x => (lhs !!! Z.to_nat (i * k + x) + lo) * (rhs !!! Z.to_nat (x * n + j) + ro)) <$> seqZ 0 k))).
Lemma gemm8_ok : gemmlowp_spec gemm8.
Proof. intros m n k lhs rhs lo ro Hm Hn _ _ _. by apply matrix_table_ok. Qed.

(** Two channels in two groups, filters of 2 x 2, padded on all sides. *)
Definition c2 : ConvBase := mkConvBase NOTSET 2 true [1; 1] [1; 1; 1; 1] [1; 1] [2; 2].
Lemma c2_args : ConvArgs c2 1 2 1 [2; 2] [2; 2].
Proof.
  split; try done; try (by exists 1). intros [|[|i]] Hi; [| |cbn in Hi; lia]; split; cbn; try lia; vm_compute; intuition discriminate.
Qed.
(** One channel along one axis, with and without groups. *)
Definition c1 : ConvBase := mkConvBase NOTSET 1 true [] [1; 1] [] [2].
Lemma c1_args : ConvArgs c1 1 1 1 [3] [2].
Proof. split; try done; try (by exists 1). intros [|i] Hi; [|cbn in Hi; lia]; split; cbn; try lia; vm_compute; intuition discriminate. Qed.
Definition c1g : ConvBase := mkConvBase NOTSET 2 true [] [0; 0] [] [2].
Lemma c1g_args : ConvArgs c1g 1 2 1 [3] [2].
Proof. split; try done; try (by exists 1). intros [|i] Hi; [|cbn in Hi; lia]; split; cbn; try lia; vm_compute; intuition discriminate. Qed.
Lemma single_valid d i : 0 ≤ i < d → valid_index [d] [i].
Proof. intros Hi. apply valid_index_digits. by constructor. Qed.
Lemma in_1 : 0 ≤ 0 < 1.
Proof. lia. Qed.
Lemma in_2 : 1 ≤ 1 < 2.
Proof. lia. Qed.
Lemma second_filter : 0 ≤ 1 < 2.
Proof. lia. Qed.
Lemma in_4 : valid_index [4] [0].
Proof. by apply single_valid. Qed.
Lemma in_2' : valid_index [2] [0].
Proof. by apply single_valid. Qed.
End SmallConv.
Lemma conv_float_correct_witness :
  ∃ Y, Conv_float_Compute 99 0 Z.add SmallConv.gemm (fun _ _ _ _ _ => []) SmallConv.c1g ([1; 2; 3], [10; 20; 30; 40; 50; 60]) ([2; 1; 2], [3; 4; 5; 6]) (Some ([2], [7; 9])) = Ok (StatusOK, Some ([1; 2; 2], Y)) ∧
    Y !! Z.to_nat ((0 * 2 + 1) * prodZ [2] + flat [2] [0]) = Some (5 * 40 + 6 * 50 + 9).
Proof.
  destruct (conv_float_correct 99 0 Z.add SmallConv.dot SmallConv.gemm (fun _ _ _ _ _ => []) SmallConv.c1g 1 2 1 [3] [2] (mkGeometry 1 2 2 [2] [0; 0] [1] [1] [3] [1; 2; 2]) [mkAxis 3 2 2 1 1 0]
    [10; 20; 30; 40; 50; 60] [3; 4; 5; 6] (Some [7; 9])) as (Y & E & H);
    [exact SmallConv.gemm_ok|exact SmallConv.c1g_args|discriminate|discriminate|by vm_compute|by vm_compute|by vm_compute|done|done|intros b [= <-]; done|].
  exists Y. split; [exact E|].
  pose proof (H 0 1 [0] SmallConv.in_1 SmallConv.second_filter SmallConv.in_2') as H0. cbv zeta in H0. cbn [fmap list_fmap ax_col] in H0. rewrite H0. vm_compute. reflexivity.
Defined.
Lemma conv_elements_example :
  ∃ Y, Conv_Compute 99 0 Z.add SmallConv.gemm SmallConv.c2 ([1; 2; 2; 2], [1; 2; 3; 4; 5; 6; 7; 8]) ([2; 1; 2; 2], [1; 10; 100; 1000; 1; 10; 100; 1000]) (Some ([2], [7; 9])) = Ok (StatusOK, Some ([1; 2; 3; 3], Y)) ∧
    Y !! Z.to_nat ((0 * 2 + 0) * prodZ [3; 3] + flat [3; 3] [1; 1]) = Some (1 + 20 + 300 + 4000 + 7) ∧
    Y !! Z.to_nat ((0 * 2 + 1) * prodZ [3; 3] + flat [3; 3] [1; 1]) = Some (5 + 60 + 700 + 8000 + 9).
Proof.
  destruct (conv_elements 99 0 Z.add SmallConv.dot SmallConv.gemm SmallConv.c2 1 2 1 [2; 2] [2; 2] (mkGeometry 1 2 2 [2; 2] [1; 1; 1; 1] [1; 1] [1; 1] [2; 2] [1; 2; 3; 3])
    [mkAxis 2 3 2 1 1 1; mkAxis 2 3 2 1 1 1] [1; 2; 3; 4; 5; 6; 7; 8] [1; 10; 100; 1000; 1; 10; 100; 1000] (Some [7; 9])) as (Y & E & H);
    [exact SmallConv.gemm_ok|exact SmallConv.c2_args|by vm_compute|by vm_compute|by vm_compute|done|done|intros b [= <-]; done|].
  assert (Hv : valid_index [3; 3] [1; 1]) by (apply pair_valid; lia).
  exists Y. split; [exact E|].
  split; [etransitivity; [apply (H 0 0 [1; 1]); [lia|lia|exact Hv]|vm_compute; reflexivity]|etransitivity; [apply (H 0 1 [1; 1]); [lia|lia|exact Hv]|vm_compute; reflexivity]].
Qed.
Lemma conv_integer_correct_witness :
  ∃ Y, ConvInteger_Compute 77 SmallConv.gemm8 SmallConv.c1 ([1; 1; 3], [10; 20; 30]) ([1; 1; 2], [3; 4]) (Some ([], [5])) (Some ([], [1])) = Ok (StatusOK, Some ([1; 1; 4], Y)) ∧
    Y !! Z.to_nat ((0 * 1 + 0) * prodZ [4] + flat [4] [0]) = Some 15.
Proof.
  destruct (conv_integer_correct SmallConv.c1 1 1 1 [3] [2] (mkGeometry 1 1 1 [2] [1; 1] [1] [1] [3] [1; 1; 4]) [mkAxis 3 4 2 1 1 1] 77 SmallConv.gemm8 [10; 20; 30] [3; 4] (Some ([], [5])) (Some ([], [1])) 5 1) as (Y & E & H);
    [exact SmallConv.gemm8_ok|exact SmallConv.c1_args|done|by vm_compute|by vm_compute|by vm_compute|done|done|constructor|constructor|].
  exists Y. split; [exact E|].
  pose proof (H 0 0 [0] SmallConv.in_1 SmallConv.in_1 SmallConv.in_4) as H0. cbn [fmap list_fmap ax_col] in H0. rewrite H0. vm_compute. reflexivity.
Defined.
Lemma conv_integer_groups_lost_witness :
  ∃ Y, ConvInteger_Compute 77 SmallConv.gemm8 SmallConv.c1g ([1; 2; 3], [10; 20; 30; 40; 50; 60]) ([2; 1; 2], [3; 4; 5; 6]) None None = Ok (StatusOK, Some ([1; 2; 2], Y)) ∧
    Y !! Z.to_nat ((0 * 2 + 1) * prodZ [2] + flat [2] [0]) = Some 77.
Proof.
  destruct (conv_integer_groups_lost SmallConv.c1g 1 2 1 [3] [2] (mkGeometry 1 2 2 [2] [0; 0] [1] [1] [3] [1; 2; 2]) [mkAxis 3 2 2 1 1 0] 77 SmallConv.gemm8 [10; 20; 30; 40; 50; 60] [3; 4; 5; 6] None None 0 0) as (Y & E & H);
    [exact SmallConv.gemm8_ok|exact SmallConv.c1g_args|by vm_compute|by vm_compute|by vm_compute|done|done|done|done|].
  exists Y. split; [exact E|].
  pose proof (H 0 1 [0] SmallConv.in_1 SmallConv.in_2 SmallConv.in_2') as H0. cbn [fmap list_fmap ax_col] in H0. rewrite H0. reflexivity.
Defined.
(** [Conv<float>] of one axis, padded on both sides. *)
Example conv_float_example :
  Conv_float_Compute 99 0 Z.add SmallConv.gemm (fun _ _ _ _ _ => []) SmallConv.c1 ([1; 1; 3], [10; 20; 30]) ([1; 1; 2], [3; 4]) None = Ok (StatusOK, Some ([1; 1; 4], [40; 110; 180; 90])).
Proof. etransitivity; [apply (conv_float_agrees 99 0 Z.add SmallConv.gemm (fun _ _ _ _ _ => []) SmallConv.c1 ([1; 1; 3], [10; 20; 30]) ([1; 1; 2], [3; 4]) None); discriminate|vm_compute; reflexivity]. Qed.
