(* ===== verification/ConvTransposeProps.v ===== *)
(** [ConvTranspose]: the sizes of its output and what it computes. *)
From S2P Require Import Prelude TensorShape Transpose TransposeProps BroadcastInv DataMove DataMoveRows ConcatSplit Im2col Im2colProps Im2colNdProps Im2colRoundtrip Conv ConvShapes ConvGeometry ConvProps ConvCorrect.

(** ** Sizes *)

(** The output before padding is taken away. *)
Definition full_size (in_size stride kernel adj : Z) : Z := (in_size - 1) * stride + kernel + adj.
(** A requested size is not larger than that; otherwise given padding leaves
    something. *)
Definition size_fits (pad_type : AutoPadType) (in_size stride kernel adj head tail out_size : Z) : Prop :=
  if decide (out_size = -1) then pad_type = NOTSET → 1 ≤ full_size in_size stride kernel adj - head - tail else 1 ≤ out_size ≤ full_size in_size stride kernel adj.

Lemma transpose_size_spec pad_type in_size stride kernel adj head tail out_size :
  1 ≤ in_size → 1 ≤ stride → 1 ≤ kernel → 0 ≤ adj → 0 ≤ head → 0 ≤ tail → full_size in_size stride kernel adj < 2 ^ 63 → size_fits pad_type in_size stride kernel adj head tail out_size →
  ∃ h t out, ComputeTransposePadAndOutputShape in_size stride kernel adj pad_type head tail out_size = Ok (h, t, out) ∧
    0 ≤ h ∧ 0 ≤ t ∧ 1 ≤ out ∧ out + h + t = full_size in_size stride kernel adj ∧ (out_size ≠ -1 → out = out_size) ∧ (out_size = -1 → pad_type = NOTSET → h = head ∧ t = tail).
Proof.
  intros Hin Hs Hk Hadj Hh Ht Hb Hfit. assert (0 ≤ (in_size - 1) * stride) by nia. unfold ComputeTransposePadAndOutputShape, size_fits in *. fold (full_size in_size stride kernel adj). assert (Hf : 1 ≤ full_size in_size stride kernel adj) by (unfold full_size; lia).
  set (full := full_size in_size stride kernel adj) in *. clearbody full. rewrite int64_op_ok by lia. cbn [mbind res_bind]. destruct (Z.eqb_spec out_size (-1)) as [->|Hne]; cbn [negb].
  - rewrite decide_True in Hfit by done. destruct pad_type; try (eexists _, _, _; split; [reflexivity|]; split_and!; (done || lia)).
    rewrite int64_op_ok by (specialize (Hfit eq_refl); lia). eexists _, _, _. split; [reflexivity|]. specialize (Hfit eq_refl). split_and!; (done || lia).
  - rewrite decide_False in Hfit by done. rewrite (proj2 (Z.leb_le 0 out_size)) by lia. cbn [enforce mbind res_bind]. rewrite Z.max_r by lia.
    assert (0 ≤ Z.quot (full - out_size) 2 ≤ full - out_size) by (rewrite Z.quot_div_nonneg by lia; split; [apply Z.div_pos; lia|apply Z.div_le_upper_bound; lia]).
    destruct pad_type; eexists _, _, _; (split; [reflexivity|]; split_and!; (done || lia)).
Qed.

(** The sizes of a dimension of [ConvTranspose]: the output and the padding
    together are what the windows of the input cover, a requested size is kept,
    and the windows of the output are as many as the input has elements. *)
Theorem transpose_size_correct pad_type in_size stride kernel adj head tail out_size :
  1 ≤ in_size → 1 ≤ stride → 1 ≤ kernel → 0 ≤ adj < stride → 0 ≤ head → 0 ≤ tail → full_size in_size stride kernel adj < 2 ^ 63 → size_fits pad_type in_size stride kernel adj head tail out_size →
  ∃ h t out, ComputeTransposePadAndOutputShape in_size stride kernel adj pad_type head tail out_size = Ok (h, t, out) ∧
    0 ≤ h ∧ 0 ≤ t ∧ 1 ≤ out ∧ out + h + t = full_size in_size stride kernel adj ∧ (out_size ≠ -1 → out = out_size) ∧ (out_size = -1 → pad_type = NOTSET → h = head ∧ t = tail) ∧
    (out + h + t - kernel) / stride + 1 = in_size.
Proof.
  intros Hin Hs Hk Hadj Hh Ht Hb Hfit. destruct (transpose_size_spec pad_type in_size stride kernel adj head tail out_size) as (h & t & out & E & H1 & H2 & H3 & H4 & H5 & H6); [done..|lia|done|done|done|done|].
  exists h, t, out. split_and!; try done. rewrite H4. apply Sized_div; [done|]. unfold full_size. lia.
Qed.
Lemma transpose_size_correct_witness : ∃ h t out, ComputeTransposePadAndOutputShape 3 2 3 1 NOTSET 1 1 (-1) = Ok (h, t, out) ∧ (out + h + t - 3) / 2 + 1 = 3.
Proof.
  destruct (transpose_size_correct NOTSET 3 2 3 1 1 1 (-1)) as (h & t & out & E & H); try done. exists h, t, out. split; [exact E|apply H].
Defined.

(** An output padding that is not smaller than the stride, or a requested size
    that is larger than what the windows cover, gives more windows of the output
    than the input has elements: [Col2im] reads behind the columns. *)
Theorem transpose_sizes_unchecked :
  ComputeTransposePadAndOutputShape 3 1 2 1 NOTSET 0 0 (-1) = Ok (0, 0, 5) ∧
  height_col (mkWindow 1 5 5 2 2 1 1 0 0 0 0 1 1) = Ok 4 ∧
  ComputeTransposePadAndOutputShape 3 1 2 0 NOTSET 0 0 6 = Ok (0, 0, 6) ∧
  height_col (mkWindow 1 6 6 2 2 1 1 0 0 0 0 1 1) = Ok 5 ∧
  ConvTranspose_Compute 9 0 Z.add (fun m n _ _ _ => replicate (Z.to_nat (m * n)) 1)
    (mkConvTranspose (mkConvBase NOTSET 1 true [1; 1] [0; 0; 0; 0] [1; 1] [2; 2]) [1; 1] []) ([1; 1; 2; 2], [1; 2; 3; 4]) ([1; 1; 2; 2], [1; 1; 1; 1]) None = Throw UndefinedBehaviour.
Proof. by vm_compute. Qed.

(** ** Preparation *)

(** The attributes, with the defaults filled in, of a call whose sizes fit. *)
Record TransposeArgs (c : ConvTransposeBase) (N Cg Mo H W k0 k1 s0 s1 a0 a1 p0 p1 p2 p3 o0 o1 : Z) : Prop := {
  ta_pos : 1 ≤ N < 2 ^ 31 ∧ 1 ≤ Cg ∧ 1 ≤ Mo ∧ 1 ≤ H ∧ 1 ≤ W ∧ 1 ≤ k0 ∧ 1 ≤ k1 ∧ 1 ≤ s0 ∧ 1 ≤ s1;
  ta_group : 1 ≤ group_ (ct_base c) < 2 ^ 31;
  ta_kernel : kernel_shape_specified_ (ct_base c) = true → kernel_shape_ (ct_base c) = [k0; k1];
  ta_strides : or_default (strides_ (ct_base c)) [1; 1] = [s0; s1];
  ta_dilations : or_default (dilations_ (ct_base c)) [1; 1] = [1; 1];
  ta_padding : or_default (output_padding_ c) [0; 0] = [a0; a1];
  ta_pads : or_default (pads_ (ct_base c)) [0; 0; 0; 0] = [p0; p1; p2; p3];
  ta_adj : 0 ≤ a0 < s0 ∧ 0 ≤ a1 < s1;
  ta_pads_nonneg : 0 ≤ p0 ∧ 0 ≤ p1 ∧ 0 ≤ p2 ∧ 0 ≤ p3;
  (** Sizes may be requested. *)
  ta_output : (output_shape_ c = [] ∧ o0 = -1 ∧ o1 = -1) ∨ (∃ l, output_shape_ c = l ++ [o0; o1] ∧ H ≤ o0 ∧ W ≤ o1);
  ta_fits : size_fits (auto_pad_ (ct_base c)) H s0 k0 a0 p0 p2 o0 ∧ size_fits (auto_pad_ (ct_base c)) W s1 k1 a1 p1 p3 o1;
  ta_bound : full_size H s0 k0 a0 < 2 ^ 31 ∧ full_size W s1 k1 a1 < 2 ^ 31 ∧ Cg * group_ (ct_base c) < 2 ^ 31 ∧ Mo * group_ (ct_base c) < 2 ^ 31;
}.

Section prepare.
Context (c : ConvTransposeBase) (N Cg Mo H W k0 k1 s0 s1 a0 a1 p0 p1 p2 p3 o0 o1 : Z) (Ha : TransposeArgs c N Cg Mo H W k0 k1 s0 s1 a0 a1 p0 p1 p2 p3 o0 o1).
Abbreviation G := (group_ (ct_base c)).
Abbreviation Xd := [N; Cg * G; H; W].
Abbreviation Fd := [Cg * G; Mo; k0; k1].

(** The result: the padding and the size of both dimensions. *)
Record Prepared (p : PrepareTranspose) (h0 h1 t0 t1 y0 y1 : Z) : Prop := {
  pr_N : pt_N p = N; pr_H : pt_H p = H; pr_W : pt_W p = W;
  pr_in : num_input_channels p = Cg * G; pr_out : num_output_channels p = Mo * G;
  pr_kernel : pt_kernel_shape p = [k0; k1]; pr_pads : pt_pads p = [h0; h1; t0; t1]; pr_strides : pt_strides p = [s0; s1];
  pr_Y : pt_Y_dims p = [N; Mo * G; y0; y1];
  pr_nonneg : 0 ≤ h0 ∧ 0 ≤ h1 ∧ 0 ≤ t0 ∧ 0 ≤ t1 ∧ 1 ≤ y0 ∧ 1 ≤ y1;
  pr_sizes : y0 + h0 + t0 = full_size H s0 k0 a0 ∧ y1 + h1 + t1 = full_size W s1 k1 a1;
}.
Lemma requested : requested_size c H W = Ok (o0, o1).
Proof.
  destruct (ta_output _ _ _ _ _ _ _ _ _ _ _ _ _ _ _ _ _ _ Ha) as [(E & -> & ->)|(l & E & HH & HW)]; unfold requested_size; rewrite E; [done|]. rewrite bool_decide_false by (by destruct l). rewrite length_app. cbn [length].
  rewrite (proj2 (Nat.ltb_ge _ _)) by lia. unfold elem. replace (length l + 2 - 2)%nat with (length l + 0)%nat by lia. replace (length l + 2 - 1)%nat with (length l + 1)%nat by lia.
  rewrite !lookup_app_r by lia. replace (length l + 0 - length l)%nat with 0%nat by lia. replace (length l + 1 - length l)%nat with 1%nat by lia. cbn [lookup list_lookup of_option mbind res_bind].
  by rewrite (proj2 (Z.leb_le _ _) HH), (proj2 (Z.leb_le _ _) HW).
Qed.
Lemma transpose_prepare_ok : N * (Mo * G) * (full_size H s0 k0 a0 * full_size W s1 k1 a1) < 2 ^ 63 →
  ∃ p h0 h1 t0 t1 y0 y1, ConvTranspose_PrepareForCompute c Xd Fd = Ok (StatusOK, Some p) ∧ Prepared p h0 h1 t0 t1 y0 y1 ∧
    ComputeTransposePadAndOutputShape H s0 k0 a0 (auto_pad_ (ct_base c)) p0 p2 o0 = Ok (h0, t0, y0) ∧ ComputeTransposePadAndOutputShape W s1 k1 a1 (auto_pad_ (ct_base c)) p1 p3 o1 = Ok (h1, t1, y1).
Proof.
  intros Hsize. destruct Ha as [(HN & HC & HM & HH & HW & Hk0 & Hk1 & Hs0 & Hs1) HG Hker Hst Hdil Hop Hpd [Ha0 Ha1] (P0 & P1 & P2 & P3) Hout [F0 F1] (B0 & B1 & B2 & B3)].
  destruct (transpose_size_spec (auto_pad_ (ct_base c)) H s0 k0 a0 p0 p2 o0) as (h0 & t0 & y0 & E0 & R1 & R2 & R3 & R4 & _); [lia..|done|]. destruct (transpose_size_spec (auto_pad_ (ct_base c)) W s1 k1 a1 p1 p3 o1) as (h1 & t1 & y1 & E1 & S1 & S2 & S3 & S4 & _); [lia..|done|].
  unfold ConvTranspose_PrepareForCompute. rewrite (proj2 (Z.leb_gt G 0)) by lia. cbn [length Nat.eqb negb]. unfold elem. cbn [lookup list_lookup of_option mbind res_bind].
  rewrite Z.eqb_refl. cbn [negb]. rewrite int64_op_ok by nia. cbn [mbind res_bind]. rewrite Z.rem_mul by lia. cbn [Z.eqb negb].
  assert (EK : ComputeKernelShape (ct_base c) Fd = Ok (StatusOK, [k0; k1])) by (unfold ComputeKernelShape; destruct (kernel_shape_specified_ (ct_base c)) eqn:E; [rewrite Hker by done; cbn; by rewrite bool_decide_true|done]).
  rewrite EK. cbn [mbind res_bind IsOK StatusOK negb length]. change (replicate 2 0) with [0; 0]. change (replicate (2 * 2) 0) with [0; 0; 0; 0]. change (replicate 2 1) with [1; 1].
  fold (or_default (output_padding_ c) [0; 0]) (or_default (pads_ (ct_base c)) [0; 0; 0; 0]) (or_default (strides_ (ct_base c)) [1; 1]) (or_default (dilations_ (ct_base c)) [1; 1]). rewrite Hop, Hpd, Hst.
  unfold ComputePadsAndOutputShape, elem. cbn [lookup list_lookup of_option mbind res_bind]. rewrite requested. cbn [mbind res_bind].
  unfold transpose_dim, elem, at_. cbn [lookup list_lookup of_option mbind res_bind Nat.add]. rewrite E0. cbn [mbind res_bind insert list_insert lookup list_lookup of_option]. rewrite E1. cbn [mbind res_bind insert list_insert].
  assert (HS : Size [N; Mo * G; y0; y1] = N * (Mo * G) * (y0 * y1)).
  { assert (Hy : y0 * y1 ≤ full_size H s0 k0 a0 * full_size W s1 k1 a1) by (apply Z.mul_le_mono_nonneg; lia). pose proof (mul_pos _ _ HM (proj1 HG)) as MG. pose proof (mul_pos _ _ (proj1 HN) MG).
    pose proof (Z.mul_le_mono_nonneg_l _ _ (N * (Mo * G)) ltac:(lia) Hy). rewrite Size_ok; [cbn; ring| |].
    - repeat constructor; lia.
    - rewrite !prodZ_cons. cbn [prodZ foldr]. change (prodZ []) with 1. lia. }
  pose proof (mul_pos _ _ HM (proj1 HG)) as MG. pose proof (mul_pos _ _ (proj1 HN) MG) as NMG. pose proof (mul_pos _ _ R3 S3) as YY. pose proof (mul_pos _ _ NMG YY) as PP. rewrite HS, (proj2 (Z.leb_le 0 _)) by lia. cbn [enforce mbind res_bind].
  eexists _, h0, h1, t0, t1, y0, y1. split; [reflexivity|]. split; [by split; cbn|]. by split.
Qed.
End prepare.

(** ** The computation *)

(** The product with the first matrix transposed: an element is made of a column
    of the one matrix and a column of the other. *)
Definition gemm_trans_spec {A} (zero : A) (dot : list (A * A) → A) (GemmTrans : Z → Z → Z → list A → list A → list A) : Prop :=
  ∀ m n k a b, 0 < m → 0 < n → 0 < k → k * m ≤ Z.of_nat (length a) → k * n ≤ Z.of_nat (length b) →
    Z.of_nat (length (GemmTrans m n k a b)) = m * n ∧
    ∀ i j, 0 ≤ i < m → 0 ≤ j < n →
      GemmTrans m n k a b !! Z.to_nat (i * n + j) = Some (dot ((fun x => (default zero (a !! Z.to_nat (x * m + i)), default zero (b !! Z.to_nat (x * n + j)))) <$> seqZ 0 k)).

Section compute.
Context (c : ConvTransposeBase) (N Cg Mo H W k0 k1 s0 s1 a0 a1 p0 p1 p2 p3 o0 o1 : Z) (Ha : TransposeArgs c N Cg Mo H W k0 k1 s0 s1 a0 a1 p0 p1 p2 p3 o0 o1).
Abbreviation G := (group_ (ct_base c)).
Abbreviation Fd := [Cg * G; Mo; k0; k1].
Context (p : PrepareTranspose) (h0 h1 t0 t1 y0 y1 : Z) (Hpr : Prepared c N Cg Mo H W k0 k1 s0 s1 a0 a1 p h0 h1 t0 t1 y0 y1).
Abbreviation hw := (H * W).
Abbreviation osz := (y0 * y1).
Abbreviation K := (Mo * k0 * k1).
(** Sizes. *)
Context (HK : K * hw < 2 ^ 31) (HX : Cg * hw < 2 ^ 63) (HY : N * (Mo * G * osz) < 2 ^ 63) (HF : Cg * G * K < 2 ^ 63).
Definition window : Window := mkWindow Mo y0 y1 k0 k1 1 1 h0 h1 t0 t1 s0 s1.

Lemma window_ok : WindowOk window ∧ out_h window = H ∧ out_w window = W.
Proof.
  destruct (ta_pos _ _ _ _ _ _ _ _ _ _ _ _ _ _ _ _ _ _ Ha) as (HN & HC & HM & HH & HW & Hk0 & Hk1 & Hs0 & Hs1). destruct (ta_adj _ _ _ _ _ _ _ _ _ _ _ _ _ _ _ _ _ _ Ha) as [Ha0 Ha1].
  destruct (ta_bound _ _ _ _ _ _ _ _ _ _ _ _ _ _ _ _ _ _ Ha) as (B0 & B1 & _). destruct (pr_nonneg _ _ _ _ _ _ _ _ _ _ _ _ _ _ _ _ _ _ _ Hpr) as (R0 & R1 & R2 & R3 & R4 & R5). destruct (pr_sizes _ _ _ _ _ _ _ _ _ _ _ _ _ _ _ _ _ _ _ Hpr) as [Z0 Z1].
  assert (Eh : out_h window = H) by (apply Sized_div; [done|]; unfold dkernel_h, window; cbn; unfold full_size in Z0; lia).
  assert (Ew : out_w window = W) by (apply Sized_div; [done|]; unfold dkernel_w, window; cbn; unfold full_size in Z1; lia).
  split; [|done]. assert (0 ≤ (H - 1) * s0) by (apply Z.mul_nonneg_nonneg; lia). assert (0 ≤ (W - 1) * s1) by (apply Z.mul_nonneg_nonneg; lia). unfold full_size in *.
  split; rewrite ?Eh, ?Ew; unfold dkernel_h, dkernel_w; cbn; clear Ha Hpr HX HY HF; lia.
Qed.
Abbreviation offsets := (mkTransposeOffsets window hw (Cg * hw) (Mo * osz) (Cg * K) K osz).
Lemma sizes_positive : 1 ≤ G ∧ 1 ≤ Mo ∧ 1 ≤ Cg ∧ 1 ≤ hw ∧ 1 ≤ osz ∧ 1 ≤ K ∧ 1 ≤ N.
Proof.
  destruct (ta_pos _ _ _ _ _ _ _ _ _ _ _ _ _ _ _ _ _ _ Ha) as (HN & HC & HM & HH & HW & Hk0 & Hk1 & Hs0 & Hs1). destruct (ta_group _ _ _ _ _ _ _ _ _ _ _ _ _ _ _ _ _ _ Ha) as [HG _].
  destruct (pr_nonneg _ _ _ _ _ _ _ _ _ _ _ _ _ _ _ _ _ _ _ Hpr) as (R0 & R1 & R2 & R3 & R4 & R5). split_and!; try done; try apply HN; try (by apply mul_pos). by repeat apply mul_pos.
Qed.
Lemma transpose_offsets_ok : transpose_offsets c p Fd = Ok offsets.
Proof.
  destruct sizes_positive as (HG & HM & HC & HH & HO & HKK & HN). destruct (ta_pos _ _ _ _ _ _ _ _ _ _ _ _ _ _ _ _ _ _ Ha) as (HN' & _ & _ & _ & _ & Hk0 & Hk1 & _). destruct (pr_nonneg _ _ _ _ _ _ _ _ _ _ _ _ _ _ _ _ _ _ _ Hpr) as (_ & _ & _ & _ & R4 & R5).
  pose proof (mul_pos _ _ HM HG) as MG. pose proof (mul_pos _ _ MG HO) as MGO. pose proof (mul_pos _ _ HN MGO) as NMGO. pose proof (mul_pos _ _ HC HG) as CG. pose proof (mul_pos _ _ CG HKK) as CGK. pose proof (mul_pos _ _ HC HH) as CH. pose proof (mul_pos _ _ HKK HH) as KH.
  unfold transpose_offsets. rewrite (pr_H _ _ _ _ _ _ _ _ _ _ _ _ _ _ _ _ _ _ _ Hpr), (pr_W _ _ _ _ _ _ _ _ _ _ _ _ _ _ _ _ _ _ _ Hpr), (pr_in _ _ _ _ _ _ _ _ _ _ _ _ _ _ _ _ _ _ _ Hpr), (pr_out _ _ _ _ _ _ _ _ _ _ _ _ _ _ _ _ _ _ _ Hpr),
    (pr_N _ _ _ _ _ _ _ _ _ _ _ _ _ _ _ _ _ _ _ Hpr), (pr_Y _ _ _ _ _ _ _ _ _ _ _ _ _ _ _ _ _ _ _ Hpr), (pr_kernel _ _ _ _ _ _ _ _ _ _ _ _ _ _ _ _ _ _ _ Hpr), (pr_pads _ _ _ _ _ _ _ _ _ _ _ _ _ _ _ _ _ _ _ Hpr), (pr_strides _ _ _ _ _ _ _ _ _ _ _ _ _ _ _ _ _ _ _ Hpr).
  rewrite !Z.quot_mul by (clear - HG; lia). rewrite (int64_op_ok hw) by (pose proof (le_mul_r _ _ HKK (nonneg_of _ HH)) as L1; clear - L1 HK HH; lia). cbn [mbind res_bind]. rewrite (int64_op_ok (Cg * hw)) by (clear - HX CH; lia). cbn [mbind res_bind].
  assert (EY : Size [N; Mo * G; y0; y1] = Mo * osz * G * N).
  { rewrite Size_ok; [cbn; ring| |]; [repeat (constructor; [done|]); constructor|]. replace (prodZ [N; Mo * G; y0; y1]) with (N * (Mo * G * osz)) by (cbn; ring). done. }
  assert (EF : Size Fd = Cg * K * G).
  { rewrite Size_ok; [cbn; ring| |]; [repeat (constructor; [done|]); constructor|]. replace (prodZ Fd) with (Cg * G * K) by (cbn; ring). done. }
  rewrite EY, EF. replace (N * (Mo * G * osz)) with (Mo * osz * G * N) in HY, NMGO by ring. replace (Mo * G * osz) with (Mo * osz * G) in MGO by ring. replace (Cg * G * K) with (Cg * K * G) in HF, CGK by ring.
  rewrite (int64_div_ok (Mo * osz * G * N)) by (clear - HY NMGO HN; lia). cbn [mbind res_bind]. rewrite (Z.div_mul _ N) by (clear - HN; lia).
  assert (HY' : Mo * osz * G < 2 ^ 63) by (pose proof (le_mul_r N _ HN (nonneg_of _ MGO)) as L1; clear - L1 HY; lia). rewrite (int64_div_ok (Mo * osz * G)) by (clear - HY' MGO HG; lia). cbn [mbind res_bind]. rewrite (Z.div_mul _ G) by (clear - HG; lia).
  rewrite (int64_div_ok (Cg * K * G)) by (clear - HF CGK HG; lia). cbn [mbind res_bind]. rewrite (Z.div_mul _ G) by (clear - HG; lia). unfold elem. cbn [lookup list_lookup of_option mbind res_bind].
  rewrite (int64_op_ok K) by (pose proof (le_mul_r _ _ HH (nonneg_of _ HKK)) as L1; clear - L1 HK HKK; lia). cbn [mbind res_bind].
  assert (HO' : osz < 2 ^ 63) by (pose proof (le_mul_r _ _ (mul_pos _ _ HM HG) (nonneg_of _ HO)) as L1; clear - L1 HY'; lia). rewrite (int64_op_ok osz) by (clear - HO HO'; lia). cbn [mbind res_bind]. done.
Qed.

Section elements.
Context {A : Type} (garbage zero : A) (add : A → A → A) (dot : list (A * A) → A) (GemmTrans : Z → Z → Z → list A → list A → list A) (Hgemm : gemm_trans_spec zero dot GemmTrans).
Context (X F : list A) (LX : Z.of_nat (length X) = N * (Cg * hw * G)) (LF : Z.of_nat (length F) = Cg * K * G) (B : option (list A)) (LB : ∀ b, B = Some b → Z.of_nat (length b) = Mo * G).
Abbreviation Bk := (Mo * osz).
Abbreviation S := (Mo * G * osz).

(** The element of the columns for a cell of the filter and a position of the
    input; [x] and [f] are where the channels and the filters of the group start. *)
Definition product_at (x f i : Z) : A :=
  dot ((fun ch => (default zero (F !! Z.to_nat (f + (ch * K + i / hw))), default zero (X !! Z.to_nat (x + (ch * hw + i mod hw))))) <$> seqZ 0 Cg).
(** A pixel of the output of a group: what falls on it. *)
Definition pixel (x f q : Z) : A := foldl add zero (omap (fun i => if decide (cell window i = Some q) then Some (product_at x f i) else None) (seqZ 0 (K * hw))).
Definition rawT (i : Z) : A := let n := i / S in let group_id := i mod S / Bk in pixel (n * (Cg * hw * G) + group_id * (Cg * hw)) (group_id * (Cg * K)) (i mod Bk).
Abbreviation uptoT := (upto zero add rawT (Mo * G) osz B).
Abbreviation DoneT := (fun t n Y => filled (uptoT t) (N * S) n Y).

Lemma rawT_at n group_id q : 0 ≤ group_id < G → 0 ≤ q < Bk → rawT (n * S + (group_id * Bk + q)) = pixel (n * (Cg * hw * G) + group_id * (Cg * hw)) (group_id * (Cg * K)) q.
Proof.
  intros Hid Hq. unfold rawT. pose proof (pair_bound group_id G q Bk Hid Hq) as Hb. replace (G * Bk) with S in Hb by ring. destruct (div_mod_add n S _ Hb) as [-> ->]. destruct (div_mod_add group_id Bk q Hq) as [-> _].
  replace (n * S + (group_id * Bk + q)) with ((n * G + group_id) * Bk + q) by ring. by destruct (div_mod_add (n * G + group_id) Bk q Hq) as [_ ->].
Qed.
(** A block of a list replaced by another one. *)
Lemma block_filled (f : Z → A) total n m Y part :
  0 ≤ n → 0 ≤ m → n + m ≤ total → filled f total n Y → Z.of_nat (length part) = m → (∀ e, 0 ≤ e < m → part !! Z.to_nat e = Some (f (n + e))) →
  filled f total (n + m) (take (Z.to_nat n) Y ++ part ++ drop (Z.to_nat m) (drop (Z.to_nat n) Y)).
Proof.
  intros Hn Hm Hnm [L Hf] Lp Hp. split; [rewrite !length_app, length_take, !length_drop; lia|]. intros i Hi. destruct (decide (i < n)).
  - rewrite lookup_app_l by (rewrite length_take; lia). rewrite lookup_take_lt by lia. apply Hf. lia.
  - rewrite lookup_app_r by (rewrite length_take; lia). rewrite length_take, Nat.min_l, lookup_app_l by lia. replace (Z.to_nat i - Z.to_nat n)%nat with (Z.to_nat (i - n)) by lia. rewrite Hp by lia. do 2 f_equal. lia.
Qed.
Lemma sum_at_pixel col x f q : (∀ i, 0 ≤ i < K * hw → col !! Z.to_nat i = Some (product_at x f i)) → sum_at zero add (cell window) col q (K * hw) = pixel x f q.
Proof.
  intros Hc. unfold sum_at, pixel. f_equal. apply list_omap_ext, Forall2_same_length_lookup_2; [done|]. intros i a b Hx Hy. rewrite Hx in Hy. injection Hy as <-. apply list_elem_of_lookup_2, elem_of_seqZ in Hx.
  unfold falls_on. destruct (decide _); [|done]. apply Hc. lia.
Qed.
Lemma transpose_group_ok n group_id col Y :
  0 ≤ n < N → 0 ≤ group_id < G → Z.of_nat (length col) = K * hw → DoneT (n * S) (n * S + group_id * Bk) Y →
  ∃ col' Y', transpose_group zero add GemmTrans c p offsets X F (n * (Cg * hw * G)) (n * (Mo * osz * G)) (col, Y) group_id = Ok (col', Y') ∧
    Z.of_nat (length col') = K * hw ∧ DoneT (n * S) (n * S + (group_id + 1) * Bk) Y'.
Proof.
  intros Hn Hid Hcol HD. destruct sizes_positive as (HG & HM & HC & HH & HO & HKK & HN). destruct window_ok as (Hw & Eh & Ew). pose proof (mul_pos _ _ HC HH) as CH. pose proof (mul_pos _ _ HM HO) as MO. pose proof (mul_pos _ _ HC HKK) as CK. pose proof (mul_pos _ _ HKK HH) as KH.
  destruct (block_bound n N group_id G (Cg * hw) Hn Hid CH) as [X1 X2]. destruct (block_bound n N group_id G Bk Hn Hid MO) as [Y1 Y2]. destruct (block_bound 0 1 group_id G (Cg * K) ltac:(done) Hid CK) as [F1 F2]. rewrite Z.mul_0_l, Z.add_0_l in F1, F2. rewrite Z.mul_1_l in F2.
  rewrite <- LX in X2. rewrite <- LF in F2. replace (Mo * osz * G) with S in * by ring. clear LX LF HY HX HF.
  unfold transpose_group. cbn [to_kernel_dim to_image to_W to_X to_Y to_window]. rewrite (pr_in _ _ _ _ _ _ _ _ _ _ _ _ _ _ _ _ _ _ _ Hpr), Z.quot_mul by (clear - HG; lia).
  destruct (Hgemm K hw Cg (drop (Z.to_nat (group_id * (Cg * K))) F) (drop (Z.to_nat (n * (Cg * hw * G) + group_id * (Cg * hw))) X) (pos_of _ HKK) (pos_of _ HH) (pos_of _ HC)) as [Lp Hp]; [by apply drop_bound|by apply drop_bound|].
  set (product := GemmTrans _ _ _ _ _) in *. clearbody product. destruct (memcpy_ok col 0 product 0 (K * hw)) as (col' & Ecol & Lcol & _); [done|done|by apply nonneg_of|by rewrite Hcol|by rewrite Lp|]. rewrite Ecol. cbn [mbind res_bind].
  assert (Hc : ∀ i, 0 ≤ i < K * hw → col' !! Z.to_nat i = Some (product_at (n * (Cg * hw * G) + group_id * (Cg * hw)) (group_id * (Cg * K)) i)).
  { intros i Hi. pose proof (memcpy_elem _ _ _ _ _ _ i Ecol Hi) as He. rewrite !Z.add_0_l in He. rewrite He. destruct (digit_pair i hw K (pos_of _ HH) Hi) as (k & j & -> & Hk & Hj). rewrite Hp by done. f_equal. unfold product_at.
    destruct (div_mod_add k hw j Hj) as [-> ->]. f_equal. apply list_fmap_ext. intros z ch Hch. apply list_elem_of_lookup_2, elem_of_seqZ in Hch. rewrite Z.add_0_l in Hch. rewrite !lookup_drop.
    destruct (pair_bound ch Cg k K Hch Hk) as [D1 _]. destruct (pair_bound ch Cg j hw Hch Hj) as [D2 _]. by rewrite <- !Z2Nat.inj_add by done. }
  rewrite <- Lcol in Hcol. assert (Lc : Z.of_nat (length col') = channels window * kernel_h window * kernel_w window * (out_h window * out_w window)) by (rewrite Eh, Ew; exact Hcol).
  set (y := n * S + group_id * Bk) in *. unfold col2im_at. rewrite <- (take_drop (Z.to_nat Bk) (drop (Z.to_nat y) Y)). pose proof (proj1 HD) as LY.
  assert (Lim : Z.of_nat (length (take (Z.to_nat Bk) (drop (Z.to_nat y) Y))) = height window * width window * channels window).
  { rewrite length_take, length_drop. unfold window. cbn [height width channels]. rewrite (Z.mul_comm osz Mo). clear - Y1 Y2 LY MO. lia. }
  destruct (col2im_added window Hw zero add col' Lc (drop (Z.to_nat Bk) (drop (Z.to_nat y) Y)) _ Lim) as (im1 & -> & (im & -> & Limg & Him)). cbn [mbind res_bind]. exists col'. eexists. split; [reflexivity|]. split; [exact Hcol|].
  replace (n * S + (group_id + 1) * Bk) with (y + Bk) by (unfold y; ring). rewrite Eh, Ew in Him. change (height window * width window * channels window) with (y0 * y1 * Mo) in *. rewrite (Z.mul_comm osz Mo) in *.
  apply block_filled; [done|by apply nonneg_of|done|done|done|]. intros e He. rewrite Him by done. f_equal. change (channels window * kernel_h window * kernel_w window * hw) with (K * hw). rewrite (sum_at_pixel _ _ _ _ Hc).
  unfold upto. pose proof (pair_bound group_id G e Bk Hid He) as [Hb _]. rewrite (proj2 (Z.ltb_ge _ _)) by (unfold y; rewrite <- Z.add_assoc; by apply add_le). unfold y. rewrite <- Z.add_assoc. by rewrite rawT_at.
Qed.
Lemma transpose_image_ok n col Y :
  0 ≤ n < N → Z.of_nat (length col) = K * hw → DoneT (n * S) (n * S) Y →
  ∃ col' Y', transpose_image zero add GemmTrans c p offsets X F B (col, Y) n = Ok (col', Y') ∧ Z.of_nat (length col') = K * hw ∧ DoneT ((n + 1) * S) ((n + 1) * S) Y'.
Proof.
  intros Hn Hcol HD. destruct sizes_positive as (HG & HM & _ & _ & HO & _). destruct (ta_group _ _ _ _ _ _ _ _ _ _ _ _ _ _ _ _ _ _ Ha) as [_ HG1]. pose proof (mul_pos _ _ HM HG) as MG.
  assert (EN : (n + 1) * S = n * S + G * Bk) by ring. unfold transpose_image. cbn [to_X to_Y to_output].
  destruct (for_int_inv (fun group_id s => Z.of_nat (length (fst s)) = K * hw ∧ DoneT (n * S) (n * S + group_id * Bk) (snd s)) G
    (transpose_group zero add GemmTrans c p offsets X F (n * (Cg * hw * G)) (n * (Mo * osz * G))) (col, Y)) as ([col1 Y1] & -> & L1 & H1).
  - split; [by apply nonneg_of|done].
  - split; [done|]. by rewrite Z.mul_0_l, Z.add_0_r.
  - intros group_id [col1 Y1] Hid [L1 H1]. destruct (transpose_group_ok n group_id col1 Y1 Hn Hid L1 H1) as (col2 & Y2 & E2 & L2 & H2). exists (col2, Y2). by split.
  - cbn [mbind res_bind fst snd] in *. rewrite <- EN in H1. rewrite (pr_out _ _ _ _ _ _ _ _ _ _ _ _ _ _ _ _ _ _ _ Hpr). replace (n * (Mo * osz * G)) with (n * S) by ring.
    destruct (bias_ok zero add rawT N (Mo * G) osz MG HO B LB n Y1 Hn H1) as (Y2 & -> & H2). exists col1, Y2. done.
Qed.
Lemma transpose_run X_dims :
  ConvTranspose_PrepareForCompute c X_dims Fd = Ok (StatusOK, Some p) →
  ∃ Y, ConvTranspose_Compute garbage zero add GemmTrans c (X_dims, X) (Fd, F) ((fun b => ([Mo * G], b)) <$> B) = Ok (StatusOK, Some ([N; Mo * G; y0; y1], Y)) ∧
    ∀ n group_id m r, 0 ≤ n < N → 0 ≤ group_id < G → 0 ≤ m < Mo → 0 ≤ r < osz →
      let y := pixel (n * (Cg * hw * G) + group_id * (Cg * hw)) (group_id * (Cg * K)) (m * osz + r) in
      Y !! Z.to_nat ((n * (Mo * G) + (group_id * Mo + m)) * osz + r) = Some (match B with Some b => add y (default zero (b !! Z.to_nat (group_id * Mo + m))) | None => y end).
Proof.
  intros Ep. destruct sizes_positive as (HG & HM & HC & HH & HO & HKK & HN). destruct (ta_pos _ _ _ _ _ _ _ _ _ _ _ _ _ _ _ _ _ _ Ha) as ([_ HN31] & _).
  pose proof (mul_pos _ _ HM HG) as MG. pose proof (mul_pos _ _ HKK HH) as KH. pose proof (mul_pos _ _ MG HO) as MGO. pose proof (mul_pos _ _ HN MGO) as NMGO.
  unfold ConvTranspose_Compute. cbn [fst snd]. rewrite Ep. cbn [mbind res_bind]. rewrite transpose_offsets_ok. cbn [mbind res_bind to_kernel_dim]. rewrite (pr_H _ _ _ _ _ _ _ _ _ _ _ _ _ _ _ _ _ _ _ Hpr), (pr_W _ _ _ _ _ _ _ _ _ _ _ _ _ _ _ _ _ _ _ Hpr),
    (pr_Y _ _ _ _ _ _ _ _ _ _ _ _ _ _ _ _ _ _ _ Hpr), (pr_N _ _ _ _ _ _ _ _ _ _ _ _ _ _ _ _ _ _ _ Hpr).
  rewrite <- (Z.mul_assoc K H W). rewrite (int64_op_ok (K * hw)) by (clear - KH HK; lia). cbn [mbind res_bind]. replace (snd <$> ((fun b => ([Mo * G], b)) <$> B)) with B by (destruct B; done).
  unfold new_output. replace (prodZ [N; Mo * G; y0; y1]) with (N * S) by (cbn; ring).
  destruct (for_int_inv (fun n s => Z.of_nat (length (fst s)) = K * hw ∧ DoneT (n * S) (n * S) (snd s)) N (transpose_image zero add GemmTrans c p offsets X F B)
    (replicate (Z.to_nat (K * hw)) garbage, replicate (Z.to_nat (N * S)) garbage)) as ([col Y] & -> & _ & [_ HYf]).
  - split; [by apply nonneg_of|done].
  - cbn [fst snd]. rewrite length_replicate, Z2Nat.id by (by apply nonneg_of). split; [done|]. split; [by rewrite length_replicate, Z2Nat.id by (by apply nonneg_of)|]. intros i Hi. clear - Hi. lia.
  - intros n [col Y] Hn [L1 H1]. destruct (transpose_image_ok n col Y Hn L1 H1) as (col2 & Y2 & E2 & L2 & H2). exists (col2, Y2). by split.
  - cbn [mbind res_bind snd] in *. exists Y. split; [done|]. intros n group_id m r Hn Hid Hm Hr. cbv zeta. pose proof (pair_bound group_id G m Mo Hid Hm) as Hgm. rewrite (Z.mul_comm G Mo) in Hgm.
    pose proof (pair_bound _ _ r osz Hgm Hr) as Hq. pose proof (pair_bound n N _ S Hn Hq) as Hi. replace ((n * (Mo * G) + (group_id * Mo + m)) * osz + r) with (n * S + ((group_id * Mo + m) * osz + r)) by ring.
    rewrite HYf by done. f_equal. unfold upto. rewrite (proj2 (Z.ltb_lt _ _)) by apply Hi. unfold biased. rewrite (proj2 (div_mod_add n S _ Hq)), (proj1 (div_mod_add _ osz r Hr)).
    replace (n * S + ((group_id * Mo + m) * osz + r)) with (n * S + (group_id * Bk + (m * osz + r))) by ring. rewrite rawT_at; [done|done|]. by apply pair_bound.
Qed.
End elements.
End compute.


(** The attribute [dilations] has no effect. *)
Definition with_dilations (d : list Z) (c : ConvTransposeBase) : ConvTransposeBase :=
  let b := ct_base c in
  mkConvTranspose (mkConvBase (auto_pad_ b) (group_ b) (kernel_shape_specified_ b) (strides_ b) (pads_ b) d (kernel_shape_ b)) (output_padding_ c) (output_shape_ c).
Lemma transpose_dilations_ignored {A} (garbage zero : A) add GemmTrans d c X F B :
  ConvTranspose_Compute garbage zero add GemmTrans (with_dilations d c) X F B = ConvTranspose_Compute garbage zero add GemmTrans c X F B.
Proof.
  unfold ConvTranspose_Compute, ConvTranspose_PrepareForCompute. cbn [with_dilations ct_base group_ output_padding_ pads_ dilations_ strides_].
  change (ComputeKernelShape _ (fst F)) with (ComputeKernelShape (ct_base c) (fst F)) at 1.
  change (ComputePadsAndOutputShape (with_dilations d c)) with (ComputePadsAndOutputShape c).
  repeat match goal with
  | |- mbind _ (if ?b then _ else _) = _ => destruct b; [done|]
  | |- mbind _ (mbind _ ?m) = _ => destruct m as [?| |]; cbn [mbind res_bind]; [|done|done]
  | |- mbind _ (let '(_, _) := ?p in _) = _ => destruct p
  end.
  reflexivity.
Qed.

Module SmallTranspose.
Definition gemm_trans (m n k : Z) (a b : list Z) : list Z :=
  SmallConv.table m n (fun i j => SmallConv.dot ((fun x => (default 0 (a !! Z.to_nat (x * m + i)), default 0 (b !! Z.to_nat (x * n + j)))) <$> seqZ 0 k)).
Lemma gemm_trans_ok : gemm_trans_spec 0 SmallConv.dot gemm_trans.
Proof. intros m n k a b Hm Hn _ _ _. by apply SmallConv.matrix_table_ok. Qed.
(** Two channels in two groups, filters of 2 x 2, padded in front. *)
Definition c2 : ConvTransposeBase := mkConvTranspose (mkConvBase NOTSET 2 true [1; 1] [1; 1; 0; 0] [1; 1] [2; 2]) [] [].
Lemma ct2_args : TransposeArgs c2 1 1 1 2 2 2 2 1 1 0 0 1 1 0 0 (-1) (-1).
Proof. split; try done. by left. Qed.
Lemma second : 0 ≤ 1 < group_ (ct_base c2).
Proof. done. Qed.
End SmallTranspose.
