(* ===== verification/MatMul.v ===== *)
(** Products of matrices: the shapes and offsets of [matmul_helper.h] with the
    kernel of [matmul.cc], and the kernel of [gemm.h] with [gemm_helper.h]. The
    product itself (of Eigen or mlas) is a parameter, as for the convolutions. *)
From S2P Require Import Prelude TensorShape Transpose DataMove Im2col Conv.

(** ** Shapes and offsets of MatMul *)

(** [CopyDims] into a vector, from the place [pos] on. *)
Definition CopyDims (s : TensorShape) (dims : list Z) (pos num_dims : nat) : res (list Z) :=
  memcpy dims (Z.of_nat pos) s 0 (Z.of_nat (Nat.min num_dims (length s))).

Record MatMulComputeHelper := mkMatMul {
  mm_output_shape : TensorShape;
  mm_M : Z; mm_N : Z; mm_K : Z;
  mm_left_offsets : list Z; mm_right_offsets : list Z; mm_output_offsets : list Z;
}.

(** [left_padded_dims_] and [right_padded_dims_]. *)
Definition matmul_padded_dims (left_shape right_shape : TensorShape) : res (list Z * list Z) :=
  let left_num_dims := length left_shape in
  let right_num_dims := length right_shape in
  let num_input_dims := Nat.max left_num_dims right_num_dims in
  let num_dims_with_pad := (num_input_dims + if (right_num_dims =? 1)%nat then 1 else 0)%nat in
  let ones := replicate num_dims_with_pad 1 in
  if (right_num_dims =? 1)%nat then
    k ← elem right_shape 0;
    right_padded_dims ← write ones (Z.of_nat (num_dims_with_pad - 2)) k;
    if (2 <=? num_input_dims)%nat then
      left_padded_dims ← CopyDims left_shape ones 0 (left_num_dims - 1);
      k ← elem left_shape (left_num_dims - 1);
      left_padded_dims ← write left_padded_dims (Z.of_nat (num_dims_with_pad - 1)) k;
      Ok (left_padded_dims, right_padded_dims)
    else
      left_padded_dims ← CopyDims left_shape ones (num_dims_with_pad - left_num_dims) left_num_dims;
      Ok (left_padded_dims, right_padded_dims)
  else
    left_padded_dims ← CopyDims left_shape ones (num_dims_with_pad - left_num_dims) left_num_dims;
    right_padded_dims ← CopyDims right_shape ones (num_dims_with_pad - right_num_dims) right_num_dims;
    Ok (left_padded_dims, right_padded_dims).

(** A dimension that is broadcast. *)
Definition matmul_broadcast_dim (left_padded_dims right_padded_dims : list Z) (s : Status * list Z) (idx_dim : nat) : res (Status * list Z) :=
  let '(status, output_dims) := s in
  if negb (IsOK status) then Ok s
  else
    l ← elem left_padded_dims idx_dim;
    r ← elem right_padded_dims idx_dim;
    output_dims ← write output_dims (Z.of_nat idx_dim) (Z.max l r);
    if negb (l =? Z.max l r) && negb (l =? 1) then Ok (Some FAIL, output_dims)
    else if negb (r =? Z.max l r) && negb (r =? 1) then Ok (Some FAIL, output_dims)
    else Ok (StatusOK, output_dims).

(** A broadcast axis, with the strides in matrices; the strides are computed
    from the innermost axis on, in [size_t]. *)
Record MatAxis := mkMatAxis { left_dim : Z; right_dim : Z; output_dim : Z; left_stride : Z; right_stride : Z; output_stride : Z }.
Fixpoint mat_axes (left_dims right_dims : list Z) : list MatAxis :=
  match left_dims, right_dims with
  | l :: left_dims', r :: right_dims' =>
      let axes := mat_axes left_dims' right_dims' in
      match axes with
      | [] => [mkMatAxis l r (Z.max l r) 1 1 1]
      | a :: _ => mkMatAxis l r (Z.max l r) (u64 (left_stride a * left_dim a)) (u64 (right_stride a * right_dim a)) (u64 (output_stride a * output_dim a)) :: axes
      end
  | _, _ => []
  end.

Record MatOffsets := mkMatOffsets { left_offsets : list Z; right_offsets : list Z; output_offsets : list Z }.
Fixpoint RecursiveFill (left_mat_size right_mat_size output_mat_size : Z) (axes : list MatAxis) (idx_left idx_right idx_out : Z) (s : MatOffsets) : res MatOffsets :=
  match axes with
  | [] =>
      l ← write (left_offsets s) idx_out (u64 (idx_left * left_mat_size));
      r ← write (right_offsets s) idx_out (u64 (idx_right * right_mat_size));
      o ← write (output_offsets s) idx_out (u64 (idx_out * output_mat_size));
      Ok (mkMatOffsets l r o)
  | a :: axes' =>
      for_lt (output_dim a) (fun s i =>
        RecursiveFill left_mat_size right_mat_size output_mat_size axes'
          (u64 (idx_left + i * (if left_dim a =? 1 then 0 else left_stride a)))
          (u64 (idx_right + i * (if right_dim a =? 1 then 0 else right_stride a)))
          (u64 (idx_out + i * output_stride a)) s) s
  end.
Definition ComputeBroadcastOffsets (M N K : Z) (left_padded_dims right_padded_dims : list Z) : res MatOffsets :=
  let num_broadcasted_dims := (length left_padded_dims - 2)%nat in
  let axes := mat_axes (take num_broadcasted_dims left_padded_dims) (take num_broadcasted_dims right_padded_dims) in
  match axes with
  | [] => Ok (mkMatOffsets [0] [0] [0])
  | a :: _ =>
      left_mat_size ← int64_op (M * K);
      right_mat_size ← int64_op (K * N);
      output_mat_size ← int64_op (M * N);
      let zeros := replicate (Z.to_nat (u64 (output_dim a * output_stride a))) 0 in
      RecursiveFill (u64 left_mat_size) (u64 right_mat_size) (u64 output_mat_size) axes 0 0 0 (mkMatOffsets zeros zeros zeros)
  end.

(** The right operand is one matrix, with ones in front: the left one is
    flattened to a matrix. *)
Definition matmul_flattens (left_shape right_shape : TensorShape) : res bool :=
  if (2 <=? length left_shape)%nat && (2 <=? length right_shape)%nat
  then size ← SizeToDimension right_shape (length right_shape - 1); k ← elem right_shape (length right_shape - 2); Ok (size =? k)
  else Ok false.
Definition matmul_flattened (left_shape right_shape : TensorShape) : res (Status * option MatMulComputeHelper) :=
  M ← SizeToDimension left_shape (length left_shape - 1);
  K ← elem left_shape (length left_shape - 1);
  N ← elem right_shape (length right_shape - 1);
  output_dims ← write left_shape (Z.of_nat (length left_shape - 1)) N;
  k ← elem right_shape (length right_shape - 2);
  if negb (K =? k) then Ok (Some FAIL, None)
  else Ok (StatusOK, Some (mkMatMul output_dims M N K [0] [0] [0])).
(** The last dimensions of the output, or an error. *)
Definition matmul_output_dims (left_shape right_shape : TensorShape) (has_1D_input : bool) (num_dims_with_pad : nat) (M N K : Z) (output_dims : list Z) : res (Status * list Z) :=
  let left_num_dims := length left_shape in
  let right_num_dims := length right_shape in
  let num_output_dims := length output_dims in
  if negb has_1D_input then
    k ← elem right_shape (right_num_dims - 2);
    if negb (K =? k) then Ok (Some FAIL, output_dims)
    else if negb (num_dims_with_pad =? num_output_dims)%nat then Ok (Some FAIL, output_dims)
    else
      output_dims ← write output_dims (Z.of_nat num_output_dims - 2) M;
      output_dims ← write output_dims (Z.of_nat num_output_dims - 1) N;
      Ok (StatusOK, output_dims)
  else if (num_output_dims =? 0)%nat then
    if negb ((M =? 1) && (N =? 1)) then Ok (Some FAIL, output_dims) else Ok (StatusOK, output_dims)
  else if (left_num_dims =? 1)%nat then
    if negb (num_dims_with_pad - 1 =? num_output_dims)%nat then Ok (Some FAIL, output_dims)
    else
      k ← elem right_shape (right_num_dims - 2);
      if negb (K =? k) then Ok (Some FAIL, output_dims)
      else output_dims ← write output_dims (Z.of_nat num_output_dims - 1) N; Ok (StatusOK, output_dims)
  else
    if negb (num_dims_with_pad - 2 =? num_output_dims)%nat then Ok (Some FAIL, output_dims)
    else
      k ← elem right_shape 0;
      if negb (K =? k) then Ok (Some FAIL, output_dims) else Ok (StatusOK, output_dims).
Definition MatMulComputeHelper_Compute (left_shape right_shape : TensorShape) : res (Status * option MatMulComputeHelper) :=
  let left_num_dims := length left_shape in
  let right_num_dims := length right_shape in
  if negb ((1 <=? left_num_dims)%nat && (1 <=? right_num_dims)%nat) then Ok (Some FAIL, None)
  else
    flattens ← matmul_flattens left_shape right_shape;
    if flattens : bool then matmul_flattened left_shape right_shape
    else
      let has_1D_input := (left_num_dims =? 1)%nat || (right_num_dims =? 1)%nat in
      let num_input_dims := Nat.max left_num_dims right_num_dims in
      let num_output_dims := (num_input_dims - if has_1D_input then 1 else 0)%nat in
      '(left_padded_dims, right_padded_dims) ← matmul_padded_dims left_shape right_shape;
      let num_dims_with_pad := length left_padded_dims in
      '(status, output_dims) ← foldM (matmul_broadcast_dim left_padded_dims right_padded_dims) (StatusOK, replicate num_output_dims 0) (seq 0 (num_dims_with_pad - 2));
      if negb (IsOK status) then Ok (status, None)
      else
        M ← (if has_1D_input then Ok 1 else elem left_shape (left_num_dims - 2));
        K ← elem left_shape (left_num_dims - 1);
        N ← (if (right_num_dims =? 1)%nat then Ok 1 else elem right_shape (right_num_dims - 1));
        '(status, output_dims) ← matmul_output_dims left_shape right_shape has_1D_input num_dims_with_pad M N K output_dims;
        if negb (IsOK status) then Ok (status, None)
        else
          o ← ComputeBroadcastOffsets M N K left_padded_dims right_padded_dims;
          Ok (StatusOK, Some (mkMatMul output_dims M N K (left_offsets o) (right_offsets o) (output_offsets o))).

Section matmul.
Context {A : Type} (garbage : A) (Gemm : Z → Z → Z → list A → list A → list A).
Abbreviation Tens := (list Z * list A)%type.

Definition matmul_step (h : MatMulComputeHelper) (X W : list A) (Y : list A) (i : Z) : res (list A) :=
  l ← read (mm_left_offsets h) i;
  r ← read (mm_right_offsets h) i;
  o ← read (mm_output_offsets h) i;
  let M := i32 (mm_M h) in
  let N := i32 (mm_N h) in
  memcpy Y o (Gemm M N (i32 (mm_K h)) (drop (Z.to_nat l) X) (drop (Z.to_nat r) W)) 0 (M * N).
Definition MatMul_Compute (left_X right_X : Tens) : res (Status * option Tens) :=
  '(s, h) ← MatMulComputeHelper_Compute (fst left_X) (fst right_X);
  match h with
  | None => Ok (s, None)
  | Some h =>
      let Y := new_output garbage (mm_output_shape h) in
      Y ← for_int (Z.of_nat (length (mm_output_offsets h))) (matmul_step h (snd left_X) (snd right_X)) Y;
      Ok (StatusOK, Some (mm_output_shape h, Y))
  end.
End matmul.

(** ** Gemm *)

Record GemmHelper := mkGemmHelper { gh_M : Z; gh_K : Z; gh_N : Z; gh_status : Status }.
Definition IsValidBroadcast (shape : TensorShape) (M N : Z) : bool :=
  let n := length shape in
  let d i := shape !!! i in
  if negb (n =? 1)%nat && negb (n =? 2)%nat then false
  else if Size shape =? 1 then true
  else ((n =? 1)%nat && (d 0%nat =? N)) ||
       ((n =? 2)%nat && (d 0%nat =? M) && ((d 1%nat =? 1) || (d 1%nat =? N))) ||
       ((n =? 2)%nat && (d 0%nat =? 1) && (d 1%nat =? N)).
Definition new_GemmHelper (left : TensorShape) (trans_left : bool) (right : TensorShape) (trans_right : bool) (bias : TensorShape) : res GemmHelper :=
  let matrix := (length left =? 2)%nat in
  _ ← enforce (matrix || (length left =? 1)%nat);
  _ ← enforce (length right =? 2)%nat;
  l0 ← elem left 0;
  l1 ← (if matrix then elem left 1 else Ok 1);
  let '(M, K) := if trans_left then (if matrix then (l1, l0) else (l0, 1)) else (if matrix then (l0, l1) else (1, l0)) in
  r0 ← elem right 0;
  r1 ← elem right 1;
  let '(N, k) := if trans_right then (r0, r1) else (r1, r0) in
  let status := if negb (k =? K) then Some INVALID_ARGUMENT else StatusOK in
  let status := if negb (IsValidBroadcast bias M N) then Some INVALID_ARGUMENT else status in
  _ ← enforce ((0 <=? M) && (0 <? K) && (0 <=? N));
  Ok (mkGemmHelper M K N status).

Section gemm.
Context {A S : Type} (garbage zero : A) (add : A → A → A) (is_zero : S → bool).
(** [math::Gemm] with both transpositions and both factors; the last list is the
    old value of the result. *)
Context (GemmFull : bool → bool → Z → Z → Z → S → list A → list A → S → list A → list A).
Abbreviation Tens := (list Z * list A)%type.
Record GemmAttributes := mkGemm { trans_A_ : bool; trans_B_ : bool; alpha_ : S; beta_ : S }.

(** The bias is added to every element of the output; [place] gives where in the
    bias. *)
Definition gemm_add_bias (M N : Z) (place : Z → Z → Z) (B Y : list A) : res (list A) :=
  for_lt M (fun Y i => for_lt N (fun Y j => b ← read B (place i j); add_at add Y (i * N + j) b) Y) Y.
Definition gemm_bias (M N : Z) (B : Tens) (Y : list A) : res (list A) :=
  let b_shape := fst B in
  if Size b_shape =? 1 then gemm_add_bias M N (fun _ _ => 0) (snd B) Y
  else if (length b_shape =? 1)%nat then gemm_add_bias M N (fun _ j => j) (snd B) Y
  else if (length b_shape =? 2)%nat then
    b1 ← elem b_shape 1;
    b0 ← elem b_shape 0;
    if b1 =? 1 then gemm_add_bias M N (fun i _ => i) (snd B) Y
    else if b0 =? 1 then gemm_add_bias M N (fun _ j => j) (snd B) Y
    else gemm_add_bias M N (fun i j => i * N + j) (snd B) Y
  else Ok Y.
(** [activation_] is empty for this kernel. *)
Definition Gemm_Compute (c : GemmAttributes) (X W B : Tens) : res (Status * option Tens) :=
  h ← new_GemmHelper (fst X) (trans_A_ c) (fst W) (trans_B_ c) (fst B);
  if negb (IsOK (gh_status h)) then Ok (gh_status h, None)
  else
    let M := gh_M h in
    let N := gh_N h in
    let Y := new_output garbage [M; N] in
    if (M =? 0) || (N =? 0) then Ok (StatusOK, Some ([M; N], Y))
    else
      Y ← (if negb (is_zero (beta_ c)) then gemm_bias M N B (replicate (length Y) zero) else Ok Y);
      let product := GemmFull (trans_A_ c) (trans_B_ c) M N (gh_K h) (alpha_ c) (snd X) (snd W) (beta_ c) Y in
      Y ← memcpy Y 0 product 0 (M * N);
      Ok (StatusOK, Some ([M; N], Y)).
End gemm.
