(* ===== verification/MatMulProps.v ===== *)
(** The offsets of MatMul: where the matrices of a product with broadcasting
    start. *)
From S2P Require Import Prelude TensorShape Transpose TransposeProps BroadcastInv BroadcastProps DataMove DataMoveRows ConcatSplit Im2col Im2colProps Im2colNdProps Conv ConvShapes ConvGeometry ConvProps ConvCorrect MatMul.

(** ** Filling a range *)

(** The elements from [base] on are those of [g], in row-major order; the others
    are kept. *)
Definition fills (g : list Z → Z) (dims : list Z) (base : Z) (l l' : list Z) : Prop :=
  length l' = length l ∧ (∀ p, 0 ≤ p → p < base ∨ base + prodZ dims ≤ p → l' !! Z.to_nat p = l !! Z.to_nat p) ∧
  ∀ d, valid_index dims d → l' !! Z.to_nat (base + flat dims d) = Some (g d).
(** The same for the first [n] values of the outermost index. *)
Definition fills_upto (g : list Z → Z) (n : Z) (dims : list Z) (base : Z) (l l' : list Z) : Prop :=
  length l' = length l ∧ (∀ p, 0 ≤ p → p < base ∨ base + n * prodZ dims ≤ p → l' !! Z.to_nat p = l !! Z.to_nat p) ∧
  ∀ i d, 0 ≤ i < n → valid_index dims d → l' !! Z.to_nat (base + (i * prodZ dims + flat dims d)) = Some (g (i :: d)).

Lemma write_ok {A} (l : list A) i x : 0 ≤ i < Z.of_nat (length l) → write l i x = Ok (<[Z.to_nat i := x]> l).
Proof. intros Hi. unfold write. by rewrite (proj2 (Z.leb_le _ _)), (proj2 (Z.ltb_lt _ _)) by lia. Qed.
Lemma fills_write x base (l : list Z) : 0 ≤ base < Z.of_nat (length l) → ∃ l', write l base x = Ok l' ∧ fills (fun _ => x) [] base l l'.
Proof.
  intros Hb. rewrite write_ok by done. eexists. split; [done|]. split; [by rewrite length_insert|]. split.
  - intros p Hp Ho. change (prodZ []) with 1 in Ho. rewrite list_lookup_insert_ne by lia. done.
  - intros d ->%valid_index_nil. change (flat [] []) with 0. rewrite Z.add_0_r, list_lookup_insert_eq by lia. done.
Qed.
Lemma fills_ext g g' dims base l l' : fills g dims base l l' → (∀ d, valid_index dims d → g d = g' d) → fills g' dims base l l'.
Proof. intros (L & O & I) H. split; [done|]. split; [done|]. intros d Hd. rewrite I by done. by rewrite H. Qed.
Lemma fills_0 g dims base l : fills_upto g 0 dims base l l.
Proof. split; [done|]. split; [done|]. intros i d Hi. lia. Qed.
Lemma fills_step g i dims base l l1 l2 :
  0 ≤ base → 0 ≤ i → Forall (fun d => 1 ≤ d) dims →
  fills_upto g i dims base l l1 → fills (fun d => g (i :: d)) dims (base + i * prodZ dims) l1 l2 → fills_upto g (i + 1) dims base l l2.
Proof.
  intros Hb Hi Hd (L1 & O1 & I1) (L2 & O2 & I2). pose proof (prodZ_pos _ Hd) as HP. split; [congruence|]. split.
  - intros p Hp Ho. rewrite O2, O1; [done|done| |done|]; nia.
  - intros j d Hj Hv. pose proof (flat_bound _ _ Hv) as Hf. destruct (decide (j = i)) as [->|Hne].
    + rewrite Z.add_assoc. by apply I2.
    + rewrite O2; [apply I1; [lia|done]|nia|]. left. nia.
Qed.
Lemma fills_cons g n dims base l l' : fills_upto g n dims base l l' → fills g (n :: dims) base l l'.
Proof.
  intros (L & O & I). split; [done|]. split.
  - intros p Hp Ho. apply O; [done|]. by rewrite prodZ_cons in Ho.
  - intros d Hv. destruct d as [|i d]; [by destruct Hv|]. apply valid_index_cons in Hv as [Hi Hv]. rewrite flat_cons. by apply I.
Qed.

(** ** Offsets *)

(** Pairs of dimensions that go together. *)
Definition pair_ok (p : Z * Z) : Prop := 1 ≤ fst p ∧ 1 ≤ snd p ∧ compatible p.
Abbreviation outs := (fmap (M := list) largest).
Lemma pairs_pos ps : Forall pair_ok ps → 1 ≤ prodZ ps.*1 ∧ 1 ≤ prodZ ps.*2 ∧ 1 ≤ prodZ (outs ps) ∧ Forall (fun d => 1 ≤ d) (outs ps).
Proof.
  intros H. assert (F : Forall (fun d => 1 ≤ d) (outs ps)) by (apply Forall_fmap; eapply Forall_impl; [exact H|]; intros p (? & ? & ?); unfold compose, largest; lia).
  split_and!; [..|done]; apply prodZ_pos; [..|done]; apply Forall_fmap; (eapply Forall_impl; [exact H|]); by intros p (? & ? & ?).
Qed.

Lemma mat_axes_cons x y ps :
  Forall pair_ok ps → prodZ ps.*1 < 2 ^ 64 → prodZ ps.*2 < 2 ^ 64 → prodZ (outs ps) < 2 ^ 64 →
  mat_axes (x :: ps.*1) (y :: ps.*2) = mkMatAxis x y (Z.max x y) (prodZ ps.*1) (prodZ ps.*2) (prodZ (outs ps)) :: mat_axes ps.*1 ps.*2.
Proof.
  intros H. revert x y. induction H as [|[a b] ps Hp H IH]; intros x y B1 B2 B3; [done|]. cbn [fmap list_fmap fst snd] in *. rewrite !prodZ_cons in *. change (largest (a, b)) with (Z.max a b) in B3. destruct Hp as (Ha & Hb & _). cbn [fst snd] in *.
  destruct (pairs_pos _ H) as (P1 & P2 & P3 & _). specialize (IH a b ltac:(nia) ltac:(nia) ltac:(nia)). change (mat_axes (x :: a :: ps.*1) (y :: b :: ps.*2)) with
    (let axes := mat_axes (a :: ps.*1) (b :: ps.*2) in match axes with [] => [mkMatAxis x y (Z.max x y) 1 1 1] | a :: _ => mkMatAxis x y (Z.max x y) (u64 (left_stride a * left_dim a)) (u64 (right_stride a * right_dim a)) (u64 (output_stride a * output_dim a)) :: axes end).
  cbv zeta. rewrite IH. cbn [left_stride left_dim right_stride right_dim output_stride output_dim]. change (largest (a, b)) with (Z.max a b). rewrite !u64_small by nia. f_equal. f_equal; ring.
Qed.

(** The bound of an operand: what starts at [i] stays in the range of [size_t]. *)
Lemma fill_bound i j x P m : 0 ≤ i → 0 ≤ j → 1 ≤ P → 0 ≤ m → (x ≠ 1 → j < x) → 1 ≤ x → (i + x * P) * m < 2 ^ 64 → i + x * P < 2 ^ 64 →
  let k := i + j * (if x =? 1 then 0 else P) in 0 ≤ k ∧ k + P ≤ i + x * P ∧ (k + P) * m < 2 ^ 64 ∧ u64 k = k.
Proof.
  intros Hi Hj HP Hm Hx Hx1 Hb Hb'. cbv zeta. assert (0 ≤ i + j * (if x =? 1 then 0 else P) ∧ i + j * (if x =? 1 then 0 else P) + P ≤ i + x * P) as [H0 H1] by (destruct (Z.eqb_spec x 1) as [->|Hne]; [lia|specialize (Hx Hne); nia]).
  split_and!; [done|done| |apply u64_small; lia]. eapply Z.le_lt_trans; [|exact Hb]. by apply Z.mul_le_mono_nonneg_r.
Qed.

Section fill.
Context (lm rm om : Z) (Hlm : 0 ≤ lm) (Hrm : 0 ≤ rm) (Hom : 0 ≤ om).
(** The offset of the matrix of an operand at an index. *)
Definition place (dims : list Z) (i m : Z) (d : list Z) : Z := (i + flat dims (broadcast_index dims d)) * m.
Lemma place_cons x dims i m j d : (i + (j * (if x =? 1 then 0 else prodZ dims)) + flat dims (broadcast_index dims d)) * m = place (x :: dims) i m (j :: d).
Proof. unfold place. cbn [broadcast_index zip_with]. rewrite flat_cons. unfold broadcast_index. destruct (x =? 1); ring. Qed.
Record fits (ps : list (Z * Z)) (il ir io : Z) (s : MatOffsets) : Prop := {
  ft_index : 0 ≤ il ∧ 0 ≤ ir ∧ 0 ≤ io;
  ft_left : (il + prodZ ps.*1) * lm < 2 ^ 64 ∧ il + prodZ ps.*1 < 2 ^ 64;
  ft_right : (ir + prodZ ps.*2) * rm < 2 ^ 64 ∧ ir + prodZ ps.*2 < 2 ^ 64;
  ft_out : (io + prodZ (outs ps)) * om < 2 ^ 64 ∧ io + prodZ (outs ps) < 2 ^ 64;
  ft_length : io + prodZ (outs ps) ≤ Z.of_nat (length (left_offsets s)) ∧ io + prodZ (outs ps) ≤ Z.of_nat (length (right_offsets s)) ∧ io + prodZ (outs ps) ≤ Z.of_nat (length (output_offsets s));
}.
Definition filled3 (fill : (list Z → Z) → list Z → list Z → Prop) (ps : list (Z * Z)) (il ir io : Z) (s s' : MatOffsets) : Prop :=
  fill (place ps.*1 il lm) (left_offsets s) (left_offsets s') ∧ fill (place ps.*2 ir rm) (right_offsets s) (right_offsets s') ∧
  fill (fun d => (io + flat (outs ps) d) * om) (output_offsets s) (output_offsets s').

Lemma RecursiveFill_ok ps il ir io s :
  Forall pair_ok ps → fits ps il ir io s →
  ∃ s', RecursiveFill lm rm om (mat_axes ps.*1 ps.*2) il ir io s = Ok s' ∧ filled3 (fun g => fills g (outs ps) io) ps il ir io s s'.
Proof.
  intros Hps. revert il ir io s. induction Hps as [|[x y] ps Hp Hps IH]; intros il ir io s Hf; destruct Hf as [(Hil & Hir & Hio) [L1 L2] [R1 R2] [O1 O2] (N1 & N2 & N3)].
  - cbn [fmap list_fmap mat_axes RecursiveFill] in *. change (prodZ []) with 1 in *. rewrite !u64_small by nia.
    destruct (fills_write (il * lm) io (left_offsets s)) as (l & -> & Fl); [lia|]. destruct (fills_write (ir * rm) io (right_offsets s)) as (r & -> & Fr); [lia|]. destruct (fills_write (io * om) io (output_offsets s)) as (o & -> & Fo); [lia|].
    cbn [mbind res_bind]. eexists. split; [done|]. unfold filled3, place. cbn [left_offsets right_offsets output_offsets].
    assert (E : ∀ i m dims base l l', fills (fun _ => i * m) [] base l l' → fills (fun d => (i + flat [] (dims d)) * m) [] base l l') by (intros i m dims base ? ? H; apply (fills_ext _ _ _ _ _ _ H); intros d _; change (flat [] (dims d)) with 0; ring).
    split_and!; [by apply (E _ _ (broadcast_index []))|by apply (E _ _ (broadcast_index []))|by apply (E _ _ (fun d => d))].
  - destruct Hp as (Hx & Hy & Hc). cbn [fst snd] in *. destruct (pairs_pos _ Hps) as (P1 & P2 & P3 & F3). cbn [fmap list_fmap fst snd] in *. rewrite !prodZ_cons in *. change (largest (x, y)) with (Z.max x y) in *.
    rewrite mat_axes_cons by (done || nia). cbn [RecursiveFill output_dim left_dim right_dim left_stride right_stride output_stride].
    destruct (for_lt_inv (fun i s' => filled3 (fun g => fills_upto g i (outs ps) io) ((x, y) :: ps) il ir io s s') (Z.max x y) (fun s i =>
        RecursiveFill lm rm om (mat_axes ps.*1 ps.*2) (u64 (il + i * (if x =? 1 then 0 else prodZ ps.*1))) (u64 (ir + i * (if y =? 1 then 0 else prodZ ps.*2))) (u64 (io + i * prodZ (outs ps))) s) s) as (s' & -> & H).
    + lia.
    + split_and!; apply fills_0.
    + intros i s1 Hi (F1 & F2 & F4). unfold compatible in Hc. cbn [fst snd] in Hc.
      destruct (fill_bound il i x (prodZ ps.*1) lm) as (A1 & A2 & A3 & ->); [done|lia|done|done|lia|done|done|done|]. destruct (fill_bound ir i y (prodZ ps.*2) rm) as (B1 & B2 & B3 & ->); [done|lia|done|done|lia|done|done|done|].
      rewrite (u64_small (io + _)) by nia. destruct (IH (il + i * (if x =? 1 then 0 else prodZ ps.*1)) (ir + i * (if y =? 1 then 0 else prodZ ps.*2)) (io + i * prodZ (outs ps)) s1) as (s2 & E & G1 & G2 & G3).
      * destruct F1 as [E1 _], F2 as [E2 _], F4 as [E4 _]. rewrite <- E1 in N1. rewrite <- E2 in N2. rewrite <- E4 in N3.
        assert (Q : 0 ≤ i * prodZ (outs ps) ∧ io + i * prodZ (outs ps) + prodZ (outs ps) ≤ io + Z.max x y * prodZ (outs ps)) by (clear - Hi P3; nia). destruct Q as [Q0 Q1].
        split; [clear - A1 B1 Hio Q0; lia|clear - A2 A3 L2; lia|clear - B2 B3 R2; lia| |clear - Q1 N1 N2 N3; lia]. split; [|clear - Q1 O2; lia]. eapply Z.le_lt_trans; [|exact O1]. by apply Z.mul_le_mono_nonneg_r.
      * exists s2. split; [exact E|]. split_and!; (eapply fills_step; [done|lia|done|done|]).
        -- eapply fills_ext; [exact G1|]. intros d Hd. apply place_cons.
        -- eapply fills_ext; [exact G2|]. intros d Hd. apply place_cons.
        -- eapply fills_ext; [exact G3|]. intros d Hd. cbn [fmap list_fmap]. rewrite flat_cons. ring.
    + exists s'. split; [done|]. destruct H as (F1 & F2 & F4). split_and!; by apply fills_cons.
Qed.
End fill.

(** The offsets of the matrices of a product with the dimensions [ps] in front. *)
Definition OffsetsOk (ps : list (Z * Z)) (m k n : Z) (left right out : list Z) : Prop :=
  Z.of_nat (length out) = prodZ (outs ps) ∧
  ∀ d, valid_index (outs ps) d →
    left !! Z.to_nat (flat (outs ps) d) = Some (flat ps.*1 (broadcast_index ps.*1 d) * (m * k)) ∧
    right !! Z.to_nat (flat (outs ps) d) = Some (flat ps.*2 (broadcast_index ps.*2 d) * (k * n)) ∧
    out !! Z.to_nat (flat (outs ps) d) = Some (flat (outs ps) d * (m * n)).

Lemma ComputeBroadcastOffsets_ok ps m k n (x y : list Z) :
  Forall pair_ok ps → length x = 2%nat → length y = 2%nat → 1 ≤ m → 1 ≤ k → 1 ≤ n →
  prodZ ps.*1 * (m * k) < 2 ^ 63 → prodZ ps.*2 * (k * n) < 2 ^ 63 → prodZ (outs ps) * (m * n) < 2 ^ 63 →
  ∃ o, ComputeBroadcastOffsets m n k (ps.*1 ++ x) (ps.*2 ++ y) = Ok o ∧ OffsetsOk ps m k n (left_offsets o) (right_offsets o) (output_offsets o).
Proof.
  intros Hps Lx Ly Hm Hk Hn B1 B2 B3. unfold ComputeBroadcastOffsets. rewrite length_app, Lx, length_fmap, Nat.add_sub.
  rewrite (take_app_length' ps.*1) by (by rewrite length_fmap). rewrite (take_app_length' ps.*2) by (by rewrite length_fmap).
  pose proof (mul_pos _ _ Hm Hk) as Pmk. pose proof (mul_pos _ _ Hk Hn) as Pkn. pose proof (mul_pos _ _ Hm Hn) as Pmn. destruct (pairs_pos _ Hps) as (P1 & P2 & P3 & _).
  pose proof (le_mul_r _ _ P1 (nonneg_of _ Pmk)). pose proof (le_mul_r _ _ P2 (nonneg_of _ Pkn)). pose proof (le_mul_r _ _ P3 (nonneg_of _ Pmn)).
  pose proof (le_mul_r _ _ Pmk (nonneg_of _ P1)) as Q1. pose proof (le_mul_r _ _ Pkn (nonneg_of _ P2)) as Q2. pose proof (le_mul_r _ _ Pmn (nonneg_of _ P3)) as Q3. rewrite Z.mul_comm in Q1, Q2, Q3.
  destruct ps as [|[a b] ps].
  - eexists. split; [done|]. split; [done|]. intros d ->%valid_index_nil. done.
  - assert (Hz : Forall pair_ok ps) by (by inversion Hps). destruct (pairs_pos _ Hz) as (Z1 & Z2 & Z3 & _). assert (Hp : pair_ok (a, b)) by (by inversion Hps). destruct Hp as (Ha & Hb & _). cbn [fst snd] in *.
    assert (E : mat_axes ((a, b) :: ps).*1 ((a, b) :: ps).*2 = mkMatAxis a b (Z.max a b) (prodZ ps.*1) (prodZ ps.*2) (prodZ (outs ps)) :: mat_axes ps.*1 ps.*2).
    { cbn [fmap list_fmap fst snd] in *. rewrite !prodZ_cons in *. change (largest (a, b)) with (Z.max a b) in *. apply mat_axes_cons; [done|clear - Q1 B1 Z1 Ha; nia|clear - Q2 B2 Z2 Hb; nia|clear - Q3 B3 Z3 Ha; nia]. }
    rewrite E. cbn [output_dim output_stride]. rewrite <- E. rewrite !int64_op_ok by lia. cbn [mbind res_bind]. assert (EO : Z.max a b * prodZ (outs ps) = prodZ (outs ((a, b) :: ps))) by done. rewrite EO. rewrite !u64_small by lia.
    destruct (RecursiveFill_ok (m * k) (k * n) (m * n) ltac:(lia) ltac:(lia) ltac:(lia) ((a, b) :: ps) 0 0 0 (mkMatOffsets (replicate (Z.to_nat (prodZ (outs ((a, b) :: ps)))) 0) (replicate (Z.to_nat (prodZ (outs ((a, b) :: ps)))) 0) (replicate (Z.to_nat (prodZ (outs ((a, b) :: ps)))) 0)) Hps) as (o & -> & (_ & _ & Fl) & (_ & _ & Fr) & (Lo & _ & Fo)).
    + split; cbn [left_offsets right_offsets output_offsets]; rewrite ?length_replicate; lia.
    + exists o. split; [done|]. split; [rewrite Lo; cbn [output_offsets]; rewrite length_replicate; lia|]. intros d Hd. specialize (Fl d Hd). specialize (Fr d Hd). specialize (Fo d Hd). unfold place in *. rewrite !Z.add_0_l in *. done.
Qed.

(** ** The products *)

Section products.
Context {A : Type} (garbage zero : A) (dot : list (A * A) → A) (Gemm : Z → Z → Z → list A → list A → list A) (Hgemm : gemm_spec zero dot Gemm).
Context (ps : list (Z * Z)) (Hps : Forall pair_ok ps) (m k n : Z) (Hm : 1 ≤ m < 2 ^ 31) (Hk : 1 ≤ k < 2 ^ 31) (Hn : 1 ≤ n < 2 ^ 31).
Context (X W : list A) (LX : Z.of_nat (length X) = prodZ ps.*1 * (m * k)) (LW : Z.of_nat (length W) = prodZ ps.*2 * (k * n)).
Context (h : MatMulComputeHelper) (EM : mm_M h = m) (EN : mm_N h = n) (EK : mm_K h = k) (Ho : OffsetsOk ps m k n (mm_left_offsets h) (mm_right_offsets h) (mm_output_offsets h)).

(** The element in row [i] and column [j] of the product of the matrices that
    start at [l] and [r]. *)
Definition product_of (l r i j : Z) : A :=
  dot ((fun x => (default zero (X !! Z.to_nat (l + (i * k + x))), default zero (W !! Z.to_nat (r + (x * n + j))))) <$> seqZ 0 k).
Abbreviation at_left := (fun d => flat ps.*1 (broadcast_index ps.*1 d) * (m * k)).
Abbreviation at_right := (fun d => flat ps.*2 (broadcast_index ps.*2 d) * (k * n)).
Definition products_upto (b : Z) (Y : list A) : Prop :=
  Z.of_nat (length Y) = prodZ (outs ps) * (m * n) ∧
  ∀ d i j, valid_index (outs ps) d → flat (outs ps) d < b → 0 ≤ i < m → 0 ≤ j < n →
    Y !! Z.to_nat (flat (outs ps) d * (m * n) + (i * n + j)) = Some (product_of (at_left d) (at_right d) i j).

Lemma operand_fits d : valid_index (outs ps) d →
  0 ≤ flat ps.*1 (broadcast_index ps.*1 d) < prodZ ps.*1 ∧ 0 ≤ flat ps.*2 (broadcast_index ps.*2 d) < prodZ ps.*2.
Proof.
  intros Hd. split; apply flat_bound; eapply broadcast_index_bound; [|exact Hd| |exact Hd].
  - apply Forall2_fmap, Forall_Forall2_diag. eapply Forall_impl; [exact Hps|]. intros p (H1 & H2 & Hc). unfold compatible, largest in *. lia.
  - apply Forall2_fmap, Forall_Forall2_diag. eapply Forall_impl; [exact Hps|]. intros p (H1 & H2 & Hc). unfold compatible, largest in *. lia.
Qed.
Lemma drop_elem (l : list A) a b : 0 ≤ a → 0 ≤ b → drop (Z.to_nat a) l !! Z.to_nat b = l !! Z.to_nat (a + b).
Proof. intros Ha Hb. rewrite lookup_drop. f_equal. lia. Qed.
Lemma gemm_product l r : 0 ≤ l → 0 ≤ r → l + m * k ≤ Z.of_nat (length X) → r + k * n ≤ Z.of_nat (length W) →
  Z.of_nat (length (Gemm m n k (drop (Z.to_nat l) X) (drop (Z.to_nat r) W))) = m * n ∧
  ∀ i j, 0 ≤ i < m → 0 ≤ j < n → Gemm m n k (drop (Z.to_nat l) X) (drop (Z.to_nat r) W) !! Z.to_nat (i * n + j) = Some (product_of l r i j).
Proof.
  intros Hl Hr Bl Br. destruct (Hgemm m n k (drop (Z.to_nat l) X) (drop (Z.to_nat r) W)) as [L H]; [lia|lia|lia|by apply drop_bound|by apply drop_bound|]. split; [done|]. intros i j Hi Hj. rewrite H by done. unfold product_of. do 2 f_equal.
  apply list_fmap_ext. intros x y Hx. apply list_elem_of_lookup_2, elem_of_seqZ in Hx. rewrite Z.add_0_l in Hx. rewrite !drop_elem; [done|lia| |lia|].
  - clear - Hj Hx Hn. nia.
  - clear - Hi Hx Hk. nia.
Qed.
Lemma matmul_step_ok b Y : 0 ≤ b < prodZ (outs ps) → products_upto b Y → ∃ Y', matmul_step Gemm h X W Y b = Ok Y' ∧ products_upto (b + 1) Y'.
Proof.
  intros Hb [LY HY]. destruct (pairs_pos _ Hps) as (P1 & P2 & P3 & F3). destruct (flat_surj _ _ F3 Hb) as (d & Hd & <-). destruct Ho as [_ Hoff]. destruct (Hoff d Hd) as (El & Er & Eo). destruct (operand_fits d Hd) as [Bl Br].
  unfold matmul_step, read. rewrite (proj2 (Z.ltb_ge _ _)) by apply Hb. rewrite El, Er, Eo. cbn [of_option mbind res_bind]. rewrite EM, EN, EK, !i32_small by lia.
  pose proof (mul_pos _ _ (proj1 Hm) (proj1 Hk)) as Pmk. pose proof (mul_pos _ _ (proj1 Hk) (proj1 Hn)) as Pkn. pose proof (mul_pos _ _ (proj1 Hm) (proj1 Hn)) as Pmn.
  destruct (gemm_product (at_left d) (at_right d)) as [LG HG]; [clear - Bl Pmk; nia|clear - Br Pkn; nia|rewrite LX; clear - Bl Pmk; nia|rewrite LW; clear - Br Pkn; nia|].
  destruct (memcpy_ok Y (flat (outs ps) d * (m * n)) (Gemm m n k (drop (Z.to_nat (at_left d)) X) (drop (Z.to_nat (at_right d)) W)) 0 (m * n)) as (Y' & E & L' & Hin & Hout); [clear - Hb Pmn; nia|lia|lia|rewrite LY; clear - Hb Pmn; nia|lia|].
  exists Y'. split; [exact E|]. split; [lia|]. intros d' i j Hd' Hlt Hi Hj. pose proof (pair_bound i m j n Hi Hj) as Hij. destruct (decide (flat (outs ps) d' = flat (outs ps) d)) as [Heq|Hne].
  - destruct (Hoff d' Hd') as (El' & Er' & _). rewrite Heq in *. rewrite El in El'. rewrite Er in Er'. injection El' as <-. injection Er' as <-. rewrite Hin by done. rewrite Z.add_0_l. by apply HG.
  - pose proof (flat_bound _ _ Hd') as Hf'. rewrite (memcpy_outside _ _ _ _ _ _ _ E); [apply HY; [done|lia|done|done]|]. left. clear - Hlt Hne Hij Hf' Pmn Hb. nia.
Qed.
Lemma matmul_run Xd Wd : MatMulComputeHelper_Compute Xd Wd = Ok (StatusOK, Some h) → prodZ (mm_output_shape h) = prodZ (outs ps) * (m * n) → prodZ (outs ps) < 2 ^ 31 →
  ∃ Y, MatMul_Compute garbage Gemm (Xd, X) (Wd, W) = Ok (StatusOK, Some (mm_output_shape h, Y)) ∧ products_upto (prodZ (outs ps)) Y.
Proof.
  intros E Hshape Hlt. unfold MatMul_Compute. cbn [fst snd]. rewrite E. cbn [mbind res_bind]. rewrite (proj1 Ho). destruct (pairs_pos _ Hps) as (_ & _ & P3 & _). pose proof (mul_pos _ _ (proj1 Hm) (proj1 Hn)) as Pmn.
  destruct (for_int_inv products_upto (prodZ (outs ps)) (matmul_step Gemm h X W) (new_output garbage (mm_output_shape h))) as (Y & -> & HY).
  - lia.
  - split; [unfold new_output; rewrite Hshape, length_replicate; clear - P3 Pmn; nia|]. intros d i j Hd Hlt'. pose proof (flat_bound _ _ Hd). lia.
  - intros b Y Hb. by apply matmul_step_ok.
  - exists Y. by split.
Qed.
End products.

(** ** Shapes *)

(** The operands as stacks of matrices, as [numpy.matmul] reads them: a vector
    on the left is a row, one on the right a column, and the dimension that was
    added is taken away from the result. The dimensions are those in front, the
    sizes of the matrices, and the last dimensions of the result. *)
Inductive promoted : list Z → list Z → list Z → list Z → Z → Z → Z → Z → list Z → Prop :=
  | promoted_both l r m k k' n : promoted (l ++ [m; k]) (r ++ [k'; n]) l r m k k' n [m; n]
  | promoted_left r k k' n : promoted [k] (r ++ [k'; n]) [] r 1 k k' n [n]
  | promoted_right l k k' : promoted (l ++ [k]) [k'] l [] 1 k k' 1 [].

Lemma memcpy_tail (s : list Z) N : (length s ≤ N)%nat → CopyDims s (replicate N 1) (N - length s) (length s) = Ok (replicate (N - length s) 1 ++ s).
Proof.
  intros H. unfold CopyDims, memcpy. rewrite Nat.min_id, length_replicate. rewrite (proj2 (andb_true_iff _ _)) by (rewrite !andb_true_iff, !Z.leb_le; lia).
  f_equal. rewrite !Nat2Z.id, take_replicate, drop_replicate. change (Z.to_nat 0) with 0%nat. rewrite drop_0, firstn_all, Nat.min_l by lia. replace (N - Z.to_nat _)%nat with 0%nat by lia. by rewrite app_nil_r.
Qed.
Lemma replicate_last (l : list Z) x N : (N = length l + 2)%nat → write (replicate N 1) (Z.of_nat (N - 2)) x = Ok (replicate (length l) 1 ++ [x; 1]).
Proof.
  intros ->. rewrite write_ok by (rewrite length_replicate; lia). f_equal. rewrite Nat2Z.id, Nat.add_sub, replicate_add, insert_app_r_alt by (rewrite length_replicate; lia). by rewrite length_replicate, Nat.sub_diag.
Qed.
Lemma copy_front (l : list Z) k : CopyDims (l ++ [k]) (replicate (length l + 2) 1) 0 (length l + 1 - 1) = Ok (l ++ [1; 1]).
Proof.
  unfold CopyDims, memcpy. rewrite Nat.add_sub, length_replicate, length_app. cbn [length]. rewrite Nat.min_l by lia. rewrite (proj2 (andb_true_iff _ _)) by (rewrite !andb_true_iff, !Z.leb_le; lia).
  f_equal. change (Z.to_nat (Z.of_nat 0)) with 0%nat. change (Z.to_nat 0) with 0%nat. rewrite drop_0, take_0, Nat2Z.id, take_app_length, drop_replicate. cbn [app]. f_equal. by replace (length l + 2 - Z.to_nat _)%nat with 2%nat by lia.
Qed.
Lemma write_last (l : list Z) (a b x : Z) : write (l ++ [a; b]) (Z.of_nat (length l + 2 - 1)) x = Ok (l ++ [a; x]).
Proof.
  rewrite write_ok by (rewrite length_app; cbn [length]; lia). f_equal. rewrite Nat2Z.id, insert_app_r_alt by lia. by replace (length l + 2 - 1 - length l)%nat with 1%nat by lia.
Qed.
Lemma padded_ok left right l r m k k' n suffix : promoted left right l r m k k' n suffix →
  matmul_padded_dims left right = Ok ((axis_pairs l r).*1 ++ [m; k], (axis_pairs l r).*2 ++ [k'; n]).
Proof.
  intros [l' r' m' k1 k2 n'|r' k1 k2 n'|l' k1 k2]; unfold matmul_padded_dims; rewrite axis_pairs_fst, axis_pairs_snd.
  - assert (E : (length (r' ++ [k2; n']) =? 1)%nat = false) by (apply Nat.eqb_neq; rewrite length_app; cbn; lia). rewrite E, Nat.add_0_r, !memcpy_tail by lia. cbn [mbind res_bind]. rewrite !length_app, !app_assoc. cbn [length].
    replace (Nat.max (length l' + 2) (length r' + 2) - (length l' + 2))%nat with (length r' - length l')%nat by lia. by replace (Nat.max (length l' + 2) (length r' + 2) - (length r' + 2))%nat with (length l' - length r')%nat by lia.
  - assert (E : (length (r' ++ [k2; n']) =? 1)%nat = false) by (apply Nat.eqb_neq; rewrite length_app; cbn; lia). rewrite E, Nat.add_0_r, (memcpy_tail [k1]), memcpy_tail by (cbn; lia). cbn [mbind res_bind]. rewrite !length_app. cbn [length].
    replace (Nat.max 1 (length r' + 2) - 1)%nat with (length r' + 1)%nat by lia. replace (Nat.max 1 (length r' + 2) - (length r' + 2))%nat with 0%nat by lia. rewrite Nat.sub_0_r, replicate_add, <- !app_assoc. done.
  - change (length [k2] =? 1)%nat with true. cbn [elem lookup list_lookup of_option mbind res_bind]. rewrite length_app. cbn [length]. replace (Nat.max (length l' + 1) 1 + 1)%nat with (length l' + 2)%nat by lia.
    unfold elem at 1. cbn [lookup list_lookup of_option mbind res_bind]. rewrite (replicate_last l') by done. cbn [mbind res_bind]. rewrite Nat.sub_0_r, app_nil_r. destruct l' as [|x l'].
    + done.
    + rewrite (proj2 (Nat.leb_le _ _)) by (cbn; lia). rewrite copy_front. cbn [mbind res_bind]. unfold elem. rewrite Nat.add_sub, lookup_app_r, Nat.sub_diag by lia. cbn [lookup list_lookup of_option mbind res_bind]. rewrite write_last. done.
Qed.

(** The dimensions in front: broadcast, or refused. *)
Lemma broadcast_step ps (x y dims0 : list Z) j p : Forall (fun p => 1 ≤ fst p ∧ 1 ≤ snd p) ps → ps !! j = Some p → (length ps ≤ length dims0)%nat → ∀ dims, length dims = length dims0 →
  matmul_broadcast_dim (ps.*1 ++ x) (ps.*2 ++ y) (StatusOK, dims) j = Ok (if decide (compatible p) then StatusOK else Some FAIL, <[j := largest p]> dims).
Proof.
  intros Hpos Hp Hl dims Ld. pose proof (lookup_lt_Some _ _ _ Hp) as Hj. unfold matmul_broadcast_dim. cbn [IsOK StatusOK negb]. unfold elem. rewrite !lookup_app_l by (rewrite length_fmap; lia). rewrite !list_lookup_fmap, Hp. cbn [fmap option_fmap option_map of_option mbind res_bind].
  rewrite write_ok by lia. cbn [mbind res_bind]. rewrite Nat2Z.id. destruct (Forall_lookup_1 _ _ _ _ Hpos Hp) as [H1 H2]. unfold largest, compatible.
  repeat match goal with |- context [?a =? ?b] => destruct (Z.eqb_spec a b) end; cbn [negb andb]; case_decide; first [done|exfalso; lia].
Qed.
Lemma broadcast_loop ps (x y dims0 : list Z) : Forall (fun p => 1 ≤ fst p ∧ 1 ≤ snd p) ps → (length ps ≤ length dims0)%nat →
  ∃ dims, foldM (matmul_broadcast_dim (ps.*1 ++ x) (ps.*2 ++ y)) (StatusOK, dims0) (seq 0 (length ps)) = Ok (if decide (Forall compatible ps) then StatusOK else Some FAIL, dims) ∧
    (Forall compatible ps → dims = outs ps ++ drop (length ps) dims0).
Proof.
  intros Hpos Hl.
  destruct (foldM_seq (fun j s => length (snd s) = length dims0 ∧ fst s = (if decide (Forall compatible (take j ps)) then StatusOK else Some FAIL) ∧ (Forall compatible (take j ps) → snd s = outs (take j ps) ++ drop j dims0))
    (matmul_broadcast_dim (ps.*1 ++ x) (ps.*2 ++ y)) (StatusOK, dims0) 0 (length ps)) as ([s dims] & E & _ & Hs & Hd).
  - intros j [s dims] [_ Hj] (L & Es & Ed). cbn [fst snd] in *. destruct (lookup_lt_is_Some_2 ps j ltac:(lia)) as [p Hp].
    assert (HF : Forall compatible (take (Datatypes.S j) ps) ↔ Forall compatible (take j ps) ∧ compatible p) by (rewrite (take_S_r _ _ _ Hp), Forall_app, Forall_singleton; done).
    assert (Lj : length (outs (take j ps)) = j) by (rewrite length_fmap, length_take; lia). destruct (lookup_lt_is_Some_2 dims0 j ltac:(lia)) as [z Hz]. destruct (decide (Forall compatible (take j ps))) as [Hc|Hc]; subst s.
    + rewrite (broadcast_step ps x y dims0 j p) by done. eexists. split; [done|]. cbn [fst snd]. split; [by rewrite length_insert|]. split; [repeat case_decide; tauto|].
      intros _. rewrite Ed by done. rewrite insert_app_r_alt by lia. rewrite Lj, Nat.sub_diag, (drop_S _ _ _ Hz), (take_S_r _ _ _ Hp), fmap_app, <- app_assoc. done.
    + eexists. split; [done|]. cbn [fst snd]. split; [done|]. split; [by rewrite decide_False by tauto|tauto].
  - cbn [fst snd take]. split; [done|]. split; [by rewrite decide_True|]. done.
  - rewrite Nat.add_0_l, firstn_all in *. cbn [fst snd] in *. subst s. exists dims. by split.
Qed.

Lemma write_app (l l' : list Z) i x y : i = Z.of_nat (length l) → write (l ++ x :: l') i y = Ok (l ++ y :: l').
Proof. intros ->. rewrite write_ok by (rewrite length_app; cbn [length]; lia). by rewrite Nat2Z.id, insert_app_r_alt, Nat.sub_diag. Qed.
Lemma elem_app (l l' : list Z) i x : i = length l → elem (l ++ x :: l') i = Ok x.
Proof. intros ->. unfold elem. by rewrite lookup_app_r, Nat.sub_diag. Qed.
Lemma elem_app2 (l l' : list Z) i x y : i = (length l + 1)%nat → elem (l ++ x :: y :: l') i = Ok y.
Proof. intros ->. unfold elem. rewrite lookup_app_r by lia. by replace (length l + 1 - length l)%nat with 1%nat by lia. Qed.
Abbreviation has_vector := (fun left right : list Z => (length left =? 1)%nat || (length right =? 1)%nat).

(** Two vectors are not compared by the code. *)
Definition not_two_vectors (l r suffix : list Z) (k k' : Z) : Prop := suffix = [] → l = [] → k = k'.
Lemma output_dims_ok left right l r m k k' n suffix (front : list Z) : promoted left right l r m k k' n suffix → length front = Nat.max (length l) (length r) → not_two_vectors l r suffix k k' →
  ∃ dims, matmul_output_dims left right (has_vector left right) (length front + 2) m n k (front ++ replicate (length suffix) 0) = Ok (if k =? k' then StatusOK else Some FAIL, dims) ∧ (k = k' → dims = front ++ suffix).
Proof.
  intros Hp Lf Hv. unfold matmul_output_dims. rewrite length_app, length_replicate. destruct Hp as [l r m k k' n|r k k' n|l k k']; rewrite ?length_app; cbn [length replicate].
  - rewrite !(proj2 (Nat.eqb_neq _ 1)) by lia. cbn [orb negb]. rewrite elem_app by lia. cbn [mbind res_bind]. destruct (Z.eqb_spec k k') as [->|Hne]; cbn [negb]; [|by eexists]. rewrite Nat.eqb_refl. cbn [negb].
    rewrite write_app by lia. cbn [mbind res_bind]. replace (front ++ [m; 0]) with ((front ++ [m]) ++ [0]) by (by rewrite <- app_assoc). rewrite write_app by (rewrite length_app; cbn [length]; lia). cbn [mbind res_bind]. eexists. split; [done|]. intros _. by rewrite <- app_assoc.
  - cbn [orb negb Nat.eqb]. rewrite (proj2 (Nat.eqb_neq (length front + 1) 0)) by lia. replace (length front + 2 - 1)%nat with (length front + 1)%nat by lia. rewrite Nat.eqb_refl. cbn [negb]. rewrite elem_app by lia. cbn [mbind res_bind].
    destruct (Z.eqb_spec k k') as [->|Hne]; cbn [negb]; [|by eexists]. rewrite write_app by lia. cbn [mbind res_bind]. eexists. by split.
  - rewrite orb_true_r. cbn [negb]. rewrite app_nil_r, Nat.add_0_r. cbn [length] in Lf. rewrite Nat.max_0_r in Lf. destruct (Nat.eqb_spec (length front) 0) as [E|E].
    + assert (l = []) as -> by (apply nil_length_inv; lia). cbn. rewrite (Hv eq_refl eq_refl), Z.eqb_refl. eexists. by split.
    + rewrite (proj2 (Nat.eqb_neq (length l + 1) 1)) by lia. rewrite Nat.add_sub, Nat.eqb_refl. cbn [negb]. unfold elem. cbn [lookup list_lookup of_option mbind res_bind]. destruct (Z.eqb_spec k k') as [->|Hne]; cbn [negb]; eexists; split; done.
Qed.
Lemma matrix_sizes left right l r m k k' n suffix : promoted left right l r m k k' n suffix →
  (if has_vector left right then Ok 1 else elem left (length left - 2)) = Ok m ∧ elem left (length left - 1) = Ok k ∧ (if (length right =? 1)%nat then Ok 1 else elem right (length right - 1)) = Ok n ∧
  (1 ≤ length left)%nat ∧ (1 ≤ length right)%nat ∧
  (Nat.max (length left) (length right) - (if has_vector left right then 1 else 0) = Nat.max (length l) (length r) + length suffix)%nat.
Proof.
  intros [l' r' m' k1 k2 n'|r' k1 k2 n'|l' k1 k2]; rewrite ?length_app; cbn [length].
  - rewrite !(proj2 (Nat.eqb_neq _ 1)) by lia. cbn [orb]. rewrite elem_app, !elem_app2 by lia. split_and!; (done || lia).
  - cbn [orb Nat.eqb]. rewrite (proj2 (Nat.eqb_neq _ 1)) by lia. rewrite elem_app2 by lia. split_and!; (done || lia).
  - rewrite orb_true_r, elem_app by lia. split_and!; (done || lia).
Qed.
