(* ===== verification/MatMulCorrect.v ===== *)
(** MatMul computes the products that [numpy.matmul] defines, and where it does
    not. *)
From S2P Require Import Prelude TensorShape Transpose TransposeProps BroadcastInv BroadcastProps DataMove DataMoveRows ConcatSplit Im2col Im2colProps Im2colNdProps Conv ConvShapes ConvGeometry ConvProps ConvCorrect MatMul MatMulProps.

Abbreviation pos_dims := (Forall (fun d : Z => 1 ≤ d)).
Abbreviation all_ones := (Forall (fun d : Z => d = 1)).

(** ** The shapes *)

Lemma prodZ_1 r : pos_dims r → prodZ r = 1 ↔ all_ones r.
Proof.
  intros H. induction H as [|d r Hd H IH]; [done|]. rewrite prodZ_cons, Forall_cons. pose proof (prodZ_pos _ H). rewrite <- IH. split; [intros E; split; nia|intros [-> ->]; lia].
Qed.
Lemma ones_replicate r : all_ones r → r = replicate (length r) 1.
Proof. induction 1 as [|d r -> H IH]; [done|]. cbn. by rewrite <- IH. Qed.

Section shapes.
Context (left right l r : list Z) (m k k' n : Z) (suffix : list Z) (Hp : promoted left right l r m k k' n suffix).
Context (Hl : pos_dims l) (Hr : pos_dims r) (Hm : 1 ≤ m < 2 ^ 31) (Hk : 1 ≤ k < 2 ^ 31) (Hk' : 1 ≤ k' < 2 ^ 31) (Hn : 1 ≤ n < 2 ^ 31).
Context (Bl : prodZ l * (m * k) < 2 ^ 63) (Br : prodZ r * (k' * n) < 2 ^ 63).
Abbreviation ps := (axis_pairs l r).
Abbreviation dims := (outs ps).

Lemma padded_prod : prodZ ps.*1 = prodZ l ∧ prodZ ps.*2 = prodZ r.
Proof. by rewrite axis_pairs_fst, axis_pairs_snd, !prodZ_ones. Qed.
Lemma pairs_length : length ps = Nat.max (length l) (length r).
Proof. rewrite axis_pairs_length. lia. Qed.

(** When the left operand is taken as one matrix. *)
Lemma flattens_ok : ∃ b, matmul_flattens left right = Ok b ∧ (b = true ↔ length suffix = 2%nat ∧ all_ones r).
Proof.
  unfold matmul_flattens. destruct Hp as [l' r' m' k1 k2 n'|r' k1 k2 n'|l' k1 k2].
  - rewrite !length_app. cbn [length]. rewrite !(proj2 (Nat.leb_le _ _)) by lia. cbn [andb]. replace (length r' + 2 - 1)%nat with (length r' + 1)%nat by lia.
    pose proof (prodZ_pos _ Hr) as Pr. rewrite SizeToDimension_ok; [| |rewrite prodZ_app; cbn; lia|rewrite length_app; cbn; lia].
    + cbn [mbind res_bind]. rewrite elem_app by lia. cbn [mbind res_bind]. rewrite take_app_add, prodZ_app. cbn [take prodZ foldr]. eexists. split; [done|]. rewrite Z.eqb_eq, Z.mul_1_r, <- prodZ_1 by done. split; [intros E; split; [done|]; clear - E Hk'; nia|intros [_ E]; rewrite E; lia].
    + apply Forall_app. split; [done|]. repeat constructor; lia.
  - eexists. split; [done|]. split; [done|]. by intros [? _].
  - rewrite andb_false_r. eexists. split; [done|]. split; [done|]. by intros [? _].
Qed.
Lemma flattened_ok : length suffix = 2%nat → matmul_flattened left right = Ok (if k =? k' then (StatusOK, Some (mkMatMul (l ++ [m; n]) (prodZ l * m) n k [0] [0] [0])) else (Some FAIL, None)).
Proof.
  intros Hs. destruct Hp as [l' r' m' k1 k2 n'|r' k1 k2 n'|l' k1 k2]; [|done|done]. unfold matmul_flattened. rewrite !length_app. cbn [length]. replace (length l' + 2 - 1)%nat with (length l' + 1)%nat by lia.
  pose proof (prodZ_pos _ Hl) as Pl. rewrite SizeToDimension_ok; [| |rewrite prodZ_app; cbn; lia|rewrite length_app; cbn; lia].
  - cbn [mbind res_bind]. rewrite (elem_app2 l'), (elem_app2 r' [] (length r' + 2 - 1)), (elem_app r') by lia. cbn [mbind res_bind]. replace (l' ++ [m'; k1]) with ((l' ++ [m']) ++ [k1]) by (by rewrite <- app_assoc). rewrite write_app by (rewrite length_app; cbn; lia). cbn [mbind res_bind].
    rewrite <- !app_assoc. cbn [app]. rewrite take_app_add, prodZ_app. cbn [take prodZ foldr]. rewrite Z.mul_1_r. by destruct (k1 =? k2).
  - apply Forall_app. split; [done|]. repeat constructor; lia.
Qed.

(** The general path. *)
Lemma general_ok : matmul_flattens left right = Ok false → not_two_vectors l r suffix k k' → prodZ dims * (m * n) < 2 ^ 63 →
  if decide (Forall compatible ps ∧ k = k')
  then ∃ lo ro oo, MatMulComputeHelper_Compute left right = Ok (StatusOK, Some (mkMatMul (dims ++ suffix) m n k lo ro oo)) ∧ OffsetsOk ps m k n lo ro oo
  else MatMulComputeHelper_Compute left right = Ok (Some FAIL, None).
Proof.
  intros Hflat Hv Bo. destruct (matrix_sizes _ _ _ _ _ _ _ _ _ Hp) as (EM & EK & EN & L1 & R1 & Lout). pose proof (axis_pairs_pos _ _ Hl Hr) as Hpos. pose proof pairs_length as Lps.
  assert (E : MatMulComputeHelper_Compute left right =
    ('(status, output_dims) ← foldM (matmul_broadcast_dim (ps.*1 ++ [m; k]) (ps.*2 ++ [k'; n])) (StatusOK, replicate (length ps + length suffix) 0) (seq 0 (length ps));
     if negb (IsOK status) then Ok (status, None)
     else '(status, output_dims) ← matmul_output_dims left right (has_vector left right) (length ps + 2) m n k output_dims;
          if negb (IsOK status) then Ok (status, None)
          else o ← ComputeBroadcastOffsets m n k (ps.*1 ++ [m; k]) (ps.*2 ++ [k'; n]); Ok (StatusOK, Some (mkMatMul output_dims m n k (left_offsets o) (right_offsets o) (output_offsets o))))).
  { unfold MatMulComputeHelper_Compute. rewrite (proj2 (Nat.leb_le 1 _) L1), (proj2 (Nat.leb_le 1 _) R1). cbn [andb negb]. rewrite Hflat. cbn [mbind res_bind]. rewrite (padded_ok _ _ _ _ _ _ _ _ _ Hp). cbn [mbind res_bind].
    rewrite EM, EK, EN. cbn [mbind res_bind]. rewrite Lout, <- Lps, length_app, length_fmap. cbn [length]. by rewrite Nat.add_sub. }
  rewrite E. clear E. destruct (broadcast_loop ps [m; k] [k'; n] (replicate (length ps + length suffix) 0) Hpos) as (dims1 & -> & Hd1); [rewrite length_replicate; lia|]. cbn [mbind res_bind].
  destruct (decide (Forall compatible ps)) as [Hc|Hc]; [|by rewrite decide_False by tauto]. cbn [IsOK StatusOK negb]. rewrite Hd1 by done. rewrite drop_replicate. replace (length ps + length suffix - length ps)%nat with (length suffix) by lia.
  destruct (output_dims_ok _ _ _ _ _ _ _ _ _ dims Hp) as (dims2 & E2 & Hd2); [by rewrite length_fmap|done|]. rewrite length_fmap in E2. rewrite E2. cbn [mbind res_bind]. destruct (Z.eqb_spec k k') as [Ek|Hne]; [|by rewrite decide_False by tauto]. rewrite decide_True by done.
  cbn [IsOK StatusOK negb]. rewrite (Hd2 Ek). destruct padded_prod as [P1 P2]. destruct (ComputeBroadcastOffsets_ok ps m k n [m; k] [k'; n]) as (o & -> & Ho); [|done|done|lia|lia|lia|by rewrite P1|rewrite P2, Ek; exact Br|done|].
  - apply Forall_and in Hpos as [H1 H2]. apply Forall_forall. intros p Hin. rewrite Forall_forall in H1, H2, Hc. split; [by apply H1|]. split; [by apply H2|by apply Hc].
  - eexists _, _, _. by split.
Qed.
End shapes.

(** ** The products *)

(** Where the operands are read, in terms of the shapes without the ones. *)
Lemma operand_pos l r d : valid_index (outs (axis_pairs l r)) d →
  flat (axis_pairs l r).*1 (broadcast_index (axis_pairs l r).*1 d) = broadcast_pos l d ∧ flat (axis_pairs l r).*2 (broadcast_index (axis_pairs l r).*2 d) = broadcast_pos r d.
Proof. intros [Ld _]. rewrite length_fmap, pairs_length in Ld. rewrite axis_pairs_fst, axis_pairs_snd. split; apply flat_ones; lia. Qed.
Lemma broadcast_pos_ones r d : all_ones r → (length r ≤ length d)%nat → broadcast_pos r d = 0.
Proof.
  intros H Hle. unfold broadcast_pos. assert (Le : length (drop (length d - length r) d) = length r) by (rewrite length_drop; lia). revert Le. generalize (drop (length d - length r) d). clear Hle. induction H as [|x r -> H IH]; intros e Le; [done|]. destruct e as [|i e]; [done|].
  cbn [broadcast_index zip_with Z.eqb Pos.eqb]. rewrite flat_cons. unfold broadcast_index in IH. rewrite IH by (by injection Le). done.
Qed.
(** The right operand is one matrix: the shape is that of the left one. *)
Lemma outs_ones l r : pos_dims l → all_ones r → (length r ≤ length l)%nat → outs (axis_pairs l r) = l ∧ Forall compatible (axis_pairs l r).
Proof.
  intros Hl Hr Hle. assert (H2 : Forall (fun p => snd p = 1) (axis_pairs l r)). { assert (H : all_ones (axis_pairs l r).*2) by (rewrite axis_pairs_snd; apply Forall_app; split; [by apply Forall_replicate|done]). by rewrite Forall_fmap in H. }
  assert (H1 : (axis_pairs l r).*1 = l) by (rewrite axis_pairs_fst; by replace (length r - length l)%nat with 0%nat by lia). split.
  - rewrite <- H1 at 2. rewrite <- H1 in Hl. rewrite Forall_fmap in Hl. apply list_fmap_ext. intros i p Hp. pose proof (Forall_lookup_1 _ _ _ _ H2 Hp) as E2. pose proof (Forall_lookup_1 _ _ _ _ Hl Hp) as E1. unfold largest, compose in *. lia.
  - eapply Forall_impl; [exact H2|]. intros p Ep. right. by left.
Qed.

Section matmul.
Context {A : Type} (garbage zero : A) (dot : list (A * A) → A) (Gemm : Z → Z → Z → list A → list A → list A) (Hgemm : gemm_spec zero dot Gemm).
(** The element in row [i] and column [j] of the product at the index [d]. *)
Definition matmul_at (l r : list Z) (m k n : Z) (X W : list A) (d : list Z) (i j : Z) : A :=
  dot ((fun x => (default zero (X !! Z.to_nat (broadcast_pos l d * (m * k) + (i * k + x))), default zero (W !! Z.to_nat (broadcast_pos r d * (k * n) + (x * n + j))))) <$> seqZ 0 k).
Definition matmul_result (left right l r : list Z) (m k k' n : Z) (suffix : list Z) (X W : list A) : Prop :=
  let dims := largest <$> axis_pairs l r in
  if decide (Forall compatible (axis_pairs l r) ∧ k = k')
  then ∃ Y, MatMul_Compute garbage Gemm (left, X) (right, W) = Ok (StatusOK, Some (dims ++ suffix, Y)) ∧
    ∀ d i j, valid_index dims d → 0 ≤ i < m → 0 ≤ j < n → Y !! Z.to_nat (flat dims d * (m * n) + (i * n + j)) = Some (matmul_at l r m k n X W d i j)
  else MatMul_Compute garbage Gemm (left, X) (right, W) = Ok (Some FAIL, None).

Lemma suffix_prod left right l r m k k' n suffix : promoted left right l r m k k' n suffix → prodZ suffix = m * n.
Proof. intros []; cbn; ring. Qed.
Lemma suffix_matrix left right l r m k k' n suffix : promoted left right l r m k k' n suffix → length suffix = 2%nat → suffix = [m; n].
Proof. by intros []. Qed.

Section operands.
Context (left right l r : list Z) (m k k' n : Z) (suffix : list Z) (X W : list A) (Hp : promoted left right l r m k k' n suffix).
Context (Hl : pos_dims l) (Hr : pos_dims r) (Hm : 1 ≤ m < 2 ^ 31) (Hk : 1 ≤ k < 2 ^ 31) (Hk' : 1 ≤ k' < 2 ^ 31) (Hn : 1 ≤ n < 2 ^ 31).
Context (Bl : prodZ l * (m * k) < 2 ^ 63) (Br : prodZ r * (k' * n) < 2 ^ 63).
Context (LX : Z.of_nat (length X) = prodZ l * (m * k)) (LW : Z.of_nat (length W) = prodZ r * (k' * n)).
Abbreviation dims := (outs (axis_pairs l r)).

Lemma pairs_ok : Forall compatible (axis_pairs l r) → Forall pair_ok (axis_pairs l r).
Proof. intros Hc. pose proof (axis_pairs_pos _ _ Hl Hr) as Hpos. rewrite Forall_forall in *. intros p Hin. destruct (Hpos p Hin). split; [done|]. split; [done|by apply Hc]. Qed.
Lemma general_result : matmul_flattens left right = Ok false → not_two_vectors l r suffix k k' → prodZ dims * (m * n) < 2 ^ 63 → prodZ dims < 2 ^ 31 → matmul_result left right l r m k k' n suffix X W.
Proof.
  intros Hflat Hv Bo Bn. pose proof (general_ok _ _ _ _ _ _ _ _ _ Hp Hl Hr Hm Hk Hk' Hn Bl Br Hflat Hv Bo) as H. unfold matmul_result. destruct (decide _) as [[Hc Ek]|Hne].
  - destruct H as (lo & ro & oo & E & Ho). destruct (padded_prod l r) as [P1 P2]. rewrite <- P1 in LX. rewrite <- P2, <- Ek in LW.
    destruct (matmul_run garbage zero dot Gemm Hgemm _ (pairs_ok Hc) m k n Hm Hk Hn X W LX LW (mkMatMul (dims ++ suffix) m n k lo ro oo) eq_refl eq_refl eq_refl Ho left right E) as (Y & EY & _ & HY); [cbn; by rewrite prodZ_app, (suffix_prod _ _ _ _ _ _ _ _ _ Hp)|done|].
    exists Y. split; [exact EY|]. intros d i j Hd Hi Hj. pose proof (flat_bound _ _ Hd) as Hf. rewrite HY by (done || lia). unfold matmul_at, product_of. destruct (operand_pos l r d Hd) as [-> ->]. done.
  - unfold MatMul_Compute. cbn [fst snd]. by rewrite H.
Qed.
(** One matrix on the right. *)
Lemma flattened_result : length suffix = 2%nat → all_ones r → (length r ≤ length l)%nat → matmul_flattens left right = Ok true → prodZ l * m < 2 ^ 31 → matmul_result left right l r m k k' n suffix X W.
Proof.
  intros Hs Hones Hle Hflat Blm. destruct (outs_ones l r Hl Hones Hle) as [Eo Hc]. destruct (matrix_sizes _ _ _ _ _ _ _ _ _ Hp) as (_ & _ & _ & L1 & R1 & _). unfold matmul_result. rewrite Eo.
  assert (E : MatMulComputeHelper_Compute left right = matmul_flattened left right) by (unfold MatMulComputeHelper_Compute; rewrite (proj2 (Nat.leb_le 1 _) L1), (proj2 (Nat.leb_le 1 _) R1), Hflat; done).
  rewrite (flattened_ok _ _ _ _ _ _ _ _ _ Hp Hl Hr Hm Hk Hk' Hn Bl Br Hs) in E. pose proof (suffix_matrix _ _ _ _ _ _ _ _ _ Hp Hs) as Es. destruct (Z.eqb_spec k k') as [Ek|Hne].
  - rewrite decide_True by done. pose proof (prodZ_pos _ Hl) as Pl. assert (Pr : prodZ r = 1) by (by apply prodZ_1). pose proof (mul_pos _ _ Pl (proj1 Hm)) as Plm.
    assert (LX' : Z.of_nat (length X) = prodZ (@nil (Z * Z)).*1 * (prodZ l * m * k)) by (rewrite LX; change (prodZ [].*1) with 1; ring).
    assert (LW' : Z.of_nat (length W) = prodZ (@nil (Z * Z)).*2 * (k * n)) by (rewrite LW, Pr, Ek; done).
    assert (Ho : OffsetsOk [] (prodZ l * m) k n [0] [0] [0]) by (split; [done|]; intros d ->%valid_index_nil; done).
    destruct (matmul_run garbage zero dot Gemm Hgemm [] (Forall_nil_2 _) (prodZ l * m) k n (conj Plm Blm) Hk Hn X W LX' LW' (mkMatMul (l ++ [m; n]) (prodZ l * m) n k [0] [0] [0]) eq_refl eq_refl eq_refl Ho left right E) as (Y & EY & _ & HY); [|done|].
    + cbn [mm_output_shape]. rewrite prodZ_app. cbn. ring.
    + rewrite Es. exists Y. split; [exact EY|]. intros d i j Hd Hi Hj. pose proof (flat_bound _ _ Hd) as Hf. pose proof (pair_bound _ _ i m Hf Hi) as Hfi.
      specialize (HY [] (flat l d * m + i) j ltac:(by split; [|cbn; lia]) ltac:(done) Hfi Hj). change (flat (outs []) []) with 0 in HY. rewrite Z.mul_0_l, Z.add_0_l in HY.
      replace (flat l d * (m * n) + (i * n + j)) with ((flat l d * m + i) * n + j) by ring. rewrite HY. f_equal. unfold product_of, matmul_at. change (flat _ (broadcast_index _ _)) with 0. rewrite !Z.mul_0_l, (broadcast_pos_ones r d Hones), (broadcast_pos_same l d Hd) by (by rewrite (proj1 Hd)).
      f_equal. apply list_fmap_ext. intros x y _. rewrite !Z.add_0_l. do 4 f_equal. ring.
  - rewrite decide_False by tauto. unfold MatMul_Compute. cbn [fst snd]. by rewrite E.
Qed.
End operands.
End matmul.

(** C14. MatMul, given a product of matrices: operands whose dimensions in front
    can be broadcast and whose matrices fit are multiplied matrix by matrix, at
    every index of the broadcast dimensions, whether the left operand is taken as
    one matrix or not; a vector is a row or a column. All others are refused. Not
    covered are operands that the code accepts without a check it should make:
    two vectors of different lengths ([matmul_vectors_unchecked]), and a right
    operand with more leading ones than the left one has dimensions
    ([matmul_rank_lost]). No dimension is empty, and the sizes fit the [int] and
    [int64_t] that count them. *)
Theorem matmul_correct {A} (garbage zero : A) (dot : list (A * A) → A) Gemm left right l r m k k' n suffix (X W : list A) :
  gemm_spec zero dot Gemm → promoted left right l r m k k' n suffix → not_two_vectors l r suffix k k' → (length suffix = 2%nat → all_ones r → (length r ≤ length l)%nat) →
  pos_dims l → pos_dims r → 1 ≤ m < 2 ^ 31 → 1 ≤ k < 2 ^ 31 → 1 ≤ k' < 2 ^ 31 → 1 ≤ n < 2 ^ 31 →
  prodZ l * (m * k) < 2 ^ 63 → prodZ r * (k' * n) < 2 ^ 63 → prodZ (largest <$> axis_pairs l r) * (m * n) < 2 ^ 63 → prodZ (largest <$> axis_pairs l r) < 2 ^ 31 → prodZ l * m < 2 ^ 31 →
  Z.of_nat (length X) = prodZ l * (m * k) → Z.of_nat (length W) = prodZ r * (k' * n) →
  matmul_result garbage zero dot Gemm left right l r m k k' n suffix X W.
Proof.
  intros Hgemm Hp Hv Hrank Hl Hr Hm Hk Hk' Hn Bl Br Bo Bn Blm LX LW. destruct (flattens_ok _ _ _ _ _ _ _ _ _ Hp Hl Hr Hm Hk Hk' Hn Bl Br) as ([|] & Hflat & Hiff).
  - destruct (proj1 Hiff eq_refl) as [Hs Hones]. apply flattened_result; try done. by apply Hrank.
  - by apply general_result.
Qed.

(** Two vectors are multiplied whatever their lengths: the length of the left
    one is taken for both, and the elements of the right one are read beyond its
    end if it is shorter. *)
Theorem matmul_vectors_unchecked a b : MatMulComputeHelper_Compute [a] [b] = Ok (StatusOK, Some (mkMatMul [] 1 1 a [0] [0] [0])).
Proof. done. Qed.

(** A matrix on the right with more leading ones than the left operand has
    dimensions: the result has the rank of the left operand, not the larger rank
    that broadcasting gives it. *)
Theorem matmul_rank_lost l j m k n :
  (length l < j)%nat → pos_dims l → 1 ≤ m < 2 ^ 31 → 1 ≤ k < 2 ^ 31 → 1 ≤ n < 2 ^ 31 → prodZ l * (m * k) < 2 ^ 63 →
  MatMulComputeHelper_Compute (l ++ [m; k]) (replicate j 1 ++ [k; n]) = Ok (StatusOK, Some (mkMatMul (l ++ [m; n]) (prodZ l * m) n k [0] [0] [0])) ∧
  (length (l ++ [m; n]) < length ((largest <$> axis_pairs l (replicate j 1%Z)) ++ [m; n]))%nat.
Proof.
  intros Hj Hl Hm Hk Hn Bl. assert (Hr : pos_dims (replicate j 1)) by (by apply Forall_replicate). assert (Pr : prodZ (replicate j 1) = 1) by (rewrite <- (app_nil_r (replicate j 1)), prodZ_ones; done).
  assert (Br : prodZ (replicate j 1) * (k * n) < 2 ^ 63) by (rewrite Pr; nia). pose proof (promoted_both l (replicate j 1) m k k n) as Hp.
  destruct (flattens_ok _ _ _ _ _ _ _ _ _ Hp Hl Hr Hm Hk Hk Hn Bl Br) as (b & Hflat & Hiff). assert (b = true) as -> by (apply Hiff; split; [done|by apply Forall_replicate]). split.
  - destruct (matrix_sizes _ _ _ _ _ _ _ _ _ Hp) as (_ & _ & _ & L1 & R1 & _). unfold MatMulComputeHelper_Compute. rewrite (proj2 (Nat.leb_le 1 _) L1), (proj2 (Nat.leb_le 1 _) R1), Hflat. cbn [andb negb mbind res_bind].
    rewrite (flattened_ok _ _ _ _ _ _ _ _ _ Hp Hl Hr Hm Hk Hk Hn Bl Br eq_refl). by rewrite Z.eqb_refl.
  - rewrite !length_app, length_fmap, pairs_length, length_replicate. cbn [length]. lia.
Qed.

(** ** Examples *)

Lemma matmul_correct_witness :
  ∃ Y, MatMul_Compute 99 SmallConv.gemm ([2; 1; 2], [1; 2; 3; 4]) ([2; 2; 1], [10; 20; 30; 40]) = Ok (StatusOK, Some ([2; 1; 1], Y)) ∧ Y !! 1%nat = Some 250.
Proof.
  pose proof (matmul_correct 99 0 SmallConv.dot SmallConv.gemm [2; 1; 2] [2; 2; 1] [2] [2] 1 2 2 1 [1; 1] [1; 2; 3; 4] [10; 20; 30; 40] SmallConv.gemm_ok (promoted_both [2] [2] 1 2 2 1)) as H.
  assert (H' : matmul_result 99 0 SmallConv.dot SmallConv.gemm [2; 1; 2] [2; 2; 1] [2] [2] 1 2 2 1 [1; 1] [1; 2; 3; 4] [10; 20; 30; 40]).
  { apply H; first [done|by repeat constructor|intros _ Hones; by inversion Hones]. }
  clear H. unfold matmul_result in H'. rewrite decide_True in H' by (split; [repeat constructor; by right; right|done]). destruct H' as (Y & E & HY). exists Y. split; [exact E|].
  etransitivity; [apply (HY [1] 0 0); [by apply SmallConv.single_valid|done|done]|vm_compute; reflexivity].
Defined.
Lemma matmul_rank_lost_witness :
  MatMulComputeHelper_Compute [2; 3] [1; 3; 4] = Ok (StatusOK, Some (mkMatMul [2; 4] 2 4 3 [0] [0] [0])).
Proof. destruct (matmul_rank_lost [] 1 2 3 4) as [H _]; try done. cbn. lia. Defined.
