(* ===== verification/GemmProps.v ===== *)
(** What Gemm computes, and which shapes it accepts. *)
From S2P Require Import Prelude TensorShape Transpose TransposeProps BroadcastInv BroadcastProps DataMove DataMoveRows ConcatSplit Im2col Im2colProps Im2colNdProps Conv ConvShapes ConvGeometry ConvProps ConvCorrect MatMul MatMulProps.

(** ** The bias *)

Section bias.
Context {A : Type} (zero : A) (add : A → A → A) (M N : Z) (HM : 1 ≤ M) (HN : 1 ≤ N) (place : Z → Z → Z) (B : list A) (HB : ∀ i j, 0 ≤ i < M → 0 ≤ j < N → 0 ≤ place i j < Z.of_nat (length B)).
Context (y : Z → A).
Definition bias_upto (t p : Z) : A := if p <? t then add (y p) (default zero (B !! Z.to_nat (place (p / N) (p mod N)))) else y p.
Abbreviation Biased := (fun t => filled (bias_upto t) (M * N) (M * N)).

Lemma gemm_bias_step i j Y : 0 ≤ i < M → 0 ≤ j < N → Biased (i * N + j) Y → ∃ Y', (b ← read B (place i j); add_at add Y (i * N + j) b) = Ok Y' ∧ Biased (i * N + (j + 1)) Y'.
Proof.
  intros Hi Hj [L H]. pose proof (pair_bound i M j N Hi Hj) as Hp. pose proof (HB i j Hi Hj) as Hb. destruct (lookup_lt_is_Some_2 B (Z.to_nat (place i j))) as [x Hx]; [lia|].
  unfold read at 1. rewrite (proj2 (Z.ltb_ge _ 0)) by apply Hb. rewrite Hx. cbn [of_option mbind res_bind]. unfold add_at, read. rewrite (proj2 (Z.ltb_ge _ 0)), H by done || apply Hp. cbn [of_option mbind res_bind]. rewrite write_ok by (rewrite L; done).
  eexists. split; [done|]. split; [by rewrite length_insert|]. intros p Hq. rewrite Z.add_assoc. destruct (decide (p = i * N + j)) as [->|Hne].
  - rewrite list_lookup_insert_eq by (clear - L Hp; lia). f_equal. unfold bias_upto. rewrite Z.ltb_irrefl, (proj2 (Z.ltb_lt _ _)) by (clear; lia). destruct (div_mod_add i N j Hj) as [-> ->]. by rewrite Hx.
  - rewrite list_lookup_insert_ne by (clear - Hp Hq Hne; lia). rewrite H by done. f_equal. unfold bias_upto. destruct (Z.ltb_spec p (i * N + j)), (Z.ltb_spec p (i * N + j + 1)); try done; exfalso; clear - H0 H1 Hne; lia.
Qed.
Lemma gemm_add_bias_ok Y : Biased 0 Y → ∃ Y', gemm_add_bias add M N place B Y = Ok Y' ∧ Biased (M * N) Y'.
Proof.
  intros H0. unfold gemm_add_bias. apply (for_lt_inv (fun i => Biased (i * N))); [lia|done|]. intros i Y1 Hi H1. replace ((i + 1) * N) with (i * N + N) by ring.
  apply (for_lt_inv (fun j => Biased (i * N + j))); [lia|by rewrite Z.add_0_r|]. intros j Y2 Hj. by apply gemm_bias_step.
Qed.
End bias.

(** ** Shapes *)

Ltac case_eqb := match goal with |- context [?a =? ?b] => destruct (Z.eqb_spec a b) end.

(** The shapes of a bias: at most two dimensions that broadcast to those of the
    output. *)
Definition bias_fits (bs : list Z) (m n : Z) : Prop :=
  (length bs ≤ 2)%nat ∧ Forall2 (fun a o => a = 1 ∨ a = o) (replicate (2 - length bs) 1 ++ bs) [m; n].
#[export] Instance bias_fits_dec bs m n : Decision (bias_fits bs m n).
Proof. unfold bias_fits. apply _. Defined.
Lemma bias_fits_1 a m n : bias_fits [a] m n ↔ a = 1 ∨ a = n.
Proof. unfold bias_fits. cbn. rewrite !Forall2_cons, Forall2_nil. naive_solver. Qed.
Lemma bias_fits_2 a b m n : bias_fits [a; b] m n ↔ (a = 1 ∨ a = m) ∧ (b = 1 ∨ b = n).
Proof. unfold bias_fits. cbn. rewrite !Forall2_cons, Forall2_nil. naive_solver. Qed.

Lemma IsValidBroadcast_ok bs m n : bs ≠ [] → Forall (fun d => 1 ≤ d) bs → prodZ bs < 2 ^ 63 → IsValidBroadcast bs m n = bool_decide (bias_fits bs m n).
Proof.
  intros Hne Hp Hb. unfold IsValidBroadcast. rewrite Size_ok by done. destruct bs as [|a [|b [|c bs]]].
  - done.
  - cbn in *. rewrite (bool_decide_ext _ _ (bias_fits_1 a m n)). case_bool_decide; repeat case_eqb; cbn; first [done|exfalso; lia].
  - cbn in *. inversion Hp as [|? ? H1 H2]. inversion H2 as [|? ? H3 _]. subst. rewrite (bool_decide_ext _ _ (bias_fits_2 a b m n)). case_bool_decide; repeat case_eqb; cbn; first [done|exfalso; nia].
  - symmetry. apply bool_decide_eq_false_2. intros [H _]. cbn in H. lia.
Qed.

(** The left operand: a matrix, transposed or not, or a vector. *)
Inductive gemm_left : bool → list Z → Z → Z → Prop :=
  | left_matrix m k : gemm_left false [m; k] m k
  | left_transposed m k : gemm_left true [k; m] m k
  | left_row k : gemm_left false [k] 1 k
  | left_column m : gemm_left true [m] m 1.
Lemma new_GemmHelper_ok trans_left left m k (trans_right : bool) k' n bs :
  gemm_left trans_left left m k → 1 ≤ m → 1 ≤ k → 1 ≤ n →
  new_GemmHelper left trans_left (if trans_right then [n; k'] else [k'; n]) trans_right bs =
    Ok (mkGemmHelper m k n (if negb (IsValidBroadcast bs m n) then Some INVALID_ARGUMENT else if negb (k' =? k) then Some INVALID_ARGUMENT else StatusOK)).
Proof.
  intros Hl Hm Hk Hn. assert (E : new_GemmHelper left trans_left (if trans_right then [n; k'] else [k'; n]) trans_right bs =
    (_ ← enforce ((0 <=? m) && (0 <? k) && (0 <=? n)); Ok (mkGemmHelper m k n (if negb (IsValidBroadcast bs m n) then Some INVALID_ARGUMENT else if negb (k' =? k) then Some INVALID_ARGUMENT else StatusOK)))) by (destruct Hl, trans_right; reflexivity).
  rewrite E, (proj2 (Z.leb_le 0 m)), (proj2 (Z.ltb_lt 0 k)), (proj2 (Z.leb_le 0 n)) by lia. done.
Qed.
Lemma helper_status bs k k' m n : bs ≠ [] → Forall (fun d => 1 ≤ d) bs → prodZ bs < 2 ^ 63 →
  (if negb (IsValidBroadcast bs m n) then Some INVALID_ARGUMENT else if negb (k' =? k) then Some INVALID_ARGUMENT else StatusOK) =@{Status}
  (if decide (k = k' ∧ bias_fits bs m n) then StatusOK else Some INVALID_ARGUMENT).
Proof.
  intros Hne Hb Bb. rewrite IsValidBroadcast_ok by done. case_bool_decide; destruct (Z.eqb_spec k' k); case_decide; cbn; first [done|naive_solver].
Qed.

Section gemm.
Context {A S : Type} (garbage zero : A) (add : A → A → A) (is_zero : S → bool) (dot : list (A * A) → A) (scale : S → A → A) (combine : S → A → S → A → A).
Context (GemmFull : bool → bool → Z → Z → Z → S → list A → list A → S → list A → list A).

(** What the product does: a scaled dot product of a row of the one matrix and a
    column of the other, to which the scaled old value is added unless its factor
    is zero. *)
Definition gemm_full_spec : Prop := ∀ ta tb m n k alpha a b beta c,
  0 < m → 0 < n → 0 < k → Z.of_nat (length a) = m * k → Z.of_nat (length b) = k * n → Z.of_nat (length c) = m * n →
  Z.of_nat (length (GemmFull ta tb m n k alpha a b beta c)) = m * n ∧
  ∀ i j, 0 ≤ i < m → 0 ≤ j < n →
    let row x := default zero (a !! Z.to_nat (if ta : bool then x * m + i else i * k + x)) in
    let column x := default zero (b !! Z.to_nat (if tb : bool then j * k + x else x * n + j)) in
    let d := dot ((fun x => (row x, column x)) <$> seqZ 0 k) in
    GemmFull ta tb m n k alpha a b beta c !! Z.to_nat (i * n + j) = Some (if is_zero beta then scale alpha d else combine alpha d beta (default zero (c !! Z.to_nat (i * n + j)))).

(** The bias is read where broadcasting reads it. *)
Lemma gemm_bias_ok bs B m n Y : 1 ≤ m → 1 ≤ n → Forall (fun d => 1 ≤ d) bs → prodZ bs < 2 ^ 63 → Z.of_nat (length B) = prodZ bs → bs ≠ [] → bias_fits bs m n → Z.of_nat (length Y) = m * n →
  ∃ Y', gemm_bias add m n (bs, B) Y = Ok Y' ∧ Z.of_nat (length Y') = m * n ∧
    ∀ i j, 0 ≤ i < m → 0 ≤ j < n → Y' !! Z.to_nat (i * n + j) = Some (add (default zero (Y !! Z.to_nat (i * n + j))) (default zero (B !! Z.to_nat (broadcast_pos bs [i; j])))).
Proof.
  intros Hm Hn Hp Bp LB Hbs Hf LY. set (y := fun p => default zero (Y !! Z.to_nat p)).
  assert (Hgoal : ∀ place, (∀ i j, 0 ≤ i < m → 0 ≤ j < n → place i j = broadcast_pos bs [i; j] ∧ 0 ≤ place i j < Z.of_nat (length B)) →
    ∃ Y', gemm_add_bias add m n place B Y = Ok Y' ∧ Z.of_nat (length Y') = m * n ∧
      ∀ i j, 0 ≤ i < m → 0 ≤ j < n → Y' !! Z.to_nat (i * n + j) = Some (add (y (i * n + j)) (default zero (B !! Z.to_nat (broadcast_pos bs [i; j]))))).
  { intros place Hpl. destruct (gemm_add_bias_ok zero add m n Hm Hn place B (fun i j Hi Hj => proj2 (Hpl i j Hi Hj)) y Y) as (Y' & E & L & H).
    - split; [done|]. intros p Hq. unfold bias_upto. rewrite (proj2 (Z.ltb_ge p 0)) by apply Hq. unfold y. destruct (lookup_lt_is_Some_2 Y (Z.to_nat p)) as [x Hx]; [lia|]. by rewrite Hx.
    - exists Y'. split; [exact E|]. split; [done|]. intros i j Hi Hj. pose proof (pair_bound i m j n Hi Hj) as Hij. rewrite H by done. unfold bias_upto. rewrite (proj2 (Z.ltb_lt _ _)) by apply Hij. destruct (div_mod_add i n j Hj) as [-> ->]. by rewrite (proj1 (Hpl i j Hi Hj)). }
  unfold gemm_bias. cbn [fst snd]. rewrite Size_ok by done. destruct Hf as [Hr Hf]. destruct bs as [|a [|b [|c bs]]]; [done| | |cbn in Hr; lia].
  - assert (Hfit : a = 1 ∨ a = n) by (apply (bias_fits_1 a m n); by split). cbn [prodZ foldr length Nat.eqb] in *. rewrite Z.mul_1_r in *. assert (Ep : ∀ i j, broadcast_pos [a] [i; j] = if a =? 1 then 0 else j) by (intros i j; unfold broadcast_pos; cbn; by destruct (a =? 1)).
    destruct (Z.eqb_spec a 1) as [->|Hne]; apply Hgoal; intros i j Hi Hj; rewrite Ep, LB; cbn; lia.
  - assert (Hfit : (a = 1 ∨ a = m) ∧ (b = 1 ∨ b = n)) by (apply (bias_fits_2 a b m n); by split). unfold elem. cbn [prodZ foldr length Nat.eqb lookup list_lookup of_option mbind res_bind] in *. rewrite Z.mul_1_r in *. inversion Hp as [|? ? H1 H2]. inversion H2 as [|? ? H3 _]. subst.
    assert (Ep : ∀ i j, broadcast_pos [a; b] [i; j] = (if a =? 1 then 0 else i) * b + (if b =? 1 then 0 else j)) by (intros i j; unfold broadcast_pos, broadcast_index; cbn [length Nat.sub drop zip_with]; rewrite !flat_cons; change (flat [] []) with 0; change (prodZ []) with 1; change (prodZ [b]) with (b * 1); ring).
    destruct (Z.eqb_spec (a * b) 1) as [E1|E1]; [apply Hgoal; intros i j Hi Hj; rewrite Ep; assert (a = 1) as -> by nia; assert (b = 1) as -> by nia; cbn; lia|].
    destruct (Z.eqb_spec b 1) as [->|Eb]; [apply Hgoal; intros i j Hi Hj; rewrite Ep; destruct (Z.eqb_spec a 1) as [->|Ea]; [done|]; lia|].
    destruct (Z.eqb_spec a 1) as [->|Ea]; apply Hgoal; intros i j Hi Hj; rewrite Ep.
    + cbn. lia.
    + assert (a = m) as -> by lia. assert (b = n) as -> by lia. rewrite LB. split; [ring|by apply pair_bound].
Qed.
End gemm.

(** C15. Gemm without empty dimensions and with a bias that has at least one,
    given a product of matrices: operands that fit, with a bias that broadcasts to
    the shape of the output, give the scaled products of rows and columns,
    transposed as the attributes say, plus the scaled bias; a vector on the left
    is a row, or a column if it is transposed. Other sizes and other shapes of
    the bias are refused. A bias without dimensions broadcasts as well, and is
    refused: [gemm_scalar_bias_refused]. *)
Theorem gemm_correct {A S} (garbage zero : A) (add : A → A → A) (is_zero : S → bool) (dot : list (A * A) → A) (scale : S → A → A) (combine : S → A → S → A → A) GemmFull c left m k k' n bs (X W B : list A) :
  gemm_full_spec zero is_zero dot scale combine GemmFull → gemm_left (trans_A_ c) left m k → 1 ≤ m → 1 ≤ k → 1 ≤ n → bs ≠ [] → Forall (fun d => 1 ≤ d) bs → prodZ bs < 2 ^ 63 →
  Z.of_nat (length X) = m * k → Z.of_nat (length W) = k' * n → Z.of_nat (length B) = prodZ bs →
  let result := Gemm_Compute garbage zero add is_zero GemmFull c (left, X) (if trans_B_ c then [n; k'] else [k'; n], W) (bs, B) in
  if decide (k = k' ∧ bias_fits bs m n) then
    ∃ Y, result = Ok (StatusOK, Some ([m; n], Y)) ∧ ∀ i j, 0 ≤ i < m → 0 ≤ j < n →
      let row x := default zero (X !! Z.to_nat (if trans_A_ c then x * m + i else i * k + x)) in
      let column x := default zero (W !! Z.to_nat (if trans_B_ c then j * k + x else x * n + j)) in
      let d := dot ((fun x => (row x, column x)) <$> seqZ 0 k) in
      Y !! Z.to_nat (i * n + j) =
        Some (if is_zero (beta_ c) then scale (alpha_ c) d else combine (alpha_ c) d (beta_ c) (add zero (default zero (B !! Z.to_nat (broadcast_pos bs [i; j])))))
  else result = Ok (Some INVALID_ARGUMENT, None).
Proof.
  intros Hgemm Hleft Hm Hk Hn Hb0 Hbs Bbs LX LW LB result. unfold result, Gemm_Compute. cbn [fst snd]. rewrite (new_GemmHelper_ok _ _ m k _ k' n bs Hleft Hm Hk Hn), (helper_status bs k k' m n Hb0 Hbs Bbs). cbn [mbind res_bind gh_status gh_M gh_N gh_K].
  destruct (decide (k = k' ∧ bias_fits bs m n)) as [[<- Hfit]|Hne]; [|done]. cbn [IsOK StatusOK negb]. rewrite (proj2 (Z.eqb_neq m 0)), (proj2 (Z.eqb_neq n 0)) by lia. cbn [orb]. pose proof (mul_pos _ _ Hm Hn) as Pmn.
  assert (Ln : ∀ x : A, Z.of_nat (length (new_output x [m; n])) = m * n) by (intros x; unfold new_output; rewrite length_replicate; change (prodZ [m; n]) with (m * (n * 1)); lia).
  assert (Hbias : ∃ Y, (if negb (is_zero (beta_ c)) then gemm_bias add m n (bs, B) (replicate (length (new_output garbage [m; n])) zero) else Ok (new_output garbage [m; n])) = Ok Y ∧ Z.of_nat (length Y) = m * n ∧
    (is_zero (beta_ c) = false → ∀ i j, 0 ≤ i < m → 0 ≤ j < n → default zero (Y !! Z.to_nat (i * n + j)) = add zero (default zero (B !! Z.to_nat (broadcast_pos bs [i; j]))))).
  { destruct (is_zero (beta_ c)); cbn [negb]; [by eexists|]. destruct (gemm_bias_ok zero add bs B m n (replicate (length (new_output garbage [m; n])) zero)) as (Y & E & L & H); try done; [by rewrite length_replicate|].
    exists Y. split; [done|]. split; [done|]. intros _ i j Hi Hj. rewrite H by done. cbn [default]. pose proof (pair_bound i m j n Hi Hj). specialize (Ln garbage). rewrite (lookup_replicate_2 _ zero) by lia. done. }
  destruct Hbias as (Y & -> & LY & HY). cbn [mbind res_bind]. destruct (Hgemm (trans_A_ c) (trans_B_ c) m n k (alpha_ c) X W (beta_ c) Y) as [LG HG]; [lia..|].
  destruct (memcpy_ok Y 0 (GemmFull (trans_A_ c) (trans_B_ c) m n k (alpha_ c) X W (beta_ c) Y) 0 (m * n)) as (Y' & -> & _ & Hin & _); [lia..|]. cbn [mbind res_bind]. exists Y'. split; [done|].
  intros i j Hi Hj. cbv zeta. rewrite <- (Z.add_0_l (i * n + j)), Hin by (by apply pair_bound). rewrite Z.add_0_l, HG by done. cbv zeta. f_equal. destruct (is_zero (beta_ c)); [done|]. by rewrite HY.
Qed.

(** The comment of [IsValidBroadcast] names the shape without dimensions among
    those that it takes, and it broadcasts to every output, but it is refused
    (gemm_helper.h:54). *)
Lemma gemm_scalar_bias_refused {A S} (garbage zero : A) add (is_zero : S → bool) GemmFull c left m k k' n (X W : list A) b :
  gemm_left (trans_A_ c) left m k → 1 ≤ m → 1 ≤ k → 1 ≤ n →
  bias_fits [] m n ∧
  Gemm_Compute garbage zero add is_zero GemmFull c (left, X) (if trans_B_ c then [n; k'] else [k'; n], W) ([], [b]) = Ok (Some INVALID_ARGUMENT, None).
Proof.
  intros Hleft Hm Hk Hn. split; [split; [cbn; lia|by repeat constructor]|].
  unfold Gemm_Compute. cbn [fst snd]. by rewrite (new_GemmHelper_ok _ _ m k _ k' n [] Hleft Hm Hk Hn).
Qed.

(** ** Example *)

Module SmallGemm.
Definition gemm_full (ta tb : bool) (m n k alpha : Z) (a b : list Z) (beta : Z) (c : list Z) : list Z :=
  SmallConv.table m n (fun i j =>
    alpha * SmallConv.dot ((fun x => (default 0 (a !! Z.to_nat (if ta then x * m + i else i * k + x)), default 0 (b !! Z.to_nat (if tb then j * k + x else x * n + j)))) <$> seqZ 0 k) +
    (if beta =? 0 then 0 else beta * default 0 (c !! Z.to_nat (i * n + j)))).
Lemma gemm_full_ok : gemm_full_spec 0 (Z.eqb 0) SmallConv.dot Z.mul (fun alpha d beta y => alpha * d + beta * y) gemm_full.
Proof.
  intros ta tb m n k alpha a b beta c Hm Hn _ _ _ _. destruct (SmallConv.matrix_table_ok m n (fun i j =>
    alpha * SmallConv.dot ((fun x => (default 0 (a !! Z.to_nat (if ta then x * m + i else i * k + x)), default 0 (b !! Z.to_nat (if tb then j * k + x else x * n + j)))) <$> seqZ 0 k) +
    (if beta =? 0 then 0 else beta * default 0 (c !! Z.to_nat (i * n + j)))) Hm Hn) as [L H]. split; [done|]. intros i j Hi Hj. unfold gemm_full. rewrite H by done. cbv zeta. f_equal. rewrite (Z.eqb_sym 0). destruct (beta =? 0); [ring|done].
Qed.
End SmallGemm.
Lemma gemm_correct_witness :
  ∃ Y, Gemm_Compute 99 0 Z.add (Z.eqb 0) SmallGemm.gemm_full (mkGemm true false 2 3) ([2; 1], [4; 5]) ([2; 2], [1; 2; 10; 20]) ([1; 2], [7; 8]) = Ok (StatusOK, Some ([1; 2], Y)) ∧ Y !! 1%nat = Some (2 * (4 * 2 + 5 * 20) + 3 * 8).
Proof.
  pose proof (gemm_correct 99 0 Z.add (Z.eqb 0) SmallConv.dot Z.mul (fun alpha d beta y => alpha * d + beta * y) SmallGemm.gemm_full (mkGemm true false 2 3) [2; 1] 1 2 2 2 [1; 2] [4; 5] [1; 2; 10; 20] [7; 8] SmallGemm.gemm_full_ok (left_transposed 1 2)) as H.
  cbv zeta in H. rewrite decide_True in H by (split; [done|]; apply bias_fits_2; split; [by left|by right]). destruct H as (Y & E & HY); try done; [by repeat constructor|]. exists Y. split; [exact E|].
  etransitivity; [apply (HY 0 1); done|vm_compute; reflexivity].
Defined.
